(* ===== verification/_CoqProject ===== *)
-Q . S2P
Prelude.v
RustStr.v
Hex.v
Json.v
WorkloadClaims.v
ClaimsTheorems.v
AccessVocab.v
AccessTheorems.v
AccessGrants.v
AccessEngine.v
GrantLemmas.v
AccessDecisions.v
Lockout.v
VisibleQueries.v
AccessCache.v
ReportTracker.v
Paginate.v
WsProtocol.v
WireEnums.v
ServiceConnections.v
ConfigModel.v
ReloadCoordinator.v
Reloadables.v
ConfigLoader.v
Crypto.v
CryptoTheorems.v
CryptoBoot.v
Reencrypt.v
CryptoWitnesses.v
Ecies.v
SurfaceTypes.v
SurfaceContract.v
SurfaceRegistry.v
SurfaceTheorems.v
SurfaceQueries.v
SurfaceProxy.v
SurfaceInFlight.v
SurfaceInFlightTheorems.v
SurfaceDispatch.v
UpdateHistory.v
UpdateBatches.v
UpdateTheorems.v
UpdateBatchTheorems.v
UpdateCreation.v
UpdateWitnesses.v
Scheduler.v
Handlers.v
RateLimit.v
OAuthStore.v
OAuthTheorems.v
OAuthRoutes.v
OAuthFlows.v
OAuthWitnesses.v
TokenDenylist.v
AuthStore.v
AuthRoutes.v
AuthTheorems.v
AuthFlows.v
OidcStore.v
OidcRoutes.v
OidcTheorems.v
OidcFlows.v
OidcAccounts.v
OidcWitnesses.v
Egress.v
EgressTheorems.v
Shell.v
DockerImages.v
DockerRegistry.v
DockerPlugin.v
DockerTheorems.v
SettingsSnapshot.v
SettingsVersions.v
SettingsTheorems.v
BootSecrets.v
WirePayloads.v
WireValidate.v
WireTheorems.v
AccessRoutes.v
AccessRouteTheorems.v
