(* ===== verification/Prelude.v ===== *)
(** * Uptrakit: a verification development

    Uptrakit is a fleet-update controller written in Rust. A controller process serves an
    HTTP API, keeps tenants, hosts and grants in a database, and talks over sequenced
    WebSocket connections to services (agents, an MQTT bridge, a scheduler); several
    controllers can run side by side and exchange announcements. This library models the
    parts of [src/crates] that decide who may do what, who owns what, and how state moves
    between the parts, and proves the properties the program relies on.

    ** Parts of the program and where they are modelled

    Access control (who may do what)
    - [AccessVocab]: verbs, resources and the built-in catalog, actions, grant patterns,
      selectors, targets and visibility ([shared/types/src/access/*.rs]). Parsing, printing
      and matching are the source's functions on byte strings ([RustStr]).
    - [AccessTheorems]: parsing and printing are inverse; the system plane is isolated;
      the write-time checks (unmatchable patterns, selector levels) are exact.
    - [AccessGrants]: the [access_grants] store with its write rules, reads and the lockout
      guard ([shared/db/src/access_grants.rs]), over a database record [Db] whose tables are
      lists of rows and whose queries may fail; also the role, assignment and user writes
      the guarded mutations commit.
    - [GrantLemmas]: the well-formedness of a table and the lemmas about loads and holders
      that the following files share.
    - [AccessEngine]: the decision point ([ui/controller-core/src/access/mod.rs]):
      authority loads behind a cache, [decide_action], visibility, capability summary.
    - [AccessDecisions]: stored grants stay valid, insert/load round trip, tenant
      isolation, the decision rule and its agreement with list filtering.
    - [Lockout]: the guard never lets the last administrator of a plane disappear, and
      refuses only then.
    - [AccessRoutes], [AccessRouteTheorems]: the endpoints that manage grants, roles, role
      assignments and users ([ui/web-api/src/routes/]: [access_grants.rs], [roles.rs],
      [users.rs]; [middleware/action.rs], [web-api-queries/src/queries/roles.rs]) as handlers
      that run the guard in their transaction and announce what they changed.
    - [VisibleQueries]: the query builders that narrow a select to the visible rows
      ([shared/db/src/visibility.rs], [shared/tenant-db]). An entity declares its columns
      through the classes [TenantScoped] and [HostScoped].
    - [AccessCache]: the engine's cache as a step relation, loads split where the code
      suspends; staleness is bounded by the TTL whatever happens to invalidations.

    Ownership and connections
    - [WorkloadClaims], [ClaimsTheorems]: the workload claim registry
      ([ui/controller-core/src/workload_claims.rs]): exclusive ownership and its indexes,
      conflict resolution between controllers, release and synchronisation.
    - [ServiceConnections]: the registry of connected services
      ([ui/service-connections/src/lib.rs]) with cancellation tokens and channels as shared
      objects, and the session cleanups, under every interleaving of their atomic steps.

    Wire protocol
    - [WsProtocol]: sequence numbers and frame checks in both directions and the rate
      limiter ([shared/wire/src/envelope.rs], [ui/web-api/.../service_ws/protocol.rs]).
    - [ReportTracker], [Paginate]: splitting large reports into pages and collecting them
      ([shared/wire/src/report_tracker.rs], [paginate.rs]).
    - [WireEnums]: string-valued enumerations, capability negotiation, service profiles.
    - [WirePayloads], [WireValidate]: every payload and message, and their validation
      ([shared/wire/src/payloads.rs], [limits.rs], [wire_validate_impls.rs]). [WireTheorems]
      proves it against reference definitions and composes it with the pagination.

    Surfaces (interface elements that services contribute)
    - [Json]: the JSON values that parameters and descriptors carry.
    - [SurfaceTypes], [SurfaceContract]: identifiers, nodes, interactions and data sources
      of a surface, and [validate_against], the contract a registration must meet
      ([shared/surfaces/src/*.rs]).
    - [SurfaceRegistry]: the registry of providers with its three indexes
      ([ui/surface-proxy/src/registry.rs]): registration, rotation, removal, listing and
      resolution. [SurfaceTheorems] proves its invariant over all operations,
      [SurfaceQueries] what its readers may rely on.
    - [SurfaceProxy]: [invoke_inner] up to the dispatch: target, parameters, gate, cache.
      [SurfaceInFlight]: the pending requests, budgets, idempotency keys, failure window and
      the guard that cleans up a dropped invocation ([ui/surface-proxy/src/proxy/*.rs]), as
      a step relation over concurrent invocations, with its invariant in
      [SurfaceInFlightTheorems]. [SurfaceDispatch]: what holds of a call that is sent.

    Updates
    - [UpdateHistory]: the rows of [update_history] with their two partial unique indexes
      and every statement that moves a status ([ui/web-api-queries/src/queries/update_*.rs]):
      creation, protection, claim or replay, output, results, restarts, recovery.
    - [UpdateBatches]: batches, the per-host queue and its dispatch loop, the reaper; what
      dispatching needs of the target, the protection plugin and the agent connection is
      the class [Dispatcher].
    - [UpdateTheorems], [UpdateBatchTheorems], [UpdateCreation]: the lifecycle as a
      refinement of a small graph of statuses, batches, the queue, the reaper and the
      creation of batches. [UpdateWitnesses] runs them on a concrete fleet.

    Secrets
    - [Hex]: hexadecimal encoding ([shared/types/src/hex.rs]).
    - [Crypto], [CryptoTheorems]: the ciphertext formats, the ring of data keys and the
      encrypted columns ([shared/crypto/src]) over the class [Aead] of what the cipher
      promises; secrets come back in every later state that kept the keys.
    - [CryptoBoot]: the table of data keys, the ring the controller and the SSH agent
      build at start-up, and the agent's rotation of its master key ([boot/init/encryption.rs],
      [core/agent-ssh-runtime/src/lib.rs]).
    - [Reencrypt]: the upgrade of stored secrets ([core/controller-runtime/src/reencrypt.rs])
      and its equivalence with upgrading each row on its own. [CryptoWitnesses] runs all of
      it with a toy cipher.
    - [Ecies]: sealed boxes ([shared/crypto/src/ecies.rs]) over the classes [KeyAgreement]
      and [Base64].
    - [BootSecrets]: the verification token of the master key and the
      signing keys, as settings that several controllers read and create at once
      ([boot/init/encryption.rs], [jwt.rs], [ui/web-api-auth/src/settings_store.rs]).

    Settings
    - [SettingsSnapshot]: the published settings and how they are decoded
      ([ui/controller-core/src/settings/mod.rs]).
    - [SettingsVersions]: the two tables and their version counters
      ([ui/web-api-auth/src/settings_store.rs], [shared/db/src/raw_settings.rs]), the cache of
      versions of every controller, the reconciler ([reload/reconciler.rs]) and conditional
      requests ([extractors/if_match.rs], [middleware/etag.rs]). [SettingsTheorems] proves
      and runs them.

    Outbound requests and releases
    - [Egress], [EgressTheorems]: private addresses and hosts, the resolver that filters
      them, URL checks and the redirect policy of outgoing requests.
    - [Shell]: quoting of shell words, against a reader of them.
    - [DockerImages]: references to images, the configuration and the
      containers of the Docker plugin ([plugins/releases/docker/src]). [DockerRegistry]: the
      client of registries and the redirects it follows, as a program over the class [Net] of
      what a network answers.
      [DockerPlugin]: version detection, discovery, credentials and updates over a daemon and
      an executor. [DockerTheorems] proves and runs them.

    Periodic tasks
    - [Scheduler]: the [scheduled_tasks] table, its claims and the schedulers of several
      controllers as a step relation ([core/scheduler-runtime/src/claim.rs],
      [interval.rs], [scheduler.rs]).

    Authentication and OAuth
    - [Handlers]: request handlers as sequences of atomic database statements and events.
      [run] executes one alone; [runs env] lets steps of [env], the other requests, happen
      before every statement, so a theorem about [runs] holds under every interleaving.
    - [RateLimit]: the stored request limiter ([ui/web-api-auth/src/auth/rate_limit.rs],
      [ui/web-api/src/oauth/rate_limit.rs]).
    - [OAuthStore], [OAuthRoutes]: the OAuth 2.1 authorization server: authorization
      requests, codes, consents, refresh families, clients and their metadata documents
      ([ui/web-api/src/oauth]), and its endpoints ([ui/web-api/src/routes/oauth]).
      [OAuthTheorems] has the store's step relation, invariants and what holds of its
      transactions, [OAuthFlows] what holds of the endpoints, [OAuthWitnesses] runs them.
    - [TokenDenylist]: revoked access tokens in the memory of several controllers and in
      the database ([ui/web-api-auth/src/auth/token_denylist.rs]).
    - [AuthStore], [AuthRoutes]: sessions, API tokens, device flows, second factors and
      recovery codes ([ui/web-api-auth/src/auth/*.rs]); the authentication middleware,
      login, refresh, logout, password change and the endpoints of second factors and
      devices ([ui/web-api/src/middleware/require_auth.rs], [routes/auth.rs], [mfa.rs],
      [me_2fa.rs], [device_auth.rs], [users.rs]). [AuthTheorems] and [AuthFlows] as
      for OAuth.
    - [OidcStore], [OidcRoutes]: sign-in through OpenID Connect and registration: the
      one-time tickets, the registration settings and the bootstrap of the first user, the
      resolution of an identity to an account, the role sync and the pinned redirects
      ([ui/web-api-auth/src/auth/]: [oidc_state.rs], [authentication.rs],
      [registration.rs]; [routes/oidc_auth.rs], [register] of [routes/auth.rs]). The
      database extends those of [AuthStore] and [AccessGrants]; the role sync runs the
      lockout guard. [OidcTheorems] has the step relation, [OidcFlows] what holds of the
      endpoints, [OidcAccounts] what holds of accounts and roles, [OidcWitnesses] runs them.

    Configuration reload
    - [ConfigModel]: sections, deltas and the triage of changes that need a new process
      ([shared/config-reload/src/config], [delta.rs], [reexec/triage.rs]).
    - [ReloadCoordinator]: the coordinator's phases and request loop
      ([coordinator/state_machine.rs]); a subsystem is a record of operations
      ([ReloadableErased]) with its state.
    - [ConfigLoader]: [RuntimeConfig::validate], the TOML loader's checks and the reading of
      the master key ([config/mod.rs], [loader.rs], [boot/init/master_key.rs]), composed
      with the coordinator.
    - [Reloadables]: the live subsystems, as instances of that record
      ([core/controller-runtime/src/reload/*.rs]).

    How the parts interact: routes build an access context with [AccessEngine], which loads
    grants through [AccessGrants] and keeps them in the cache of [AccessCache]; [VisibleQueries]
    turns a context's visibility into a select (only tests call it so far); grant, role and user
    mutations run the lockout guard in their transaction and then invalidate the cache.
    Sessions register in [ServiceConnections], check every frame with [WsProtocol], feed
    report pages to [ReportTracker] and claim workloads in [WorkloadClaims], whose
    announcements travel between controllers. Reload requests reach [ReloadCoordinator],
    which diffs with [ConfigModel] and drives [Reloadables]. A service's hello registers its
    surfaces in [SurfaceRegistry]; a route resolves an interaction there, checks it with
    [SurfaceProxy] and dispatches it through [SurfaceInFlight] to the service's connection.
    Batches create rows of [UpdateHistory], the queue of [UpdateBatches] hands them to
    agents, whose claims, output and results come back as statements of [UpdateHistory],
    and settling a row completes its batch and advances its host's queue. Every route stands
    behind [require_auth] of [AuthRoutes], which consults [TokenDenylist]; logout and
    password change write it and tell the other controllers; the device flow of [AuthStore]
    and the tokens of [OAuthStore] are handed out by the same token endpoint. Settings are
    written by routes and at start-up ([BootSecrets], with [Crypto]); their counters in
    [SettingsVersions] make every controller's reconciler ask its [ReloadCoordinator].
    The Docker plugin sends its requests through [Egress] and its commands through [Shell].

    ** Conventions

    Fallible code returns [Result]; Rust's [?] is the bind of that monad. State is passed
    explicitly, and code behind one lock is one function from state to state; where several
    tasks share state, the file has a step relation or a list of events, and its theorems
    hold for every sequence of steps. A transaction opened with [begin_immediate] is one atomic
    step. That is what it is on SQLite, where it takes the write lock first; on PostgreSQL the
    mode is ignored ([shared/db-tx/src/lib.rs]) and transactions that read, check and write can
    overlap. So [rotate_txn] of [OAuthStore] and [mfa_verify_txn] of [AuthRoutes] are serial
    here and not on PostgreSQL, where two rotations of one refresh token can both succeed and
    parallel guesses can be counted once ([parallel_guesses_count_once]). Identifiers ([Uuid]) are natural numbers with their
    order, time and durations are integers, [HashMap] and [BTreeMap] are [gmap], sets are
    [gset]; a list of rows is a table. Integers that can wrap or saturate in the code do so
    here ([u64_succ], [u32_saturating_add]). What the sources only call is a parameter:
    JSON encoding of selectors and payload sizes, frame parsing, the TOML parser, AES-GCM,
    SHA-256, Argon2, TOTP and JWT signatures, key agreement, base64, URL and UUID parsing, the file system, the network,
    the Docker daemon, commands on a host, what the ORM reports of a conflict, database connections,
    certificate loading, clocks, random draws and fresh identifiers.

    ** What the theorems show

    C1, C2, C36, C40: authorization is exactly the documented rule, confined to the
    tenant it was granted in, agrees with what narrowed queries return, and follows a
    revocation within the cache's TTL. C3-C5: the endpoints that manage access always
    leave an administrator, give nobody the system plane without the permission for it,
    and announce every change of authority. C6: workload claims are exclusive. C7, C17:
    an update's guarded writes move along the graph of statuses and one agent owns it,
    whatever is written. C23, C37, C38: a host's queue is served in order and to its
    end, and the reaper interrupts exactly the overdue updates. C22: a periodic task has
    one runner unless a claim went stale. C8: the surface registry stays consistent. C9,
    C35: budgets count what is in flight, and only checked calls are sent. C25, C26,
    C31: secrets come back, through every format, a rotation of the SSH agent's master
    key and a sealed box. C15: a controller starts only with the installation's master
    key, up to one race on its first start. C16, C39: a change of a setting reaches the
    other controllers' reconcilers, and a tag is good for one change of one controller
    whose requests do not overlap. C28, C29: the bounds on JSON values are exact, and
    what a sender splits into pages its receiver accepts. C32, C33: what a reload cycle
    does to every subsystem in each of its outcomes, and that the coordinator only ever
    commits a configuration that passed every check of the loader. C10, C21: the OAuth
    server gives tokens only against a live code or refresh token of the right client,
    redirect, resource, verifier and consent, and a replayed refresh token burns its
    family. C11, C24, C34: a second factor is enforced and at most five guesses are
    recorded; a logout cuts access tokens off. C12, C13: an OpenID Connect login rests
    on a flow of this service and a verified identity, and an identity joins an existing
    account only by its owner. C14: the first account becomes the owner and no later one
    can. C18, C27: the guard of outgoing requests is exactly the documented ranges, and
    a checked URL reaches public addresses only, through every redirect. C19, C20, C30:
    the Docker plugin talks to the image's registry, to where its blobs are redirected
    and to token servers it may ask, an update recreates what it targets and in order,
    and values reach a shell as single words. Theorems without a number state further
    behaviour (among them [cycle_all_or_nothing] for subsystems that roll back,
    [lockout_guard_sound], [lockout_refusal_exact], [authorize_any_exact],
    [signing_key_stable], [image_ref_roundtrip], [poll_reports_bumps],
    [renewal_window_bounds], [stored_grants_valid], [code_single_use],
    [totp_never_replayed], [upgrade_preserves_secrets], [refresh_token_spent_once],
    [exchange_redeemed_once], [redirects_pinned], [registration_gated],
    [role_sync_guarded], [rotation_never_widens], [device_flow_sound],
    [reconnect_survives_cleanups], [dispatch_refused_iff_busy], [batch_created_iff],
    [service_surfaces_isolated], [registration_all_or_nothing],
    [revoked_client_locked_out], [approval_by_owner_once], [revocation_holds],
    [rate_limit_bounds], [deferred_roles_roundtrip]), also the places where the code
    does less than its documentation says ([stale_due_list_runs_twice],
    [reaped_update_strands_queue], [reconnect_fails_live_protection],
    [provider_calls_ungated], [first_start_race], [undecodable_row_stops_table],
    [decode_accepts_sign], [allowlist_outlives_revocation],
    [foreign_denial_spends_request], [platform_hides_update],
    [token_of_another_registry], [sixty_pages_refused], [mismatch_accepted],
    [two_signing_keys], [both_requests_accepted], [own_write_not_reloaded],
    [reload_misses_write], [uncommitted_guesses_free], [conversion_failure_removes],
    [unaudited_role_change], [foreign_role_assigned]).

    ** Fuel and bounds

    [Paginate.chunks_fuel] is called with the length of the list, which its lemmas show to
    be enough. [UpdateBatches.dispatch_next_queued_for_host] takes fuel; [queue_fuel], the
    number of queued rows of the host plus one, is always enough (C37). The page loops of
    [Reencrypt] take one more than the number of rows ([recovering_exact], [simple_ends]).
    Every other recursion is structural. Bounds proved:
    page and pending-report limits, push-channel capacity, the rate limiter's burst, the
    cache TTL, the in-flight budgets, the output cap. The rate limiter's
    floating-point estimate is compared exactly.

    ** Not modelled

    HTTP routing and rendering, email change, the other list endpoints, the administration of identity providers,
    foreign keys and transient database errors of the authentication tables, the session
    message handlers, the triggers that watch files and signals, the tasks around updates
    that run protection and replay (their statements are modelled), the candidate queries
    of batches, the executors of periodic tasks,
    the release plugins other than Docker, infrastructure plugins,
    audit persistence, PKI, and the frontend. Logs and metrics have no model. *)

From stdpp Require Import base list gmap sets strings numbers.

#[global] Set Default Goal Selector "!".

(** ** Notations and scope *)

Declare Scope uptrakit_scope.
Delimit Scope uptrakit_scope with upt.

(** ** Identifiers and time

    A [uuid::Uuid] is a 128-bit number; its derived [Ord] is the order of that
    number. Instants, timestamps and durations are integers on one time line
    (the unit is the one the component states). *)

Notation Uuid := N (only parsing).
Notation Instant := Z (only parsing).
Notation Duration := Z (only parsing).

(** [Duration::from_secs], for the components that count nanoseconds. *)
Definition secs (n : Z) : Duration := n * 1000000000.

(** ** Fallible code: Rust's [Result<A, E>] *)

Inductive Result (E A : Type) : Type :=
| Ok (a : A)
| Err (e : E).
Arguments Ok {E A} a.
Arguments Err {E A} e.

Definition is_ok {E A} (r : Result E A) : bool :=
  match r with Ok _ => true | Err _ => false end.

(** Rust's [?] operator. *)
#[export] Instance Result_ret {E} : MRet (Result E) := fun A a => Ok a.
#[export] Instance Result_bind {E} : MBind (Result E) := fun A B k r =>
  match r with Ok a => k a | Err e => Err e end.

(** [Result::map_err] (used by [#[from]] conversions on [?]). *)
Definition map_err {E F A} (f : E → F) (r : Result E A) : Result F A :=
  match r with Ok a => Ok a | Err e => Err (f e) end.

(** [Result::map]. *)
Definition result_map {E A B} (f : A → B) (r : Result E A) : Result E B :=
  match r with Ok a => Ok (f a) | Err e => Err e end.

#[export] Instance Result_eq_dec {E A} `{EqDecision E, EqDecision A} :
  EqDecision (Result E A).
Proof. solve_decision. Defined.

Lemma map_err_ok {E F A} (f : E → F) (r : Result E A) a : map_err f r = Ok a ↔ r = Ok a.
Proof. destruct r; simpl; naive_solver. Qed.

Lemma bind_ok {E A B} (r : Result E A) (k : A → Result E B) b :
  r ≫= k = Ok b ↔ ∃ a, r = Ok a ∧ k a = Ok b.
Proof. destruct r; split; naive_solver. Qed.

(** ** Machine integers *)

Definition u32_max : Z := 4294967295.
Definition u64_max : Z := 18446744073709551615.

(** [u32::saturating_add]. *)
Definition u32_saturating_add (a b : Z) : Z := Z.min u32_max (a + b).

(** ** Automation *)

Create HintDb uptrakit.

(** Case analysis on every [match]/[if]/[decide] in sight, simplifying the
    equations it produces. *)
Ltac split_cases :=
  repeat (case_match || case_decide || case_bool_decide); simplify_eq/=.

(** Invert an equation between results. *)
Ltac inv_ok :=
  repeat match goal with
  | H : Ok _ = Ok _ |- _ => injection H as H; subst
  | H : Err _ = Err _ |- _ => injection H as H; subst
  | H : Ok _ = Err _ |- _ => discriminate H
  | H : Err _ = Ok _ |- _ => discriminate H
  | H : _ ≫= _ = Ok _ |- _ =>
      let a := fresh "a" in let Ha := fresh "Ha" in
      apply bind_ok in H as (a & Ha & H)
  end.

(** Walk down a chain [if decide (x = c1) then .. else if decide (x = c2) ..]
    (a Rust [match] on string literals), replacing [x] in each branch. *)
Ltac decide_chain tac :=
  repeat (destruct (decide _) as [->|_]; [solve [tac]|]).

(** ** Loops over collections *)

(** Invariant rule for a [for] loop: the loop body is [f]. *)
Lemma foldl_inv {A B} (P : A → Prop) (f : A → B → A) (l : list B) (a : A) :
  P a → (∀ a b, b ∈ l → P a → P (f a b)) → P (foldl f a l).
Proof.
  revert a. induction l as [|b l IH]; intros a Ha Hstep; simpl; [done|].
  apply IH.
  - apply Hstep; [left | done].
  - intros a' b' Hb'. apply Hstep. by right.
Qed.

(** The same, with the processed prefix in the invariant. *)
Lemma foldl_prefix_inv {A B} (P : list B → A → Prop) (f : A → B → A) (l : list B) (a : A) :
  P [] a →
  (∀ pre b suf a, l = pre ++ b :: suf → P pre a → P (pre ++ [b]) (f a b)) →
  P l (foldl f a l).
Proof.
  intros Ha Hstep.
  assert (∀ suf pre a, l = pre ++ suf → P pre a → P l (foldl f a suf)) as Hgen.
  { induction suf as [|b suf IH]; intros pre a' Hl HP; simpl.
    - rewrite app_nil_r in Hl. by subst.
    - apply (IH (pre ++ [b])).
      + rewrite <-app_assoc. exact Hl.
      + exact (Hstep pre b suf a' Hl HP). }
  by apply (Hgen l []).
Qed.

(** ** Loops that stop at the first error *)

Section FallibleLoops.
Context {E S A : Type}.

(** [for x in l { f(x)?; }] *)
Definition for_each (f : A → Result E unit) : list A → Result E unit :=
  fix go l := match l with [] => Ok tt | x :: l' => f x ≫= λ _, go l' end.

(** [for x in l { s = f(s, x)?; }] *)
Definition for_fold (f : S → A → Result E S) : S → list A → Result E S :=
  fix go s l := match l with [] => Ok s | x :: l' => f s x ≫= λ s', go s' l' end.

Lemma for_each_ok f l : for_each f l = Ok tt ↔ Forall (λ x, f x = Ok tt) l.
Proof.
  induction l as [|x l IH]; simpl; [by split; [constructor|]|].
  rewrite List.Forall_cons_iff, <-IH, bind_ok. split.
  - by intros ([] & ? & ?).
  - intros [? ?]. by exists tt.
Qed.

(** Invariant rule: the processed prefix and the state it led to. *)
Lemma for_fold_inv (P : list A → S → Prop) f l s s' :
  P [] s →
  (∀ pre x s1 s2, P pre s1 → f s1 x = Ok s2 → P (pre ++ [x]) s2) →
  for_fold f s l = Ok s' → P l s'.
Proof.
  intros H0 Hstep.
  assert (∀ l' pre s1, P pre s1 → for_fold f s1 l' = Ok s' → P (pre ++ l') s') as Hgen.
  { induction l' as [|x l' IH]; intros pre s1 HP; simpl.
    - intros [= ->]. by rewrite app_nil_r.
    - intros (s2 & Hf & Hgo)%bind_ok. replace (pre ++ x :: l') with ((pre ++ [x]) ++ l').
      + by eapply IH; [eapply Hstep|].
      + by rewrite <-app_assoc. }
  by apply (Hgen l []).
Qed.
End FallibleLoops.

(** Elements of a list extended at its end. *)
Lemma exists_snoc {A} (P : A → Prop) (l : list A) x :
  (∃ y, y ∈ l ++ [x] ∧ P y) ↔ (∃ y, y ∈ l ∧ P y) ∨ P x.
Proof.
  split.
  - intros (y & [Hy|Hy%list_elem_of_singleton]%elem_of_app & HP); [left; eauto|].
    subst. by right.
  - intros [(y & Hy & HP)|HP]; [exists y|exists x];
      (split; [apply elem_of_app; rewrite ?list_elem_of_singleton; tauto|done]).
Qed.

(** [HashMap::retain]. *)
Lemma filter_lookup_retain `{Countable K} {A} (P : K * A → Prop) `{!∀ x, Decision (P x)}
    (m : gmap K A) k a :
  filter P m !! k = Some a ↔ m !! k = Some a ∧ P (k, a).
Proof. apply map_lookup_filter_Some. Qed.

(** ** Maps of sets: Rust's [HashMap<K, BTreeSet<V>>] idioms *)

Section MapOfSets.
Context `{Countable K} `{Countable V}.
Implicit Types m : gmap K (gset V).

(** [m.get(&k).cloned().unwrap_or_default()] *)
Definition get_set (k : K) m : gset V := default ∅ (m !! k).

(** [m.entry(k).or_default().insert(v)] *)
Definition entry_insert (k : K) (v : V) m : gmap K (gset V) :=
  <[k := {[v]} ∪ get_set k m]> m.

(** [if let Some(s) = m.get_mut(&k) { s.remove(&v); }] *)
Definition entry_remove (k : K) (v : V) m : gmap K (gset V) :=
  alter (λ s, s ∖ {[v]}) k m.

Lemma get_entry_insert k v m k' :
  get_set k' (entry_insert k v m) =
  if decide (k' = k) then {[v]} ∪ get_set k m else get_set k' m.
Proof.
  unfold get_set at 1, entry_insert. destruct (decide (k' = k)) as [->|Hne].
  - by rewrite lookup_insert_eq.
  - by rewrite lookup_insert_ne.
Qed.

Lemma get_entry_remove k v m k' :
  get_set k' (entry_remove k v m) =
  if decide (k' = k) then get_set k m ∖ {[v]} else get_set k' m.
Proof.
  unfold get_set, entry_remove. destruct (decide (k' = k)) as [->|Hne].
  - rewrite lookup_alter_eq. destruct (m !! k); simpl; set_solver.
  - by rewrite lookup_alter_ne.
Qed.
End MapOfSets.

(** A filter that can only hold at one key counts that entry or nothing. *)
Lemma size_filter_key {A} (P : Uuid → A → bool) (x : Uuid) (m : gmap Uuid A) :
  (∀ id r, P id r = true → id = x) →
  size (filter (λ kv : Uuid * A, P kv.1 kv.2 = true) m)
  = match m !! x with Some r => if P x r then 1 else 0 | None => 0 end.
Proof.
  intros HP. destruct (m !! x) as [r|] eqn:E; [destruct (P x r) eqn:Ep|].
  - rewrite <-(map_size_singleton (M := gmap Uuid) x r). f_equal. apply map_eq. intros id.
    destruct (decide (id = x)) as [->|Hne].
    + rewrite lookup_singleton_eq. by apply map_lookup_filter_Some.
    + rewrite lookup_singleton_ne by done. apply map_lookup_filter_None. right.
      intros r' _ Hp. simpl in Hp. by apply HP in Hp.
  - apply map_size_empty_iff, map_empty. intros id. apply map_lookup_filter_None. right.
    intros r' Hr' Hp. simpl in Hp. pose proof (HP _ _ Hp) as ->. congruence.
  - apply map_size_empty_iff, map_empty. intros id. apply map_lookup_filter_None. right.
    intros r' Hr' Hp. simpl in Hp. pose proof (HP _ _ Hp) as ->. congruence.
Qed.
