(* ===== verification/RustStr.v ===== *)
(** Rust's [str] methods on byte strings: the operations the sources use,
    with their specifications. A Rust [&str] is its UTF-8 byte sequence, a
    [string]; [str::len] counts bytes. *)

From Stdlib Require Import Ascii.
From stdpp Require Import base list strings numbers.
From S2P Require Import Prelude.

(** ** Operations *)

(** [str::len] *)
Definition str_len (s : string) : nat := String.length s.

(** [str::is_empty] *)
Definition str_is_empty (s : string) : bool :=
  match s with EmptyString => true | _ => false end.

(** [str::strip_prefix] with a string pattern *)
Fixpoint strip_prefix (p s : string) : option string :=
  match p, s with
  | EmptyString, _ => Some s
  | String a p', String b s' => if Ascii.eqb a b then strip_prefix p' s' else None
  | String _ _, EmptyString => None
  end.

(** [str::starts_with] *)
Definition starts_with (p s : string) : bool :=
  match strip_prefix p s with Some _ => true | None => false end.

(** [str::strip_suffix]: the string before the suffix, which is the whole
    remaining string. *)
Fixpoint strip_suffix (suf s : string) : option string :=
  if decide (s = suf) then Some EmptyString
  else match s with
       | EmptyString => None
       | String c s' => String c <$> strip_suffix suf s'
       end.

(** [str::contains] with a [char] pattern *)
Fixpoint contains_char (c : ascii) (s : string) : bool :=
  match s with
  | EmptyString => false
  | String a s' => Ascii.eqb a c || contains_char c s'
  end.

(** [str::split_once] with a [char] pattern: splits at the first occurrence *)
Fixpoint split_once (c : ascii) (s : string) : option (string * string) :=
  match s with
  | EmptyString => None
  | String a s' =>
      if Ascii.eqb a c then Some (EmptyString, s')
      else match split_once c s' with
           | Some (l, r) => Some (String a l, r)
           | None => None
           end
  end.

(** [str::split] with a [char] pattern: the pieces between occurrences, never
    empty *)
Fixpoint split_char (c : ascii) (s : string) : list string :=
  match s with
  | EmptyString => [EmptyString]
  | String a s' =>
      if Ascii.eqb a c then EmptyString :: split_char c s'
      else match split_char c s' with
           | piece :: rest => String a piece :: rest
           | [] => [String a EmptyString]
           end
  end.

(** [str::chars().all(f)] for a predicate that is false on every non-ASCII
    character (and so on every byte of its encoding). *)
Fixpoint all_chars (f : ascii → bool) (s : string) : bool :=
  match s with
  | EmptyString => true
  | String a s' => f a && all_chars f s'
  end.

(** [slice::join] on strings *)
Fixpoint join (sep : string) (l : list string) : string :=
  match l with
  | [] => EmptyString
  | [s] => s
  | s :: l' => s +:+ sep +:+ join sep l'
  end.

(** Character classes *)
Definition in_range (lo hi : ascii) (c : ascii) : bool :=
  (N_of_ascii lo <=? N_of_ascii c)%N && (N_of_ascii c <=? N_of_ascii hi)%N.
Definition is_ascii_lowercase : ascii → bool := in_range "a" "z".
Definition is_ascii_uppercase : ascii → bool := in_range "A" "Z".
Definition is_ascii_digit : ascii → bool := in_range "0" "9".
Definition is_ascii_alphanumeric (c : ascii) : bool :=
  is_ascii_lowercase c || is_ascii_uppercase c || is_ascii_digit c.
Definition is_ascii_hexdigit (c : ascii) : bool :=
  is_ascii_digit c || in_range "a" "f" c || in_range "A" "F" c.

(** [str::trim().is_empty()]: only characters with the Unicode property
    [White_Space], given by their UTF-8 bytes *)
Definition is_ascii_space (c : ascii) : bool :=
  in_range (ascii_of_N 9) (ascii_of_N 13) c || Ascii.eqb c " ".

(** The second and third byte of the multi-byte white-space characters. *)
Definition is_space2 (a b : ascii) : bool :=
  Ascii.eqb a (ascii_of_N 194)
  && (Ascii.eqb b (ascii_of_N 133) || Ascii.eqb b (ascii_of_N 160)).
Definition is_space3 (a b c : ascii) : bool :=
  match (N_of_ascii a, N_of_ascii b, N_of_ascii c) with
  | (225, 154, 128) => true
  | (226, 128, n) => (128 <=? n) && (n <=? 138) || (n =? 168) || (n =? 169) || (n =? 175)
  | (226, 129, 159) => true
  | (227, 128, 128) => true
  | _ => false
  end%N.

Fixpoint is_blank (s : string) : bool :=
  match s with
  | EmptyString => true
  | String a s1 =>
      if is_ascii_space a then is_blank s1
      else match s1 with
           | String b s2 =>
               if is_space2 a b then is_blank s2
               else match s2 with
                    | String c s3 => is_space3 a b c && is_blank s3
                    | EmptyString => false
                    end
           | EmptyString => false
           end
  end.

(** [str::trim_start]; white space as in [is_blank]. *)
Fixpoint trim_start (s : string) : string :=
  match s with
  | EmptyString => EmptyString
  | String a s1 =>
      if is_ascii_space a then trim_start s1
      else match s1 with
           | String b s2 =>
               if is_space2 a b then trim_start s2
               else match s2 with
                    | String c s3 => if is_space3 a b c then trim_start s3 else s
                    | EmptyString => s
                    end
           | EmptyString => s
           end
  end.

(** [str::trim_end] *)
Fixpoint trim_end (s : string) : string :=
  if is_blank s then EmptyString
  else match s with String c s' => String c (trim_end s') | EmptyString => EmptyString end.

Definition trim (s : string) : string := trim_end (trim_start s).

(** [str::split_whitespace]: the maximal pieces without white space, none of them empty;
    [cur] is the piece being read. *)
Definition flush (cur : string) : list string := if str_is_empty cur then [] else [cur].
Fixpoint split_words (cur s : string) : list string :=
  match s with
  | EmptyString => flush cur
  | String a s1 =>
      if is_ascii_space a then flush cur ++ split_words EmptyString s1
      else match s1 with
           | String b s2 =>
               if is_space2 a b then flush cur ++ split_words EmptyString s2
               else match s2 with
                    | String c s3 =>
                        if is_space3 a b c then flush cur ++ split_words EmptyString s3
                        else split_words (cur +:+ String a EmptyString) s1
                    | EmptyString => split_words (cur +:+ String a EmptyString) s1
                    end
           | EmptyString => split_words (cur +:+ String a EmptyString) s1
           end
  end.
Definition split_whitespace (s : string) : list string := split_words EmptyString s.

(** [str::eq_ignore_ascii_case] *)
Definition to_ascii_lowercase (c : ascii) : ascii :=
  if is_ascii_uppercase c then ascii_of_N (N_of_ascii c + 32) else c.
(** [str::to_ascii_lowercase] *)
Fixpoint lowercase (s : string) : string :=
  match s with
  | EmptyString => EmptyString
  | String c s' => String (to_ascii_lowercase c) (lowercase s')
  end.
Fixpoint eq_ignore_ascii_case (a b : string) : bool :=
  match a, b with
  | EmptyString, EmptyString => true
  | String x a', String y b' =>
      Ascii.eqb (to_ascii_lowercase x) (to_ascii_lowercase y) && eq_ignore_ascii_case a' b'
  | _, _ => false
  end.

(** The first [char] of a string, as its bytes: a byte and the UTF-8
    continuation bytes after it. *)
Definition is_continuation (c : ascii) : bool := in_range (ascii_of_N 128) (ascii_of_N 191) c.
Fixpoint take_continuation (s : string) : string :=
  match s with
  | String c s' => if is_continuation c then String c (take_continuation s') else EmptyString
  | EmptyString => EmptyString
  end.
Definition first_char (s : string) : string :=
  match s with
  | String c s' => String c (take_continuation s')
  | EmptyString => EmptyString
  end.

(** Byte order on strings: [Ord for str] *)
Definition str_ltb (a b : string) : bool := String.ltb a b.
Definition str_leb (a b : string) : bool := String.leb a b.

(** ** Lemmas *)

Lemma append_nil_r s : s +:+ "" = s.
Proof. induction s as [|c s IH]; [done|]. change (String c (s +:+ "") = String c s). by rewrite IH. Qed.

Lemma append_cons c s t : String c s +:+ t = String c (s +:+ t).
Proof. done. Qed.

Lemma append_nil_l s : "" +:+ s = s.
Proof. done. Qed.

Lemma append_assoc a b c : (a +:+ b) +:+ c = a +:+ b +:+ c.
Proof. induction a as [|x a IH]; [done|]. by rewrite !append_cons, IH. Qed.

Lemma str_len_app a b : str_len (a +:+ b) = str_len a + str_len b.
Proof. unfold str_len. induction a as [|x a IH]; [done|]. rewrite append_cons. simpl. by rewrite IH. Qed.

Lemma append_inj_r a b s : a +:+ s = b +:+ s → a = b.
Proof.
  revert b. induction a as [|x a IH]; intros [|y b] Heq; [done| | |].
  - apply (f_equal str_len) in Heq. rewrite str_len_app, str_len_app in Heq.
    unfold str_len in Heq; simpl in Heq; lia.
  - apply (f_equal str_len) in Heq. rewrite !str_len_app in Heq.
    unfold str_len in Heq; simpl in Heq; lia.
  - rewrite !append_cons in Heq. injection Heq as -> Heq. by rewrite (IH _ Heq).
Qed.

Lemma str_is_empty_true s : str_is_empty s = true ↔ s = "".
Proof. by destruct s. Qed.

Lemma str_is_empty_false s : str_is_empty s = false ↔ s ≠ "".
Proof. by destruct s. Qed.

Lemma strip_prefix_spec p s r : strip_prefix p s = Some r ↔ s = p +:+ r.
Proof.
  revert s. induction p as [|a p IH]; intros s; simpl.
  - rewrite append_nil_l. naive_solver.
  - destruct s as [|b s]; [done|]. rewrite append_cons.
    destruct (Ascii.eqb_spec a b) as [->|Hne].
    + rewrite IH. naive_solver.
    + naive_solver.
Qed.

Lemma strip_prefix_app p r : strip_prefix p (p +:+ r) = Some r.
Proof. by apply strip_prefix_spec. Qed.

Lemma starts_with_spec p s : starts_with p s = true ↔ ∃ r, s = p +:+ r.
Proof.
  unfold starts_with. destruct (strip_prefix p s) as [r|] eqn:E.
  - apply strip_prefix_spec in E. naive_solver.
  - split; [done|]. intros [r ->]. by rewrite strip_prefix_app in E.
Qed.

Lemma starts_with_app p r : starts_with p (p +:+ r) = true.
Proof. apply starts_with_spec. by eexists. Qed.

Lemma strip_suffix_spec suf s r : strip_suffix suf s = Some r ↔ s = r +:+ suf.
Proof.
  revert r. induction s as [|c s IH]; intros r; simpl.
  - destruct (decide ("" = suf)) as [<-|Hne].
    + destruct r; rewrite ?append_cons, ?append_nil_l; split; intros; (done || congruence).
    + destruct r; rewrite ?append_cons, ?append_nil_l; split; intros; (done || congruence).
  - destruct (decide (String c s = suf)) as [<-|Hne].
    + split; [by intros [= <-]|]. intros Heq.
      change (String c s) with ("" +:+ String c s) in Heq at 1.
      apply append_inj_r in Heq. by subst.
    + rewrite fmap_Some. setoid_rewrite IH. destruct r as [|d r].
      * rewrite append_nil_l. split; [by intros (?&?&?)|intros; congruence].
      * rewrite append_cons. split; [intros (?&->&[= -> ->]); done|].
        intros [= -> Heq]. by exists r.
Qed.

Lemma strip_suffix_app suf r : strip_suffix suf (r +:+ suf) = Some r.
Proof. by apply strip_suffix_spec. Qed.

Lemma contains_char_app c a b :
  contains_char c (a +:+ b) = contains_char c a || contains_char c b.
Proof. induction a as [|x a IH]; [done|]. rewrite append_cons. simpl. by rewrite IH, orb_assoc. Qed.

Lemma split_once_spec c s l r :
  split_once c s = Some (l, r) ↔ s = l +:+ String c r ∧ contains_char c l = false.
Proof.
  revert l. induction s as [|a s IH]; intros l; simpl.
  - split; [done|]. intros [Heq _]. destruct l; discriminate Heq.
  - destruct (Ascii.eqb_spec a c) as [->|Hne].
    + split; [by intros [= <- <-]|]. intros [Heq Hl]. destruct l as [|b l].
      * by injection Heq as ->.
      * rewrite append_cons in Heq. injection Heq as <- Heq. simpl in Hl.
        by rewrite Ascii.eqb_refl in Hl.
    + split.
      * destruct (split_once c s) as [[l' r']|] eqn:E; [|done].
        intros [= <- <-]. destruct (proj1 (IH l') eq_refl) as [-> Hl']. rewrite append_cons. split; [done|].
        simpl. by rewrite (proj2 (Ascii.eqb_neq _ _) Hne).
      * intros [Heq Hl]. destruct l as [|b l].
        { injection Heq as -> ->. done. }
        rewrite append_cons in Heq. injection Heq as <- Heq. simpl in Hl.
        apply orb_false_iff in Hl as [_ Hl].
        by rewrite (proj2 (IH l) (conj Heq Hl)).
Qed.

Lemma split_once_app c l r :
  contains_char c l = false → split_once c (l +:+ String c r) = Some (l, r).
Proof. intros Hl. by apply split_once_spec. Qed.

Lemma split_once_none c s : split_once c s = None ↔ contains_char c s = false.
Proof.
  induction s as [|a s IH]; simpl; [done|].
  destruct (Ascii.eqb_spec a c) as [->|Hne]; simpl; [done|].
  destruct (split_once c s) as [[l r]|] eqn:E; rewrite <-IH; done.
Qed.

Lemma split_char_nonempty c s : split_char c s ≠ [].
Proof. destruct s as [|a s]; simpl; [done|]. repeat case_match; done. Qed.

Lemma split_char_join c s : join (String c "") (split_char c s) = s.
Proof.
  induction s as [|a s IH]; [done|]. simpl.
  destruct (Ascii.eqb_spec a c) as [->|Hne].
  - destruct (split_char c s) as [|p rest] eqn:E; [by apply split_char_nonempty in E|].
    simpl. rewrite append_nil_l, append_cons, append_nil_l. f_equal. exact IH.
  - destruct (split_char c s) as [|p rest] eqn:E; [by apply split_char_nonempty in E|].
    destruct rest as [|q rest].
    + simpl in *. by subst.
    + change (String a (p +:+ String c "" +:+ join (String c "") (q :: rest)) = String a s).
      f_equal. exact IH.
Qed.

Lemma split_char_app c a b :
  split_char c (a +:+ String c b) = split_char c a ++ split_char c b.
Proof.
  induction a as [|x a IH].
  - simpl. by rewrite Ascii.eqb_refl.
  - rewrite append_cons. simpl. destruct (Ascii.eqb x c); rewrite IH; [done|].
    destruct (split_char c a) eqn:E; [by apply split_char_nonempty in E|done].
Qed.

Lemma split_char_none c s : contains_char c s = false → split_char c s = [s].
Proof.
  induction s as [|a s IH]; simpl; [done|].
  intros [Ha Hs]%orb_false_iff. rewrite Ha. by rewrite (IH Hs).
Qed.

Lemma all_chars_app f a b : all_chars f (a +:+ b) = all_chars f a && all_chars f b.
Proof. induction a as [|x a IH]; [done|]. rewrite append_cons. simpl. by rewrite IH, andb_assoc. Qed.

Lemma all_chars_contains f c s : all_chars f s = true → f c = false → contains_char c s = false.
Proof.
  induction s as [|a s IH]; simpl; [done|].
  intros [Ha Hs]%andb_true_iff Hc. rewrite IH by done.
  destruct (Ascii.eqb_spec a c) as [->|]; [congruence|done].
Qed.

#[export] Hint Rewrite append_nil_r append_assoc str_len_app strip_prefix_app starts_with_app
  strip_suffix_app contains_char_app split_char_app all_chars_app : uptrakit.
