(* ===== verification/Hex.v ===== *)
(** Hexadecimal encoding of byte strings ([crates/shared/types/src/hex.rs]): [encode] and
    [decode] are inverse, and exactly what [decode] accepts. Bytes are the characters of a
    [string]. *)

From Stdlib Require Import Ascii.
From stdpp Require Import base list strings numbers.
From S2P Require Import Prelude RustStr.

Module Hex.

(** ** Encoding *)

Definition hex_digit (n : N) : ascii :=
  ascii_of_N (if (n <? 10)%N then 48 + n else 87 + n).

(** [{b:02x}] for each byte *)
Fixpoint encode (bytes : string) : string :=
  match bytes with
  | EmptyString => EmptyString
  | String b rest =>
      String (hex_digit (N_of_ascii b / 16)) (String (hex_digit (N_of_ascii b mod 16)) (encode rest))
  end.

(** ** Decoding *)

Inductive DecodeError := OddLength | InvalidChar.

Definition is_ascii (c : ascii) : bool := (N_of_ascii c <? 128)%N.

(** [char::to_digit(16)] *)
Definition to_digit16 (c : ascii) : option N :=
  let n := N_of_ascii c in
  if is_ascii_digit c then Some (n - 48)%N
  else if in_range "a" "f" c then Some (n - 87)%N
  else if in_range "A" "F" c then Some (n - 55)%N
  else None.

(** [u8::from_str_radix(_, 16)] on two characters: a leading [+] is a sign, if a digit
    follows it. Two digits never overflow. *)
Definition from_str_radix (a b : ascii) : option ascii :=
  if Ascii.eqb a "+" then ascii_of_N <$> to_digit16 b
  else match to_digit16 a, to_digit16 b with
       | Some x, Some y => Some (ascii_of_N (16 * x + y))
       | _, _ => None
       end.

Fixpoint decode_pairs (s : string) : Result DecodeError string :=
  match s with
  | String a (String b rest) =>
      match from_str_radix a b with
      | Some byte => bytes ← decode_pairs rest; Ok (String byte bytes)
      | None => Err InvalidChar
      end
  | _ => Ok EmptyString
  end.

Definition decode (s : string) : Result DecodeError string :=
  if negb (all_chars is_ascii s) then Err InvalidChar
  else if negb (Nat.even (str_len s)) then Err OddLength
  else decode_pairs s.

(** ** Digits *)

(** What a digit check says of every byte, checked on all of them. *)
Lemma forall_ascii (P : ascii → bool) :
  forallb (λ n, P (ascii_of_nat n)) (seq 0 256) = true → ∀ c, P c = true.
Proof.
  intros H c. rewrite forallb_forall in H. rewrite <-(ascii_nat_embedding c). apply H.
  apply in_seq. split; [lia|]. apply nat_ascii_bounded.
Qed.

Definition nibble_ok (c : ascii) : bool :=
  let n := N_of_ascii c in
  bool_decide (from_str_radix (hex_digit (n / 16)) (hex_digit (n mod 16)) = Some c)
  && is_ascii (hex_digit (n / 16)) && is_ascii (hex_digit (n mod 16))
  && negb (Ascii.eqb (hex_digit (n / 16)) "+").

Lemma nibble_ok_all c : nibble_ok c = true.
Proof. revert c. apply forall_ascii. vm_compute. reflexivity. Qed.

Lemma encode_byte c :
  from_str_radix (hex_digit (N_of_ascii c / 16)) (hex_digit (N_of_ascii c mod 16)) = Some c
  ∧ is_ascii (hex_digit (N_of_ascii c / 16)) = true
  ∧ is_ascii (hex_digit (N_of_ascii c mod 16)) = true.
Proof.
  pose proof (nibble_ok_all c) as H. unfold nibble_ok in H.
  rewrite !andb_true_iff, bool_decide_eq_true in H. naive_solver.
Qed.

Lemma encode_ascii bytes : all_chars is_ascii (encode bytes) = true ∧ Nat.even (str_len (encode bytes)) = true.
Proof.
  induction bytes as [|c bytes [IH1 IH2]]; [done|]. destruct (encode_byte c) as (_ & H1 & H2).
  cbn [encode all_chars]. rewrite H1, H2, IH1. split; [done|exact IH2].
Qed.

Lemma decode_pairs_encode bytes : decode_pairs (encode bytes) = Ok bytes.
Proof.
  induction bytes as [|c bytes IH]; [done|]. cbn [encode decode_pairs].
  rewrite (proj1 (encode_byte c)), IH. done.
Qed.

Lemma decode_encode bytes : decode (encode bytes) = Ok bytes.
Proof. unfold decode. destruct (encode_ascii bytes) as [-> ->]. apply decode_pairs_encode. Qed.

(** A digit and its value. *)
Lemma to_digit16_spec c :
  match to_digit16 c with
  | Some n => (n < 16)%N ∧ hex_digit n = to_ascii_lowercase c ∧ is_ascii_hexdigit c = true
  | None => is_ascii_hexdigit c = false
  end.
Proof.
  set (P := λ c, match to_digit16 c with
    | Some n => (n <? 16)%N && Ascii.eqb (hex_digit n) (to_ascii_lowercase c) && is_ascii_hexdigit c
    | None => negb (is_ascii_hexdigit c) end).
  assert (P c = true) as H by (apply forall_ascii; vm_compute; reflexivity).
  unfold P in H. destruct (to_digit16 c) as [n|].
  - rewrite !andb_true_iff, N.ltb_lt, Ascii.eqb_eq in H. naive_solver.
  - by apply negb_true_iff in H.
Qed.

(** [str::to_ascii_lowercase] *)
Fixpoint lowercase (s : string) : string :=
  match s with
  | EmptyString => EmptyString
  | String c s' => String (to_ascii_lowercase c) (lowercase s')
  end.

(** Two digits and the byte they spell. *)
Lemma from_str_radix_spec a b :
  Ascii.eqb a "+" = false →
  match from_str_radix a b with
  | Some c => hex_digit (N_of_ascii c / 16) = to_ascii_lowercase a
      ∧ hex_digit (N_of_ascii c mod 16) = to_ascii_lowercase b
      ∧ is_ascii_hexdigit a = true ∧ is_ascii_hexdigit b = true
  | None => is_ascii_hexdigit a && is_ascii_hexdigit b = false
  end.
Proof.
  intros Ha. unfold from_str_radix. rewrite Ha.
  pose proof (to_digit16_spec a) as Sa. pose proof (to_digit16_spec b) as Sb.
  destruct (to_digit16 a) as [x|]; [|by rewrite Sa]. destruct (to_digit16 b) as [y|].
  2:{ rewrite Sb. apply andb_false_r. }
  destruct Sa as (Hx & Hdx & ->), Sb as (Hy & Hdy & ->).
  rewrite N_ascii_embedding by lia.
  assert ((16 * x + y) / 16 = x)%N as -> by (symmetry; apply (N.div_unique _ _ _ y); lia).
  assert ((16 * x + y) mod 16 = y)%N as -> by (symmetry; apply (N.mod_unique _ _ x y); lia).
  by rewrite Hdx, Hdy.
Qed.

(** Pairs of digits without a sign. *)
Lemma decode_pairs_spec n s :
  String.length s ≤ n → Nat.even (String.length s) = true → contains_char "+" s = false →
  match decode_pairs s with
  | Ok bytes => encode bytes = lowercase s ∧ all_chars is_ascii_hexdigit s = true
      ∧ String.length s = 2 * String.length bytes
  | Err e => e = InvalidChar ∧ all_chars is_ascii_hexdigit s = false
  end.
Proof.
  revert s. induction n as [|n IH]; intros [|a [|b s]] Hn He Hp; simpl in Hn; try lia; try done.
  simpl in Hp. apply orb_false_iff in Hp as [Ha [_ Hp]%orb_false_iff].
  cbn [decode_pairs]. pose proof (from_str_radix_spec a b Ha) as Hab.
  destruct (from_str_radix a b) as [c|].
  - destruct Hab as (H1 & H2 & H3 & H4). specialize (IH s ltac:(lia) He Hp).
    destruct (decode_pairs s) as [bytes|e]; simpl.
    + destruct IH as (I1 & I2 & I3). rewrite H1, H2, H3, H4, I1, I2. repeat split. lia.
    + destruct IH as [-> I]. by rewrite H3, H4, I.
  - split; [done|]. cbn [all_chars]. by rewrite andb_assoc, Hab.
Qed.

Lemma hexdigit_ascii s : all_chars is_ascii s = false → all_chars is_ascii_hexdigit s = false.
Proof.
  induction s as [|c s IH]; [done|]. cbn [all_chars]. rewrite !andb_false_iff. intros [H|H]; [left|by right; apply IH].
  assert (is_ascii c || negb (is_ascii_hexdigit c) = true) as Hc
    by (apply (forall_ascii (λ c, is_ascii c || negb (is_ascii_hexdigit c))); vm_compute; reflexivity).
  rewrite H in Hc. by apply negb_true_iff in Hc.
Qed.

(** Decoding a string without a sign: exactly the hexadecimal strings of even length are
    accepted, and each gives the bytes it spells. *)
Lemma decode_exact s :
  contains_char "+" s = false →
  match decode s with
  | Ok bytes => all_chars is_ascii_hexdigit s = true ∧ encode bytes = lowercase s
      ∧ str_len s = 2 * str_len bytes
  | Err OddLength => Nat.even (str_len s) = false
  | Err InvalidChar => all_chars is_ascii_hexdigit s = false
  end.
Proof.
  intros Hp. unfold decode. destruct (all_chars is_ascii s) eqn:Ha; simpl; [|by apply hexdigit_ascii].
  destruct (Nat.even (str_len s)) eqn:He; simpl; [|done].
  pose proof (decode_pairs_spec _ s (le_n _) He Hp) as H. destruct (decode_pairs s) as [bytes|e]; [naive_solver|].
  by destruct H as [-> ?].
Qed.

Lemma hexdigits_unsigned s : all_chars is_ascii_hexdigit s = true → contains_char "+" s = false.
Proof.
  induction s as [|c s IH]; [done|]. cbn [all_chars contains_char]. intros [Hc Hs]%andb_true_iff.
  apply orb_false_iff. split; [|by apply IH].
  destruct (Ascii.eqb c "+") eqn:E; [|done]. apply Ascii.eqb_eq in E. by subst.
Qed.

Lemma decode_hexdigits s :
  all_chars is_ascii_hexdigit s = true → Nat.even (str_len s) = true →
  ∃ bytes, decode s = Ok bytes ∧ str_len s = 2 * str_len bytes.
Proof.
  intros Hs He.
  pose proof (hexdigits_unsigned s Hs) as Hp.
  pose proof (decode_exact s Hp) as H. destruct (decode s) as [bytes|[]]; [|congruence..].
  exists bytes. naive_solver.
Qed.

(** decoding what was encoded gives the bytes back; and a string without a plus sign
    that decodes spells, up to the case of its digits, the encoding of what it decoded to,
    while one that does not has odd length or a character that is no digit. *)
Theorem hex_roundtrip :
  (∀ bytes, decode (encode bytes) = Ok bytes)
  ∧ ∀ s, contains_char "+" s = false →
      match decode s with
      | Ok bytes => encode bytes = lowercase s
      | Err OddLength => Nat.even (str_len s) = false
      | Err InvalidChar => all_chars is_ascii_hexdigit s = false
      end.
Proof.
  split; [exact decode_encode|]. intros s Hs. pose proof (decode_exact s Hs) as H. destruct (decode s) as [bytes|[]]; naive_solver.
Qed.

Lemma hex_roundtrip_witness :
  decode (encode "key") = Ok "key" ∧ encode "key" = lowercase "6B6579".
Proof.
  split; [exact (proj1 hex_roundtrip "key")|]. exact (proj2 hex_roundtrip "6B6579" eq_refl).
Defined.

(** A plus sign in the place of a first digit is accepted as a sign. *)
Lemma decode_accepts_sign : decode "+f" = Ok (String (ascii_of_nat 15) EmptyString).
Proof. reflexivity. Qed.

End Hex.
