(* ===== verification/Json.v ===== *)
(** JSON documents ([serde_json::Value]) as the sources pass them around: selectors in
    the database, static data and action parameters of surfaces. *)

From stdpp Require Import base list strings numbers.
From S2P Require Import Prelude.

(** [serde_json::Number]: an unsigned integer, a negative one, or a finite float,
    given by the bits of its [f64]. *)
Inductive Number := PosInt (n : Z) | NegInt (n : Z) | Float (bits : Z).
#[global] Instance Number_eq_dec : EqDecision Number.
Proof. solve_decision. Defined.

(** [serde_json::Value]; an object is its entries in key order. *)
Inductive Value :=
| JNull
| JBool (b : bool)
| JNumber (n : Number)
| JString (s : string)
| JArray (l : list Value)
| JObject (l : list (string * Value)).

#[global] Instance Value_eq_dec : EqDecision Value.
Proof.
  refine (fix go v w := let _ : EqDecision Value := @go in
    match v, w with
    | JNull, JNull => left eq_refl
    | JBool b, JBool b' => cast_if (decide (b = b'))
    | JNumber n, JNumber n' => cast_if (decide (n = n'))
    | JString s, JString s' => cast_if (decide (s = s'))
    | JArray l, JArray l' => cast_if (decide (l = l'))
    | JObject l, JObject l' => cast_if (decide (l = l'))
    | _, _ => right _
    end); congruence.
Defined.

(** [Value::get] on an object *)
Fixpoint json_get (key : string) (l : list (string * Value)) : option Value :=
  match l with
  | [] => None
  | (k, v) :: l' => if decide (k = key) then Some v else json_get key l'
  end.

(** [Value::as_i64]: integers in the range of [i64] *)
Definition as_i64 (v : Value) : option Z :=
  match v with
  | JNumber (PosInt n) => if (n <=? 9223372036854775807)%Z then Some n else None
  | JNumber (NegInt n) => Some n
  | _ => None
  end.
