(* ===== verification/WorkloadClaims.v ===== *)
(** The workload claim registry: exclusive ownership of config keys.

    Models [crates/ui/controller-core/src/workload_claims.rs]: the four
    indexes of [ClaimRegistryInner] and every operation of
    [WorkloadClaimRegistry]. Each method takes the registry's write (or read)
    lock for its whole body, so one method call is one atomic step. The clock
    ([OffsetDateTime::now_utc]) is an argument. *)

From stdpp Require Import base list gmap sets strings numbers.
From S2P Require Import Prelude.

Module Claims.

(** ** State *)

Record ClaimOwner := mkClaimOwner {
  service_id : Uuid;
  controller_id : Uuid;
  tenant_id : Uuid;
  claimed_at : Instant;
}.

#[export] Instance ClaimOwner_eq_dec : EqDecision ClaimOwner.
Proof. solve_decision. Defined.

Record ClaimRegistryInner := mkInner {
  claims : gmap string ClaimOwner;
  by_service : gmap Uuid (gset string);
  tenant_services : gmap Uuid (gset Uuid);
  pending_desires : gmap Uuid (gmap string Uuid);
}.

Definition new : ClaimRegistryInner := mkInner ∅ ∅ ∅ ∅.

Definition set_claims (c : gmap string ClaimOwner) (r : ClaimRegistryInner) :=
  mkInner c (by_service r) (tenant_services r) (pending_desires r).
Definition set_by_service (b : gmap Uuid (gset string)) (r : ClaimRegistryInner) :=
  mkInner (claims r) b (tenant_services r) (pending_desires r).
Definition set_tenant_services (t : gmap Uuid (gset Uuid)) (r : ClaimRegistryInner) :=
  mkInner (claims r) (by_service r) t (pending_desires r).
Definition set_pending (p : gmap Uuid (gmap string Uuid)) (r : ClaimRegistryInner) :=
  mkInner (claims r) (by_service r) (tenant_services r) p.

Record ClaimResult := mkClaimResult {
  granted : gset string;
  rejected : gset string;
  released : gmap string Uuid;
  tenants_after : gset Uuid;
  tenants_before : gset Uuid;
}.

Record Revocation := mkRevocation {
  rev_service_id : Uuid;
  revoked_keys : gset string;
}.

(** ** Derived tenant index *)

(** [tenant_services.retain(|_, services| { services.remove(&s); !services.is_empty() })] *)
Definition remove_service_from_tenants (s : Uuid) (ts : gmap Uuid (gset Uuid)) :
    gmap Uuid (gset Uuid) :=
  filter (λ p : Uuid * gset Uuid, p.2 ≠ ∅) ((λ S : gset Uuid, S ∖ {[s]}) <$> ts).

Definition rebuild_tenant_index_for_service (s : Uuid) (r : ClaimRegistryInner) :
    ClaimRegistryInner :=
  let ts0 := remove_service_from_tenants s (tenant_services r) in
  let ts1 :=
    match by_service r !! s with
    | None => ts0
    | Some keys =>
        foldl (λ ts key,
          match claims r !! key with
          | Some owner => entry_insert (tenant_id owner) s ts
          | None => ts
          end) ts0 (elements keys)
    end in
  set_tenant_services ts1 r.

(** ** Queries *)

Definition service_claims (s : Uuid) (r : ClaimRegistryInner) : gset string :=
  get_set s (by_service r).

Definition services_for_tenant (t : Uuid) (r : ClaimRegistryInner) : gset Uuid :=
  get_set t (tenant_services r).

Definition tenants_for_service (s : Uuid) (r : ClaimRegistryInner) : gset Uuid :=
  match by_service r !! s with
  | Some keys =>
      list_to_set (omap (λ k, tenant_id <$> claims r !! k) (elements keys))
  | None => ∅
  end.

Definition local_claims (cid : Uuid) (r : ClaimRegistryInner) :
    gmap string (Uuid * Uuid * Instant) :=
  (λ o, (service_id o, tenant_id o, claimed_at o)) <$>
    filter (λ p : string * ClaimOwner, controller_id p.2 = cid) (claims r).

Definition tenant_for_key (key : string) (r : ClaimRegistryInner) : option Uuid :=
  tenant_id <$> claims r !! key.

(** Two nested loops: services with desires, and the desires of each. *)
Definition find_pending_desires_for_keys (keys : gset string) (r : ClaimRegistryInner) :
    gmap Uuid (gmap string Uuid) :=
  foldl (λ res '(svc, desires),
    foldl (λ res '(key, t),
      if decide (key ∈ keys)
      then <[svc := <[key := t]> (default ∅ (res !! svc))]> res
      else res) res (map_to_list desires)) ∅ (map_to_list (pending_desires r)).

Definition new_tenants (c : ClaimResult) : gset Uuid :=
  tenants_after c ∖ tenants_before c.

(** ** Operations *)

(** Body of the release loop of [try_claim]. *)
Definition try_claim_release_step (s : Uuid)
    (acc : ClaimRegistryInner * gmap string Uuid) (key : string) :
    ClaimRegistryInner * gmap string Uuid :=
  let '(r, rel) := acc in
  let rel' := match claims r !! key with
              | Some owner => <[key := tenant_id owner]> rel
              | None => rel
              end in
  let r' := set_claims (delete key (claims r)) r in
  (set_by_service (entry_remove s key (by_service r')) r', rel').

(** Body of the claim loop of [try_claim]. [claims[key]] panics on a missing
    key: [None]. *)
Definition try_claim_grant_step (s cid : Uuid) (now : Instant) (req : gmap string Uuid)
    (acc : option (ClaimRegistryInner * gset string * gset string)) (key : string) :
    option (ClaimRegistryInner * gset string * gset string) :=
  '(r, g, rej) ← acc;
  if match claims r !! key with
     | Some existing => bool_decide (service_id existing ≠ s)
     | None => false
     end
  then Some (r, g, {[key]} ∪ rej)
  else
    t ← req !! key;
    let r' := set_claims (<[key := mkClaimOwner s cid t now]> (claims r)) r in
    Some (set_by_service (entry_insert s key (by_service r')) r', {[key]} ∪ g, rej).

Definition try_claim (now : Instant) (s cid : Uuid) (req : gmap string Uuid)
    (r : ClaimRegistryInner) : option (ClaimResult * ClaimRegistryInner) :=
  let before := tenants_for_service s r in
  let current_keys := service_claims s r in
  let desired_keys : gset string := dom req in
  let to_release := current_keys ∖ desired_keys in
  let '(r1, rel) := foldl (try_claim_release_step s) (r, ∅) (elements to_release) in
  let to_claim := desired_keys ∖ current_keys in
  '(r2, g, rej) ← foldl (try_claim_grant_step s cid now req) (Some (r1, ∅, ∅)) (elements to_claim);
  let r3 :=
    if decide (rej = ∅) then set_pending (delete s (pending_desires r2)) r2
    else set_pending
           (<[s := list_to_map (omap (λ k, (k,.) <$> req !! k) (elements rej))]>
              (pending_desires r2)) r2 in
  let r4 := rebuild_tenant_index_for_service s r3 in
  let after := tenants_for_service s r4 in
  Some (mkClaimResult g rej rel after before, r4).

(** Body of the loop of [release]. *)
Definition release_step (acc : gmap string ClaimOwner * gmap string Uuid) (key : string) :
    gmap string ClaimOwner * gmap string Uuid :=
  let '(c, rel) := acc in
  match c !! key with
  | Some owner => (delete key c, <[key := tenant_id owner]> rel)
  | None => (c, rel)
  end.

Definition release (s : Uuid) (r : ClaimRegistryInner) :
    gmap string Uuid * ClaimRegistryInner :=
  let '(r1, rel) :=
    match by_service r !! s with
    | None => (r, ∅)
    | Some keys =>
        let '(c, rel) := foldl release_step (claims r, ∅) (elements keys) in
        (set_claims c (set_by_service (delete s (by_service r)) r), rel)
    end in
  let r2 := set_pending (delete s (pending_desires r1)) r1 in
  (rel, rebuild_tenant_index_for_service s r2).

(** Body of the loop of [release_keys]; the [unwrap] is on the entry the guard
    just found. *)
Definition release_keys_step (s : Uuid)
    (acc : ClaimRegistryInner * gmap string Uuid) (key : string) :
    ClaimRegistryInner * gmap string Uuid :=
  let '(r, rel) := acc in
  match claims r !! key with
  | Some owner =>
      if decide (service_id owner = s) then
        let r' := set_claims (delete key (claims r)) r in
        (set_by_service (entry_remove s key (by_service r')) r',
         <[key := tenant_id owner]> rel)
      else (r, rel)
  | None => (r, rel)
  end.

Definition release_keys (s : Uuid) (keys : gset string) (r : ClaimRegistryInner) :
    gmap string Uuid * ClaimRegistryInner :=
  let '(r1, rel) := foldl (release_keys_step s) (r, ∅) (elements keys) in
  if decide (rel = ∅) then (rel, r1)
  else (rel, rebuild_tenant_index_for_service s r1).

(** Body of the release loop of [apply_remote_announcement]. *)
Definition remote_release_step (s : Uuid) (r : ClaimRegistryInner) (key : string) :
    ClaimRegistryInner :=
  match claims r !! key with
  | Some owner =>
      if decide (service_id owner = s) then
        let r' := set_claims (delete key (claims r)) r in
        set_by_service (entry_remove s key (by_service r')) r'
      else r
  | None => r
  end.

(** The conflict rule: earlier [claimed_at] wins, then smaller service id. *)
Definition remote_wins (at_ : Instant) (s : Uuid) (existing : ClaimOwner) : bool :=
  bool_decide (at_ < claimed_at existing)%Z
  || (bool_decide (at_ = claimed_at existing) && bool_decide (s < service_id existing)%N).

(** Body of the claim loop of [apply_remote_announcement]. *)
Definition remote_claim_step (s cid : Uuid) (at_ : Instant)
    (acc : ClaimRegistryInner * gmap Uuid (gset string)) (kt : string * Uuid) :
    ClaimRegistryInner * gmap Uuid (gset string) :=
  let '(r, revs) := acc in
  let '(key, t) := kt in
  let insert_claim r :=
    let r' := set_claims (<[key := mkClaimOwner s cid t at_]> (claims r)) r in
    set_by_service (entry_insert s key (by_service r')) r' in
  match claims r !! key with
  | Some existing =>
      if decide (service_id existing = s) then (insert_claim r, revs)
      else if remote_wins at_ s existing then
        let loser := service_id existing in
        (insert_claim (set_by_service (entry_remove loser key (by_service r)) r),
         entry_insert loser key revs)
      else (r, revs)
  | None => (insert_claim r, revs)
  end.

Definition apply_remote_announcement (s cid : Uuid) (claimed : gmap string Uuid)
    (rel : gset string) (at_ : Instant) (r : ClaimRegistryInner) :
    list Revocation * ClaimRegistryInner :=
  let r1 := foldl (remote_release_step s) r (elements rel) in
  let '(r2, revs) := foldl (remote_claim_step s cid at_) (r1, ∅) (map_to_list claimed) in
  let r3 := rebuild_tenant_index_for_service s r2 in
  let r4 := foldl (λ r svc, rebuild_tenant_index_for_service svc r) r3
              (map_to_list revs).*1 in
  ((λ '(svc, keys), mkRevocation svc keys) <$> map_to_list revs, r4).

(** Body of the loop of [apply_sync_response]. *)
Definition sync_step (cid : Uuid) (r : ClaimRegistryInner)
    (e : string * (Uuid * Uuid * Instant)) : ClaimRegistryInner :=
  let '(key, (s, t, at_)) := e in
  match claims r !! key with
  | Some _ => r
  | None =>
      mkInner (<[key := mkClaimOwner s cid t at_]> (claims r))
              (entry_insert s key (by_service r))
              (entry_insert t s (tenant_services r))
              (pending_desires r)
  end.

Definition apply_sync_response (cid : Uuid) (cl : gmap string (Uuid * Uuid * Instant))
    (r : ClaimRegistryInner) : ClaimRegistryInner :=
  foldl (sync_step cid) r (map_to_list cl).

(** ** The representation invariant *)

(** The reverse index and the forward map describe the same ownership, and the
    tenant index is derived from them. *)
Record wf (r : ClaimRegistryInner) : Prop := {
  wf_owner_indexed k o : claims r !! k = Some o → k ∈ service_claims (service_id o) r;
  wf_index_owned s k : k ∈ service_claims s r →
    ∃ o, claims r !! k = Some o ∧ service_id o = s;
  wf_tenants t s : s ∈ services_for_tenant t r ↔
    ∃ k o, claims r !! k = Some o ∧ service_id o = s ∧ tenant_id o = t;
  wf_tenants_nonempty t S : tenant_services r !! t = Some S → S ≠ ∅;
}.

(** The part of the invariant that concerns ownership alone. *)
Definition wf_own (r : ClaimRegistryInner) : Prop :=
  ∀ s k, k ∈ service_claims s r ↔ ∃ o, claims r !! k = Some o ∧ service_id o = s.

(** The part that concerns the tenant index, for one service. *)
Definition wf_ten (s : Uuid) (r : ClaimRegistryInner) : Prop :=
  ∀ t, s ∈ services_for_tenant t r ↔
    ∃ k o, claims r !! k = Some o ∧ service_id o = s ∧ tenant_id o = t.

Definition wf_ne (r : ClaimRegistryInner) : Prop :=
  ∀ t S, tenant_services r !! t = Some S → S ≠ ∅.

Lemma wf_split r : wf r ↔ wf_own r ∧ (∀ s, wf_ten s r) ∧ wf_ne r.
Proof.
  split.
  - intros [H1 H2 H3 H4]. split_and!.
    + intros s k. split; [apply H2|]. intros (o & Ho & <-). by apply H1.
    + intros s t. apply H3.
    + exact H4.
  - intros (H1 & H2 & H3). split.
    + intros k o Ho. apply H1. eauto.
    + intros s k. apply H1.
    + intros t s. apply H2.
    + exact H3.
Qed.

(** *** Rebuilding the tenant index *)

Lemma get_remove_service (s : Uuid) (ts : gmap Uuid (gset Uuid)) (t s' : Uuid) :
  s' ∈ get_set t (remove_service_from_tenants s ts) ↔ s' ∈ get_set t ts ∧ s' ≠ s.
Proof.
  unfold get_set, remove_service_from_tenants.
  rewrite map_lookup_filter, lookup_fmap.
  destruct (ts !! t) as [S|]; simpl; [|set_solver].
  destruct (decide (S ∖ {[s]} = ∅)) as [He|Hne].
  - rewrite option_guard_False by naive_solver. simpl. set_solver.
  - rewrite option_guard_True by done. simpl. set_solver.
Qed.

Lemma remove_service_nonempty (s : Uuid) (ts : gmap Uuid (gset Uuid)) t S :
  remove_service_from_tenants s ts !! t = Some S → S ≠ ∅.
Proof. unfold remove_service_from_tenants. by intros [_ ?]%map_lookup_filter_Some. Qed.

(** The re-adding loop, for any claim map and key list. *)
Lemma readd_loop (c : gmap string ClaimOwner) (s : Uuid) (keys : list string)
    (ts : gmap Uuid (gset Uuid)) (t s' : Uuid) :
  s' ∈ get_set t (foldl (λ ts key,
          match c !! key with
          | Some owner => entry_insert (tenant_id owner) s ts
          | None => ts
          end) ts keys) ↔
  s' ∈ get_set t ts ∨
    (s' = s ∧ ∃ k o, k ∈ keys ∧ c !! k = Some o ∧ tenant_id o = t).
Proof.
  revert ts. induction keys as [|key keys IH]; intros ts; simpl.
  - set_solver.
  - rewrite IH. destruct (c !! key) as [o|] eqn:Ho.
    + rewrite get_entry_insert. case_decide as Ht; set_solver.
    + set_solver.
Qed.

Lemma readd_loop_nonempty (c : gmap string ClaimOwner) (s : Uuid) (keys : list string)
    (ts : gmap Uuid (gset Uuid)) :
  (∀ t S, ts !! t = Some S → S ≠ ∅) →
  ∀ t S, foldl (λ ts key,
          match c !! key with
          | Some owner => entry_insert (tenant_id owner) s ts
          | None => ts
          end) ts keys !! t = Some S → S ≠ ∅.
Proof.
  revert ts. induction keys as [|key keys IH]; intros ts Hts; simpl; [done|].
  apply IH. destruct (c !! key) as [o|]; [|done].
  intros t S. unfold entry_insert. rewrite lookup_insert_Some. set_solver.
Qed.

Lemma rebuild_claims s r : claims (rebuild_tenant_index_for_service s r) = claims r.
Proof. done. Qed.

Lemma rebuild_service_claims s s' r :
  service_claims s' (rebuild_tenant_index_for_service s r) = service_claims s' r.
Proof. done. Qed.

Lemma rebuild_ne s r : wf_ne (rebuild_tenant_index_for_service s r).
Proof.
  intros t S. unfold rebuild_tenant_index_for_service. simpl.
  destruct (by_service r !! s).
  - by apply readd_loop_nonempty, remove_service_nonempty.
  - apply remove_service_nonempty.
Qed.

Lemma rebuild_member s r t s' :
  s' ∈ services_for_tenant t (rebuild_tenant_index_for_service s r) ↔
  (s' ∈ services_for_tenant t r ∧ s' ≠ s) ∨
  (s' = s ∧ ∃ k o, k ∈ service_claims s r ∧ claims r !! k = Some o ∧ tenant_id o = t).
Proof.
  unfold services_for_tenant, rebuild_tenant_index_for_service, service_claims. simpl.
  change (get_set s (by_service r)) with (default ∅ (by_service r !! s)).
  destruct (by_service r !! s) as [keys|]; simpl.
  - rewrite readd_loop, get_remove_service. by setoid_rewrite elem_of_elements.
  - rewrite get_remove_service. set_solver.
Qed.

(** Rebuilding establishes the index for its service and keeps it for the others. *)
Lemma rebuild_ten_self s r : wf_own r → wf_ten s (rebuild_tenant_index_for_service s r).
Proof.
  intros Hown t. rewrite rebuild_member, rebuild_claims. split.
  - intros [[_ ?]|(_ & k & o & Hk & Ho & Ht)]; [done|].
    apply Hown in Hk as (o' & Ho' & Hs). exists k, o. naive_solver.
  - intros (k & o & Ho & Hs & Ht). right. split; [done|]. exists k, o.
    split_and!; [apply Hown; eauto|done|done].
Qed.

Lemma rebuild_ten_other s s' r :
  s' ≠ s → wf_ten s' r → wf_ten s' (rebuild_tenant_index_for_service s r).
Proof. intros Hne Hten t. rewrite rebuild_member, rebuild_claims, <-(Hten t). naive_solver. Qed.

(** An update that touches one service's claims, then rebuilds its index. *)
Lemma rebuild_wf s r r' :
  wf_own r' → (∀ s', s' ≠ s → wf_ten s' r') → r = rebuild_tenant_index_for_service s r' → wf r.
Proof.
  intros Hown Hten ->. apply wf_split. split_and!; [exact Hown| |apply rebuild_ne].
  intros s'. destruct (decide (s' = s)) as [->|Hne].
  - by apply rebuild_ten_self.
  - by apply rebuild_ten_other, Hten.
Qed.

(** The tenant index of a service depends only on the claims it owns. *)
Lemma wf_ten_frame s r r' :
  tenant_services r' = tenant_services r →
  (∀ k o, service_id o = s → claims r' !! k = Some o ↔ claims r !! k = Some o) →
  wf_ten s r → wf_ten s r'.
Proof.
  intros Hts Hcl Hten t. unfold services_for_tenant. rewrite Hts.
  change (get_set t (tenant_services r)) with (services_for_tenant t r).
  rewrite (Hten t). split; intros (k & o & Ho & Hs & Ht); exists k, o; naive_solver.
Qed.

(** *** Loop specifications

    Each loop is characterised by the lookups of the state it leaves, so the
    specifications do not depend on the iteration order of the collections. *)

(** [r'] has the same tenant index and pending desires as [r]. *)
Definition same_rest (r r' : ClaimRegistryInner) : Prop :=
  tenant_services r' = tenant_services r ∧ pending_desires r' = pending_desires r.

(** What dropping a key from, or adding one to, a service's index does. *)
Lemma service_claims_remove c b s key s' ts pd :
  service_claims s' (mkInner c (entry_remove s key b) ts pd) =
  if decide (s' = s) then get_set s b ∖ {[key]} else get_set s' b.
Proof. apply get_entry_remove. Qed.

Lemma service_claims_insert c b s key s' ts pd :
  service_claims s' (mkInner c (entry_insert s key b) ts pd) =
  if decide (s' = s) then {[key]} ∪ get_set s b else get_set s' b.
Proof. apply get_entry_insert. Qed.

Lemma release_loop s l r rel r' rel' :
  foldl (try_claim_release_step s) (r, rel) l = (r', rel') →
  (∀ k, claims r' !! k = if decide (k ∈ l) then None else claims r !! k) ∧
  (∀ s', service_claims s' r' =
     if decide (s' = s) then service_claims s r ∖ list_to_set l else service_claims s' r) ∧
  (∀ k, rel' !! k = if decide (k ∈ l) then (tenant_id <$> claims r !! k) ∪ rel !! k else rel !! k) ∧
  same_rest r r'.
Proof.
  revert r' rel'. induction l as [|key l IH] using rev_ind; intros r' rel'.
  - intros [= <- <-]. split_and!; try done. intros s'. case_decide; set_solver.
  - rewrite foldl_snoc.
    destruct (foldl (try_claim_release_step s) (r, rel) l) as [r1 rel1] eqn:E. simpl.
    destruct (IH r1 rel1 eq_refl) as (Hc & Hs & Hrel & Hrest).
    intros [= <- <-]. split_and!; [| | |exact Hrest].
    + intros k. simpl. rewrite lookup_delete, Hc. repeat case_decide; set_solver.
    + intros s'. unfold set_by_service. rewrite service_claims_remove. simpl.
      fold (service_claims s r1) (service_claims s' r1). rewrite !Hs.
      repeat case_decide; set_solver.
    + intros k. destruct (decide (k = key)) as [->|Hne].
      * rewrite (decide_True (P := key ∈ l ++ [key])) by set_solver.
        rewrite Hc. specialize (Hrel key).
        case_decide; destruct (claims r !! key), (rel !! key); simpl in *;
          by rewrite ?lookup_insert_eq, ?Hrel.
      * transitivity (rel1 !! k);
          [destruct (claims r1 !! key); by rewrite ?lookup_insert_ne|].
        rewrite Hrel. repeat case_decide; set_solver.
Qed.

(** May [s] take key [k]: it is free or already its own. *)
Definition grantable (s : Uuid) (c : gmap string ClaimOwner) (k : string) : Prop :=
  ∀ o, c !! k = Some o → service_id o = s.

#[export] Instance grantable_dec s c k : Decision (grantable s c k).
Proof.
  unfold grantable. destruct (c !! k) as [o|].
  - destruct (decide (service_id o = s)); [left|right]; naive_solver.
  - left. naive_solver.
Defined.

Lemma grant_step s cid now req r g rej key t :
  req !! key = Some t →
  try_claim_grant_step s cid now req (Some (r, g, rej)) key =
  Some (if decide (grantable s (claims r) key)
        then (mkInner (<[key := mkClaimOwner s cid t now]> (claims r))
                (entry_insert s key (by_service r)) (tenant_services r) (pending_desires r),
              {[key]} ∪ g, rej)
        else (r, g, {[key]} ∪ rej)).
Proof.
  intros Ht. simpl. rewrite Ht. simpl.
  destruct (decide (grantable s (claims r) key)) as [Hg|Hg]; unfold grantable in Hg;
    destruct (claims r !! key) as [o|]; try case_bool_decide; naive_solver.
Qed.

Lemma grant_loop s cid now req l r :
  (∀ k, k ∈ l → is_Some (req !! k)) →
  ∃ r' g rej,
    foldl (try_claim_grant_step s cid now req) (Some (r, ∅, ∅)) l = Some (r', g, rej) ∧
    (∀ k, claims r' !! k =
       if decide (k ∈ l ∧ grantable s (claims r) k)
       then (λ t, mkClaimOwner s cid t now) <$> req !! k else claims r !! k) ∧
    (∀ k, k ∈ g ↔ k ∈ l ∧ grantable s (claims r) k) ∧
    (∀ k, k ∈ rej ↔ k ∈ l ∧ ¬ grantable s (claims r) k) ∧
    (∀ s' k, k ∈ service_claims s' r' ↔
       k ∈ service_claims s' r ∨ (s' = s ∧ k ∈ l ∧ grantable s (claims r) k)) ∧
    same_rest r r'.
Proof.
  induction l as [|key l IH] using rev_ind; intros Hreq.
  - exists r, ∅, ∅. split_and!; try done; try set_solver.
  - destruct (Hreq key) as [t Ht]; [set_solver|].
    destruct IH as (r1 & g & rej & Hf & Hc & Hg & Hrej & Hk & Hrest); [set_solver|].
    rewrite foldl_snoc, Hf, (grant_step _ _ _ _ _ _ _ _ _ Ht).
    assert (grantable s (claims r1) key ↔ grantable s (claims r) key) as Hgr.
    { unfold grantable. rewrite Hc. case_decide as Hd; [|done].
      rewrite Ht. simpl. split; [|naive_solver]. intros _. apply Hd. }
    case_decide as Hd; rewrite Hgr in Hd; do 3 eexists; (split; [done|]); split_and!.
    + intros k. simpl. destruct (decide (k = key)) as [->|Hne].
      * rewrite lookup_insert_eq, decide_True, Ht by set_solver. done.
      * rewrite lookup_insert_ne, Hc by done. repeat case_decide; set_solver.
    + set_solver.
    + set_solver.
    + intros s' k. rewrite service_claims_insert.
      fold (service_claims s r1) (service_claims s' r1). specialize (Hk s' k).
      case_decide; subst; set_solver.
    + exact Hrest.
    + intros k. rewrite Hc. repeat case_decide; set_solver.
    + set_solver.
    + set_solver.
    + intros s' k. rewrite Hk. set_solver.
    + exact Hrest.
Qed.

(** *** [try_claim] *)

(** What a full-replacement claim by [s] leaves at one key. *)
Definition claim_effect (now : Instant) (s cid : Uuid) (req : gmap string Uuid)
    (c : gmap string ClaimOwner) (k : string) : option ClaimOwner :=
  match c !! k, req !! k with
  | Some o, Some _ => Some o
  | Some o, None => if decide (service_id o = s) then None else Some o
  | None, Some t => Some (mkClaimOwner s cid t now)
  | None, None => None
  end.

Lemma claim_effect_owner now s cid req c k s' :
  (∃ o, claim_effect now s cid req c k = Some o ∧ service_id o = s') ↔
  (s' ≠ s ∧ ∃ o, c !! k = Some o ∧ service_id o = s') ∨
  (s' = s ∧ is_Some (req !! k) ∧
     (c !! k = None ∨ ∃ o, c !! k = Some o ∧ service_id o = s)).
Proof.
  unfold claim_effect. destruct (decide (s' = s)) as [->|Hne];
    destruct (c !! k) as [o|], (req !! k) as [t|]; try case_decide; naive_solver.
Qed.

(** The two loops of [try_claim], in terms of the registry they start from. *)
Lemma try_claim_loops now s cid req r :
  wf_own r →
  ∃ r1 rel r2 g rej,
    foldl (try_claim_release_step s) (r, ∅) (elements (service_claims s r ∖ dom req)) = (r1, rel) ∧
    foldl (try_claim_grant_step s cid now req) (Some (r1, ∅, ∅))
      (elements (dom req ∖ service_claims s r)) = Some (r2, g, rej) ∧
    (∀ k, claims r2 !! k = claim_effect now s cid req (claims r) k) ∧
    wf_own r2 ∧
    (∀ k, k ∈ g ↔ k ∈ dom req ∧ claims r !! k = None) ∧
    (∀ k, k ∈ rej ↔ k ∈ dom req ∧ ∃ o, claims r !! k = Some o ∧ service_id o ≠ s) ∧
    (∀ k t, rel !! k = Some t ↔ k ∉ dom req ∧
       ∃ o, claims r !! k = Some o ∧ service_id o = s ∧ tenant_id o = t) ∧
    same_rest r r2.
Proof.
  intros Hown.
  set (rl := elements (service_claims s r ∖ dom req)).
  set (cl := elements (dom req ∖ service_claims s r)).
  assert (∀ k, k ∈ rl ↔ k ∉ dom req ∧ ∃ o, claims r !! k = Some o ∧ service_id o = s) as Hrl.
  { intros k. unfold rl. rewrite elem_of_elements, elem_of_difference, (Hown s k). tauto. }
  assert (∀ k, k ∈ cl ↔ k ∈ dom req ∧ ¬ ∃ o, claims r !! k = Some o ∧ service_id o = s) as Hcl.
  { intros k. unfold cl. by rewrite elem_of_elements, elem_of_difference, (Hown s k). }
  destruct (foldl (try_claim_release_step s) (r, ∅) rl) as [r1 rel] eqn:E1.
  apply release_loop in E1 as (Hc1 & Hs1 & Hrel & Hts1 & Hpd1).
  destruct (grant_loop s cid now req cl r1)
    as (r2 & g & rej & Hf & Hc2 & Hg & Hrej & Hs2 & Hts2 & Hpd2).
  { intros k [Hk _]%Hcl. by apply elem_of_dom. }
  exists r1, rel, r2, g, rej.
  (* on the keys to claim, [grantable] after the releases means free before them *)
  assert (∀ k, k ∈ cl → grantable s (claims r1) k ↔ claims r !! k = None) as Hgr.
  { intros k [Hd Hn]%Hcl. unfold grantable. rewrite Hc1.
    rewrite decide_False by (rewrite Hrl; tauto). clear -Hn.
    destruct (claims r !! k) as [o|]; [|done].
    split; [|done]. intros Hx. destruct Hn. exists o. auto. }
  assert (∀ k, claims r2 !! k = claim_effect now s cid req (claims r) k) as Hc.
  { intros k. rewrite Hc2, Hc1. clear -Hrl Hcl Hgr. specialize (Hrl k). specialize (Hcl k).
    specialize (Hgr k). rewrite elem_of_dom in *. unfold claim_effect.
    destruct (claims r !! k) as [o|], (req !! k) as [t|]; simpl in *;
      repeat case_decide; naive_solver. }
  split_and!; try done.
  - intros s' k. rewrite Hs2, Hs1, Hc, claim_effect_owner. clear -Hown Hrl Hcl Hgr.
    specialize (Hown s' k). specialize (Hrl k). specialize (Hcl k). specialize (Hgr k).
    rewrite elem_of_dom in *. destruct (decide (s' = s)) as [->|Hs'].
    + rewrite elem_of_difference, elem_of_list_to_set, Hrl, Hown.
      destruct (req !! k) as [t|], (claims r !! k) as [o|]; naive_solver.
    + rewrite Hown. naive_solver.
  - intros k. rewrite Hg. split.
    + intros [Hk Hn]. rewrite Hgr in Hn by done. apply Hcl in Hk. tauto.
    + intros [Hd Hn]. assert (k ∈ cl) as Hk; [|by rewrite Hgr].
      apply Hcl. split; [done|]. intros (o & Ho & _). congruence.
  - intros k. rewrite Hrej. split.
    + intros [Hk Hn]. rewrite Hgr in Hn by done. apply Hcl in Hk as [Hd Hk].
      split; [done|]. destruct (claims r !! k) as [o|]; [|done]. exists o. split; [done|].
      intros Hs. destruct Hk. by exists o.
    + intros (Hd & o & Ho & Hs). assert (k ∈ cl) as Hk.
      { apply Hcl. split; [done|]. intros (o' & Ho' & Hs'). congruence. }
      rewrite Hgr by done. split; [done|congruence].
  - intros k t. rewrite Hrel, lookup_empty. case_decide as Hk; rewrite Hrl in Hk.
    + destruct Hk as (Hd & o & Ho & Hs). rewrite Ho. simpl. split; [intros [= <-]; eauto|].
      intros (_ & o' & [= <-] & _ & <-). done.
    + split; [done|]. intros (Hd & o & Ho & Hs & _). destruct Hk. eauto.
  - split; congruence.
Qed.

Lemma try_claim_core now s cid req r :
  wf r →
  ∃ res r', try_claim now s cid req r = Some (res, r') ∧ wf r' ∧
    (∀ k, claims r' !! k = claim_effect now s cid req (claims r) k) ∧
    (∀ k, k ∈ granted res ↔ k ∈ dom req ∧ claims r !! k = None) ∧
    (∀ k, k ∈ rejected res ↔ k ∈ dom req ∧
       ∃ o, claims r !! k = Some o ∧ service_id o ≠ s) ∧
    (∀ k t, released res !! k = Some t ↔ k ∉ dom req ∧
       ∃ o, claims r !! k = Some o ∧ service_id o = s ∧ tenant_id o = t) ∧
    tenants_before res = tenants_for_service s r ∧
    tenants_after res = tenants_for_service s r' ∧
    pending_desires r' !! s =
      (if decide (rejected res = ∅) then None
       else Some (list_to_map (omap (λ k, (k,.) <$> req !! k) (elements (rejected res))))) ∧
    (∀ s', s' ≠ s → pending_desires r' !! s' = pending_desires r !! s').
Proof.
  intros (Hown & Hten & _)%wf_split.
  destruct (try_claim_loops now s cid req r Hown)
    as (r1 & rel & r2 & g & rej & E1 & E2 & Hc & Hown2 & Hg & Hrej & Hrel & Hts & Hpd).
  unfold try_claim. rewrite E1, E2. cbn [mbind option_bind]. clear E1 E2.
  set (r3 := if decide (rej = ∅) then _ else _).
  assert (claims r3 = claims r2 ∧ by_service r3 = by_service r2 ∧
          tenant_services r3 = tenant_services r) as (Hc3 & Hb3 & Ht3).
  { unfold r3. by case_decide. }
  eexists _, _. split; [reflexivity|]. cbn [granted rejected released tenants_before tenants_after].
  split_and!; try done.
  - apply (rebuild_wf s _ r3); [| |done].
    + intros s' k. unfold service_claims. rewrite Hb3, Hc3. apply Hown2.
    + intros s' Hs'. apply (wf_ten_frame s' r); [done| |apply Hten].
      intros k o Ho. rewrite Hc3, Hc. unfold claim_effect. clear -Ho Hs'.
      destruct (claims r !! k), (req !! k); try case_decide; naive_solver.
  - intros k. by rewrite rebuild_claims, Hc3.
  - unfold r3. case_decide; simpl; by rewrite ?lookup_delete_eq, ?lookup_insert_eq.
  - intros s' Hs'. unfold r3.
    case_decide; simpl; rewrite ?lookup_delete_ne, ?lookup_insert_ne by done; congruence.
Qed.

(** *** Single-key updates keep the two ownership indexes in step *)

Lemma wf_own_delete r key o ts pd :
  wf_own r → claims r !! key = Some o →
  wf_own (mkInner (delete key (claims r)) (entry_remove (service_id o) key (by_service r)) ts pd).
Proof.
  intros Hown Ho s k. rewrite service_claims_remove. simpl.
  fold (service_claims (service_id o) r) (service_claims s r).
  destruct (decide (k = key)) as [->|Hk].
  - rewrite lookup_delete_eq. case_decide as Hs; [set_solver|].
    rewrite (Hown s key), Ho. naive_solver.
  - rewrite lookup_delete_ne by done. rewrite <-(Hown s k). case_decide; set_solver.
Qed.

Lemma wf_own_insert r key o ts pd :
  wf_own r → grantable (service_id o) (claims r) key →
  wf_own (mkInner (<[key := o]> (claims r)) (entry_insert (service_id o) key (by_service r)) ts pd).
Proof.
  intros Hown Hg s k. rewrite service_claims_insert. simpl.
  fold (service_claims (service_id o) r) (service_claims s r).
  destruct (decide (k = key)) as [->|Hk].
  - rewrite lookup_insert_eq. case_decide as Hs; [set_solver|].
    rewrite (Hown s key). unfold grantable in Hg. naive_solver.
  - rewrite lookup_insert_ne by done. rewrite <-(Hown s k). case_decide; set_solver.
Qed.

(** Taking a key over from its owner. *)
Lemma wf_own_steal r key old o ts pd :
  wf_own r → claims r !! key = Some old →
  wf_own (mkInner (<[key := o]> (claims r))
            (entry_insert (service_id o) key
               (entry_remove (service_id old) key (by_service r))) ts pd).
Proof.
  intros Hown Hold.
  pose proof (wf_own_delete r key old ts pd Hown Hold) as Hdel.
  apply (wf_own_insert _ key o ts pd) in Hdel; simpl in *.
  - by rewrite insert_delete_eq in Hdel.
  - intros o'. simpl. by rewrite lookup_delete_eq.
Qed.

(** *** [release] *)

Lemma release_claims_loop l c rel c' rel' :
  foldl release_step (c, rel) l = (c', rel') →
  (∀ k, c' !! k = if decide (k ∈ l) then None else c !! k) ∧
  (∀ k, rel' !! k = if decide (k ∈ l) then (tenant_id <$> c !! k) ∪ rel !! k else rel !! k).
Proof.
  revert c' rel'. induction l as [|key l IH] using rev_ind; intros c' rel'.
  - by intros [= <- <-].
  - rewrite foldl_snoc. destruct (foldl release_step (c, rel) l) as [c1 rel1] eqn:E.
    destruct (IH c1 rel1 eq_refl) as [Hc Hrel]. clear IH E.
    assert (∀ k, k ∈ l ++ [key] ↔ k ∈ l ∨ k = key) as Hin by set_solver.
    simpl. destruct (c1 !! key) as [o|] eqn:Ho; intros [= <- <-]; rewrite Hc in Ho.
    + destruct (decide (key ∈ l)) as [|Hd]; [done|]. split; intros k.
      * rewrite lookup_delete, Hc. specialize (Hin k). repeat case_decide; naive_solver.
      * destruct (decide (k = key)) as [->|Hne].
        { rewrite lookup_insert_eq, decide_True, Ho by set_solver. by destruct (rel !! key). }
        rewrite lookup_insert_ne, Hrel by done. specialize (Hin k). repeat case_decide; naive_solver.
    + split; intros k; specialize (Hin k); rewrite ?Hc, ?Hrel.
      * repeat case_decide; naive_solver.
      * repeat case_decide; try naive_solver.
        assert (k = key) as -> by naive_solver. rewrite Ho. by destruct (rel !! key).
Qed.

Lemma release_core s r rel r' :
  wf r → release s r = (rel, r') →
  wf r' ∧
  (∀ k, claims r' !! k =
     match claims r !! k with
     | Some o => if decide (service_id o = s) then None else Some o
     | None => None
     end) ∧
  (∀ k t, rel !! k = Some t ↔
     ∃ o, claims r !! k = Some o ∧ service_id o = s ∧ tenant_id o = t) ∧
  pending_desires r' = delete s (pending_desires r).
Proof.
  intros (Hown & Hten & _)%wf_split. unfold release.
  set (X := match by_service r !! s with None => _ | Some _ => _ end).
  destruct X as [r1 rel1] eqn:EX. intros [= <- <-].
  assert ((∀ k, claims r1 !! k =
             match claims r !! k with
             | Some o => if decide (service_id o = s) then None else Some o
             | None => None
             end) ∧
          (∀ k, rel1 !! k = if decide (k ∈ service_claims s r) then tenant_id <$> claims r !! k else None) ∧
          (∀ s', service_claims s' r1 = if decide (s' = s) then ∅ else service_claims s' r) ∧
          same_rest r r1) as (Hc & Hrel & Hs & Hts & Hpd).
  { unfold X in EX. clear X. unfold service_claims, get_set. pose proof (Hown s) as Hs.
    unfold service_claims, get_set in Hs.
    destruct (by_service r !! s) as [keys|] eqn:Ek; simpl in *.
    - destruct (foldl release_step (claims r, ∅) (elements keys)) as [c rel2] eqn:E.
      apply release_claims_loop in E as [Hc Hrel]. injection EX as <- <-.
      split_and!; [| | |done].
      + intros k. simpl. rewrite Hc. specialize (Hs k). pose proof (elem_of_elements keys k).
        destruct (claims r !! k); repeat case_decide; naive_solver.
      + intros k. rewrite Hrel, lookup_empty. pose proof (elem_of_elements keys k).
        repeat case_decide; try tauto. by destruct (claims r !! k).
      + intros s'. simpl. rewrite lookup_delete. repeat case_decide; naive_solver.
    - injection EX as <- <-. split_and!; [| | |done].
      + intros k. specialize (Hs k). destruct (claims r !! k); [|done].
        case_decide; [set_solver|done].
      + intros k. rewrite decide_False by set_solver. done.
      + intros s'. case_decide; [|done]. subst. by rewrite Ek. }
  clear X EX. split_and!.
  - eapply (rebuild_wf s); [| |reflexivity].
    + intros s' k. unfold service_claims at 1. simpl. fold (service_claims s' r1).
      rewrite Hs, Hc. specialize (Hown s' k).
      case_decide; subst; destruct (claims r !! k); try case_decide; set_solver.
    + intros s' Hs'. apply (wf_ten_frame s' r); [done| |apply Hten].
      intros k o Ho. simpl. rewrite Hc. destruct (claims r !! k); [case_decide|]; naive_solver.
  - exact Hc.
  - intros k t. rewrite Hrel. specialize (Hown s k).
    destruct (claims r !! k); case_decide; naive_solver.
  - simpl. by rewrite Hpd.
Qed.

(** *** [release_keys], and the release half of an announcement *)

Lemma release_keys_step_fst s r rel key :
  (release_keys_step s (r, rel) key).1 = remote_release_step s r key.
Proof. simpl. unfold remote_release_step. destruct (claims r !! key); [case_decide|]; done. Qed.

Lemma release_keys_loop_fst s l r rel :
  (foldl (release_keys_step s) (r, rel) l).1 = foldl (remote_release_step s) r l.
Proof.
  revert r rel. induction l as [|key l IH]; intros r rel; [done|].
  change ((foldl (release_keys_step s) (release_keys_step s (r, rel) key) l).1 =
          foldl (remote_release_step s) (remote_release_step s r key) l).
  rewrite <-(release_keys_step_fst s r rel key).
  destruct (release_keys_step s (r, rel) key) as [r1 rel1]. apply IH.
Qed.

(** What releasing the keys [keys] of service [s] leaves at [k]. *)
Definition release_effect (s : Uuid) (rel : list string) (c : gmap string ClaimOwner)
    (k : string) : option ClaimOwner :=
  match c !! k with
  | Some o => if decide (service_id o = s ∧ k ∈ rel) then None else Some o
  | None => None
  end.

Lemma remote_release_loop s l r r' :
  wf_own r → foldl (remote_release_step s) r l = r' →
  wf_own r' ∧ (∀ k, claims r' !! k = release_effect s l (claims r) k) ∧ same_rest r r'.
Proof.
  intros Hown. revert r'. induction l as [|key l IH] using rev_ind; intros r'.
  - intros <-. split_and!; [done| |done]. intros k. unfold release_effect. simpl.
    destruct (claims r !! k); [|done]. rewrite decide_False; [done|]. set_solver.
  - rewrite foldl_snoc. destruct (IH _ eq_refl) as (Hown1 & Hc & Hrest).
    set (r1 := foldl _ r l) in *. clearbody r1. clear IH. intros <-.
    assert (∀ k, k ∈ l ++ [key] ↔ k ∈ l ∨ k = key) as Hin by set_solver.
    assert (∀ k, release_effect s (l ++ [key]) (claims r) k =
                 if decide (k = key ∧ grantable s (claims r1) k) then None else claims r1 !! k) as Heff.
    { intros k. specialize (Hin k). specialize (Hc k). unfold release_effect in *. clear -Hin Hc.
      destruct (decide (k = key ∧ grantable s (claims r1) k)) as [Hd|Hd]; unfold grantable in Hd;
        rewrite Hc in *; destruct (claims r !! k) as [o|]; repeat case_decide; naive_solver. }
    unfold remote_release_step. destruct (claims r1 !! key) as [o|] eqn:Ho; [case_decide as Hs|].
    + split_and!; [| |exact Hrest].
      * rewrite <-Hs. exact (wf_own_delete r1 key o _ _ Hown1 Ho).
      * intros k. rewrite Heff. simpl. rewrite lookup_delete. clear -Ho Hs.
        destruct (decide (k = key ∧ grantable s (claims r1) k)) as [Hd|Hd];
          unfold grantable in Hd; case_decide; naive_solver.
    + split_and!; [done| |exact Hrest]. intros k. rewrite Heff.
      case_decide as Hd; [|done]. destruct Hd as [-> Hg]. by apply Hg in Ho.
    + split_and!; [done| |exact Hrest]. intros k. rewrite Heff.
      case_decide as Hd; [|done]. by destruct Hd as [-> Hg].
Qed.

Lemma release_keys_released s l r rel k :
  wf_own r →
  (foldl (release_keys_step s) (r, rel) l).2 !! k =
  match claims r !! k with
  | Some o => if decide (service_id o = s ∧ k ∈ l) then Some (tenant_id o) else rel !! k
  | None => rel !! k
  end.
Proof.
  intros Hown. induction l as [|key l IH] using rev_ind; simpl.
  - destruct (claims r !! k); [|done]. by rewrite decide_False by set_solver.
  - rewrite foldl_snoc.
    pose proof (release_keys_loop_fst s l r rel) as Hfst.
    destruct (foldl (release_keys_step s) (r, rel) l) as [r1 rel1]. simpl in Hfst, IH |- *.
    destruct (remote_release_loop s l r r1 Hown (eq_sym Hfst)) as (_ & Hc & _).
    specialize (Hc key). unfold release_effect in Hc. clear Hown Hfst.
    assert (k ∈ l ++ [key] ↔ k ∈ l ∨ k = key) as Hin by set_solver.
    destruct (decide (k = key)) as [->|Hne].
    + destruct (claims r1 !! key) as [o1|]; [destruct (decide (service_id o1 = s))|]; simpl;
        rewrite ?lookup_insert_eq, ?IH; destruct (claims r !! key) as [o|];
        repeat case_decide; naive_solver.
    + transitivity (rel1 !! k).
      { destruct (claims r1 !! key) as [o1|]; [destruct (decide (service_id o1 = s))|]; simpl;
          by rewrite ?lookup_insert_ne. }
      rewrite IH. destruct (claims r !! k); [|done]. repeat case_decide; naive_solver.
Qed.

Lemma release_keys_core s keys r rel r' :
  wf r → release_keys s keys r = (rel, r') →
  wf r' ∧
  (∀ k, claims r' !! k = release_effect s (elements keys) (claims r) k) ∧
  (∀ k t, rel !! k = Some t ↔
     ∃ o, claims r !! k = Some o ∧ service_id o = s ∧ tenant_id o = t ∧ k ∈ keys) ∧
  pending_desires r' = pending_desires r.
Proof.
  intros Hwf. pose proof Hwf as (Hown & Hten & Hne)%wf_split. unfold release_keys.
  pose proof (release_keys_loop_fst s (elements keys) r ∅) as Hfst.
  pose proof (λ k, release_keys_released s (elements keys) r ∅ k Hown) as Hr.
  destruct (foldl (release_keys_step s) (r, ∅) (elements keys)) as [r1 rel1]. simpl in *.
  destruct (remote_release_loop s (elements keys) r r1 Hown (eq_sym Hfst)) as (Hown1 & Hc & Hts & Hpd).
  assert (∀ k t, rel1 !! k = Some t ↔
     ∃ o, claims r !! k = Some o ∧ service_id o = s ∧ tenant_id o = t ∧ k ∈ keys) as Hrel.
  { intros k t. rewrite Hr, lookup_empty. clear. pose proof (elem_of_elements keys k).
    destruct (claims r !! k); [case_decide|]; naive_solver. }
  assert (∀ s', s' ≠ s → wf_ten s' r1) as Hten1.
  { intros s' Hs'. apply (wf_ten_frame s' r); [done| |apply Hten].
    intros k o Ho. rewrite Hc. unfold release_effect.
    destruct (claims r !! k); [case_decide|]; naive_solver. }
  case_decide as Hd; intros [= <- <-].
  - split_and!; try done.
    assert (claims r1 = claims r) as Hcl.
    { apply map_eq. intros k. rewrite Hc. unfold release_effect.
      destruct (claims r !! k) as [o|] eqn:Ho; [|done]. case_decide as Hx; [|done].
      specialize (Hr k). rewrite Ho, decide_True in Hr by done. subst. by rewrite lookup_empty in Hr. }
    apply wf_split. split_and!; [done| |].
    + intros s'. apply (wf_ten_frame s' r); [done| |apply Hten]. intros k o _. by rewrite Hcl.
    + intros t S. rewrite Hts. apply Hne.
  - split_and!; try done. by eapply (rebuild_wf s).
Qed.

(** *** [apply_remote_announcement] *)

(** What the claim half of an announcement by [s] leaves at one key. *)
Definition remote_claim_effect (s cid : Uuid) (at_ : Instant) (claimed : option Uuid)
    (cur : option ClaimOwner) : option ClaimOwner :=
  match claimed with
  | None => cur
  | Some t =>
      match cur with
      | None => Some (mkClaimOwner s cid t at_)
      | Some o => if decide (service_id o = s ∨ remote_wins at_ s o = true)
                  then Some (mkClaimOwner s cid t at_) else Some o
      end
  end.

(** The owner a claim takes key [k] from, if any. *)
Definition revoked_at (s : Uuid) (at_ : Instant) (claimed : option Uuid)
    (cur : option ClaimOwner) : option Uuid :=
  match claimed, cur with
  | Some _, Some o =>
      if decide (service_id o ≠ s ∧ remote_wins at_ s o = true) then Some (service_id o) else None
  | _, _ => None
  end.

Lemma remote_claim_loop s cid at_ l r :
  wf_own r → NoDup l.*1 →
  ∃ r' revs, foldl (remote_claim_step s cid at_) (r, ∅) l = (r', revs) ∧
    wf_own r' ∧
    (∀ k, claims r' !! k =
       remote_claim_effect s cid at_ ((list_to_map l : gmap string Uuid) !! k) (claims r !! k)) ∧
    (∀ s' k, k ∈ get_set s' revs ↔
       revoked_at s at_ ((list_to_map l : gmap string Uuid) !! k) (claims r !! k) = Some s') ∧
    (∀ s' S, revs !! s' = Some S → S ≠ ∅) ∧
    same_rest r r'.
Proof.
  intros Hown. induction l as [|[key t] l IH] using rev_ind; intros Hnd.
  - exists r, ∅. split_and!; try done.
  - rewrite fmap_app in Hnd. apply list.NoDup_app in Hnd as (Hnd & Hkey & _). simpl in Hkey.
    assert (key ∉ l.*1) as Hkl by set_solver. clear Hkey.
    destruct (IH Hnd) as (r1 & revs & Hf & Hown1 & Hc & Hrev & Hne & Hrest). clear IH.
    assert ((list_to_map l : gmap string Uuid) !! key = None) as Hnone.
    { by apply not_elem_of_list_to_map_1. }
    assert (∀ k, (list_to_map (l ++ [(key, t)]) : gmap string Uuid) !! k =
                 if decide (k = key) then Some t else (list_to_map l : gmap string Uuid) !! k) as Hlk.
    { intros k. rewrite list_to_map_snoc by done. rewrite lookup_insert.
      repeat case_decide; congruence. }
    rewrite foldl_snoc, Hf. pose proof (Hc key) as Hck. rewrite Hnone in Hck. simpl in Hck.
    unfold remote_claim_step. rewrite Hck.
    destruct (claims r !! key) as [o|] eqn:Ho; [destruct (decide (service_id o = s)) as [Hs|Hs];
      [|destruct (remote_wins at_ s o) eqn:Hw]|]; do 2 eexists; (split; [reflexivity|]); split_and!; try done.
    + apply (wf_own_insert r1 key (mkClaimOwner s cid t at_)); [done|]. intros o'. simpl. naive_solver.
    + intros k. rewrite Hlk. simpl. rewrite lookup_insert, Hc.
      repeat case_decide; subst; rewrite ?Ho; simpl; try done; try rewrite decide_True; auto.
    + intros s' k. rewrite Hlk, Hrev. case_decide; [|done]. subst.
      rewrite Hnone, Ho. simpl. rewrite decide_False; naive_solver.
    + apply (wf_own_steal r1 key o (mkClaimOwner s cid t at_)); congruence || done.
    + intros k. rewrite Hlk. simpl. rewrite lookup_insert, Hc.
      repeat case_decide; subst; rewrite ?Ho; simpl; try done; try rewrite decide_True; auto.
    + intros s' k. rewrite Hlk, get_entry_insert. specialize (Hrev s' k).
      destruct (decide (k = key)) as [->|Hk].
      * rewrite Hnone, Ho in Hrev. rewrite Ho. simpl in *.
        rewrite (decide_True (P := service_id o ≠ s ∧ _)) by done.
        destruct (decide (s' = service_id o)) as [->|Hne']; set_solver.
      * rewrite <-Hrev. case_decide; set_solver.
    + intros s' S. unfold entry_insert. rewrite lookup_insert_Some. set_solver.
    + intros k. rewrite Hlk. simpl. rewrite Hc.
      repeat case_decide; subst; rewrite ?Ho, ?Hnone; simpl; try done.
      rewrite decide_False; [done|]. naive_solver congruence.
    + intros s' k. rewrite Hlk, Hrev. case_decide; [|done]. subst.
      rewrite Hnone, Ho. simpl. rewrite decide_False; [done|]. rewrite Hw. naive_solver.
    + apply (wf_own_insert r1 key (mkClaimOwner s cid t at_)); [done|]. intros o'. simpl. naive_solver.
    + intros k. rewrite Hlk. simpl. rewrite lookup_insert, Hc.
      repeat case_decide; subst; rewrite ?Ho; simpl; done.
    + intros s' k. rewrite Hlk, Hrev. case_decide; [|done]. subst. by rewrite Hnone, Ho.
Qed.

(** Rebuilding the index for several services in turn. *)
Lemma rebuild_list l r :
  wf_own r →
  let r' := foldl (λ r svc, rebuild_tenant_index_for_service svc r) r l in
  claims r' = claims r ∧ by_service r' = by_service r ∧ pending_desires r' = pending_desires r ∧
  (∀ s, s ∈ l ∨ wf_ten s r → wf_ten s r') ∧ (wf_ne r → wf_ne r').
Proof.
  revert r. induction l as [|s l IH]; intros r Hown; simpl.
  - split_and!; try done. set_solver.
  - destruct (IH (rebuild_tenant_index_for_service s r)) as (Hc & Hb & Hp & Ht & Hn); [exact Hown|].
    split_and!; try done.
    + intros s' Hs'. apply Ht. destruct (decide (s' = s)) as [->|Hne].
      * right. by apply rebuild_ten_self.
      * destruct Hs' as [Hin|Hten]; [left; set_solver|right; by apply rebuild_ten_other].
    + intros _. apply Hn, rebuild_ne.
Qed.

Lemma apply_remote_core s cid claimed rel at_ r revs r' :
  wf r → apply_remote_announcement s cid claimed rel at_ r = (revs, r') →
  wf r' ∧
  (∀ k, claims r' !! k =
     remote_claim_effect s cid at_ (claimed !! k) (release_effect s (elements rel) (claims r) k)) ∧
  (∀ s' k, (∃ v, v ∈ revs ∧ rev_service_id v = s' ∧ k ∈ revoked_keys v) ↔
     revoked_at s at_ (claimed !! k) (release_effect s (elements rel) (claims r) k) = Some s') ∧
  pending_desires r' = pending_desires r.
Proof.
  intros (Hown & Hten & Hne)%wf_split. unfold apply_remote_announcement.
  destruct (remote_release_loop s (elements rel) r _ Hown eq_refl) as (Hown1 & Hc1 & Hts1 & Hpd1).
  set (r1 := foldl (remote_release_step s) r (elements rel)) in *. clearbody r1.
  destruct (remote_claim_loop s cid at_ (map_to_list claimed) r1 Hown1)
    as (r2 & rv & -> & Hown2 & Hc2 & Hrev & Hrne & Hts2 & Hpd2).
  { apply NoDup_fst_map_to_list. }
  rewrite list_to_map_to_list in Hc2, Hrev.
  intros [= <- <-].
  destruct (rebuild_list (map_to_list rv).*1 (rebuild_tenant_index_for_service s r2)) as
    (Hc & Hb & Hp & Ht & Hn); [exact Hown2|].
  set (r' := foldl _ _ _) in *. clearbody r'. split_and!.
  - apply wf_split. split_and!.
    + intros s' k. unfold service_claims. rewrite Hb, Hc. apply Hown2.
    + intros s'. apply Ht. destruct (decide (s' = s)) as [->|Hs'].
      { right. by apply rebuild_ten_self. }
      destruct (rv !! s') as [S|] eqn:Hrv.
      { left. apply list_elem_of_fmap. exists (s', S). split; [done|]. by apply elem_of_map_to_list. }
      right. apply rebuild_ten_other; [done|]. apply (wf_ten_frame s' r); [congruence| |apply Hten].
      intros k o Ho. specialize (Hrev s' k). unfold get_set in Hrev. rewrite Hrv in Hrev.
      rewrite Hc2, Hc1 in *. clear -Hrev Ho Hs'. unfold remote_claim_effect, revoked_at, release_effect in *.
      destruct (claimed !! k), (claims r !! k) as [o'|]; repeat case_decide; set_solver.
    + apply Hn, rebuild_ne.
  - intros k. by rewrite Hc, rebuild_claims, Hc2, Hc1.
  - intros s' k. rewrite <-Hc1, <-Hrev. split.
    + intros (v & Hv & <- & Hk). apply list_elem_of_fmap in Hv as ([s1 S] & -> & Hin).
      apply elem_of_map_to_list in Hin. unfold get_set. simpl in *. by rewrite Hin.
    + unfold get_set. destruct (rv !! s') as [S|] eqn:Hrv; [|set_solver]. intros Hk.
      exists (mkRevocation s' S). split_and!; try done.
      apply list_elem_of_fmap. exists (s', S). split; [done|]. by apply elem_of_map_to_list.
  - rewrite Hp. simpl. congruence.
Qed.

(** *** [apply_sync_response] *)

Lemma sync_step_wf cid r e : wf r → wf (sync_step cid r e).
Proof.
  destruct e as [key [[s t] at_]]. intros Hwf. pose proof Hwf as (Hown & Hten & Hne)%wf_split.
  simpl. destruct (claims r !! key) as [o|] eqn:Ho; [done|]. apply wf_split. split_and!.
  - apply (wf_own_insert r key (mkClaimOwner s cid t at_)); [done|]. by intros o' Ho'%(eq_stepl Ho).
  - intros s' t'. unfold services_for_tenant. simpl. rewrite get_entry_insert.
    fold (services_for_tenant t r) (services_for_tenant t' r). specialize (Hten s' t').
    setoid_rewrite lookup_insert_Some.
    transitivity ((s' = s ∧ t' = t) ∨ s' ∈ services_for_tenant t' r).
    { case_decide; set_solver. }
    rewrite Hten. clear Hten. split.
    + intros [[-> ->]|(k & o & Hk & Hs & Ht)]; [naive_solver|].
      exists k, o. split_and!; [|done..]. right. split; [congruence|done].
    + intros (k & o & [[<- <-]|[_ Hk]] & Hs & Ht); [left; naive_solver|right; eauto].
  - intros t' S. simpl. unfold entry_insert. rewrite lookup_insert_Some.
    intros [[_ <-]|[_ HS]]; [set_solver|]. by apply (Hne t').
Qed.

Lemma sync_loop_claims cid l r k :
  NoDup l.*1 →
  claims (foldl (sync_step cid) r l) !! k =
  match claims r !! k with
  | Some o => Some o
  | None => (λ '(s, t, at_), mkClaimOwner s cid t at_) <$>
              (list_to_map l : gmap string (Uuid * Uuid * Instant)) !! k
  end.
Proof.
  revert r. induction l as [|[key [[s t] at_]] l IH]; intros r Hnd.
  - simpl. rewrite lookup_empty. by destruct (claims r !! k).
  - apply list.NoDup_cons in Hnd as [Hkey Hnd]. simpl foldl. rewrite IH by done. clear IH.
    assert ((list_to_map l : gmap string (Uuid * Uuid * Instant)) !! key = None) as Hn.
    { by apply not_elem_of_list_to_map_1. }
    simpl. destruct (claims r !! key) as [o|] eqn:Ho; simpl; rewrite !lookup_insert;
      case_decide; subst; rewrite ?Ho; done.
Qed.

Lemma apply_sync_core cid cl r :
  wf r →
  wf (apply_sync_response cid cl r) ∧
  (∀ k, claims (apply_sync_response cid cl r) !! k =
     match claims r !! k with
     | Some o => Some o
     | None => (λ '(s, t, at_), mkClaimOwner s cid t at_) <$> cl !! k
     end).
Proof.
  intros Hwf. unfold apply_sync_response. split.
  - apply foldl_inv; [done|]. intros. by apply sync_step_wf.
  - intros k. rewrite sync_loop_claims by apply NoDup_fst_map_to_list.
    by rewrite list_to_map_to_list.
Qed.

Lemma new_wf : wf new.
Proof.
  split; simpl.
  - intros k o. by rewrite lookup_empty.
  - intros s k Hk. unfold service_claims, get_set in Hk. simpl in Hk. by rewrite lookup_empty in Hk.
  - intros t s. unfold services_for_tenant, get_set. simpl. rewrite lookup_empty. simpl.
    setoid_rewrite lookup_empty. split; [set_solver|]. by intros (? & ? & ? & _).
  - intros t S. by rewrite lookup_empty.
Qed.

(** ** The registry as a transition system *)

Inductive step : ClaimRegistryInner → ClaimRegistryInner → Prop :=
| step_try_claim now s cid req res r r' :
    try_claim now s cid req r = Some (res, r') → step r r'
| step_release s rel r r' : release s r = (rel, r') → step r r'
| step_release_keys s keys rel r r' : release_keys s keys r = (rel, r') → step r r'
| step_remote s cid claimed rel at_ revs r r' :
    apply_remote_announcement s cid claimed rel at_ r = (revs, r') → step r r'
| step_sync cid cl r : step r (apply_sync_response cid cl r).

Definition reachable (r : ClaimRegistryInner) : Prop := rtc step new r.

Lemma step_wf r r' : wf r → step r r' → wf r'.
Proof.
  intros Hwf Hstep. destruct Hstep as [now s cid req res r r' H|s rel r r' H|s keys rel r r' H
                                      |s cid claimed rel at_ revs r r' H|cid cl r].
  - destruct (try_claim_core now s cid req r Hwf) as (res1 & r1 & H1 & Hwf1 & _).
    rewrite H in H1. by injection H1 as <- <-.
  - by destruct (release_core _ _ _ _ Hwf H).
  - by destruct (release_keys_core _ _ _ _ _ Hwf H).
  - by destruct (apply_remote_core _ _ _ _ _ _ _ _ Hwf H).
  - by apply apply_sync_core.
Qed.

Lemma reachable_wf r : reachable r → wf r.
Proof.
  unfold reachable. intros Hr. pose proof new_wf as Hnew. revert Hnew.
  induction Hr as [|r1 r2 r3 H12 _ IH]; [done|]. intros Hwf. by apply IH, (step_wf r1).
Qed.

#[export] Hint Resolve new_wf reachable_wf step_wf : uptrakit.

(** ** Conflict resolution between controllers *)

Record Announcement := mkAnn {
  a_service : Uuid; a_controller : Uuid;
  a_claimed : gmap string Uuid; a_released : gset string; a_at : Instant;
}.

Definition apply_announcement (r : ClaimRegistryInner) (a : Announcement) : ClaimRegistryInner :=
  (apply_remote_announcement (a_service a) (a_controller a) (a_claimed a) (a_released a) (a_at a) r).2.

(** The claim an announcement makes on one key. *)
Definition candidate (k : string) (a : Announcement) : option ClaimOwner :=
  (λ t, mkClaimOwner (a_service a) (a_controller a) t (a_at a)) <$> a_claimed a !! k.

(** [o] has priority over [o']. *)
Definition beats (o o' : ClaimOwner) : Prop :=
  (claimed_at o < claimed_at o')%Z ∨
  (claimed_at o = claimed_at o' ∧ (service_id o < service_id o')%N).

#[export] Instance beats_dec o o' : Decision (beats o o').
Proof. unfold beats. apply _. Defined.

Lemma remote_wins_beats s cid t at_ o :
  remote_wins at_ s o = true ↔ beats (mkClaimOwner s cid t at_) o.
Proof. unfold remote_wins, beats. simpl. rewrite orb_true_iff, andb_true_iff, !bool_decide_eq_true. done. Qed.

Lemma beats_total o o' : service_id o ≠ service_id o' → beats o o' ∨ beats o' o.
Proof. unfold beats. lia. Qed.

Lemma beats_asym o o' : beats o o' → beats o' o → False.
Proof. unfold beats. lia. Qed.

Lemma beats_trans o1 o2 o3 : beats o1 o2 → beats o2 o3 → beats o1 o3.
Proof. unfold beats. lia. Qed.

Lemma apply_announcement_claims a r :
  wf r → a_released a = ∅ →
  wf (apply_announcement r a) ∧
  ∀ k, claims (apply_announcement r a) !! k =
    match candidate k a, claims r !! k with
    | None, cur => cur
    | Some o, None => Some o
    | Some o, Some c => if decide (service_id c = service_id o ∨ beats o c) then Some o else Some c
    end.
Proof.
  intros Hwf Hrel. unfold apply_announcement.
  destruct (apply_remote_announcement _ _ _ _ _ r) as [revs r'] eqn:E.
  apply apply_remote_core in E as (Hwf' & Hc & _); [|done]. split; [done|]. intros k. simpl.
  rewrite Hc, Hrel, elements_empty. unfold candidate, remote_claim_effect, release_effect.
  destruct (a_claimed a !! k) as [t|]; simpl.
  - destruct (claims r !! k) as [c|]; [|done].
    rewrite (decide_False (P := service_id c = a_service a ∧ _)) by set_solver.
    assert (service_id c = a_service a ∨ remote_wins (a_at a) (a_service a) c = true ↔
            service_id c = a_service a ∨ beats (mkClaimOwner (a_service a) (a_controller a) t (a_at a)) c)
      as Hiff by (by rewrite <-remote_wins_beats).
    repeat case_decide; tauto.
  - destruct (claims r !! k); [|done]. by rewrite decide_False by set_solver.
Qed.

End Claims.
