(* ===== verification/ClaimsTheorems.v ===== *)
(** What the workload claim registry guarantees: the properties of the
    registry modelled in [WorkloadClaims]. *)

From stdpp Require Import base list gmap sets strings numbers.
From S2P Require Import Prelude WorkloadClaims.
Import Claims.

(** ** Helper facts *)

(** A three-service registry used by the witnesses: service 1 owns ["a"] for
    tenant 10, service 2 owns ["b"] for tenant 20. *)
Definition demo : ClaimRegistryInner :=
  match try_claim 5 1 100 {[ "a" := 10 ]}%N new with
  | Some (_, r) =>
      match try_claim 6 2 100 {[ "b" := 20 ]}%N r with
      | Some (_, r') => r'
      | None => new
      end
  | None => new
  end.

Lemma demo_reachable : reachable demo.
Proof.
  unfold demo.
  destruct (try_claim 5 1 100 {[ "a" := 10 ]}%N new) as [[res r]|] eqn:E1; [|constructor].
  destruct (try_claim 6 2 100 {[ "b" := 20 ]}%N r) as [[res' r']|] eqn:E2; [|constructor].
  eapply rtc_l; [eapply step_try_claim, E1|]. eapply rtc_once, step_try_claim, E2.
Qed.

Lemma tenants_for_service_spec r s t :
  wf r →
  t ∈ tenants_for_service s r ↔
  ∃ k o, claims r !! k = Some o ∧ service_id o = s ∧ tenant_id o = t.
Proof.
  intros Hwf. pose proof Hwf as (Hown & _)%wf_split. specialize (Hown s).
  unfold tenants_for_service. unfold service_claims, get_set in Hown.
  destruct (by_service r !! s) as [keys|]; simpl in *.
  - rewrite elem_of_list_to_set, list_elem_of_omap. split.
    + intros (k & Hk & Ht). rewrite elem_of_elements, Hown in Hk.
      destruct Hk as (o & Ho & Hs). rewrite Ho in Ht. exists k, o. naive_solver.
    + intros (k & o & Ho & Hs & Ht). exists k. rewrite elem_of_elements, Hown, Ho. naive_solver.
  - split; [set_solver|]. intros (k & o & Ho & Hs & Ht). exfalso.
    apply (not_elem_of_empty (C := gset string) k). apply Hown. eauto.
Qed.

(** Invariant of the priority choice over candidates from distinct services. *)
Lemma announcements_winner k l r :
  wf r → Forall (λ a, a_released a = ∅) l →
  NoDup (a_service <$> l) →
  (∀ o a, claims r !! k = Some o → a ∈ l → service_id o ≠ a_service a) →
  wf (foldl apply_announcement r l) ∧
  match claims (foldl apply_announcement r l) !! k with
  | None => claims r !! k = None ∧ ∀ a, a ∈ l → candidate k a = None
  | Some o => (claims r !! k = Some o ∨ ∃ a, a ∈ l ∧ candidate k a = Some o) ∧
              (∀ o', claims r !! k = Some o' → o' = o ∨ beats o o') ∧
              (∀ a o', a ∈ l → candidate k a = Some o' → o' = o ∨ beats o o')
  end.
Proof.
  intros Hwf. induction l as [|a l IH] using rev_ind; intros Hrel Hnd Hfresh.
  - simpl. split; [done|]. destruct (claims r !! k); [|by split; [done|set_solver]].
    split_and!; [by left|naive_solver|set_solver].
  - apply Forall_app in Hrel as [Hrel Ha]. rewrite Forall_singleton in Ha.
    rewrite fmap_app in Hnd. apply list.NoDup_app in Hnd as (Hnd & Hdisj & _).
    destruct IH as [Hwf1 IH]; [done|done|intros; apply Hfresh; set_solver|].
    rewrite foldl_snoc. destruct (apply_announcement_claims a _ Hwf1 Ha) as [Hwf2 Hc].
    split; [done|]. rewrite Hc.
    set (cur := claims (foldl apply_announcement r l) !! k) in *. clearbody cur.
    assert (∀ b, b ∈ l ++ [a] ↔ b ∈ l ∨ b = a) as Hin by set_solver.
    assert (∀ o, cur = Some o → service_id o ≠ a_service a) as Hne.
    { intros o ->. destruct IH as [[Ho|(b & Hb & Ho)] _].
      - apply (Hfresh o a Ho). apply Hin. by right.
      - unfold candidate in Ho. apply fmap_Some in Ho as (t & _ & ->). simpl.
        intros Heq. apply (Hdisj (a_service b)); [|set_solver].
        by apply list_elem_of_fmap_2. }
    destruct (candidate k a) as [o|] eqn:Hcand.
    + assert (service_id o = a_service a) as Hoa.
      { unfold candidate in Hcand. by apply fmap_Some in Hcand as (t & _ & ->). }
      destruct cur as [c|].
      * destruct IH as (IH1 & IH2 & IH3). specialize (Hne c eq_refl).
        destruct (decide (service_id c = service_id o ∨ beats o c)) as [Hb|Hb].
        -- destruct Hb as [Hb|Hb]; [congruence|]. split_and!.
           ++ right. exists a. by rewrite Hin; auto.
           ++ intros o' Ho'. right. destruct (IH2 o' Ho') as [->|?]; [done|by eapply beats_trans].
           ++ intros b o' [Hbl| ->]%Hin Ho'; [|left; congruence].
              right. destruct (IH3 b o' Hbl Ho') as [->|?]; [done|by eapply beats_trans].
        -- assert (beats c o) as Hco.
           { destruct (beats_total c o); [congruence|done|naive_solver]. }
           split_and!; [naive_solver|done|].
           intros b o' [Hbl| ->]%Hin Ho'; [by apply (IH3 b)|]. right. congruence.
      * destruct IH as [Hn IH]. split_and!.
        -- right. exists a. by rewrite Hin; auto.
        -- intros o' Ho'. congruence.
        -- intros b o' [Hbl| ->]%Hin Ho'; [by rewrite (IH b Hbl) in Ho'|left; congruence].
    + destruct cur as [c|].
      * destruct IH as (IH1 & IH2 & IH3). split_and!; [naive_solver|done|].
        intros b o' [Hbl| ->]%Hin Ho'; [by apply (IH3 b)|congruence].
      * destruct IH as [Hn IH]. split; [done|]. intros b [Hbl| ->]%Hin; [by apply IH|done].
Qed.

Lemma claims_new k : claims new !! k = None.
Proof. done. Qed.

(** ** Properties *)

(** C6. In every state the registry can reach by any sequence of claims,
    releases, remote announcements and sync responses, a config key belongs to
    at most one service, the owner recorded for a key is exactly the service
    whose index lists it, and the tenant routing index lists a service for a
    tenant exactly when that service owns a key of that tenant. *)
Theorem ownership_exclusive r :
  reachable r →
  (∀ k s1 s2, k ∈ service_claims s1 r → k ∈ service_claims s2 r → s1 = s2) ∧
  (∀ k s, k ∈ service_claims s r ↔ ∃ o, claims r !! k = Some o ∧ service_id o = s) ∧
  (∀ t s, s ∈ services_for_tenant t r ↔ t ∈ tenants_for_service s r).
Proof.
  intros Hwf%reachable_wf. pose proof Hwf as (Hown & Hten & _)%wf_split. split_and!.
  - intros k s1 s2 (o1 & Ho1 & <-)%Hown (o2 & Ho2 & <-)%Hown. congruence.
  - intros k s. apply Hown.
  - intros t s. by rewrite tenants_for_service_spec, (Hten s t).
Qed.

Lemma ownership_exclusive_witness :
  claims demo !! "a" = Some (mkClaimOwner 1 100 10 5)%N ∧
  (∀ s, "a" ∈ service_claims s demo → 1%N = s).
Proof.
  split; [vm_compute; reflexivity|]. intros s Hs.
  destruct (ownership_exclusive demo demo_reachable) as [Hex _].
  apply (Hex "a"); [|exact Hs]. vm_compute. reflexivity.
Defined.

(** A claim request never panics and does what its documentation says:
    keys that were free are granted with the requested tenant, keys owned by
    another service are rejected and keep their owner, keys the service held
    but no longer asks for are released, keys it held and still asks for are
    untouched; granted, rejected and kept keys are exactly the requested ones,
    and the service ends up with the requested keys that were not rejected. *)
Theorem try_claim_correct now s cid req r :
  wf r →
  ∃ res r', try_claim now s cid req r = Some (res, r') ∧
    (∀ k, k ∈ granted res ↔ k ∈ dom req ∧ claims r !! k = None) ∧
    (∀ k, k ∈ rejected res ↔ k ∈ dom req ∧ ∃ o, claims r !! k = Some o ∧ service_id o ≠ s) ∧
    (∀ k t, released res !! k = Some t ↔
       k ∉ dom req ∧ ∃ o, claims r !! k = Some o ∧ service_id o = s ∧ tenant_id o = t) ∧
    service_claims s r' = dom req ∖ rejected res ∧
    (∀ s', s' ≠ s → service_claims s' r' = service_claims s' r) ∧
    (∀ k t, k ∈ granted res → req !! k = Some t → claims r' !! k = Some (mkClaimOwner s cid t now)) ∧
    (∀ k o, claims r !! k = Some o → k ∉ dom (released res) → claims r' !! k = Some o).
Proof.
  intros Hwf. destruct (try_claim_core now s cid req r Hwf)
    as (res & r' & Heq & Hwf' & Hc & Hg & Hrej & Hrel & _).
  pose proof Hwf as (Hown & _)%wf_split. pose proof Hwf' as (Hown' & _)%wf_split.
  exists res, r'. split_and!; try done.
  - apply set_eq. intros k. rewrite elem_of_difference, (Hown' s k), Hc, claim_effect_owner, Hrej, elem_of_dom.
    clear. destruct (claims r !! k) as [o|], (req !! k); split; try naive_solver.
    intros [Hd Hn]. right. split_and!; [done..|]. right. exists o. split; [done|].
    destruct (decide (service_id o = s)); naive_solver.
  - intros s' Hs'. apply set_eq. intros k. rewrite (Hown' s' k), (Hown s' k), Hc, claim_effect_owner.
    naive_solver.
  - intros k t [_ Hn]%Hg Ht. rewrite Hc. unfold claim_effect. by rewrite Hn, Ht.
  - intros k o Ho Hk. rewrite Hc. unfold claim_effect. rewrite Ho.
    destruct (req !! k) eqn:Hr; [done|]. case_decide; [|done]. exfalso. apply Hk, elem_of_dom.
    exists (tenant_id o). apply Hrel. rewrite elem_of_dom, Hr. split; [by intros []|]. eauto.
Qed.

Lemma try_claim_correct_witness :
  ∃ res r', try_claim 9 2 100 {[ "a" := 20; "c" := 20 ]}%N demo = Some (res, r') ∧
    granted res = {[ "c" ]} ∧ rejected res = {[ "a" ]} ∧ service_claims 2 r' = {[ "c" ]}.
Proof.
  destruct (try_claim_correct 9 2 100 {[ "a" := 20; "c" := 20 ]}%N demo (reachable_wf _ demo_reachable))
    as (res & r' & Heq & _). exists res, r'. split; [exact Heq|].
  vm_compute in Heq. injection Heq as <- <-. vm_compute. split_and!; reflexivity.
Defined.

(** Controllers converge: announcements of claims by distinct services,
    received by different controllers in different orders, leave every key with
    the same owner, and that owner is the claim with the earliest [claimed_at],
    ties going to the smaller service id. *)
Theorem remote_announcements_converge l1 l2 :
  l1 ≡ₚ l2 → NoDup (a_service <$> l1) → Forall (λ a, a_released a = ∅) l1 →
  claims (foldl apply_announcement new l1) = claims (foldl apply_announcement new l2) ∧
  (∀ k o, claims (foldl apply_announcement new l1) !! k = Some o →
     (∃ a, a ∈ l1 ∧ candidate k a = Some o) ∧
     ∀ a o', a ∈ l1 → candidate k a = Some o' → o' = o ∨ beats o o').
Proof.
  intros Hp Hnd Hrel.
  assert (NoDup (a_service <$> l2)) as Hnd2 by (by rewrite <-Hp).
  assert (Forall (λ a, a_released a = ∅) l2) as Hrel2 by (by rewrite <-Hp).
  assert (∀ k, claims new !! k = None) as Hnew by done.
  split.
  - apply map_eq. intros k.
    destruct (announcements_winner k l1 new new_wf Hrel Hnd) as [_ H1]; [naive_solver|].
    destruct (announcements_winner k l2 new new_wf Hrel2 Hnd2) as [_ H2]; [naive_solver|].
    assert (∀ a, a ∈ l1 ↔ a ∈ l2) as Hel by (intros a; by rewrite Hp).
    rewrite Hnew in *.
    destruct (claims (foldl apply_announcement new l1) !! k) as [o1|],
             (claims (foldl apply_announcement new l2) !! k) as [o2|]; [|naive_solver..].
    destruct H1 as ([?|(a1 & Ha1 & Ho1)] & _ & Hb1); [done|].
    destruct H2 as ([?|(a2 & Ha2 & Ho2)] & _ & Hb2); [done|].
    destruct (Hb1 a2 o2 (proj2 (Hel a2) Ha2) Ho2) as [->|Hx]; [done|].
    destruct (Hb2 a1 o1 (proj1 (Hel a1) Ha1) Ho1) as [->|Hy]; [done|]. exfalso. eapply beats_asym; eassumption.
  - intros k o Ho. destruct (announcements_winner k l1 new new_wf Hrel Hnd) as [_ H1]; [naive_solver|].
    rewrite Ho, Hnew in H1. naive_solver.
Qed.

Lemma remote_announcements_converge_witness :
  let a1 := mkAnn 1 100 {[ "a" := 10 ]}%N ∅ 7 in
  let a2 := mkAnn 2 200 {[ "a" := 20 ]}%N ∅ 5 in
  claims (foldl apply_announcement new [a1; a2]) = claims (foldl apply_announcement new [a2; a1]) ∧
  claims (foldl apply_announcement new [a1; a2]) !! "a" = Some (mkClaimOwner 2 200 20 5)%N.
Proof.
  intros a1 a2. split; [|vm_compute; reflexivity].
  apply (remote_announcements_converge [a1; a2] [a2; a1]); [constructor| |].
  - apply (bool_decide_unpack _). vm_compute. exact I.
  - repeat constructor.
Defined.

(** Start-up synchronisation is a round trip: a controller that applies
    another controller's sync response to an empty registry learns exactly the
    claims that controller granted, and its indexes are consistent. *)
Theorem sync_response_roundtrip cid r :
  wf (apply_sync_response cid (local_claims cid r) new) ∧
  claims (apply_sync_response cid (local_claims cid r) new) =
    filter (λ p : string * ClaimOwner, controller_id p.2 = cid) (claims r) ∧
  local_claims cid (apply_sync_response cid (local_claims cid r) new) = local_claims cid r.
Proof.
  destruct (apply_sync_core cid (local_claims cid r) new new_wf) as [Hwf Hc].
  assert (claims (apply_sync_response cid (local_claims cid r) new) =
    filter (λ p : string * ClaimOwner, controller_id p.2 = cid) (claims r)) as Heq.
  { apply map_eq. intros k. rewrite Hc, claims_new. unfold local_claims. rewrite lookup_fmap.
    destruct (filter _ (claims r) !! k) as [o|] eqn:Ho; [|done].
    apply map_lookup_filter_Some in Ho as [_ Hcid]. simpl in *. by destruct o; subst. }
  split_and!; [done|done|]. unfold local_claims at 1. rewrite Heq, map_filter_filter.
  unfold local_claims. f_equal. apply map_filter_ext. naive_solver.
Qed.

(** Releasing a service (on disconnect) frees exactly the keys it owned,
    reports each with its tenant, leaves every other service's claims alone,
    and drops the service's pending desires; the freed keys can be granted to
    any service that asks for them next. *)
Theorem release_frees_keys s r rel r' :
  wf r → release s r = (rel, r') →
  dom rel = service_claims s r ∧ service_claims s r' = ∅ ∧
  (∀ s', s' ≠ s → service_claims s' r' = service_claims s' r) ∧
  pending_desires r' !! s = None ∧
  (∀ now s' cid req, ∃ res r'', try_claim now s' cid req r' = Some (res, r'') ∧
     (∀ k, k ∈ dom rel → k ∈ dom req → k ∈ granted res)).
Proof.
  intros Hwf Hr. destruct (release_core s r rel r' Hwf Hr) as (Hwf' & Hc & Hrel & Hpd).
  pose proof Hwf as (Hown & _)%wf_split. pose proof Hwf' as (Hown' & _)%wf_split.
  assert (∀ k, k ∈ dom rel ↔ ∃ o, claims r !! k = Some o ∧ service_id o = s) as Hdom.
  { intros k. rewrite elem_of_dom. split.
    - intros [t (o & Ho & Hs & _)%Hrel]. eauto.
    - intros (o & Ho & Hs). exists (tenant_id o). apply Hrel. eauto. }
  split_and!.
  - apply set_eq. intros k. by rewrite Hdom, (Hown s k).
  - apply set_eq. intros k. rewrite (Hown' s k), Hc. split; [|set_solver].
    intros (o & Ho & Hs). destruct (claims r !! k); [case_decide|]; naive_solver.
  - intros s' Hs'. apply set_eq. intros k. rewrite (Hown' s' k), (Hown s' k), Hc.
    destruct (claims r !! k); [case_decide|]; naive_solver.
  - rewrite Hpd. apply lookup_delete_eq.
  - intros now s' cid req. destruct (try_claim_core now s' cid req r' Hwf')
      as (res & r'' & Heq & _ & _ & Hg & _). exists res, r''. split; [done|].
    intros k (o & Ho & Hs)%Hdom Hk. apply Hg. split; [done|]. by rewrite Hc, Ho, decide_True.
Qed.

Lemma release_frees_keys_witness :
  ∃ rel r', release 1 demo = (rel, r') ∧ dom rel = {[ "a" ]} ∧ service_claims 1 r' = ∅.
Proof.
  destruct (release 1 demo) as [rel r'] eqn:E. exists rel, r'. split; [reflexivity|].
  destruct (release_frees_keys 1 demo rel r' (reachable_wf _ demo_reachable) E) as (H1 & H2 & _).
  split; [|exact H2]. rewrite H1. vm_compute. reflexivity.
Defined.

(** A remote announcement revokes precisely: it reports key [k] as revoked
    from service [s'] exactly when [s'] owned [k], the announcing service now
    owns it, and the announcement has priority; no other service loses a key. *)
Theorem remote_revocations_exact s cid claimed at_ r revs r' :
  wf r → apply_remote_announcement s cid claimed ∅ at_ r = (revs, r') →
  ∀ s' k, (∃ v, v ∈ revs ∧ rev_service_id v = s' ∧ k ∈ revoked_keys v) ↔
    s' ≠ s ∧ k ∈ service_claims s' r ∧ k ∈ service_claims s r'.
Proof.
  intros Hwf Hr s' k. destruct (apply_remote_core _ _ _ _ _ _ _ _ Hwf Hr) as (Hwf' & Hc & Hrev & _).
  pose proof Hwf as (Hown & _)%wf_split. pose proof Hwf' as (Hown' & _)%wf_split.
  rewrite Hrev, (Hown s' k), (Hown' s k), Hc. rewrite elements_empty.
  unfold revoked_at, remote_claim_effect, release_effect.
  destruct (claims r !! k) as [o|]; [rewrite decide_False by set_solver|];
    destruct (claimed !! k) as [t|]; simpl; [|naive_solver..].
  clear. destruct (remote_wins at_ s o); repeat case_decide; naive_solver.
Qed.

Lemma remote_revocations_exact_witness :
  ∃ revs r', apply_remote_announcement 7 300 {[ "a" := 10 ]}%N ∅ 1 demo = (revs, r') ∧
    ∃ v, v ∈ revs ∧ rev_service_id v = 1%N ∧ "a" ∈ revoked_keys v.
Proof.
  destruct (apply_remote_announcement 7 300 {[ "a" := 10 ]}%N ∅ 1 demo) as [revs r'] eqn:E.
  exists revs, r'. split; [reflexivity|].
  apply (remote_revocations_exact 7 300 {[ "a" := 10 ]}%N 1 demo revs r' (reachable_wf _ demo_reachable) E).
  vm_compute in E. injection E as <- <-. split_and!; vm_compute; (reflexivity || discriminate).
Defined.
