(* ===== verification/AccessVocab.v ===== *)
(** The typed access-control vocabulary: actions [resource:verb], grant
    patterns, selectors, decisions and the built-in action catalog.

    Models [crates/shared/types/src/access/]: [verb.rs], [catalog.rs],
    [action.rs], [pattern.rs], [selector.rs], [decision.rs], [bounds.rs] and
    the segment grammar of [mod.rs]. Everything here is a pure function in the
    source and is a pure function here. *)

From Stdlib Require Import Ascii.
From stdpp Require Import base list gmap sets strings numbers sorting.
From S2P Require Import Prelude RustStr.

(** ** The segment grammar ([access/mod.rs]) *)

(** The loop of [is_valid_segment], with its [prev_hyphen] flag. *)
Fixpoint segment_loop (prev_hyphen : bool) (s : string) : bool :=
  match s with
  | EmptyString => negb prev_hyphen
  | String c s' =>
      if in_range "a" "z" c || in_range "0" "9" c then segment_loop false s'
      else if Ascii.eqb c "-" && negb prev_hyphen then segment_loop true s'
      else false
  end.

Definition is_valid_segment (s : string) : bool :=
  match s with
  | EmptyString => false
  | String first s' => if is_ascii_lowercase first then segment_loop false s' else false
  end.

Definition is_valid_segment_path (s : string) : bool :=
  negb (str_is_empty s) && forallb is_valid_segment (split_char "." s).

(** ** Bounds ([access/bounds.rs]) *)

Definition MAX_PATTERNS_PER_GRANT : nat := 16.
Definition MAX_PATTERN_LEN : nat := 64.
Definition MAX_SELECTOR_TAG_IDS : nat := 32.
Definition MAX_SELECTOR_HOST_IDS : nat := 100.
Definition MAX_SELECTOR_SOFTWARE_IDS : nat := 100.
Definition MAX_SELECTOR_ITEM_IDS : nat := 100.

(** ** Verbs ([access/verb.rs]) *)

Module Verb.

Inductive Verb :=
| Read | Create | Update | Delete | Trigger | Approve | Reject | Manage | Use.

#[global] Instance Verb_eq_dec : EqDecision Verb.
Proof. solve_decision. Defined.

Definition ALL : list Verb :=
  [Read; Create; Update; Delete; Trigger; Approve; Reject; Manage; Use].

Definition as_str (v : Verb) : string :=
  match v with
  | Read => "read"
  | Create => "create"
  | Update => "update"
  | Delete => "delete"
  | Trigger => "trigger"
  | Approve => "approve"
  | Reject => "reject"
  | Manage => "manage"
  | Use => "use"
  end.

Inductive ParseVerbError := mkParseVerbError.

Definition from_str (s : string) : Result ParseVerbError Verb :=
  if decide (s = "read") then Ok Read
  else if decide (s = "create") then Ok Create
  else if decide (s = "update") then Ok Update
  else if decide (s = "delete") then Ok Delete
  else if decide (s = "trigger") then Ok Trigger
  else if decide (s = "approve") then Ok Approve
  else if decide (s = "reject") then Ok Reject
  else if decide (s = "manage") then Ok Manage
  else if decide (s = "use") then Ok Use
  else Err mkParseVerbError.

End Verb.

(** ** Selectors: data ([access/selector.rs]) *)

Inductive Selector :=
| All
| Tags (ids : list Uuid)
| Hosts (ids : list Uuid)
| Software (ids : list Uuid)
| Items (ids : list Uuid).

Inductive SelectorSupport :=
| SupportNone
| SupportHost
| SupportHostAndSoftware.

#[global] Instance Selector_eq_dec : EqDecision Selector.
Proof. solve_decision. Defined.
#[global] Instance SelectorSupport_eq_dec : EqDecision SelectorSupport.
Proof. solve_decision. Defined.

(** ** Resources and the catalog ([access/catalog.rs]) *)

Module Resource.

Inductive Resource :=
| Services
| SystemServices
| Software
| Checks
| Updates
| Scheduler
| Hosts
| HostTags
| Settings
| SettingsAuth
| SettingsEnrollmentTokens
| SettingsCertificates
| SystemSettings
| SystemAccess
| Commands
| PluginConfigs
| Notifications
| Audit
| SystemAudit
| Users
| Access
| DiscoveryIgnores
| Mcp
| SystemConfigState
| Plugin (s : string)
| Surface (s : string).

#[global] Instance Resource_eq_dec : EqDecision Resource.
Proof. solve_decision. Defined.

Definition as_str (r : Resource) : string :=
  match r with
  | Services => "services"
  | SystemServices => "system.services"
  | Software => "software"
  | Checks => "checks"
  | Updates => "updates"
  | Scheduler => "scheduler"
  | Hosts => "hosts"
  | HostTags => "hosts.tags"
  | Settings => "settings"
  | SettingsAuth => "settings.auth"
  | SettingsEnrollmentTokens => "settings.enrollment-tokens"
  | SettingsCertificates => "settings.certificates"
  | SystemSettings => "system.settings"
  | SystemAccess => "system.access"
  | Commands => "commands"
  | PluginConfigs => "plugin-configs"
  | Notifications => "notifications"
  | Audit => "audit"
  | SystemAudit => "system.audit"
  | Users => "users"
  | Access => "access"
  | DiscoveryIgnores => "discovery.ignores"
  | Mcp => "mcp"
  | SystemConfigState => "system.config-state"
  | Plugin s => s
  | Surface s => s
  end.

Definition allowed_verbs (r : Resource) : list Verb.Verb :=
  match r with
  | Services => [Verb.Read; Verb.Approve; Verb.Reject; Verb.Delete; Verb.Update]
  | SystemServices => [Verb.Read; Verb.Approve; Verb.Reject; Verb.Delete; Verb.Update]
  | Software => [Verb.Read; Verb.Create; Verb.Update; Verb.Delete]
  | Checks => [Verb.Trigger]
  | Updates => [Verb.Trigger]
  | Scheduler => [Verb.Manage]
  | Hosts => [Verb.Read; Verb.Update; Verb.Delete]
  | HostTags => [Verb.Manage]
  | Settings => [Verb.Read]
  | SettingsAuth => [Verb.Manage]
  | SettingsEnrollmentTokens => [Verb.Manage]
  | SettingsCertificates => [Verb.Manage]
  | SystemSettings => [Verb.Manage]
  | SystemAccess => [Verb.Manage]
  | Commands => [Verb.Manage]
  | PluginConfigs => [Verb.Trigger]
  | Notifications => [Verb.Read; Verb.Manage]
  | Audit => [Verb.Read]
  | SystemAudit => [Verb.Read]
  | Users => [Verb.Manage]
  | Access => [Verb.Manage]
  | DiscoveryIgnores => [Verb.Manage]
  | Mcp => [Verb.Use]
  | SystemConfigState => [Verb.Read; Verb.Manage]
  | Plugin _ | Surface _ => Verb.ALL
  end.

Record VerbEntry := mkVerbEntry {
  ve_verb : Verb.Verb;
  action_str : string;
  ve_description : string;
  ve_selector_support : SelectorSupport;
}.

Record CatalogEntry := mkCatalogEntry {
  ce_resource : Resource;
  resource_str : string;
  verbs : list VerbEntry;
}.

#[global] Instance VerbEntry_eq_dec : EqDecision VerbEntry.
Proof. solve_decision. Defined.

Definition CATALOG : list CatalogEntry := [
  mkCatalogEntry Services "services" [
    mkVerbEntry Verb.Read "services:read"
      "View tenant services and their status" SupportNone;
    mkVerbEntry Verb.Approve "services:approve"
      "Approve pending service enrollments" SupportNone;
    mkVerbEntry Verb.Reject "services:reject"
      "Reject pending service enrollments" SupportNone;
    mkVerbEntry Verb.Delete "services:delete"
      "Deactivate/remove services" SupportNone;
    mkVerbEntry Verb.Update "services:update"
      "Update service settings (ping interval, freeze, merge)" SupportNone];
  mkCatalogEntry SystemServices "system.services" [
    mkVerbEntry Verb.Read "system.services:read"
      "View system services (MQTT bridge, external scheduler)" SupportNone;
    mkVerbEntry Verb.Approve "system.services:approve"
      "Approve pending system services" SupportNone;
    mkVerbEntry Verb.Reject "system.services:reject"
      "Reject pending system services" SupportNone;
    mkVerbEntry Verb.Delete "system.services:delete"
      "Deactivate system services" SupportNone;
    mkVerbEntry Verb.Update "system.services:update"
      "Update system service settings" SupportNone];
  mkCatalogEntry Software "software" [
    mkVerbEntry Verb.Read "software:read"
      "View software items, plugin configs, history" SupportNone;
    mkVerbEntry Verb.Create "software:create"
      "Create software items and plugin configs" SupportNone;
    mkVerbEntry Verb.Update "software:update"
      "Edit software items and plugin configs" SupportNone;
    mkVerbEntry Verb.Delete "software:delete"
      "Delete software items and plugin configs" SupportNone];
  mkCatalogEntry Checks "checks" [
    mkVerbEntry Verb.Trigger "checks:trigger"
      "Trigger version checks and autodiscovery" SupportHostAndSoftware];
  mkCatalogEntry Updates "updates" [
    mkVerbEntry Verb.Trigger "updates:trigger"
      "Trigger update execution (single and batch)" SupportHostAndSoftware];
  mkCatalogEntry Scheduler "scheduler" [
    mkVerbEntry Verb.Manage "scheduler:manage"
      "Manage scheduled tasks" SupportNone];
  mkCatalogEntry Hosts "hosts" [
    mkVerbEntry Verb.Read "hosts:read"
      "View hosts" SupportHost;
    mkVerbEntry Verb.Update "hosts:update"
      "Update host properties" SupportHost;
    mkVerbEntry Verb.Delete "hosts:delete"
      "Deactivate hosts" SupportHost];
  mkCatalogEntry HostTags "hosts.tags" [
    mkVerbEntry Verb.Manage "hosts.tags:manage"
      "Create, edit, delete, and assign host tags (tag-scoped grants make this access-control authority)" SupportNone];
  mkCatalogEntry Settings "settings" [
    mkVerbEntry Verb.Read "settings:read"
      "View all tenant settings" SupportNone];
  mkCatalogEntry SettingsAuth "settings.auth" [
    mkVerbEntry Verb.Manage "settings.auth:manage"
      "Manage registration, authentication, OIDC providers" SupportNone];
  mkCatalogEntry SettingsEnrollmentTokens "settings.enrollment-tokens" [
    mkVerbEntry Verb.Manage "settings.enrollment-tokens:manage"
      "Manage tenant enrollment tokens" SupportNone];
  mkCatalogEntry SettingsCertificates "settings.certificates" [
    mkVerbEntry Verb.Manage "settings.certificates:manage"
      "Manage agent certificate settings" SupportNone];
  mkCatalogEntry SystemSettings "system.settings" [
    mkVerbEntry Verb.Manage "system.settings:manage"
      "Manage global infrastructure settings" SupportNone];
  mkCatalogEntry SystemAccess "system.access" [
    mkVerbEntry Verb.Manage "system.access:manage"
      "Manage system-plane grants and role assignments conferring system-plane authority" SupportNone];
  mkCatalogEntry Commands "commands" [
    mkVerbEntry Verb.Manage "commands:manage"
      "Modify command-bearing plugin config fields (code execution authority)" SupportNone];
  mkCatalogEntry PluginConfigs "plugin-configs" [
    mkVerbEntry Verb.Trigger "plugin-configs:trigger"
      "Test plugin configurations against hosts (dry-run validation)" SupportNone];
  mkCatalogEntry Notifications "notifications" [
    mkVerbEntry Verb.Read "notifications:read"
      "View notification channels, rules, log" SupportNone;
    mkVerbEntry Verb.Manage "notifications:manage"
      "Create/modify notification channels and rules; SMTP settings" SupportNone];
  mkCatalogEntry Audit "audit" [
    mkVerbEntry Verb.Read "audit:read"
      "View tenant-scoped audit log entries" SupportNone];
  mkCatalogEntry SystemAudit "system.audit" [
    mkVerbEntry Verb.Read "system.audit:read"
      "View system-level audit log entries" SupportNone];
  mkCatalogEntry Users "users" [
    mkVerbEntry Verb.Manage "users:manage"
      "Manage user lifecycle (activate/deactivate, lifecycle reads)" SupportNone];
  mkCatalogEntry Access "access" [
    mkVerbEntry Verb.Manage "access:manage"
      "Manage grants, roles, and role assignments (authority administration)" SupportNone];
  mkCatalogEntry DiscoveryIgnores "discovery.ignores" [
    mkVerbEntry Verb.Manage "discovery.ignores:manage"
      "Manage autodiscovery ignore rules" SupportNone];
  mkCatalogEntry Mcp "mcp" [
    mkVerbEntry Verb.Use "mcp:use"
      "Access the MCP server endpoint" SupportNone];
  mkCatalogEntry SystemConfigState "system.config-state" [
    mkVerbEntry Verb.Read "system.config-state:read"
      "View instance config reload state" SupportNone;
    mkVerbEntry Verb.Manage "system.config-state:manage"
      "Manage instance config reload state (clear degraded)" SupportNone]].

Inductive ParseResourceError :=
| UnknownResource
| EmptyDynamicRemainder
| InvalidSegment.

Definition is_system (r : Resource) : bool := starts_with "system." (as_str r).

Definition plugin_type (r : Resource) : option string :=
  match r with
  | Plugin s => strip_prefix "plugin." s
  | _ => None
  end.

Definition surface_id (r : Resource) : option string :=
  match r with
  | Surface s => strip_prefix "surface." s
  | _ => None
  end.

Definition dynamic (prefix remainder : string) : Result ParseResourceError string :=
  if str_is_empty remainder then Err EmptyDynamicRemainder
  else if negb (is_valid_segment_path remainder) then Err InvalidSegment
  else Ok (prefix +:+ remainder).

Definition plugin (ty : string) : Result ParseResourceError Resource :=
  result_map Plugin (dynamic "plugin." ty).

Definition surface (id : string) : Result ParseResourceError Resource :=
  result_map Surface (dynamic "surface." id).

Definition from_str (s : string) : Result ParseResourceError Resource :=
  match find (λ e, bool_decide (resource_str e = s)) CATALOG with
  | Some entry => Ok (ce_resource entry)
  | None =>
      match strip_prefix "plugin." s with
      | Some rest => plugin rest
      | None =>
          match strip_prefix "surface." s with
          | Some rest => surface rest
          | None => Err UnknownResource
          end
      end
  end.

End Resource.

(** ** Actions ([access/action.rs]) *)

Module Action.

Record Action := mkAction { resource : Resource.Resource; verb : Verb.Verb }.

#[global] Instance Action_eq_dec : EqDecision Action.
Proof. solve_decision. Defined.

Inductive ParseActionError :=
| TooLong (max : nat)
| Structure_
| UnknownVerb (e : Verb.ParseVerbError)
| Resource_ (e : Resource.ParseResourceError)
| InvalidPair (resource : string) (verb : Verb.Verb).

Definition new (r : Resource.Resource) (v : Verb.Verb) : Result ParseActionError Action :=
  if bool_decide (v ∈ Resource.allowed_verbs r) then Ok (mkAction r v)
  else Err (InvalidPair (Resource.as_str r) v).

Definition verb_entry (a : Action) : option Resource.VerbEntry :=
  match find (λ e, bool_decide (Resource.ce_resource e = resource a)) Resource.CATALOG with
  | Some e => find (λ ve, bool_decide (Resource.ve_verb ve = verb a)) (Resource.verbs e)
  | None => None
  end.

Definition selector_support (a : Action) : SelectorSupport :=
  default SupportNone (Resource.ve_selector_support <$> verb_entry a).

Definition description (a : Action) : option string :=
  Resource.ve_description <$> verb_entry a.

(** [Display] *)
Definition to_string (a : Action) : string :=
  Resource.as_str (resource a) +:+ ":" +:+ Verb.as_str (verb a).

Definition from_str (s : string) : Result ParseActionError Action :=
  if MAX_PATTERN_LEN <? str_len s then Err (TooLong MAX_PATTERN_LEN)
  else
    match split_once ":" s with
    | None => Err Structure_
    | Some (resource_s, verb_s) =>
        if str_is_empty resource_s || str_is_empty verb_s || contains_char ":" verb_s
        then Err Structure_
        else
          v ← map_err UnknownVerb (Verb.from_str verb_s);
          r ← map_err Resource_ (Resource.from_str resource_s);
          new r v
    end.

End Action.

(** ** Typed constants used by the deny-audit policy ([access/mod.rs]) *)

Definition COMMANDS_MANAGE := Action.mkAction Resource.Commands Verb.Manage.
Definition ACCESS_MANAGE := Action.mkAction Resource.Access Verb.Manage.
Definition SYSTEM_ACCESS_MANAGE := Action.mkAction Resource.SystemAccess Verb.Manage.
Definition MCP_USE := Action.mkAction Resource.Mcp Verb.Use.

Definition deny_event_worthy (a : Action.Action) : bool :=
  Resource.is_system (Action.resource a)
  || bool_decide (a = COMMANDS_MANAGE)
  || bool_decide (a = ACCESS_MANAGE)
  || bool_decide (a = MCP_USE).

(** ** Grant patterns ([access/pattern.rs]) *)

Module Pattern.

Inductive ResourcePattern :=
| AnyResource
| ExactResource (s : string)
| Subtree (stem : string).

Inductive VerbPattern :=
| AnyVerb
| ExactVerb (v : Verb.Verb).

Record ActionPattern := mkPattern { resource : ResourcePattern; verb : VerbPattern }.

#[global] Instance ResourcePattern_eq_dec : EqDecision ResourcePattern.
Proof. solve_decision. Defined.
#[global] Instance VerbPattern_eq_dec : EqDecision VerbPattern.
Proof. solve_decision. Defined.
#[global] Instance ActionPattern_eq_dec : EqDecision ActionPattern.
Proof. solve_decision. Defined.

Inductive ParsePatternError :=
| TooLong (max : nat)
| Structure_
| UnknownVerb (e : Verb.ParseVerbError)
| InvalidResourcePattern.

Definition resource_matches (p : ActionPattern) (r : Resource.Resource) : bool :=
  match resource p with
  | AnyResource => negb (Resource.is_system r)
  | ExactResource s => bool_decide (Resource.as_str r = s)
  | Subtree stem =>
      match strip_prefix stem (Resource.as_str r) with
      | Some rest => (1 <? str_len rest) && starts_with "." rest
      | None => false
      end
  end.

Definition verb_matches (p : ActionPattern) (v : Verb.Verb) : bool :=
  match verb p with
  | AnyVerb => true
  | ExactVerb v' => bool_decide (v' = v)
  end.

Definition matches (p : ActionPattern) (a : Action.Action) : bool :=
  resource_matches p (Action.resource a) && verb_matches p (Action.verb a).

Definition matched_catalog_actions (p : ActionPattern) :
    list (Resource.CatalogEntry * Resource.VerbEntry) :=
  filter (λ '(e, ve), Is_true (resource_matches p (Resource.ce_resource e)
                               && verb_matches p (Resource.ve_verb ve)))
    (Resource.CATALOG ≫= λ e, (e,.) <$> Resource.verbs e).

Definition reaches_dynamic (p : ActionPattern) : bool :=
  match resource p with
  | AnyResource => true
  | ExactResource s => starts_with "plugin." s || starts_with "surface." s
  | Subtree stem =>
      bool_decide (stem = "plugin") || bool_decide (stem = "surface")
      || starts_with "plugin." stem || starts_with "surface." stem
  end.

Definition can_match_any (p : ActionPattern) : bool :=
  match matched_catalog_actions p with [] => false | _ => true end
  || reaches_dynamic p.

(** [Display] *)
Definition to_string (p : ActionPattern) : string :=
  match resource p with
  | AnyResource => "*"
  | ExactResource s => s
  | Subtree stem => stem +:+ ".*"
  end +:+ ":" +:+
  match verb p with
  | AnyVerb => "*"
  | ExactVerb v => Verb.as_str v
  end.

Definition from_str (s : string) : Result ParsePatternError ActionPattern :=
  if MAX_PATTERN_LEN <? str_len s then Err (TooLong MAX_PATTERN_LEN)
  else
    match split_once ":" s with
    | None => Err Structure_
    | Some (resource_s, verb_s) =>
        if str_is_empty resource_s || str_is_empty verb_s || contains_char ":" verb_s
        then Err Structure_
        else
          v ← (if decide (verb_s = "*") then Ok AnyVerb
               else v ← map_err UnknownVerb (Verb.from_str verb_s); Ok (ExactVerb v));
          r ← (if decide (resource_s = "*") then Ok AnyResource
               else match strip_suffix ".*" resource_s with
                    | Some stem =>
                        if negb (is_valid_segment_path stem) then Err InvalidResourcePattern
                        else Ok (Subtree stem)
                    | None =>
                        if negb (is_valid_segment_path resource_s) then Err InvalidResourcePattern
                        else Ok (ExactResource resource_s)
                    end);
          Ok (mkPattern r v)
    end.

End Pattern.

Inductive PatternSetError :=
| TooMany (max actual : nat)
| Unmatchable (index : nat) (pattern : string).

(** The loop of [validate_patterns], with its enumerate index. *)
Fixpoint validate_patterns_loop (index : nat) (ps : list Pattern.ActionPattern) :
    Result PatternSetError unit :=
  match ps with
  | [] => Ok tt
  | p :: ps' =>
      if negb (Pattern.can_match_any p) then Err (Unmatchable index (Pattern.to_string p))
      else validate_patterns_loop (S index) ps'
  end.

Definition validate_patterns (ps : list Pattern.ActionPattern) : Result PatternSetError unit :=
  if MAX_PATTERNS_PER_GRANT <? length ps
  then Err (TooMany MAX_PATTERNS_PER_GRANT (length ps))
  else validate_patterns_loop 0 ps.

(** ** Decisions: targets ([access/decision.rs]) *)

Inductive TargetRef :=
| THost (host_id : Uuid)
| THostSoftwareItem (id host_id software_item_id : Uuid).

Definition target_host_id (t : TargetRef) : Uuid :=
  match t with
  | THost h => h
  | THostSoftwareItem _ h _ => h
  end.

(** ** Selectors: operations ([access/selector.rs]) *)

Definition admits (sup : SelectorSupport) (sel : Selector) : bool :=
  match sel with
  | All => true
  | Tags _ | Hosts _ =>
      match sup with SupportHost | SupportHostAndSoftware => true | SupportNone => false end
  | Software _ | Items _ =>
      match sup with SupportHostAndSoftware => true | _ => false end
  end.

Inductive SelectorAxis := AxisTags | AxisHosts | AxisSoftware | AxisItems.

Definition axis_of (sel : Selector) : option SelectorAxis :=
  match sel with
  | All => None
  | Tags _ => Some AxisTags
  | Hosts _ => Some AxisHosts
  | Software _ => Some AxisSoftware
  | Items _ => Some AxisItems
  end.

Definition axis_as_str (a : SelectorAxis) : string :=
  match a with
  | AxisTags => "tags"
  | AxisHosts => "hosts"
  | AxisSoftware => "software"
  | AxisItems => "items"
  end.

Inductive SelectorLevelError :=
| NotAdmitted (pattern action : string) (axis : SelectorAxis)
| DynamicPattern (pattern : string).

(** The inner loop of [validate_selector_level], over one pattern's matched
    catalog actions. *)
Fixpoint validate_level_entries (pattern : string) (axis : SelectorAxis) (sel : Selector)
    (l : list (Resource.CatalogEntry * Resource.VerbEntry)) : Result SelectorLevelError unit :=
  match l with
  | [] => Ok tt
  | (_, ve) :: l' =>
      if negb (admits (Resource.ve_selector_support ve) sel)
      then Err (NotAdmitted pattern (Resource.action_str ve) axis)
      else validate_level_entries pattern axis sel l'
  end.

Fixpoint validate_level_patterns (axis : SelectorAxis) (sel : Selector)
    (ps : list Pattern.ActionPattern) : Result SelectorLevelError unit :=
  match ps with
  | [] => Ok tt
  | p :: ps' =>
      if Pattern.reaches_dynamic p then Err (DynamicPattern (Pattern.to_string p))
      else
        _ ← validate_level_entries (Pattern.to_string p) axis sel
              (Pattern.matched_catalog_actions p);
        validate_level_patterns axis sel ps'
  end.

Definition validate_selector_level (ps : list Pattern.ActionPattern) (sel : Selector) :
    Result SelectorLevelError unit :=
  match axis_of sel with
  | None => Ok tt
  | Some axis => validate_level_patterns axis sel ps
  end.

Inductive SelectorValidationError :=
| TooManyIds (kind : string) (max actual : nat)
| EmptyIds (kind : string).

(** [Vec::dedup]: drops consecutive repetitions. *)
Fixpoint dedup (l : list Uuid) : list Uuid :=
  match l with
  | [] => []
  | x :: l' =>
      match l' with
      | y :: _ => if decide (x = y) then dedup l' else x :: dedup l'
      | [] => [x]
      end
  end.

(** [ids.sort_unstable(); ids.dedup()] *)
Definition canonical_ids (ids : list Uuid) : list Uuid := dedup (merge_sort N.le ids).

Definition canonicalize (sel : Selector) : Selector :=
  match sel with
  | All => All
  | Tags ids => Tags (canonical_ids ids)
  | Hosts ids => Hosts (canonical_ids ids)
  | Software ids => Software (canonical_ids ids)
  | Items ids => Items (canonical_ids ids)
  end.

Definition validate_selector (sel : Selector) : Result SelectorValidationError unit :=
  let check len max kind :=
    if len =? 0 then Err (EmptyIds kind)
    else if max <? len then Err (TooManyIds kind max len)
    else Ok tt in
  match sel with
  | All => Ok tt
  | Tags ids => check (length ids) MAX_SELECTOR_TAG_IDS "tag"
  | Hosts ids => check (length ids) MAX_SELECTOR_HOST_IDS "host"
  | Software ids => check (length ids) MAX_SELECTOR_SOFTWARE_IDS "software item"
  | Items ids => check (length ids) MAX_SELECTOR_ITEM_IDS "host software item"
  end.

Definition covers (sel : Selector) (target : TargetRef) (host_tags : gset Uuid) : bool :=
  match sel with
  | All => true
  | Tags ids => existsb (λ id, bool_decide (id ∈ host_tags)) ids
  | Hosts ids => bool_decide (target_host_id target ∈ ids)
  | Software ids =>
      match target with
      | THost _ => false
      | THostSoftwareItem _ _ sw => bool_decide (sw ∈ ids)
      end
  | Items ids =>
      match target with
      | THost _ => false
      | THostSoftwareItem id _ _ => bool_decide (id ∈ ids)
      end
  end.

(** ** Decisions ([access/decision.rs]) *)

Inductive DenyReason := NoGrant | OutOfScope | OutsideSelector | UnknownAction.

Definition deny_reason_as_str (d : DenyReason) : string :=
  match d with
  | NoGrant => "no_grant"
  | OutOfScope => "out_of_scope"
  | OutsideSelector => "outside_selector"
  | UnknownAction => "unknown_action"
  end.

Inductive AccessDecision := Allow | Deny (reason : DenyReason).

#[global] Instance DenyReason_eq_dec : EqDecision DenyReason.
Proof. solve_decision. Defined.
#[global] Instance AccessDecision_eq_dec : EqDecision AccessDecision.
Proof. solve_decision. Defined.

Inductive Visibility :=
| Full
| Filter (tags hosts software items : gset Uuid)
| VNone.

(** The loop of [Visibility::from_selectors]: [None] is the early return of
    [Full]. *)
Fixpoint from_selectors_loop (sels : list Selector)
    (acc : bool * gset Uuid * gset Uuid * gset Uuid * gset Uuid) :
    option (bool * gset Uuid * gset Uuid * gset Uuid * gset Uuid) :=
  match sels with
  | [] => Some acc
  | sel :: sels' =>
      let '(_, tags, hosts, software, items) := acc in
      match sel with
      | All => None
      | Tags ids => from_selectors_loop sels' (true, tags ∪ list_to_set ids, hosts, software, items)
      | Hosts ids => from_selectors_loop sels' (true, tags, hosts ∪ list_to_set ids, software, items)
      | Software ids => from_selectors_loop sels' (true, tags, hosts, software ∪ list_to_set ids, items)
      | Items ids => from_selectors_loop sels' (true, tags, hosts, software, items ∪ list_to_set ids)
      end
  end.

Definition from_selectors (sels : list Selector) : Visibility :=
  match from_selectors_loop sels (false, ∅, ∅, ∅, ∅) with
  | None => Full
  | Some (any, tags, hosts, software, items) =>
      if any then Filter tags hosts software items else VNone
  end.
