(* ===== verification/AccessTheorems.v ===== *)
(** Correctness of the access-control vocabulary of [AccessVocab]: parse/print
    round trips for actions and grant patterns, isolation of the system plane,
    exactness of the write-time pattern and selector checks, and coverage
    preservation of selector canonicalization. *)

From Stdlib Require Import Ascii.
From stdpp Require Import base list gmap sets strings numbers sorting.
From S2P Require Import Prelude RustStr AccessVocab.

(** ** The segment alphabet *)

(** The characters a valid segment path is made of. *)
Definition path_char (c : ascii) : bool :=
  in_range "a" "z" c || in_range "0" "9" c || Ascii.eqb c "-" || Ascii.eqb c ".".

Lemma segment_loop_chars b s : segment_loop b s = true → all_chars path_char s = true.
Proof.
  revert b. induction s as [|c s IH]; intros b; simpl; [done|].
  unfold path_char at 1.
  destruct (in_range "a" "z" c || in_range "0" "9" c) eqn:E; simpl.
  - intros H. by eapply IH.
  - destruct (Ascii.eqb c "-"); simpl; [|done]. destruct b; simpl; [done|]. by intros H%IH.
Qed.

Lemma is_valid_segment_chars s : is_valid_segment s = true → all_chars path_char s = true.
Proof.
  destruct s as [|c s]; simpl; [done|]. unfold is_ascii_lowercase.
  destruct (in_range "a" "z" c) eqn:E; [|done]. intros H%segment_loop_chars.
  rewrite H. unfold path_char. by rewrite E.
Qed.

Lemma join_chars f sep l :
  all_chars f sep = true → forallb (all_chars f) l = true → all_chars f (join sep l) = true.
Proof.
  intros Hsep. induction l as [|s [|s' l] IH]; simpl; [done|by rewrite andb_true_r|].
  intros [Hs Hl]%andb_true_iff. rewrite !all_chars_app, Hs, Hsep. by apply IH.
Qed.

Lemma is_valid_segment_path_chars s :
  is_valid_segment_path s = true → all_chars path_char s = true.
Proof.
  unfold is_valid_segment_path. intros [_ H]%andb_true_iff.
  rewrite <-(split_char_join "." s). apply join_chars; [done|].
  apply forallb_forall. intros x Hx. apply is_valid_segment_chars.
  by eapply forallb_forall in H.
Qed.

Lemma path_no_colon s : is_valid_segment_path s = true → contains_char ":" s = false.
Proof. intros H%is_valid_segment_path_chars. by apply (all_chars_contains path_char). Qed.

Lemma path_no_star s : is_valid_segment_path s = true → contains_char "*" s = false.
Proof. intros H%is_valid_segment_path_chars. by apply (all_chars_contains path_char). Qed.

Lemma path_nonempty s : is_valid_segment_path s = true → str_is_empty s = false.
Proof. unfold is_valid_segment_path. by destruct (str_is_empty s). Qed.

(** Extending a valid path by a dot and a valid path gives a valid path. *)
Lemma path_app a b :
  is_valid_segment_path (a +:+ String "." b) = true ↔
  is_valid_segment_path a = true ∧ is_valid_segment_path b = true.
Proof.
  unfold is_valid_segment_path. rewrite split_char_app, forallb_app.
  destruct a, b; simpl; rewrite ?append_cons; simpl; split;
    rewrite ?andb_true_iff; naive_solver.
Qed.

(** ** Verbs *)

Lemma verb_from_as v : Verb.from_str (Verb.as_str v) = Ok v.
Proof. by destruct v. Qed.

Lemma verb_from_inv s v : Verb.from_str s = Ok v → s = Verb.as_str v.
Proof. unfold Verb.from_str. decide_chain ltac:(by intros [= <-]). done. Qed.

Lemma verb_str_shape v :
  str_is_empty (Verb.as_str v) = false ∧ contains_char ":" (Verb.as_str v) = false
  ∧ Verb.as_str v ≠ "*".
Proof. by destruct v. Qed.

Lemma verb_all v : v ∈ Verb.ALL.
Proof. apply list_elem_of_In. destruct v; simpl; tauto. Qed.

(** ** Well-formed values: what the crate's constructors can build *)

(** [Resource::plugin]/[Resource::surface] are the only ways to build a dynamic
    resource, so its string carries its prefix and a valid remainder. *)
Definition resource_wf (r : Resource.Resource) : Prop :=
  match r with
  | Resource.Plugin s => ∃ t, s = "plugin." +:+ t ∧ is_valid_segment_path t = true
  | Resource.Surface s => ∃ t, s = "surface." +:+ t ∧ is_valid_segment_path t = true
  | _ => True
  end.

Definition action_wf (a : Action.Action) : Prop :=
  resource_wf (Action.resource a) ∧
  Action.verb a ∈ Resource.allowed_verbs (Action.resource a).

Definition is_dynamic (r : Resource.Resource) : bool :=
  match r with Resource.Plugin _ | Resource.Surface _ => true | _ => false end.

Definition pattern_wf (p : Pattern.ActionPattern) : Prop :=
  match Pattern.resource p with
  | Pattern.AnyResource => True
  | Pattern.ExactResource s | Pattern.Subtree s => is_valid_segment_path s = true
  end.

(** ** The catalog is coherent with the resource matrix *)

Definition catalog_entry_ok (e : Resource.CatalogEntry) : bool :=
  negb (is_dynamic (Resource.ce_resource e))
  && bool_decide (Resource.resource_str e = Resource.as_str (Resource.ce_resource e))
  && is_valid_segment_path (Resource.resource_str e)
  && bool_decide ((Resource.ve_verb <$> Resource.verbs e)
                    = Resource.allowed_verbs (Resource.ce_resource e))
  && forallb (λ ve, bool_decide (Resource.action_str ve =
       Action.to_string (Action.mkAction (Resource.ce_resource e) (Resource.ve_verb ve))))
       (Resource.verbs e)
  && forallb (λ ve, bool_decide (Action.verb_entry
       (Action.mkAction (Resource.ce_resource e) (Resource.ve_verb ve)) = Some ve))
       (Resource.verbs e).

Lemma catalog_ok : forallb catalog_entry_ok Resource.CATALOG = true.
Proof. vm_compute. reflexivity. Qed.

Lemma catalog_entry e :
  e ∈ Resource.CATALOG →
  is_dynamic (Resource.ce_resource e) = false
  ∧ Resource.resource_str e = Resource.as_str (Resource.ce_resource e)
  ∧ is_valid_segment_path (Resource.resource_str e) = true
  ∧ (Resource.ve_verb <$> Resource.verbs e) = Resource.allowed_verbs (Resource.ce_resource e)
  ∧ (∀ ve, ve ∈ Resource.verbs e →
       Resource.action_str ve =
         Action.to_string (Action.mkAction (Resource.ce_resource e) (Resource.ve_verb ve))
       ∧ Action.verb_entry (Action.mkAction (Resource.ce_resource e) (Resource.ve_verb ve))
           = Some ve).
Proof.
  intros He%list_elem_of_In. pose proof catalog_ok as H.
  rewrite forallb_forall in H. specialize (H e He). unfold catalog_entry_ok in H.
  rewrite !andb_true_iff, negb_true_iff, !bool_decide_eq_true, !forallb_forall in H.
  destruct H as (((((H1 & H2) & H3) & H4) & H5) & H6). split_and!; try done.
  intros ve Hve%list_elem_of_In. specialize (H5 ve Hve). specialize (H6 ve Hve).
  by rewrite bool_decide_eq_true in H5, H6.
Qed.

(** Every built-in resource has exactly one entry, found by its value and by
    its string. *)
Lemma catalog_complete r :
  is_dynamic r = false →
  ∃ e, find (λ e, bool_decide (Resource.ce_resource e = r)) Resource.CATALOG = Some e
     ∧ find (λ e, bool_decide (Resource.resource_str e = Resource.as_str r)) Resource.CATALOG
         = Some e
     ∧ Resource.ce_resource e = r ∧ e ∈ Resource.CATALOG.
Proof.
  intros Hr.
  assert (find (λ e, bool_decide (Resource.ce_resource e = r)) Resource.CATALOG =
          find (λ e, bool_decide (Resource.resource_str e = Resource.as_str r)) Resource.CATALOG
        ∧ is_Some (find (λ e, bool_decide (Resource.ce_resource e = r)) Resource.CATALOG))
    as [Heq [e He]].
  { destruct r; try discriminate Hr; (split; [vm_compute; reflexivity|by eexists]). }
  exists e. rewrite <-Heq, He. apply find_some in He as [Hin Her].
  rewrite bool_decide_eq_true in Her. split_and!; [done..|by apply list_elem_of_In].
Qed.

(** No built-in resource string lies in a dynamic namespace. *)
Lemma catalog_not_dynamic e :
  e ∈ Resource.CATALOG →
  strip_prefix "plugin." (Resource.resource_str e) = None
  ∧ strip_prefix "surface." (Resource.resource_str e) = None.
Proof.
  assert (forallb (λ e, bool_decide (strip_prefix "plugin." (Resource.resource_str e) = None
     ∧ strip_prefix "surface." (Resource.resource_str e) = None)) Resource.CATALOG = true) as H
    by (vm_compute; reflexivity).
  intros He%list_elem_of_In. rewrite forallb_forall in H.
  by apply H, bool_decide_eq_true in He.
Qed.

Lemma find_catalog_str s e :
  find (λ e, bool_decide (Resource.resource_str e = s)) Resource.CATALOG = Some e →
  e ∈ Resource.CATALOG ∧ Resource.resource_str e = s.
Proof.
  intros [Hin Hs]%find_some. rewrite bool_decide_eq_true in Hs.
  by split; [apply list_elem_of_In|].
Qed.

Lemma dynamic_ok pre s t :
  Resource.dynamic pre s = Ok t ↔ t = pre +:+ s ∧ is_valid_segment_path s = true.
Proof.
  unfold Resource.dynamic. destruct (str_is_empty s) eqn:E.
  - split; [done|]. intros [_ H]. by rewrite (path_nonempty _ H) in E.
  - destruct (is_valid_segment_path s); simpl; naive_solver.
Qed.

(** ** Resource round trip *)

Lemma resource_from_inv s r :
  Resource.from_str s = Ok r → Resource.as_str r = s ∧ resource_wf r.
Proof.
  unfold Resource.from_str, Resource.plugin, Resource.surface.
  destruct (find _ _) as [e|] eqn:Ef.
  - intros [= <-]. apply find_catalog_str in Ef as [Hin <-].
    destruct (catalog_entry e Hin) as (Hd & -> & _).
    split; [done|]. by destruct (Resource.ce_resource e).
  - destruct (strip_prefix "plugin." s) as [t|] eqn:Ep.
    { apply strip_prefix_spec in Ep as ->.
      destruct (Resource.dynamic _ _) eqn:Ed; simpl; [|done]. intros [= <-].
      apply dynamic_ok in Ed as [-> Ht]. split; [done|]. by exists t. }
    destruct (strip_prefix "surface." s) as [t|] eqn:Es; [|done].
    apply strip_prefix_spec in Es as ->.
    destruct (Resource.dynamic _ _) eqn:Ed; simpl; [|done]. intros [= <-].
    apply dynamic_ok in Ed as [-> Ht]. split; [done|]. by exists t.
Qed.

Lemma find_dynamic_none s :
  strip_prefix "plugin." s ≠ None ∨ strip_prefix "surface." s ≠ None →
  find (λ e, bool_decide (Resource.resource_str e = s)) Resource.CATALOG = None.
Proof.
  intros H. destruct (find _ _) as [e|] eqn:Ef; [|done].
  apply find_catalog_str in Ef as [Hin <-].
  destruct (catalog_not_dynamic e Hin). naive_solver.
Qed.

Lemma resource_from_as r : resource_wf r → Resource.from_str (Resource.as_str r) = Ok r.
Proof.
  intros Hwf. unfold Resource.from_str. destruct (is_dynamic r) eqn:Ed.
  - destruct r as [| | | | | | | | | | | | | | | | | | | | | | | |s|s]; try discriminate;
      destruct Hwf as (t & -> & Ht); simpl Resource.as_str.
    + rewrite find_dynamic_none by (left; by rewrite strip_prefix_app).
      rewrite strip_prefix_app. unfold Resource.plugin.
      by rewrite (proj2 (dynamic_ok _ _ _) (conj eq_refl Ht)).
    + rewrite find_dynamic_none by (right; by rewrite strip_prefix_app).
      replace (strip_prefix "plugin." ("surface." +:+ t)) with (@None string) by done.
      rewrite strip_prefix_app. unfold Resource.surface.
      by rewrite (proj2 (dynamic_ok _ _ _) (conj eq_refl Ht)).
  - destruct (catalog_complete r Ed) as (e & _ & -> & -> & _). done.
Qed.

Lemma resource_str_path r : resource_wf r → is_valid_segment_path (Resource.as_str r) = true.
Proof.
  intros Hwf. destruct (is_dynamic r) eqn:Ed.
  - destruct r; try discriminate; destruct Hwf as (t & -> & Ht);
      [apply (path_app "plugin" t)|apply (path_app "surface" t)]; done.
  - destruct (catalog_complete r Ed) as (e & _ & _ & <- & Hin).
    by destruct (catalog_entry e Hin) as (_ & <- & Hp & _).
Qed.

Lemma action_new_ok r v a :
  Action.new r v = Ok a ↔ a = Action.mkAction r v ∧ v ∈ Resource.allowed_verbs r.
Proof. unfold Action.new. case_bool_decide; naive_solver. Qed.

(** ** Action round trip *)

Lemma action_parse_spec (s : string) (a : Action.Action) :
  Action.from_str s = Ok a ↔
  s = Action.to_string a ∧ action_wf a ∧ str_len s ≤ MAX_PATTERN_LEN.
Proof.
  unfold Action.from_str, Action.to_string. destruct (Nat.ltb_spec MAX_PATTERN_LEN (str_len s)).
  { split; [done|lia]. }
  split.
  - destruct (split_once ":" s) as [[rs vs]|] eqn:Es; [|done].
    apply split_once_spec in Es as [-> Hrs].
    destruct (_ || _ || _); [done|]. intros Hok. inv_ok.
    destruct (Verb.from_str vs) as [v|] eqn:Ev; simpl in *; inv_ok.
    destruct (Resource.from_str rs) as [r|] eqn:Er; simpl in *; inv_ok.
    apply action_new_ok in Hok as [-> Hv]. apply verb_from_inv in Ev as ->.
    apply resource_from_inv in Er as [<- Hr]. by split_and!.
  - destruct a as [r v]; simpl. intros (-> & [Hr Hv] & _). simpl in *.
    pose proof (resource_str_path r Hr) as Hp.
    destruct (verb_str_shape v) as (Hv1 & Hv2 & _).
    change (":" +:+ Verb.as_str v) with (String ":" (Verb.as_str v)).
    rewrite (split_once_app ":" _ _ (path_no_colon _ Hp)).
    rewrite (path_nonempty _ Hp), Hv1, Hv2. simpl.
    rewrite verb_from_as. simpl. rewrite (resource_from_as _ Hr). simpl.
    by apply action_new_ok.
Qed.

(** parsing and printing an action are inverse: a string parses to [a] iff
    it is the printed form of a well-formed [a] (a resource its constructors
    can build, a verb the validity matrix allows for it) and is at most
    [MAX_PATTERN_LEN] bytes long. So every accepted string is canonical and every
    matrix-invalid pair is unrepresentable. *)
Theorem action_parse_iff_print (s : string) (a : Action.Action) :
  Action.from_str s = Ok a ↔
  s = Action.to_string a ∧ action_wf a ∧ str_len s ≤ MAX_PATTERN_LEN.
Proof. apply action_parse_spec. Qed.

(** ** Pattern round trip *)

Lemma no_star_ne s : contains_char "*" s = false → s ≠ "*".
Proof. by intros H ->. Qed.

Lemma no_star_strip s : contains_char "*" s = false → strip_suffix ".*" s = None.
Proof.
  intros H. destruct (strip_suffix ".*" s) as [t|] eqn:E; [|done].
  apply strip_suffix_spec in E as ->. by rewrite contains_char_app, orb_true_r in H.
Qed.

Lemma stem_ne_star stem : stem +:+ ".*" ≠ "*".
Proof. destruct stem as [|c [|d t]]; discriminate. Qed.

Definition resource_pattern_str (r : Pattern.ResourcePattern) : string :=
  match r with
  | Pattern.AnyResource => "*"
  | Pattern.ExactResource s => s
  | Pattern.Subtree stem => stem +:+ ".*"
  end.

Definition verb_pattern_str (v : Pattern.VerbPattern) : string :=
  match v with Pattern.AnyVerb => "*" | Pattern.ExactVerb v => Verb.as_str v end.

Lemma pattern_to_string_unfold p :
  Pattern.to_string p =
  resource_pattern_str (Pattern.resource p) +:+
    String ":" (verb_pattern_str (Pattern.verb p)).
Proof. by destruct p as [[] []]. Qed.

Lemma resource_pattern_str_shape p :
  pattern_wf p →
  contains_char ":" (resource_pattern_str (Pattern.resource p)) = false
  ∧ str_is_empty (resource_pattern_str (Pattern.resource p)) = false.
Proof.
  destruct p as [[|s|s] v]; unfold pattern_wf; simpl; [done|..].
  - intros H. by rewrite path_no_colon, path_nonempty.
  - intros H. rewrite contains_char_app, (path_no_colon _ H). split; [done|].
    by destruct s.
Qed.

Lemma pattern_from_inv s p :
  Pattern.from_str s = Ok p →
  s = Pattern.to_string p ∧ pattern_wf p ∧ str_len s ≤ MAX_PATTERN_LEN.
Proof.
  unfold Pattern.from_str. destruct (Nat.ltb_spec MAX_PATTERN_LEN (str_len s)); [done|].
  rewrite pattern_to_string_unfold.
  destruct (split_once ":" s) as [[rs vs]|] eqn:Es; [|done].
  apply split_once_spec in Es as [-> Hrs].
  destruct (_ || _ || _); [done|]. intros Hok. inv_ok. simpl.
  assert (vs = verb_pattern_str a) as ->.
  { destruct (decide (vs = "*")) as [->|]; [by inv_ok|].
    destruct (Verb.from_str vs) as [v|] eqn:Ev; simpl in *; inv_ok.
    by apply verb_from_inv in Ev. }
  assert (rs = resource_pattern_str a0 ∧ pattern_wf (Pattern.mkPattern a0 a)) as [-> Hwf];
    [|done].
  clear -Ha0. unfold pattern_wf; simpl.
  destruct (decide (rs = "*")) as [->|]; [by inv_ok|].
  destruct (strip_suffix ".*" rs) as [stem|] eqn:Est.
  - apply strip_suffix_spec in Est as ->.
    destruct (is_valid_segment_path stem) eqn:E; simpl in *; inv_ok. done.
  - destruct (is_valid_segment_path rs) eqn:E; simpl in *; inv_ok. done.
Qed.

Lemma pattern_from_wf s p : Pattern.from_str s = Ok p → pattern_wf p.
Proof. by intros (_ & ? & _)%pattern_from_inv. Qed.

(** parsing and printing a grant pattern are inverse: a string parses to
    [p] iff it is the printed form of a [p] whose resource side is [*] or a
    segment path (optionally followed by [.*]), and is at most
    [MAX_PATTERN_LEN] bytes long. *)
Theorem pattern_parse_iff_print (s : string) (p : Pattern.ActionPattern) :
  Pattern.from_str s = Ok p ↔
  s = Pattern.to_string p ∧ pattern_wf p ∧ str_len s ≤ MAX_PATTERN_LEN.
Proof.
  split; [apply pattern_from_inv|].
  intros (-> & Hwf & Hlen). unfold Pattern.from_str.
  destruct (Nat.ltb_spec MAX_PATTERN_LEN (str_len (Pattern.to_string p))); [lia|].
  rewrite pattern_to_string_unfold.
  destruct (resource_pattern_str_shape p Hwf) as [Hc He].
    rewrite (split_once_app ":" _ _ Hc), He.
    assert (str_is_empty (verb_pattern_str (Pattern.verb p)) = false
            ∧ contains_char ":" (verb_pattern_str (Pattern.verb p)) = false) as [-> ->].
    { destruct (Pattern.verb p) as [|v]; [done|]. by destruct v. }
    destruct p as [r v]; simpl.
    replace (if decide (verb_pattern_str v = "*") then _ else _)
      with (@Ok Pattern.ParsePatternError _ v) by (destruct v as [|[]]; reflexivity).
    destruct r as [|s|stem]; unfold pattern_wf in Hwf; simpl in *.
    + done.
    + pose proof (path_no_star _ Hwf) as Hs.
      rewrite decide_False by (by apply no_star_ne). by rewrite (no_star_strip _ Hs), Hwf.
    + rewrite decide_False by apply stem_ne_star. by rewrite strip_suffix_app, Hwf.
Qed.

(** ** Matching *)

Lemma subtree_matches_spec stem s :
  (match strip_prefix stem s with
   | Some rest => (1 <? str_len rest) && starts_with "." rest
   | None => false
   end) = true ↔ ∃ t, t ≠ "" ∧ s = stem +:+ String "." t.
Proof.
  split.
  - destruct (strip_prefix stem s) as [rest|] eqn:E; [|done].
    apply strip_prefix_spec in E as ->. intros [Hl [t ->]%starts_with_spec]%andb_true_iff.
    exists t. split; [|done]. intros ->. by vm_compute in Hl.
  - intros (t & Ht & ->). rewrite strip_prefix_app. destruct t as [|c t]; [done|].
    apply andb_true_iff. split; [|by apply (starts_with_app "." (String c t))].
    apply Nat.ltb_lt. unfold str_len. simpl. lia.
Qed.

(** The namespace tests only look at what precedes the first [:] resp. at a
    stem followed by its dot. *)
Lemma starts_with_cut pre s t c :
  contains_char c pre = false → starts_with pre (s +:+ String c t) = starts_with pre s.
Proof.
  unfold starts_with. revert s. induction pre as [|a pre IH]; intros s; simpl; [done|].
  intros [Ha Hp]%orb_false_iff. destruct s as [|b s]; simpl.
  - by rewrite Ha.
  - rewrite ?append_cons. destruct (Ascii.eqb a b); [|done]. by apply IH.
Qed.

Lemma starts_with_dot_cut pre s t :
  contains_char "." pre = false →
  starts_with (pre +:+ ".") (s +:+ String "." t)
  = bool_decide (s = pre) || starts_with (pre +:+ ".") s.
Proof.
  unfold starts_with. revert s. induction pre as [|a pre IH]; intros s.
  - rewrite append_nil_l. intros _. destruct s as [|b s]; [done|]. rewrite append_cons.
    simpl. by destruct b as [[] [] [] [] [] [] [] []].
  - rewrite append_cons. simpl. intros [Ha Hp]%orb_false_iff.
    destruct s as [|b s].
    + rewrite append_nil_l. rewrite Ha. done.
    + rewrite append_cons. destruct (Ascii.eqb_spec a b) as [->|Hne].
      * rewrite IH by done. f_equal. apply bool_decide_ext. naive_solver.
      * rewrite bool_decide_false by naive_solver. done.
Qed.

Lemma matches_plane (p : Pattern.ActionPattern) (a : Action.Action) :
  Pattern.matches p a = true →
  Resource.is_system (Action.resource a) = starts_with "system." (Pattern.to_string p).
Proof.
  unfold Pattern.matches. intros [Hr _]%andb_true_iff.
  rewrite pattern_to_string_unfold, starts_with_cut by done.
  unfold Pattern.resource_matches in Hr. unfold Resource.is_system in *.
  destruct (Pattern.resource p) as [|s|stem]; simpl.
  - by rewrite negb_true_iff in Hr.
  - apply bool_decide_eq_true in Hr. by rewrite Hr.
  - apply subtree_matches_spec in Hr as (t & _ & Hr). rewrite Hr.
    change ".*" with (String "." "*"). by rewrite !(starts_with_dot_cut "system").
Qed.

(** isolation of the system plane. When a pattern matches an action, the
    action is on the system plane iff the pattern's text starts with
    [system.]: wildcards ([*], [plugin.*], ...) never confer system-plane
    authority, and a [system.] pattern never confers tenant authority. *)
Theorem system_plane_isolated (p : Pattern.ActionPattern) (a : Action.Action) :
  Pattern.matches p a = true →
  Resource.is_system (Action.resource a) = starts_with "system." (Pattern.to_string p).
Proof. apply matches_plane. Qed.

Lemma system_plane_isolated_witness :
  Resource.is_system Resource.SystemAudit
  = starts_with "system." (Pattern.to_string
      (Pattern.mkPattern (Pattern.Subtree "system") (Pattern.ExactVerb Verb.Read))).
Proof.
  apply (system_plane_isolated
    (Pattern.mkPattern (Pattern.Subtree "system") (Pattern.ExactVerb Verb.Read))
    (Action.mkAction Resource.SystemAudit Verb.Read)).
  vm_compute. reflexivity.
Defined.

(** ** Catalog membership and dynamic reachability *)

Lemma matched_catalog_spec p e ve :
  (e, ve) ∈ Pattern.matched_catalog_actions p ↔
  e ∈ Resource.CATALOG ∧ ve ∈ Resource.verbs e ∧
  Pattern.matches p (Action.mkAction (Resource.ce_resource e) (Resource.ve_verb ve)) = true.
Proof.
  unfold Pattern.matched_catalog_actions, Pattern.matches.
  cbn [Action.resource Action.verb].
  rewrite list_elem_of_filter, Is_true_true, list_elem_of_bind.
  setoid_rewrite list_elem_of_fmap. naive_solver.
Qed.

(** Every built-in action is its catalog entry, with its selector support. *)
Lemma builtin_action_entry a :
  action_wf a → is_dynamic (Action.resource a) = false →
  ∃ e ve, e ∈ Resource.CATALOG ∧ ve ∈ Resource.verbs e
    ∧ a = Action.mkAction (Resource.ce_resource e) (Resource.ve_verb ve)
    ∧ Action.selector_support a = Resource.ve_selector_support ve.
Proof.
  destruct a as [r v]; simpl. intros [_ Hv] Hd; simpl in *.
  destruct (catalog_complete r Hd) as (e & _ & _ & <- & Hin).
  destruct (catalog_entry e Hin) as (_ & _ & _ & Hverbs & Hves).
  rewrite <-Hverbs in Hv. apply list_elem_of_fmap in Hv as (ve & -> & Hve).
  exists e, ve. split_and!; [done..|]. unfold Action.selector_support.
  by rewrite (proj2 (Hves ve Hve)).
Qed.

Lemma catalog_action_wf e ve :
  e ∈ Resource.CATALOG → ve ∈ Resource.verbs e →
  action_wf (Action.mkAction (Resource.ce_resource e) (Resource.ve_verb ve)).
Proof.
  intros He Hve. destruct (catalog_entry e He) as (Hd & _ & _ & Hverbs & _).
  split; simpl.
  - by destruct (Resource.ce_resource e).
  - rewrite <-Hverbs. apply list_elem_of_fmap. by exists ve.
Qed.

Lemma catalog_action_len e ve :
  e ∈ Resource.CATALOG → ve ∈ Resource.verbs e →
  str_len (Resource.action_str ve) ≤ MAX_PATTERN_LEN.
Proof.
  assert (forallb (λ e, forallb (λ ve, str_len (Resource.action_str ve) <=? MAX_PATTERN_LEN)
    (Resource.verbs e)) Resource.CATALOG = true) as H by (vm_compute; reflexivity).
  intros He%list_elem_of_In Hve%list_elem_of_In. rewrite forallb_forall in H.
  specialize (H e He). simpl in H. rewrite forallb_forall in H.
  by apply Nat.leb_le, H.
Qed.

Lemma dynamic_support_none a :
  is_dynamic (Action.resource a) = true → Action.selector_support a = SupportNone.
Proof.
  intros Hd. unfold Action.selector_support, Action.verb_entry.
  destruct (find _ _) as [e|] eqn:E; [|done].
  apply find_some in E as [Hin Hr]. apply bool_decide_eq_true in Hr.
  apply list_elem_of_In, catalog_entry in Hin as [Hn _]. congruence.
Qed.

Lemma dynamic_action_wf (r : Resource.Resource) v :
  resource_wf r → is_dynamic r = true → action_wf (Action.mkAction r v).
Proof. intros Hr Hd. split; [done|]. destruct r; try discriminate; apply verb_all. Qed.

Definition verb_sample (p : Pattern.ActionPattern) : Verb.Verb :=
  match Pattern.verb p with Pattern.AnyVerb => Verb.Read | Pattern.ExactVerb v => v end.

Lemma verb_sample_matches p : Pattern.verb_matches p (verb_sample p) = true.
Proof.
  unfold Pattern.verb_matches, verb_sample. destruct (Pattern.verb p); [done|].
  by apply bool_decide_eq_true.
Qed.

Lemma dot_prefix_path pre s :
  contains_char "." pre = false → is_valid_segment_path pre = true →
  starts_with (pre +:+ ".") s = true → is_valid_segment_path s = true →
  ∃ t, s = pre +:+ "." +:+ t ∧ is_valid_segment_path t = true.
Proof.
  intros _ _ [t ->]%starts_with_spec. rewrite append_assoc.
  change ("." +:+ t) with (String "." t). intros [_ Ht]%path_app. by exists t.
Qed.

(** A dynamic namespace, with the constructor of its resources. *)
Definition namespace (pre : string) (mk : string → Resource.Resource) : Prop :=
  (pre = "plugin" ∧ mk = Resource.Plugin) ∨ (pre = "surface" ∧ mk = Resource.Surface).

Lemma namespace_resource pre mk t :
  namespace pre mk → is_valid_segment_path t = true →
  resource_wf (mk (pre +:+ "." +:+ t)) ∧ is_dynamic (mk (pre +:+ "." +:+ t)) = true
  ∧ Resource.as_str (mk (pre +:+ "." +:+ t)) = pre +:+ "." +:+ t.
Proof. intros [[-> ->]|[-> ->]] Ht; (split_and!; [by exists t|done..]). Qed.

Lemma dynamic_resource_namespace r :
  resource_wf r → is_dynamic r = true →
  ∃ pre mk t, namespace pre mk ∧ is_valid_segment_path t = true
    ∧ Resource.as_str r = pre +:+ "." +:+ t.
Proof.
  unfold namespace.
  destruct r; try discriminate; intros (t & -> & Ht) _;
    [exists "plugin", Resource.Plugin, t|exists "surface", Resource.Surface, t]; auto.
Qed.

Lemma namespace_prefix pre mk :
  namespace pre mk →
  contains_char "." pre = false ∧ (∃ c s, pre = String c s).
Proof. intros [[-> _]|[-> _]]; eauto. Qed.

Lemma reaches_exact_spec p s :
  Pattern.resource p = Pattern.ExactResource s →
  Pattern.reaches_dynamic p = true ↔
  ∃ pre mk, namespace pre mk ∧ starts_with (pre +:+ ".") s = true.
Proof.
  unfold Pattern.reaches_dynamic, namespace. intros ->. rewrite orb_true_iff. split.
  - intros [H|H]; [exists "plugin", Resource.Plugin|exists "surface", Resource.Surface]; auto.
  - intros (pre & mk & [[-> _]|[-> _]] & H); auto.
Qed.

Lemma reaches_subtree_spec p stem :
  Pattern.resource p = Pattern.Subtree stem →
  Pattern.reaches_dynamic p = true ↔
  ∃ pre mk, namespace pre mk ∧ (stem = pre ∨ starts_with (pre +:+ ".") stem = true).
Proof.
  unfold Pattern.reaches_dynamic, namespace. intros ->.
  rewrite !orb_true_iff, !bool_decide_eq_true. split.
  - intros [[[-> | ->]|H]|H];
      [exists "plugin", Resource.Plugin|exists "surface", Resource.Surface
      |exists "plugin", Resource.Plugin|exists "surface", Resource.Surface]; auto.
  - intros (pre & mk & [[-> _]|[-> _]] & H); tauto.
Qed.

(** A well-formed pattern reaches a dynamic namespace iff it matches some
    dynamic resource. *)
Lemma reaches_dynamic_spec p :
  pattern_wf p →
  Pattern.reaches_dynamic p = true ↔
  ∃ r, resource_wf r ∧ is_dynamic r = true ∧ Pattern.resource_matches p r = true.
Proof.
  unfold pattern_wf, Pattern.resource_matches.
  destruct (Pattern.resource p) as [|s|stem] eqn:Ep.
  - intros _. unfold Pattern.reaches_dynamic. rewrite Ep. split; [intros _|done].
    exists (Resource.Plugin "plugin.a"). split_and!; [by exists "a"|done..].
  - intros Hs. rewrite (reaches_exact_spec p s Ep). split.
    + intros (pre & mk & Hns & [t ->]%starts_with_spec). rewrite append_assoc in *.
      apply (path_app pre t) in Hs as [_ Ht].
      destruct (namespace_resource pre mk t Hns Ht) as (? & ? & ?).
      eexists. split_and!; [done..|]. by apply bool_decide_eq_true.
    + intros (r & Hr & Hd & <-%bool_decide_eq_true).
      destruct (dynamic_resource_namespace r Hr Hd) as (pre & mk & t & Hns & _ & ->).
      exists pre, mk. rewrite <-append_assoc. split; [done|]. by apply starts_with_app.
  - intros Hs. rewrite (reaches_subtree_spec p stem Ep). split.
    + intros (pre & mk & Hns & Hst).
      assert (∃ t, stem +:+ ".a" = pre +:+ "." +:+ t ∧ is_valid_segment_path t = true)
        as (t & Heq & Ht).
      { destruct Hst as [-> | [t ->]%starts_with_spec]; [by exists "a"|].
        rewrite append_assoc in *. apply (path_app pre t) in Hs as [_ Ht].
        exists (t +:+ ".a"). rewrite !append_assoc. split; [done|]. by apply (path_app t "a"). }
      destruct (namespace_resource pre mk t Hns Ht) as (? & ? & Has).
      eexists. split_and!; [done..|]. rewrite Has, <-Heq.
      apply subtree_matches_spec. by exists "a".
    + intros (r & Hr & Hd & (t & _ & Hm)%subtree_matches_spec).
      destruct (dynamic_resource_namespace r Hr Hd) as (pre & mk & u & Hns & _ & Hu).
      exists pre, mk. split; [done|].
      assert (starts_with (pre +:+ ".") (stem +:+ String "." t) = true) as H
        by (rewrite <-Hm, Hu, <-append_assoc; apply starts_with_app).
      rewrite starts_with_dot_cut in H by (by eapply namespace_prefix).
      by rewrite orb_true_iff, bool_decide_eq_true in H.
Qed.

Lemma matches_dynamic_sample p :
  pattern_wf p → Pattern.reaches_dynamic p = true →
  ∃ a, action_wf a ∧ is_dynamic (Action.resource a) = true ∧ Pattern.matches p a = true.
Proof.
  intros Hp (r & Hr & Hd & Hm)%reaches_dynamic_spec; [|done].
  exists (Action.mkAction r (verb_sample p)). split_and!; [by apply dynamic_action_wf|done|].
  unfold Pattern.matches. simpl. by rewrite Hm, verb_sample_matches.
Qed.

Lemma matches_dynamic_reaches p a :
  pattern_wf p → action_wf a → is_dynamic (Action.resource a) = true →
  Pattern.matches p a = true → Pattern.reaches_dynamic p = true.
Proof.
  intros Hp [Ha _] Hd [Hm _]%andb_true_iff. apply reaches_dynamic_spec; [done|]. eauto.
Qed.

Lemma can_match_any_wf p :
  pattern_wf p →
  Pattern.can_match_any p = true ↔ ∃ a, action_wf a ∧ Pattern.matches p a = true.
Proof.
  intros Hp. unfold Pattern.can_match_any. split.
  - intros [H|H]%orb_true_iff.
    + destruct (Pattern.matched_catalog_actions p) as [|[e ve] l] eqn:E; [done|].
      assert ((e, ve) ∈ Pattern.matched_catalog_actions p) as Hin by (rewrite E; left).
      apply matched_catalog_spec in Hin as (He & Hve & Hm).
      eexists. split; [by eapply catalog_action_wf|done].
    + apply matches_dynamic_sample in H as (a & ? & _ & ?); eauto.
  - intros (a & Ha & Hm). apply orb_true_iff.
    destruct (is_dynamic (Action.resource a)) eqn:Hd.
    + right. by eapply matches_dynamic_reaches.
    + left. destruct (builtin_action_entry a Ha Hd) as (e & ve & He & Hve & -> & _).
      assert ((e, ve) ∈ Pattern.matched_catalog_actions p) as Hin
        by (by apply matched_catalog_spec).
      by destruct (Pattern.matched_catalog_actions p); [apply elem_of_nil in Hin|].
Qed.

(** the write-time rule "rejected iff provably unmatchable" is exact: for
    a parsed pattern, [can_match_any] holds iff some representable action, in
    the catalog or in a dynamic namespace, is matched by it. *)
Theorem can_match_any_exact (s : string) (p : Pattern.ActionPattern) :
  Pattern.from_str s = Ok p →
  Pattern.can_match_any p = true ↔ ∃ a, action_wf a ∧ Pattern.matches p a = true.
Proof. intros Hp%pattern_from_wf. by apply can_match_any_wf. Qed.

Lemma can_match_any_exact_witness :
  ∃ a, action_wf a ∧
    Pattern.matches (Pattern.mkPattern (Pattern.Subtree "settings") Pattern.AnyVerb) a = true.
Proof.
  apply (can_match_any_exact "settings.*:*"); vm_compute; reflexivity.
Defined.

(** ** Write-time selector check *)

Lemma validate_level_entries_ok pat axis sel l :
  validate_level_entries pat axis sel l = Ok tt ↔
  ∀ e ve, (e, ve) ∈ l → admits (Resource.ve_selector_support ve) sel = true.
Proof.
  induction l as [|[e ve] l IH]; simpl.
  - split; [|done]. intros _ ?? []%elem_of_nil.
  - destruct (admits _ sel) eqn:E; simpl.
    + rewrite IH. setoid_rewrite elem_of_cons. naive_solver.
    + split; [done|]. intros H. rewrite (H e ve) in E; [done|left].
Qed.

Lemma validate_level_patterns_ok axis sel ps :
  validate_level_patterns axis sel ps = Ok tt ↔
  ∀ p, p ∈ ps → Pattern.reaches_dynamic p = false ∧
    ∀ e ve, (e, ve) ∈ Pattern.matched_catalog_actions p →
            admits (Resource.ve_selector_support ve) sel = true.
Proof.
  induction ps as [|p ps IH].
  - split; [|done]. intros _ ? []%elem_of_nil.
  - cbn [validate_level_patterns]. destruct (Pattern.reaches_dynamic p) eqn:E.
    { split; [done|]. intros H. destruct (H p) as [? _]; [left|congruence]. }
    pose proof (validate_level_entries_ok (Pattern.to_string p) axis sel
                  (Pattern.matched_catalog_actions p)) as Hent.
    destruct (validate_level_entries _ _ _ _) as [[]|err].
    + change ((validate_level_patterns axis sel ps = Ok tt) ↔
        (∀ p0, p0 ∈ p :: ps → Pattern.reaches_dynamic p0 = false ∧
          ∀ e ve, (e, ve) ∈ Pattern.matched_catalog_actions p0 →
            admits (Resource.ve_selector_support ve) sel = true)).
      rewrite IH. setoid_rewrite (elem_of_cons ps). split.
      * intros H q [-> |Hq]; [|by apply H]. split; [done|]. by apply Hent.
      * intros H q Hq. apply H. by right.
    + split; [done|]. intros H. exfalso. destruct (H p) as [_ H']; [left|].
      by apply Hent in H'.
Qed.

Lemma admits_none sel : sel ≠ All → admits SupportNone sel = false.
Proof. by destruct sel. Qed.

(** [validate_selector_level] is exact for parsed patterns: it accepts a
    grant's patterns with a selector iff every action any of the patterns can
    match (built-in or dynamic) supports that selector kind. *)
Theorem validate_selector_level_exact (ps : list Pattern.ActionPattern) (sel : Selector) :
  Forall pattern_wf ps →
  validate_selector_level ps sel = Ok tt ↔
  ∀ p a, p ∈ ps → action_wf a → Pattern.matches p a = true →
         admits (Action.selector_support a) sel = true.
Proof.
  intros Hwf. rewrite list.Forall_forall in Hwf. unfold validate_selector_level.
  destruct (decide (sel = All)) as [-> | Hsel]; [done|].
  assert (∃ ax, axis_of sel = Some ax) as [ax ->] by (destruct sel; naive_solver).
  rewrite validate_level_patterns_ok. split.
  - intros H p a Hp Ha Hm. destruct (H p Hp) as [Hnd Hcat].
    destruct (is_dynamic (Action.resource a)) eqn:Hd.
    { rewrite (matches_dynamic_reaches p a) in Hnd; auto; done. }
    destruct (builtin_action_entry a Ha Hd) as (e & ve & He & Hve & -> & ->).
    apply (Hcat e ve). by apply matched_catalog_spec.
  - intros H p Hp. split.
    + destruct (Pattern.reaches_dynamic p) eqn:E; [|done].
      apply matches_dynamic_sample in E as (a & Ha & Hd & Hm); [|by apply Hwf].
      specialize (H p a Hp Ha Hm). rewrite dynamic_support_none in H by done.
      by rewrite admits_none in H.
    + intros e ve (He & Hve & Hm)%matched_catalog_spec.
      destruct (catalog_entry e He) as (_ & _ & _ & _ & Hves).
      specialize (H p _ Hp (catalog_action_wf e ve He Hve) Hm).
      unfold Action.selector_support in H. by rewrite (proj2 (Hves ve Hve)) in H.
Qed.

Lemma validate_selector_level_exact_witness :
  validate_selector_level
    [Pattern.mkPattern (Pattern.ExactResource "hosts") Pattern.AnyVerb] (Hosts [7%N]) = Ok tt
  ∧ (∀ a, action_wf a →
       Pattern.matches (Pattern.mkPattern (Pattern.ExactResource "hosts") Pattern.AnyVerb) a
         = true →
       admits (Action.selector_support a) (Hosts [7%N]) = true).
Proof.
  split; [vm_compute; reflexivity|]. intros a.
  apply (proj1 (validate_selector_level_exact
    [Pattern.mkPattern (Pattern.ExactResource "hosts") Pattern.AnyVerb] (Hosts [7%N])
    ltac:(by repeat constructor)) ltac:(vm_compute; reflexivity)
    (Pattern.mkPattern (Pattern.ExactResource "hosts") Pattern.AnyVerb) a).
  left.
Defined.

(** ** Selector canonicalization *)

Lemma dedup_cons2 a b l :
  dedup (a :: b :: l) = if decide (a = b) then dedup (b :: l) else a :: dedup (b :: l).
Proof. done. Qed.

Lemma elem_of_dedup x l : x ∈ dedup l ↔ x ∈ l.
Proof.
  induction l as [|a [|b l] IH]; [done|done|].
  rewrite dedup_cons2. destruct (decide (a = b)) as [->|Hne].
  - rewrite IH, !elem_of_cons. tauto.
  - rewrite elem_of_cons, IH. by rewrite (elem_of_cons (b :: l)).
Qed.

Lemma dedup_strict l : StronglySorted N.le l → StronglySorted N.lt (dedup l).
Proof.
  induction l as [|a [|b l] IH]; intros Hs; [constructor|by repeat constructor|].
  inversion_clear Hs as [|? ? Hl Ha]. rewrite dedup_cons2.
  destruct (decide (a = b)) as [->|Hne]; [by apply IH|].
  constructor; [by apply IH|].
  apply list.Forall_forall. intros x Hx. rewrite elem_of_dedup in Hx.
  inversion_clear Ha as [|? ? Hab Hal]. inversion_clear Hl as [|? ? _ Hbl].
  rewrite list.Forall_forall in Hbl. apply elem_of_cons in Hx as [-> |Hx%Hbl]; lia.
Qed.

Lemma canonical_ids_elem x ids : x ∈ canonical_ids ids ↔ x ∈ ids.
Proof. unfold canonical_ids. rewrite elem_of_dedup. by rewrite merge_sort_Permutation. Qed.

Lemma canonical_ids_sorted ids : StronglySorted N.lt (canonical_ids ids).
Proof. apply dedup_strict, StronglySorted_merge_sort; apply _. Qed.

Lemma StronglySorted_lt_NoDup (l : list Uuid) : StronglySorted N.lt l → NoDup l.
Proof.
  induction 1 as [|a l Hs IH Ha]; constructor; [|done].
  rewrite list.Forall_forall in Ha. intros H%Ha. lia.
Qed.

(** Strictly sorted lists are determined by their elements. *)
Lemma StronglySorted_lt_unique (l1 l2 : list Uuid) :
  StronglySorted N.lt l1 → StronglySorted N.lt l2 → (∀ x, x ∈ l1 ↔ x ∈ l2) → l1 = l2.
Proof.
  intros H1 H2 Heq. apply (StronglySorted_unique_strong N.lt).
  - intros x y _ _ ??. lia.
  - done.
  - done.
  - apply NoDup_Permutation; [by apply StronglySorted_lt_NoDup..|done].
Qed.

Definition selector_ids (sel : Selector) : list Uuid :=
  match sel with
  | All => []
  | Tags ids | Hosts ids | Software ids | Items ids => ids
  end.

Definition selector_max (sel : Selector) : option nat :=
  match sel with
  | All => None
  | Tags _ => Some MAX_SELECTOR_TAG_IDS
  | Hosts _ => Some MAX_SELECTOR_HOST_IDS
  | Software _ => Some MAX_SELECTOR_SOFTWARE_IDS
  | Items _ => Some MAX_SELECTOR_ITEM_IDS
  end.

Lemma canonical_ids_size ids :
  length (canonical_ids ids) = size (list_to_set ids : gset Uuid).
Proof.
  rewrite <-(size_list_to_set (C := gset Uuid) (canonical_ids ids)).
  - f_equal. apply set_eq. intros x. by rewrite !elem_of_list_to_set, canonical_ids_elem.
  - apply StronglySorted_lt_NoDup, canonical_ids_sorted.
Qed.

Lemma validate_selector_ok sel :
  validate_selector sel = Ok tt ↔
  ∀ max, selector_max sel = Some max → 1 ≤ length (selector_ids sel) ≤ max.
Proof.
  assert (∀ kind max len,
    (if len =? 0 then Err (EmptyIds kind)
     else if max <? len then Err (TooManyIds kind max len) else Ok tt) = Ok tt
    ↔ ∀ m, Some max = Some m → 1 ≤ len ≤ m) as Hgen.
  { intros kind max len. destruct (Nat.eqb_spec len 0) as [->|Hne].
    - split; [done|]. intros H. specialize (H max eq_refl). lia.
    - destruct (Nat.ltb_spec max len).
      + split; [done|]. intros H'. specialize (H' max eq_refl). lia.
      + split; [|done]. intros _ m [= <-]. lia. }
  destruct sel; simpl; [done|apply Hgen..].
Qed.

(** canonicalization of a selector (the write path's step 0) never changes
    which targets the selector covers, is insensitive to the order and
    repetition of ids, and makes the bounds of [validate] apply to the number of
    distinct ids. *)
Theorem canonicalize_correct (sel : Selector) :
  (∀ target host_tags,
     covers (canonicalize sel) target host_tags = covers sel target host_tags)
  ∧ canonicalize (canonicalize sel) = canonicalize sel
  ∧ StronglySorted N.lt (selector_ids (canonicalize sel))
  ∧ (validate_selector (canonicalize sel) = Ok tt ↔
     ∀ max, selector_max sel = Some max →
            1 ≤ size (list_to_set (selector_ids sel) : gset Uuid) ≤ max).
Proof.
  split_and!.
  - intros t tags. assert (∀ x ids, bool_decide (x ∈ canonical_ids ids) = bool_decide (x ∈ ids))
      as Hb by (intros; apply bool_decide_ext, canonical_ids_elem).
    destruct sel as [|ids|ids|ids|ids]; simpl; [done| |by rewrite Hb|destruct t|destruct t];
      rewrite ?Hb; try done.
    apply eq_true_iff_eq. rewrite !existsb_exists.
    setoid_rewrite <-list_elem_of_In. by setoid_rewrite canonical_ids_elem.
  - assert (∀ ids, canonical_ids (canonical_ids ids) = canonical_ids ids) as Hi.
    { intros ids. apply StronglySorted_lt_unique; [apply canonical_ids_sorted..|].
      intros x. by rewrite canonical_ids_elem. }
    destruct sel; simpl; by rewrite ?Hi.
  - destruct sel; simpl; [constructor|apply canonical_ids_sorted..].
  - rewrite validate_selector_ok. destruct sel; simpl; rewrite ?canonical_ids_size; done.
Qed.
