(* ===== verification/AccessGrants.v ===== *)
(** Storage of access grants: validation of every write, fail-closed typing of
    every read, and the lockout guard.

    Models [crates/shared/db/src/access_grants.rs]. The database is a record of
    tables ([Db]); a query is a fold over a table, and fails when the database
    reports an error for that table ([db_fail]). The JSON columns go through
    [serde]: the two codecs generated by [serde] for selectors are the class
    [SerdeSelector]. *)

From Stdlib Require Import Ascii.
From stdpp Require Import base list gmap sets strings numbers sorting.
From S2P Require Import Prelude RustStr Json AccessVocab.

(** The derived [Serialize]/[Deserialize] of [Selector]. *)
Class SerdeSelector := {
  selector_to_value : Selector → Result string Value;
  selector_from_value : Value → option Selector;
  selector_serde_roundtrip : ∀ s v,
    selector_to_value s = Ok v → selector_from_value v = Some s;
}.

(** [str::chars().count()]: one per byte that is not a UTF-8 continuation byte *)
Fixpoint chars_count (s : string) : nat :=
  match s with
  | EmptyString => 0
  | String c s' =>
      (if in_range (ascii_of_N 128) (ascii_of_N 191) c then 0 else 1) + chars_count s'
  end.

Definition MAX_GRANT_DESCRIPTION_LEN : nat := 500.
Definition MAX_GRANTS_PER_SUBJECT : nat := 200.

Notation DbErr := string (only parsing).

Module Grants.

(** ** Errors and data *)

Inductive AccessGrantError :=
| Patterns (e : PatternSetError)
| PlaneMixing
| TenantEncoding (msg : string)
| SelectorPhaseGate
| SelectorInvalid (e : SelectorValidationError)
| SelectorNotSupported (e : SelectorLevelError)
| SelectorReferentsMissing (axis : SelectorAxis) (missing : list Uuid)
| SelectorOnGlobalRole
| DescriptionTooLong (max : nat)
| TooManyGrants (max actual : nat)
| UnclassifiablePattern
| SelectorEncode (e : string)
| NotFound
| SentinelMissing
| Corrupt (reason : string)
| DbError (e : DbErr).

Inductive GrantSubject := User (id : Uuid) | Role (id : Uuid).
Inductive GrantSubjectType := SubjectUser | SubjectRole.

#[global] Instance GrantSubject_eq_dec : EqDecision GrantSubject.
Proof. solve_decision. Defined.
#[global] Instance GrantSubjectType_eq_dec : EqDecision GrantSubjectType.
Proof. solve_decision. Defined.

Record NewGrant := mkNewGrant {
  ng_subject : GrantSubject;
  ng_tenant_id : option Uuid;
  ng_patterns : list Pattern.ActionPattern;
  ng_selector : Selector;
  ng_description : option string;
  ng_created_by : option Uuid;
}.

Record GrantUpdate := mkGrantUpdate {
  gu_patterns : list Pattern.ActionPattern;
  gu_selector : Selector;
  gu_description : option string;
}.

Record ResolvedGrant := mkResolvedGrant {
  rg_id : Uuid;
  rg_tenant_id : option Uuid;
  rg_subject : GrantSubject;
  rg_patterns : list Pattern.ActionPattern;
  rg_selector : Selector;
  rg_description : option string;
}.

Record GrantLoad := mkGrantLoad {
  grants : list ResolvedGrant;
  corrupt_skipped : nat;
}.

(** A row of [access_grants] ([entity/access_grant.rs]). *)
Record Model := mkModel {
  id : Uuid;
  tenant_id : option Uuid;
  subject_type : GrantSubjectType;
  subject_id : Uuid;
  patterns : Value;
  selector : Value;
  description : option string;
  created_at : Instant;
  updated_at : Instant;
  created_by : option Uuid;
}.

(** An assignment of a role ([user_roles]). *)
Record Assignment := mkAssignment {
  as_tenant_id : Uuid;
  as_user_id : Uuid;
  as_role_id : Uuid;
}.

#[global] Instance Assignment_eq_dec : EqDecision Assignment.
Proof. solve_decision. Defined.

(** A row of [host_tags], [hosts] or [software_items]: the columns the referent
    check reads. *)
Record ScopedRow := mkScopedRow {
  sr_id : Uuid;
  sr_tenant_id : Uuid;
  sr_deactivated_at : option Instant;
}.

(** A row of [host_software_items]. *)
Record ItemRow := mkItemRow {
  ir_id : Uuid;
  ir_host_id : Uuid;
  ir_software_item_id : Uuid;
  ir_deactivated_at : option Instant;
}.

Inductive Table :=
| TGrants | TRoles | TUserRoles | TUsers | TTenants
| THostTags | THostTagAssignments | THosts | TSoftwareItems | THostSoftwareItems.

Record Db := mkDb {
  access_grants : list Model;
  roles : gmap Uuid (option Uuid);            (* role id -> tenant_id *)
  user_roles : list Assignment;
  users : gmap Uuid bool;                     (* user id -> is_active *)
  tenants : gset Uuid;
  host_tags : list ScopedRow;
  host_tag_assignments : list (Uuid * Uuid);  (* host id, host tag id *)
  hosts : list ScopedRow;
  software_items : list ScopedRow;
  host_software_items : list ItemRow;
  db_fail : Table → option DbErr;
}.

Definition with_grants (l : list Model) (db : Db) : Db :=
  mkDb l (roles db) (user_roles db) (users db) (tenants db) (host_tags db)
       (host_tag_assignments db) (hosts db) (software_items db)
       (host_software_items db) (db_fail db).

(** A statement against one table: [.await.context_to()?] *)
Definition query {A} (db : Db) (t : Table) (a : A) : Result AccessGrantError A :=
  match db_fail db t with Some e => Err (DbError e) | None => Ok a end.

(** ** Planes *)

Inductive Plane := System | Tenant.

#[global] Instance Plane_eq_dec : EqDecision Plane.
Proof. solve_decision. Defined.

Definition pattern_plane (p : Pattern.ActionPattern) : Result AccessGrantError Plane :=
  match Pattern.resource p with
  | Pattern.AnyResource => Ok Tenant
  | Pattern.ExactResource s => Ok (if starts_with "system." s then System else Tenant)
  | Pattern.Subtree stem =>
      Ok (if bool_decide (stem = "system") || starts_with "system." stem
          then System else Tenant)
  end.

(** The loop of [grant_plane], with its accumulator [plane]. *)
Fixpoint grant_plane_loop (plane : option Plane) (ps : list Pattern.ActionPattern) :
    Result AccessGrantError (option Plane) :=
  match ps with
  | [] => Ok plane
  | p :: ps' =>
      this ← pattern_plane p;
      match plane with
      | None => grant_plane_loop (Some this) ps'
      | Some prev =>
          if decide (prev = this) then grant_plane_loop (Some prev) ps' else Err PlaneMixing
      end
  end.

Definition grant_plane (ps : list Pattern.ActionPattern) : Result AccessGrantError Plane :=
  plane ← grant_plane_loop None ps;
  Ok (default Tenant plane).

Definition patterns_reach_system_plane (ps : list Pattern.ActionPattern) :
    Result AccessGrantError bool :=
  plane ← grant_plane ps;
  Ok (bool_decide (plane = System)).

(** ** Write validation *)

Definition referent_tenant (db : Db) (subject : GrantSubject) (tenant : option Uuid) :
    Result AccessGrantError Uuid :=
  match subject with
  | User _ =>
      match tenant with
      | Some t => Ok t
      | None => Err (TenantEncoding "non-All selector on a tenant-less user grant")
      end
  | Role role_id =>
      row ← query db TRoles (roles db !! role_id);
      match row with
      | None => Err (TenantEncoding "role-subject grant references an unknown role")
      | Some None => Err SelectorOnGlobalRole
      | Some (Some t) => Ok t
      end
  end.

(** [SELECT id FROM t WHERE tenant_id = .. AND id IN (..) AND deactivated_at IS NULL] *)
Definition live_ids (rows : list ScopedRow) (tenant : Uuid) (ids : list Uuid) : list Uuid :=
  sr_id <$> filter (λ r, sr_tenant_id r = tenant ∧ sr_id r ∈ ids ∧ sr_deactivated_at r = None)
              rows.

(** The [Items] query: live link rows joined with their live host in the tenant. *)
Definition live_item_ids (db : Db) (tenant : Uuid) (ids : list Uuid) : list Uuid :=
  host_software_items db ≫= λ it,
    hosts db ≫= λ h,
      if decide (ir_host_id it = sr_id h ∧ sr_tenant_id h = tenant ∧ sr_deactivated_at h = None
                 ∧ ir_id it ∈ ids ∧ ir_deactivated_at it = None)
      then [ir_id it] else [].

Definition validate_selector_referents (db : Db) (tenant : Uuid) (sel : Selector) :
    Result AccessGrantError unit :=
  let check axis ids (found : Result AccessGrantError (list Uuid)) :=
    f ← found;
    if decide (length f ≠ length ids)
    then Err (SelectorReferentsMissing axis (filter (λ i, i ∉ f) ids))
    else Ok tt in
  match sel with
  | All => Ok tt
  | Tags ids => check AxisTags ids (query db THostTags (live_ids (host_tags db) tenant ids))
  | Hosts ids => check AxisHosts ids (query db THosts (live_ids (hosts db) tenant ids))
  | Software ids =>
      check AxisSoftware ids (query db TSoftwareItems (live_ids (software_items db) tenant ids))
  | Items ids => check AxisItems ids (query db THostSoftwareItems (live_item_ids db tenant ids))
  end.

(** Rule 2 of [validate_write]: a single tenant encoding per subject type. *)
Definition check_encoding (plane : Plane) (subject : GrantSubject) (tenant : option Uuid) :
    Result AccessGrantError unit :=
  match plane, subject, tenant with
  | System, _, Some _ => Err (TenantEncoding "system-plane grant requires tenant_id NULL")
  | _, Role _, Some _ => Err (TenantEncoding "role-subject grant requires tenant_id NULL")
  | Tenant, User _, None =>
      Err (TenantEncoding "user-subject tenant-plane grant requires a tenant_id")
  | _, _, _ => Ok tt
  end.

Definition validate_write (db : Db) (subject : GrantSubject) (tenant : option Uuid)
    (ps : list Pattern.ActionPattern) (sel : Selector) (desc : option string) :
    Result AccessGrantError unit :=
  _ ← map_err Patterns (validate_patterns ps);
  plane ← grant_plane ps;
  _ ← check_encoding plane subject tenant;
  _ ← map_err SelectorInvalid (validate_selector sel);
  _ ← map_err SelectorNotSupported (validate_selector_level ps sel);
  _ ← (if decide (sel = All) then Ok tt
       else t ← referent_tenant db subject tenant; validate_selector_referents db t sel);
  if decide (sel ≠ All) then Err SelectorPhaseGate
  else match desc with
       | Some d =>
           if MAX_GRANT_DESCRIPTION_LEN <? chars_count d
           then Err (DescriptionTooLong MAX_GRANT_DESCRIPTION_LEN) else Ok tt
       | None => Ok tt
       end.

(** ** Row codecs *)

Definition split_subject (s : GrantSubject) : GrantSubjectType * Uuid :=
  match s with User i => (SubjectUser, i) | Role i => (SubjectRole, i) end.

Definition subject_from_row (row : Model) : GrantSubject :=
  match subject_type row with
  | SubjectUser => User (subject_id row)
  | SubjectRole => Role (subject_id row)
  end.

Definition patterns_json (ps : list Pattern.ActionPattern) : Value :=
  JArray (JString ∘ Pattern.to_string <$> ps).

(** [serde_json::from_value::<ActionPattern>]: a string that parses *)
Definition pattern_from_value (v : Value) : option Pattern.ActionPattern :=
  match v with
  | JString s => match Pattern.from_str s with Ok p => Some p | Err _ => None end
  | _ => None
  end.

(** [serde_json::from_value::<Vec<ActionPattern>>] *)
Definition patterns_from_value (v : Value) : option (list Pattern.ActionPattern) :=
  match v with JArray l => mapM pattern_from_value l | _ => None end.

Section WithSerde.
Context `{SerdeSelector}.

Definition selector_json (sel : Selector) : Result AccessGrantError Value :=
  map_err SelectorEncode (selector_to_value sel).

Definition resolve_row (row : Model) : Result string ResolvedGrant :=
  match patterns_from_value (patterns row) with
  | None => Err "unparseable patterns JSON"
  | Some ps =>
      match selector_from_value (selector row) with
      | None => Err "unparseable selector JSON"
      | Some sel =>
          Ok (mkResolvedGrant (id row) (tenant_id row) (subject_from_row row) ps sel
                (description row))
      end
  end.

(** ** Writes *)

Definition subject_rows (subject : GrantSubject) (l : list Model) : list Model :=
  filter (λ r, (subject_type r, subject_id r) = split_subject subject) l.

(** [insert_grant]; [new_id] is [Uuid::now_v7()] and [now] the clock. A
    duplicate primary key is a database error. *)
Definition insert_grant (db : Db) (grant : NewGrant) (new_id : Uuid) (now : Instant) :
    Result AccessGrantError (Db * Uuid) :=
  let sel := canonicalize (ng_selector grant) in
  _ ← validate_write db (ng_subject grant) (ng_tenant_id grant) (ng_patterns grant) sel
        (ng_description grant);
  let '(st, si) := split_subject (ng_subject grant) in
  existing ← query db TGrants (length (subject_rows (ng_subject grant) (access_grants db)));
  if MAX_GRANTS_PER_SUBJECT <=? existing
  then Err (TooManyGrants MAX_GRANTS_PER_SUBJECT existing)
  else
    sj ← selector_json sel;
    let row := mkModel new_id (ng_tenant_id grant) st si (patterns_json (ng_patterns grant)) sj
                 (ng_description grant) now now (ng_created_by grant) in
    if decide (new_id ∈ (id <$> access_grants db))
    then Err (DbError "unique constraint violated: access_grants.id")
    else query db TGrants (with_grants (access_grants db ++ [row]) db, new_id).

Definition find_by_id (i : Uuid) (l : list Model) : option Model :=
  find (λ r, bool_decide (id r = i)) l.

Definition update_grant (db : Db) (i : Uuid) (u : GrantUpdate) (now : Instant) :
    Result AccessGrantError Db :=
  let sel := canonicalize (gu_selector u) in
  found ← query db TGrants (find_by_id i (access_grants db));
  match found with
  | None => Err NotFound
  | Some row =>
      _ ← validate_write db (subject_from_row row) (tenant_id row) (gu_patterns u) sel
            (gu_description u);
      sj ← selector_json sel;
      let row' := mkModel (id row) (tenant_id row) (subject_type row) (subject_id row)
                    (patterns_json (gu_patterns u)) sj (gu_description u)
                    (created_at row) now (created_by row) in
      query db TGrants
        (with_grants ((λ r, if decide (id r = i) then row' else r) <$> access_grants db) db)
  end.

Definition delete_grant (db : Db) (i : Uuid) : Result AccessGrantError Db :=
  affected ← query db TGrants (length (filter (λ r, id r = i) (access_grants db)));
  if affected =? 0 then Err NotFound
  else Ok (with_grants (filter (λ r, id r ≠ i) (access_grants db)) db).

Definition delete_grants_for_role (db : Db) (role_id : Uuid) :
    Result AccessGrantError (Db * nat) :=
  query db TGrants
    (with_grants (filter (λ r, ¬ (subject_type r = SubjectRole ∧ subject_id r = role_id))
                    (access_grants db)) db,
     length (filter (λ r, subject_type r = SubjectRole ∧ subject_id r = role_id)
               (access_grants db))).

(** ** Reads *)

Definition load_grant (db : Db) (i : Uuid) : Result AccessGrantError ResolvedGrant :=
  found ← query db TGrants (find_by_id i (access_grants db));
  match found with
  | None => Err NotFound
  | Some row => map_err Corrupt (resolve_row row)
  end.

(** The loud-skip loop shared by the batch reads. *)
Definition resolve_step (acc : list ResolvedGrant * nat) (row : Model) :
    list ResolvedGrant * nat :=
  match resolve_row row with
  | Ok g => (acc.1 ++ [g], acc.2)
  | Err _ => (acc.1, S acc.2)
  end.

Definition resolve_rows (rows : list Model) : GrantLoad :=
  let '(gs, skipped) := foldl resolve_step ([], 0) rows in mkGrantLoad gs skipped.

Definition principal_condition (tenant user : Uuid) (role_ids : list Uuid) (r : Model) : bool :=
  (bool_decide (subject_type r = SubjectUser) && bool_decide (subject_id r = user)
   && (bool_decide (tenant_id r = Some tenant) || bool_decide (tenant_id r = None)))
  || (bool_decide (subject_type r = SubjectRole) && bool_decide (subject_id r ∈ role_ids)).

Definition load_grants_for_principal (db : Db) (tenant user : Uuid) (role_ids : list Uuid) :
    Result AccessGrantError GrantLoad :=
  rows ← query db TGrants
    (filter (λ r, Is_true (principal_condition tenant user role_ids r)) (access_grants db));
  Ok (resolve_rows rows).

(** [ORDER BY created_at ASC] *)
Definition created_le (a b : Model) : Prop := (created_at a ≤ created_at b)%Z.
#[global] Instance created_le_dec : RelDecision created_le.
Proof. unfold created_le. solve_decision. Defined.

Definition list_grants (db : Db) (tenant : Uuid) (subject : option GrantSubject) :
    Result AccessGrantError GrantLoad :=
  let scoped := filter (λ r, tenant_id r = Some tenant ∨ tenant_id r = None) (access_grants db) in
  let matching := match subject with Some s => subject_rows s scoped | None => scoped end in
  rows ← query db TGrants (merge_sort created_le matching);
  Ok (resolve_rows rows).

(** ** The lockout guard *)

Inductive GuardedMutation :=
| DeleteGrant (grant_id : Uuid)
| UpdateGrant (grant_id : Uuid) (new_patterns : list Pattern.ActionPattern)
              (new_selector : Selector)
| DeleteRole (role_id : Uuid)
| SetUserRoles (tenant_id user_id : Uuid) (new_role_ids : list Uuid)
| DeactivateUser (user_id : Uuid).

Inductive LockoutVerdict := Permitted | TenantLockout | SystemLockout.

#[global] Instance LockoutVerdict_eq_dec : EqDecision LockoutVerdict.
Proof. solve_decision. Defined.

Definition any_matches (ps : list Pattern.ActionPattern) (a : Action.Action) : bool :=
  existsb (λ p, Pattern.matches p a) ps.

Notation Holders := (gmap Uuid (gset Uuid) * gset Uuid)%type.

(** The inner loop body of [covering_holders] for one assignment of the role. *)
Definition role_holder_step (covers_tenant covers_system : bool) (active : gset Uuid)
    (acc : Holders) (a : Assignment) : Holders :=
  if bool_decide (as_user_id a ∈ active) then
    (if covers_tenant then entry_insert (as_tenant_id a) (as_user_id a) acc.1 else acc.1,
     if covers_system then {[as_user_id a]} ∪ acc.2 else acc.2)
  else acc.

Definition covering_step (assignments : list Assignment) (active : gset Uuid)
    (acc : Holders) (g : ResolvedGrant) : Holders :=
  if decide (rg_selector g ≠ All) then acc
  else
    let covers_tenant := any_matches (rg_patterns g) ACCESS_MANAGE in
    let covers_system := any_matches (rg_patterns g) SYSTEM_ACCESS_MANAGE in
    if negb covers_tenant && negb covers_system then acc
    else
      match rg_subject g with
      | User u =>
          if bool_decide (u ∈ active) then
            (match covers_tenant, rg_tenant_id g with
             | true, Some t => entry_insert t u acc.1
             | _, _ => acc.1
             end,
             if covers_system then {[u]} ∪ acc.2 else acc.2)
          else acc
      | Role role =>
          foldl (role_holder_step covers_tenant covers_system active) acc
            (filter (λ a, as_role_id a = role) assignments)
      end.

Definition covering_holders (gs : list ResolvedGrant) (assignments : list Assignment)
    (active : gset Uuid) : Holders :=
  foldl (covering_step assignments active) (∅, ∅) gs.

(** The in-memory copies the guard simulates on. *)
Record Snapshot := mkSnapshot {
  sn_grants : list ResolvedGrant;
  sn_assignments : list Assignment;
  sn_active_users : gset Uuid;
}.

Definition apply_mutation (m : GuardedMutation) (s : Snapshot) : Snapshot :=
  match m with
  | DeleteGrant i =>
      mkSnapshot (filter (λ g, rg_id g ≠ i) (sn_grants s)) (sn_assignments s)
        (sn_active_users s)
  | UpdateGrant i ps sel =>
      mkSnapshot
        ((λ g, if decide (rg_id g = i)
               then mkResolvedGrant (rg_id g) (rg_tenant_id g) (rg_subject g) ps sel
                      (rg_description g)
               else g) <$> sn_grants s)
        (sn_assignments s) (sn_active_users s)
  | DeleteRole role =>
      mkSnapshot (filter (λ g, rg_subject g ≠ Role role) (sn_grants s))
        (filter (λ a, as_role_id a ≠ role) (sn_assignments s)) (sn_active_users s)
  | SetUserRoles t u new_roles =>
      mkSnapshot (sn_grants s)
        (filter (λ a, ¬ (as_tenant_id a = t ∧ as_user_id a = u)) (sn_assignments s)
         ++ (mkAssignment t u <$> new_roles))
        (sn_active_users s)
  | DeactivateUser u =>
      mkSnapshot (sn_grants s) (sn_assignments s) (sn_active_users s ∖ {[u]})
  end.

Definition lock_sentinel (db : Db) (sentinel : Uuid) : Result AccessGrantError unit :=
  row ← query db TTenants (bool_decide (sentinel ∈ tenants db));
  if row : bool then Ok tt else Err SentinelMissing.

Definition active_users (db : Db) : gset Uuid :=
  dom (filter (λ '(_, is_active), is_active = true) (users db)).

Definition snapshot (db : Db) : Snapshot :=
  mkSnapshot (grants (resolve_rows (access_grants db))) (user_roles db) (active_users db).

Definition holders (s : Snapshot) : Holders :=
  covering_holders (sn_grants s) (sn_assignments s) (sn_active_users s).

(** The final comparison of [check_lockout]. *)
Definition lockout_verdict (pre post : Holders) : LockoutVerdict :=
  if bool_decide (pre.2 ≠ ∅) && bool_decide (post.2 = ∅) then SystemLockout
  else if existsb (λ t, bool_decide (get_set t post.1 = ∅)) (map_to_list pre.1).*1
       then TenantLockout
       else Permitted.

Definition check_lockout (db : Db) (sentinel : Uuid) (m : GuardedMutation) :
    Result AccessGrantError LockoutVerdict :=
  _ ← lock_sentinel db sentinel;
  _ ← query db TGrants tt;
  _ ← query db TUsers tt;
  _ ← query db TUserRoles tt;
  let pre := snapshot db in
  Ok (lockout_verdict (holders pre) (holders (apply_mutation m pre))).

End WithSerde.

(** ** The other guarded writes: roles, role sets and user activation *)

Inductive RoleQueryError := RoleNotFound | RoleDb (e : DbErr).

Definition with_roles (rs : gmap Uuid (option Uuid)) (l : list Assignment) (db : Db) : Db :=
  mkDb (access_grants db) rs l (users db) (tenants db) (host_tags db)
       (host_tag_assignments db) (hosts db) (software_items db)
       (host_software_items db) (db_fail db).

Definition with_users (us : gmap Uuid bool) (db : Db) : Db :=
  mkDb (access_grants db) (roles db) (user_roles db) us (tenants db) (host_tags db)
       (host_tag_assignments db) (hosts db) (software_items db)
       (host_software_items db) (db_fail db).

Definition get_own_role (db : Db) (tenant role_id : Uuid) : Result RoleQueryError Uuid :=
  match db_fail db TRoles with
  | Some e => Err (RoleDb e)
  | None => if decide (roles db !! role_id = Some (Some tenant)) then Ok role_id
            else Err RoleNotFound
  end.

(** [delete_role_rows]: the tenant's assignments of the role, then the role; the
    foreign key [user_roles.role_id -> roles.id] cascades. *)
Definition delete_role_rows (db : Db) (tenant role_id : Uuid) : Result RoleQueryError Db :=
  role ← get_own_role db tenant role_id;
  match db_fail db TUserRoles with
  | Some e => Err (RoleDb e)
  | None =>
      let remaining := filter (λ a, ¬ (as_role_id a = role ∧ as_tenant_id a = tenant))
                         (user_roles db) in
      Ok (with_roles (delete role (roles db))
            (filter (λ a, as_role_id a ≠ role) remaining) db)
  end.

(** The write of [update_user_roles]: delete the user's assignments in the
    tenant, insert the new ones; a repeated [(tenant, user, role)] violates the
    primary key and fails the request. *)
Fixpoint insert_user_roles (tenant user : Uuid) (new_roles : list Uuid) (l : list Assignment) :
    Result DbErr (list Assignment) :=
  match new_roles with
  | [] => Ok l
  | r :: new_roles' =>
      if decide (mkAssignment tenant user r ∈ l)
      then Err "unique constraint violated: user_roles"
      else insert_user_roles tenant user new_roles' (l ++ [mkAssignment tenant user r])
  end.

Definition replace_user_roles (db : Db) (tenant user : Uuid) (new_roles : list Uuid) :
    Result DbErr Db :=
  match db_fail db TUserRoles with
  | Some e => Err e
  | None =>
      l ← insert_user_roles tenant user new_roles
            (filter (λ a, ¬ (as_tenant_id a = tenant ∧ as_user_id a = user)) (user_roles db));
      Ok (with_roles (roles db) l db)
  end.

(** [update_user_active_in_tx]; [Ok None] is an unknown user. *)
Definition update_user_active_in_tx (db : Db) (user : Uuid) (is_active : bool) :
    Result DbErr (option Db) :=
  match db_fail db TUsers with
  | Some e => Err e
  | None =>
      match users db !! user with
      | None => Ok None
      | Some _ => Ok (Some (with_users (<[user := is_active]> (users db)) db))
      end
  end.

End Grants.
