(* ===== verification/AccessEngine.v ===== *)
(** The access decision point: per-principal authority with a TTL-bounded
    cache, the decision rule, visibility and the capability summary.

    Models [crates/ui/controller-core/src/access/mod.rs] over the grant storage
    of [AccessGrants]. The [moka] cache is a map that may lose entries at any
    time ([evict]); the dynamic-action registry is a record of its two
    methods. *)

From Stdlib Require Import Ascii.
From stdpp Require Import base list gmap sets strings numbers sorting.
From S2P Require Import Prelude RustStr AccessVocab AccessTheorems AccessGrants.

Module Engine.
Import Grants.

(** Seconds. *)
Definition ACCESS_CACHE_TTL : Duration := 60.

Inductive AccessEngineError :=
| RoleResolution (e : DbErr)
| GrantResolution (e : AccessGrantError)
| TagResolution (e : DbErr).

(** [trait DynamicActionRegistry] *)
Record DynamicActionRegistry := mkRegistry {
  is_registered : Action.Action → bool;
  registered_actions : list Action.Action;
}.

(** The trait's contract. *)
Definition registry_contract (r : DynamicActionRegistry) : Prop :=
  ∀ a, a ∈ registered_actions r ↔ is_registered r a = true.

Record CachedAuthority := mkAuthority {
  auth_grants : list ResolvedGrant;
  loaded_at : Instant;
}.

Record AccessEngine := mkEngine {
  cache : gmap (Uuid * Uuid) CachedAuthority;   (* (tenant_id, user_id) *)
  registry : option DynamicActionRegistry;
  ttl : Duration;
}.

Record AccessContext := mkContext {
  user_id : Uuid;
  tenant_id : Uuid;
  authority : CachedAuthority;
  scope : option (list Pattern.ActionPattern);
}.

Definition new : AccessEngine := mkEngine ∅ None ACCESS_CACHE_TTL.

Definition with_registry (e : AccessEngine) (r : DynamicActionRegistry) : AccessEngine :=
  mkEngine (cache e) (Some r) (ttl e).

Definition with_cache (e : AccessEngine) (c : gmap (Uuid * Uuid) CachedAuthority) :
  AccessEngine := mkEngine c (registry e) (ttl e).

Definition dynamic_actions (e : AccessEngine) : list Action.Action :=
  match registry e with Some r => registered_actions r | None => [] end.

(** ** Resolving a principal *)

(** [Instant::elapsed] *)
Definition elapsed (now since : Instant) : Duration := Z.max 0 (now - since).

Definition cache_get (e : AccessEngine) (now : Instant) (key : Uuid * Uuid) :
    option CachedAuthority :=
  match cache e !! key with
  | Some entry => if decide (elapsed now (loaded_at entry) ≤ ttl e)%Z then Some entry else None
  | None => None
  end.

(** The first query of [load_authority]: the principal's roles in the tenant. *)
Definition load_role_ids (db : Db) (tenant user : Uuid) : Result AccessEngineError (list Uuid) :=
  match db_fail db TUserRoles with
  | Some e => Err (RoleResolution e)
  | None => Ok (as_role_id <$>
      filter (λ a, as_tenant_id a = tenant ∧ as_user_id a = user) (user_roles db))
  end.

Section WithSerde.
Context `{SerdeSelector}.

(** The second query. *)
Definition load_principal_grants (db : Db) (tenant user : Uuid) (role_ids : list Uuid) :
    Result AccessEngineError (list ResolvedGrant) :=
  result_map grants (map_err GrantResolution
    (load_grants_for_principal db tenant user role_ids)).

Definition load_authority (db : Db) (now : Instant) (tenant user : Uuid) :
    Result AccessEngineError CachedAuthority :=
  role_ids ← load_role_ids db tenant user;
  gs ← load_principal_grants db tenant user role_ids;
  Ok (mkAuthority gs now).

Definition context (e : AccessEngine) (db : Db) (now : Instant) (tenant user : Uuid)
    (sc : option (list Pattern.ActionPattern)) :
    AccessEngine * Result AccessEngineError AccessContext :=
  match cache_get e now (tenant, user) with
  | Some entry => (e, Ok (mkContext user tenant entry sc))
  | None =>
      match load_authority db now tenant user with
      | Ok entry =>
          (with_cache e (<[(tenant, user) := entry]> (cache e)),
           Ok (mkContext user tenant entry sc))
      | Err err => (e, Err err)
      end
  end.

(** ** Deciding *)

Definition grant_matches (a : Action.Action) (g : ResolvedGrant) : bool :=
  any_matches (rg_patterns g) a.

Definition is_dynamic_action (a : Action.Action) : bool :=
  bool_decide (is_Some (Resource.plugin_type (Action.resource a)))
  || bool_decide (is_Some (Resource.surface_id (Action.resource a))).

Definition decide_action (e : AccessEngine) (ctx : AccessContext) (a : Action.Action)
    (target : option (TargetRef * gset Uuid)) : AccessDecision :=
  if is_dynamic_action a
     && negb (match registry e with Some r => is_registered r a | None => false end)
  then Deny UnknownAction
  else
    let matching_grants := filter (λ g, Is_true (grant_matches a g))
                             (auth_grants (authority ctx)) in
    match matching_grants with
    | [] => Deny NoGrant
    | _ =>
        if match scope ctx with Some s => negb (any_matches s a) | None => false end
        then Deny OutOfScope
        else
          if match target with
             | Some (t, host_tags) =>
                 negb (existsb (λ g, covers (rg_selector g) t host_tags) matching_grants)
             | None => false
             end
          then Deny OutsideSelector
          else Allow
    end.

Definition authorize (e : AccessEngine) (ctx : AccessContext) (a : Action.Action) :
    AccessDecision := decide_action e ctx a None.

(** Live tag ids of the host, through the join with the tenant's [host_tags]. *)
Definition load_host_tags (db : Db) (tenant host_id : Uuid) :
    Result AccessEngineError (gset Uuid) :=
  match db_fail db THostTagAssignments with
  | Some err => Err (TagResolution err)
  | None =>
      Ok (list_to_set (host_tag_assignments db ≫= λ '(h, tag),
            host_tags db ≫= λ row,
              if decide (tag = sr_id row ∧ sr_tenant_id row = tenant ∧ h = host_id
                         ∧ sr_deactivated_at row = None)
              then [tag] else []))
  end.

Definition is_tags (sel : Selector) : bool := match sel with Tags _ => true | _ => false end.

Definition authorize_target (e : AccessEngine) (db : Db) (ctx : AccessContext)
    (a : Action.Action) (target : TargetRef) : Result AccessEngineError AccessDecision :=
  let needs_tags := existsb (λ g, grant_matches a g && is_tags (rg_selector g))
                      (auth_grants (authority ctx)) in
  host_tags ← (if needs_tags then load_host_tags db (tenant_id ctx) (target_host_id target)
               else Ok ∅);
  Ok (decide_action e ctx a (Some (target, host_tags))).

Definition visibility (ctx : AccessContext) (a : Action.Action) : Visibility :=
  if match scope ctx with Some s => negb (any_matches s a) | None => false end
  then VNone
  else from_selectors (rg_selector <$>
         filter (λ g, Is_true (grant_matches a g)) (auth_grants (authority ctx))).

(** [sort_unstable_by_key(ToString::to_string)] *)
Definition action_le (a b : Action.Action) : Prop :=
  Is_true (str_leb (Action.to_string a) (Action.to_string b)).
#[global] Instance action_le_dec : RelDecision action_le.
Proof. unfold action_le. intros ??. apply _. Defined.

Definition catalog_actions : list Action.Action :=
  Resource.CATALOG ≫= λ entry,
    omap (λ ve, match Action.from_str (Resource.action_str ve) with
                | Ok a => Some a
                | Err _ => None
                end) (Resource.verbs entry).

Definition allowed_actions (e : AccessEngine) (ctx : AccessContext) : list Action.Action :=
  merge_sort action_le
    (filter (λ a, authorize e ctx a = Allow) (catalog_actions ++ dynamic_actions e)).

(** ** Invalidation *)

Definition invalidate_subjects (e : AccessEngine) (user_ids role_ids : list Uuid) :
    AccessEngine := with_cache e ∅.

Definition apply_remote_invalidation (e : AccessEngine) (user_ids role_ids : list Uuid) :
    AccessEngine := with_cache e ∅.

(** Size eviction of the bounded cache. *)
Definition evict (e : AccessEngine) (key : Uuid * Uuid) : AccessEngine :=
  with_cache e (delete key (cache e)).

End WithSerde.

End Engine.
