(* ===== verification/GrantLemmas.v ===== *)
(** Lemmas on grant storage and the decision engine: what the write validation
    establishes about stored grants, what a loaded authority contains, the
    decision rule case by case, the lockout guard's holder sets and the
    visibility union. *)

From Stdlib Require Import Ascii.
From stdpp Require Import base list gmap sets strings numbers sorting.
From S2P Require Import Prelude RustStr AccessVocab AccessTheorems AccessGrants.
From S2P Require Import AccessEngine.

Import Grants Engine.

Section GrantLemmas.
Context `{SerdeSelector}.

(** ** Batch reads *)

Lemma resolve_rows_spec rows :
  resolve_rows rows =
  mkGrantLoad (omap (λ r, match resolve_row r with Ok g => Some g | Err _ => None end) rows)
    (length (filter (λ r, is_ok (resolve_row r) = false) rows)).
Proof.
  unfold resolve_rows.
  assert (foldl resolve_step ([], 0) rows =
    (omap (λ r, match resolve_row r with Ok g => Some g | Err _ => None end) rows,
     length (filter (λ r, is_ok (resolve_row r) = false) rows))) as ->; [|done].
  induction rows as [|r rows IH] using rev_ind; [done|].
  rewrite foldl_snoc, IH, omap_app, filter_app, length_app. unfold resolve_step. simpl.
  rewrite filter_cons, filter_nil.
  destruct (resolve_row r) as [g|err] eqn:E; simpl.
  - by rewrite Nat.add_0_r.
  - by rewrite app_nil_r, Nat.add_1_r.
Qed.

Lemma elem_of_resolved g rows :
  g ∈ grants (resolve_rows rows) ↔ ∃ r, r ∈ rows ∧ resolve_row r = Ok g.
Proof.
  rewrite resolve_rows_spec. simpl. rewrite list_elem_of_omap.
  split; intros (r & Hr & Hg); exists r; (split; [done|]); destruct (resolve_row r); naive_solver.
Qed.

Lemma resolve_row_fields r g :
  resolve_row r = Ok g →
  rg_id g = id r ∧ rg_tenant_id g = Grants.tenant_id r ∧ rg_subject g = subject_from_row r
  ∧ patterns_from_value (patterns r) = Some (rg_patterns g)
  ∧ selector_from_value (selector r) = Some (rg_selector g)
  ∧ rg_description g = description r.
Proof.
  unfold resolve_row. destruct (patterns_from_value _) eqn:?; [|done].
  destruct (selector_from_value _) eqn:?; [|done]. intros ?; inv_ok. done.
Qed.

(** ** Pattern codec *)

(** A pattern obtained by parsing a string. *)
Definition parsed (p : Pattern.ActionPattern) : Prop := ∃ s, Pattern.from_str s = Ok p.

Lemma parsed_roundtrip p : parsed p → Pattern.from_str (Pattern.to_string p) = Ok p.
Proof. intros [s Hs]. destruct (pattern_from_inv s p Hs) as (-> & _). done. Qed.

Lemma patterns_json_roundtrip ps :
  Forall parsed ps → patterns_from_value (patterns_json ps) = Some ps.
Proof.
  intros Hps. apply mapM_Some, Forall2_fmap_l, Forall_Forall2_diag.
  eapply Forall_impl; [exact Hps|]. intros p Hp. simpl. by rewrite parsed_roundtrip.
Qed.

Lemma patterns_from_value_parsed v ps : patterns_from_value v = Some ps → Forall parsed ps.
Proof.
  destruct v as [| | | |l|]; simpl; try done. intros Hm%mapM_Some.
  induction Hm as [|v p l ps Hv _ IH]; constructor; [|done].
  destruct v as [| | |s| |]; simpl in Hv; try done.
  exists s. by destruct (Pattern.from_str s); simplify_eq.
Qed.

(** ** Planes *)

Lemma pattern_plane_spec p :
  pattern_plane p = Ok (if starts_with "system." (Pattern.to_string p) then System else Tenant).
Proof.
  unfold pattern_plane. rewrite pattern_to_string_unfold, starts_with_cut by done.
  destruct (Pattern.resource p) as [|s|stem]; simpl; [done|done|].
  change ".*" with (String "." "*"). by rewrite (starts_with_dot_cut "system").
Qed.

Lemma grant_plane_loop_ok pl ps r :
  grant_plane_loop pl ps = Ok r →
  (∀ p, p ∈ ps → pattern_plane p = Ok (default Tenant r))
  ∧ (∀ x, pl = Some x → r = Some x) ∧ (pl = None → ps = [] → r = None).
Proof.
  revert pl. induction ps as [|p ps IH]; intros pl; simpl.
  - intros ?; inv_ok. split_and!; [intros ? []%elem_of_nil|naive_solver..].
  - destruct (pattern_plane p) as [this|] eqn:Hp; [|by rewrite pattern_plane_spec in Hp].
    simpl.
    destruct pl as [x|].
    + destruct (decide (x = this)) as [->|]; [|done]. intros (H1 & H2 & _)%IH.
      specialize (H2 _ eq_refl). subst r. split_and!; [|naive_solver..].
      intros q [-> |Hq]%elem_of_cons; [done|by apply H1].
    + intros (H1 & H2 & _)%IH. specialize (H2 _ eq_refl). subst r.
      split_and!; [|done..]. intros q [-> |Hq]%elem_of_cons; [done|by apply H1].
Qed.

Lemma grant_plane_ok ps pl p : grant_plane ps = Ok pl → p ∈ ps → pattern_plane p = Ok pl.
Proof. unfold grant_plane. intros ? Hp. inv_ok. by apply grant_plane_loop_ok in Ha as [? _]; auto. Qed.

(** An action a grant's pattern matches lies on the grant's plane. *)
Lemma grant_plane_matches ps pl p a :
  grant_plane ps = Ok pl → p ∈ ps → Pattern.matches p a = true →
  Resource.is_system (Action.resource a) = bool_decide (pl = System).
Proof.
  intros Hpl Hp Hm. pose proof (grant_plane_ok ps pl p Hpl Hp) as H'.
  rewrite (matches_plane p a Hm). rewrite pattern_plane_spec in H'.
  destruct (starts_with _ _); by inv_ok.
Qed.

(** ** What the write validation establishes *)

Definition description_ok (d : option string) : Prop :=
  match d with Some d => chars_count d ≤ MAX_GRANT_DESCRIPTION_LEN | None => True end.

(** All actions the patterns match are of one plane. *)
Definition on_plane (pl : Plane) (ps : list Pattern.ActionPattern) : Prop :=
  ∀ p a, p ∈ ps → Pattern.matches p a = true →
         Resource.is_system (Action.resource a) = bool_decide (pl = System).

(** The validity of a grant, independent of the database and stated without the
    validation code: the only grants with a tenant are those of the tenant plane
    given to a user. *)
Definition grant_ok (g : ResolvedGrant) : Prop :=
  length (rg_patterns g) ≤ MAX_PATTERNS_PER_GRANT
  ∧ (∀ p, p ∈ rg_patterns g → ∃ a, action_wf a ∧ Pattern.matches p a = true)
  ∧ (∃ pl, on_plane pl (rg_patterns g)
           ∧ (rg_tenant_id g = None ↔ pl = System ∨ ∃ role, rg_subject g = Role role))
  ∧ rg_selector g = All
  ∧ description_ok (rg_description g).

Lemma validate_patterns_loop_ok i ps :
  validate_patterns_loop i ps = Ok tt ↔ ∀ p, p ∈ ps → Pattern.can_match_any p = true.
Proof.
  revert i. induction ps as [|p ps IH]; intros i; cbn [validate_patterns_loop].
  - split; [intros _ ? []%elem_of_nil|done].
  - destruct (Pattern.can_match_any p) eqn:E; cbn [negb].
    + rewrite IH. setoid_rewrite (elem_of_cons ps). naive_solver.
    + split; [done|]. intros Hall. rewrite (Hall p) in E; [done|left].
Qed.

Lemma validate_patterns_ok ps :
  validate_patterns ps = Ok tt ↔
  length ps ≤ MAX_PATTERNS_PER_GRANT ∧ ∀ p, p ∈ ps → Pattern.can_match_any p = true.
Proof.
  unfold validate_patterns. rewrite <-(validate_patterns_loop_ok 0).
  destruct (Nat.ltb_spec MAX_PATTERNS_PER_GRANT (length ps)); [|naive_solver].
  split; [done|lia].
Qed.

Lemma result_unit_ok {E F} (f : E → F) (r : Result E unit) u :
  map_err f r = Ok u ↔ r = Ok tt.
Proof. destruct r as [[]|], u; naive_solver. Qed.

Lemma check_encoding_ok pl subject tenant :
  check_encoding pl subject tenant = Ok tt ↔
  (tenant = None ↔ pl = System ∨ ∃ role, subject = Role role).
Proof. destruct pl, subject, tenant; simpl; naive_solver. Qed.

Lemma parsed_can_match ps p :
  Forall parsed ps → p ∈ ps → Pattern.can_match_any p = true →
  ∃ a, action_wf a ∧ Pattern.matches p a = true.
Proof.
  rewrite Forall_forall. intros Hps Hp. destruct (Hps p Hp) as [s Hs%pattern_from_wf].
  by apply can_match_any_wf.
Qed.

Lemma validate_write_ok db subject tenant ps sel desc :
  validate_write db subject tenant ps sel desc = Ok tt → Forall parsed ps →
  ∀ i, grant_ok (mkResolvedGrant i tenant subject ps sel desc).
Proof.
  unfold validate_write, grant_ok. intros Hv Hps i. inv_ok. simpl.
  destruct a, a1, a2, a3, a4. apply result_unit_ok, validate_patterns_ok in Ha as [Hlen Hany].
  destruct (decide (sel ≠ All)) as [|Hs%dec_stable]; [done|]. split_and!; [done|by eauto using parsed_can_match| |done|].
  - exists a0. split; [intros p a; by apply grant_plane_matches|by apply check_encoding_ok].
  - destruct desc as [d|]; simpl; [|done].
    destruct (Nat.ltb_spec MAX_GRANT_DESCRIPTION_LEN (chars_count d)); [done|lia].
Qed.

Lemma query_ok {A} db t (a b : A) : query db t a = Ok b → b = a ∧ db_fail db t = None.
Proof. unfold query. destruct (db_fail db t); naive_solver. Qed.

(** A row written with validated, parsed patterns reads back as it was given. *)
Lemma resolve_written i tenant subject ps sel desc c n au v :
  Forall parsed ps → selector_json sel = Ok v →
  resolve_row (mkModel i tenant (split_subject subject).1 (split_subject subject).2
                 (patterns_json ps) v desc c n au)
  = Ok (mkResolvedGrant i tenant subject ps sel desc).
Proof.
  intros Hps Hv. unfold resolve_row. cbn [patterns selector id Grants.tenant_id description].
  rewrite patterns_json_roundtrip by done.
  unfold selector_json in Hv. destruct (selector_to_value sel) as [v'|] eqn:E; [|done].
  simpl in Hv. inv_ok. rewrite (selector_serde_roundtrip _ _ E). by destruct subject.
Qed.

Lemma insert_grant_ok db g i now db' j :
  insert_grant db g i now = Ok (db', j) → Forall parsed (ng_patterns g) →
  j = i ∧ i ∉ (id <$> access_grants db)
  ∧ length (subject_rows (ng_subject g) (access_grants db)) < MAX_GRANTS_PER_SUBJECT
  ∧ ∃ row, db' = with_grants (access_grants db ++ [row]) db
    ∧ id row = i ∧ (subject_type row, subject_id row) = split_subject (ng_subject g)
    ∧ resolve_row row = Ok (mkResolvedGrant i (ng_tenant_id g) (ng_subject g) (ng_patterns g)
                              (canonicalize (ng_selector g)) (ng_description g))
    ∧ ∀ k, grant_ok (mkResolvedGrant k (ng_tenant_id g) (ng_subject g) (ng_patterns g)
                       (canonicalize (ng_selector g)) (ng_description g)).
Proof.
  unfold insert_grant. intros Hi Hps. inv_ok. destruct a.
  destruct (split_subject (ng_subject g)) as [st si] eqn:Es. inv_ok.
  apply query_ok in Ha0 as [-> _].
  destruct (Nat.leb_spec MAX_GRANTS_PER_SUBJECT
              (length (subject_rows (ng_subject g) (access_grants db)))); [done|].
  inv_ok. destruct (decide (i ∈ _)); [done|].
  apply query_ok in Hi as [Heq _]. injection Heq as Hdb Hj. split_and!; [done..|].
  eexists. split; [exact Hdb|]. split_and!; [done|done| |by eapply validate_write_ok].
  pose proof (resolve_written i (ng_tenant_id g) (ng_subject g) (ng_patterns g) _
    (ng_description g) now now (ng_created_by g) _ Hps Ha0) as Hr. by rewrite Es in Hr.
Qed.

Lemma find_by_id_some i l r : find_by_id i l = Some r → r ∈ l ∧ id r = i.
Proof. unfold find_by_id. intros [Hin%list_elem_of_In Hb%bool_decide_eq_true]%find_some. done. Qed.

Lemma update_grant_ok db i u now db' :
  update_grant db i u now = Ok db' → Forall parsed (gu_patterns u) →
  ∃ row row', row ∈ access_grants db ∧ id row = i
    ∧ db' = with_grants ((λ r, if decide (id r = i) then row' else r) <$> access_grants db) db
    ∧ id row' = i ∧ subject_type row' = subject_type row ∧ subject_id row' = subject_id row
    ∧ canonicalize (gu_selector u) = All
    ∧ resolve_row row' = Ok (mkResolvedGrant i (Grants.tenant_id row) (subject_from_row row)
                               (gu_patterns u) All (gu_description u))
    ∧ ∀ k, grant_ok (mkResolvedGrant k (Grants.tenant_id row) (subject_from_row row)
                       (gu_patterns u) All (gu_description u)).
Proof.
  unfold update_grant. intros Hu Hps. inv_ok. apply query_ok in Ha as [-> _].
  destruct (find_by_id i (access_grants db)) as [row|] eqn:Ef; [|done]. inv_ok.
  apply find_by_id_some in Ef as [Hin <-]. destruct a.
  pose proof (validate_write_ok _ _ _ _ _ _ Ha Hps) as Hok.
  assert (canonicalize (gu_selector u) = All) as Hall by (apply (Hok 0%N)).
  rewrite Hall in *. apply query_ok in Hu as [-> _]. exists row. eexists.
  split_and!; [done|done|reflexivity|done..| |done].
  pose proof (resolve_written (id row) (Grants.tenant_id row) (subject_from_row row)
    (gu_patterns u) _ (gu_description u) (created_at row) now (created_by row) _ Hps Ha0) as Hr.
  replace (split_subject (subject_from_row row)) with (subject_type row, subject_id row) in Hr
    by (unfold subject_from_row; by destruct (subject_type row)).
  exact Hr.
Qed.

(** ** The table invariant *)

(** Every readable row is a valid grant (corrupt rows are allowed: the reads skip
    them). *)
Definition table_ok (db : Db) : Prop :=
  NoDup (id <$> access_grants db)
  ∧ ∀ r g, r ∈ access_grants db → resolve_row r = Ok g → grant_ok g.

(** No row is corrupt, and no subject exceeds its quota. *)
Definition table_clean (db : Db) : Prop :=
  (∀ r, r ∈ access_grants db → ∃ g, resolve_row r = Ok g)
  ∧ ∀ s, length (subject_rows s (access_grants db)) ≤ MAX_GRANTS_PER_SUBJECT.

(** One write through the module. *)
Inductive grant_write : Db → Db → Prop :=
| w_insert db g i now db' j :
    Forall parsed (ng_patterns g) → insert_grant db g i now = Ok (db', j) → grant_write db db'
| w_update db i u now db' :
    Forall parsed (gu_patterns u) → update_grant db i u now = Ok db' → grant_write db db'
| w_delete db i db' : delete_grant db i = Ok db' → grant_write db db'
| w_delete_role db role db' n :
    delete_grants_for_role db role = Ok (db', n) → grant_write db db'.

Lemma delete_grant_ok db i db' :
  delete_grant db i = Ok db' →
  db' = with_grants (filter (λ r, id r ≠ i) (access_grants db)) db.
Proof.
  unfold delete_grant. intros Hd. inv_ok. destruct (a =? 0); [done|]. by inv_ok.
Qed.

Lemma delete_role_grants_ok db role db' n :
  delete_grants_for_role db role = Ok (db', n) →
  db' = with_grants (filter (λ r, ¬ (subject_type r = SubjectRole ∧ subject_id r = role))
                       (access_grants db)) db.
Proof. unfold delete_grants_for_role. by intros [[= -> _] _]%query_ok. Qed.

Lemma filter_fmap_NoDup {A} (P : A → Prop) `{!∀ x, Decision (P x)} (f : A → Uuid) l :
  NoDup (f <$> l) → NoDup (f <$> filter P l).
Proof.
  induction l as [|x l IH]; [done|]. rewrite fmap_cons, list.NoDup_cons. intros [Hx Hl].
  rewrite filter_cons. destruct (decide (P x)); [|by apply IH].
  rewrite fmap_cons, list.NoDup_cons. split; [|by apply IH].
  intros (y & Heq & [_ Hy]%list_elem_of_filter)%list_elem_of_fmap.
  apply Hx, list_elem_of_fmap. eauto.
Qed.

(** Keeping a sublist of the rows keeps the invariant. *)
Lemma table_ok_filter db (P : Model → Prop) `{!∀ x, Decision (P x)} :
  table_ok db → table_ok (with_grants (filter P (access_grants db)) db).
Proof.
  intros [Hnd Hok]. split; simpl.
  - by apply filter_fmap_NoDup.
  - intros r g [_ Hr]%list_elem_of_filter. by apply Hok.
Qed.

Lemma update_ids i row' (l : list Model) :
  id row' = i → id <$> ((λ r, if decide (id r = i) then row' else r) <$> l) = id <$> l.
Proof.
  intros Hi. rewrite <-list_fmap_compose. apply list_fmap_ext. intros _ r _. simpl.
  destruct (decide (id r = i)); congruence.
Qed.

Lemma grant_write_table_ok db db' : grant_write db db' → table_ok db → table_ok db'.
Proof.
  intros Hw Htok. pose proof Htok as [Hnd Hok]. destruct Hw as
    [db g i now db' j Hps Hi|db i u now db' Hps Hu|db i db' Hd|db role db' n Hd].
  - destruct (insert_grant_ok _ _ _ _ _ _ Hi Hps) as (-> & Hfresh & _ & row & -> & <- & _ & Hr & Hg).
    split; simpl.
    + rewrite fmap_app. apply list.NoDup_app. split_and!; [done| |by apply NoDup_singleton].
      intros x Hx ->%list_elem_of_singleton. done.
    + intros r g' [Hin|Hin]%elem_of_app; [by apply Hok|].
      apply list_elem_of_singleton in Hin as ->. rewrite Hr. intros ?; inv_ok. apply Hg.
  - destruct (update_grant_ok _ _ _ _ _ Hu Hps) as (row & row' & Hin & _ & -> & Hid & _ & _ & _ & Hr & Hg).
    split; simpl; [by rewrite update_ids|].
    intros r g' (r0 & -> & Hr0)%list_elem_of_fmap.
    destruct (decide (id r0 = i)); [|by apply Hok].
    rewrite Hr. intros ?; inv_ok. apply Hg.
  - rewrite (delete_grant_ok _ _ _ Hd). by apply table_ok_filter.
  - rewrite (delete_role_grants_ok _ _ _ _ Hd). by apply table_ok_filter.
Qed.

Lemma subject_rows_filter s P `{!∀ x : Model, Decision (P x)} l :
  length (subject_rows s (filter P l)) ≤ length (subject_rows s l).
Proof.
  unfold subject_rows. induction l as [|x l IH]; [done|]. rewrite !filter_cons.
  destruct (decide (P x)); rewrite ?filter_cons; repeat case_decide; simpl; lia.
Qed.

Lemma subject_rows_update s i row' l :
  (∀ r, r ∈ l → id r = i →
        subject_type row' = subject_type r ∧ subject_id row' = subject_id r) →
  length (subject_rows s ((λ r, if decide (id r = i) then row' else r) <$> l))
  = length (subject_rows s l).
Proof.
  unfold subject_rows. induction l as [|x l IH]; intros Hl; [done|].
  rewrite fmap_cons, !filter_cons.
  assert ((subject_type (if decide (id x = i) then row' else x),
           subject_id (if decide (id x = i) then row' else x)) = (subject_type x, subject_id x))
    as ->.
  { destruct (decide (id x = i)) as [Hx|]; [|done].
    destruct (Hl x (list_elem_of_here _ _) Hx). congruence. }
  specialize (IH (λ r Hr, Hl r (list_elem_of_further _ _ _ Hr))).
  case_decide; simpl; by rewrite IH.
Qed.

Lemma NoDup_id_unique (l : list Model) r1 r2 :
  NoDup (id <$> l) → r1 ∈ l → r2 ∈ l → id r1 = id r2 → r1 = r2.
Proof.
  intros Hnd (k1 & H1)%list_elem_of_lookup (k2 & H2)%list_elem_of_lookup Hid.
  assert (k1 = k2) as ->; [|congruence].
  apply (NoDup_lookup (id <$> l) k1 k2 (id r1)); [done|..]; rewrite list_lookup_fmap, ?H1, ?H2; simpl;
    congruence.
Qed.

Lemma grant_write_clean db db' :
  grant_write db db' → table_ok db → table_clean db → table_clean db'.
Proof.
  intros Hw [Hnd _] [Hc Hn]. destruct Hw as
    [db g i now db' j Hps Hi|db i u now db' Hps Hu|db i db' Hd|db role db' n Hd].
  - destruct (insert_grant_ok _ _ _ _ _ _ Hi Hps) as (-> & _ & Hlt & row & -> & <- & Hs & Hr & _).
    split; simpl.
    + intros r [Hin|Hin]%elem_of_app; [by apply Hc|].
      apply list_elem_of_singleton in Hin as ->. eauto.
    + intros s. unfold subject_rows. rewrite filter_app, length_app, filter_cons, filter_nil.
      specialize (Hn s). unfold subject_rows in Hn, Hlt. case_decide as Hcs; simpl; [|lia].
      assert (s = ng_subject g) as ->; [|lia].
      rewrite Hs in Hcs. destruct s, (ng_subject g); simpl in Hcs; congruence.
  - destruct (update_grant_ok _ _ _ _ _ Hu Hps)
      as (row & row' & Hin & Hi & -> & _ & Hst & Hsi & _ & Hr & _).
    split; simpl.
    + intros r (r0 & -> & Hr0)%list_elem_of_fmap. destruct (decide (id r0 = i)); eauto.
    + intros s. rewrite subject_rows_update; [apply Hn|].
      intros r Hr' Hid. rewrite (NoDup_id_unique _ r row Hnd Hr' Hin); [done|congruence].
  - rewrite (delete_grant_ok _ _ _ Hd). split; simpl.
    + intros r [_ ?]%list_elem_of_filter. by apply Hc.
    + intros s. etrans; [apply subject_rows_filter|apply Hn].
  - rewrite (delete_role_grants_ok _ _ _ _ Hd). split; simpl.
    + intros r [_ ?]%list_elem_of_filter. by apply Hc.
    + intros s. etrans; [apply subject_rows_filter|apply Hn].
Qed.

(** A table built from an empty one by the module's writes. *)
Definition grants_reachable (db : Db) : Prop :=
  ∃ db0, access_grants db0 = [] ∧ rtc grant_write db0 db.

Lemma reachable_table db : grants_reachable db → table_ok db ∧ table_clean db.
Proof.
  intros (db0 & He & Hr).
  assert (table_ok db0 ∧ table_clean db0) as H0.
  { unfold table_ok, table_clean. rewrite He. split_and!.
    - constructor.
    - intros r g []%elem_of_nil.
    - intros r []%elem_of_nil.
    - intros s. unfold subject_rows. simpl. lia. }
  clear He. induction Hr as [db|db1 db2 db3 Hw _ IH]; [done|]. destruct H0 as [H1 H2].
  apply IH. split; [by eapply grant_write_table_ok|by eapply grant_write_clean].
Qed.

(** ** What a principal's resolved authority contains *)

Definition assigned (db : Db) (tenant user role : Uuid) : Prop :=
  mkAssignment tenant user role ∈ user_roles db.

Lemma load_role_ids_ok db tenant user ids role :
  load_role_ids db tenant user = Ok ids → role ∈ ids ↔ assigned db tenant user role.
Proof.
  unfold load_role_ids, assigned. destruct (db_fail db TUserRoles); [done|].
  intros ?; inv_ok. rewrite list_elem_of_fmap. setoid_rewrite list_elem_of_filter. split.
  - intros ([t u r] & -> & [Ht Hu] & Hin). simpl in *. by subst.
  - intros Hin. by exists (mkAssignment tenant user role).
Qed.

Lemma principal_condition_spec tenant user ids r :
  principal_condition tenant user ids r = true ↔
  (subject_from_row r = User user ∧ (Grants.tenant_id r = Some tenant ∨ Grants.tenant_id r = None))
  ∨ (∃ role, subject_from_row r = Role role ∧ role ∈ ids).
Proof.
  unfold principal_condition, subject_from_row.
  rewrite orb_true_iff, !andb_true_iff, orb_true_iff, !bool_decide_eq_true.
  destruct (subject_type r); naive_solver.
Qed.

(** The authority of a principal: the grants given to the user in this tenant or
    globally, and those of the roles assigned in this tenant. *)
Lemma load_authority_spec db now tenant user auth :
  load_authority db now tenant user = Ok auth →
  loaded_at auth = now ∧
  ∀ g, g ∈ auth_grants auth ↔
    (∃ r, r ∈ access_grants db ∧ resolve_row r = Ok g) ∧
    ((rg_subject g = User user ∧ (rg_tenant_id g = Some tenant ∨ rg_tenant_id g = None))
     ∨ ∃ role, rg_subject g = Role role ∧ assigned db tenant user role).
Proof.
  unfold load_authority. intros Hl. inv_ok. split; [done|]. intros g. simpl.
  unfold load_principal_grants, load_grants_for_principal in Ha0.
  destruct (query db TGrants _) as [rows|] eqn:Eq; simpl in Ha0; inv_ok.
  apply query_ok in Eq as [-> _]. rewrite elem_of_resolved.
  setoid_rewrite list_elem_of_filter. setoid_rewrite Is_true_true.
  setoid_rewrite principal_condition_spec.
  assert (∀ r, resolve_row r = Ok g →
    rg_subject g = subject_from_row r ∧ rg_tenant_id g = Grants.tenant_id r) as Hf
    by (intros r Hr; by destruct (resolve_row_fields r g Hr) as (_ & -> & -> & _)).
  setoid_rewrite <-(λ role, load_role_ids_ok db tenant user a role Ha).
  split.
  - intros (r & [Hc Hin] & Hr). destruct (Hf r Hr) as [-> ->]. split; [by exists r|done].
  - intros ((r & Hin & Hr) & Hc). destruct (Hf r Hr) as [Hs Ht]. rewrite Hs, Ht in Hc.
    by exists r.
Qed.

Lemma load_authority_total db now tenant user :
  db_fail db TUserRoles = None → db_fail db TGrants = None →
  ∃ auth, load_authority db now tenant user = Ok auth.
Proof.
  intros H1 H2. unfold load_authority, load_role_ids, load_principal_grants,
    load_grants_for_principal, query. rewrite H1. simpl. rewrite H2. simpl. by eexists.
Qed.

Lemma any_matches_spec ps a :
  any_matches ps a = true ↔ ∃ p, p ∈ ps ∧ Pattern.matches p a = true.
Proof.
  unfold any_matches. rewrite existsb_exists. by setoid_rewrite list_elem_of_In.
Qed.

(** A user-subject grant without a tenant is on the system plane; one with a
    tenant is not. *)
Lemma user_grant_plane g user a :
  grant_ok g → rg_subject g = User user → grant_matches a g = true →
  Resource.is_system (Action.resource a) = bool_decide (rg_tenant_id g = None).
Proof.
  intros (_ & _ & (pl & Hpl & He) & _) Hs (p & Hp & Hm)%any_matches_spec.
  rewrite (Hpl p a Hp Hm). apply bool_decide_ext. rewrite He, Hs. naive_solver.
Qed.

(** ** The decision rule *)

Definition registered (e : AccessEngine) (a : Action.Action) : Prop :=
  is_dynamic_action a = true → ∃ r, registry e = Some r ∧ is_registered r a = true.

Definition granted (ctx : AccessContext) (a : Action.Action) (g : ResolvedGrant) : Prop :=
  g ∈ auth_grants (authority ctx) ∧ grant_matches a g = true.

Definition in_scope (ctx : AccessContext) (a : Action.Action) : Prop :=
  ∀ s, scope ctx = Some s → ∃ p, p ∈ s ∧ Pattern.matches p a = true.

Definition target_covered (ctx : AccessContext) (a : Action.Action)
    (target : option (TargetRef * gset Uuid)) : Prop :=
  ∀ t tags, target = Some (t, tags) → ∃ g, granted ctx a g ∧ covers (rg_selector g) t tags = true.

Lemma registered_dec e a :
  (is_dynamic_action a && negb (match registry e with
     Some r => is_registered r a | None => false end)) = false ↔ registered e a.
Proof.
  unfold registered. destruct (is_dynamic_action a), (registry e) as [r|]; simpl;
    rewrite ?negb_false_iff; naive_solver.
Qed.

Lemma scope_dec (ctx : AccessContext) a :
  match scope ctx with Some s => negb (any_matches s a) | None => false end = false
  ↔ in_scope ctx a.
Proof.
  unfold in_scope. destruct (scope ctx) as [s|]; [|naive_solver].
  rewrite negb_false_iff, any_matches_spec. naive_solver.
Qed.

Lemma granted_filter ctx a g :
  g ∈ filter (λ g, Is_true (grant_matches a g)) (auth_grants (authority ctx)) ↔ granted ctx a g.
Proof. unfold granted. rewrite list_elem_of_filter, Is_true_true. tauto. Qed.

Lemma target_dec ctx a target :
  match target with
  | Some (t, tags) => negb (existsb (λ g, covers (rg_selector g) t tags)
      (filter (λ g, Is_true (grant_matches a g)) (auth_grants (authority ctx))))
  | None => false
  end = false ↔ target_covered ctx a target.
Proof.
  unfold target_covered. destruct target as [[t tags]|]; [|naive_solver].
  rewrite negb_false_iff, existsb_exists. setoid_rewrite <-list_elem_of_In.
  setoid_rewrite granted_filter. naive_solver.
Qed.

Lemma decide_cases e ctx a target :
  match decide_action e ctx a target with
  | Deny UnknownAction => ¬ registered e a
  | Deny NoGrant => registered e a ∧ ¬ ∃ g, granted ctx a g
  | Deny OutOfScope => registered e a ∧ (∃ g, granted ctx a g) ∧ ¬ in_scope ctx a
  | Deny OutsideSelector => registered e a ∧ (∃ g, granted ctx a g) ∧ in_scope ctx a
                            ∧ ¬ target_covered ctx a target
  | Allow => registered e a ∧ (∃ g, granted ctx a g) ∧ in_scope ctx a
             ∧ target_covered ctx a target
  end.
Proof.
  unfold decide_action. pose proof (registered_dec e a) as HR.
  pose proof (scope_dec ctx a) as HS. pose proof (target_dec ctx a target) as HT.
  pose proof (granted_filter ctx a) as HG. simpl in HR, HS, HT.
  destruct (is_dynamic_action a && _).
  { intros Hr. by apply HR in Hr. }
  destruct (filter _ _) as [|g gs].
  { split; [by apply HR|]. intros [g Hg%HG]. by apply elem_of_nil in Hg. }
  assert (∃ g, granted ctx a g) as Hg by (exists g; apply HG; left).
  destruct (match scope ctx with Some s => _ | None => _ end).
  { split_and!; [by apply HR|done|]. by intros Hs%HS. }
  destruct (match target with Some _ => _ | None => _ end).
  { split_and!; [by apply HR|done|by apply HS|]. by intros Ht%HT. }
  split_and!; [by apply HR|done|by apply HS|by apply HT].
Qed.

Lemma is_dynamic_action_spec a :
  action_wf a → is_dynamic_action a = is_dynamic (Action.resource a).
Proof.
  intros [Hr _]. unfold is_dynamic_action.
  destruct (Action.resource a); simpl in *; try reflexivity;
    destruct Hr as (t & -> & _); reflexivity.
Qed.

Lemma action_le_total (x y : Action.Action) : action_le x y ∨ action_le y x.
Proof.
  unfold action_le, str_leb. rewrite !Is_true_true. apply String.leb_total.
Qed.

(** ** Covering holders *)

(** Who a selector-[All] grant matching [a] authorizes in [tenant], read off a
    snapshot. *)
Definition holds_via (s : Snapshot) (a : Action.Action) (g : ResolvedGrant) (tenant user : Uuid) :
    Prop :=
  rg_selector g = All ∧ grant_matches a g = true ∧ user ∈ sn_active_users s ∧
  ((rg_subject g = User user ∧ rg_tenant_id g = Some tenant)
   ∨ ∃ role, rg_subject g = Role role ∧ mkAssignment tenant user role ∈ sn_assignments s).

Definition holds_globally_via (s : Snapshot) (a : Action.Action) (g : ResolvedGrant)
    (user : Uuid) : Prop :=
  rg_selector g = All ∧ grant_matches a g = true ∧ user ∈ sn_active_users s ∧
  (rg_subject g = User user
   ∨ ∃ role tenant, rg_subject g = Role role ∧ mkAssignment tenant user role ∈ sn_assignments s).

Lemma role_holder_loop ct cs (active : gset Uuid) acc (l : list Assignment) :
  let acc' := foldl (role_holder_step ct cs active) acc l in
  (∀ (t u : Uuid), u ∈ get_set t acc'.1 ↔ u ∈ get_set t acc.1 ∨
     (ct = true ∧ u ∈ active ∧ ∃ a, a ∈ l ∧ as_tenant_id a = t ∧ as_user_id a = u))
  ∧ (∀ u : Uuid, u ∈ acc'.2 ↔ u ∈ acc.2 ∨
     (cs = true ∧ u ∈ active ∧ ∃ a, a ∈ l ∧ as_user_id a = u)).
Proof.
  cbv zeta. induction l as [|a l IH] using rev_ind.
  - simpl. split.
    + intros t u. split; [by left|]. intros [?|(_ & _ & ? & []%elem_of_nil & _)]; done.
    + intros u. split; [by left|]. intros [?|(_ & _ & ? & []%elem_of_nil & _)]; done.
  - rewrite foldl_snoc. destruct IH as [IH1 IH2].
    set (acc' := foldl (role_holder_step ct cs active) acc l) in *.
    split; [intros t u|intros u]; rewrite exists_snoc; unfold role_holder_step;
      case_bool_decide as Hact; simpl.
    + destruct ct; [rewrite get_entry_insert|rewrite IH1; naive_solver].
      destruct (decide (t = as_tenant_id a)) as [-> |Hne].
      * rewrite elem_of_union, elem_of_singleton, IH1. naive_solver.
      * rewrite IH1. naive_solver.
    + rewrite IH1. naive_solver.
    + destruct cs; [rewrite elem_of_union, elem_of_singleton|]; rewrite IH2; naive_solver.
    + rewrite IH2. naive_solver.
Qed.

Lemma holds_via_user s a g (t u usr : Uuid) :
  rg_selector g = All → rg_subject g = User usr →
  holds_via s a g t u ↔
  grant_matches a g = true ∧ u = usr ∧ usr ∈ sn_active_users s ∧ rg_tenant_id g = Some t.
Proof. unfold holds_via. intros -> ->. naive_solver. Qed.

Lemma holds_globally_via_user s a g (u usr : Uuid) :
  rg_selector g = All → rg_subject g = User usr →
  holds_globally_via s a g u ↔
  grant_matches a g = true ∧ u = usr ∧ usr ∈ sn_active_users s.
Proof. unfold holds_globally_via. intros -> ->. naive_solver. Qed.

Lemma elem_of_role_assignments (a : Assignment) role (l : list Assignment) :
  a ∈ filter (λ b, as_role_id b = role) l ↔ as_role_id a = role ∧ a ∈ l.
Proof. by rewrite list_elem_of_filter. Qed.

Lemma holds_via_role s a g (t u role : Uuid) :
  rg_selector g = All → rg_subject g = Role role →
  holds_via s a g t u ↔
  grant_matches a g = true ∧ u ∈ sn_active_users s ∧
  ∃ b, b ∈ filter (λ b, as_role_id b = role) (sn_assignments s)
       ∧ as_tenant_id b = t ∧ as_user_id b = u.
Proof.
  unfold holds_via. intros -> ->. setoid_rewrite elem_of_role_assignments. split.
  - intros (_ & ? & ? & [[? _]|(? & [= <-] & ?)]); [done|]. split_and!; [done..|].
    by exists (mkAssignment t u role).
  - intros (? & ? & [t' u' r'] & [Hr Hin] & Ht & Hu); simpl in *; subst. eauto 10.
Qed.

Lemma holds_globally_via_role s a g (u role : Uuid) :
  rg_selector g = All → rg_subject g = Role role →
  holds_globally_via s a g u ↔
  grant_matches a g = true ∧ u ∈ sn_active_users s ∧
  ∃ b, b ∈ filter (λ b, as_role_id b = role) (sn_assignments s) ∧ as_user_id b = u.
Proof.
  unfold holds_globally_via. intros -> ->. setoid_rewrite elem_of_role_assignments. split.
  - intros (_ & ? & ? & [?|(? & t & [= <-] & ?)]); [done|]. split_and!; [done..|].
    by exists (mkAssignment t u role).
  - intros (? & ? & [t' u' r'] & [Hr Hin] & Hu); simpl in *; subst. eauto 10.
Qed.

Lemma covering_step_spec s acc g :
  let acc' := covering_step (sn_assignments s) (sn_active_users s) acc g in
  (∀ t u : Uuid, u ∈ get_set t acc'.1 ↔
     u ∈ get_set t acc.1 ∨ holds_via s ACCESS_MANAGE g t u)
  ∧ (∀ u : Uuid, u ∈ acc'.2 ↔
     u ∈ acc.2 ∨ holds_globally_via s SYSTEM_ACCESS_MANAGE g u).
Proof.
  cbv zeta. unfold covering_step.
  destruct (decide (rg_selector g ≠ All)) as [Hs|Hs%dec_stable].
  { unfold holds_via, holds_globally_via. split; tauto. }
  destruct (negb _ && negb _) eqn:Ec.
  { apply andb_true_iff in Ec as [E1%negb_true_iff E2%negb_true_iff].
    unfold holds_via, holds_globally_via, grant_matches. rewrite E1, E2.
    split; [intros t u|intros u]; (split; [tauto|]); intros [?|(_ & ? & _)]; done. }
  destruct (rg_subject g) as [usr|role] eqn:Esub.
  - split; [intros t u; rewrite (holds_via_user s _ g t u usr Hs Esub)
           |intros u; rewrite (holds_globally_via_user s _ g u usr Hs Esub)];
      unfold grant_matches; case_bool_decide as Hact; simpl; [|tauto| |tauto].
    + destruct (any_matches _ ACCESS_MANAGE); [|naive_solver].
      destruct (rg_tenant_id g) as [t'|]; [|naive_solver].
      rewrite get_entry_insert. destruct (decide (t = t')) as [-> |]; [|naive_solver].
      rewrite elem_of_union, elem_of_singleton. naive_solver.
    + destruct (any_matches _ SYSTEM_ACCESS_MANAGE);
        rewrite ?elem_of_union, ?elem_of_singleton; naive_solver.
  - destruct (role_holder_loop (any_matches (rg_patterns g) ACCESS_MANAGE)
      (any_matches (rg_patterns g) SYSTEM_ACCESS_MANAGE) (sn_active_users s) acc
      (filter (λ a, as_role_id a = role) (sn_assignments s))) as [H1 H2].
    split; [intros t u; rewrite H1, (holds_via_role s _ g t u role Hs Esub)
           |intros u; rewrite H2, (holds_globally_via_role s _ g u role Hs Esub)];
      unfold grant_matches; tauto.
Qed.

Lemma holders_spec s :
  (∀ t u : Uuid, u ∈ get_set t (holders s).1 ↔
     ∃ g, g ∈ sn_grants s ∧ holds_via s ACCESS_MANAGE g t u)
  ∧ (∀ u : Uuid, u ∈ (holders s).2 ↔
     ∃ g, g ∈ sn_grants s ∧ holds_globally_via s SYSTEM_ACCESS_MANAGE g u).
Proof.
  unfold holders, covering_holders.
  induction (sn_grants s) as [|g gs IH] using rev_ind.
  - simpl. unfold get_set. setoid_rewrite lookup_empty. simpl.
    split; intros; (split; [set_solver|]); intros (? & []%elem_of_nil & _).
  - rewrite foldl_snoc. destruct IH as [IH1 IH2].
    destruct (covering_step_spec s
      (foldl (covering_step (sn_assignments s) (sn_active_users s)) (∅, ∅) gs) g) as [H1 H2].
    split; intros; rewrite exists_snoc; [by rewrite H1, IH1|by rewrite H2, IH2].
Qed.

(** ** Visibility *)

(** The rows a visibility verdict admits, for a target and the tags of its
    host. *)
Definition visible (v : Visibility) (target : TargetRef) (host_tags : gset Uuid) : Prop :=
  match v with
  | Full => True
  | VNone => False
  | Filter tags hosts software items =>
      (∃ tag, tag ∈ tags ∧ tag ∈ host_tags) ∨ target_host_id target ∈ hosts
      ∨ match target with
        | THost _ => False
        | THostSoftwareItem i _ sw => sw ∈ software ∨ i ∈ items
        end
  end.

Lemma covers_tags ids target tags :
  covers (Tags ids) target tags = true ↔ ∃ tag, tag ∈ ids ∧ tag ∈ tags.
Proof.
  simpl. rewrite existsb_exists. setoid_rewrite bool_decide_eq_true.
  by setoid_rewrite list_elem_of_In.
Qed.

Lemma from_selectors_loop_spec sels any tags hosts software items target ht :
  (match from_selectors_loop sels (any, tags, hosts, software, items) with
   | None => True
   | Some (_, tags', hosts', software', items') =>
       visible (Filter tags' hosts' software' items') target ht
   end) ↔
  visible (Filter tags hosts software items) target ht
  ∨ ∃ sel, sel ∈ sels ∧ covers sel target ht = true.
Proof.
  revert any tags hosts software items.
  induction sels as [|sel sels IH]; intros any tags hosts software items.
  { simpl. split; [tauto|]. intros [?|(? & []%elem_of_nil & _)]. done. }
  assert ((∃ s, s ∈ sel :: sels ∧ covers s target ht = true) ↔
    covers sel target ht = true ∨ ∃ s, s ∈ sels ∧ covers s target ht = true) as ->.
  { setoid_rewrite elem_of_cons. naive_solver. }
  destruct sel as [|ids|ids|ids|ids]; cbn [from_selectors_loop].
  - simpl. tauto.
  - rewrite IH, covers_tags. simpl. setoid_rewrite elem_of_union.
    setoid_rewrite elem_of_list_to_set. clear IH. naive_solver.
  - rewrite IH. simpl. rewrite elem_of_union, elem_of_list_to_set, bool_decide_eq_true. tauto.
  - rewrite IH. simpl. destruct target; simpl;
      rewrite ?elem_of_union, ?elem_of_list_to_set, ?bool_decide_eq_true; intuition congruence.
  - rewrite IH. simpl. destruct target; simpl;
      rewrite ?elem_of_union, ?elem_of_list_to_set, ?bool_decide_eq_true; intuition congruence.
Qed.

Lemma from_selectors_any sels any tags hosts software items r :
  from_selectors_loop sels (any, tags, hosts, software, items) = Some r →
  r.1.1.1.1 = any ∧ sels = [] ∨ r.1.1.1.1 = true ∧ sels ≠ [].
Proof.
  revert any tags hosts software items.
  induction sels as [|sel sels IH]; intros any tags hosts software items; simpl.
  - intros [= <-]. by left.
  - intros Hr. right. split; [|done].
    destruct sel; try done; apply IH in Hr as [[-> _]|[-> _]]; done.
Qed.

(** The union of selectors admits exactly the targets some selector covers. *)
Lemma from_selectors_visible sels target ht :
  visible (from_selectors sels) target ht ↔ ∃ sel, sel ∈ sels ∧ covers sel target ht = true.
Proof.
  pose proof (from_selectors_loop_spec sels false ∅ ∅ ∅ ∅ target ht) as Hl.
  unfold from_selectors. destruct (from_selectors_loop _ _) as [[[[[any t] h] s] i]|] eqn:E.
  - apply from_selectors_any in E as [[Ha ->]|[Ha _]]; simpl in Ha; subst any.
    + simpl. split; [done|]. intros (? & []%elem_of_nil & _).
    + rewrite Hl. simpl. split; [|tauto].
      intros [[(? & ?%elem_of_empty & _)|[?%elem_of_empty|Ht]]|?]; [done..| |done].
      destruct target; [done|]. by destruct Ht as [?%elem_of_empty|?%elem_of_empty].
  - destruct Hl as [Hl _]. destruct (Hl I) as [Hv|?]; [|done]. simpl in Hv |- *.
    destruct Hv as [(? & ?%elem_of_empty & _)|[?%elem_of_empty|Ht]]; [done..|].
    destruct target; [done|]. by destruct Ht as [?%elem_of_empty|?%elem_of_empty].
Qed.

Lemma from_selectors_full sels : from_selectors sels = Full ↔ All ∈ sels.
Proof.
  unfold from_selectors.
  assert (∀ acc, from_selectors_loop sels acc = None ↔ All ∈ sels) as Hn.
  { induction sels as [|sel sels IH]; intros [[[[any t] h] s] i]; simpl.
    - split; [done|]. by intros []%elem_of_nil.
    - rewrite elem_of_cons. destruct sel; rewrite ?IH; naive_solver. }
  specialize (Hn (false, ∅, ∅, ∅, ∅)).
  destruct (from_selectors_loop _ _) as [[[[[any t] h] s] i]|]; [|tauto].
  split; [by destruct any|]. by intros ?%Hn.
Qed.

Lemma visibility_visible ctx a target ht :
  visible (visibility ctx a) target ht ↔
  in_scope ctx a ∧ ∃ g, granted ctx a g ∧ covers (rg_selector g) target ht = true.
Proof.
  unfold visibility. pose proof (scope_dec ctx a) as HS. simpl in HS.
  destruct (match scope ctx with Some s => _ | None => _ end).
  { simpl. split; [done|]. by intros [?%HS _]. }
  rewrite from_selectors_visible. setoid_rewrite list_elem_of_fmap.
  setoid_rewrite granted_filter. destruct HS as [HS _]. specialize (HS eq_refl). naive_solver.
Qed.

Lemma visibility_full ctx a :
  visibility ctx a = Full ↔ in_scope ctx a ∧ ∃ g, granted ctx a g ∧ rg_selector g = All.
Proof.
  unfold visibility. pose proof (scope_dec ctx a) as HS. simpl in HS.
  destruct (match scope ctx with Some s => _ | None => _ end).
  { split; [done|]. by intros [?%HS _]. }
  rewrite from_selectors_full, list_elem_of_fmap. setoid_rewrite granted_filter.
  destruct HS as [HS _]. specialize (HS eq_refl). naive_solver.
Qed.
End GrantLemmas.
