(* ===== verification/Lockout.v ===== *)
(** The lockout guard against the engine's decisions: when [check_lockout]
    permits a mutation and the mutation is committed, every plane that had an
    administrator still has one; when it refuses, the mutation would have removed
    the last one. *)

From stdpp Require Import base list gmap sets strings numbers sorting.
From S2P Require Import Prelude RustStr AccessVocab AccessTheorems AccessGrants.
From S2P Require Import AccessEngine GrantLemmas AccessDecisions.

Import Grants Engine.

Section Lockout.
Context `{SerdeSelector}.

(** The engine, resolving [user] in [tenant] from this database, sees [a] as
    granted without restriction. *)
Definition manages (db : Db) (tenant user : Uuid) (a : Action.Action) : Prop :=
  ∃ auth, load_authority db 0 tenant user = Ok auth
          ∧ visibility (mkContext user tenant auth None) a = Full.

Definition no_faults (db : Db) : Prop :=
  db_fail db TGrants = None ∧ db_fail db TUserRoles = None.

Lemma manages_spec db tenant user a :
  no_faults db →
  manages db tenant user a ↔
  ∃ r g, r ∈ access_grants db ∧ resolve_row r = Ok g ∧ rg_selector g = All
    ∧ grant_matches a g = true
    ∧ ((rg_subject g = User user ∧ (rg_tenant_id g = Some tenant ∨ rg_tenant_id g = None))
       ∨ ∃ role, rg_subject g = Role role ∧ assigned db tenant user role).
Proof.
  intros [H1 H2]. unfold manages. split.
  - intros (auth & [_ Hl]%load_authority_spec & (_ & g & [Hg Hm] & Hs)%visibility_full).
    simpl in Hg. apply Hl in Hg as [(r & Hr & Hres) Hc]. exists r, g. by split_and!.
  - intros (r & g & Hr & Hres & Hs & Hm & Hc).
    destruct (load_authority_total db 0 tenant user) as [auth Ha]; [done..|].
    exists auth. split; [done|]. apply load_authority_spec in Ha as [_ Hl].
    apply visibility_full. split; [by intros s|]. exists g. split; [|done]. split; [|done].
    simpl. apply Hl. split; [by exists r|done].
Qed.

Lemma elem_of_snapshot_grants db g :
  g ∈ sn_grants (snapshot db) ↔ ∃ r, r ∈ access_grants db ∧ resolve_row r = Ok g.
Proof. apply elem_of_resolved. Qed.

(** The guard's tenant holders are the active users the engine lets manage access
    in the tenant. *)
Lemma tenant_holders_manage db t u :
  table_ok db → no_faults db →
  u ∈ get_set t (holders (snapshot db)).1 ↔
  u ∈ active_users db ∧ manages db t u ACCESS_MANAGE.
Proof.
  intros [_ Hok] Hf. rewrite (proj1 (holders_spec _)), (manages_spec _ _ _ _ Hf).
  setoid_rewrite elem_of_snapshot_grants. unfold holds_via, assigned. simpl. split.
  - intros (g & (r & Hr & Hres) & Hs & Hm & Hact & Hc). split; [done|].
    exists r, g. split_and!; [done..|]. destruct Hc as [[? ?]|?]; [left|by right]. auto.
  - intros (Hact & r & g & Hr & Hres & Hs & Hm & Hc). exists g. split; [by exists r|].
    split_and!; [done..|]. destruct Hc as [[Hu [Ht|Ht]]|?]; [by left| |by right].
    exfalso. pose proof (user_grant_plane g u ACCESS_MANAGE (Hok r g Hr Hres) Hu Hm) as Hp.
    rewrite Ht in Hp. by vm_compute in Hp.
Qed.

Lemma system_holders_manage db u :
  table_ok db → no_faults db →
  u ∈ (holders (snapshot db)).2 ↔
  u ∈ active_users db ∧ ∃ t, manages db t u SYSTEM_ACCESS_MANAGE.
Proof.
  intros [_ Hok] Hf. rewrite (proj2 (holders_spec _)).
  setoid_rewrite (λ t, manages_spec db t u SYSTEM_ACCESS_MANAGE Hf).
  setoid_rewrite elem_of_snapshot_grants. unfold holds_globally_via, assigned. simpl. split.
  - intros (g & (r & Hr & Hres) & Hs & Hm & Hact & Hc). split; [done|].
    destruct Hc as [Hu|(role & t & Hrole & Hin)].
    + exists 0%N, r, g. split_and!; [done..|]. left. split; [done|]. right.
      pose proof (user_grant_plane g u SYSTEM_ACCESS_MANAGE (Hok r g Hr Hres) Hu Hm) as Hp.
      change (true = bool_decide (rg_tenant_id g = None)) in Hp.
      by apply eq_sym, bool_decide_eq_true in Hp.
    + exists t, r, g. split_and!; [done..|]. right. by exists role.
  - intros (Hact & t & r & g & Hr & Hres & Hs & Hm & Hc). exists g. split; [by exists r|].
    split_and!; [done..|]. destruct Hc as [[Hu _]|(role & Hrole & Hin)]; [by left|].
    right. by exists role, t.
Qed.

(** ** Committing a guarded mutation *)

(** What the callers of the guard write once it has permitted the mutation. *)
Inductive commits : Db → GuardedMutation → Db → Prop :=
| commit_delete db i db' :
    delete_grant db i = Ok db' → commits db (DeleteGrant i) db'
| commit_update db i ps sel desc now db' :
    Forall parsed ps → update_grant db i (mkGrantUpdate ps sel desc) now = Ok db' →
    commits db (UpdateGrant i ps sel) db'
| commit_delete_role db tenant role db1 db' n :
    delete_role_rows db tenant role = Ok db1 →
    delete_grants_for_role db1 role = Ok (db', n) →
    commits db (DeleteRole role) db'
| commit_set_roles db tenant user new_roles db' :
    replace_user_roles db tenant user new_roles = Ok db' →
    commits db (SetUserRoles tenant user new_roles) db'
| commit_deactivate db user db' :
    update_user_active_in_tx db user false = Ok (Some db') →
    commits db (DeactivateUser user) db'.

(** [s'] confers at least what [s] confers. *)
Definition snapshot_le (s s' : Snapshot) : Prop :=
  (∀ g, g ∈ sn_grants s → ∃ g', g' ∈ sn_grants s' ∧ rg_subject g' = rg_subject g
     ∧ rg_tenant_id g' = rg_tenant_id g ∧ rg_patterns g' = rg_patterns g
     ∧ rg_selector g' = rg_selector g)
  ∧ (∀ a, a ∈ sn_assignments s → a ∈ sn_assignments s')
  ∧ (∀ u, u ∈ sn_active_users s → u ∈ sn_active_users s').

Lemma holders_mono s s' :
  snapshot_le s s' →
  (∀ t u : Uuid, u ∈ get_set t (holders s).1 → u ∈ get_set t (holders s').1)
  ∧ (∀ u, u ∈ (holders s).2 → u ∈ (holders s').2).
Proof.
  intros (Hg & Ha & Hu). split.
  - intros t u. rewrite !(proj1 (holders_spec _)).
    intros (g & Hin & Hs & Hm & Hact & Hc). destruct (Hg g Hin) as (g' & Hin' & E1 & E2 & E3 & E4).
    exists g'. split; [done|]. unfold holds_via, grant_matches in *. rewrite E1, E2, E3, E4.
    split_and!; auto. destruct Hc as [?|(role & ? & ?)]; eauto.
  - intros u. rewrite !(proj2 (holders_spec _)).
    intros (g & Hin & Hs & Hm & Hact & Hc). destruct (Hg g Hin) as (g' & Hin' & E1 & E2 & E3 & E4).
    exists g'. split; [done|]. unfold holds_globally_via, grant_matches in *. rewrite E1, E3, E4.
    split_and!; auto. destruct Hc as [?|(role & t & ? & ?)]; eauto 6.
Qed.

(** Grants that are themselves still in the post-state. *)
Lemma snapshot_le_self s s' :
  (∀ g, g ∈ sn_grants s → g ∈ sn_grants s') →
  (∀ a, a ∈ sn_assignments s → a ∈ sn_assignments s') →
  (∀ u, u ∈ sn_active_users s → u ∈ sn_active_users s') → snapshot_le s s'.
Proof. intros H1 H2 H3. split_and!; [|done..]. intros g Hg. exists g. auto. Qed.

Lemma insert_user_roles_ok t u rs l l' :
  insert_user_roles t u rs l = Ok l' → l' = l ++ (mkAssignment t u <$> rs).
Proof.
  revert l. induction rs as [|r rs IH]; intros l; simpl.
  - intros ?; inv_ok. by rewrite app_nil_r.
  - destruct (decide _); [done|]. intros ->%IH. by rewrite <-app_assoc.
Qed.

Lemma canonicalize_all sel : canonicalize sel = All → sel = All.
Proof. by destruct sel. Qed.

Lemma commit_update_le db i ps sel desc now db' :
  table_ok db → Forall parsed ps → update_grant db i (mkGrantUpdate ps sel desc) now = Ok db' →
  snapshot_le (apply_mutation (UpdateGrant i ps sel) (snapshot db)) (snapshot db').
Proof.
  intros [Hnd _] Hps Hu. destruct (update_grant_ok _ _ _ _ _ Hu Hps)
    as (row & row' & Hin & Hi & -> & Hi' & _ & _ & Hsel & Hr & _). simpl in Hsel.
  apply canonicalize_all in Hsel as ->. split_and!; [|done..].
  intros g. simpl. rewrite list_elem_of_fmap.
  intros (g0 & -> & (r0 & Hr0 & Hres0)%elem_of_resolved).
  destruct (resolve_row_fields _ _ Hres0) as (Hid & Hten & Hsub & _).
  destruct (decide (rg_id g0 = i)) as [Heq|Hne].
  - assert (r0 = row) as -> by (apply (NoDup_id_unique (access_grants db)); [done..|congruence]).
    eexists. split; [apply elem_of_resolved; exists row'; split; [|exact Hr]|].
    + apply list_elem_of_fmap. exists row. by rewrite decide_True.
    + by split_and!.
  - exists g0. split; [|done]. apply elem_of_resolved. exists r0. split; [|done].
    apply list_elem_of_fmap. exists r0. by rewrite decide_False by congruence.
Qed.

Lemma commit_delete_role_le db tenant role db1 db' n :
  delete_role_rows db tenant role = Ok db1 →
  delete_grants_for_role db1 role = Ok (db', n) →
  snapshot_le (apply_mutation (DeleteRole role) (snapshot db)) (snapshot db').
Proof.
  unfold delete_role_rows, get_own_role. intros H1 ->%delete_role_grants_ok. inv_ok.
  destruct (db_fail db TRoles); [done|]. destruct (decide _); [|done]. inv_ok.
  destruct (db_fail db TUserRoles); [done|]. inv_ok. apply snapshot_le_self; simpl; [|..|done].
  - intros g. rewrite list_elem_of_filter. intros [Hne (r & Hr & Hres)%elem_of_resolved].
    apply elem_of_resolved. exists r. split; [|done]. apply list_elem_of_filter.
    split; [|done]. intros [Hst Hsi]. apply Hne.
    destruct (resolve_row_fields _ _ Hres) as (_ & _ & -> & _). unfold subject_from_row.
    by rewrite Hst, Hsi.
  - intros b. rewrite !list_elem_of_filter. tauto.
Qed.

Lemma active_users_spec db u : u ∈ active_users db ↔ users db !! u = Some true.
Proof.
  unfold active_users. rewrite elem_of_dom. unfold is_Some.
  setoid_rewrite map_lookup_filter_Some. naive_solver.
Qed.

(** The simulated post-state never claims more than the committed database. *)
Lemma commits_snapshot db m db' :
  table_ok db → commits db m db' →
  snapshot_le (apply_mutation m (snapshot db)) (snapshot db').
Proof.
  intros Hok Hc. destruct Hc as [db i db' Hd|db i ps sel desc now db' Hps Hu
    |db t role db1 db' n H1 H2|db t u rs db' Hr|db u db' Hu].
  - rewrite (delete_grant_ok _ _ _ Hd). apply snapshot_le_self; simpl; [|done..].
    intros g. rewrite list_elem_of_filter. intros [Hne (r & Hr & Hres)%elem_of_resolved].
    apply elem_of_resolved. exists r. split; [|done]. apply list_elem_of_filter.
    split; [|done]. by destruct (resolve_row_fields _ _ Hres) as (<- & _).
  - by eapply commit_update_le.
  - by eapply commit_delete_role_le.
  - unfold replace_user_roles in Hr. destruct (db_fail db TUserRoles); [done|].
    inv_ok. apply insert_user_roles_ok in Ha as ->. by apply snapshot_le_self.
  - unfold update_user_active_in_tx in Hu. destruct (db_fail db TUsers); [done|].
    destruct (users db !! u) as [b|] eqn:Eu; [|done]. injection Hu as <-.
    apply snapshot_le_self; simpl; [done..|].
    intros v [Hv Hne]%elem_of_difference. rewrite active_users_spec in *. simpl.
    rewrite lookup_insert_ne; [done|]. set_solver.
Qed.

Lemma commits_table_ok db m db' :
  table_ok db → commits db m db' → table_ok db' ∧ db_fail db' = db_fail db.
Proof.
  intros Hok Hc. destruct Hc as [db i db' Hd|db i ps sel desc now db' Hps Hu
    |db t role db1 db' n H1 H2|db t u rs db' Hr|db u db' Hu].
  - split; [eapply grant_write_table_ok; [eapply w_delete; exact Hd|done]|].
    by rewrite (delete_grant_ok _ _ _ Hd).
  - split; [eapply grant_write_table_ok; [eapply (w_update db i (mkGrantUpdate ps sel desc) now); [exact Hps|exact Hu]|done]|].
    destruct (update_grant_ok _ _ _ _ _ Hu Hps) as (? & ? & _ & _ & -> & _). done.
  - unfold delete_role_rows, get_own_role in H1. inv_ok.
    destruct (db_fail db TRoles); [done|]. destruct (decide _); [|done]. inv_ok.
    destruct (db_fail db TUserRoles); [done|]. inv_ok.
    rewrite (delete_role_grants_ok _ _ _ _ H2). split; [|done].
    destruct Hok as [Hnd Hok]. split; simpl.
    + by apply filter_fmap_NoDup.
    + intros r g [_ Hr]%list_elem_of_filter. by apply Hok.
  - unfold replace_user_roles in Hr. destruct (db_fail db TUserRoles); [done|]. by inv_ok.
  - unfold update_user_active_in_tx in Hu. destruct (db_fail db TUsers); [done|].
    destruct (users db !! u); [|done]. by injection Hu as <-.
Qed.

(** ** The verdict *)

Lemma set_nonempty_elem (X : gset Uuid) : X ≠ ∅ ↔ ∃ x, x ∈ X.
Proof.
  split; [by intros ?%set_choose_L|]. intros [x Hx] ->. by apply elem_of_empty in Hx.
Qed.

Lemma verdict_permitted pre post :
  lockout_verdict pre post = Permitted →
  (pre.2 ≠ ∅ → post.2 ≠ ∅)
  ∧ ∀ t, get_set t pre.1 ≠ ∅ → get_set t post.1 ≠ ∅.
Proof.
  unfold lockout_verdict. destruct (bool_decide (pre.2 ≠ ∅) && _) eqn:Es; [done|].
  destruct (existsb _ _) eqn:Et; [done|]. intros _. split.
  - intros Hpre Hpost. by rewrite !bool_decide_true in Es.
  - intros t Hpre Hpost.
    assert (existsb (λ t, bool_decide (get_set t post.1 = ∅)) (map_to_list pre.1).*1 = true)
      as Hx; [|congruence].
    apply existsb_exists. exists t. split; [|by apply bool_decide_eq_true].
    apply list_elem_of_In, list_elem_of_fmap. unfold get_set in Hpre.
    destruct (pre.1 !! t) as [X|] eqn:E; [|done].
    exists (t, X). split; [done|]. by apply elem_of_map_to_list.
Qed.

Lemma check_lockout_ok db sentinel m v :
  check_lockout db sentinel m = Ok v →
  no_faults db ∧ sentinel ∈ tenants db
  ∧ v = lockout_verdict (holders (snapshot db)) (holders (apply_mutation m (snapshot db))).
Proof.
  unfold check_lockout, lock_sentinel, no_faults, query. intros Hc.
  destruct (db_fail db TTenants); [done|]. simpl in Hc. case_bool_decide; [|done]. simpl in Hc.
  destruct (db_fail db TGrants); [done|]. destruct (db_fail db TUsers); [done|].
  destruct (db_fail db TUserRoles); [done|]. simpl in Hc. by inv_ok.
Qed.

(** Every plane that had an administrator still has one. *)
Definition planes_kept (db db' : Db) : Prop :=
  (∀ t, (∃ u, u ∈ active_users db ∧ manages db t u ACCESS_MANAGE) →
        ∃ u, u ∈ active_users db' ∧ manages db' t u ACCESS_MANAGE)
  ∧ ((∃ u, u ∈ active_users db ∧ ∃ t, manages db t u SYSTEM_ACCESS_MANAGE) →
     ∃ u, u ∈ active_users db' ∧ ∃ t, manages db' t u SYSTEM_ACCESS_MANAGE).

(** A permitted mutation keeps the planes whenever the database it leads to confers what the
    guard simulated. *)
Lemma permitted_keeps db sentinel m db' :
  table_ok db → check_lockout db sentinel m = Ok Permitted →
  table_ok db' → db_fail db' = db_fail db →
  snapshot_le (apply_mutation m (snapshot db)) (snapshot db') → planes_kept db db'.
Proof.
  intros Hok (Hf & _ & Hv)%check_lockout_ok Hok' Hfail [Hm1 Hm2]%holders_mono.
  apply eq_sym, verdict_permitted in Hv as [Hsys Hten].
  assert (no_faults db') as Hf' by (unfold no_faults; by rewrite Hfail). split.
  - intros t (u & Hu). apply tenant_holders_manage in Hu; [|done..].
    destruct (proj1 (set_nonempty_elem _) (Hten t (proj2 (set_nonempty_elem _) (ex_intro _ u Hu))))
      as [v Hv%Hm1].
    exists v. by apply tenant_holders_manage.
  - intros (u & Hu). apply system_holders_manage in Hu; [|done..].
    destruct (proj1 (set_nonempty_elem _) (Hsys (proj2 (set_nonempty_elem _) (ex_intro _ u Hu))))
      as [v Hv%Hm2].
    exists v. by apply system_holders_manage.
Qed.

(** the lockout guard is sound end to end. When the guard permits a mutation
    and its caller commits it (deleting or updating a grant, deleting a role,
    replacing a user's roles, deactivating a user), every tenant in which the
    engine let some active user manage access still has such a user, and so does
    the system plane. *)
Theorem lockout_guard_sound (db : Db) (sentinel : Uuid) (m : GuardedMutation) (db' : Db) :
  table_ok db →
  check_lockout db sentinel m = Ok Permitted →
  commits db m db' →
  planes_kept db db'.
Proof.
  intros Hok Hc Hm. destruct (commits_table_ok _ _ _ Hok Hm) as [Hok' Hfail].
  eapply permitted_keeps; eauto. by eapply commits_snapshot.
Qed.

(** No tenant key of the holder map is empty. *)
Definition keys_nonempty (m : gmap Uuid (gset Uuid)) : Prop :=
  ∀ (t : Uuid) X, m !! t = Some X → X ≠ ∅.

Lemma entry_insert_nonempty t u m : keys_nonempty m → keys_nonempty (entry_insert t u m).
Proof.
  intros Hm t' X. unfold entry_insert. destruct (decide (t' = t)) as [-> |].
  - rewrite lookup_insert_eq. intros [= <-]. set_solver.
  - rewrite lookup_insert_ne by done. apply Hm.
Qed.

Lemma holders_nonempty s : keys_nonempty (holders s).1.
Proof.
  unfold holders, covering_holders.
  apply (foldl_inv (λ acc, keys_nonempty acc.1)); [by intros t X|].
  intros acc g _ Hacc. unfold covering_step.
  destruct (decide (rg_selector g ≠ All)); [done|]. destruct (negb _ && negb _); [done|].
  destruct (rg_subject g) as [u|role].
  { destruct (bool_decide _); [|done]. destruct (any_matches _ ACCESS_MANAGE); [|done].
    destruct (rg_tenant_id g); [|done]. by apply entry_insert_nonempty. }
  apply (foldl_inv (λ acc, keys_nonempty acc.1)); [done|].
  intros acc' a _ Hacc'. unfold role_holder_step. destruct (bool_decide _); [|done]. simpl.
  destruct (any_matches _ ACCESS_MANAGE); [|done]. by apply entry_insert_nonempty.
Qed.

(** the guard refuses only what would lock a plane out, and reports the less
    recoverable plane: [SystemLockout] iff the system plane had a holder and the
    simulated post-state has none; [TenantLockout] iff that is not so and some
    tenant loses its last holder. *)
Theorem lockout_refusal_exact (db : Db) (sentinel : Uuid) (m : GuardedMutation)
    (v : LockoutVerdict) :
  check_lockout db sentinel m = Ok v →
  let pre := holders (snapshot db) in
  let post := holders (apply_mutation m (snapshot db)) in
  let system_lost := (∃ u, u ∈ pre.2) ∧ ¬ ∃ u, u ∈ post.2 in
  let tenant_lost := ∃ t, (∃ u, u ∈ get_set t pre.1) ∧ ¬ ∃ u, u ∈ get_set t post.1 in
  (v = SystemLockout ↔ system_lost)
  ∧ (v = TenantLockout ↔ ¬ system_lost ∧ tenant_lost)
  ∧ (v = Permitted ↔ ¬ system_lost ∧ ¬ tenant_lost).
Proof.
  intros (_ & _ & ->)%check_lockout_ok pre post sl tl.
  assert (∀ X : gset Uuid, (¬ ∃ u, u ∈ X) ↔ X = ∅) as He by (intros X; rewrite <-set_nonempty_elem; destruct (decide (X = ∅)); tauto).
  assert (bool_decide (pre.2 ≠ ∅) && bool_decide (post.2 = ∅) = true ↔ sl) as Hs.
  { unfold sl. rewrite andb_true_iff, !bool_decide_eq_true, He, set_nonempty_elem. done. }
  assert (existsb (λ t, bool_decide (get_set t post.1 = ∅)) (map_to_list pre.1).*1 = true ↔ tl)
    as Ht.
  { unfold tl. rewrite existsb_exists. setoid_rewrite bool_decide_eq_true.
    setoid_rewrite He. setoid_rewrite <-list_elem_of_In. setoid_rewrite list_elem_of_fmap. split.
    - intros (t & ((t' & X) & -> & HX%elem_of_map_to_list) & Hp). exists t'. split; [|done].
      apply set_nonempty_elem. unfold get_set. rewrite HX. by apply (holders_nonempty _ _ _ HX).
    - intros (t & [u Hu] & Hp). exists t. split; [|done]. unfold get_set in Hu.
      destruct (pre.1 !! t) as [X|] eqn:E; [|by apply elem_of_empty in Hu].
      exists (t, X). split; [done|]. by apply elem_of_map_to_list. }
  unfold lockout_verdict. destruct (bool_decide _ && _), (existsb _ _); naive_solver.
Qed.

End Lockout.

(** ** Examples *)

#[local] Existing Instance demo_serde.

Lemma demo_table_ok : table_ok demo_db.
Proof. exact (proj1 (reachable_table demo_db demo_db_reachable)). Defined.

(** Users 10 and 11 both hold role 5; deactivating 11 keeps 10. *)
Lemma lockout_guard_sound_witness :
  ∃ u, u ∈ active_users (with_users {[10%N := true; 11%N := false]} demo_db)
     ∧ manages (with_users {[10%N := true; 11%N := false]} demo_db) 1 u ACCESS_MANAGE.
Proof.
  apply (lockout_guard_sound demo_db 1 (DeactivateUser 11)
    (with_users {[10%N := true; 11%N := false]} demo_db)).
  - exact demo_table_ok.
  - vm_compute. reflexivity.
  - apply commit_deactivate. vm_compute. reflexivity.
  - exists 10%N. split; [vm_compute; reflexivity|]. eexists. split; vm_compute; reflexivity.
Defined.

(** Deactivating user 10, the only [system.access:manage] holder, is refused. *)
Lemma lockout_refusal_exact_witness :
  (∃ u, u ∈ (holders (snapshot demo_db)).2)
  ∧ ¬ ∃ u, u ∈ (holders (apply_mutation (DeactivateUser 10) (snapshot demo_db))).2.
Proof.
  apply (lockout_refusal_exact demo_db 1 (DeactivateUser 10) SystemLockout);
    [vm_compute; reflexivity|reflexivity].
Defined.
