(* ===== verification/VisibleQueries.v ===== *)
(** Visibility-narrowed list queries, and their agreement with per-target
    authorization.

    Models [crates/shared/db/src/visibility.rs], the [HostScoped] trait
    ([crates/shared/tenant-db/src/host_scoped.rs]) with its four
    implementations ([crates/shared/db/src/entity/host_scoped.rs]) and the
    tenant-filtered query builders of
    [crates/shared/tenant-db/src/tenant_db.rs]. A select is the list of rows it
    returns; a condition is a list of disjuncts evaluated on a row. *)

From stdpp Require Import base list gmap sets strings numbers.
From S2P Require Import Prelude RustStr AccessVocab AccessTheorems AccessGrants.
From S2P Require Import AccessEngine GrantLemmas AccessDecisions.

Import Grants Engine.

(** ** The traits *)

Class TenantScoped (E : Type) := tenant_id_column : E → Uuid.

Class HostScoped (E : Type) := {
  host_id_column : E → Uuid;
  software_item_id_column : option (E → Uuid);
  host_software_item_id_column : option (E → Uuid);
}.

(** ** Tenant-filtered selects *)

Section TenantDb.
Context {E : Type}.

(** [TenantDb::find] *)
Definition find `{TenantScoped E} (tenant : Uuid) (table : list E) : list E :=
  filter (λ r, tenant_id_column r = tenant) table.

(** [TenantDb::find_by_id]; [pk] is the primary key. *)
Definition find_by_pk `{TenantScoped E} (pk : E → Uuid) (tenant i : Uuid) (table : list E) :
    list E :=
  filter (λ r, pk r = i ∧ tenant_id_column r = tenant) table.

(** [TenantDb::find_via_tenant_join]: an inner join on [on]. *)
Definition find_via_tenant_join {S} `{TenantScoped S} (on : E → S → bool) (tenant : Uuid)
    (table : list E) (scoped : list S) : list E :=
  table ≫= λ r,
    scoped ≫= λ s, if decide (on r s = true ∧ tenant_id_column s = tenant) then [r] else [].

(** ** Compiling a visibility *)

(** One disjunct of a [Condition::any()]. *)
Inductive Disjunct :=
| IsIn (col : E → Uuid) (ids : gset Uuid)
| InTaggedHosts (col : E → Uuid) (tenant : Uuid) (tags : gset Uuid).

Inductive Compiled :=
| Unrestricted
| Narrowed (cond : list Disjunct)
| Nothing.

Definition compile `{HostScoped E} (tenant : Uuid) (v : Visibility) : Compiled :=
  match v with
  | Full => Unrestricted
  | VNone => Nothing
  | Filter tags hosts software items =>
      let cond :=
        (if decide (hosts = ∅) then [] else [IsIn host_id_column hosts]) ++
        (if decide (tags = ∅) then [] else [InTaggedHosts host_id_column tenant tags]) ++
        (if decide (software = ∅) then []
         else match software_item_id_column with Some col => [IsIn col software] | None => [] end) ++
        (if decide (items = ∅) then []
         else match host_software_item_id_column with
              | Some col => [IsIn col items] | None => [] end) in
      match cond with [] => Nothing | _ => Narrowed cond end
  end.

End TenantDb.
Arguments Disjunct : clear implicits.
Arguments Compiled : clear implicits.

(** [tagged_host_subquery]: hosts carrying an active tag of the tenant from [tags]. *)
Definition tagged_hosts (db : Db) (tenant : Uuid) (tags : gset Uuid) : list Uuid :=
  host_tag_assignments db ≫= λ '(h, tag),
    host_tags db ≫= λ row,
      if decide (tag = sr_id row ∧ sr_tenant_id row = tenant ∧ sr_deactivated_at row = None
                 ∧ tag ∈ tags)
      then [h] else [].

Section Queries.
Context {E : Type}.

Definition eval_disjunct (db : Db) (r : E) (d : Disjunct E) : bool :=
  match d with
  | IsIn col ids => bool_decide (col r ∈ ids)
  | InTaggedHosts col tenant tags => bool_decide (col r ∈ tagged_hosts db tenant tags)
  end.

Definition eval_condition (db : Db) (cond : list (Disjunct E)) (r : E) : bool :=
  existsb (eval_disjunct db r) cond.

(** The three [find_visible*] builders share this dispatch over the base select. *)
Definition narrow `{HostScoped E} (db : Db) (tenant : Uuid) (v : Visibility) (base : list E) :
    option (list E) :=
  match compile (E := E) tenant v with
  | Unrestricted => Some base
  | Narrowed cond => Some (filter (λ r, Is_true (eval_condition db cond r)) base)
  | Nothing => None
  end.

Definition find_visible `{HostScoped E, TenantScoped E} (db : Db) (tenant : Uuid)
    (table : list E) (v : Visibility) : option (list E) :=
  narrow db tenant v (find tenant table).

Definition find_visible_by_id `{HostScoped E, TenantScoped E} (db : Db) (pk : E → Uuid)
    (tenant i : Uuid) (table : list E) (v : Visibility) : option (list E) :=
  narrow db tenant v (find_by_pk pk tenant i table).

Definition find_visible_via_tenant_join `{HostScoped E} {S} `{TenantScoped S} (db : Db)
    (on : E → S → bool) (tenant : Uuid) (table : list E) (scoped : list S) (v : Visibility) :
    option (list E) :=
  narrow db tenant v (find_via_tenant_join on tenant table scoped).

End Queries.

(** ** The four implementations *)

#[export] Instance host_tenant_scoped : TenantScoped ScopedRow := sr_tenant_id.

#[export] Instance host_host_scoped : HostScoped ScopedRow := {|
  host_id_column := sr_id;
  software_item_id_column := None;
  host_software_item_id_column := None;
|}.

#[export] Instance item_host_scoped : HostScoped ItemRow := {|
  host_id_column := ir_host_id;
  software_item_id_column := Some ir_software_item_id;
  host_software_item_id_column := Some ir_id;
|}.

(** A row of [host_software_item_plugins]. *)
Record PluginRow := mkPluginRow {
  pr_id : Uuid;
  pr_host_id : Uuid;
  pr_software_item_id : Uuid;
  pr_host_software_item_id : Uuid;
}.

#[export] Instance plugin_host_scoped : HostScoped PluginRow := {|
  host_id_column := pr_host_id;
  software_item_id_column := None;
  host_software_item_id_column := None;
|}.

(** A row of [update_history]; legacy rows carry no link row. *)
Record UpdateHistoryRow := mkUpdateHistoryRow {
  uh_id : Uuid;
  uh_tenant_id : Uuid;
  uh_host_id : Uuid;
  uh_software_item_id : Uuid;
  uh_host_software_item_id : option Uuid;
}.

#[export] Instance update_history_host_scoped : HostScoped UpdateHistoryRow := {|
  host_id_column := uh_host_id;
  software_item_id_column := None;
  host_software_item_id_column := None;
|}.

#[export] Instance update_history_tenant_scoped : TenantScoped UpdateHistoryRow := uh_tenant_id.

(** ** What an implementation promises: the target a row stands for *)

Class RowTarget (E : Type) `{HostScoped E} := {
  row_target : E → TargetRef;
  row_target_host : ∀ r, target_host_id (row_target r) = host_id_column r;
  row_target_software : ∀ col r, software_item_id_column = Some col →
    ∃ i, row_target r = THostSoftwareItem i (host_id_column r) (col r);
  row_target_item : ∀ col r, host_software_item_id_column = Some col →
    ∃ sw, row_target r = THostSoftwareItem (col r) (host_id_column r) sw;
}.

(** The entity declares every axis its rows' targets have. *)
Class ExactAxes (E : Type) `{RowTarget E} :=
  exact_axes : ∀ r i h sw, row_target r = THostSoftwareItem i h sw →
    is_Some (software_item_id_column (E := E)) ∧ is_Some (host_software_item_id_column (E := E)).

#[export] Instance host_target : RowTarget ScopedRow.
Proof. by refine {| row_target r := THost (sr_id r) |}. Defined.
#[export] Instance host_exact : ExactAxes ScopedRow.
Proof. intros r i h sw. discriminate. Qed.

#[export] Instance item_target : RowTarget ItemRow.
Proof.
  refine {| row_target r := THostSoftwareItem (ir_id r) (ir_host_id r) (ir_software_item_id r) |}.
  - done.
  - intros col r [= <-]. by eexists.
  - intros col r [= <-]. by eexists.
Defined.
#[export] Instance item_exact : ExactAxes ItemRow.
Proof. intros r i h sw _. split; by eexists. Qed.

#[export] Instance plugin_target : RowTarget PluginRow.
Proof.
  by refine {| row_target r := THostSoftwareItem (pr_host_software_item_id r) (pr_host_id r)
                                 (pr_software_item_id r) |}.
Defined.

#[export] Instance update_history_target : RowTarget UpdateHistoryRow.
Proof.
  refine {| row_target r := match uh_host_software_item_id r with
    | Some i => THostSoftwareItem i (uh_host_id r) (uh_software_item_id r)
    | None => THost (uh_host_id r)
    end |}; [|done..].
  intros r. by destruct (uh_host_software_item_id r).
Defined.

(** ** Agreement *)

(** A host is in the tag subquery iff one of its live tags is asked for. *)
Lemma tagged_hosts_spec db tenant tags h ht :
  load_host_tags db tenant h = Ok ht →
  h ∈ tagged_hosts db tenant tags ↔ ∃ tag, tag ∈ tags ∧ tag ∈ ht.
Proof.
  unfold load_host_tags. destruct (db_fail db THostTagAssignments); [done|]. intros ?; inv_ok.
  unfold tagged_hosts. rewrite list_elem_of_bind.
  setoid_rewrite elem_of_list_to_set. setoid_rewrite list_elem_of_bind. split.
  - intros ([h' tag] & (row & Hh & Hrow)%list_elem_of_bind & Hin).
    destruct (decide _) as [(-> & Ht & Hd & Htag)|]; [|by apply elem_of_nil in Hh].
    apply list_elem_of_singleton in Hh as <-. exists (sr_id row). split; [done|].
    exists (h, sr_id row). split; [|done]. apply list_elem_of_bind. exists row.
    rewrite decide_True by done. by split; [left|].
  - intros (tag & Htag & [h' tag'] & (row & Hh & Hrow)%list_elem_of_bind & Hin).
    destruct (decide _) as [(-> & Ht & -> & Hd)|]; [|by apply elem_of_nil in Hh].
    apply list_elem_of_singleton in Hh as ->. exists (h, sr_id row). split; [|done].
    apply list_elem_of_bind. exists row. rewrite decide_True by done. by split; [left|].
Qed.

Section Agreement.
Context {E : Type} `{HostScoped E} `{!RowTarget E}.

(** What the compiled condition admits, axis by axis. *)
Definition axes_visible (v : Visibility) (r : E) (ht : gset Uuid) : Prop :=
  match v with
  | Full => True
  | VNone => False
  | Filter tags hosts software items =>
      host_id_column r ∈ hosts ∨ (∃ tag, tag ∈ tags ∧ tag ∈ ht)
      ∨ (∃ col, software_item_id_column = Some col ∧ col r ∈ software)
      ∨ (∃ col, host_software_item_id_column = Some col ∧ col r ∈ items)
  end.

Lemma eval_filter_condition db tenant tags hosts software items (r : E) ht :
  load_host_tags db tenant (host_id_column r) = Ok ht →
  eval_condition db
    ((if decide (hosts = ∅) then [] else [IsIn host_id_column hosts]) ++
     (if decide (tags = ∅) then [] else [InTaggedHosts host_id_column tenant tags]) ++
     (if decide (software = ∅) then []
      else match software_item_id_column with Some col => [IsIn col software] | None => [] end) ++
     (if decide (items = ∅) then []
      else match host_software_item_id_column with
           | Some col => [IsIn col items] | None => [] end)) r = true
  ↔ axes_visible (Filter tags hosts software items) r ht.
Proof.
  intros Ht. unfold eval_condition. rewrite !existsb_app, !orb_true_iff.
  assert (∀ col (ids : gset Uuid),
    existsb (eval_disjunct db r) (if decide (ids = ∅) then [] else [IsIn col ids]) = true
    ↔ col r ∈ ids) as Hin.
  { intros col ids. destruct (decide (ids = ∅)) as [-> |]; simpl;
      [split; [done|by intros ?%elem_of_empty]|].
    by rewrite orb_false_r, bool_decide_eq_true. }
  assert (∀ (ocol : option (E → Uuid)) (ids : gset Uuid),
    existsb (eval_disjunct db r) (if decide (ids = ∅) then []
      else match ocol with Some col => [IsIn col ids] | None => [] end) = true
    ↔ ∃ col, ocol = Some col ∧ col r ∈ ids) as Hopt.
  { intros [col|] ids; [rewrite Hin; naive_solver|]. destruct (decide _); naive_solver. }
  assert (existsb (eval_disjunct db r)
      (if decide (tags = ∅) then [] else [InTaggedHosts host_id_column tenant tags]) = true
    ↔ ∃ tag, tag ∈ tags ∧ tag ∈ ht) as Htag.
  { destruct (decide (tags = ∅)) as [-> |]; simpl; [split; [done|by intros (? & ?%elem_of_empty & _)]|].
    by rewrite orb_false_r, bool_decide_eq_true, (tagged_hosts_spec _ _ _ _ ht). }
  rewrite Hin, Htag, !Hopt. done.
Qed.

(** The rows a narrowed select returns. *)
Lemma narrow_spec db tenant v (base : list E) (r : E) ht :
  load_host_tags db tenant (host_id_column r) = Ok ht →
  (∃ rows, narrow db tenant v base = Some rows ∧ r ∈ rows) ↔ r ∈ base ∧ axes_visible v r ht.
Proof.
  intros Ht. unfold narrow. destruct v as [|tags hosts software items|]; [simpl; naive_solver| |].
  - pose proof (eval_filter_condition db tenant tags hosts software items r ht Ht) as Hc.
    unfold compile. cbv zeta. destruct (_ ++ _) as [|d cond].
    + split; [by intros (? & ? & _)|]. by intros [_ ?%Hc].
    + rewrite <-Hc. split.
      * intros (rows & [= <-] & Hin). rewrite list_elem_of_filter, Is_true_true in Hin. tauto.
      * intros [Hb He]. eexists. split; [done|]. by rewrite list_elem_of_filter, Is_true_true.
  - simpl. split; [by intros (? & ? & _)|tauto].
Qed.

(** Declared axes only narrow: what the select returns, the row's target may see. *)
Lemma axes_visible_sound v r ht : axes_visible v r ht → visible v (row_target r) ht.
Proof.
  destruct v as [|tags hosts software items|]; simpl; [done| |done].
  intros [Hh|[?|[(col & Hc & ?)|(col & Hc & ?)]]].
  - right; left. by rewrite row_target_host.
  - by left.
  - destruct (row_target_software col r Hc) as [i ->]. auto.
  - destruct (row_target_item col r Hc) as [sw ->]. auto.
Qed.

Lemma axes_visible_exact `{!ExactAxes E} v r ht :
  axes_visible v r ht ↔ visible v (row_target r) ht.
Proof.
  split; [apply axes_visible_sound|].
  destruct v as [|tags hosts software items|]; simpl; [done| |done].
  intros [?|[Hh|Ht]].
  - by right; left.
  - left. by rewrite <-row_target_host.
  - destruct (row_target r) as [h|i h sw] eqn:Et; [done|].
    destruct (exact_axes r i h sw Et) as [[c1 Hc1] [c2 Hc2]].
    destruct (row_target_software c1 r Hc1) as [i' E1].
    destruct (row_target_item c2 r Hc2) as [sw' E2].
    rewrite Et in E1, E2. simplify_eq. destruct Ht; [right; right; left|right; right; right]; eauto.
Qed.

Lemma find_via_tenant_join_spec {S} `{TenantScoped S} (on : E → S → bool) tenant (table : list E) scoped r :
  r ∈ find_via_tenant_join on tenant table scoped ↔
  r ∈ table ∧ ∃ s, s ∈ scoped ∧ on r s = true ∧ tenant_id_column s = tenant.
Proof.
  unfold find_via_tenant_join. rewrite list_elem_of_bind. setoid_rewrite list_elem_of_bind. split.
  - intros (r' & (s & Hr & Hs) & Hr'). case_decide as Hon; [|by apply elem_of_nil in Hr].
    apply list_elem_of_singleton in Hr as ->. naive_solver.
  - intros (Hr & s & Hs & Hon). exists r. split; [|done]. exists s. rewrite decide_True by done. by split; [left|].
Qed.

(** A select that returns the row. *)
Definition returned (q : option (list E)) (r : E) : Prop := ∃ rows, q = Some rows ∧ r ∈ rows.

(** The rows of a narrowed select are rows of the base on whose target the action is allowed;
    all of them, if the entity declares every axis. *)
Lemma narrow_authorized (e : AccessEngine) (db : Db) (ctx : AccessContext) (a : Action.Action)
    (base : list E) (r : E) (ht : gset Uuid) :
  registered e a → load_host_tags db (Engine.tenant_id ctx) (host_id_column r) = Ok ht →
  let allowed := authorize_target e db ctx a (row_target r) = Ok Allow in
  let q := narrow db (Engine.tenant_id ctx) (visibility ctx a) base in
  (returned q r → r ∈ base ∧ allowed) ∧ (ExactAxes E → r ∈ base → allowed → returned q r).
Proof.
  intros HR Ht. pose proof Ht as Ht'. rewrite <-row_target_host in Ht'. unfold returned.
  rewrite (narrow_spec _ _ _ _ _ ht Ht), (authorize_target_visible e db ctx a (row_target r) ht HR Ht').
  split; [intros [? ?%axes_visible_sound]; auto|]. intros HE Hb Hv. split; [done|]. by apply axes_visible_exact.
Qed.

(** C36: a query narrowed to an action's visibility shows nothing that authorization of the
    single target refuses, for each of the three builders of [visibility.rs]. Take an action
    the engine has registered and a row whose host's tags can be loaded. If [find_visible]
    returns the row, it is a row of the caller's tenant on whose target [authorize_target]
    allows the action; the same of [find_visible_by_id], which returns only rows with that
    key; and if [find_visible_via_tenant_join] returns it, it is joined to a row of the
    tenant and allowed. Conversely, for entities that declare every axis of their targets
    (hosts and host software items), each builder returns every such row. *)
Theorem find_visible_sound {S} `{TenantScoped S} (e : AccessEngine) (db : Db) (ctx : AccessContext)
    (a : Action.Action) (table : list E) (scoped : list S) (on : E → S → bool) (pk : E → Uuid) (i : Uuid)
    (r : E) (ht : gset Uuid) :
  registered e a → load_host_tags db (Engine.tenant_id ctx) (host_id_column r) = Ok ht →
  let allowed := authorize_target e db ctx a (row_target r) = Ok Allow in
  let tenant := Engine.tenant_id ctx in
  let v := visibility ctx a in
  (∀ `{TenantScoped E},
     (returned (find_visible db tenant table v) r → r ∈ table ∧ tenant_id_column r = tenant ∧ allowed) ∧
     (returned (find_visible_by_id db pk tenant i table v) r →
        r ∈ table ∧ pk r = i ∧ tenant_id_column r = tenant ∧ allowed) ∧
     (ExactAxes E → r ∈ table → tenant_id_column r = tenant → allowed →
        returned (find_visible db tenant table v) r ∧
        (pk r = i → returned (find_visible_by_id db pk tenant i table v) r))) ∧
  (returned (find_visible_via_tenant_join db on tenant table scoped v) r →
     r ∈ table ∧ (∃ s, s ∈ scoped ∧ on r s = true ∧ tenant_id_column s = tenant) ∧ allowed) ∧
  (ExactAxes E → r ∈ table → (∃ s, s ∈ scoped ∧ on r s = true ∧ tenant_id_column s = tenant) → allowed →
     returned (find_visible_via_tenant_join db on tenant table scoped v) r).
Proof.
  intros HR Ht allowed tenant v. pose proof (λ base, narrow_authorized e db ctx a base r ht HR Ht) as Hn.
  unfold find_visible, find_visible_by_id, find_visible_via_tenant_join, find, find_by_pk.
  split_and!; [intros ?; split_and!| |].
  - intros [[? ?]%list_elem_of_filter ?]%Hn. auto.
  - intros [[[? ?] ?]%list_elem_of_filter ?]%Hn. auto.
  - intros HE Hr Hten Hal. split; [|intros Hpk]; (apply Hn; [done| |done]); by apply list_elem_of_filter.
  - intros [[? ?]%find_via_tenant_join_spec ?]%Hn. auto.
  - intros HE Hr Hs Hal. apply Hn; [done| |done]. by apply find_via_tenant_join_spec.
Qed.

End Agreement.

(** ** Examples *)

Definition visible_db : Db :=
  mkDb (access_grants demo_db) (roles demo_db) (user_roles demo_db) (users demo_db)
       (tenants demo_db) [mkScopedRow 20 1 None] [(30%N, 20%N)]
       [mkScopedRow 30 1 None; mkScopedRow 31 1 None; mkScopedRow 32 2 None] [] []
       (λ _, None).

(** A principal allowed [hosts:read] on hosts tagged 20. *)
Definition tagged_context : AccessContext :=
  mkContext 10 1 (mkAuthority [mkResolvedGrant 7 (Some 1%N) (User 10)
    [Pattern.mkPattern (Pattern.ExactResource "hosts") Pattern.AnyVerb] (Tags [20%N]) None] 0) None.

Definition HOSTS_READ := Action.mkAction Resource.Hosts Verb.Read.

(** The tagged host is found by all three builders; its untagged neighbour is not allowed. *)
Lemma find_visible_sound_witness :
  authorize_target new visible_db tagged_context HOSTS_READ (row_target (mkScopedRow 30 1 None)) = Ok Allow ∧
  returned (find_visible_by_id visible_db sr_id 1 30 (hosts visible_db) (visibility tagged_context HOSTS_READ))
    (mkScopedRow 30 1 None) ∧
  find_visible visible_db 1 (hosts visible_db) (visibility tagged_context HOSTS_READ) = Some [mkScopedRow 30 1 None].
Proof.
  assert (registered new HOSTS_READ) as H1 by (intros Hd; vm_compute in Hd; discriminate Hd).
  assert (load_host_tags visible_db (Engine.tenant_id tagged_context)
            (host_id_column (mkScopedRow 30 1 None)) = Ok {[20%N]}) as H2
    by (vm_compute; reflexivity).
  assert (find_visible visible_db (Engine.tenant_id tagged_context) (hosts visible_db)
            (visibility tagged_context HOSTS_READ) = Some [mkScopedRow 30 1 None]) as H3
    by (vm_compute; reflexivity).
  destruct (find_visible_sound new visible_db tagged_context HOSTS_READ (hosts visible_db) (hosts visible_db)
    (λ r s, bool_decide (sr_id r = sr_id s)) sr_id 30 (mkScopedRow 30 1 None) _ H1 H2) as [Hall _].
  destruct (Hall host_tenant_scoped) as (Hfind & _ & Hback).
  destruct Hfind as (Hin & Hten & Hallow); [by exists [mkScopedRow 30 1 None]; split; [|left]|].
  split; [exact Hallow|]. split; [|exact H3].
  exact (proj2 (Hback host_exact Hin Hten Hallow) eq_refl).
Defined.
