(* ===== verification/AccessCache.v ===== *)
(** The authority cache under interleaving: requests of [AccessEngine::context]
    whose two queries run at different times, mutations of the database, cache
    flushes and evictions, in any order.

    [context] of [crates/ui/controller-core/src/access/mod.rs] is split at its
    suspension points: the cache read, the role query, the grant query and the
    insertion. *)

From stdpp Require Import base list gmap sets strings numbers.
From S2P Require Import Prelude RustStr AccessVocab AccessTheorems AccessGrants.
From S2P Require Import AccessEngine GrantLemmas AccessDecisions.

Import Grants Engine.

(** A miss being resolved: [load_authority] suspended between its queries. *)
Record Load := mkLoad {
  ld_tenant : Uuid;
  ld_user : Uuid;
  ld_roles : list Uuid;
  ld_roles_at : Instant;
  ld_grants : option (list ResolvedGrant * Instant);
}.

Record Sys := mkSys {
  now : Instant;
  db : Db;
  since : Instant;                       (* when the current content was committed *)
  history : list (Instant * Instant * Db);   (* earlier contents, with their intervals *)
  engine : AccessEngine;
  inflight : list Load;
}.

Section Cache.
Context `{SerdeSelector}.

(** The longest time a load may take (the database's statement timeouts). *)
Context (latency : Duration).

Inductive step : Sys → Sys → Prop :=
| s_tick s t :
    (now s ≤ t)%Z →
    step s (mkSys t (db s) (since s) (history s) (engine s) (inflight s))
| s_mutate s d :
    step s (mkSys (now s) d (now s) ((since s, now s, db s) :: history s) (engine s) (inflight s))
| s_miss s t u roles :
    cache_get (engine s) (now s) (t, u) = None →
    load_role_ids (db s) t u = Ok roles →
    step s (mkSys (now s) (db s) (since s) (history s) (engine s)
              (mkLoad t u roles (now s) None :: inflight s))
| s_grants s pre ld post gs :
    inflight s = pre ++ ld :: post → ld_grants ld = None →
    load_principal_grants (db s) (ld_tenant ld) (ld_user ld) (ld_roles ld) = Ok gs →
    step s (mkSys (now s) (db s) (since s) (history s) (engine s)
              (pre ++ mkLoad (ld_tenant ld) (ld_user ld) (ld_roles ld) (ld_roles_at ld)
                        (Some (gs, now s)) :: post))
| s_insert s pre ld post gs at_ :
    inflight s = pre ++ ld :: post → ld_grants ld = Some (gs, at_) →
    (now s - ld_roles_at ld ≤ latency)%Z →
    step s (mkSys (now s) (db s) (since s) (history s)
              (with_cache (engine s)
                 (<[(ld_tenant ld, ld_user ld) := mkAuthority gs (now s)]> (cache (engine s))))
              (pre ++ post))
| s_fail s pre ld post :
    inflight s = pre ++ ld :: post →
    step s (mkSys (now s) (db s) (since s) (history s) (engine s) (pre ++ post))
| s_invalidate s us rs :
    step s (mkSys (now s) (db s) (since s) (history s)
              (invalidate_subjects (engine s) us rs) (inflight s))
| s_remote_invalidate s us rs :
    step s (mkSys (now s) (db s) (since s) (history s)
              (apply_remote_invalidation (engine s) us rs) (inflight s))
| s_evict s key :
    step s (mkSys (now s) (db s) (since s) (history s) (evict (engine s) key) (inflight s)).

Definition initial (s : Sys) : Prop :=
  history s = [] ∧ (since s ≤ now s)%Z ∧ inflight s = [] ∧ cache (engine s) = ∅.

Definition reachable (s : Sys) : Prop := ∃ s0, initial s0 ∧ rtc step s0 s.

(** [d] was the content of the database at time [r]. *)
Definition was (s : Sys) (r : Instant) (d : Db) : Prop :=
  (d = db s ∧ (since s ≤ r ≤ now s)%Z)
  ∨ ∃ from upto, (from, upto, d) ∈ history s ∧ (from ≤ r ≤ upto)%Z.

(** The role and grant reads behind an authority, both at or after [floor]. *)
Definition read_since (s : Sys) (floor : Instant) (t u : Uuid) (roles : list Uuid)
    (r1 : Instant) : Prop :=
  (floor ≤ r1)%Z ∧ (r1 ≤ now s)%Z ∧ ∃ d, was s r1 d ∧ load_role_ids d t u = Ok roles.

Definition granted_since (s : Sys) (t u : Uuid) (roles : list Uuid) (gs : list ResolvedGrant)
    (r1 r2 : Instant) : Prop :=
  (r1 ≤ r2)%Z ∧ (r2 ≤ now s)%Z ∧ ∃ d, was s r2 d ∧ load_principal_grants d t u roles = Ok gs.

Definition load_inv (floor : Instant) (s : Sys) (ld : Load) : Prop :=
  read_since s floor (ld_tenant ld) (ld_user ld) (ld_roles ld) (ld_roles_at ld)
  ∧ ∀ gs r2, ld_grants ld = Some (gs, r2) →
      granted_since s (ld_tenant ld) (ld_user ld) (ld_roles ld) gs (ld_roles_at ld) r2.

Definition entry_inv (floor : Instant) (s : Sys) (t u : Uuid) (entry : CachedAuthority) : Prop :=
  ∃ roles r1 r2, read_since s floor t u roles r1
    ∧ granted_since s t u roles (auth_grants entry) r1 r2
    ∧ (loaded_at entry - latency ≤ r1)%Z ∧ (loaded_at entry ≤ now s)%Z.

(** [floor] bounds every read behind what is cached or in flight. *)
Record sys_inv (floor : Instant) (s : Sys) : Prop := {
  inv_since : (since s ≤ now s)%Z;
  inv_history : ∀ from upto d, (from, upto, d) ∈ history s → (upto ≤ since s)%Z;
  inv_loads : ∀ ld, ld ∈ inflight s → load_inv floor s ld;
  inv_cache : ∀ t u entry, cache (engine s) !! (t, u) = Some entry → entry_inv floor s t u entry;
}.

(** [s'] knows everything [s] knows about the past. *)
Definition later (s s' : Sys) : Prop :=
  (now s ≤ now s')%Z ∧ ∀ r d, was s r d → was s' r d.

Lemma later_refl s s' :
  now s' = now s → db s' = db s → since s' = since s → history s' = history s → later s s'.
Proof. unfold later, was. intros -> -> -> ->. split; [lia|tauto]. Qed.

Lemma later_tick s t :
  (now s ≤ t)%Z → later s (mkSys t (db s) (since s) (history s) (engine s) (inflight s)).
Proof. intros Ht. split; [done|]. unfold was. simpl. intros r d [[-> ?]|?]; [left; split; [done|lia]|by right]. Qed.

Lemma later_mutate s d :
  (since s ≤ now s)%Z →
  later s (mkSys (now s) d (now s) ((since s, now s, db s) :: history s) (engine s) (inflight s)).
Proof.
  intros Hs. split; simpl; [lia|]. unfold was. simpl. intros r d' [[-> Hr]|(f & t & Hin & Hr)].
  - right. exists (since s), (now s). split; [left|done].
  - right. exists f, t. split; [by right|done].
Qed.

Lemma read_since_later floor s s' t u roles r1 :
  later s s' → read_since s floor t u roles r1 → read_since s' floor t u roles r1.
Proof. intros [Hn Hw] (? & ? & d & ? & ?). split_and!; [done|lia|]. exists d. auto. Qed.

Lemma granted_since_later s s' t u roles gs r1 r2 :
  later s s' → granted_since s t u roles gs r1 r2 → granted_since s' t u roles gs r1 r2.
Proof. intros [Hn Hw] (? & ? & d & ? & ?). split_and!; [done|lia|]. exists d. auto. Qed.

Lemma load_inv_later floor s s' ld : later s s' → load_inv floor s ld → load_inv floor s' ld.
Proof.
  intros Hl [Hr Hg]. split; [by eapply read_since_later|].
  intros gs r2 Hgs. eapply granted_since_later; eauto.
Qed.

Lemma entry_inv_later floor s s' t u entry :
  later s s' → entry_inv floor s t u entry → entry_inv floor s' t u entry.
Proof.
  intros Hl (roles & r1 & r2 & Hr & Hg & Hb & Hn). exists roles, r1, r2.
  split_and!; [by eapply read_since_later|by eapply granted_since_later|done|].
  destruct Hl. lia.
Qed.

(** Steps that keep the clock, the database and its history: what remains is that
    the loads and entries of the new state were already there. *)
Lemma sys_inv_sub floor s s' :
  sys_inv floor s →
  now s' = now s → db s' = db s → since s' = since s → history s' = history s →
  (∀ ld, ld ∈ inflight s' → ld ∈ inflight s ∨ load_inv floor s' ld) →
  (∀ t u entry, cache (engine s') !! (t, u) = Some entry →
     cache (engine s) !! (t, u) = Some entry ∨ entry_inv floor s' t u entry) →
  sys_inv floor s'.
Proof.
  intros [H1 H2 H3 H4] E1 E2 E3 E4 Hld Hc. pose proof (later_refl s s' E1 E2 E3 E4) as Hlat.
  split; [by rewrite E1, E3|by rewrite E3, E4|..].
  - intros ld [Hin|?]%Hld; [|done]. eapply load_inv_later; eauto.
  - intros t u entry [Hin|?]%Hc; [|done]. eapply entry_inv_later; eauto.
Qed.

Lemma was_now floor s : sys_inv floor s → was s (now s) (db s).
Proof. intros [Hs _ _ _]. left. split; [done|lia]. Qed.

Lemma step_inv floor s s' :
  (floor ≤ now s)%Z → sys_inv floor s → step s s' → sys_inv floor s'.
Proof.
  intros Hfl Hinv Hstep. pose proof (was_now _ _ Hinv) as Hnow.
  destruct Hstep as [s t Ht|s d|s t u roles Hmiss Hr|s pre ld post gs Hin Hld Hg
    |s pre ld post gs at_ Hin Hld Hlat|s pre ld post Hin|s us rs|s us rs|s key].
  - destruct Hinv as [H1 H2 H3 H4]. pose proof (later_tick s t Ht) as Hl. split; simpl.
    + lia.
    + done.
    + intros ld Hld. eapply load_inv_later; eauto.
    + intros t' u entry He. eapply entry_inv_later; eauto.
  - destruct Hinv as [H1 H2 H3 H4]. pose proof (later_mutate s d H1) as Hl. split; simpl.
    + lia.
    + intros f t' d' [[= -> -> ->]|Hh%H2]%elem_of_cons; lia.
    + intros ld Hld. eapply load_inv_later; eauto.
    + intros t' u entry He. eapply entry_inv_later; eauto.
  - apply (sys_inv_sub floor s); simpl; [done..| |auto].
    intros ld [-> |?]%elem_of_cons; [right|by left]. split; [|done]. simpl.
    split_and!; simpl; [done|lia|]. exists (db s). by split.
  - apply (sys_inv_sub floor s); simpl; [done..| |auto]. rewrite Hin.
    intros ld'. rewrite elem_of_app, elem_of_cons. intros [?|[-> |?]]; [left; set_solver| |left; set_solver].
    right. destruct (inv_loads _ _ Hinv ld) as [Hread _]; [rewrite Hin; set_solver|].
    split; simpl; [exact Hread|]. intros gs' r2 [= <- <-].
    destruct Hread as (_ & Hle & _). split_and!; simpl; [done|lia|]. exists (db s). by split.
  - apply (sys_inv_sub floor s); simpl; [done..|rewrite Hin; set_solver|].
    intros t u entry. destruct (decide ((t, u) = (ld_tenant ld, ld_user ld))) as [[= -> ->]|Hne].
    + rewrite lookup_insert_eq. intros [= <-]. right.
      destruct (inv_loads _ _ Hinv ld) as [Hread Hgr]; [rewrite Hin; set_solver|].
      exists (ld_roles ld), (ld_roles_at ld), at_. simpl.
      split_and!; [exact Hread|exact (Hgr _ _ Hld)|lia|lia].
    + rewrite lookup_insert_ne by done. by left.
  - apply (sys_inv_sub floor s); simpl; [done..|rewrite Hin; set_solver|auto].
  - apply (sys_inv_sub floor s); simpl; [done..|auto|]. intros t u entry. by rewrite lookup_empty.
  - apply (sys_inv_sub floor s); simpl; [done..|auto|]. intros t u entry. by rewrite lookup_empty.
  - apply (sys_inv_sub floor s); simpl; [done..|auto|].
    intros t u entry [_ He]%lookup_delete_Some. by left.
Qed.

Lemma step_now s s' : step s s' → (now s ≤ now s')%Z ∧ (since s ≤ now s → since s ≤ since s')%Z
  ∧ ttl (engine s') = ttl (engine s).
Proof. destruct 1; simpl; split_and!; (lia || done). Qed.

Lemma steps_inv floor s s' :
  rtc step s s' → (floor ≤ now s)%Z → sys_inv floor s →
  sys_inv floor s' ∧ ttl (engine s') = ttl (engine s).
Proof.
  induction 1 as [s|s1 s2 s3 Hs _ IH]; intros Hfl Hinv; [done|].
  destruct (step_now _ _ Hs) as (Hn & _ & Ht). rewrite <-Ht.
  apply IH; [lia|by eapply step_inv].
Qed.

(** With nothing cached and nothing in flight, every later read happens later. *)
Lemma quiescent_inv s :
  (since s ≤ now s)%Z → (∀ from upto d, (from, upto, d) ∈ history s → (upto ≤ since s)%Z) →
  inflight s = [] → cache (engine s) = ∅ → sys_inv (now s) s.
Proof.
  intros H1 H2 H3 H4. split; [done|done|..].
  - rewrite H3. by intros ld []%elem_of_nil.
  - rewrite H4. intros t u entry. by rewrite lookup_empty.
Qed.

Lemma reachable_inv s : reachable s → ∃ floor, sys_inv floor s.
Proof.
  intros (s0 & (Hh & Hs & Hi & Hc) & Hr). exists (now s0).
  apply (steps_inv _ s0 s Hr); [lia|]. apply quiescent_inv; [done| |done..].
  rewrite Hh. by intros ??? []%elem_of_nil.
Qed.

(** A read after the last commit saw the current content. *)
Lemma was_current floor s r d :
  sys_inv floor s → was s r d → (since s < r)%Z → d = db s.
Proof.
  intros [_ Hh _ _] [[-> _]|(f & t & Hin & Hr)] Hlt; [done|]. specialize (Hh _ _ _ Hin). lia.
Qed.

Lemma cache_get_spec e t key entry :
  cache_get e t key = Some entry → cache e !! key = Some entry ∧ (t - loaded_at entry ≤ ttl e)%Z.
Proof.
  unfold cache_get, elapsed. destruct (cache e !! key) as [en|] eqn:E; [|done].
  destruct (decide _); [|done]. intros [= <-]. split; [done|lia].
Qed.

Lemma load_authority_split d t u roles gs loaded :
  load_role_ids d t u = Ok roles → load_principal_grants d t u roles = Ok gs →
  load_authority d loaded t u = Ok (mkAuthority gs loaded).
Proof. intros H1 H2. unfold load_authority. rewrite H1. simpl. by rewrite H2. Qed.

(** C40: bounded staleness, even when every invalidation event is lost. Whatever
    the interleaving, an authority served from the cache was read from the
    database at most the TTL plus one load's latency ago, roles first. *)
Theorem cache_staleness_bounded (s : Sys) (t u : Uuid) (entry : CachedAuthority) :
  reachable s →
  cache_get (engine s) (now s) (t, u) = Some entry →
  ∃ roles r1 r2 d1 d2,
    (now s - (ttl (engine s) + latency) ≤ r1)%Z ∧ (r1 ≤ r2)%Z ∧ (r2 ≤ now s)%Z
    ∧ was s r1 d1 ∧ load_role_ids d1 t u = Ok roles
    ∧ was s r2 d2 ∧ load_principal_grants d2 t u roles = Ok (auth_grants entry).
Proof.
  intros [floor Hinv]%reachable_inv [He Hfresh]%cache_get_spec.
  destruct (inv_cache _ _ Hinv _ _ _ He) as (roles & r1 & r2 & (_ & _ & d1 & Hw1 & Hr) &
    (Hle & Hn & d2 & Hw2 & Hg) & Hlat & Hln).
  exists roles, r1, r2, d1, d2. split_and!; (done || lia).
Qed.

(** a revocation takes effect. Once the database has been unchanged for
    longer than the TTL plus one load's latency, every authority served from the
    cache is exactly what loading it from the current database gives. *)
Theorem revocation_takes_effect (s : Sys) (t u : Uuid) (entry : CachedAuthority) :
  reachable s →
  (since s + ttl (engine s) + latency < now s)%Z →
  cache_get (engine s) (now s) (t, u) = Some entry →
  load_authority (db s) (loaded_at entry) t u = Ok entry.
Proof.
  intros [floor Hinv]%reachable_inv Hlong [He Hfresh]%cache_get_spec.
  destruct (inv_cache _ _ Hinv _ _ _ He) as (roles & r1 & r2 & (_ & _ & d1 & Hw1 & Hr) &
    (Hle & Hn & d2 & Hw2 & Hg) & Hlat & Hln).
  rewrite (was_current _ _ _ _ Hinv Hw1) in Hr by lia.
  rewrite (was_current _ _ _ _ Hinv Hw2) in Hg by lia.
  rewrite (load_authority_split _ _ _ _ _ _ Hr Hg). by destruct entry.
Qed.

(** an invalidation takes effect at once. If the cache is flushed while no
    load is in flight and the database is not changed afterwards, then from the
    next instant on every cached authority is exactly what the database holds,
    whatever loads, flushes and evictions follow. *)
Theorem invalidation_takes_effect (s s' : Sys) (us rs : list Uuid) (dt : Duration)
    (t u : Uuid) (entry : CachedAuthority) :
  reachable s → inflight s = [] → (0 < dt)%Z →
  rtc step (mkSys (now s + dt) (db s) (since s) (history s)
              (invalidate_subjects (engine s) us rs) []) s' →
  since s' = since s → db s' = db s →
  cache_get (engine s') (now s') (t, u) = Some entry →
  load_authority (db s) (loaded_at entry) t u = Ok entry.
Proof.
  intros [floor Hinv]%reachable_inv Hif Hdt Hsteps Hsince Hdb [He _]%cache_get_spec.
  set (s1 := mkSys _ _ _ _ _ _) in Hsteps.
  destruct Hinv as [H1 H2 H3 H4].
  assert (sys_inv (now s1) s1) as Hi1.
  { apply quiescent_inv; simpl; [lia|done|done|done]. }
  destruct (steps_inv (now s1) s1 s' Hsteps) as [Hinv' _]; [lia|done|].
  destruct (inv_cache _ _ Hinv' _ _ _ He) as (roles & r1 & r2 & (Hf & _ & d1 & Hw1 & Hr) &
    (Hle & Hn & d2 & Hw2 & Hg) & Hlat & Hln). simpl in Hf.
  rewrite (was_current _ _ _ _ Hinv' Hw1) in Hr by lia.
  rewrite (was_current _ _ _ _ Hinv' Hw2) in Hg by lia.
  rewrite Hdb in *. rewrite (load_authority_split _ _ _ _ _ _ Hr Hg). by destruct entry.
Qed.

End Cache.

(** ** Examples *)

#[local] Existing Instance demo_serde.

(** The clock [t] of a system whose database is [demo_db], nothing cached. *)
Definition idle (t : Instant) : Sys := mkSys t demo_db 0 [] new [].

Definition demo_loaded (t : Instant) : CachedAuthority :=
  match load_authority demo_db t 1 10 with Ok a => a | Err _ => mkAuthority [] 0 end.

(** The same after user 10 of tenant 1 has been resolved. *)
Definition warmed (t : Instant) : Sys :=
  mkSys t demo_db 0 [] (with_cache new {[(1%N, 10%N) := demo_loaded t]}) [].

Lemma warm_up t : rtc (step 5) (idle t) (warmed t).
Proof.
  eapply rtc_l.
  { apply (s_miss 5 (idle t) 1 10 [5%N]); [reflexivity|vm_compute; reflexivity]. }
  eapply rtc_l.
  { eapply (s_grants 5 _ [] _ []); [reflexivity|reflexivity|vm_compute; reflexivity]. }
  eapply rtc_l; [|apply rtc_refl].
  match goal with |- step _ ?s _ =>
    refine (s_insert 5 s [] _ [] (auth_grants (demo_loaded t)) t eq_refl _ _) end.
  - vm_compute. reflexivity.
  - simpl. lia.
Defined.

Lemma idle_reachable t : (0 <= t)%Z → reachable 5 (idle t).
Proof. intros Ht. exists (idle t). split; [by repeat split|apply rtc_refl]. Defined.

Lemma warmed_reachable t : (0 <= t)%Z → reachable 5 (warmed t).
Proof. intros Ht. exists (idle t). split; [by repeat split|apply warm_up]. Defined.

Lemma cache_staleness_bounded_witness :
  ∃ roles r1 r2 d1 d2,
    (100 - (60 + 5) ≤ r1)%Z ∧ (r1 ≤ r2)%Z ∧ (r2 ≤ 100)%Z
    ∧ was (warmed 100) r1 d1 ∧ load_role_ids d1 1 10 = Ok roles
    ∧ was (warmed 100) r2 d2 ∧ load_principal_grants d2 1 10 roles
                                = Ok (auth_grants (demo_loaded 100)).
Proof.
  exact (cache_staleness_bounded 5 (warmed 100) 1 10 (demo_loaded 100)
    (warmed_reachable 100 ltac:(lia)) ltac:(vm_compute; reflexivity)).
Defined.

Lemma revocation_takes_effect_witness :
  load_authority demo_db 100 1 10 = Ok (demo_loaded 100).
Proof.
  exact (revocation_takes_effect 5 (warmed 100) 1 10 (demo_loaded 100)
    (warmed_reachable 100 ltac:(lia)) ltac:(simpl; unfold ACCESS_CACHE_TTL; lia)
    ltac:(vm_compute; reflexivity)).
Defined.

Lemma invalidation_takes_effect_witness :
  load_authority demo_db 101 1 10 = Ok (demo_loaded 101).
Proof.
  exact (invalidation_takes_effect 5 (idle 100) (warmed 101) [] [] 1 1 10 (demo_loaded 101)
    (idle_reachable 100 ltac:(lia)) eq_refl ltac:(lia) (warm_up 101) eq_refl eq_refl
    ltac:(vm_compute; reflexivity)).
Defined.
