(* ===== verification/ReportTracker.v ===== *)
(** Reassembly tracking of paginated reports on the controller.

    Models [crates/shared/wire/src/report_tracker.rs] with the pagination
    metadata of [envelope.rs], its validation in [wire_validate_impls.rs] and the
    bounds of [limits.rs]. Page numbers and counts are [u32]; the clock is an
    argument, in seconds. *)

From stdpp Require Import base list gmap sets strings numbers.
From S2P Require Import Prelude.

Module Report.

Definition MAX_REPORT_PAGES : Z := 50.
Definition MAX_PENDING_REPORTS_PER_CONNECTION : nat := 10.
Definition REPORT_TOTAL_TIMEOUT : Duration := 300.
Definition REPORT_IDLE_TIMEOUT : Duration := 15.

Record ReportPagination := mkPagination {
  report_id : Uuid;
  page : Z;
  total_pages : Z;
}.

(** The field named by a [WireValidationError]. *)
Inductive WireValidationError :=
| ErrTotalPages
| ErrPage
| ErrReportId.

(** [impl WireValidate for ReportPagination] *)
Definition wire_validate (p : ReportPagination) : Result WireValidationError unit :=
  if decide (total_pages p = 0 ∨ MAX_REPORT_PAGES < total_pages p)%Z then Err ErrTotalPages
  else if decide (page p = 0 ∨ total_pages p < page p)%Z then Err ErrPage
  else Ok tt.

Inductive PageOutcome :=
| Pending
| Final (accumulated_discovered_count : Z).

Record PendingReport := mkPendingReport {
  pages_received : gset Z;
  pr_total_pages : Z;
  started_at : Instant;
  last_page_at : Instant;
  discovered_count : Z;
}.

Notation Tracker := (gmap Uuid PendingReport).

Definition new : Tracker := ∅.

(** [Instant::duration_since] saturates at zero. *)
Definition duration_since (now since : Instant) : Duration := Z.max 0 (now - since).

Definition expired (now : Instant) (r : PendingReport) : bool :=
  bool_decide (REPORT_TOTAL_TIMEOUT ≤ duration_since now (started_at r))%Z
  || bool_decide (REPORT_IDLE_TIMEOUT ≤ duration_since now (last_page_at r))%Z.

Definition evict_expired (now : Instant) (t : Tracker) : Tracker :=
  filter (λ '(_, r), expired now r = false) t.

Definition register_page (t : Tracker) (now : Instant) (rid : Uuid) (pg total : Z) :
    Tracker * Result WireValidationError PageOutcome :=
  let t := evict_expired now t in
  match t !! rid with
  | Some existing =>
      if decide (pr_total_pages existing ≠ total) then (t, Err ErrTotalPages)
      else if decide (pg ∈ pages_received existing) then (t, Err ErrPage)
      else
        let received := {[pg]} ∪ pages_received existing in
        if decide (Z.of_nat (size received) = pr_total_pages existing)
        then (delete rid t, Ok (Final (discovered_count existing)))
        else (<[rid := mkPendingReport received (pr_total_pages existing) (started_at existing)
                          now (discovered_count existing)]> t, Ok Pending)
  | None =>
      if decide (MAX_PENDING_REPORTS_PER_CONNECTION ≤ size t) then (t, Err ErrReportId)
      else if decide (MAX_REPORT_PAGES < total)%Z then (t, Err ErrTotalPages)
      else if decide (total = 1%Z) then (t, Ok (Final 0))
      else (<[rid := mkPendingReport {[pg]} total now now 0]> t, Ok Pending)
  end.

Definition add_discovered_count (t : Tracker) (rid : Uuid) (count : Z) : Tracker :=
  match t !! rid with
  | Some r =>
      <[rid := mkPendingReport (pages_received r) (pr_total_pages r) (started_at r)
                 (last_page_at r) (u32_saturating_add (discovered_count r) count)]> t
  | None => t
  end.

Definition pending_count (t : Tracker) : nat := size t.

(** ** Invariant *)

(** The pages [1..n]. *)
Definition all_pages (n : Z) : gset Z := list_to_set (seqZ 1 n).

Lemma elem_of_all_pages n p : p ∈ all_pages n ↔ (1 ≤ p ≤ n)%Z.
Proof. unfold all_pages. rewrite elem_of_list_to_set, elem_of_seqZ. lia. Qed.

Lemma size_all_pages n : (0 ≤ n)%Z → Z.of_nat (size (all_pages n)) = n.
Proof.
  intros Hn. unfold all_pages. rewrite size_list_to_set by apply NoDup_seqZ.
  rewrite length_seqZ. lia.
Qed.

Record report_inv (r : PendingReport) : Prop := {
  ri_total : (2 ≤ pr_total_pages r ≤ MAX_REPORT_PAGES)%Z;
  ri_pages : pages_received r ⊆ all_pages (pr_total_pages r);
  ri_some : pages_received r ≠ ∅;
  ri_open : (Z.of_nat (size (pages_received r)) < pr_total_pages r)%Z;
  ri_count : (0 ≤ discovered_count r ≤ u32_max)%Z;
}.

Definition tracker_inv (t : Tracker) : Prop :=
  size t ≤ MAX_PENDING_REPORTS_PER_CONNECTION ∧ map_Forall (λ _, report_inv) t.

Lemma wire_validate_ok p :
  wire_validate p = Ok tt → (0 ≤ page p)%Z → (0 ≤ total_pages p)%Z →
  (1 ≤ page p ≤ total_pages p)%Z ∧ (total_pages p ≤ MAX_REPORT_PAGES)%Z.
Proof.
  unfold wire_validate. destruct (decide _) as [|H1]; [done|].
  destruct (decide _) as [|H2]; [done|]. lia.
Qed.

Lemma evict_lookup now (t : Tracker) rid r :
  evict_expired now t !! rid = Some r ↔ t !! rid = Some r ∧ expired now r = false.
Proof. unfold evict_expired. by rewrite map_lookup_filter_Some. Qed.

Lemma evict_inv now t : tracker_inv t → tracker_inv (evict_expired now t).
Proof.
  intros [Hs Hr]. split.
  - etrans; [|exact Hs]. apply map_subseteq_size. apply map_filter_subseteq.
  - intros rid r [Hl _]%evict_lookup. by apply (Hr rid).
Qed.

(** A full set of received pages is the whole report. *)
Lemma pages_complete (X : gset Z) n :
  X ⊆ all_pages n → Z.of_nat (size X) = n → X = all_pages n.
Proof.
  intros Hsub Hsize. apply set_eq. intros x. split; [by apply Hsub|]. intros Hx.
  destruct (decide (x ∈ X)); [done|]. exfalso.
  assert (X ⊂ all_pages n) as Hss by (split; [done|set_solver]).
  apply subset_size in Hss. pose proof (size_all_pages n). lia.
Qed.

Lemma size_add_page (X : gset Z) pg : pg ∉ X → size ({[pg]} ∪ X) = S (size X).
Proof. intros Hn. rewrite size_union by set_solver. by rewrite (size_singleton (C := gset Z)). Qed.

Lemma u32_saturating_add_bound a b :
  (0 ≤ a)%Z → (0 ≤ b)%Z → (0 ≤ u32_saturating_add a b ≤ u32_max)%Z.
Proof. unfold u32_saturating_add, u32_max. lia. Qed.

Lemma register_page_inv t now rid pg total t' res :
  tracker_inv t → (1 ≤ pg ≤ total)%Z → (total ≤ MAX_REPORT_PAGES)%Z →
  register_page t now rid pg total = (t', res) → tracker_inv t'.
Proof.
  intros Ht Hpg Htot. unfold register_page.
  pose proof (evict_inv now t Ht) as [Hs Hr]. set (t1 := evict_expired now t) in *.
  destruct (t1 !! rid) as [ex|] eqn:El.
  - specialize (Hr rid ex El) as Hex.
    destruct (decide (pr_total_pages ex ≠ total)) as [|Heq%dec_stable]; [by intros [= <- _]|].
    destruct (decide (pg ∈ pages_received ex)) as [|Hnew]; [by intros [= <- _]|].
    destruct (decide _) as [Hfull|Hopen]; intros [= <- _].
    + split; [|by apply map_Forall_delete]. rewrite map_size_delete, El. lia.
    + split; [by rewrite map_size_insert, El|]. apply map_Forall_insert_2; [|done].
      destruct Hex as [H1 H2 H3 H4 H5]. rewrite size_add_page in Hopen by done.
      split; simpl; [done| |set_solver|rewrite size_add_page by done; lia|done].
      apply union_subseteq. split; [|done]. apply singleton_subseteq_l, elem_of_all_pages. lia.
  - destruct (decide _) as [|Hlt]; [by intros [= <- _]|].
    destruct (decide _) as [|_]; [by intros [= <- _]|].
    destruct (decide _) as [|Hne]; intros [= <- _]; [done|].
    split; [rewrite map_size_insert, El; lia|]. apply map_Forall_insert_2; [|done].
    split; cbn [pages_received pr_total_pages discovered_count];
      [lia| |set_solver|rewrite (size_singleton (C := gset Z)); lia|unfold u32_max; lia].
    apply singleton_subseteq_l, elem_of_all_pages. lia.
Qed.

Lemma add_count_inv t rid c : tracker_inv t → (0 ≤ c)%Z → tracker_inv (add_discovered_count t rid c).
Proof.
  intros [Hs Hr] Hc. unfold add_discovered_count. destruct (t !! rid) as [r|] eqn:El; [|done].
  split; [by rewrite map_size_insert, El|]. apply map_Forall_insert_2; [|done].
  destruct (Hr rid r El) as [H1 H2 H3 H4 H5]. split; simpl; try done.
  apply u32_saturating_add_bound; lia.
Qed.

(** One call on the tracker, with a page that passed [wire_validate]. *)
Inductive step : Tracker → Tracker → Prop :=
| step_register t now p t' res :
    wire_validate p = Ok tt → (0 ≤ page p)%Z → (0 ≤ total_pages p)%Z →
    register_page t now (report_id p) (page p) (total_pages p) = (t', res) → step t t'
| step_count t rid c : (0 ≤ c)%Z → step t (add_discovered_count t rid c)
| step_evict t now : step t (evict_expired now t).

Definition reachable (t : Tracker) : Prop := rtc step new t.

Lemma reachable_tracker_inv t : reachable t → tracker_inv t.
Proof.
  unfold reachable. intros Hr. remember new as t0 eqn:E. assert (tracker_inv t0) as Hi.
  { subst. unfold new. split; [rewrite map_size_empty; lia|apply map_Forall_empty]. }
  clear E. induction Hr as [t|t1 t2 t3 Hst _ IH]; [done|]. apply IH.
  destruct Hst as [t now p t' res Hv H1 H2 Hreg|t rid c Hc|t now].
  - destruct (wire_validate_ok p Hv H1 H2) as [? ?]. by eapply register_page_inv.
  - by apply add_count_inv.
  - by apply evict_inv.
Qed.

(** ** Finalization means completeness *)

(** a report is finalized only when it is complete. In every reachable
    tracker, when a validated page is answered [Final], every page [1..total] of
    that report has been received exactly once (this page being the last one
    missing), the accumulated count is the one recorded for the report, and the
    report is no longer tracked; and at most
    [MAX_PENDING_REPORTS_PER_CONNECTION] reports are ever pending. *)
Theorem final_means_complete (t : Tracker) (now : Instant) (p : ReportPagination)
    (t' : Tracker) (c : Z) :
  reachable t → wire_validate p = Ok tt → (0 ≤ page p)%Z → (0 ≤ total_pages p)%Z →
  register_page t now (report_id p) (page p) (total_pages p) = (t', Ok (Final c)) →
  size t' ≤ MAX_PENDING_REPORTS_PER_CONNECTION
  ∧ t' !! report_id p = None
  ∧ ((total_pages p = 1%Z ∧ c = 0%Z)
     ∨ ∃ r, t !! report_id p = Some r ∧ expired now r = false
          ∧ pr_total_pages r = total_pages p ∧ page p ∉ pages_received r
          ∧ {[page p]} ∪ pages_received r = all_pages (total_pages p)
          ∧ c = discovered_count r).
Proof.
  intros Hr Hv H1 H2 Hreg. destruct (wire_validate_ok p Hv H1 H2) as [Hpg Htot].
  pose proof (reachable_tracker_inv t Hr) as Hinv.
  destruct (register_page_inv _ _ _ _ _ _ _ Hinv Hpg Htot Hreg) as [Hs' _].
  split; [done|]. unfold register_page in Hreg.
  destruct (evict_expired now t !! report_id p) as [ex|] eqn:El.
  - destruct (decide (pr_total_pages ex ≠ total_pages p)) as [|Heq%dec_stable]; [done|].
    destruct (decide (page p ∈ pages_received ex)) as [|Hnew]; [done|].
    destruct (decide _) as [Hfull|]; [|done]. injection Hreg as <- <-.
    split; [by apply lookup_delete_eq|]. right. exists ex. apply evict_lookup in El as [El He].
    destruct Hinv as [_ Hall]. destruct (Hall _ _ El) as [_ Hsub _ _ _].
    split_and!; try done. rewrite <-Heq. apply pages_complete; [|done].
    apply union_subseteq. split; [|done]. apply singleton_subseteq_l, elem_of_all_pages. lia.
  - destruct (decide _) as [|_]; [done|]. destruct (decide _) as [|_]; [done|].
    destruct (decide _) as [Hone|_]; [|done]. injection Hreg as <- <-. auto.
Qed.

(** ** Delivery of all pages, in any order *)

(** The handler's loop over the pages of one report: register, then account the
    page's discoveries. *)
Fixpoint deliver (t : Tracker) (rid : Uuid) (total : Z) (l : list (Instant * Z * Z)) :
    Tracker * list (Result WireValidationError PageOutcome) :=
  match l with
  | [] => (t, [])
  | (now, pg, count) :: l' =>
      let '(t1, o) := register_page t now rid pg total in
      let '(t2, os) := deliver (add_discovered_count t1 rid count) rid total l' in
      (t2, o :: os)
  end.

(** Arrival times: no page later than [REPORT_IDLE_TIMEOUT] after the previous one
    or [REPORT_TOTAL_TIMEOUT] after the first. *)
Fixpoint timely (start last : Instant) (l : list (Instant * Z * Z)) : Prop :=
  match l with
  | [] => True
  | (now, _, _) :: l' =>
      (last ≤ now < last + REPORT_IDLE_TIMEOUT)%Z ∧ (now < start + REPORT_TOTAL_TIMEOUT)%Z
      ∧ timely start now l'
  end.

Lemma register_open t now rid r pg :
  t !! rid = Some r → expired now r = false → pg ∉ pages_received r →
  register_page t now rid pg (pr_total_pages r) =
  (if decide (Z.of_nat (S (size (pages_received r))) = pr_total_pages r)
   then (delete rid (evict_expired now t), Ok (Final (discovered_count r)))
   else (<[rid := mkPendingReport ({[pg]} ∪ pages_received r) (pr_total_pages r) (started_at r)
                    now (discovered_count r)]> (evict_expired now t), Ok Pending)).
Proof.
  intros Hl He Hn. unfold register_page.
  rewrite (proj2 (evict_lookup now t rid r)) by done.
  rewrite decide_False by (intros Hx; by apply Hx). rewrite decide_False by done.
  by rewrite size_add_page.
Qed.

Lemma not_expired now r :
  (started_at r ≤ now)%Z → (now < started_at r + REPORT_TOTAL_TIMEOUT)%Z →
  (last_page_at r ≤ now < last_page_at r + REPORT_IDLE_TIMEOUT)%Z → expired now r = false.
Proof.
  intros H1 H2 H3. unfold expired, duration_since. apply orb_false_iff.
  split; apply bool_decide_eq_false; unfold REPORT_TOTAL_TIMEOUT, REPORT_IDLE_TIMEOUT in *; lia.
Qed.

(** Completing an open report with the missing pages, in any order. *)
Lemma deliver_open rid l t r :
  t !! rid = Some r → l ≠ [] → NoDup l.*1.*2 →
  (∀ pg, pg ∈ l.*1.*2 → pg ∉ pages_received r) →
  Z.of_nat (size (pages_received r) + length l) = pr_total_pages r →
  (started_at r ≤ last_page_at r)%Z → timely (started_at r) (last_page_at r) l →
  ∃ t', deliver t rid (pr_total_pages r) l =
        (t', replicate (length l - 1) (Ok Pending) ++
             [Ok (Final (foldl u32_saturating_add (discovered_count r)
                           (take (length l - 1) l.*2)))])
        ∧ t' !! rid = None.
Proof.
  revert t r. induction l as [|[[now pg] count] l IH]; intros t r Hl Hne Hnd Hdis Hsz Hle Ht; [done|].
  simpl in Hnd, Hdis, Hsz, Ht. apply list.NoDup_cons in Hnd as [Hpg Hnd].
  destruct Ht as (Hidle & Htotal & Ht).
  assert (expired now r = false) as Hexp by (apply not_expired; [lia|done|done]).
  assert (pg ∉ pages_received r) as Hnew by (apply Hdis; left).
  cbn [deliver]. rewrite (register_open t now rid r pg Hl Hexp Hnew).
  destruct (decide _) as [Hlast|Hmore].
  - assert (l = []) as -> by (destruct l; [done|simpl in Hsz; lia]). simpl.
    unfold add_discovered_count. rewrite lookup_delete_eq.
    eexists. split; [done|]. by apply lookup_delete_eq.
  - set (r1 := mkPendingReport ({[pg]} ∪ pages_received r) (pr_total_pages r) (started_at r) now
                 (u32_saturating_add (discovered_count r) count)).
    assert (add_discovered_count (<[rid:=mkPendingReport ({[pg]} ∪ pages_received r)
      (pr_total_pages r) (started_at r) now (discovered_count r)]> (evict_expired now t)) rid count
      = <[rid:=r1]> (evict_expired now t)) as ->.
    { unfold add_discovered_count. rewrite lookup_insert_eq. simpl. by rewrite insert_insert_eq. }
    destruct (IH (<[rid:=r1]> (evict_expired now t)) r1) as (t' & Hd & Hnone).
    + by rewrite lookup_insert_eq.
    + intros ->. simpl in Hsz. lia.
    + done.
    + intros q Hq. cbn [r1 pages_received]. intros [->%elem_of_singleton|Hin]%elem_of_union; [done|].
      by apply (Hdis q); [right|].
    + cbn [r1 pages_received pr_total_pages]. rewrite size_add_page by done. lia.
    + cbn [r1 started_at last_page_at]. lia.
    + done.
    + change (pr_total_pages r) with (pr_total_pages r1). rewrite Hd. exists t'. split; [|done].
      destruct l as [|x l]; [simpl in Hsz; lia|]. simpl. by rewrite !Nat.sub_0_r.
Qed.

(** every paginated report is finalized exactly once. If all pages of a new
    report of [2..MAX_REPORT_PAGES] pages arrive, in any order, each within the
    idle timeout of the previous one and within the total timeout, while the
    connection has room for one more pending report, then every page but the last
    is answered [Pending], the last one [Final] with the saturating sum of the
    counts of the earlier pages, and nothing remains tracked for the report. *)
Theorem report_delivery (t : Tracker) (rid : Uuid) (n : Z) (now0 : Instant)
    (pg0 c0 : Z) (l : list (Instant * Z * Z)) :
  (2 ≤ n ≤ MAX_REPORT_PAGES)%Z →
  evict_expired now0 t !! rid = None →
  size (evict_expired now0 t) < MAX_PENDING_REPORTS_PER_CONNECTION →
  (pg0 :: l.*1.*2) ≡ₚ seqZ 1 n →
  timely now0 now0 l →
  ∃ t', deliver t rid n ((now0, pg0, c0) :: l) =
        (t', replicate (length l) (Ok Pending) ++
             [Ok (Final (foldl u32_saturating_add (u32_saturating_add 0 c0)
                           (take (length l - 1) l.*2)))])
        ∧ t' !! rid = None.
Proof.
  intros Hn Hnone Hroom Hperm Ht. cbn [deliver]. unfold register_page. rewrite Hnone.
  rewrite decide_False by lia. rewrite decide_False by lia. rewrite decide_False by lia.
  set (r := mkPendingReport {[pg0]} n now0 now0 (u32_saturating_add 0 c0)).
  assert (add_discovered_count (<[rid:=mkPendingReport {[pg0]} n now0 now0 0]>
    (evict_expired now0 t)) rid c0 = <[rid:=r]> (evict_expired now0 t)) as ->.
  { unfold add_discovered_count. rewrite lookup_insert_eq. simpl. by rewrite insert_insert_eq. }
  assert (NoDup (pg0 :: l.*1.*2)) as [Hpg0 Hnd]%list.NoDup_cons
    by (rewrite Hperm; apply NoDup_seqZ).
  assert (Z.of_nat (S (length l)) = n) as Hlen.
  { apply Permutation_length in Hperm. simpl in Hperm.
    rewrite !length_fmap, length_seqZ in Hperm. lia. }
  destruct (deliver_open rid l (<[rid:=r]> (evict_expired now0 t)) r) as (t' & Hd & Hfin).
  - by rewrite lookup_insert_eq.
  - intros ->. simpl in Hlen. lia.
  - done.
  - intros q Hq. cbn [r pages_received]. intros ->%elem_of_singleton. done.
  - cbn [r pages_received pr_total_pages]. rewrite (size_singleton (C := gset Z)). lia.
  - cbn [r started_at last_page_at]. lia.
  - done.
  - cbn [r pr_total_pages] in Hd. rewrite Hd. exists t'. split; [|done].
    destruct l as [|x l]; [simpl in Hlen; lia|]. simpl. by rewrite !Nat.sub_0_r.
Qed.

(** ** Examples *)

(** A three-page report whose second page has arrived. *)
Definition demo_tracker : Tracker :=
  (register_page (add_discovered_count (register_page new 0 9 1 3).1 9 4) 2 9 3 3).1.

Lemma demo_tracker_reachable : reachable demo_tracker.
Proof.
  unfold reachable. eapply rtc_l.
  { apply (step_register new 0 (mkPagination 9 1 3) (register_page new 0 9 1 3).1 (Ok Pending));
      [vm_compute; reflexivity|simpl; lia|simpl; lia|vm_compute; reflexivity]. }
  eapply rtc_l.
  { apply (step_count _ 9 4). lia. }
  eapply rtc_l; [|apply rtc_refl].
  apply (step_register _ 2 (mkPagination 9 3 3) _ (Ok Pending));
    [vm_compute; reflexivity|simpl; lia|simpl; lia|vm_compute; reflexivity].
Defined.

Lemma final_means_complete_witness :
  (register_page demo_tracker 3 9 2 3).2 = Ok (Final 4)
  ∧ size (register_page demo_tracker 3 9 2 3).1 ≤ MAX_PENDING_REPORTS_PER_CONNECTION.
Proof.
  split; [vm_compute; reflexivity|].
  apply (final_means_complete demo_tracker 3 (mkPagination 9 2 3)
    (register_page demo_tracker 3 9 2 3).1 4 demo_tracker_reachable);
    [vm_compute; reflexivity|simpl; lia|simpl; lia|vm_compute; reflexivity].
Defined.

Lemma report_delivery_witness :
  ∃ t', deliver new 9 3 [(0%Z, 2%Z, 5%Z); (1%Z, 3%Z, 7%Z); (4%Z, 1%Z, 2%Z)] =
        (t', [Ok Pending; Ok Pending; Ok (Final 12)]) ∧ t' !! 9%N = None.
Proof.
  apply (report_delivery new 9 3 0 2 5 [(1%Z, 3%Z, 7%Z); (4%Z, 1%Z, 2%Z)]).
  - unfold MAX_REPORT_PAGES. lia.
  - reflexivity.
  - vm_compute. lia.
  - vm_compute. solve_Permutation.
  - simpl. unfold REPORT_IDLE_TIMEOUT, REPORT_TOTAL_TIMEOUT. lia.
Defined.

End Report.
