(* ===== verification/Paginate.v ===== *)
(** Splitting of reports into pages on the sending side, and the sequence numbers
    that protect the connection against replay.

    Models [crates/shared/wire/src/paginate.rs] and the counters of
    [crates/shared/wire/src/envelope.rs]. The JSON length of a value is computed by
    [serde_json]: it is a parameter of the section, and may fail. *)

From stdpp Require Import base list gmap sets strings numbers.
From S2P Require Import Prelude ReportTracker.

Import Report.

Definition MAX_DISCOVERIES_PER_PLUGIN : nat := 1000.
Definition PAGINATION_SIZE_THRESHOLD : N := 786432.

Record ReportPageLimits := mkPageLimits {
  lim_report_hosts : nat;
  lim_version_check_results : nat;
  lim_discovery_results : nat;
  lim_batch_update_results : nat;
}.

(** [impl Default for ReportPageLimits] *)
Definition default_limits : ReportPageLimits := mkPageLimits 500 2000 50 500.

(** [trait Paginatable], with what the implementations promise. *)
Class Paginatable (P Item : Type) := {
  items : P → list Item;
  with_items : P → list Item → P;
  max_items_per_page : ReportPageLimits → nat;
  normalize : P → P;
  items_with_items : ∀ p l, items (with_items p l) = l;
  with_items_items : ∀ p, with_items p (items p) = p;
  with_items_twice : ∀ p l l', with_items (with_items p l) l' = with_items p l';
}.

(** [slice::chunks] *)
Fixpoint chunks_fuel {A} (fuel n : nat) (l : list A) : list (list A) :=
  match fuel, l with
  | _, [] => []
  | 0, _ => []
  | S fuel', _ => take n l :: chunks_fuel fuel' n (drop n l)
  end.
Definition chunks {A} (n : nat) (l : list A) : list (list A) := chunks_fuel (length l) n l.

(** ** The four payloads *)

Section Payloads.
Context {Discovered HostInfo CheckResult BatchItemResult Capabilities : Type}.

Record DiscoveryPluginResult := mkDiscoveryPluginResult {
  plugin_config_id : option Uuid;
  plugin_type : string;
  discoveries : list Discovered;
  error : option string;
}.

Record DiscoveryResultsPayload := mkDiscoveryResults {
  host_machine_id : string;
  dr_results : list DiscoveryPluginResult;
}.

(** The closure of [DiscoveryResultsPayload::normalize]. *)
Definition normalize_result (r : DiscoveryPluginResult) : list DiscoveryPluginResult :=
  if decide (length (discoveries r) ≤ MAX_DISCOVERIES_PER_PLUGIN) then [r]
  else (λ chunk, mkDiscoveryPluginResult (plugin_config_id r) (plugin_type r) chunk (error r))
         <$> chunks MAX_DISCOVERIES_PER_PLUGIN (discoveries r).

#[global] Instance discovery_paginatable :
  Paginatable DiscoveryResultsPayload DiscoveryPluginResult.
Proof.
  refine {|
    items := dr_results;
    with_items p l := mkDiscoveryResults (host_machine_id p) l;
    max_items_per_page := lim_discovery_results;
    normalize p := mkDiscoveryResults (host_machine_id p) (dr_results p ≫= normalize_result);
  |}; [done|by intros []|done].
Defined.

Record VersionCheckResultsPayload := mkVersionCheckResults { vc_results : list CheckResult }.

#[global] Instance version_check_paginatable : Paginatable VersionCheckResultsPayload CheckResult.
Proof.
  refine {|
    items := vc_results;
    with_items _ l := mkVersionCheckResults l;
    max_items_per_page := lim_version_check_results;
    normalize p := p;
  |}; [done|by intros []|done].
Defined.

Record ReportHostsPayload := mkReportHosts {
  rh_hosts : list HostInfo;
  agent_version : string;
  rh_capabilities : Capabilities;
}.

#[global] Instance report_hosts_paginatable : Paginatable ReportHostsPayload HostInfo.
Proof.
  refine {|
    items := rh_hosts;
    with_items p l := mkReportHosts l (agent_version p) (rh_capabilities p);
    max_items_per_page := lim_report_hosts;
    normalize p := p;
  |}; [done|by intros []|done].
Defined.

Record BatchUpdateResultPayload := mkBatchUpdateResult {
  batch_id : Uuid;
  bu_results : list BatchItemResult;
}.

#[global] Instance batch_update_paginatable : Paginatable BatchUpdateResultPayload BatchItemResult.
Proof.
  refine {|
    items := bu_results;
    with_items p l := mkBatchUpdateResult (batch_id p) l;
    max_items_per_page := lim_batch_update_results;
    normalize p := p;
  |}; [done|by intros []|done].
Defined.

(** Normalization keeps every discovery, in order, with its plugin's fields, and
    bounds every entry. *)
Lemma chunks_fuel_spec {A} n fuel (l : list A) :
  0 < n → length l ≤ fuel →
  concat (chunks_fuel fuel n l) = l ∧ Forall (λ c, c ≠ [] ∧ length c ≤ n) (chunks_fuel fuel n l).
Proof.
  intros Hn. revert l. induction fuel as [|fuel IH]; intros [|x l] Hl; simpl in *;
    try (split; [done|constructor]); try lia.
  destruct (IH (drop n (x :: l))) as [Hc Hf]; [rewrite length_drop; simpl; lia|]. split.
  - rewrite Hc. by rewrite take_drop.
  - constructor; [|done]. split; [destruct n; [lia|done]|]. rewrite length_take. lia.
Qed.

Lemma normalize_result_spec r :
  concat (discoveries <$> normalize_result r) = discoveries r
  ∧ Forall (λ r', plugin_config_id r' = plugin_config_id r ∧ plugin_type r' = plugin_type r
             ∧ error r' = error r ∧ length (discoveries r') ≤ MAX_DISCOVERIES_PER_PLUGIN)
      (normalize_result r).
Proof.
  unfold normalize_result. destruct (decide _) as [Hle|Hgt].
  - simpl. rewrite app_nil_r. split; [done|]. by apply Forall_singleton.
  - destruct (chunks_fuel_spec MAX_DISCOVERIES_PER_PLUGIN (length (discoveries r)) (discoveries r))
      as [Hc Hf]; [unfold MAX_DISCOVERIES_PER_PLUGIN; lia|done|].
    rewrite <-list_fmap_compose. split.
    + rewrite (list_fmap_ext _ id); [by rewrite list_fmap_id|done].
    + apply Forall_fmap. eapply list.Forall_impl; [exact Hf|]. intros c [_ Hlen]. by split_and!.
Qed.

End Payloads.
Arguments DiscoveryPluginResult : clear implicits.
Arguments DiscoveryResultsPayload : clear implicits.

(** ** Pagination *)

Record PayloadPage (P : Type) := mkPayloadPage {
  payload : P;
  pagination : option ReportPagination;
}.
Arguments mkPayloadPage {P} payload pagination.
Arguments payload {P} p.
Arguments pagination {P} p.

(** [usize as u32] *)
Definition as_u32 (n : nat) : Z := Z.of_nat n mod 4294967296.

Section Paginate.
Context {P Item : Type} `{!Paginatable P Item} {SerdeError : Type}.

(** [serde_json::to_string(..).len()] of a payload and of an item. *)
Context (json_len : P → Result SerdeError N) (item_json_len : Item → Result SerdeError N).

(** The page-building loop, with its variables [pages], [current_page] and
    [current_size]. *)
Fixpoint paginate_loop (budget : N) (max : nat) (pages : list (list Item))
    (current_page : list Item) (current_size : N) (l : list Item) :
    Result SerdeError (list (list Item)) :=
  match l with
  | [] => Ok (match current_page with [] => pages | _ => pages ++ [current_page] end)
  | item :: l' =>
      len ← item_json_len item;
      let item_cost := (len + 1)%N in
      if (negb (bool_decide (length current_page = 0)) && (budget <? current_size + item_cost)%N)
         || (max <=? length current_page)
      then paginate_loop budget max (pages ++ [current_page]) [item] item_cost l'
      else paginate_loop budget max pages (current_page ++ [item]) (current_size + item_cost) l'
  end.

(** [paginate_payload]; [rid] is [Uuid::new_v4()]. *)
Definition paginate_payload (p : P) (limits : ReportPageLimits) (rid : Uuid) :
    Result SerdeError (list (PayloadPage P)) :=
  let p := normalize p in
  let max := max_items_per_page limits in
  full ← json_len p;
  if (full <=? PAGINATION_SIZE_THRESHOLD)%N && (length (items p) <=? max)
  then Ok [mkPayloadPage p None]
  else if bool_decide (length (items p) = 0) then Ok [mkPayloadPage p None]
  else
    empty_json_len ← json_len (with_items p []);
    let budget := (PAGINATION_SIZE_THRESHOLD - (empty_json_len + 150))%N in
    pages ← paginate_loop budget max [] [] 0%N (items p);
    Ok (imap (λ i l, mkPayloadPage (with_items p l)
                       (Some (mkPagination rid (as_u32 i + 1) (as_u32 (length pages))))) pages).

(** ** Correctness *)

Definition item_cost (i : Item) : N :=
  match item_json_len i with Ok n => (n + 1)%N | Err _ => 0%N end.

Definition cost (l : list Item) : N := foldr N.add 0%N (item_cost <$> l).

Lemma cost_snoc l i : cost (l ++ [i]) = (cost l + item_cost i)%N.
Proof.
  induction l as [|x l IH]; [unfold cost; simpl; lia|].
  change (cost ((x :: l) ++ [i])) with (item_cost x + cost (l ++ [i]))%N. rewrite IH.
  change (cost (x :: l)) with (item_cost x + cost l)%N. lia.
Qed.

(** A finished page: not empty, within the item bound, and within the byte budget
    unless a single item exceeds it. *)
Definition page_ok (budget : N) (max : nat) (pg : list Item) : Prop :=
  pg ≠ [] ∧ length pg ≤ max ∧ (length pg = 1 ∨ (cost pg ≤ budget)%N).

Lemma paginate_loop_ok budget max pages cur l out :
  0 < max →
  Forall (page_ok budget max) pages → (cur = [] ∨ page_ok budget max cur) →
  paginate_loop budget max pages cur (cost cur) l = Ok out →
  concat out = concat pages ++ cur ++ l ∧ Forall (page_ok budget max) out.
Proof.
  intros Hmax. revert pages cur. induction l as [|i l IH]; intros pages cur Hp Hc; simpl.
  - intros ?; inv_ok. destruct cur as [|c cur]; [by rewrite !app_nil_r|].
    destruct Hc as [|Hc]; [done|]. rewrite concat_app. simpl. rewrite !app_nil_r.
    split; [done|]. by apply Forall_app_2; [|apply Forall_singleton].
  - destruct (item_json_len i) as [len|] eqn:El; [|done]. simpl.
    assert (item_cost i = (len + 1)%N) as Hi by (unfold item_cost; by rewrite El).
    destruct (_ || _) eqn:Efull.
    + assert (cost [i] = (len + 1)%N) as Hc1 by (unfold cost; simpl; rewrite Hi; lia).
      rewrite <-Hc1. intros Hl. apply IH in Hl as [Hcat Hok].
      * rewrite Hcat, concat_app. simpl. by rewrite app_nil_r, <-!app_assoc.
      * apply Forall_app_2; [done|]. apply Forall_singleton.
        destruct Hc as [-> |?]; [|done]. simpl in Efull. destruct max; [lia|done].
      * right. split_and!; [done|simpl; lia|by left].
    + apply orb_false_iff in Efull as [Hsize Hcount]. apply Nat.leb_gt in Hcount.
      rewrite <-Hi, <-cost_snoc. intros Hl. apply IH in Hl as [Hcat Hok]; [|done|].
      * split; [|done]. rewrite Hcat. by rewrite <-!app_assoc.
      * right. unfold page_ok. rewrite length_app, cost_snoc. simpl.
        split_and!; [by destruct cur|lia|].
        destruct cur as [|c cur]; [by left|right]. simpl in Hsize.
        apply N.ltb_ge in Hsize. rewrite <-Hi in Hsize. exact Hsize.
Qed.

(** The numbering of the pages of one report. *)
Definition numbered (rid : Uuid) (n : nat) (k : nat) (pg : PayloadPage P) : Prop :=
  pagination pg = Some (mkPagination rid (Z.of_nat k + 1) (Z.of_nat n)).

Lemma as_u32_small n : (Z.of_nat n < 4294967296)%Z → as_u32 n = Z.of_nat n.
Proof. intros Hn. unfold as_u32. apply Z.mod_small. lia. Qed.

Lemma concat_length_le (pages : list (list Item)) budget max :
  Forall (page_ok budget max) pages → length pages ≤ length (concat pages).
Proof.
  induction 1 as [|pg pages [Hne _] _ IH]; simpl; [lia|]. rewrite length_app.
  destruct pg; [done|]. simpl. lia.
Qed.

(** pagination loses nothing and respects its limits. For a positive page
    limit, the pages of a report carry together exactly the items of the
    normalized payload in order, with every other field of the payload unchanged;
    either there is one page without metadata, or the pages are numbered [1..n]
    out of [n] under one report id, each holds between one item and the limit, and
    each stays within the byte budget unless it is a single oversized item. *)
Theorem paginate_complete (p : P) (limits : ReportPageLimits) (rid : Uuid)
    (pages : list (PayloadPage P)) :
  0 < max_items_per_page limits →
  (Z.of_nat (length (items (normalize p))) < 4294967296)%Z →
  paginate_payload p limits rid = Ok pages →
  concat (items ∘ payload <$> pages) = items (normalize p)
  ∧ (∀ pg, pg ∈ pages → with_items (payload pg) (items (normalize p)) = normalize p)
  ∧ (pages = [mkPayloadPage (normalize p) None]
     ∨ ∃ budget, ∀ k pg, pages !! k = Some pg →
         numbered rid (length pages) k pg
         ∧ page_ok budget (max_items_per_page limits) (items (payload pg))).
Proof.
  intros Hmax Hlen. unfold paginate_payload. set (p' := normalize p) in *.
  assert (concat (items ∘ payload <$> [mkPayloadPage p' None]) = items p'
    ∧ (∀ pg, pg ∈ [mkPayloadPage p' None] → with_items (payload pg) (items p') = p')) as Hone.
  { simpl. rewrite app_nil_r. split; [done|]. intros pg ->%list_elem_of_singleton.
    apply with_items_items. }
  intros Hp. inv_ok. destruct (_ && _); [inv_ok; tauto|].
  destruct (bool_decide _); [inv_ok; tauto|]. inv_ok.
  change 0%N with (cost []) in Ha1. apply paginate_loop_ok in Ha1 as [Hcat Hok];
    [|done|constructor|by left]. simpl in Hcat.
  assert (Z.of_nat (length a1) < 4294967296)%Z as Hsmall.
  { pose proof (concat_length_le _ _ _ Hok). rewrite Hcat in *. lia. }
  split_and!.
  - rewrite fmap_imap.
    rewrite (imap_ext _ (λ _ l, l)); [|intros; simpl; apply items_with_items].
    rewrite <-Hcat. f_equal. apply list_eq. intros k. rewrite list_lookup_imap.
    by destruct (a1 !! k).
  - intros pg (i & l & -> & _)%elem_of_lookup_imap. simpl.
    rewrite with_items_twice. apply with_items_items.
  - right. eexists. intros k pg. rewrite list_lookup_imap.
    destruct (a1 !! k) as [l|] eqn:El; [|done]. simpl. intros [= <-].
    rewrite length_imap. unfold numbered. simpl. rewrite items_with_items.
    pose proof (lookup_lt_Some _ _ _ El).
    rewrite !as_u32_small by lia. split; [done|].
    rewrite list.Forall_forall in Hok. apply Hok. by eapply list_elem_of_lookup_2.
Qed.

End Paginate.

(** ** Example: five results, at most two per page *)

Lemma paginate_complete_witness :
  let limits := mkPageLimits 2 2 2 2 in
  let p := mkVersionCheckResults [1; 2; 3; 4; 5] in
  match paginate_payload (Item := nat) (SerdeError := unit) (λ _, Ok 100%N) (λ _, Ok 20%N)
          p limits 7 with
  | Ok pages => concat (items ∘ payload <$> pages) = [1; 2; 3; 4; 5] ∧ length pages = 3
  | Err _ => False
  end.
Proof.
  intros limits p.
  destruct (paginate_payload (Item := nat) (SerdeError := unit) (λ _, Ok 100%N) (λ _, Ok 20%N)
              p limits 7) as [pages|e] eqn:E; [|vm_compute in E; discriminate E].
  destruct (paginate_complete (Item := nat) (λ _, Ok 100%N) (λ _, Ok 20%N) p limits 7 pages
              ltac:(apply Nat.ltb_lt; reflexivity) ltac:(vm_compute; reflexivity) E) as [Hc _].
  split; [exact Hc|]. vm_compute in E. injection E as <-. reflexivity.
Defined.
