(* ===== verification/WsProtocol.v ===== *)
(** The WebSocket protocol of a service connection: sequence numbers, message
    deserialization and the per-connection rate limiter.

    Models [crates/shared/wire/src/envelope.rs] (the two sequence counters) and
    [crates/ui/web-api/src/routes/service_ws/protocol.rs]
    ([deserialize_service_msg], [MessageRateLimiter]). [u64] counters wrap at
    their width. JSON parsing is [serde_json]'s and message validation is the
    [WireValidate] implementation of the message: both are parameters. Times are
    nanoseconds. *)

From stdpp Require Import base list gmap sets strings numbers sorting.
From S2P Require Import Prelude ReportTracker.

Module Ws.
Import Report.

(** ** Sequence counters *)

Definition u64_modulus : Z := 18446744073709551616.

(** [u64 += 1] in a release build. *)
Definition u64_succ (n : Z) : Z := (n + 1) mod u64_modulus.

Definition CURRENT_PROTOCOL_VERSION : Z := 1.

Record OutgoingSeq := mkOutgoing { next : Z }.
Record IncomingSeq := mkIncoming { expected : Z }.

Definition outgoing_new : OutgoingSeq := mkOutgoing 1.
Definition incoming_new : IncomingSeq := mkIncoming 1.

Record ServiceEnvelope (Msg : Type) := mkServiceEnvelope {
  protocol_version : Z;
  seq : Z;
  env_pagination : option ReportPagination;
  message : Msg;
}.
Arguments mkServiceEnvelope {Msg} protocol_version seq env_pagination message.
Arguments protocol_version {Msg} s.
Arguments seq {Msg} s.
Arguments env_pagination {Msg} s.
Arguments message {Msg} s.

Definition wrap_service_paginated {Msg} (o : OutgoingSeq) (m : Msg)
    (pagination : option ReportPagination) : OutgoingSeq * ServiceEnvelope Msg :=
  (mkOutgoing (u64_succ (next o)),
   mkServiceEnvelope CURRENT_PROTOCOL_VERSION (next o) pagination m).

Record SeqError := mkSeqError { err_expected : Z; err_received : Z }.

Definition validate (i : IncomingSeq) (received : Z) : IncomingSeq * Result SeqError unit :=
  if decide (received ≠ expected i) then (i, Err (mkSeqError (expected i) received))
  else (mkIncoming (u64_succ (expected i)), Ok tt).

(** ** Deserialization *)

Inductive ServiceWsError :=
| Deserialize (reason : string)
| SequenceValidation (e : SeqError)
| ProtocolVersionMismatch (exp received : Z).

Record EnvelopeHeader := mkHeader { h_protocol_version : Z; h_seq : Z }.

Record DeserializedMessage (Msg : Type) := mkDeserialized {
  d_message : Msg;
  d_pagination : option ReportPagination;
}.
Arguments mkDeserialized {Msg} d_message d_pagination.

Section Deserialize.
Context {Msg : Type}
  (parse_header : string → Result string EnvelopeHeader)
  (parse_envelope : string → Result string (ServiceEnvelope Msg))
  (message_validate : Msg → Result string unit).

Definition deserialize_service_msg (i : IncomingSeq) (text : string) :
    IncomingSeq * Result ServiceWsError (option (DeserializedMessage Msg)) :=
  match parse_header text with
  | Err e => (i, Err (Deserialize e))
  | Ok header =>
      if decide (h_protocol_version header ≠ CURRENT_PROTOCOL_VERSION)
      then (i, Err (ProtocolVersionMismatch CURRENT_PROTOCOL_VERSION (h_protocol_version header)))
      else
        match validate i (h_seq header) with
        | (i', Err e) => (i', Err (SequenceValidation e))
        | (i', Ok _) =>
            match parse_envelope text with
            | Ok envelope =>
                match message_validate (message envelope) with
                | Err e => (i', Err (Deserialize e))
                | Ok _ =>
                    match env_pagination envelope with
                    | Some p =>
                        match wire_validate p with
                        | Err _ => (i', Err (Deserialize "pagination"))
                        | Ok _ => (i', Ok (Some (mkDeserialized (message envelope) (Some p))))
                        end
                    | None => (i', Ok (Some (mkDeserialized (message envelope) None)))
                    end
                end
            | Err _ => (i', Ok None)
            end
        end
  end.

(** The receive loop of a connection: it closes at the first hard error. *)
Fixpoint receive_all (i : IncomingSeq) (texts : list string) :
    IncomingSeq * list (option (DeserializedMessage Msg)) * option ServiceWsError :=
  match texts with
  | [] => (i, [], None)
  | text :: texts' =>
      match deserialize_service_msg i text with
      | (i', Ok m) =>
          let '(i'', ms, err) := receive_all i' texts' in (i'', m :: ms, err)
      | (i', Err e) => (i', [], Some e)
      end
  end.

(** ** Replay protection *)

Definition seq_of (text : string) : option Z :=
  match parse_header text with Ok h => Some (h_seq h) | Err _ => None end.

Lemma u64_succ_small n : (0 ≤ n < u64_modulus - 1)%Z → u64_succ n = (n + 1)%Z.
Proof. intros Hn. unfold u64_succ. apply Z.mod_small. lia. Qed.

Lemma deserialize_ok i text i' m :
  deserialize_service_msg i text = (i', Ok m) →
  seq_of text = Some (expected i) ∧ i' = mkIncoming (u64_succ (expected i)).
Proof.
  unfold deserialize_service_msg, seq_of, validate.
  destruct (parse_header text) as [h|]; [|done].
  destruct (decide _); [done|]. destruct (decide (h_seq h ≠ expected i)) as [|Heq%dec_stable]; [done|].
  rewrite Heq. intros Hd. split; [done|]. by repeat case_match; simplify_eq.
Qed.

Lemma receive_all_seqs texts i i' ms err :
  (0 ≤ expected i)%Z → (expected i + Z.of_nat (length texts) < u64_modulus)%Z →
  receive_all i texts = (i', ms, err) →
  length ms ≤ length texts
  ∧ (seq_of <$> take (length ms) texts)
    = (Some <$> seqZ (expected i) (Z.of_nat (length ms)))
  ∧ (err = None → length ms = length texts).
Proof.
  revert i i' ms err. induction texts as [|text texts IH]; intros i i' ms err H0 Hlt; simpl.
  { intros [= <- <- <-]. done. }
  destruct (deserialize_service_msg i text) as [i1 [m|e]] eqn:Ed.
  - destruct (deserialize_ok _ _ _ _ Ed) as [Hseq ->].
    destruct (receive_all _ texts) as [[i2 ms'] err'] eqn:Er. intros [= <- <- <-].
    simpl in Hlt. apply IH in Er as (Hl & Hs & He).
    + split_and!; [simpl; lia| |intros Hn; simpl; by rewrite (He Hn)].
      change (seq_of text :: (seq_of <$> take (length ms') texts)
              = Some <$> seqZ (expected i) (Z.of_nat (S (length ms')))).
      rewrite Hseq, Hs. cbn [expected]. rewrite u64_succ_small by lia.
      rewrite Nat2Z.inj_succ, (seqZ_cons (expected i)) by lia.
      by rewrite Z.pred_succ, Z.add_1_r, fmap_cons.
    + simpl. rewrite u64_succ_small by lia. lia.
    + simpl. rewrite u64_succ_small by lia. lia.
  - intros [= <- <- <-]. simpl. split_and!; [lia|done|done].
Qed.

(** replay protection. The messages a fresh connection accepts are the ones
    carrying the sequence numbers [1, 2, 3, ...] in this order: a replayed,
    dropped, reordered or duplicated frame is never accepted, and the first one
    ends the connection. *)
Theorem accepted_in_sequence (texts : list string) (i' : IncomingSeq)
    (ms : list (option (DeserializedMessage Msg))) (err : option ServiceWsError) :
  (1 + Z.of_nat (length texts) < u64_modulus)%Z →
  receive_all incoming_new texts = (i', ms, err) →
  (seq_of <$> take (length ms) texts) = (Some <$> seqZ 1 (Z.of_nat (length ms)))
  ∧ (err = None → length ms = length texts)
  ∧ NoDup (seq_of <$> take (length ms) texts).
Proof.
  intros Hlen Hr. destruct (receive_all_seqs texts incoming_new i' ms err) as (_ & Hs & He);
    [simpl; lia|simpl; lia|done|].
  split_and!; [done|done|]. rewrite Hs. apply NoDup_fmap_2; [by intros ?? [=]|apply NoDup_seqZ].
Qed.

End Deserialize.

(** The frames a sender produces for a list of messages. *)
Fixpoint wrap_all {Msg} (o : OutgoingSeq) (ms : list (Msg * option ReportPagination)) :
    list (ServiceEnvelope Msg) :=
  match ms with
  | [] => []
  | (m, p) :: ms' =>
      let '(o', e) := wrap_service_paginated o m p in e :: wrap_all o' ms'
  end.

(** everything a conforming sender sends is accepted. If parsing inverts
    printing on the frames sent, and every message and page descriptor is valid,
    then the frames of any list of messages are all accepted, each yielding the
    message sent. *)
Theorem sender_receiver_agree {Msg : Type}
    (parse_header : string → Result string EnvelopeHeader)
    (parse_envelope : string → Result string (ServiceEnvelope Msg))
    (message_validate : Msg → Result string unit)
    (print : ServiceEnvelope Msg → string)
    (sent : list (Msg * option ReportPagination)) :
  (∀ e, e ∈ wrap_all outgoing_new sent →
     parse_header (print e) = Ok (mkHeader (protocol_version e) (seq e))
     ∧ parse_envelope (print e) = Ok e) →
  (1 + Z.of_nat (length sent) < u64_modulus)%Z →
  Forall (λ '(m, p), message_validate m = Ok tt
                     ∧ ∀ pg, p = Some pg → wire_validate pg = Ok tt) sent →
  ∃ i', receive_all parse_header parse_envelope message_validate incoming_new
          (print <$> wrap_all outgoing_new sent)
        = (i', (λ '(m, p), Some (mkDeserialized m p)) <$> sent, None).
Proof.
  intros Hcodec Hlen Hvalid. unfold outgoing_new, incoming_new in *.
  assert (0 ≤ 1)%Z as H0 by lia. revert H0 Hlen Hcodec. generalize 1%Z.
  induction Hvalid as [|[m p] sent [Hm Hp] _ IH]; intros n H0 Hlen Hcodec; [by eexists|].
  simpl in Hlen. cbn [wrap_all wrap_service_paginated next] in *.
  rewrite u64_succ_small in * by lia.
  destruct (Hcodec (mkServiceEnvelope CURRENT_PROTOCOL_VERSION n p m)) as [Hh He]; [left|].
  assert (deserialize_service_msg parse_header parse_envelope message_validate (mkIncoming n)
            (print (mkServiceEnvelope CURRENT_PROTOCOL_VERSION n p m))
          = (mkIncoming (n + 1), Ok (Some (mkDeserialized m p)))) as Hone.
  { unfold deserialize_service_msg. rewrite Hh, He. simpl.
    unfold validate. simpl. rewrite decide_False by (intros Hx; by apply Hx).
    rewrite u64_succ_small, Hm by lia. destruct p as [pg|]; [by rewrite (Hp pg eq_refl)|done]. }
  destruct (IH (n + 1)%Z) as [i' Hi]; [lia|lia|intros e Hin; apply Hcodec; by right|].
  exists i'. rewrite !fmap_cons. cbn [receive_all]. by rewrite Hone, Hi.
Qed.

(** ** Rate limiting *)

Definition WS_MESSAGE_RATE_LIMIT : Z := 200.
Definition WS_MESSAGE_RATE_WINDOW : Duration := 1000000000.

Record MessageRateLimiter := mkLimiter {
  window_start : Instant;
  window : Duration;
  max_per_window : Z;
  prev_count : Z;
  curr_count : Z;
}.

Definition limiter_new (now : Instant) (w : Duration) (max : Z) : MessageRateLimiter :=
  mkLimiter now w max 0 0.

(** The rotation at the start of [allow]. *)
Definition rotate (l : MessageRateLimiter) (now : Instant) : MessageRateLimiter :=
  let elapsed := Z.max 0 (now - window_start l) in
  if decide (window l ≤ elapsed)%Z then
    mkLimiter now (window l) (max_per_window l)
      (if decide (window l * 2 ≤ elapsed)%Z then 0 else curr_count l) 0
  else l.

(** [estimate < max], with both sides multiplied by the window's length:
    [prev * (1 - elapsed / window) + curr < max]. *)
Definition under_limit (l : MessageRateLimiter) (now : Instant) : bool :=
  bool_decide (prev_count l * (window l - Z.max 0 (now - window_start l))
               + curr_count l * window l < max_per_window l * window l)%Z.

Definition allow (l : MessageRateLimiter) (now : Instant) : MessageRateLimiter * bool :=
  let l := rotate l now in
  if under_limit l now
  then (mkLimiter (window_start l) (window l) (max_per_window l) (prev_count l)
          (u32_saturating_add (curr_count l) 1), true)
  else (l, false).

(** The times of the messages admitted among those arriving at [times]. *)
Fixpoint admitted (l : MessageRateLimiter) (times : list Instant) : list Instant :=
  match times with
  | [] => []
  | t :: times' =>
      let '(l', ok) := allow l t in
      (if ok : bool then [t] else []) ++ admitted l' times'
  end.

(** ** The burst bound *)

(** The half-windows of a run, newest first: their start and the messages admitted
    in them. *)
Notation Windows := (list (Instant * list Instant)).

Fixpoint windows_ok (w : Duration) (max : Z) (upper : Instant) (ws : Windows) : Prop :=
  match ws with
  | [] => True
  | (s, ts) :: rest =>
      (∀ t, t ∈ ts → (s ≤ t ≤ upper)%Z) ∧ (Z.of_nat (length ts) ≤ max)%Z
      ∧ match rest with [] => True | (s', _) :: _ => (s' + w ≤ s)%Z end
      ∧ (s ≤ upper)%Z ∧ windows_ok w max s rest
  end.

(** How many of [ts] fall in [[a, a + w)]. *)
Definition count_in (a : Instant) (w : Duration) (ts : list Instant) : nat :=
  length (filter (λ t, a ≤ t < a + w)%Z ts).

Definition all_times (ws : Windows) : list Instant := concat ws.*2.

Lemma count_in_app a w l1 l2 : count_in a w (l1 ++ l2) = count_in a w l1 + count_in a w l2.
Proof. unfold count_in. by rewrite filter_app, length_app. Qed.

Lemma count_in_le a w l : count_in a w l ≤ length l.
Proof. apply length_filter. Qed.

Lemma count_in_zero a w l : (∀ t, t ∈ l → (t < a)%Z) → count_in a w l = 0.
Proof.
  unfold count_in. induction l as [|x l IH]; intros Hl; [done|].
  rewrite filter_cons, decide_False.
  - apply IH. intros t Ht. apply Hl. by right.
  - specialize (Hl x ltac:(left)). lia.
Qed.

Lemma windows_ok_upper w max upper ws t :
  windows_ok w max upper ws → t ∈ all_times ws → (t ≤ upper)%Z.
Proof.
  revert upper. induction ws as [|[s ts] ws IH]; intros upper; unfold all_times; simpl.
  - by intros _ ?%elem_of_nil.
  - intros (Hts & _ & _ & Hs & Hrest) [Ht|Ht]%elem_of_app; [by apply Hts|].
    specialize (IH s Hrest Ht). lia.
Qed.

Lemma windows_count w max upper ws a :
  (0 < w)%Z → windows_ok w max upper ws → (0 ≤ max)%Z →
  (Z.of_nat (count_in a w (all_times ws)) ≤ 2 * max)%Z.
Proof.
  intros Hw. revert upper. induction ws as [|[s ts] ws IH]; intros upper Hok Hmax;
    [unfold all_times, count_in; simpl; lia|].
  destruct Hok as (Hts & Hlen & Hgap & Hs & Hrest).
  change (all_times ((s, ts) :: ws)) with (ts ++ all_times ws). rewrite count_in_app.
  destruct (decide (count_in a w ts = 0)) as [->|Hne]; [by apply (IH s)|].
  assert (∃ t, t ∈ ts ∧ (t < a + w)%Z) as (t & Ht & Hta).
  { unfold count_in in Hne. destruct (filter _ ts) as [|t l] eqn:E; [done|].
    assert (t ∈ filter (λ t, a ≤ t < a + w)%Z ts) as [Hin ?]%list_elem_of_filter
      by (rewrite E; left). exists t. split; [done|lia]. }
  specialize (Hts t Ht). pose proof (count_in_le a w ts).
  destruct ws as [|[s2 ts2] ws]; [unfold all_times, count_in at 2; simpl; lia|].
  change (all_times ((s2, ts2) :: ws)) with (ts2 ++ all_times ws). rewrite count_in_app.
  destruct Hrest as (_ & Hlen2 & _ & _ & Hrest2).
  rewrite (count_in_zero a w (all_times ws)).
  - pose proof (count_in_le a w ts2). lia.
  - intros x Hx. apply (windows_ok_upper _ _ _ _ _ Hrest2) in Hx. lia.
Qed.

(** The limiter's counters describe its newest window. *)
Record limiter_inv (l : MessageRateLimiter) (now : Instant) (ws : Windows) : Prop := {
  li_window : (0 < window l)%Z;
  li_max : (0 ≤ max_per_window l ≤ u32_max)%Z;
  li_prev : (0 ≤ prev_count l)%Z;
  li_head : ∃ ts rest, ws = (window_start l, ts) :: rest ∧ curr_count l = Z.of_nat (length ts);
  li_ok : windows_ok (window l) (max_per_window l) now ws;
}.

Lemma windows_ok_later w max u u' ws :
  (u ≤ u')%Z → windows_ok w max u ws → windows_ok w max u' ws.
Proof.
  intros Hu. destruct ws as [|[s ts] ws]; [done|]. intros (H1 & H2 & H3 & H4 & H5).
  split_and!; [|done|done|lia|done]. intros t Ht%H1. lia.
Qed.

Lemma rotate_inv l t0 t ws :
  (t0 ≤ t)%Z → limiter_inv l t0 ws →
  ∃ ws', limiter_inv (rotate l t) t ws' ∧ all_times ws' = all_times ws
    ∧ (0 ≤ t - window_start (rotate l t) < window (rotate l t))%Z
    ∧ window (rotate l t) = window l ∧ max_per_window (rotate l t) = max_per_window l.
Proof.
  intros Ht [Hw Hm Hp (ts & rest & -> & Hc) Hok].
  pose proof (windows_ok_later _ _ _ t _ Ht Hok) as Hok'.
  assert (window_start l ≤ t)%Z as Hs by (destruct Hok' as (_ & _ & _ & ? & _); done).
  unfold rotate. destruct (decide (window l ≤ Z.max 0 (t - window_start l))%Z) as [Hrot|Hno].
  - exists ((t, []) :: (window_start l, ts) :: rest). simpl.
    split_and!; [|done|lia|lia|done|done]. split; simpl; [done|done|destruct (decide _); lia| |].
    + by exists [], ((window_start l, ts) :: rest).
    + split; [by intros ? ?%elem_of_nil|]. split; [lia|]. split; [lia|]. split; [lia|].
      destruct Hok' as (K1 & K2 & K3 & _ & K5). by split_and!.
  - exists ((window_start l, ts) :: rest).
    split_and!; [|done|lia|lia|done|done]. split; [done|done|done| |done]. eauto.
Qed.

Lemma admitted_windows l t0 ws times :
  limiter_inv l t0 ws → Sorted Z.le (t0 :: times) →
  ∃ ws' u, windows_ok (window l) (max_per_window l) u ws'
    ∧ all_times ws' ≡ₚ all_times ws ++ admitted l times.
Proof.
  revert l t0 ws. induction times as [|t times IH]; intros l t0 ws Hinv Hsorted.
  { exists ws, t0. simpl. rewrite app_nil_r. split; [apply Hinv|done]. }
  apply Sorted_inv in Hsorted as [Hsorted Hle%HdRel_inv].
  destruct (rotate_inv l t0 t ws Hle Hinv) as (ws1 & Hinv1 & Heq & He & Hwin & Hmax).
  cbn [admitted]. unfold allow. set (l1 := rotate l t) in *. clearbody l1.
  destruct (under_limit l1 t) eqn:Eu.
  - unfold under_limit in Eu. apply bool_decide_eq_true in Eu.
    destruct Hinv1 as [H1 H2 H3 (ts & rest & -> & Hc) Hok].
    assert (curr_count l1 < max_per_window l1)%Z as Hlt.
    { rewrite Z.max_r in Eu by lia.
      assert (0 ≤ prev_count l1 * (window l1 - (t - window_start l1)))%Z by (apply Z.mul_nonneg_nonneg; lia).
      nia. }
    edestruct (IH (mkLimiter (window_start l1) (window l1) (max_per_window l1) (prev_count l1)
      (u32_saturating_add (curr_count l1) 1)) t ((window_start l1, ts ++ [t]) :: rest))
      as (ws' & u & Hok' & Hperm); [|done|].
    + split; simpl; [done|done|done| |].
      * exists (ts ++ [t]), rest. split; [done|]. rewrite length_app. simpl.
        unfold u32_saturating_add. lia.
      * destruct Hok as (K1 & K2 & K3 & K4 & K5). split_and!; [|rewrite length_app; simpl; lia|done..].
        intros x [Hx|Hx%list_elem_of_singleton]%elem_of_app; [by apply K1|]. subst. lia.
    + simpl in Hok'. rewrite Hwin, Hmax in Hok'. exists ws', u. split; [done|].
      rewrite Hperm, <-Heq. change (all_times ((window_start l1, ts ++ [t]) :: rest))
        with ((ts ++ [t]) ++ all_times rest).
      change (all_times ((window_start l1, ts) :: rest)) with (ts ++ all_times rest).
      rewrite <-!app_assoc. apply Permutation_app_head. simpl. apply Permutation_middle.
  - destruct (IH l1 t ws1 Hinv1 Hsorted) as (ws' & u & Hok' & Hperm).
    rewrite Hwin, Hmax in Hok'. exists ws', u. split; [done|]. by rewrite Hperm, Heq.
Qed.

(** the burst bound of the rate limiter. However messages arrive, no interval
    shorter than one window ever contains more than twice the limit of admitted
    messages (in exact arithmetic). *)
Theorem rate_limit_bound (t0 : Instant) (w : Duration) (max : Z) (times : list Instant)
    (a : Instant) :
  (0 < w)%Z → (0 ≤ max ≤ u32_max)%Z → Sorted Z.le (t0 :: times) →
  (Z.of_nat (count_in a w (admitted (limiter_new t0 w max) times)) ≤ 2 * max)%Z.
Proof.
  intros Hw Hm Hs.
  destruct (admitted_windows (limiter_new t0 w max) t0 [(t0, [])] times) as (ws & u & Hok & Hp).
  - split; simpl; [done|done|lia|by exists [], []|].
    split_and!; [by intros ? ?%elem_of_nil|lia|done|lia|done].
  - done.
  - unfold all_times in Hp. simpl in Hp.
    replace (count_in a w (admitted (limiter_new t0 w max) times)) with
      (count_in a w (all_times ws)); [by eapply windows_count; [done|exact Hok|lia]|].
    unfold count_in. by rewrite (Permutation_length (filter_Permutation _ _ _ Hp)).
Qed.

(** ** Examples *)

(** Frames written as a single digit: the sequence number. *)
Definition demo_header (s : string) : Result string EnvelopeHeader :=
  if decide (s = "1") then Ok (mkHeader 1 1)
  else if decide (s = "2") then Ok (mkHeader 1 2) else Err "bad frame".

Definition demo_envelope (s : string) : Result string (ServiceEnvelope unit) :=
  h ← demo_header s; Ok (mkServiceEnvelope 1 (h_seq h) None tt).

(** The third frame replays the second: two messages are accepted, then the
    connection ends. *)
Lemma accepted_in_sequence_witness :
  (receive_all demo_header demo_envelope (λ _, Ok tt) incoming_new ["1"; "2"; "2"]).2
    = Some (SequenceValidation (mkSeqError 3 2))
  ∧ (seq_of demo_header <$> ["1"; "2"]) = [Some 1%Z; Some 2%Z].
Proof.
  split; [vm_compute; reflexivity|].
  destruct (receive_all demo_header demo_envelope (λ _, Ok tt) incoming_new ["1"; "2"; "2"])
    as [[i' ms] err] eqn:E.
  assert (length ms = 2) as Hl by (vm_compute in E; injection E as <- <- <-; reflexivity).
  destruct (accepted_in_sequence demo_header demo_envelope (λ _, Ok tt) ["1"; "2"; "2"] i' ms err
              ltac:(vm_compute; reflexivity) E) as [Hs _].
  rewrite Hl in Hs. exact Hs.
Defined.

Definition demo_print (e : ServiceEnvelope unit) : string :=
  if decide (seq e = 1%Z) then "1" else "2".

Lemma sender_receiver_agree_witness :
  ∃ i', receive_all demo_header demo_envelope (λ _, Ok tt) incoming_new
          (demo_print <$> wrap_all outgoing_new [(tt, None); (tt, None)])
        = (i', [Some (mkDeserialized tt None); Some (mkDeserialized tt None)], None).
Proof.
  apply (sender_receiver_agree demo_header demo_envelope (λ _, Ok tt) demo_print
    [(tt, None); (tt, None)]).
  - vm_compute wrap_all. intros e [-> |[-> |[]%elem_of_nil]%elem_of_cons]%elem_of_cons;
      vm_compute; done.
  - vm_compute. reflexivity.
  - repeat constructor; done.
Defined.

(** A limit of one message per 10 units: the boundary burst at 9 and 10. *)
Lemma rate_limit_bound_witness :
  (Z.of_nat (count_in 9 10 (admitted (limiter_new 0 10 1) [9%Z; 10%Z; 15%Z; 20%Z; 21%Z])) ≤ 2 * 1)%Z.
Proof.
  apply (rate_limit_bound 0 10 1 [9%Z; 10%Z; 15%Z; 20%Z; 21%Z] 9).
  - lia.
  - unfold u32_max. lia.
  - repeat constructor; lia.
Defined.

End Ws.
