(* ===== verification/WireEnums.v ===== *)
(** The string-valued enumerations of the wire protocol and of the shared types,
    capability negotiation and the behavioural profile derived from capabilities.

    Models [crates/shared/wire/src/capabilities.rs],
    [crates/shared/wire/src/service_profile.rs], the negotiation of
    [crates/shared/service-sdk/src/embedded.rs] with the controller's set in
    [crates/ui/web-api/src/routes/service_ws/protocol.rs], and the status types of
    [crates/shared/types/src]. Open enumerations keep unknown strings ([Other]);
    closed ones reject them. *)

From stdpp Require Import base list gmap sets strings numbers.
From S2P Require Import Prelude RustStr.

(** ** Open enumerations *)

(** What an open wire enumeration promises: unknown strings survive, known values
    are canonical. *)
Class OpenEnum (E : Type) := {
  enum_str : E → string;
  enum_from : string → E;
  enum_known : E → bool;
  enum_from_str : ∀ s, enum_str (enum_from s) = s;
  enum_str_from : ∀ e, enum_known e = true → enum_from (enum_str e) = e;
}.

Module Capability.

Inductive Capability :=
| GracefulShutdown
| UpdateTracking
| SoftwareDiscovery
| SshRemote
| UpdateHooks
| Scheduler
| DatabaseAccess
| NatsAccess
| MasterKeyAccess
| CaManagement
| SystemService
| UiSurfaces
| InteractiveUpdates
| ResetData
| WorkloadClaims
| Other (s : string).

#[global] Instance Capability_eq_dec : EqDecision Capability.
Proof. solve_decision. Defined.

Definition as_str (c : Capability) : string :=
  match c with
  | SoftwareDiscovery => "software_discovery"
  | UpdateHooks => "update_hooks"
  | GracefulShutdown => "graceful_shutdown"
  | UpdateTracking => "update_tracking"
  | SshRemote => "ssh_remote"
  | Scheduler => "scheduler"
  | DatabaseAccess => "database_access"
  | NatsAccess => "nats_access"
  | MasterKeyAccess => "master_key_access"
  | CaManagement => "ca_management"
  | SystemService => "system_service"
  | UiSurfaces => "ui_surfaces"
  | InteractiveUpdates => "interactive_updates"
  | ResetData => "reset_data"
  | WorkloadClaims => "workload_claims"
  | Other s => s
  end.

Definition is_known (c : Capability) : bool :=
  match c with Other _ => false | _ => true end.

Definition from_str (s : string) : Capability :=
  if decide (s = "software_discovery") then SoftwareDiscovery
  else if decide (s = "update_hooks") then UpdateHooks
  else if decide (s = "graceful_shutdown") then GracefulShutdown
  else if decide (s = "update_tracking") then UpdateTracking
  else if decide (s = "ssh_remote") then SshRemote
  else if decide (s = "scheduler") then Scheduler
  else if decide (s = "database_access") then DatabaseAccess
  else if decide (s = "nats_access") then NatsAccess
  else if decide (s = "master_key_access") then MasterKeyAccess
  else if decide (s = "ca_management") then CaManagement
  else if decide (s = "system_service") then SystemService
  else if decide (s = "ui_surfaces") then UiSurfaces
  else if decide (s = "interactive_updates") then InteractiveUpdates
  else if decide (s = "reset_data") then ResetData
  else if decide (s = "workload_claims") then WorkloadClaims
  else Other s.

Lemma as_from s : as_str (from_str s) = s.
Proof. unfold from_str. decide_chain ltac:(reflexivity). reflexivity. Qed.

Lemma from_as c : is_known c = true → from_str (as_str c) = c.
Proof. destruct c; (reflexivity || discriminate). Qed.

#[global] Instance Capability_countable : Countable Capability.
Proof.
  refine (inj_countable'
    (λ c, match c with Other s => inr s | _ => inl (as_str c) end)
    (λ x, match x with inl s => from_str s | inr s => Other s end) _).
  by intros [].
Defined.

#[global] Instance Capability_open : OpenEnum Capability := {|
  enum_str := as_str; enum_from := from_str; enum_known := is_known;
  enum_from_str := as_from; enum_str_from := from_as |}.

End Capability.

Module EnrollmentStatus.

Inductive EnrollmentStatus := Pending | Approved | Other (s : string).

Definition as_str (e : EnrollmentStatus) : string :=
  match e with Pending => "pending" | Approved => "approved" | Other s => s end.

Definition from (s : string) : EnrollmentStatus :=
  if decide (s = "pending") then Pending
  else if decide (s = "approved") then Approved
  else Other s.

Definition is_known (e : EnrollmentStatus) : bool :=
  match e with Other _ => false | _ => true end.

#[global] Instance EnrollmentStatus_open : OpenEnum EnrollmentStatus.
Proof.
  refine {| enum_str := as_str; enum_from := from; enum_known := is_known |}.
  - intros s. unfold from. decide_chain ltac:(reflexivity). reflexivity.
  - intros e; destruct e; (reflexivity || discriminate).
Defined.

End EnrollmentStatus.

Module ErrorCode.

Inductive ErrorCode :=
| BadRequest
| EnrollmentFailed
| NotApproved
| Forbidden
| CertificateError
| InternalError
| SequenceError
| Other (s : string).

Definition as_str (e : ErrorCode) : string :=
  match e with
  | BadRequest => "bad_request"
  | EnrollmentFailed => "enrollment_failed"
  | NotApproved => "not_approved"
  | Forbidden => "forbidden"
  | CertificateError => "certificate_error"
  | InternalError => "internal_error"
  | SequenceError => "sequence_error"
  | Other s => s
  end.

Definition from (s : string) : ErrorCode :=
  if decide (s = "bad_request") then BadRequest
  else if decide (s = "enrollment_failed") then EnrollmentFailed
  else if decide (s = "not_approved") then NotApproved
  else if decide (s = "forbidden") then Forbidden
  else if decide (s = "certificate_error") then CertificateError
  else if decide (s = "internal_error") then InternalError
  else if decide (s = "sequence_error") then SequenceError
  else Other s.

Definition is_known (e : ErrorCode) : bool := match e with Other _ => false | _ => true end.

#[global] Instance ErrorCode_open : OpenEnum ErrorCode.
Proof.
  refine {| enum_str := as_str; enum_from := from; enum_known := is_known |}.
  - intros s. unfold from. decide_chain ltac:(reflexivity). reflexivity.
  - intros e; destruct e; (reflexivity || discriminate).
Defined.

End ErrorCode.

Module BatchStatus.

Inductive BatchStatus := InProgress | Completed | PartiallyCompleted | Other (s : string).

Inductive ParseBatchStatusError := mkParseBatchStatusError.

Definition as_str (b : BatchStatus) : string :=
  match b with
  | InProgress => "in_progress"
  | Completed => "completed"
  | PartiallyCompleted => "partially_completed"
  | Other s => s
  end.

(** [FromStr]: strict, for the database and URL parameters. *)
Definition from_str (s : string) : Result ParseBatchStatusError BatchStatus :=
  if decide (s = "in_progress") then Ok InProgress
  else if decide (s = "completed") then Ok Completed
  else if decide (s = "partially_completed") then Ok PartiallyCompleted
  else Err mkParseBatchStatusError.

(** [From<String>]: infallible, for the wire. *)
Definition from (s : string) : BatchStatus :=
  if decide (s = "in_progress") then InProgress
  else if decide (s = "completed") then Completed
  else if decide (s = "partially_completed") then PartiallyCompleted
  else Other s.

Definition is_known (b : BatchStatus) : bool := match b with Other _ => false | _ => true end.

#[global] Instance BatchStatus_open : OpenEnum BatchStatus.
Proof.
  refine {| enum_str := as_str; enum_from := from; enum_known := is_known |}.
  - intros s. unfold from. decide_chain ltac:(reflexivity). reflexivity.
  - intros e; destruct e; (reflexivity || discriminate).
Defined.

(** The strict parser accepts exactly the strings of the known values. *)
Lemma batch_status_strict s b :
  from_str s = Ok b ↔ from s = b ∧ is_known b = true.
Proof.
  unfold from_str, from.
  destruct (decide (s = "in_progress")); [split; [by intros [= <-]|by intros [<- _]]|].
  destruct (decide (s = "completed")); [split; [by intros [= <-]|by intros [<- _]]|].
  destruct (decide (s = "partially_completed")); [split; [by intros [= <-]|by intros [<- _]]|].
  split; [done|]. by intros [<- ?].
Qed.

End BatchStatus.

Module UpdateCategory.

Inductive UpdateCategory := Security | Bugfix | Feature | Unknown | Other (s : string).

Inductive ParseUpdateCategoryError := Invalid.

Definition as_str (c : UpdateCategory) : string :=
  match c with
  | Security => "security"
  | Bugfix => "bugfix"
  | Feature => "feature"
  | Unknown => "unknown"
  | Other s => s
  end.

Definition from_str (s : string) : Result ParseUpdateCategoryError UpdateCategory :=
  if decide (s = "security") then Ok Security
  else if decide (s = "bugfix") then Ok Bugfix
  else if decide (s = "feature") then Ok Feature
  else if decide (s = "unknown") then Ok Unknown
  else Err Invalid.

Definition from (s : string) : UpdateCategory :=
  if decide (s = "security") then Security
  else if decide (s = "bugfix") then Bugfix
  else if decide (s = "feature") then Feature
  else if decide (s = "unknown") then Unknown
  else Other s.

Definition is_known (c : UpdateCategory) : bool := match c with Other _ => false | _ => true end.

#[global] Instance UpdateCategory_open : OpenEnum UpdateCategory.
Proof.
  refine {| enum_str := as_str; enum_from := from; enum_known := is_known |}.
  - intros s. unfold from. decide_chain ltac:(reflexivity). reflexivity.
  - intros e; destruct e; (reflexivity || discriminate).
Defined.

Lemma update_category_strict s c :
  from_str s = Ok c ↔ from s = c ∧ is_known c = true.
Proof.
  unfold from_str, from.
  destruct (decide (s = "security")); [split; [by intros [= <-]|by intros [<- _]]|].
  destruct (decide (s = "bugfix")); [split; [by intros [= <-]|by intros [<- _]]|].
  destruct (decide (s = "feature")); [split; [by intros [= <-]|by intros [<- _]]|].
  destruct (decide (s = "unknown")); [split; [by intros [= <-]|by intros [<- _]]|].
  split; [done|]. by intros [<- ?].
Qed.

End UpdateCategory.

(** ** Closed enumerations *)

(** What a closed enumeration promises: printing and strict parsing are inverse. *)
Class ClosedEnum (E : Type) := {
  closed_str : E → string;
  closed_from : string → option E;
  closed_roundtrip : ∀ s e, closed_from s = Some e ↔ s = closed_str e;
}.

Module UpdateStatus.

Inductive UpdateStatus :=
| Queued | Pending | InProgress | AwaitingRestart | Completed | Failed | Interrupted.

#[global] Instance UpdateStatus_eq_dec : EqDecision UpdateStatus.
Proof. solve_decision. Defined.

Inductive ParseUpdateStatusError := mkParseUpdateStatusError.

Definition as_str (u : UpdateStatus) : string :=
  match u with
  | Queued => "queued"
  | Pending => "pending"
  | InProgress => "in_progress"
  | AwaitingRestart => "awaiting_restart"
  | Completed => "completed"
  | Failed => "failed"
  | Interrupted => "interrupted"
  end.

Definition unfinished : list UpdateStatus := [Queued; Pending; InProgress; AwaitingRestart].

Definition host_blocking : list UpdateStatus := [Pending; InProgress; AwaitingRestart].

Definition from_str (s : string) : Result ParseUpdateStatusError UpdateStatus :=
  if decide (s = "queued") then Ok Queued
  else if decide (s = "pending") then Ok Pending
  else if decide (s = "in_progress") then Ok InProgress
  else if decide (s = "awaiting_restart") then Ok AwaitingRestart
  else if decide (s = "completed") then Ok Completed
  else if decide (s = "failed") then Ok Failed
  else if decide (s = "interrupted") then Ok Interrupted
  else Err mkParseUpdateStatusError.

#[global] Instance UpdateStatus_closed : ClosedEnum UpdateStatus.
Proof.
  refine {| closed_str := as_str;
            closed_from s := match from_str s with Ok u => Some u | Err _ => None end |}.
  intros s e. split; [|by intros ->; destruct e].
  unfold from_str. decide_chain ltac:(by intros [= <-]). done.
Defined.

End UpdateStatus.

Module ServiceStatus.

Inductive ServiceStatus := Pending | Approved | Rejected | Deactivated.

Inductive ParseServiceStatusError := mkParseServiceStatusError.

Definition as_str (s : ServiceStatus) : string :=
  match s with
  | Pending => "pending"
  | Approved => "approved"
  | Rejected => "rejected"
  | Deactivated => "deactivated"
  end.

Definition from_str (s : string) : Result ParseServiceStatusError ServiceStatus :=
  if decide (s = "pending") then Ok Pending
  else if decide (s = "approved") then Ok Approved
  else if decide (s = "rejected") then Ok Rejected
  else if decide (s = "deactivated") then Ok Deactivated
  else Err mkParseServiceStatusError.

#[global] Instance ServiceStatus_closed : ClosedEnum ServiceStatus.
Proof.
  refine {| closed_str := as_str;
            closed_from s := match from_str s with Ok u => Some u | Err _ => None end |}.
  intros s e. split; [|by intros ->; destruct e].
  unfold from_str. decide_chain ltac:(by intros [= <-]). done.
Defined.

End ServiceStatus.

Module DeviceAuthStatus.

Inductive DeviceAuthStatus := Pending | Authorized | Expired | Denied.

Inductive ParseDeviceAuthStatusError := mkParseDeviceAuthStatusError.

Definition as_str (s : DeviceAuthStatus) : string :=
  match s with
  | Pending => "pending"
  | Authorized => "authorized"
  | Expired => "expired"
  | Denied => "denied"
  end.

Definition from_str (s : string) : Result ParseDeviceAuthStatusError DeviceAuthStatus :=
  if decide (s = "pending") then Ok Pending
  else if decide (s = "authorized") then Ok Authorized
  else if decide (s = "expired") then Ok Expired
  else if decide (s = "denied") then Ok Denied
  else Err mkParseDeviceAuthStatusError.

#[global] Instance DeviceAuthStatus_closed : ClosedEnum DeviceAuthStatus.
Proof.
  refine {| closed_str := as_str;
            closed_from s := match from_str s with Ok u => Some u | Err _ => None end |}.
  intros s e. split; [|by intros ->; destruct e].
  unfold from_str. decide_chain ltac:(by intros [= <-]). done.
Defined.

End DeviceAuthStatus.

(** ** Negotiation and profiles *)

Module Negotiation.
Import Capability.

(** [controller_capabilities] *)
Definition controller_capabilities : gset Capability :=
  list_to_set [SoftwareDiscovery; UpdateHooks; GracefulShutdown; UpdateTracking; SshRemote;
    Scheduler; DatabaseAccess; NatsAccess; MasterKeyAccess; CaManagement; UiSurfaces].

(** [compute_agreed_capabilities] *)
Definition compute_agreed_capabilities (settings handler : gset Capability) : gset Capability :=
  filter (λ c, is_known c = true) (settings ∩ handler).

Inductive ServiceProfile := UpdateTracker | Agent | SchedulerProfile | UnknownProfile.

Definition from_capabilities (caps : gset Capability) : ServiceProfile :=
  if decide (UpdateTracking ∈ caps) then UpdateTracker
  else if decide (Scheduler ∈ caps) then SchedulerProfile
  else if decide (SoftwareDiscovery ∈ caps) then Agent
  else UnknownProfile.

Definition default_ping_interval_secs (p : ServiceProfile) : Z :=
  match p with UpdateTracker => 15 | SchedulerProfile => 60 | Agent | UnknownProfile => 300 end.

Definition shutdown_timeout_secs (p : ServiceProfile) : option Z :=
  match p with
  | UpdateTracker => None
  | SchedulerProfile => Some 30%Z
  | Agent | UnknownProfile => Some 120%Z
  end.

Definition service_label (p : ServiceProfile) (has_ssh_remote : bool) : string :=
  match p with
  | UpdateTracker => "Update Tracker"
  | SchedulerProfile => "Scheduler"
  | Agent => if has_ssh_remote then "SSH Agent" else "Agent"
  | UnknownProfile => "Unknown"
  end.

(** wire strings are lossless and canonical. For every open enumeration a
    received string, known or not, is forwarded unchanged and a known value is read
    back as itself; for every closed one, strict parsing accepts exactly the strings
    of its values. The strict parsers of the open enumerations accept exactly the
    known values. *)
Theorem wire_strings_lossless (s : string) :
  (Capability.as_str (Capability.from_str s) = s
   ∧ EnrollmentStatus.as_str (EnrollmentStatus.from s) = s
   ∧ ErrorCode.as_str (ErrorCode.from s) = s
   ∧ BatchStatus.as_str (BatchStatus.from s) = s
   ∧ UpdateCategory.as_str (UpdateCategory.from s) = s)
  ∧ (∀ c, Capability.is_known c = true → Capability.from_str (Capability.as_str c) = c)
  ∧ (∀ b, BatchStatus.from_str s = Ok b ↔
          BatchStatus.from s = b ∧ BatchStatus.is_known b = true)
  ∧ (∀ c, UpdateCategory.from_str s = Ok c ↔
          UpdateCategory.from s = c ∧ UpdateCategory.is_known c = true)
  ∧ (∀ u : UpdateStatus.UpdateStatus, closed_from s = Some u ↔ s = UpdateStatus.as_str u)
  ∧ (∀ u : ServiceStatus.ServiceStatus, closed_from s = Some u ↔ s = ServiceStatus.as_str u)
  ∧ (∀ u : DeviceAuthStatus.DeviceAuthStatus,
       closed_from s = Some u ↔ s = DeviceAuthStatus.as_str u).
Proof.
  split_and!.
  - exact (enum_from_str (E := Capability.Capability) s).
  - exact (enum_from_str (E := EnrollmentStatus.EnrollmentStatus) s).
  - exact (enum_from_str (E := ErrorCode.ErrorCode) s).
  - exact (enum_from_str (E := BatchStatus.BatchStatus) s).
  - exact (enum_from_str (E := UpdateCategory.UpdateCategory) s).
  - exact Capability.from_as.
  - apply BatchStatus.batch_status_strict.
  - apply UpdateCategory.update_category_strict.
  - exact (closed_roundtrip (E := UpdateStatus.UpdateStatus) s).
  - exact (closed_roundtrip (E := ServiceStatus.ServiceStatus) s).
  - exact (closed_roundtrip (E := DeviceAuthStatus.DeviceAuthStatus) s).
Qed.

(** negotiation. Both peers compute the same agreed set, made of typed
    capabilities both advertise; and because the controller advertises a strict
    subset of the typed capabilities, interactive updates, data reset, workload
    claims and the system-service marker are never in the set a service agrees on
    with the controller. *)
Theorem negotiation_agrees (a b : gset Capability) :
  compute_agreed_capabilities a b = compute_agreed_capabilities b a
  ∧ (∀ c, c ∈ compute_agreed_capabilities a b ↔ c ∈ a ∧ c ∈ b ∧ is_known c = true)
  ∧ (∀ c, c ∈ [InteractiveUpdates; ResetData; WorkloadClaims; SystemService] →
       c ∉ compute_agreed_capabilities controller_capabilities b).
Proof.
  unfold compute_agreed_capabilities. split_and!.
  - by rewrite (comm_L (∩) a b).
  - intros c. rewrite elem_of_filter, elem_of_intersection. tauto.
  - intros c Hc [_ [Hin _]%elem_of_intersection]%elem_of_filter.
    unfold controller_capabilities in Hin. apply elem_of_list_to_set in Hin.
    rewrite !elem_of_cons, elem_of_nil in Hc.
    destruct Hc as [-> |[-> |[-> |[-> |[]]]]]; by repeat (apply elem_of_cons in Hin as [?|Hin]; [done|]); apply elem_of_nil in Hin.
Qed.

End Negotiation.
