(* ===== verification/ServiceConnections.v ===== *)
(** The registry of connected services.

    Models [crates/ui/service-connections/src/lib.rs]: registration with connection
    deduplication, the cleanups of the two session handlers
    ([crates/ui/web-api/src/routes/service_ws/handler/session_enrolled.rs] and
    [session_authenticated.rs]), forced disconnects and the push channels.

    The registry is shared by every session task and each of its critical sections
    is one atomic step, so the concurrent program is a sequence of events, any task's
    next section at any time ([step], [exec]). Cancellation tokens and channels are
    shared objects: they are references into the [World], and a handle kept by an old
    session aliases the token the registry cancels. A fresh connection id
    ([Uuid::now_v7]) is an argument of [register]; the events only allow ids that were
    not issued before, which is what the code relies on. *)

From stdpp Require Import base list gmap sets strings numbers sorting.
From S2P Require Import Prelude RustStr WireEnums.

Module Registry.
Import Capability.

Definition PUSH_CHANNEL_CAPACITY : nat := 32.

Section Registry.
Context {ControllerMessage : Type}.
Implicit Types (msg : ControllerMessage) (service_id : Uuid).

(** ** State *)

Record ServiceConnection := mkConnection {
  connection_id : Uuid;
  sender : nat;
  cancel_token : nat;
  capabilities : gset Capability;
  service_app_name : option string;
  yielded : bool;
}.

Record ServiceConnectionHandle := mkHandle {
  handle_id : Uuid;
  handle_token : nat;
}.

#[global] Instance ServiceConnectionHandle_eq_dec : EqDecision ServiceConnectionHandle.
Proof. solve_decision. Defined.

(** A bounded [mpsc] channel: the buffered messages, and whether its receiver
    lives. *)
Record Channel := mkChannel { queue : list ControllerMessage; receiver_open : bool }.

Record World := mkWorld {
  connections : gmap Uuid ServiceConnection;
  cancelled : gset nat;
  channels : gmap nat Channel;
  next_ref : nat;
  has_notifier : bool;
  (** services whose disconnection the embedded services were told about *)
  notices : list Uuid;
}.

Definition new (notifier : bool) : World := mkWorld ∅ ∅ ∅ 0 notifier [].

Definition set_connections (m : gmap Uuid ServiceConnection) (w : World) : World :=
  mkWorld m (cancelled w) (channels w) (next_ref w) (has_notifier w) (notices w).

Definition cancel (token : nat) (w : World) : World :=
  mkWorld (connections w) ({[token]} ∪ cancelled w) (channels w) (next_ref w)
    (has_notifier w) (notices w).

Definition set_channels (m : gmap nat Channel) (w : World) : World :=
  mkWorld (connections w) (cancelled w) m (next_ref w) (has_notifier w) (notices w).

Definition is_cancelled (h : ServiceConnectionHandle) (w : World) : bool :=
  bool_decide (handle_token h ∈ cancelled w).

(** ** Registration *)

(** [register]: allocate the channel and the token, then under one write guard remove
    and cancel the old registration and insert the new one. *)
Definition register (service_id connection_id : Uuid) (caps : gset Capability)
    (app_name : option string) (w : World) : World * ServiceConnectionHandle :=
  let r := next_ref w in
  let conn := mkConnection connection_id r r caps app_name false in
  let w := mkWorld (connections w) (cancelled w) (<[r := mkChannel [] true]> (channels w))
             (S r) (has_notifier w) (notices w) in
  let w := match connections w !! service_id with
           | Some old => cancel (cancel_token old)
                           (set_connections (delete service_id (connections w)) w)
           | None => w
           end in
  (set_connections (<[service_id := conn]> (connections w)) w, mkHandle connection_id r).

Definition unregister service_id (w : World) : World :=
  set_connections (delete service_id (connections w)) w.

Definition unregister_current service_id (conn_id : Uuid) (w : World) : World * bool :=
  match connections w !! service_id with
  | Some conn =>
      if decide (connection_id conn = conn_id)
      then (set_connections (delete service_id (connections w)) w, true)
      else (w, false)
  | None => (w, false)
  end.

Definition update_capabilities service_id (caps : gset Capability) (w : World) : World * bool :=
  match connections w !! service_id with
  | Some c =>
      (set_connections (<[service_id := mkConnection (connection_id c) (sender c)
         (cancel_token c) caps (service_app_name c) (yielded c)]> (connections w)) w, true)
  | None => (w, false)
  end.

Definition set_yielded service_id (y : bool) (w : World) : World * bool :=
  match connections w !! service_id with
  | Some c =>
      (set_connections (<[service_id := mkConnection (connection_id c) (sender c)
         (cancel_token c) (capabilities c) (service_app_name c) y]> (connections w)) w, true)
  | None => (w, false)
  end.

Definition is_yielded service_id (w : World) : bool :=
  match connections w !! service_id with Some c => yielded c | None => false end.

Definition force_disconnect service_id (w : World) : World :=
  match connections w !! service_id with
  | Some conn => cancel (cancel_token conn)
                   (set_connections (delete service_id (connections w)) w)
  | None => w
  end.

(** ** Queries *)

Definition is_connected service_id (w : World) : bool :=
  bool_decide (is_Some (connections w !! service_id)).

Definition current_connection_id service_id (w : World) : option Uuid :=
  connection_id <$> connections w !! service_id.

Definition connection_count (w : World) : nat := size (connections w).

Definition has_capability_connected (c : Capability) (w : World) : bool :=
  existsb (λ e, bool_decide (c ∈ capabilities e.2)) (map_to_list (connections w)).

Definition filter_connected (ids : list Uuid) (w : World) : gset Uuid :=
  list_to_set (filter (λ id, is_Some (connections w !! id)) ids).

Definition get_app_name service_id (w : World) : option string :=
  connections w !! service_id ≫= service_app_name.

Definition get_capabilities service_id (w : World) : option (gset Capability) :=
  capabilities <$> connections w !! service_id.

(** ** Messaging *)

(** One poll of [Sender::send]: [None] while it waits for room, otherwise the result
    of the call ([false] when the receiver is gone). *)
Definition chan_send (ch : nat) msg (w : World) : option (World * bool) :=
  match channels w !! ch with
  | Some c =>
      if receiver_open c then
        if decide (length (queue c) < PUSH_CHANNEL_CAPACITY)
        then Some (set_channels (<[ch := mkChannel (queue c ++ [msg]) true]> (channels w)) w,
                   true)
        else None
      else Some (w, false)
  | None => Some (w, false)
  end.

(** [Sender::try_send]: gives up at once where [send] would wait. *)
Definition try_send (ch : nat) msg (w : World) : World :=
  match chan_send ch msg w with Some (w', _) => w' | None => w end.

(** [send]: the sender is looked up under the lock, the message sent after it. *)
Definition send service_id msg (w : World) : option (World * bool) :=
  match connections w !! service_id with
  | Some c => chan_send (sender c) msg w
  | None => Some (w, false)
  end.

(** [send_parallel], for the broadcasts during which no receiver makes room: a send
    that still waits at its timeout is abandoned. A send that gets room first is a
    [ChanSend] event of its own. *)
Definition send_parallel (senders : list nat) msg (w : World) : World :=
  foldl (λ w ch, try_send ch msg w) w senders.

Definition broadcast msg (w : World) : World :=
  send_parallel ((λ e, sender e.2) <$> map_to_list (connections w)) msg w.

Definition broadcast_by_capability (c : Capability) msg (w : World) : World :=
  send_parallel ((λ e, sender e.2) <$>
    filter (λ e, c ∈ capabilities e.2) (map_to_list (connections w))) msg w.

Definition broadcast_to_app_except (app : string) (exclude_service_id : Uuid) msg (w : World)
    : World :=
  foldl (λ w ch, try_send ch msg w) w
    ((λ e, sender e.2) <$>
     filter (λ e, e.1 ≠ exclude_service_id ∧ service_app_name e.2 = Some app)
       (map_to_list (connections w))).

(** [broadcast_server_restarting_scattered]: the tasks it spawns, as (service, delay in
    milliseconds). The random numbers are arguments: the pinned slot, and the draw of
    each other slot. *)
Definition scattered_schedule (scatter_ms : Z) (zero_slot : nat) (draw : nat → Z)
    (w : World) : list (Uuid * Z) :=
  imap (λ idx service_id,
          (service_id,
           if decide (idx = zero_slot) then 0%Z
           else if decide (0 < scatter_ms)%Z then draw idx
           else 0%Z))
    ((map_to_list (connections w)).*1).

(** ** Session cleanups *)

Definition notify_disconnected service_id (w : World) : World :=
  if has_notifier w
  then mkWorld (connections w) (cancelled w) (channels w) (next_ref w) (has_notifier w)
         (notices w ++ [service_id])
  else w.

(** The registry part of [cleanup_authenticated_session]. *)
Definition cleanup_registration service_id (conn_id : Uuid) (w : World) : World :=
  match unregister_current service_id conn_id w with
  | (w', true) => notify_disconnected service_id w'
  | (w', false) => w'
  end.

Definition cleanup_enrolled_session service_id (h : ServiceConnectionHandle) (w : World)
    : World :=
  if is_cancelled h w then w else cleanup_registration service_id (handle_id h) w.

Inductive AuthenticatedSessionOwnership := Current | Replaced | Removed.

Definition authenticated_session_ownership service_id (conn_id : Uuid) (w : World)
    : AuthenticatedSessionOwnership :=
  match current_connection_id service_id w with
  | Some id => if decide (id = conn_id) then Current else Replaced
  | None => Removed
  end.

(** ** Interleavings *)

Inductive Event :=
| Register (service_id conn_id : Uuid) (caps : gset Capability) (app : option string)
| CleanupAuthenticated (service_id : Uuid) (h : ServiceConnectionHandle)
| CleanupEnrolled (service_id : Uuid) (h : ServiceConnectionHandle)
| Unregister (service_id : Uuid)
| ForceDisconnect (service_id : Uuid)
| UpdateCapabilities (service_id : Uuid) (caps : gset Capability)
| SetYielded (service_id : Uuid) (y : bool)
| ChanSend (ch : nat) (msg : ControllerMessage)
| Broadcast (msg : ControllerMessage)
| BroadcastByCapability (c : Capability) (msg : ControllerMessage)
| BroadcastToAppExcept (app : string) (exclude : Uuid) (msg : ControllerMessage)
| Receive (ch : nat)
| CloseReceiver (ch : nat).

(** The world, and every handle given out so far with the service it is for. *)
Record System := mkSystem {
  world : World;
  issued : list (Uuid * ServiceConnectionHandle);
}.

(** A session cleans up the registration it was given, as often as it likes and at any
    later time; everything else can happen at any time. *)
Definition step (s : System) (e : Event) : option System :=
  let upd f := Some (mkSystem (f (world s)) (issued s)) in
  match e with
  | Register sid id caps app =>
      if decide (id ∈ (λ i, handle_id i.2) <$> issued s) then None
      else let '(w, h) := register sid id caps app (world s) in
           Some (mkSystem w (issued s ++ [(sid, h)]))
  | CleanupAuthenticated sid h =>
      if decide ((sid, h) ∈ issued s) then upd (cleanup_registration sid (handle_id h)) else None
  | CleanupEnrolled sid h =>
      if decide ((sid, h) ∈ issued s) then upd (cleanup_enrolled_session sid h) else None
  | Unregister sid => upd (unregister sid)
  | ForceDisconnect sid => upd (force_disconnect sid)
  | UpdateCapabilities sid caps => upd (λ w, (update_capabilities sid caps w).1)
  | SetYielded sid y => upd (λ w, (set_yielded sid y w).1)
  | ChanSend ch msg => upd (try_send ch msg)
  | Broadcast msg => upd (broadcast msg)
  | BroadcastByCapability c msg => upd (broadcast_by_capability c msg)
  | BroadcastToAppExcept app sid msg => upd (broadcast_to_app_except app sid msg)
  | Receive ch => upd (λ w, set_channels
      (alter (λ c, mkChannel (tail (queue c)) (receiver_open c)) ch (channels w)) w)
  | CloseReceiver ch => upd (λ w, set_channels
      (alter (λ c, mkChannel [] false) ch (channels w)) w)
  end.

Definition exec (s : System) (evs : list Event) : option System :=
  foldl (λ o e, o ≫= λ s, step s e) (Some s) evs.

Lemma exec_snoc s evs e : exec s (evs ++ [e]) = exec s evs ≫= λ s, step s e.
Proof. unfold exec. by rewrite foldl_app. Qed.

Lemma exec_app s evs evs' : exec s (evs ++ evs') = exec s evs ≫= λ s, exec s evs'.
Proof.
  induction evs' as [|e evs' IH] using rev_ind.
  - rewrite app_nil_r. by destruct (exec s evs).
  - rewrite app_assoc, exec_snoc, IH. destruct (exec s evs) as [s'|]; simpl; [|done].
    by rewrite exec_snoc.
Qed.

(** [h] is the current registration of [sid]. *)
Definition owns (w : World) (sid : Uuid) (h : ServiceConnectionHandle) : Prop :=
  ∃ c, connections w !! sid = Some c ∧ connection_id c = handle_id h
       ∧ cancel_token c = handle_token h.

(** ** What one event may do to a registration *)

(** [e] takes the registration [id] of [sid] away without telling its session: the
    session's own cleanup, and the unconditional [unregister]. *)
Definition removes (e : Event) (sid id : Uuid) : Prop :=
  match e with
  | CleanupAuthenticated sid' h | CleanupEnrolled sid' h => sid' = sid ∧ handle_id h = id
  | Unregister sid' => sid' = sid
  | _ => False
  end.

(** [e] may end the registration [id] of [sid]. *)
Definition evicts (e : Event) (sid id : Uuid) : Prop :=
  removes e sid id ∨
  match e with
  | Register sid' _ _ _ | ForceDisconnect sid' => sid' = sid
  | _ => False
  end.

Definition same_conn (c c' : ServiceConnection) : Prop :=
  connection_id c' = connection_id c ∧ cancel_token c' = cancel_token c ∧ sender c' = sender c.

Definition chan_bounded (w : World) : Prop :=
  ∀ ch c, channels w !! ch = Some c → length (queue c) ≤ PUSH_CHANNEL_CAPACITY.

Definition is_register (e : Event) : bool :=
  match e with Register _ _ _ _ => true | _ => false end.

(** The effect of an event other than a registration. *)
Record trans (e : Event) (w w' : World) : Prop := {
  tr_next : next_ref w' = next_ref w;
  tr_conn sid c' : connections w' !! sid = Some c' →
    ∃ c, connections w !! sid = Some c ∧ same_conn c c';
  tr_keep sid c : connections w !! sid = Some c →
    (∃ c', connections w' !! sid = Some c' ∧ same_conn c c')
    ∨ evicts e sid (connection_id c)
      ∧ (removes e sid (connection_id c) ∨ cancel_token c ∈ cancelled w');
  tr_cancelled t : t ∈ cancelled w' → t ∈ cancelled w
    ∨ ∃ sid c, connections w !! sid = Some c ∧ cancel_token c = t
               ∧ connections w' !! sid = None;
  tr_mono : cancelled w ⊆ cancelled w';
  tr_dom ch : is_Some (channels w !! ch) → is_Some (channels w' !! ch);
  tr_bound : chan_bounded w → chan_bounded w';
}.

Lemma same_conn_refl c : same_conn c c.
Proof. by split_and!. Qed.

Lemma trans_refl e w : trans e w w.
Proof. split; eauto using same_conn_refl. Qed.

(** Operations that only touch the channels. *)
Lemma trans_channels e w m :
  (∀ ch, is_Some (channels w !! ch) → is_Some (m !! ch)) →
  (chan_bounded w → chan_bounded (set_channels m w)) →
  trans e w (set_channels m w).
Proof. intros Hd Hb. split; simpl; eauto using same_conn_refl. Qed.

Lemma channels_id w :
  ∃ m, w = set_channels m w
    ∧ (∀ ch, is_Some (channels w !! ch) → is_Some (m !! ch))
    ∧ (chan_bounded w → chan_bounded (set_channels m w)).
Proof. exists (channels w). destruct w; naive_solver. Qed.

Lemma chan_send_channels ch msg w w' b :
  chan_send ch msg w = Some (w', b) →
  ∃ m, w' = set_channels m w
    ∧ (∀ ch, is_Some (channels w !! ch) → is_Some (m !! ch))
    ∧ (chan_bounded w → chan_bounded (set_channels m w)).
Proof.
  unfold chan_send. destruct (channels w !! ch) as [c|]; [|intros [= <- <-]; apply channels_id].
  destruct (receiver_open c); [|intros [= <- <-]; apply channels_id].
  destruct (decide _) as [Hlt|]; [|done]. intros [= <- <-].
  eexists. split_and!; [done|..].
  - intros ch' Hc. destruct (decide (ch = ch')) as [->|].
    + rewrite lookup_insert_eq. eauto.
    + by rewrite lookup_insert_ne.
  - intros Hb ch' c'. simpl. destruct (decide (ch = ch')) as [->|].
    + rewrite lookup_insert_eq. intros [= <-]. simpl. rewrite length_app. simpl. lia.
    + rewrite lookup_insert_ne by done. apply Hb.
Qed.

Lemma try_send_channels ch msg w :
  ∃ m, try_send ch msg w = set_channels m w
    ∧ (∀ ch, is_Some (channels w !! ch) → is_Some (m !! ch))
    ∧ (chan_bounded w → chan_bounded (set_channels m w)).
Proof.
  unfold try_send. destruct (chan_send ch msg w) as [[w' b]|] eqn:E.
  - exact (chan_send_channels _ _ _ _ _ E).
  - apply channels_id.
Qed.

Lemma send_all_channels l msg w :
  ∃ m, foldl (λ w ch, try_send ch msg w) w l = set_channels m w
    ∧ (∀ ch, is_Some (channels w !! ch) → is_Some (m !! ch))
    ∧ (chan_bounded w → chan_bounded (set_channels m w)).
Proof.
  revert w. induction l as [|ch l IH]; intros w; simpl.
  - apply channels_id.
  - destruct (try_send_channels ch msg w) as (m & -> & Hd & Hb).
    destruct (IH (set_channels m w)) as (m' & -> & Hd' & Hb').
    exists m'. split_and!; [done|..].
    + intros ch' Hc. apply Hd', Hd, Hc.
    + intros H. exact (Hb' (Hb H)).
Qed.

Lemma trans_send_all e l msg w : trans e w (foldl (λ w ch, try_send ch msg w) w l).
Proof. destruct (send_all_channels l msg w) as (m & -> & ? & ?). by apply trans_channels. Qed.

(** Removing a registration that the event is entitled to remove. *)
Lemma trans_delete e w sid :
  (∀ c, connections w !! sid = Some c → removes e sid (connection_id c)) →
  trans e w (set_connections (delete sid (connections w)) w).
Proof.
  intros He. split; simpl; try by eauto using same_conn_refl.
  - intros sid' c' Hc%lookup_delete_Some. exists c'. naive_solver eauto using same_conn_refl.
  - intros sid' c Hc. destruct (decide (sid' = sid)) as [->|Hne].
    + right. specialize (He c Hc). split; [by left|by left].
    + left. exists c. rewrite lookup_delete_ne by done. eauto using same_conn_refl.
Qed.

Lemma trans_notify e w w' sid : trans e w w' → trans e w (notify_disconnected sid w').
Proof.
  intros H. unfold notify_disconnected. destruct (has_notifier w'); [|done].
  destruct H. split; simpl; eauto.
Qed.

Lemma trans_cleanup e w sid id :
  (removes e sid id) → trans e w (cleanup_registration sid id w).
Proof.
  intros He. unfold cleanup_registration, unregister_current.
  destruct (connections w !! sid) as [c|] eqn:Hc; [|apply trans_refl].
  destruct (decide (connection_id c = id)) as [<-|]; [|apply trans_refl].
  assert (trans e w (set_connections (delete sid (connections w)) w)).
  { apply trans_delete. intros c' Hc'. by simplify_eq. }
  by apply trans_notify.
Qed.

Lemma trans_update e w sid c c' :
  connections w !! sid = Some c → same_conn c c' →
  trans e w (set_connections (<[sid := c']> (connections w)) w).
Proof.
  intros Hc Hs. split; simpl; try by eauto.
  - intros sid' c''. destruct (decide (sid = sid')) as [<-|Hne].
    + rewrite lookup_insert_eq. intros [= <-]. eauto.
    + rewrite lookup_insert_ne by done. eauto using same_conn_refl.
  - intros sid' c'' Hc''. left. destruct (decide (sid = sid')) as [<-|Hne].
    + rewrite lookup_insert_eq. simplify_eq. eauto.
    + rewrite lookup_insert_ne by done. eauto using same_conn_refl.
Qed.

Lemma trans_force e w sid :
  (∀ id, evicts e sid id) → trans e w (force_disconnect sid w).
Proof.
  intros He. unfold force_disconnect.
  destruct (connections w !! sid) as [c|] eqn:Hc; [|apply trans_refl].
  split; simpl; try done; try set_solver.
  - intros sid' c' Hc'%lookup_delete_Some. exists c'. naive_solver eauto using same_conn_refl.
  - intros sid' c' Hc'. destruct (decide (sid' = sid)) as [->|Hne].
    + right. split; [done|]. right. simplify_eq. set_solver.
    + left. exists c'. rewrite lookup_delete_ne by done. eauto using same_conn_refl.
  - intros t [->%elem_of_singleton|Ht]%elem_of_union; [|by left].
    right. exists sid, c. rewrite lookup_delete_eq. done.
Qed.

Lemma step_trans s e s' :
  step s e = Some s' → is_register e = false →
  issued s' = issued s ∧ trans e (world s) (world s').
Proof.
  destruct e; simpl; intros Hs Hr; try done; try case_decide; simplify_eq/=; split; try done.
  - by apply trans_cleanup.
  - unfold cleanup_enrolled_session. destruct (is_cancelled _ _); [apply trans_refl|].
    by apply trans_cleanup.
  - apply trans_delete. by intros.
  - apply trans_force. intros id. by right.
  - unfold update_capabilities. destruct (connections (world s) !! service_id) eqn:Hc; [|apply trans_refl].
    by eapply trans_update.
  - unfold set_yielded. destruct (connections (world s) !! service_id) eqn:Hc; [|apply trans_refl].
    by eapply trans_update.
  - apply (trans_send_all _ [ch]).
  - apply trans_send_all.
  - apply trans_send_all.
  - apply trans_send_all.
  - apply trans_channels.
    + intros ch' Hc. by rewrite lookup_alter_is_Some.
    + intros Hb ch' c. simpl. rewrite lookup_alter_Some.
      intros [(-> & c0 & Hc0 & ->)|[_ Hc]]; [|by apply Hb in Hc].
      apply Hb in Hc0. destruct c0 as [[|m q] o]; simpl in *; lia.
  - apply trans_channels.
    + intros ch' Hc. by rewrite lookup_alter_is_Some.
    + intros Hb ch' c. simpl. rewrite lookup_alter_Some.
      intros [(-> & c0 & Hc0 & ->)|[_ Hc]]; [simpl; lia|by apply Hb in Hc].
Qed.

(** ** The invariant *)

Record sys_ok (s : System) : Prop := {
  ok_ids : NoDup ((λ i, handle_id i.2) <$> issued s);
  ok_tokens : NoDup ((λ i, handle_token i.2) <$> issued s);
  ok_token_bound i : i ∈ issued s → handle_token i.2 < next_ref (world s);
  ok_conn sid c : connections (world s) !! sid = Some c →
    (sid, mkHandle (connection_id c) (cancel_token c)) ∈ issued s
    ∧ cancel_token c ∉ cancelled (world s)
    ∧ sender c = cancel_token c
    ∧ is_Some (channels (world s) !! sender c);
  ok_cancelled t : t ∈ cancelled (world s) → t < next_ref (world s);
  ok_bounded : chan_bounded (world s);
}.

Lemma issued_same_id s sid h sid' h' :
  sys_ok s → (sid, h) ∈ issued s → (sid', h') ∈ issued s → handle_id h = handle_id h' →
  sid = sid' ∧ h = h'.
Proof.
  intros Hok (i & Hi)%list_elem_of_lookup (j & Hj)%list_elem_of_lookup Heq.
  assert (i = j) as ->; [|naive_solver].
  eapply (NoDup_lookup _ _ _ (handle_id h)); [apply ok_ids, Hok|..];
    rewrite list_lookup_fmap, ?Hi, ?Hj; simpl; congruence.
Qed.

Lemma issued_same_token s sid h sid' h' :
  sys_ok s → (sid, h) ∈ issued s → (sid', h') ∈ issued s → handle_token h = handle_token h' →
  sid = sid' ∧ h = h'.
Proof.
  intros Hok (i & Hi)%list_elem_of_lookup (j & Hj)%list_elem_of_lookup Heq.
  assert (i = j) as ->; [|naive_solver].
  eapply (NoDup_lookup _ _ _ (handle_token h)); [apply ok_tokens, Hok|..];
    rewrite list_lookup_fmap, ?Hi, ?Hj; simpl; congruence.
Qed.

Lemma conn_same_token s sid c sid' c' :
  sys_ok s → connections (world s) !! sid = Some c → connections (world s) !! sid' = Some c' →
  cancel_token c = cancel_token c' → sid = sid'.
Proof.
  intros Hok [Hi _]%(ok_conn _ Hok) [Hj _]%(ok_conn _ Hok) Heq.
  by destruct (issued_same_token _ _ _ _ _ Hok Hi Hj Heq).
Qed.

Lemma trans_ok e s w' :
  sys_ok s → trans e (world s) w' → sys_ok (mkSystem w' (issued s)).
Proof.
  intros Hok Htr. split; simpl.
  - apply Hok.
  - apply Hok.
  - rewrite (tr_next _ _ _ Htr). apply Hok.
  - intros sid c' Hc'. destruct (tr_conn _ _ _ Htr _ _ Hc') as (c & Hc & Hid & Htok & Hs).
    destruct (ok_conn _ Hok _ _ Hc) as (Hi & Hnc & Hsnd & Hch).
    rewrite Hid, Htok, Hs. split_and!; [done| |done|by apply (tr_dom _ _ _ Htr)].
    intros [?|(sid' & c0 & Hc0 & Ht & Hnone)]%(tr_cancelled _ _ _ Htr); [done|].
    assert (sid' = sid) as -> by by eapply conn_same_token.
    by rewrite Hnone in Hc'.
  - rewrite (tr_next _ _ _ Htr).
    intros t [?|(sid' & c0 & Hc0 & <- & _)]%(tr_cancelled _ _ _ Htr); [by apply Hok|].
    apply (ok_token_bound _ Hok (sid', mkHandle (connection_id c0) (cancel_token c0))).
    by apply (ok_conn _ Hok).
  - apply (tr_bound _ _ _ Htr), Hok.
Qed.

(** A registration is a forced disconnect of the old one followed by an insertion. *)
Definition insert_new (sid id : Uuid) (caps : gset Capability) (app : option string)
    (w : World) : World :=
  let r := next_ref w in
  mkWorld (<[sid := mkConnection id r r caps app false]> (connections w)) (cancelled w)
    (<[r := mkChannel [] true]> (channels w)) (S r) (has_notifier w) (notices w).

Lemma register_eq sid id caps app w :
  register sid id caps app w
  = (insert_new sid id caps app (force_disconnect sid w), mkHandle id (next_ref w)).
Proof.
  unfold register, force_disconnect. simpl. by destruct (connections w !! sid).
Qed.

Lemma force_next sid w : next_ref (force_disconnect sid w) = next_ref w.
Proof. unfold force_disconnect. by destruct (connections w !! sid). Qed.

Lemma force_none sid w : connections (force_disconnect sid w) !! sid = None.
Proof.
  unfold force_disconnect. destruct (connections w !! sid) eqn:E; [|done].
  simpl. apply lookup_delete_eq.
Qed.

Lemma step_register s sid id caps app s' :
  step s (Register sid id caps app) = Some s' ↔
  id ∉ (λ i, handle_id i.2) <$> issued s
  ∧ s' = mkSystem (insert_new sid id caps app (force_disconnect sid (world s)))
           (issued s ++ [(sid, mkHandle id (next_ref (world s)))]).
Proof.
  unfold step. rewrite register_eq. case_decide; [naive_solver|].
  split; [intros [= <-]|intros [_ ->]]; eauto.
Qed.

Lemma insert_ok s sid id caps app :
  sys_ok s → id ∉ (λ i, handle_id i.2) <$> issued s →
  sys_ok (mkSystem (insert_new sid id caps app (world s))
            (issued s ++ [(sid, mkHandle id (next_ref (world s)))])).
Proof.
  intros Hok Hid. split; simpl.
  - rewrite fmap_app. apply list.NoDup_app. split_and!; [apply Hok| |apply NoDup_singleton].
    by intros x Hx ->%list_elem_of_singleton.
  - rewrite fmap_app. apply list.NoDup_app. split_and!; [apply Hok| |apply NoDup_singleton].
    intros x (i & -> & Hi)%list_elem_of_fmap Heq%list_elem_of_singleton.
    apply (ok_token_bound _ Hok) in Hi. simpl in Heq. lia.
  - intros i [Hi| ->%list_elem_of_singleton]%elem_of_app; [|simpl; lia].
    apply (ok_token_bound _ Hok) in Hi. lia.
  - intros sid' c Hc. rewrite elem_of_app, list_elem_of_singleton.
    rewrite lookup_insert_Some in Hc.
    destruct Hc as [[<- <-]|[Hne Hc]]; simpl.
    + split_and!; [by right| |done|rewrite lookup_insert_eq; eauto].
      intros Ht%(ok_cancelled _ Hok). lia.
    + destruct (ok_conn _ Hok _ _ Hc) as (Hi & Hnc & Hs & Hch).
      split_and!; [by left|done|done|]. rewrite lookup_insert_is_Some'. by right.
  - intros t Ht%(ok_cancelled _ Hok). lia.
  - intros ch c. simpl. rewrite lookup_insert_Some.
    intros [[<- <-]|[_ Hc]]; [simpl; lia|by apply (ok_bounded _ Hok) in Hc].
Qed.

Lemma step_ok s e s' : sys_ok s → step s e = Some s' → sys_ok s'.
Proof.
  intros Hok Hs. destruct (is_register e) eqn:Hr.
  - destruct e; try done. apply step_register in Hs as [Hid ->].
    rewrite <-(force_next service_id (world s)).
    apply (insert_ok (mkSystem (force_disconnect service_id (world s)) (issued s))); [|done].
    apply (trans_ok (ForceDisconnect service_id)); [done|].
    apply trans_force. intros ?. by right.
  - destruct (step_trans _ _ _ Hs Hr) as [Hi Htr].
    destruct s' as [w' i']. simpl in *. subst. by apply (trans_ok e).
Qed.

Definition init (notifier : bool) : System := mkSystem (new notifier) [].

Lemma exec_ok n evs s : exec (init n) evs = Some s → sys_ok s.
Proof.
  revert s. induction evs as [|e evs IH] using rev_ind; intros s.
  - intros [= <-]. split; simpl; try (set_solver || by constructor).
  - rewrite exec_snoc. destruct (exec (init n) evs) as [s0|]; [|done]. simpl.
    intros Hs. eapply step_ok; [by apply IH|done].
Qed.

(** What becomes of a registration at one step. *)
Lemma step_owns s e s' sid h :
  sys_ok s → step s e = Some s' → owns (world s) sid h →
  owns (world s') sid h
  ∨ evicts e sid (handle_id h)
    ∧ (removes e sid (handle_id h) ∨ handle_token h ∈ cancelled (world s')).
Proof.
  intros Hok Hs (c & Hc & Hh & Hk). unfold owns. rewrite <-Hh, <-Hk.
  destruct (is_register e) eqn:Hr.
  - destruct e; try done; rename service_id into sid', conn_id into id. apply step_register in Hs as [Hid ->].
    assert (trans (ForceDisconnect sid') (world s) (force_disconnect sid' (world s))) as Htr
      by (apply trans_force; intros; by right).
    destruct (tr_keep _ _ _ Htr _ _ Hc) as [(c' & Hc' & Hi & Ht & _)|[Hev Hor]].
    + destruct (decide (sid' = sid)) as [->|Hne]; [by rewrite force_none in Hc'|].
      left. exists c'. simpl. rewrite lookup_insert_ne by done. done.
    + right. destruct Hev as [[] | ->]. destruct Hor as [[]|Ht]. split; [by right|]. by right.
  - destruct (step_trans _ _ _ Hs Hr) as [_ Htr].
    destruct (tr_keep _ _ _ Htr _ _ Hc) as [(c' & Hc' & Hi & Ht & _)|?]; [|by right].
    left. by exists c'.
Qed.

Lemma step_cancelled s e s' :
  step s e = Some s' → cancelled (world s) ⊆ cancelled (world s').
Proof.
  intros Hs. destruct (is_register e) eqn:Hr.
  - destruct e; try done; rename service_id into sid', conn_id into id. apply step_register in Hs as [Hid ->].
    simpl. apply (tr_mono (ForceDisconnect sid')), trans_force. intros; by right.
  - by destruct (step_trans _ _ _ Hs Hr) as [_ []].
Qed.

Lemma step_issued s e s' i :
  step s e = Some s' → i ∈ issued s' → i ∈ issued s ∨ owns (world s') i.1 i.2.
Proof.
  intros Hs Hi. destruct (is_register e) eqn:Hr.
  - destruct e; try done; rename service_id into sid', conn_id into id. apply step_register in Hs as [Hid ->].
    simpl in Hi. apply elem_of_app in Hi as [?| ->%list_elem_of_singleton]; [by left|right].
    eexists. simpl. rewrite lookup_insert_eq. split; [done|]. by rewrite force_next.
  - destruct (step_trans _ _ _ Hs Hr) as [Hiss _]. rewrite Hiss in Hi. by left.
Qed.

(** ** Properties *)

Lemma owns_live s sid h :
  sys_ok s → owns (world s) sid h → handle_token h ∉ cancelled (world s).
Proof. intros Hok (c & Hc & _ & <-). by apply (ok_conn _ Hok) in Hc as (_ & ? & _). Qed.

(** connection ownership. After any interleaving of registrations, cleanups,
    forced disconnects, pushes and receiver activity, every handle ever given out is
    in exactly one of these situations: it is the service's current registration and
    its token is not cancelled; it was superseded or force-disconnected and its session
    has been signalled through the token; or it went away by its own session's cleanup
    or the bulk [unregister]. No session lives on unsignalled without its entry, and no
    two handles share an id or a token. *)
Theorem registration_ownership (n : bool) (evs : list Event) (s : System) :
  exec (init n) evs = Some s →
  (∀ sid h, (sid, h) ∈ issued s →
     owns (world s) sid h ∧ handle_token h ∉ cancelled (world s)
     ∨ ¬ owns (world s) sid h
       ∧ (handle_token h ∈ cancelled (world s) ∨ ∃ e, e ∈ evs ∧ removes e sid (handle_id h)))
  ∧ (∀ sid c, connections (world s) !! sid = Some c →
       (sid, mkHandle (connection_id c) (cancel_token c)) ∈ issued s)
  ∧ (∀ i j, i ∈ issued s → j ∈ issued s →
       handle_id i.2 = handle_id j.2 ∨ handle_token i.2 = handle_token j.2 → i = j).
Proof.
  intros Hex. pose proof (exec_ok _ _ _ Hex) as Hok. split_and!.
  - assert (∀ sid h, (sid, h) ∈ issued s → owns (world s) sid h
      ∨ handle_token h ∈ cancelled (world s) ∨ ∃ e, e ∈ evs ∧ removes e sid (handle_id h)) as Hinv.
    { clear Hok. revert s Hex.
      induction evs as [|e evs IH] using rev_ind; intros s; [intros [= <-]; set_solver|].
      rewrite exec_snoc. destruct (exec (init n) evs) as [s0|] eqn:E; [|done]. simpl.
      intros Hs sid h Hi. pose proof (exec_ok _ _ _ E) as Hok0.
      rewrite (exists_snoc (λ e, removes e sid (handle_id h))).
      destruct (step_issued _ _ _ _ Hs Hi) as [Hi0|]; [|by left].
      destruct (IH _ eq_refl _ _ Hi0) as [Hown|[Hc|Hr]]; [| |by eauto].
      - pose proof (step_owns _ _ _ _ _ Hok0 Hs Hown). tauto.
      - apply (step_cancelled _ _ _ Hs) in Hc. tauto. }
    intros sid h Hi. destruct (Hinv sid h Hi) as [Hown|Hout].
    + left. split; [done|]. by eapply owns_live.
    + destruct (decide (connections (world s) !! sid ≫= (λ c, Some (connection_id c, cancel_token c))
                  = Some (handle_id h, handle_token h))) as [Heq|Hne].
      * assert (owns (world s) sid h) as Hown.
        { destruct (connections (world s) !! sid) as [c|] eqn:Hc; simplify_eq/=. by exists c. }
        left. split; [done|]. by eapply owns_live.
      * right. split; [|done]. intros (c & Hc & Hid & Ht). apply Hne. rewrite Hc. simpl. congruence.
  - intros sid c Hc. by apply (ok_conn _ Hok).
  - intros [sid h] [sid' h'] Hi Hj [Heq|Heq]; simpl in Heq; f_equal.
    all: first [by destruct (issued_same_id _ _ _ _ _ Hok Hi Hj Heq)
               |by destruct (issued_same_token _ _ _ _ _ Hok Hi Hj Heq)].
Qed.

(** no reconnect eviction. When a service re-registers, its new registration
    survives everything the sessions it superseded may still do: until the service
    itself registers again, is force-disconnected or unregistered, or the new session
    cleans up, the new registration stays the current one, its token is not cancelled
    and messages pushed to the service go to its channel, whatever cleanups of older
    handles run in between, in any order and any number of times. *)
Theorem reconnect_survives_cleanups (n : bool) (before after : list Event)
    (sid id : Uuid) (caps : gset Capability) (app : option string) (s0 s1 s2 : System)
    (h := mkHandle id (next_ref (world s0))) :
  exec (init n) before = Some s0 →
  step s0 (Register sid id caps app) = Some s1 →
  exec s1 after = Some s2 →
  (∀ e, e ∈ after → match e with
     | Register sid' _ _ _ | ForceDisconnect sid' | Unregister sid' => sid' ≠ sid
     | CleanupAuthenticated sid' h' | CleanupEnrolled sid' h' => sid' = sid → h' ≠ h
     | _ => True
     end) →
  current_connection_id sid (world s2) = Some id
  ∧ authenticated_session_ownership sid id (world s2) = Current
  ∧ is_cancelled h (world s2) = false
  ∧ ∀ msg, send sid msg (world s2) = chan_send (handle_token h) msg (world s2).
Proof.
  intros H0 Hreg H2 Hafter. pose proof (exec_ok _ _ _ H0) as Hok0.
  pose proof (step_ok _ _ _ Hok0 Hreg) as Hok1.
  assert ((sid, h) ∈ issued s1 ∧ owns (world s1) sid h) as [Hi1 Hown1].
  { apply step_register in Hreg as [_ ->]. split; [set_solver|].
    eexists. simpl. rewrite lookup_insert_eq. split; [done|]. by rewrite force_next. }
  (* every cleanup runs on an issued handle, and only [h] has the id of [h] *)
  assert (owns (world s2) sid h ∧ sys_ok s2) as [(c & Hc & Hid & Ht) Hok2].
  { clear Hreg. revert s2 H2. induction after as [|e after IH] using rev_ind; intros s2.
    - by intros [= <-].
    - rewrite exec_snoc. destruct (exec s1 after) as [sm|] eqn:Em; [|done]. simpl. intros Hs.
      destruct (IH (λ e He, Hafter e (proj2 (elem_of_app _ _ _) (or_introl He))) _ eq_refl)
        as [Hown Hok].
      split; [|by eapply step_ok].
      destruct (step_owns _ _ _ _ _ Hok Hs Hown) as [|[Hbad _]]; [done|exfalso].
      specialize (Hafter e ltac:(set_solver)).
      assert ((sid, h) ∈ issued sm) as Him.
      { destruct Hown as (c & Hc & Hid & Ht). destruct (ok_conn _ Hok _ _ Hc) as [Hi _].
        rewrite Hid, Ht in Hi. done. }
      destruct Hbad as [Hrm|Hrm]; destruct e; simpl in *; try done; try (by subst);
        case_decide as Hdec; try done; destruct Hrm as [-> Heq];
        destruct (issued_same_id _ _ _ _ _ Hok Hdec Him Heq) as [_ ->]; by apply Hafter. }
  destruct (ok_conn _ Hok2 _ _ Hc) as (_ & Hnc & Hsnd & _).
  unfold authenticated_session_ownership, current_connection_id, is_cancelled, send.
  rewrite Hc. simpl. rewrite Hid. simpl. split_and!; [done|by rewrite decide_True| |].
  - apply bool_decide_eq_false. intros Hin. apply Hnc. by rewrite Ht.
  - intros msg. by rewrite Hsnd, Ht.
Qed.

(** What a push does to the channel it reaches. *)
Definition offered msg (c : Channel) : Channel :=
  if receiver_open c && bool_decide (length (queue c) < PUSH_CHANNEL_CAPACITY)
  then mkChannel (queue c ++ [msg]) true else c.

(** The effect of [try_send] on each channel. *)
Lemma try_send_lookup ch msg w ch' :
  channels (try_send ch msg w) !! ch' =
  if decide (ch' = ch) then
    offered msg <$> channels w !! ch
  else channels w !! ch'.
Proof.
  unfold try_send, chan_send, offered. destruct (decide (ch' = ch)) as [->|Hne].
  - destruct (channels w !! ch) as [[q [|]]|] eqn:E; simpl; try by rewrite E.
    case_decide as Hd.
    + rewrite bool_decide_eq_true_2 by done. simpl. by rewrite lookup_insert_eq.
    + rewrite bool_decide_eq_false_2 by done. simpl. by rewrite E.
  - split_cases; try done. by rewrite lookup_insert_ne.
Qed.

Lemma send_all_lookup l msg w ch :
  NoDup l →
  channels (foldl (λ w ch, try_send ch msg w) w l) !! ch =
  if decide (ch ∈ l) then offered msg <$> channels w !! ch else channels w !! ch.
Proof.
  revert w. induction l as [|c l IH]; intros w Hnd; simpl; [done|].
  apply list.NoDup_cons in Hnd as [Hc Hnd]. rewrite IH by done. rewrite try_send_lookup.
  destruct (decide (ch = c)) as [->|Hne].
  - rewrite decide_False by done. rewrite decide_True by set_solver. done.
  - destruct (decide (ch ∈ l)); [rewrite decide_True by set_solver
      |rewrite decide_False by set_solver]; done.
Qed.

Lemma senders_nodup s (P : Uuid * ServiceConnection → Prop) `{!∀ x, Decision (P x)} :
  sys_ok s → NoDup ((λ e, sender e.2) <$> filter P (map_to_list (connections (world s)))).
Proof.
  intros Hok. apply NoDup_fmap_2_strong; [|apply NoDup_filter, NoDup_map_to_list].
  intros [i c] [j d] [_ Hi]%list_elem_of_filter [_ Hj]%list_elem_of_filter Heq. simpl in Heq.
  rewrite elem_of_map_to_list in Hi, Hj.
  destruct (ok_conn _ Hok _ _ Hi) as (_ & _ & Hsi & _).
  destruct (ok_conn _ Hok _ _ Hj) as (_ & _ & Hsj & _).
  assert (i = j) as -> by (eapply conn_same_token; [done..|congruence]). naive_solver.
Qed.

(** fan-out reaches exactly its audience. In every reachable state a configuration
    push to an application appends the message to the channel of every connected
    instance of that application other than the writer, where the receiver lives and
    has room, and changes no other channel; registrations are untouched and no channel
    ever holds more than its capacity. *)
Theorem app_fanout_exact (n : bool) (evs : list Event) (s : System)
    (app : string) (exclude : Uuid) (msg : ControllerMessage) :
  exec (init n) evs = Some s →
  let w := world s in
  let w' := broadcast_to_app_except app exclude msg w in
  connections w' = connections w ∧ cancelled w' = cancelled w
  ∧ (∀ sid c, connections w !! sid = Some c →
       channels w' !! sender c =
       if decide (sid ≠ exclude ∧ service_app_name c = Some app)
       then offered msg <$> channels w !! sender c else channels w !! sender c)
  ∧ (∀ ch, (∀ sid c, connections w !! sid = Some c → sender c ≠ ch) →
       channels w' !! ch = channels w !! ch)
  ∧ (∀ ch c, channels w' !! ch = Some c → length (queue c) ≤ PUSH_CHANNEL_CAPACITY).
Proof.
  intros Hex w w'. pose proof (exec_ok _ _ _ Hex) as Hok.
  set (l := (λ e, sender e.2) <$>
     filter (λ e, e.1 ≠ exclude ∧ service_app_name e.2 = Some app) (map_to_list (connections w))).
  assert (w' = foldl (λ w ch, try_send ch msg w) w l) as Hw' by done.
  assert (∀ ch, ch ∈ l ↔ ∃ sid c, connections w !! sid = Some c ∧ sender c = ch
            ∧ sid ≠ exclude ∧ service_app_name c = Some app) as Hl.
  { intros ch. unfold l. rewrite list_elem_of_fmap. split.
    - intros ([sid c] & -> & [? ?%elem_of_map_to_list]%list_elem_of_filter). naive_solver.
    - intros (sid & c & Hc & <- & ?). exists (sid, c).
      rewrite list_elem_of_filter, elem_of_map_to_list. done. }
  destruct (send_all_channels l msg w) as (m & Hm & _ & Hb). rewrite Hw'.
  split_and!; [by rewrite Hm..| | |].
  - intros sid c Hc. rewrite (send_all_lookup l msg w (sender c)) by by apply senders_nodup.
    apply decide_ext. rewrite Hl. split; [|naive_solver].
    intros (sid' & c' & Hc' & Heq & ?).
    destruct (ok_conn _ Hok _ _ Hc) as (_ & _ & Hs & _).
    destruct (ok_conn _ Hok _ _ Hc') as (_ & _ & Hs' & _).
    assert (sid' = sid) as -> by (eapply conn_same_token; [done..|congruence]).
    by simplify_eq.
  - intros ch Hch. rewrite (send_all_lookup l msg w ch) by by apply senders_nodup.
    rewrite decide_False; [done|]. rewrite Hl. naive_solver.
  - rewrite Hm. apply Hb, (ok_bounded _ Hok).
Qed.

(** The shutdown notice is scattered over its window. Every connected service, and
    nothing else, gets exactly one task; every delay lies in the window (and is zero when
    the window is empty); and if anything is connected the pinned slot is notified at
    once. The random draws are the generator's, within the ranges it is asked for. *)
Lemma scattered_restart_correct (w : World) (scatter_ms : Z) (zero_slot : nat)
    (draw : nat → Z) :
  (0 ≤ scatter_ms)%Z →
  (0 < connection_count w → zero_slot < connection_count w) →
  ((0 < scatter_ms)%Z → ∀ i, (0 ≤ draw i < scatter_ms)%Z) →
  let tasks := scattered_schedule scatter_ms zero_slot draw w in
  NoDup tasks.*1
  ∧ (∀ sid, sid ∈ tasks.*1 ↔ is_connected sid w = true)
  ∧ length tasks = connection_count w
  ∧ (∀ sid d, (sid, d) ∈ tasks → (0 ≤ d < Z.max 1 scatter_ms)%Z)
  ∧ (0 < connection_count w → ∃ sid, (sid, 0%Z) ∈ tasks).
Proof.
  intros Hms Hz Hd tasks.
  assert (length tasks = connection_count w) as Hlen.
  { unfold tasks, scattered_schedule, connection_count.
    by rewrite length_imap, length_fmap, length_map_to_list. }
  assert (tasks.*1 = (map_to_list (connections w)).*1) as Hfst.
  { unfold tasks, scattered_schedule. rewrite fmap_imap. 
    rewrite (imap_ext _ (λ _ x, x)) by done. apply list_eq. intros i.
    rewrite list_lookup_imap. by destruct (_ !! i). }
  split_and!; [..|exact Hlen| |].
  - rewrite Hfst. apply NoDup_fst_map_to_list.
  - intros sid. rewrite Hfst. unfold is_connected. rewrite bool_decide_eq_true.
    rewrite list_elem_of_fmap. split.
    + intros ([? c] & -> & ?%elem_of_map_to_list). eauto.
    + intros [c Hc]. exists (sid, c). by rewrite elem_of_map_to_list.
  - intros sid d (i & Hi)%list_elem_of_lookup. unfold tasks, scattered_schedule in Hi.
    rewrite list_lookup_imap in Hi. destruct (_ !! i); simplify_eq/=.
    repeat case_decide; try lia. specialize (Hd ltac:(done) i). lia.
  - intros Hpos. specialize (Hz Hpos).
    destruct (lookup_lt_is_Some_2 ((map_to_list (connections w)).*1) zero_slot) as [sid Hsid].
    { by rewrite length_fmap, length_map_to_list. }
    exists sid. apply list_elem_of_lookup. exists zero_slot. unfold tasks, scattered_schedule.
    rewrite list_lookup_imap, Hsid. simpl. by rewrite decide_True.
Qed.

End Registry.

(** ** Witnesses: a service that reconnects while its old session still cleans up *)

Definition demo_before : list (Event (ControllerMessage := nat)) :=
  [Register 1 10 ∅ (Some "mqtt"); Register 2 20 ∅ (Some "mqtt")].

Definition demo_register : Event (ControllerMessage := nat) :=
  Register 1 11 ∅ (Some "mqtt").

Definition demo_after : list (Event (ControllerMessage := nat)) :=
  [CleanupAuthenticated 1 (mkHandle 10 0); Broadcast 7;
   CleanupEnrolled 1 (mkHandle 10 0); ForceDisconnect 2].

Definition demo_state (evs : list (Event (ControllerMessage := nat))) : System :=
  default (init true) (exec (init true) evs).

Lemma registration_ownership_witness :
  exec (init true) (demo_before ++ demo_register :: demo_after)
    = Some (demo_state (demo_before ++ demo_register :: demo_after))
  ∧ (1%N, mkHandle 10 0) ∈ issued (demo_state (demo_before ++ demo_register :: demo_after))
  ∧ ¬ owns (world (demo_state (demo_before ++ demo_register :: demo_after))) 1 (mkHandle 10 0).
Proof.
  assert (exec (init true) (demo_before ++ demo_register :: demo_after)
    = Some (demo_state (demo_before ++ demo_register :: demo_after))) as Hex by by vm_compute.
  assert ((1%N, mkHandle 10 0) ∈ issued (demo_state (demo_before ++ demo_register :: demo_after)))
    as Hi by (apply (bool_decide_unpack _); by vm_compute).
  split_and!; [done|done|].
  destruct (registration_ownership _ _ _ Hex) as [H _].
  destruct (H _ _ Hi) as [[_ Hbad]|[Hno _]]; [|done].
  exfalso. apply Hbad. apply (bool_decide_unpack _). by vm_compute.
Defined.

Lemma reconnect_survives_cleanups_witness :
  current_connection_id 1 (world (demo_state (demo_before ++ demo_register :: demo_after)))
  = Some 11%N.
Proof.
  assert (∀ e, e ∈ demo_after → match e with
     | Register sid' _ _ _ | ForceDisconnect sid' | Unregister sid' => sid' ≠ 1%N
     | CleanupAuthenticated sid' h' | CleanupEnrolled sid' h' =>
         sid' = 1%N → h' ≠ mkHandle 11 (next_ref (world (demo_state demo_before)))
     | _ => True end) as Hafter.
  { intros e He. repeat (apply elem_of_cons in He as [->|He]; [by vm_compute|]).
    by apply elem_of_nil in He. }
  refine (proj1 (reconnect_survives_cleanups true demo_before demo_after 1 11
    ∅ (Some "mqtt") (demo_state demo_before)
    (demo_state (demo_before ++ [demo_register])) _ _ _ _ Hafter)); by vm_compute.
Defined.

Lemma app_fanout_exact_witness :
  let w := world (demo_state demo_before) in
  channels (broadcast_to_app_except "mqtt" 1 7 w) !! 0 = channels w !! 0
  ∧ channels (broadcast_to_app_except "mqtt" 1 7 w) !! 1 = Some (mkChannel [7] true).
Proof.
  assert (exec (init true) demo_before = Some (demo_state demo_before)) as Hex by by vm_compute.
  destruct (app_fanout_exact true demo_before (demo_state demo_before) "mqtt" 1 7 Hex)
    as (_ & _ & H & _).
  split.
  - exact (H 1%N (mkConnection 10 0 0 ∅ (Some "mqtt") false) eq_refl).
  - exact (H 2%N (mkConnection 20 1 1 ∅ (Some "mqtt") false) eq_refl).
Defined.

End Registry.
