(* ===== verification/ConfigModel.v ===== *)
(** Runtime configuration: its sections, the deltas between two configurations and the
    triage of changes that need a new process.

    Models [crates/shared/config-reload/src/config] (the section records and the
    section validations the live subsystems run), [delta.rs], the free functions
    [build_deltas], [sections_to_deltas] and [dedup_deltas] of
    [coordinator/state_machine.rs] and
    [crates/core/controller-runtime/src/reexec/triage.rs].

    [toml::Value], which only appears in the maps of unknown keys, is a parameter with
    decidable equality. Reports ([rootcause::Report]) carry the crate's error. *)

From Stdlib Require Import Ascii.
From stdpp Require Import base list gmap sets strings numbers sorting.
From S2P Require Import Prelude RustStr.

Inductive ConfigReloadError :=
| TomlIo (path source_msg : string)
| TomlParse (path source_msg : string)
| ValidateError (message : string)
| ApplyFailed (subsystem message : string)
| RevertFailed (subsystem message : string)
| HealthFailed (subsystem message : string)
| WatchdogTimeout (subsystem : string) (ms : Z)
| DegradedError (failed : list string)
| ReconcilerError (message : string)
(** a report without a [ConfigReloadError] context *)
| OtherReport (message : string).

Notation Report := ConfigReloadError (only parsing).

Section Config.
Context {TomlValue : Type} `{EqDecision TomlValue}.

Notation Extra := (gmap string TomlValue).

Record DbConfig := mkDbConfig {
  db_url : string; pool_size : Z; acquire_timeout_ms : Z; db_extra : Extra }.

Record HttpsConfig := mkHttpsConfig {
  addr : string;
  trusted_proxies : list string;
  real_ip_header : string;
  forwarded_client_cert_info_header : string;
  forwarded_client_cert_pem_header : string }.

Record NetworkConfig := mkNetworkConfig {
  https : HttpsConfig; pki_addr : string; network_extra : Extra }.

Record TlsConfig := mkTlsConfig {
  cert_path : string; key_path : string; sans : list string; trust_domain : string;
  tls_extra : Extra }.

Record NatsConfig := mkNatsConfig { nats_url : string; nats_extra : Extra }.

Record AuditConfig := mkAuditConfig {
  audit_filter : string; retention_days : Z; audit_extra : Extra }.

Record LogConfig := mkLogConfig { log_path : string; level : string; log_extra : Extra }.

Record ZeroconfConfig := mkZeroconfConfig {
  enabled : bool; zeroconf_url : string; zeroconf_pki_addr : string; zeroconf_extra : Extra }.

Record EmbeddedServicesConfig := mkEmbeddedServicesConfig {
  agent : bool; agent_ssh : bool; mqtt : bool; scheduler : bool; embedded_extra : Extra }.

Record PluginsConfig := mkPluginsConfig { version : Z }.

Record RuntimeConfig := mkRuntimeConfig {
  db : DbConfig;
  master_key : string;
  network : NetworkConfig;
  tls : TlsConfig;
  nats : NatsConfig;
  audit : AuditConfig;
  log : LogConfig;
  zeroconf : ZeroconfConfig;
  embedded_services : EmbeddedServicesConfig;
}.

#[global] Instance DbConfig_eq_dec : EqDecision DbConfig.
Proof. solve_decision. Defined.
#[global] Instance HttpsConfig_eq_dec : EqDecision HttpsConfig.
Proof. solve_decision. Defined.
#[global] Instance NetworkConfig_eq_dec : EqDecision NetworkConfig.
Proof. solve_decision. Defined.
#[global] Instance TlsConfig_eq_dec : EqDecision TlsConfig.
Proof. solve_decision. Defined.
#[global] Instance NatsConfig_eq_dec : EqDecision NatsConfig.
Proof. solve_decision. Defined.
#[global] Instance AuditConfig_eq_dec : EqDecision AuditConfig.
Proof. solve_decision. Defined.
#[global] Instance ZeroconfConfig_eq_dec : EqDecision ZeroconfConfig.
Proof. solve_decision. Defined.
#[global] Instance EmbeddedServicesConfig_eq_dec : EqDecision EmbeddedServicesConfig.
Proof. solve_decision. Defined.

(** ** Defaults *)

Definition default_pool_size : Z := 16.
Definition default_acquire_timeout : Z := 5000.
Definition default_retention : Z := 90.

Definition DbConfig_default : DbConfig :=
  mkDbConfig "" default_pool_size default_acquire_timeout ∅.
Definition HttpsConfig_default : HttpsConfig := mkHttpsConfig "" [] "" "" "".
Definition NetworkConfig_default : NetworkConfig := mkNetworkConfig HttpsConfig_default "" ∅.
Definition TlsConfig_default : TlsConfig := mkTlsConfig "" "" [] "" ∅.
Definition NatsConfig_default : NatsConfig := mkNatsConfig "" ∅.
Definition AuditConfig_default : AuditConfig := mkAuditConfig "all" default_retention ∅.
Definition LogConfig_default : LogConfig := mkLogConfig "" "info" ∅.
Definition ZeroconfConfig_default : ZeroconfConfig := mkZeroconfConfig false "" "" ∅.
Definition EmbeddedServicesConfig_default : EmbeddedServicesConfig :=
  mkEmbeddedServicesConfig false false false false ∅.

Definition RuntimeConfig_default : RuntimeConfig :=
  mkRuntimeConfig DbConfig_default "" NetworkConfig_default TlsConfig_default
    NatsConfig_default AuditConfig_default LogConfig_default ZeroconfConfig_default
    EmbeddedServicesConfig_default.

(** ** Section validation *)

Definition db_validate (c : DbConfig) : Result Report unit :=
  if decide (pool_size c = 0)%Z then Err (ValidateError "db.pool_size must be >= 1")
  else if decide (acquire_timeout_ms c = 0)%Z
  then Err (ValidateError "db.acquire_timeout_ms must be > 0")
  else Ok tt.

Definition is_trust_domain_char (c : Ascii.ascii) : bool :=
  is_ascii_lowercase c || is_ascii_digit c || Ascii.eqb c "."%char || Ascii.eqb c "-"%char.

Definition tls_validate (c : TlsConfig) : Result Report unit :=
  let has_cert := negb (str_is_empty (cert_path c)) in
  let has_key := negb (str_is_empty (key_path c)) in
  if negb (Bool.eqb has_cert has_key)
  then Err (ValidateError "tls.cert_path and tls.key_path must both be set or both be empty")
  else if negb (str_is_empty (trust_domain c))
          && negb (all_chars is_trust_domain_char (trust_domain c))
  then Err (ValidateError ("tls.trust_domain contains invalid characters: " +:+ trust_domain c))
  else Ok tt.

Definition VALID_FILTERS : list string := ["all"; "mutations"; "none"].

(** [{:?}] of a string with nothing to escape. *)
Definition debug_str (s : string) : string :=
  String (ascii_of_nat 34) (s +:+ String (ascii_of_nat 34) "").

Definition audit_validate (c : AuditConfig) : Result Report unit :=
  if decide (audit_filter c ∈ VALID_FILTERS) then Ok tt
  else Err (ValidateError ("audit.filter must be one of [" +:+
         join ", " (debug_str <$> VALID_FILTERS) +:+ "], got " +:+ debug_str (audit_filter c))).

Definition zeroconf_validate (c : ZeroconfConfig) : Result Report unit :=
  if enabled c && str_is_empty (zeroconf_url c)
  then Err (ValidateError "zeroconf.url is empty when enabled=true")
  else Ok tt.

Definition effective_trust_domain (c : TlsConfig) (fallback_sans : list string) : string :=
  if negb (str_is_empty (trust_domain c)) then trust_domain c
  else default "" (head fallback_sans).

(** [validate_master_key] *)
Definition validate_master_key (key : string) : Result Report unit :=
  if str_is_empty key then Err (ValidateError "master_key is empty")
  else match strip_prefix "file:" key with
  | Some path =>
      if str_is_empty path then Err (ValidateError "master_key file: path is empty") else Ok tt
  | None =>
      match strip_prefix "env:" key with
      | Some var =>
          if str_is_empty var
          then Err (ValidateError "master_key env: variable name is empty") else Ok tt
      | None =>
          if negb (bool_decide (str_len key = 64)) || negb (all_chars is_ascii_hexdigit key)
          then Err (ValidateError
            "master_key inline value must be exactly 64 hexadecimal characters")
          else Ok tt
      end
  end.

(** ** Deltas *)

Inductive RuntimeConfigDelta :=
| Db (c : DbConfig)
| Network (c : NetworkConfig)
| Nats (c : NatsConfig)
| Tls (c : TlsConfig)
| Audit (c : AuditConfig)
| Zeroconf (c : ZeroconfConfig)
| EmbeddedServices (c : EmbeddedServicesConfig)
| Plugins (c : PluginsConfig)
| PluginsDbRefresh.

Definition variant_tag (d : RuntimeConfigDelta) : string :=
  match d with
  | Db _ => "Db"
  | Network _ => "Network"
  | Nats _ => "Nats"
  | Tls _ => "Tls"
  | Audit _ => "Audit"
  | Zeroconf _ => "Zeroconf"
  | EmbeddedServices _ => "EmbeddedServices"
  | Plugins _ => "Plugins"
  | PluginsDbRefresh => "PluginsDbRefresh"
  end.

Definition build_deltas (prior new : RuntimeConfig) : list RuntimeConfigDelta :=
  let deltas := [] in
  let deltas := if decide (db prior = db new) then deltas else deltas ++ [Db (db new)] in
  let deltas := if decide (network prior = network new) then deltas
                else deltas ++ [Network (network new)] in
  let deltas := if decide (nats prior = nats new) then deltas else deltas ++ [Nats (nats new)] in
  let deltas := if decide (tls prior = tls new) then deltas else deltas ++ [Tls (tls new)] in
  let deltas := if decide (audit prior = audit new) then deltas
                else deltas ++ [Audit (audit new)] in
  if decide (zeroconf prior = zeroconf new) then deltas
  else deltas ++ [Zeroconf (zeroconf new)].

(** The [filter] closure of [dedup_deltas] runs with the set [seen] as its state. *)
Fixpoint dedup_filter (seen : gset string) (l : list RuntimeConfigDelta)
    : list RuntimeConfigDelta :=
  match l with
  | [] => []
  | d :: l =>
      if decide (variant_tag d ∈ seen) then dedup_filter seen l
      else d :: dedup_filter ({[variant_tag d]} ∪ seen) l
  end.

Definition dedup_deltas (deltas : list RuntimeConfigDelta) : list RuntimeConfigDelta :=
  reverse (dedup_filter ∅ (reverse deltas)).

Definition section_delta (current : RuntimeConfig) (s : string) : list RuntimeConfigDelta :=
  if decide (s = "audit" ∨ s = "audit_log" ∨ s = "registration")
  then [Audit (audit current)]
  else if decide (s = "plugins") then [PluginsDbRefresh]
  else [].

Definition sections_to_deltas (sections : list string) (current : RuntimeConfig)
    : list RuntimeConfigDelta :=
  dedup_deltas (foldl (λ deltas s, deltas ++ section_delta current s) [] sections).

(** ** Triage *)

Record ReexecDecision := mkReexecDecision { needed : bool; reasons : list string }.

(** [triage::decide] *)
Definition triage_decide (prior new : RuntimeConfig) : ReexecDecision :=
  let reasons := [] in
  let reasons := if decide (db_url (db prior) = db_url (db new)) then reasons
                 else reasons ++ ["db.url"] in
  let reasons := if decide (nats_url (nats prior) = nats_url (nats new)) then reasons
                 else reasons ++ ["nats.url"] in
  let reasons := if decide (trust_domain (tls prior) = trust_domain (tls new)) then reasons
                 else reasons ++ ["tls.trust_domain"] in
  let reasons := if decide (master_key prior = master_key new) then reasons
                 else reasons ++ ["master_key"] in
  let reasons := if decide (log_path (log prior) = log_path (log new)) then reasons
                 else reasons ++ ["log.path"] in
  let reasons := if decide (embedded_services prior = embedded_services new) then reasons
                 else reasons ++ ["embedded_services topology"] in
  mkReexecDecision (negb (bool_decide (reasons = []))) reasons.

(** ** Lemmas *)

(** The pattern of both functions: append a value when a field changed. *)
Lemma push_unless {A} (P : Prop) `{!Decision P} (l : list A) (x y : A) :
  y ∈ (if decide P then l else l ++ [x]) ↔ y ∈ l ∨ ¬ P ∧ y = x.
Proof. case_decide; rewrite ?elem_of_app, ?list_elem_of_singleton; tauto. Qed.

Lemma push_unless_nil {A} (P : Prop) `{!Decision P} (l : list A) (x : A) :
  (if decide P then l else l ++ [x]) = [] ↔ l = [] ∧ P.
Proof.
  case_decide; [tauto|]. split; [|tauto]. intros Hl%(f_equal length).
  rewrite length_app in Hl. simpl in Hl. lia.
Qed.

Lemma dedup_filter_elem seen l d :
  d ∈ dedup_filter seen l → d ∈ l ∧ variant_tag d ∉ seen.
Proof.
  revert seen. induction l as [|e l IH]; intros seen; simpl; [set_solver|].
  case_decide; [intros [? ?]%IH; set_solver|].
  rewrite elem_of_cons. intros [->|[? ?]%IH]; set_solver.
Qed.

Lemma dedup_filter_nodup seen l : NoDup (variant_tag <$> dedup_filter seen l).
Proof.
  revert seen. induction l as [|e l IH]; intros seen; simpl; [constructor|].
  case_decide; [apply IH|]. rewrite fmap_cons. apply list.NoDup_cons. split; [|apply IH].
  intros (d & Heq & [_ Hd]%dedup_filter_elem)%list_elem_of_fmap. set_solver.
Qed.

(** A value whose tag is unused survives when nothing before it in scan order has its
    tag: deduplication keeps the first occurrence it scans, the last of the input. *)
Lemma dedup_filter_first seen pre d l :
  variant_tag d ∉ seen → Forall (λ e, variant_tag e ≠ variant_tag d) pre →
  d ∈ dedup_filter seen (pre ++ d :: l).
Proof.
  revert seen. induction pre as [|e pre IH]; intros seen Hs Hp; simpl.
  - rewrite decide_False by done. set_solver.
  - apply list.Forall_cons in Hp as [He Hp]. case_decide; [by apply IH|].
    apply elem_of_cons. right. apply IH; [set_solver|done].
Qed.

Lemma dedup_deltas_nodup l : NoDup (variant_tag <$> dedup_deltas l).
Proof. unfold dedup_deltas. rewrite fmap_reverse, reverse_Permutation. apply dedup_filter_nodup. Qed.

Lemma dedup_deltas_last pre d suf :
  Forall (λ e, variant_tag e ≠ variant_tag d) suf → d ∈ dedup_deltas (pre ++ d :: suf).
Proof.
  intros H. unfold dedup_deltas. rewrite elem_of_reverse, reverse_app, reverse_cons.
  rewrite <-app_assoc. apply dedup_filter_first; [set_solver|].
  by apply list.Forall_reverse.
Qed.

Lemma last_with_tag e l :
  e ∈ l → ∃ pre d suf, l = pre ++ d :: suf ∧ variant_tag d = variant_tag e
          ∧ Forall (λ x, variant_tag x ≠ variant_tag d) suf.
Proof.
  induction l as [|x l IH] using rev_ind; [set_solver|]. intros He.
  destruct (decide (variant_tag x = variant_tag e)) as [Hx|Hx]; [by exists l, x, []|].
  destruct IH as (pre & d & suf & -> & Ht & Hf); [set_solver|].
  exists pre, d, (suf ++ [x]). rewrite <-app_assoc. split_and!; [done..|].
  apply list.Forall_app. split; [done|]. apply list.Forall_singleton. congruence.
Qed.

(** Deduplication keeps every tag of the input. *)
Lemma dedup_deltas_tag l t :
  t ∈ variant_tag <$> dedup_deltas l ↔ t ∈ variant_tag <$> l.
Proof.
  split; intros (d & -> & Hd)%list_elem_of_fmap.
  - unfold dedup_deltas in Hd. rewrite elem_of_reverse in Hd.
    apply dedup_filter_elem in Hd as [Hd _].
    apply list_elem_of_fmap_2. by rewrite elem_of_reverse in Hd.
  - destruct (last_with_tag d l Hd) as (pre & e & suf & -> & <- & Hf).
    by apply list_elem_of_fmap_2, dedup_deltas_last.
Qed.

Lemma dedup_deltas_elem l d : d ∈ dedup_deltas l → d ∈ l.
Proof.
  unfold dedup_deltas. rewrite elem_of_reverse. intros [Hd _]%dedup_filter_elem.
  by rewrite elem_of_reverse in Hd.
Qed.

Lemma section_deltas_elem sections current d :
  d ∈ foldl (λ deltas s, deltas ++ section_delta current s) [] sections ↔
  ∃ s, s ∈ sections ∧ d ∈ section_delta current s.
Proof.
  induction sections as [|s sections IH] using rev_ind; simpl; [set_solver|].
  rewrite foldl_app. simpl. rewrite elem_of_app, IH.
  rewrite (exists_snoc (λ s, d ∈ section_delta current s)). done.
Qed.

Lemma section_delta_elem current s d :
  d ∈ section_delta current s ↔
  s ∈ ["audit"; "audit_log"; "registration"] ∧ d = Audit (audit current)
  ∨ s = "plugins" ∧ d = PluginsDbRefresh.
Proof.
  unfold section_delta. rewrite !elem_of_cons, elem_of_nil.
  case_decide as H1; [|case_decide as H2];
    rewrite ?list_elem_of_singleton, ?elem_of_nil; [|naive_solver..].
  split; [naive_solver|]. intros [[_ ?]|[-> _]]; [done|]. naive_solver.
Qed.

Lemma elem_of_build_deltas prior new d :
  d ∈ build_deltas prior new ↔
  db prior ≠ db new ∧ d = Db (db new)
  ∨ network prior ≠ network new ∧ d = Network (network new)
  ∨ nats prior ≠ nats new ∧ d = Nats (nats new)
  ∨ tls prior ≠ tls new ∧ d = Tls (tls new)
  ∨ audit prior ≠ audit new ∧ d = Audit (audit new)
  ∨ zeroconf prior ≠ zeroconf new ∧ d = Zeroconf (zeroconf new).
Proof. unfold build_deltas. rewrite !push_unless, elem_of_nil. tauto. Qed.

Lemma build_deltas_nodup prior new : NoDup (variant_tag <$> build_deltas prior new).
Proof.
  unfold build_deltas.
  repeat case_decide; apply (bool_decide_unpack _); reflexivity.
Qed.

Lemma triage_needed prior new :
  needed (triage_decide prior new) = false ↔
  db_url (db prior) = db_url (db new) ∧ nats_url (nats prior) = nats_url (nats new)
  ∧ trust_domain (tls prior) = trust_domain (tls new) ∧ master_key prior = master_key new
  ∧ log_path (log prior) = log_path (log new)
  ∧ embedded_services prior = embedded_services new.
Proof.
  unfold triage_decide. cbn [needed]. rewrite negb_false_iff, bool_decide_eq_true.
  rewrite !push_unless_nil. tauto.
Qed.

(** a reload neither loses nor repeats a change. From two configurations the
    coordinator derives exactly one delta per changed section, carrying the new value,
    and none for the rest; the triage asks for a new process exactly when one of the six
    irreversibly bound keys changed; so a file change that yields neither is confined to
    the log level and the unknown keys of the log section. The sections of a database
    bump map to at most one delta per subsystem variant, keeping every variant named. *)
Theorem reload_deltas_exact (prior new : RuntimeConfig) (sections : list string) :
  NoDup (variant_tag <$> build_deltas prior new)
  ∧ (∀ d, d ∈ build_deltas prior new ↔
       db prior ≠ db new ∧ d = Db (db new)
       ∨ network prior ≠ network new ∧ d = Network (network new)
       ∨ nats prior ≠ nats new ∧ d = Nats (nats new)
       ∨ tls prior ≠ tls new ∧ d = Tls (tls new)
       ∨ audit prior ≠ audit new ∧ d = Audit (audit new)
       ∨ zeroconf prior ≠ zeroconf new ∧ d = Zeroconf (zeroconf new))
  ∧ (build_deltas prior new = [] ∧ needed (triage_decide prior new) = false ↔
       new = mkRuntimeConfig (db prior) (master_key prior) (network prior) (tls prior)
               (nats prior) (audit prior)
               (mkLogConfig (log_path (log prior)) (level (log new)) (log_extra (log new)))
               (zeroconf prior) (embedded_services prior))
  ∧ NoDup (variant_tag <$> sections_to_deltas sections prior)
  ∧ (∀ d, d ∈ sections_to_deltas sections prior ↔
       (∃ s, s ∈ sections ∧ s ∈ ["audit"; "audit_log"; "registration"])
         ∧ d = Audit (audit prior)
       ∨ "plugins" ∈ sections ∧ d = PluginsDbRefresh).
Proof.
  split_and!.
  - apply build_deltas_nodup.
  - apply elem_of_build_deltas.
  - rewrite triage_needed. unfold build_deltas. rewrite !push_unless_nil.
    destruct prior as [? ? ? ? ? ? [] ? ?], new as [? ? ? ? ? ? [] ? ?]. cbn.
    split; [intros [? ?]; destruct_and!; by subst|]. intros [= <- <- <- <- <- <- <- <- <-].
    by split_and!.
  - apply dedup_deltas_nodup.
  - intros d. unfold sections_to_deltas. split.
    + intros (s & Hs & Hd)%dedup_deltas_elem%section_deltas_elem.
      rewrite section_delta_elem in Hd. naive_solver.
    + intros Hd. set (l := foldl _ _ _).
      assert (d ∈ l) as Hl.
      { apply section_deltas_elem. setoid_rewrite section_delta_elem. naive_solver. }
      assert (variant_tag d ∈ variant_tag <$> dedup_deltas l) as Ht
        by by apply dedup_deltas_tag, list_elem_of_fmap_2.
      apply list_elem_of_fmap in Ht as (e & Heq & He).
      assert (∃ s, s ∈ sections ∧ e ∈ section_delta prior s) as (s & _ & Hes)
        by by apply section_deltas_elem, dedup_deltas_elem.
      rewrite section_delta_elem in Hes. assert (d = e) as -> by naive_solver. done.
Qed.

End Config.
