(* ===== verification/ReloadCoordinator.v ===== *)
(** The reload coordinator: validate all, apply all, watch, or revert.

    Models [crates/shared/config-reload/src/coordinator/state_machine.rs] (the phases,
    [process_request] and the [run] loop), the state and source types and the handle of
    [coordinator/mod.rs], [audit.rs], [alerts.rs], [reexec_hook.rs] and the controller's
    hook in [crates/core/controller-runtime/src/lib.rs].

    The coordinator owns its subsystems through a trait object; here a subsystem is its
    operations ([ReloadableErased]) paired with its state, and a list of subsystems is
    threaded through the phases, so that an operation that fails half-way keeps whatever
    it did. What the coordinator does not control is a parameter of a cycle: the clock
    (durations, timestamps and the order in which concurrent health checks finish), the
    file loader and the outcome of [exec]. [Display] of a report is [display]. *)

From stdpp Require Import base list gmap sets strings numbers sorting.
From S2P Require Import Prelude RustStr ConfigModel.

Inductive ReloadSource :=
| Sighup
| FileWatch (path : string)
| DbBump (scope : option Uuid) (sections : list string)
| Boot
| OtherSource (kind : string).

Inductive ReloadPhase := Validate | Apply | Watchdog | Reexec | OtherPhase (s : string).

Record DegradedInfo := mkDegradedInfo {
  since : Z; failed_subsystems : list string; reason : string }.

Inductive CoordinatorState := Idle | Reloading | Degraded (info : DegradedInfo).

Definition is_degraded (s : CoordinatorState) : bool :=
  match s with Degraded _ => true | _ => false end.

Inductive AlertSeverity := Warning | Error | Critical.

Inductive ReloadAuditEvent :=
| Refused (source : ReloadSource) (reason : string)
| Requested (source : ReloadSource)
| FileChanged (path : string)
| Applied (sections : list string) (per_subsystem_ms : gmap string Z) (source : ReloadSource)
| Failed (phase : ReloadPhase) (subsystem : option string) (error : string)
| Reverted (subsystem reason : string).

Section Coordinator.
Context {TomlValue : Type} `{EqDecision TomlValue} {St : Type}.
Context (display : Report → string).

Notation RuntimeConfig := (RuntimeConfig (TomlValue := TomlValue)).
Notation RuntimeConfigDelta := (RuntimeConfigDelta (TomlValue := TomlValue)).

(** ** The subsystem interface *)

Record ReloadableErased := mkReloadable {
  name : string;
  validate : RuntimeConfigDelta → St → Result Report unit;
  apply : RuntimeConfigDelta → St → St * Result Report unit;
  revert : St → St * Result Report unit;
  health_check : St → Result Report unit;
  rollback_window : Z;
}.

Notation Sub := (ReloadableErased * St)%type.

(** What the world decides during one cycle: measured durations (milliseconds), the
    time, and the completion order of the concurrent health checks. *)
Record Clock := mkClock {
  apply_ms : string → RuntimeConfigDelta → Z;
  health_ms : string → Z;
  now : Z;
  completion : list Sub → list Sub;
}.

(** The outcome of the reexec hook; [ProcessReplaced] is the diverging [exec]. *)
Inductive HookResult := ExecFailed (e : Report) | NotNeeded | ProcessReplaced.

Record Coordinator := mkCoordinator {
  state : CoordinatorState;
  reloadables : list Sub;
  config_path : option string;
  current_config : RuntimeConfig;
  reexec_hook : option (RuntimeConfig → RuntimeConfig → HookResult);
  audit_log : list ReloadAuditEvent;
  alerts : list (AlertSeverity * string);
}.

Definition new : Coordinator :=
  mkCoordinator Idle [] None RuntimeConfig_default None [] [].

Definition set_state (s : CoordinatorState) (c : Coordinator) : Coordinator :=
  mkCoordinator s (reloadables c) (config_path c) (current_config c) (reexec_hook c)
    (audit_log c) (alerts c).
Definition set_reloadables (l : list Sub) (c : Coordinator) : Coordinator :=
  mkCoordinator (state c) l (config_path c) (current_config c) (reexec_hook c)
    (audit_log c) (alerts c).
Definition extend_reloadables (l : list Sub) (c : Coordinator) : Coordinator :=
  set_reloadables (reloadables c ++ l) c.
Definition set_config_path (p : string) (c : Coordinator) : Coordinator :=
  mkCoordinator (state c) (reloadables c) (Some p) (current_config c) (reexec_hook c)
    (audit_log c) (alerts c).
Definition set_current_config (cfg : RuntimeConfig) (c : Coordinator) : Coordinator :=
  mkCoordinator (state c) (reloadables c) (config_path c) cfg (reexec_hook c)
    (audit_log c) (alerts c).
Definition set_reexec_hook (h : RuntimeConfig → RuntimeConfig → HookResult)
    (c : Coordinator) : Coordinator :=
  mkCoordinator (state c) (reloadables c) (config_path c) (current_config c) (Some h)
    (audit_log c) (alerts c).
Definition emit (e : ReloadAuditEvent) (c : Coordinator) : Coordinator :=
  mkCoordinator (state c) (reloadables c) (config_path c) (current_config c) (reexec_hook c)
    (audit_log c ++ [e]) (alerts c).
Definition alert (sev : AlertSeverity) (message : string) (c : Coordinator) : Coordinator :=
  mkCoordinator (state c) (reloadables c) (config_path c) (current_config c) (reexec_hook c)
    (audit_log c) (alerts c ++ [(sev, message)]).

(** ** Phases *)

Fixpoint validate_deltas (s : Sub) (deltas : list RuntimeConfigDelta) : Result Report unit :=
  match deltas with
  | [] => Ok tt
  | d :: deltas => validate s.1 d s.2 ≫= λ _, validate_deltas s deltas
  end.

Fixpoint validate_phase (subs : list Sub) (deltas : list RuntimeConfigDelta)
    : Result Report unit :=
  match subs with
  | [] => Ok tt
  | s :: subs => validate_deltas s deltas ≫= λ _, validate_phase subs deltas
  end.

(** The inner loop of [apply_phase]: one subsystem, every delta, stopping at the first
    failure with the state reached so far. *)
Fixpoint apply_deltas (s : Sub) (deltas : list RuntimeConfigDelta)
    : Sub * Result Report unit :=
  match deltas with
  | [] => (s, Ok tt)
  | d :: deltas =>
      match apply s.1 d s.2 with
      | (σ, Ok _) => apply_deltas (s.1, σ) deltas
      | (σ, Err e) => ((s.1, σ), Err e)
      end
  end.

(** [per_ms.entry(name).and_modify(|v| *v += took).or_insert(took)] *)
Definition add_ms (n : string) (took : Z) (per_ms : gmap string Z) : gmap string Z :=
  <[n := match per_ms !! n with Some v => v + took | None => took end%Z]> per_ms.

Definition record_ms (clk : Clock) (n : string) (deltas : list RuntimeConfigDelta)
    (per_ms : gmap string Z) : gmap string Z :=
  foldl (λ pm d, add_ms n (apply_ms clk n d) pm) per_ms deltas.

(** [apply_phase]: the new states of all subsystems, and either the timings or the
    number of subsystems that were applied completely with the error. The applied list
    of the source is that prefix of the registration order. *)
Fixpoint apply_phase (clk : Clock) (deltas : list RuntimeConfigDelta) (subs : list Sub)
    (per_ms : gmap string Z) : list Sub * Result (nat * Report) (gmap string Z) :=
  match subs with
  | [] => ([], Ok per_ms)
  | s :: rest =>
      match apply_deltas s deltas with
      | (s', Err e) => (s' :: rest, Err (0, e))
      | (s', Ok _) =>
          match apply_phase clk deltas rest (record_ms clk (name s.1) deltas per_ms) with
          | (rest', Ok pm) => (s' :: rest', Ok pm)
          | (rest', Err (k, e)) => (s' :: rest', Err (S k, e))
          end
      end
  end.

(** [tokio::time::timeout(window, health_check())]: [None] when the window elapses. *)
Definition watched_health (clk : Clock) (s : Sub) : option (Result Report unit) :=
  if decide (rollback_window s.1 < health_ms clk (name s.1))%Z then None
  else Some (health_check s.1 s.2).

Fixpoint watchdog_loop (clk : Clock) (finished : list Sub) (per_ms : gmap string Z)
    : Result (gmap string Z * Report) (gmap string Z) :=
  match finished with
  | [] => Ok per_ms
  | s :: rest =>
      let per_ms := alter (λ v, v + health_ms clk (name s.1))%Z (name s.1) per_ms in
      match watched_health clk s with
      | Some (Ok _) => watchdog_loop clk rest per_ms
      | Some (Err e) => Err (per_ms, e)
      | None => Err (per_ms, OtherReport ("watchdog timed out for " +:+ name s.1))
      end
  end.

Definition watchdog_phase (clk : Clock) (applied : list Sub) (per_ms : gmap string Z)
    : Result (gmap string Z * Report) (gmap string Z) :=
  watchdog_loop clk (completion clk applied) per_ms.

(** The reverts of the first [k] subsystems, last one first, with the failures in the
    order they happen. *)
Fixpoint revert_subs (k : nat) (subs : list Sub) : list Sub * list (string * Report) :=
  match k, subs with
  | S k, s :: rest =>
      let '(rest', errs) := revert_subs k rest in
      let '(σ, res) := revert s.1 s.2 in
      ((s.1, σ) :: rest', errs ++ match res with Ok _ => [] | Err e => [(name s.1, e)] end)
  | _, _ => (subs, [])
  end.

(** The body of the failure branch of [revert_phase]. *)
Definition enter_degraded (clk : Clock) (c : Coordinator) (failure : string * Report)
    : Coordinator :=
  let '(n, e) := failure in
  let c := alert Critical ("coordinator entered Degraded: revert failed for '" +:+ n
                           +:+ "': " +:+ display e) c in
  set_state (Degraded (mkDegradedInfo (now clk) [n]
    ("revert returned Err on " +:+ n +:+ ": " +:+ display e))) c.

Definition revert_phase (clk : Clock) (k : nat) (c : Coordinator) : Coordinator :=
  let '(subs, errs) := revert_subs k (reloadables c) in
  foldl (enter_degraded clk) (set_reloadables subs c) errs.

Definition apply_and_watch_phase (clk : Clock) (deltas : list RuntimeConfigDelta)
    (c : Coordinator) : Coordinator * Result Report (gmap string Z) :=
  match apply_phase clk deltas (reloadables c) ∅ with
  | (subs, Err (k, e)) =>
      let c := alert Error ("config apply failed: " +:+ display e) (set_reloadables subs c) in
      (revert_phase clk k c, Err e)
  | (subs, Ok per_ms) =>
      let c := set_reloadables subs c in
      match watchdog_phase clk subs per_ms with
      | Ok merged => (c, Ok merged)
      | Err (_, e) =>
          let c := alert Error ("watchdog failed after apply: " +:+ display e) c in
          (revert_phase clk (length subs) c, Err e)
      end
  end.

Definition run_cycle (clk : Clock) (deltas : list RuntimeConfigDelta) (c : Coordinator)
    : Coordinator * Result Report (gmap string Z) :=
  match validate_phase (reloadables c) deltas with
  | Err e => (alert Warning ("config validation failed: " +:+ display e) c, Err e)
  | Ok _ => apply_and_watch_phase clk deltas c
  end.

(** ** Requests *)

(** The file arm of [process_request]: load, announce, triage, diff, cycle, commit.
    [None] when the hook replaced the process. *)
Definition reload_from_file (clk : Clock) (load : string → Result Report RuntimeConfig)
    (path : string) (c : Coordinator)
    : option (Coordinator * Result Report (gmap string Z)) :=
  match load path with
  | Err e => Some (c, Err e)
  | Ok new_config =>
      let c := emit (FileChanged path) c in
      let prior := current_config c in
      match match reexec_hook c with
            | Some hook => hook prior new_config
            | None => NotNeeded
            end with
      | ProcessReplaced => None
      | ExecFailed e => Some (c, Err e)
      | NotNeeded =>
          let deltas := build_deltas prior new_config in
          if decide (length deltas = 0) then Some (c, Ok ∅)
          else match run_cycle clk deltas c with
               | (c, Ok per_ms) => Some (set_current_config new_config c, Ok per_ms)
               | (c, Err e) => Some (c, Err e)
               end
      end
  end.

Definition process_request (clk : Clock) (load : string → Result Report RuntimeConfig)
    (source : ReloadSource) (c : Coordinator)
    : option (Coordinator * Result Report (gmap string Z)) :=
  match source with
  | Sighup | FileWatch _ =>
      match config_path c with
      | None => Some (c, Err (OtherReport
          "coordinator has no config_path set; cannot reload from file"))
      | Some path => reload_from_file clk load path c
      end
  | DbBump _ sections =>
      let deltas := sections_to_deltas sections (current_config c) in
      if decide (length deltas = 0) then Some (c, Ok ∅) else Some (run_cycle clk deltas c)
  | Boot | OtherSource _ => Some (c, Ok ∅)
  end.

(** The keys of a [BTreeMap], in order. *)
Definition btree_keys (m : gmap string Z) : list string :=
  merge_sort (λ a b, Is_true (str_leb a b)) (map_to_list m).*1.

(** One iteration of the loop of [run]. *)
Definition handle_request (clk : Clock) (load : string → Result Report RuntimeConfig)
    (source : ReloadSource) (c : Coordinator) : option Coordinator :=
  if is_degraded (state c)
  then Some (emit (Refused source "coordinator is in Degraded state") c)
  else
    let c := emit (Requested source) (set_state Reloading c) in
    match process_request clk load source c with
    | None => None
    | Some (c, Ok per_ms) =>
        Some (emit (Applied (btree_keys per_ms) per_ms source) (set_state Idle c))
    | Some (c, Err e) =>
        let c := if is_degraded (state c) then c else set_state Idle c in
        Some (emit (Failed Apply None (display e)) c)
    end.

(** [ReloadCoordinatorHandle::clear_degraded] *)
Definition clear_degraded (c : Coordinator) : Coordinator :=
  if is_degraded (state c) then set_state Idle c else c.

(** [clear_degraded_internal] *)
Definition clear_degraded_internal (clk : Clock) (c : Coordinator)
    : Coordinator * Result Report unit :=
  let failing := omap (λ s : Sub, match health_check s.1 s.2 with
                            | Ok _ => None | Err e => Some (name s.1, e) end) (reloadables c) in
  match last failing with
  | None => (set_state Idle c, Ok tt)
  | Some (_, e) =>
      (set_state (Degraded (mkDegradedInfo (now clk) failing.*1
         ("clear-degraded failed: still unhealthy: " +:+ join ", " failing.*1))) c, Err e)
  end.

(** [ControllerReexecHook::check_and_trigger]; [exec_error] is what [exec] returns, if it
    returns. *)
Definition check_and_trigger (exec_error : option Report) (prior new_config : RuntimeConfig)
    : HookResult :=
  if negb (needed (triage_decide prior new_config)) then NotNeeded
  else match exec_error with Some e => ExecFailed e | None => ProcessReplaced end.

(** ** The phases *)

Lemma validate_deltas_ok s deltas :
  validate_deltas s deltas = Ok tt ↔ ∀ d, d ∈ deltas → validate s.1 d s.2 = Ok tt.
Proof.
  induction deltas as [|d deltas IH]; cbn [validate_deltas]; [set_solver|].
  destruct (validate s.1 d s.2) as [[]|e] eqn:E; cbn.
  - rewrite IH. set_solver.
  - split; [done|]. intros Hd. rewrite Hd in E by set_solver. done.
Qed.

Lemma validate_phase_ok subs deltas :
  validate_phase subs deltas = Ok tt ↔
  ∀ s d, s ∈ subs → d ∈ deltas → validate s.1 d s.2 = Ok tt.
Proof.
  induction subs as [|s subs IH]; cbn [validate_phase]; [set_solver|].
  destruct (validate_deltas s deltas) as [[]|e] eqn:E; cbn.
  - rewrite IH. rewrite validate_deltas_ok in E. setoid_rewrite elem_of_cons.
    split; [intros Hr s0 d [->|Hs0]; auto|auto].
  - split; [done|]. intros Hd.
    assert (validate_deltas s deltas = Ok tt) by (apply validate_deltas_ok; set_solver).
    congruence.
Qed.

Definition applied_to (deltas : list RuntimeConfigDelta) (s s' : Sub) : Prop :=
  apply_deltas s deltas = (s', Ok tt).

Lemma applied_to_det deltas l l1 l2 :
  Forall2 (applied_to deltas) l l1 → Forall2 (applied_to deltas) l l2 → l1 = l2.
Proof.
  intros Hf. revert l2. induction Hf as [|s s1 l l1 Hs Hf IH]; intros l2 Hf2;
    inversion Hf2 as [|? s2 ? l2' Hs2 Hf2']; subst; [done|].
  unfold applied_to in Hs, Hs2. f_equal; [congruence|auto].
Qed.

(** Either every subsystem took every delta, or a prefix did and the next one failed. *)
Lemma apply_phase_cases clk deltas subs pm :
  (∃ subs' pm', apply_phase clk deltas subs pm = (subs', Ok pm')
     ∧ Forall2 (applied_to deltas) subs subs')
  ∨ (∃ done s rest done' s' e,
       subs = done ++ s :: rest
       ∧ apply_phase clk deltas subs pm = (done' ++ s' :: rest, Err (length done', e))
       ∧ Forall2 (applied_to deltas) done done' ∧ apply_deltas s deltas = (s', Err e)).
Proof.
  revert pm. induction subs as [|s subs IH]; intros pm; cbn [apply_phase].
  - left. eexists _, _. by split; [|constructor].
  - destruct (apply_deltas s deltas) as [s' [[]|e]] eqn:E.
    + destruct (IH (record_ms clk (name s.1) deltas pm))
        as [(subs' & pm' & -> & Hf)|(dn & s0 & rest & dn' & s0' & e & -> & -> & Hf & He)].
      * left. eexists _, _. split; [done|]. by constructor.
      * right. exists (s :: dn), s0, rest, (s' :: dn'), s0', e.
        split_and!; [done..|by constructor|done].
    + right. exists [], s, subs, [], s', e. by split_and!.
Qed.

Lemma watchdog_loop_ok clk l pm :
  is_ok (watchdog_loop clk l pm) = true ↔ ∀ s, s ∈ l → watched_health clk s = Some (Ok tt).
Proof.
  revert pm. induction l as [|s l IH]; intros pm; cbn [watchdog_loop]; [set_solver|].
  destruct (watched_health clk s) as [[[]|e]|] eqn:E.
  - rewrite IH. set_solver.
  - split; [done|]. intros Hs. rewrite Hs in E by set_solver. done.
  - split; [done|]. intros Hs. rewrite Hs in E by set_solver. done.
Qed.

(** ** The outcome of a cycle *)

(** A subsystem that accepted the deltas one after the other, and how it ends. *)
Inductive takes : list RuntimeConfigDelta → Sub → Sub → Prop :=
| takes_nil s : takes [] s s
| takes_cons d deltas s σ s' :
    apply s.1 d s.2 = (σ, Ok tt) → takes deltas (s.1, σ) s' → takes (d :: deltas) s s'.

(** One that accepted some of them and failed at the next. *)
Definition stops (deltas : list RuntimeConfigDelta) (s s' : Sub) (e : Report) : Prop :=
  ∃ accepted d rest mid, deltas = accepted ++ d :: rest ∧ takes accepted s mid ∧
    apply mid.1 d mid.2 = (s'.2, Err e) ∧ s'.1 = mid.1.

Lemma applied_takes deltas s s' : applied_to deltas s s' ↔ takes deltas s s'.
Proof.
  unfold applied_to. split.
  - revert s. induction deltas as [|d deltas IH]; intros s; cbn [apply_deltas]; [intros [= <-]; constructor|].
    destruct (apply s.1 d s.2) as [σ [[]|e]] eqn:E; [|done]. intros H1. econstructor; eauto.
  - induction 1 as [|d deltas s σ s' E _ IH]; cbn [apply_deltas]; [done|]. by rewrite E.
Qed.

Lemma Forall2_takes deltas l l' : Forall2 (applied_to deltas) l l' ↔ Forall2 (takes deltas) l l'.
Proof. split; intros Hf; (eapply Forall2_impl; [done|]); intros; by apply applied_takes. Qed.

Lemma takes_det deltas l l1 l2 :
  Forall2 (takes deltas) l l1 → Forall2 (takes deltas) l l2 → l1 = l2.
Proof. rewrite <-!Forall2_takes. apply applied_to_det. Qed.

Lemma apply_deltas_stops deltas s s' e : apply_deltas s deltas = (s', Err e) → stops deltas s s' e.
Proof.
  revert s. induction deltas as [|d deltas IH]; intros s; cbn [apply_deltas]; [done|].
  destruct (apply s.1 d s.2) as [σ [[]|e']] eqn:E.
  - intros (acc & d' & rest & mid & -> & Ht & Ha & Hn)%IH.
    exists (d :: acc), d', rest, mid. split_and!; [done|by econstructor|done|done].
  - intros [= <- <-]. exists [], d, deltas, s. split_and!; [done|constructor|done|done].
Qed.

(** Its health check passed before the window closed. *)
Definition healthy (clk : Clock) (s : Sub) : Prop :=
  (health_ms clk (name s.1) ≤ rollback_window s.1)%Z ∧ health_check s.1 s.2 = Ok tt.

Lemma watched_healthy clk s : watched_health clk s = Some (Ok tt) ↔ healthy clk s.
Proof. unfold watched_health, healthy. case_decide; [split; [done|lia]|]. split; [intros [= ->]; split; [lia|done]|by intros [_ ->]]. Qed.

Lemma watchdog_loop_verdict clk l pm :
  match watchdog_loop clk l pm with
  | Ok _ => ∀ s, s ∈ l → healthy clk s
  | Err _ => ∃ s, s ∈ l ∧ ¬ healthy clk s
  end.
Proof.
  revert pm. induction l as [|s l IH]; intros pm; cbn [watchdog_loop]; [set_solver|].
  destruct (watched_health clk s) as [[[]|e]|] eqn:E.
  - apply watched_healthy in E. specialize (IH (alter (λ v, v + health_ms clk (name s.1))%Z (name s.1) pm)).
    destruct (watchdog_loop _ _ _); set_solver.
  - exists s. rewrite <-watched_healthy. split; [left|congruence].
  - exists s. rewrite <-watched_healthy. split; [left|congruence].
Qed.

Lemma watchdog_verdict clk subs pm :
  (∀ l, completion clk l ≡ₚ l) →
  match watchdog_phase clk subs pm with
  | Ok _ => ∀ s, s ∈ subs → healthy clk s
  | Err _ => ∃ s, s ∈ subs ∧ ¬ healthy clk s
  end.
Proof.
  intros Hperm. pose proof (watchdog_loop_verdict clk (completion clk subs) pm) as Hv. unfold watchdog_phase.
  destruct (watchdog_loop _ _ _); [intros s Hs; apply Hv; by rewrite Hperm|].
  destruct Hv as (s & Hs & Hbad). exists s. by rewrite Hperm in Hs.
Qed.

Lemma validate_phase_err subs deltas e :
  validate_phase subs deltas = Err e → ∃ s d, s ∈ subs ∧ d ∈ deltas ∧ validate s.1 d s.2 = Err e.
Proof.
  induction subs as [|s subs IH]; cbn [validate_phase]; [done|].
  destruct (validate_deltas s deltas) as [[]|e'] eqn:E; cbn; [set_solver|]. intros [= ->]. clear IH.
  induction deltas as [|d deltas IH]; cbn [validate_deltas] in E; [done|].
  destruct (validate s.1 d s.2) as [[]|e''] eqn:Ed; cbn in E; [set_solver|]. injection E as ->. set_solver.
Qed.

(** A subsystem after its revert, and the reverts that fail, in the order of registration. *)
Definition undone (s : Sub) : Sub := (s.1, (revert s.1 s.2).1).
Definition revert_failures (l : list Sub) : list (string * Report) :=
  omap (λ s : Sub, match (revert s.1 s.2).2 with Ok _ => None | Err e => Some (name s.1, e) end) l.

Lemma revert_subs_app l rest :
  revert_subs (length l) (l ++ rest) = ((undone <$> l) ++ rest, reverse (revert_failures l)).
Proof.
  induction l as [|s l IH]; [done|]. cbn [length app revert_subs]. rewrite IH.
  rewrite fmap_cons. unfold undone at 2. unfold revert_failures at 2. cbn [omap list_omap].
  fold (revert_failures l). destruct (revert s.1 s.2) as [σ [u|e]]; cbn -[reverse].
  - by rewrite app_nil_r.
  - by rewrite reverse_cons.
Qed.

(** What no phase touches: everything but the subsystems, the state and the alerts. *)
Definition same_wiring (c c' : Coordinator) : Prop :=
  config_path c' = config_path c ∧ current_config c' = current_config c
  ∧ reexec_hook c' = reexec_hook c ∧ audit_log c' = audit_log c.

(** The coordinator after the reverts of [l], announced by an alert: it is degraded exactly if
    one of them fails, and then names the one registered first, which is the last to fail. *)
Definition rolled_back (clk : Clock) (announced : string) (l : list Sub) (c c' : Coordinator) : Prop :=
  same_wiring c c' ∧
  state c' = match revert_failures l with
             | [] => state c
             | (n, e) :: _ => Degraded (mkDegradedInfo (now clk) [n]
                                ("revert returned Err on " +:+ n +:+ ": " +:+ display e))
             end ∧
  alerts c' = alerts c ++ (Error, announced) ::
    ((λ f, (Critical, "coordinator entered Degraded: revert failed for '" +:+ f.1 +:+ "': " +:+ display f.2))
       <$> reverse (revert_failures l)).

Lemma degraded_fold clk errs c :
  let c' := foldl (enter_degraded clk) c (reverse errs) in
  reloadables c' = reloadables c ∧ same_wiring c c' ∧
  state c' = match errs with
             | [] => state c
             | (n, e) :: _ => Degraded (mkDegradedInfo (now clk) [n]
                                ("revert returned Err on " +:+ n +:+ ": " +:+ display e))
             end ∧
  alerts c' = alerts c ++
    ((λ f, (Critical, "coordinator entered Degraded: revert failed for '" +:+ f.1 +:+ "': " +:+ display f.2))
       <$> reverse errs).
Proof.
  induction errs as [|[n e] errs (Hr & (? & ? & ? & ?) & Hs & Ha)]; cbn -[reverse] in *.
  { by rewrite app_nil_r. }
  rewrite reverse_cons, foldl_app, fmap_app. cbn. rewrite Ha, <-app_assoc. by split_and!.
Qed.

Lemma revert_phase_exact clk announced l rest c :
  reloadables c = l ++ rest →
  let c' := revert_phase clk (length l) (alert Error announced c) in
  reloadables c' = (undone <$> l) ++ rest ∧ rolled_back clk announced l c c'.
Proof.
  intros Hc. unfold revert_phase. cbn [reloadables alert]. rewrite Hc, revert_subs_app.
  destruct (degraded_fold clk (revert_failures l) (set_reloadables ((undone <$> l) ++ rest) (alert Error announced c)))
    as (Hr & Hw & Hs & Ha). split; [done|]. split; [done|]. split; [done|]. rewrite Ha. cbn. by rewrite <-app_assoc.
Qed.


(** ** Rollback *)

Section Rollback.
Context {V : Type} (view : Sub → V).

(** The promise of a subsystem to the coordinator, for one cycle from one state, as far
    as the rest of the program sees the subsystem: a failing apply changed nothing, and
    after a complete apply, revert succeeds and restores what was there. *)
Record rolls_back (deltas : list RuntimeConfigDelta) (s : Sub) : Prop := {
  rb_partial s' e : apply_deltas s deltas = (s', Err e) → view s' = view s;
  rb_undo s' : applied_to deltas s s' →
    ∃ σ, revert s'.1 s'.2 = (σ, Ok tt) ∧ view (s'.1, σ) = view s;
}.

Lemma revert_subs_restores deltas dn dn' rest :
  Forall (rolls_back deltas) dn → Forall2 (applied_to deltas) dn dn' →
  ∃ dn'', revert_subs (length dn') (dn' ++ rest) = (dn'' ++ rest, [])
    ∧ view <$> dn'' = view <$> dn.
Proof.
  intros Hrb Hf. induction Hf as [|s s' dn dn' Hs Hf IH]; [by exists []|].
  apply list.Forall_cons in Hrb as [Hr Hrb]. destruct (IH Hrb) as (dn'' & Heq & Hv).
  destruct (rb_undo _ _ Hr s' Hs) as (σ & Hσ & Hvσ).
  exists ((s'.1, σ) :: dn''). cbn. rewrite Heq, Hσ. cbn. by rewrite Hvσ, Hv.
Qed.

Lemma revert_phase_restores clk deltas c dn dn' rest :
  reloadables c = dn' ++ rest →
  Forall (rolls_back deltas) dn → Forall2 (applied_to deltas) dn dn' →
  ∃ dn'', revert_phase clk (length dn') c = set_reloadables (dn'' ++ rest) c
    ∧ view <$> dn'' = view <$> dn.
Proof.
  intros Hc Hrb Hf. destruct (revert_subs_restores deltas dn dn' rest Hrb Hf) as (dn'' & Heq & Hv).
  exists dn''. unfold revert_phase. rewrite Hc, Heq. done.
Qed.

(** A reload cycle is all or nothing for subsystems that roll back. When every subsystem keeps its rollback
    promise, a cycle that succeeds has validated every delta with every subsystem,
    applied all of them everywhere and seen every subsystem healthy within its window;
    a cycle that fails leaves every subsystem, as the program sees it, as it was; neither
    degrades the coordinator. And it does succeed whenever every validation, apply and
    health check does, in whatever order the health checks finish. *)
Theorem cycle_all_or_nothing (clk : Clock) (deltas : list RuntimeConfigDelta)
    (c c' : Coordinator) (res : Result Report (gmap string Z)) :
  (∀ l, completion clk l ≡ₚ l) →
  Forall (rolls_back deltas) (reloadables c) →
  run_cycle clk deltas c = (c', res) →
  state c' = state c ∧ current_config c' = current_config c
  ∧ match res with
    | Ok _ =>
        (∀ s d, s ∈ reloadables c → d ∈ deltas → validate s.1 d s.2 = Ok tt)
        ∧ Forall2 (applied_to deltas) (reloadables c) (reloadables c')
        ∧ (∀ s', s' ∈ reloadables c' → watched_health clk s' = Some (Ok tt))
    | Err _ => view <$> reloadables c' = view <$> reloadables c
    end
  ∧ (∀ subs',
       (∀ s d, s ∈ reloadables c → d ∈ deltas → validate s.1 d s.2 = Ok tt) →
       Forall2 (applied_to deltas) (reloadables c) subs' →
       (∀ s', s' ∈ subs' → watched_health clk s' = Some (Ok tt)) →
       is_ok res = true ∧ reloadables c' = subs').
Proof.
  intros Hperm Hrb. unfold run_cycle.
  destruct (validate_phase (reloadables c) deltas) as [[]|e] eqn:Hv.
  2:{ intros [= <- <-]. split_and!; [done..|]. intros subs' Hv'.
      apply validate_phase_ok in Hv'. congruence. }
  rewrite validate_phase_ok in Hv. unfold apply_and_watch_phase.
  destruct (apply_phase_cases clk deltas (reloadables c) ∅)
    as [(subs' & pm & -> & Hf)|(dn & s & rest & dn' & s' & e & Heq & -> & Hf & He)].
  - pose proof (watchdog_loop_ok clk (completion clk subs') pm) as Hw.
    unfold watchdog_phase. destruct (watchdog_loop clk (completion clk subs') pm) as [m|[m e]].
    + intros [= <- <-]. split_and!; try done.
      * intros s' Hs. apply (proj1 Hw eq_refl). by rewrite Hperm.
      * intros subs'' _ Hf' _. split; [done|]. cbn.
        by eapply applied_to_det.
    + destruct (revert_phase_restores clk deltas
        (alert Error ("watchdog failed after apply: " +:+ display e) (set_reloadables subs' c))
        (reloadables c) subs' []) as (dn'' & -> & Hview);
        [by rewrite app_nil_r|done|done|].
      intros [= <- <-]. rewrite app_nil_r. split_and!; [done..|].
      intros subs'' _ Hf' Hh. exfalso.
      assert (subs' = subs'') as <- by by eapply applied_to_det.
      enough (false = true) by done. apply Hw. intros s'. rewrite Hperm. apply Hh.
  - rewrite Heq in Hrb. apply list.Forall_app in Hrb as [Hrb Hrb'].
    apply list.Forall_cons in Hrb' as [Hs Hrest].
    destruct (revert_phase_restores clk deltas
      (alert Error ("config apply failed: " +:+ display e)
         (set_reloadables (dn' ++ s' :: rest) c)) dn dn' (s' :: rest))
      as (dn'' & -> & Hview); [done..|].
    intros [= <- <-]. split_and!; [done..| |].
    + cbn. rewrite Heq, !fmap_app, !fmap_cons, Hview. by rewrite (rb_partial _ _ Hs _ _ He).
    + intros subs'' _ Hf' _. exfalso. rewrite Heq in Hf'.
      apply Forall2_app_inv_l in Hf' as (k1 & k2 & _ & Hk & _).
      inversion Hk as [|? x ? ? Hx]; subst. unfold applied_to in Hx. congruence.
Qed.

End Rollback.

(** ** The request loop *)

Lemma revert_phase_wiring clk k c :
  same_wiring c (revert_phase clk k c)
  ∧ (state (revert_phase clk k c) = state c
     ∨ ∃ n e, (n, e) ∈ (revert_subs k (reloadables c)).2
         ∧ state (revert_phase clk k c) = Degraded (mkDegradedInfo (now clk) [n]
             ("revert returned Err on " +:+ n +:+ ": " +:+ display e))).
Proof.
  unfold revert_phase. destruct (revert_subs k (reloadables c)) as [subs errs]. cbn.
  induction errs as [|[n e] errs IH] using rev_ind; [by repeat split; left|].
  rewrite foldl_app. cbn. destruct IH as [(? & ? & ? & ?) _].
  split; [by split_and!|]. right. exists n, e. split; [set_solver|done].
Qed.

(** A cycle that fails degrades the coordinator only through a failed revert; one that
    succeeds never does. *)
Lemma run_cycle_wiring clk deltas c c' res :
  run_cycle clk deltas c = (c', res) →
  same_wiring c c'
  ∧ (state c' = state c
     ∨ is_ok res = false ∧ ∃ info, state c' = Degraded info
         ∧ ∃ n, failed_subsystems info = [n] ∧ since info = now clk).
Proof.
  unfold run_cycle, apply_and_watch_phase. intros Hrun.
  destruct (validate_phase _ _) as [[]|e]; [|by simplify_eq; repeat split; left].
  destruct (apply_phase _ _ _ _) as [subs [pm|[k e]]].
  - destruct (watchdog_phase _ _ _) as [m|[m e]]; simplify_eq; [by repeat split; left|].
    set (c1 := alert _ _ _). destruct (revert_phase_wiring clk (length subs) c1)
      as [(? & ? & ? & ?) Hst]. split; [by split_and!|].
    destruct Hst as [->|(n & e' & _ & ->)]; [by left|right; naive_solver].
  - simplify_eq. set (c1 := alert _ _ _). destruct (revert_phase_wiring clk k c1)
      as [(? & ? & ? & ?) Hst]. split; [by split_and!|].
    destruct Hst as [->|(n & e' & _ & ->)]; [by left|right; naive_solver].
Qed.

(** What processing a request may do to the state, the committed configuration and the
    audit log. *)
Definition request_effect (load : string → Result Report RuntimeConfig) (c c' : Coordinator)
    (res : Result Report (gmap string Z)) : Prop :=
  (state c' = state c ∨ is_ok res = false ∧ is_degraded (state c') = true)
  ∧ (current_config c' = current_config c
     ∨ is_ok res = true ∧ ∃ path, config_path c = Some path
         ∧ load path = Ok (current_config c'))
  ∧ config_path c' = config_path c
  ∧ audit_log c' ∈ [audit_log c; audit_log c ++ [FileChanged (default "" (config_path c))]].

Lemma request_effect_refl load c res : request_effect load c c res.
Proof. split_and!; [by left..|done|left]. Qed.

Lemma run_cycle_effect load clk deltas c c' res :
  run_cycle clk deltas c = (c', res) → request_effect load c c' res.
Proof.
  intros [(? & Hcfg & _ & Hlog) Hst]%run_cycle_wiring.
  split_and!; [|by left|done|rewrite Hlog; left].
  destruct Hst as [?|(? & info & -> & _)]; [by left|by right].
Qed.

Lemma reload_from_file_effect clk load path c c' res :
  config_path c = Some path →
  reload_from_file clk load path c = Some (c', res) → request_effect load c c' res.
Proof.
  intros Hpath. unfold reload_from_file.
  destruct (load path) as [cfg|e] eqn:Hl; [|intros [= <- <-]; apply request_effect_refl].
  assert (∀ r, request_effect load c (emit (FileChanged path) c) r) as Hemit.
  { intros r. split_and!; [by left..|done|]. cbn. rewrite Hpath. right. left. }
  destruct (match reexec_hook _ with Some _ => _ | None => _ end); [|case_decide|done];
    [by intros [= <- <-]..|].
  destruct (run_cycle clk _ _) as [c1 [pm|e]] eqn:Hr; intros [= <- <-];
    apply run_cycle_wiring in Hr as [(Hp & Hcfg & _ & Hlog) Hst]; cbn in *;
    (split_and!; cbn; [|eauto|congruence|rewrite Hlog, Hpath; right; left]).
  - destruct Hst as [?|[? _]]; [by left|done].
  - destruct Hst as [?|(_ & info & -> & _)]; [by left|by right].
Qed.

Lemma process_request_effect clk load source c c' res :
  process_request clk load source c = Some (c', res) → request_effect load c c' res.
Proof.
  unfold process_request. destruct source; try (intros [= <- <-]; apply request_effect_refl).
  1,2: destruct (config_path c) eqn:Hpath;
    [by apply reload_from_file_effect|intros [= <- <-]; apply request_effect_refl].
  case_decide; intros [= Hr]; [simplify_eq; apply request_effect_refl|].
  by apply (run_cycle_effect load clk _ _ _ _ Hr).
Qed.

(** the request loop. A request that arrives while the coordinator is degraded is
    refused and changes nothing but the audit log. Any other request ends Idle, or
    Degraded after a failure, never in between; it is audited as requested and then as
    applied or failed, exactly one of the two; and the committed configuration changes
    only when the request is audited as applied, to the configuration loaded from the
    file. A failed request never commits. *)
Theorem request_loop_sound (clk : Clock) (load : string → Result Report RuntimeConfig)
    (source : ReloadSource) (c c' : Coordinator) :
  handle_request clk load source c = Some c' →
  (is_degraded (state c) = true →
     c' = emit (Refused source "coordinator is in Degraded state") c)
  ∧ (is_degraded (state c) = false →
       ∃ mid final, audit_log c' = audit_log c ++ Requested source :: mid ++ [final]
         ∧ mid ∈ [[]; [FileChanged (default "" (config_path c))]]
         ∧ ((∃ ms, final = Applied (btree_keys ms) ms source)
              ∧ state c' = Idle
              ∧ (current_config c' = current_config c
                 ∨ ∃ path, config_path c = Some path ∧ load path = Ok (current_config c'))
            ∨ (∃ e, final = Failed Apply None (display e))
              ∧ (state c' = Idle ∨ is_degraded (state c') = true)
              ∧ current_config c' = current_config c)).
Proof.
  unfold handle_request. intros Hh. destruct (is_degraded (state c)) eqn:Hd.
  { split; [by simplify_eq|done]. }
  split; [done|]. intros _.
  set (c0 := emit (Requested source) (set_state Reloading c)) in *.
  destruct (process_request clk load source c0) as [[c1 res]|] eqn:Hp; [|done].
  apply process_request_effect in Hp as (Hst & Hcfg & Hpath & Hlog).
  assert (∃ mid, audit_log c1 = audit_log c ++ Requested source :: mid
            ∧ mid ∈ [[]; [FileChanged (default "" (config_path c))]]) as (mid & Hmid & Hin).
  { rewrite !elem_of_cons, elem_of_nil in Hlog. cbn in Hlog.
    destruct Hlog as [->|[->|[]]]; [exists []; split; [done|left]|].
    exists [FileChanged (default "" (config_path c))]. rewrite <-app_assoc.
    split; [done|right; left]. }
  destruct res as [pm|e]; simplify_eq.
  - exists mid, (Applied (btree_keys pm) pm source). cbn. rewrite Hmid, <-app_assoc.
    split_and!; [done..|]. left. split_and!; [by eauto|done|].
    destruct Hcfg as [?|[_ ?]]; [by left|by right].
  - exists mid, (Failed Apply None (display e)).
    destruct Hcfg as [Hcfg|[? _]]; [|done].
    destruct (is_degraded (state c1)) eqn:Hd1; cbn; rewrite Hmid, <-app_assoc;
      (split_and!; [done..|]); right; split_and!; eauto.
Qed.

End Coordinator.

(** ** Witnesses: a counter that cannot leave zero healthily *)

Definition demo_sub : ReloadableErased (TomlValue := unit) (St := Z) := {|
  name := "counter";
  validate d σ := Ok tt;
  apply d σ := (σ + 1, Ok tt)%Z;
  revert σ := (σ - 1, Ok tt)%Z;
  health_check σ := if decide (σ = 1)%Z then Err (HealthFailed "counter" "one") else Ok tt;
  rollback_window := 5 |}.

Definition demo_clock : Clock (TomlValue := unit) (St := Z) :=
  mkClock (λ _ _, 3%Z) (λ _, 2%Z) 1000 (λ l, l).

Definition demo_coordinator (n : Z) : Coordinator (TomlValue := unit) (St := Z) :=
  set_config_path "controller.toml" (extend_reloadables [(demo_sub, n)] new).

Definition demo_display (e : Report) : string := "report".

Definition demo_new_config : RuntimeConfig (TomlValue := unit) :=
  mkRuntimeConfig DbConfig_default "" NetworkConfig_default TlsConfig_default
    NatsConfig_default (mkAuditConfig "none" 30 ∅) LogConfig_default ZeroconfConfig_default
    EmbeddedServicesConfig_default.

(** A subsystem whose revert fails, and one that fails to apply. *)
Definition stuck_sub : ReloadableErased (TomlValue := unit) (St := Z) := {|
  name := "stuck"; validate d σ := Ok tt; apply d σ := (σ + 1, Ok tt)%Z;
  revert σ := (σ, Err (OtherReport "stuck")); health_check σ := Ok tt; rollback_window := 5 |}.
Definition failing_sub : ReloadableErased (TomlValue := unit) (St := Z) := {|
  name := "failing"; validate d σ := Ok tt; apply d σ := (σ + 10, Err (OtherReport "no"))%Z;
  revert σ := (0%Z, Ok tt); health_check σ := Ok tt; rollback_window := 5 |}.

Definition mixed_coordinator : Coordinator (TomlValue := unit) (St := Z) :=
  extend_reloadables [(demo_sub, 4%Z); (stuck_sub, 7%Z); (failing_sub, 1%Z); (demo_sub, 2%Z)] new.


Lemma cycle_all_or_nothing_witness :
  snd <$> reloadables (run_cycle demo_display demo_clock [PluginsDbRefresh]
                         (demo_coordinator 0)).1 = [0%Z]
  ∧ is_ok (run_cycle demo_display demo_clock [PluginsDbRefresh] (demo_coordinator 4)).2 = true.
Proof.
  assert (∀ n, Forall (rolls_back snd [PluginsDbRefresh]) (reloadables (demo_coordinator n)))
    as Hrb.
  { intros n. apply list.Forall_singleton. split; [done|].
    intros s' [= <-]. cbn. eexists. split; [done|]. cbn. lia. }
  split.
  - destruct (cycle_all_or_nothing demo_display snd demo_clock [PluginsDbRefresh]
      (demo_coordinator 0) _ _ (λ l, reflexivity l) (Hrb 0%Z) (surjective_pairing _))
      as (_ & _ & Hres & _). exact Hres.
  - destruct (cycle_all_or_nothing demo_display snd demo_clock [PluginsDbRefresh]
      (demo_coordinator 4) _ _ (λ l, reflexivity l) (Hrb 4%Z) (surjective_pairing _))
      as (_ & _ & _ & Hok).
    apply (Hok [(demo_sub, 5%Z)]).
    + intros s d Hs _. apply list_elem_of_singleton in Hs as ->. done.
    + repeat constructor.
    + intros s' ->%list_elem_of_singleton. done.
Defined.

Lemma request_loop_sound_witness :
  ∃ c', handle_request demo_display demo_clock (λ _, Ok demo_new_config) Sighup
          (demo_coordinator 4) = Some c'
    ∧ ∃ mid final, audit_log c' = Requested Sighup :: mid ++ [final].
Proof.
  destruct (handle_request demo_display demo_clock (λ _, Ok demo_new_config) Sighup
          (demo_coordinator 4)) as [c'|] eqn:E; [|by vm_compute in E].
  exists c'. split; [done|].
  destruct (request_loop_sound demo_display demo_clock (λ _, Ok demo_new_config) Sighup
    (demo_coordinator 4) c' E) as [_ H].
  destruct (H eq_refl) as (mid & final & Hlog & _). by exists mid, final.
Defined.
