(* ===== verification/Reloadables.v ===== *)
(** The live subsystems behind the reload coordinator.

    Models the [Reloadable] implementations of
    [crates/core/controller-runtime/src/reload] ([db_pool], [tls_snapshot],
    [https_listener], [pki_listener], [audit], [zeroconf], [embedded], [nats]) and
    [crates/ui/web-api-queries/src/reload/plugin_registry.rs], with the erasure macro
    [reloadable_erased_impl!] of [crates/shared/config-reload/src/reloadable/mod.rs] and
    the registration order of [crates/core/controller-runtime/src/boot/reload.rs].

    Opening a database pool, probing it, and reading and checking a certificate pair are
    the work of libraries and of the file system: they are parameters. *)

From stdpp Require Import base list gmap sets strings numbers sorting.
From S2P Require Import Prelude RustStr ConfigModel ReloadCoordinator.

(** Watchdog windows ([defaults.rs]), in milliseconds. *)
Definition WATCHDOG_DB_POOL : Z := 15000.
Definition WATCHDOG_NATS : Z := 10000.
Definition WATCHDOG_HTTPS : Z := 5000.
Definition WATCHDOG_PKI : Z := 5000.
Definition WATCHDOG_PLUGINS : Z := 30000.
Definition WATCHDOG_AUDIT : Z := 5000.
Definition WATCHDOG_ZEROCONF : Z := 5000.
Definition WATCHDOG_EMBEDDED : Z := 30000.

(** A [watch] channel with the stash of its previous value. *)
Record Published (A : Type) := mkPublished { current : A; snapshot : option A }.
Arguments mkPublished {A} current snapshot.
Arguments current {A} p.
Arguments snapshot {A} p.

(** [*snapshot = Some(tx.borrow().clone()); tx.send(new)] *)
Definition publish {A} (new : A) (p : Published A) : Published A :=
  mkPublished new (Some (current p)).

(** [if let Some(prior) = snapshot.lock().clone() { tx.send(prior) }] *)
Definition restore {A} (p : Published A) : Published A :=
  match snapshot p with
  | Some prior => mkPublished prior (snapshot p)
  | None => p
  end.

Section Subsystems.
Context {TomlValue : Type} `{EqDecision TomlValue}.
Context {DbHandle Key Cert : Type} `{EqDecision Cert}.

Notation RuntimeConfig := (RuntimeConfig (TomlValue := TomlValue)).
Notation RuntimeConfigDelta := (RuntimeConfigDelta (TomlValue := TomlValue)).
Notation DbConfig := (DbConfig (TomlValue := TomlValue)).
Notation TlsConfig := (TlsConfig (TomlValue := TomlValue)).

(** [Database::connect], the [SELECT 1] probe, loading a certificate pair from its two
    paths, rustls' [keys_match], and the leaf certificate of a key. *)
Context (connect : DbConfig → Result string DbHandle) (probe : DbHandle → Result string unit).
Context (load_pair : string → string → Result Report Key) (keys_match : Key → Result string unit).
Context (leaf : Key → option Cert).

(** ** States *)

Inductive SubState :=
| DbPool (current_url : string) (pool : Published DbHandle)
| TlsSnapshot (boot_tls : TlsConfig) (resolver : Key) (prior applied : option Key)
| HttpsListener (boot : HttpsConfig)
| PkiListener (boot_pki_addr : string)
| AuditDispatcher (cfg : Published (AuditConfig (TomlValue := TomlValue)))
    (dispatcher_closed : bool)
| ZeroconfGate (boot : ZeroconfConfig (TomlValue := TomlValue))
| PluginCatalog (cfg : Published PluginsConfig)
| EmbeddedGate (boot_topology : EmbeddedServicesConfig (TomlValue := TomlValue))
    (cfg : Published (EmbeddedServicesConfig (TomlValue := TomlValue)))
| NatsGate (effective_url : option string) (boot : NatsConfig (TomlValue := TomlValue)).

Notation ReloadableErased := (ReloadableErased (TomlValue := TomlValue) (St := SubState)).
Notation Sub := (ReloadableErased * SubState)%type.

Definition ok_noop (σ : SubState) : SubState * Result Report unit := (σ, Ok tt).

(** ** Database pool *)

Definition db_pool_validate (url : string) (new : DbConfig) : Result Report unit :=
  db_validate new ≫= λ _,
  if decide (db_url new = url) then Ok tt
  else Err (ValidateError ("db.url change requires reexec (current = " +:+ url
                           +:+ ", new = " +:+ db_url new +:+ ")")).

Definition db_pool : ReloadableErased := {|
  name := "db_pool";
  validate d σ := match d, σ with
    | Db new, DbPool url _ => db_pool_validate url new
    | _, _ => Ok tt end;
  apply d σ := match d, σ with
    | Db new, DbPool url pool =>
        match connect new with
        | Ok handle => (DbPool url (publish handle pool), Ok tt)
        | Err e => (σ, Err (ApplyFailed "db_pool" e))
        end
    | _, _ => ok_noop σ end;
  revert σ := match σ with
    | DbPool url pool => ok_noop (DbPool url (restore pool))
    | _ => ok_noop σ end;
  health_check σ := match σ with
    | DbPool _ pool => map_err (HealthFailed "db_pool") (probe (current pool))
    | _ => Ok tt end;
  rollback_window := WATCHDOG_DB_POOL |}.

(** ** TLS leaf certificate *)

Definition load_and_build (cfg : TlsConfig) : Result Report Key :=
  load_pair (cert_path cfg) (key_path cfg) ≫= λ ck,
  map_err (λ e, ValidateError ("tls cert/key pair mismatch: " +:+ e)) (keys_match ck) ≫= λ _,
  Ok ck.

Definition cert_paths_changed (boot_tls new : TlsConfig) : bool :=
  negb (bool_decide (cert_path new = cert_path boot_tls))
  || negb (bool_decide (key_path new = key_path boot_tls)).

Definition tls_snapshot_validate (boot_tls new : TlsConfig) : Result Report unit :=
  tls_validate new ≫= λ _,
  if decide (trust_domain new = trust_domain boot_tls) then
    if negb (cert_paths_changed boot_tls new) then Ok tt
    else if str_is_empty (cert_path new) && negb (str_is_empty (cert_path boot_tls))
    then Err (ValidateError "removing the external certificate requires restart")
    else load_and_build new ≫= λ _, Ok tt
  else Err (ValidateError "tls.trust_domain change requires restart").

Definition tls_snapshot_apply (new boot_tls : TlsConfig) (resolver : Key)
    (prior applied : option Key) (display : Report → string)
    : SubState * Result Report unit :=
  if negb (cert_paths_changed boot_tls new) then ok_noop (TlsSnapshot boot_tls resolver None None)
  else match load_and_build new with
       | Ok ck => ok_noop (TlsSnapshot boot_tls ck (Some resolver) (Some ck))
       | Err e => (TlsSnapshot boot_tls resolver prior applied,
                   Err (ApplyFailed "tls_snapshot" (display e)))
       end.

Definition tls_snapshot (display : Report → string) : ReloadableErased := {|
  name := "tls_snapshot";
  validate d σ := match d, σ with
    | Tls new, TlsSnapshot boot _ _ _ => tls_snapshot_validate boot new
    | _, _ => Ok tt end;
  apply d σ := match d, σ with
    | Tls new, TlsSnapshot boot resolver prior applied =>
        tls_snapshot_apply new boot resolver prior applied display
    | _, _ => ok_noop σ end;
  revert σ := match σ with
    | TlsSnapshot boot _ (Some prior) applied => ok_noop (TlsSnapshot boot prior None applied)
    | _ => ok_noop σ end;
  health_check σ := match σ with
    | TlsSnapshot _ resolver _ (Some applied) =>
        if decide (leaf resolver = leaf applied) then Ok tt
        else Err (HealthFailed "tls_snapshot"
               "resolver leaf does not match the certificate applied this cycle")
    | _ => Ok tt end;
  rollback_window := WATCHDOG_HTTPS |}.

(** ** Gates: subsystems that only reject what needs a restart *)

Definition gate (n : string) (window : Z)
    (check : RuntimeConfigDelta → SubState → Result Report unit) : ReloadableErased := {|
  name := n;
  validate := check;
  apply d σ := ok_noop σ;
  revert σ := ok_noop σ;
  health_check σ := Ok tt;
  rollback_window := window |}.

Definition https_listener : ReloadableErased :=
  gate "https_listener" WATCHDOG_HTTPS (λ d σ, match d, σ with
    | Network new, HttpsListener boot =>
        if decide (addr (https new) = addr boot) then Ok tt
        else Err (ValidateError
          "listener address change requires a full controller restart (network https addr)")
    | _, _ => Ok tt end).

Definition pki_listener : ReloadableErased :=
  gate "pki_listener" WATCHDOG_PKI (λ d σ, match d, σ with
    | Network new, PkiListener boot_pki_addr =>
        if decide (pki_addr new = boot_pki_addr) then Ok tt
        else Err (ValidateError
          "listener address change requires a full controller restart (network pki_addr)")
    | _, _ => Ok tt end).

Definition zeroconf_gate : ReloadableErased :=
  gate "zeroconf" WATCHDOG_ZEROCONF (λ d σ, match d, σ with
    | Zeroconf new, ZeroconfGate boot =>
        zeroconf_validate new ≫= λ _,
        if decide (new = boot) then Ok tt
        else Err (ValidateError "zeroconf config change requires restart")
    | _, _ => Ok tt end).

Definition nats_gate : ReloadableErased :=
  gate "nats" WATCHDOG_NATS (λ d σ, match d, σ with
    | Nats new, NatsGate effective_url boot =>
        let new_url := if str_is_empty (nats_url new) then None else Some (nats_url new) in
        if decide (new_url = effective_url) then
          if decide (nats_extra new = nats_extra boot) then Ok tt
          else Err (ValidateError "nats config change requires restart")
        else Err (ValidateError "nats.url change requires reexec")
    | _, _ => Ok tt end).

(** ** Subsystems that publish their section *)

Definition audit_dispatcher : ReloadableErased := {|
  name := "audit_dispatcher";
  validate d σ := match d, σ with
    | Audit new, AuditDispatcher _ _ => audit_validate new
    | _, _ => Ok tt end;
  apply d σ := match d, σ with
    | Audit new, AuditDispatcher cfg closed => ok_noop (AuditDispatcher (publish new cfg) closed)
    | _, _ => ok_noop σ end;
  revert σ := match σ with
    | AuditDispatcher cfg closed => ok_noop (AuditDispatcher (restore cfg) closed)
    | _ => ok_noop σ end;
  health_check σ := match σ with
    | AuditDispatcher _ true => Err (HealthFailed "audit_dispatcher" "dispatcher channel is closed")
    | _ => Ok tt end;
  rollback_window := WATCHDOG_AUDIT |}.

Definition plugin_catalog : ReloadableErased := {|
  name := "plugin_catalog";
  validate d σ := Ok tt;
  apply d σ := match d, σ with
    | Plugins new, PluginCatalog cfg => ok_noop (PluginCatalog (publish new cfg))
    | _, _ => ok_noop σ end;
  revert σ := match σ with
    | PluginCatalog cfg => ok_noop (PluginCatalog (restore cfg))
    | _ => ok_noop σ end;
  health_check σ := Ok tt;
  rollback_window := WATCHDOG_PLUGINS |}.

Definition embedded_services_gate : ReloadableErased := {|
  name := "embedded_services";
  validate d σ := match d, σ with
    | EmbeddedServices new, EmbeddedGate boot _ =>
        if negb (Bool.eqb (agent new) (agent boot))
           || negb (Bool.eqb (agent_ssh new) (agent_ssh boot))
           || negb (Bool.eqb (mqtt new) (mqtt boot))
           || negb (Bool.eqb (scheduler new) (scheduler boot))
        then Err (ValidateError "embedded_services topology change requires reexec (Plan 3)")
        else Ok tt
    | _, _ => Ok tt end;
  apply d σ := match d, σ with
    | EmbeddedServices new, EmbeddedGate boot cfg =>
        ok_noop (EmbeddedGate boot (publish new cfg))
    | _, _ => ok_noop σ end;
  revert σ := match σ with
    | EmbeddedGate boot cfg => ok_noop (EmbeddedGate boot (restore cfg))
    | _ => ok_noop σ end;
  health_check σ := Ok tt;
  rollback_window := WATCHDOG_EMBEDDED |}.

(** The subsystem of each state. *)
Definition reloadable_of (display : Report → string) (σ : SubState) : ReloadableErased :=
  match σ with
  | DbPool _ _ => db_pool
  | TlsSnapshot _ _ _ _ => tls_snapshot display
  | HttpsListener _ => https_listener
  | PkiListener _ => pki_listener
  | AuditDispatcher _ _ => audit_dispatcher
  | ZeroconfGate _ => zeroconf_gate
  | PluginCatalog _ => plugin_catalog
  | EmbeddedGate _ _ => embedded_services_gate
  | NatsGate _ _ => nats_gate
  end.

(** The subsystems at boot in registration order, with the [nats] feature. *)
Definition wire (display : Report → string) (boot : RuntimeConfig) (db_conn : DbHandle)
    (server_cert : Key) (effective_nats_url : option string) : list Sub :=
  (λ σ, (reloadable_of display σ, σ)) <$>
  [DbPool (db_url (db boot)) (mkPublished db_conn None);
   TlsSnapshot (tls boot) server_cert None None;
   HttpsListener (https (network boot));
   PkiListener (pki_addr (network boot));
   AuditDispatcher (mkPublished (audit boot) None) false;
   ZeroconfGate (zeroconf boot);
   PluginCatalog (mkPublished (mkPluginsConfig 0) None);
   EmbeddedGate (embedded_services boot) (mkPublished (embedded_services boot) None);
   NatsGate effective_nats_url (nats boot)].

(** ** What the program sees of a subsystem *)

Inductive View :=
| VDb (h : DbHandle)
| VTls (k : Key)
| VAudit (c : AuditConfig (TomlValue := TomlValue))
| VPlugins (c : PluginsConfig)
| VEmbedded (c : EmbeddedServicesConfig (TomlValue := TomlValue))
| VNothing.

Definition view_of (σ : SubState) : View :=
  match σ with
  | DbPool _ p => VDb (current p)
  | TlsSnapshot _ k _ _ => VTls k
  | AuditDispatcher p _ => VAudit (current p)
  | PluginCatalog p => VPlugins (current p)
  | EmbeddedGate _ p => VEmbedded (current p)
  | _ => VNothing
  end.

Definition view (s : Sub) : View := view_of s.2.

(** What [revert] would put back. *)
Definition stash (σ : SubState) : option View :=
  match σ with
  | DbPool _ p => VDb <$> snapshot p
  | TlsSnapshot _ _ prior _ => VTls <$> prior
  | AuditDispatcher p _ => VAudit <$> snapshot p
  | PluginCatalog p => VPlugins <$> snapshot p
  | EmbeddedGate _ p => VEmbedded <$> snapshot p
  | _ => None
  end.

(** The delta variant a subsystem reacts to. *)
Definition own_tag (σ : SubState) : option string :=
  match σ with
  | DbPool _ _ => Some "Db"
  | TlsSnapshot _ _ _ _ => Some "Tls"
  | AuditDispatcher _ _ => Some "Audit"
  | PluginCatalog _ => Some "Plugins"
  | EmbeddedGate _ _ => Some "EmbeddedServices"
  | _ => None
  end.

Section Promise.
Context (display : Report → string).
Notation ops := (reloadable_of display).

Lemma apply_other σ d :
  own_tag σ ≠ Some (variant_tag d) → apply (ops σ) d σ = (σ, Ok tt).
Proof. destruct σ, d; done. Qed.

Lemma apply_shape σ d σ' res :
  apply (ops σ) d σ = (σ', res) → ops σ' = ops σ ∧ own_tag σ' = own_tag σ.
Proof.
  destruct σ, d; cbn; try (by intros [= <- _]).
  - destruct (connect c); by intros [= <- _].
  - unfold tls_snapshot_apply. destruct (negb _); [by intros [= <- _]|].
    destruct (load_and_build c); by intros [= <- _].
Qed.

Lemma apply_failed σ d σ' e : apply (ops σ) d σ = (σ', Err e) → σ' = σ.
Proof.
  destruct σ, d; cbn; try done.
  - destruct (connect c); by intros [= <- _].
  - unfold tls_snapshot_apply. destruct (negb _); [done|].
    destruct (load_and_build c); by intros [= <- _].
Qed.

(** Reverting puts the stash back, if there is one. *)
Lemma revert_view σ :
  ∃ σ', revert (ops σ) σ = (σ', Ok tt) ∧ view_of σ' = default (view_of σ) (stash σ).
Proof.
  destruct σ as [? [? []]|? ? [] ?| | |[? []] ?| |[? []]|? [? []]|]; cbn; eauto.
Qed.

(** An own delta stashes what was there, or clears the stash and changes nothing. *)
Lemma apply_stash σ d σ' :
  own_tag σ = Some (variant_tag d) → apply (ops σ) d σ = (σ', Ok tt) →
  default (view_of σ') (stash σ') = view_of σ.
Proof.
  destruct σ, d; cbn; try done.
  - intros _. destruct (connect c); by intros [= <-].
  - intros _. unfold tls_snapshot_apply. destruct (negb _); [by intros [= <-]|].
    destruct (load_and_build c); by intros [= <-].
  - by intros _ [= <-].
  - by intros _ [= <-].
  - by intros _ [= <-].
Qed.

Lemma apply_deltas_other σ deltas :
  (∀ d, d ∈ deltas → own_tag σ ≠ Some (variant_tag d)) →
  apply_deltas (ops σ, σ) deltas = ((ops σ, σ), Ok tt).
Proof.
  induction deltas as [|d deltas IH]; intros Hd; cbn; [done|].
  rewrite apply_other by (apply Hd; set_solver). apply IH. set_solver.
Qed.

(** With one own delta among the deltas, a cycle is that delta's apply. *)
Lemma apply_deltas_own σ deltas d :
  NoDup (variant_tag <$> deltas) → d ∈ deltas → own_tag σ = Some (variant_tag d) →
  apply_deltas (ops σ, σ) deltas =
  ((ops σ, (apply (ops σ) d σ).1), (apply (ops σ) d σ).2).
Proof.
  intros Hnd Hd Hown. induction deltas as [|d0 deltas IH]; [set_solver|].
  rewrite fmap_cons in Hnd. apply list.NoDup_cons in Hnd as [Hn Hnd].
  cbn. destruct (decide (variant_tag d0 = variant_tag d)) as [Heq|Hne].
  - assert (d0 = d) as ->.
    { apply elem_of_cons in Hd as [->|Hd]; [done|].
      exfalso. apply Hn. rewrite Heq. by apply list_elem_of_fmap_2. }
    destruct (apply (ops σ) d σ) as [σ' [[]|e]] eqn:E; [|done].
    destruct (apply_shape _ _ _ _ E) as [Hops Htag]. rewrite <-Hops.
    apply (apply_deltas_other σ'). intros d' Hd' Heq'. apply Hn.
    rewrite Htag, Hown in Heq'. injection Heq' as Heq'. rewrite Heq'.
    by apply list_elem_of_fmap_2.
  - rewrite apply_other by (rewrite Hown; intros [= Heq]; by rewrite Heq in Hne). apply IH; [done|].
    apply elem_of_cons in Hd as [->|Hd]; done.
Qed.

Lemma promise_own σ deltas d :
  NoDup (variant_tag <$> deltas) → d ∈ deltas → own_tag σ = Some (variant_tag d) →
  rolls_back view deltas (ops σ, σ).
Proof.
  intros Hnd Hd Hown. pose proof (apply_deltas_own σ deltas d Hnd Hd Hown) as Heq.
  destruct (apply (ops σ) d σ) as [σ' res] eqn:E. cbn in Heq. split.
  - intros s' e Hs. rewrite Heq in Hs. simplify_eq. by apply apply_failed in E as ->.
  - unfold applied_to. rewrite Heq. intros s' [= <- ->]. cbn.
    destruct (apply_shape _ _ _ _ E) as [Hops _].
    destruct (revert_view σ') as (σ'' & Hr & Hv). rewrite <-Hops. exists σ''.
    split; [done|]. unfold view. cbn. rewrite Hv. by eapply apply_stash.
Qed.

Lemma promise_other σ deltas :
  (∀ d, d ∈ deltas → own_tag σ ≠ Some (variant_tag d)) →
  rolls_back view deltas (ops σ, σ) ↔ default (view_of σ) (stash σ) = view_of σ.
Proof.
  intros Hd. pose proof (apply_deltas_other σ deltas Hd) as Heq.
  destruct (revert_view σ) as (σ' & Hr & Hv). split.
  - intros [_ Hundo]. destruct (Hundo _ Heq) as (σ'' & Hr' & Hv'). cbn in Hr'.
    rewrite Hr in Hr'. simplify_eq. by rewrite <-Hv.
  - intros Hst. split; [intros s' e Hs; by rewrite Heq in Hs|].
    intros s' Hs. unfold applied_to in Hs. rewrite Heq in Hs. simplify_eq.
    exists σ'. split; [done|]. unfold view. cbn. by rewrite Hv.
Qed.

(** which subsystems keep the rollback promise. A live subsystem keeps it for a
    cycle exactly when the cycle has a delta for it, or it has nothing stale to put back:
    no stash, or a stash equal to what it already shows. All subsystems do at boot, for
    every set of deltas. After a cycle that changed a subsystem, the stash it left is
    stale, and a later failing cycle about other sections rolls that subsystem back to the
    configuration before the earlier, successful cycle. *)
Theorem rollback_promise_exact (deltas : list RuntimeConfigDelta) (σ : SubState) :
  NoDup (variant_tag <$> deltas) →
  (rolls_back view deltas (ops σ, σ) ↔
   (∃ d, d ∈ deltas ∧ own_tag σ = Some (variant_tag d))
   ∨ default (view_of σ) (stash σ) = view_of σ)
  ∧ (∀ boot conn cert url,
       Forall (rolls_back view deltas) (wire display boot conn cert url)).
Proof.
  intros Hnd.
  assert (∀ σ, rolls_back view deltas (ops σ, σ) ↔
    (∃ d, d ∈ deltas ∧ own_tag σ = Some (variant_tag d))
    ∨ default (view_of σ) (stash σ) = view_of σ) as Hiff.
  { clear σ. intros σ.
    destruct (decide (Exists (λ d, own_tag σ = Some (variant_tag d)) deltas)) as [Hex|Hno].
    - apply list.Exists_exists in Hex as (d & Hd & Hown).
      split; [intros _; left; by exists d|intros _; by apply (promise_own σ deltas d)].
    - assert (∀ d, d ∈ deltas → own_tag σ ≠ Some (variant_tag d)) as Hd.
      { intros d Hd Hown. apply Hno, list.Exists_exists. by exists d. }
      rewrite promise_other by done. split; [by right|]. intros [(d & ? & ?)|?]; [|done].
      by destruct (Hd d). }
  split; [apply Hiff|]. intros boot conn cert url. unfold wire.
  apply list.Forall_fmap, list.Forall_forall. intros σ' Hσ'. cbn. apply Hiff. right.
  repeat (apply elem_of_cons in Hσ' as [->|Hσ']; [done|]). by apply elem_of_nil in Hσ'.
Qed.

(** The configured certificate paths are compared with those of the boot configuration,
    not with those in service: going back to the boot paths changes nothing. *)
Lemma tls_return_to_boot_ignored (boot : TlsConfig) (resolver : Key) prior applied :
  tls_snapshot_apply boot boot resolver prior applied display
  = (TlsSnapshot boot resolver None None, Ok tt).
Proof. unfold tls_snapshot_apply, cert_paths_changed. by rewrite !bool_decide_eq_true_2. Qed.

End Promise.
End Subsystems.

(** ** Witnesses *)

Definition demo_connect (c : DbConfig (TomlValue := unit)) : Result string Z := Ok (pool_size c).
Definition demo_probe (h : Z) : Result string unit :=
  if decide (h = 99)%Z then Err "unreachable" else Ok tt.
Definition demo_load_pair (cert key : string) : Result Report string := Ok cert.
Definition demo_keys_match (k : string) : Result string unit := Ok tt.
Definition demo_leaf (k : string) : option string := Some k.

Definition demo_config (filter : string) (pool : Z) : RuntimeConfig (TomlValue := unit) :=
  mkRuntimeConfig (mkDbConfig "sqlite:x" pool 5000 ∅) "env:K" NetworkConfig_default
    TlsConfig_default NatsConfig_default (mkAuditConfig filter 90 ∅) LogConfig_default
    ZeroconfConfig_default EmbeddedServicesConfig_default.

Definition demo_subs : list (ReloadableErased * SubState) :=
  wire demo_connect demo_probe demo_load_pair demo_keys_match demo_leaf demo_display
    (demo_config "all" 16) 16%Z "boot-cert" None.

Lemma rollback_promise_exact_witness :
  Forall (rolls_back view [Audit (audit (demo_config "none" 16))]) demo_subs.
Proof.
  assert (NoDup (variant_tag <$> [Audit (audit (demo_config "none" 16))])) as Hnd
    by apply NoDup_singleton.
  exact (proj2 (rollback_promise_exact demo_connect demo_probe demo_load_pair demo_keys_match
    demo_leaf demo_display _ (PkiListener "") Hnd) (demo_config "all" 16) 16%Z "boot-cert" None).
Defined.

Notation demo_state := (SubState (TomlValue := unit) (DbHandle := Z) (Key := string)).

Definition demo_clk : Clock (TomlValue := unit) (St := demo_state) :=
  mkClock (λ _ _, 3%Z) (λ _, 2%Z) 1000 (λ l, l).

Definition demo_run (loaded : list (RuntimeConfig (TomlValue := unit)))
    : option (Coordinator (St := demo_state)) :=
  foldl (λ o cfg, o ≫= handle_request demo_display demo_clk (λ _, Ok cfg) Sighup)
    (Some (set_current_config (demo_config "all" 16)
       (set_config_path "controller.toml" (extend_reloadables demo_subs new)))) loaded.

(** A successful change of the audit filter is undone by a later, failing change of the
    database pool: the committed configuration says ["none"], the audit dispatcher runs
    with ["all"] again, and since the committed section does not differ from the file no
    later reload of that file repairs it. *)
Lemma stale_revert_reachable :
  (λ c, (state c, audit_filter (audit (current_config c)),
         (λ s, view_of s.2) <$> reloadables c !! 4))
    <$> demo_run [demo_config "none" 16; demo_config "none" 99; demo_config "none" 16]
  = Some (Idle, "none", Some (VAudit (audit (demo_config "all" 16)))).
Proof. vm_compute. reflexivity. Qed.
