(* ===== verification/ConfigLoader.v ===== *)
(** The configuration file: [RuntimeConfig::validate] and the loader.

    Models the validations of [crates/shared/config-reload/src/config] that concern no live
    subsystem, [RuntimeConfig::validate], [warn_about_extras], [loader.rs] and the reading
    of the master key at boot ([crates/core/controller-runtime/src/boot/init/master_key.rs]).

    What the standard library does is written out: UTF-8 decoding, lines and trimming, and
    the syntax of socket addresses. The TOML parser, the tracing crate's level parser and
    SHA-256 are parameters, and so is the file system ([Io]). Paths are printed with [{:?}]
    as strings with nothing to escape. *)

From Stdlib Require Import Ascii.
From stdpp Require Import base list gmap sets strings numbers pretty.
From S2P Require Import Prelude RustStr Hex ConfigModel ReloadCoordinator.

(** ** Strings *)

(** [str::lines]: pieces between line feeds, without a final empty one, each without the
    carriage return at its end. *)
Definition lf : ascii := ascii_of_nat 10.
Definition cr : string := String (ascii_of_nat 13) EmptyString.
Definition lines (s : string) : list string :=
  let pieces := split_char lf s in
  let pieces := if decide (last pieces = Some "") then removelast pieces else pieces in
  (λ l, default l (strip_suffix cr l)) <$> pieces.

(** [String::from_utf8]: the index of the first invalid byte and, unless the input ends
    inside a character, the length of the invalid sequence. *)
Record Utf8Error := mkUtf8Error { valid_up_to : nat; error_len : option nat }.

Definition byte_in (lo hi : N) (c : ascii) : bool := (lo <=? N_of_ascii c)%N && (N_of_ascii c <=? hi)%N.
Definition cont : ascii → bool := byte_in 128 191.

(** The range of the second byte after a leading byte of three or four. *)
Definition second3 (a : ascii) : option (ascii → bool) :=
  let n := N_of_ascii a in
  if (n =? 224)%N then Some (byte_in 160 191)
  else if (n =? 237)%N then Some (byte_in 128 159)
  else if byte_in 225 239 a then Some cont
  else None.
Definition second4 (a : ascii) : option (ascii → bool) :=
  let n := N_of_ascii a in
  if (n =? 240)%N then Some (byte_in 144 191)
  else if (n =? 244)%N then Some (byte_in 128 143)
  else if byte_in 241 243 a then Some cont
  else None.

Fixpoint utf8_error (i : nat) (s : string) : option Utf8Error :=
  match s with
  | EmptyString => None
  | String a s1 =>
      if byte_in 0 127 a then utf8_error (i + 1) s1
      else if byte_in 194 223 a then
        match s1 with
        | EmptyString => Some (mkUtf8Error i None)
        | String b s2 => if cont b then utf8_error (i + 2) s2 else Some (mkUtf8Error i (Some 1))
        end
      else match second3 a, second4 a with
      | Some p, _ =>
          match s1 with
          | EmptyString => Some (mkUtf8Error i None)
          | String b s2 =>
              if p b then
                match s2 with
                | EmptyString => Some (mkUtf8Error i None)
                | String c s3 => if cont c then utf8_error (i + 3) s3 else Some (mkUtf8Error i (Some 2))
                end
              else Some (mkUtf8Error i (Some 1))
          end
      | None, Some p =>
          match s1 with
          | EmptyString => Some (mkUtf8Error i None)
          | String b s2 =>
              if p b then
                match s2 with
                | EmptyString => Some (mkUtf8Error i None)
                | String c s3 =>
                    if cont c then
                      match s3 with
                      | EmptyString => Some (mkUtf8Error i None)
                      | String d s4 => if cont d then utf8_error (i + 4) s4 else Some (mkUtf8Error i (Some 3))
                      end
                    else Some (mkUtf8Error i (Some 2))
                end
              else Some (mkUtf8Error i (Some 1))
          end
      | None, None => Some (mkUtf8Error i (Some 1))
      end
  end.

Definition display_utf8_error (e : Utf8Error) : string :=
  match error_len e with
  | Some n => "invalid utf-8 sequence of " +:+ pretty n +:+ " bytes from index " +:+ pretty (valid_up_to e)
  | None => "incomplete utf-8 byte sequence from index " +:+ pretty (valid_up_to e)
  end.

Definition from_utf8 (bytes : string) : Result string string :=
  match utf8_error 0 bytes with Some e => Err (display_utf8_error e) | None => Ok bytes end.

(** ** Socket addresses: [str::parse::<SocketAddr>] *)

Module SocketAddr.

(** A parser: what it read and the rest of the input. *)
Definition parser (A : Type) := string → option (A * string).

Definition given_char (c : ascii) : parser unit :=
  λ s, match s with String a s' => if Ascii.eqb a c then Some (tt, s') else None | _ => None end.

(** [char::to_digit] *)
Definition to_digit (radix : N) (c : ascii) : option N :=
  match Hex.to_digit16 c with Some n => if (n <? radix)%N then Some n else None | None => None end.

Fixpoint digits (radix : N) (s : string) : list N * string :=
  match s with
  | String a s' =>
      match to_digit radix a with
      | Some d => let '(ds, rest) := digits radix s' in (d :: ds, rest)
      | None => ([], s)
      end
  | EmptyString => ([], EmptyString)
  end.

Definition value (radix : N) (ds : list N) : N := foldl (λ v d, v * radix + d)%N 0%N ds.

(** [Parser::read_number] into a type with the maximum [max]. *)
Definition read_number (radix : N) (max_digits : option nat) (allow_zero_prefix : bool) (max : N) : parser N :=
  λ s, let '(ds, rest) := digits radix s in
    if decide (ds = []) then None
    else if match max_digits with Some m => m <? length ds | None => false end then None
    else if negb allow_zero_prefix && bool_decide (head ds = Some 0%N) && (1 <? length ds) then None
    else if (value radix ds <=? max)%N then Some (value radix ds, rest) else None.

(** [Parser::read_separator]: no separator before the first element *)
Definition separated {A} (sep : ascii) (index : nat) (p : parser A) : parser A :=
  λ s, if decide (index = 0) then p s
       else match given_char sep s with Some (_, s') => p s' | None => None end.

Definition octet (index : nat) : parser N := separated "." index (read_number 10 (Some 3) false 255).

Definition read_ipv4_addr : parser (list N) :=
  λ s, '(a, s) ← octet 0 s; '(b, s) ← octet 1 s; '(c, s) ← octet 2 s; '(d, s) ← octet 3 s;
       Some ([a; b; c; d], s).

(** [read_groups] with [left] groups to go: the groups read and whether an IPv4 address
    ended them. *)
Fixpoint read_groups (i left : nat) (s : string) : list N * bool * string :=
  match left with
  | 0 => ([], false, s)
  | S left' =>
      match (if 0 <? left' then separated ":" i read_ipv4_addr s else None) with
      | Some ([a; b; c; d], rest) => ([a * 256 + b; c * 256 + d]%N, true, rest)
      | _ =>
          match separated ":" i (read_number 16 (Some 4) true 65535) s with
          | Some (g, rest) => let '(gs, v4, rest) := read_groups (S i) left' rest in (g :: gs, v4, rest)
          | None => ([], false, s)
          end
      end
  end.

Definition read_ipv6_addr : parser (list N) :=
  λ s, let '(head, head_ipv4, s) := read_groups 0 8 s in
    if decide (length head = 8) then Some (head, s)
    else if (head_ipv4 : bool) then None
    else
      '(_, s) ← given_char ":" s; '(_, s) ← given_char ":" s;
      let '(tail, _, s) := read_groups 0 (7 - length head) s in
      Some (head ++ replicate (8 - length head - length tail) 0%N ++ tail, s).

Definition read_port : parser N := λ s, '(_, s) ← given_char ":" s; read_number 10 None true 65535 s.
Definition read_scope_id : parser N := λ s, '(_, s) ← given_char "%" s; read_number 10 None true 4294967295 s.

Definition read_socket_addr_v4 : parser (list N * N) :=
  λ s, '(ip, s) ← read_ipv4_addr s; '(port, s) ← read_port s; Some ((ip, port), s).
Definition read_socket_addr_v6 : parser (list N * N) :=
  λ s, '(_, s) ← given_char "[" s; '(ip, s) ← read_ipv6_addr s;
       let s := match read_scope_id s with Some (_, s') => s' | None => s end in
       '(_, s) ← given_char "]" s; '(port, s) ← read_port s; Some ((ip, port), s).

Definition parse (s : string) : Result string (list N * N) :=
  match (match read_socket_addr_v4 s with Some r => Some r | None => read_socket_addr_v6 s end) with
  | Some (a, EmptyString) => Ok a
  | _ => Err "invalid socket address syntax"
  end.

End SocketAddr.

(** ** Results *)

Lemma from_utf8_ok bytes raw : from_utf8 bytes = Ok raw ↔ utf8_error 0 bytes = None ∧ raw = bytes.
Proof. unfold from_utf8. destruct (utf8_error 0 bytes); naive_solver. Qed.

Lemma bind_unit_ok {E} (r : Result E unit) (k : unit → Result E unit) :
  (r ≫= k) = Ok tt ↔ r = Ok tt ∧ k tt = Ok tt.
Proof. destruct r as [[]|e]; simpl; naive_solver. Qed.

Lemma guard_ok {E} (b : bool) (e : E) (r : Result E unit) :
  (if b then Err e else r) = Ok tt ↔ b = false ∧ r = Ok tt.
Proof. destruct b; naive_solver. Qed.

Lemma str_empty_iff s : str_is_empty s = true ↔ s = "".
Proof. by destruct s. Qed.

(** ** Validation *)

Section Loader.
Context {TomlValue : Type} `{EqDecision TomlValue}.
(** [str::parse::<tracing::Level>], [toml::from_str] and the bytes of [Sha256::digest]. *)
Context (parse_level : string → Result string unit).
Context (parse_toml : string → Result string (RuntimeConfig (TomlValue := TomlValue))).
Context (sha256 : string → string).

Notation RuntimeConfig := (RuntimeConfig (TomlValue := TomlValue)).
Notation Report := ConfigReloadError (only parsing).

Definition network_validate (c : NetworkConfig (TomlValue := TomlValue)) : Result Report unit :=
  match SocketAddr.parse (addr (https c)) with
  | Err e => Err (ValidateError ("network.addr invalid: " +:+ e))
  | Ok _ =>
      if starts_with "https://" (pki_addr c)
      then Err (ValidateError
        "network.pki_addr must not use https:// scheme; use http:// or a bare socket address")
      else if negb (str_is_empty (pki_addr c)) && bool_decide (pki_addr c = addr (https c))
      then Err (ValidateError ("network.pki_addr (" +:+ pki_addr c +:+ ") collides with network.addr"))
      else Ok tt
  end.

Definition nats_validate (c : NatsConfig (TomlValue := TomlValue)) : Result Report unit :=
  if str_is_empty (nats_url c) then Err (ValidateError "nats.url is empty") else Ok tt.

Definition log_validate (c : LogConfig (TomlValue := TomlValue)) : Result Report unit :=
  match parse_level (level c) with
  | Err e => Err (ValidateError
      ("log.level " +:+ debug_str (level c) +:+ " is not a valid tracing level: " +:+ e))
  | Ok _ => Ok tt
  end.

Definition embedded_validate (c : EmbeddedServicesConfig (TomlValue := TomlValue)) : Result Report unit := Ok tt.

(** [RuntimeConfig::validate] *)
Definition validate_config (c : RuntimeConfig) : Result Report unit :=
  _ ← db_validate (db c);
  _ ← validate_master_key (master_key c);
  _ ← network_validate (network c);
  _ ← tls_validate (tls c);
  _ ← (if negb (str_is_empty (nats_url (nats c))) then nats_validate (nats c) else Ok tt);
  _ ← audit_validate (audit c);
  _ ← log_validate (log c);
  _ ← zeroconf_validate (zeroconf c);
  embedded_validate (embedded_services c).

(** The warnings of one section, in the order of the map's keys. *)
Definition unknown_keys (section : string) (extra : gmap string TomlValue) : list string :=
  (λ key, "[" +:+ section +:+ "] unknown key `" +:+ key +:+ "` ignored") <$> (map_to_list extra).*1.

Definition warn_about_extras (c : RuntimeConfig) : list string :=
  unknown_keys "db" (db_extra (db c)) ++ unknown_keys "network" (network_extra (network c))
  ++ unknown_keys "tls" (tls_extra (tls c)) ++ unknown_keys "nats" (nats_extra (nats c))
  ++ unknown_keys "audit" (audit_extra (audit c)) ++ unknown_keys "log" (log_extra (log c))
  ++ unknown_keys "zeroconf" (zeroconf_extra (zeroconf c))
  ++ unknown_keys "embedded_services" (embedded_extra (embedded_services c)).

(** ** The loader *)

(** What the operating system answers: the bytes of a file, its mode, and the contents of
    environment variables, or the text of the error. *)
Record Io := mkIo {
  read : string → Result string string;
  mode : string → Result string Z;
  env_var : string → Result string string }.

Definition config_digest (bytes : string) : string := "sha256:" +:+ Hex.encode (sha256 bytes).

Definition file_digest (io : Io) (path : string) : Result Report string :=
  bytes ← map_err (TomlIo path) (read io path); Ok (config_digest bytes).

Record LoadedConfig := mkLoadedConfig {
  config : RuntimeConfig; warnings : list string; digest : string }.

Definition has_line (headers : list string) (raw : string) : bool :=
  existsb (λ l, bool_decide (trim l ∈ headers)) (lines raw).

Definition quote : string := String (ascii_of_nat 34) EmptyString.

Definition check_old_format_hint (raw path : string) : Result Report unit :=
  if has_line ["[master_key]"] raw
  then Err (ValidateError (debug_str path +:+ ": config uses the old `[master_key]` section — replace it with a top-level field: `master_key = "
         +:+ quote +:+ "file:<path>" +:+ quote +:+ "`"))
  else if has_line ["[network.https]"; "[network.pki]"] raw
  then Err (ValidateError (debug_str path +:+ ": config uses old `[network.https]` / `[network.pki]` sub-sections — move all fields directly into `[network]` and rename `pki.addr` to `pki_addr`"))
  else Ok tt.

(** [{:04o}] of at most nine bits *)
Definition octal_digit (n : Z) : ascii := ascii_of_N (48 + Z.to_N (n mod 8)).
Definition octal (n : Z) : string :=
  String "0" (String (octal_digit (n / 64)) (String (octal_digit (n / 8)) (String (octal_digit n) EmptyString))).

Definition check_config_permissions_inner (io : Io) (path : string) : Result Report unit :=
  m ← map_err (TomlIo path) (mode io path);
  if bool_decide (Z.land m 63 ≠ 0%Z)
  then Err (ValidateError ("config file " +:+ debug_str path
         +:+ " contains an inline master key and must not be readable by group or other (current mode: "
         +:+ octal (Z.land m 511) +:+ "); run: chmod 0600 " +:+ debug_str path))
  else Ok tt.

(** The key itself stands in the file. *)
Definition inline_key (key : string) : bool :=
  negb (str_is_empty key || starts_with "file:" key || starts_with "env:" key).

Definition check_config_permissions (io : Io) (path : string) (c : RuntimeConfig) : Result Report unit :=
  if inline_key (master_key c) then check_config_permissions_inner io path else Ok tt.

(** [TomlConfigLoader::load] *)
Definition load (io : Io) (path : string) : Result Report LoadedConfig :=
  bytes ← map_err (TomlIo path) (read io path);
  let digest := config_digest bytes in
  raw ← map_err (λ e, TomlIo path ("config is not valid UTF-8: " +:+ e)) (from_utf8 bytes);
  _ ← check_old_format_hint raw path;
  config ← map_err (TomlParse path) (parse_toml raw);
  _ ← validate_config config;
  _ ← check_config_permissions io path config;
  Ok (mkLoadedConfig config (warn_about_extras config) digest).

(** What the coordinator's file arm takes of it. *)
Definition load_config (io : Io) (path : string) : Result Report RuntimeConfig :=
  l ← load io path; Ok (config l).

(** ** The master key at boot ([master_key.rs]) *)

(** [std::fs::read_to_string] *)
Definition read_to_string (io : Io) (path : string) : Result string string :=
  bytes ← read io path; map_err (λ _, "stream did not contain valid UTF-8") (from_utf8 bytes).

Definition read_master_key_hex (io : Io) (master_key_from : option string) : Result string (option string) :=
  match master_key_from with
  | None => Ok None
  | Some source =>
      match strip_prefix "file:" source with
      | Some path =>
          contents ← map_err (λ e, "failed to read master key file " +:+ path +:+ ": " +:+ e)
                       (read_to_string io path);
          Ok (Some (trim contents))
      | None =>
          match strip_prefix "env:" source with
          | Some var =>
              value ← map_err (λ e, "failed to read master key from environment variable " +:+ var +:+ ": " +:+ e)
                        (env_var io var);
              Ok (Some (trim value))
          | None => Ok (Some (trim source))
          end
      end
  end.

Definition display_decode_error (e : Hex.DecodeError) : string :=
  match e with Hex.OddLength => "odd-length hex string" | Hex.InvalidChar => "invalid hex character" end.

Definition parse_master_key_hex (key_hex : string) : Result string string :=
  bytes ← map_err (λ e, "master key must be a 64-character hex string: " +:+ display_decode_error e)
            (Hex.decode key_hex);
  if decide (str_len bytes = 32) then Ok bytes
  else Err ("master key must be exactly 32 bytes (64 hex chars), got " +:+ pretty (str_len bytes) +:+ " bytes").

(** [init_master_key]: the key bytes the process starts with. *)
Definition init_master_key (io : Io) (master_key_from : option string) : Result string string :=
  key_hex ← read_master_key_hex io master_key_from;
  match key_hex with
  | Some key_hex => parse_master_key_hex key_hex
  | None => Err "master encryption key is required: pass --master-key-from file:/path/to/key, env:VAR_NAME, or an inline hex string via UPTRAKIT_MASTER_KEY_FROM."
  end.

(** [boot::crypto::init]: the command line wins over the file. *)
Definition boot_master_key (io : Io) (cli : option string) (c : RuntimeConfig) : Result string string :=
  init_master_key io (match cli with
                      | Some source => Some source
                      | None => if str_is_empty (master_key c) then None else Some (master_key c)
                      end).

(** ** What a valid configuration is *)

Definition valid_key (key : string) : Prop :=
  (∃ path, key = "file:" +:+ path ∧ path ≠ "") ∨ (∃ var, key = "env:" +:+ var ∧ var ≠ "")
  ∨ str_len key = 64 ∧ all_chars is_ascii_hexdigit key = true.

(** The rules of the sections in one place. *)
Record valid_config (c : RuntimeConfig) : Prop := {
  vc_pool : pool_size (db c) ≠ 0%Z;
  vc_timeout : acquire_timeout_ms (db c) ≠ 0%Z;
  vc_key : valid_key (master_key c);
  vc_addr : ∃ a, SocketAddr.parse (addr (https (network c))) = Ok a;
  vc_pki_scheme : starts_with "https://" (pki_addr (network c)) = false;
  vc_pki_own : pki_addr (network c) ≠ addr (https (network c));
  vc_tls_pair : cert_path (tls c) = "" ↔ key_path (tls c) = "";
  vc_domain : all_chars is_trust_domain_char (trust_domain (tls c)) = true;
  vc_filter : audit_filter (audit c) ∈ VALID_FILTERS;
  vc_level : parse_level (level (log c)) = Ok tt;
  vc_zeroconf : enabled (zeroconf c) = true → zeroconf_url (zeroconf c) ≠ "" }.

Lemma master_key_ok key : validate_master_key key = Ok tt ↔ valid_key key.
Proof.
  unfold validate_master_key, valid_key. destruct (str_is_empty key) eqn:He.
  { apply str_empty_iff in He as ->. split; [done|]. intros [(p & H & _)|[(p & H & _)|[H _]]]; by simpl in H. }
  destruct (strip_prefix "file:" key) as [p|] eqn:Hf.
  { apply strip_prefix_spec in Hf as ->. rewrite guard_ok, <-not_true_iff_false, str_empty_iff. split.
    - intros [Hp _]. left. eauto.
    - intros [(q & Hq & Hne)|[(q & Hq & _)|[_ Hx]]]; [|done|done]. simplify_eq. done. }
  destruct (strip_prefix "env:" key) as [v|] eqn:Hv.
  { apply strip_prefix_spec in Hv as ->. rewrite guard_ok, <-not_true_iff_false, str_empty_iff. split.
    - intros [Hp _]. right. left. eauto.
    - intros [(q & Hq & _)|[(q & Hq & Hne)|[_ Hx]]]; [done| |done]. simplify_eq. done. }
  rewrite guard_ok, orb_false_iff, !negb_false_iff, bool_decide_eq_true. split; [by intros [[] _]; auto|].
  intros [(q & -> & _)|[(q & -> & _)|[]]]; [by rewrite strip_prefix_app in Hf|by rewrite strip_prefix_app in Hv|done].
Qed.

Lemma network_ok c :
  network_validate c = Ok tt ↔
  (∃ a, SocketAddr.parse (addr (https c)) = Ok a)
  ∧ starts_with "https://" (pki_addr c) = false ∧ pki_addr c ≠ addr (https c).
Proof.
  unfold network_validate. destruct (SocketAddr.parse (addr (https c))) as [a|e] eqn:Ha; [|naive_solver].
  rewrite !guard_ok, andb_false_iff, negb_false_iff, str_empty_iff, bool_decide_eq_false. split.
  - intros (Hs & Hp & _). split_and!; [by eauto|done|]. destruct Hp as [Hp|Hp]; [|done].
    intros Heq. rewrite Hp in Heq. by rewrite <-Heq in Ha.
  - intros (_ & ? & ?). auto.
Qed.

Lemma tls_ok (c : TlsConfig (TomlValue := TomlValue)) :
  tls_validate c = Ok tt ↔
  (cert_path c = "" ↔ key_path c = "") ∧ all_chars is_trust_domain_char (trust_domain c) = true.
Proof.
  unfold tls_validate. rewrite !guard_ok. split.
  - intros (H1 & H2 & _). split; [destruct (cert_path c), (key_path c); naive_solver|].
    destruct (trust_domain c); [done|]. by apply negb_false_iff.
  - intros [H1 H2]. rewrite H2, andb_false_r. split_and!; [|done..].
    destruct (cert_path c), (key_path c); naive_solver.
Qed.

(** A configuration passes [validate] iff it obeys the rules. *)
Lemma validate_config_ok c : validate_config c = Ok tt ↔ valid_config c.
Proof.
  unfold validate_config. rewrite !bind_unit_ok, master_key_ok, network_ok, tls_ok.
  unfold db_validate, audit_validate, log_validate, zeroconf_validate, nats_validate, embedded_validate.
  assert ((if negb (str_is_empty (nats_url (nats c))) then
      if str_is_empty (nats_url (nats c)) then Err (ValidateError "nats.url is empty") else Ok tt
      else Ok tt) = Ok tt) as Hn by (by destruct (str_is_empty _)).
  rewrite Hn, guard_ok. split.
  - intros (Hdb & Hk & (Ha & Hs & Hp) & (Ht & Hd) & _ & Hf & Hl & [Hz _] & _).
    repeat case_decide; try done. destruct (parse_level (level (log c))) as [[]|] eqn:El; [|done].
    constructor; auto. intros Hen. rewrite Hen in Hz. simpl in Hz.
    intros Hu. by rewrite Hu in Hz.
  - intros []. rewrite !decide_False by done. rewrite decide_True by done. rewrite vc_level0.
    split_and!; auto. destruct (enabled (zeroconf c)); [|done]. simpl.
    apply not_true_iff_false. rewrite str_empty_iff. auto.
Qed.

Lemma old_format_ok raw path :
  check_old_format_hint raw path = Ok tt ↔
  has_line ["[master_key]"] raw = false ∧ has_line ["[network.https]"; "[network.pki]"] raw = false.
Proof. unfold check_old_format_hint. rewrite !guard_ok. naive_solver. Qed.

(** No line of the file opens a section of the old format. *)
Definition no_old_section (bytes : string) : Prop :=
  ∀ line, line ∈ lines bytes → trim line ∉ ["[master_key]"; "[network.https]"; "[network.pki]"].

Lemma has_line_false headers raw :
  has_line headers raw = false ↔ ∀ line, line ∈ lines raw → trim line ∉ headers.
Proof.
  unfold has_line. rewrite <-not_true_iff_false, existsb_exists. setoid_rewrite bool_decide_eq_true.
  setoid_rewrite <-list_elem_of_In. naive_solver.
Qed.

Lemma no_old_section_iff raw :
  has_line ["[master_key]"] raw = false ∧ has_line ["[network.https]"; "[network.pki]"] raw = false ↔ no_old_section raw.
Proof. rewrite !has_line_false. unfold no_old_section. set_solver. Qed.

(** The master key stands in the file itself, which nobody but its owner may use. *)
Definition refers_out (key : string) : Prop := (∃ p, key = "file:" +:+ p) ∨ (∃ v, key = "env:" +:+ v).
Definition owner_only (m : Z) : Prop := ∀ i, (0 ≤ i < 6)%Z → Z.testbit m i = false.

Lemma owner_only_iff m : Z.land m 63 = 0%Z ↔ owner_only m.
Proof.
  unfold owner_only. split.
  - intros Hz i Hi. assert (Z.testbit (Z.land m (Z.ones 6)) i = false) as Hb by (change (Z.ones 6) with 63%Z; by rewrite Hz, Z.bits_0).
    rewrite Z.land_spec, Z.ones_spec_low, andb_true_r in Hb by lia. done.
  - intros Hb. apply Z.bits_inj_iff'. intros i Hi. change 63%Z with (Z.ones 6). rewrite Z.land_spec, Z.bits_0.
    destruct (decide (i < 6)%Z); [by rewrite Hb by lia|]. by rewrite Z.ones_spec_high, andb_false_r by lia.
Qed.

Lemma inline_key_intro key : valid_key key → ¬ refers_out key → inline_key key = true.
Proof.
  unfold refers_out, inline_key. intros Hv Hno.
  destruct Hv as [(p & -> & _)|[(v & -> & _)|[Hl _]]]; [destruct Hno; eauto..|].
  destruct (str_is_empty key) eqn:He; [apply str_empty_iff in He as ->; done|].
  destruct (starts_with "file:" key) eqn:Hf; [destruct Hno; left; by apply starts_with_spec|].
  destruct (starts_with "env:" key) eqn:Hf'; [destruct Hno; right; by apply starts_with_spec|]. done.
Qed.

(** The file may hold the key only if nobody but its owner can use it. *)
Definition key_private (io : Io) (path : string) (c : RuntimeConfig) : Prop :=
  inline_key (master_key c) = true → ∃ m, mode io path = Ok m ∧ Z.land m 63 = 0%Z.

Lemma permissions_ok io path c : check_config_permissions io path c = Ok tt ↔ key_private io path c.
Proof.
  unfold check_config_permissions, check_config_permissions_inner, key_private.
  destruct (inline_key (master_key c)); [|naive_solver].
  destruct (mode io path) as [m|e]; simpl; [|naive_solver].
  rewrite guard_ok, bool_decide_eq_false. split.
  - intros [Hm _] _. exists m. split; [done|]. by apply dec_stable.
  - intros Hm. destruct (Hm eq_refl) as (m' & [= <-] & Hz). split; [|done]. auto.
Qed.

Lemma load_ok io path l :
  load io path = Ok l ↔
  ∃ bytes, read io path = Ok bytes ∧ utf8_error 0 bytes = None
    ∧ (has_line ["[master_key]"] bytes = false ∧ has_line ["[network.https]"; "[network.pki]"] bytes = false)
    ∧ parse_toml bytes = Ok (config l) ∧ valid_config (config l) ∧ key_private io path (config l)
    ∧ warnings l = warn_about_extras (config l) ∧ digest l = config_digest bytes.
Proof.
  unfold load. split.
  - intros H. apply bind_ok in H as (bytes & Hr & H). apply map_err_ok in Hr.
    apply bind_ok in H as (raw & Hu & H). apply map_err_ok, from_utf8_ok in Hu as [Hu ->].
    apply bind_ok in H as ([] & Ho & H). apply old_format_ok in Ho.
    apply bind_ok in H as (c & Hp & H). apply map_err_ok in Hp.
    apply bind_ok in H as ([] & Hv & H). apply validate_config_ok in Hv.
    apply bind_ok in H as ([] & Hk & H). apply permissions_ok in Hk. simplify_eq. eauto 10.
  - intros (bytes & Hr & Hu & Ho & Hp & Hv & Hk & Hw & Hd).
    rewrite (proj2 (map_err_ok _ _ _) Hr). simpl.
    rewrite (proj2 (map_err_ok _ _ _) (proj2 (from_utf8_ok _ _) (conj Hu eq_refl))). simpl.
    rewrite (proj2 (old_format_ok _ path) Ho). simpl. rewrite Hp. simpl.
    rewrite (proj2 (validate_config_ok _) Hv). simpl. rewrite (proj2 (permissions_ok _ _ _) Hk). simpl.
    destruct l. simpl in *. by subst.
Qed.

(** ** The running configuration *)

Section Running.
Context {St : Type} (display : Report → string).

Notation Coordinator := (Coordinator (TomlValue := TomlValue) (St := St)).

(** A run of the coordinator: requests, each with what the operating system answers at that
    time, and an operator's attempts to clear the degraded state. The list holds the file
    systems the requests saw. *)
Inductive turns : list Io → Coordinator → Coordinator → Prop :=
| turns_none c : turns [] c c
| turns_request clk io source ios c c1 c' :
    handle_request display clk (load_config io) source c = Some c1 → turns ios c1 c' → turns (io :: ios) c c'
| turns_clear clk ios c c' : turns ios (clear_degraded_internal clk c).1 c' → turns ios c c'.

Lemma handle_request_config clk io source (c c' : Coordinator) :
  handle_request display clk (load_config io) source c = Some c' →
  config_path c' = config_path c ∧
  (current_config c' = current_config c ∨
   ∃ path l, config_path c = Some path ∧ load io path = Ok l ∧ config l = current_config c').
Proof.
  unfold handle_request. destruct (is_degraded (state c)); [by intros [= <-]; split; [|left]|].
  set (c0 := emit _ _). destruct (process_request display clk (load_config io) source c0) as [[c1 res]|] eqn:Hp; [|done].
  apply process_request_effect in Hp as (_ & Hcfg & Hpath & _). cbn [c0 emit set_state current_config config_path] in Hcfg, Hpath.
  assert (current_config c1 = current_config c ∨
    ∃ path l, config_path c = Some path ∧ load io path = Ok l ∧ config l = current_config c1) as H1.
  { destruct Hcfg as [?|[_ (path & Hc & Hl)]]; [by left|right]. unfold load_config in Hl.
    apply bind_ok in Hl as (l & Hl & [= Hcl]). by exists path, l. }
  destruct res as [pm|e]; intros [= <-]; [by split|]. by destruct (is_degraded (state c1)); split.
Qed.

Lemma clear_degraded_config clk (c : Coordinator) :
  current_config (clear_degraded_internal clk c).1 = current_config c ∧
  config_path (clear_degraded_internal clk c).1 = config_path c.
Proof. unfold clear_degraded_internal. by destruct (last _) as [[]|]. Qed.

(** The configuration is the first one, or one that a request of the run loaded. *)
Lemma turns_config ios (c c' : Coordinator) :
  turns ios c c' → current_config c' = current_config c ∨
  ∃ io path l, io ∈ ios ∧ config_path c = Some path ∧ load io path = Ok l ∧ config l = current_config c'.
Proof.
  induction 1 as [c|clk io source ios c c1 c' Hh _ IH|clk ios c c' _ IH]; [by left| |].
  - apply handle_request_config in Hh as [Hp Hc]. rewrite Hp in IH.
    destruct IH as [IH|(io' & path & l & Hio & Hr)]; [|right; exists io', path, l; by rewrite elem_of_cons; eauto].
    destruct Hc as [Hc|(path & l & Hpath & Hl & Hcl)]; [left; congruence|].
    right. exists io, path, l. rewrite IH. split_and!; [left|done|done|done].
  - by destruct (clear_degraded_config clk c) as [<- <-].
Qed.

(** C33: the coordinator boots with a loaded configuration and takes any sequence of reload
    requests, with any files, refusals, failures and recoveries in between. The
    configuration it holds then obeys every rule of [RuntimeConfig::validate]. It was read at
    boot or by one of the requests, as that read found the file: the bytes are UTF-8 and
    parse to it, no line opens one of the deprecated sections [[master_key]],
    [[network.https]] or [[network.pki]], and unless the master key names a file or a
    variable, the file's permission bits for group and other were all clear then. *)
Theorem running_config_checked (io : Io) (path : string) (l : LoadedConfig) (ios : list Io) (c c' : Coordinator) :
  load io path = Ok l → current_config c = config l → turns ios c c' →
  valid_config (current_config c')
  ∧ ∃ io' path', ((io' = io ∧ path' = path) ∨ (io' ∈ ios ∧ config_path c = Some path'))
      ∧ ∃ bytes, read io' path' = Ok bytes ∧ utf8_error 0 bytes = None
      ∧ parse_toml bytes = Ok (current_config c') ∧ no_old_section bytes
      ∧ (¬ refers_out (master_key (current_config c')) → ∃ m, mode io' path' = Ok m ∧ owner_only m).
Proof.
  intros Hl Hc Ht. assert (∃ io' path' l', ((io' = io ∧ path' = path) ∨ (io' ∈ ios ∧ config_path c = Some path'))
    ∧ load io' path' = Ok l' ∧ config l' = current_config c') as (io' & path' & l' & Hfrom & Hl' & <-).
  { destruct (turns_config _ _ _ Ht) as [->|(io' & path' & l' & ? & ? & ? & ?)]; [|naive_solver].
    exists io, path, l. auto. }
  apply load_ok in Hl' as (bytes & Hr & Hu & Ho%no_old_section_iff & Hp & Hv & Hk & _).
  split; [done|]. exists io', path'. split; [done|]. exists bytes. split_and!; [done..|]. intros Hkey.
  destruct (Hk (inline_key_intro _ (vc_key _ Hv) Hkey)) as (m & Hm & Hz). exists m. by rewrite <-owner_only_iff.
Qed.

End Running.

(** ** Booting with an inline key *)

Lemma hexdigit_no_space c :
  is_ascii_hexdigit c = true →
  is_ascii_space c = false ∧ (∀ b, is_space2 c b = false) ∧ ∀ b d, is_space3 c b d = false.
Proof.
  intros Hc.
  assert (negb (is_ascii_hexdigit c) || negb (is_ascii_space c) && Hex.is_ascii c = true) as H
    by (apply (Hex.forall_ascii (λ c, negb (is_ascii_hexdigit c) || negb (is_ascii_space c) && Hex.is_ascii c));
        vm_compute; reflexivity).
  rewrite Hc in H. simpl in H. apply andb_true_iff in H as [Hs Ha]. split; [by apply negb_true_iff|].
  unfold Hex.is_ascii in Ha. apply N.ltb_lt in Ha. split; intros b.
  - unfold is_space2. destruct (Ascii.eqb_spec c (ascii_of_N 194)) as [->|]; [by vm_compute in Ha|done].
  - intros d. unfold is_space3. destruct (N_of_ascii c) as [|p]; [done|].
    do 8 (destruct p as [p|p|]; try done); lia.
Qed.

Lemma hexdigits_not_blank c s : is_ascii_hexdigit c = true → is_blank (String c s) = false.
Proof.
  intros (H1 & H2 & H3)%hexdigit_no_space. simpl. rewrite H1. destruct s as [|b s]; [done|].
  rewrite H2. destruct s as [|d s]; [done|]. by rewrite H3.
Qed.

Lemma trim_end_hexdigits s : all_chars is_ascii_hexdigit s = true → trim_end s = s.
Proof.
  induction s as [|c s IH]; [done|]. intros [Hc Hs]%andb_true_iff.
  cbn [trim_end]. rewrite hexdigits_not_blank by done. by rewrite IH.
Qed.

Lemma trim_hexdigits s : all_chars is_ascii_hexdigit s = true → trim s = s.
Proof.
  intros Hs. unfold trim. assert (trim_start s = s) as ->; [|by apply trim_end_hexdigits].
  destruct s as [|c s]; [done|]. apply andb_true_iff in Hs as [(H1 & H2 & H3)%hexdigit_no_space _].
  simpl. rewrite H1. destruct s as [|b s]; [done|]. rewrite H2. destruct s as [|d s]; [done|]. by rewrite H3.
Qed.

Lemma not_starts_with p s : starts_with p s = false → strip_prefix p s = None.
Proof. unfold starts_with. by destruct (strip_prefix p s). Qed.

(** A loaded configuration with an inline key starts the controller with the thirty-two
    bytes the key spells. *)
Lemma inline_key_boots io path l :
  load io path = Ok l → inline_key (master_key (config l)) = true →
  ∃ bytes, boot_master_key io None (config l) = Ok bytes ∧ str_len bytes = 32
    ∧ Hex.encode bytes = Hex.lowercase (master_key (config l)).
Proof.
  intros (_ & _ & _ & _ & _ & Hv & _)%load_ok Hi. apply vc_key in Hv.
  set (key := master_key (config l)) in *. unfold inline_key in Hi.
  apply negb_true_iff in Hi. apply orb_false_iff in Hi as [[He Hf]%orb_false_iff Hn].
  destruct Hv as [(p & Hk & _)|[(p & Hk & _)|[Hlen Hhex]]].
  { by rewrite Hk, starts_with_app in Hf. }
  { by rewrite Hk, starts_with_app in Hn. }
  destruct (Hex.decode_hexdigits key Hhex) as (bytes & Hd & H2); [by rewrite Hlen|].
  exists bytes. assert (str_len bytes = 32) as H32 by lia. unfold boot_master_key, init_master_key. fold key.
  rewrite He. unfold read_master_key_hex. rewrite (not_starts_with _ _ Hf), (not_starts_with _ _ Hn). cbn.
  rewrite trim_hexdigits by done. unfold parse_master_key_hex. rewrite Hd. simpl.
  rewrite decide_True by done. split_and!; [done..|].
  pose proof (Hex.decode_exact key) as Hx. rewrite Hd in Hx. apply Hx. by apply Hex.hexdigits_unsigned.
Qed.

End Loader.

(** ** Witness: a reload from a key in the environment to one in the file *)

Module LoaderDemo.

Definition key : string := "00112233445566778899aabbccddeeff00112233445566778899AABBCCDDEEFF".

Definition file_config (k filter : string) : RuntimeConfig (TomlValue := unit) :=
  mkRuntimeConfig DbConfig_default k
    (mkNetworkConfig (mkHttpsConfig "0.0.0.0:8443" [] "" "" "") "http://pki:8444" ∅)
    TlsConfig_default NatsConfig_default (mkAuditConfig filter 30 ∅) LogConfig_default
    ZeroconfConfig_default EmbeddedServicesConfig_default.

(** A parser of two files. *)
Definition parse (s : string) : Result string (RuntimeConfig (TomlValue := unit)) :=
  if decide (s = "old") then Ok (file_config "env:KEY" "all")
  else if decide (s = "new") then Ok (file_config key "none") else Err "expected a table".
Definition parse_level (s : string) : Result string unit := if decide (s = "info") then Ok tt else Err "level".
Definition sha (s : string) : string := s.

(** The file, with mode 0600. *)
Definition io (contents : string) : Io := mkIo (λ _, Ok contents) (λ _, Ok 33152%Z) (λ _, Err "not set").

Definition boot : Coordinator (TomlValue := unit) (St := Z) :=
  set_current_config (file_config "env:KEY" "all") (set_config_path "controller.toml" new).
Definition reloaded : Coordinator (TomlValue := unit) (St := Z) :=
  default boot (handle_request demo_display demo_clock (load_config parse_level parse sha (io "new")) Sighup boot).

Lemma running_config_checked_witness :
  current_config reloaded = file_config key "none" ∧ valid_config parse_level (file_config key "none").
Proof.
  split; [vm_compute; reflexivity|].
  apply (running_config_checked parse_level parse sha demo_display (io "old") "controller.toml"
    (mkLoadedConfig (file_config "env:KEY" "all") [] "sha256:6f6c64") [io "new"] boot reloaded).
  - vm_compute. reflexivity.
  - vm_compute. reflexivity.
  - apply (turns_request parse_level parse sha demo_display demo_clock (io "new") Sighup [] boot reloaded).
    + vm_compute. reflexivity.
    + apply turns_none.
Defined.

(** The same file, readable by its group, is refused. *)
Lemma shared_inline_key_refused :
  is_ok (load parse_level parse sha (mkIo (λ _, Ok "new") (λ _, Ok 33184%Z) (λ _, Err "not set")) "c.toml") = false.
Proof. vm_compute. reflexivity. Qed.

End LoaderDemo.
