(* ===== verification/Crypto.v ===== *)
(** Encryption at rest ([crates/shared/crypto/src]): the three ciphertext formats, the ring
    of data keys, the column registry and [EncryptedString].

    AES-256-GCM is the class [Aead] and SHA-256 a parameter: what sealing and opening
    promise each other, and no more. A nonce is what the random generator filled in. The
    process-wide state ([OnceLock]s and the plaintext flag) is the record [Crypto]. Bytes
    are the characters of a [string]; zeroing memory has no model. *)

From Stdlib Require Import Ascii.
From stdpp Require Import base list gmap sets strings numbers pretty.
From S2P Require Import Prelude RustStr Json Hex ConfigLoader.

Inductive CryptoError :=
| AlreadyInitialized
| NotInitialized
| Encryption (message : string)
| Decryption (message : string)
| HexDecode (e : Hex.DecodeError)
| CiphertextTooShort
| InvalidUtf8 (message : string)
| InvalidJson (message : string)
| MasterKeyMismatch
| MissingActiveKey
| DuplicateColumnAad (column existing_aad new_table : string)
(** the [expect] of [active_key], which no ring from [DataKeyRing::new] reaches *)
| ActiveKeyPanic.

(** AES-256-GCM with a 32-byte key and a 12-byte nonce: sealing gives the ciphertext and
    its tag, or the text of an error. Opening takes the ciphertext with the tag behind it;
    it succeeds on what sealing gives for the same key, nonce and associated data, and on
    nothing else. *)
Class Aead := {
  seal : string → string → string → string → Result string (string * string);
  open : string → string → string → string → option string;
  seal_tag : ∀ k n a p ct tag, seal k n a p = Ok (ct, tag) → str_len tag = 16;
  open_iff : ∀ k n a c p, open k n a c = Some p ↔ ∃ ct tag, seal k n a p = Ok (ct, tag) ∧ c = ct +:+ tag }.

(** Slices of byte strings *)
Fixpoint str_take (n : nat) (s : string) : string :=
  match n, s with S n', String c s' => String c (str_take n' s') | _, _ => EmptyString end.
Fixpoint str_drop (n : nat) (s : string) : string :=
  match n, s with S n', String _ s' => str_drop n' s' | _, _ => s end.

#[global] Arguments str_take : simpl never.
#[global] Arguments str_drop : simpl never.

Definition ENC_V1_PREFIX : string := "ENC:v1:".
Definition ENC_V2_PREFIX : string := "ENC:v2:".
Definition ENC_V3_PREFIX : string := "ENC:v3:".

Definition is_encrypted (s : string) : bool :=
  starts_with ENC_V1_PREFIX s || starts_with ENC_V2_PREFIX s || starts_with ENC_V3_PREFIX s.

(** ** The ring ([data_key_ring.rs]) *)

Record DataKey := mkDataKey { key_id : string; key : string }.
Record DataKeyRing := mkRing { keys : gmap string string; active_key_id : string }.

Definition ring_new (ks : gmap string string) (active : string) : Result CryptoError DataKeyRing :=
  if decide (is_Some (ks !! active)) then Ok (mkRing ks active) else Err MissingActiveKey.

Definition active_key (r : DataKeyRing) : option string := keys r !! active_key_id r.

Section Crypto.
Context `{Aead} (sha256 : string → string).

(** [nonce || ciphertext || tag], in hexadecimal *)
Definition seal_hex (k nonce aad p : string) : Result CryptoError string :=
  match seal k nonce aad p with
  | Ok (ct, tag) => Ok (Hex.encode (nonce +:+ ct +:+ tag))
  | Err e => Err (Encryption e)
  end.

(** Decoding, splitting and opening; [message] is for a failed authentication. *)
Definition open_hex (k aad hex_part message : string) : Result CryptoError string :=
  raw ← map_err HexDecode (Hex.decode hex_part);
  if str_len raw <? 12 + 16 then Err CiphertextTooShort
  else match open k (str_take 12 raw) aad (str_drop 12 raw) with
       | Some p => Ok p
       | None => Err (Decryption message)
       end.

Definition utf8 (bytes : string) : Result CryptoError string := map_err InvalidUtf8 (from_utf8 bytes).

(** ** The formats ([v1.rs], [v2.rs], [v3.rs]) *)

Definition decrypt_value_v1_legacy (k stored : string) : Result CryptoError string :=
  match strip_prefix ENC_V1_PREFIX stored with
  | None => Err (Decryption "missing ENC:v1: prefix")
  | Some hex_part => p ← open_hex k "" hex_part "wrong key or tampered data"; utf8 p
  end.

Definition encrypt_value_v2 (nonce k plaintext aad : string) : Result CryptoError string :=
  h ← seal_hex k nonce aad plaintext; Ok (ENC_V2_PREFIX +:+ h).

Definition decrypt_value_v2 (k stored aad : string) : Result CryptoError string :=
  match strip_prefix ENC_V2_PREFIX stored with
  | None => Err (Decryption "missing ENC:v2: prefix")
  | Some hex_part => p ← open_hex k aad hex_part "wrong key, wrong AAD, or tampered data"; utf8 p
  end.

Definition encrypt_value_v3 (nonce : string) (r : DataKeyRing) (plaintext aad : string) : Result CryptoError string :=
  match active_key r with
  | None => Err ActiveKeyPanic
  | Some dek =>
      h ← seal_hex dek nonce aad plaintext; Ok (ENC_V3_PREFIX +:+ active_key_id r +:+ ":" +:+ h)
  end.

Definition decrypt_value_v3 (r : DataKeyRing) (stored aad : string) : Result CryptoError string :=
  match strip_prefix ENC_V3_PREFIX stored with
  | None => Err (Decryption "missing ENC:v3: prefix")
  | Some after_prefix =>
      match split_once ":" after_prefix with
      | None => Err (Decryption "missing key_id separator in ENC:v3")
      | Some (id, hex_part) =>
          match keys r !! id with
          | None => Err (Decryption ("unknown DEK key_id: " +:+ id))
          | Some dek => p ← open_hex dek aad hex_part "wrong DEK, wrong AAD, or tampered data"; utf8 p
          end
      end
  end.

(** ** Data keys under the master key *)

(** The first 8 hexadecimal digits of the key's hash. *)
Definition compute_key_id (dek : string) : string := Hex.encode (str_take 4 (sha256 dek)).
Definition generate_data_key (random : string) : DataKey := mkDataKey (compute_key_id random) random.

Definition wrap_data_key_with (nonce kek : string) (dek : DataKey) : Result CryptoError string :=
  seal_hex kek nonce ("uptrakit:dek:" +:+ key_id dek) (key dek).

Definition unwrap_data_key_with (kek wrapped_hex id : string) : Result CryptoError DataKey :=
  p ← open_hex kek ("uptrakit:dek:" +:+ id) wrapped_hex "DEK unwrap failed: wrong KEK or tampered data";
  if negb (str_len p =? 32)
  then Err (Decryption ("unwrapped DEK has invalid length: " +:+ pretty (str_len p) +:+ " (expected 32)"))
  else if negb (bool_decide (compute_key_id p = id))
  then Err (Decryption ("DEK key_id mismatch: expected " +:+ id +:+ ", computed " +:+ compute_key_id p))
  else Ok (mkDataKey id p).

(** ** The process-wide state ([lib.rs]) *)

Record Crypto := mkCrypto {
  MASTER_KEY : option string; PLAINTEXT_MODE : bool; DATA_KEY_RING : option DataKeyRing;
  COLUMN_AAD_REGISTRY : option (gmap string string) }.

Definition set_once {A} (old : option A) (a : A) : Result CryptoError (option A) :=
  match old with Some _ => Err AlreadyInitialized | None => Ok (Some a) end.

Definition init_master_key_once (k : string) (st : Crypto) : Result CryptoError Crypto :=
  m ← set_once (MASTER_KEY st) k;
  Ok (mkCrypto m (PLAINTEXT_MODE st) (DATA_KEY_RING st) (COLUMN_AAD_REGISTRY st)).
Definition init_ring_once (r : DataKeyRing) (st : Crypto) : Result CryptoError Crypto :=
  m ← set_once (DATA_KEY_RING st) r;
  Ok (mkCrypto (MASTER_KEY st) (PLAINTEXT_MODE st) m (COLUMN_AAD_REGISTRY st)).
Definition enable_plaintext_mode (st : Crypto) : Crypto :=
  mkCrypto (MASTER_KEY st) true (DATA_KEY_RING st) (COLUMN_AAD_REGISTRY st).

Definition require_master_key (st : Crypto) : Result CryptoError string :=
  match MASTER_KEY st with Some k => Ok k | None => Err NotInitialized end.

(** The first 16 hexadecimal digits of the master key's hash. *)
Definition fingerprint (kek : string) : string := Hex.encode (str_take 8 (sha256 kek)).
Definition master_key_fingerprint (st : Crypto) : Result CryptoError string :=
  k ← require_master_key st; Ok (fingerprint k).

Definition wrap_data_key (nonce : string) (st : Crypto) (dek : DataKey) : Result CryptoError string :=
  k ← require_master_key st; wrap_data_key_with nonce k dek.
Definition unwrap_data_key (st : Crypto) (wrapped_hex id : string) : Result CryptoError DataKey :=
  k ← require_master_key st; unwrap_data_key_with k wrapped_hex id.

Record ColumnAadEntry := mkEntry { e_table : string; e_column : string; e_aad : string }.

(** The loop over the entries; [insert] returns the value it replaced. *)
Fixpoint aad_map (entries : list ColumnAadEntry) (m : gmap string string)
    : Result CryptoError (gmap string string) :=
  match entries with
  | [] => Ok m
  | e :: entries =>
      match m !! e_column e with
      | Some existing => Err (DuplicateColumnAad (e_column e) existing (e_table e))
      | None => aad_map entries (<[e_column e := e_aad e]> m)
      end
  end.

Definition register_column_aad (entries : list ColumnAadEntry) (st : Crypto) : Result CryptoError Crypto :=
  m ← aad_map entries ∅;
  r ← set_once (COLUMN_AAD_REGISTRY st) m;
  Ok (mkCrypto (MASTER_KEY st) (PLAINTEXT_MODE st) (DATA_KEY_RING st) r).

Definition column_aad (st : Crypto) (column : string) : option string :=
  COLUMN_AAD_REGISTRY st ≫= λ m, m !! column.

Definition encrypt_str (nonce : string) (st : Crypto) (plaintext aad : string) : Result CryptoError string :=
  if PLAINTEXT_MODE st then Ok plaintext
  else match DATA_KEY_RING st with
       | Some ring => encrypt_value_v3 nonce ring plaintext aad
       | None => k ← require_master_key st; encrypt_value_v2 nonce k plaintext aad
       end.

Definition decrypt_str (st : Crypto) (stored aad : string) : Result CryptoError string :=
  if starts_with ENC_V3_PREFIX stored then
    match DATA_KEY_RING st with
    | Some ring => decrypt_value_v3 ring stored aad
    | None => Err NotInitialized
    end
  else if starts_with ENC_V2_PREFIX stored then
    k ← require_master_key st; decrypt_value_v2 k stored aad
  else if starts_with ENC_V1_PREFIX stored then
    k ← require_master_key st; decrypt_value_v1_legacy k stored
  else if PLAINTEXT_MODE st || negb (is_encrypted stored) then Ok stored
  else Err (Decryption "unrecognised prefix").

(** ** The verification token *)

Definition KEY_VERIFICATION_SENTINEL : string := "uptrakit-master-key-ok-v1".
Definition KEY_VERIFICATION_AAD : string := "uptrakit:master-key-verification".

Definition create_key_verification_token (nonce : string) (st : Crypto) : Result CryptoError string :=
  k ← require_master_key st; encrypt_value_v2 nonce k KEY_VERIFICATION_SENTINEL KEY_VERIFICATION_AAD.

Definition verify_key_verification_token (st : Crypto) (stored : string) : Result CryptoError unit :=
  match decrypt_str st stored KEY_VERIFICATION_AAD with
  | Ok p => if decide (p = KEY_VERIFICATION_SENTINEL) then Ok tt else Err MasterKeyMismatch
  | Err _ => Err MasterKeyMismatch
  end.

(** ** [EncryptedString] ([encrypted_string.rs]) *)

Record EncryptedString := mkEncrypted { plaintext : string; db_value : string }.

Definition encrypted_new (nonce : string) (st : Crypto) (p aad : string) : Result CryptoError EncryptedString :=
  v ← encrypt_str nonce st p aad; Ok (mkEncrypted p v).

Definition decode_db_value (st : Crypto) (raw aad : string) : Result CryptoError EncryptedString :=
  if starts_with ENC_V3_PREFIX raw || starts_with ENC_V2_PREFIX raw then
    p ← decrypt_str st raw aad; Ok (mkEncrypted p raw)
  else if starts_with ENC_V1_PREFIX raw then
    p ← decrypt_str st raw ""; Ok (mkEncrypted p raw)
  else Ok (mkEncrypted raw raw).

Definition needs_v3_upgrade (e : EncryptedString) : bool := negb (starts_with ENC_V3_PREFIX (db_value e)).

(** Reading a column of a row ([TryGetable]): the associated data registered for it. *)
Definition try_get (st : Crypto) (column raw : string) : Result CryptoError EncryptedString :=
  decode_db_value st raw (default "" (column_aad st column)).

(** ** Columns that hold JSON ([encrypted_column.rs]) *)

Record EncryptedColumn := mkColumn { inner : EncryptedString; json : Value }.

(** [serde_json::from_str] *)
Context (from_json : string → Result string Value).

Definition column_new (nonce : string) (st : Crypto) (AAD plaintext_json : string) : Result CryptoError EncryptedColumn :=
  v ← map_err InvalidJson (from_json plaintext_json);
  e ← encrypted_new nonce st plaintext_json AAD;
  Ok (mkColumn e v).

Definition column_decode (st : Crypto) (AAD db_repr : string) : Result CryptoError EncryptedColumn :=
  e ← decode_db_value st db_repr AAD;
  v ← map_err InvalidJson (from_json (plaintext e));
  Ok (mkColumn e v).

End Crypto.
