(* ===== verification/CryptoTheorems.v ===== *)
(** What encryption at rest promises: secrets come back, under every format and after keys
    were added or retired; a ciphertext moved to another context opens only if the cipher
    itself collides. *)

From Stdlib Require Import Ascii.
From stdpp Require Import base list gmap sets strings numbers pretty.
From S2P Require Import Prelude RustStr Hex ConfigLoader Crypto.

Lemma str_take_drop n s : str_take n s +:+ str_drop n s = s.
Proof.
  revert s. induction n as [|n IH]; intros [|c s]; try done.
  change (String c (str_take n s +:+ str_drop n s) = String c s). by rewrite IH.
Qed.
Lemma str_take_len n s : n ≤ str_len s → str_len (str_take n s) = n.
Proof.
  revert s. induction n as [|n IH]; intros [|c s] Hl; [done..|simpl in Hl; lia|].
  change (S (str_len (str_take n s)) = S n). f_equal. apply IH. simpl in Hl. lia.
Qed.
Lemma str_take_app a b : str_take (str_len a) (a +:+ b) = a.
Proof. induction a as [|c a IH]; [by destruct b|]. exact (f_equal (String c) IH). Qed.
Lemma str_drop_app a b : str_drop (str_len a) (a +:+ b) = b.
Proof. induction a as [|c a IH]; [by destruct b|]. exact IH. Qed.

Lemma str_app_inj_len a b c d : a +:+ b = c +:+ d → str_len b = str_len d → a = c ∧ b = d.
Proof.
  revert c. induction a as [|x a IH]; intros [|y c] Heq Hl.
  - done.
  - change (b = String y c +:+ d) in Heq. rewrite Heq, str_len_app in Hl. simpl in Hl. lia.
  - change (String x a +:+ b = d) in Heq. rewrite <-Heq, str_len_app in Hl. simpl in Hl. lia.
  - injection Heq as -> Heq. by destruct (IH c Heq Hl) as [-> ->].
Qed.

Lemma hex_no_colon bytes : contains_char ":" (Hex.encode bytes) = false.
Proof.
  induction bytes as [|c bytes IH]; [done|]. cbn [Hex.encode contains_char]. rewrite IH, orb_false_r.
  assert (negb (Ascii.eqb (Hex.hex_digit (N_of_ascii c / 16)) ":"
                || Ascii.eqb (Hex.hex_digit (N_of_ascii c mod 16)) ":") = true) as Hc.
  { apply (Hex.forall_ascii (λ c, negb (Ascii.eqb (Hex.hex_digit (N_of_ascii c / 16)) ":"
                || Ascii.eqb (Hex.hex_digit (N_of_ascii c mod 16)) ":"))). vm_compute. reflexivity. }
  by apply negb_true_iff in Hc.
Qed.

Section Theorems.
Context `{Aead}.

(** ** Sealing and opening *)

Lemma seal_hex_ok k nonce aad p h :
  seal_hex k nonce aad p = Ok h ↔
  ∃ ct tag, seal k nonce aad p = Ok (ct, tag) ∧ h = Hex.encode (nonce +:+ ct +:+ tag).
Proof. unfold seal_hex. destruct (seal k nonce aad p) as [[ct tag]|e]; naive_solver. Qed.

(** Opening what was sealed, with whatever associated data. *)
Lemma open_sealed k k' nonce aad aad' p h msg :
  str_len nonce = 12 → seal_hex k nonce aad p = Ok h →
  open_hex k' aad' h msg =
    match seal k nonce aad p with
    | Ok (ct, tag) =>
        match open k' nonce aad' (ct +:+ tag) with Some q => Ok q | None => Err (Decryption msg) end
    | Err e => Err (Decryption msg)
    end.
Proof.
  intros Hn (ct & tag & Hs & ->)%seal_hex_ok. rewrite Hs. unfold open_hex.
  rewrite Hex.decode_encode. simpl. pose proof (seal_tag _ _ _ _ _ _ Hs) as Ht.
  destruct (Nat.ltb_spec (str_len (nonce +:+ ct +:+ tag)) 28) as [Hlt|_].
  { rewrite !str_len_app in Hlt. lia. }
  rewrite <-Hn, str_take_app, str_drop_app. done.
Qed.

Lemma open_seal_hex k nonce aad p h msg :
  str_len nonce = 12 → seal_hex k nonce aad p = Ok h → open_hex k aad h msg = Ok p.
Proof.
  intros Hn Hs. rewrite (open_sealed _ _ _ _ _ _ _ _ Hn Hs). apply seal_hex_ok in Hs as (ct & tag & Hs & _).
  rewrite Hs. rewrite (proj2 (open_iff k nonce aad (ct +:+ tag) p)); [done|eauto].
Qed.

Definition is_utf8 (s : string) : Prop := utf8_error 0 s = None.

Lemma utf8_ok s : is_utf8 s → utf8 s = Ok s.
Proof. unfold is_utf8, utf8, from_utf8. by intros ->. Qed.

(** ** The formats *)

Lemma v2_roundtrip nonce k p aad stored :
  str_len nonce = 12 → is_utf8 p → encrypt_value_v2 nonce k p aad = Ok stored →
  decrypt_value_v2 k stored aad = Ok p.
Proof.
  intros Hn Hu (h & Hs & [= <-])%bind_ok. unfold decrypt_value_v2. rewrite strip_prefix_app.
  rewrite (open_seal_hex _ _ _ _ _ _ Hn Hs). by apply utf8_ok.
Qed.

Context (sha256 : string → string).

(** The ids of a ring are those of its keys. *)
Definition ring_ok (r : DataKeyRing) : Prop :=
  is_Some (keys r !! active_key_id r)
  ∧ ∀ id k, keys r !! id = Some k → id = compute_key_id sha256 k ∧ str_len k = 32.

Lemma ring_id_no_colon r id k : ring_ok r → keys r !! id = Some k → contains_char ":" id = false.
Proof. intros [_ Hr] Hk. destruct (Hr id k Hk) as [-> _]. apply hex_no_colon. Qed.

Lemma v3_shape r nonce p aad stored :
  ring_ok r → encrypt_value_v3 nonce r p aad = Ok stored →
  ∃ dek h, keys r !! active_key_id r = Some dek ∧ seal_hex dek nonce aad p = Ok h
    ∧ stored = ENC_V3_PREFIX +:+ active_key_id r +:+ ":" +:+ h
    ∧ split_once ":" (active_key_id r +:+ ":" +:+ h) = Some (active_key_id r, h).
Proof.
  intros Hr. unfold encrypt_value_v3, active_key. destruct (keys r !! active_key_id r) as [dek|] eqn:Hk; [|done].
  intros (h & Hs & [= <-])%bind_ok. exists dek, h. split_and!; [done..|].
  apply (split_once_app ":"). by eapply ring_id_no_colon.
Qed.

(** Decrypting in a ring that still has the key. *)
Lemma v3_roundtrip r r' nonce p aad stored :
  ring_ok r → keys r ⊆ keys r' → str_len nonce = 12 → is_utf8 p →
  encrypt_value_v3 nonce r p aad = Ok stored → decrypt_value_v3 r' stored aad = Ok p.
Proof.
  intros Hr Hsub Hn Hu (dek & h & Hk & Hs & -> & Hsp)%v3_shape; [|done].
  unfold decrypt_value_v3. rewrite strip_prefix_app, Hsp, (lookup_weaken _ _ _ _ Hk Hsub).
  rewrite (open_seal_hex _ _ _ _ _ _ Hn Hs). by apply utf8_ok.
Qed.

(** ** Secrets *)

(** A later state of the process, or one of another that shares its keys: the master key is
    the same and no data key is gone. *)
Definition keeps_keys (st st' : Crypto) : Prop :=
  MASTER_KEY st' = MASTER_KEY st
  ∧ ∀ r, DATA_KEY_RING st = Some r → ∃ r', DATA_KEY_RING st' = Some r' ∧ keys r ⊆ keys r'.

Definition rings_ok (st : Crypto) : Prop := ∀ r, DATA_KEY_RING st = Some r → ring_ok r.

Lemma encrypt_str_cases nonce st p aad stored :
  rings_ok st → PLAINTEXT_MODE st = false → encrypt_str nonce st p aad = Ok stored →
  (∃ r, DATA_KEY_RING st = Some r ∧ ring_ok r ∧ encrypt_value_v3 nonce r p aad = Ok stored
     ∧ ∃ rest, stored = ENC_V3_PREFIX +:+ rest)
  ∨ (∃ k, DATA_KEY_RING st = None ∧ MASTER_KEY st = Some k ∧ encrypt_value_v2 nonce k p aad = Ok stored
       ∧ ∃ rest, stored = ENC_V2_PREFIX +:+ rest).
Proof.
  intros Hr Hm. unfold encrypt_str, require_master_key. rewrite Hm.
  destruct (DATA_KEY_RING st) as [r|] eqn:Er; intros Hs.
  - left. exists r. split_and!; [done|by apply Hr|done|].
    destruct (v3_shape r nonce p aad stored) as (? & ? & _ & _ & -> & _); [by apply Hr|done|]. by eexists.
  - right. destruct (MASTER_KEY st) as [k|]; [|done]. exists k. split_and!; [done..|].
    change (encrypt_value_v2 nonce k p aad = Ok stored) in Hs.
    apply bind_ok in Hs as (h & _ & [= <-]). by eexists.
Qed.

(** Decryption dispatches on the prefix. *)
Lemma decrypt_str_v3 st rest aad :
  decrypt_str st (ENC_V3_PREFIX +:+ rest) aad =
    match DATA_KEY_RING st with
    | Some r => decrypt_value_v3 r (ENC_V3_PREFIX +:+ rest) aad
    | None => Err NotInitialized
    end.
Proof. unfold decrypt_str. by rewrite starts_with_app. Qed.

Lemma decrypt_str_v2 st rest aad :
  decrypt_str st (ENC_V2_PREFIX +:+ rest) aad =
    (k ← require_master_key st; decrypt_value_v2 k (ENC_V2_PREFIX +:+ rest) aad).
Proof. unfold decrypt_str. rewrite starts_with_app. done. Qed.

Lemma decrypt_encrypted nonce st st' p aad stored :
  rings_ok st → keeps_keys st st' → PLAINTEXT_MODE st = false → str_len nonce = 12 → is_utf8 p →
  encrypt_str nonce st p aad = Ok stored →
  decrypt_str st' stored aad = Ok p ∧ is_encrypted stored = true.
Proof.
  intros Hok [Hm Hk] Hp Hn Hu Hs.
  destruct (encrypt_str_cases _ _ _ _ _ Hok Hp Hs) as [(r & Hr & Hro & Hv & rest & ->)|(k & Hr & Hmk & Hv & rest & ->)].
  - destruct (Hk r Hr) as (r' & Hr' & Hsub). split; [|done]. rewrite decrypt_str_v3, Hr'.
    by apply (v3_roundtrip r r' nonce).
  - split; [|done]. rewrite decrypt_str_v2. unfold require_master_key. rewrite Hm, Hmk. simpl.
    by apply (v2_roundtrip nonce).
Qed.

(** ** Moving a ciphertext *)

(** What opens under other associated data seals to the same bytes there. *)
Lemma relocated k nonce aad aad' p q h msg :
  str_len nonce = 12 → seal_hex k nonce aad p = Ok h →
  (r ← open_hex k aad' h msg; utf8 r) = Ok q → seal k nonce aad' q = seal k nonce aad p.
Proof.
  intros Hn Hs. rewrite (open_sealed _ _ _ _ _ _ _ _ Hn Hs). apply seal_hex_ok in Hs as (ct & tag & Hs & _).
  rewrite Hs. destruct (open k nonce aad' (ct +:+ tag)) as [q'|] eqn:Ho; [|done]. simpl.
  intros Hq. unfold utf8 in Hq. apply map_err_ok, from_utf8_ok in Hq as [_ ->].
  apply open_iff in Ho as (ct' & tag' & Hs' & Heq).
  apply str_app_inj_len in Heq as [-> ->]; [done|].
  by rewrite (seal_tag _ _ _ _ _ _ Hs), (seal_tag _ _ _ _ _ _ Hs').
Qed.

Lemma decrypt_relocated nonce st st' p q aad aad' stored :
  rings_ok st → keeps_keys st st' → PLAINTEXT_MODE st = false → str_len nonce = 12 →
  encrypt_str nonce st p aad = Ok stored → decrypt_str st' stored aad' = Ok q →
  ∃ k, seal k nonce aad' q = seal k nonce aad p ∧ is_ok (seal k nonce aad p) = true.
Proof.
  intros Hok [Hm Hk] Hp Hn Hs Hd.
  destruct (encrypt_str_cases _ _ _ _ _ Hok Hp Hs) as [(r & Hr & Hro & Hv & rest & Hrest)|(k & Hr & Hmk & Hv & rest & Hrest)].
  - destruct (v3_shape r nonce p aad stored Hro Hv) as (dek & h & Hdek & Hh & -> & Hsp).
    destruct (Hk r Hr) as (r' & Hr' & Hsub). rewrite decrypt_str_v3, Hr' in Hd. unfold decrypt_value_v3 in Hd.
    rewrite strip_prefix_app, Hsp, (lookup_weaken _ _ _ _ Hdek Hsub) in Hd.
    exists dek. split; [by eapply relocated|]. apply seal_hex_ok in Hh as (? & ? & -> & _). done.
  - apply bind_ok in Hv as (h & Hh & [= <-]). rewrite decrypt_str_v2 in Hd.
    unfold require_master_key in Hd. rewrite Hm, Hmk in Hd. simpl in Hd. unfold decrypt_value_v2 in Hd.
    rewrite strip_prefix_app in Hd. exists k. split; [by eapply relocated|].
    apply seal_hex_ok in Hh as (? & ? & -> & _). done.
Qed.

(** ** The read path *)

Lemma decode_encrypted st raw aad p :
  is_encrypted raw = true → starts_with ENC_V1_PREFIX raw = false → decrypt_str st raw aad = Ok p →
  decode_db_value st raw aad = Ok (mkEncrypted p raw).
Proof.
  unfold is_encrypted, decode_db_value. intros He H1 Hd. rewrite H1 in He. simpl in He.
  rewrite orb_comm in He. rewrite He, Hd. done.
Qed.

Lemma encrypted_not_v1 nonce st p aad stored :
  rings_ok st → PLAINTEXT_MODE st = false → encrypt_str nonce st p aad = Ok stored →
  starts_with ENC_V1_PREFIX stored = false.
Proof.
  intros Hok Hp Hs. by destruct (encrypt_str_cases _ _ _ _ _ Hok Hp Hs)
    as [(? & _ & _ & _ & rest & ->)|(? & _ & _ & _ & rest & ->)].
Qed.

(** What is decrypted is text. *)
Lemma opened_utf8 k aad h msg q : (p ← open_hex k aad h msg; utf8 p) = Ok q → is_utf8 q.
Proof. intros (p & _ & Hu)%bind_ok. unfold utf8 in Hu. apply map_err_ok, from_utf8_ok in Hu as [Hu ->]. done. Qed.

Lemma decrypt_utf8 st stored aad q : is_utf8 stored → decrypt_str st stored aad = Ok q → is_utf8 q.
Proof.
  intros Hs. unfold decrypt_str. destruct (starts_with ENC_V3_PREFIX stored).
  { destruct (DATA_KEY_RING st) as [r|]; [|done]. unfold decrypt_value_v3.
    destruct (strip_prefix _ _); [|done]. destruct (split_once _ _) as [[id h]|]; [|done].
    destruct (keys r !! id); [|done]. apply opened_utf8. }
  destruct (starts_with ENC_V2_PREFIX stored).
  { intros (k & _ & Hd)%bind_ok. unfold decrypt_value_v2 in Hd. destruct (strip_prefix _ _); [|done].
    by apply opened_utf8 in Hd. }
  destruct (starts_with ENC_V1_PREFIX stored).
  { intros (k & _ & Hd)%bind_ok. unfold decrypt_value_v1_legacy in Hd. destruct (strip_prefix _ _); [|done].
    by apply opened_utf8 in Hd. }
  destruct (_ || _); [|done]. by intros [= <-].
Qed.

Lemma decode_utf8 st raw aad e : is_utf8 raw → decode_db_value st raw aad = Ok e → is_utf8 (plaintext e).
Proof.
  intros Hr. unfold decode_db_value. destruct (_ || _).
  { intros (p & Hd & [= <-])%bind_ok. by eapply decrypt_utf8. }
  destruct (starts_with _ _).
  { intros (p & Hd & [= <-])%bind_ok. by eapply decrypt_utf8. }
  by intros [= <-].
Qed.

(** Reading back what was written for a column. *)
Lemma decode_written nonce st p aad stored :
  rings_ok st → PLAINTEXT_MODE st = false → str_len nonce = 12 → is_utf8 p →
  encrypt_str nonce st p aad = Ok stored → decode_db_value st stored aad = Ok (mkEncrypted p stored).
Proof.
  intros Hok Hp Hn Hu Hs.
  destruct (decrypt_encrypted nonce st st p aad stored) as [Hd He]; try done.
  { split; [done|]. intros r Hr. by exists r. }
  apply decode_encrypted; [done| |done]. by eapply encrypted_not_v1.
Qed.

(** C25: a secret that was encrypted is stored as ciphertext and comes back: from
    [decrypt_str] with the same associated data and from the column it was written for, in
    every later state that kept the keys, whichever of them is active by then. With other
    associated data it opens only if the cipher seals some text to the very same bytes
    there. *)
Theorem secret_roundtrip (nonce : string) (st st' : Crypto) (p aad stored : string) :
  rings_ok st → keeps_keys st st' → PLAINTEXT_MODE st = false → str_len nonce = 12 → is_utf8 p →
  encrypt_str nonce st p aad = Ok stored →
  is_encrypted stored = true
  ∧ decrypt_str st' stored aad = Ok p
  ∧ (∀ column, column_aad st' column = Some aad → try_get st' column stored = Ok (mkEncrypted p stored))
  ∧ (∀ aad' q, decrypt_str st' stored aad' = Ok q →
       ∃ k, seal k nonce aad' q = seal k nonce aad p ∧ is_ok (seal k nonce aad p) = true).
Proof.
  intros Hok Hk Hp Hn Hu Hs. destruct (decrypt_encrypted _ _ _ _ _ _ Hok Hk Hp Hn Hu Hs) as [Hd He].
  split_and!; [done..| |].
  - intros column Hc. unfold try_get. rewrite Hc. apply decode_encrypted; [done| |done].
    by eapply encrypted_not_v1.
  - intros aad' q Hq. by eapply (decrypt_relocated nonce st st').
Qed.

End Theorems.
