(* ===== verification/CryptoBoot.v ===== *)
(** Keys at start-up: the [data_encryption_keys] table, the ring built from it, the
    controller's refusal of a foreign master key
    ([crates/core/controller-runtime/src/boot/init/encryption.rs]), and the SSH agent's own
    start and its rotation of the master key ([init_ssh_data_key_ring],
    [build_and_init_ssh_ring], [rotate_ssh_master_key] of
    [crates/core/agent-ssh-runtime/src/lib.rs]).

    A table is the list of its rows in the order a query without [ORDER BY] returns them.
    Several processes start against one table; each statement is atomic. *)

From Stdlib Require Import Ascii.
From stdpp Require Import base list gmap sets strings numbers pretty.
From S2P Require Import Prelude RustStr Hex ConfigLoader Crypto CryptoTheorems.

(** A row of [data_encryption_keys]. *)
Record Dek := mkDek {
  dek_id : Uuid; dek_key_id : string; wrapped_key : string; kek_fingerprint : string;
  dek_status : string; dek_created_at : Instant; retired_at : option Instant }.

Inductive BootError :=
| KekMismatch (id stored current : string)
| UnwrapFailed (id : string) (e : CryptoError)
| NoActiveDek
| BootCrypto (e : CryptoError).

Section Boot.
Context `{Aead} (sha256 : string → string).

Notation unwrap_data_key := (unwrap_data_key sha256).
Notation compute_key_id := (compute_key_id sha256).
Notation fingerprint := (fingerprint sha256).

(** ** Loading *)

(** The loop of [build_and_init_ring]: the last active row wins. *)
Fixpoint collect_keys (st : Crypto) (kek_fp : string) (rows : list Dek) (ks : gmap string string)
    (active : option string) : Result BootError (gmap string string * option string) :=
  match rows with
  | [] => Ok (ks, active)
  | row :: rows =>
      if negb (bool_decide (kek_fingerprint row = kek_fp))
      then Err (KekMismatch (dek_key_id row) (kek_fingerprint row) kek_fp)
      else match unwrap_data_key st (wrapped_key row) (dek_key_id row) with
           | Err e => Err (UnwrapFailed (dek_key_id row) e)
           | Ok dek =>
               collect_keys st kek_fp rows (<[key_id dek := key dek]> ks)
                 (if decide (dek_status row = "active") then Some (dek_key_id row) else active)
           end
  end.

Definition build_ring (st : Crypto) (kek_fp : string) (rows : list Dek) : Result BootError DataKeyRing :=
  '(ks, active) ← collect_keys st kek_fp rows ∅ None;
  match active with
  | None => Err NoActiveDek
  | Some a => map_err BootCrypto (ring_new ks a)
  end.

Definition build_and_init_ring (rows : list Dek) (kek_fp : string) (st : Crypto) : Result BootError Crypto :=
  ring ← build_ring st kek_fp rows; map_err BootCrypto (init_ring_once ring st).

(** An insert; the column [key_id] is unique. *)
Definition insert_dek (row : Dek) (table : list Dek) : option (list Dek) :=
  if existsb (λ r, bool_decide (dek_key_id r = dek_key_id row)) table then None else Some (table ++ [row]).

(** The row for a new key. *)
Definition first_dek (st : Crypto) (kek_fp : string) (id : Uuid) (nonce random : string) (now : Instant)
    : Result BootError Dek :=
  let dek := generate_data_key sha256 random in
  wrapped ← map_err BootCrypto (wrap_data_key nonce st dek);
  Ok (mkDek id (key_id dek) wrapped kek_fp "active" now None).

(** What the other processes do to the table between two statements of this one. *)
Definition Others := list Dek → list Dek.

(** [init_data_key_ring]: read; if there is no key, insert one, whether or not the insert
    succeeds, and read again; build the ring. [others] runs before the insert and
    [others'] before the second read. *)
Definition init_data_key_ring (id : Uuid) (nonce random : string) (now : Instant) (others others' : Others)
    (table : list Dek) (st : Crypto) : Result BootError (list Dek * Crypto) :=
  match MASTER_KEY st with
  | None => Ok (table, st)
  | Some kek =>
      let kek_fp := fingerprint kek in
      if decide (table = []) then
        row ← first_dek st kek_fp id nonce random now;
        let table := others table in
        let table := default table (insert_dek row table) in
        let table := others' table in
        st' ← build_and_init_ring table kek_fp st; Ok (table, st')
      else st' ← build_and_init_ring table kek_fp st; Ok (table, st')
  end.

(** ** Rotation of the master key *)

(** The loop of [rotate_ssh_master_key] over the rows of one transaction; [None] when a key
    cannot be unwrapped or wrapped, which rolls the transaction back. [nonces] are drawn
    per row. *)
Fixpoint rewrap (st : Crypto) (new_kek : string) (nonces : list string) (rows : list Dek) : option (list Dek) :=
  match rows with
  | [] => Some []
  | row :: rows =>
      match unwrap_data_key st (wrapped_key row) (dek_key_id row) with
      | Err _ => None
      | Ok dek =>
          match wrap_data_key_with (default "" (head nonces)) new_kek dek with
          | Err _ => None
          | Ok wrapped =>
              rows' ← rewrap st new_kek (tail nonces) rows;
              Some (mkDek (dek_id row) (dek_key_id row) wrapped (fingerprint new_kek) (dek_status row)
                      (dek_created_at row) (retired_at row) :: rows')
          end
      end
  end.

(** How a rotation ends. Every failure is logged and leaves the transaction to roll back. *)
Inductive RotationOutcome :=
| RotationComplete (dek_count : nat)
| SameKey
| KeyFileUnreadable
| KeyFileInvalid
| NoMasterKey
| NotRewrapped
| NotCommitted.

(** [rotate_ssh_master_key]: the new key file's contents, if it can be read, and whether the
    statements of the transaction and its commit succeed; it is rolled back otherwise. *)
Definition rotate_ssh_master_key (st : Crypto) (new_key_file : option string) (nonces : list string)
    (commits : bool) (table : list Dek) : RotationOutcome * list Dek :=
  match new_key_file with
  | None => (KeyFileUnreadable, table)
  | Some contents =>
      match Hex.decode (trim contents) with
      | Err _ => (KeyFileInvalid, table)
      | Ok new_kek =>
          if negb (str_len new_kek =? 32) then (KeyFileInvalid, table)
          else match MASTER_KEY st with
               | None => (NoMasterKey, table)
               | Some kek =>
                   if decide (fingerprint new_kek = fingerprint kek) then (SameKey, table)
                   else match rewrap st new_kek nonces table with
                        | None => (NotRewrapped, table)
                        | Some table' => if commits then (RotationComplete (length table), table') else (NotCommitted, table)
                        end
               end
      end
  end.

(** ** The SSH agent's start *)

(** [build_and_init_ssh_ring]: the controller's loop, but what stops it is logged, and the
    agent goes on without a ring. *)
Definition build_and_init_ssh_ring (rows : list Dek) (kek_fp : string) (st : Crypto) : option BootError * Crypto :=
  match build_ring st kek_fp rows with
  | Err e => (Some e, st)
  | Ok ring => match init_ring_once ring st with
               | Ok st' => (None, st')
               | Err e => (Some (BootCrypto e), st)
               end
  end.

(** [init_ssh_data_key_ring] *)
Definition init_ssh_data_key_ring (id : Uuid) (nonce random : string) (now : Instant) (others others' : Others)
    (table : list Dek) (st : Crypto) : option BootError * list Dek * Crypto :=
  match MASTER_KEY st with
  | None => (None, table, st)
  | Some kek =>
      let kek_fp := fingerprint kek in
      if decide (table = []) then
        match first_dek st kek_fp id nonce random now with
        | Err e => (Some e, table, st)
        | Ok row =>
            let table := others table in
            let table := default table (insert_dek row table) in
            let table := others' table in
            let '(e, st') := build_and_init_ssh_ring table kek_fp st in (e, table, st')
        end
      else let '(e, st') := build_and_init_ssh_ring table kek_fp st in (e, table, st')
  end.

(** ** Wrapping and unwrapping *)

(** A key with its own id. *)
Definition dek_ok (d : DataKey) : Prop := key_id d = compute_key_id (key d) ∧ str_len (key d) = 32.

Lemma unwrap_wrapped nonce kek d w :
  str_len nonce = 12 → dek_ok d → wrap_data_key_with nonce kek d = Ok w →
  unwrap_data_key_with sha256 kek w (key_id d) = Ok d.
Proof.
  intros Hn [Hid Hlen] Hw. unfold unwrap_data_key_with. rewrite (open_seal_hex _ _ _ _ _ _ Hn Hw). simpl.
  rewrite Hlen. simpl. rewrite bool_decide_true by done. simpl. by destruct d.
Qed.

Lemma unwrap_ok st w id d :
  unwrap_data_key st w id = Ok d → key_id d = id ∧ dek_ok d.
Proof.
  intros (k & _ & (p & _ & Hp)%bind_ok)%bind_ok.
  destruct (str_len p =? 32) eqn:El; [|done]. destruct (bool_decide (compute_key_id p = id)) eqn:Ei; [|done].
  simpl in Hp. simplify_eq. apply bool_decide_eq_true in Ei. apply Nat.eqb_eq in El. done.
Qed.

Lemma unwrap_with st kek w id : MASTER_KEY st = Some kek → unwrap_data_key st w id = unwrap_data_key_with sha256 kek w id.
Proof. unfold unwrap_data_key, require_master_key. by intros ->. Qed.

(** ** The ring of a table *)

Definition keys_ok (ks : gmap string string) : Prop :=
  ∀ id k, ks !! id = Some k → id = compute_key_id k ∧ str_len k = 32.

Lemma collect_keys_cons st fp row rows ks a r :
  collect_keys st fp (row :: rows) ks a = Ok r ↔
  kek_fingerprint row = fp ∧ ∃ d, unwrap_data_key st (wrapped_key row) (dek_key_id row) = Ok d
    ∧ collect_keys st fp rows (<[key_id d := key d]> ks)
        (if decide (dek_status row = "active") then Some (dek_key_id row) else a) = Ok r.
Proof.
  cbn [collect_keys]. destruct (bool_decide_reflect (kek_fingerprint row = fp)) as [Hf|Hf]; simpl; [|naive_solver].
  destruct (unwrap_data_key st (wrapped_key row) (dek_key_id row)); naive_solver.
Qed.

Lemma collect_keys_ok st fp rows ks a ks' a' :
  keys_ok ks → collect_keys st fp rows ks a = Ok (ks', a') → keys_ok ks'.
Proof.
  revert ks a. induction rows as [|row rows IH]; intros ks a Hks; [by intros [= <- <-]|].
  rewrite collect_keys_cons. intros (_ & d & Hu & Hc). eapply IH; [|exact Hc].
  apply unwrap_ok in Hu as [_ [Hid Hlen]]. intros id k. rewrite lookup_insert_Some.
  intros [[<- <-]|[_ Hk]]; [done|by apply Hks].
Qed.

Lemma build_ring_ok st fp rows r : build_ring st fp rows = Ok r → ring_ok sha256 r.
Proof.
  intros ([ks a] & Hc & Hr)%bind_ok. destruct a as [a|]; [|done]. apply map_err_ok in Hr.
  unfold ring_new in Hr. case_decide as Hin; [|done]. simplify_eq. split; [exact Hin|]. simpl.
  eapply collect_keys_ok; [|exact Hc]. intros id k Hk. by rewrite lookup_empty in Hk.
Qed.

(** Rewrapping the rows keeps what they hold. *)
Lemma collect_rewrapped st st' fp new_kek nonces rows rows' ks a r :
  MASTER_KEY st' = Some new_kek → Forall (λ n, str_len n = 12) nonces → length rows ≤ length nonces →
  rewrap st new_kek nonces rows = Some rows' → collect_keys st fp rows ks a = Ok r →
  collect_keys st' (fingerprint new_kek) rows' ks a = Ok r.
Proof.
  intros Hm. revert nonces rows' ks a. induction rows as [|row rows IH]; intros nonces rows' ks a Hn Hlen Hw Hc.
  { by simplify_eq/=. }
  destruct nonces as [|n nonces]; [simpl in Hlen; lia|]. apply Forall_cons in Hn as [Hn Hns].
  apply collect_keys_cons in Hc as (_ & d & Hu & Hc). cbn [rewrap] in Hw. rewrite Hu in Hw.
  change (default "" (head (n :: nonces))) with n in Hw. change (tail (n :: nonces)) with nonces in Hw.
  destruct (wrap_data_key_with n new_kek d) as [w|] eqn:Ew; [|done].
  apply bind_Some in Hw as (rest & Hrest & [= <-]). apply unwrap_ok in Hu as [Hid Hd].
  apply collect_keys_cons. cbn [kek_fingerprint wrapped_key dek_key_id dek_status]. split; [done|]. exists d. split; [|by eapply (IH nonces); [|simpl in Hlen; lia| |]].
  rewrite (unwrap_with _ new_kek) by done. rewrite <-Hid. by eapply unwrap_wrapped.
Qed.

Lemma build_rewrapped st st' fp new_kek nonces rows rows' r :
  MASTER_KEY st' = Some new_kek → Forall (λ n, str_len n = 12) nonces → length rows ≤ length nonces →
  rewrap st new_kek nonces rows = Some rows' → build_ring st fp rows = Ok r →
  build_ring st' (fingerprint new_kek) rows' = Ok r.
Proof.
  intros Hm Hn Hl Hw (res & Hc & Hr)%bind_ok. unfold build_ring.
  by rewrite (collect_rewrapped _ _ _ _ _ _ _ _ _ _ Hm Hn Hl Hw Hc).
Qed.

(** Under the old key the first rewrapped row is refused. *)
Lemma rewrapped_refused st st' old_fp new_kek nonces rows rows' :
  rows ≠ [] → fingerprint new_kek ≠ old_fp → rewrap st new_kek nonces rows = Some rows' →
  ∃ id, build_ring st' old_fp rows' = Err (KekMismatch id (fingerprint new_kek) old_fp).
Proof.
  intros Hne Hfp Hw. destruct rows as [|row rows]; [done|]. cbn [rewrap] in Hw.
  destruct (unwrap_data_key st _ _) as [d|]; [|done]. destruct (wrap_data_key_with _ new_kek d) as [w|]; [|done].
  apply bind_Some in Hw as (rest & _ & [= <-]). exists (dek_key_id row). unfold build_ring. cbn [collect_keys kek_fingerprint].
  by rewrite bool_decide_false.
Qed.

(** A row and the one that replaces it: the same key under the other master key. *)
Definition rewrapped_row (kek new_kek : string) (row row' : Dek) : Prop :=
  dek_id row' = dek_id row ∧ dek_key_id row' = dek_key_id row ∧ dek_status row' = dek_status row ∧
  kek_fingerprint row' = fingerprint new_kek ∧
  ∃ d, unwrap_data_key_with sha256 kek (wrapped_key row) (dek_key_id row) = Ok d ∧
    unwrap_data_key_with sha256 new_kek (wrapped_key row') (dek_key_id row) = Ok d.

Lemma rewrap_rows st kek new_kek nonces rows rows' :
  MASTER_KEY st = Some kek → Forall (λ n, str_len n = 12) nonces → length rows ≤ length nonces →
  rewrap st new_kek nonces rows = Some rows' → Forall2 (rewrapped_row kek new_kek) rows rows'.
Proof.
  intros Hm. revert nonces rows'. induction rows as [|row rows IH]; intros nonces rows' Hn Hlen Hw.
  { cbn in Hw. by injection Hw as <-. }
  destruct nonces as [|n nonces]; [simpl in Hlen; lia|]. apply Forall_cons in Hn as [Hn Hns]. cbn [rewrap] in Hw.
  destruct (unwrap_data_key st (wrapped_key row) (dek_key_id row)) as [d|] eqn:Hu; [|done].
  change (default "" (head (n :: nonces))) with n in Hw. change (tail (n :: nonces)) with nonces in Hw.
  destruct (wrap_data_key_with n new_kek d) as [w|] eqn:Ew; [|done].
  apply bind_Some in Hw as (rest & Hrest & [= <-]). constructor; [|by apply (IH nonces); [|simpl in Hlen; lia|]].
  pose proof (unwrap_ok _ _ _ _ Hu) as [Hid Hd]. split_and!; [done..|]. exists d. cbn [wrapped_key].
  split; [by rewrite <-(unwrap_with st)|]. rewrite <-Hid. by eapply unwrap_wrapped.
Qed.

(** The keys of a table that loaded can be wrapped anew. *)
Lemma rewrap_total st fp new_kek nonces rows ks a r :
  (∀ n aad p, is_ok (seal new_kek n aad p) = true) → collect_keys st fp rows ks a = Ok r →
  is_Some (rewrap st new_kek nonces rows).
Proof.
  intros Hseal. revert nonces ks a. induction rows as [|row rows IH]; intros nonces ks a Hc; [by eexists|].
  apply collect_keys_cons in Hc as (_ & d & Hu & Hc). cbn [rewrap]. rewrite Hu.
  assert (∃ w, wrap_data_key_with (default "" (head nonces)) new_kek d = Ok w) as [w ->].
  { unfold wrap_data_key_with, seal_hex. specialize (Hseal (default "" (head nonces)) ("uptrakit:dek:" +:+ key_id d) (key d)).
    destruct (seal _ _ _ _) as [[ct tag]|]; [by eexists|done]. }
  destruct (IH (tail nonces) _ _ Hc) as [rows' ->]. by eexists.
Qed.

(** An SSH agent that started with the ring of a table. *)
Definition started (kek : string) (rows : list Dek) (st : Crypto) : Prop :=
  ∃ st0, MASTER_KEY st0 = Some kek ∧ PLAINTEXT_MODE st0 = false ∧ DATA_KEY_RING st0 = None
    ∧ build_and_init_ssh_ring rows (fingerprint kek) st0 = (None, st).

Lemma init_ring_fresh r st :
  DATA_KEY_RING st = None →
  init_ring_once r st = Ok (mkCrypto (MASTER_KEY st) (PLAINTEXT_MODE st) (Some r) (COLUMN_AAD_REGISTRY st)).
Proof. unfold init_ring_once. by intros ->. Qed.

Lemma started_ring kek rows st :
  started kek rows st →
  ∃ st0 r, MASTER_KEY st0 = Some kek ∧ build_ring st0 (fingerprint kek) rows = Ok r
    ∧ DATA_KEY_RING st = Some r ∧ MASTER_KEY st = Some kek ∧ PLAINTEXT_MODE st = false ∧ ring_ok sha256 r.
Proof.
  intros (st0 & Hm & Hp & Hr & Hb). unfold build_and_init_ssh_ring in Hb.
  destruct (build_ring st0 _ rows) as [r|] eqn:Hring; [|done]. rewrite init_ring_fresh in Hb by done.
  injection Hb as <-. exists st0, r. split_and!; eauto using build_ring_ok.
Qed.

(** The ring depends on the state only through the master key. *)
Lemma build_ring_master st st' fp rows : MASTER_KEY st = MASTER_KEY st' → build_ring st fp rows = build_ring st' fp rows.
Proof.
  intros Hm. unfold build_ring. f_equal. generalize (∅ : gmap string string) as ks, (None : option string) as a.
  induction rows as [|row rows IH]; intros ks a; [done|]. cbn [collect_keys].
  unfold unwrap_data_key, require_master_key. rewrite Hm. destruct (negb _); [done|].
  destruct (_ ≫= _); [apply IH|done].
Qed.

(** What an agent that starts after the rotation makes of the table. *)
Lemma rotated_start st kek r new_kek nonces table table' :
  MASTER_KEY st = Some kek → build_ring st (fingerprint kek) table = Ok r → table ≠ [] →
  Forall (λ n, str_len n = 12) nonces → length table ≤ length nonces → fingerprint new_kek ≠ fingerprint kek →
  rewrap st new_kek nonces table = Some table' →
  (∀ st0, MASTER_KEY st0 = Some new_kek → DATA_KEY_RING st0 = None →
     ∃ st', build_and_init_ssh_ring table' (fingerprint new_kek) st0 = (None, st') ∧ DATA_KEY_RING st' = Some r) ∧
  (∀ st0, MASTER_KEY st0 = Some kek →
     ∃ id, build_and_init_ssh_ring table' (fingerprint kek) st0
           = (Some (KekMismatch id (fingerprint new_kek) (fingerprint kek)), st0)).
Proof.
  intros Hm Hb Hne Hn Hl Hfp Hw. split; intros st0 Hm0.
  - intros Hr0. unfold build_and_init_ssh_ring. rewrite (build_rewrapped _ _ _ _ _ _ _ _ Hm0 Hn Hl Hw Hb), init_ring_fresh by done.
    by eexists.
  - destruct (rewrapped_refused st st0 (fingerprint kek) new_kek nonces table table' Hne Hfp Hw) as [id Hid].
    exists id. unfold build_and_init_ssh_ring. by rewrite Hid.
Qed.

(** A branch of the rotation that returns before it writes. *)
Ltac not_rotated := intros [= <- <-]; split_and!; [intros ? ? [= <-]; congruence|done|done].

(** C31: rotating the SSH agent's master key keeps its secrets. For an agent that started with
    a table of data keys: if the new key file holds a key of 32 bytes with another
    fingerprint, it can be sealed with, and the transaction commits, the rotation completes; a
    rotation that does not complete leaves the table as it was. After a completed one every
    row holds the same data key, wrapped under the new master key; an agent that starts with
    the new key has the same ring, and reads every secret the old one encrypted; one that
    starts with the old key reports the mismatch and goes on without data keys, so it can
    read none of those secrets. *)
Theorem rotation_keeps_secrets (st : Crypto) (kek : string) (file : option string) (nonces : list string)
    (commits : bool) (table table' : list Dek) (o : RotationOutcome) :
  started kek table st → Forall (λ n, str_len n = 12) nonces → length table ≤ length nonces → table ≠ [] →
  rotate_ssh_master_key st file nonces commits table = (o, table') →
  (∀ contents new_kek, file = Some contents → Hex.decode (trim contents) = Ok new_kek → str_len new_kek = 32 →
     fingerprint new_kek ≠ fingerprint kek → (∀ n aad p, is_ok (seal new_kek n aad p) = true) → commits = true →
     o = RotationComplete (length table)) ∧
  ((∀ n, o ≠ RotationComplete n) → table' = table) ∧
  (∀ n, o = RotationComplete n → ∃ contents new_kek,
     file = Some contents ∧ Hex.decode (trim contents) = Ok new_kek ∧ n = length table ∧
     Forall2 (rewrapped_row kek new_kek) table table' ∧
     ∀ nonce p aad stored, str_len nonce = 12 → is_utf8 p → encrypt_str nonce st p aad = Ok stored →
       (∀ st0, MASTER_KEY st0 = Some new_kek → DATA_KEY_RING st0 = None →
          ∃ st', build_and_init_ssh_ring table' (fingerprint new_kek) st0 = (None, st') ∧
            decrypt_str st' stored aad = Ok p) ∧
       (∀ st0, MASTER_KEY st0 = Some kek → DATA_KEY_RING st0 = None →
          ∃ id, build_and_init_ssh_ring table' (fingerprint kek) st0
                = (Some (KekMismatch id (fingerprint new_kek) (fingerprint kek)), st0) ∧
            decrypt_str st0 stored aad = Err NotInitialized)).
Proof.
  intros (st0 & r & Hm0 & Hb & Hr & Hm & Hp & Hok)%started_ring Hn Hl Hne.
  assert (build_ring st (fingerprint kek) table = Ok r) as Hb' by (rewrite (build_ring_master st st0); congruence).
  unfold rotate_ssh_master_key. destruct file as [contents|]; [|not_rotated].
  destruct (Hex.decode (trim contents)) as [new_kek|] eqn:Hd; [|not_rotated].
  destruct (Nat.eqb_spec (str_len new_kek) 32) as [Hlen|Hlen]; cbn [negb]; [|not_rotated].
  rewrite Hm. case_decide as Hfp; [not_rotated|].
  pose proof (rewrap_total st (fingerprint kek) new_kek nonces table ∅ None) as Htotal.
  destruct (rewrap st new_kek nonces table) as [rows'|] eqn:Hw.
  2:{ intros [= <- <-]. split_and!; [|done|done]. intros ? k [= <-] Hk _ _ Hseal _. rewrite Hd in Hk. injection Hk as <-.
      apply bind_ok in Hb' as (res & Hc & _). by destruct (Htotal res Hseal Hc) as [? ?]. }
  destruct commits; intros [= <- <-]; [|by split_and!]. split_and!; [done|by intros Hno; edestruct Hno|].
  intros n [= <-]. exists contents, new_kek. split_and!; [done|done|done|by eapply rewrap_rows|].
  destruct (rotated_start st kek r new_kek nonces table rows') as [Hnew Hold]; [done..|].
  intros nonce p aad stored Hnonce Hu Hs.
  destruct (encrypt_str_cases sha256 nonce st p aad stored) as [(q & Hq & _ & Hv & rest & ->)|(k & Hq & _)];
    [by intros q Hq; simplify_eq|done|done| |congruence]. rewrite Hr in Hq. injection Hq as <-. split; intros st1 Hm1 Hr1.
  - destruct (Hnew st1 Hm1 Hr1) as (st' & Hst' & Hring). exists st'. split; [done|].
    rewrite decrypt_str_v3, Hring. by eapply (v3_roundtrip sha256 r r nonce).
  - destruct (Hold st1 Hm1) as [id Hid]. exists id. split; [done|]. by rewrite decrypt_str_v3, Hr1.
Qed.

(** ** Two controllers on an empty table *)

Lemma first_dek_loads st kek id nonce random now row :
  MASTER_KEY st = Some kek → str_len nonce = 12 → str_len random = 32 →
  first_dek st (fingerprint kek) id nonce random now = Ok row →
  dek_key_id row = compute_key_id random ∧ kek_fingerprint row = fingerprint kek ∧ dek_status row = "active"
  ∧ ∀ st', MASTER_KEY st' = Some kek →
      unwrap_data_key st' (wrapped_key row) (dek_key_id row) = Ok (mkDataKey (compute_key_id random) random).
Proof.
  intros Hm Hn Hl (w & Hw & [= <-])%bind_ok. apply map_err_ok in Hw. unfold wrap_data_key, require_master_key in Hw.
  rewrite Hm in Hw. split_and!; [done..|]. intros st' Hm'. rewrite (unwrap_with _ kek) by done.
  by apply (unwrap_wrapped nonce kek (generate_data_key sha256 random)).
Qed.

Lemma ring_new_inserted id k ks : ring_new (<[id := k]> ks) id = Ok (mkRing (<[id := k]> ks) id).
Proof. unfold ring_new. rewrite decide_True; [done|]. rewrite lookup_insert_eq. by eexists. Qed.

(** Both controllers find no key and insert one of their own: the unique column does not
    stop the second insert, since the ids differ. The first controller, whose ring was built
    before, cannot read what the second writes. *)
Lemma first_start_race st kek idA idB nA nB rA rB nowA nowB tA stA tB stB nonce p aad stored :
  MASTER_KEY st = Some kek → DATA_KEY_RING st = None → PLAINTEXT_MODE st = false →
  str_len nA = 12 → str_len nB = 12 → str_len rA = 32 → str_len rB = 32 →
  compute_key_id rA ≠ compute_key_id rB →
  init_data_key_ring idA nA rA nowA id id [] st = Ok (tA, stA) →
  init_data_key_ring idB nB rB nowB (λ _, tA) id [] st = Ok (tB, stB) →
  encrypt_str nonce stB p aad = Ok stored →
  length tB = 2
  ∧ decrypt_str stA stored aad = Err (Decryption ("unknown DEK key_id: " +:+ compute_key_id rB)).
Proof.
  intros Hm Hr Hpl HnA HnB HlA HlB Hne. unfold init_data_key_ring. rewrite Hm, decide_True by done.
  intros (rowA & HA & (sA & HsA & [= <- <-])%bind_ok)%bind_ok.
  intros (rowB & HB & (sB & HsB & [= <- <-])%bind_ok)%bind_ok Hs.
  destruct (first_dek_loads st kek idA nA rA nowA rowA Hm HnA HlA HA) as (EA & FA & SA & UA).
  destruct (first_dek_loads st kek idB nB rB nowB rowB Hm HnB HlB HB) as (EB & FB & SB & UB).
  assert (insert_dek rowB [rowA] = Some [rowA; rowB]) as Hins.
  { unfold insert_dek. simpl. by rewrite bool_decide_false by (rewrite EA, EB; done). }
  change (build_and_init_ring [rowA] (fingerprint kek) st = Ok sA) in HsA.
  change (build_and_init_ring (default [rowA] (insert_dek rowB [rowA])) (fingerprint kek) st = Ok sB) in HsB.
  split; [change (length (default [rowA] (insert_dek rowB [rowA])) = 2); by rewrite Hins|]. rewrite Hins in HsB.
  change (build_and_init_ring [rowA; rowB] (fingerprint kek) st = Ok sB) in HsB.
  apply bind_ok in HsA as (ringA & HbA & HiA). apply bind_ok in HsB as (ringB & HbB & HiB).
  unfold build_ring in HbA, HbB. cbn [collect_keys] in HbA, HbB.
  rewrite FA, (UA st Hm), SA, bool_decide_true in HbA by done.
  rewrite FA, (UA st Hm), SA, FB, (UB st Hm), SB, !bool_decide_true in HbB by done.
  cbn [negb key_id key] in HbA, HbB. rewrite !decide_True in HbA by done. rewrite !decide_True in HbB by done.
  rewrite EA in HbA. rewrite EB in HbB.
  change (map_err BootCrypto (ring_new (<[compute_key_id rA:=rA]> ∅) (compute_key_id rA)) = Ok ringA) in HbA.
  change (map_err BootCrypto (ring_new (<[compute_key_id rB:=rB]> (<[compute_key_id rA:=rA]> ∅)) (compute_key_id rB))
          = Ok ringB) in HbB.
  rewrite ring_new_inserted in HbA, HbB. injection HbA as <-. injection HbB as <-.
  unfold init_ring_once in HiA, HiB. rewrite Hr in HiA, HiB. cbn in HiA, HiB. injection HiA as <-. injection HiB as <-.
  unfold encrypt_str in Hs. simpl in Hs. rewrite Hpl in Hs. unfold encrypt_value_v3, active_key in Hs. simpl in Hs.
  rewrite lookup_insert_eq in Hs. apply bind_ok in Hs as (h & Hh & [= <-]).
  assert (split_once ":" (compute_key_id rB +:+ ":" +:+ h) = Some (compute_key_id rB, h)) as Hsp
    by (apply (split_once_app ":"), hex_no_colon).
  rewrite decrypt_str_v3. cbn [DATA_KEY_RING]. unfold decrypt_value_v3. rewrite strip_prefix_app.
  cbn [active_key_id keys]. rewrite Hsp, lookup_insert_ne, lookup_empty by done. done.
Qed.

End Boot.
