(* ===== verification/Reencrypt.v ===== *)
(** The upgrade of stored secrets to the current format at start-up
    ([crates/core/controller-runtime/src/reencrypt.rs]).

    A table is the list of its rows, primary key and stored text, in the order of the key;
    reading a row decodes it, so that one undecodable row fails the statement that loads
    it. The passes over the seven tables have two shapes: four give up on a page that
    fails to load, three recover it row by row. *)

From Stdlib Require Import Ascii.
From stdpp Require Import base list gmap sets strings numbers sorting.
From S2P Require Import Prelude RustStr Json Hex ConfigLoader Crypto CryptoTheorems.

Definition UPGRADE_CHUNK_SIZE : nat := 100.

Notation Rows := (list (Uuid * string)) (only parsing).

(** Keyset pagination: the next rows after [last_id]. *)
Definition after (last_id : option Uuid) (r : Uuid * string) : bool :=
  match last_id with Some l => (l <? r.1)%N | None => true end.
Definition page (last_id : option Uuid) (t : Rows) : Rows :=
  take UPGRADE_CHUNK_SIZE (filter (λ r, after last_id r = true) t).

Definition write (k : Uuid) (v : string) (t : Rows) : Rows :=
  (λ r : Uuid * string, if decide (r.1 = k) then (k, v) else r) <$> t.

Section Upgrade.
(** Reading the column, encrypting for it (with the nonce drawn for the row), and whether
    the write of a row succeeds. *)
Context (decode : string → Result CryptoError EncryptedString).
Context (encrypt : Uuid → string → Result CryptoError string).
Context (writes : Uuid → bool).

(** [upgrade_row] on a loaded row, with the count of upgraded rows. *)
Definition upgrade_row (acc : Rows * nat) (row : Uuid * EncryptedString) : Rows * nat :=
  let '(t, count) := acc in
  let '(k, e) := row in
  if negb (needs_v3_upgrade e) then (t, count)
  else match encrypt k (plaintext e) with
       | Ok v => if writes k then (write k v t, count + 1) else (t, count)
       | Err _ => (t, count)
       end.

(** Loading rows decodes each. *)
Fixpoint load_rows (rows : Rows) : Result CryptoError (list (Uuid * EncryptedString)) :=
  match rows with
  | [] => Ok []
  | (k, raw) :: rows => e ← decode raw; rest ← load_rows rows; Ok ((k, e) :: rest)
  end.

(** The loop that gives up on a page, as for [ca_certificates]. *)
Fixpoint upgrade_table (fuel : nat) (last_id : option Uuid) (acc : Rows * nat) : option (Rows * nat) :=
  match fuel with
  | 0 => None
  | S fuel =>
      match load_rows (page last_id acc.1) with
      | Err _ => Some acc
      | Ok rows =>
          match last rows with
          | None => Some acc
          | Some (l, _) =>
              let acc := foldl upgrade_row acc rows in
              if length rows <? UPGRADE_CHUNK_SIZE then Some acc
              else upgrade_table fuel (Some l) acc
          end
      end
  end.

(** Loading one row by its id. *)
Definition recover_row (acc : Rows * nat) (k : Uuid) : Rows * nat :=
  match find (λ r : Uuid * string, bool_decide (r.1 = k)) acc.1 with
  | None => acc
  | Some (_, raw) => match decode raw with Ok e => upgrade_row acc (k, e) | Err _ => acc end
  end.

(** The loop that recovers, as for [plugin_configs]. *)
Fixpoint upgrade_table_recovering (fuel : nat) (last_id : option Uuid) (acc : Rows * nat)
    : option (Rows * nat) :=
  match fuel with
  | 0 => None
  | S fuel =>
      match load_rows (page last_id acc.1) with
      | Err _ =>
          let ids := (page last_id acc.1).*1 in
          match last ids with
          | None => Some acc
          | Some max_id =>
              let acc := foldl recover_row acc ids in
              if length ids <? UPGRADE_CHUNK_SIZE then Some acc
              else upgrade_table_recovering fuel (Some max_id) acc
          end
      | Ok rows =>
          match last rows with
          | None => Some acc
          | Some (l, _) =>
              let acc := foldl upgrade_row acc rows in
              if length rows <? UPGRADE_CHUNK_SIZE then Some acc
              else upgrade_table_recovering fuel (Some l) acc
          end
      end
  end.

(** ** The reference: each row on its own *)

(** What is written over a row, if anything. *)
Definition replacement (r : Uuid * string) : option string :=
  match decode r.2 with
  | Ok e => if needs_v3_upgrade e then
              match encrypt r.1 (plaintext e) with
              | Ok v => if writes r.1 then Some v else None
              | Err _ => None
              end
            else None
  | Err _ => None
  end.

Definition upgraded (r : Uuid * string) : Uuid * string := (r.1, default r.2 (replacement r)).
Definition upgraded_count (t : Rows) : nat := length (filter (λ r, is_Some (replacement r)) t).

(** The rows in the order of their keys. *)
Definition keys_sorted (t : Rows) : Prop := StronglySorted (λ a b : Uuid * string, (a.1 < b.1)%N) t.

(** ** Pages *)

Lemma write_app k v a b : write k v (a ++ b) = write k v a ++ write k v b.
Proof. unfold write. by rewrite fmap_app. Qed.

Lemma write_other k v t : Forall (λ r : Uuid * string, r.1 ≠ k) t → write k v t = t.
Proof.
  intros Ht. induction Ht as [|r t Hr _ IH]; [done|]. cbn. rewrite decide_False by done. f_equal. exact IH.
Qed.

(** Upgrading the row in the middle of a table. *)
Lemma upgrade_row_at pre k raw e post n :
  decode raw = Ok e → Forall (λ r : Uuid * string, r.1 ≠ k) (pre ++ post) →
  upgrade_row (pre ++ (k, raw) :: post, n) (k, e) =
    (pre ++ upgraded (k, raw) :: post, n + (if decide (is_Some (replacement (k, raw))) then 1 else 0)).
Proof.
  intros Hd [Hpre Hpost]%Forall_app. unfold upgrade_row, upgraded, replacement. cbn. rewrite Hd.
  destruct (needs_v3_upgrade e); cbn; [|by rewrite Nat.add_0_r].
  destruct (encrypt k (plaintext e)) as [v|]; [|cbn; by rewrite Nat.add_0_r].
  destruct (writes k); cbn; [|by rewrite Nat.add_0_r]. f_equal.
  rewrite write_app, write_other by done. f_equal. cbn. rewrite decide_True by done. f_equal. by apply write_other.
Qed.

Lemma count_cons r t : upgraded_count (r :: t) = (if decide (is_Some (replacement r)) then 1 else 0) + upgraded_count t.
Proof. unfold upgraded_count. rewrite filter_cons. by case_decide. Qed.

Lemma count_app a b : upgraded_count (a ++ b) = upgraded_count a + upgraded_count b.
Proof. unfold upgraded_count. by rewrite filter_app, length_app. Qed.

(** A step that upgrades a row in place, folded over consecutive rows. *)
Lemma fold_rows {A} (step : Rows * nat → A → Rows * nat) (item : Uuid * string → A → Prop) pre rows items post n :
  (∀ pre r a post n, item r a → Forall (λ q : Uuid * string, q.1 ≠ r.1) (pre ++ post) →
     step (pre ++ r :: post, n) a =
       (pre ++ upgraded r :: post, n + (if decide (is_Some (replacement r)) then 1 else 0))) →
  Forall2 item rows items → NoDup (pre ++ rows ++ post).*1 →
  foldl step (pre ++ rows ++ post, n) items = (pre ++ (upgraded <$> rows) ++ post, n + upgraded_count rows).
Proof.
  intros Hstep Hit. revert pre n. induction Hit as [|r a rows items Hr _ IH]; intros pre n Hnd.
  { cbn. f_equal. by rewrite Nat.add_0_r. }
  cbn [foldl app fmap list_fmap]. rewrite Hstep; [|done|].
  - rewrite (cons_middle (upgraded r) pre (rows ++ post)), (assoc_L app pre). rewrite IH.
    + rewrite count_cons, <-(assoc_L app pre). cbn. f_equal. lia.
    + revert Hnd. rewrite <-(assoc_L app pre), !fmap_app. done.
  - rewrite fmap_app in Hnd. cbn in Hnd. apply NoDup_app in Hnd as (_ & Hpre & [Hn _]%NoDup_cons). apply Forall_app. split; apply Forall_forall.
    + intros q Hq Heq. apply (Hpre q.1); [by apply list_elem_of_fmap_2|]. rewrite Heq. left.
    + intros q Hq Heq. apply Hn. rewrite <-Heq. by apply list_elem_of_fmap_2.
Qed.

(** A loaded page and its rows. *)
Definition decoded (r : Uuid * string) (a : Uuid * EncryptedString) : Prop := a.1 = r.1 ∧ decode r.2 = Ok a.2.

Lemma load_rows_ok rows es : load_rows rows = Ok es → Forall2 decoded rows es.
Proof.
  revert es. induction rows as [|[k raw] rows IH]; intros es; [by intros [= <-]|]. cbn [load_rows].
  intros (e & He & (rest & Hr & [= <-])%bind_ok)%bind_ok. constructor; [done|by apply IH].
Qed.

Lemma load_rows_total rows : Forall (λ r, is_ok (decode r.2) = true) rows → ∃ es, load_rows rows = Ok es.
Proof.
  intros Hr. induction Hr as [|[k raw] rows Hd _ [es IH]]; [by eexists|]. simpl in Hd.
  cbn [load_rows]. destruct (decode raw) as [e|]; [|done]. cbn. rewrite IH. by eexists.
Qed.

Lemma fold_loaded pre rows es post n :
  load_rows rows = Ok es → NoDup (pre ++ rows ++ post).*1 →
  foldl upgrade_row (pre ++ rows ++ post, n) es = (pre ++ (upgraded <$> rows) ++ post, n + upgraded_count rows).
Proof.
  intros Hl%load_rows_ok. apply (fold_rows _ decoded); [|done].
  intros p [k raw] [k' e] q m [Hk Hd] Hne. simpl in *. subst k'. by apply upgrade_row_at.
Qed.

Lemma find_middle pre r post (k : Uuid) :
  r.1 = k → Forall (λ q : Uuid * string, q.1 ≠ k) pre →
  find (λ q : Uuid * string, bool_decide (q.1 = k)) (pre ++ r :: post) = Some r.
Proof.
  intros Hk Hp. induction Hp as [|q pre Hq _ IH]; cbn; [by rewrite bool_decide_true|].
  by rewrite bool_decide_false.
Qed.

Lemma fold_recovered pre rows post n :
  NoDup (pre ++ rows ++ post).*1 →
  foldl recover_row (pre ++ rows ++ post, n) rows.*1 = (pre ++ (upgraded <$> rows) ++ post, n + upgraded_count rows).
Proof.
  apply (fold_rows _ (λ r k, k = r.1)); [|by induction rows; constructor].
  intros p [k raw] ? q m -> Hne. simpl in *. unfold recover_row. cbn [fst].
  rewrite find_middle by (done || by apply Forall_app in Hne as []).
  destruct (decode raw) as [e|e] eqn:Hd; [by apply upgrade_row_at|].
  unfold upgraded, replacement. cbn. rewrite Hd. cbn. by rewrite Nat.add_0_r.
Qed.

(** Rows up to the cursor and rows after it. *)
Definition cut (last_id : option Uuid) (fin todo : Rows) : Prop :=
  Forall (λ r, after last_id r = false) fin ∧ Forall (λ r, after last_id r = true) todo
  ∧ keys_sorted todo ∧ NoDup (fin ++ todo).*1.

Lemma filter_none last_id l :
  Forall (λ r, after last_id r = false) l → filter (λ r, after last_id r = true) l = [].
Proof. intros Hl. induction Hl as [|r l Hr _ IH]; [done|]. rewrite filter_cons_False; [done|congruence]. Qed.

Lemma filter_every last_id l :
  Forall (λ r, after last_id r = true) l → filter (λ r, after last_id r = true) l = l.
Proof. intros Hl. induction Hl as [|r l Hr _ IH]; [done|]. rewrite filter_cons_True by done. by rewrite IH. Qed.

Lemma page_cut last_id fin todo : cut last_id fin todo → page last_id (fin ++ todo) = take UPGRADE_CHUNK_SIZE todo.
Proof.
  intros (Hd & Ht & _). unfold page. f_equal. rewrite filter_app.
  rewrite (filter_none last_id fin Hd), (filter_every last_id todo Ht). done.
Qed.

(** The cursor moves behind a page. *)
Lemma cut_next last_id fin todo l raw :
  cut last_id fin todo → last (take UPGRADE_CHUNK_SIZE todo) = Some (l, raw) →
  cut (Some l) (fin ++ (upgraded <$> take UPGRADE_CHUNK_SIZE todo)) (drop UPGRADE_CHUNK_SIZE todo)
  ∧ length (drop UPGRADE_CHUNK_SIZE todo) < length todo.
Proof.
  set (pg := take _ todo). set (rest := drop _ todo). intros (Hd & Ht & Hs & Hn) Hl.
  assert (todo = pg ++ rest) as Htd by (symmetry; apply take_drop).
  apply last_Some in Hl as [pg0 Hpg]. rewrite Htd in Hs, Ht, Hn.
  unfold keys_sorted in Hs. apply StronglySorted_app in Hs as (Hlt & Hsp & Hsr).
  apply Forall_app in Ht as [Htp Htr].
  assert (∀ r, r ∈ pg → (r.1 ≤ l)%N) as Hle.
  { intros r Hr. rewrite Hpg in Hr, Hsp. apply elem_of_app in Hr as [Hr|Hr%list_elem_of_singleton]; [|rewrite Hr; reflexivity].
    apply StronglySorted_app in Hsp as (Hx & _). apply N.lt_le_incl, (Hx r (l, raw)); [done|left]. }
  assert ((l, raw) ∈ pg) as Hin by (rewrite Hpg; apply elem_of_app; right; left).
  split; [split_and!|].
  - apply Forall_app. split; apply Forall_forall.
    + intros r Hr. rewrite Forall_forall in Hd, Htp. specialize (Hd r Hr). specialize (Htp _ Hin).
      unfold after in *. destruct last_id as [c|]; [|done]. simpl in *. apply N.ltb_ge in Hd. apply N.ltb_lt in Htp.
      apply N.ltb_ge. lia.
    + intros r (r0 & -> & Hr)%list_elem_of_fmap. apply N.ltb_ge. exact (Hle r0 Hr).
  - apply Forall_forall. intros r Hr. apply N.ltb_lt. by apply (Hlt (l, raw)).
  - exact Hsr.
  - rewrite (assoc_L app) in Hn. rewrite !fmap_app in Hn |- *. rewrite <-list_fmap_compose. exact Hn.
  - rewrite Htd, length_app, Hpg, length_app. simpl. lia.
Qed.

(** A page that is not full is the last one. *)
Lemma short_page {A} (l : list A) n : length (take n l) < n → take n l = l ∧ drop n l = [].
Proof.
  rewrite length_take. intros Hl. assert (length l ≤ n) by lia. by rewrite take_ge, drop_ge.
Qed.

Lemma take_nil_iff {A} (l : list A) n : 0 < n → take n l = [] → l = [].
Proof. destruct n, l; simpl; [lia|lia|done|done]. Qed.

Lemma last_decoded rows es l e : Forall2 decoded rows es → last es = Some (l, e) → ∃ raw, last rows = Some (l, raw).
Proof.
  intros Hf [es0 ->]%last_Some. apply Forall2_app_inv_r in Hf as (r1 & r2 & _ & H2 & ->).
  apply Forall2_cons_inv_r in H2 as ([k raw] & t & [Hk _] & Ht & ->). apply Forall2_nil_inv_r in Ht as ->.
  simpl in Hk. subst k. exists raw. apply last_snoc.
Qed.

(** What is left to show after a page: the rest of the table. *)
Lemma upgraded_split fin todo n :
  (fin ++ (upgraded <$> take UPGRADE_CHUNK_SIZE todo) ++ (upgraded <$> drop UPGRADE_CHUNK_SIZE todo),
   n + upgraded_count (take UPGRADE_CHUNK_SIZE todo) + upgraded_count (drop UPGRADE_CHUNK_SIZE todo))
  = (fin ++ (upgraded <$> todo), n + upgraded_count todo).
Proof. rewrite <-fmap_app, <-Nat.add_assoc, <-count_app, take_drop. done. Qed.

Lemma cut_nodup last_id fin todo :
  cut last_id fin todo →
  NoDup (fin ++ take UPGRADE_CHUNK_SIZE todo ++ drop UPGRADE_CHUNK_SIZE todo).*1.
Proof. intros (_ & _ & _ & Hn). by rewrite take_drop. Qed.

(** Every row of a recovering table is upgraded on its own. *)
Lemma recovering_exact fuel last_id fin todo n :
  cut last_id fin todo → length todo < fuel →
  upgrade_table_recovering fuel last_id (fin ++ todo, n) = Some (fin ++ (upgraded <$> todo), n + upgraded_count todo).
Proof.
  revert last_id fin todo n. induction fuel as [|fuel IH]; intros last_id fin todo n Hc Hf; [lia|].
  cbn [upgrade_table_recovering fst]. rewrite (page_cut _ _ _ Hc). set (pg := take UPGRADE_CHUNK_SIZE todo).
  pose proof (cut_nodup _ _ _ Hc) as Hn.
  assert (last pg = None → (fin ++ todo, n) = (fin ++ (upgraded <$> todo), n + upgraded_count todo)) as Hempty.
  { intros He%last_None. apply take_nil_iff in He; [|unfold UPGRADE_CHUNK_SIZE; lia]. subst todo.
    cbn. by rewrite Nat.add_0_r. }
  assert (∀ l raw acc, last pg = Some (l, raw) →
    acc = (fin ++ (upgraded <$> pg) ++ drop UPGRADE_CHUNK_SIZE todo, n + upgraded_count pg) →
    (if length pg <? UPGRADE_CHUNK_SIZE then Some acc else upgrade_table_recovering fuel (Some l) acc) =
    Some (fin ++ (upgraded <$> todo), n + upgraded_count todo)) as Hgo.
  { intros l raw acc Hl ->. destruct (cut_next _ _ _ _ _ Hc Hl) as [Hc' Hlen].
    rewrite <-upgraded_split. fold pg. destruct (Nat.ltb_spec (length pg) UPGRADE_CHUNK_SIZE) as [Hs|_].
    - destruct (short_page _ _ Hs) as [_ ->]. cbn. by rewrite Nat.add_0_r.
    - rewrite (assoc_L app), IH by (done || lia). by rewrite <-(assoc_L app). }
  destruct (load_rows pg) as [es|] eqn:Hl.
  - pose proof (load_rows_ok _ _ Hl) as Hd. destruct (last es) as [[l e]|] eqn:El.
    + destruct (last_decoded _ _ _ _ Hd El) as [raw Hraw]. rewrite <-(Forall2_length _ _ _ Hd).
      apply (Hgo l raw); [done|]. rewrite <-(take_drop UPGRADE_CHUNK_SIZE todo) at 1. by apply fold_loaded.
    + f_equal. apply Hempty. apply last_None in El. subst es. by apply Forall2_nil_inv_r in Hd as ->.
  - destruct (last pg.*1) as [l|] eqn:El.
    + rewrite fmap_last in El. apply fmap_Some in El as ([k raw] & Hraw & ->). rewrite length_fmap.
      apply (Hgo k raw); [done|]. rewrite <-(take_drop UPGRADE_CHUNK_SIZE todo) at 1. by apply fold_recovered.
    + f_equal. apply Hempty. rewrite fmap_last in El. by destruct (last pg).
Qed.

(** A table that gives up on a page does as much when every row decodes, *)
Lemma simple_exact fuel last_id fin todo n :
  Forall (λ r, is_ok (decode r.2) = true) todo → cut last_id fin todo → length todo < fuel →
  upgrade_table fuel last_id (fin ++ todo, n) = Some (fin ++ (upgraded <$> todo), n + upgraded_count todo).
Proof.
  intros Hall Hc Hf. rewrite <-(recovering_exact fuel last_id fin todo n Hc Hf).
  clear Hf. revert last_id fin todo n Hall Hc. induction fuel as [|fuel IH]; intros last_id fin todo n Hall Hc; [done|].
  cbn [upgrade_table upgrade_table_recovering fst]. rewrite (page_cut _ _ _ Hc).
  destruct (load_rows_total (take UPGRADE_CHUNK_SIZE todo)) as [es Hl]; [by apply Forall_take|]. rewrite Hl.
  destruct (last es) as [[l e]|] eqn:El; [|done].
  destruct (last_decoded _ _ _ _ (load_rows_ok _ _ Hl) El) as [raw Hraw].
  destruct (length es <? UPGRADE_CHUNK_SIZE); [done|].
  replace (fin ++ todo) with (fin ++ take UPGRADE_CHUNK_SIZE todo ++ drop UPGRADE_CHUNK_SIZE todo) by (by rewrite take_drop).
  rewrite (fold_loaded _ _ _ _ _ Hl) by (by eapply cut_nodup). rewrite (assoc_L app).
  apply IH; [by apply Forall_drop|]. by destruct (cut_next _ _ _ _ _ Hc Hraw).
Qed.

(** the loop ends in any case, *)
Lemma simple_ends fuel last_id fin todo n :
  cut last_id fin todo → length todo < fuel → is_Some (upgrade_table fuel last_id (fin ++ todo, n)).
Proof.
  revert last_id fin todo n. induction fuel as [|fuel IH]; intros last_id fin todo n Hc Hf; [lia|].
  cbn [upgrade_table fst]. rewrite (page_cut _ _ _ Hc).
  destruct (load_rows (take UPGRADE_CHUNK_SIZE todo)) as [es|] eqn:Hl; [|by eexists].
  destruct (last es) as [[l e]|] eqn:El; [|by eexists].
  destruct (last_decoded _ _ _ _ (load_rows_ok _ _ Hl) El) as [raw Hraw].
  destruct (length es <? UPGRADE_CHUNK_SIZE); [by eexists|].
  replace (fin ++ todo) with (fin ++ take UPGRADE_CHUNK_SIZE todo ++ drop UPGRADE_CHUNK_SIZE todo) by (by rewrite take_drop).
  rewrite (fold_loaded _ _ _ _ _ Hl) by (by eapply cut_nodup). rewrite (assoc_L app).
  destruct (cut_next _ _ _ _ _ Hc Hraw) as [Hc' Hlen]. apply IH; [done|lia].
Qed.

(** and otherwise leaves the page of the first undecodable row, and all after it, alone:
    one such row among the first hundred stops the upgrade of the whole table. *)
Lemma undecodable_row_stops_table fuel t n :
  (∃ r, r ∈ take UPGRADE_CHUNK_SIZE t ∧ is_ok (decode r.2) = false) →
  upgrade_table (S fuel) None (t, n) = Some (t, n).
Proof.
  intros (r & Hr & Hd). cbn [upgrade_table fst]. change t with ([] ++ t) at 1. unfold page.
  rewrite (filter_every None ([] ++ t)) by (by apply Forall_true). cbn [app].
  destruct (load_rows (take UPGRADE_CHUNK_SIZE t)) as [es|] eqn:Hl; [|done].
  apply load_rows_ok in Hl. apply list_elem_of_lookup_1 in Hr as [i Hi].
  destruct (Forall2_lookup_l _ _ _ _ _ Hl Hi) as (a & _ & _ & Ha). by rewrite Ha in Hd.
Qed.

End Upgrade.

(** ** The columns with a recovering pass *)

Section Columns.
Context `{Aead} (sha256 : string → string) (from_json : string → Result string Value).

(** Reading and writing a column of the tables [plugin_configs], [plugin_type_settings] and
    [instance_plugin_setting]. *)
Definition plugin_decode (st : Crypto) (aad raw : string) : Result CryptoError EncryptedString :=
  c ← column_decode from_json st aad raw; Ok (inner c).
Definition plugin_encrypt (nonces : Uuid → string) (st : Crypto) (aad : string) (k : Uuid) (p : string)
    : Result CryptoError string :=
  c ← column_new from_json (nonces k) st aad p; Ok (db_value (inner c)).

Definition upgrade_plugin_table (st : Crypto) (aad : string) (nonces : Uuid → string) (writes : Uuid → bool)
    (t : Rows) : option (Rows * nat) :=
  upgrade_table_recovering (plugin_decode st aad) (plugin_encrypt nonces st aad) writes (S (length t)) None (t, 0).

Lemma plugin_decode_ok st aad raw e :
  plugin_decode st aad raw = Ok e ↔ decode_db_value st raw aad = Ok e ∧ is_ok (from_json (plaintext e)) = true.
Proof.
  unfold plugin_decode, column_decode. destruct (decode_db_value st raw aad) as [e'|]; cbn; [|naive_solver].
  destruct (from_json (plaintext e')) eqn:Ej; cbn; split; intros Hx; [by simplify_eq; rewrite Ej|naive_solver|done|].
  destruct Hx as [[= <-] Hj]. by rewrite Ej in Hj.
Qed.

Lemma plugin_encrypt_ok nonces st aad k p v :
  plugin_encrypt nonces st aad k p = Ok v → encrypt_str (nonces k) st p aad = Ok v.
Proof. intros (c & (j & _ & (e & (v' & Hv & [= <-])%bind_ok & [= <-])%bind_ok)%bind_ok & [= <-])%bind_ok. done. Qed.

(** A replacement decodes to the same secret, in the current format. *)
Lemma replacement_decodes st r aad nonces writes row v e :
  rings_ok sha256 st → DATA_KEY_RING st = Some r → PLAINTEXT_MODE st = false →
  str_len (nonces row.1) = 12 → is_utf8 row.2 → plugin_decode st aad row.2 = Ok e →
  replacement (plugin_decode st aad) (plugin_encrypt nonces st aad) writes row = Some v →
  plugin_decode st aad v = Ok (mkEncrypted (plaintext e) v) ∧ needs_v3_upgrade (mkEncrypted (plaintext e) v) = false.
Proof.
  intros Hok Hr Hp Hn Hu He. unfold replacement. rewrite He. destruct (needs_v3_upgrade e); [|done].
  destruct (plugin_encrypt nonces st aad row.1 (plaintext e)) as [w|] eqn:Ew; [|done].
  destruct (writes row.1); [|done]. intros [= <-]. apply plugin_encrypt_ok in Ew.
  apply plugin_decode_ok in He as [Hd Hj].
  assert (is_utf8 (plaintext e)) as Hup by (by eapply decode_utf8). split.
  - apply plugin_decode_ok. split; [|done]. by eapply (decode_written sha256 (nonces row.1)).
  - destruct (encrypt_str_cases sha256 _ _ _ _ _ Hok Hp Ew) as [(? & _ & _ & _ & rest & ->)|(? & Hno & _)]; [|congruence].
    unfold needs_v3_upgrade. cbn [db_value]. by rewrite starts_with_app.
Qed.

Lemma cut_start t : keys_sorted t → cut None [] t.
Proof.
  intros Hs. split_and!; [constructor|by apply Forall_true|done|]. cbn. induction Hs as [|r t _ IH Hr]; [constructor|].
  cbn. apply NoDup_cons. split; [|done]. intros (q & Hq & Hin)%list_elem_of_fmap.
  rewrite Forall_forall in Hr. specialize (Hr q Hin). rewrite Hq in Hr. by apply N.lt_irrefl in Hr.
Qed.

Lemma upgrade_plugin_exact st aad nonces writes t :
  keys_sorted t →
  upgrade_plugin_table st aad nonces writes t =
    Some (upgraded (plugin_decode st aad) (plugin_encrypt nonces st aad) writes <$> t,
          upgraded_count (plugin_decode st aad) (plugin_encrypt nonces st aad) writes t).
Proof.
  intros Hs. apply (recovering_exact _ _ writes (S (length t)) None [] t 0 (cut_start t Hs)). lia.
Qed.

(** What the upgrade of a row keeps and reaches. *)
Definition row_upgraded (st : Crypto) (aad : string) (nonces : Uuid → string) (writes : Uuid → bool)
    (row row' : Uuid * string) : Prop :=
  row'.1 = row.1
  ∧ match plugin_decode st aad row.2 with
    | Err _ => row'.2 = row.2
    | Ok e => ∃ e', plugin_decode st aad row'.2 = Ok e' ∧ plaintext e' = plaintext e
        ∧ (writes row.1 = true → is_ok (encrypt_str (nonces row.1) st (plaintext e) aad) = true →
             needs_v3_upgrade e' = false)
    end.

Lemma plugin_encrypt_total nonces st aad k p :
  is_ok (from_json p) = true → is_ok (encrypt_str (nonces k) st p aad) = true →
  is_ok (plugin_encrypt nonces st aad k p) = true.
Proof.
  unfold plugin_encrypt, column_new, encrypted_new. destruct (from_json p); [|done].
  by destruct (encrypt_str (nonces k) st p aad).
Qed.

Lemma upgraded_row st r aad nonces writes row :
  rings_ok sha256 st → DATA_KEY_RING st = Some r → PLAINTEXT_MODE st = false →
  str_len (nonces row.1) = 12 → is_utf8 row.2 →
  row_upgraded st aad nonces writes row (upgraded (plugin_decode st aad) (plugin_encrypt nonces st aad) writes row).
Proof.
  intros Hok Hr Hp Hn Hu. split; [done|]. unfold upgraded. cbn [snd].
  destruct (plugin_decode st aad row.2) as [e|] eqn:He; [|unfold replacement; by rewrite He].
  destruct (replacement (plugin_decode st aad) (plugin_encrypt nonces st aad) writes row) as [v|] eqn:Hv; cbn [default].
  - destruct (replacement_decodes st r aad nonces writes row v e) as [Hd Hneed]; try done.
    eexists. split; [exact Hd|]. done.
  - exists e. split_and!; [done..|]. intros Hw Henc. unfold replacement in Hv. rewrite He, Hw in Hv.
    destruct (needs_v3_upgrade e); [|done]. apply plugin_decode_ok in He as [_ Hj].
    pose proof (plugin_encrypt_total nonces st aad row.1 _ Hj Henc) as Ht.
    by destruct (plugin_encrypt nonces st aad row.1 (plaintext e)).
Qed.

(** Nothing is left to do for a row in the current format. *)
Lemma current_row st aad nonces writes row :
  (∀ e, plugin_decode st aad row.2 = Ok e → needs_v3_upgrade e = false) →
  replacement (plugin_decode st aad) (plugin_encrypt nonces st aad) writes row = None.
Proof. intros Hc. unfold replacement. destruct (plugin_decode st aad row.2); [by rewrite Hc|done]. Qed.

Lemma current_table st aad nonces writes t :
  keys_sorted t → Forall (λ row, ∀ e, plugin_decode st aad row.2 = Ok e → needs_v3_upgrade e = false) t →
  upgrade_plugin_table st aad nonces writes t = Some (t, 0).
Proof.
  intros Hs Ht. rewrite upgrade_plugin_exact by done. f_equal. clear Hs.
  induction Ht as [|row t Hr _ IH]; [done|]. rewrite count_cons.
  rewrite decide_False by (rewrite current_row by done; by intros [? ?]). cbn [fmap list_fmap].
  injection IH as IH1 IH2. rewrite IH1, IH2. f_equal. f_equal. unfold upgraded. rewrite current_row by done. by destruct row.
Qed.

Lemma sorted_upgraded decode encrypt writes t : keys_sorted t → keys_sorted (upgraded decode encrypt writes <$> t).
Proof.
  intros Hs. induction Hs as [|r t _ IH Hr]; cbn; constructor; [done|]. apply Forall_fmap.
  eapply Forall_impl; [exact Hr|]. done.
Qed.

(** the upgrade pass over a table of plugin configurations ends, visits every row and
    keeps every secret: each row that could be read before reads the same afterwards, in
    the current format wherever encrypting and writing succeeded; a row that could not be
    read stays as it was and stops no other. When all writes succeeded, a second pass
    changes nothing. *)
Theorem upgrade_preserves_secrets (st : Crypto) (r : DataKeyRing) (aad : string) (nonces : Uuid → string)
    (writes : Uuid → bool) (t : Rows) :
  rings_ok sha256 st → DATA_KEY_RING st = Some r → PLAINTEXT_MODE st = false →
  (∀ k, str_len (nonces k) = 12) → Forall (λ row, is_utf8 row.2) t → keys_sorted t →
  ∃ t' n, upgrade_plugin_table st aad nonces writes t = Some (t', n)
    ∧ Forall2 (row_upgraded st aad nonces writes) t t'
    ∧ ((∀ k, writes k = true) → (∀ k p, is_ok (encrypt_str (nonces k) st p aad) = true) →
         ∀ nonces' writes', upgrade_plugin_table st aad nonces' writes' t' = Some (t', 0)).
Proof.
  intros Hok Hr Hp Hn Hu Hs.
  set (up := upgraded (plugin_decode st aad) (plugin_encrypt nonces st aad) writes).
  assert (Forall (λ row, row_upgraded st aad nonces writes row (up row)) t) as Hrows.
  { eapply Forall_impl; [exact Hu|]. intros row Hrow. by eapply upgraded_row. }
  do 2 eexists. split; [by apply upgrade_plugin_exact|]. fold up. split.
  { clear Hu Hs. induction Hrows; constructor; auto. }
  intros Hw He nonces' writes'. apply current_table; [by apply sorted_upgraded|]. apply Forall_fmap.
  eapply Forall_impl; [exact Hrows|]. intros row [_ Hrow] e Hd. change (plugin_decode st aad (up row).2 = Ok e) in Hd.
  destruct (plugin_decode st aad row.2) as [e0|] eqn:E0.
  - destruct Hrow as (e' & He' & _ & Hneed). rewrite He' in Hd. simplify_eq. by apply Hneed.
  - rewrite Hrow in Hd. congruence.
Qed.

End Columns.

(** ** The whole pass *)

Definition AAD_CA_KEY_PEM : string := "uptrakit:ca_certificates:key_pem".
Definition AAD_OIDC_CLIENT_SECRET : string := "uptrakit:oidc_providers:client_secret".
Definition AAD_PKCE_VERIFIER : string := "uptrakit:pending_oidc_flows:pkce_verifier".
Definition AAD_NOTIFICATION_CONFIG : string := "uptrakit:notification_channels:config".
Definition AAD_SETTINGS_JWT_KEY : string := "uptrakit:settings:jwt_signing_key".
Definition AAD_SETTINGS_NATS_URL : string := "uptrakit:settings:nats_url".
Definition AAD_SETTINGS_SMTP_PASSWORD : string := "uptrakit:settings:smtp_password".
Definition AAD_SETTINGS_ENROLLMENT_TOKEN : string := "uptrakit:settings:system_services_enrollment_token".
Definition AAD_SETTINGS_GITHUB_PROVIDER_AUTH_TOKEN : string := "uptrakit:settings:global_provider_github_auth_token".
Definition AAD_PLUGIN_CONFIG : string := "uptrakit:plugin_configs:config".
Definition AAD_PLUGIN_TYPE_CONFIG : string := "uptrakit:plugin_type_settings:config".
Definition AAD_INSTANCE_PLUGIN_CONFIG : string := "uptrakit:instance_plugin_setting:config".

(** The entries of [register_column_aad_mappings]; [embedded] are those of the embedded SSH
    agent, where it is built in. *)
Definition column_entries (embedded : list ColumnAadEntry) : list ColumnAadEntry :=
  [mkEntry "ca_certificates" "key_pem" AAD_CA_KEY_PEM;
   mkEntry "oidc_providers" "client_secret" AAD_OIDC_CLIENT_SECRET;
   mkEntry "pending_oidc_flows" "pkce_verifier" AAD_PKCE_VERIFIER;
   mkEntry "notification_channels" "config" AAD_NOTIFICATION_CONFIG;
   mkEntry "user_totp" "secret" "uptrakit:user_totp:secret"] ++ embedded.

Definition register_column_aad_mappings (embedded : list ColumnAadEntry) (st : Crypto) : Crypto :=
  match MASTER_KEY st with
  | None => st
  | Some _ => match register_column_aad (column_entries embedded) st with Ok st' => st' | Err _ => st end
  end.

(** The stored secrets of the controller. Keys that are text in the database are
    numbered here in their order. *)
Record Stores := mkStores {
  ca_certificates : Rows; oidc_providers : Rows; pending_oidc_flows : Rows;
  notification_channels : Rows; plugin_configs : Rows; plugin_type_settings : Rows;
  instance_plugin_setting : Rows; global_settings : gmap string Value }.

Section Pass.
Context `{Aead} (from_json : string → Result string Value).
(** The random draws, by table or setting and key, and the writes that succeed. *)
Context (nonces : string → Uuid → string) (writes : string → Uuid → bool).
Context (setting_nonce : string → string) (setting_writes : string → bool).

(** A pass that gives up on a page. *)
Definition upgrade_column (st : Crypto) (table column aad : string) (t : Rows) : Rows * nat :=
  default (t, 0) (upgrade_table (try_get st column)
    (λ k p, e ← encrypted_new (nonces table k) st p aad; Ok (db_value e)) (writes table) (S (length t)) None (t, 0)).
(** A pass that recovers. *)
Definition upgrade_json (st : Crypto) (table aad : string) (t : Rows) : Rows * nat :=
  default (t, 0) (upgrade_plugin_table from_json st aad (nonces table) (writes table) t).

Definition upgrade_ca_certificate_keys (st : Crypto) : Rows → Rows * nat :=
  upgrade_column st "ca_certificates" "key_pem" AAD_CA_KEY_PEM.
Definition upgrade_oidc_client_secrets (st : Crypto) : Rows → Rows * nat :=
  upgrade_column st "oidc_providers" "client_secret" AAD_OIDC_CLIENT_SECRET.
Definition upgrade_oidc_flow_pkce_verifiers (st : Crypto) : Rows → Rows * nat :=
  upgrade_column st "pending_oidc_flows" "pkce_verifier" AAD_PKCE_VERIFIER.
Definition upgrade_notification_channel_configs (st : Crypto) : Rows → Rows * nat :=
  upgrade_column st "notification_channels" "config" AAD_NOTIFICATION_CONFIG.
Definition upgrade_plugin_configs (st : Crypto) : Rows → Rows * nat :=
  upgrade_json st "plugin_configs" AAD_PLUGIN_CONFIG.
Definition upgrade_plugin_type_settings (st : Crypto) : Rows → Rows * nat :=
  upgrade_json st "plugin_type_settings" AAD_PLUGIN_TYPE_CONFIG.
Definition upgrade_instance_plugin_settings (st : Crypto) : Rows → Rows * nat :=
  upgrade_json st "instance_plugin_setting" AAD_INSTANCE_PLUGIN_CONFIG.

(** [upgrade_setting] *)
Definition upgrade_setting (st : Crypto) (key aad : string) (m : gmap string Value) : gmap string Value * nat :=
  match m !! key with
  | Some (JString stored) =>
      if negb (is_encrypted stored) && str_is_empty stored then (m, 0)
      else if starts_with ENC_V3_PREFIX stored then (m, 0)
      else match decrypt_str st stored aad with
           | Err _ => (m, 0)
           | Ok p =>
               match encrypt_str (setting_nonce key) st p aad with
               | Err _ => (m, 0)
               | Ok v => if setting_writes key then (<[key := JString v]> m, 1) else (m, 0)
               end
           end
  | _ => (m, 0)
  end.

Definition setting_passes : list (string * string) :=
  [("auth.jwt_signing_key", AAD_SETTINGS_JWT_KEY); ("nats.url", AAD_SETTINGS_NATS_URL);
   ("smtp.password", AAD_SETTINGS_SMTP_PASSWORD);
   ("global_provider_github.auth_token", AAD_SETTINGS_GITHUB_PROVIDER_AUTH_TOKEN);
   ("system_services.enrollment_token", AAD_SETTINGS_ENROLLMENT_TOKEN)].

Definition upgrade_settings (st : Crypto) (m : gmap string Value) : gmap string Value * nat :=
  foldl (λ acc ka, let '(m, n) := upgrade_setting st ka.1 ka.2 acc.1 in (m, acc.2 + n)) (m, 0) setting_passes.

(** [reencrypt_to_v3]: the stores and the number of upgraded values. *)
Definition reencrypt_to_v3 (st : Crypto) (s : Stores) : Stores * nat :=
  match MASTER_KEY st with
  | None => (s, 0)
  | Some _ =>
      let '(ca, n1) := upgrade_ca_certificate_keys st (ca_certificates s) in
      let '(oidc, n2) := upgrade_oidc_client_secrets st (oidc_providers s) in
      let '(flows, n3) := upgrade_oidc_flow_pkce_verifiers st (pending_oidc_flows s) in
      let '(chans, n4) := upgrade_notification_channel_configs st (notification_channels s) in
      let '(pc, n5) := upgrade_plugin_configs st (plugin_configs s) in
      let '(pts, n6) := upgrade_plugin_type_settings st (plugin_type_settings s) in
      let '(ips, n7) := upgrade_instance_plugin_settings st (instance_plugin_setting s) in
      let '(settings, n8) := upgrade_settings st (global_settings s) in
      (mkStores ca oidc flows chans pc pts ips settings, n1 + n2 + n3 + n4 + n5 + n6 + n7 + n8)
  end.

(** The columns are read with the data they are encrypted with. *)
Lemma aad_map_spec entries m m' :
  aad_map entries m = Ok m' → m ⊆ m' ∧ ∀ e, e ∈ entries → m' !! e_column e = Some (e_aad e).
Proof.
  revert m. induction entries as [|e entries IH]; intros m; cbn [aad_map]; [by intros [= <-]; split; [|set_solver]|].
  destruct (m !! e_column e) as [x|] eqn:Hm; [done|]. intros [Hsub Hall]%IH. split.
  - etrans; [|exact Hsub]. by apply insert_subseteq.
  - intros e' [->|Hin]%elem_of_cons; [|by apply Hall].
    eapply lookup_weaken; [|exact Hsub]. apply lookup_insert_eq.
Qed.

Lemma registered_columns embedded st k :
  MASTER_KEY st = Some k → COLUMN_AAD_REGISTRY st = None →
  is_ok (aad_map (column_entries embedded) ∅) = true →
  let st' := register_column_aad_mappings embedded st in
  column_aad st' "key_pem" = Some AAD_CA_KEY_PEM ∧ column_aad st' "client_secret" = Some AAD_OIDC_CLIENT_SECRET
  ∧ column_aad st' "pkce_verifier" = Some AAD_PKCE_VERIFIER ∧ column_aad st' "config" = Some AAD_NOTIFICATION_CONFIG.
Proof.
  intros Hk Hr Hok. simpl. unfold register_column_aad_mappings. rewrite Hk. unfold register_column_aad.
  destruct (aad_map (column_entries embedded) ∅) as [m|] eqn:Hm; [|done]. rewrite Hr.
  destruct (aad_map_spec _ _ _ Hm) as [_ Hall]. unfold column_aad. cbn.
  split_and!; [apply (Hall (mkEntry "ca_certificates" "key_pem" AAD_CA_KEY_PEM))
              |apply (Hall (mkEntry "oidc_providers" "client_secret" AAD_OIDC_CLIENT_SECRET))
              |apply (Hall (mkEntry "pending_oidc_flows" "pkce_verifier" AAD_PKCE_VERIFIER))
              |apply (Hall (mkEntry "notification_channels" "config" AAD_NOTIFICATION_CONFIG))];
    unfold column_entries; set_solver.
Qed.

(** The fuel of the passes is enough. *)
Lemma upgrade_column_ends st table column aad t :
  keys_sorted t →
  upgrade_table (try_get st column) (λ k p, e ← encrypted_new (nonces table k) st p aad; Ok (db_value e))
    (writes table) (S (length t)) None (t, 0) = Some (upgrade_column st table column aad t).
Proof.
  intros Hs. unfold upgrade_column.
  destruct (simple_ends (try_get st column) (λ k p, e ← encrypted_new (nonces table k) st p aad; Ok (db_value e))
    (writes table) (S (length t)) None [] t 0 (cut_start t Hs) ltac:(lia)) as [res Hres].
  change ([] ++ t) with t in Hres. by rewrite Hres.
Qed.

(** A setting keeps its secret, whether or not it is upgraded. *)
Lemma setting_keeps_secret sha256 st key aad m stored p :
  rings_ok sha256 st → PLAINTEXT_MODE st = false → str_len (setting_nonce key) = 12 → is_utf8 stored →
  m !! key = Some (JString stored) → decrypt_str st stored aad = Ok p →
  ∃ stored', (upgrade_setting st key aad m).1 !! key = Some (JString stored') ∧ decrypt_str st stored' aad = Ok p.
Proof.
  intros Hok Hp Hn Hu Hm Hd. unfold upgrade_setting. rewrite Hm.
  destruct (_ && _); [by eauto|]. destruct (starts_with _ _); [by eauto|]. rewrite Hd.
  destruct (encrypt_str (setting_nonce key) st p aad) as [v|] eqn:Ev; [|by eauto].
  destruct (setting_writes key); [|by eauto]. exists v. cbn [fst]. split; [apply lookup_insert_eq|].
  destruct (decrypt_encrypted sha256 (setting_nonce key) st st p aad v) as [Hv _]; try done.
  - split; [done|]. intros r Hr. by exists r.
  - by eapply decrypt_utf8.
Qed.

End Pass.
