(* ===== verification/CryptoWitnesses.v ===== *)
(** Encryption at rest on concrete keys: a toy cipher that meets [Aead], a ring before and
    after a rotation, and a table with legacy, current and undecodable rows. *)

From Stdlib Require Import Ascii.
From stdpp Require Import base list gmap sets strings numbers sorting.
From S2P Require Import Prelude RustStr Json Hex ConfigLoader Crypto CryptoTheorems CryptoBoot Reencrypt.

Module CryptoDemo.

(** ** A cipher *)

(** The text followed by a tag of 16 characters. *)
Section Tagged.
Context (tag_of : string → string → string → string → string) (tag_len : ∀ k n a p, str_len (tag_of k n a p) = 16).

Definition tagged_open (k n a c : string) : option string :=
  let p := str_take (str_len c - 16) c in
  if decide (c = p +:+ tag_of k n a p) then Some p else None.

Definition tagged_aead : Aead.
Proof.
  refine {| seal k n a p := Ok (p, tag_of k n a p); open := tagged_open |}.
  - intros k n a p ct tag [= <- <-]. apply tag_len.
  - intros k n a c p. unfold tagged_open. split.
    + case_decide as Hc; [|done]. intros [= <-]. eauto.
    + intros (ct & tag & [= <- <-] & ->). rewrite str_len_app, tag_len, Nat.add_sub, str_take_app.
      by rewrite decide_True.
Defined.
End Tagged.

Definition tag_of (k n a p : string) : string := str_take 16 (a +:+ p +:+ k +:+ n +:+ "0000000000000000").
Lemma tag_len k n a p : str_len (tag_of k n a p) = 16.
Proof. apply str_take_len. rewrite !str_len_app. change (str_len "0000000000000000") with 16. lia. Qed.
#[global] Instance toy_aead : Aead := tagged_aead tag_of tag_len.

Definition sha (s : string) : string := s.

(** ** Keys *)

Definition kek : string := "mmmmmmmmmmmmmmmmmmmmmmmmmmmmmmmm".
Definition new_kek : string := "nnnnnnnnnnnnnnnnnnnnnnnnnnnnnnnn".
Definition dek1 : string := "k1k1k1k1k1k1k1k1k1k1k1k1k1k1k1k1".
Definition dek2 : string := "k2k2k2k2k2k2k2k2k2k2k2k2k2k2k2k2".
Definition nonce : string := "nonce-123456".
Definition aad : string := "uptrakit:plugin_configs:config".

Definition ring1 : DataKeyRing := mkRing {[compute_key_id sha dek1 := dek1]} (compute_key_id sha dek1).
Definition ring2 : DataKeyRing :=
  mkRing {[compute_key_id sha dek1 := dek1; compute_key_id sha dek2 := dek2]} (compute_key_id sha dek2).
Definition st1 : Crypto := mkCrypto (Some kek) false (Some ring1) None.
Definition st2 : Crypto := mkCrypto (Some kek) false (Some ring2) (Some {["config" := aad]}).

Lemma st1_ok : rings_ok sha st1.
Proof.
  intros r [= <-]. split; [vm_compute; by eexists|]. intros id k Hk. cbn [keys ring1] in Hk.
  apply lookup_singleton_Some in Hk as [<- <-]. done.
Qed.

Definition secret : string := match encrypt_str nonce st1 "{}" aad with Ok s => s | Err _ => "" end.

Lemma secret_roundtrip_witness :
  decrypt_str st2 secret aad = Ok "{}" ∧ try_get st2 "config" secret = Ok (mkEncrypted "{}" secret).
Proof.
  destruct (secret_roundtrip sha nonce st1 st2 "{}" aad secret) as (_ & Hd & Hc & _).
  - exact st1_ok.
  - split; [done|]. intros r [= <-]. exists ring2. split; [done|]. apply map_subseteq_spec.
    intros id k Hk. cbn [keys ring1] in Hk. apply lookup_singleton_Some in Hk as [<- <-]. vm_compute. reflexivity.
  - reflexivity.
  - reflexivity.
  - reflexivity.
  - vm_compute. reflexivity.
  - split; [exact Hd|]. apply Hc. vm_compute. reflexivity.
Defined.

(** ** Rotation *)

Definition fresh (k : string) : Crypto := mkCrypto (Some k) false None None.
Definition row : Dek :=
  match first_dek sha (fresh kek) (fingerprint sha kek) 1%N nonce dek1 0 with
  | Ok r => r | Err _ => mkDek 0%N "" "" "" "" 0 None
  end.
Definition boot (k : string) (rows : list Dek) : Crypto :=
  (build_and_init_ssh_ring sha rows (fingerprint sha k) (fresh k)).2.
Definition running : Crypto := boot kek [row].
Definition rotation : RotationOutcome * list Dek :=
  rotate_ssh_master_key sha running (Some (Hex.encode new_kek)) [nonce] true [row].
Definition old_secret : string := match encrypt_str nonce running "token" aad with Ok s => s | Err _ => "" end.

(** After the rotation the new key reads the secret, and the old one starts without a ring. *)
Lemma rotation_keeps_secrets_witness :
  rotation.1 = RotationComplete 1 ∧
  decrypt_str (boot new_kek rotation.2) old_secret aad = Ok "token" ∧
  decrypt_str (boot kek rotation.2) old_secret aad = Err NotInitialized.
Proof.
  split; [vm_compute; reflexivity|].
  destruct (rotation_keeps_secrets sha running kek (Some (Hex.encode new_kek)) [nonce] true [row] rotation.2 rotation.1)
    as (_ & _ & Hdone).
  - exists (fresh kek). split_and!; [reflexivity..|]. vm_compute. reflexivity.
  - by repeat constructor.
  - simpl. lia.
  - done.
  - vm_compute. reflexivity.
  - destruct (Hdone 1) as (contents & k & Hc & Hk & _ & _ & Hread); [vm_compute; reflexivity|].
    assert (k = new_kek) as -> by (injection Hc as <-; vm_compute in Hk; by injection Hk).
    destruct (Hread nonce "token" aad old_secret) as [Hnew Hold]; [reflexivity|reflexivity|vm_compute; reflexivity|].
    destruct (Hnew (fresh new_kek) eq_refl eq_refl) as (st' & Hst' & Hdec).
    destruct (Hold (fresh kek) eq_refl eq_refl) as (id & Hst0 & Hno).
    unfold boot. rewrite Hst', Hst0. split; [exact Hdec|exact Hno].
Defined.

(** ** Upgrade *)

Definition from_json (s : string) : Result string Value := Ok (JString s).
Definition legacy : string := match encrypt_value_v2 nonce kek "[2]" aad with Ok s => s | Err _ => "" end.
Definition rows : list (Uuid * string) := [(1%N, "[1]"); (2%N, "ENC:v3:unknown:00"); (3%N, legacy); (4%N, secret)].

Lemma upgrade_preserves_secrets_witness :
  ∃ t' n, upgrade_plugin_table from_json st1 aad (λ _, nonce) (λ _, true) rows = Some (t', n)
    ∧ upgrade_plugin_table from_json st1 aad (λ _, nonce) (λ _, true) t' = Some (t', 0).
Proof.
  destruct (upgrade_preserves_secrets sha from_json st1 ring1 aad (λ _, nonce) (λ _, true) rows)
    as (t' & n & Hup & _ & Hagain).
  - exact st1_ok.
  - reflexivity.
  - reflexivity.
  - reflexivity.
  - repeat constructor; vm_compute; reflexivity.
  - repeat constructor; vm_compute; reflexivity.
  - exists t', n. split; [exact Hup|]. apply Hagain; [done|]. intros k p. reflexivity.
Defined.

(** What the pass does to these rows: two are rewritten, the undecodable one stays. *)
Definition read_back (r : Uuid * string) : option (string * bool) :=
  match plugin_decode from_json st1 aad r.2 with Ok e => Some (plaintext e, needs_v3_upgrade e) | Err _ => None end.

Lemma rows_upgraded :
  (read_back <$> rows) = [Some ("[1]", true); None; Some ("[2]", true); Some ("{}", false)]
  ∧ (λ res : list (Uuid * string) * nat, (read_back <$> res.1, res.2)) <$>
      upgrade_plugin_table from_json st1 aad (λ _, nonce) (λ _, true) rows
    = Some ([Some ("[1]", false); None; Some ("[2]", false); Some ("{}", false)], 2).
Proof. by vm_compute. Qed.

End CryptoDemo.
