(* ===== verification/Ecies.v ===== *)
(** Sealed boxes ([crates/shared/crypto/src/ecies.rs]): parameters encrypted for the key of one
    service. Key agreement on P-256, SHA-256 and base64 are parameters, the cipher is the class
    [Aead] of [Crypto]; the ephemeral key and the nonce are what the random generator gave. *)

From Stdlib Require Import Ascii.
From stdpp Require Import base list strings numbers pretty.
From S2P Require Import Prelude RustStr Hex ConfigLoader Crypto CryptoTheorems CryptoWitnesses.
Local Open Scope nat_scope.

Module Ecies.

Definition P256_UNCOMPRESSED_PUBLIC_KEY_LEN : nat := 65.
Definition NONCE_LEN : nat := 12.
Definition TAG_LEN : nat := 16.
Definition MIN_SEALED_LEN : nat := P256_UNCOMPRESSED_PUBLIC_KEY_LEN + NONCE_LEN + TAG_LEN.

(** Diffie-Hellman on the curve: a public key is 65 bytes, agreement fails on what is no point,
    and both sides agree on the same secret. *)
Class KeyAgreement := {
  PrivateKey : Type;
  public : PrivateKey → string;
  from_private_key_der : string → Result string PrivateKey;
  agree : PrivateKey → string → option string;
  public_len : ∀ k, str_len (public k) = P256_UNCOMPRESSED_PUBLIC_KEY_LEN;
  agree_public : ∀ a b, ∃ s, agree a (public b) = Some s ∧ agree b (public a) = Some s }.

(** Standard base64: decoding inverts encoding. *)
Class Base64 := {
  b64_encode : string → string;
  b64_decode : string → Result string string;
  b64_roundtrip : ∀ s, b64_decode (b64_encode s) = Ok s }.

Section Sealed.
Context `{Aead} `{KeyAgreement} `{Base64} (sha256 : string → string).

(** [ephemeral] is the outcome of generating the key pair. *)
Definition sealed_box_encrypt (ephemeral : Result string PrivateKey) (nonce plaintext recipient_public_key : string)
    : Result CryptoError string :=
  if negb (str_len recipient_public_key =? P256_UNCOMPRESSED_PUBLIC_KEY_LEN)
  then Err (Encryption ("recipient public key must be 65 bytes (uncompressed P-256), got "
                        +:+ pretty (N.of_nat (str_len recipient_public_key))))
  else match ephemeral with
       | Err e => Err (Encryption ("ephemeral keygen: " +:+ e))
       | Ok private =>
           let ephemeral_public := public private in
           match agree private recipient_public_key with
           | None => Err (Encryption "ECDH agreement failed")
           | Some secret =>
               match seal (sha256 secret) nonce ephemeral_public plaintext with
               | Err e => Err (Encryption ("AES-GCM seal: " +:+ e))
               | Ok (ct, tag) => Ok (ephemeral_public +:+ nonce +:+ ct +:+ tag)
               end
           end
       end.

Definition sealed_box_decrypt (sealed private_key_pkcs8_der : string) : Result CryptoError string :=
  if str_len sealed <? MIN_SEALED_LEN then Err CiphertextTooShort
  else
    let ephemeral_public := str_take P256_UNCOMPRESSED_PUBLIC_KEY_LEN sealed in
    let rest := str_drop P256_UNCOMPRESSED_PUBLIC_KEY_LEN sealed in
    match from_private_key_der private_key_pkcs8_der with
    | Err e => Err (Decryption ("parse private key: " +:+ e))
    | Ok private =>
        match agree private ephemeral_public with
        | None => Err (Decryption "ECDH agreement failed")
        | Some secret =>
            match open (sha256 secret) (str_take NONCE_LEN rest) ephemeral_public (str_drop NONCE_LEN rest) with
            | Some p => Ok p
            | None => Err (Decryption "wrong key or tampered sealed box")
            end
        end
    end.

Definition sealed_box_encrypt_base64 (ephemeral : Result string PrivateKey) (nonce plaintext key_base64 : string)
    : Result CryptoError string :=
  public_key ← map_err (λ e, Encryption ("base64 decode public key: " +:+ e)) (b64_decode key_base64);
  sealed ← sealed_box_encrypt ephemeral nonce plaintext public_key;
  Ok (b64_encode sealed).
Definition sealed_box_decrypt_base64 (sealed_base64 private_key_pkcs8_der : string) : Result CryptoError string :=
  sealed ← map_err (λ e, Decryption ("base64 decode sealed box: " +:+ e)) (b64_decode sealed_base64);
  plaintext ← sealed_box_decrypt sealed private_key_pkcs8_der;
  map_err (λ e, Decryption ("invalid UTF-8: " +:+ e)) (from_utf8 plaintext).

(** ** Lemmas *)

(** The parts of a box. *)
Lemma sealed_split e n c :
  str_len e = P256_UNCOMPRESSED_PUBLIC_KEY_LEN → str_len n = NONCE_LEN →
  str_take P256_UNCOMPRESSED_PUBLIC_KEY_LEN (e +:+ n +:+ c) = e ∧
  str_take NONCE_LEN (str_drop P256_UNCOMPRESSED_PUBLIC_KEY_LEN (e +:+ n +:+ c)) = n ∧
  str_drop NONCE_LEN (str_drop P256_UNCOMPRESSED_PUBLIC_KEY_LEN (e +:+ n +:+ c)) = c.
Proof. intros <- <-. by rewrite str_take_app, str_drop_app, str_take_app, str_drop_app. Qed.

(** What a box is, for who opens it. *)
Lemma decrypt_inv sealed der p :
  sealed_box_decrypt sealed der = Ok p →
  ∃ private e secret n ct tag,
    from_private_key_der der = Ok private ∧ agree private e = Some secret ∧
    seal (sha256 secret) n e p = Ok (ct, tag) ∧ sealed = e +:+ n +:+ ct +:+ tag.
Proof.
  unfold sealed_box_decrypt. destruct (_ <? _); [done|].
  destruct (from_private_key_der der) as [private|] eqn:Hk; [|done].
  destruct (agree private _) as [secret|] eqn:Ha; [|done]. destruct (open _ _ _ _) as [p'|] eqn:Ho; [|done].
  intros [= <-]. apply open_iff in Ho as (ct & tag & Hs & Hc).
  eexists private, _, secret, _, ct, tag. split; [done|]. split; [exact Ha|]. split; [exact Hs|].
  rewrite <-Hc. by rewrite !str_take_drop.
Qed.

(** C26: a sealed box opens to what was sealed, and only for its recipient. A text sealed for
    the public key of a service, which works if the cipher does, is read back by the
    service's private key, whatever the ephemeral key and the nonce were; and whatever opens under a private key was sealed
    under the secret which that key shares with the box's ephemeral key, with exactly the
    nonce, the ephemeral key and the text the box carries. *)
Theorem sealed_box_roundtrip :
  (∀ der private ephemeral nonce text secret,
     from_private_key_der der = Ok private → str_len nonce = NONCE_LEN → from_utf8 text = Ok text →
     agree ephemeral (public private) = Some secret →
     is_ok (seal (sha256 secret) nonce (public ephemeral) text) = true →
     ∃ sealed, sealed_box_encrypt_base64 (Ok ephemeral) nonce text (b64_encode (public private)) = Ok sealed ∧
       sealed_box_decrypt_base64 sealed der = Ok text) ∧
  (∀ sealed der text, sealed_box_decrypt_base64 sealed der = Ok text →
     ∃ raw private e secret n ct tag,
       b64_decode sealed = Ok raw ∧ raw = e +:+ n +:+ ct +:+ tag ∧ from_private_key_der der = Ok private ∧
       agree private e = Some secret ∧ seal (sha256 secret) n e text = Ok (ct, tag)).
Proof.
  split.
  - intros der private eph nonce text secret Hk Hn Hu Ha Hseal. unfold sealed_box_encrypt_base64.
    rewrite b64_roundtrip. cbn [map_err mbind Result_bind]. unfold sealed_box_encrypt.
    rewrite public_len, Nat.eqb_refl. cbn [negb]. rewrite Ha.
    assert (agree private (public eph) = Some secret) as Hb.
    { destruct (agree_public eph private) as (s & Ha' & Hb). congruence. }
    destruct (seal _ _ _ _) as [[ct tag]|] eqn:Hs; [|done]. cbn [mbind Result_bind]. eexists. split; [done|].
    unfold sealed_box_decrypt_base64. rewrite b64_roundtrip. cbn [map_err mbind Result_bind].
    pose proof (seal_tag _ _ _ _ _ _ Hs) as Ht. unfold sealed_box_decrypt.
    destruct (sealed_split (public eph) nonce (ct +:+ tag) (public_len eph) Hn) as (-> & -> & ->).
    assert (str_len (public eph +:+ nonce +:+ ct +:+ tag) <? MIN_SEALED_LEN = false) as ->.
    { apply Nat.ltb_ge. rewrite !str_len_app, public_len, Hn, Ht. unfold MIN_SEALED_LEN, TAG_LEN. lia. }
    rewrite Hk, Hb. assert (open (sha256 secret) nonce (public eph) (ct +:+ tag) = Some text) as ->.
    { apply open_iff. by exists ct, tag. }
    cbn [mbind Result_bind]. by rewrite Hu.
  - intros sealed der text. unfold sealed_box_decrypt_base64. destruct (b64_decode sealed) as [raw|]; [|done].
    cbn [map_err mbind Result_bind]. destruct (sealed_box_decrypt raw der) as [p|] eqn:Hd; [|done]. cbn [mbind Result_bind].
    unfold from_utf8. destruct (utf8_error 0 p); [done|]. intros [= <-].
    apply decrypt_inv in Hd as (private & e & secret & n & ct & tag & ? & ? & ? & ->).
    by exists (e +:+ n +:+ ct +:+ tag), private, e, secret, n, ct, tag.
Qed.
End Sealed.
End Ecies.

(** A toy curve of two keys and base64 as the identity: a box goes round, and a box whose
    ephemeral key was replaced does not open. *)
Module EciesDemo.
Import Ecies CryptoDemo.

Definition toy_public (k : bool) : string :=
  (if k then "B" else "A") +:+ "0123456789abcdef0123456789abcdef0123456789abcdef0123456789abcdef".
Definition toy_agree (k : bool) (p : string) : option string :=
  if decide (p = toy_public true) then Some (if xorb k true then "s" else "t")
  else if decide (p = toy_public false) then Some (if xorb k false then "s" else "t") else None.
Definition toy_der (der : string) : Result string bool :=
  if decide (der = "a") then Ok false else if decide (der = "b") then Ok true else Err "invalid".

#[local] Instance toy_curve : KeyAgreement.
Proof.
  refine {| PrivateKey := bool; public := toy_public; from_private_key_der := toy_der; agree := toy_agree |}.
  - by intros [].
  - intros [] []; vm_compute; eauto.
Defined.
#[local] Instance toy_base64 : Base64 := {| b64_encode s := s; b64_decode s := Ok s; b64_roundtrip s := eq_refl |}.

Definition text : string := "{}".
Definition box : string := toy_public false +:+ nonce +:+ text +:+ tag_of (sha "s") nonce (toy_public false) text.

Lemma sealed_box_roundtrip_witness :
  (∃ sealed, sealed_box_encrypt_base64 sha (Ok false) nonce text (toy_public true) = Ok sealed ∧
     sealed_box_decrypt_base64 sha sealed "b" = Ok text) ∧
  ∃ e n, box = e +:+ n +:+ text +:+ tag_of (sha "s") n e text.
Proof.
  split.
  - apply (proj1 (@sealed_box_roundtrip toy_aead toy_curve toy_base64 sha) "b" true false nonce text "s"); reflexivity.
  - destruct (proj2 (@sealed_box_roundtrip toy_aead toy_curve toy_base64 sha) box "b" text) as (raw & k & e & s & n & ct & tag & Hr & Hraw & Hk & Ha & Hs);
      [vm_compute; reflexivity|].
    exists (toy_public false), nonce. reflexivity.
Defined.

Example box_of_another_sender :
  sealed_box_decrypt_base64 sha box "b" = Ok text ∧
  sealed_box_decrypt_base64 sha (toy_public true +:+ str_drop 65 box) "b" = Err (Decryption "wrong key or tampered sealed box").
Proof. by vm_compute. Qed.
End EciesDemo.
