(* ===== verification/SurfaceTypes.v ===== *)
(** The vocabulary of plugin surfaces ([crates/shared/surfaces]): identifiers, slots,
    node trees, interactions, data sources and registrations, with the checks each of
    them carries. All of them have decidable equality: contract collisions compare
    whole descriptors. *)

From Stdlib Require Import Ascii.
From stdpp Require Import base list gmap sets strings numbers pretty.
From S2P Require Import Prelude RustStr Json.

(** ** Identifiers ([ids.rs]) *)

Definition MAX_IDENTIFIER_LEN : nat := 128.

Inductive IdentifierError :=
| IdEmpty
| IdTooLong
| IdInvalidStart
| IdInvalidCharacter (ch : string) (index : nat).

Definition identifier_char (c : ascii) : bool :=
  is_ascii_lowercase c || is_ascii_digit c
  || Ascii.eqb c "." || Ascii.eqb c "_" || Ascii.eqb c "-".

(** The loop over [char_indices] after the first character. *)
Fixpoint identifier_loop (index : nat) (s : string) : Result IdentifierError unit :=
  match s with
  | EmptyString => Ok tt
  | String c s' =>
      if identifier_char c then identifier_loop (S index) s'
      else Err (IdInvalidCharacter (first_char s) index)
  end.

Definition validate_surface_identifier (value : string) : Result IdentifierError unit :=
  match value with
  | EmptyString => Err IdEmpty
  | String first rest =>
      if MAX_IDENTIFIER_LEN <? str_len value then Err IdTooLong
      else if negb (is_ascii_lowercase first) then Err IdInvalidStart
      else identifier_loop 1 rest
  end.

Definition display_identifier_error (e : IdentifierError) : string :=
  match e with
  | IdEmpty => "identifier cannot be empty"
  | IdTooLong => "identifier exceeds maximum length of " +:+ pretty MAX_IDENTIFIER_LEN +:+ " bytes"
  | IdInvalidStart => "identifier must start with an ASCII lowercase letter"
  | IdInvalidCharacter ch index =>
      "identifier contains invalid character `" +:+ ch +:+ "` at byte index " +:+ pretty index
  end.

(** The constructor of every identifier type ([SurfaceId], [InteractionId],
    [DataSourceId], [ControllerQueryId], [SurfaceTabId], [ControllerSseTopicId]): the
    validated string. Values of these types below are their strings. *)
Definition identifier_new (value : string) : Result IdentifierError string :=
  _ ← validate_surface_identifier value; Ok value.

(** ** Slots ([slot.rs]) *)

Record SurfaceSlotDef := mkSlotDef {
  slot_id : string; multi_entry : bool;
  provider_priority_min : Z; provider_priority_max : Z }.

Definition SLOT_SETTINGS_TABS : string := "settings.tabs".
Definition SLOT_SETTINGS_BELOW_GLOBAL : string := "settings.below.global".
Definition SLOT_SOFTWARE_TABS : string := "software.tabs".
Definition SLOT_HOST_DETAIL_TABS : string := "host_detail.tabs".
Definition SLOT_SOFTWARE_ITEM_TABS : string := "software_item.tabs".
Definition SLOT_SOFTWARE_ITEM_HOST_CONTEXT_MENU : string := "software_item.host_context_menu".
Definition SLOT_SURFACE_PAGE : string := "surface.page".

Definition SURFACE_SLOT_DEFS : list SurfaceSlotDef := [
  mkSlotDef SLOT_SETTINGS_TABS true 100 999;
  mkSlotDef SLOT_SETTINGS_BELOW_GLOBAL true 100 999;
  mkSlotDef SLOT_SOFTWARE_TABS true 100 999;
  mkSlotDef SLOT_HOST_DETAIL_TABS true 100 999;
  mkSlotDef SLOT_SOFTWARE_ITEM_TABS true 100 999;
  mkSlotDef SLOT_SOFTWARE_ITEM_HOST_CONTEXT_MENU false 100 999;
  mkSlotDef SLOT_SURFACE_PAGE false 100 999 ].

Definition slot_def (s : string) : option SurfaceSlotDef :=
  List.find (λ d, bool_decide (slot_id d = s)) SURFACE_SLOT_DEFS.

Inductive SlotValidationError :=
| InvalidIdentifier (e : IdentifierError)
| UnknownSlot (s : string).

Definition validate_slot_id (s : string) : Result SlotValidationError SurfaceSlotDef :=
  _ ← map_err InvalidIdentifier (validate_surface_identifier s);
  match slot_def s with Some d => Ok d | None => Err (UnknownSlot s) end.

Definition display_slot_error (e : SlotValidationError) : string :=
  match e with
  | InvalidIdentifier e => display_identifier_error e
  | UnknownSlot s => "slot `" +:+ s +:+ "` is not declared in the slot registry"
  end.

(** ** Icon names ([validation.rs]) *)

Definition MAX_ICON_NAME_LEN : nat := 64.

Inductive IconNameError := IconEmpty | IconTooLong | IconInvalidFormat.

Definition icon_char (c : ascii) : bool :=
  is_ascii_lowercase c || is_ascii_digit c || Ascii.eqb c "-".

(** The bytes between the first and the last, and the last one. *)
Fixpoint icon_tail (s : string) : bool :=
  match s with
  | EmptyString => false
  | String last EmptyString => is_ascii_lowercase last || is_ascii_digit last
  | String c s' => icon_char c && icon_tail s'
  end.

Definition validate_icon_name (name : string) : Result IconNameError unit :=
  match name with
  | EmptyString => Err IconEmpty
  | String first rest =>
      if MAX_ICON_NAME_LEN <? str_len name then Err IconTooLong
      else if is_ascii_lowercase first && icon_tail rest then Ok tt
      else Err IconInvalidFormat
  end.

Definition display_icon_error (e : IconNameError) : string :=
  match e with
  | IconEmpty => "icon name must not be empty"
  | IconTooLong => "icon name exceeds " +:+ pretty MAX_ICON_NAME_LEN +:+ " characters"
  | IconInvalidFormat =>
      "icon name must match lucide kebab-case (lowercase letters, digits, hyphens)"
  end.

(** ** Small enumerations *)

Inductive Targeting := Universal | Targeted.
Inductive Scope := Global | TenantScope.
Inductive ProviderKind := BuiltIn | Plugin | Service.
Inductive InteractionKind :=
  MutationAction | FormSubmit | Workflow | Navigate | DataLoad | ConfirmableAction.
Inductive InteractionTransport := ControllerLocal | ProviderProxied.
Inductive SchemaContract :=
  SAny | SObject | SArray | SString | SInteger | SNumber | SBoolean | SNull.
Inductive CalloutLevel := CalloutInfo | CalloutWarning | CalloutDanger.
Inductive ConfirmationSeverity := SeverityInfo | SeverityWarning | SeverityDanger.
Inductive SurfaceRowCondition := Present | Absent.

#[global] Instance Targeting_eq_dec : EqDecision Targeting.
Proof. solve_decision. Defined.
#[global] Instance Scope_eq_dec : EqDecision Scope.
Proof. solve_decision. Defined.
#[global] Instance ProviderKind_eq_dec : EqDecision ProviderKind.
Proof. solve_decision. Defined.
#[global] Instance InteractionKind_eq_dec : EqDecision InteractionKind.
Proof. solve_decision. Defined.
#[global] Instance InteractionTransport_eq_dec : EqDecision InteractionTransport.
Proof. solve_decision. Defined.
#[global] Instance SchemaContract_eq_dec : EqDecision SchemaContract.
Proof. solve_decision. Defined.
#[global] Instance CalloutLevel_eq_dec : EqDecision CalloutLevel.
Proof. solve_decision. Defined.
#[global] Instance ConfirmationSeverity_eq_dec : EqDecision ConfirmationSeverity.
Proof. solve_decision. Defined.
#[global] Instance SurfaceRowCondition_eq_dec : EqDecision SurfaceRowCondition.
Proof. solve_decision. Defined.

(** The derived [Debug]. *)
Definition debug_provider_kind (k : ProviderKind) : string :=
  match k with BuiltIn => "BuiltIn" | Plugin => "Plugin" | Service => "Service" end.
Definition debug_interaction_kind (k : InteractionKind) : string :=
  match k with
  | MutationAction => "MutationAction" | FormSubmit => "FormSubmit" | Workflow => "Workflow"
  | Navigate => "Navigate" | DataLoad => "DataLoad" | ConfirmableAction => "ConfirmableAction"
  end.

Inductive InteractionHttpMethod := Get | Post | Put | Delete | OtherMethod (s : string).
#[global] Instance InteractionHttpMethod_eq_dec : EqDecision InteractionHttpMethod.
Proof. solve_decision. Defined.

Definition method_str (m : InteractionHttpMethod) : string :=
  match m with
  | Get => "get" | Post => "post" | Put => "put" | Delete => "delete" | OtherMethod s => s
  end.

Definition KNOWN_INTERACTION_HTTP_METHODS : list InteractionHttpMethod :=
  [Get; Post; Put; Delete].

Inductive Capability :=
| SectionNode | TextBlockNode | KeyValueNode | TableNode | FormNode | ActionBarNode
| TabsNode | CalloutNode | EmptyStateNode | ModalTriggerNode | WorkflowTriggerNode
| MutationActionCap | FormSubmitCap | WorkflowCap | NavigateCap | DataLoadCap
| ConfirmableActionCap | StaticDataSource | ControllerQueryDataSource
| ProviderQueryDataSource | UniversalTargeting | TargetedTargeting | SensitiveFields
| ProviderInitiatedActions | ContextSelector | EntityLinkColumn.
#[global] Instance Capability_eq_dec : EqDecision Capability.
Proof. solve_decision. Defined.

(** The serde name of a capability ([snake_case]). *)
Definition capability_str (c : Capability) : string :=
  match c with
  | SectionNode => "section_node" | TextBlockNode => "text_block_node"
  | KeyValueNode => "key_value_node" | TableNode => "table_node" | FormNode => "form_node"
  | ActionBarNode => "action_bar_node" | TabsNode => "tabs_node"
  | CalloutNode => "callout_node" | EmptyStateNode => "empty_state_node"
  | ModalTriggerNode => "modal_trigger_node" | WorkflowTriggerNode => "workflow_trigger_node"
  | MutationActionCap => "mutation_action" | FormSubmitCap => "form_submit"
  | WorkflowCap => "workflow" | NavigateCap => "navigate" | DataLoadCap => "data_load"
  | ConfirmableActionCap => "confirmable_action" | StaticDataSource => "static_data_source"
  | ControllerQueryDataSource => "controller_query_data_source"
  | ProviderQueryDataSource => "provider_query_data_source"
  | UniversalTargeting => "universal_targeting" | TargetedTargeting => "targeted_targeting"
  | SensitiveFields => "sensitive_fields"
  | ProviderInitiatedActions => "provider_initiated_actions"
  | ContextSelector => "context_selector" | EntityLinkColumn => "entity_link_column"
  end.

Definition all_capabilities : list Capability := [
  SectionNode; TextBlockNode; KeyValueNode; TableNode; FormNode; ActionBarNode; TabsNode;
  CalloutNode; EmptyStateNode; ModalTriggerNode; WorkflowTriggerNode; MutationActionCap;
  FormSubmitCap; WorkflowCap; NavigateCap; DataLoadCap; ConfirmableActionCap;
  StaticDataSource; ControllerQueryDataSource; ProviderQueryDataSource; UniversalTargeting;
  TargetedTargeting; SensitiveFields; ProviderInitiatedActions; ContextSelector;
  EntityLinkColumn ].

#[global] Instance Capability_countable : Countable Capability.
Proof.
  refine (inj_countable capability_str
    (λ s, List.find (λ c, bool_decide (capability_str c = s)) all_capabilities) _).
  by intros [].
Defined.

(** A [CapabilitySet] is a set of capabilities. *)
Definition contains_all (s other : gset Capability) : bool := bool_decide (other ⊆ s).

(** ** Node trees ([surface.rs]) *)

Inductive SurfaceEntityType := EntityHost | OtherEntity (s : string).
Inductive SurfaceTableCellType := EntityLink (entity_type : SurfaceEntityType).
Record SurfaceTableColumn := mkColumn {
  col_key : string; col_label : string; cell_type : option SurfaceTableCellType }.
Record SurfaceRowVisibleWhen := mkRowVisibleWhen {
  rv_field : string; condition : SurfaceRowCondition }.
Record SurfaceTableRowAction := mkRowAction {
  ra_interaction_id : string; ra_http_method : option InteractionHttpMethod;
  ra_visible_when : option SurfaceRowVisibleWhen }.

Inductive ActionRef :=
| Bare (id : string)
| WithMethod (id : string) (http_method : option InteractionHttpMethod).

Definition ar_interaction_id (a : ActionRef) : string :=
  match a with Bare id | WithMethod id _ => id end.
Definition ar_http_method (a : ActionRef) : option InteractionHttpMethod :=
  match a with Bare _ => None | WithMethod _ m => m end.

Record SurfaceTab (A : Type) := mkTab { tab_id : string; tab_label : string; tab_root : A }.
Arguments mkTab {A} _ _ _.
Arguments tab_id {A} _.
Arguments tab_label {A} _.
Arguments tab_root {A} _.

Inductive SurfaceNode :=
| Section_ (title : option string) (header_action_ids : list string) (children : list SurfaceNode)
| TextBlock (text : string)
| KeyValue (data_source_id : string)
| Table (data_source_id : string) (columns : list SurfaceTableColumn)
    (row_actions : list SurfaceTableRowAction)
| Form (interaction_id : string) (http_method : option InteractionHttpMethod)
| ActionBar (action_ids : list ActionRef)
| Tabs (tabs : list (SurfaceTab SurfaceNode))
| Callout (level : CalloutLevel) (text : string)
| EmptyState (title : string) (description : option string)
| ModalTrigger (interaction_id : string) (http_method : option InteractionHttpMethod)
    (modal_nodes : list SurfaceNode)
| WorkflowTrigger (interaction_id : string) (step_nodes : list SurfaceNode).

(** The nodes directly below a node. *)
Definition node_children (n : SurfaceNode) : list SurfaceNode :=
  match n with
  | Section_ _ _ l | ModalTrigger _ _ l | WorkflowTrigger _ l => l
  | Tabs tabs => tab_root <$> tabs
  | _ => []
  end.

(** Induction over a tree: the property of a node from that of its children. *)
Lemma node_ind (P : SurfaceNode → Prop) :
  (∀ n, Forall P (node_children n) → P n) → ∀ n, P n.
Proof.
  intros H. fix IH 1. intros n. apply H.
  destruct n as [t h l| | | | | |tabs| | |i m l|i l]; simpl; try constructor.
  - induction l as [|x l IHl]; constructor; [apply IH|apply IHl].
  - induction tabs as [|[i lab r] l IHl]; simpl; constructor; [apply IH|apply IHl].
  - induction l as [|x l IHl]; constructor; [apply IH|apply IHl].
  - induction l as [|x l IHl]; constructor; [apply IH|apply IHl].
Qed.

#[global] Instance SurfaceEntityType_eq_dec : EqDecision SurfaceEntityType.
Proof. solve_decision. Defined.
#[global] Instance SurfaceTableCellType_eq_dec : EqDecision SurfaceTableCellType.
Proof. solve_decision. Defined.
#[global] Instance SurfaceTableColumn_eq_dec : EqDecision SurfaceTableColumn.
Proof. solve_decision. Defined.
#[global] Instance SurfaceRowVisibleWhen_eq_dec : EqDecision SurfaceRowVisibleWhen.
Proof. solve_decision. Defined.
#[global] Instance SurfaceTableRowAction_eq_dec : EqDecision SurfaceTableRowAction.
Proof. solve_decision. Defined.
#[global] Instance ActionRef_eq_dec : EqDecision ActionRef.
Proof. solve_decision. Defined.
#[global] Instance SurfaceTab_eq_dec {A} `{EqDecision A} : EqDecision (SurfaceTab A).
Proof. solve_decision. Defined.

#[global] Instance SurfaceNode_eq_dec : EqDecision SurfaceNode.
Proof.
  refine (fix go a b := let _ : EqDecision SurfaceNode := @go in
    match a, b with
    | Section_ t h c, Section_ t' h' c' =>
        cast_if_and3 (decide (t = t')) (decide (h = h')) (decide (c = c'))
    | TextBlock t, TextBlock t' => cast_if (decide (t = t'))
    | KeyValue d, KeyValue d' => cast_if (decide (d = d'))
    | Table d c r, Table d' c' r' =>
        cast_if_and3 (decide (d = d')) (decide (c = c')) (decide (r = r'))
    | Form i m, Form i' m' => cast_if_and (decide (i = i')) (decide (m = m'))
    | ActionBar l, ActionBar l' => cast_if (decide (l = l'))
    | Tabs l, Tabs l' => cast_if (decide (l = l'))
    | Callout l t, Callout l' t' => cast_if_and (decide (l = l')) (decide (t = t'))
    | EmptyState t d, EmptyState t' d' => cast_if_and (decide (t = t')) (decide (d = d'))
    | ModalTrigger i m l, ModalTrigger i' m' l' =>
        cast_if_and3 (decide (i = i')) (decide (m = m')) (decide (l = l'))
    | WorkflowTrigger i l, WorkflowTrigger i' l' =>
        cast_if_and (decide (i = i')) (decide (l = l'))
    | _, _ => right _
    end); congruence.
Defined.

(** ** Forms, parameters and interactions ([form.rs], [params.rs], [interaction.rs]) *)

Record FormSelectOption := mkSelectOption { opt_value : string; opt_label : string }.
Inductive FormSelectSource :=
| RestApi (path value_field label_field : string)
| ActionSource (action_id : string).
Record FormVisibleWhen := mkFormVisibleWhen { fv_field : string; fv_values : list string }.
Record FormFieldDescriptor := mkFormField {
  ff_key : string; ff_label : string; field_type : string; ff_required : bool;
  placeholder : option string; help_text : option string; default_value : option string;
  options : list FormSelectOption; select_source : option FormSelectSource;
  sensitive : bool; ff_list : bool; ff_visible_when : option FormVisibleWhen }.
Record FormUiDescriptor := mkFormUi {
  fields : list FormFieldDescriptor; pre_load_interaction_id : option string }.

Definition RESERVED_PARAM_KEYS : list string :=
  ["page"; "per_page"; "target_provider_id"; "timeout_seconds"; "id"].
Record ParamFieldDescriptor := mkParamField {
  param_key : string; param_schema : SchemaContract; param_required : bool }.

Record WorkflowStepDescriptor := mkStep {
  step_id : string; step_label : string; step_form_ui : option FormUiDescriptor;
  submit_interaction_id : option string; render_previous_response : bool;
  step_input_schema : SchemaContract; step_result_schema : SchemaContract }.

Record InteractionConfirmation := mkConfirmation {
  conf_title : string; conf_message : string; confirm_label : option string;
  cancel_label : option string; severity : ConfirmationSeverity }.

Record InteractionDescriptor := mkInteraction {
  interaction_id : string; kind : InteractionKind; http_method : InteractionHttpMethod;
  i_label : string; i_required_action : option string;
  input_schema : option SchemaContract; result_schema : option SchemaContract;
  sensitive_fields : list string; params : list ParamFieldDescriptor;
  timeout_seconds : option Z; confirmation : option InteractionConfirmation;
  transport : InteractionTransport; workflow_steps : list WorkflowStepDescriptor;
  form_ui : option FormUiDescriptor; icon : option string; submit_label : option string;
  provider_invocable : bool }.

#[global] Instance FormSelectOption_eq_dec : EqDecision FormSelectOption.
Proof. solve_decision. Defined.
#[global] Instance FormSelectSource_eq_dec : EqDecision FormSelectSource.
Proof. solve_decision. Defined.
#[global] Instance FormVisibleWhen_eq_dec : EqDecision FormVisibleWhen.
Proof. solve_decision. Defined.
#[global] Instance FormFieldDescriptor_eq_dec : EqDecision FormFieldDescriptor.
Proof. solve_decision. Defined.
#[global] Instance FormUiDescriptor_eq_dec : EqDecision FormUiDescriptor.
Proof. solve_decision. Defined.
#[global] Instance ParamFieldDescriptor_eq_dec : EqDecision ParamFieldDescriptor.
Proof. solve_decision. Defined.
#[global] Instance WorkflowStepDescriptor_eq_dec : EqDecision WorkflowStepDescriptor.
Proof. solve_decision. Defined.
#[global] Instance InteractionConfirmation_eq_dec : EqDecision InteractionConfirmation.
Proof. solve_decision. Defined.
#[global] Instance InteractionDescriptor_eq_dec : EqDecision InteractionDescriptor.
Proof. solve_decision. Defined.

Definition interaction_new (id : string) (k : InteractionKind) (label : string)
    (t : InteractionTransport) : InteractionDescriptor :=
  mkInteraction id k Post label None None None [] [] None None t [] None None None false.

Definition with_http_method (m : InteractionHttpMethod) (i : InteractionDescriptor)
    : InteractionDescriptor :=
  mkInteraction (interaction_id i) (kind i) m (i_label i) (i_required_action i)
    (input_schema i) (result_schema i) (sensitive_fields i) (params i) (timeout_seconds i)
    (confirmation i) (transport i) (workflow_steps i) (form_ui i) (icon i) (submit_label i)
    (provider_invocable i).

Definition effective_http_method (i : InteractionDescriptor) : InteractionHttpMethod :=
  if decide (kind i = DataLoad) then Get else http_method i.

Definition MIN_INTERACTION_TIMEOUT_SECONDS : Z := 1.
Definition MAX_INTERACTION_TIMEOUT_SECONDS : Z := 300.

Inductive InteractionValidationError :=
| TimeoutOutOfRange (id : string)
| WorkflowMissingSteps (id : string)
| ConfirmableActionMissingConfirmation (id : string)
| BlankLabel (id : string)
| BlankWorkflowStepLabel (id step : string)
| IconInvalid (id : string) (reason : IconNameError)
| SubmitLabelInvalid (id reason : string)
| ProviderInvocableForbiddenForServiceProviders (id : string).

Definition display_interaction_error (e : InteractionValidationError) : string :=
  match e with
  | TimeoutOutOfRange id =>
      "interaction `" +:+ id +:+ "` timeout must be between "
      +:+ pretty MIN_INTERACTION_TIMEOUT_SECONDS +:+ " and "
      +:+ pretty MAX_INTERACTION_TIMEOUT_SECONDS +:+ " seconds"
  | WorkflowMissingSteps id =>
      "workflow interaction `" +:+ id +:+ "` must declare at least one workflow step"
  | ConfirmableActionMissingConfirmation id =>
      "confirmable interaction `" +:+ id +:+ "` must include confirmation metadata"
  | BlankLabel id =>
      "interaction `" +:+ id +:+ "` must include a non-empty human-authored label"
  | BlankWorkflowStepLabel id step =>
      "workflow step `" +:+ step +:+ "` in interaction `" +:+ id
      +:+ "` must include a non-empty human-authored label"
  | IconInvalid id reason =>
      "interaction `" +:+ id +:+ "` has invalid icon: " +:+ display_icon_error reason
  | SubmitLabelInvalid id reason =>
      "interaction `" +:+ id +:+ "` has invalid submit_label: " +:+ reason
  | ProviderInvocableForbiddenForServiceProviders id =>
      "interaction `" +:+ id +:+ "` sets provider_invocable with a required_action "
      +:+ "— not allowed for service-registered surfaces"
  end.

(** [InteractionDescriptor::validate_for_provider] *)
Definition interaction_validate_for_provider (i : InteractionDescriptor) (pk : ProviderKind)
    : Result InteractionValidationError unit :=
  let id := interaction_id i in
  if provider_invocable i && bool_decide (is_Some (i_required_action i))
     && bool_decide (pk = Service)
  then Err (ProviderInvocableForbiddenForServiceProviders id)
  else if match timeout_seconds i with
          | Some t => negb ((MIN_INTERACTION_TIMEOUT_SECONDS <=? t)
                            && (t <=? MAX_INTERACTION_TIMEOUT_SECONDS))%Z
          | None => false
          end
  then Err (TimeoutOutOfRange id)
  else if bool_decide (kind i = Workflow) && bool_decide (workflow_steps i = [])
  then Err (WorkflowMissingSteps id)
  else if bool_decide (kind i = ConfirmableAction) && bool_decide (confirmation i = None)
  then Err (ConfirmableActionMissingConfirmation id)
  else if is_blank (i_label i) then Err (BlankLabel id)
  else
    _ ← for_each (λ s, if is_blank (step_label s)
                       then Err (BlankWorkflowStepLabel id (step_id s)) else Ok tt)
          (workflow_steps i);
    _ ← match icon i with
        | Some n => map_err (IconInvalid id) (validate_icon_name n)
        | None => Ok tt
        end;
    match submit_label i with
    | Some l =>
        if is_blank l then Err (SubmitLabelInvalid id "must not be empty")
        else if 50 <? str_len l
        then Err (SubmitLabelInvalid id
               ("exceeds max 50 characters (" +:+ pretty (str_len l) +:+ " given)"))
        else Ok tt
    | None => Ok tt
    end.

(** ** Data sources ([data.rs]) *)

Inductive DataSourceKind :=
| Static (data : Value)
| ControllerQuery (query_id : string)
| ProviderQuery (operation_id : string).
Inductive RefreshPolicy := Manual | Interval (seconds : Z) | Sse (topic : string).
Record DataSourcePagination := mkDsPagination { default_page_size : Z; max_page_size : Z }.
Record DataSourceSorting := mkSorting {
  sortable_fields : list string; default_sort_field : option string }.
Record DataSourceEmptyState := mkEmptyState { es_title : string; es_description : option string }.
Record DataSourceDescriptor := mkDataSource {
  data_source_id : string; ds_kind : DataSourceKind; ds_result_schema : SchemaContract;
  pagination : option DataSourcePagination; sorting : option DataSourceSorting;
  filtering : option (list string); refresh_policy : RefreshPolicy;
  empty_state : option DataSourceEmptyState }.

#[global] Instance DataSourceKind_eq_dec : EqDecision DataSourceKind.
Proof. solve_decision. Defined.
#[global] Instance RefreshPolicy_eq_dec : EqDecision RefreshPolicy.
Proof. solve_decision. Defined.
#[global] Instance DataSourcePagination_eq_dec : EqDecision DataSourcePagination.
Proof. solve_decision. Defined.
#[global] Instance DataSourceSorting_eq_dec : EqDecision DataSourceSorting.
Proof. solve_decision. Defined.
#[global] Instance DataSourceEmptyState_eq_dec : EqDecision DataSourceEmptyState.
Proof. solve_decision. Defined.
#[global] Instance DataSourceDescriptor_eq_dec : EqDecision DataSourceDescriptor.
Proof. solve_decision. Defined.

Definition MIN_PROVIDER_REFRESH_INTERVAL_SECONDS : Z := 10.

Inductive DataSourceValidationError := ServiceControllerQueryForbidden | ProviderIntervalTooLow.

Definition display_data_source_error (e : DataSourceValidationError) : string :=
  match e with
  | ServiceControllerQueryForbidden =>
      "service providers cannot declare controller_query data sources"
  | ProviderIntervalTooLow =>
      "provider_query interval refresh must be at least "
      +:+ pretty MIN_PROVIDER_REFRESH_INTERVAL_SECONDS +:+ " seconds"
  end.

(** [DataSourceDescriptor::validate_for_provider] *)
Definition data_source_validate_for_provider (d : DataSourceDescriptor) (pk : ProviderKind)
    : Result DataSourceValidationError unit :=
  match pk, ds_kind d, refresh_policy d with
  | Service, ControllerQuery _, _ => Err ServiceControllerQueryForbidden
  | _, ProviderQuery _, Interval seconds =>
      if (seconds <? MIN_PROVIDER_REFRESH_INTERVAL_SECONDS)%Z
      then Err ProviderIntervalTooLow else Ok tt
  | _, _, _ => Ok tt
  end.

(** ** Descriptors and registrations ([surface.rs], [protocol.rs]) *)

Record SurfaceContextSelectorDescriptor := mkContextSelector {
  cs_param_key : string; cs_label : string; all_option_label : string;
  rest_api_path : string; cs_value_field : string; cs_label_field : string;
  required_for_interactions : list string }.

Record SurfaceDescriptor := mkDescriptor {
  surface_id : string; d_label : string; priority : Z; slot : string; scope : Scope;
  targeting : Targeting; required_action : option string; d_provider_kind : ProviderKind;
  required_capabilities : gset Capability; root_node : SurfaceNode;
  context_selector : option SurfaceContextSelectorDescriptor; nav_icon : option string;
  tab_group : option string; tab_group_label : option string }.

Record FrameworkGeneration := mkGeneration { major : Z; minor : Z }.
Record FrameworkGenerationRange := mkRange {
  gen_min : FrameworkGeneration; gen_max : FrameworkGeneration }.

Definition is_generation_le (l r : FrameworkGeneration) : bool :=
  ((major l <? major r) || ((major l =? major r) && (minor l <=? minor r)))%Z.
Definition includes (r : FrameworkGenerationRange) (v : FrameworkGeneration) : bool :=
  is_generation_le (gen_min r) v && is_generation_le v (gen_max r).

Record ProviderIdentity := mkProvider {
  provider_id : string; provider_kind : ProviderKind; provider_namespace : string }.
Record EffectiveTenantBinding := mkBinding { b_scope : Scope; b_tenant_id : option string }.
Inductive ProviderEncryptionAlgorithm := EciesP256 | OtherAlgorithm (s : string).
Record ProviderEncryptionMetadata := mkEncryption {
  key_id : string; algorithm : ProviderEncryptionAlgorithm; public_key : string }.

Record RegisteredSurface := mkSurface {
  descriptor : SurfaceDescriptor; interactions : list InteractionDescriptor;
  data_sources : list DataSourceDescriptor }.

Record SurfaceRegistration := mkRegistration {
  provider : ProviderIdentity; framework_generation : FrameworkGeneration;
  capabilities : gset Capability; effective_tenant_binding : EffectiveTenantBinding;
  surfaces : list RegisteredSurface;
  encryption_metadata : option ProviderEncryptionMetadata }.

#[global] Instance SurfaceContextSelectorDescriptor_eq_dec :
  EqDecision SurfaceContextSelectorDescriptor.
Proof. solve_decision. Defined.
#[global] Instance SurfaceDescriptor_eq_dec : EqDecision SurfaceDescriptor.
Proof. solve_decision. Defined.
#[global] Instance RegisteredSurface_eq_dec : EqDecision RegisteredSurface.
Proof. solve_decision. Defined.
#[global] Instance EffectiveTenantBinding_eq_dec : EqDecision EffectiveTenantBinding.
Proof. solve_decision. Defined.
