(* ===== verification/SurfaceContract.v ===== *)
(** Admission of a surface registration against its contract
    ([crates/shared/surfaces/src/protocol.rs], [SurfaceRegistration::validate_against]):
    generations, capabilities, descriptors, interactions, data sources, and the
    cross-references of the node tree. *)

From Stdlib Require Import Ascii.
From stdpp Require Import base list gmap sets strings numbers pretty.
From S2P Require Import Prelude RustStr Json SurfaceTypes.

Inductive SurfaceRegistrationErrorCode :=
  UnsupportedGeneration | MissingCapability | InvalidSlot | InvalidContract.
Record SurfaceRegistrationError := mkRegError {
  code : SurfaceRegistrationErrorCode; message : string }.
Record SurfaceRegistrationPolicy := mkPolicy {
  supported_generation : FrameworkGenerationRange;
  policy_capabilities : gset Capability }.

Notation Checked := (Result SurfaceRegistrationError) (only parsing).

Definition invalid_contract (m : string) : SurfaceRegistrationError :=
  mkRegError InvalidContract m.
Definition missing_capability (m : string) : SurfaceRegistrationError :=
  mkRegError MissingCapability m.

Definition validate_supported_generation (r : SurfaceRegistration)
    (p : SurfaceRegistrationPolicy) : Checked unit :=
  let g := framework_generation r in
  let lo := gen_min (supported_generation p) in
  let hi := gen_max (supported_generation p) in
  if includes (supported_generation p) g then Ok tt
  else Err (mkRegError UnsupportedGeneration
    ("framework generation " +:+ pretty (major g) +:+ "." +:+ pretty (minor g)
     +:+ " is outside supported range " +:+ pretty (major lo) +:+ "." +:+ pretty (minor lo)
     +:+ "..=" +:+ pretty (major hi) +:+ "." +:+ pretty (minor hi))).

Definition validate_required_registration_capabilities (r : SurfaceRegistration)
    (p : SurfaceRegistrationPolicy) : Checked unit :=
  if contains_all (capabilities r) (policy_capabilities p) then Ok tt
  else Err (missing_capability "registration is missing one or more required capabilities").

(** ** Descriptor rules *)

Definition sid (s : RegisteredSurface) : string := surface_id (descriptor s).

Definition validate_unique_surface_id (s : RegisteredSurface) (ids : gset string)
    : Checked (gset string) :=
  if decide (sid s ∈ ids)
  then Err (invalid_contract ("duplicate surface_id `" +:+ sid s +:+ "` within registration batch"))
  else Ok ({[sid s]} ∪ ids).

Definition validate_surface_provider_kind (s : RegisteredSurface) (pk : ProviderKind)
    : Checked unit :=
  if decide (d_provider_kind (descriptor s) = pk) then Ok tt
  else Err (invalid_contract ("surface `" +:+ sid s
         +:+ "` provider_kind does not match registration provider_kind")).

Definition map_slot_validation_error (e : SlotValidationError) : SurfaceRegistrationError :=
  mkRegError (match e with
              | UnknownSlot _ => InvalidSlot
              | InvalidIdentifier _ => InvalidContract
              end) (display_slot_error e).

Definition validate_surface_slot (s : RegisteredSurface) : Checked SurfaceSlotDef :=
  map_err map_slot_validation_error (validate_slot_id (slot (descriptor s))).

Definition validate_single_entry_slot_occupancy (d : SurfaceSlotDef) (slots : gset string)
    : Checked (gset string) :=
  if multi_entry d then Ok slots
  else if decide (slot_id d ∈ slots)
  then Err (invalid_contract ("slot `" +:+ slot_id d +:+ "` is single-entry and cannot accept "
         +:+ "multiple surfaces in one registration batch"))
  else Ok ({[slot_id d]} ∪ slots).

Definition validate_surface_priority_range (s : RegisteredSurface) (d : SurfaceSlotDef)
    : Checked unit :=
  let p := priority (descriptor s) in
  if decide (d_provider_kind (descriptor s) = BuiltIn) then Ok tt
  else if ((provider_priority_min d <=? p) && (p <=? provider_priority_max d))%Z then Ok tt
  else Err (invalid_contract ("surface `" +:+ sid s +:+ "` priority " +:+ pretty p
         +:+ " is outside slot `" +:+ slot_id d +:+ "` provider range "
         +:+ pretty (provider_priority_min d) +:+ "..=" +:+ pretty (provider_priority_max d))).

Definition validate_surface_required_capabilities (s : RegisteredSurface)
    (caps : gset Capability) : Checked unit :=
  if contains_all caps (required_capabilities (descriptor s)) then Ok tt
  else Err (missing_capability ("surface `" +:+ sid s
         +:+ "` requires capabilities not advertised by registration")).

Definition require_capability (caps : gset Capability) (required : Capability)
    (surface usage : string) : Checked unit :=
  if decide (required ∈ caps) then Ok tt
  else Err (missing_capability ("surface `" +:+ surface +:+ "` uses " +:+ usage
         +:+ " that requires capability `" +:+ capability_str required +:+ "`")).

Definition node_capability (n : SurfaceNode) : Capability :=
  match n with
  | Section_ _ _ _ => SectionNode | TextBlock _ => TextBlockNode | KeyValue _ => KeyValueNode
  | Table _ _ _ => TableNode | Form _ _ => FormNode | ActionBar _ => ActionBarNode
  | Tabs _ => TabsNode | Callout _ _ => CalloutNode | EmptyState _ _ => EmptyStateNode
  | ModalTrigger _ _ _ => ModalTriggerNode | WorkflowTrigger _ _ => WorkflowTriggerNode
  end.

Fixpoint validate_node_capabilities (surface : string) (caps : gset Capability)
    (n : SurfaceNode) : Checked unit :=
  _ ← match n with
      | Section_ _ _ l | ModalTrigger _ _ l | WorkflowTrigger _ l =>
          for_each (validate_node_capabilities surface caps) l
      | Tabs tabs => for_each (λ t, validate_node_capabilities surface caps (tab_root t)) tabs
      | _ => Ok tt
      end;
  require_capability caps (node_capability n) surface "root_node kind".

Definition interaction_kind_capability (k : InteractionKind) : Capability :=
  match k with
  | MutationAction => MutationActionCap | FormSubmit => FormSubmitCap | Workflow => WorkflowCap
  | Navigate => NavigateCap | DataLoad => DataLoadCap | ConfirmableAction => ConfirmableActionCap
  end.

Definition data_source_kind_capability (k : DataSourceKind) : Capability :=
  match k with
  | Static _ => StaticDataSource
  | ControllerQuery _ => ControllerQueryDataSource
  | ProviderQuery _ => ProviderQueryDataSource
  end.

Definition validate_interaction_usage (surface : string) (caps : gset Capability)
    (i : InteractionDescriptor) : Checked unit :=
  _ ← require_capability caps (interaction_kind_capability (kind i)) surface "interaction kind";
  _ ← (if decide (transport i = ProviderProxied)
       then require_capability caps ProviderInitiatedActions surface "interaction transport"
       else Ok tt);
  if decide (sensitive_fields i = []) then Ok tt
  else require_capability caps SensitiveFields surface "sensitive fields".

Definition validate_surface_usage_capabilities (s : RegisteredSurface)
    (caps : gset Capability) : Checked unit :=
  _ ← validate_node_capabilities (sid s) caps (root_node (descriptor s));
  _ ← require_capability caps
        (match targeting (descriptor s) with
         | Universal => UniversalTargeting | Targeted => TargetedTargeting
         end) (sid s) "targeting mode";
  _ ← for_each (validate_interaction_usage (sid s) caps) (interactions s);
  for_each (λ d, require_capability caps (data_source_kind_capability (ds_kind d)) (sid s)
                   "data source kind") (data_sources s).

(** The two sets the validator of a batch carries along. *)
Notation BatchState := (gset string * gset string)%type (only parsing).

Definition validate_surface_descriptor_rules (s : RegisteredSurface) (pk : ProviderKind)
    (caps : gset Capability) (st : BatchState) : Checked BatchState :=
  ids ← validate_unique_surface_id s st.1;
  _ ← validate_surface_provider_kind s pk;
  d ← validate_surface_slot s;
  slots ← validate_single_entry_slot_occupancy d st.2;
  _ ← validate_surface_priority_range s d;
  _ ← validate_surface_required_capabilities s caps;
  _ ← validate_surface_usage_capabilities s caps;
  Ok (ids, slots).

(** ** Interaction rules *)

(** The methods registered under each interaction id, in declaration order. *)
Notation MethodIndex := (gmap string (list InteractionHttpMethod)) (only parsing).

Definition methods_of (m : MethodIndex) (id : string) : list InteractionHttpMethod :=
  default [] (m !! id).

Definition validate_unique_interaction_id (surface : string) (i : InteractionDescriptor)
    (m : MethodIndex) : Checked MethodIndex :=
  let method := effective_http_method i in
  let methods := methods_of m (interaction_id i) in
  if decide (method ∈ methods)
  then Err (invalid_contract ("duplicate interaction `" +:+ interaction_id i +:+ "` ["
         +:+ method_str method +:+ "] within surface `" +:+ surface +:+ "`"))
  else Ok (<[interaction_id i := methods ++ [method]]> m).

Definition validate_interaction_method (surface : string) (i : InteractionDescriptor)
    : Checked unit :=
  let ctx := interaction_id i +:+ "` in surface `" +:+ surface in
  match http_method i with
  | OtherMethod _ =>
      Err (invalid_contract ("interaction `" +:+ ctx +:+ "` declares an unknown http_method"))
  | m =>
      match kind i with
      | DataLoad =>
          if decide (m = Put ∨ m = Delete)
          then Err (invalid_contract ("data-load interaction `" +:+ ctx +:+ "` must use GET"))
          else Ok tt
      | Workflow =>
          if decide (m ≠ Post)
          then Err (invalid_contract ("workflow interaction `" +:+ ctx +:+ "` must use POST"))
          else Ok tt
      | _ =>
          if decide (m = Get)
          then Err (invalid_contract ("interaction `" +:+ ctx
                 +:+ "` is not a data-load and cannot use GET"))
          else Ok tt
      end
  end.

Definition is_scalar (s : SchemaContract) : bool :=
  match s with SString | SInteger | SNumber | SBoolean => true | _ => false end.

Definition validate_param (surface : string) (i : InteractionDescriptor)
    (seen : gset string) (f : ParamFieldDescriptor) : Checked (gset string) :=
  let ctx := "interaction `" +:+ interaction_id i +:+ "` in surface `" +:+ surface in
  if decide (param_key f ∈ RESERVED_PARAM_KEYS)
  then Err (invalid_contract (ctx +:+ "` declares reserved param key `" +:+ param_key f +:+ "`"))
  else if decide (param_key f ∈ seen)
  then Err (invalid_contract (ctx +:+ "` declares duplicate param key `" +:+ param_key f +:+ "`"))
  else if bool_decide (kind i = DataLoad) && negb (is_scalar (param_schema f))
  then Err (invalid_contract ("data-load " +:+ ctx +:+ "` param `" +:+ param_key f
         +:+ "` must be a scalar schema"))
  else Ok ({[param_key f]} ∪ seen).

Definition validate_interaction_params (surface : string) (i : InteractionDescriptor)
    : Checked unit :=
  _ ← for_fold (validate_param surface i) ∅ (params i);
  if bool_decide (kind i = DataLoad) && negb (bool_decide (sensitive_fields i = []))
  then Err (invalid_contract ("data-load interaction `" +:+ interaction_id i
         +:+ "` in surface `" +:+ surface +:+ "` must not declare sensitive_fields "
         +:+ "(GET params travel in query strings)"))
  else Ok tt.

Definition validate_interaction_provider_rules (s : RegisteredSurface)
    (i : InteractionDescriptor) : Checked unit :=
  map_err (λ e, invalid_contract (display_interaction_error e))
    (interaction_validate_for_provider i (d_provider_kind (descriptor s))).

Definition validate_descriptor_gated_provider_invocable (s : RegisteredSurface)
    (i : InteractionDescriptor) : Checked unit :=
  if provider_invocable i && bool_decide (d_provider_kind (descriptor s) = Service)
     && bool_decide (is_Some (required_action (descriptor s)))
  then Err (invalid_contract ("interaction `" +:+ interaction_id i +:+ "` in surface `" +:+ sid s
         +:+ "` sets provider_invocable under an action-gated surface descriptor "
         +:+ "— not allowed for service-registered surfaces"))
  else Ok tt.

Definition validate_interaction (s : RegisteredSurface) (m : MethodIndex)
    (i : InteractionDescriptor) : Checked MethodIndex :=
  m' ← validate_unique_interaction_id (sid s) i m;
  _ ← validate_interaction_method (sid s) i;
  _ ← validate_interaction_params (sid s) i;
  _ ← validate_interaction_provider_rules s i;
  _ ← validate_descriptor_gated_provider_invocable s i;
  Ok m'.

Definition validate_surface_interaction_rules (s : RegisteredSurface) : Checked MethodIndex :=
  for_fold (validate_interaction s) ∅ (interactions s).

(** ** References *)

Definition resolve_interaction_reference (m : MethodIndex) (id : string)
    (declared : option InteractionHttpMethod) (context : string) : Checked unit :=
  match m !! id with
  | None => Err (invalid_contract context)
  | Some methods =>
      match declared with
      | Some method =>
          if decide (method ∈ methods) then Ok tt
          else Err (invalid_contract (context +:+ " — `" +:+ id
                 +:+ "` is not registered under method `" +:+ method_str method +:+ "`"))
      | None =>
          if 1 <? length methods
          then Err (invalid_contract (context +:+ " — `" +:+ id
                 +:+ "` is registered under multiple methods; declare http_method — ambiguous"))
          else Ok tt
      end
  end.

Definition require_pair_reference (m : MethodIndex) (id : string)
    (required : InteractionHttpMethod) (context : string) : Checked unit :=
  if decide (required ∈ methods_of m id) then Ok tt
  else Err (invalid_contract (context +:+ " — `" +:+ id
         +:+ "` must be registered under method `" +:+ method_str required +:+ "`")).

Definition ensure_known_reference (known : gset string) (id context : string) : Checked unit :=
  if decide (id ∈ known) then Ok tt else Err (invalid_contract context).

Definition validate_workflow_step (surface : string) (m : MethodIndex)
    (i : InteractionDescriptor) (step : WorkflowStepDescriptor) : Checked unit :=
  let ctx what id := "surface `" +:+ surface +:+ "` workflow interaction `"
    +:+ interaction_id i +:+ "` references unknown " +:+ what +:+ " `" +:+ id
    +:+ "` in step `" +:+ step_id step +:+ "`" in
  _ ← match submit_interaction_id step with
      | Some id => require_pair_reference m id Post (ctx "submit_interaction_id" id)
      | None => Ok tt
      end;
  match step_form_ui step ≫= pre_load_interaction_id with
  | Some id => require_pair_reference m id Get (ctx "pre_load_interaction_id" id)
  | None => Ok tt
  end.

Definition validate_workflow_step_references (surface : string)
    (l : list InteractionDescriptor) (m : MethodIndex) : Checked unit :=
  for_each (λ i, if decide (kind i ≠ Workflow) then Ok tt
                 else for_each (validate_workflow_step surface m i) (workflow_steps i)) l.

Definition validate_unique_data_source_id (surface : string) (d : DataSourceDescriptor)
    (ids : gset string) : Checked (gset string) :=
  if decide (data_source_id d ∈ ids)
  then Err (invalid_contract ("duplicate data_source_id `" +:+ data_source_id d
         +:+ "` within surface `" +:+ surface +:+ "`"))
  else Ok ({[data_source_id d]} ∪ ids).

Definition validate_data_source_reference_rules (surface : string) (m : MethodIndex)
    (d : DataSourceDescriptor) : Checked unit :=
  match ds_kind d with
  | ProviderQuery op =>
      require_pair_reference m op Get
        ("surface `" +:+ surface +:+ "` data source `" +:+ data_source_id d
         +:+ "` references unknown provider_query operation_id `" +:+ op +:+ "`")
  | _ => Ok tt
  end.

Definition validate_data_source (s : RegisteredSurface) (m : MethodIndex)
    (ids : gset string) (d : DataSourceDescriptor) : Checked (gset string) :=
  ids' ← validate_unique_data_source_id (sid s) d ids;
  _ ← map_err (λ e, invalid_contract (display_data_source_error e))
        (data_source_validate_for_provider d (d_provider_kind (descriptor s)));
  _ ← validate_data_source_reference_rules (sid s) m d;
  Ok ids'.

Definition validate_surface_data_source_rules (s : RegisteredSurface) (m : MethodIndex)
    : Checked (gset string) :=
  for_fold (validate_data_source s m) ∅ (data_sources s).

(** ** The node tree *)

Section RootNodes.
Context (surface : string) (m : MethodIndex) (inters : list InteractionDescriptor)
        (sources : gset string).

Definition require_root_interaction_reference (id : string)
    (declared : option InteractionHttpMethod) : Checked unit :=
  resolve_interaction_reference m id declared
    ("surface `" +:+ surface +:+ "` root_node references unknown interaction_id `" +:+ id +:+ "`").

Definition require_root_workflow_trigger_reference (id : string) : Checked unit :=
  require_pair_reference m id Post
    ("surface `" +:+ surface +:+ "` root_node references unknown interaction_id `" +:+ id +:+ "`").

Definition require_form_pre_load_reference (id : string)
    (declared : option InteractionHttpMethod) : Checked unit :=
  match List.find (λ i, bool_decide (interaction_id i = id)
                   && match declared with
                      | Some method => bool_decide (effective_http_method i = method)
                      | None => true
                      end) inters with
  | None => Ok tt
  | Some target =>
      match form_ui target ≫= pre_load_interaction_id with
      | None => Ok tt
      | Some pre =>
          require_pair_reference m pre Get
            ("surface `" +:+ surface +:+ "` root_node form `" +:+ id
             +:+ "` references unknown pre_load_interaction_id `" +:+ pre +:+ "`")
      end
  end.

Definition require_data_source_reference (id : string) : Checked unit :=
  ensure_known_reference sources id
    ("surface `" +:+ surface +:+ "` root_node references unknown data_source_id `" +:+ id +:+ "`").

Definition validate_table_row_actions (l : list SurfaceTableRowAction) : Checked unit :=
  for_each (λ a, resolve_interaction_reference m (ra_interaction_id a) (ra_http_method a)
    ("surface `" +:+ surface +:+ "` table references unknown row-action interaction_id `"
     +:+ ra_interaction_id a +:+ "`")) l.

Definition validate_action_bar (l : list ActionRef) : Checked unit :=
  for_each (λ a, resolve_interaction_reference m (ar_interaction_id a) (ar_http_method a)
    ("surface `" +:+ surface +:+ "` root_node references unknown interaction_id `"
     +:+ ar_interaction_id a +:+ "`")) l.

Definition validate_tab_id (seen : gset string) (id : string) : Checked (gset string) :=
  _ ← map_err (λ e, invalid_contract ("surface `" +:+ surface
        +:+ "` root_node contains invalid tab id `" +:+ id +:+ "`: "
        +:+ display_identifier_error e)) (validate_surface_identifier id);
  if decide (id ∈ seen)
  then Err (invalid_contract ("surface `" +:+ surface
         +:+ "` root_node contains duplicate tab id `" +:+ id +:+ "` within one tabs node"))
  else Ok ({[id]} ∪ seen).

(** [RootNodeReferenceValidator::validate] *)
Fixpoint validate_node (n : SurfaceNode) : Checked unit :=
  match n with
  | Section_ _ _ children => for_each validate_node children
  | TextBlock _ | Callout _ _ | EmptyState _ _ => Ok tt
  | KeyValue ds => require_data_source_reference ds
  | Table ds _ row_actions =>
      _ ← require_data_source_reference ds; validate_table_row_actions row_actions
  | Form id method =>
      _ ← require_root_interaction_reference id method; require_form_pre_load_reference id method
  | ActionBar l => validate_action_bar l
  | Tabs tabs =>
      _ ← for_fold (λ seen t, seen' ← validate_tab_id seen (tab_id t);
                              _ ← validate_node (tab_root t); Ok seen') ∅ tabs;
      Ok tt
  | ModalTrigger id method nodes =>
      _ ← require_root_interaction_reference id method; for_each validate_node nodes
  | WorkflowTrigger id nodes =>
      _ ← require_root_workflow_trigger_reference id; for_each validate_node nodes
  end.
End RootNodes.

(** ** A surface, a registration *)

(** [RegisteredSurfacesValidator::validate_surface] *)
Definition validate_surface (pk : ProviderKind) (caps : gset Capability) (st : BatchState)
    (s : RegisteredSurface) : Checked BatchState :=
  st' ← validate_surface_descriptor_rules s pk caps st;
  m ← validate_surface_interaction_rules s;
  _ ← validate_workflow_step_references (sid s) (interactions s) m;
  sources ← validate_surface_data_source_rules s m;
  _ ← validate_node (sid s) m (interactions s) sources (root_node (descriptor s));
  Ok st'.

Definition validate_registered_surfaces (r : SurfaceRegistration) : Checked unit :=
  _ ← for_fold (validate_surface (provider_kind (provider r)) (capabilities r)) (∅, ∅) (surfaces r);
  Ok tt.

Definition validate_against (r : SurfaceRegistration) (p : SurfaceRegistrationPolicy)
    : Checked unit :=
  _ ← validate_supported_generation r p;
  _ ← validate_required_registration_capabilities r p;
  validate_registered_surfaces r.

(** * What admission establishes *)

(** ** Reading the validators *)

Ltac inv_checks :=
  repeat (inv_ok; match goal with
  | H : map_err _ ?r = Ok _ |- _ =>
      let E := fresh "E" in destruct r eqn:E; simpl in H; [|discriminate H]
  | H : (if decide _ then _ else _) = Ok _ |- _ => case_decide; [try discriminate H|try discriminate H]
  | H : (if ?b then _ else _) = Ok _ |- _ =>
      let E := fresh "E" in destruct b eqn:E; [try discriminate H|try discriminate H]
  end); inv_ok.

(** ** Interactions by id and method *)

Definition matching (inters : list InteractionDescriptor) (id : string)
    (m : option InteractionHttpMethod) : list InteractionDescriptor :=
  filter (λ i, interaction_id i = id ∧ (m = None ∨ m = Some (effective_http_method i))) inters.

Definition pair_key (i : InteractionDescriptor) : string * InteractionHttpMethod :=
  (interaction_id i, effective_http_method i).

(** The method index describes the interactions. *)
Record index_ok (inters : list InteractionDescriptor) (m : MethodIndex) : Prop := {
  index_methods id : methods_of m id = effective_http_method <$> matching inters id None;
  index_nonempty id l : m !! id = Some l → l ≠ [];
  index_nodup : NoDup (pair_key <$> inters) }.

Lemma validate_unique_interaction_id_ok surface i inters m m' :
  index_ok inters m → validate_unique_interaction_id surface i m = Ok m' →
  index_ok (inters ++ [i]) m'.
Proof.
  intros [Hm Hn Hd] Hv. unfold validate_unique_interaction_id in Hv. inv_checks.
  split.
  - intros id. unfold methods_of, matching. rewrite filter_app, fmap_app.
    destruct (decide (id = interaction_id i)) as [->|Hne].
    + rewrite lookup_insert_eq, filter_cons_True by naive_solver. simpl.
      f_equal. apply Hm.
    + rewrite lookup_insert_ne by done. rewrite filter_cons_False by naive_solver.
      simpl. rewrite app_nil_r. apply Hm.
  - intros id l. destruct (decide (id = interaction_id i)) as [->|Hne].
    + rewrite lookup_insert_eq. intros [= <-]. by destruct (methods_of m _).
    + rewrite lookup_insert_ne by done. apply Hn.
  - rewrite fmap_app, NoDup_app. split_and!; [done| |by apply NoDup_singleton].
    intros k (j & -> & Hj)%list_elem_of_fmap Heq%list_elem_of_singleton.
    injection Heq as Hid Hme. apply H. rewrite Hm. apply list_elem_of_fmap. exists j.
    split; [done|]. unfold matching. apply list_elem_of_filter. naive_solver.
Qed.

Lemma interaction_rules_index s m :
  validate_surface_interaction_rules s = Ok m → index_ok (interactions s) m.
Proof.
  apply (for_fold_inv index_ok).
  - split; [done|by intros ? ? ?%lookup_empty_Some|constructor].
  - intros pre i m1 m2 Hok Hv. unfold validate_interaction in Hv. inv_ok.
    by eapply validate_unique_interaction_id_ok.
Qed.

(** A registered pair names exactly one interaction. *)
Lemma matching_unique inters m id method :
  index_ok inters m → method ∈ methods_of m id →
  ∃ i, matching inters id (Some method) = [i].
Proof.
  intros [Hm _ Hd]. rewrite Hm. intros (i & -> & Hi)%list_elem_of_fmap.
  unfold matching in Hi. apply list_elem_of_filter in Hi as [[Hid _] Hi]. exists i.
  clear Hm. revert Hd Hi. unfold matching. induction inters as [|j l IH]; [by intros _ ?%elem_of_nil|].
  rewrite fmap_cons, NoDup_cons. intros [Hj Hd] [->|Hi]%elem_of_cons.
  - rewrite filter_cons_True by naive_solver. f_equal. apply elem_of_nil_inv. intros k.
    rewrite list_elem_of_filter. intros [[Hk [[=]|[= Hke]]] Hkl]. apply Hj. apply list_elem_of_fmap.
    exists k. split; [|done]. unfold pair_key. congruence.
  - rewrite filter_cons_False; [by apply IH|]. intros [Hk [[=]|[= Hke]]]. apply Hj.
    apply list_elem_of_fmap. exists i. split; [|done]. unfold pair_key. congruence.
Qed.

Lemma resolve_reference_ok inters m id declared ctx :
  index_ok inters m → resolve_interaction_reference m id declared ctx = Ok tt →
  ∃ i, matching inters id declared = [i].
Proof.
  intros Hok. unfold resolve_interaction_reference.
  destruct (m !! id) as [methods|] eqn:E; [|done].
  assert (methods_of m id = methods) as Hme by (unfold methods_of; by rewrite E).
  destruct declared as [method|].
  - case_decide; [|done]. intros _. eapply matching_unique; [done|by rewrite Hme].
  - destruct (Nat.ltb_spec 1 (length methods)); [done|]. intros _.
    pose proof (index_nonempty _ _ Hok _ _ E). rewrite (index_methods _ _ Hok) in Hme.
    destruct (matching inters id None) as [|i [|j l]]; subst; simpl in *; [done|by exists i|lia].
Qed.

Lemma require_pair_ok inters m id method ctx :
  index_ok inters m → require_pair_reference m id method ctx = Ok tt →
  ∃ i, matching inters id (Some method) = [i].
Proof.
  intros Hok. unfold require_pair_reference. case_decide; [|done].
  intros _. by eapply matching_unique.
Qed.

(** ** References of a tree *)

Inductive subnode (x : SurfaceNode) : SurfaceNode → Prop :=
| subnode_refl : subnode x x
| subnode_child c n : c ∈ node_children n → subnode x c → subnode x n.

(** The interactions a node refers to, with the method it names. *)
Definition node_refs (n : SurfaceNode) : list (string * option InteractionHttpMethod) :=
  match n with
  | Table _ _ l => (λ a, (ra_interaction_id a, ra_http_method a)) <$> l
  | Form id m | ModalTrigger id m _ => [(id, m)]
  | ActionBar l => (λ a, (ar_interaction_id a, ar_http_method a)) <$> l
  | WorkflowTrigger id _ => [(id, Some Post)]
  | _ => []
  end.

Definition node_sources (n : SurfaceNode) : list string :=
  match n with KeyValue d | Table d _ _ => [d] | _ => [] end.

Definition refs_resolve (inters : list InteractionDescriptor) (sources : gset string)
    (n : SurfaceNode) : Prop :=
  (∀ id m, (id, m) ∈ node_refs n → ∃ i, matching inters id m = [i])
  ∧ (∀ d, d ∈ node_sources n → d ∈ sources).

Lemma validate_node_children surface m inters sources n :
  validate_node surface m inters sources n = Ok tt →
  Forall (λ c, validate_node surface m inters sources c = Ok tt) (node_children n).
Proof.
  destruct n; simpl; intros Hv; inv_ok; try constructor; try by apply for_each_ok.
  apply Forall_fmap. revert Ha. generalize (∅ : gset string) as seen.
  induction tabs as [|t l IH]; intros seen Ha; [constructor|]. simpl in Ha. inv_ok.
  destruct a2. constructor; [done|by eapply IH].
Qed.

Lemma for_each_refs {A} (f : A → string * option InteractionHttpMethod) (ctx : A → string)
    inters m l :
  index_ok inters m →
  for_each (λ a, resolve_interaction_reference m (f a).1 (f a).2 (ctx a)) l = Ok tt →
  ∀ id me, (id, me) ∈ f <$> l → ∃ i, matching inters id me = [i].
Proof.
  intros Hok Hf%for_each_ok id me (a & Ha & Hin)%list_elem_of_fmap.
  rewrite Forall_forall in Hf. specialize (Hf _ Hin). rewrite <-Ha in Hf.
  by eapply resolve_reference_ok.
Qed.

Lemma validate_node_here surface m inters sources n :
  index_ok inters m → validate_node surface m inters sources n = Ok tt →
  refs_resolve inters sources n.
Proof.
  intros Hok Hv. split.
  - intros id me Hin. destruct n; simpl in *; inv_ok; try by apply elem_of_nil in Hin.
    + exact (for_each_refs (λ a, (ra_interaction_id a, ra_http_method a)) _ _ _ _ Hok Hv _ _ Hin).
    + destruct a. apply list_elem_of_singleton in Hin as [= -> ->]. by eapply resolve_reference_ok.
    + exact (for_each_refs (λ a, (ar_interaction_id a, ar_http_method a)) _ _ _ _ Hok Hv _ _ Hin).
    + destruct a. apply list_elem_of_singleton in Hin as [= -> ->]. by eapply resolve_reference_ok.
    + destruct a. apply list_elem_of_singleton in Hin as [= -> ->]. by eapply require_pair_ok.
  - intros d Hin. destruct n; simpl in *; inv_ok; try by apply elem_of_nil in Hin.
    + apply list_elem_of_singleton in Hin as ->. unfold require_data_source_reference,
        ensure_known_reference in Hv. by case_decide.
    + apply list_elem_of_singleton in Hin as ->. unfold require_data_source_reference,
        ensure_known_reference in Ha. by case_decide.
Qed.

Lemma validate_node_tree surface m inters sources n x :
  index_ok inters m → validate_node surface m inters sources n = Ok tt → subnode x n →
  refs_resolve inters sources x.
Proof.
  intros Hok Hv Hx. induction Hx as [|c n Hc _ IH]; [by eapply validate_node_here|].
  apply IH. apply validate_node_children in Hv. rewrite Forall_forall in Hv. by apply Hv.
Qed.

(** ** Admitted surfaces *)

Record surface_admitted (pk : ProviderKind) (s : RegisteredSurface) : Prop := {
  adm_kind : d_provider_kind (descriptor s) = pk;
  adm_unique : NoDup (pair_key <$> interactions s);
  adm_refs x : subnode x (root_node (descriptor s)) →
    refs_resolve (interactions s) (list_to_set (data_source_id <$> data_sources s)) x;
  adm_steps i step : i ∈ interactions s → kind i = Workflow → step ∈ workflow_steps i →
    (∀ id, submit_interaction_id step = Some id →
       ∃ j, matching (interactions s) id (Some Post) = [j])
    ∧ (∀ id, step_form_ui step ≫= pre_load_interaction_id = Some id →
       ∃ j, matching (interactions s) id (Some Get) = [j]);
  adm_queries d op : d ∈ data_sources s → ds_kind d = ProviderQuery op →
    ∃ j, matching (interactions s) op (Some Get) = [j];
  adm_methods i : i ∈ interactions s → effective_http_method i = Get ↔ kind i = DataLoad;
  adm_known i : i ∈ interactions s → effective_http_method i ∈ KNOWN_INTERACTION_HTTP_METHODS;
  adm_cleartext i : i ∈ interactions s → kind i = DataLoad → sensitive_fields i = [];
  adm_invocable i : i ∈ interactions s → pk = Service → provider_invocable i = true →
    i_required_action i = None ∧ required_action (descriptor s) = None;
}.

(** Every element a [for_fold] accepted passed its check. *)
Lemma for_fold_each {E S A} (Q : A → Prop) (f : S → A → Result E S) l s s' :
  (∀ s x s', f s x = Ok s' → Q x) → for_fold f s l = Ok s' → ∀ x, x ∈ l → Q x.
Proof.
  intros HQ. apply (for_fold_inv (λ pre _, ∀ x, x ∈ pre → Q x)); [by intros ? ?%elem_of_nil|].
  intros pre x s1 s2 IH Hf y [Hy|Hy%list_elem_of_singleton]%elem_of_app; [by apply IH|].
  subst y. by eapply HQ.
Qed.

Lemma validate_interaction_method_ok surface i :
  validate_interaction_method surface i = Ok tt →
  (effective_http_method i = Get ↔ kind i = DataLoad)
  ∧ effective_http_method i ∈ KNOWN_INTERACTION_HTTP_METHODS.
Proof.
  unfold validate_interaction_method, effective_http_method, KNOWN_INTERACTION_HTTP_METHODS.
  destruct (http_method i) eqn:Em, (kind i) eqn:Ek; simpl; repeat case_decide; try done;
    intros _; split; try naive_solver; rewrite !elem_of_cons; naive_solver.
Qed.

Lemma validate_interaction_ok s m i m' :
  validate_interaction s m i = Ok m' →
  (effective_http_method i = Get ↔ kind i = DataLoad)
  ∧ effective_http_method i ∈ KNOWN_INTERACTION_HTTP_METHODS
  ∧ (kind i = DataLoad → sensitive_fields i = [])
  ∧ (d_provider_kind (descriptor s) = Service → provider_invocable i = true →
     i_required_action i = None ∧ required_action (descriptor s) = None).
Proof.
  unfold validate_interaction. intros Hv. inv_ok. destruct a0, a1, a2, a3.
  apply validate_interaction_method_ok in Ha0 as [Hg Hk]. split_and!; [done..| |].
  - intros Hdl. unfold validate_interaction_params in Ha1. inv_checks.
    rewrite Hdl, bool_decide_true in E by done. simpl in E. by case_bool_decide.
  - intros Hpk Hinv.
    unfold validate_interaction_provider_rules, interaction_validate_for_provider in Ha2.
    unfold validate_descriptor_gated_provider_invocable in Ha3.
    rewrite Hpk, Hinv, (bool_decide_true (Service = Service)) in Ha2, Ha3 by done. simpl in *.
    destruct (i_required_action i), (required_action (descriptor s)); simpl in *; done.
Qed.

Lemma validate_workflow_step_ok surface inters m i step :
  index_ok inters m → validate_workflow_step surface m i step = Ok tt →
  (∀ id, submit_interaction_id step = Some id → ∃ j, matching inters id (Some Post) = [j])
  ∧ (∀ id, step_form_ui step ≫= pre_load_interaction_id = Some id →
       ∃ j, matching inters id (Some Get) = [j]).
Proof.
  intros Hok. unfold validate_workflow_step. intros Hv. inv_ok. destruct a. split.
  - intros id Hid. rewrite Hid in Ha. by eapply require_pair_ok.
  - intros id Hid. rewrite Hid in Hv. by eapply require_pair_ok.
Qed.

Lemma data_source_rules_ok s m ids :
  index_ok (interactions s) m → validate_surface_data_source_rules s m = Ok ids →
  ids = list_to_set (data_source_id <$> data_sources s)
  ∧ ∀ d op, d ∈ data_sources s → ds_kind d = ProviderQuery op →
            ∃ j, matching (interactions s) op (Some Get) = [j].
Proof.
  intros Hok Hv. split.
  - revert Hv. apply (for_fold_inv (λ pre ids, ids = list_to_set (data_source_id <$> pre))); [done|].
    intros pre d ids1 ids2 -> Hd. unfold validate_data_source, validate_unique_data_source_id in Hd.
    inv_checks. rewrite fmap_app, list_to_set_app_L. simpl. set_solver.
  - intros d op. revert d. refine (for_fold_each (λ d, ds_kind d = ProviderQuery op → _) _ _ _ _ _ Hv).
    intros ids1 d ids2 Hd Hk. unfold validate_data_source in Hd. inv_ok. destruct a1.
    unfold validate_data_source_reference_rules in Ha1. rewrite Hk in Ha1.
    by eapply require_pair_ok.
Qed.

Lemma descriptor_rules_ok s pk caps st st' :
  validate_surface_descriptor_rules s pk caps st = Ok st' →
  d_provider_kind (descriptor s) = pk ∧ sid s ∉ st.1 ∧ st'.1 = {[sid s]} ∪ st.1.
Proof.
  unfold validate_surface_descriptor_rules, validate_unique_surface_id,
    validate_surface_provider_kind. intros Hv. inv_ok.
  repeat case_decide; try done. by inv_ok.
Qed.

Lemma validate_surface_ok pk caps st s st' :
  validate_surface pk caps st s = Ok st' →
  surface_admitted pk s ∧ sid s ∉ st.1 ∧ st'.1 = {[sid s]} ∪ st.1.
Proof.
  unfold validate_surface. intros Hv. inv_ok. destruct a1, a3.
  apply descriptor_rules_ok in Ha as (Hk & Hnew & Heq).
  pose proof (interaction_rules_index _ _ Ha0) as Hok.
  destruct (data_source_rules_ok _ _ _ Hok Ha2) as [-> Hq].
  assert (∀ i, i ∈ interactions s → _) as Hi
    by exact (for_fold_each _ _ _ _ _ (validate_interaction_ok s) Ha0).
  split_and!; [|done|done].
  split; [done|by apply index_nodup in Hok| | |exact Hq|naive_solver..].
  - intros x Hx. by eapply validate_node_tree.
  - intros i step Hin Hw Hstep. unfold validate_workflow_step_references in Ha1.
    rewrite for_each_ok, Forall_forall in Ha1. specialize (Ha1 _ Hin). simpl in Ha1.
    case_decide; [done|]. rewrite for_each_ok, Forall_forall in Ha1.
    eapply validate_workflow_step_ok; [done|by apply Ha1].
Qed.

(** An accepted registration: distinct surfaces, each with all its references
    resolved and its rules kept. *)
Lemma validate_against_ok r p :
  validate_against r p = Ok tt →
  includes (supported_generation p) (framework_generation r) = true
  ∧ NoDup (sid <$> surfaces r)
  ∧ Forall (surface_admitted (provider_kind (provider r))) (surfaces r).
Proof.
  unfold validate_against, validate_registered_surfaces. intros Hv. inv_ok. destruct a0.
  unfold validate_supported_generation in Ha. split; [by destruct (includes _ _)|].
  revert Ha1.
  apply (for_fold_inv (λ pre st, (∀ x, x ∈ st.1 ↔ x ∈ sid <$> pre)
    ∧ NoDup (sid <$> pre) ∧ Forall (surface_admitted (provider_kind (provider r))) pre)).
  - split_and!; [|constructor..]. intros x. simpl. rewrite elem_of_nil. set_solver.
  - intros pre s st1 st2 (Hids & Hnd & Hall) (Hs & Hnew & Heq)%validate_surface_ok.
    rewrite fmap_app. split_and!.
    + intros x. rewrite Heq, elem_of_app, <-Hids. simpl. rewrite list_elem_of_singleton. set_solver.
    + rewrite NoDup_app. split_and!; [done| |by apply NoDup_singleton].
      intros x Hx ->%list_elem_of_singleton. by apply Hnew, Hids.
    + rewrite Forall_app. by split; [|constructor].
Qed.
