(* ===== verification/SurfaceRegistry.v ===== *)
(** The registry of surface providers ([crates/ui/surface-proxy/src/registry.rs]): what a
    provider may register, which providers a tenant sees, and how a call to a surface is
    resolved to one interaction of one provider. *)

From Stdlib Require Import Ascii.
From stdpp Require Import base list gmap sets strings numbers pretty sorting.
From S2P Require Import Prelude RustStr Json AccessVocab SurfaceTypes SurfaceContract.

(** ** Data *)

Inductive SurfaceProviderRejectionCode :=
  RUnsupportedGeneration | RMissingCapability | RInvalidSlot | RInvalidTransport
| RSchemaOrLimitFailure.
Record SurfaceProviderRejectionReason := mkReason {
  reason_code : SurfaceProviderRejectionCode; reason_message : string;
  reason_surface_id : option string }.
Record SurfaceProviderRejection := mkRejection {
  rejected_provider_id : string; reasons : list SurfaceProviderRejectionReason }.
Inductive SurfaceRegistryError :=
| ProviderRejected (r : SurfaceProviderRejection)
| ProviderConflict (message : string).

Record SurfaceRegistryConfig := mkConfig {
  cfg_supported_generation : FrameworkGenerationRange;
  cfg_required_capabilities : gset Capability;
  allowed_controller_queries : gset string;
  allowed_sse_topics : gset string;
  max_data_source_page_size : Z;
  max_surfaces_per_batch : nat;
  max_interactions_per_batch : nat;
  max_contract_depth : nat;
  max_registration_payload_bytes : Z }.

Definition default_config : SurfaceRegistryConfig :=
  mkConfig (mkRange (mkGeneration 1 0) (mkGeneration 1 0)) ∅ ∅ ∅ 1000 64 256 16 524288.

Record SurfaceActionSet := mkActionSet {
  as_descriptor : option Action.Action; as_interactions : list (option Action.Action) }.

Record ProviderRegistration := mkEntry {
  registration : SurfaceRegistration; service_id : option Uuid;
  service_app_name : option string; surface_actions : list SurfaceActionSet }.

Record SurfaceRegistryInner := mkRegInner {
  providers : gmap string ProviderRegistration;
  service_to_provider : gmap Uuid string;
  surface_to_providers : gmap string (gset string) }.

Definition empty_registry : SurfaceRegistryInner := mkRegInner ∅ ∅ ∅.

Record SurfaceCatalogItem := mkCatalogItem {
  ci_surface_id : string; ci_slot : string; ci_provider_id : string;
  ci_targeting : Targeting; ci_descriptor : SurfaceDescriptor }.

Record SurfaceProviderSummary := mkSummary {
  sum_provider_id : string; sum_provider_kind : ProviderKind; tenant_compatible : bool;
  sum_targeting : Targeting; sum_service_id : option Uuid;
  sum_service_app_name : option string;
  sum_encryption_metadata : option ProviderEncryptionMetadata }.

Record ResolvedSurfaceAction := mkResolved {
  res_provider_id : string; res_provider_kind : ProviderKind; res_service_id : option Uuid;
  res_service_app_name : option string; res_descriptor : SurfaceDescriptor;
  res_interaction : InteractionDescriptor;
  res_encryption_metadata : option ProviderEncryptionMetadata;
  descriptor_required_action : option Action.Action;
  interaction_required_action : option Action.Action }.

Record ResolvedSurfaceRead := mkResolvedRead {
  read_descriptor : SurfaceDescriptor; read_interactions : list InteractionDescriptor;
  read_data_sources : list DataSourceDescriptor;
  read_required_action : option Action.Action }.

Inductive SurfaceRegistryLookupError :=
| SurfaceNotFound
| InteractionNotFound
| TargetProviderRequired
| InvalidProvider (id : string)
| NoTenantCompatibleProvider
| MethodNotAllowed (allowed : list InteractionHttpMethod)
    (descriptor_action : option Action.Action)
    (interaction_actions : list (option Action.Action)).

(** [SurfaceProviderVisibility]: is the plugin provider with this id enabled? *)
Class SurfaceProviderVisibility := plugin_provider_visible : string → bool.

(** [DenyAllPluginProviders] *)
Definition DenyAllPluginProviders : SurfaceProviderVisibility := λ _, false.

(** ** Depths *)

Definition max_depth (l : list nat) : nat := foldr max 0 l.

Fixpoint surface_node_depth (n : SurfaceNode) : nat :=
  match n with
  | Section_ _ _ l | ModalTrigger _ _ l | WorkflowTrigger _ l =>
      1 + max_depth (map surface_node_depth l)
  | Tabs tabs => 1 + max_depth (map (λ t, surface_node_depth (tab_root t)) tabs)
  | _ => 1
  end.

Fixpoint json_depth (v : Value) : nat :=
  match v with
  | JArray l => 1 + max_depth (map json_depth l)
  | JObject l => 1 + max_depth (map (λ kv, json_depth kv.2) l)
  | _ => 1
  end.

(** ** Typed actions *)

Definition parse_action (s : string) : option Action.Action :=
  match Action.from_str s with Ok a => Some a | Err _ => None end.

Definition schema_failure (message : string) (surface : option string)
    : SurfaceProviderRejectionReason := mkReason RSchemaOrLimitFailure message surface.
Definition transport_failure (message : string) (surface : option string)
    : SurfaceProviderRejectionReason := mkReason RInvalidTransport message surface.

(** [if b { reasons.push(r) }] *)
Definition push_if (b : bool) (r : SurfaceProviderRejectionReason)
    : list SurfaceProviderRejectionReason := if b then [r] else [].

(** The parsed action and the reasons a failure adds. *)
Definition parse_required_action (what : string) (surface : option string)
    (value : option string) : option Action.Action * list SurfaceProviderRejectionReason :=
  match value with
  | None => (None, [])
  | Some v =>
      match parse_action v with
      | Some a => (Some a, [])
      | None => (None, [schema_failure ("invalid " +:+ what +:+ " required_action `" +:+ v +:+ "`")
                          surface])
      end
  end.

Definition parse_surface_action_set (s : RegisteredSurface)
    : SurfaceActionSet * list SurfaceProviderRejectionReason :=
  let sf := Some (sid s) in
  let d := parse_required_action "descriptor" sf (required_action (descriptor s)) in
  let acts := map (λ i, parse_required_action "interaction" sf (i_required_action i))
              (interactions s) in
  (mkActionSet d.1 (map fst acts), d.2 ++ concat (map snd acts)).

Definition parse_surface_actions (r : SurfaceRegistration)
    : Result SurfaceRegistryError (list SurfaceActionSet) :=
  let sets := map parse_surface_action_set (surfaces r) in
  match concat (map snd sets) with
  | [] => Ok (map fst sets)
  | rs => Err (ProviderRejected (mkRejection (provider_id (provider r)) rs))
  end.

(** ** Normalization *)

Definition normalize_interaction (i : InteractionDescriptor) : InteractionDescriptor :=
  with_http_method (effective_http_method i) i.

Definition normalize_surface (s : RegisteredSurface) : RegisteredSurface :=
  mkSurface (descriptor s) (map normalize_interaction (interactions s)) (data_sources s).

Definition normalize_interaction_methods (r : SurfaceRegistration) : SurfaceRegistration :=
  mkRegistration (provider r) (framework_generation r) (capabilities r)
    (effective_tenant_binding r) (map normalize_surface (surfaces r)) (encryption_metadata r).

(** ** The indexes *)

Definition set_providers m (r : SurfaceRegistryInner) :=
  mkRegInner m (service_to_provider r) (surface_to_providers r).
Definition set_service_to_provider m (r : SurfaceRegistryInner) :=
  mkRegInner (providers r) m (surface_to_providers r).
Definition set_surface_to_providers m (r : SurfaceRegistryInner) :=
  mkRegInner (providers r) (service_to_provider r) m.

(** Remove the provider everywhere, then drop the keys left empty. *)
Definition remove_provider_from_surface_index (pid : string) (r : SurfaceRegistryInner)
    : SurfaceRegistryInner :=
  set_surface_to_providers
    (filter (λ kv : string * gset string, kv.2 ≠ ∅)
       ((λ s : gset string, s ∖ {[pid]}) <$> surface_to_providers r)) r.

Definition upsert_provider (pid : string) (e : ProviderRegistration) (r : SurfaceRegistryInner)
    : SurfaceRegistryInner :=
  let r := remove_provider_from_surface_index pid r in
  let idx := foldl (λ m s, entry_insert (sid s) pid m) (surface_to_providers r)
               (surfaces (registration e)) in
  set_providers (<[pid := e]> (providers r)) (set_surface_to_providers idx r).

Definition remove_provider (pid : string) (r : SurfaceRegistryInner) : SurfaceRegistryInner :=
  let r := remove_provider_from_surface_index pid r in
  match providers r !! pid with
  | None => r
  | Some existing =>
      let r := set_providers (delete pid (providers r)) r in
      match service_id existing with
      | Some s => set_service_to_provider (delete s (service_to_provider r)) r
      | None => r
      end
  end.

(** ** Section headers *)

Definition header_action_reasons (inters : list InteractionDescriptor) (surface : option string)
    (id : string) : list SurfaceProviderRejectionReason :=
  match filter (λ i, interaction_id i = id) inters with
  | [] => [schema_failure ("section header_action_ids references unknown interaction `"
             +:+ id +:+ "`") surface]
  | l =>
      concat (map (λ i,
        push_if (negb (bool_decide (kind i = Workflow ∨ kind i = MutationAction)))
          (schema_failure ("interaction `" +:+ id +:+ "` in header_action_ids must be "
             +:+ "kind Workflow or MutationAction (got " +:+ debug_interaction_kind (kind i)
             +:+ ")") surface)
        ++ push_if (bool_decide (is_Some (form_ui i)))
             (schema_failure ("interaction `" +:+ id +:+ "` in header_action_ids must not "
                +:+ "have form_ui set") surface)) l)
  end.

Fixpoint validate_section_header_actions (inters : list InteractionDescriptor)
    (surface : option string) (n : SurfaceNode) : list SurfaceProviderRejectionReason :=
  match n with
  | Section_ _ ids children =>
      push_if (3 <? length ids)
        (schema_failure ("section header_action_ids has " +:+ pretty (length ids)
           +:+ " entries, max 3") surface)
      ++ concat (map (header_action_reasons inters surface) ids)
      ++ concat (map (validate_section_header_actions inters surface) children)
  | Tabs tabs =>
      concat (map (λ t, validate_section_header_actions inters surface (tab_root t)) tabs)
  | ModalTrigger _ _ l | WorkflowTrigger _ l =>
      concat (map (validate_section_header_actions inters surface) l)
  | _ => []
  end.

(** ** Admission *)

Definition namespace_violation (source : ProviderKind) (pid : string) : option string :=
  match source with
  | Service =>
      if starts_with "service." pid then None
      else Some "service surface registrations must use a `service.`-prefixed provider id"
  | BuiltIn =>
      if starts_with "builtin." pid then None
      else Some "built-in surface registrations must use a `builtin.`-prefixed provider id"
  | Plugin =>
      if starts_with "service." pid || starts_with "builtin." pid
      then Some "plugin surface registrations must not use a reserved provider-id namespace"
      else None
  end.

Definition sse_topic_allowlisted (topic : string) (allowlist : gset string) : bool :=
  existsb (λ entry, match identifier_new entry with
                    | Ok candidate => bool_decide (candidate = topic)
                    | Err _ => false
                    end) (elements allowlist).

Section Registry.
(** The uuid crate's parser and printer, the size of a serialized registration
    ([serde_json::to_vec], when it succeeds), and [Debug] of strings. *)
Context (parse_uuid : string → option Uuid) (fmt_uuid : Uuid → string)
        (payload_bytes : SurfaceRegistration → option Z)
        (debug_str : string → string).

Definition binding_tenant (b : EffectiveTenantBinding) : option Uuid :=
  b_tenant_id b ≫= parse_uuid.

Definition binding_reasons (service_tenant_id : option Uuid) (b : EffectiveTenantBinding)
    : list SurfaceProviderRejectionReason :=
  match service_tenant_id with
  | Some expected =>
      push_if (negb (bool_decide (b_scope b = TenantScope)))
        (transport_failure "service surface registrations must be tenant-scoped" None)
      ++ push_if (negb (bool_decide (binding_tenant b = Some expected)))
           (transport_failure ("service surface registration tenant binding does not match "
              +:+ "authenticated service tenant") None)
  | None =>
      push_if (negb (bool_decide (b_scope b = Global))
               || bool_decide (is_Some (b_tenant_id b)))
        (transport_failure ("system service surface registrations must be global-scoped "
           +:+ "with no tenant binding") None)
  end.

Definition interaction_reasons (source : ProviderKind) (encrypted : bool)
    (surface : option string) (i : InteractionDescriptor)
    : list SurfaceProviderRejectionReason :=
  (parse_required_action "interaction" surface (i_required_action i)).2
  ++ push_if (bool_decide (transport i = ControllerLocal) && negb (bool_decide (source = Plugin)))
       (transport_failure "controller_local is currently supported only for plugin providers"
          surface)
  ++ match sensitive_fields i, transport i with
     | _ :: _, ProviderProxied =>
         push_if (negb encrypted && negb (bool_decide (source = BuiltIn)))
           (schema_failure "sensitive fields require provider encryption metadata" surface)
     | _, _ => []
     end.

Definition data_source_reasons (cfg : SurfaceRegistryConfig) (source : ProviderKind)
    (surface : option string) (d : DataSourceDescriptor)
    : list SurfaceProviderRejectionReason :=
  match pagination d with
  | Some p =>
      push_if (max_data_source_page_size cfg <? default_page_size p)%Z
        (schema_failure ("default_page_size " +:+ pretty (default_page_size p)
           +:+ " exceeds max " +:+ pretty (max_data_source_page_size cfg)) surface)
      ++ push_if (max_data_source_page_size cfg <? max_page_size p)%Z
           (schema_failure ("max_page_size " +:+ pretty (max_page_size p)
              +:+ " exceeds max " +:+ pretty (max_data_source_page_size cfg)) surface)
  | None => []
  end
  ++ match ds_kind d with
     | ControllerQuery q =>
         push_if (bool_decide (source = Service))
           (transport_failure "service providers cannot declare controller_query data sources"
              surface)
         ++ push_if (negb (bool_decide (q ∈ allowed_controller_queries cfg)))
              (transport_failure ("controller query `" +:+ q +:+ "` is not allowlisted") surface)
     | Static data =>
         push_if (max_contract_depth cfg <? json_depth data)
           (schema_failure ("static data depth exceeds max " +:+ pretty (max_contract_depth cfg))
              surface)
     | ProviderQuery _ => []
     end
  ++ match refresh_policy d with
     | Sse topic =>
         push_if (negb (sse_topic_allowlisted topic (allowed_sse_topics cfg)))
           (transport_failure ("SSE topic " +:+ debug_str topic +:+ " is not allowlisted") surface)
     | _ => []
     end.

Definition surface_reasons (cfg : SurfaceRegistryConfig) (source : ProviderKind)
    (encrypted : bool) (s : RegisteredSurface) : list SurfaceProviderRejectionReason :=
  let sf := Some (sid s) in
  let d := descriptor s in
  push_if (max_contract_depth cfg <? surface_node_depth (root_node d))
    (schema_failure ("surface root depth exceeds max " +:+ pretty (max_contract_depth cfg)) sf)
  ++ push_if (bool_decide (targeting d = Targeted) && negb (bool_decide (scope d = TenantScope)))
       (schema_failure "targeted surfaces must be tenant-scoped" sf)
  ++ (parse_required_action "descriptor" sf (required_action d)).2
  ++ concat (map (interaction_reasons source encrypted sf) (interactions s))
  ++ concat (map (data_source_reasons cfg source sf) (data_sources s))
  ++ validate_section_header_actions (interactions s) sf (root_node d).

Definition contract_reasons (cfg : SurfaceRegistryConfig) (r : SurfaceRegistration)
    : list SurfaceProviderRejectionReason :=
  match validate_against r
          (mkPolicy (cfg_supported_generation cfg) (cfg_required_capabilities cfg)) with
  | Ok _ => []
  | Err e =>
      [mkReason (match code e with
                 | UnsupportedGeneration => RUnsupportedGeneration
                 | MissingCapability => RMissingCapability
                 | InvalidSlot => RInvalidSlot
                 | InvalidContract => RSchemaOrLimitFailure
                 end) (message e) None]
  end.

Definition interaction_total (r : SurfaceRegistration) : nat :=
  sum_list (map (λ s, length (interactions s)) (surfaces r)).

Definition size_reasons (cfg : SurfaceRegistryConfig) (r : SurfaceRegistration)
    : list SurfaceProviderRejectionReason :=
  match payload_bytes r with
  | Some n =>
      push_if (max_registration_payload_bytes cfg <? n)%Z
        (schema_failure ("registration payload is " +:+ pretty n +:+ " bytes, max "
           +:+ pretty (max_registration_payload_bytes cfg) +:+ " bytes") None)
  | None => []
  end
  ++ push_if (max_surfaces_per_batch cfg <? length (surfaces r))
       (schema_failure ("registration contains " +:+ pretty (length (surfaces r))
          +:+ " surfaces, max " +:+ pretty (max_surfaces_per_batch cfg)) None)
  ++ push_if (max_interactions_per_batch cfg <? interaction_total r)
       (schema_failure ("registration contains " +:+ pretty (interaction_total r)
          +:+ " interactions, max " +:+ pretty (max_interactions_per_batch cfg)) None).

Definition basics_reasons (cfg : SurfaceRegistryConfig) (source : ProviderKind)
    (r : SurfaceRegistration) (service_tenant_id : option Uuid)
    : list SurfaceProviderRejectionReason :=
  let pid := provider_id (provider r) in
  push_if (negb (bool_decide (provider_kind (provider r) = source)))
    (transport_failure ("provider_kind " +:+ debug_provider_kind (provider_kind (provider r))
       +:+ " is not allowed for this registration source") None)
  ++ match namespace_violation source pid with
     | Some m => [transport_failure m None]
     | None => []
     end
  ++ match source with
     | Service => binding_reasons service_tenant_id (effective_tenant_binding r)
     | _ => []
     end
  ++ size_reasons cfg r
  ++ concat (map (surface_reasons cfg source (bool_decide (is_Some (encryption_metadata r))))
               (surfaces r))
  ++ contract_reasons cfg r.

Definition validate_registration_basics (cfg : SurfaceRegistryConfig) (source : ProviderKind)
    (r : SurfaceRegistration) (service_tenant_id : option Uuid)
    : Result SurfaceRegistryError unit :=
  match basics_reasons cfg source r service_tenant_id with
  | [] => Ok tt
  | rs => Err (ProviderRejected (mkRejection (provider_id (provider r)) rs))
  end.

(** ** Collisions *)

Inductive EffectiveScopeKey := KeyGlobal | KeyTenant (t : Uuid).
#[local] Instance EffectiveScopeKey_eq_dec : EqDecision EffectiveScopeKey.
Proof. solve_decision. Defined.

Definition effective_scope_key (b : EffectiveTenantBinding) : option EffectiveScopeKey :=
  match b_scope b with
  | Global => Some KeyGlobal
  | TenantScope => KeyTenant <$> binding_tenant b
  end.

Definition collision_check (incoming : SurfaceRegistration) (s : RegisteredSurface)
    (existing_id : string) (e : ProviderRegistration) (t : RegisteredSurface)
    : Result SurfaceRegistryError unit :=
  if decide (sid t ≠ sid s) then Ok tt
  else if bool_decide (provider_kind (provider (registration e)) = BuiltIn)
          && negb (bool_decide (provider_kind (provider incoming) = BuiltIn))
  then Err (ProviderConflict ("surface `" +:+ sid s
         +:+ "` is already owned by built-in provider `" +:+ existing_id +:+ "`"))
  else if decide (targeting (descriptor s) = Universal ∨ targeting (descriptor t) = Universal)
  then Err (ProviderConflict ("surface `" +:+ sid s
         +:+ "` with universal targeting is already registered in the same effective scope"))
  else if decide (s ≠ t)
  then Err (ProviderConflict ("targeted surface `" +:+ sid s
         +:+ "` contract mismatch across providers in the same effective scope"))
  else Ok tt.

(** The loops over the incoming surfaces and the registered providers; the order of the
    providers, a [HashMap], is that of [map_to_list]. *)
Definition validate_contract_collisions (r : SurfaceRegistryInner)
    (incoming : SurfaceRegistration) : Result SurfaceRegistryError unit :=
  match effective_scope_key (effective_tenant_binding incoming) with
  | None => Err (ProviderConflict "invalid effective tenant binding for registration")
  | Some key =>
      for_each (λ s,
        for_each (λ '(pid, e),
          if decide (pid = provider_id (provider incoming)) then Ok tt
          else if decide (effective_scope_key (effective_tenant_binding (registration e))
                          = Some key)
          then for_each (collision_check incoming s pid e) (surfaces (registration e))
          else Ok tt) (map_to_list (providers r))) (surfaces incoming)
  end.

Definition debug_opt_str (o : option string) : string :=
  match o with Some s => "Some(" +:+ debug_str s +:+ ")" | None => "None" end.

Definition validate_registration_admission_locked (r : SurfaceRegistryInner)
    (reg : SurfaceRegistration) (sv : option Uuid) (app : option string)
    : Result SurfaceRegistryError unit :=
  let pid := provider_id (provider reg) in
  _ ← match sv, providers r !! pid with
      | Some s, Some existing =>
          match service_id existing with
          | Some s' =>
              if decide (s' ≠ s)
              then Err (ProviderConflict ("provider `" +:+ pid
                     +:+ "` is already bound to service " +:+ fmt_uuid s'))
              else Ok tt
          | None => Ok tt
          end
      | _, _ => Ok tt
      end;
  _ ← match sv, providers r !! pid with
      | Some _, Some existing =>
          if decide (service_app_name existing ≠ app)
          then Err (ProviderConflict ("provider `" +:+ pid +:+ "` app name conflict: existing="
                 +:+ debug_opt_str (service_app_name existing) +:+ ", incoming="
                 +:+ debug_opt_str app))
          else Ok tt
      | _, _ => Ok tt
      end;
  validate_contract_collisions r reg.

(** ** Operations that change the registry: the new state and the result *)

Notation Outcome := (SurfaceRegistryInner * Result SurfaceRegistryError unit)%type (only parsing).

(** The provider this service registered before, taken out of the registry. *)
Definition take_rotation_backup (sv : Uuid) (pid : string) (r : SurfaceRegistryInner)
    : SurfaceRegistryInner * option (string * ProviderRegistration) :=
  match service_to_provider r !! sv with
  | Some old =>
      if decide (old ≠ pid) then
        match providers r !! old with
        | Some entry => (remove_provider old r, Some (old, entry))
        | None => (r, None)
        end
      else (r, None)
  | None => (r, None)
  end.

Definition restore_rotation_backup (sv : Uuid)
    (backup : option (string * ProviderRegistration)) (r : SurfaceRegistryInner)
    : SurfaceRegistryInner :=
  match backup with
  | Some (old, entry) =>
      let r := upsert_provider old entry r in
      set_service_to_provider (<[sv := old]> (service_to_provider r)) r
  | None => r
  end.

Definition register_service (cfg : SurfaceRegistryConfig) (sv : Uuid) (app : string)
    (tenant : option Uuid) (reg : SurfaceRegistration) (r : SurfaceRegistryInner) : Outcome :=
  match validate_registration_basics cfg Service reg tenant with
  | Err e => (r, Err e)
  | Ok _ =>
      let pid := provider_id (provider reg) in
      let '(r, backup) := take_rotation_backup sv pid r in
      let reg := normalize_interaction_methods reg in
      match validate_registration_admission_locked r reg (Some sv) (Some app) with
      | Err e => (restore_rotation_backup sv backup r, Err e)
      | Ok _ =>
          match parse_surface_actions reg with
          | Err e => (restore_rotation_backup sv backup r, Err e)
          | Ok actions =>
              if match providers r !! pid with
                 | Some existing => negb (bool_decide (service_id existing = Some sv))
                 | None => false
                 end
              then (r, Err (ProviderConflict ("provider `" +:+ pid
                      +:+ "` is already registered by a different service")))
              else
                let r := set_service_to_provider (<[sv := pid]> (service_to_provider r)) r in
                (upsert_provider pid (mkEntry reg (Some sv) (Some app) actions) r, Ok tt)
          end
      end
  end.

(** [bootstrap_builtin] and [bootstrap_plugin], which differ in the kind they admit. *)
Definition bootstrap (cfg : SurfaceRegistryConfig) (kind : ProviderKind) (what : string)
    (reg : SurfaceRegistration) (r : SurfaceRegistryInner) : Outcome :=
  match validate_registration_basics cfg kind reg None with
  | Err e => (r, Err e)
  | Ok _ =>
      let pid := provider_id (provider reg) in
      let reg := normalize_interaction_methods reg in
      match validate_registration_admission_locked r reg None None with
      | Err e => (r, Err e)
      | Ok _ =>
          match parse_surface_actions reg with
          | Err e => (r, Err e)
          | Ok actions =>
              if match providers r !! pid with
                 | Some existing =>
                     negb (bool_decide (provider_kind (provider (registration existing)) = kind))
                 | None => false
                 end
              then (r, Err (ProviderConflict ("provider `" +:+ pid
                      +:+ "` is already registered as " +:+ what)))
              else (upsert_provider pid (mkEntry reg None None actions) r, Ok tt)
          end
      end
  end.

Definition bootstrap_builtin (cfg : SurfaceRegistryConfig) := bootstrap cfg BuiltIn "non-built-in".
Definition bootstrap_plugin (cfg : SurfaceRegistryConfig) := bootstrap cfg Plugin "non-plugin".

Definition unregister_service (sv : Uuid) (r : SurfaceRegistryInner) : SurfaceRegistryInner :=
  match service_to_provider r !! sv with
  | Some pid =>
      remove_provider pid (set_service_to_provider (delete sv (service_to_provider r)) r)
  | None => r
  end.

(** ** Queries *)

Definition surface_visible_for_tenant (b : EffectiveTenantBinding) (d : SurfaceDescriptor)
    (tenant : Uuid) : bool :=
  let here := bool_decide (b_scope b = TenantScope) in
  let mine := bool_decide (binding_tenant b = Some tenant) in
  if here && negb mine then false
  else match scope d with
       | Global => true
       | TenantScope => here && mine
       end.

Definition surface_page_for_slot (s : string) : option string :=
  if decide (s = SLOT_SETTINGS_TABS ∨ s = SLOT_SETTINGS_BELOW_GLOBAL) then Some "settings"
  else if decide (s = SLOT_SOFTWARE_TABS ∨ s = SLOT_SOFTWARE_ITEM_TABS
                  ∨ s = SLOT_SOFTWARE_ITEM_HOST_CONTEXT_MENU) then Some "software"
  else if decide (s = SLOT_HOST_DETAIL_TABS) then Some "hosts"
  else if decide (s = SLOT_SURFACE_PAGE) then Some "surfaces"
  else None.

Definition surface_slot_matches_page (s page : string) : bool :=
  match surface_page_for_slot s with
  | Some mapped => eq_ignore_ascii_case mapped page
  | None => false
  end.

(** Is the provider hidden as a disabled plugin? *)
Definition provider_hidden `{SurfaceProviderVisibility} (pid : string)
    (e : ProviderRegistration) : bool :=
  bool_decide (provider_kind (provider (registration e)) = Plugin)
  && negb (plugin_provider_visible pid).

Definition catalog_key (i : SurfaceCatalogItem) : list string :=
  [ci_slot i; ci_surface_id i; ci_provider_id i].

(** Lexicographic order of keys: [cmp] and [then_with]. *)
Fixpoint key_leb (a b : list string) : bool :=
  match a, b with
  | [], _ => true
  | _, [] => false
  | x :: a', y :: b' => str_ltb x y || (bool_decide (x = y) && key_leb a' b')
  end.

Definition list_surfaces_for_tenant `{SurfaceProviderVisibility} (tenant : Uuid)
    (slot_filter page_filter : option string) (r : SurfaceRegistryInner)
    : list SurfaceCatalogItem :=
  merge_sort (λ a b, Is_true (key_leb (catalog_key a) (catalog_key b)))
    (map_to_list (providers r) ≫= λ '(pid, e),
       if provider_hidden pid e then []
       else omap (λ s,
         let d := descriptor s in
         if negb (surface_visible_for_tenant (effective_tenant_binding (registration e)) d tenant)
         then None
         else if match slot_filter with
                 | Some f => negb (bool_decide (slot d = f)) | None => false
                 end then None
         else if match page_filter with
                 | Some p => negb (surface_slot_matches_page (slot d) p) | None => false
                 end then None
         else Some (mkCatalogItem (surface_id d) (slot d) pid (targeting d) d))
         (surfaces (registration e))).

(** The surface of a registration with this id, and its position. *)
Definition find_surface (surface : string) (reg : SurfaceRegistration)
    : option (nat * RegisteredSurface) :=
  list_find (λ s, sid s = surface) (surfaces reg).

Definition provider_summary (surface : string) (tenant : Uuid) (pid : string)
    (e : ProviderRegistration) : option SurfaceProviderSummary :=
  '(_, s) ← find_surface surface (registration e);
  Some (mkSummary pid (provider_kind (provider (registration e)))
    (surface_visible_for_tenant (effective_tenant_binding (registration e)) (descriptor s) tenant)
    (targeting (descriptor s)) (service_id e) (service_app_name e)
    (encryption_metadata (registration e))).

Definition list_targeted_providers_for_surface `{SurfaceProviderVisibility} (surface : string)
    (tenant : Uuid) (r : SurfaceRegistryInner) : list SurfaceProviderSummary :=
  let summaries := omap (λ pid,
    e ← providers r !! pid;
    if provider_hidden pid e then None else provider_summary surface tenant pid e)
    (elements (get_set surface (surface_to_providers r))) in
  merge_sort (λ a b, Is_true (str_leb (sum_provider_id a) (sum_provider_id b)))
    (filter (λ s, tenant_compatible s = true) summaries).

Definition preferred_provider_candidates (l : list SurfaceProviderSummary)
    : Result SurfaceRegistryLookupError (list SurfaceProviderSummary) :=
  match filter (λ s, tenant_compatible s = true) l with
  | [] => Err NoTenantCompatibleProvider
  | l' => Ok l'
  end.

(** The typed action of interaction number [idx]. *)
Definition action_at (set : option SurfaceActionSet) (idx : nat) : option Action.Action :=
  set ≫= λ s, mjoin (as_interactions s !! idx).

Definition method_not_allowed_error (set : option SurfaceActionSet)
    (candidates : list (nat * InteractionDescriptor)) : SurfaceRegistryLookupError :=
  let found := omap (λ m,
    (λ c : nat * InteractionDescriptor, (m, action_at set c.1)) <$>
      List.find (λ c, bool_decide (http_method c.2 = m)) candidates)
    KNOWN_INTERACTION_HTTP_METHODS in
  MethodNotAllowed (map fst found) (set ≫= as_descriptor) (map snd found).

Definition format_allowed_methods (l : list InteractionHttpMethod) : string :=
  join ", " (map method_str l).

Definition select_provider (target : option string) (l : list SurfaceProviderSummary)
    : Result SurfaceRegistryLookupError SurfaceProviderSummary :=
  match target with
  | Some t =>
      match List.find (λ s, bool_decide (sum_provider_id s = t)) l with
      | Some s => Ok s
      | None => Err (InvalidProvider t)
      end
  | None =>
      candidates ← preferred_provider_candidates l;
      if existsb (λ s, bool_decide (sum_targeting s = Targeted)) candidates
      then Err TargetProviderRequired
      else match candidates with
           | s :: _ => Ok s
           | [] => Err NoTenantCompatibleProvider
           end
  end.

Definition select_interaction (set : option SurfaceActionSet) (method : option InteractionHttpMethod)
    (l : list (nat * InteractionDescriptor))
    : Result SurfaceRegistryLookupError (nat * InteractionDescriptor) :=
  match method with
  | Some m =>
      match List.find (λ c, bool_decide (http_method c.2 = m)) l with
      | Some c => Ok c
      | None =>
          match l with
          | [] => Err InteractionNotFound
          | _ => Err (method_not_allowed_error set l)
          end
      end
  | None =>
      match l with
      | [] => Err InteractionNotFound
      | [c] => Ok c
      | _ => Err (method_not_allowed_error set l)
      end
  end.

(** Interactions with their positions. *)
Definition enumerate {A} (l : list A) : list (nat * A) := zip (seq 0 (length l)) l.

(** The registry is locked twice: [r1] is its state when the providers are listed, [r2]
    when the selected one is read. *)
Definition resolve_surface_action_for_method `{SurfaceProviderVisibility} (tenant : Uuid)
    (surface interaction : string) (method : option InteractionHttpMethod)
    (target : option string) (r1 r2 : SurfaceRegistryInner)
    : Result SurfaceRegistryLookupError ResolvedSurfaceAction :=
  match list_targeted_providers_for_surface surface tenant r1 with
  | [] => Err SurfaceNotFound
  | l =>
      sel ← select_provider target l;
      if negb (tenant_compatible sel) then Err NoTenantCompatibleProvider
      else
        match e ← providers r2 !! sum_provider_id sel;
              '(idx, s) ← find_surface surface (registration e);
              Some (e, idx, s) with
        | None => Err SurfaceNotFound
        | Some (e, idx, s) =>
            let set := surface_actions e !! idx in
            '(i_idx, i) ← select_interaction set method
               (filter (λ c, interaction_id c.2 = interaction) (enumerate (interactions s)));
            Ok (mkResolved (sum_provider_id sel) (sum_provider_kind sel) (sum_service_id sel)
                  (service_app_name e) (descriptor s) i (sum_encryption_metadata sel)
                  (set ≫= as_descriptor) (action_at set i_idx))
        end
  end.

Definition resolve_surface_read `{SurfaceProviderVisibility} (tenant : Uuid) (surface : string)
    (r1 r2 : SurfaceRegistryInner) : Result SurfaceRegistryLookupError ResolvedSurfaceRead :=
  match list_targeted_providers_for_surface surface tenant r1 with
  | [] => Err SurfaceNotFound
  | l =>
      candidates ← preferred_provider_candidates l;
      match sel ← head candidates;
            e ← providers r2 !! sum_provider_id sel;
            '(idx, s) ← find_surface surface (registration e);
            Some (e, idx, s) with
      | None => Err SurfaceNotFound
      | Some (e, idx, s) =>
          Ok (mkResolvedRead (descriptor s) (interactions s) (data_sources s)
                (surface_actions e !! idx ≫= as_descriptor))
      end
  end.

Definition provider_id_for_service (sv : Uuid) (r : SurfaceRegistryInner) : option string :=
  service_to_provider r !! sv.

Definition tenant_id_for_service (sv : Uuid) (r : SurfaceRegistryInner) : option Uuid :=
  pid ← service_to_provider r !! sv;
  e ← providers r !! pid;
  let b := effective_tenant_binding (registration e) in
  if decide (b_scope b ≠ TenantScope) then None else binding_tenant b.

Definition service_ids (r : SurfaceRegistryInner) : list Uuid :=
  (map_to_list (service_to_provider r)).*1.

Definition has_surface (surface : string) (r : SurfaceRegistryInner) : bool :=
  match surface_to_providers r !! surface with
  | Some s => negb (bool_decide (s = ∅))
  | None => false
  end.

Definition surface_ids (r : SurfaceRegistryInner) : list string :=
  (map_to_list (filter (λ kv : string * gset string, kv.2 ≠ ∅) (surface_to_providers r))).*1.

End Registry.
