(* ===== verification/SurfaceTheorems.v ===== *)
(** Properties of the surface registry: its indexes and identities stay consistent, a
    refused registration changes nothing, tenants see only their own and the global
    surfaces, and every reference a surface draws on screen can be called. *)

From Stdlib Require Import Ascii.
From stdpp Require Import base list gmap sets strings numbers pretty sorting.
From S2P Require Import Prelude RustStr Json AccessVocab SurfaceTypes SurfaceContract SurfaceRegistry.

(** ** The surface index *)

Definition listed (P : gmap string ProviderRegistration) (x pid : string) : Prop :=
  ∃ e, P !! pid = Some e ∧ x ∈ sid <$> surfaces (registration e).

Definition index_for (P : gmap string ProviderRegistration) (m : gmap string (gset string)) : Prop :=
  (∀ x pid, pid ∈ get_set x m ↔ listed P x pid) ∧ (∀ x s, m !! x = Some s → s ≠ ∅).

(** The index is determined by the providers. *)
Lemma index_unique P m1 m2 : index_for P m1 → index_for P m2 → m1 = m2.
Proof.
  intros [H1 N1] [H2 N2]. apply map_eq. intros x.
  assert (get_set x m1 = get_set x m2) as Heq by (apply set_eq; intros p; by rewrite H1, H2).
  unfold get_set in Heq.
  destruct (m1 !! x) as [s1|] eqn:E1, (m2 !! x) as [s2|] eqn:E2; simpl in Heq; subst; [done|..|done].
  - by destruct (N1 _ _ E1).
  - by destruct (N2 _ _ E2).
Qed.

Lemma index_remove P r pid :
  index_for P (surface_to_providers r) →
  index_for (delete pid P) (surface_to_providers (remove_provider_from_surface_index pid r)).
Proof.
  intros [H N]. split; simpl.
  - intros x p.
    assert (get_set x (filter (λ kv : string * gset string, kv.2 ≠ ∅)
              ((λ s : gset string, s ∖ {[pid]}) <$> surface_to_providers r))
            = get_set x (surface_to_providers r) ∖ {[pid]}) as ->.
    { unfold get_set. rewrite map_lookup_filter, lookup_fmap.
      destruct (surface_to_providers r !! x) as [s|]; simpl; [|set_solver].
      case_guard as Hc; simpl; [done|by rewrite Hc]. }
    rewrite elem_of_difference, H, elem_of_singleton. unfold listed. split.
    + intros [(e & He & Hx) Hne]. exists e. by rewrite lookup_delete_ne.
    + intros (e & [Hne He]%lookup_delete_Some & Hx). split; [by exists e|done].
  - intros x s [_ Hs]%map_lookup_filter_Some. exact Hs.
Qed.

(** The loop of [upsert_provider] over the surfaces. *)
Lemma index_insert_loop (l : list RegisteredSurface) (pid : string) (m : gmap string (gset string)) x p :
  p ∈ get_set x (foldl (λ m s, entry_insert (sid s) pid m) m l) ↔
  p ∈ get_set x m ∨ (p = pid ∧ x ∈ sid <$> l).
Proof.
  revert m. induction l as [|s l IH]; intros m; simpl; [rewrite elem_of_nil; naive_solver|].
  rewrite IH, get_entry_insert, elem_of_cons. destruct (decide (x = sid s)) as [->|]; set_solver.
Qed.

Lemma index_insert_nonempty (l : list RegisteredSurface) (pid : string) (m : gmap string (gset string)) x s :
  (∀ x s, m !! x = Some s → s ≠ ∅) →
  foldl (λ m s, entry_insert (sid s) pid m) m l !! x = Some s → s ≠ ∅.
Proof.
  revert m. induction l as [|t l IH]; intros m Hm; simpl; [apply Hm|].
  apply IH. intros y s'. unfold entry_insert. intros [[<- <-]|[_ Hy]]%lookup_insert_Some;
    [set_solver|by eapply Hm].
Qed.

Lemma index_upsert P r pid e :
  index_for P (surface_to_providers r) →
  index_for (<[pid := e]> P) (surface_to_providers (upsert_provider pid e r)).
Proof.
  intros Hi. apply (index_remove _ _ pid) in Hi as [H N]. split.
  - intros x p. cbn [upsert_provider set_providers set_surface_to_providers surface_to_providers].
    rewrite index_insert_loop, H. unfold listed. split.
    + intros [(e' & [Hne He]%lookup_delete_Some & Hx)|[-> Hx]].
      * exists e'. by rewrite lookup_insert_ne.
      * exists e. by rewrite lookup_insert_eq.
    + intros (e' & [[<- <-]|[Hne He]]%lookup_insert_Some & Hx); [by right|left].
      exists e'. by rewrite lookup_delete_ne.
  - intros x s. by apply index_insert_nonempty.
Qed.

(** ** The invariant *)

(** What a provider's kind says about its id and its owner. *)
Definition identity_ok (pid : string) (e : ProviderRegistration) : Prop :=
  match provider_kind (provider (registration e)) with
  | Service => starts_with "service." pid = true
               ∧ (∃ sv app, service_id e = Some sv ∧ service_app_name e = Some app)
  | BuiltIn => starts_with "builtin." pid = true
               ∧ service_id e = None ∧ service_app_name e = None
  | Plugin => starts_with "service." pid = false ∧ starts_with "builtin." pid = false
              ∧ service_id e = None ∧ service_app_name e = None
  end.

Lemma namespaces_disjoint pid :
  starts_with "service." pid = true → starts_with "builtin." pid = false.
Proof.
  intros [x ->]%starts_with_spec. apply not_true_iff_false.
  by intros [y [=]]%starts_with_spec.
Qed.

(** An entry under a service name belongs to a service. *)
Lemma service_identity pid e :
  identity_ok pid e → starts_with "service." pid = true →
  ∃ sv app, service_id e = Some sv ∧ service_app_name e = Some app.
Proof.
  intros Hid Hs. pose proof (namespaces_disjoint _ Hs) as Hb. unfold identity_ok in Hid.
  destruct (provider_kind _); naive_solver congruence.
Qed.

(** The id of a provider tells its kind. *)
Lemma identity_kind pid e1 e2 :
  identity_ok pid e1 → identity_ok pid e2 →
  provider_kind (provider (registration e1)) = provider_kind (provider (registration e2)).
Proof.
  pose proof (namespaces_disjoint pid) as Hd. unfold identity_ok.
  destruct (provider_kind (provider (registration e1))),
    (provider_kind (provider (registration e2))); naive_solver congruence.
Qed.

(** The action a declared string stands for; declared strings all parse. *)
Definition action_is (value : option string) (a : option Action.Action) : Prop :=
  match value with
  | None => a = None
  | Some v => ∃ a', a = Some a' ∧ Action.from_str v = Ok a'
  end.

Definition actions_ok (s : RegisteredSurface) (set : SurfaceActionSet) : Prop :=
  action_is (required_action (descriptor s)) (as_descriptor set)
  ∧ Forall2 (λ i a, action_is (i_required_action i) a) (interactions s) (as_interactions set).

Record entry_ok (pid : string) (e : ProviderRegistration) : Prop := {
  e_pid : provider_id (provider (registration e)) = pid;
  e_identity : identity_ok pid e;
  e_nodup : NoDup (sid <$> surfaces (registration e));
  e_admitted : Forall (surface_admitted (provider_kind (provider (registration e))))
                 (surfaces (registration e));
  e_normal : Forall (λ s, Forall (λ i, http_method i = effective_http_method i) (interactions s))
               (surfaces (registration e));
  e_actions : Forall2 actions_ok (surfaces (registration e)) (surface_actions e) }.

Section Registry.
Context (parse_uuid : string → option Uuid) (fmt_uuid : Uuid → string)
        (payload_bytes : SurfaceRegistration → option Z) (debug_str : string → string).

Notation scope_key e :=
  (effective_scope_key parse_uuid (effective_tenant_binding (registration e))).
Notation register_service := (register_service parse_uuid fmt_uuid payload_bytes debug_str).
Notation bootstrap := (bootstrap parse_uuid fmt_uuid payload_bytes debug_str).
Notation bootstrap_builtin := (bootstrap_builtin parse_uuid fmt_uuid payload_bytes debug_str).
Notation bootstrap_plugin := (bootstrap_plugin parse_uuid fmt_uuid payload_bytes debug_str).
Notation basics := (validate_registration_basics parse_uuid payload_bytes debug_str).
Notation admission := (validate_registration_admission_locked parse_uuid fmt_uuid debug_str).

(** Two providers of one scope share a surface only if it is targeted and they
    declare the same contract. *)
Definition compatible (e1 e2 : ProviderRegistration) : Prop :=
  scope_key e1 = scope_key e2 →
  ∀ s1 s2, s1 ∈ surfaces (registration e1) → s2 ∈ surfaces (registration e2) →
    sid s1 = sid s2 → targeting (descriptor s1) = Targeted ∧ s1 = s2.

Record registry_ok (r : SurfaceRegistryInner) : Prop := {
  ok_entry pid e : providers r !! pid = Some e → entry_ok pid e;
  ok_scope pid e : providers r !! pid = Some e → is_Some (scope_key e);
  ok_service sv pid : service_to_provider r !! sv = Some pid ↔
    ∃ e, providers r !! pid = Some e ∧ service_id e = Some sv;
  ok_index : index_for (providers r) (surface_to_providers r);
  ok_compatible p1 p2 e1 e2 : p1 ≠ p2 → providers r !! p1 = Some e1 →
    providers r !! p2 = Some e2 → compatible e1 e2 }.

Lemma empty_registry_ok : registry_ok empty_registry.
Proof.
  split; simpl; try (intros *; rewrite ?lookup_empty; done).
  - intros sv pid. rewrite !lookup_empty. naive_solver.
  - split.
    + intros x pid. unfold get_set, listed. setoid_rewrite lookup_empty. simpl. set_solver.
    + intros x s. by rewrite lookup_empty.
Qed.

(** [remove_provider], as a change of the three maps. *)
Lemma remove_provider_parts r pid :
  providers (remove_provider pid r) = delete pid (providers r)
  ∧ service_to_provider (remove_provider pid r) =
    match providers r !! pid ≫= service_id with
    | Some s => delete s (service_to_provider r)
    | None => service_to_provider r
    end
  ∧ surface_to_providers (remove_provider pid r)
    = surface_to_providers (remove_provider_from_surface_index pid r).
Proof.
  unfold remove_provider. simpl. destruct (providers r !! pid) as [e|] eqn:E; simpl.
  - by destruct (service_id e).
  - split_and!; [|done..]. by rewrite delete_id.
Qed.

Lemma remove_provider_ok r pid : registry_ok r → registry_ok (remove_provider pid r).
Proof.
  intros [He Hs Hv Hi Hc]. destruct (remove_provider_parts r pid) as (HP & HS & HX).
  split; rewrite ?HP, ?HS, ?HX.
  - intros p e [_ Hp]%lookup_delete_Some. by apply He.
  - intros p e [_ Hp]%lookup_delete_Some. by eapply Hs.
  - intros sv p. setoid_rewrite lookup_delete_Some. split.
    + intros Hsv. assert (service_to_provider r !! sv = Some p ∧ p ≠ pid) as [Hp Hne].
      { destruct (providers r !! pid) as [e|] eqn:E; simpl in Hsv.
        - destruct (service_id e) as [s|] eqn:Es.
          + apply lookup_delete_Some in Hsv as [Hne Hsv]. split; [done|]. intros ->.
            apply Hv in Hsv as (e' & He' & Hs'). congruence.
          + split; [done|]. intros ->. apply Hv in Hsv as (e' & He' & Hs'). congruence.
        - split; [done|]. intros ->. apply Hv in Hsv as (e' & He' & Hs'). congruence. }
      apply Hv in Hp as (e & ? & ?). exists e. naive_solver.
    + intros (e & [Hne Hp] & Hsv). assert (service_to_provider r !! sv = Some p) as Hin
        by (apply Hv; eauto).
      destruct (providers r !! pid) as [e'|] eqn:E; simpl; [|done].
      destruct (service_id e') as [s|] eqn:Es; [|done]. rewrite lookup_delete_ne; [done|].
      intros ->. assert (service_to_provider r !! sv = Some pid) by (apply Hv; eauto). congruence.
  - by apply index_remove.
  - intros p1 p2 e1 e2 Hne [_ H1]%lookup_delete_Some [_ H2]%lookup_delete_Some. by eapply Hc.
Qed.

(** Installing an entry for [pid], owned by [service_id e]. *)
Definition install (pid : string) (e : ProviderRegistration) (r : SurfaceRegistryInner)
    : SurfaceRegistryInner :=
  upsert_provider pid e
    match service_id e with
    | Some sv => set_service_to_provider (<[sv := pid]> (service_to_provider r)) r
    | None => r
    end.

Lemma install_parts pid e r :
  providers (install pid e r) = <[pid := e]> (providers r)
  ∧ service_to_provider (install pid e r) =
    match service_id e with
    | Some sv => <[sv := pid]> (service_to_provider r)
    | None => service_to_provider r
    end.
Proof. unfold install. by destruct (service_id e). Qed.

Lemma install_ok r pid e :
  registry_ok r → entry_ok pid e → is_Some (scope_key e) →
  (∀ p e', p ≠ pid → providers r !! p = Some e' → compatible e e' ∧ compatible e' e) →
  (∀ sv p, service_id e = Some sv → service_to_provider r !! sv = Some p → p = pid) →
  (∀ e', providers r !! pid = Some e' → service_id e' = service_id e) →
  registry_ok (install pid e r).
Proof.
  intros [He Hs Hv Hi Hc] Hok Hscope Hcomp Hown Hsame.
  destruct (install_parts pid e r) as [HP HS]. split; rewrite ?HP, ?HS.
  - intros p e' [[<- <-]|[_ Hp]]%lookup_insert_Some; [done|by apply He].
  - intros p e' [[<- <-]|[_ Hp]]%lookup_insert_Some; [done|by eapply Hs].
  - intros sv p. setoid_rewrite lookup_insert_Some. split.
    + intros Hsv. destruct (service_id e) as [s|] eqn:Es.
      * apply lookup_insert_Some in Hsv as [[<- <-]|[Hne Hsv]]; [by exists e; auto|].
        apply Hv in Hsv as (e' & He' & Hs'). exists e'. split; [|done].
        right. split; [|done]. intros ->. apply Hsame in He'. congruence.
      * apply Hv in Hsv as (e' & He' & Hs'). exists e'. split; [|done].
        right. split; [|done]. intros ->. apply Hsame in He'. congruence.
    + intros (e' & [[<- <-]|[Hne Hp]] & Hsv).
      * rewrite Hsv. apply lookup_insert_eq.
      * assert (service_to_provider r !! sv = Some p) as Hin by (apply Hv; eauto).
        destruct (service_id e) as [s|] eqn:Es; [|done].
        rewrite lookup_insert_ne; [done|]. intros ->. destruct Hne. symmetry. by eapply Hown.
  - unfold install. destruct (service_id e); by apply index_upsert.
  - intros p1 p2 e1 e2 Hne [[<- <-]|[Hn1 H1]]%lookup_insert_Some
      [[<- <-]|[Hn2 H2]]%lookup_insert_Some; [done| | |by apply (Hc p1 p2)].
    + by apply (Hcomp p2).
    + by apply (Hcomp p1).
Qed.

(** ** Rotation of a service's provider *)

Lemma restore_take r sv pid r' backup :
  registry_ok r → take_rotation_backup sv pid r = (r', backup) →
  restore_rotation_backup sv backup r' = r.
Proof.
  intros Hok. unfold take_rotation_backup.
  destruct (service_to_provider r !! sv) as [old|] eqn:Es; [|by intros [= <- <-]].
  case_decide; [|by intros [= <- <-]].
  pose proof Es as (e & He & Hsv)%(ok_service _ Hok). rewrite He. intros [= <- <-].
  unfold restore_rotation_backup. destruct (remove_provider_parts r old) as (HP & HS & HX).
  pose proof (index_upsert _ _ old e (ok_index _ (remove_provider_ok _ old Hok))) as Hidx.
  rewrite HP, insert_delete_id in Hidx by done.
  assert (surface_to_providers (upsert_provider old e (remove_provider old r))
          = surface_to_providers r) as HI by exact (index_unique _ _ _ Hidx (ok_index _ Hok)).
  unfold set_service_to_provider. rewrite HI.
  assert (providers (upsert_provider old e (remove_provider old r)) = providers r) as ->.
  { unfold upsert_provider. simpl. by rewrite HP, insert_delete_id. }
  assert (service_to_provider (upsert_provider old e (remove_provider old r))
          = delete sv (service_to_provider r)) as ->.
  { unfold upsert_provider. simpl. rewrite HS, He. simpl. by rewrite Hsv. }
  rewrite insert_delete_id by done. by destruct r.
Qed.

Lemma take_rotation_ok r sv pid r' backup :
  registry_ok r → take_rotation_backup sv pid r = (r', backup) →
  registry_ok r'
  ∧ (∀ p, service_to_provider r' !! sv = Some p → p = pid)
  ∧ (∀ p e, providers r' !! p = Some e → providers r !! p = Some e).
Proof.
  intros Hok. unfold take_rotation_backup.
  destruct (service_to_provider r !! sv) as [old|] eqn:Es.
  - case_decide as Hne.
    + pose proof Es as (e & He & Hsv)%(ok_service _ Hok). rewrite He. intros [= <- <-].
      destruct (remove_provider_parts r old) as (HP & HS & _).
      split; [by apply remove_provider_ok|]. rewrite HP, HS, He. simpl. rewrite Hsv. split.
      * intros p. by rewrite lookup_delete_eq.
      * by intros p e' [_ ?]%lookup_delete_Some.
    + intros [= <- <-]. split_and!; [done| |done]. intros p Hp.
      rewrite Es in Hp. destruct (decide (old = pid)); naive_solver.
  - intros [= <- <-]. split_and!; [done| |done]. intros p Hp. congruence.
Qed.

(** ** Reading the admission checks *)

Lemma push_if_nil b x : push_if b x = [] ↔ b = false.
Proof. by destruct b. Qed.

Lemma basics_ok cfg source reg tenant :
  basics cfg source reg tenant = Ok tt ↔
  basics_reasons parse_uuid payload_bytes debug_str cfg source reg tenant = [].
Proof. unfold validate_registration_basics. by destruct (basics_reasons _ _ _ _ _ _ _). Qed.

Lemma basics_facts cfg source reg tenant :
  basics cfg source reg tenant = Ok tt →
  provider_kind (provider reg) = source
  ∧ namespace_violation source (provider_id (provider reg)) = None
  ∧ (source = Service → binding_reasons parse_uuid tenant (effective_tenant_binding reg) = [])
  ∧ NoDup (sid <$> surfaces reg)
  ∧ Forall (surface_admitted source) (surfaces reg).
Proof.
  rewrite basics_ok. unfold basics_reasons. intros H. repeat apply app_nil in H as [? H].
  rewrite push_if_nil in *. assert (provider_kind (provider reg) = source) as Hk
    by (by destruct (bool_decide_reflect (provider_kind (provider reg) = source))).
  unfold contract_reasons in H. destruct (validate_against _ _) as [[]|] eqn:Ev; [|done].
  apply validate_against_ok in Ev as (_ & Hnd & Had). rewrite Hk in Had.
  split_and!; [done| | |done|done].
  - by destruct (namespace_violation _ _).
  - by intros ->.
Qed.

Lemma basics_service cfg reg tenant :
  basics cfg Service reg tenant = Ok tt →
  starts_with "service." (provider_id (provider reg)) = true.
Proof.
  intros (_ & Hns & _)%basics_facts. unfold namespace_violation in Hns.
  by destruct (starts_with "service." _).
Qed.

Lemma normalize_effective i :
  effective_http_method (normalize_interaction i) = effective_http_method i.
Proof. unfold effective_http_method. simpl. unfold effective_http_method. by repeat case_decide. Qed.

Lemma matching_normalize l id m :
  matching (map normalize_interaction l) id m = map normalize_interaction (matching l id m).
Proof.
  unfold matching. induction l as [|i l IH]; [done|]. rewrite map_cons, !filter_cons, normalize_effective.
  simpl. rewrite IH. by case_decide.
Qed.

Lemma matching_normalize_one l id m i :
  matching l id m = [i] → ∃ j, matching (map normalize_interaction l) id m = [j].
Proof. intros H. rewrite matching_normalize, H. by eexists. Qed.

Lemma normalize_admitted pk s : surface_admitted pk s → surface_admitted pk (normalize_surface s).
Proof.
  intros [Hk Hu Hr Hs Hq Hm Hkn Hcl Hinv].
  assert (∀ i, i ∈ interactions (normalize_surface s) →
    ∃ j, i = normalize_interaction j ∧ j ∈ interactions s) as Hn
    by (intros i (j & -> & Hj)%list_elem_of_fmap; eauto).
  split; simpl; [done|..].
  - replace (pair_key <$> map normalize_interaction (interactions s))
      with (pair_key <$> interactions s); [done|].
    change (map normalize_interaction (interactions s))
      with (normalize_interaction <$> interactions s).
    rewrite <-list_fmap_compose. apply list_fmap_ext. intros _ i _. unfold pair_key. simpl.
    by rewrite normalize_effective.
  - intros x Hx. destruct (Hr x Hx) as [Hrefs Hsrc]. split; [|done].
    intros id m Hin. destruct (Hrefs id m Hin) as [i Hi]. by eapply matching_normalize_one.
  - intros i step (j & -> & Hj)%Hn Hw Hstep. destruct (Hs j step Hj Hw Hstep) as [H1 H2].
    split; intros id Hid; [destruct (H1 id Hid)|destruct (H2 id Hid)];
      by eapply matching_normalize_one.
  - intros d op Hd Hop. destruct (Hq d op Hd Hop). by eapply matching_normalize_one.
  - intros i (j & -> & Hj)%Hn. rewrite normalize_effective. by apply (Hm j).
  - intros i (j & -> & Hj)%Hn. rewrite normalize_effective. by apply (Hkn j).
  - intros i (j & -> & Hj)%Hn. by apply (Hcl j).
  - intros i (j & -> & Hj)%Hn. by apply (Hinv j).
Qed.

Lemma parse_required_ok what surface v a rs :
  parse_required_action what surface v = (a, rs) → rs = [] → action_is v a.
Proof.
  unfold parse_required_action, parse_action, action_is. destruct v as [v|]; [|by intros [= <- <-]].
  destruct (Action.from_str v); intros [= <- <-]; [eauto|done].
Qed.

Lemma parse_surface_actions_ok reg actions :
  parse_surface_actions reg = Ok actions → Forall2 actions_ok (surfaces reg) actions.
Proof.
  unfold parse_surface_actions.
  destruct (concat _) eqn:E; [|done]. intros [= <-]. revert E.
  induction (surfaces reg) as [|s l IH]; simpl; [constructor|].
  intros [[Hd Hi]%app_nil Hl]%app_nil. constructor; [|by apply IH]. split; simpl.
  - eapply parse_required_ok; [apply surjective_pairing|done].
  - revert Hi. induction (interactions s) as [|i l' IHi]; simpl; [constructor|].
    intros [Hi Hr]%app_nil. constructor; [|by apply IHi].
    eapply parse_required_ok; [apply surjective_pairing|done].
Qed.

Lemma collision_check_ok reg s p e t :
  collision_check reg s p e t = Ok tt → sid s = sid t →
  targeting (descriptor s) = Targeted ∧ targeting (descriptor t) = Targeted ∧ s = t.
Proof.
  unfold collision_check. intros H Hid. rewrite decide_False in H by naive_solver.
  destruct (bool_decide (_ = BuiltIn) && _); [done|].
  case_decide as Ht; [done|]. case_decide as Heq; [done|].
  destruct (targeting (descriptor s)), (targeting (descriptor t)); naive_solver.
Qed.

Lemma collisions_ok r reg :
  validate_contract_collisions parse_uuid r reg = Ok tt →
  is_Some (effective_scope_key parse_uuid (effective_tenant_binding reg))
  ∧ ∀ e p e', registration e = reg → p ≠ provider_id (provider reg) →
      providers r !! p = Some e' → compatible e e' ∧ compatible e' e.
Proof.
  unfold validate_contract_collisions.
  destruct (effective_scope_key _ _) as [key|] eqn:Ek; [|done].
  rewrite for_each_ok, Forall_forall. intros H. split; [by eexists|].
  intros e p e' Hreg Hne Hp.
  assert (scope_key e = scope_key e' → ∀ s t, s ∈ surfaces (registration e) →
    t ∈ surfaces (registration e') → sid s = sid t →
    targeting (descriptor s) = Targeted ∧ targeting (descriptor t) = Targeted ∧ s = t) as Hall.
  { rewrite Hreg. intros Hkey s t Hs Ht Hid. specialize (H s Hs).
    rewrite for_each_ok, Forall_forall in H.
    specialize (H (p, e') (proj2 (elem_of_map_to_list _ _ _) Hp)). simpl in H.
    rewrite decide_False in H by done. rewrite decide_True in H by congruence.
    rewrite for_each_ok, Forall_forall in H. eapply collision_check_ok; [by apply H|done]. }
  split.
  - intros Hkey s t Hs Ht Hid. naive_solver.
  - intros Hkey s t Hs Ht Hid. symmetry in Hkey, Hid.
    destruct (Hall Hkey t s Ht Hs Hid) as (? & ? & ->). done.
Qed.

Lemma admission_ok r reg sv app :
  admission r reg sv app = Ok tt →
  (∀ s e s', sv = Some s → providers r !! provider_id (provider reg) = Some e →
     service_id e = Some s' → s' = s)
  ∧ validate_contract_collisions parse_uuid r reg = Ok tt.
Proof.
  unfold validate_registration_admission_locked. intros H. inv_ok. split; [|done].
  intros s e s' -> He Hs. rewrite He, Hs in Ha. case_decide; [done|].
  by destruct (decide (s' = s)).
Qed.

(** The entry an admitted registration becomes. *)
Lemma admitted_entry_ok cfg kd reg tenant sv app actions :
  basics cfg kd reg tenant = Ok tt →
  parse_surface_actions (normalize_interaction_methods reg) = Ok actions →
  match kd with
  | Service => is_Some sv ∧ is_Some app
  | _ => sv = None ∧ app = None
  end →
  entry_ok (provider_id (provider reg))
    (mkEntry (normalize_interaction_methods reg) sv app actions).
Proof.
  intros (Hk & Hns & _ & Hnd & Had)%basics_facts Hact%parse_surface_actions_ok Hown.
  split; simpl.
  - done.
  - unfold identity_ok. simpl. rewrite Hk. unfold namespace_violation in Hns.
    unfold is_Some in Hown.
    set (pid := provider_id (provider reg)) in *.
    destruct kd, (starts_with "service." pid), (starts_with "builtin." pid); naive_solver.
  - replace (sid <$> map normalize_surface (surfaces reg)) with (sid <$> surfaces reg); [done|].
    change (map normalize_surface (surfaces reg)) with (normalize_surface <$> surfaces reg).
    by rewrite <-list_fmap_compose.
  - rewrite Hk. apply Forall_map. eapply Forall_impl; [exact Had|]. intros s. apply normalize_admitted.
  - apply Forall_map, Forall_forall. intros s _. apply Forall_map, Forall_forall. intros i _.
    by rewrite normalize_effective.
  - exact Hact.
Qed.

(** ** The operations *)

(** What registering a service does: nothing unless it is admitted, and then the
    provider it had before, if another, is gone and the new entry installed. *)
Lemma register_service_cases cfg sv app tenant reg r r' res :
  registry_ok r → register_service cfg sv app tenant reg r = (r', res) →
  (r' = r ∧ ∃ e, res = Err e)
  ∨ (res = Ok tt ∧ ∃ r0 actions,
       basics cfg Service reg tenant = Ok tt
       ∧ r0 = (take_rotation_backup sv (provider_id (provider reg)) r).1
       ∧ admission r0 (normalize_interaction_methods reg) (Some sv) (Some app) = Ok tt
       ∧ parse_surface_actions (normalize_interaction_methods reg) = Ok actions
       ∧ r' = install (provider_id (provider reg))
                (mkEntry (normalize_interaction_methods reg) (Some sv) (Some app) actions) r0).
Proof.
  intros Hok. unfold SurfaceRegistry.register_service.
  destruct (basics _ _ _ _) as [[]|e] eqn:Eb; [|intros [= <- <-]; eauto].
  destruct (take_rotation_backup _ _ _) as [r0 backup] eqn:Et.
  destruct (admission _ _ _ _) as [[]|e] eqn:Ea;
    [|intros [= <- <-]; left; split; [by eapply restore_take|eauto]].
  destruct (parse_surface_actions _) as [actions|e] eqn:Ep;
    [|intros [= <- <-]; left; split; [by eapply restore_take|eauto]].
  destruct (match providers r0 !! _ with Some _ => _ | None => _ end) eqn:Ec;
    [|intros [= <- <-]; right; split; [done|]; by exists r0, actions].
  exfalso. destruct (providers r0 !! _) as [e|] eqn:Ee; [|done].
  destruct (take_rotation_ok _ _ _ _ _ Hok Et) as (Hok0 & _ & _).
  apply admission_ok in Ea as [Hsame _]. pose proof (basics_service _ _ _ Eb) as Hsv.
  pose proof (e_identity _ _ (ok_entry _ Hok0 _ _ Ee)) as Hid.
  apply negb_true_iff, bool_decide_eq_false in Ec.
  destruct (service_identity _ _ Hid Hsv) as (s' & app' & Hs & _).
  simpl in Hsame. rewrite (Hsame _ _ _ eq_refl Ee Hs) in Hs. done.
Qed.

Lemma register_service_ok cfg sv app tenant reg r r' res :
  registry_ok r → register_service cfg sv app tenant reg r = (r', res) → registry_ok r'.
Proof.
  intros Hok Hr. destruct (register_service_cases _ _ _ _ _ _ _ _ Hok Hr) as [[-> _]|H]; [done|].
  destruct H as (_ & r0 & actions & Hb & H0 & Ha & Hp & ->).
  destruct (take_rotation_backup _ _ _) as [r1 backup] eqn:Et. simpl in H0. subst r1.
  destruct (take_rotation_ok _ _ _ _ _ Hok Et) as (Hok0 & Hown & _).
  apply admission_ok in Ha as [Hsame [Hkey Hcomp]%collisions_ok]. simpl in Hsame, Hcomp.
  apply install_ok; [done|by eapply admitted_entry_ok; eauto|done| | |].
  - intros p e' Hne He'. by eapply Hcomp.
  - intros sv' p [= <-] Hsv. by apply Hown.
  - intros e' He'. simpl.
    pose proof (basics_service _ _ _ Hb) as Hsvc.
    destruct (service_identity _ _ (e_identity _ _ (ok_entry _ Hok0 _ _ He')) Hsvc)
      as (s' & app' & Hs & _).
    by rewrite Hs, (Hsame _ _ _ eq_refl He' Hs).
Qed.

Lemma bootstrap_cases cfg kd what reg r r' res :
  bootstrap cfg kd what reg r = (r', res) →
  (r' = r ∧ ∃ e, res = Err e)
  ∨ (res = Ok tt ∧ ∃ actions,
       basics cfg kd reg None = Ok tt
       ∧ admission r (normalize_interaction_methods reg) None None = Ok tt
       ∧ parse_surface_actions (normalize_interaction_methods reg) = Ok actions
       ∧ (∀ e, providers r !! provider_id (provider reg) = Some e →
            provider_kind (provider (registration e)) = kd)
       ∧ r' = install (provider_id (provider reg))
                (mkEntry (normalize_interaction_methods reg) None None actions) r).
Proof.
  unfold SurfaceRegistry.bootstrap.
  destruct (basics _ _ _ _) as [[]|e] eqn:Eb; [|intros [= <- <-]; eauto].
  destruct (admission _ _ _ _) as [[]|e] eqn:Ea; [|intros [= <- <-]; eauto].
  destruct (parse_surface_actions _) as [actions|e] eqn:Ep; [|intros [= <- <-]; eauto].
  destruct (match providers r !! _ with Some _ => _ | None => _ end) eqn:Ec;
    [intros [= <- <-]; eauto|].
  intros [= <- <-]. right. split; [done|]. exists actions. split_and!; [done..| |done].
  intros e He. rewrite He in Ec. by apply negb_false_iff, bool_decide_eq_true in Ec.
Qed.

Lemma bootstrap_ok cfg kd what reg r r' res :
  kd ≠ Service → registry_ok r → bootstrap cfg kd what reg r = (r', res) → registry_ok r'.
Proof.
  intros Hkd Hok Hb. destruct (bootstrap_cases _ _ _ _ _ _ _ Hb) as [[-> _]|H]; [done|].
  destruct H as (_ & actions & Hba & Ha & Hp & Hkind & ->).
  apply admission_ok in Ha as [_ [Hkey Hcomp]%collisions_ok]. simpl in Hcomp.
  apply install_ok; [done| |done| |done|].
  - eapply admitted_entry_ok; [done..|by destruct kd].
  - intros p e' Hne He'. by eapply Hcomp.
  - intros e' He'. simpl. pose proof (e_identity _ _ (ok_entry _ Hok _ _ He')) as Hid.
    unfold identity_ok in Hid. rewrite (Hkind _ He') in Hid. destruct kd; naive_solver.
Qed.

(** Unbinding the service first makes no difference: removing its provider does it too. *)
Lemma unregister_remove sv r :
  registry_ok r →
  unregister_service sv r
  = match service_to_provider r !! sv with Some pid => remove_provider pid r | None => r end.
Proof.
  intros Hok. unfold unregister_service. destruct (service_to_provider r !! sv) as [pid|] eqn:Es; [|done].
  pose proof Es as (e & He & Hsv)%(ok_service _ Hok).
  unfold remove_provider. simpl. rewrite He, Hsv. unfold set_service_to_provider, set_providers.
  simpl. by rewrite (delete_id (delete sv _)) by apply lookup_delete_eq.
Qed.

Lemma unregister_service_ok sv r : registry_ok r → registry_ok (unregister_service sv r).
Proof.
  intros Hok. rewrite unregister_remove by done.
  destruct (service_to_provider r !! sv); [by apply remove_provider_ok|done].
Qed.

(** ** Reachable registries *)

Inductive step : SurfaceRegistryInner → SurfaceRegistryInner → Prop :=
| step_register cfg sv app tenant reg r :
    step r (register_service cfg sv app tenant reg r).1
| step_builtin cfg reg r : step r (bootstrap_builtin cfg reg r).1
| step_plugin cfg reg r : step r (bootstrap_plugin cfg reg r).1
| step_unregister sv r : step r (unregister_service sv r).

Definition reachable : SurfaceRegistryInner → Prop := rtc step empty_registry.

Lemma registry_step_ok r r' : registry_ok r → step r r' → registry_ok r'.
Proof.
  intros Hok Hstep. revert Hok.
  destruct Hstep as [cfg sv app tenant reg r|cfg reg r|cfg reg r|sv r]; intros Hok.
  - eapply register_service_ok; [done|apply surjective_pairing].
  - eapply (bootstrap_ok _ BuiltIn); [done|done|apply surjective_pairing].
  - eapply (bootstrap_ok _ Plugin); [done|done|apply surjective_pairing].
  - by apply unregister_service_ok.
Qed.

Lemma reachable_ok r : reachable r → registry_ok r.
Proof.
  intros Hr. assert (∀ a, registry_ok a → rtc step a r → registry_ok r) as H
    by (intros a Ha; induction 1; eauto using registry_step_ok).
  eapply H; [exact empty_registry_ok|done].
Qed.

End Registry.
