(* ===== verification/SurfaceQueries.v ===== *)
(** What the surface registry answers: tenants reach only surfaces visible to them, the
    typed actions of an answer are those the provider declared, and every reference a
    surface draws on screen can be called. *)

From Stdlib Require Import Ascii.
From stdpp Require Import base list gmap sets strings numbers pretty sorting.
From S2P Require Import Prelude RustStr Json AccessVocab SurfaceTypes SurfaceContract SurfaceRegistry SurfaceTheorems.

(** ** Lists *)

Lemma find_elem {A} (f : A → bool) l x : List.find f l = Some x → x ∈ l ∧ f x = true.
Proof. intros [Hin Hf]%find_some. split; [by apply list_elem_of_In|done]. Qed.

Lemma find_in {A} (f : A → bool) l x : x ∈ l → f x = true → is_Some (List.find f l).
Proof.
  intros Hx Hf. destruct (List.find f l) eqn:E; [by eexists|].
  apply list_elem_of_In in Hx. pose proof (find_none _ _ E _ Hx). congruence.
Qed.

Lemma elem_of_merge_sort {A} (R : relation A) `{∀ x y, Decision (R x y)} l x :
  x ∈ merge_sort R l ↔ x ∈ l.
Proof. by rewrite (merge_sort_Permutation R l). Qed.

Lemma elem_of_enumerate {A} (l : list A) k x : (k, x) ∈ enumerate l ↔ l !! k = Some x.
Proof.
  unfold enumerate. rewrite list_elem_of_lookup. split.
  - intros [j (a & b & [= -> ->] & [Ha _]%lookup_seq & Hb)%lookup_zip_with_Some]. by subst.
  - intros Hk. exists k. apply lookup_zip_with_Some. exists k, x.
    split_and!; [done| |done]. apply lookup_seq. split; [done|]. by eapply lookup_lt_Some.
Qed.

Lemma enumerate_snd {A} (l : list A) : (enumerate l).*2 = l.
Proof. unfold enumerate. apply snd_zip. by rewrite length_seq. Qed.

Lemma filter_fmap_snd {A B} (P : B → Prop) `{∀ x, Decision (P x)} (l : list (A * B)) :
  (filter (λ c, P c.2) l).*2 = filter P l.*2.
Proof.
  induction l as [|c l IH]; [done|]. rewrite fmap_cons, !filter_cons.
  case_decide; csimpl; by rewrite IH.
Qed.

Lemma surface_unique l s t :
  NoDup (sid <$> l) → s ∈ l → t ∈ l → sid s = sid t → s = t.
Proof.
  intros Hnd [i Hi]%list_elem_of_lookup [j Hj]%list_elem_of_lookup Hst.
  assert (i = j) as ->; [|congruence].
  eapply NoDup_lookup; [exact Hnd|rewrite list_lookup_fmap, Hi; done|].
  rewrite list_lookup_fmap, Hj. simpl. by rewrite Hst.
Qed.

Section Queries.
Context (parse_uuid : string → option Uuid) (fmt_uuid : Uuid → string)
        (payload_bytes : SurfaceRegistration → option Z) (debug_str : string → string).
Context `{SurfaceProviderVisibility}.

Notation visible := (surface_visible_for_tenant parse_uuid).
Notation binding e := (effective_tenant_binding (registration e)).
Notation targeted_providers := (list_targeted_providers_for_surface parse_uuid).
Notation resolve := (resolve_surface_action_for_method parse_uuid).
Notation registry_ok := (registry_ok parse_uuid).

(** Tenant-bound surfaces are visible only to the tenant of the binding. *)
Lemma visible_tenant b d tenant :
  visible b d tenant = true →
  b_scope b = TenantScope → binding_tenant parse_uuid b = Some tenant.
Proof.
  unfold surface_visible_for_tenant. intros Hv Hs. rewrite bool_decide_true in Hv by done.
  by destruct (bool_decide_reflect (binding_tenant parse_uuid b = Some tenant)).
Qed.

Lemma targeted_elem surface tenant r sm :
  sm ∈ targeted_providers surface tenant r ↔
  ∃ pid e, pid ∈ get_set surface (surface_to_providers r)
    ∧ providers r !! pid = Some e ∧ provider_hidden pid e = false
    ∧ provider_summary parse_uuid surface tenant pid e = Some sm ∧ tenant_compatible sm = true.
Proof.
  unfold list_targeted_providers_for_surface.
  rewrite elem_of_merge_sort, list_elem_of_filter, list_elem_of_omap. split.
  - intros (Hc & pid & Hpid%elem_of_elements & (e & He & Hs)%bind_Some).
    destruct (provider_hidden pid e) eqn:?; [done|]. by exists pid, e.
  - intros (pid & e & Hpid & He & Hh & Hs & Hc). split; [done|]. exists pid.
    rewrite elem_of_elements, He. split; [done|]. simpl. by rewrite Hh.
Qed.

Lemma summary_some surface tenant pid e sm :
  provider_summary parse_uuid surface tenant pid e = Some sm →
  ∃ s, s ∈ surfaces (registration e) ∧ sid s = surface
    ∧ sm = mkSummary pid (provider_kind (provider (registration e)))
             (visible (binding e) (descriptor s) tenant) (targeting (descriptor s))
             (service_id e) (service_app_name e) (encryption_metadata (registration e)).
Proof.
  unfold provider_summary, find_surface. intros ([k s] & Hf & [= <-])%bind_Some.
  apply list_find_Some in Hf as (Hk & Hs & _). exists s. split_and!; [|done|done].
  by eapply list_elem_of_lookup_2.
Qed.

Lemma select_provider_elem target l sm : select_provider target l = Ok sm → sm ∈ l.
Proof.
  unfold select_provider. destruct target as [t|].
  - destruct (List.find _ l) eqn:E; [|done]. intros [= <-]. by apply find_elem in E as [? _].
  - intros Hs. inv_ok. unfold preferred_provider_candidates in Ha.
    destruct (filter _ l) as [|x l'] eqn:El; [done|]. injection Ha as <-.
    destruct (existsb _ _); [done|]. injection Hs as <-.
    assert (x ∈ filter (λ s, tenant_compatible s = true) l) as Hx by (rewrite El; left).
    by apply list_elem_of_filter in Hx as [_ ?].
Qed.

Lemma select_interaction_elem set m l c : select_interaction set m l = Ok c → c ∈ l.
Proof.
  unfold select_interaction. destruct m as [m|].
  - destruct (List.find _ l) eqn:E; [|by destruct l].
    intros [= <-]. by apply find_elem in E as [? _].
  - destruct l as [|x [|]]; [done| |done]. intros [= <-]. left.
Qed.

(** A resolved call, step by step. *)
Lemma resolve_inv tenant surface inter m target r1 r2 res :
  resolve tenant surface inter m target r1 r2 = Ok res →
  ∃ sm e k s j i,
    sm ∈ targeted_providers surface tenant r1
    ∧ providers r2 !! sum_provider_id sm = Some e
    ∧ find_surface surface (registration e) = Some (k, s)
    ∧ interactions s !! j = Some i ∧ interaction_id i = inter
    ∧ res = mkResolved (sum_provider_id sm) (sum_provider_kind sm) (sum_service_id sm)
              (service_app_name e) (descriptor s) i (sum_encryption_metadata sm)
              (surface_actions e !! k ≫= as_descriptor) (action_at (surface_actions e !! k) j).
Proof.
  unfold resolve_surface_action_for_method.
  destruct (targeted_providers surface tenant r1) as [|x l] eqn:El; [done|].
  intros Hr. inv_ok. destruct (negb _); [done|].
  destruct (providers r2 !! sum_provider_id a) as [e|] eqn:Ee; [|done]. simpl in Hr.
  destruct (find_surface surface (registration e)) as [[k s]|] eqn:Ef; [|done]. simpl in Hr.
  inv_ok. destruct a0 as [j i]. injection Hr as <-.
  apply select_interaction_elem, list_elem_of_filter in Ha0 as [Hid Hj%elem_of_enumerate].
  exists a, e, k, s, j, i. split_and!; try done. by eapply select_provider_elem.
Qed.

(** The provider a call resolves to was visible to the tenant when providers were listed. *)
Lemma resolve_visible tenant surface inter m target r1 r2 res :
  resolve tenant surface inter m target r1 r2 = Ok res →
  ∃ e s, providers r1 !! res_provider_id res = Some e
    ∧ provider_hidden (res_provider_id res) e = false
    ∧ s ∈ surfaces (registration e) ∧ sid s = surface
    ∧ visible (binding e) (descriptor s) tenant = true
    ∧ res_service_id res = service_id e.
Proof.
  intros (sm & e2 & k & t & j & i & Hsm & _ & _ & _ & _ & ->)%resolve_inv.
  apply targeted_elem in Hsm as (pid & e & _ & He & Hh & (s & Hs & Hid & ->)%summary_some & Hc).
  by exists e, s.
Qed.

Lemma action_at_is s set j i :
  actions_ok s set → interactions s !! j = Some i →
  action_is (i_required_action i) (action_at (Some set) j).
Proof.
  intros [_ Hi] Hj. destruct (Forall2_lookup_l _ _ _ _ _ Hi Hj) as (a & Ha & Hact).
  unfold action_at. simpl. by rewrite Ha.
Qed.

Lemma actions_at r pid e k s :
  registry_ok r → providers r !! pid = Some e → surfaces (registration e) !! k = Some s →
  ∃ set, surface_actions e !! k = Some set ∧ actions_ok s set.
Proof.
  intros Hok He Hk.
  by destruct (Forall2_lookup_l _ _ _ _ _ (e_actions _ _ (ok_entry _ _ Hok _ _ He)) Hk)
    as (set & ? & ?); exists set.
Qed.

(** The actions a resolved call requires are those its provider declared. *)
Lemma resolve_actions tenant surface inter m target r1 r2 res :
  registry_ok r2 → resolve tenant surface inter m target r1 r2 = Ok res →
  action_is (required_action (res_descriptor res)) (descriptor_required_action res)
  ∧ action_is (i_required_action (res_interaction res)) (interaction_required_action res).
Proof.
  intros Hok (sm & e & k & s & j & i & _ & He & Hf & Hj & _ & ->)%resolve_inv. simpl.
  apply list_find_Some in Hf as (Hk & _ & _).
  destruct (actions_at _ _ _ _ _ Hok He Hk) as (set & -> & Hact).
  split; [by destruct Hact|by eapply action_at_is].
Qed.

(** ** Reaching a registered surface *)

Lemma summary_of surface tenant pid e k s :
  find_surface surface (registration e) = Some (k, s) →
  provider_summary parse_uuid surface tenant pid e =
  Some (mkSummary pid (provider_kind (provider (registration e)))
          (visible (binding e) (descriptor s) tenant) (targeting (descriptor s))
          (service_id e) (service_app_name e) (encryption_metadata (registration e))).
Proof. unfold provider_summary. by intros ->. Qed.

Lemma find_surface_elem e s :
  NoDup (sid <$> surfaces (registration e)) → s ∈ surfaces (registration e) →
  ∃ k, find_surface (sid s) (registration e) = Some (k, s).
Proof.
  intros Hnd Hs. unfold find_surface.
  destruct (list_find _ (surfaces (registration e))) as [[k t]|] eqn:Ef.
  - apply list_find_Some in Ef as Hf. destruct Hf as (Hk%list_elem_of_lookup_2 & Ht & _).
    exists k. by rewrite (surface_unique _ _ _ Hnd Hk Hs Ht) in *.
  - apply list_find_None in Ef. rewrite Forall_forall in Ef. by destruct (Ef _ Hs).
Qed.

(** The provider named as the target is the one selected. *)
Lemma select_target surface tenant r pid e k s :
  registry_ok r → providers r !! pid = Some e → provider_hidden pid e = false →
  find_surface surface (registration e) = Some (k, s) →
  visible (binding e) (descriptor s) tenant = true →
  ∃ sm, select_provider (Some pid) (targeted_providers surface tenant r) = Ok sm
    ∧ provider_summary parse_uuid surface tenant pid e = Some sm
    ∧ tenant_compatible sm = true.
Proof.
  intros Hok He Hh Hf Hv. pose proof (summary_of _ tenant pid _ _ _ Hf) as Hsum.
  pose proof Hf as Hf'. apply list_find_Some in Hf' as (Hk%list_elem_of_lookup_2 & Hs & _).
  edestruct (find_in (λ sm, bool_decide (sum_provider_id sm = pid))
    (targeted_providers surface tenant r)) as [sm Hsm].
  { apply targeted_elem. exists pid, e. split_and!; [|done..].
    apply (ok_index _ _ Hok). exists e. split; [done|]. apply list_elem_of_fmap. by exists s. }
  { by apply bool_decide_true. }
  exists sm. simpl. rewrite Hsm. split; [done|].
  apply find_elem in Hsm as [Hin Hid%bool_decide_eq_true].
  apply targeted_elem in Hin as (pid' & e' & _ & He' & _ & Hs' & Hc).
  assert (pid' = pid) as -> by (apply summary_some in Hs' as (? & _ & _ & ->); done).
  rewrite He in He'. by injection He' as <-.
Qed.

(** The interaction a reference names is the one selected. *)
Lemma select_matching set (l : list InteractionDescriptor) id m i :
  Forall (λ i, http_method i = effective_http_method i) l →
  matching l id m = [i] →
  ∃ j, select_interaction set m (filter (λ c, interaction_id c.2 = id) (enumerate l)) = Ok (j, i).
Proof.
  intros Hn Hm. set (cs := filter (λ c, interaction_id c.2 = id) (enumerate l)).
  pose proof (filter_fmap_snd (λ i, interaction_id i = id) (enumerate l)) as Hcs.
  rewrite enumerate_snd in Hcs. change (cs.*2 = filter (λ i, interaction_id i = id) l) in Hcs.
  assert (i ∈ matching l id m) as Hi by (rewrite Hm; left).
  unfold matching in Hi. apply list_elem_of_filter in Hi as [[Hid Hmeth] Hil].
  assert (i ∈ cs.*2) as ([j i'] & -> & Hc)%list_elem_of_fmap
    by (rewrite Hcs; by apply list_elem_of_filter).
  unfold select_interaction. destruct m as [m|].
  - destruct Hmeth as [|[= ->]]; [done|]. rewrite Forall_forall in Hn.
    edestruct (find_in (λ c : nat * InteractionDescriptor,
      bool_decide (http_method c.2 = effective_http_method i')) cs) as [[j' i] Hf]; [done| |].
    { apply bool_decide_true. by apply Hn. }
    simpl in *. rewrite Hf. exists j'. apply find_elem in Hf as [Hin Hb%bool_decide_eq_true].
    assert (i ∈ matching l id (Some (effective_http_method i'))) as Hi.
    { assert (i ∈ filter (λ i, interaction_id i = id) l) as [Hi Hl]%list_elem_of_filter
        by (rewrite <-Hcs; apply list_elem_of_fmap; by exists (j', i)).
      apply list_elem_of_filter. split; [|done]. split; [done|]. right. f_equal.
      simpl in Hb. by rewrite <-Hb, Hn. }
    rewrite Hm in Hi. apply list_elem_of_singleton in Hi. by subst.
  - replace (matching l id None) with (filter (λ i, interaction_id i = id) l) in Hm
      by (apply list_filter_iff; naive_solver).
    rewrite Hm in Hcs. destruct cs as [|c [|]]; simplify_eq/=. destruct c as [j' i]. by exists j'.
Qed.

Lemma resolve_reference r tenant pid e s x id m :
  registry_ok r → providers r !! pid = Some e → provider_hidden pid e = false →
  s ∈ surfaces (registration e) → visible (binding e) (descriptor s) tenant = true →
  subnode x (root_node (descriptor s)) → (id, m) ∈ node_refs x →
  ∃ res, resolve tenant (sid s) id m (Some pid) r r = Ok res
    ∧ res_provider_id res = pid ∧ res_service_id res = service_id e
    ∧ res_descriptor res = descriptor s ∧ res_interaction res ∈ interactions s
    ∧ interaction_id (res_interaction res) = id
    ∧ (∀ m', m = Some m' → http_method (res_interaction res) = m').
Proof.
  intros Hok He Hh Hs Hv Hx Hid. pose proof (ok_entry _ _ Hok _ _ He) as Hent.
  destruct (find_surface_elem _ _ (e_nodup _ _ Hent) Hs) as [k Hf].
  destruct (select_target _ _ _ _ _ _ _ Hok He Hh Hf Hv) as (sm & Hsel & Hsum & Hc).
  pose proof (e_admitted _ _ Hent) as Had. rewrite Forall_forall in Had.
  pose proof (e_normal _ _ Hent) as Hn. rewrite Forall_forall in Hn.
  destruct (adm_refs _ _ (Had _ Hs) _ Hx) as [Hrefs _]. destruct (Hrefs _ _ Hid) as [i Hi].
  destruct (select_matching (surface_actions e !! k) _ _ _ _ (Hn _ Hs) Hi) as [j Hj].
  assert (i ∈ matching (interactions s) id m) as [[Hii Hm] Hil]%list_elem_of_filter
    by (rewrite Hi; left).
  pose proof Hsum as (t & _ & _ & ->)%summary_some.
  unfold resolve_surface_action_for_method.
  destruct (targeted_providers (sid s) tenant r) as [|y l]; [done|].
  rewrite Hsel. simpl. simpl in Hc. rewrite Hc, He. simpl. rewrite Hf. simpl. rewrite Hj. simpl.
  eexists. split; [done|]. split_and!; [done..|]. simpl. intros m' ->.
  destruct Hm as [|[= ->]]; [done|]. pose proof (Hn _ Hs) as Hns. rewrite Forall_forall in Hns.
  by apply Hns.
Qed.

(** The kind of the provider a call resolves to. *)
Lemma resolve_kind tenant surface inter m target r1 r2 res :
  resolve tenant surface inter m target r1 r2 = Ok res →
  ∃ e, providers r1 !! res_provider_id res = Some e
    ∧ res_provider_kind res = provider_kind (provider (registration e)).
Proof.
  intros (sm & e2 & k & t & j & i & Hsm & _ & _ & _ & _ & ->)%resolve_inv.
  apply targeted_elem in Hsm as (pid & e & _ & He & _ & (s & _ & _ & ->)%summary_some & _).
  by exists e.
Qed.

Lemma list_surfaces_elem tenant sf pf r item :
  item ∈ list_surfaces_for_tenant parse_uuid tenant sf pf r →
  ∃ e s, providers r !! ci_provider_id item = Some e
    ∧ visible (binding e) (descriptor s) tenant = true
    ∧ s ∈ surfaces (registration e) ∧ ci_surface_id item = sid s.
Proof.
  unfold list_surfaces_for_tenant. rewrite elem_of_merge_sort, list_elem_of_bind.
  intros ([pid e] & Hit & He%elem_of_map_to_list). destruct (provider_hidden pid e); [by apply elem_of_nil in Hit|].
  apply list_elem_of_omap in Hit as (s & Hs & Hit).
  destruct (visible _ _ _) eqn:Hv; simpl in Hit; [|done].
  repeat (case_match; try done); simplify_eq/=; by exists e, s.
Qed.

(** What taking the previous provider out changes. *)
Lemma rotation_parts sv pid r :
  registry_ok r →
  (∀ p, p ≠ pid → providers (take_rotation_backup sv pid r).1 !! p =
     if decide (service_to_provider r !! sv = Some p) then None else providers r !! p)
  ∧ <[sv := pid]> (service_to_provider (take_rotation_backup sv pid r).1)
    = <[sv := pid]> (service_to_provider r).
Proof.
  intros Hok. unfold take_rotation_backup.
  destruct (service_to_provider r !! sv) as [old|] eqn:Es; simpl.
  - pose proof Es as (e & He & Hsv)%(ok_service _ _ Hok). case_decide as Hne; simpl.
    + rewrite He. simpl. destruct (remove_provider_parts r old) as (-> & -> & _).
      rewrite He. simpl. rewrite Hsv, insert_delete_eq. split; [|done].
      intros p Hp. case_decide; simplify_eq; [by rewrite lookup_delete_eq|].
      rewrite lookup_delete_ne; [done|congruence].
    + split; [|done]. intros p Hp. rewrite decide_False; [done|].
      intros [= ->]. by destruct Hne.
  - done.
Qed.

(** The entry an accepted registration of a tenant's service leaves. *)
Lemma registered_binding cfg sv app T reg r r' :
  registry_ok r →
  SurfaceRegistry.register_service parse_uuid fmt_uuid payload_bytes debug_str
    cfg sv app (Some T) reg r = (r', Ok tt) →
  ∃ e, providers r' !! provider_id (provider reg) = Some e ∧ service_id e = Some sv
    ∧ b_scope (binding e) = TenantScope ∧ binding_tenant parse_uuid (binding e) = Some T.
Proof.
  intros Hok Hr.
  destruct (register_service_cases _ _ _ _ _ _ _ _ _ _ _ _ Hok Hr)
    as [[_ [e ?]]|(_ & r0 & actions & Hb & _ & _ & _ & ->)]; [done|].
  destruct (install_parts (provider_id (provider reg))
    (mkEntry (normalize_interaction_methods reg) (Some sv) (Some app) actions) r0) as [-> _].
  eexists. rewrite lookup_insert_eq. split; [done|]. split; [done|]. simpl.
  apply basics_facts in Hb as (_ & _ & Hbind & _). specialize (Hbind eq_refl).
  unfold binding_reasons in Hbind. apply app_nil in Hbind as [H1 H2].
  rewrite push_if_nil in H1, H2.
  by apply negb_false_iff, bool_decide_eq_true in H1, H2.
Qed.

(** An interaction of a resolved call, in the entry of its provider. *)
Lemma resolve_entry tenant surface inter m target r1 r2 res :
  resolve tenant surface inter m target r1 r2 = Ok res →
  ∃ e s, providers r2 !! res_provider_id res = Some e ∧ s ∈ surfaces (registration e)
    ∧ res_descriptor res = descriptor s ∧ res_interaction res ∈ interactions s.
Proof.
  intros (sm & e & k & s & j & i & _ & He & Hf & Hj & _ & ->)%resolve_inv.
  apply list_find_Some in Hf as (Hk & _ & _). exists e, s.
  split_and!; [done|by eapply list_elem_of_lookup_2|done|by eapply list_elem_of_lookup_2].
Qed.

Lemma resolve_invocable r1 r2 tenant surface inter m target res :
  registry_ok r1 → registry_ok r2 → resolve tenant surface inter m target r1 r2 = Ok res →
  res_provider_kind res = Service → provider_invocable (res_interaction res) = true →
  descriptor_required_action res = None ∧ interaction_required_action res = None.
Proof.
  intros Hok1 Hok2 Hr Hk Hinv.
  destruct (resolve_entry _ _ _ _ _ _ _ _ Hr) as (e & s & He & Hs & Hd & Hi).
  destruct (resolve_actions _ _ _ _ _ _ _ _ Hok2 Hr) as [Ad Ai].
  destruct (resolve_kind _ _ _ _ _ _ _ _ Hr) as (e' & He' & Hk').
  pose proof (ok_entry _ _ Hok1 _ _ He') as Hent'. pose proof (ok_entry _ _ Hok2 _ _ He) as Hent.
  pose proof (identity_kind _ _ _ (e_identity _ _ Hent') (e_identity _ _ Hent)) as Hkind.
  pose proof (e_admitted _ _ Hent) as Had. rewrite Forall_forall in Had.
  destruct (adm_invocable _ _ (Had _ Hs) _ Hi) as [H1 H2]; [congruence|done|].
  rewrite Hd, H2 in Ad. rewrite H1 in Ai. done.
Qed.

(** ** The properties *)

Notation register_service := (register_service parse_uuid fmt_uuid payload_bytes debug_str).
Notation reachable := (reachable parse_uuid fmt_uuid payload_bytes debug_str).

(** C8: Whatever services register, however often they rotate their provider or leave,
    and whatever is bootstrapped, the registry stays consistent: entries stand under their
    own id in their own namespace, services and providers are bound one to one, the surface
    index is exactly the surfaces on offer, every surface keeps its contract, and two
    providers of one scope share a surface only if it is targeted and identical. *)
Theorem surface_registry_consistent r : reachable r → registry_ok r.
Proof. apply reachable_ok. Qed.

(** A refused registration leaves the registry exactly as it was, the provider taken
    out for the rotation included; an accepted one replaces the provider the service had,
    and touches no other provider. *)
Theorem registration_all_or_nothing cfg sv app tenant reg r r' res :
  reachable r → register_service cfg sv app tenant reg r = (r', res) →
  let pid := provider_id (provider reg) in
  match res with
  | Err _ => r' = r
  | Ok _ =>
      (∃ actions, providers r' !! pid =
         Some (mkEntry (normalize_interaction_methods reg) (Some sv) (Some app) actions))
      ∧ service_to_provider r' = <[sv := pid]> (service_to_provider r)
      ∧ ∀ p, p ≠ pid → providers r' !! p =
          if decide (service_to_provider r !! sv = Some p) then None else providers r !! p
  end.
Proof.
  intros Hok%reachable_ok Hr.
  destruct (register_service_cases _ _ _ _ _ _ _ _ _ _ _ _ Hok Hr)
    as [[-> [e ->]]|(-> & r0 & actions & _ & -> & _ & _ & ->)]; [done|].
  destruct (install_parts (provider_id (provider reg))
    (mkEntry (normalize_interaction_methods reg) (Some sv) (Some app) actions)
    (take_rotation_backup sv (provider_id (provider reg)) r).1) as [-> ->].
  destruct (rotation_parts sv (provider_id (provider reg)) r Hok) as [HP HS].
  simpl. rewrite HS. split_and!; [exists actions; by rewrite lookup_insert_eq|done|].
  intros p Hp. by rewrite lookup_insert_ne, HP.
Qed.

(** A service registered for one tenant is out of reach for every other: it is in no
    listing of theirs, and no call of theirs resolves to its provider or to the service,
    even when the registry changes between the two reads of the resolution. *)
Theorem service_surfaces_isolated cfg sv app T reg r r' T' :
  reachable r → register_service cfg sv app (Some T) reg r = (r', Ok tt) → T' ≠ T →
  (∀ sf pf item, item ∈ list_surfaces_for_tenant parse_uuid T' sf pf r' →
     ci_provider_id item ≠ provider_id (provider reg))
  ∧ (∀ surface inter m target r2 res, resolve T' surface inter m target r' r2 = Ok res →
     res_provider_id res ≠ provider_id (provider reg) ∧ res_service_id res ≠ Some sv).
Proof.
  intros Hok%reachable_ok Hr HT.
  assert (registry_ok r') as Hok' by (by eapply register_service_ok).
  destruct (registered_binding _ _ _ _ _ _ _ Hok Hr) as (e & He & Hsv & Hb & Ht).
  assert (∀ d, visible (binding e) d T' = true → False) as Hinv.
  { intros d Hv. pose proof (visible_tenant _ _ _ Hv Hb). congruence. }
  split.
  - intros sf pf item Hitem Heq. apply list_surfaces_elem in Hitem as (e' & s & He' & Hv & _).
    rewrite Heq, He in He'. injection He' as <-. eauto.
  - intros surface inter m target r2 res (e' & s & He' & _ & _ & _ & Hv & Hsid)%resolve_visible.
    split; intros Heq.
    + rewrite Heq, He in He'. injection He' as <-. eauto.
    + assert (service_to_provider r' !! sv = Some (res_provider_id res)) as H1
        by (apply (ok_service _ _ Hok'); exists e'; split; [done|congruence]).
      assert (service_to_provider r' !! sv = Some (provider_id (provider reg))) as H2
        by (apply (ok_service _ _ Hok'); eauto).
      rewrite H1 in H2. injection H2 as Hp. rewrite Hp, He in He'. injection He' as <-. eauto.
Qed.

(** Everything a surface draws can be called: each interaction a node of an offered
    surface refers to resolves, for a tenant that sees the surface, to an interaction of
    that surface with the id and the method the node names, gated by exactly the actions
    the provider declared. *)
Theorem drawn_references_resolve r tenant pid e s x id m :
  reachable r → providers r !! pid = Some e → provider_hidden pid e = false →
  s ∈ surfaces (registration e) → visible (binding e) (descriptor s) tenant = true →
  subnode x (root_node (descriptor s)) → (id, m) ∈ node_refs x →
  ∃ res, resolve tenant (sid s) id m (Some pid) r r = Ok res
    ∧ res_provider_id res = pid ∧ res_service_id res = service_id e
    ∧ res_descriptor res = descriptor s ∧ res_interaction res ∈ interactions s
    ∧ interaction_id (res_interaction res) = id
    ∧ (∀ m', m = Some m' → http_method (res_interaction res) = m')
    ∧ action_is (required_action (res_descriptor res)) (descriptor_required_action res)
    ∧ action_is (i_required_action (res_interaction res)) (interaction_required_action res).
Proof.
  intros Hok%reachable_ok He Hh Hs Hv Hx Hid.
  destruct (resolve_reference _ _ _ _ _ _ _ _ Hok He Hh Hs Hv Hx Hid)
    as (res & Hr & H1 & H2 & H3 & H4 & H5 & H6).
  exists res. pose proof (resolve_actions _ _ _ _ _ _ _ _ Hok Hr) as [? ?]. by split_and!.
Qed.

(** A service cannot open an action-gated interaction to other providers: whatever a
    service registers, an interaction of its that other providers may invoke requires no
    action, neither of its own nor of its surface, even when the registry changes between
    the two reads of the resolution. *)
Theorem provider_invocable_ungated r1 r2 tenant surface inter m target res :
  reachable r1 → reachable r2 → resolve tenant surface inter m target r1 r2 = Ok res →
  res_provider_kind res = Service → provider_invocable (res_interaction res) = true →
  descriptor_required_action res = None ∧ interaction_required_action res = None.
Proof.
  intros Hok1%reachable_ok Hok2%reachable_ok. by apply resolve_invocable.
Qed.
End Queries.

(** ** A concrete registry *)

Module Demo.

Definition uuid_of (s : string) : option Uuid :=
  if decide (s = "t1") then Some 1%N else if decide (s = "t2") then Some 2%N else None.
Definition str_of (_ : Uuid) : string := "uuid".
Definition bytes_of (_ : SurfaceRegistration) : option Z := Some 100%Z.
Definition quote (s : string) : string := s.

(** A page with a table whose rows can be removed, and a load behind the table. *)
Definition rows : InteractionDescriptor := interaction_new "rows" DataLoad "Rows" ProviderProxied.
Definition remove_row : InteractionDescriptor :=
  mkInteraction "row" MutationAction Delete "Remove" (Some "software:update") None None [] [] None
    None ProviderProxied [] None None None false.
Definition ping : InteractionDescriptor :=
  mkInteraction "ping" MutationAction Post "Ping" None None None [] [] None
    None ProviderProxied [] None None None true.
Definition table_node : SurfaceNode :=
  Table "rows" [] [mkRowAction "row" (Some Delete) None].
Definition page : RegisteredSurface :=
  mkSurface
    (mkDescriptor "demo.page" "Demo" 100 SLOT_SURFACE_PAGE TenantScope Universal None Service ∅
       (Section_ None [] [table_node]) None None None None)
    [rows; remove_row; ping]
    [mkDataSource "rows" (ProviderQuery "rows") SArray None None None Manual None].
Definition reg : SurfaceRegistration :=
  mkRegistration (mkProvider "service.demo" Service "demo") (mkGeneration 1 0)
    (list_to_set all_capabilities) (mkBinding TenantScope (Some "t1")) [page] None.

Definition register := register_service uuid_of str_of bytes_of quote default_config.
Definition registry : SurfaceRegistryInner := (register 7%N "demo" (Some 1%N) reg empty_registry).1.

#[local] Instance no_plugins : SurfaceProviderVisibility := DenyAllPluginProviders.

Lemma registry_reachable : reachable uuid_of str_of bytes_of quote registry.
Proof. apply rtc_once, step_register. Qed.

Lemma registered : (register 7%N "demo" (Some 1%N) reg empty_registry).2 = Ok tt.
Proof. vm_compute. reflexivity. Qed.

Lemma surface_registry_consistent_witness : registry_ok uuid_of registry.
Proof.
  apply (surface_registry_consistent uuid_of str_of bytes_of quote), registry_reachable.
Defined.

(** The provider id is taken: a second service is refused and nothing changes. *)
Lemma registration_all_or_nothing_witness :
  (register 8%N "other" (Some 1%N) reg registry).1 = registry
  ∧ (register 8%N "other" (Some 1%N) reg registry).2
    = Err (ProviderConflict "provider `service.demo` is already bound to service uuid").
Proof.
  assert ((register 8%N "other" (Some 1%N) reg registry).2
    = Err (ProviderConflict "provider `service.demo` is already bound to service uuid")) as He
    by (vm_compute; reflexivity).
  split; [|exact He].
  pose proof (registration_all_or_nothing uuid_of str_of bytes_of quote default_config 8%N
    "other" (Some 1%N) reg registry _ _ registry_reachable (surjective_pairing _)) as Hw.
  fold register in Hw. rewrite He in Hw. exact Hw.
Defined.

Lemma service_surfaces_isolated_witness :
  1%N ≠ 2%N ∧ ∀ surface inter m target res,
    resolve_surface_action_for_method uuid_of 2%N surface inter m target registry registry = Ok res →
    res_provider_id res ≠ "service.demo".
Proof.
  split; [done|]. intros surface inter m target res Hr.
  assert (reachable uuid_of str_of bytes_of quote empty_registry) as He by constructor.
  assert (register 7%N "demo" (Some 1%N) reg empty_registry = (registry, Ok tt)) as Hreg
    by exact (eq_trans (surjective_pairing _) (f_equal (pair registry) registered)).
  destruct (service_surfaces_isolated uuid_of str_of bytes_of quote default_config 7%N "demo"
    1%N reg empty_registry registry 2%N He Hreg) as [_ Hw]; [done|by eapply Hw].
Defined.

Lemma drawn_references_resolve_witness :
  (∃ res, resolve_surface_action_for_method uuid_of 1%N "demo.page" "row" (Some Delete)
            (Some "service.demo") registry registry = Ok res
          ∧ interaction_id (res_interaction res) = "row")
  ∧ parse_action "software:update" ≠ None.
Proof.
  split; [|by vm_compute].
  assert ((λ e, (surfaces (registration e), provider_kind (provider (registration e)),
            effective_tenant_binding (registration e)))
            <$> providers registry !! "service.demo"
          = Some ([normalize_surface page], Service, mkBinding TenantScope (Some "t1"))) as Hentry
    by (vm_compute; reflexivity).
  destruct (providers registry !! "service.demo") as [e|] eqn:He; [|done].
  injection Hentry as Hs Hk Hb.
  destruct (drawn_references_resolve uuid_of str_of bytes_of quote registry 1%N "service.demo"
    e (normalize_surface page) table_node "row" (Some Delete)) as (res & Hr & Hres);
    [apply registry_reachable|exact He| | | | |left|].
  - unfold provider_hidden. by rewrite Hk.
  - rewrite Hs. left.
  - by rewrite Hb.
  - apply (subnode_child _ table_node); [left|constructor].
  - exists res. split; [exact Hr|apply Hres].
Defined.

Lemma provider_invocable_ungated_witness :
  ∃ res, resolve_surface_action_for_method uuid_of 1%N "demo.page" "ping" None None
           registry registry = Ok res
         ∧ provider_invocable (res_interaction res) = true
         ∧ interaction_required_action res = None.
Proof.
  assert (∃ res, resolve_surface_action_for_method uuid_of 1%N "demo.page" "ping" None None
            registry registry = Ok res ∧ res_provider_kind res = Service
          ∧ provider_invocable (res_interaction res) = true) as (res & Hr & Hk & Hi)
    by (eexists; split; [vm_compute; reflexivity|split; reflexivity]).
  exists res. split; [done|]. split; [done|].
  by destruct (provider_invocable_ungated uuid_of str_of bytes_of quote registry registry 1%N
    "demo.page" "ping" None None res registry_reachable registry_reachable Hr Hk Hi).
Defined.

End Demo.
