(* ===== verification/SurfaceProxy.v ===== *)
(** The surface proxy ([crates/ui/surface-proxy/src/proxy.rs] and [proxy/]): what a call
    must satisfy before it is dispatched, and the bookkeeping of the calls in flight
    (budgets, idempotency keys, cached responses, the failure breaker).

    Instants and durations are in nanoseconds. *)

From stdpp Require Import base list gmap sets strings numbers pretty.
From S2P Require Import Prelude RustStr Json AccessVocab SurfaceTypes SurfaceContract SurfaceRegistry ServiceConnections.

(** ** Data *)

Inductive SurfaceProxyError :=
| NoProvider
| ProxyTargetProviderRequired
| ProxyInvalidProvider (id : string)
| ProxyInteractionNotFound
| ProxyPermissionDenied (message : string)
| ProxyConflict (message code : string)
| SchemaValidationFailed (message : string)
| SensitiveFieldRejected (message : string)
| DuplicateRequest
| RateLimited
| ServiceDisconnected
| SendFailed
| ProxyTimeout.

(** Who calls, as the controller knows it, and as the provider is told. *)
Inductive SurfaceCallerOrigin :=
| UserSession (user_id : Uuid) (session_id : string)
| BuiltInSystem (principal : string)
| ByProvider (service_id : Uuid).
Inductive CallerOrigin :=
| FromUser (user_id session_id : string)
| FromSystem (principal : string)
| FromProvider (provider_id : string).

Record EncryptedSensitiveParams := mkEncrypted {
  enc_key_id : string; enc_algorithm : ProviderEncryptionAlgorithm; ciphertext_b64 : string }.

Record SurfaceInvokeRequest := mkInvoke {
  tenant_id : Uuid; req_surface_id : string; req_interaction_id : string;
  method : option InteractionHttpMethod; idempotency_key : string;
  target_provider_id : option string; caller_origin : SurfaceCallerOrigin;
  req_params : list (string * Value);
  encrypted_sensitive_params : option EncryptedSensitiveParams }.

Inductive SurfaceActionErrorCode :=
  CodePermissionDenied | CodeInvalidRequest | CodeSchemaValidationFailed
| CodeUnsupportedCapability | CodeProviderUnavailable | CodeTimeout | CodeDuplicateRequest
| CodeInternalError.
Record SurfaceActionError := mkActionError {
  err_code : SurfaceActionErrorCode; err_message : string; details : option Value }.
Record SurfaceActionResponse := mkResponse {
  request_id : Uuid; success : bool; result : option Value; error : option SurfaceActionError }.

Record IdempotencyKey := mkKey {
  k_tenant_id : Uuid; k_surface_id : string; k_interaction_id : string; caller_key : string;
  k_idempotency_key : string }.
#[global] Instance IdempotencyKey_eq_dec : EqDecision IdempotencyKey.
Proof. solve_decision. Defined.
#[global] Instance IdempotencyKey_countable : Countable IdempotencyKey.
Proof.
  refine (inj_countable'
    (λ k, (k_tenant_id k, k_surface_id k, k_interaction_id k, caller_key k, k_idempotency_key k))
    (λ '(a, b, c, d, e), mkKey a b c d e) _).
  by intros [].
Defined.

(** ** Validation ([proxy/validation.rs]) *)

(** [Duration::as_secs] *)
Definition as_secs (d : Duration) : Z := d / 1000000000.

Definition DEFAULT_TIMEOUT_SECONDS : Z := 30.
Definition MIN_TIMEOUT_SECONDS : Z := 1.
Definition MAX_TIMEOUT_SECONDS : Z := 300.
Definition MAX_RESULT_BYTES : Z := 1048576.
Definition MAX_RESULT_ROWS : nat := 200.

(** [Value::as_f64] is [Some] on every number. *)
Definition schema_matches (s : SchemaContract) (v : Value) : bool :=
  match s, v with
  | SAny, _ => true
  | SObject, JObject _ | SArray, JArray _ | SString, JString _ | SNumber, JNumber _
  | SBoolean, JBool _ | SNull, JNull => true
  | SInteger, _ => bool_decide (is_Some (as_i64 v))
  | _, _ => false
  end.

Definition validate_param_field (ps : list (string * Value)) (f : ParamFieldDescriptor)
    : Result SurfaceProxyError unit :=
  match json_get (param_key f) ps with
  | None =>
      if param_required f
      then Err (SchemaValidationFailed ("missing required param `" +:+ param_key f +:+ "`"))
      else Ok tt
  | Some v =>
      if schema_matches (param_schema f) v then Ok tt
      else Err (SchemaValidationFailed ("param `" +:+ param_key f
             +:+ "` does not match its declared schema"))
  end.

Definition validate_input_schema (i : InteractionDescriptor) (ps : list (string * Value))
    : Result SurfaceProxyError unit :=
  _ ← match input_schema i with
      | Some s =>
          if schema_matches s (JObject ps) then Ok tt
          else Err (SchemaValidationFailed "input schema validation failed")
      | None => Ok tt
      end;
  for_each (validate_param_field ps) (params i).

Definition validate_sensitive_fields (i : InteractionDescriptor) (ps : list (string * Value))
    : Result SurfaceProxyError unit :=
  if decide (sensitive_fields i = []) then Ok tt
  else if decide (transport i = ControllerLocal) then Ok tt
  else for_each (λ key,
    if decide (is_Some (json_get key ps))
    then Err (SensitiveFieldRejected ("sensitive field `" +:+ key
           +:+ "` must not be sent in cleartext params"))
    else Ok tt) (sensitive_fields i).

Definition resolve_timeout (override : option Duration) (i : InteractionDescriptor)
    : Result SurfaceProxyError Duration :=
  let timeout := default (secs (default DEFAULT_TIMEOUT_SECONDS (timeout_seconds i))) override in
  let s := as_secs timeout in
  if (MIN_TIMEOUT_SECONDS <=? s)%Z && (s <=? MAX_TIMEOUT_SECONDS)%Z then Ok timeout
  else Err (SchemaValidationFailed ("timeout must be between " +:+ pretty MIN_TIMEOUT_SECONDS
         +:+ "s and " +:+ pretty MAX_TIMEOUT_SECONDS +:+ "s")).

Definition validate_result_schema (i : InteractionDescriptor) (r : option Value)
    : Result SurfaceProxyError unit :=
  match result_schema i with
  | Some s =>
      if schema_matches s (default JNull r) then Ok tt
      else Err (SchemaValidationFailed "result schema validation failed")
  | None => Ok tt
  end.

Definition rows_of (v : Value) : option (list Value) :=
  match v with
  | JObject l => match json_get "rows" l with Some (JArray a) => Some a | _ => None end
  | _ => None
  end.

Section Limits.
(** [serde_json::to_vec]: the length of the serialized value, or its error. *)
Context (value_bytes : Value → Result string Z).

Definition validate_result_limits (v : Value) : Result SurfaceProxyError unit :=
  bytes ← map_err SchemaValidationFailed (value_bytes v);
  if (MAX_RESULT_BYTES <? bytes)%Z
  then Err (SchemaValidationFailed ("result payload is " +:+ pretty bytes +:+ " bytes, max "
         +:+ pretty MAX_RESULT_BYTES))
  else
    _ ← match v with
        | JArray a =>
            if MAX_RESULT_ROWS <? length a
            then Err (SchemaValidationFailed ("result array has " +:+ pretty (length a)
                   +:+ " rows, max " +:+ pretty MAX_RESULT_ROWS))
            else Ok tt
        | _ => Ok tt
        end;
    match rows_of v with
    | Some a =>
        if MAX_RESULT_ROWS <? length a
        then Err (SchemaValidationFailed ("result rows has " +:+ pretty (length a)
               +:+ " rows, max " +:+ pretty MAX_RESULT_ROWS))
        else Ok tt
    | None => Ok tt
    end.

(** The checks on a provider's response before it is cached and returned. *)
Definition validate_response (i : InteractionDescriptor) (r : SurfaceActionResponse)
    : Result SurfaceProxyError unit :=
  if success r then
    _ ← validate_result_schema i (result r);
    match result r with Some v => validate_result_limits v | None => Ok tt end
  else Ok tt.
End Limits.

(** ** Resolution ([proxy/resolution.rs], [proxy/idempotency.rs]) *)

Definition map_lookup_error (e : SurfaceRegistryLookupError) : SurfaceProxyError :=
  match e with
  | SurfaceNotFound => NoProvider
  | InteractionNotFound => ProxyInteractionNotFound
  | TargetProviderRequired => ProxyTargetProviderRequired
  | InvalidProvider id =>
      ProxyInvalidProvider ("no surface provider '" +:+ id
        +:+ "' is registered for the requested surface")
  | NoTenantCompatibleProvider => NoProvider
  | MethodNotAllowed allowed _ _ =>
      SchemaValidationFailed ("method not allowed for this interaction; allowed methods: ["
        +:+ format_allowed_methods allowed +:+ "]")
  end.

Section Invoke.
(** The messages the connections carry. *)
Context {Msg : Type}.

(** Is the service connected and not standing aside? *)
Definition service_available (w : @Registry.World Msg) (sv : Uuid) : bool :=
  Registry.is_connected sv w && negb (Registry.is_yielded sv w).

Definition provider_is_available (w : @Registry.World Msg) (p : SurfaceProviderSummary) : bool :=
  match sum_service_id p with Some sv => service_available w sv | None => true end.

(** [w pid] is the connections when the provider [pid] is looked at. *)
Definition select_available_provider_for_surface (w : string → @Registry.World Msg)
    (l : list SurfaceProviderSummary) : Result SurfaceProxyError (option string) :=
  let available := filter (λ p, tenant_compatible p && provider_is_available (w (sum_provider_id p)) p = true) l in
  match available with
  | [] => Ok None
  | p :: _ =>
      if existsb (λ p, bool_decide (sum_targeting p = Targeted)) available
      then Err ProxyTargetProviderRequired
      else Ok (Some (sum_provider_id p))
  end.

Context (parse_uuid : string → option Uuid) (fmt_uuid : Uuid → string)
        (fingerprint_request : list (string * Value) → option EncryptedSensitiveParams → Z).
Context `{SurfaceProviderVisibility}.

Definition caller_origin_for_request (r : SurfaceRegistryInner) (c : SurfaceCallerOrigin)
    : Result SurfaceProxyError CallerOrigin :=
  match c with
  | UserSession u s => Ok (FromUser (fmt_uuid u) s)
  | BuiltInSystem p => Ok (FromSystem p)
  | ByProvider sv =>
      match provider_id_for_service sv r with
      | Some pid => Ok (FromProvider pid)
      | None => Err (ProxyInvalidProvider ("service " +:+ fmt_uuid sv
                       +:+ " has no registered surface provider"))
      end
  end.

(** The registry is read at five moments of an invocation, the connections once per
    provider. *)
Record Views := mkViews {
  at_listing : SurfaceRegistryInner; at_self_check : SurfaceRegistryInner;
  at_connections : string → @Registry.World Msg; at_resolve : SurfaceRegistryInner;
  at_resolve_read : SurfaceRegistryInner; at_origin : SurfaceRegistryInner }.

Definition implicit_target_provider_for_request (v : Views) (q : SurfaceInvokeRequest)
    : Result SurfaceProxyError (option string) :=
  match target_provider_id q with
  | Some t => Ok (Some t)
  | None =>
      let providers := list_targeted_providers_for_surface parse_uuid (req_surface_id q)
                         (tenant_id q) (at_listing v) in
      match match caller_origin q with
            | ByProvider sv =>
                own ← provider_id_for_service sv (at_self_check v);
                if existsb (λ p, bool_decide (sum_provider_id p = own)) providers
                then Some own else None
            | _ => None
            end with
      | Some own => Ok (Some own)
      | None => select_available_provider_for_surface (at_connections v) providers
      end
  end.

Definition build_idempotency_key (q : SurfaceInvokeRequest) (o : CallerOrigin)
    : IdempotencyKey :=
  mkKey (tenant_id q) (req_surface_id q) (req_interaction_id q)
    match o with
    | FromUser u s => "user:" +:+ u +:+ ":" +:+ s
    | FromSystem p => "system:" +:+ p
    | FromProvider p => "provider:" +:+ p
    end (idempotency_key q).

(** What [invoke_inner] knows when it turns to the cache and the transport. *)
Record Prepared := mkPrepared {
  resolved : ResolvedSurfaceAction; origin : CallerOrigin; timeout : Duration;
  request_fingerprint : Z; idem_key : IdempotencyKey }.

Definition is_provider_origin (o : CallerOrigin) : bool :=
  match o with FromProvider _ => true | _ => false end.

(** The gate on provider-initiated calls. *)
Definition gate_denies (o : CallerOrigin) (res : ResolvedSurfaceAction) : bool :=
  is_provider_origin o
  && (bool_decide (is_Some (descriptor_required_action res))
      || bool_decide (is_Some (interaction_required_action res)))
  && negb (provider_invocable (res_interaction res)).

(** [invoke_inner], up to the cache. *)
Definition prepare (v : Views) (q : SurfaceInvokeRequest) (override : option Duration)
    : Result SurfaceProxyError Prepared :=
  target ← implicit_target_provider_for_request v q;
  res ← map_err map_lookup_error
          (resolve_surface_action_for_method parse_uuid (tenant_id q) (req_surface_id q)
             (req_interaction_id q) (method q) target (at_resolve v) (at_resolve_read v));
  o ← caller_origin_for_request (at_origin v) (caller_origin q);
  _ ← validate_input_schema (res_interaction res) (req_params q);
  _ ← validate_sensitive_fields (res_interaction res) (req_params q);
  t ← resolve_timeout override (res_interaction res);
  if gate_denies o res
  then Err (ProxyPermissionDenied "provider-initiated requests cannot satisfy user permission gates")
  else Ok (mkPrepared res o t
             (fingerprint_request (req_params q) (encrypted_sensitive_params q))
             (build_idempotency_key q o)).

End Invoke.
