(* ===== verification/SurfaceInFlight.v ===== *)
(** The calls in flight through the surface proxy ([proxy/bookkeeping.rs],
    [proxy/dispatch.rs] and [fail_in_flight_for_provider] of [proxy.rs]): one shared
    [PendingState] behind a lock, the invocations that run concurrently and may be dropped
    at any moment, and the tasks that complete or fail them. Each step below is what one
    task does while it holds the lock once. *)

From stdpp Require Import base list gmap sets strings numbers pretty.
From S2P Require Import Prelude RustStr Json AccessVocab SurfaceTypes SurfaceContract SurfaceRegistry ServiceConnections SurfaceProxy.

(** ** The shared state *)

Definition MAX_IN_FLIGHT_PER_PROVIDER : nat := 32.
Definition MAX_IN_FLIGHT_PER_TENANT : nat := 128.
Definition IDEMPOTENCY_RETENTION : Duration := secs (20 * 60).
Definition FAILURE_WINDOW : Duration := secs 60.
Definition FAILURE_LIMIT : nat := 5.
Definition FAILURE_COOLDOWN : Duration := secs 60.
Definition IN_FLIGHT_SWEEP_MARGIN : Duration := secs 60.

(** The sender of a request's oneshot channel is identified by the request. *)
Record PendingRequest := mkPending {
  p_provider_id : string; p_tenant_id : Uuid; p_idempotency_key : IdempotencyKey;
  p_deadline : Instant }.
Record IdempotencyInFlight := mkReservation {
  r_fingerprint : Z; owner : Uuid; r_deadline : Instant }.
Record CachedIdempotent := mkCached {
  c_fingerprint : Z; response : SurfaceActionResponse; stored_at : Instant }.
Record ProviderFailureState := mkFailures {
  failures : list Instant; blocked_until : option Instant }.

Record PendingState := mkState {
  pending : gmap Uuid PendingRequest;
  in_flight_per_provider : gmap string nat;
  in_flight_per_tenant : gmap Uuid nat;
  in_flight_idempotency : gmap IdempotencyKey IdempotencyInFlight;
  idempotency_cache : gmap IdempotencyKey CachedIdempotent;
  provider_failures : gmap string ProviderFailureState }.

Definition empty_state : PendingState := mkState ∅ ∅ ∅ ∅ ∅ ∅.

Definition set_idempotency m (st : PendingState) : PendingState :=
  mkState (pending st) (in_flight_per_provider st) (in_flight_per_tenant st) m
    (idempotency_cache st) (provider_failures st).
Definition set_cache m (st : PendingState) : PendingState :=
  mkState (pending st) (in_flight_per_provider st) (in_flight_per_tenant st)
    (in_flight_idempotency st) m (provider_failures st).
Definition set_failures m (st : PendingState) : PendingState :=
  mkState (pending st) (in_flight_per_provider st) (in_flight_per_tenant st)
    (in_flight_idempotency st) (idempotency_cache st) m.

(** [*map.entry(key).or_default() += 1] *)
Definition increment_counter `{Countable K} (k : K) (m : gmap K nat) : gmap K nat :=
  <[k := S (default 0 (m !! k))]> m.
Definition decrement_counter `{Countable K} (k : K) (m : gmap K nat) : gmap K nat :=
  match m !! k with
  | Some c => let c' := c - 1 in if c' =? 0 then delete k m else <[k := c']> m
  | None => m
  end.

Definition reserve_idempotency (key : IdempotencyKey) (fp : Z) (id : Uuid) (deadline : Instant)
    (st : PendingState) : PendingState :=
  set_idempotency (<[key := mkReservation fp id deadline]> (in_flight_idempotency st)) st.

Definition register_pending (id : Uuid) (pid : string) (t : Uuid) (key : IdempotencyKey)
    (fp : Z) (deadline : Instant) (st : PendingState) : PendingState :=
  reserve_idempotency key fp id deadline
    (mkState (<[id := mkPending pid t key deadline]> (pending st))
       (increment_counter pid (in_flight_per_provider st))
       (increment_counter t (in_flight_per_tenant st))
       (in_flight_idempotency st) (idempotency_cache st) (provider_failures st)).

Definition release_idempotency (key : IdempotencyKey) (id : Uuid) (st : PendingState)
    : PendingState :=
  match in_flight_idempotency st !! key with
  | Some r =>
      if decide (owner r = id)
      then set_idempotency (delete key (in_flight_idempotency st)) st else st
  | None => st
  end.

(** The new state, and whether the request was there (its sender is taken). *)
Definition take_pending (id : Uuid) (st : PendingState) : PendingState * bool :=
  match pending st !! id with
  | None => (st, false)
  | Some p =>
      (release_idempotency (p_idempotency_key p) id
         (mkState (delete id (pending st))
            (decrement_counter (p_provider_id p) (in_flight_per_provider st))
            (decrement_counter (p_tenant_id p) (in_flight_per_tenant st))
            (in_flight_idempotency st) (idempotency_cache st) (provider_failures st)), true)
  end.

Definition ensure_budget (pid : string) (t : Uuid) (st : PendingState)
    : Result SurfaceProxyError unit :=
  if MAX_IN_FLIGHT_PER_PROVIDER <=? default 0 (in_flight_per_provider st !! pid)
  then Err RateLimited
  else if MAX_IN_FLIGHT_PER_TENANT <=? default 0 (in_flight_per_tenant st !! t)
  then Err RateLimited
  else Ok tt.

Definition ensure_idempotency_available (key : IdempotencyKey) (fp : Z) (st : PendingState)
    : Result SurfaceProxyError unit :=
  match in_flight_idempotency st !! key with
  | Some _ => Err DuplicateRequest
  | None =>
      match idempotency_cache st !! key with
      | Some c => if decide (c_fingerprint c ≠ fp) then Err DuplicateRequest else Ok tt
      | None => Ok tt
      end
  end.

Definition ensure_provider_not_rate_limited (now : Instant) (pid : string) (st : PendingState)
    : Result SurfaceProxyError unit :=
  match provider_failures st !! pid ≫= blocked_until with
  | Some u => if (now <? u)%Z then Err RateLimited else Ok tt
  | None => Ok tt
  end.

(** [Instant::duration_since], zero for a later instant. *)
Definition duration_since (now t : Instant) : Duration := Z.max 0 (now - t).

(** The loop that pops the failures older than the window off the front. *)
Fixpoint drop_old (now : Instant) (l : list Instant) : list Instant :=
  match l with
  | oldest :: l' =>
      if (duration_since now oldest <=? FAILURE_WINDOW)%Z then l else drop_old now l'
  | [] => []
  end.

Definition note_failure (now : Instant) (f : ProviderFailureState) : ProviderFailureState :=
  let l := drop_old now (failures f ++ [now]) in
  if FAILURE_LIMIT <=? length l then mkFailures [] (Some (now + FAILURE_COOLDOWN)%Z)
  else mkFailures l (blocked_until f).

Definition record_provider_failure (now : Instant) (pid : string) (st : PendingState)
    : PendingState :=
  let f := default (mkFailures [] None) (provider_failures st !! pid) in
  set_failures (<[pid := note_failure now f]> (provider_failures st)) st.

Definition expire_failures (now : Instant) (f : ProviderFailureState) : ProviderFailureState :=
  mkFailures (drop_old now (failures f))
    (match blocked_until f with
     | Some u => if (u <=? now)%Z then None else Some u
     | None => None
     end).

(** The requests past their deadline by more than the margin, and the loop taking them. *)
Definition orphaned (now : Instant) (deadline : Instant) : Prop :=
  (deadline + IN_FLIGHT_SWEEP_MARGIN < now)%Z.
#[global] Instance orphaned_dec now deadline : Decision (orphaned now deadline).
Proof. unfold orphaned. apply _. Defined.

Definition reap_ids (now : Instant) (st : PendingState) : list Uuid :=
  (map_to_list (filter (λ kv : Uuid * PendingRequest, orphaned now (p_deadline kv.2))
     (pending st))).*1.

Definition take_all (ids : list Uuid) (st : PendingState) : PendingState :=
  foldl (λ st id, (take_pending id st).1) st ids.

Definition cleanup_expired (now : Instant) (st : PendingState) : PendingState :=
  let st := set_cache (filter (λ kv : IdempotencyKey * CachedIdempotent,
              (duration_since now (stored_at kv.2) <= IDEMPOTENCY_RETENTION)%Z)
              (idempotency_cache st)) st in
  let st := set_failures (expire_failures now <$> provider_failures st) st in
  let st := take_all (reap_ids now st) st in
  set_idempotency (filter (λ kv : IdempotencyKey * IdempotencyInFlight,
    ¬ orphaned now (r_deadline kv.2)) (in_flight_idempotency st)) st.

Definition try_get_cached_response (now : Instant) (key : IdempotencyKey) (fp : Z)
    (st : PendingState) : PendingState * option SurfaceActionResponse :=
  let st := cleanup_expired now st in
  (st, c ← idempotency_cache st !! key;
       if decide (c_fingerprint c = fp) then Some (response c) else None).

Definition store_cached_response (now : Instant) (key : IdempotencyKey) (fp : Z)
    (r : SurfaceActionResponse) (st : PendingState) : PendingState :=
  let st := cleanup_expired now st in
  set_cache (<[key := mkCached fp r now]> (idempotency_cache st)) st.

Definition fail_in_flight_for_provider (now : Instant) (pid : string) (st : PendingState)
    : PendingState :=
  let ids := (map_to_list (filter (λ kv : Uuid * PendingRequest, p_provider_id kv.2 = pid)
                (pending st))).*1 in
  let st := take_all ids st in
  match ids with [] => st | _ => record_provider_failure now pid st end.

(** ** Invocations *)

(** The locked block at the start of [execute_proxied_invocation]. *)
Definition begin_proxied (now : Instant) (id : Uuid) (pid : string) (t : Uuid)
    (key : IdempotencyKey) (fp : Z) (tmo : Duration) (st : PendingState)
    : PendingState * Result SurfaceProxyError unit :=
  let st := cleanup_expired now st in
  match _ ← ensure_provider_not_rate_limited now pid st;
        _ ← ensure_budget pid t st;
        ensure_idempotency_available key fp st with
  | Err e => (st, Err e)
  | Ok _ => (register_pending id pid t key fp (now + tmo)%Z st, Ok tt)
  end.

(** The locked block at the start of [execute_local_invocation]. *)
Definition begin_local (now : Instant) (id : Uuid) (key : IdempotencyKey) (fp : Z)
    (tmo : Duration) (st : PendingState) : PendingState * Result SurfaceProxyError unit :=
  let st := cleanup_expired now st in
  match ensure_idempotency_available key fp st with
  | Err e => (st, Err e)
  | Ok _ => (reserve_idempotency key fp id (now + tmo)%Z st, Ok tt)
  end.

(** Where an invocation stands. *)
Inductive Phase :=
| Sending                            (* the request is being sent to the service *)
| Waiting                            (* for the response, or the timeout *)
| TimedOut                           (* the timeout has fired *)
| CancelSending                      (* the cancellation is being sent *)
| Executing                          (* the controller-local executor runs *)
| Recording (e : SurfaceProxyError)  (* about to record a failure of the provider *)
| Storing (r : SurfaceActionResponse)
| Exiting (r : Result SurfaceProxyError SurfaceActionResponse).

(** The two transports, with what each keeps for its cleanup. *)
Inductive Transport := Proxied (pid : string) (t : Uuid) | Local.

(** An invocation: [inv_received] is the value in its channel. *)
Record Invocation := mkInv {
  inv_transport : Transport; inv_key : IdempotencyKey; inv_fingerprint : Z;
  inv_interaction : InteractionDescriptor; inv_deadline : Instant; inv_phase : Phase;
  inv_received : option SurfaceActionResponse }.

Definition with_phase (ph : Phase) (i : Invocation) : Invocation :=
  mkInv (inv_transport i) (inv_key i) (inv_fingerprint i) (inv_interaction i) (inv_deadline i)
    ph (inv_received i).
Definition with_received (r : SurfaceActionResponse) (i : Invocation) : Invocation :=
  mkInv (inv_transport i) (inv_key i) (inv_fingerprint i) (inv_interaction i) (inv_deadline i)
    (inv_phase i) (Some r).

Record Sys := mkSys { clock : Instant; st : PendingState; invs : gmap Uuid Invocation }.

Definition empty_sys (now : Instant) : Sys := mkSys now empty_state ∅.

Definition set_st x (s : Sys) : Sys := mkSys (clock s) x (invs s).
Definition set_phase (id : Uuid) (ph : Phase) (s : Sys) : Sys :=
  mkSys (clock s) (st s) (alter (with_phase ph) id (invs s)).

Definition start_proxied (id : Uuid) (pid : string) (t : Uuid) (key : IdempotencyKey) (fp : Z)
    (i : InteractionDescriptor) (tmo : Duration) (s : Sys)
    : Sys * Result SurfaceProxyError unit :=
  match begin_proxied (clock s) id pid t key fp tmo (st s) with
  | (st', Ok _) =>
      (mkSys (clock s) st'
         (<[id := mkInv (Proxied pid t) key fp i (clock s + tmo)%Z Sending None]> (invs s)), Ok tt)
  | (st', Err e) => (set_st st' s, Err e)
  end.

Definition start_local (id : Uuid) (key : IdempotencyKey) (fp : Z)
    (i : InteractionDescriptor) (tmo : Duration) (s : Sys)
    : Sys * Result SurfaceProxyError unit :=
  match begin_local (clock s) id key fp tmo (st s) with
  | (st', Ok _) =>
      (mkSys (clock s) st'
         (<[id := mkInv Local key fp i (clock s + tmo)%Z Executing None]> (invs s)), Ok tt)
  | (st', Err e) => (set_st st' s, Err e)
  end.

(** [fail_pending_request] and [timeout_pending_request]: take the request out; only if it
    was still there go on to [next], else the invocation returns [e]. *)
Definition remove_then (id : Uuid) (next : Phase) (e : SurfaceProxyError) (s : Sys) : Sys :=
  let '(st', removed) := take_pending id (st s) in
  set_phase id (if removed then next else Exiting (Err e)) (set_st st' s).

Definition record_failure (id : Uuid) (pid : string) (e : SurfaceProxyError) (s : Sys) : Sys :=
  set_phase id (Exiting (Err e)) (set_st (record_provider_failure (clock s) pid (st s)) s).

Definition store (id : Uuid) (i : Invocation) (r : SurfaceActionResponse) (s : Sys) : Sys :=
  set_phase id (Exiting (Ok r))
    (set_st (store_cached_response (clock s) (inv_key i) (inv_fingerprint i) r (st s)) s).

(** The guard's [Drop], when the invocation returns or its future is dropped. *)
Definition drop_guard (id : Uuid) (i : Invocation) (st : PendingState) : PendingState :=
  match inv_transport i with
  | Proxied _ _ => (take_pending id st).1
  | Local => release_idempotency (inv_key i) id st
  end.
Definition drop_invocation (id : Uuid) (i : Invocation) (s : Sys) : Sys :=
  mkSys (clock s) (drop_guard id i (st s)) (delete id (invs s)).

Definition complete (id : Uuid) (r : SurfaceActionResponse) (s : Sys) : Sys :=
  let '(st', removed) := take_pending id (st s) in
  mkSys (clock s) st' (if removed then alter (with_received r) id (invs s) else invs s).

Section Steps.
Context (value_bytes : Value → Result string Z).

(** What an invocation does with a response it received. *)
Definition on_response (i : Invocation) (r : SurfaceActionResponse) : Phase :=
  match validate_response value_bytes (inv_interaction i) r with
  | Ok _ => Storing r
  | Err e => Exiting (Err e)
  end.

(** What a local invocation does with the executor's result. *)
Definition on_executed (id : Uuid) (i : Invocation) (r : Result SurfaceProxyError Value) : Phase :=
  match v ← r;
        _ ← validate_result_schema (inv_interaction i) (Some v);
        _ ← validate_result_limits value_bytes v;
        Ok v with
  | Ok v => Storing (mkResponse id true (Some v) None)
  | Err e => Exiting (Err e)
  end.

Inductive step : Sys → Sys → Prop :=
| step_tick dt s : (0 ≤ dt)%Z → step s (mkSys (clock s + dt)%Z (st s) (invs s))
| step_cached key fp s : step s (set_st (try_get_cached_response (clock s) key fp (st s)).1 s)
| step_start_proxied id pid t key fp i tmo s :
    invs s !! id = None → step s (start_proxied id pid t key fp i tmo s).1
| step_start_local id key fp i tmo s :
    invs s !! id = None → step s (start_local id key fp i tmo s).1
| step_sent id i s :
    invs s !! id = Some i → inv_phase i = Sending → step s (set_phase id Waiting s)
| step_send_failed id i s :
    invs s !! id = Some i → inv_phase i = Sending →
    step s (remove_then id (Recording SendFailed) SendFailed s)
| step_received id i r s :
    invs s !! id = Some i → inv_phase i = Waiting → inv_received i = Some r →
    step s (set_phase id (on_response i r) s)
| step_closed id i s :
    invs s !! id = Some i → inv_phase i = Waiting → inv_received i = None →
    pending (st s) !! id = None → step s (set_phase id (Recording ServiceDisconnected) s)
| step_timed_out id i s :
    invs s !! id = Some i → inv_phase i = Waiting → inv_received i = None →
    is_Some (pending (st s) !! id) → (inv_deadline i ≤ clock s)%Z →
    step s (set_phase id TimedOut s)
| step_timeout id i s :
    invs s !! id = Some i → inv_phase i = TimedOut →
    step s (remove_then id CancelSending ProxyTimeout s)
| step_cancel_sent id i s :
    invs s !! id = Some i → inv_phase i = CancelSending →
    step s (set_phase id (Recording ProxyTimeout) s)
| step_executed id i r s :
    invs s !! id = Some i → inv_phase i = Executing →
    step s (set_phase id (on_executed id i r) s)
| step_record id i pid t e s :
    invs s !! id = Some i → inv_phase i = Recording e → inv_transport i = Proxied pid t →
    step s (record_failure id pid e s)
| step_store id i r s :
    invs s !! id = Some i → inv_phase i = Storing r → step s (store id i r s)
| step_drop id i s :
    invs s !! id = Some i → step s (drop_invocation id i s)
| step_complete id r s : step s (complete id r s)
| step_fail_provider pid s :
    step s (set_st (fail_in_flight_for_provider (clock s) pid (st s)) s).

Definition reachable (s : Sys) : Prop := ∃ now, rtc step (empty_sys now) s.
End Steps.
