(* ===== verification/SurfaceInFlightTheorems.v ===== *)
(** The bookkeeping of the surface proxy is exact: the counters count the calls in flight,
    the budgets hold, every reservation belongs to a live invocation, and nothing is left
    behind when invocations end, in whatever way they end. *)

From stdpp Require Import base list gmap sets strings numbers pretty.
From S2P Require Import Prelude RustStr Json AccessVocab SurfaceTypes SurfaceContract SurfaceRegistry ServiceConnections SurfaceProxy SurfaceInFlight.

(** ** Counters *)

Section Counters.
Context `{Countable K} (f : PendingRequest → K).

Definition count (k : K) (m : gmap Uuid PendingRequest) : nat :=
  size (filter (λ kv, f kv.2 = k) m).

(** The counter of a key is the number of requests, absent when there is none. *)
Definition counters_ok (m : gmap Uuid PendingRequest) (c : gmap K nat) : Prop :=
  ∀ k, c !! k = if count k m =? 0 then None else Some (count k m).

Lemma count_empty k : count k ∅ = 0.
Proof. unfold count. by rewrite map_filter_empty, map_size_empty. Qed.

Lemma count_insert k m id p :
  m !! id = None → count k (<[id := p]> m) = (if decide (f p = k) then 1 else 0) + count k m.
Proof.
  intros Hid. unfold count. case_decide as Hk.
  - rewrite map_filter_insert_True by done. rewrite map_size_insert_None; [done|].
    by apply map_lookup_filter_None_2; left.
  - rewrite map_filter_insert_False by done. by rewrite (delete_id _ _ Hid).
Qed.

Lemma count_delete k m id p :
  m !! id = Some p → count k m = (if decide (f p = k) then 1 else 0) + count k (delete id m).
Proof.
  intros Hid. rewrite <-(count_insert k (delete id m) id p) by apply lookup_delete_eq.
  by rewrite insert_delete_id.
Qed.

Lemma counters_insert m c id p :
  m !! id = None → counters_ok m c → counters_ok (<[id := p]> m) (increment_counter (f p) c).
Proof.
  intros Hid Hc k. rewrite count_insert by done. unfold increment_counter. case_decide as Hk.
  - subst k. rewrite lookup_insert_eq, (Hc (f p)).
    destruct (count (f p) m) eqn:E; simpl; by rewrite ?E.
  - rewrite lookup_insert_ne by done. apply Hc.
Qed.

Lemma counters_delete m c id p :
  m !! id = Some p → counters_ok m c → counters_ok (delete id m) (decrement_counter (f p) c).
Proof.
  intros Hid Hc k. pose proof (Hc (f p)) as Hp. pose proof (Hc k) as Hk.
  rewrite (count_delete (f p) m id p Hid), decide_True in Hp by done.
  rewrite (count_delete k m id p Hid) in Hk. simpl in Hp. unfold decrement_counter. rewrite Hp.
  simpl. rewrite Nat.sub_0_r.
  case_decide as Hf; simpl in Hk; [subst k|].
  - destruct (count (f p) (delete id m) =? 0); by rewrite ?lookup_delete_eq, ?lookup_insert_eq.
  - destruct (count (f p) (delete id m) =? 0); by rewrite ?lookup_delete_ne, ?lookup_insert_ne.
Qed.

Lemma counters_empty c : counters_ok ∅ c → c = ∅.
Proof. intros Hc. apply map_empty. intros k. by rewrite Hc, count_empty. Qed.

(** Taking requests out keeps every bound on the counters. *)
Lemma count_delete_le k m id : count k (delete id m) ≤ count k m.
Proof.
  destruct (m !! id) as [p|] eqn:E; [rewrite (count_delete k m id p E); lia|].
  by rewrite delete_id.
Qed.
End Counters.

(** ** The invariant *)

(** What the bookkeeping relies on of the live invocations: transport, key, deadline. *)
Notation Live := (gmap Uuid (Transport * IdempotencyKey * Instant)) (only parsing).

Definition live_of (m : gmap Uuid Invocation) : Live :=
  (λ i, (inv_transport i, inv_key i, inv_deadline i)) <$> m.

Record state_ok (live : Live) (x : PendingState) : Prop := {
  so_provider : counters_ok p_provider_id (pending x) (in_flight_per_provider x);
  so_tenant : counters_ok p_tenant_id (pending x) (in_flight_per_tenant x);
  so_provider_budget pid : count p_provider_id pid (pending x) ≤ MAX_IN_FLIGHT_PER_PROVIDER;
  so_tenant_budget t : count p_tenant_id t (pending x) ≤ MAX_IN_FLIGHT_PER_TENANT;
  so_pending id p : pending x !! id = Some p →
    live !! id = Some (Proxied (p_provider_id p) (p_tenant_id p), p_idempotency_key p, p_deadline p)
    ∧ ∃ fp, in_flight_idempotency x !! p_idempotency_key p
            = Some (mkReservation fp id (p_deadline p));
  so_reserved k r : in_flight_idempotency x !! k = Some r →
    ∃ tr d, live !! owner r = Some (tr, k, d)
      ∧ (tr = Local ∨ is_Some (pending x !! owner r));
  so_failures pid f : provider_failures x !! pid = Some f → length (failures f) < FAILURE_LIMIT }.

Lemma empty_state_ok : state_ok ∅ empty_state.
Proof.
  split; simpl; try (intros *; rewrite lookup_empty; done).
  - intros k. by rewrite count_empty, lookup_empty.
  - intros k. by rewrite count_empty, lookup_empty.
  - intros k. rewrite count_empty. lia.
  - intros k. rewrite count_empty. lia.
Qed.

(** Two pending requests have different idempotency keys. *)
Lemma pending_key_inj live x id1 id2 p1 p2 :
  state_ok live x → pending x !! id1 = Some p1 → pending x !! id2 = Some p2 →
  p_idempotency_key p1 = p_idempotency_key p2 → id1 = id2.
Proof.
  intros Hok H1 H2 Hk. destruct (so_pending _ _ Hok _ _ H1) as (_ & fp1 & E1).
  destruct (so_pending _ _ Hok _ _ H2) as (_ & fp2 & E2). congruence.
Qed.

(** [take_pending] on a request that is there. *)
Lemma take_pending_some live x id p :
  state_ok live x → pending x !! id = Some p →
  take_pending id x =
  (mkState (delete id (pending x))
     (decrement_counter (p_provider_id p) (in_flight_per_provider x))
     (decrement_counter (p_tenant_id p) (in_flight_per_tenant x))
     (delete (p_idempotency_key p) (in_flight_idempotency x))
     (idempotency_cache x) (provider_failures x), true).
Proof.
  intros Hok Hp. destruct (so_pending _ _ Hok _ _ Hp) as (_ & fp & Er).
  unfold take_pending, release_idempotency. rewrite Hp. simpl. rewrite Er. simpl.
  by rewrite decide_True.
Qed.

Lemma take_pending_ok live x id : state_ok live x → state_ok live (take_pending id x).1.
Proof.
  intros Hok. destruct (pending x !! id) as [p|] eqn:Hp;
    [|unfold take_pending; by rewrite Hp].
  rewrite (take_pending_some _ _ _ _ Hok Hp). simpl.
  destruct (so_pending _ _ Hok _ _ Hp) as (Hlive & fp & Er).
  split; simpl.
  - apply counters_delete; [done|by apply Hok].
  - apply counters_delete; [done|by apply Hok].
  - intros pid. etrans; [apply count_delete_le|by apply (so_provider_budget _ _ Hok)].
  - intros t. etrans; [apply count_delete_le|by apply (so_tenant_budget _ _ Hok)].
  - intros id' p' [Hne Hp']%lookup_delete_Some.
    destruct (so_pending _ _ Hok _ _ Hp') as (Hl' & fp' & Er'). split; [done|].
    exists fp'. rewrite lookup_delete_ne; [done|]. intros Heq.
    by destruct Hne; eapply pending_key_inj.
  - intros k r [Hne Hr]%lookup_delete_Some.
    destruct (so_reserved _ _ Hok _ _ Hr) as (tr & d & Hl & Hor). exists tr, d. split; [done|].
    destruct Hor as [|Hsome]; [by left|right]. rewrite lookup_delete_ne; [done|].
    intros Heq. rewrite <-Heq, Hlive in Hl. naive_solver.
  - intros pid f Hf. by eapply so_failures.
Qed.

Lemma take_all_ok live ids x : state_ok live x → state_ok live (take_all ids x).
Proof.
  intros Hok. unfold take_all. apply (foldl_inv (state_ok live)); [done|].
  intros y id _. apply take_pending_ok.
Qed.

Lemma take_pending_lookup id x id' :
  pending (take_pending id x).1 !! id' = if decide (id' = id) then None else pending x !! id'.
Proof.
  assert (∀ k o y, pending (release_idempotency k o y) = pending y) as Hrel.
  { intros k o y. unfold release_idempotency. by repeat case_match. }
  unfold take_pending. destruct (pending x !! id) as [p|] eqn:E; simpl.
  - rewrite Hrel. simpl. case_decide; [subst; apply lookup_delete_eq|by apply lookup_delete_ne].
  - case_decide; by subst.
Qed.

Lemma take_all_lookup ids x id :
  pending (take_all ids x) !! id = if decide (id ∈ ids) then None else pending x !! id.
Proof.
  unfold take_all. revert x. induction ids as [|y ids IH]; intros x; simpl; [done|].
  rewrite IH, take_pending_lookup.
  repeat case_decide; set_solver.
Qed.

(** Reservations that are not those of pending requests may be dropped. *)
Lemma set_idempotency_ok live x m :
  state_ok live x → m ⊆ in_flight_idempotency x →
  (∀ id p, pending x !! id = Some p →
     m !! p_idempotency_key p = in_flight_idempotency x !! p_idempotency_key p) →
  state_ok live (set_idempotency m x).
Proof.
  intros [H1 H2 H3 H4 H5 H6 H7] Hsub Hkeep. split; simpl; [done..| | |done].
  - intros id p Hp. destruct (H5 _ _ Hp) as (Hl & fp & Er). split; [done|].
    exists fp. by rewrite (Hkeep _ _ Hp).
  - intros k r Hr. eapply H6, lookup_weaken; [exact Hr|done].
Qed.

Lemma set_cache_ok live x m : state_ok live x → state_ok live (set_cache m x).
Proof. intros [H1 H2 H3 H4 H5 H6 H7]. by split. Qed.

Lemma set_failures_ok live x m :
  (∀ pid f, m !! pid = Some f → length (failures f) < FAILURE_LIMIT) →
  state_ok live x → state_ok live (set_failures m x).
Proof. intros Hm [H1 H2 H3 H4 H5 H6 H7]. by split. Qed.

Lemma drop_old_length now l : length (drop_old now l) ≤ length l.
Proof. induction l as [|x l IH]; simpl; [done|]. case_match; simpl; lia. Qed.

Lemma note_failure_length now f : length (failures (note_failure now f)) < FAILURE_LIMIT.
Proof.
  unfold note_failure. case_match eqn:E; simpl; [unfold FAILURE_LIMIT; lia|].
  by apply Nat.leb_gt in E.
Qed.

Lemma record_failure_ok live x now pid :
  state_ok live x → state_ok live (record_provider_failure now pid x).
Proof.
  intros Hok. apply set_failures_ok; [|done].
  intros pid' f [[_ <-]|[_ Hf]]%lookup_insert_Some; [apply note_failure_length|].
  by eapply so_failures.
Qed.

Lemma cleanup_ok live x now : state_ok live x → state_ok live (cleanup_expired now x).
Proof.
  intros Hok. unfold cleanup_expired.
  set (y := set_failures _ (set_cache _ x)).
  assert (state_ok live y) as Hy.
  { apply set_failures_ok; [|by apply set_cache_ok]. simpl. intros pid f.
    rewrite lookup_fmap. intros (g & Hg & ->)%fmap_Some. simpl.
    eapply Nat.le_lt_trans; [apply drop_old_length|by eapply so_failures]. }
  apply set_idempotency_ok; [by apply take_all_ok|apply map_filter_subseteq|].
  intros id p Hp. assert (pending y !! id = Some p ∧ id ∉ reap_ids now y) as [Hpy Hid].
  { rewrite take_all_lookup in Hp. by case_decide. }
  destruct (so_pending _ _ (take_all_ok _ (reap_ids now y) _ Hy) _ _ Hp) as (_ & fp & Er).
  rewrite Er. apply map_lookup_filter_Some. split; [done|]. simpl. intros Horph. apply Hid.
  unfold reap_ids. apply list_elem_of_fmap. exists (id, p). split; [done|].
  by apply elem_of_map_to_list, map_lookup_filter_Some.
Qed.

(** ** Invocations *)

Lemma cleanup_lookup now x id p :
  pending (cleanup_expired now x) !! id = Some p → pending x !! id = Some p.
Proof. unfold cleanup_expired. simpl. rewrite take_all_lookup. by case_decide. Qed.

Lemma pending_live live x id p : state_ok live x → pending x !! id = Some p → is_Some (live !! id).
Proof. intros Hok Hp. destruct (so_pending _ _ Hok _ _ Hp) as [-> _]. by eexists. Qed.

(** A new live invocation that holds nothing yet. *)
Lemma state_ok_more live x id v :
  live !! id = None → state_ok live x → state_ok (<[id := v]> live) x.
Proof.
  intros Hid [H1 H2 H3 H4 H5 H6 H7]. split; [done..| | |done].
  - intros id' p Hp. destruct (H5 _ _ Hp) as [Hl Hr]. split; [|done].
    rewrite lookup_insert_ne; [done|]. congruence.
  - intros k r Hr. destruct (H6 _ _ Hr) as (tr & d & Hl & Hor). exists tr, d.
    rewrite lookup_insert_ne; [done|]. congruence.
Qed.

Lemma budget_ok pid t x :
  ensure_budget pid t x = Ok tt →
  counters_ok p_provider_id (pending x) (in_flight_per_provider x) →
  counters_ok p_tenant_id (pending x) (in_flight_per_tenant x) →
  count p_provider_id pid (pending x) < MAX_IN_FLIGHT_PER_PROVIDER
  ∧ count p_tenant_id t (pending x) < MAX_IN_FLIGHT_PER_TENANT.
Proof.
  unfold ensure_budget. intros Hb Hp Ht. rewrite Hp, Ht in Hb.
  assert (∀ n, default 0 (if n =? 0 then None else Some n) = n) as Hd by (by intros []).
  rewrite !Hd in Hb. destruct (MAX_IN_FLIGHT_PER_PROVIDER <=? _) eqn:E1; [done|].
  destruct (MAX_IN_FLIGHT_PER_TENANT <=? _) eqn:E2; [done|]. by apply Nat.leb_gt in E1, E2.
Qed.

Lemma register_ok live x id pid t key fp d :
  state_ok live x → live !! id = None →
  ensure_budget pid t x = Ok tt → ensure_idempotency_available key fp x = Ok tt →
  state_ok (<[id := (Proxied pid t, key, d)]> live) (register_pending id pid t key fp d x).
Proof.
  intros Hok Hid Hb Ha.
  assert (pending x !! id = None) as Hp.
  { destruct (pending x !! id) eqn:E; [|done]. destruct (pending_live _ _ _ _ Hok E). congruence. }
  assert (in_flight_idempotency x !! key = None) as Hk.
  { unfold ensure_idempotency_available in Ha. by destruct (in_flight_idempotency x !! key). }
  destruct (budget_ok _ _ _ Hb (so_provider _ _ Hok) (so_tenant _ _ Hok)) as [Hb1 Hb2].
  destruct (state_ok_more live x id (Proxied pid t, key, d) Hid Hok)
    as [H1 H2 H3 H4 H5 H6 H7]. split; simpl.
  - by apply (counters_insert p_provider_id _ _ id (mkPending pid t key d)).
  - by apply (counters_insert p_tenant_id _ _ id (mkPending pid t key d)).
  - intros pid'. rewrite count_insert by done. case_decide as E; simpl in E; [subst; lia|apply H3].
  - intros t'. rewrite count_insert by done. case_decide as E; simpl in E; [subst; lia|apply H4].
  - intros id' p' [[<- <-]|[Hne Hp']]%lookup_insert_Some; simpl.
    + rewrite !lookup_insert_eq. split; [done|by exists fp].
    + destruct (H5 _ _ Hp') as [Hl [fp' Er]]. split; [done|]. exists fp'.
      rewrite lookup_insert_ne; [done|]. congruence.
  - intros k r [[<- <-]|[Hne Hr]]%lookup_insert_Some; simpl.
    + exists (Proxied pid t), d. rewrite !lookup_insert_eq. eauto.
    + destruct (H6 _ _ Hr) as (tr & d' & Hl & Hor). exists tr, d'. split; [done|].
      destruct Hor as [|Hs]; [by left|right]. destruct (decide (id = owner r)) as [->|];
        [by rewrite lookup_insert_eq|by rewrite lookup_insert_ne].
  - exact H7.
Qed.

Lemma reserve_ok live x id key fp d :
  state_ok live x → live !! id = None → ensure_idempotency_available key fp x = Ok tt →
  state_ok (<[id := (Local, key, d)]> live) (reserve_idempotency key fp id d x).
Proof.
  intros Hok Hid Ha.
  assert (in_flight_idempotency x !! key = None) as Hk.
  { unfold ensure_idempotency_available in Ha. by destruct (in_flight_idempotency x !! key). }
  destruct (state_ok_more live x id (Local, key, d) Hid Hok)
    as [H1 H2 H3 H4 H5 H6 H7]. split; simpl; [done..| | |done].
  - intros id' p' Hp'. destruct (H5 _ _ Hp') as [Hl [fp' Er]]. split; [done|]. exists fp'.
    rewrite lookup_insert_ne; [done|]. congruence.
  - intros k r [[<- <-]|[Hne Hr]]%lookup_insert_Some; simpl; [|by apply H6].
    exists Local, d. rewrite lookup_insert_eq. eauto.
Qed.

(** Releasing the reservation of a live local invocation. *)
Lemma release_ok live x id key d :
  state_ok live x → live !! id = Some (Local, key, d) →
  state_ok live (release_idempotency key id x)
  ∧ ∀ k r, in_flight_idempotency (release_idempotency key id x) !! k = Some r → owner r ≠ id.
Proof.
  intros Hok Hl.
  assert (∀ k r, in_flight_idempotency x !! k = Some r → owner r = id → k = key) as Hkey.
  { intros k r Hr <-. destruct (so_reserved _ _ Hok _ _ Hr) as (tr & d' & Hl' & _). congruence. }
  unfold release_idempotency.
  destruct (in_flight_idempotency x !! key) as [r|] eqn:Er; [case_decide as Ho|].
  - split.
    + apply set_idempotency_ok; [done|apply delete_subseteq|]. intros id' p Hp.
      destruct (so_pending _ _ Hok _ _ Hp) as (Hl' & fp & Er').
      rewrite lookup_delete_ne; [done|]. intros Heq. rewrite Heq, Er' in Er.
      injection Er as <-. simpl in Ho. subst. congruence.
    + simpl. intros k r' [Hne Hr]%lookup_delete_Some Hown. by rewrite (Hkey _ _ Hr Hown) in Hne.
  - split; [done|]. intros k r' Hr Hown. rewrite (Hkey _ _ Hr Hown) in Hr. congruence.
  - split; [done|]. intros k r' Hr Hown. rewrite (Hkey _ _ Hr Hown) in Hr. congruence.
Qed.

(** Taking out the request of a proxied invocation leaves nothing of it. *)
Lemma take_pending_clears live x id pid t key d :
  state_ok live x → live !! id = Some (Proxied pid t, key, d) →
  pending (take_pending id x).1 !! id = None
  ∧ ∀ k r, in_flight_idempotency (take_pending id x).1 !! k = Some r → owner r ≠ id.
Proof.
  intros Hok Hl. split; [by rewrite take_pending_lookup, decide_True|].
  intros k r Hr Ho. pose proof (take_pending_ok _ _ id Hok) as Hok'.
  destruct (so_reserved _ _ Hok' _ _ Hr) as (tr & d' & Hl' & Hor).
  rewrite Ho, Hl in Hl'. destruct Hor as [->|Hs]; [done|].
  rewrite Ho, take_pending_lookup, decide_True in Hs by done. by destruct Hs.
Qed.

Lemma drop_guard_ok live x id i :
  state_ok live x → live !! id = Some (inv_transport i, inv_key i, inv_deadline i) →
  state_ok live (drop_guard id i x) ∧ pending (drop_guard id i x) !! id = None
  ∧ ∀ k r, in_flight_idempotency (drop_guard id i x) !! k = Some r → owner r ≠ id.
Proof.
  intros Hok Hl. unfold drop_guard. destruct (inv_transport i) as [pid t|].
  - split; [by apply take_pending_ok|by eapply take_pending_clears].
  - destruct (release_ok _ _ _ _ _ Hok Hl) as [H1 H2]. split; [done|]. split; [|done].
    destruct (pending _ !! id) eqn:E; [|done].
    destruct (so_pending _ _ H1 _ _ E) as [Hl' _]. congruence.
Qed.

Lemma state_ok_less live x id :
  state_ok live x → pending x !! id = None →
  (∀ k r, in_flight_idempotency x !! k = Some r → owner r ≠ id) →
  state_ok (delete id live) x.
Proof.
  intros [H1 H2 H3 H4 H5 H6 H7] Hp Ho. split; [done..| | |done].
  - intros id' p Hp'. rewrite lookup_delete_ne; [by apply H5|congruence].
  - intros k r Hr. destruct (H6 _ _ Hr) as (tr & d & Hl & Hor). exists tr, d.
    rewrite lookup_delete_ne; [done|]. intros Heq. by destruct (Ho _ _ Hr).
Qed.

(** ** Steps *)

Definition sys_ok (s : Sys) : Prop := state_ok (live_of (invs s)) (st s).

Lemma live_alter g id m :
  (∀ i, (inv_transport (g i), inv_key (g i), inv_deadline (g i))
        = (inv_transport i, inv_key i, inv_deadline i)) →
  live_of (alter g id m) = live_of m.
Proof.
  intros Hg. unfold live_of. apply map_eq. intros k. rewrite !lookup_fmap.
  destruct (decide (id = k)) as [->|]; [|by rewrite lookup_alter_ne].
  rewrite lookup_alter_eq. destruct (m !! k); simpl; [by rewrite Hg|done].
Qed.

Lemma set_phase_ok id ph s : sys_ok s → sys_ok (set_phase id ph s).
Proof. unfold sys_ok. simpl. by rewrite live_alter. Qed.

Lemma set_st_ok x s : state_ok (live_of (invs s)) x → sys_ok (set_st x s).
Proof. done. Qed.

Lemma start_proxied_ok id pid t key fp i tmo s :
  sys_ok s → invs s !! id = None → sys_ok (start_proxied id pid t key fp i tmo s).1.
Proof.
  intros Hok Hid. unfold start_proxied, begin_proxied.
  pose proof (cleanup_ok _ _ (clock s) Hok) as Hc.
  destruct (_ ← ensure_provider_not_rate_limited _ _ _; _) as [[]|e] eqn:E;
    [|by apply set_st_ok].
  inv_ok. destruct a0. unfold sys_ok. simpl. unfold live_of. rewrite fmap_insert.
  apply register_ok; [done| |done|done]. by rewrite lookup_fmap, Hid.
Qed.

Lemma start_local_ok id key fp i tmo s :
  sys_ok s → invs s !! id = None → sys_ok (start_local id key fp i tmo s).1.
Proof.
  intros Hok Hid. unfold start_local, begin_local.
  pose proof (cleanup_ok _ _ (clock s) Hok) as Hc.
  destruct (ensure_idempotency_available _ _ _) as [[]|e] eqn:E; [|by apply set_st_ok].
  unfold sys_ok. simpl. unfold live_of. rewrite fmap_insert.
  apply reserve_ok; [done| |done]. by rewrite lookup_fmap, Hid.
Qed.

Lemma live_lookup s id i :
  invs s !! id = Some i →
  live_of (invs s) !! id = Some (inv_transport i, inv_key i, inv_deadline i).
Proof. intros Hi. unfold live_of. by rewrite lookup_fmap, Hi. Qed.

Lemma drop_invocation_ok id i s :
  sys_ok s → invs s !! id = Some i →
  sys_ok (drop_invocation id i s)
  ∧ pending (st (drop_invocation id i s)) !! id = None
  ∧ ∀ k r, in_flight_idempotency (st (drop_invocation id i s)) !! k = Some r → owner r ≠ id.
Proof.
  intros Hok Hi. destruct (drop_guard_ok _ _ _ _ Hok (live_lookup _ _ _ Hi)) as (H1 & H2 & H3).
  split; [|done]. unfold sys_ok. simpl. unfold live_of. rewrite fmap_delete.
  by apply state_ok_less.
Qed.

Section Steps.
Context (value_bytes : Value → Result string Z).
Notation step := (step value_bytes).
Notation reachable := (reachable value_bytes).

Lemma step_preserves s s' : step s s' → sys_ok s → sys_ok s'.
Proof.
  intros Hstep Hok. destruct Hstep; try (by apply set_phase_ok).
  - done.
  - by apply set_st_ok, cleanup_ok.
  - by apply start_proxied_ok.
  - by apply start_local_ok.
  - unfold remove_then. destruct (take_pending _ _) as [x b] eqn:E.
    apply set_phase_ok, set_st_ok. change x with (x, b).1. rewrite <-E. by apply take_pending_ok.
  - unfold remove_then. destruct (take_pending _ _) as [x b] eqn:E.
    apply set_phase_ok, set_st_ok. change x with (x, b).1. rewrite <-E. by apply take_pending_ok.
  - by apply set_phase_ok, set_st_ok, record_failure_ok.
  - by apply set_phase_ok, set_st_ok, set_cache_ok, cleanup_ok.
  - by apply drop_invocation_ok.
  - unfold complete. destruct (take_pending _ _) as [x b] eqn:E. unfold sys_ok. simpl.
    replace (live_of (if b then _ else _)) with (live_of (invs s))
      by (destruct b; [by rewrite live_alter|done]).
    change x with (x, b).1. rewrite <-E. by apply take_pending_ok.
  - apply set_st_ok. unfold fail_in_flight_for_provider.
    destruct (_.*1); [by apply take_all_ok|by apply record_failure_ok, take_all_ok].
Qed.

Lemma reachable_sys_ok s : reachable s → sys_ok s.
Proof.
  intros [now Hr]. assert (∀ a, sys_ok a → rtc step a s → sys_ok s) as H
    by (intros a Ha; induction 1; eauto using step_preserves).
  eapply H; [|exact Hr]. unfold sys_ok, live_of. simpl. rewrite fmap_empty. apply empty_state_ok.
Qed.

(** ** The properties *)

(** C9: However invocations are interleaved, completed, timed out, failed, swept or
    dropped, the bookkeeping is exact: a provider's and a tenant's counter is the number of
    their requests in flight, absent at zero; the budgets are never exceeded; each request
    in flight belongs to a live invocation and holds the reservation of its idempotency
    key, so that no two requests in flight share a key. *)
Theorem in_flight_accounting s :
  reachable s →
  let x := st s in
  (∀ pid, in_flight_per_provider x !! pid =
     let n := size (filter (λ kv, p_provider_id kv.2 = pid) (pending x)) in
     if n =? 0 then None else Some n)
  ∧ (∀ t, in_flight_per_tenant x !! t =
     let n := size (filter (λ kv, p_tenant_id kv.2 = t) (pending x)) in
     if n =? 0 then None else Some n)
  ∧ (∀ pid n, in_flight_per_provider x !! pid = Some n → n ≤ MAX_IN_FLIGHT_PER_PROVIDER)
  ∧ (∀ t n, in_flight_per_tenant x !! t = Some n → n ≤ MAX_IN_FLIGHT_PER_TENANT)
  ∧ (∀ id p, pending x !! id = Some p →
       is_Some (invs s !! id)
       ∧ owner <$> in_flight_idempotency x !! p_idempotency_key p = Some id)
  ∧ (∀ id1 id2 p1 p2, pending x !! id1 = Some p1 → pending x !! id2 = Some p2 →
       p_idempotency_key p1 = p_idempotency_key p2 → id1 = id2).
Proof.
  intros Hok%reachable_sys_ok. simpl. pose proof (so_provider _ _ Hok) as HP.
  pose proof (so_tenant _ _ Hok) as HT. split_and!; [exact HP|exact HT|..].
  - intros pid n. rewrite HP. pose proof (so_provider_budget _ _ Hok pid). case_match; naive_solver.
  - intros t n. rewrite HT. pose proof (so_tenant_budget _ _ Hok t). case_match; naive_solver.
  - intros id p Hp. destruct (so_pending _ _ Hok _ _ Hp) as (Hl & fp & Er). split.
    + unfold live_of in Hl. rewrite lookup_fmap in Hl. destruct (invs s !! id); [by eexists|done].
    + by rewrite Er.
  - intros id1 id2 p1 p2. by eapply pending_key_inj.
Qed.

(** Nothing leaks: once an invocation has returned or its future was dropped, at
    whatever point, it has no request in flight and no reservation; and when no invocation
    is left, no request, counter or reservation is. *)
Theorem nothing_leaks s :
  reachable s →
  (∀ id i, invs s !! id = Some i →
     let s' := drop_invocation id i s in
     pending (st s') !! id = None
     ∧ ∀ k r, in_flight_idempotency (st s') !! k = Some r → owner r ≠ id)
  ∧ (invs s = ∅ →
     pending (st s) = ∅ ∧ in_flight_per_provider (st s) = ∅
     ∧ in_flight_per_tenant (st s) = ∅ ∧ in_flight_idempotency (st s) = ∅).
Proof.
  intros Hok%reachable_sys_ok. split.
  - intros id i Hi. by apply drop_invocation_ok.
  - intros He. unfold sys_ok in Hok. rewrite He in Hok. unfold live_of in Hok.
    rewrite fmap_empty in Hok.
    assert (pending (st s) = ∅) as Hp.
    { apply map_empty. intros id. destruct (pending (st s) !! id) eqn:E; [|done].
      by destruct (pending_live _ _ _ _ Hok E). }
    destruct Hok as [H1 H2 _ _ _ H6 _]. rewrite Hp in H1, H2.
    split_and!; [done|by eapply counters_empty|by eapply counters_empty|].
    apply map_empty. intros k. destruct (in_flight_idempotency (st s) !! k) eqn:E; [|done].
    destruct (H6 _ _ E) as (tr & d & Hl & _). by rewrite lookup_empty in Hl.
Qed.

(** A key is open again before its response is cached: when a provider's response to a
    request arrives, the reservation is released at once, and the invocation that will
    cache the response has yet to run. Until it does, a second call with the same key and
    the same content is admitted, so a provider can be made to act twice on one key. *)
Theorem duplicate_window s id p fp r :
  reachable s → pending (st s) !! id = Some p →
  idempotency_cache (st s) !! p_idempotency_key p = None →
  let s' := complete id r s in
  ensure_idempotency_available (p_idempotency_key p) fp (st s') = Ok tt
  ∧ ∃ i, invs s' !! id = Some i ∧ inv_received i = Some r
         ∧ inv_key i = p_idempotency_key p
         ∧ idempotency_cache (st s') !! inv_key i = None.
Proof.
  intros Hok%reachable_sys_ok Hp Hc.
  destruct (so_pending _ _ Hok _ _ Hp) as (Hl & fp' & Er). unfold complete.
  rewrite (take_pending_some _ _ _ _ Hok Hp). simpl. split.
  - unfold ensure_idempotency_available. simpl. by rewrite lookup_delete_eq, Hc.
  - unfold live_of in Hl. rewrite lookup_fmap in Hl.
    destruct (invs s !! id) as [i|] eqn:Ei; [|done]. injection Hl as Ht Hk Hd.
    exists (with_received r i). rewrite lookup_alter_eq, Ei. simpl. by rewrite Hk.
Qed.

End Steps.

(** ** The failure breaker *)

Lemma drop_old_recent now l :
  Forall (λ t, (now - FAILURE_WINDOW ≤ t)%Z) l → drop_old now l = l.
Proof.
  intros H. destruct l as [|t l]; [done|]. simpl. apply Forall_cons in H as [Ht _].
  unfold duration_since. rewrite (proj2 (Z.leb_le _ _)); [done|].
  assert (0 <= FAILURE_WINDOW)%Z by (by unfold FAILURE_WINDOW, secs). lia.
Qed.

Lemma note_failure_recent now l b :
  Forall (λ t, (now - FAILURE_WINDOW ≤ t)%Z) l →
  note_failure now (mkFailures l b) =
  if FAILURE_LIMIT <=? S (length l) then mkFailures [] (Some (now + FAILURE_COOLDOWN)%Z)
  else mkFailures (l ++ [now]) b.
Proof.
  intros H. unfold note_failure. cbn [failures blocked_until].
  rewrite drop_old_recent.
  - by rewrite length_app, Nat.add_1_r.
  - apply Forall_app. split; [done|]. constructor; [|done].
    assert (0 <= FAILURE_WINDOW)%Z by (by unfold FAILURE_WINDOW, secs). lia.
Qed.

(** The record of a provider's failures after [record_provider_failure]. *)
Lemma record_lookup x pid now l b :
  default (mkFailures [] None) (provider_failures x !! pid) = mkFailures l b →
  Forall (λ t, (now - FAILURE_WINDOW ≤ t)%Z) l →
  provider_failures (record_provider_failure now pid x) !! pid =
  Some (if FAILURE_LIMIT <=? S (length l) then mkFailures [] (Some (now + FAILURE_COOLDOWN)%Z)
        else mkFailures (l ++ [now]) b).
Proof.
  intros Hx Hl. unfold record_provider_failure. simpl. rewrite lookup_insert_eq, Hx. f_equal.
  by apply note_failure_recent.
Qed.

(** The breaker: four failures of a provider within the window change nothing, the
    fifth blocks it for exactly the cooldown. *)
Theorem breaker_trips x pid t1 t2 t3 t4 t5 now :
  provider_failures x !! pid = None →
  (t1 ≤ t2 ≤ t3)%Z → (t3 ≤ t4 ≤ t5)%Z → (t5 - t1 ≤ FAILURE_WINDOW)%Z →
  let fail ts := foldl (λ y t, record_provider_failure t pid y) x ts in
  ensure_provider_not_rate_limited now pid (fail [t1; t2; t3; t4]) = Ok tt
  ∧ ensure_provider_not_rate_limited now pid (fail [t1; t2; t3; t4; t5])
    = if (now <? t5 + FAILURE_COOLDOWN)%Z then Err RateLimited else Ok tt.
Proof.
  intros Hx H1 H2 Hw. cbn [foldl].
  assert (∀ l b t y, provider_failures y !! pid = Some (mkFailures l b) →
    (t1 ≤ t ≤ t5)%Z → Forall (λ u, (t1 ≤ u)%Z) l →
    provider_failures (record_provider_failure t pid y) !! pid =
    Some (if FAILURE_LIMIT <=? S (length l) then mkFailures [] (Some (t + FAILURE_COOLDOWN)%Z)
          else mkFailures (l ++ [t]) b)) as Hnext.
  { intros l b t y Hy Ht Hl. apply record_lookup; [by rewrite Hy|].
    eapply Forall_impl; [exact Hl|]. simpl. lia. }
  pose proof (record_lookup x pid t1 [] None ltac:(by rewrite Hx) (List.Forall_nil _)) as F1.
  pose proof (Hnext _ _ t2 _ F1 ltac:(lia) ltac:(repeat constructor; lia)) as F2.
  pose proof (Hnext _ _ t3 _ F2 ltac:(lia) ltac:(repeat constructor; lia)) as F3.
  pose proof (Hnext _ _ t4 _ F3 ltac:(lia) ltac:(repeat constructor; lia)) as F4.
  pose proof (Hnext _ _ t5 _ F4 ltac:(lia) ltac:(repeat constructor; lia)) as F5.
  unfold ensure_provider_not_rate_limited. by rewrite F4, F5.
Qed.

(** ** A concrete run *)

Module InFlightDemo.

Definition bytes (_ : Value) : Result string Z := Ok 10%Z.
Definition ping : InteractionDescriptor := interaction_new "ping" MutationAction "Ping" ProviderProxied.
Definition key : IdempotencyKey := mkKey 1%N "demo.page" "ping" "user:u:s" "k".
Definition answer : SurfaceActionResponse := mkResponse 5%N true (Some (JBool true)) None.

(** One request under way, its response on the way in. *)
Definition started : Sys := (start_proxied 5%N "service.demo" 1%N key 42 ping (secs 30) (empty_sys 0)).1.

Lemma started_reachable : reachable bytes started.
Proof. exists 0%Z. by apply rtc_once, step_start_proxied. Qed.

Lemma started_pending :
  pending (st started) !! 5%N = Some (mkPending "service.demo" 1%N key (secs 30)).
Proof. vm_compute. reflexivity. Qed.

Lemma in_flight_accounting_witness :
  in_flight_per_provider (st started) !! "service.demo" = Some 1
  ∧ owner <$> in_flight_idempotency (st started) !! key = Some 5%N.
Proof.
  destruct (in_flight_accounting bytes started started_reachable) as (Hp & _ & _ & _ & Hpend & _).
  split; [rewrite Hp; vm_compute; reflexivity|].
  apply (Hpend _ _ started_pending).
Defined.

Lemma nothing_leaks_witness :
  is_Some (invs started !! 5%N)
  ∧ pending (st (default started ((λ i, drop_invocation 5%N i started) <$> invs started !! 5%N)))
      !! 5%N = None.
Proof.
  destruct (nothing_leaks bytes started started_reachable) as [Hdrop _].
  destruct (invs started !! 5%N) as [i|] eqn:Hi; [|by vm_compute in Hi].
  split; [by eexists|]. apply (Hdrop _ _ Hi).
Defined.

(** The second call is admitted between the response and its caching. *)
Lemma duplicate_window_witness :
  ensure_idempotency_available key 42 (st (complete 5%N answer started)) = Ok tt
  ∧ (start_proxied 6%N "service.demo" 1%N key 42 ping (secs 30) (complete 5%N answer started)).2
    = Ok tt.
Proof.
  destruct (duplicate_window bytes started 5%N _ 42 answer started_reachable started_pending)
    as [H _]; [vm_compute; reflexivity|]. split; [exact H|]. vm_compute. reflexivity.
Defined.

Lemma breaker_trips_witness :
  (0 ≤ 1 ≤ 2)%Z
  ∧ ensure_provider_not_rate_limited 5 "service.demo"
      (foldl (λ y t, record_provider_failure t "service.demo" y) empty_state
         [0; 1; 2; 3; 4]%Z) = Err RateLimited.
Proof.
  split; [lia|].
  destruct (breaker_trips empty_state "service.demo" 0 1 2 3 4 5) as [_ H];
    [reflexivity|lia|lia|done|]. exact H.
Defined.

End InFlightDemo.
