(* ===== verification/SurfaceDispatch.v ===== *)
(** What holds of every call the surface proxy dispatches, whatever the registry and the
    connections do meanwhile: the checks of [invoke_inner], composed with what the registry
    admits. *)

From stdpp Require Import base list gmap sets strings numbers pretty.
From S2P Require Import Prelude RustStr Json AccessVocab SurfaceTypes SurfaceContract SurfaceRegistry SurfaceTheorems SurfaceQueries ServiceConnections SurfaceProxy.

Section Dispatch.
Context {Msg : Type}.
Context (parse_uuid : string → option Uuid) (fmt_uuid : Uuid → string)
        (payload_bytes : SurfaceRegistration → option Z) (debug_str : string → string)
        (fingerprint_request : list (string * Value) → option EncryptedSensitiveParams → Z).
Context `{SurfaceProviderVisibility}.
Implicit Types v : @Views Msg.

Notation prepare := (prepare parse_uuid fmt_uuid fingerprint_request).
Notation reachable := (reachable parse_uuid fmt_uuid payload_bytes debug_str).

(** The checks a prepared call passed. *)
Lemma prepare_inv v q override pr :
  prepare v q override = Ok pr →
  ∃ target, implicit_target_provider_for_request parse_uuid v q = Ok target
  ∧ resolve_surface_action_for_method parse_uuid (tenant_id q) (req_surface_id q)
      (req_interaction_id q) (method q) target (at_resolve v) (at_resolve_read v)
    = Ok (resolved pr)
  ∧ caller_origin_for_request fmt_uuid (at_origin v) (caller_origin q) = Ok (origin pr)
  ∧ validate_input_schema (res_interaction (resolved pr)) (req_params q) = Ok tt
  ∧ validate_sensitive_fields (res_interaction (resolved pr)) (req_params q) = Ok tt
  ∧ resolve_timeout override (res_interaction (resolved pr)) = Ok (timeout pr)
  ∧ gate_denies (origin pr) (resolved pr) = false.
Proof.
  unfold SurfaceProxy.prepare. intros Hp. inv_ok. destruct a2, a3.
  destruct (resolve_surface_action_for_method _ _ _ _ _ _ _ _) as [r|] eqn:Er; simpl in Ha0; [|done].
  injection Ha0 as ->. destruct (gate_denies a1 a0) eqn:Eg; [done|]. injection Hp as <-.
  exists a. by split_and!.
Qed.

Lemma sensitive_ok i ps :
  validate_sensitive_fields i ps = Ok tt → transport i = ProviderProxied →
  ∀ k, k ∈ sensitive_fields i → json_get k ps = None.
Proof.
  unfold validate_sensitive_fields. intros Hv Ht k Hk. case_decide as He; [by rewrite He in Hk; apply elem_of_nil in Hk|].
  case_decide; [congruence|]. rewrite for_each_ok, Forall_forall in Hv. specialize (Hv k Hk). simpl in Hv.
  case_decide as Hs; [done|]. by apply eq_None_not_Some.
Qed.

(** The values of a declared type. An integer is one of 64 bits with a sign; serde_json holds
    the negative ones apart. *)
Inductive typed : SchemaContract → Value → Prop :=
| typed_any x : typed SAny x
| typed_object l : typed SObject (JObject l)
| typed_array l : typed SArray (JArray l)
| typed_string s : typed SString (JString s)
| typed_natural n : (n < 2 ^ 63)%Z → typed SInteger (JNumber (PosInt n))
| typed_negative n : typed SInteger (JNumber (NegInt n))
| typed_number n : typed SNumber (JNumber n)
| typed_boolean b : typed SBoolean (JBool b)
| typed_null : typed SNull JNull.

Lemma schema_matches_typed s x : schema_matches s x = true ↔ typed s x.
Proof.
  split.
  - unfold schema_matches, as_i64. destruct s; destruct x as [| |[n|n|n]| | |]; try done; intros Hm; try constructor.
    apply bool_decide_eq_true in Hm as [z Hz]. destruct (Z.leb_spec n 9223372036854775807); [lia|done].
  - intros []; try done; apply bool_decide_eq_true; unfold as_i64.
    destruct (Z.leb_spec n 9223372036854775807); [by eexists|lia].
Qed.

Lemma params_ok i ps :
  validate_input_schema i ps = Ok tt →
  (∀ s, input_schema i = Some s → typed s (JObject ps)) ∧
  Forall (λ f, match json_get (param_key f) ps with
               | Some x => typed (param_schema f) x
               | None => param_required f = false
               end) (params i).
Proof.
  unfold validate_input_schema. intros Hv. inv_ok. rewrite for_each_ok in Hv. split.
  - intros s Hs. rewrite Hs in Ha. apply schema_matches_typed. by destruct (schema_matches s _).
  - eapply Forall_impl; [exact Hv|]. intros f. simpl. unfold validate_param_field.
    destruct (json_get _ ps); [|by destruct (param_required f)]. rewrite <-schema_matches_typed.
    by destruct (schema_matches _ _).
Qed.

(** A surface that a tenant may use: one its own provider brings, or one for all tenants of a
    provider for all of them. *)
Definition serves (b : EffectiveTenantBinding) (d : SurfaceDescriptor) (tenant : Uuid) : Prop :=
  match b_scope b with
  | TenantScope => ∃ s, b_tenant_id b = Some s ∧ parse_uuid s = Some tenant
  | Global => scope d = Global
  end.

Lemma visible_serves b d tenant : surface_visible_for_tenant parse_uuid b d tenant = true → serves b d tenant.
Proof.
  unfold surface_visible_for_tenant, serves, binding_tenant. destruct (b_scope b); simpl.
  - by destruct (scope d).
  - case_bool_decide as Hm; simpl; [|done]. intros _. by apply bind_Some in Hm.
Qed.

Lemma timeout_ok override i t :
  resolve_timeout override i = Ok t → (secs 1 ≤ t < secs 301)%Z.
Proof.
  unfold resolve_timeout. set (d := default _ override).
  destruct (_ && _) eqn:E; [|done]. intros [= <-]. apply andb_true_iff in E as [E1 E2].
  apply Z.leb_le in E1, E2. unfold as_secs, MIN_TIMEOUT_SECONDS, MAX_TIMEOUT_SECONDS in *.
  unfold secs. split.
  - pose proof (Z.mul_div_le d 1000000000). lia.
  - pose proof (Z.mul_succ_div_gt d 1000000000). lia.
Qed.

(** C35: before a call goes out, every declared parameter that is required is present, and
    every declared one that is present has a value of its declared type, as have the
    parameters as a whole; no sensitive field travels in cleartext to a provider; the timeout
    is at least one second and below 301 (the bound of 300 is on whole seconds); the provider
    has the requested surface and may serve the caller's tenant with it; and a call of
    another provider is either ungated or expressly invocable by providers. *)
Theorem dispatched_call_checked v q override pr :
  prepare v q override = Ok pr →
  let i := res_interaction (resolved pr) in
  Forall (λ f, match json_get (param_key f) (req_params q) with
               | Some x => typed (param_schema f) x
               | None => param_required f = false
               end) (params i)
  ∧ (∀ s, input_schema i = Some s → typed s (JObject (req_params q)))
  ∧ (transport i = ProviderProxied →
     ∀ k, k ∈ sensitive_fields i → json_get k (req_params q) = None)
  ∧ (secs 1 ≤ timeout pr < secs 301)%Z
  ∧ (∃ e s, providers (at_resolve v) !! res_provider_id (resolved pr) = Some e
      ∧ s ∈ surfaces (registration e) ∧ sid s = req_surface_id q
      ∧ serves (effective_tenant_binding (registration e)) (descriptor s) (tenant_id q))
  ∧ (is_provider_origin (origin pr) = true → provider_invocable i = true
     ∨ (descriptor_required_action (resolved pr) = None
        ∧ interaction_required_action (resolved pr) = None)).
Proof.
  intros (target & _ & Hr & _ & Hin & Hs & Ht & Hg)%prepare_inv. simpl. apply params_ok in Hin as [Hin Hps].
  split_and!; [done|done|by apply sensitive_ok|by eapply timeout_ok|by eapply timeout_ok| |].
  - apply resolve_visible in Hr as (e & s & He & _ & Hse & Hid & Hv & _). exists e, s. by split_and!; [..|apply visible_serves].
  - intros Ho. unfold gate_denies in Hg. rewrite Ho in Hg. simpl in Hg.
    destruct (provider_invocable _); [by left|right].
    rewrite andb_true_r in Hg. apply orb_false_iff in Hg as [H1 H2].
    by apply bool_decide_eq_false, eq_None_not_Some in H1, H2.
Qed.

(** No provider gets past an action gate of a service: a call that one provider
    initiates and that is dispatched to a service's surface requires no action at all,
    whatever the service registered. *)
Theorem provider_calls_ungated v q override pr :
  reachable (at_resolve v) → reachable (at_resolve_read v) →
  prepare v q override = Ok pr →
  is_provider_origin (origin pr) = true → res_provider_kind (resolved pr) = Service →
  descriptor_required_action (resolved pr) = None
  ∧ interaction_required_action (resolved pr) = None.
Proof.
  intros H1%reachable_ok H2%reachable_ok (target & _ & Hr & _ & _ & _ & _ & Hg)%prepare_inv Ho Hk.
  destruct (provider_invocable (res_interaction (resolved pr))) eqn:Hi;
    [eapply resolve_invocable; [exact H1|exact H2|exact Hr|done|done]|].
  unfold gate_denies in Hg. rewrite Ho, Hi in Hg. simpl in Hg. rewrite andb_true_r in Hg.
  apply orb_false_iff in Hg as [E1 E2].
  by apply bool_decide_eq_false, eq_None_not_Some in E1, E2.
Qed.

End Dispatch.

Module DispatchDemo.
Import Demo.

(** A service calls the invocable interaction of its own surface. *)
Definition views : @Views unit :=
  mkViews registry registry (λ _, Registry.new false) registry registry registry.
Definition call : SurfaceInvokeRequest :=
  mkInvoke 1%N "demo.page" "ping" None "k" None (ByProvider 7%N) [] None.
Definition hash (_ : list (string * Value)) (_ : option EncryptedSensitiveParams) : Z := 42.
#[local] Instance no_plugins : SurfaceProviderVisibility := DenyAllPluginProviders.

Lemma call_prepared :
  ∃ pr, prepare uuid_of str_of hash views call None = Ok pr
        ∧ is_provider_origin (origin pr) = true ∧ res_provider_kind (resolved pr) = Service.
Proof. eexists. split; [vm_compute; reflexivity|done]. Qed.

Lemma dispatched_call_checked_witness :
  ∃ pr, prepare uuid_of str_of hash views call None = Ok pr
        ∧ (secs 1 ≤ timeout pr < secs 301)%Z.
Proof.
  destruct call_prepared as (pr & Hp & _ & _). exists pr. split; [done|].
  by destruct (dispatched_call_checked uuid_of str_of hash views call None pr Hp)
    as (_ & _ & _ & Ht & _).
Defined.

Lemma provider_calls_ungated_witness :
  ∃ pr, prepare uuid_of str_of hash views call None = Ok pr
        ∧ interaction_required_action (resolved pr) = None.
Proof.
  destruct call_prepared as (pr & Hp & Ho & Hk). exists pr. split; [done|].
  by destruct (provider_calls_ungated uuid_of str_of bytes_of quote hash views call None pr
    registry_reachable registry_reachable Hp Ho Hk).
Defined.

End DispatchDemo.
