(* ===== verification/UpdateHistory.v ===== *)
(** The life of an update ([crates/ui/web-api-queries/src/queries/], [update_dispatch.rs],
    [update_triggers.rs], [update_reaper.rs] and [update_batches/]): the [update_history],
    [update_batches] and [update_output_lines] tables, and every query that changes them.
    Each SQL statement and each immediate transaction is one function of the database;
    where the code reads first and writes later, what it read is an argument.

    Instants and durations are in nanoseconds. *)

From Stdlib Require Import Ascii.
From stdpp Require Import base list gmap sets strings numbers pretty sorting.
From S2P Require Import Prelude RustStr.

(** ** Rows *)

Inductive UpdateStatus :=
  Queued | Pending | InProgress | AwaitingRestart | Completed | Failed | Interrupted.
#[global] Instance UpdateStatus_eq_dec : EqDecision UpdateStatus.
Proof. solve_decision. Defined.

Definition unfinished : list UpdateStatus := [Queued; Pending; InProgress; AwaitingRestart].
Definition host_blocking : list UpdateStatus := [Pending; InProgress; AwaitingRestart].

Inductive BatchStatus :=
  BatchInProgress | BatchCompleted | BatchPartiallyCompleted | BatchOther (s : string).
#[global] Instance BatchStatus_eq_dec : EqDecision BatchStatus.
Proof. solve_decision. Defined.

Inductive OutputStreamType := Stdout | Stderr | PreHook | PostHook | System.
Inductive UpdateFinalStatus := FinalCompleted | FinalFailed | FinalOther (s : string).

(** The columns of [update_history] that are written once, when the row is created. *)
Record Origin := mkOrigin {
  tenant_id : Uuid; host_id : Uuid; software_item_id : Uuid;
  host_software_item_id : option Uuid; actor_type : string; actor_id : string;
  created_at : Instant; update_category : string; batch_id : option Uuid;
  timeout_seconds : option Z }.

Record Row := mkRow {
  orig : Origin; from_version : option string; to_version : option string;
  status : UpdateStatus; output : string; output_bytes : Z;
  execution_owner_service_id : option Uuid; execution_owner_instance_id : option Uuid;
  started_at : option Instant; completed_at : option Instant;
  awaiting_restart_since : option Instant; interactive : bool; output_truncated : bool;
  pre_update_protection_status : option string;
  pre_update_protection_summary : option string; recovery_hint : option string }.

Record Batch := mkBatch {
  b_tenant_id : Uuid; batch_type : string; b_status : BatchStatus; total_count : Z;
  b_actor_type : string; b_actor_id : string; b_output : string; b_output_bytes : Z;
  b_created_at : Instant; b_completed_at : option Instant }.

Record OutputLine := mkLine {
  line_id : Uuid; update_history_id : Uuid; stream : OutputStreamType; line_output : string;
  line_created_at : Instant }.

Record Db := mkDb {
  histories : gmap Uuid Row; batches : gmap Uuid Batch; output_lines : list OutputLine }.

Definition set_histories m (db : Db) : Db := mkDb m (batches db) (output_lines db).
Definition set_batches m (db : Db) : Db := mkDb (histories db) m (output_lines db).
Definition set_lines l (db : Db) : Db := mkDb (histories db) (batches db) l.

(** ** SQL statements *)

(** A violated unique index. *)
Inductive DbErr := UniqueViolation.
Notation Sql := (Result DbErr) (only parsing).

(** [col_expr(column, value)] of an update statement. *)
Inductive Assign :=
| SetStatus (s : UpdateStatus)
| SetOutput (s : string)
| SetOutputBytes (n : Z)
| AddOutputBytes (n : Z)
| SetOutputTruncated (b : bool)
| SetOwnerService (o : option Uuid)
| SetOwnerInstance (o : option Uuid)
| SetStartedAt (t : option Instant)
| SetCompletedAt (t : option Instant)
| SetAwaitingRestartSince (t : option Instant)
| SetInteractive (b : bool)
| SetFromVersion (v : option string)
| SetToVersion (v : option string)
| SetProtectionStatus (v : option string)
| SetProtectionSummary (v : option string)
| SetRecoveryHint (v : option string).

Definition assign (r : Row) (a : Assign) : Row :=
  let '(mkRow o fv tv s out ob os oi sa ca aw ia ot ps pm rh) := r in
  match a with
  | SetStatus s => mkRow o fv tv s out ob os oi sa ca aw ia ot ps pm rh
  | SetOutput out => mkRow o fv tv s out ob os oi sa ca aw ia ot ps pm rh
  | SetOutputBytes ob => mkRow o fv tv s out ob os oi sa ca aw ia ot ps pm rh
  | AddOutputBytes n => mkRow o fv tv s out (ob + n)%Z os oi sa ca aw ia ot ps pm rh
  | SetOutputTruncated ot => mkRow o fv tv s out ob os oi sa ca aw ia ot ps pm rh
  | SetOwnerService os => mkRow o fv tv s out ob os oi sa ca aw ia ot ps pm rh
  | SetOwnerInstance oi => mkRow o fv tv s out ob os oi sa ca aw ia ot ps pm rh
  | SetStartedAt sa => mkRow o fv tv s out ob os oi sa ca aw ia ot ps pm rh
  | SetCompletedAt ca => mkRow o fv tv s out ob os oi sa ca aw ia ot ps pm rh
  | SetAwaitingRestartSince aw => mkRow o fv tv s out ob os oi sa ca aw ia ot ps pm rh
  | SetInteractive ia => mkRow o fv tv s out ob os oi sa ca aw ia ot ps pm rh
  | SetFromVersion fv => mkRow o fv tv s out ob os oi sa ca aw ia ot ps pm rh
  | SetToVersion tv => mkRow o fv tv s out ob os oi sa ca aw ia ot ps pm rh
  | SetProtectionStatus ps => mkRow o fv tv s out ob os oi sa ca aw ia ot ps pm rh
  | SetProtectionSummary pm => mkRow o fv tv s out ob os oi sa ca aw ia ot ps pm rh
  | SetRecoveryHint rh => mkRow o fv tv s out ob os oi sa ca aw ia ot ps pm rh
  end.

Definition assign_all (l : list Assign) (r : Row) : Row := foldl assign r l.

(** [uix_update_history_host_active]: one pending, running or restarting update per host;
    [uix_update_history_host_software_item_active]: one unfinished update per item of a
    host. *)
Definition host_index (m : gmap Uuid Row) : list Uuid :=
  omap (λ r, if decide (status r ∈ host_blocking) then Some (host_id (orig r)) else None)
    (map_to_list m).*2.
Definition item_index (m : gmap Uuid Row) : list (Uuid * Uuid) :=
  omap (λ r, if decide (status r ∈ unfinished)
             then Some (host_id (orig r), software_item_id (orig r)) else None)
    (map_to_list m).*2.
Definition indexes_ok (m : gmap Uuid Row) : Prop := NoDup (host_index m) ∧ NoDup (item_index m).
#[global] Instance indexes_ok_dec m : Decision (indexes_ok m).
Proof. unfold indexes_ok. apply _. Defined.

(** Write the rows back, unless an index refuses. *)
Definition commit_rows (m : gmap Uuid Row) (db : Db) : Sql Db :=
  if decide (indexes_ok m) then Ok (set_histories m db) else Err UniqueViolation.

(** [update_many().filter(..).col_expr(..).exec(..)]: the new state and the number of rows
    affected. *)
Definition update_many (P : Uuid → Row → bool) (l : list Assign) (db : Db) : Sql (Db * nat) :=
  let m := map_imap (λ id r, Some (if P id r then assign_all l r else r)) (histories db) in
  db' ← commit_rows m db;
  Ok (db', size (filter (λ kv : Uuid * Row, P kv.1 kv.2 = true) (histories db))).

Definition insert_row (id : Uuid) (r : Row) (db : Db) : Sql Db :=
  commit_rows (<[id := r]> (histories db)) db.

(** ** Filters *)

Notation "b1 &&& b2" := (λ id r, b1 id r && b2 id r) (at level 40, left associativity).
Notation Filter := (Uuid → Row → bool) (only parsing).

Definition by_id (x : Uuid) : Filter := λ id _, bool_decide (id = x).
Definition id_in (l : list Uuid) : Filter := λ id _, bool_decide (id ∈ l).
Definition status_is (s : UpdateStatus) : Filter := λ _ r, bool_decide (status r = s).
Definition status_in (l : list UpdateStatus) : Filter := λ _ r, bool_decide (status r ∈ l).
Definition owner_service_is (o : option Uuid) : Filter :=
  λ _ r, bool_decide (execution_owner_service_id r = o).
Definition owner_instance_is (o : option Uuid) : Filter :=
  λ _ r, bool_decide (execution_owner_instance_id r = o).
Definition host_is (h : Uuid) : Filter := λ _ r, bool_decide (host_id (orig r) = h).
Definition batch_is (b : Uuid) : Filter := λ _ r, bool_decide (batch_id (orig r) = Some b).
Definition not_truncated : Filter := λ _ r, negb (output_truncated r).

(** [owned_status_condition] and its two instances. *)
Definition owned_status_condition (sv : Uuid) (inst : option Uuid) (l : list UpdateStatus) : Filter :=
  status_in l &&& owner_service_is (Some sv) &&& owner_instance_is inst.
Definition owned_in_progress_condition (sv : Uuid) (inst : option Uuid) : Filter :=
  owned_status_condition sv inst [InProgress].
Definition owned_finalizable_condition (sv : Uuid) (inst : option Uuid) : Filter :=
  owned_status_condition sv inst [InProgress; Interrupted].

(** The rows of the table that satisfy a filter. *)
Definition find_all (P : Filter) (db : Db) : list (Uuid * Row) :=
  map_to_list (filter (λ kv : Uuid * Row, P kv.1 kv.2 = true) (histories db)).
Definition count_rows (P : Filter) (db : Db) : nat := length (find_all P db).

(** ** Creating updates *)

Definition DEFAULT_UPDATE_TIMEOUT_SECS : Z := 7200.

Record CreateUpdateRecordParams := mkCreate {
  cp_tenant_id : Uuid; cp_host_id : Uuid; cp_item_id : Uuid;
  cp_host_software_item_id : option Uuid; cp_to_version : string;
  cp_from_version : option string; cp_actor_type : string; cp_actor_id : string;
  cp_update_category : string; cp_batch_id : option Uuid; initial_status : UpdateStatus;
  cp_interactive : bool }.

Definition new_row (now : Instant) (p : CreateUpdateRecordParams) : Row :=
  mkRow (mkOrigin (cp_tenant_id p) (cp_host_id p) (cp_item_id p) (cp_host_software_item_id p)
           (cp_actor_type p) (cp_actor_id p) now (cp_update_category p) (cp_batch_id p)
           (Some DEFAULT_UPDATE_TIMEOUT_SECS))
    (cp_from_version p) (Some (cp_to_version p)) (initial_status p) "" 0 None None (Some now)
    None None (cp_interactive p) false None None None.

(** [create_update_history_record], with the id it generates. *)
Definition create_update_history_record (now : Instant) (id : Uuid)
    (p : CreateUpdateRecordParams) (db : Db) : Sql Db := insert_row id (new_row now p) db.

Definition has_active_update_for_host (h : Uuid) (db : Db) : bool :=
  0 <? count_rows (host_is h &&& status_in host_blocking) db.

Definition has_active_update_for_host_software_item (h item : Uuid) (db : Db) : bool :=
  0 <? count_rows (host_is h &&& (λ _ r, bool_decide (software_item_id (orig r) = item))
                   &&& status_in unfinished) db.

(** [trigger_update_for_host] once its preconditions are validated; [ids] are the ids the
    two attempts generate, the databases those of its four statements. *)
Inductive TriggerUpdateError := UpdateAlreadyActive | Database (e : DbErr).

Definition with_status (s : UpdateStatus) (p : CreateUpdateRecordParams) : CreateUpdateRecordParams :=
  mkCreate (cp_tenant_id p) (cp_host_id p) (cp_item_id p) (cp_host_software_item_id p)
    (cp_to_version p) (cp_from_version p) (cp_actor_type p) (cp_actor_id p)
    (cp_update_category p) (cp_batch_id p) s (cp_interactive p).

(** Insert as queued; a violated index means the item is being updated already. *)
Definition insert_queued (now : Instant) (id : Uuid) (p : CreateUpdateRecordParams) (db : Db)
    : Result TriggerUpdateError (Db * Uuid * UpdateStatus) :=
  match create_update_history_record now id (with_status Queued p) db with
  | Ok db' => Ok (db', id, Queued)
  | Err UniqueViolation => Err UpdateAlreadyActive
  end.

Definition trigger_update_for_host (now : Instant) (id1 id2 : Uuid)
    (p : CreateUpdateRecordParams) (db_item db_host db_insert db_retry : Db)
    : Result TriggerUpdateError (Db * Uuid * UpdateStatus) :=
  if has_active_update_for_host_software_item (cp_host_id p) (cp_item_id p) db_item
  then Err UpdateAlreadyActive
  else if has_active_update_for_host (cp_host_id p) db_host
  then insert_queued now id1 p db_insert
  else match create_update_history_record now id1 (with_status Pending p) db_insert with
       | Ok db' => Ok (db', id1, Pending)
       | Err UniqueViolation => insert_queued now id2 p db_retry
       end.

(** ** Before the agent runs ([update_dispatch.rs]) *)

Definition set_inprogress_for_orchestrator (now : Instant) (id : Uuid) : Db → Sql (Db * nat) :=
  update_many (by_id id &&& status_is Pending)
    [SetStatus InProgress; SetProtectionStatus (Some "in_progress"); SetOwnerService None;
     SetStartedAt (Some now)].

Definition insert_protection_output_line (l : OutputLine) (db : Db) : Db :=
  set_lines (output_lines db ++ [l]) db.

Definition write_pre_update_protection_status (id : Uuid) (st summary : option string)
    : Db → Sql (Db * nat) :=
  update_many (by_id id) [SetProtectionStatus st; SetProtectionSummary summary].

Definition PRE_UPDATE_PROTECTION_FAILURE_SUMMARY : string :=
  "Controller pre-update protection failed before dispatch.".

(** The write has no status in its filter. *)
Definition fail_before_agent_dispatch (now : Instant) (id : Uuid)
    (protection_status protection_summary : option string) : Db → Sql (Db * nat) :=
  let summary := match protection_summary with
                 | Some s => if str_is_empty s then PRE_UPDATE_PROTECTION_FAILURE_SUMMARY else s
                 | None => PRE_UPDATE_PROTECTION_FAILURE_SUMMARY
                 end in
  update_many (by_id id)
    [SetStatus Failed; SetCompletedAt (Some now);
     SetProtectionStatus (Some (default "failed" protection_status));
     SetProtectionSummary (Some summary)].

(** What the controller's protection plugin answered, if there is one. *)
Record ProtectionDecision := mkDecision {
  attempted : bool; succeeded : bool; d_status : option string; d_summary : option string }.
Inductive PreUpdateProtectionOutcome := Proceed | ProtectionFailed.
#[global] Instance PreUpdateProtectionOutcome_eq_dec : EqDecision PreUpdateProtectionOutcome.
Proof. solve_decision. Defined.

(** [plugin] is [None] without a plugin, [Some None] when it returned an error. *)
Definition prepare_pre_update_protection (now : Instant)
    (plugin : option (option ProtectionDecision)) (id : Uuid) (db : Db)
    : Sql (Db * PreUpdateProtectionOutcome) :=
  match plugin with
  | None => Ok (db, Proceed)
  | Some None =>
      '(db', _) ← fail_before_agent_dispatch now id None None db; Ok (db', ProtectionFailed)
  | Some (Some d) =>
      if negb (attempted d) then
        '(db', _) ← write_pre_update_protection_status id (Some "skipped") (d_summary d) db;
        Ok (db', Proceed)
      else if succeeded d then
        '(db', _) ← write_pre_update_protection_status id (d_status d) (d_summary d) db;
        Ok (db', Proceed)
      else
        '(db', _) ← fail_before_agent_dispatch now id (d_status d) (d_summary d) db;
        Ok (db', ProtectionFailed)
  end.

(** ** Claiming ([update_batches/dispatch.rs]) *)

Record ClaimExecutionInfo := mkClaimInfo {
  ci_batch_id : option Uuid; ci_host_id : Uuid; ci_software_item_id : Uuid;
  ci_tenant_id : Uuid }.
Inductive ClaimExecutionOutcome :=
| Claimed (i : ClaimExecutionInfo)
| Replay (i : ClaimExecutionInfo)
| Rejected.

Definition claim_execution_info (r : Row) : ClaimExecutionInfo :=
  mkClaimInfo (batch_id (orig r)) (host_id (orig r)) (software_item_id (orig r))
    (tenant_id (orig r)).

Definition delete_lines (ids : list Uuid) (db : Db) : Db :=
  set_lines (filter (λ l, update_history_id l ∉ ids) (output_lines db)) db.

(** [record] is the row as it was read before the transaction on [db]. *)
Definition claim_or_replay_update_start_db (now : Instant) (record : option Row) (id : Uuid)
    (sv : Uuid) (inst : option Uuid) (inter : bool) (db : Db)
    : Sql (Db * ClaimExecutionOutcome) :=
  match record with
  | None => Ok (db, Rejected)
  | Some r =>
      if bool_decide (status r = Pending) && bool_decide (execution_owner_service_id r = None)
         && bool_decide (execution_owner_instance_id r = None)
      then
        '(db', n) ← update_many (by_id id &&& status_is Pending &&& owner_service_is None
                                 &&& owner_instance_is None)
            [SetStatus InProgress; SetStartedAt (Some now); SetOwnerService (Some sv);
             SetOwnerInstance inst; SetInteractive inter; SetOutput ""; SetOutputBytes 0;
             SetOutputTruncated false] db;
        if n =? 0 then Ok (db, Rejected)
        else Ok (delete_lines [id] db', Claimed (claim_execution_info r))
      else if bool_decide (status r = InProgress)
              && bool_decide (execution_owner_service_id r = None)
      then
        '(db', n) ← update_many (by_id id &&& status_is InProgress &&& owner_service_is None)
            [SetOwnerService (Some sv); SetOwnerInstance inst; SetInteractive inter] db;
        if n =? 0 then Ok (db, Rejected)
        else Ok (db', Claimed (claim_execution_info r))
      else if bool_decide (status r = InProgress)
              && bool_decide (execution_owner_service_id r = Some sv)
              && bool_decide (execution_owner_instance_id r = inst)
      then Ok (db, Replay (claim_execution_info r))
      else Ok (db, Rejected)
  end.

(** ** Output *)

Definition UPDATE_OUTPUT_BYTES_CAP : Z := 52428800.
Definition newline : string := String "010" "".
Definition OUTPUT_TRUNCATION_NOTICE : string :=
  newline +:+ "[Output truncated: this update produced more than 50 MB of output. "
  +:+ "Only the first 50 MB is stored.]" +:+ newline.

Inductive AppendUpdateOutputOutcome :=
| Ignored
| Appended (line : OutputLine)
| TruncationNotice (notice : OutputLine)
| AppendedWithTruncation (line notice : OutputLine).

(** [str::is_char_boundary] *)
Definition is_char_boundary (s : string) (i : nat) : bool :=
  if i =? 0 then true
  else match String.get i s with
       | Some c => negb (is_continuation c)
       | None => i =? str_len s
       end.

Fixpoint walk_back (s : string) (boundary : nat) : nat :=
  if is_char_boundary s boundary then boundary
  else match boundary with 0 => 0 | S b => walk_back s b end.

Definition truncate_to_char_boundary (s : string) (max_bytes : nat) : string :=
  if str_len s <=? max_bytes then s else String.substring 0 (walk_back s max_bytes) s.

Definition str_bytes (s : string) : Z := Z.of_nat (str_len s).

(** One transaction; [id1] and [id2] are the ids of the lines it may insert. *)
Definition append_update_output_if_owned (now : Instant) (id1 id2 : Uuid) (id : Uuid) (sv : Uuid)
    (inst : option Uuid) (strm : OutputStreamType) (out : string) (db : Db)
    : Sql (Db * AppendUpdateOutputOutcome) :=
  match find_all (by_id id &&& owned_in_progress_condition sv inst) db with
  | [] => Ok (db, Ignored)
  | (_, record) :: _ =>
      if output_truncated record then Ok (db, Ignored)
      else
        let remaining := if (UPDATE_OUTPUT_BYTES_CAP <=? output_bytes record)%Z then 0%Z
                         else (UPDATE_OUTPUT_BYTES_CAP - output_bytes record)%Z in
        let guard := by_id id &&& owned_in_progress_condition sv inst &&& not_truncated in
        if (0 <? remaining)%Z && (str_bytes out <=? remaining)%Z then
          '(db', n) ← update_many guard [AddOutputBytes (str_bytes out)] db;
          if n =? 1 then
            let line := mkLine id1 id strm out now in
            Ok (set_lines (output_lines db' ++ [line]) db', Appended line)
          else Ok (db, Ignored)
        else
          let stored_prefix := truncate_to_char_boundary out (Z.to_nat remaining) in
          '(db', n) ← update_many guard
              [SetOutputBytes (output_bytes record + str_bytes stored_prefix)%Z;
               SetOutputTruncated true] db;
          if n =? 1 then
            let notice := mkLine id2 id System OUTPUT_TRUNCATION_NOTICE now in
            if str_is_empty stored_prefix
            then Ok (set_lines (output_lines db' ++ [notice]) db', TruncationNotice notice)
            else
              let line := mkLine id1 id strm stored_prefix now in
              Ok (set_lines (output_lines db' ++ [line; notice]) db',
                  AppendedWithTruncation line notice)
          else Ok (db, Ignored)
  end.

(** ** Finishing *)

Definition final_output (out : string) (error : option string) : string :=
  if str_is_empty out then default "" error else out.

Definition final_to_status (s : UpdateFinalStatus) : UpdateStatus :=
  match s with FinalCompleted => Completed | _ => Failed end.

Definition finalize_update_result_if_owned (now : Instant) (id sv : Uuid) (inst : option Uuid)
    (s : UpdateFinalStatus) (error : option string) (out : string)
    (from_v to_v : option string) : Db → Sql (Db * nat) :=
  let out := final_output out error in
  update_many (by_id id &&& owned_finalizable_condition sv inst)
    [SetStatus (final_to_status s); SetCompletedAt (Some now); SetOutput out;
     SetOutputBytes (str_bytes out); SetFromVersion from_v; SetToVersion to_v].

Definition finalize_batch_item_if_owned (now : Instant) (id sv : Uuid) (inst : option Uuid)
    (s : UpdateFinalStatus) (error : option string) (out : string)
    (installed : option string) : Db → Sql (Db * nat) :=
  let out := final_output out error in
  update_many (by_id id &&& owned_in_progress_condition sv inst)
    [SetStatus (final_to_status s); SetCompletedAt (Some now); SetOutput out;
     SetOutputBytes (str_bytes out); SetToVersion installed].

(** The recovery hint a protection plugin leaves after an update; its failures are only
    logged. *)
Definition finalize_post_update (hint : option (option string)) (id : Uuid) (db : Db) : Sql Db :=
  match hint with
  | Some h => '(db', _) ← update_many (by_id id) [SetRecoveryHint h] db; Ok db'
  | None => Ok db
  end.

(** [existing] tells whether the row was there when first looked up. *)
Definition fail_pending_unowned_update (now : Instant) (existing : bool)
    (hint : option (option string)) (id : Uuid) (error : option string) (out : string)
    (db : Db) : Sql (Db * nat) :=
  if negb existing then Ok (db, 0)
  else
    let out := final_output out error in
    '(db', n) ← update_many (by_id id &&& status_is Pending &&& owner_service_is None
                             &&& owner_instance_is None)
        [SetStatus Failed; SetCompletedAt (Some now); SetOutput out;
         SetOutputBytes (str_bytes out)] db;
    if n =? 1 then
      match finalize_post_update hint id db' with
      | Ok db'' => Ok (db'', n)
      | Err _ => Ok (db', n)
      end
    else Ok (db', n).

Definition transition_to_awaiting_restart (now : Instant) (id sv : Uuid) : Db → Sql (Db * nat) :=
  update_many (by_id id &&& status_is InProgress &&& owner_service_is (Some sv))
    [SetStatus AwaitingRestart; SetAwaitingRestartSince (Some now)].

(** [record] is the restarting row of the item as it was read, with its id. *)
Definition apply_awaiting_restart_version_check (now : Instant) (record : option (Uuid * Row))
    (installed_version : option string) (not_ready : option bool) (error : option string)
    (db : Db) : Sql (Db * option UpdateStatus) :=
  match record with
  | None => Ok (db, None)
  | Some (id, r) =>
      if bool_decide (not_ready = Some true) then Ok (db, None)
      else match error, installed_version, to_version r with
           | None, Some installed, Some to_v =>
               let s := if decide (installed = to_v) then Completed else Failed in
               '(db', n) ← update_many (by_id id &&& status_is AwaitingRestart)
                   [SetStatus s; SetCompletedAt (Some now)] db;
               if n =? 0 then Ok (db', None) else Ok (db', Some s)
           | _, _, _ => Ok (db, None)
           end
  end.

Definition touch_stdin_attention_if_owned (id sv : Uuid) (inst : option Uuid)
    : Db → Sql (Db * nat) :=
  update_many (by_id id &&& owned_in_progress_condition sv inst) [].

(** ** Recovery after a restart *)

Definition RECOVERY_HINT : string :=
  "execution outcome unknown — connection lost or deadline exceeded; "
  +:+ "verify the installed version before re-running".

Definition interrupt_with (now : Instant) (hint reason : string) : list Assign :=
  [SetStatus Interrupted; SetCompletedAt (Some now); SetRecoveryHint (Some hint);
   SetOutput reason; SetOutputBytes (str_bytes reason)].

(** The owner's instance is not the current one. *)
Definition foreign_instance (current : option Uuid) : Filter :=
  λ _ r, match current with
         | Some c => bool_decide (execution_owner_instance_id r ≠ Some c)
         | None => bool_decide (execution_owner_instance_id r = None)
         end.

Definition load_owned_reconnect_candidates (sv : Uuid) (inst : option Uuid) (db : Db) : list Uuid :=
  (find_all (status_is InProgress &&& owner_service_is (Some sv) &&& foreign_instance inst) db).*1.

(** The transaction over the candidates read before it: interrupt those that still
    qualify, and drop their output lines. *)
Definition interrupt_candidates (guard : Filter) (l : list Assign) (candidates : list Uuid)
    (db : Db) : Sql (Db * list Uuid) :=
  '(db', done) ← for_fold (λ '(db, done) id,
      '(db', n) ← update_many (by_id id &&& guard) l db;
      Ok (db', if n =? 1 then done ++ [id] else done)) (db, []) candidates;
  Ok (delete_lines done db', done).

Definition mark_owned_in_progress_as_interrupted_on_reconnect (now : Instant) (sv : Uuid)
    (inst : option Uuid) (candidates : list Uuid) : Db → Sql (Db * list Uuid) :=
  interrupt_candidates (status_is InProgress &&& owner_service_is (Some sv) &&& foreign_instance inst)
    (interrupt_with now RECOVERY_HINT "Update interrupted: agent restarted (outcome unknown)"
     ++ [SetOutputTruncated false]) candidates.

Definition mark_all_in_progress_as_interrupted_for_rollout (now : Instant)
    (candidates : list Uuid) : Db → Sql (Db * list Uuid) :=
  interrupt_candidates (status_is InProgress)
    (interrupt_with now RECOVERY_HINT "Update interrupted: owner-aware rollout (outcome unknown)"
     ++ [SetOutputTruncated false]) candidates.

Definition mark_orchestrator_inprogress_as_failed_on_reconnect (now : Instant)
    (hosts : list Uuid) (db : Db) : Sql (Db * nat) :=
  if decide (hosts = []) then Ok (db, 0)
  else
    let reason := "Protection interrupted: controller restarted" in
    update_many (status_is InProgress &&& owner_service_is None
                 &&& (λ _ r, bool_decide (host_id (orig r) ∈ hosts)))
      [SetStatus Failed; SetCompletedAt (Some now); SetOutput reason;
       SetOutputBytes (str_bytes reason); SetOutputTruncated false;
       SetProtectionStatus (Some "failed")] db.
