(* ===== verification/UpdateBatches.v ===== *)
(** Batches of updates and the backstops ([update_batches/dispatch.rs],
    [update_batches/mod.rs], [update_reaper.rs] of the queries crate, and the sweep of
    [crates/ui/web-api/src/update_reaper.rs]). *)

From Stdlib Require Import Ascii.
From stdpp Require Import base list gmap sets strings numbers pretty sorting.
From S2P Require Import Prelude RustStr UpdateHistory.

(** ** Completing a batch *)

Record BatchCompletionInfo := mkCompletion {
  bc_batch_id : Uuid; bc_tenant_id : Uuid; bc_status : BatchStatus; bc_total_count : Z;
  completed_count : nat; failed_count : nat }.

Definition complete_batch_row (s : BatchStatus) (now : Instant) (b : Batch) : Batch :=
  mkBatch (b_tenant_id b) (batch_type b) s (total_count b) (b_actor_type b) (b_actor_id b)
    (b_output b) (b_output_bytes b) (b_created_at b) (Some now).

(** One transaction. *)
Definition maybe_complete_batch (now : Instant) (batch tenant : Uuid) (db : Db)
    : Db * option BatchCompletionInfo :=
  if 0 <? count_rows (batch_is batch &&& status_in unfinished) db then (db, None)
  else
    let failed := count_rows (batch_is batch &&& status_is Failed) db in
    let completed := count_rows (batch_is batch &&& status_is Completed) db in
    let new_status := if 0 <? failed then BatchPartiallyCompleted else BatchCompleted in
    match batches db !! batch with
    | None => (db, None)
    | Some b =>
        if decide (b_status b = BatchCompleted ∨ b_status b = BatchPartiallyCompleted)
        then (db, None)
        else (set_batches (<[batch := complete_batch_row new_status now b]> (batches db)) db,
              Some (mkCompletion batch tenant new_status (total_count b) completed failed))
    end.

(** ** Dispatching the queue of a host *)

(** The oldest queued update of a host: [order_by_asc(id).one()]. *)
Definition row_id_le (a b : Uuid * Row) : Prop := (a.1 <= b.1)%N.
#[global] Instance row_id_le_dec a b : Decision (row_id_le a b).
Proof. unfold row_id_le. apply _. Defined.

Definition next_queued (h : Uuid) (db : Db) : option (Uuid * Row) :=
  head (merge_sort row_id_le (find_all (host_is h &&& status_is Queued) db)).

(** What dispatching depends on outside these tables: whether the target of an update can
    be loaded ([load_target_for_dispatch]), what the protection plugin answers, and whether
    the message to the agent could be built ([dispatch_update_to_agent]). *)
Class Dispatcher := {
  load_target : Uuid → Row → Result string unit;
  protection : Uuid → option (option ProtectionDecision);
  dispatch_update_to_agent : Uuid → Row → Result string bool }.

(** The row written back as failed. The write has no status in its filter. *)
Definition mark_dispatch_failed (now : Instant) (id : Uuid) (r : Row) (e : string) (db : Db)
    : Sql Db :=
  let out := "dispatch failed: " +:+ e in
  '(db', _) ← update_many (by_id id)
     [SetStatus Failed; SetCompletedAt (Some now); SetOutput out; SetOutputBytes (str_bytes out)] db;
  Ok db'.

Definition complete_batch_of (now : Instant) (r : Row) (db : Db) : Db :=
  match batch_id (orig r) with
  | Some b => (maybe_complete_batch now b (tenant_id (orig r)) db).1
  | None => db
  end.

Definition promote (id : Uuid) : Db → Sql (Db * nat) :=
  update_many (by_id id &&& status_is Queued) [SetStatus Pending].

Section Dispatch.
Context `{Dispatcher}.

(** One turn of the loop after the row [next] was read: [None] to go on. *)
Definition dispatch_one (now : Instant) (next : Uuid * Row) (db : Db) : Sql (Db * option unit) :=
  let '(id, r) := next in
  '(db, n) ← promote id db;
  if n =? 0 then Ok (db, None)
  else match load_target id r with
       | Err e =>
           db ← mark_dispatch_failed now id r e db;
           Ok (complete_batch_of now r db, None)
       | Ok _ =>
           '(db, outcome) ← prepare_pre_update_protection now (protection id) id db;
           match outcome with
           | ProtectionFailed => Ok (complete_batch_of now r db, None)
           | Proceed =>
               match dispatch_update_to_agent id r with
               | Ok _ => Ok (db, Some tt)
               | Err e =>
                   db ← mark_dispatch_failed now id r e db;
                   Ok (complete_batch_of now r db, None)
               end
           end
       end.

(** [loop { .. }], with fuel; [None] when the fuel runs out. *)
Fixpoint dispatch_next_queued_for_host (fuel : nat) (now : Instant) (h : Uuid) (db : Db)
    : option (Sql Db) :=
  match fuel with
  | 0 => None
  | S fuel =>
      match next_queued h db with
      | None => Some (Ok db)
      | Some next =>
          match dispatch_one now next db with
          | Err e => Some (Err e)
          | Ok (db', Some _) => Some (Ok db')
          | Ok (db', None) => dispatch_next_queued_for_host fuel now h db'
          end
      end
  end.

(** Enough fuel for a queue: each turn takes one update out of it. *)
Definition queue_fuel (h : Uuid) (db : Db) : nat :=
  S (count_rows (host_is h &&& status_is Queued) db).

Definition dispatch_next_in_batch (now : Instant) (batch h tenant : Uuid) (db : Db)
    : option (Sql (Db * option BatchCompletionInfo)) :=
  match dispatch_next_queued_for_host (queue_fuel h db) now h db with
  | None => None
  | Some (Err e) => Some (Err e)
  | Some (Ok db') => Some (Ok (maybe_complete_batch now batch tenant db'))
  end.

(** ** Creating a batch *)

(** A candidate that passed validation: its host, item, link and versions. *)
Record Candidate := mkCandidate {
  cd_host_id : Uuid; cd_item_id : Uuid; cd_hsi : Uuid; latest_version : string;
  installed_version : string; category : string }.

Record CreateBatchParams := mkBatchParams {
  cb_tenant_id : Uuid; cb_batch_type : string; cb_actor_type : string; cb_actor_id : string }.

Definition batch_record (p : CreateBatchParams) (candidates : list Candidate) (batch : Uuid)
    (now : Instant) (c : Candidate) (s : UpdateStatus) : CreateUpdateRecordParams :=
  mkCreate (cb_tenant_id p) (cd_host_id c) (cd_item_id c) (Some (cd_hsi c)) (latest_version c)
    (Some (installed_version c)) (cb_actor_type p) (cb_actor_id p) (category c) (Some batch) s
    false.

(** The loop that gives each candidate its first status: on a busy host everything waits,
    on a free host everything but the first. *)
Fixpoint assign_statuses (busy seen : gset Uuid) (l : list Candidate)
    : list (Candidate * UpdateStatus) :=
  match l with
  | [] => []
  | c :: l' =>
      if decide (cd_host_id c ∈ busy) then (c, Queued) :: assign_statuses busy seen l'
      else if decide (cd_host_id c ∈ seen) then (c, Queued) :: assign_statuses busy seen l'
      else (c, Pending) :: assign_statuses busy ({[cd_host_id c]} ∪ seen) l'
  end.

Definition busy_hosts (db : Db) (l : list Candidate) : gset Uuid :=
  list_to_set (filter (λ h, has_active_update_for_host h db = true) (cd_host_id <$> l)).

(** The transaction: the batch and its updates, all or nothing. [db0] is the database when
    the busy hosts were read; [ids] are the ids generated for the updates. *)
Definition create_batch_txn (now : Instant) (p : CreateBatchParams) (batch : Uuid)
    (ids : list Uuid) (l : list Candidate) (db0 db : Db)
    : Sql (Db * list (Uuid * Candidate * UpdateStatus)) :=
  let assigned := zip_with (λ id cs, (id, cs.1, cs.2)) ids
                    (assign_statuses (busy_hosts db0 l) ∅ l) in
  let db1 := set_batches (<[batch := mkBatch (cb_tenant_id p) (cb_batch_type p) BatchInProgress
                 (Z.of_nat (length l)) (cb_actor_type p) (cb_actor_id p) "" 0 now None]>
                 (batches db)) db in
  db' ← for_fold (λ db '(id, c, s),
           create_update_history_record now id (batch_record p l batch now c s) db) db1 assigned;
  Ok (db', assigned).

(** The updates to hand to their agents now, after the commit. A failed protection moves the
    host on to the next update; the first error ends the loop, what was written stays. *)
Inductive CreateBatchError := CreateDb (e : DbErr) | CreateDispatch (e : string).

Fixpoint start_items (now : Instant) (p : CreateBatchParams) (all : list Candidate) (batch : Uuid)
    (l : list (Uuid * Candidate * UpdateStatus)) (db : Db) : Db * option CreateBatchError :=
  match l with
  | [] => (db, None)
  | (id, c, s) :: l' =>
      if decide (s = Pending) then
        match prepare_pre_update_protection now (protection id) id db with
        | Err e => (db, Some (CreateDb e))
        | Ok (db1, ProtectionFailed) =>
            match dispatch_next_in_batch now batch (cd_host_id c) (cb_tenant_id p) db1 with
            | Some (Ok (db2, _)) => start_items now p all batch l' db2
            | Some (Err e) => (db1, Some (CreateDb e))
            | None => (db1, None)
            end
        | Ok (db1, Proceed) =>
            match dispatch_update_to_agent id (new_row now (batch_record p all batch now c s)) with
            | Ok _ => start_items now p all batch l' db1
            | Err e => (db1, Some (CreateDispatch e))
            end
        end
      else start_items now p all batch l' db
  end.

Inductive TriggerUpdateStatus := TriggerPending | TriggerQueued | TriggerFailed.

Definition trigger_status_from_update_history_status (s : UpdateStatus) : TriggerUpdateStatus :=
  match s with
  | Queued => TriggerQueued
  | Failed | Interrupted => TriggerFailed
  | Pending | InProgress | Completed => TriggerPending
  | AwaitingRestart => TriggerQueued
  end.

(** [create_batch] from the validated candidates on: the response lists each update with the
    status it has in the end. *)
Definition create_batch (now : Instant) (p : CreateBatchParams) (batch : Uuid) (ids : list Uuid)
    (l : list Candidate) (db0 db : Db)
    : Db * Result CreateBatchError (option Uuid * list (Uuid * TriggerUpdateStatus)) :=
  if decide (l = []) then (db, Ok (None, []))
  else match create_batch_txn now p batch ids l db0 db with
       | Err e => (db, Err (CreateDb e))
       | Ok (db1, assigned) =>
           match start_items now p l batch assigned db1 with
           | (db2, Some e) => (db2, Err e)
           | (db2, None) =>
               (db2, Ok (Some batch,
                  omap (λ '(id, _, _),
                    (λ r, (id, trigger_status_from_update_history_status (status r)))
                      <$> histories db2 !! id) assigned))
           end
       end.

End Dispatch.

(** ** The backstops ([update_reaper.rs]) *)

Definition MAX_BUDGET_SECS : Z := 60 * 60 * 24 * 30.
Definition REASON : string := "Update interrupted: deadline exceeded without a terminal result".
Definition PENDING_RECOVERY_HINT : string :=
  "the update never started on the host — the dispatch was not delivered before the "
  +:+ "agent connection was lost; safe to re-run once the agent reconnects".
Definition PENDING_REASON : string :=
  "Update interrupted: dispatch never started — agent connection absent past the dispatch grace".

Section Reaper.
(** [OffsetDateTime::checked_add] *)
Context (checked_add : Instant → Duration → option Instant).

Definition row_budget (default_budget : Duration) (r : Row) : Duration :=
  match timeout_seconds (orig r) with
  | Some s => if (0 <=? s)%Z then secs (Z.min s MAX_BUDGET_SECS) else default_budget
  | None => default_budget
  end.

Definition is_overdue (now : Instant) (default_budget grace : Duration) : Uuid → Row → bool :=
  λ _ r, match started_at r with
         | Some started =>
             match checked_add started (row_budget default_budget r + grace)%Z with
             | Some deadline => (deadline <? now)%Z
             | None => true
             end
         | None => false
         end.

Definition patch (l : list Assign) (rows : list (Uuid * Row)) : list (Uuid * Row) :=
  (λ kv, (kv.1, assign_all l kv.2)) <$> rows.

Definition reap_overdue_updates (now : Instant) (default_budget grace : Duration) (db : Db)
    : Sql (Db * list (Uuid * Row)) :=
  let overdue := find_all (status_is InProgress &&& is_overdue now default_budget grace) db in
  if decide (overdue = []) then Ok (db, [])
  else
    '(db', _) ← update_many (id_in overdue.*1 &&& status_is InProgress)
        (interrupt_with now RECOVERY_HINT REASON) db;
    Ok (db', patch (interrupt_with now RECOVERY_HINT REASON) overdue).

(** The services linked to hosts: which, whether deactivated, when last seen. *)
Record LinkedService := mkLinked {
  ls_service_id : Uuid; ls_host_id : Uuid; ls_deactivated : bool;
  last_seen_at : option Instant }.

Definition list_stalled_pending_updates (now : Instant) (grace : Duration)
    (links : list LinkedService) (db : Db) : list (Uuid * Row * list LinkedService) :=
  (λ kv, (kv.1, kv.2, filter (λ s, ls_deactivated s = false
                                 ∧ ls_host_id s = host_id (orig kv.2)) links))
    <$> find_all (status_is Pending &&& (λ _ r, created_at (orig r) <? now - grace)%Z) db.

Definition pending_row_is_reapable (now : Instant) (services : list LinkedService)
    (grace : Duration) : bool :=
  forallb (λ s, match last_seen_at s with
                | Some seen => (grace <=? now - seen)%Z
                | None => true
                end) services.

Definition reap_stalled_pending_updates (now : Instant) (ids : list Uuid) (db : Db)
    : Sql (Db * list (Uuid * Row)) :=
  if decide (ids = []) then Ok (db, [])
  else
    let candidates := find_all (id_in ids &&& status_is Pending) db in
    if decide (candidates = []) then Ok (db, [])
    else
      let l := interrupt_with now PENDING_RECOVERY_HINT PENDING_REASON in
      '(db', _) ← update_many (id_in candidates.*1 &&& status_is Pending) l db;
      Ok (db', patch l candidates).

Definition REAPER_GRACE : Duration := secs 300.
Definition PENDING_DISPATCH_GRACE : Duration := secs 600.
Definition DEFAULT_UPDATE_TIMEOUT : Duration := secs DEFAULT_UPDATE_TIMEOUT_SECS.

Context `{Dispatcher}.

(** The advance of the batches after a sweep; failures are logged. *)
Definition advance (now : Instant) (batch : Uuid) (r : Row) (tenant : Uuid) (db : Db) : Db :=
  match dispatch_next_in_batch now batch (host_id (orig r)) tenant db with
  | Some (Ok (db', _)) => db'
  | _ => db
  end.

(** One turn of [spawn_update_reaper]: [db2] is the database when the stalled updates are
    listed, [connected] the services connected now, [tenant_of] the tenant of a service. *)
Definition advance_reaped (now : Instant) (tenant_of : Uuid → option Uuid) (db : Db)
    (kv : Uuid * Row) : Db :=
  match batch_id (orig kv.2), execution_owner_service_id kv.2 with
  | Some batch, Some sv =>
      match tenant_of sv with Some t => advance now batch kv.2 t db | None => db end
  | _, _ => db
  end.

Definition advance_pending (now : Instant) (db : Db) (kv : Uuid * Row) : Db :=
  match batch_id (orig kv.2) with
  | Some batch => advance now batch kv.2 (tenant_id (orig kv.2)) db
  | None => db
  end.

Definition reaper_sweep (now : Instant) (links : list LinkedService)
    (connected : Uuid → bool) (tenant_of : Uuid → option Uuid) (db : Db) : Sql Db :=
  '(db, reaped) ← reap_overdue_updates now DEFAULT_UPDATE_TIMEOUT REAPER_GRACE db;
  let reapable := (filter (λ c, pending_row_is_reapable now c.2 PENDING_DISPATCH_GRACE
                       && negb (existsb (λ s, connected (ls_service_id s)) c.2) = true)
                    (list_stalled_pending_updates now PENDING_DISPATCH_GRACE links db)).*1.*1 in
  let '(db, pending_reaped) :=
    match reap_stalled_pending_updates now reapable db with
    | Ok p => p
    | Err _ => (db, [])
    end in
  Ok (foldl (advance_pending now) (foldl (advance_reaped now tenant_of) db reaped) pending_reaped).

End Reaper.

(** ** The other statements on [update_history] *)

(** [append_output_with_cap]: the text with the line, as far as the cap allows, and whether it
    was cut. *)
Definition append_output_with_cap (output line : string) (cap : nat) : string * bool :=
  if cap <=? str_len output then (output, true)
  else
    let remaining := cap - str_len output in
    (output +:+ truncate_to_char_boundary line remaining, negb (str_len line <=? remaining)).

Fixpoint join_lines (cap : nat) (output : string) (lines : list OutputLine) : string * bool :=
  match lines with
  | [] => (output, false)
  | l :: lines' =>
      let '(out, truncated) := append_output_with_cap output (line_output l) cap in
      if truncated : bool then (out, true) else join_lines cap out lines'
  end.

Definition line_le (a b : OutputLine) : Prop :=
  (line_created_at a < line_created_at b)%Z
  ∨ line_created_at a = line_created_at b ∧ (line_id a <= line_id b)%N.
#[global] Instance line_le_dec a b : Decision (line_le a b).
Proof. unfold line_le. apply _. Defined.

Definition load_output_lines_with_truncation (id : Uuid) (db : Db) : string * bool :=
  join_lines (Z.to_nat UPDATE_OUTPUT_BYTES_CAP) ""
    (merge_sort line_le (filter (λ l, update_history_id l = id) (output_lines db))).

(** The lines streamed while a protection ran, written to the row: two statements, [db0] is
    the database when the lines are read. *)
Definition consolidate_protection_output (id : Uuid) (db0 db : Db) : Sql (Db * nat) :=
  let '(out, truncated) := load_output_lines_with_truncation id db0 in
  update_many (by_id id) [SetOutput out; SetOutputBytes (str_bytes out); SetOutputTruncated truncated] db.

(** The result handler's mark for output the agent had cut. *)
Definition mark_output_truncated (id : Uuid) : Db → Sql (Db * nat) :=
  update_many (by_id id) [SetOutputTruncated true].

(** A pending update the controller cannot send again after a reconnect. *)
Definition UNREPLAYABLE_REASON : string :=
  "Update replay failed: controller could not reconstruct the pending update after reconnect".
Definition fail_unreplayable_pending_update (now : Instant) (id : Uuid) : Db → Sql (Db * nat) :=
  update_many (by_id id &&& status_is Pending)
    [SetStatus Failed; SetCompletedAt (Some now); SetOutput UNREPLAYABLE_REASON;
     SetOutputBytes (str_bytes UNREPLAYABLE_REASON)].

(** An update whose restart took too long. *)
Definition fail_restart_timeout (now : Instant) (id : Uuid) : Db → Sql (Db * nat) :=
  update_many (by_id id &&& status_is AwaitingRestart) [SetStatus Failed; SetCompletedAt (Some now)].

(** [deactivate_link]: the unfinished updates of software that is gone from its host. *)
Definition UNINSTALLED_UPDATE_OUTPUT : string := "software no longer installed on host".
Definition terminate_uninstalled (now : Instant) (link : Uuid) : Db → Sql (Db * nat) :=
  update_many ((λ _ r, bool_decide (host_software_item_id (orig r) = Some link)) &&& status_in unfinished)
    [SetStatus Failed; SetCompletedAt (Some now); SetOutput UNINSTALLED_UPDATE_OUTPUT;
     SetOutputBytes (str_bytes UNINSTALLED_UPDATE_OUTPUT)].

(** [reset_tenant_data], on the tables of updates. *)
Definition reset_update_rows (tenant : Uuid) (db : Db) : Db :=
  let of_tenant := filter (λ kv : Uuid * Row, tenant_id (orig kv.2) = tenant) (histories db) in
  mkDb (filter (λ kv : Uuid * Row, tenant_id (orig kv.2) ≠ tenant) (histories db))
    (filter (λ kv : Uuid * Batch, b_tenant_id kv.2 ≠ tenant) (batches db))
    (filter (λ l, of_tenant !! update_history_id l = None) (output_lines db)).
