(* ===== verification/UpdateTheorems.v ===== *)
(** The life of an update follows a fixed graph of statuses, belongs to at most one
    executor, and keeps its output within its cap. *)

From Stdlib Require Import Ascii.
From stdpp Require Import base list gmap sets strings numbers pretty sorting.
From S2P Require Import Prelude RustStr UpdateHistory UpdateBatches.

(** ** Statements *)

Lemma assign_orig r a : orig (assign r a) = orig r.
Proof. by destruct r, a. Qed.

Lemma assign_all_orig l r : orig (assign_all l r) = orig r.
Proof.
  unfold assign_all. apply (foldl_inv (λ r', orig r' = orig r)); [done|].
  intros r' a _ H. by rewrite assign_orig.
Qed.

Lemma commit_ok m db db' : commit_rows m db = Ok db' → db' = set_histories m db ∧ indexes_ok m.
Proof. unfold commit_rows. case_decide; naive_solver. Qed.

(** An update statement, row by row. *)
Lemma update_many_ok P l db db' n :
  update_many P l db = Ok (db', n) →
  (∀ id, histories db' !! id =
     (λ r, if P id r then assign_all l r else r) <$> histories db !! id)
  ∧ batches db' = batches db ∧ output_lines db' = output_lines db
  ∧ indexes_ok (histories db')
  ∧ n = count_rows P db.
Proof.
  unfold update_many. intros (db1 & [-> Hi]%commit_ok & [= <- <-])%bind_ok.
  split_and!; [|done..|].
  - intros id. simpl. rewrite map_lookup_imap. by destruct (histories db !! id).
  - unfold count_rows, find_all. by rewrite length_map_to_list.
Qed.

Lemma find_all_elem P db id r :
  (id, r) ∈ find_all P db ↔ histories db !! id = Some r ∧ P id r = true.
Proof. unfold find_all. by rewrite elem_of_map_to_list, map_lookup_filter_Some. Qed.

Lemma count_rows_zero P db :
  count_rows P db = 0 ↔ ∀ id r, histories db !! id = Some r → P id r = false.
Proof.
  unfold count_rows. rewrite length_zero_iff_nil. split.
  - intros He id r Hr. destruct (P id r) eqn:E; [|done].
    assert ((id, r) ∈ find_all P db) as Hin by (by apply find_all_elem).
    rewrite He in Hin. by apply elem_of_nil in Hin.
  - intros H. destruct (find_all P db) as [|[id r] l] eqn:E; [done|].
    assert ((id, r) ∈ find_all P db) as [Hr HP]%find_all_elem by (rewrite E; left).
    by rewrite (H _ _ Hr) in HP.
Qed.

(** A statement about one row affects it once or not at all. *)
Lemma count_rows_by_id P x db :
  (∀ id r, P id r = true → id = x) →
  count_rows P db = match histories db !! x with Some r => if P x r then 1 else 0 | None => 0 end.
Proof.
  intros HP. unfold count_rows, find_all. rewrite length_map_to_list. by apply size_filter_key.
Qed.

(** ** The graph of statuses *)

Inductive moves : UpdateStatus → UpdateStatus → Prop :=
| moves_promoted : moves Queued Pending
| moves_claimed : moves Pending InProgress
| moves_unsent : moves Pending Failed
| moves_stalled : moves Pending Interrupted
| moves_restarting : moves InProgress AwaitingRestart
| moves_finished s : s = Completed ∨ s = Failed ∨ s = Interrupted → moves InProgress s
| moves_restarted s : s = Completed ∨ s = Failed → moves AwaitingRestart s
| moves_late s : s = Completed ∨ s = Failed → moves Interrupted s.

(** The row after a write: its identity kept, its status kept or moved, and the executor
    of a row that had one kept. *)
Record evolves (r r' : Row) : Prop := {
  ev_orig : orig r' = orig r;
  ev_status : rtc moves (status r) (status r');
  ev_owner sv : execution_owner_service_id r = Some sv →
    execution_owner_service_id r' = Some sv
    ∧ execution_owner_instance_id r' = execution_owner_instance_id r }.

#[global] Instance evolves_preorder : PreOrder evolves.
Proof.
  split.
  - intros r. by split.
  - intros r1 r2 r3 [H1 H2 H3] [H4 H5 H6]. split.
    + congruence.
    + by etrans.
    + intros sv [E1 E2]%H3. apply H6 in E1 as [E3 E4]. split; congruence.
Qed.

(** No row is lost, and rows that wait have no executor. *)
Definition waiting_unowned (db : Db) : Prop :=
  ∀ id r, histories db !! id = Some r → status r = Queued ∨ status r = Pending →
    execution_owner_service_id r = None ∧ execution_owner_instance_id r = None.

Definition rows_evolve (db db' : Db) : Prop :=
  ∀ id r, histories db !! id = Some r →
    ∃ r', histories db' !! id = Some r' ∧ evolves r r'.

(** A statement keeps both when it does so row by row. *)
Lemma update_evolves P l db db' n :
  update_many P l db = Ok (db', n) → waiting_unowned db →
  (∀ id r, P id r = true →
     (status r = Queued ∨ status r = Pending →
      execution_owner_service_id r = None ∧ execution_owner_instance_id r = None) →
     evolves r (assign_all l r)
     ∧ (status (assign_all l r) = Queued ∨ status (assign_all l r) = Pending →
        execution_owner_service_id (assign_all l r) = None
        ∧ execution_owner_instance_id (assign_all l r) = None)) →
  waiting_unowned db' ∧ rows_evolve db db'.
Proof.
  intros (Hrows & _)%update_many_ok Hw HP. split.
  - intros id r'. rewrite Hrows. intros (r & Hr & ->)%fmap_Some.
    destruct (P id r) eqn:E; [|by apply (Hw id)]. apply (HP id r E). by apply (Hw id).
  - intros id r Hr. rewrite Hrows, Hr. simpl. eexists. split; [done|].
    destruct (P id r) eqn:E; [|reflexivity]. apply (HP id r E). by apply (Hw id).
Qed.

(** ** The writes whose filter names the status they leave *)

Inductive guarded_step : Db → Db → Prop :=
| gs_create now id p db db' :
    histories db !! id = None → initial_status p = Queued ∨ initial_status p = Pending →
    create_update_history_record now id p db = Ok db' → guarded_step db db'
| gs_new_batch batch b db :
    batches db !! batch = None → guarded_step db (set_batches (<[batch := b]> (batches db)) db)
| gs_promote id db db' n : promote id db = Ok (db', n) → guarded_step db db'
| gs_orchestrator now id db db' n :
    set_inprogress_for_orchestrator now id db = Ok (db', n) → guarded_step db db'
| gs_protection_status id s m db db' n :
    write_pre_update_protection_status id s m db = Ok (db', n) → guarded_step db db'
| gs_protection_line l db : guarded_step db (insert_protection_output_line l db)
| gs_claim now record id sv inst inter db db' o :
    claim_or_replay_update_start_db now record id sv inst inter db = Ok (db', o) →
    guarded_step db db'
| gs_append now id1 id2 id sv inst strm out db db' o :
    append_update_output_if_owned now id1 id2 id sv inst strm out db = Ok (db', o) →
    guarded_step db db'
| gs_finalize now id sv inst s e out fv tv db db' n :
    finalize_update_result_if_owned now id sv inst s e out fv tv db = Ok (db', n) →
    guarded_step db db'
| gs_finalize_item now id sv inst s e out v db db' n :
    finalize_batch_item_if_owned now id sv inst s e out v db = Ok (db', n) → guarded_step db db'
| gs_fail_pending now ex hint id e out db db' n :
    fail_pending_unowned_update now ex hint id e out db = Ok (db', n) → guarded_step db db'
| gs_post_update hint id db db' :
    finalize_post_update hint id db = Ok db' → guarded_step db db'
| gs_awaiting now id sv db db' n :
    transition_to_awaiting_restart now id sv db = Ok (db', n) → guarded_step db db'
| gs_version_check now record v nr e db db' o :
    apply_awaiting_restart_version_check now record v nr e db = Ok (db', o) → guarded_step db db'
| gs_touch id sv inst db db' n :
    touch_stdin_attention_if_owned id sv inst db = Ok (db', n) → guarded_step db db'
| gs_mark_owned now sv inst cs db db' l :
    mark_owned_in_progress_as_interrupted_on_reconnect now sv inst cs db = Ok (db', l) →
    guarded_step db db'
| gs_mark_all now cs db db' l :
    mark_all_in_progress_as_interrupted_for_rollout now cs db = Ok (db', l) → guarded_step db db'
| gs_mark_orchestrator now hosts db db' n :
    mark_orchestrator_inprogress_as_failed_on_reconnect now hosts db = Ok (db', n) →
    guarded_step db db'
| gs_reap_overdue add now budget grace db db' l :
    reap_overdue_updates add now budget grace db = Ok (db', l) → guarded_step db db'
| gs_reap_pending now ids db db' l :
    reap_stalled_pending_updates now ids db = Ok (db', l) → guarded_step db db'
| gs_complete_batch now batch tenant db :
    guarded_step db (maybe_complete_batch now batch tenant db).1.

(** Read a filter off a row. *)
Ltac read_filter H :=
  unfold owned_in_progress_condition, owned_finalizable_condition, owned_status_condition,
    by_id, id_in, status_is, status_in, owner_service_is, owner_instance_is,
    host_is, batch_is, not_truncated in H;
  repeat match goal with E : _ && _ = true |- _ =>
    let E2 := fresh E in apply andb_true_iff in E; destruct E as [E E2] end;
  repeat match goal with E : bool_decide _ = true |- _ => apply bool_decide_eq_true in E end.

(** Replace the status of a row by the one a filter gives it. *)
Ltac use_status := match goal with E : status ?r = _ |- _ => rewrite E end.

Lemma move_once a b : moves a b → rtc moves a b.
Proof. apply rtc_once. Qed.

#[local] Hint Constructors moves : core.
#[local] Hint Resolve move_once : core.

(** A row whose status moves along one edge and whose executor, if any, stays. *)
Lemma evolves_move r r' :
  orig r' = orig r → status r = status r' ∨ moves (status r) (status r') →
  (∀ sv, execution_owner_service_id r = Some sv →
     execution_owner_service_id r' = Some sv
     ∧ execution_owner_instance_id r' = execution_owner_instance_id r) →
  evolves r r'.
Proof. intros H1 [H2|H2] H3; split; [done|by rewrite H2|done|done|auto|done]. Qed.

Definition keeps (db db' : Db) : Prop :=
  waiting_unowned db → waiting_unowned db' ∧ rows_evolve db db'.

Lemma keeps_refl db : keeps db db.
Proof. intros Hw. split; [done|]. intros id r Hr. exists r. by split. Qed.

Lemma keeps_trans db1 db2 db3 : keeps db1 db2 → keeps db2 db3 → keeps db1 db3.
Proof.
  intros H12 H23 [H2 E12]%H12. apply H23 in H2 as [H3 E23]. split; [done|].
  intros id r (r2 & Hr2 & V12)%E12. apply E23 in Hr2 as (r3 & Hr3 & V23). exists r3.
  split; [done|by etrans].
Qed.

(** Only the rows matter. *)
Lemma keeps_rows db db1 db2 : histories db1 = histories db2 → keeps db db1 → keeps db db2.
Proof. unfold keeps, waiting_unowned, rows_evolve. by intros ->. Qed.

(** A statement that finds rows in one of the statuses [from] and sets [to], and writes no
    executor, or leaves the status alone. *)
Definition writes_no_owner (a : Assign) : Prop :=
  match a with SetOwnerService _ | SetOwnerInstance _ | SetStatus _ => False | _ => True end.

Lemma assign_plain r a : writes_no_owner a →
  status (assign r a) = status r
  ∧ execution_owner_service_id (assign r a) = execution_owner_service_id r
  ∧ execution_owner_instance_id (assign r a) = execution_owner_instance_id r.
Proof. by destruct r, a. Qed.

Lemma assign_all_plain l r : Forall writes_no_owner l →
  status (assign_all l r) = status r
  ∧ execution_owner_service_id (assign_all l r) = execution_owner_service_id r
  ∧ execution_owner_instance_id (assign_all l r) = execution_owner_instance_id r.
Proof.
  intros Hl. unfold assign_all. revert r. induction Hl as [|a l Ha Hl IH]; intros r; [done|]. simpl.
  destruct (IH (assign r a)) as (-> & -> & ->). by apply assign_plain.
Qed.

Lemma keeps_plain P l db db' n :
  Forall writes_no_owner l → update_many P l db = Ok (db', n) → keeps db db'.
Proof.
  intros Hl Hu Hw. eapply update_evolves; [exact Hu|done|].
  intros id r _ Hr. destruct (assign_all_plain l r Hl) as (Hs & Ho & Hi). rewrite Hs, Ho, Hi.
  split; [|done]. apply evolves_move; [apply assign_all_orig|by left|by rewrite Ho, Hi].
Qed.

Lemma keeps_status P s l db db' n :
  Forall writes_no_owner l → s ≠ Queued → s ≠ Pending →
  (∀ id r, P id r = true → moves (status r) s) →
  update_many P (SetStatus s :: l) db = Ok (db', n) → keeps db db'.
Proof.
  intros Hl Hq Hp HP Hu Hw. eapply update_evolves; [exact Hu|done|].
  intros id r HPr Hr. change (assign_all (SetStatus s :: l) r) with (assign_all l (assign r (SetStatus s))).
  destruct (assign_all_plain l (assign r (SetStatus s)) Hl) as (Hs & Ho & Hi).
  assert (status (assign r (SetStatus s)) = s
    ∧ execution_owner_service_id (assign r (SetStatus s)) = execution_owner_service_id r
    ∧ execution_owner_instance_id (assign r (SetStatus s)) = execution_owner_instance_id r)
    as (Es & Eo & Ei) by (by destruct r).
  rewrite Hs, Ho, Hi, Es. split; [|naive_solver].
  apply evolves_move.
  - by rewrite assign_all_orig, assign_orig.
  - right. rewrite Hs, Es. by eapply HP.
  - by rewrite Ho, Hi, Eo, Ei.
Qed.

#[local] Hint Extern 1 (Forall writes_no_owner _) => repeat constructor : core.

Lemma maybe_complete_rows now batch tenant db :
  histories (maybe_complete_batch now batch tenant db).1 = histories db.
Proof. unfold maybe_complete_batch. by repeat case_match. Qed.

Lemma create_keeps now id p db db' :
  histories db !! id = None → create_update_history_record now id p db = Ok db' → keeps db db'.
Proof.
  intros Hid [-> _]%commit_ok Hw. split.
  - intros id' r. simpl. intros [[<- <-]|[_ Hr]]%lookup_insert_Some; [done|by apply (Hw id')].
  - intros id' r Hr. exists r. simpl. rewrite lookup_insert_ne by congruence. by split.
Qed.

Lemma promote_keeps id db db' n : promote id db = Ok (db', n) → keeps db db'.
Proof.
  intros Hu Hw. eapply update_evolves; [exact Hu|done|]. intros id' r HP Hr. read_filter HP.
  assert (status r = Queued) as Hst by done. destruct (Hr (or_introl Hst)) as [Ho Hi].
  destruct r; simpl in *; subst. split; [|done].
  by apply evolves_move; [|right|].
Qed.

Lemma orchestrator_keeps now id db db' n :
  set_inprogress_for_orchestrator now id db = Ok (db', n) → keeps db db'.
Proof.
  intros Hu Hw. eapply update_evolves; [exact Hu|done|]. intros id' r HP Hr. read_filter HP.
  assert (status r = Pending) as Hst by done. destruct (Hr (or_intror Hst)) as [Ho Hi].
  destruct r; simpl in *; subst. split; [|naive_solver].
  by apply evolves_move; [|right|].
Qed.

Lemma claim_keeps now record id sv inst inter db db' o :
  claim_or_replay_update_start_db now record id sv inst inter db = Ok (db', o) → keeps db db'.
Proof.
  unfold claim_or_replay_update_start_db. intros Hc. destruct record as [r0|].
  2:{ injection Hc as <- <-. apply keeps_refl. }
  destruct (_ && _ && _).
  - apply bind_ok in Hc as ([db1 n] & Hu & Hc). destruct (n =? 0); injection Hc as <- <-;
      [apply keeps_refl|]. apply (keeps_rows _ db1); [done|].
    intros Hw. eapply update_evolves; [exact Hu|done|]. intros id' r HP Hr. read_filter HP.
    destruct r; simpl in *; subst. split; [|naive_solver].
    by apply evolves_move; [|right|].
  - destruct (_ && _).
    + apply bind_ok in Hc as ([db1 n] & Hu & Hc). destruct (n =? 0); injection Hc as <- <-;
        [apply keeps_refl|].
      intros Hw. eapply update_evolves; [exact Hu|done|]. intros id' r HP Hr. read_filter HP.
      destruct r; simpl in *; subst. split; [|naive_solver].
      by apply evolves_move; [|left|].
    + destruct (_ && _); injection Hc as <- <-; apply keeps_refl.
Qed.

Lemma append_keeps now id1 id2 id sv inst strm out db db' o :
  append_update_output_if_owned now id1 id2 id sv inst strm out db = Ok (db', o) → keeps db db'.
Proof.
  unfold append_update_output_if_owned. intros Ha.
  destruct (find_all _ db) as [|[x r] l]; [injection Ha as <- <-; apply keeps_refl|].
  destruct (output_truncated r); [injection Ha as <- <-; apply keeps_refl|].
  destruct (_ && _).
  - apply bind_ok in Ha as ([db1 n] & Hu & Ha).
    destruct (n =? 1); injection Ha as <- <-; [|apply keeps_refl].
    apply (keeps_rows _ db1); [done|]. by eapply keeps_plain; [|exact Hu]; auto.
  - apply bind_ok in Ha as ([db1 n] & Hu & Ha).
    destruct (n =? 1); [|injection Ha as <- <-; apply keeps_refl].
    assert (keeps db db1) by (by eapply keeps_plain; [|exact Hu]; auto).
    destruct (str_is_empty _); injection Ha as <- <-; by apply (keeps_rows _ db1).
Qed.

Lemma post_update_keeps hint id db db' : finalize_post_update hint id db = Ok db' → keeps db db'.
Proof.
  unfold finalize_post_update. destruct hint as [h|]; [|intros [= <-]; apply keeps_refl].
  intros ([db1 n] & Hu & [= <-])%bind_ok. by eapply keeps_plain; [|exact Hu]; auto.
Qed.

Lemma fail_pending_keeps now ex hint id e out db db' n :
  fail_pending_unowned_update now ex hint id e out db = Ok (db', n) → keeps db db'.
Proof.
  unfold fail_pending_unowned_update. destruct (negb ex); [intros [= <- <-]; apply keeps_refl|].
  intros ([db1 k] & Hu & Hf)%bind_ok.
  assert (keeps db db1) as H1.
  { eapply keeps_status; [..|exact Hu]; auto. intros id' r HP. read_filter HP.
    use_status. auto. }
  destruct (k =? 1); [|by injection Hf as <- <-].
  destruct (finalize_post_update hint id db1) as [db2|] eqn:E; injection Hf as <- <-; [|done].
  eapply keeps_trans; [exact H1|by eapply post_update_keeps].
Qed.

Lemma interrupt_keeps guard l cs db db' done :
  Forall writes_no_owner l → (∀ id r, guard id r = true → moves (status r) Interrupted) →
  interrupt_candidates guard (SetStatus Interrupted :: l) cs db = Ok (db', done) → keeps db db'.
Proof.
  intros Hl Hg. unfold interrupt_candidates. intros ([db1 d] & Hf & [= <- <-])%bind_ok.
  apply (keeps_rows _ db1); [done|]. revert Hf.
  apply (for_fold_inv (λ _ st, keeps db st.1) _ _ _ (db1, d)); [apply keeps_refl|].
  intros pre x [db2 d2] [db3 d3] Hk ([db4 n] & Hu & [= <- <-])%bind_ok. simpl in *.
  eapply keeps_trans; [exact Hk|]. eapply keeps_status; [..|exact Hu]; auto.
  intros id r [_ HP]%andb_true_iff. by eapply Hg.
Qed.

Lemma version_check_keeps now record v nr e db db' o :
  apply_awaiting_restart_version_check now record v nr e db = Ok (db', o) → keeps db db'.
Proof.
  unfold apply_awaiting_restart_version_check.
  destruct record as [[id r]|]; [|intros [= <- <-]; apply keeps_refl].
  destruct (bool_decide _); [intros [= <- <-]; apply keeps_refl|].
  destruct e, v as [v|], (to_version r) as [tv|]; try (intros [= <- <-]; apply keeps_refl).
  intros ([db1 n] & Hu & Hn)%bind_ok.
  assert (keeps db db1) as H1.
  { eapply keeps_status; [..|exact Hu]; auto; try (by case_decide).
    intros id' r' HP. read_filter HP. use_status. constructor. case_decide; auto. }
  destruct (n =? 0); by injection Hn as <- <-.
Qed.

Lemma reap_overdue_keeps add now budget grace db db' l :
  reap_overdue_updates add now budget grace db = Ok (db', l) → keeps db db'.
Proof.
  unfold reap_overdue_updates. case_decide; [intros [= <- <-]; apply keeps_refl|].
  intros ([db1 n] & Hu & [= <- <-])%bind_ok. eapply keeps_status; [..|exact Hu]; auto.
  intros id r HP. read_filter HP. use_status. auto.
Qed.

Lemma reap_pending_keeps now ids db db' l :
  reap_stalled_pending_updates now ids db = Ok (db', l) → keeps db db'.
Proof.
  unfold reap_stalled_pending_updates. case_decide; [intros [= <- <-]; apply keeps_refl|].
  case_decide; [intros [= <- <-]; apply keeps_refl|].
  intros ([db1 n] & Hu & [= <- <-])%bind_ok. eapply keeps_status; [..|exact Hu]; auto.
  intros id r HP. read_filter HP. use_status. auto.
Qed.

Lemma mark_orchestrator_keeps now hosts db db' n :
  mark_orchestrator_inprogress_as_failed_on_reconnect now hosts db = Ok (db', n) → keeps db db'.
Proof.
  unfold mark_orchestrator_inprogress_as_failed_on_reconnect.
  case_decide; [intros [= <- <-]; apply keeps_refl|]. intros Hu.
  eapply keeps_status; [..|exact Hu]; auto. intros id r HP. read_filter HP. use_status. auto.
Qed.

Lemma finalize_moves s : final_to_status s = Completed ∨ final_to_status s = Failed.
Proof. destruct s; auto. Qed.

Lemma guarded_step_keeps db db' : guarded_step db db' → keeps db db'.
Proof.
  intros Hs. destruct Hs as
    [now id p db db' Hid _ Hc|batch b db _|id db db' n Hu|now id db db' n Hu|id s m db db' n Hu
    |l db|now rec0 id sv inst inter db db' o Hu|now id1 id2 id sv inst strm out db db' o Hu
    |now id sv inst s e out fv tv db db' n Hu|now id sv inst s e out v db db' n Hu
    |now ex0 hint id e out db db' n Hu|hint id db db' Hu|now id sv db db' n Hu
    |now rec0 v nr e db db' o Hu|id sv inst db db' n Hu|now sv inst cs db db' l Hu
    |now cs db db' l Hu|now hosts db db' n Hu|add now budget grace db db' l Hu
    |now ids db db' l Hu|now batch tenant db].
  - by eapply create_keeps.
  - by apply (keeps_rows _ db), keeps_refl.
  - by eapply promote_keeps.
  - by eapply orchestrator_keeps.
  - by eapply keeps_plain; [|exact Hu]; auto.
  - by apply (keeps_rows _ db), keeps_refl.
  - by eapply claim_keeps.
  - by eapply append_keeps.
  - eapply keeps_status; [..|exact Hu]; auto; try (by destruct s).
    intros id' r HP. read_filter HP. pose proof (finalize_moves s).
    assert (status r ∈ [InProgress; Interrupted]) as Hin by done.
    apply elem_of_cons in Hin as [->|Hin]; [constructor; tauto|].
    apply list_elem_of_singleton in Hin as ->. constructor. tauto.
  - eapply keeps_status; [..|exact Hu]; auto; try (by destruct s).
    intros id' r HP. read_filter HP. pose proof (finalize_moves s).
    assert (status r ∈ [InProgress]) as ->%list_elem_of_singleton by done. constructor. tauto.
  - by eapply fail_pending_keeps.
  - by eapply post_update_keeps.
  - eapply keeps_status; [..|exact Hu]; auto. intros id' r HP. read_filter HP. use_status. auto.
  - by eapply version_check_keeps.
  - by eapply keeps_plain; [|exact Hu]; auto.
  - eapply interrupt_keeps; [..|exact Hu]; auto.
    intros id r [HP _]%andb_true_iff. read_filter HP. use_status. auto.
  - eapply interrupt_keeps; [..|exact Hu]; auto.
    intros id r HP. read_filter HP. use_status. auto.
  - by eapply mark_orchestrator_keeps.
  - by eapply reap_overdue_keeps.
  - by eapply reap_pending_keeps.
  - apply (keeps_rows _ db); [by rewrite maybe_complete_rows|apply keeps_refl].
Qed.

Lemma guarded_steps_keep db db' : rtc guarded_step db db' → keeps db db'.
Proof.
  induction 1 as [db|db1 db2 db3 H12 H23 IH]; [apply keeps_refl|].
  by eapply keeps_trans; [apply guarded_step_keeps|].
Qed.

Definition empty_db : Db := mkDb ∅ ∅ [].
Definition reachable (db : Db) : Prop := rtc guarded_step empty_db db.

Lemma reachable_waiting db : reachable db → waiting_unowned db.
Proof. intros Hr. apply (guarded_steps_keep _ _ Hr). by intros id r. Qed.

(** ** Properties *)

(** C7: Refinement of the status graph: whatever sequence of the guarded writes happens,
    an update is never lost, keeps its identity, and its status moves only along the edges
    queued, pending, in progress, awaiting restart, completed, failed, interrupted of the
    graph [moves]. *)
Theorem lifecycle_refines_graph db db' id r :
  reachable db → rtc guarded_step db db' → histories db !! id = Some r →
  ∃ r', histories db' !! id = Some r' ∧ orig r' = orig r
        ∧ rtc moves (status r) (status r').
Proof.
  intros Hw%reachable_waiting Hs Hr. destruct (guarded_steps_keep _ _ Hs Hw) as [_ He].
  destruct (He _ _ Hr) as (r' & Hr' & [Ho Hst _]). by exists r'.
Qed.

(** Nothing leaves a known outcome. *)
Lemma settled_final s s' : s = Completed ∨ s = Failed → rtc moves s s' → s' = s.
Proof. intros Hs Hm. destruct Hm as [|? ? ? Hm]; [done|]. destruct Hs as [-> | ->]; inversion Hm. Qed.

(** A known outcome is final: once an update is completed or failed, no guarded write
    changes that; and an interrupted one can still only become completed or failed. *)
Theorem outcome_final db db' id r :
  reachable db → rtc guarded_step db db' → histories db !! id = Some r →
  (status r = Completed ∨ status r = Failed →
     ∃ r', histories db' !! id = Some r' ∧ status r' = status r)
  ∧ (status r = Interrupted →
     ∃ r', histories db' !! id = Some r'
           ∧ (status r' = Interrupted ∨ status r' = Completed ∨ status r' = Failed)).
Proof.
  intros Hw%reachable_waiting Hs Hr. destruct (guarded_steps_keep _ _ Hs Hw) as [_ He].
  destruct (He _ _ Hr) as (r' & Hr' & [_ Hst _]). split; intros E; exists r'; (split; [done|]).
  - by apply settled_final.
  - rewrite E in Hst. inversion Hst as [x Hx|x y z Hm Hrest Hx]; subst; [by left|right].
    inversion Hm as [| | | | | | |s Hor]; subst.
    by rewrite (settled_final _ _ Hor Hrest).
Qed.

(** A claim that succeeds found the row unowned and leaves it with its executor. *)
Lemma claimed_owner now record id sv inst inter db db' i :
  claim_or_replay_update_start_db now record id sv inst inter db = Ok (db', Claimed i) →
  ∃ r r', histories db !! id = Some r ∧ execution_owner_service_id r = None
    ∧ histories db' !! id = Some r' ∧ execution_owner_service_id r' = Some sv
    ∧ execution_owner_instance_id r' = inst.
Proof.
  assert (∀ P l db1 n, update_many P l db = Ok (db1, n) → (n =? 0) = false →
    (∀ x r, P x r = true → x = id ∧ execution_owner_service_id r = None) →
    ∃ r, histories db !! id = Some r ∧ execution_owner_service_id r = None
         ∧ histories db1 !! id = Some (assign_all l r)) as Hone.
  { intros P l db1 n (Hrows & _ & _ & _ & ->)%update_many_ok Hn HP.
    rewrite (count_rows_by_id P id) in Hn by naive_solver.
    destruct (histories db !! id) as [r|] eqn:E; [|done]. destruct (P id r) eqn:EP; [|done].
    exists r. split_and!; [done|by eapply HP|]. rewrite Hrows, E. simpl. by rewrite EP. }
  unfold claim_or_replay_update_start_db. intros Hc. destruct record as [r0|]; [|done].
  destruct (_ && _ && _); [|destruct (_ && _); [|by destruct (_ && _)]].
  - apply bind_ok in Hc as ([db1 n] & Hu & Hc). destruct (n =? 0) eqn:En; [done|].
    injection Hc as <- _. destruct (Hone _ _ _ _ Hu En) as (r & Hr & Ho & Hr').
    { intros x r HP. by read_filter HP. }
    exists r. eexists. split_and!; [done|done|exact Hr'|by destruct r..].
  - apply bind_ok in Hc as ([db1 n] & Hu & Hc). destruct (n =? 0) eqn:En; [done|].
    injection Hc as <- _. destruct (Hone _ _ _ _ Hu En) as (r & Hr & Ho & Hr').
    { intros x r HP. by read_filter HP. }
    exists r. eexists. split_and!; [done|done|exact Hr'|by destruct r..].
Qed.

(** ** Every write *)

(** The statements of the source on the tables of updates: the guarded ones, and those whose
    filter does not name a status. [X] holds ids that are in use, which no insert draws again;
    [R] the tenants whose data is reset. *)
Inductive update_step (X R : gset Uuid) : Db → Db → Prop :=
| us_guarded db db' :
    guarded_step db db' →
    (∀ id, id ∈ X → histories db !! id = None → histories db' !! id = None) → update_step X R db db'
| us_fail_before_dispatch now id s m db db' n :
    fail_before_agent_dispatch now id s m db = Ok (db', n) → update_step X R db db'
| us_dispatch_failed now id r e db db' : mark_dispatch_failed now id r e db = Ok db' → update_step X R db db'
| us_consolidate id db0 db db' n : consolidate_protection_output id db0 db = Ok (db', n) → update_step X R db db'
| us_truncated id db db' n : mark_output_truncated id db = Ok (db', n) → update_step X R db db'
| us_unreplayable now id db db' n :
    fail_unreplayable_pending_update now id db = Ok (db', n) → update_step X R db db'
| us_restart_timeout now id db db' n : fail_restart_timeout now id db = Ok (db', n) → update_step X R db db'
| us_uninstalled now link db db' n : terminate_uninstalled now link db = Ok (db', n) → update_step X R db db'
| us_reset tenant db : tenant ∈ R → update_step X R db (reset_update_rows tenant db).

(** What every write leaves alone: a row that had an executor keeps it, a row goes only with
    its tenant's data, and an id in use does not come back. *)
Record owners_kept (X R : gset Uuid) (db db' : Db) : Prop := {
  ok_waiting : waiting_unowned db';
  ok_rows id r : id ∈ X → histories db !! id = Some r →
    histories db' !! id = None ∧ tenant_id (orig r) ∈ R ∨
    ∃ r', histories db' !! id = Some r' ∧ orig r' = orig r ∧
      ∀ sv, execution_owner_service_id r = Some sv →
        execution_owner_service_id r' = Some sv
        ∧ execution_owner_instance_id r' = execution_owner_instance_id r;
  ok_gone id : id ∈ X → histories db !! id = None → histories db' !! id = None }.

(** A statement that touches no owner, and no status but to fail the row. *)
Lemma update_keeps_owners X R P l db db' n :
  update_many P l db = Ok (db', n) → waiting_unowned db →
  (∀ r, execution_owner_service_id (assign_all l r) = execution_owner_service_id r
        ∧ execution_owner_instance_id (assign_all l r) = execution_owner_instance_id r
        ∧ (status (assign_all l r) = Failed ∨ status (assign_all l r) = status r)) →
  owners_kept X R db db'.
Proof.
  intros (Hrows & _)%update_many_ok Hw Hl. split.
  - intros id r'. rewrite Hrows. intros (r & Hr & ->)%fmap_Some. destruct (P id r); [|by apply (Hw id)].
    destruct (Hl r) as (-> & -> & [->| ->]); [by intros [|]|by apply (Hw id)].
  - intros id r _ Hr. right. rewrite Hrows, Hr. simpl. eexists. split; [done|].
    destruct (P id r); [|done]. destruct (Hl r) as (-> & -> & _). by rewrite assign_all_orig.
  - intros id _ Hn. by rewrite Hrows, Hn.
Qed.

Lemma reset_keeps_owners X R tenant db :
  tenant ∈ R → waiting_unowned db → owners_kept X R db (reset_update_rows tenant db).
Proof.
  intros HR Hw. split; cbn [histories reset_update_rows].
  - intros id r [Hr _]%map_lookup_filter_Some. by apply (Hw id).
  - intros id r _ Hr. destruct (decide (tenant_id (orig r) = tenant)) as [Ht|Ht]; [left|right].
    + split; [|by rewrite Ht]. apply map_lookup_filter_None. right. intros r' Hr'. simpl.
      simplify_eq. tauto.
    + exists r. by rewrite map_lookup_filter_Some.
  - intros id _ Hn. apply map_lookup_filter_None. by left.
Qed.

Lemma update_step_keeps X R db db' : update_step X R db db' → waiting_unowned db → owners_kept X R db db'.
Proof.
  intros Hs Hw. destruct Hs as
    [db db' Hg Hx|now id s m db db' n Hu|now id r e db db' Hu|id db0 db db' n Hu|id db db' n Hu
    |now id db db' n Hu|now id db db' n Hu|now link db db' n Hu|tenant db HR].
  2: by eapply update_keeps_owners; [exact Hu|done|]; intros []; simpl; auto.
  2: { unfold mark_dispatch_failed in Hu. apply bind_ok in Hu as ([db1 k] & Hu & [= ->]).
       by eapply update_keeps_owners; [exact Hu|done|]; intros []; simpl; auto. }
  2: { unfold consolidate_protection_output in Hu. destruct (load_output_lines_with_truncation _ _).
       by eapply update_keeps_owners; [exact Hu|done|]; intros []; simpl; auto. }
  2-5: by eapply update_keeps_owners; [exact Hu|done|]; intros []; simpl; auto.
  2: by apply reset_keeps_owners.
  destruct (guarded_step_keeps _ _ Hg Hw) as [Hw' He]. split; [done| |done].
  intros id r _ Hr. right. destruct (He id r Hr) as (r' & Hr' & [Ho _ Hown]). by exists r'.
Qed.

Lemma update_steps_keep X R db db' : rtc (update_step X R) db db' → waiting_unowned db → owners_kept X R db db'.
Proof.
  induction 1 as [db|db1 db2 db3 Hs _ IH]; intros Hw.
  { split; [done| |done]. intros id r _ Hr. right. by exists r. }
  destruct (update_step_keeps _ _ _ _ Hs Hw) as [Hw2 Hr2 Hg2]. destruct (IH Hw2) as [Hw3 Hr3 Hg3].
  split; [done| |by auto]. intros id r HX Hr.
  destruct (Hr2 id r HX Hr) as [[Hn Ht]|(r2 & H2 & Ho2 & Hown2)].
  - left. by auto.
  - destruct (Hr3 id r2 HX H2) as [[Hn Ht]|(r3 & H3 & Ho3 & Hown3)]; [left|right].
    + split; [done|]. by rewrite <-Ho2.
    + exists r3. split_and!; [done|congruence|]. intros sv [Hs1 Hi1]%Hown2.
      destruct (Hown3 sv Hs1) as [-> ->]. by rewrite Hi1.
Qed.

(** A claim creates no row. *)
Lemma claim_no_new now record id sv inst inter db db' o x :
  claim_or_replay_update_start_db now record id sv inst inter db = Ok (db', o) →
  histories db !! x = None → histories db' !! x = None.
Proof.
  assert (∀ P l db1 n, update_many P l db = Ok (db1, n) → histories db !! x = None → histories db1 !! x = None) as Hnone.
  { intros P l db1 n (Hrows & _)%update_many_ok Hn. by rewrite Hrows, Hn. }
  unfold claim_or_replay_update_start_db. intros Hc Hn. destruct record as [r0|]; [|by injection Hc as <- _].
  destruct (_ && _ && _); [|destruct (_ && _); [|destruct (_ && _); by injection Hc as <- _]].
  all: apply bind_ok in Hc as ([db1 n] & Hu & Hc); apply Hnone in Hu; [|done];
    destruct (n =? 0); injection Hc as <- _; done.
Qed.

(** C17: At most one executor. Once an agent instance has claimed an update, then while any
    statements of the source run on the tables of updates (guarded by a status or not, resets
    of a tenant's data included; the update's id is not drawn again), no claim of anyone
    succeeds on that update again, not even one that read the row before, and the row, as long
    as it is there, names that executor; it goes only when its tenant's data is reset. *)
Theorem single_claimant X R db db1 db2 db3 now record id sv inst inter i now' record' sv' inst' inter' o :
  id ∈ X → rtc (update_step ∅ R) empty_db db →
  claim_or_replay_update_start_db now record id sv inst inter db = Ok (db1, Claimed i) →
  rtc (update_step X R) db1 db2 →
  claim_or_replay_update_start_db now' record' id sv' inst' inter' db2 = Ok (db3, o) →
  (∀ i', o ≠ Claimed i')
  ∧ (∀ r, histories db3 !! id = Some r →
       execution_owner_service_id r = Some sv ∧ execution_owner_instance_id r = inst)
  ∧ (∀ r, histories db1 !! id = Some r → tenant_id (orig r) ∉ R → is_Some (histories db3 !! id)).
Proof.
  intros HX Hreach Hc Hs Hc'. destruct (update_steps_keep _ _ _ _ Hreach) as [Hw _ _]; [by intros ? ?|].
  destruct (claimed_owner _ _ _ _ _ _ _ _ _ Hc) as (_ & r1 & _ & _ & Hr1 & Ho1 & Hi1).
  destruct (claim_keeps _ _ _ _ _ _ _ _ _ Hc Hw) as [Hw1 _].
  destruct (update_steps_keep _ _ _ _ Hs Hw1) as [Hw2 Hrow _].
  destruct (Hrow _ _ HX Hr1) as [[Hn Ht]|(r2 & Hr2 & Horig & Hown2)].
  - split_and!.
    + intros i' ->. apply claimed_owner in Hc' as (r & _ & Hr & _). congruence.
    + intros r Hr. by rewrite (claim_no_new _ _ _ _ _ _ _ _ _ _ Hc' Hn) in Hr.
    + intros r Hr. by simplify_eq.
  - destruct (Hown2 _ Ho1) as [Ho2 Hi2].
    destruct (claim_keeps _ _ _ _ _ _ _ _ _ Hc' Hw2) as [_ He3].
    destruct (He3 _ _ Hr2) as (r3 & Hr3 & [_ _ Hown3]). destruct (Hown3 _ Ho2) as [Ho3 Hi3]. split_and!.
    + intros i' ->. apply claimed_owner in Hc' as (r & _ & Hr & Hnone & _). congruence.
    + intros r Hr. simplify_eq. split; congruence.
    + intros _ _ _. by eexists.
Qed.

(** ** Output *)

Lemma substring_prefix s n : ∃ rest, s = String.substring 0 n s +:+ rest.
Proof.
  revert s. induction n as [|n IH]; intros [|c s]; simpl; [by exists ""|by exists (String c s)|by exists ""|].
  destruct (IH s) as [rest Hr]. exists rest. rewrite append_cons. by f_equal.
Qed.

Lemma substring_length s n : str_len (String.substring 0 n s) = min n (str_len s).
Proof.
  unfold str_len. revert s. induction n as [|n IH]; intros [|c s]; simpl; [done..|].
  by rewrite IH.
Qed.

(** The boundary found is the last one at or below the limit. *)
Lemma walk_back_spec s n :
  walk_back s n ≤ n ∧ is_char_boundary s (walk_back s n) = true
  ∧ ∀ b, walk_back s n < b ≤ n → is_char_boundary s b = false.
Proof.
  induction n as [|n IH]; simpl.
  - split_and!; [lia|done|lia].
  - destruct (is_char_boundary s (S n)) eqn:E.
    + split_and!; [lia|done|lia].
    + destruct IH as (H1 & H2 & H3). split_and!; [lia|done|].
      intros b Hb. destruct (decide (b = S n)) as [->|]; [done|apply H3; lia].
Qed.

Lemma truncate_spec s n :
  (∃ rest, s = truncate_to_char_boundary s n +:+ rest)
  ∧ str_len (truncate_to_char_boundary s n) ≤ n.
Proof.
  unfold truncate_to_char_boundary. destruct (Nat.leb_spec (str_len s) n).
  - split; [|done]. exists "". by rewrite append_nil_r.
  - split; [apply substring_prefix|]. rewrite substring_length.
    destruct (walk_back_spec s n) as [Hw _]. lia.
Qed.

(** A row found by its id. *)
Lemma find_by_id P x db y r l :
  (∀ id r, P id r = true → id = x) → find_all P db = (y, r) :: l →
  y = x ∧ histories db !! x = Some r ∧ P x r = true.
Proof.
  intros HP Hf. assert ((y, r) ∈ find_all P db) as [Hr Hp]%find_all_elem by (rewrite Hf; left).
  pose proof (HP _ _ Hp) as ->. done.
Qed.

(** The stored output of an update never exceeds its cap: an append stores the whole
    text while it fits; the one that does not fit stores the longest prefix that ends
    between characters, marks the update truncated and adds one notice; after that nothing
    more is stored. *)
Theorem output_stays_capped now id1 id2 id sv inst strm out db db' o r :
  append_update_output_if_owned now id1 id2 id sv inst strm out db = Ok (db', o) →
  histories db !! id = Some r → (0 ≤ output_bytes r ≤ UPDATE_OUTPUT_BYTES_CAP)%Z →
  ∃ r', histories db' !! id = Some r'
    ∧ (output_bytes r' ≤ UPDATE_OUTPUT_BYTES_CAP)%Z
    ∧ match o with
      | Ignored => db' = db
      | Appended line =>
          line_output line = out ∧ output_bytes r' = (output_bytes r + str_bytes out)%Z
          ∧ output_truncated r = false ∧ output_lines db' = output_lines db ++ [line]
      | TruncationNotice notice =>
          output_truncated r = false ∧ output_truncated r' = true
          ∧ output_bytes r' = output_bytes r ∧ output_lines db' = output_lines db ++ [notice]
      | AppendedWithTruncation line notice =>
          output_truncated r = false ∧ output_truncated r' = true
          ∧ line_output line = truncate_to_char_boundary out
              (Z.to_nat (UPDATE_OUTPUT_BYTES_CAP - output_bytes r))
          ∧ output_bytes r' = (output_bytes r + str_bytes (line_output line))%Z
          ∧ output_lines db' = output_lines db ++ [line; notice]
      end.
Proof.
  unfold append_update_output_if_owned. intros Ha Hr Hcap.
  destruct (find_all _ db) as [|[y r0] l] eqn:Ef.
  { injection Ha as <- <-. exists r. split_and!; [done|lia|done]. }
  apply (find_by_id _ id) in Ef as (-> & Hr0 & HP); [|intros x r1 HP; by read_filter HP].
  rewrite Hr in Hr0. injection Hr0 as <-.
  destruct (output_truncated r) eqn:Et.
  { injection Ha as <- <-. exists r. split_and!; [done|lia|done]. }
  set (remaining := (if (UPDATE_OUTPUT_BYTES_CAP <=? output_bytes r)%Z then 0
    else UPDATE_OUTPUT_BYTES_CAP - output_bytes r)%Z) in Ha.
  assert (remaining = UPDATE_OUTPUT_BYTES_CAP - output_bytes r)%Z as Hrem
    by (unfold remaining; destruct (Z.leb_spec UPDATE_OUTPUT_BYTES_CAP (output_bytes r)); lia).
  clearbody remaining. rewrite Hrem in Ha.
  assert (∀ l db1 n, update_many (by_id id &&& owned_in_progress_condition sv inst
      &&& not_truncated) l db = Ok (db1, n) → histories db1 !! id = Some (assign_all l r)
      ∧ output_lines db1 = output_lines db) as Hupd.
  { intros l' db1 n (Hrows & _ & Hl & _)%update_many_ok. split; [|done].
    rewrite Hrows, Hr. simpl. unfold not_truncated. by rewrite HP, Et. }
  destruct (_ && _) eqn:Efit.
  - apply andb_true_iff in Efit as [_ Hle%Z.leb_le].
    apply bind_ok in Ha as ([db1 n] & [Hr1 Hl1]%Hupd & Ha).
    destruct (n =? 1); injection Ha as <- <-;
      [|exists r; split_and!; [done|lia|done]].
    eexists. split; [exact Hr1|]. destruct r; simpl in *. rewrite Hl1. split_and!; [lia|done..].
  - apply bind_ok in Ha as ([db1 n] & [Hr1 Hl1]%Hupd & Ha).
    destruct (n =? 1); [|injection Ha as <- <-; exists r; split_and!; [done|lia|done]].
    set (prefix := truncate_to_char_boundary out _) in *.
    assert (str_bytes prefix ≤ UPDATE_OUTPUT_BYTES_CAP - output_bytes r)%Z as Hpre.
    { unfold str_bytes. destruct (truncate_spec out
        (Z.to_nat (UPDATE_OUTPUT_BYTES_CAP - output_bytes r))) as [_ H]. fold prefix in H. lia. }
    destruct (str_is_empty prefix) eqn:Ee; injection Ha as <- <-;
      (eexists; split; [exact Hr1|]); destruct r; simpl in *; rewrite Hl1.
    + split_and!; [lia|done|done| |done]. destruct prefix; [unfold str_bytes; simpl; lia|done].
    + split_and!; [lia|done..].
Qed.

(** ** Where the guards are missing or differ *)

(** A late result of a single update. *)
Lemma finalize_result_some now id sv inst s e out fv tv db db' n r :
  finalize_update_result_if_owned now id sv inst s e out fv tv db = Ok (db', n) →
  histories db !! id = Some r → owned_finalizable_condition sv inst id r = true →
  n = 1 ∧ ∃ r', histories db' !! id = Some r' ∧ status r' = final_to_status s.
Proof.
  intros (Hrows & _ & _ & _ & ->)%update_many_ok Hr Hown. split.
  - rewrite (count_rows_by_id _ id), Hr; [|intros x r1 HP; by read_filter HP].
    unfold by_id. rewrite bool_decide_true by done. by rewrite Hown.
  - rewrite Hrows, Hr. simpl. unfold by_id. rewrite bool_decide_true by done. simpl.
    rewrite Hown. eexists. split; [done|]. by destruct r.
Qed.

(** A late result of an interrupted update is accepted when it comes as the result of
    a single update, and dropped when the same agent reports it as the item of a batch:
    the two finalizations accept different statuses. *)
Theorem late_batch_result_dropped now id sv inst s e out v db db1 db2 n1 n2 r fv tv :
  histories db !! id = Some r → status r = Interrupted →
  execution_owner_service_id r = Some sv → execution_owner_instance_id r = inst →
  finalize_update_result_if_owned now id sv inst s e out fv tv db = Ok (db1, n1) →
  finalize_batch_item_if_owned now id sv inst s e out v db = Ok (db2, n2) →
  (n1 = 1 ∧ ∃ r1, histories db1 !! id = Some r1 ∧ status r1 = final_to_status s)
  ∧ n2 = 0 ∧ histories db2 !! id = Some r.
Proof.
  intros Hr Hst Hsv Hin Hf1 Hf2. split.
  - eapply finalize_result_some; [exact Hf1|exact Hr|].
    unfold owned_finalizable_condition, owned_status_condition, status_in, owner_service_is,
      owner_instance_is. by rewrite !bool_decide_true by (rewrite ?Hst; set_solver).
  - apply update_many_ok in Hf2 as (Hrows & _ & _ & _ & ->).
    assert (∀ x, (by_id id &&& owned_in_progress_condition sv inst) x r = false) as Hno.
    { intros x. unfold owned_in_progress_condition, owned_status_condition, status_in.
      rewrite (bool_decide_false (status r ∈ [InProgress])); [by rewrite andb_false_r|].
      rewrite Hst, list_elem_of_singleton. done. }
    split.
    + rewrite (count_rows_by_id _ id), Hr; [|intros x r1 HP; by read_filter HP]. by rewrite Hno.
    + rewrite Hrows, Hr. simpl. by rewrite Hno.
Qed.

(** The failure of a controller-side protection is written whatever the row has become
    meanwhile: it turns any update, also one with a known outcome, into a failed one. *)
Theorem protection_failure_unguarded now id ps pm db db' n r :
  fail_before_agent_dispatch now id ps pm db = Ok (db', n) → histories db !! id = Some r →
  n = 1 ∧ ∃ r', histories db' !! id = Some r' ∧ status r' = Failed ∧ output r' = output r.
Proof.
  intros (Hrows & _ & _ & _ & ->)%update_many_ok Hr. split.
  - rewrite (count_rows_by_id _ id), Hr; [|intros x r1 HP; by read_filter HP].
    unfold by_id. by rewrite bool_decide_true.
  - rewrite Hrows, Hr. simpl. unfold by_id. rewrite bool_decide_true by done.
    eexists. split; [done|]. by destruct r.
Qed.

(** A reconnecting agent fails the protections that are under way: every update the
    controller itself holds on one of the agent's hosts becomes failed, whether or not the
    controller was restarted, and the agent's later claim on it is then refused. *)
Theorem reconnect_fails_live_protection now now' hosts db db1 db2 n id r sv inst inter o :
  histories db !! id = Some r → status r = InProgress →
  execution_owner_service_id r = None → host_id (orig r) ∈ hosts →
  mark_orchestrator_inprogress_as_failed_on_reconnect now hosts db = Ok (db1, n) →
  claim_or_replay_update_start_db now' (histories db1 !! id) id sv inst inter db1 = Ok (db2, o) →
  (∃ r1, histories db1 !! id = Some r1 ∧ status r1 = Failed) ∧ o = Rejected ∧ db2 = db1.
Proof.
  intros Hr Hst Hown Hh Hm Hc. unfold mark_orchestrator_inprogress_as_failed_on_reconnect in Hm.
  rewrite decide_False in Hm by (by intros ->; apply elem_of_nil in Hh).
  apply update_many_ok in Hm as (Hrows & _). pose proof (Hrows id) as Hid. rewrite Hr in Hid. simpl in Hid.
  unfold status_is, owner_service_is in Hid. rewrite !bool_decide_true in Hid by done. simpl in Hid.
  destruct r; simpl in *. split; [by eexists|].
  rewrite Hid in Hc. simpl in Hc. by injection Hc as <- <-.
Qed.
