(* ===== verification/UpdateBatchTheorems.v ===== *)
(** Batches complete once, queues are served in order and the loop that serves them ends;
    the backstop interrupts exactly the overdue updates. *)

From Stdlib Require Import Ascii.
From stdpp Require Import base list gmap sets strings numbers pretty sorting.
From S2P Require Import Prelude RustStr UpdateHistory UpdateBatches UpdateTheorems.

(** ** Completion of a batch *)

Definition batch_done (b : Batch) : Prop :=
  b_status b = BatchCompleted ∨ b_status b = BatchPartiallyCompleted.

Lemma update_batches P l db db' n : update_many P l db = Ok (db', n) → batches db' = batches db.
Proof. by intros (_ & ? & _)%update_many_ok. Qed.

Lemma interrupt_batches guard l cs db db' done :
  interrupt_candidates guard l cs db = Ok (db', done) → batches db' = batches db.
Proof.
  unfold interrupt_candidates. intros ([db1 d] & Hf & [= <- <-])%bind_ok. simpl. revert Hf.
  apply (for_fold_inv (λ _ st, batches st.1 = batches db) _ _ _ (db1, d)); [done|].
  intros pre x [db2 d2] [db3 d3] Hk ([db4 n] & Hu & [= <- <-])%bind_ok. simpl in *.
  by rewrite (update_batches _ _ _ _ _ Hu).
Qed.

Lemma append_batches now id1 id2 id sv inst strm out db db' o :
  append_update_output_if_owned now id1 id2 id sv inst strm out db = Ok (db', o) →
  batches db' = batches db.
Proof.
  unfold append_update_output_if_owned. intros Ha.
  destruct (find_all _ db) as [|[x r] l]; [by injection Ha as <- <-|].
  destruct (output_truncated r); [by injection Ha as <- <-|].
  destruct (_ && _); apply bind_ok in Ha as ([db1 n] & Hu%update_batches & Ha);
    (destruct (n =? 1); [|by injection Ha as <- <-]); [by injection Ha as <- <-|].
  destruct (str_is_empty _); by injection Ha as <- <-.
Qed.

(** Statements that are not about batches leave them alone. *)
Ltac same_batches :=
  repeat first
    [ progress inv_ok
    | match goal with
      | H : update_many _ _ _ = Ok (_, _) |- _ => apply update_batches in H
      | H : update_many _ _ _ = Ok ?p |- _ => is_var p; destruct p; apply update_batches in H
      | H : interrupt_candidates _ _ _ _ = Ok _ |- _ => apply interrupt_batches in H
      | H : (_, _) = (_, _) |- _ => injection H as H; subst
      | H : Ok (_, _) = Ok (_, _) |- _ => injection H as H; subst
      | H : (if ?b then _ else _) = Ok _ |- _ => destruct b
      | H : (let '(_, _) := ?p in _) = Ok _ |- _ => destruct p
      | H : match ?x with _ => _ end = Ok _ |- _ => destruct x eqn:?
      end ]; simpl in *; try congruence.

(** A finished batch stays as it is. *)
Lemma batch_done_step db db' batch b :
  guarded_step db db' → batches db !! batch = Some b → batch_done b →
  batches db' !! batch = Some b.
Proof.
  intros Hs Hb Hd.
  destruct Hs as
    [now id p db db' Hid _ Hc|batch' b' db Hnew|id db db' n Hu|now id db db' n Hu|id s m db db' n Hu
    |l db|now rec0 id sv inst inter db db' o Hu|now id1 id2 id sv inst strm out db db' o Hu
    |now id sv inst s e out fv tv db db' n Hu|now id sv inst s e out v db db' n Hu
    |now ex0 hint id e out db db' n Hu|hint id db db' Hu|now id sv db db' n Hu
    |now rec0 v nr e db db' o Hu|id sv inst db db' n Hu|now sv inst cs db db' l Hu
    |now cs db db' l Hu|now hosts db db' n Hu|add now budget grace db db' l Hu
    |now ids db db' l Hu|now batch' tenant db];
    try (by rewrite (update_batches _ _ _ _ _ Hu));
    try (by rewrite (interrupt_batches _ _ _ _ _ _ Hu)).
  - by apply commit_ok in Hc as [-> _].
  - simpl. rewrite lookup_insert_ne; [done|]. congruence.
  - done.
  - unfold claim_or_replay_update_start_db in Hu. same_batches.
  - by rewrite (append_batches _ _ _ _ _ _ _ _ _ _ _ Hu).
  - unfold fail_pending_unowned_update, finalize_post_update in Hu. same_batches.
  - unfold finalize_post_update in Hu. same_batches.
  - unfold apply_awaiting_restart_version_check in Hu. same_batches.
  - unfold mark_orchestrator_inprogress_as_failed_on_reconnect in Hu. same_batches.
  - unfold reap_overdue_updates in Hu. same_batches.
  - unfold reap_stalled_pending_updates in Hu. same_batches.
  - unfold maybe_complete_batch. case_match; [done|]. destruct (batches db !! batch') eqn:E; [|done].
    case_decide as Hf; [done|]. simpl. rewrite lookup_insert_ne; [done|]. intros ->.
    rewrite Hb in E. by injection E as <-.
Qed.

Lemma batch_done_steps db db' batch b :
  rtc guarded_step db db' → batches db !! batch = Some b → batch_done b →
  batches db' !! batch = Some b.
Proof. induction 1; eauto using batch_done_step. Qed.

(** What a completion requires and records. *)
Lemma complete_some now batch tenant db db' info :
  maybe_complete_batch now batch tenant db = (db', Some info) →
  (∀ id r, histories db !! id = Some r → batch_id (orig r) = Some batch → status r ∉ unfinished)
  ∧ bc_batch_id info = batch
  ∧ failed_count info = count_rows (batch_is batch &&& status_is Failed) db
  ∧ completed_count info = count_rows (batch_is batch &&& status_is Completed) db
  ∧ bc_status info = (if 0 <? failed_count info then BatchPartiallyCompleted else BatchCompleted)
  ∧ ∃ b, batches db !! batch = Some b ∧ ¬ batch_done b
      ∧ batches db' !! batch = Some (complete_batch_row (bc_status info) now b).
Proof.
  unfold maybe_complete_batch. destruct (0 <? count_rows _ db) eqn:E0; [done|].
  destruct (batches db !! batch) as [b|] eqn:Eb; [|done].
  case_decide as Hd; [done|]. intros [= <- <-]. simpl.
  split_and!; [|done..|exists b; rewrite lookup_insert_eq; by split_and!].
  intros id r Hr Hbat Hin. apply Nat.ltb_ge in E0.
  assert (count_rows (batch_is batch &&& status_in unfinished) db = 0) as Hz by lia.
  apply (proj1 (count_rows_zero _ _) Hz) in Hr. unfold batch_is, status_in in Hr.
  by rewrite !bool_decide_true in Hr.
Qed.

(** A batch completes exactly once: the completion that is reported is the first, no
    update of the batch was unfinished then, it counts the failed and completed updates and
    is partial iff one failed; and no later completion of the same batch is ever reported,
    whatever is written in between. *)
Theorem batch_completes_once now batch tenant db db1 info db2 now' tenant' :
  maybe_complete_batch now batch tenant db = (db1, Some info) →
  rtc guarded_step db1 db2 →
  (∀ id r, histories db !! id = Some r → batch_id (orig r) = Some batch → status r ∉ unfinished)
  ∧ bc_status info = (if 0 <? count_rows (batch_is batch &&& status_is Failed) db
                      then BatchPartiallyCompleted else BatchCompleted)
  ∧ completed_count info = count_rows (batch_is batch &&& status_is Completed) db
  ∧ (maybe_complete_batch now' batch tenant' db2).2 = None.
Proof.
  intros Hc Hs. destruct (complete_some _ _ _ _ _ _ Hc) as (Hun & _ & Hf & Hcc & Hst & b & Hb & _ & Hb1).
  split_and!; [done|by rewrite Hst, Hf|done|].
  assert (batches db2 !! batch = Some (complete_batch_row (bc_status info) now b)) as Hb2.
  { eapply batch_done_steps; [exact Hs|exact Hb1|]. unfold batch_done. simpl.
    rewrite Hst. destruct (0 <? _); auto. }
  unfold maybe_complete_batch.
  destruct (0 <? count_rows (batch_is batch &&& status_in unfinished) db2); [done|].
  rewrite Hb2, decide_True; [done|]. simpl.
  rewrite Hst. destruct (0 <? _); auto.
Qed.

(** A batch none of whose updates succeeded is reported completed: interrupted updates
    count neither as failed nor as unfinished. *)
Theorem interrupted_batch_completed now batch tenant db b :
  (∀ id r, histories db !! id = Some r → batch_id (orig r) = Some batch → status r = Interrupted) →
  batches db !! batch = Some b → b_status b = BatchInProgress →
  (maybe_complete_batch now batch tenant db).2
  = Some (mkCompletion batch tenant BatchCompleted (total_count b) 0 0).
Proof.
  intros Hint Hb Hst. unfold maybe_complete_batch.
  assert (∀ P, (∀ r, status r = Interrupted → P r = false) →
    count_rows (batch_is batch &&& (λ _ r, P r)) db = 0) as Hz.
  { intros P HP. apply count_rows_zero. intros id r Hr. unfold batch_is.
    destruct (bool_decide_reflect (batch_id (orig r) = Some batch)); [|done]. simpl.
    by apply HP, (Hint id). }
  assert (count_rows (batch_is batch &&& status_in unfinished) db = 0) as H1
    by (apply (Hz (status_in unfinished batch)); intros r Hi; unfold status_in; by rewrite Hi).
  assert (count_rows (batch_is batch &&& status_is Failed) db = 0) as H2
    by (apply (Hz (status_is Failed batch)); intros r Hi; unfold status_is; by rewrite Hi).
  assert (count_rows (batch_is batch &&& status_is Completed) db = 0) as H3
    by (apply (Hz (status_is Completed batch)); intros r Hi; unfold status_is; by rewrite Hi).
  rewrite H1, H2, H3. simpl. rewrite Hb, decide_False; [done|].
  rewrite Hst. naive_solver.
Qed.

(** ** The unique indexes *)

(** A list of keys is duplicate-free iff no two rows have the same. *)
Lemma omap_rows_nodup {K} (f : Row → option K) (m : gmap Uuid Row) :
  NoDup (omap f (map_to_list m).*2) ↔
  ∀ i j x y k, m !! i = Some x → m !! j = Some y → f x = Some k → f y = Some k → i = j.
Proof.
  induction m as [|id r m Hid Hfresh IH] using map_first_key_ind.
  - rewrite map_to_list_empty. split; [done|constructor].
  - rewrite map_to_list_insert_first_key by done. simpl.
    assert (∀ k, k ∈ omap f (map_to_list m).*2 ↔ ∃ i x, m !! i = Some x ∧ f x = Some k) as Hin.
    { intros k. rewrite list_elem_of_omap. setoid_rewrite list_elem_of_fmap. split.
      - intros (x & ([i x'] & -> & Hx%elem_of_map_to_list) & Hk). by exists i, x'.
      - intros (i & x & Hx & Hk). exists x. split; [|done]. exists (i, x).
        by rewrite elem_of_map_to_list. }
    assert ((∀ i j x y k, <[id:=r]> m !! i = Some x → <[id:=r]> m !! j = Some y →
        f x = Some k → f y = Some k → i = j) ↔
      (∀ k, f r = Some k → k ∉ omap f (map_to_list m).*2) ∧ NoDup (omap f (map_to_list m).*2)) as ->.
    { rewrite IH. setoid_rewrite Hin. split.
      - intros Hall. split.
        + intros k Hk (i & x & Hx & Hkx). assert (i ≠ id) as Hne by congruence.
          destruct Hne. by apply (Hall i id x r k); rewrite ?lookup_insert_eq, ?lookup_insert_ne by congruence.
        + intros i j x y k Hx Hy. apply Hall; by rewrite lookup_insert_ne by congruence.
      - intros [Hr Hall] i j x y k. rewrite !lookup_insert_Some.
        intros [[-> <-]|[Hi Hx]] [[-> <-]|[Hj Hy]] Hkx Hky; eauto; exfalso; eapply Hr; eauto. }
    destruct (f r) as [k|]; [rewrite NoDup_cons|]; naive_solver.
Qed.

Definition host_key (r : Row) : option Uuid :=
  if decide (status r ∈ host_blocking) then Some (host_id (orig r)) else None.
Definition item_key (r : Row) : option (Uuid * Uuid) :=
  if decide (status r ∈ unfinished) then Some (host_id (orig r), software_item_id (orig r)) else None.

(** Each row claims at most the keys it claimed before. *)
Definition claims_less (r' r : Row) : Prop :=
  orig r' = orig r
  ∧ (status r' ∈ host_blocking → status r ∈ host_blocking)
  ∧ (status r' ∈ unfinished → status r ∈ unfinished).

Lemma claims_less_refl r : claims_less r r.
Proof. by split_and!. Qed.

Lemma claims_less_keys r' r :
  claims_less r' r →
  (∀ k, host_key r' = Some k → host_key r = Some k)
  ∧ (∀ k, item_key r' = Some k → item_key r = Some k).
Proof.
  intros (Ho & Hh & Hi). unfold host_key, item_key. rewrite Ho.
  split; intros k; repeat case_decide; naive_solver.
Qed.

Lemma indexes_shrink m m' :
  (∀ id r', m' !! id = Some r' → ∃ r, m !! id = Some r ∧ claims_less r' r) →
  indexes_ok m → indexes_ok m'.
Proof.
  intros Hrows [Hh Hi]. unfold indexes_ok, host_index, item_index in *.
  rewrite omap_rows_nodup in Hh. rewrite omap_rows_nodup in Hi.
  rewrite !omap_rows_nodup.
  split; intros i j x y k (x0 & Hx & Hx0%claims_less_keys)%Hrows
    (y0 & Hy & Hy0%claims_less_keys)%Hrows Hkx Hky.
  - apply (Hh i j x0 y0 k); [done..|by apply Hx0|by apply Hy0].
  - apply (Hi i j x0 y0 k); [done..|by apply Hx0|by apply Hy0].
Qed.

(** A statement that claims no new key is not refused. *)
Lemma update_many_total P l db :
  indexes_ok (histories db) → (∀ id r, P id r = true → claims_less (assign_all l r) r) →
  ∃ db' n, update_many P l db = Ok (db', n).
Proof.
  intros Hok Hless. unfold update_many, commit_rows. rewrite decide_True.
  { simpl. by do 2 eexists. }
  eapply indexes_shrink; [|exact Hok]. intros id r'. rewrite map_lookup_imap.
  intros (r & Hr & Hr')%bind_Some. exists r. split; [done|]. injection Hr' as <-.
  destruct (P id r) eqn:E; [by eapply Hless|apply claims_less_refl].
Qed.

(** Taking a row out of the unfinished ones claims nothing. *)
Lemma claims_less_final l r s :
  status (assign_all l r) = s → s ∉ unfinished → claims_less (assign_all l r) r.
Proof.
  intros Hs Hf. unfold claims_less. rewrite assign_all_orig, Hs. split_and!; [done| |naive_solver].
  intros Hb. destruct Hf. unfold host_blocking, unfinished in *. set_solver.
Qed.

Lemma claims_less_status l r : status (assign_all l r) = status r → claims_less (assign_all l r) r.
Proof. intros Hs. unfold claims_less. by rewrite assign_all_orig, Hs. Qed.

(** No update of the host is pending, running or restarting. *)
Definition host_free (h : Uuid) (db : Db) : Prop :=
  ∀ id r, histories db !! id = Some r → host_id (orig r) = h → status r ∉ host_blocking.

Lemma active_iff_not_free h db : has_active_update_for_host h db = false ↔ host_free h db.
Proof.
  unfold has_active_update_for_host, host_free. rewrite Nat.ltb_ge, Nat.le_0_r, count_rows_zero.
  unfold host_is, status_in. setoid_rewrite andb_false_iff. setoid_rewrite bool_decide_eq_false.
  split; intros Hf id r Hr; specialize (Hf id r Hr); [naive_solver|].
  destruct (decide (host_id (orig r) = h)); auto.
Qed.

(** What a statement committed passed the indexes. *)
Lemma update_indexes P l db db' n : update_many P l db = Ok (db', n) → indexes_ok (histories db').
Proof. by intros (_ & _ & _ & ? & _)%update_many_ok. Qed.

Lemma interrupt_indexes guard l cs db db' done :
  indexes_ok (histories db) → interrupt_candidates guard l cs db = Ok (db', done) →
  indexes_ok (histories db').
Proof.
  intros Hok. unfold interrupt_candidates. intros ([db1 d] & Hf & [= <- <-])%bind_ok. simpl. revert Hf.
  apply (for_fold_inv (λ _ st, indexes_ok (histories st.1)) _ _ _ (db1, d)); [done|].
  by intros pre x [db2 d2] [db3 d3] Hk ([db4 n] & Hu%update_indexes & [= <- <-])%bind_ok.
Qed.

Lemma append_indexes now id1 id2 id sv inst strm out db db' o :
  indexes_ok (histories db) →
  append_update_output_if_owned now id1 id2 id sv inst strm out db = Ok (db', o) →
  indexes_ok (histories db').
Proof.
  unfold append_update_output_if_owned. intros Hok Ha.
  destruct (find_all _ db) as [|[x r] l]; [by injection Ha as <- <-|].
  destruct (output_truncated r); [by injection Ha as <- <-|].
  destruct (_ && _); apply bind_ok in Ha as ([db1 n] & Hu%update_indexes & Ha);
    (destruct (n =? 1); [|by injection Ha as <- <-]); [by injection Ha as <- <-|].
  destruct (str_is_empty _); by injection Ha as <- <-.
Qed.

(** Follow the statements of a query to the last one that committed. *)
Ltac indexes_kept :=
  repeat first
    [ progress inv_ok
    | match goal with
      | H : update_many _ _ _ = Ok (_, _) |- _ => apply update_indexes in H
      | H : update_many _ _ _ = Ok ?p |- _ => is_var p; destruct p; apply update_indexes in H
      | H : (_, _) = (_, _) |- _ => injection H as H; subst
      | H : Ok (_, _) = Ok (_, _) |- _ => injection H as H; subst
      | H : (if ?b then _ else _) = Ok _ |- _ => destruct b
      | H : match ?x with _ => _ end = Ok _ |- _ => destruct x eqn:?
      end ]; simpl in *; try done.

Lemma guarded_step_indexes db db' :
  guarded_step db db' → indexes_ok (histories db) → indexes_ok (histories db').
Proof.
  intros Hs Hok.
  destruct Hs as
    [now id p db db' Hid _ Hc|batch' b' db Hnew|id db db' n Hu|now id db db' n Hu|id s m db db' n Hu
    |l db|now rec0 id sv inst inter db db' o Hu|now id1 id2 id sv inst strm out db db' o Hu
    |now id sv inst s e out fv tv db db' n Hu|now id sv inst s e out v db db' n Hu
    |now ex0 hint id e out db db' n Hu|hint id db db' Hu|now id sv db db' n Hu
    |now rec0 v nr e db db' o Hu|id sv inst db db' n Hu|now sv inst cs db db' l Hu
    |now cs db db' l Hu|now hosts db db' n Hu|add now budget grace db db' l Hu
    |now ids db db' l Hu|now batch' tenant db];
    try (by apply (update_indexes _ _ _ _ _ Hu));
    try (by apply (interrupt_indexes _ _ _ _ _ _ Hok Hu)); try done.
  - by apply commit_ok in Hc as [-> ?].
  - unfold claim_or_replay_update_start_db in Hu. indexes_kept.
  - by apply (append_indexes _ _ _ _ _ _ _ _ _ _ _ Hok Hu).
  - unfold fail_pending_unowned_update, finalize_post_update in Hu. indexes_kept.
  - unfold finalize_post_update in Hu. indexes_kept.
  - unfold apply_awaiting_restart_version_check in Hu. indexes_kept.
  - unfold mark_orchestrator_inprogress_as_failed_on_reconnect in Hu. indexes_kept.
  - unfold reap_overdue_updates in Hu. indexes_kept.
  - unfold reap_stalled_pending_updates in Hu. indexes_kept.
  - by rewrite maybe_complete_rows.
Qed.

Lemma reachable_indexes db : reachable db → indexes_ok (histories db).
Proof.
  unfold reachable. intros Hs. remember empty_db as db0 eqn:E.
  assert (indexes_ok (histories db0)) as H0
    by (rewrite E; split; unfold host_index, item_index; simpl; rewrite map_to_list_empty; constructor).
  clear E. induction Hs; eauto using guarded_step_indexes.
Qed.

(** ** The queue of a host *)

Section Dispatch.
Context `{Dispatcher}.

Definition queued_on (h : Uuid) (db : Db) (id : Uuid) : Prop :=
  ∃ r, histories db !! id = Some r ∧ host_id (orig r) = h ∧ status r = Queued.

Lemma find_queued h db id r :
  (id, r) ∈ find_all (host_is h &&& status_is Queued) db ↔
  histories db !! id = Some r ∧ host_id (orig r) = h ∧ status r = Queued.
Proof.
  rewrite find_all_elem. unfold host_is, status_is. by rewrite andb_true_iff, !bool_decide_eq_true.
Qed.

#[local] Instance row_id_total : Total row_id_le.
Proof. intros a b. unfold row_id_le. lia. Qed.
#[local] Instance row_id_trans : Transitive row_id_le.
Proof. intros a b c. unfold row_id_le. lia. Qed.

(** The next update is the queued one with the smallest id. *)
Lemma next_queued_some h db id r :
  next_queued h db = Some (id, r) →
  histories db !! id = Some r ∧ host_id (orig r) = h ∧ status r = Queued
  ∧ ∀ id', queued_on h db id' → (id <= id')%N.
Proof.
  unfold next_queued. set (l := find_all _ db). intros Hh.
  pose proof (Sorted_merge_sort row_id_le l) as Hsort.
  pose proof (merge_sort_Permutation row_id_le l) as Hperm.
  destruct (merge_sort row_id_le l) as [|x l'] eqn:E; [done|]. injection Hh as ->.
  assert ((id, r) ∈ l) as Hin by (rewrite <-Hperm; left).
  apply find_queued in Hin as (Hr & Hhost & Hst). split_and!; [done..|].
  intros id' (r' & Hr' & Hh' & Hs').
  assert ((id', r') ∈ (id, r) :: l') as [Heq|Hin]%elem_of_cons
    by (rewrite Hperm; by apply find_queued).
  - injection Heq as -> ->. lia.
  - apply Sorted_StronglySorted in Hsort; [|apply _].
    apply StronglySorted_inv in Hsort as [_ Hall]. rewrite Forall_forall in Hall.
    apply (Hall (id', r') Hin).
Qed.

Lemma next_queued_none h db : next_queued h db = None → ∀ id, ¬ queued_on h db id.
Proof.
  unfold next_queued. intros Hh id (r & Hr & Hhost & Hst).
  assert ((id, r) ∈ find_all (host_is h &&& status_is Queued) db) as Hin by (by apply find_queued).
  rewrite <-(merge_sort_Permutation row_id_le) in Hin.
  destruct (merge_sort _ _); [by apply elem_of_nil in Hin|done].
Qed.

(** What one write does to the other rows: nothing. *)
Definition touches_only (id : Uuid) (db db' : Db) : Prop :=
  ∀ id', id' ≠ id → histories db' !! id' = histories db !! id'.

Lemma update_touches id P l db db' n :
  (∀ x r, P x r = true → x = id) → update_many P l db = Ok (db', n) → touches_only id db db'.
Proof.
  intros HP (Hrows & _)%update_many_ok id' Hne. rewrite Hrows.
  destruct (histories db !! id') as [r|]; [|done]. simpl.
  destruct (P id' r) eqn:E; [by apply HP in E|done].
Qed.

Lemma by_id_only id x r : by_id id x r = true → x = id.
Proof. unfold by_id. by rewrite bool_decide_eq_true. Qed.

(** A write to one row: what becomes of it. *)
Lemma update_row id l db db' n r :
  histories db !! id = Some r → update_many (by_id id) l db = Ok (db', n) →
  histories db' !! id = Some (assign_all l r) ∧ touches_only id db db'.
Proof.
  intros Hr Hu. split.
  - apply update_many_ok in Hu as (Hrows & _). rewrite Hrows, Hr. simpl.
    unfold by_id. by rewrite bool_decide_true.
  - eapply update_touches; [|exact Hu]. apply by_id_only.
Qed.

Lemma promote_row id db db' n r :
  histories db !! id = Some r → status r = Queued → promote id db = Ok (db', n) →
  n = 1 ∧ histories db' !! id = Some (assign r (SetStatus Pending)) ∧ touches_only id db db'.
Proof.
  unfold promote. intros Hr Hst Hu. assert (∀ x r', (by_id id &&& status_is Queued) x r' = true → x = id) as HP
    by (intros x r' [? _]%andb_true_iff; by eapply by_id_only).
  split_and!; [..|by eapply update_touches].
  - apply update_many_ok in Hu as (_ & _ & _ & _ & ->).
    rewrite (count_rows_by_id _ id _ HP), Hr. unfold by_id, status_is. by rewrite !bool_decide_true.
  - apply update_many_ok in Hu as (Hrows & _). rewrite Hrows, Hr. simpl.
    unfold by_id, status_is. by rewrite !bool_decide_true.
Qed.

Lemma touches_trans id db1 db2 db3 :
  touches_only id db1 db2 → touches_only id db2 db3 → touches_only id db1 db3.
Proof. intros H1 H2 x Hx. by rewrite (H2 x Hx), (H1 x Hx). Qed.

Lemma complete_batch_of_rows now r db : histories (complete_batch_of now r db) = histories db.
Proof. unfold complete_batch_of. destruct (batch_id (orig r)); [apply maybe_complete_rows|done]. Qed.

Lemma mark_failed_row now id r0 e db db' r :
  histories db !! id = Some r → mark_dispatch_failed now id r0 e db = Ok db' →
  (∃ r', histories db' !! id = Some r' ∧ status r' = Failed) ∧ touches_only id db db'.
Proof.
  intros Hr. unfold mark_dispatch_failed. intros ([db1 n] & Hu & [= <-])%bind_ok.
  destruct (update_row _ _ _ _ _ _ Hr Hu) as [H1 H2]. split; [|done].
  eexists. split; [exact H1|]. by destruct r.
Qed.

(** Protection: the row stays pending when it may proceed and is failed otherwise. *)
Lemma protection_row now plugin id db db' o r :
  histories db !! id = Some r → prepare_pre_update_protection now plugin id db = Ok (db', o) →
  (∃ r', histories db' !! id = Some r'
     ∧ status r' = match o with Proceed => status r | ProtectionFailed => Failed end)
  ∧ touches_only id db db'.
Proof.
  intros Hr. unfold prepare_pre_update_protection, fail_before_agent_dispatch,
    write_pre_update_protection_status.
  destruct plugin as [[d|]|]; [|intros ([db1 n] & Hu & [= <- <-])%bind_ok|intros [= <- <-]; split; [by eexists|by intros ??]].
  - destruct (negb _); [|destruct (succeeded d)]; intros ([db1 n] & Hu & [= <- <-])%bind_ok;
      destruct (update_row _ _ _ _ _ _ Hr Hu) as [H1 H2]; (split; [|done]);
      eexists; (split; [exact H1|]); by destruct r.
  - destruct (update_row _ _ _ _ _ _ Hr Hu) as [H1 H2]. split; [|done].
    eexists. split; [exact H1|]. by destruct r.
Qed.

(** One turn of the loop: the update leaves the queue, pending when the loop ends with it
    and failed when it goes on. *)
Lemma dispatch_one_row now id r db db' res :
  histories db !! id = Some r → status r = Queued →
  dispatch_one now (id, r) db = Ok (db', res) →
  (∃ r', histories db' !! id = Some r'
     ∧ status r' = match res with Some _ => Pending | None => Failed end)
  ∧ touches_only id db db'.
Proof.
  intros Hr Hst. unfold dispatch_one. intros ([db1 n] & Hp & Hd)%bind_ok.
  destruct (promote_row _ _ _ _ _ Hr Hst Hp) as (-> & Hr1 & Ht1). simpl in Hd.
  set (r1 := assign r (SetStatus Pending)) in *.
  assert (status r1 = Pending) as Hst1 by (by destruct r).
  assert (∀ e db2 db3, touches_only id db1 db2 → is_Some (histories db2 !! id) →
    (db4 ← mark_dispatch_failed now id r e db2; Ok (complete_batch_of now r db4, None))
      = Ok (db3, res) →
    (∃ r', histories db3 !! id = Some r'
       ∧ status r' = match res with Some _ => Pending | None => Failed end)
    ∧ touches_only id db db3) as Hfail.
  { intros e db2 db3 Ht [r2 Hr2] ([db4] & Hm & [= <- <-])%bind_ok.
    destruct (mark_failed_row _ _ _ _ _ _ _ Hr2 Hm) as [H3 H4].
    rewrite complete_batch_of_rows. split; [done|]. unfold touches_only.
    rewrite complete_batch_of_rows. by eapply touches_trans; [|eapply touches_trans]. }
  destruct (load_target id r) as [[]|e]; [|by eapply Hfail; [..|exact Hd]; eauto].
  apply bind_ok in Hd as ([db2 o] & Hprot & Hd).
  destruct (protection_row _ _ _ _ _ _ _ Hr1 Hprot) as [(r2 & Hr2 & Hst2) Ht2]. destruct o.
  - destruct (dispatch_update_to_agent id r) as [b|e].
    + injection Hd as <- <-. split; [|by eapply touches_trans]. exists r2. by rewrite Hst2.
    + eapply Hfail; [exact Ht2| |exact Hd]. by eexists.
  - injection Hd as <- <-. rewrite complete_batch_of_rows. split; [by exists r2|].
    unfold touches_only. rewrite complete_batch_of_rows. by eapply touches_trans.
Qed.

(** The queue of the host in [db'] is that in [db] less one update. *)
Lemma queue_shrinks h id r r' db db' :
  histories db !! id = Some r → host_id (orig r) = h → status r = Queued →
  histories db' !! id = Some r' → status r' ≠ Queued → touches_only id db db' →
  count_rows (host_is h &&& status_is Queued) db
  = S (count_rows (host_is h &&& status_is Queued) db').
Proof.
  intros Hr Hh Hst Hr' Hst' Ht. unfold count_rows, find_all. rewrite !length_map_to_list.
  set (Q := λ kv : Uuid * Row, _).
  assert (filter Q (histories db') = delete id (filter Q (histories db))) as ->.
  { apply map_eq. intros x. destruct (decide (x = id)) as [->|Hne].
    - rewrite lookup_delete_eq, map_lookup_filter_None. right. intros y Hy. unfold Q, status_is.
      rewrite Hr' in Hy. injection Hy as <-. simpl. rewrite (bool_decide_false (status r' = Queued)) by done.
      by rewrite andb_false_r.
    - rewrite lookup_delete_ne by done. by rewrite !map_lookup_filter, (Ht x Hne). }
  assert (filter Q (histories db) !! id = Some r) as Hid.
  { rewrite map_lookup_filter_Some. split; [done|]. unfold Q, host_is, status_is. simpl.
    by rewrite !bool_decide_true. }
  rewrite (map_size_delete_Some id _ (ltac:(by eexists))).
  enough (size (filter Q (histories db)) ≠ 0) by lia.
  rewrite map_size_non_empty_iff. intros He. by rewrite He in Hid.
Qed.

(** One turn serves the oldest update: the queue loses it and nothing else changes. *)
Lemma dispatch_turn now h next db db' res :
  next_queued h db = Some next → dispatch_one now next db = Ok (db', res) →
  queued_on h db next.1
  ∧ (∀ id, queued_on h db id → (next.1 <= id)%N)
  ∧ (∃ r, histories db' !! next.1 = Some r
       ∧ status r = match res with Some _ => Pending | None => Failed end)
  ∧ touches_only next.1 db db'
  ∧ queue_fuel h db = S (queue_fuel h db').
Proof.
  destruct next as [id r]. intros (Hr & Hh & Hst & Hmin)%next_queued_some Hd.
  destruct (dispatch_one_row _ _ _ _ _ _ Hr Hst Hd) as [(r' & Hr' & Hst') Ht].
  split_and!; [by exists r|done|by exists r'|done|].
  unfold queue_fuel. f_equal. eapply queue_shrinks; [exact Hr|done..|exact Hr'| |done].
  rewrite Hst'. by destruct res.
Qed.

Lemma dispatch_enough_fuel fuel now h db :
  queue_fuel h db ≤ fuel → is_Some (dispatch_next_queued_for_host fuel now h db).
Proof.
  revert db. induction fuel as [|fuel IH]; intros db Hf; [unfold queue_fuel in Hf; lia|]. simpl.
  destruct (next_queued h db) as [next|] eqn:En; [|by eexists].
  destruct (dispatch_one now next db) as [[db' [res|]]|e] eqn:Ed; [by eexists| |by eexists].
  apply IH. destruct (dispatch_turn _ _ _ _ _ _ En Ed) as (_ & _ & _ & _ & Hq). lia.
Qed.

Lemma dispatch_more_fuel f1 f2 now h db res :
  f1 ≤ f2 → dispatch_next_queued_for_host f1 now h db = Some res →
  dispatch_next_queued_for_host f2 now h db = Some res.
Proof.
  revert f2 db. induction f1 as [|f1 IH]; intros f2 db Hle Hd; [done|].
  destruct f2 as [|f2]; [lia|]. simpl in *. destruct (next_queued h db) as [next|]; [|done].
  destruct (dispatch_one now next db) as [[db' [u|]]|e]; [done| |done]. apply IH; [lia|done].
Qed.

(** What serving the queue leaves: the updates before [p] failed, [p] is with the agent, the
    others wait; without [p], all failed. *)
Definition fifo_served (h : Uuid) (p : option Uuid) (db db' : Db) : Prop :=
  (∀ id, ¬ queued_on h db id → histories db' !! id = histories db !! id)
  ∧ (∀ id, queued_on h db id →
      match p with
      | Some p =>
          if decide (p < id)%N then histories db' !! id = histories db !! id
          else ∃ r, histories db' !! id = Some r
                 ∧ status r = if decide (id = p) then Pending else Failed
      | None => ∃ r, histories db' !! id = Some r ∧ status r = Failed
      end)
  ∧ (∀ q, p = Some q → queued_on h db q).

Lemma queued_touched h id id' db db' :
  touches_only id db db' → id' ≠ id → queued_on h db' id' ↔ queued_on h db id'.
Proof. intros Ht Hne. unfold queued_on. by rewrite (Ht id' Hne). Qed.

Lemma dispatch_served fuel now h db db' :
  dispatch_next_queued_for_host fuel now h db = Some (Ok db') →
  ∃ p, fifo_served h p db db'.
Proof.
  revert db. induction fuel as [|fuel IH]; intros db Hd; [done|]. simpl in Hd.
  destruct (next_queued h db) as [next|] eqn:En.
  2:{ injection Hd as <-. exists None. pose proof (next_queued_none _ _ En).
      split_and!; [done|naive_solver|done]. }
  destruct (dispatch_one now next db) as [[db1 [res|]]|e] eqn:Ed; [| |done];
    destruct (dispatch_turn _ _ _ _ _ _ En Ed) as (Hq & Hmin & (r & Hr & Hst) & Ht & _).
  - injection Hd as <-. exists (Some next.1). split_and!; [|intros id Hid|naive_solver].
    + intros id Hid. apply Ht. by intros ->.
    + case_decide; [apply Ht; lia|]. pose proof (Hmin id Hid). assert (id = next.1) as -> by lia.
      exists r. by rewrite decide_True.
  - destruct (IH db1 Hd) as (p & Hout & Hin & Hp). exists p.
    assert (¬ queued_on h db1 next.1) as Hnq.
    { intros (r1 & Hr1 & _ & Hs1). rewrite Hr in Hr1. injection Hr1 as <-. congruence. }
    assert (∀ q, p = Some q → queued_on h db q ∧ q ≠ next.1) as Hp'.
    { intros q Hq'. pose proof (Hp q Hq') as Hq1. assert (q ≠ next.1) by (by intros ->).
      split; [|done]. by apply (queued_touched _ _ _ _ _ Ht). }
    split_and!; [intros id Hid|intros id Hid|naive_solver].
    + assert (id ≠ next.1) as Hne by (by intros ->). rewrite <-(Ht id Hne). apply Hout.
      by rewrite (queued_touched _ _ _ _ _ Ht Hne).
    + destruct (decide (id = next.1)) as [->|Hne].
      * rewrite (Hout _ Hnq), Hr. destruct p as [q|]; [|by eexists].
        destruct (Hp' q eq_refl) as [Hq' Hne']. pose proof (Hmin q Hq').
        rewrite decide_False by lia. exists r. by rewrite decide_False.
      * rewrite <-(Ht id Hne). apply Hin. by rewrite (queued_touched _ _ _ _ _ Ht Hne).
Qed.

(** The first step of a turn, claiming the host, succeeds iff the host is free. *)
Lemma promote_iff_free id r db :
  indexes_ok (histories db) → histories db !! id = Some r → status r = Queued →
  (∃ db' n, promote id db = Ok (db', n)) ↔ host_free (host_id (orig r)) db.
Proof.
  intros Hok Hr Hst. split.
  - intros (db' & n & Hp). destruct (promote_row _ _ _ _ _ Hr Hst Hp) as (_ & Hr' & Ht).
    unfold promote in Hp. apply update_many_ok in Hp as (_ & _ & _ & [Hh _] & _).
    unfold host_index in Hh. rewrite omap_rows_nodup in Hh. intros x y Hy Hhost Hb.
    assert (x ≠ id) as Hne. { intros ->. rewrite Hr in Hy. injection Hy as <-. rewrite Hst in Hb. set_solver. }
    destruct Hne. apply (Hh x id y (assign r (SetStatus Pending)) (host_id (orig r))); [|done|..].
    + rewrite Ht; [done|]. intros ->. rewrite Hr in Hy. injection Hy as <-. rewrite Hst in Hb. set_solver.
    + by rewrite decide_True, Hhost.
    + rewrite decide_True; [by rewrite assign_orig|]. destruct r. simpl. set_solver.
  - intros Hfree. unfold promote, update_many, commit_rows. rewrite decide_True; [simpl; by do 2 eexists|].
    destruct Hok as [Hh Hi]. unfold indexes_ok, host_index, item_index in *.
    rewrite omap_rows_nodup in Hh. rewrite omap_rows_nodup in Hi. rewrite !omap_rows_nodup.
    assert (∀ x y, map_imap (λ i r0, Some (if (by_id id &&& status_is Queued) i r0
        then assign_all [SetStatus Pending] r0 else r0)) (histories db) !! x = Some y →
      ∃ y0, histories db !! x = Some y0 ∧ orig y = orig y0
        ∧ (x ≠ id → y = y0) ∧ (x = id → y0 = r ∧ status y = Pending)) as Hrow.
    { intros x y. rewrite map_lookup_imap. intros (y0 & Hy0 & Hy)%bind_Some. exists y0.
      injection Hy as <-. unfold by_id, status_is. destruct (decide (x = id)) as [->|Hne].
      - rewrite Hr in Hy0. injection Hy0 as <-. rewrite !bool_decide_true by done. by destruct r.
      - rewrite (bool_decide_false (x = id)) by done. done. }
    split; intros i j x y k (x0 & Hx & Hox & Hxn & Hxi)%Hrow (y0 & Hy & Hoy & Hyn & Hyi)%Hrow Hkx Hky.
    + destruct (decide (i = id)) as [->|Hni], (decide (j = id)) as [->|Hnj]; [done|..].
      * destruct (Hxi eq_refl) as [-> Hsx]. rewrite (Hyn Hnj) in Hky. case_decide; [|done].
        case_decide; [|done]. exfalso. eapply (Hfree j y0); [done| |done]. congruence.
      * destruct (Hyi eq_refl) as [-> Hsy]. rewrite (Hxn Hni) in Hkx. case_decide; [|done].
        case_decide; [|done]. exfalso. eapply (Hfree i x0); [done| |done]. congruence.
      * apply (Hh i j x0 y0 k); [done..| |]; by rewrite <-?(Hxn Hni), <-?(Hyn Hnj).
    + assert (∀ z z0 n, orig z = orig z0 → (n ≠ id → z = z0) → (n = id → z0 = r ∧ status z = Pending) →
        (if decide (status z ∈ unfinished) then Some (host_id (orig z), software_item_id (orig z))
         else None) = Some k →
        (if decide (status z0 ∈ unfinished) then Some (host_id (orig z0), software_item_id (orig z0))
         else None) = Some k) as Hkey.
      { intros z z0 n Ho Hn Hz. destruct (decide (n = id)) as [E|E]; [|by rewrite (Hn E)].
        destruct (Hz E) as [-> _]. rewrite Ho, Hst. case_decide; [|done]. by rewrite decide_True by set_solver. }
      apply (Hi i j x0 y0 k); [done..| |]; eauto.
Qed.

Lemma mark_failed_total now id r e db :
  indexes_ok (histories db) → ∃ db', mark_dispatch_failed now id r e db = Ok db'.
Proof.
  intros Hok. unfold mark_dispatch_failed.
  set (l := [SetStatus Failed; _; _; _]).
  destruct (update_many_total (by_id id) l db Hok) as (db' & n & ->); [|by eexists].
  intros x y _. apply (claims_less_final _ _ Failed); [by destruct y|set_solver].
Qed.

Lemma protection_total now plugin id db :
  indexes_ok (histories db) → ∃ db' o, prepare_pre_update_protection now plugin id db = Ok (db', o).
Proof.
  intros Hok.
  assert (∀ st sm, ∃ db' n, write_pre_update_protection_status id st sm db = Ok (db', n)) as Hw.
  { intros st sm. apply update_many_total; [done|]. intros x y _. apply claims_less_status. by destruct y. }
  assert (∀ st sm, ∃ db' n, fail_before_agent_dispatch now id st sm db = Ok (db', n)) as Hf.
  { intros st sm. apply update_many_total; [done|]. intros x y _.
    apply (claims_less_final _ _ Failed); [by destruct y|set_solver]. }
  unfold prepare_pre_update_protection. destruct plugin as [[d|]|]; [|..|by do 2 eexists].
  - destruct (negb _); [|destruct (succeeded d)].
    + destruct (Hw (Some "skipped") (d_summary d)) as (? & ? & ->). by do 2 eexists.
    + destruct (Hw (d_status d) (d_summary d)) as (? & ? & ->). by do 2 eexists.
    + destruct (Hf (d_status d) (d_summary d)) as (? & ? & ->). by do 2 eexists.
  - destruct (Hf None None) as (? & ? & ->). by do 2 eexists.
Qed.

Lemma protection_indexes now plugin id db db' o :
  indexes_ok (histories db) → prepare_pre_update_protection now plugin id db = Ok (db', o) →
  indexes_ok (histories db').
Proof.
  intros Hok. unfold prepare_pre_update_protection, write_pre_update_protection_status,
    fail_before_agent_dispatch.
  destruct plugin as [[d|]|]; [destruct (negb _); [|destruct (succeeded d)]|..];
    try (intros ([db1 n] & Hu%update_indexes & [= <- <-])%bind_ok; exact Hu).
  by intros [= <- <-].
Qed.

(** After the claim of the host nothing in a turn is refused. *)
Lemma dispatch_one_total now id r db db1 n :
  promote id db = Ok (db1, n) → ∃ p, dispatch_one now (id, r) db = Ok p.
Proof.
  intros Hp. unfold dispatch_one. rewrite Hp. simpl.
  unfold promote in Hp. apply update_indexes in Hp. destruct (n =? 0); [by eexists|].
  destruct (load_target id r) as [[]|e].
  - destruct (protection_total now (protection id) id db1 Hp) as (db2 & o & Hprot). rewrite Hprot. simpl.
    destruct o; [|by eexists]. destruct (dispatch_update_to_agent id r) as [b|e]; [by eexists|].
    destruct (mark_failed_total now id r e db2 (protection_indexes _ _ _ _ _ _ Hp Hprot)) as [db3 ->].
    by eexists.
  - destruct (mark_failed_total now id r e db1 Hp) as [db2 ->]. by eexists.
Qed.

(** A turn that failed its update leaves the host free. *)
Lemma turn_frees now h next db db' :
  indexes_ok (histories db) → host_free h db → next_queued h db = Some next →
  dispatch_one now next db = Ok (db', None) → indexes_ok (histories db') ∧ host_free h db'.
Proof.
  intros Hok Hfree Hn Hd.
  destruct (dispatch_turn _ _ _ _ _ _ Hn Hd) as (_ & _ & (r' & Hr' & Hst') & Ht & _). split.
  - destruct next as [id r]. unfold dispatch_one in Hd.
    apply bind_ok in Hd as ([db1 n] & Hp & Hd). unfold promote in Hp. apply update_indexes in Hp.
    destruct (n =? 0); [by injection Hd as <-|]. destruct (load_target id r) as [[]|e].
    + apply bind_ok in Hd as ([db2 o] & Hprot & Hd). apply protection_indexes in Hprot; [|done].
      destruct o; [|injection Hd as <-; by rewrite complete_batch_of_rows].
      destruct (dispatch_update_to_agent id r) as [b|e]; [done|].
      apply bind_ok in Hd as (db3 & Hm & [= <-]). rewrite complete_batch_of_rows.
      unfold mark_dispatch_failed in Hm. apply bind_ok in Hm as ([db4 k] & Hu%update_indexes & [= <-]).
      exact Hu.
    + apply bind_ok in Hd as (db3 & Hm & [= <-]). rewrite complete_batch_of_rows.
      unfold mark_dispatch_failed in Hm. apply bind_ok in Hm as ([db4 k] & Hu%update_indexes & [= <-]).
      exact Hu.
  - intros id r Hr Hh. destruct (decide (id = next.1)) as [->|Hne].
    + rewrite Hr in Hr'. injection Hr' as <-. rewrite Hst'. set_solver.
    + rewrite (Ht id Hne) in Hr. eauto.
Qed.

Lemma dispatch_free_ok fuel now h db e :
  indexes_ok (histories db) → host_free h db →
  dispatch_next_queued_for_host fuel now h db ≠ Some (Err e).
Proof.
  revert db. induction fuel as [|fuel IH]; intros db Hok Hfree; [done|]. simpl.
  destruct (next_queued h db) as [[id r]|] eqn:En; [|done].
  destruct (next_queued_some _ _ _ _ En) as (Hr & <- & Hst & _).
  destruct (proj2 (promote_iff_free _ _ _ Hok Hr Hst) Hfree) as (db1 & n & Hp).
  destruct (dispatch_one_total now _ r _ _ _ Hp) as [[db' [res|]] Hd]; rewrite Hd; [done|].
  destruct (turn_frees _ _ _ _ _ Hok Hfree En Hd) as [Hok' Hfree']. by apply IH.
Qed.

(** C37: Serving the queue of a host always ends: as many turns as there are queued updates,
    and one to see the queue empty, suffice whatever the agents, targets and plugins do; and
    more fuel changes nothing. *)
Theorem dispatch_terminates fuel now h db :
  queue_fuel h db ≤ fuel →
  ∃ res, dispatch_next_queued_for_host fuel now h db = Some res
       ∧ dispatch_next_queued_for_host (queue_fuel h db) now h db = Some res.
Proof.
  intros Hf. destruct (dispatch_enough_fuel (queue_fuel h db) now h db) as [res Hr]; [done|].
  exists res. split; [|done]. by eapply dispatch_more_fuel.
Qed.

(** C23: The queue of a free host is served first come first served: dispatching returns,
    and then either every update that was queued has failed, or one is pending with the
    agent, every older one has failed and every younger one is as it was; and the updates of
    other hosts and those not queued are untouched. *)
Theorem dispatch_fifo now h db :
  indexes_ok (histories db) → has_active_update_for_host h db = false →
  ∃ db' p, dispatch_next_queued_for_host (queue_fuel h db) now h db = Some (Ok db')
         ∧ fifo_served h p db db'.
Proof.
  intros Hok Hfree%active_iff_not_free.
  destruct (dispatch_enough_fuel (queue_fuel h db) now h db) as [[db'|e] Hr]; [done|..].
  - destruct (dispatch_served _ _ _ _ _ Hr) as [p Hp]. by exists db', p.
  - by apply dispatch_free_ok in Hr.
Qed.

(** Serving the queue is refused exactly when there is something to serve and the host
    is busy, by the unique index, at the first statement: an error means that nothing was
    changed, and no update of a busy host ever leaves the queue. *)
Theorem dispatch_refused_iff_busy fuel now h db :
  indexes_ok (histories db) → queue_fuel h db ≤ fuel →
  dispatch_next_queued_for_host fuel now h db = Some (Err UniqueViolation) ↔
  has_active_update_for_host h db = true ∧ is_Some (next_queued h db).
Proof.
  intros Hok Hf. destruct (has_active_update_for_host h db) eqn:Ea.
  - destruct fuel as [|fuel]; [unfold queue_fuel in Hf; lia|]. simpl.
    destruct (next_queued h db) as [[id r]|] eqn:En; [|split; [done|by intros [_ [? ?]]]].
    split; [by eauto|]. intros _. destruct (next_queued_some _ _ _ _ En) as (Hr & <- & Hst & _).
    unfold dispatch_one. destruct (promote id db) as [[db1 n]|[]] eqn:Ep; [|done].
    assert (host_free (host_id (orig r)) db) as Hfree%active_iff_not_free.
    { apply (promote_iff_free id r); eauto. }
    congruence.
  - apply active_iff_not_free in Ea. split; [intros He|by intros [? _]].
    by apply dispatch_free_ok in He.
Qed.

(** The caller of a batch's progression is not told of a completion that happens
    inside it: when serving the queue of the host completes the batch (its last update could
    not be dispatched), the progression itself reports no completion. *)
Theorem batch_completion_unreported now batch h tenant db db1 b0 b :
  batches db !! batch = Some b0 → b_status b0 = BatchInProgress →
  dispatch_next_queued_for_host (queue_fuel h db) now h db = Some (Ok db1) →
  batches db1 !! batch = Some b → batch_done b →
  dispatch_next_in_batch now batch h tenant db = Some (Ok (db1, None)).
Proof.
  intros _ _ Hd Hb Hdone. unfold dispatch_next_in_batch. rewrite Hd. unfold maybe_complete_batch.
  destruct (0 <? _); [done|]. by rewrite Hb, decide_True.
Qed.
End Dispatch.

(** ** One update at a time *)

(** In every state the queries can reach, a host has at most one update that is
    pending, running or restarting, and an item of a host at most one that is unfinished. *)
Theorem host_runs_one_update db id1 id2 r1 r2 :
  reachable db → histories db !! id1 = Some r1 → histories db !! id2 = Some r2 → id1 ≠ id2 →
  host_id (orig r1) = host_id (orig r2) →
  ¬ (status r1 ∈ host_blocking ∧ status r2 ∈ host_blocking)
  ∧ (software_item_id (orig r1) = software_item_id (orig r2) →
     ¬ (status r1 ∈ unfinished ∧ status r2 ∈ unfinished)).
Proof.
  intros [Hh Hi]%reachable_indexes H1 H2 Hne Ho. unfold host_index, item_index in *.
  rewrite omap_rows_nodup in Hh. rewrite omap_rows_nodup in Hi. split.
  - intros [Hs1 Hs2]. apply Hne.
    eapply Hh; [exact H1|exact H2|by rewrite decide_True|by rewrite decide_True, Ho].
  - intros Hit [Hs1 Hs2]. apply Hne.
    eapply Hi; [exact H1|exact H2|by rewrite decide_True|by rewrite decide_True, Ho, Hit].
Qed.

(** ** The backstop *)

Section Reaper.
Context (checked_add : Instant → Duration → option Instant).
Context `{Dispatcher}.

Definition overdue (now : Instant) (budget grace : Duration) (id : Uuid) (r : Row) : bool :=
  (status_is InProgress &&& is_overdue checked_add now budget grace) id r.

Lemma reaper_rows now budget grace db :
  indexes_ok (histories db) →
  ∃ db' l, reap_overdue_updates checked_add now budget grace db = Ok (db', l)
  ∧ (∀ id, histories db' !! id =
       (λ r, if overdue now budget grace id r
             then assign_all (interrupt_with now RECOVERY_HINT REASON) r else r) <$> histories db !! id)
  ∧ (∀ id r', (id, r') ∈ l ↔ ∃ r, histories db !! id = Some r ∧ overdue now budget grace id r = true
       ∧ histories db' !! id = Some r').
Proof.
  intros Hok. unfold reap_overdue_updates. set (L := find_all _ db).
  assert (∀ id r, histories db !! id = Some r → (id ∈ L.*1 ↔ overdue now budget grace id r = true)) as HL.
  { intros id r Hr. rewrite list_elem_of_fmap. split.
    - intros ([x y] & -> & [Hy Hp]%find_all_elem). simpl in *. unfold overdue. congruence.
    - intros Hp. exists (id, r). split; [done|]. by apply find_all_elem. }
  assert (∀ id r, histories db !! id = Some r →
    (id_in L.*1 &&& status_is InProgress) id r = overdue now budget grace id r) as Hguard.
  { intros id r Hr. unfold id_in. destruct (overdue now budget grace id r) eqn:E.
    - rewrite bool_decide_true by (by apply (HL _ _ Hr)).
      unfold overdue in E. by apply andb_true_iff in E as [-> _].
    - rewrite bool_decide_false; [done|]. rewrite (HL _ _ Hr), E. done. }
  set (l := interrupt_with now RECOVERY_HINT REASON) in *.
  destruct (update_many_total (id_in L.*1 &&& status_is InProgress) l db Hok) as (db' & n & Hu).
  { intros id r _. apply (claims_less_final _ _ Interrupted); [by destruct r|set_solver]. }
  pose proof Hu as (Hrows & _)%update_many_ok.
  assert (∀ id, histories db' !! id =
    (λ r, if overdue now budget grace id r then assign_all l r else r) <$> histories db !! id) as Hrows'.
  { intros id. rewrite Hrows. destruct (histories db !! id) as [r|] eqn:Er; [|done]. simpl.
    by rewrite (Hguard _ _ Er). }
  case_decide as HE.
  - exists db, []. split_and!; [done|..].
    + intros id. destruct (histories db !! id) as [r|] eqn:Er; [|done]. simpl.
      destruct (overdue now budget grace id r) eqn:E; [|done].
      apply (HL _ _ Er) in E. rewrite HE in E. by apply elem_of_nil in E.
    + intros id r'. split; [by intros ?%elem_of_nil|]. intros (r & Hr & E & _).
      apply (HL _ _ Hr) in E. rewrite HE in E. by apply elem_of_nil in E.
  - rewrite Hu. exists db', (patch l L). split_and!; [done..|]. intros id r'. unfold patch.
    rewrite list_elem_of_fmap. split.
    + intros ([x r] & [= -> ->] & [Hr Hp]%find_all_elem). exists r. simpl in *.
      rewrite (Hrows' x), Hr. simpl. unfold overdue. by rewrite Hp.
    + intros (r & Hr & Ho & Hr'). exists (id, r). split; [|by apply find_all_elem].
      rewrite (Hrows' id), Hr in Hr'. simpl in Hr'. rewrite Ho in Hr'. by injection Hr' as <-.
Qed.

(** The backstop interrupts exactly the running updates past their budget and grace:
    it is never refused, each such update gets the outcome unknown hint and the completion
    time, every other row is as it was, and the rows it reports are those. *)
Theorem reaper_exact now budget grace db :
  indexes_ok (histories db) →
  ∃ db' l, reap_overdue_updates checked_add now budget grace db = Ok (db', l)
  ∧ (∀ id, histories db' !! id =
       (λ r, if overdue now budget grace id r
             then assign_all (interrupt_with now RECOVERY_HINT REASON) r else r) <$> histories db !! id)
  ∧ (∀ id r', (id, r') ∈ l ↔ ∃ r, histories db !! id = Some r ∧ overdue now budget grace id r = true
       ∧ histories db' !! id = Some r').
Proof. apply reaper_rows. Qed.

(** Dispatching starts no update and touches none that is past the queue: what runs
    afterwards ran before, and what was running or done stays as it is. *)
Definition running_kept (db db' : Db) : Prop :=
  (∀ id r, histories db' !! id = Some r → status r = InProgress → histories db !! id = Some r) ∧
  (∀ id r, histories db !! id = Some r → status r ≠ Queued → status r ≠ Pending → histories db' !! id = Some r).

Lemma running_refl db : running_kept db db.
Proof. by split. Qed.

Lemma running_trans db1 db2 db3 :
  running_kept db1 db2 → running_kept db2 db3 → running_kept db1 db3.
Proof. intros [H1 H1'] [H2 H2']. split; eauto. Qed.

Lemma served_running h p db db' : fifo_served h p db db' → running_kept db db'.
Proof.
  intros (Hout & Hin & _). split.
  2:{ intros id r Hr Hq _. rewrite Hout; [done|]. unfold queued_on. naive_solver. }
  intros id r Hr Hs.
  assert (queued_on h db id ∨ ¬ queued_on h db id) as [Hq|Hq].
  { unfold queued_on. destruct (histories db !! id) as [r0|]; [|right; naive_solver].
    destruct (decide (host_id (orig r0) = h)), (decide (status r0 = Queued)); naive_solver. }
  - specialize (Hin id Hq). destruct p as [p|].
    + case_decide; [by rewrite Hin in Hr|]. destruct Hin as (r' & Hr' & Hs'). case_decide; congruence.
    + destruct Hin as (r' & Hr' & Hs'). congruence.
  - by rewrite (Hout id Hq) in Hr.
Qed.

Lemma advance_running now batch r tenant db : running_kept db (advance now batch r tenant db).
Proof.
  unfold advance, dispatch_next_in_batch.
  destruct (dispatch_next_queued_for_host _ now _ db) as [[db'|e]|] eqn:E; [|apply running_refl..].
  destruct (dispatch_served _ _ _ _ _ E) as [p Hp%served_running].
  pose proof (maybe_complete_rows now batch tenant db') as Hrows.
  destruct (maybe_complete_batch now batch tenant db') as [db2 o]. simpl in *.
  unfold running_kept. by rewrite Hrows.
Qed.

Lemma fold_running {A} (f : Db → A → Db) l db :
  (∀ d x, running_kept d (f d x)) → running_kept db (foldl f db l).
Proof.
  intros Hf. revert db. induction l as [|x l IH]; intros db; [apply running_refl|].
  eapply running_trans; [apply Hf|apply IH].
Qed.

Lemma reap_pending_running now ids db db' l :
  reap_stalled_pending_updates now ids db = Ok (db', l) → running_kept db db'.
Proof.
  unfold reap_stalled_pending_updates. case_decide; [intros [= <- <-]; apply running_refl|].
  case_decide; [intros [= <- <-]; apply running_refl|]. intros ([db1 n] & (Hrows & _)%update_many_ok & [= <- <-])%bind_ok.
  split.
  2:{ intros id r Hr _ Hp. rewrite Hrows, Hr. simpl. unfold status_is.
      rewrite (bool_decide_false (status r = Pending)) by done. by rewrite andb_false_r. }
  intros id r Hr Hs. rewrite Hrows in Hr. destruct (histories db !! id) as [r0|]; [|done]. simpl in Hr.
  destruct (_ && _); injection Hr as <-; [|done]. by destruct r0.
Qed.

(** The part of a sweep after the overdue updates are interrupted. *)
Lemma sweep_running now links connected tenant_of db db1 reaped db' :
  reap_overdue_updates checked_add now DEFAULT_UPDATE_TIMEOUT REAPER_GRACE db = Ok (db1, reaped) →
  reaper_sweep checked_add now links connected tenant_of db = Ok db' → running_kept db1 db'.
Proof.
  intros Hr. unfold reaper_sweep. rewrite Hr. simpl. set (ids := fmap fst (fmap fst (filter _ _))).
  destruct (reap_stalled_pending_updates now ids db1) as [[db2 pr]|e] eqn:Ep; intros [= <-].
  - eapply running_trans; [exact (reap_pending_running _ _ _ _ _ Ep)|].
    apply (running_trans _ (foldl (advance_reaped now tenant_of) db2 reaped)); apply fold_running; intros d x.
    + unfold advance_reaped. repeat case_match; try apply running_refl. apply advance_running.
    + unfold advance_pending. case_match; [apply advance_running|apply running_refl].
  - apply fold_running. intros d x. unfold advance_reaped.
    repeat case_match; try apply running_refl. apply advance_running.
Qed.

Lemma reap_overdue_cases now budget grace db db' l :
  reap_overdue_updates checked_add now budget grace db = Ok (db', l) →
  (∀ id r', histories db' !! id = Some r' →
     histories db !! id = Some r'
     ∨ ∃ r, histories db !! id = Some r ∧ status r = InProgress ∧ status r' = Interrupted)
  ∧ (∀ id r', (id, r') ∈ l →
     ∃ r, histories db !! id = Some r ∧ status r = InProgress ∧ orig r' = orig r).
Proof.
  unfold reap_overdue_updates.
  case_decide; [intros [= <- <-]; split; [by left|by intros ?? ?%elem_of_nil]|].
  intros ([db1 n] & (Hrows & _)%update_many_ok & [= <- <-])%bind_ok. split.
  - intros id r' Hr'. rewrite Hrows in Hr'. destruct (histories db !! id) as [r|]; [|done]. simpl in Hr'.
    destruct (_ && _) eqn:E; injection Hr' as <-; [right|by left]. exists r. read_filter E.
    split_and!; [done..|by destruct r].
  - intros id r'. unfold patch. intros ([x r] & [= -> ->] & [Hr Hp]%find_all_elem)%list_elem_of_fmap.
    simpl in *. exists r. read_filter Hp. split_and!; [done..|by destruct r].
Qed.

Lemma reap_overdue_other now budget grace db db' l id r :
  reap_overdue_updates checked_add now budget grace db = Ok (db', l) →
  histories db !! id = Some r → status r ≠ InProgress → histories db' !! id = Some r.
Proof.
  unfold reap_overdue_updates. case_decide; [by intros [= <- <-]|].
  intros ([db1 n] & (Hrows & _)%update_many_ok & [= <- <-])%bind_ok Hr Hst. rewrite Hrows, Hr. simpl.
  unfold status_is. rewrite (bool_decide_false (status r = InProgress)) by done. by rewrite andb_false_r.
Qed.

Lemma reap_pending_cases now ids db db' l :
  reap_stalled_pending_updates now ids db = Ok (db', l) →
  (∀ id r, histories db !! id = Some r → status r ≠ Pending → histories db' !! id = Some r)
  ∧ (∀ id r', (id, r') ∈ l →
     ∃ r, histories db !! id = Some r ∧ status r = Pending ∧ orig r' = orig r).
Proof.
  unfold reap_stalled_pending_updates.
  case_decide; [intros [= <- <-]; split; [done|by intros ?? ?%elem_of_nil]|].
  case_decide; [intros [= <- <-]; split; [done|by intros ?? ?%elem_of_nil]|].
  intros ([db1 n] & (Hrows & _)%update_many_ok & [= <- <-])%bind_ok. split.
  - intros id r Hr Hst. rewrite Hrows, Hr. simpl. unfold status_is.
    rewrite (bool_decide_false (status r = Pending)) by done. by rewrite andb_false_r.
  - intros id r'. unfold patch. intros ([x r] & [= -> ->] & [Hr Hp]%find_all_elem)%list_elem_of_fmap.
    simpl in *. exists r. read_filter Hp. split_and!; [done..|by destruct r].
Qed.

(** The last moment an update may run that started at [started]: five minutes past its budget,
    which is its own timeout, of thirty days at most, or else two hours. *)
Definition latest_end (r : Row) (started : Instant) : Instant :=
  (started + (secs (match timeout_seconds (orig r) with
                    | Some s => if decide (0 ≤ s)%Z then Z.min s 2592000 else 7200
                    | None => 7200
                    end) + secs 300))%Z.

(** The sweep's test, when the deadline is a date or, far in the future, is not one. *)
Lemma overdue_iff now id r started :
  (∀ t d t', checked_add t d = Some t' → t' = (t + d)%Z) → started_at r = Some started →
  is_overdue checked_add now DEFAULT_UPDATE_TIMEOUT REAPER_GRACE id r = true ↔
  (latest_end r started < now)%Z ∨ ∀ d, latest_end r started = (started + d)%Z → checked_add started d = None.
Proof.
  intros Hadd Hs. unfold is_overdue. rewrite Hs.
  assert (latest_end r started = started + (row_budget DEFAULT_UPDATE_TIMEOUT r + REAPER_GRACE))%Z as Hl.
  { unfold latest_end, row_budget, DEFAULT_UPDATE_TIMEOUT, REAPER_GRACE, MAX_BUDGET_SECS, DEFAULT_UPDATE_TIMEOUT_SECS.
    f_equal. f_equal. destruct (timeout_seconds (orig r)) as [t|]; [|done].
    case_decide; destruct (Z.leb_spec 0 t); try lia; done. }
  destruct (checked_add started _) as [t'|] eqn:E.
  - rewrite Z.ltb_lt, (Hadd _ _ _ E), <-Hl. split; [auto|]. intros [?|Hn]; [done|].
    rewrite (Hn _ Hl) in E. done.
  - split; [|done]. intros _. right. intros d Hd. by replace d with (row_budget DEFAULT_UPDATE_TIMEOUT r + REAPER_GRACE)%Z by lia.
Qed.

(** C38: A sweep interrupts exactly the updates running past their deadline. It always
    completes, whatever it dispatches to advance the batches, and with additions of dates that
    are right where they give a date at all: each update running afterwards was running before,
    and is not five minutes past its budget (its own timeout, of thirty days at most, or else
    two hours); each one that was is now interrupted, with the time and the hint that the
    outcome is unknown; and each running update whose deadline is a date not yet past, or that
    has no start time, is as it was. *)
Theorem sweep_leaves_none_overdue now links connected tenant_of db :
  indexes_ok (histories db) → (∀ t d t', checked_add t d = Some t' → t' = (t + d)%Z) →
  ∃ db', reaper_sweep checked_add now links connected tenant_of db = Ok db'
  ∧ (∀ id r, histories db' !! id = Some r → status r = InProgress →
       histories db !! id = Some r ∧ ∀ started, started_at r = Some started → (now ≤ latest_end r started)%Z)
  ∧ (∀ id r started, histories db !! id = Some r → status r = InProgress → started_at r = Some started →
       (latest_end r started < now)%Z →
       ∃ r', histories db' !! id = Some r' ∧ status r' = Interrupted ∧ orig r' = orig r
         ∧ completed_at r' = Some now ∧ recovery_hint r' = Some RECOVERY_HINT)
  ∧ (∀ id r, histories db !! id = Some r → status r = InProgress →
       (∀ started, started_at r = Some started → (now ≤ latest_end r started)%Z
          ∧ ∃ d t, latest_end r started = (started + d)%Z ∧ checked_add started d = Some t) →
       histories db' !! id = Some r).
Proof.
  intros Hok Hadd. destruct (reaper_rows now DEFAULT_UPDATE_TIMEOUT REAPER_GRACE db Hok)
    as (db1 & l & Hr & Hrows & _).
  assert (∃ db', reaper_sweep checked_add now links connected tenant_of db = Ok db') as [db' Hs].
  { unfold reaper_sweep. rewrite Hr. simpl. case_match; case_match; by eexists. }
  destruct (sweep_running _ _ _ _ _ _ _ _ Hr Hs) as [Hback Hfwd].
  assert (∀ id r, histories db !! id = Some r → status r = InProgress →
    histories db1 !! id = Some (if is_overdue checked_add now DEFAULT_UPDATE_TIMEOUT REAPER_GRACE id r
      then assign_all (interrupt_with now RECOVERY_HINT REASON) r else r)) as Hrun.
  { intros id r Hid Hst. rewrite Hrows, Hid. simpl. unfold overdue, status_is. by rewrite bool_decide_true. }
  exists db'. split_and!; [done|..].
  - intros id r Hid Hst. pose proof (Hback id r Hid Hst) as H1. rewrite Hrows in H1.
    destruct (histories db !! id) as [r0|] eqn:Hr0; [|done]. simpl in H1. injection H1 as Heq.
    destruct (overdue now DEFAULT_UPDATE_TIMEOUT REAPER_GRACE id r0) eqn:E; [rewrite <-Heq in Hst; by destruct r0|].
    subst r0. split; [done|]. intros started Hst'. unfold overdue, status_is in E. rewrite bool_decide_true in E by done.
    destruct (Z.le_gt_cases now (latest_end r started)) as [|Hlt]; [done|].
    by rewrite (proj2 (overdue_iff now id r started Hadd Hst')) in E by auto.
  - intros id r started Hid Hst Hst' Hlt. pose proof (Hrun id r Hid Hst) as H1.
    rewrite (proj2 (overdue_iff now id r started Hadd Hst')) in H1 by auto.
    apply Hfwd in H1; [|by destruct r..]. eexists. split; [exact H1|]. by destruct r.
  - intros id r Hid Hst Hd. pose proof (Hrun id r Hid Hst) as H1.
    destruct (is_overdue _ _ _ _ _ _) eqn:E; [|by apply Hfwd in H1; [|congruence..]]. exfalso.
    destruct (started_at r) as [started|] eqn:Hst'; [|unfold is_overdue in E; by rewrite Hst' in E].
    destruct (Hd started eq_refl) as (Hle & d & t & Hd1 & Hd2).
    apply (overdue_iff now id r started Hadd Hst') in E as [|Hn]; [lia|]. by rewrite (Hn d Hd1) in Hd2.
Qed.

(** A sweep that frees a host without touching a batch leaves the host's queue where
    it is: when no pending or running update belongs to a batch, every queued update is
    still queued after the sweep, even on hosts whose only active update was interrupted. *)
Theorem reaped_update_strands_queue now links connected tenant_of db db' id r :
  (∀ x y, histories db !! x = Some y → status y = InProgress ∨ status y = Pending →
     batch_id (orig y) = None) →
  reaper_sweep checked_add now links connected tenant_of db = Ok db' →
  histories db !! id = Some r → status r = Queued →
  histories db' !! id = Some r.
Proof.
  intros Hnb Hs Hr Hst. unfold reaper_sweep in Hs. apply bind_ok in Hs as ([db1 l1] & Hr1 & Hs).
  destruct (reap_overdue_cases _ _ _ _ _ _ Hr1) as [Hrows1 Hl1].
  assert (∀ x y, histories db1 !! x = Some y → status y = Pending → batch_id (orig y) = None) as Hnb1.
  { intros x y Hy Hp. destruct (Hrows1 x y Hy) as [Hy0|(y0 & Hy0 & _ & Hi)]; [eauto|congruence]. }
  assert (histories db1 !! id = Some r) as Hid1.
  { by apply (reap_overdue_other _ _ _ _ _ _ _ _ Hr1 Hr); rewrite Hst. }
  assert (∀ d, foldl (advance_reaped now tenant_of) d l1 = d) as Hfold1.
  { clear -Hl1 Hnb. induction l1 as [|[x y] l1 IH]; intros d; [done|]. simpl. unfold advance_reaped at 2.
    destruct (Hl1 x y) as (y0 & Hy0 & Hst0 & Ho); [left|]. simpl. rewrite Ho, (Hnb x y0); [|done|by left].
    apply IH. intros x' y' Hin. apply Hl1. by right. }
  destruct (reap_stalled_pending_updates now _ db1) as [[db2 l2]|e] eqn:Ep; simpl in Hs;
    injection Hs as <-; rewrite Hfold1; [|done].
  destruct (reap_pending_cases _ _ _ _ _ Ep) as [Hrows2 Hl2].
  enough (∀ d, foldl (advance_pending now) d l2 = d) as ->.
  { by apply Hrows2; [|rewrite Hst]. }
  clear -Hl2 Hnb1. induction l2 as [|[x y] l2 IH]; intros d; [done|]. simpl. unfold advance_pending at 2.
  destruct (Hl2 x y) as (y0 & Hy0 & Hst0 & Ho); [left|]. simpl. rewrite Ho, (Hnb1 x y0); [|done..].
  apply IH. intros x' y' Hin. apply Hl2. by right.
Qed.
End Reaper.
