(* ===== verification/UpdateCreation.v ===== *)
(** Creating a batch: the statuses the updates start with, and exactly when the unique
    indexes let the batch in. *)

From Stdlib Require Import Ascii.
From stdpp Require Import base list gmap sets strings numbers pretty sorting.
From S2P Require Import Prelude RustStr UpdateHistory UpdateBatches UpdateTheorems UpdateBatchTheorems.

(** ** Inserting a row *)

Definition item_free (h item : Uuid) (db : Db) : Prop :=
  ∀ id r, histories db !! id = Some r → host_id (orig r) = h → software_item_id (orig r) = item →
    status r ∉ unfinished.

Lemma item_active_iff h item db :
  has_active_update_for_host_software_item h item db = false ↔ item_free h item db.
Proof.
  unfold has_active_update_for_host_software_item, item_free.
  rewrite Nat.ltb_ge, Nat.le_0_r, count_rows_zero. unfold host_is, status_in.
  setoid_rewrite andb_false_iff. setoid_rewrite andb_false_iff. setoid_rewrite bool_decide_eq_false.
  split; intros Hf id r Hr; specialize (Hf id r Hr); [naive_solver|].
  destruct (decide (host_id (orig r) = h)), (decide (software_item_id (orig r) = item)); auto.
Qed.

(** A new row is let in when the keys it claims are free. *)
Lemma insert_total id r db :
  indexes_ok (histories db) → histories db !! id = None →
  (status r ∈ host_blocking → host_free (host_id (orig r)) db) →
  item_free (host_id (orig r)) (software_item_id (orig r)) db →
  insert_row id r db = Ok (set_histories (<[id := r]> (histories db)) db).
Proof.
  intros [Hh Hi] Hid Hfree Hitem. unfold insert_row, commit_rows. rewrite decide_True; [done|].
  unfold indexes_ok, host_index, item_index in *.
  rewrite omap_rows_nodup in Hh. rewrite omap_rows_nodup in Hi. rewrite !omap_rows_nodup.
  split; intros i j x y k [[<- <-]|[Hni Hx]]%lookup_insert_Some [[<- <-]|[Hnj Hy]]%lookup_insert_Some
    Hkx Hky; try done; try (by eauto); exfalso; repeat case_decide; try done; simplify_eq.
  - eapply (Hfree ltac:(done) j y); congruence.
  - eapply (Hfree ltac:(done) i x); congruence.
  - eapply (Hitem j y); congruence.
  - eapply (Hitem i x); congruence.
Qed.

Section Create.
Context (now : Instant) (p : CreateBatchParams) (batch : Uuid) (all : list Candidate).

Notation entry := (Uuid * Candidate * UpdateStatus)%type.
Definition entry_row (e : entry) : Row := new_row now (batch_record p all batch now e.1.2 e.2).
Definition insert_entry (db : Db) (e : entry) : Sql Db :=
  let '(id, c, s) := e in create_update_history_record now id (batch_record p all batch now c s) db.
Definition item_of (c : Candidate) : Uuid * Uuid := (cd_host_id c, cd_item_id c).

Definition entries (ids : list Uuid) (cs : list (Candidate * UpdateStatus)) : list entry :=
  zip_with (λ id cs, (id, cs.1, cs.2)) ids cs.

(** What the inserts that succeeded leave. *)
Lemma inserted l db db' :
  NoDup l.*1.*1 → for_fold insert_entry db l = Ok db' →
  (∀ e, e ∈ l → histories db' !! e.1.1 = Some (entry_row e))
  ∧ (∀ id, id ∉ l.*1.*1 → histories db' !! id = histories db !! id)
  ∧ batches db' = batches db ∧ (l ≠ [] → indexes_ok (histories db')).
Proof.
  revert db. induction l as [|e l IH]; intros db; simpl.
  { intros _ [= <-]. split_and!; try done. by intros e ?%elem_of_nil. }
  intros [Hnotin Hnd]%NoDup_cons (db1 & Hc & Hgo)%bind_ok.
  destruct e as [[id0 c0] s0]. unfold insert_entry, create_update_history_record, insert_row in Hc. apply commit_ok in Hc as [-> Hok].
  destruct (IH _ Hnd Hgo) as (Hin & Hout & Hb & Hidx). split_and!.
  - intros e' [->|He']%elem_of_cons; [|by apply Hin].
    rewrite (Hout _ Hnotin). simpl. by rewrite lookup_insert_eq.
  - intros id [Hne Hid]%not_elem_of_cons. rewrite (Hout _ Hid). simpl. by rewrite lookup_insert_ne.
  - done.
  - intros _. destruct l as [|e' l]; [by injection Hgo as <-|by apply Hidx].
Qed.

(** The loop over candidates whose keys are free is never refused. *)
Lemma inserts_total busy seen l ids db :
  length ids = length l → NoDup ids → (∀ id, id ∈ ids → histories db !! id = None) →
  indexes_ok (histories db) → NoDup (item_of <$> l) →
  (∀ c, c ∈ l → item_free (cd_host_id c) (cd_item_id c) db) →
  (∀ c, c ∈ l → cd_host_id c ∉ busy → cd_host_id c ∉ seen → host_free (cd_host_id c) db) →
  ∃ db', for_fold insert_entry db (entries ids (assign_statuses busy seen l)) = Ok db'.
Proof.
  revert seen ids db. induction l as [|c l IH]; intros seen [|id ids] db Hlen Hids Hfresh Hok Hnd Hitem Hhost;
    try done; [by eexists|]. simpl in Hlen.
  apply NoDup_cons in Hids as [Hid Hids]. simpl in Hnd. apply NoDup_cons in Hnd as [Hc Hnd].
  assert (∀ s seen', s = Queued ∨ s = Pending →
    (s = Pending → cd_host_id c ∉ busy ∧ cd_host_id c ∉ seen ∧ cd_host_id c ∈ seen') →
    seen ⊆ seen' →
    ∃ db', for_fold insert_entry db (entries (id :: ids) ((c, s) :: assign_statuses busy seen' l))
           = Ok db') as Hstep.
  { intros s seen' Hs Hpend Hsub. simpl.
    assert (status (entry_row (id, c, s)) = s) as Hst by done.
    assert (create_update_history_record now id (batch_record p all batch now c s) db =
      Ok (set_histories (<[id := entry_row (id, c, s)]> (histories db)) db)) as Hins.
    { apply insert_total; [done|apply Hfresh; left| |apply Hitem; left].
      rewrite Hst. intros Hb. destruct Hs as [->| ->]; [set_solver|].
      apply Hhost; [left|naive_solver..]. }
    rewrite Hins. simpl. apply IH; [lia|done|..].
    - intros x Hx. simpl. rewrite lookup_insert_ne by set_solver. apply Hfresh. by right.
    - unfold create_update_history_record, insert_row in Hins. by apply commit_ok in Hins as [_ ?].
    - done.
    - intros c' Hc' x r Hr Hh Hi. simpl in Hr.
      apply lookup_insert_Some in Hr as [[<- <-]|[Hne Hr]]; [|by eapply (Hitem c'); [right| | |]].
      destruct Hc. apply list_elem_of_fmap. exists c'. split; [|done].
      unfold item_of. simpl in Hh, Hi. by rewrite Hh, Hi.
    - intros c' Hc' Hnb Hns x r Hr Hh. simpl in Hr.
      apply lookup_insert_Some in Hr as [[<- <-]|[Hne Hr]].
      + simpl in *. destruct Hs as [->| ->]; [set_solver|]. destruct Hns. rewrite <-Hh. naive_solver.
      + eapply (Hhost c'); [by right|done|set_solver|done..]. }
  simpl assign_statuses. repeat case_decide.
  - apply Hstep; [by left|done|done].
  - apply Hstep; [by left|done|done].
  - apply Hstep; [by right|set_solver|set_solver].
Qed.
End Create.

(** ** The statuses a batch starts with *)

Lemma assign_length busy seen l : length (assign_statuses busy seen l) = length l.
Proof.
  revert seen. induction l as [|c l IH]; intros seen; [done|]. simpl.
  repeat case_decide; simpl; by rewrite IH.
Qed.

Lemma assign_lookup busy seen l i :
  assign_statuses busy seen l !! i =
  (λ c, (c, if decide (cd_host_id c ∈ busy) then Queued
            else if decide (cd_host_id c ∈ seen ∨ cd_host_id c ∈ (cd_host_id <$> take i l))
            then Queued else Pending)) <$> l !! i.
Proof.
  revert seen i. induction l as [|c l IH]; intros seen [|i]; [done..| |]; csimpl.
  - repeat case_decide; try done; exfalso; set_solver.
  - repeat case_decide; csimpl; rewrite IH; (destruct (l !! i) as [c'|]; [|done]); simpl;
      repeat case_decide; try done; exfalso; clear IH;
      generalize dependent (cd_host_id c'); generalize dependent (cd_host_id c); set_solver.
Qed.

Lemma busy_elem db l h : h ∈ busy_hosts db l ↔ has_active_update_for_host h db = true ∧ h ∈ cd_host_id <$> l.
Proof. unfold busy_hosts. by rewrite elem_of_list_to_set, list_elem_of_filter. Qed.

Lemma entries_ids {A} (f : A → Candidate) (g : A → UpdateStatus) (ids : list Uuid) (l : list A) :
  length ids = length l → (zip_with (λ id x, (id, f x, g x)) ids l).*1.*1 = ids.
Proof.
  revert l. induction ids as [|id ids IH]; intros [|x l] Hlen; try done. simpl in *.
  f_equal. apply IH. lia.
Qed.

Lemma elem_of_entries ids cs (e : Uuid * Candidate * UpdateStatus) :
  e ∈ entries ids cs ↔ ∃ i, ids !! i = Some e.1.1 ∧ cs !! i = Some (e.1.2, e.2).
Proof.
  unfold entries. rewrite list_elem_of_lookup. setoid_rewrite lookup_zip_with_Some.
  destruct e as [[id c] s]. split.
  - intros (i & x & [c' s'] & [= -> -> ->] & ? & ?). by exists i.
  - intros (i & ? & ?). by exists i, id, (c, s).
Qed.

(** What the transaction amounts to. *)
(** What the transaction amounts to. *)
Lemma create_txn_ok now p batch ids l db0 db db' a :
  create_batch_txn now p batch ids l db0 db = Ok (db', a) ↔
  a = entries ids (assign_statuses (busy_hosts db0 l) ∅ l)
  ∧ for_fold (insert_entry now p batch l)
      (set_batches (<[batch := mkBatch (cb_tenant_id p) (cb_batch_type p) BatchInProgress
         (Z.of_nat (length l)) (cb_actor_type p) (cb_actor_id p) "" 0 now None]> (batches db)) db) a
    = Ok db'.
Proof.
  unfold create_batch_txn. rewrite bind_ok. split.
  - intros (db1 & Hf & [= <- <-]). by split.
  - intros [-> Hf]. exists db'. by split.
Qed.

Lemma assigned_unfinished busy seen l i c s :
  assign_statuses busy seen l !! i = Some (c, s) → s ∈ unfinished.
Proof.
  rewrite assign_lookup. intros (c' & _ & Hs)%fmap_Some. injection Hs as -> ->.
  repeat case_decide; unfold unfinished; set_solver.
Qed.

Section Created.
Context (now : Instant) (p : CreateBatchParams) (batch : Uuid) (ids : list Uuid).
Context (l : list Candidate) (db : Db).
Hypothesis Hok : indexes_ok (histories db).
Hypothesis Hlen : length ids = length l.
Hypothesis Hnd : NoDup ids.
Hypothesis Hfresh : ∀ id, id ∈ ids → histories db !! id = None.

Notation cs := (assign_statuses (busy_hosts db l) ∅ l).

(** What a committed batch leaves. *)
Lemma created_rows db' a :
  create_batch_txn now p batch ids l db db = Ok (db', a) →
  (∀ i id c, ids !! i = Some id → l !! i = Some c → ∃ s, cs !! i = Some (c, s)
     ∧ histories db' !! id = Some (entry_row now p batch l (id, c, s)))
  ∧ (∀ id, id ∉ ids → histories db' !! id = histories db !! id)
  ∧ b_status <$> batches db' !! batch = Some BatchInProgress
  ∧ indexes_ok (histories db').
Proof.
  intros [-> Hf]%create_txn_ok.
  assert ((entries ids cs).*1.*1 = ids) as Hids by (apply entries_ids; by rewrite assign_length).
  apply inserted in Hf as (Hin & Hout & Hb & Hidx); [|by rewrite Hids]. rewrite Hids in Hout.
  split_and!; [|done|by rewrite Hb; simpl; rewrite lookup_insert_eq|].
  - intros i id c Hi Hc. destruct (lookup_lt_is_Some_2 cs i) as [[c' s] Hcs].
    { rewrite assign_length. by eapply lookup_lt_Some. }
    assert (c' = c) as ->.
    { pose proof Hcs as Hcs'. rewrite assign_lookup, Hc in Hcs'. by injection Hcs'. }
    exists s. split; [done|]. apply (Hin (id, c, s)), elem_of_entries. by exists i.
  - destruct (entries ids cs) as [|e es] eqn:E; [|by apply Hidx].
    assert (ids = []) as Hnil by (by rewrite <-Hids).
    replace (histories db') with (histories db); [done|]. symmetry. apply map_eq. intros id. apply Hout.
    rewrite Hnil. apply not_elem_of_nil.
Qed.

Lemma id_of_candidate i c : l !! i = Some c → ∃ id, ids !! i = Some id.
Proof. intros Hc. apply lookup_lt_is_Some_2. rewrite Hlen. by eapply lookup_lt_Some. Qed.

(** The row of an update of the batch claims its item. *)
Lemma created_key db' a i c :
  create_batch_txn now p batch ids l db db = Ok (db', a) → l !! i = Some c →
  ∃ id r, ids !! i = Some id ∧ histories db' !! id = Some r ∧ item_key r = Some (item_of c).
Proof.
  intros (Hin & _)%created_rows Hc. destruct (id_of_candidate i c Hc) as [id Hid].
  destruct (Hin i id c Hid Hc) as (s & Hs & Hr). exists id, (entry_row now p batch l (id, c, s)).
  split_and!; [done..|]. unfold item_key. rewrite decide_True; [done|]. by eapply assigned_unfinished.
Qed.

Lemma created_items db' a :
  create_batch_txn now p batch ids l db db = Ok (db', a) →
  NoDup (item_of <$> l) ∧ ∀ c, c ∈ l → item_free (cd_host_id c) (cd_item_id c) db.
Proof.
  intros Hc. pose proof (created_rows _ _ Hc) as (_ & Hout & _ & [_ Hi]).
  unfold item_index in Hi. rewrite omap_rows_nodup in Hi. split.
  - apply NoDup_alt. intros i j k Hi' Hj'.
    apply list_lookup_fmap_Some in Hi' as (ci & -> & Hci).
    apply list_lookup_fmap_Some in Hj' as (cj & Hk & Hcj).
    destruct (created_key _ _ _ _ Hc Hci) as (x & rx & Hx & Hrx & Hkx).
    destruct (created_key _ _ _ _ Hc Hcj) as (y & ry & Hy & Hry & Hky).
    eapply NoDup_lookup; [exact Hnd|exact Hx|]. rewrite Hy. f_equal. symmetry.
    apply (Hi x y rx ry (item_of ci)); [done..|]. by rewrite Hk.
  - intros c [i Hci]%list_elem_of_lookup id r Hr Hh Hit Hu.
    destruct (created_key _ _ _ _ Hc Hci) as (x & rx & Hx & Hrx & Hkx).
    assert (id ∉ ids) as Hid by (intros Hid%Hfresh; congruence).
    assert (id = x) as ->; [|by apply Hid, (list_elem_of_lookup_2 _ i)].
    apply (Hi id x r rx (item_of c)); [by rewrite Hout|done| |done].
    rewrite decide_True by done. by rewrite Hh, Hit.
Qed.

Lemma creation_admitted :
  NoDup (item_of <$> l) → (∀ c, c ∈ l → item_free (cd_host_id c) (cd_item_id c) db) →
  ∃ db' a, create_batch_txn now p batch ids l db db = Ok (db', a).
Proof.
  intros Hitems Hfree. setoid_rewrite create_txn_ok.
  set (db1 := set_batches _ db).
  destruct (inserts_total now p batch l (busy_hosts db l) ∅ l ids db1) as [db' Hdb'];
    [exact Hlen|exact Hnd|exact Hfresh|exact Hok|exact Hitems|exact Hfree| |].
  - intros c Hc Hb _. apply active_iff_not_free. rewrite busy_elem in Hb.
    change (has_active_update_for_host (cd_host_id c) db1) with (has_active_update_for_host (cd_host_id c) db).
    destruct (has_active_update_for_host _ _); [|done]. destruct Hb. split; [done|].
    by apply list_elem_of_fmap_2.
  - by exists db', (entries ids cs).
Qed.

(** A batch over hosts as they are is created exactly when no two of its updates are
    for the same item of a host and none of those items has an unfinished update; then
    the batch is in progress with all its updates, and an update is pending iff it is the
    first of the batch on a host that has no active update, and queued otherwise. One item
    that is already being updated refuses the whole batch. *)
Theorem batch_created_iff :
  ((∃ db' a, create_batch_txn now p batch ids l db db = Ok (db', a)) ↔
   NoDup (item_of <$> l)
   ∧ ∀ c, c ∈ l → has_active_update_for_host_software_item (cd_host_id c) (cd_item_id c) db = false)
  ∧ ∀ db' a, create_batch_txn now p batch ids l db db = Ok (db', a) →
      (b_status <$> batches db' !! batch = Some BatchInProgress)
      ∧ (∀ i id c, ids !! i = Some id → l !! i = Some c →
          ∃ r, histories db' !! id = Some r ∧ batch_id (orig r) = Some batch
            ∧ (host_id (orig r), software_item_id (orig r)) = item_of c
            ∧ status r = if decide (has_active_update_for_host (cd_host_id c) db = true
                                    ∨ cd_host_id c ∈ cd_host_id <$> take i l)
                         then Queued else Pending)
      ∧ (∀ id, id ∉ ids → histories db' !! id = histories db !! id).
Proof.
  split; [split|].
  - intros (db' & a & [Hn Hf]%created_items). split; [done|]. intros c Hc. by apply item_active_iff, Hf.
  - intros [Hn Hf]. apply creation_admitted; [done|]. intros c Hc. by apply item_active_iff, Hf.
  - intros db' a Hc. destruct (created_rows _ _ Hc) as (Hin & Hout & Hb & _). split_and!; [done| |done].
    intros i id c Hi Hci. destruct (Hin i id c Hi Hci) as (s & Hs & Hr). eexists.
    split_and!; [exact Hr|done|done|]. simpl. rewrite assign_lookup, Hci in Hs. injection Hs as <-.
    assert (cd_host_id c ∈ cd_host_id <$> l) as Hl
      by (by apply list_elem_of_fmap_2, (list_elem_of_lookup_2 _ i)).
    repeat case_decide; rewrite busy_elem in *; set_solver.
Qed.
End Created.
