(* ===== verification/UpdateWitnesses.v ===== *)
(** The update theorems at work on a small installation: two hosts, three updates, one of
    them in a batch. *)

From Stdlib Require Import Ascii.
From stdpp Require Import base list gmap sets strings numbers pretty sorting.
From S2P Require Import Prelude RustStr UpdateHistory UpdateBatches UpdateTheorems UpdateBatchTheorems UpdateCreation.

Module UpdateDemo.

Definition run {A} (d : Db) (x : Sql (Db * A)) : Db := match x with Ok (d', _) => d' | Err _ => d end.
Definition run1 (d : Db) (x : Sql Db) : Db := match x with Ok d' => d' | Err _ => d end.

(** Two updates of host 10 and one of host 20; the first runs, the second waits. *)
Definition params (h item : Uuid) (b : option Uuid) (s : UpdateStatus) : CreateUpdateRecordParams :=
  mkCreate 1 h item None "2.0" (Some "1.0") "user" "7" "minor" b s false.
Definition d0 : Db := set_batches {[ 90%N := mkBatch 1 "host" BatchInProgress 1 "user" "7" "" 0 0 None ]} empty_db.
Definition d1 : Db := run1 d0 (create_update_history_record 0 101 (params 10 31 None Pending) d0).
Definition d2 : Db := run1 d1 (create_update_history_record 1 102 (params 10 32 (Some 90%N) Queued) d1).
Definition d3 : Db := run1 d2 (create_update_history_record 2 103 (params 20 31 None Pending) d2).
Definition d4 : Db :=
  run d3 (claim_or_replay_update_start_db 3 (histories d3 !! 101%N) 101 500 (Some 501%N) false d3).
Definition d5 : Db :=
  run d4 (finalize_update_result_if_owned 4 101 500 (Some 501%N) FinalCompleted None "done" None (Some "2.0") d4).

Lemma reach1 : reachable d1.
Proof.
  apply (rtc_l _ _ d0).
  - apply (gs_new_batch 90 (mkBatch 1 "host" BatchInProgress 1 "user" "7" "" 0 0 None) empty_db). reflexivity.
  - apply rtc_once, (gs_create 0 101 (params 10 31 None Pending)); [reflexivity|by right|vm_compute; reflexivity].
Qed.

Lemma reach3 : reachable d3.
Proof.
  eapply rtc_r; [eapply rtc_r; [exact reach1|]|].
  - apply (gs_create 1 102 (params 10 32 (Some 90%N) Queued) d1 d2);
      [vm_compute; reflexivity|by left|vm_compute; reflexivity].
  - apply (gs_create 2 103 (params 20 31 None Pending) d2 d3);
      [vm_compute; reflexivity|by right|vm_compute; reflexivity].
Qed.

Lemma claimed :
  claim_or_replay_update_start_db 3 (histories d3 !! 101%N) 101 500 (Some 501%N) false d3
  = Ok (d4, Claimed (mkClaimInfo None 10 31 1)).
Proof. vm_compute. reflexivity. Qed.

Lemma finished :
  finalize_update_result_if_owned 4 101 500 (Some 501%N) FinalCompleted None "done" None
    (Some "2.0") d4 = Ok (d5, 1).
Proof. vm_compute. reflexivity. Qed.

Lemma ran : rtc guarded_step d3 d5.
Proof.
  apply (rtc_l _ _ d4); [by eapply gs_claim, claimed|].
  by eapply rtc_once, gs_finalize, finished.
Qed.

Lemma rtc_trans {A} {R : relation A} {x y z} : rtc R x y → rtc R y z → rtc R x z.
Proof. intros Hxy Hyz. by transitivity y. Qed.

Lemma d3_indexes : indexes_ok (histories d3).
Proof. exact (reachable_indexes _ reach3). Qed.

Definition row (d : Db) (id : Uuid) : Row :=
  default (new_row 0 (params 0 0 None Queued)) (histories d !! id).

(** Update 101 goes from pending to completed. *)
Lemma lifecycle_refines_graph_witness :
  ∃ r', histories d5 !! 101%N = Some r' ∧ orig r' = orig (row d3 101)
        ∧ rtc moves Pending (status r').
Proof. exact (lifecycle_refines_graph d3 d5 101 (row d3 101) reach3 ran eq_refl). Defined.

Lemma outcome_final_witness :
  ∃ r', histories d5 !! 101%N = Some r' ∧ status r' = Completed.
Proof.
  assert (reachable d5) as Hr by (exact (rtc_trans reach3 ran)).
  destruct (outcome_final d5 d5 101 (row d5 101) Hr (rtc_refl _ _) ltac:(vm_compute; reflexivity))
    as [Hf _].
  apply Hf. left. vm_compute. reflexivity.
Defined.

(** The claimed update is failed by a write that names no status; a second agent that read
    the row before the claim is refused all the same. *)
Definition d4_failed : Db := run d4 (fail_before_agent_dispatch 3 101 None None d4).
Lemma reach3_any : rtc (update_step ∅ ∅) empty_db d3.
Proof.
  eapply rtc_subrel; [|exact reach3]. intros x y Hxy. apply us_guarded; [exact Hxy|]. set_solver.
Qed.
Lemma single_claimant_witness :
  (∀ i', Rejected ≠ Claimed i')
  ∧ (∀ r, histories d4_failed !! 101%N = Some r →
       execution_owner_service_id r = Some 500%N ∧ execution_owner_instance_id r = Some 501%N)
  ∧ (∀ r, histories d4 !! 101%N = Some r → tenant_id (orig r) ∉ (∅ : gset Uuid) → is_Some (histories d4_failed !! 101%N)).
Proof.
  apply (single_claimant {[ 101%N ]} ∅ d3 d4 d4_failed d4_failed 3 (histories d3 !! 101%N) 101 500 (Some 501%N) false
    (mkClaimInfo None 10 31 1) 4 (histories d3 !! 101%N) 600 (Some 601%N) false Rejected).
  - set_solver.
  - exact reach3_any.
  - exact claimed.
  - apply rtc_once, (us_fail_before_dispatch _ _ 3 101 None None d4 d4_failed 1). vm_compute. reflexivity.
  - vm_compute. reflexivity.
Defined.

Definition d4_out : Db :=
  run d4 (append_update_output_if_owned 4 301 302 101 500 (Some 501%N) Stdout "hello" d4).
Definition hello : OutputLine := mkLine 301 101 Stdout "hello" 4.

Lemma output_stays_capped_witness :
  ∃ r', histories d4_out !! 101%N = Some r' ∧ (output_bytes r' ≤ UPDATE_OUTPUT_BYTES_CAP)%Z
    ∧ line_output hello = "hello" ∧ output_bytes r' = (output_bytes (row d4 101) + 5)%Z
    ∧ output_truncated (row d4 101) = false ∧ output_lines d4_out = output_lines d4 ++ [hello].
Proof.
  exact (output_stays_capped 4 301 302 101 500 (Some 501%N) Stdout "hello" d4 d4_out (Appended hello)
    (row d4 101) ltac:(vm_compute; reflexivity) ltac:(vm_compute; reflexivity)
    ltac:(vm_compute; split; discriminate)).
Defined.

(** ** Dispatching *)

(** Targets load and agents are reached, without a protection plugin. *)
Definition reachable_agents : Dispatcher :=
  {| load_target := λ _ _, Ok tt; protection := λ _, None;
     dispatch_update_to_agent := λ _ _, Ok true |}.
(** No target can be loaded. *)
Definition lost_targets : Dispatcher :=
  {| load_target := λ _ _, Err "gone"; protection := λ _, None;
     dispatch_update_to_agent := λ _ _, Ok true |}.

Lemma d5_indexes : indexes_ok (histories d5).
Proof. exact (reachable_indexes _ (rtc_trans reach3 ran)). Qed.

Lemma dispatch_terminates_witness :
  ∃ res, @dispatch_next_queued_for_host lost_targets 7 5 10 d5 = Some res
       ∧ @dispatch_next_queued_for_host lost_targets (queue_fuel 10 d5) 5 10 d5 = Some res.
Proof. apply (@dispatch_terminates lost_targets 7 5 10 d5). vm_compute. lia. Defined.

Lemma dispatch_fifo_witness :
  ∃ d' p, @dispatch_next_queued_for_host reachable_agents (queue_fuel 10 d5) 5 10 d5 = Some (Ok d')
        ∧ fifo_served 10 p d5 d'.
Proof.
  apply (@dispatch_fifo reachable_agents 5 10 d5 d5_indexes). vm_compute. reflexivity.
Defined.

(** While update 101 is pending, serving the queue of its host is refused. *)
Lemma dispatch_refused_iff_busy_witness :
  @dispatch_next_queued_for_host reachable_agents 2 5 10 d3 = Some (Err UniqueViolation).
Proof.
  apply (@dispatch_refused_iff_busy reachable_agents 2 5 10 d3 d3_indexes); [vm_compute; lia|].
  split; [vm_compute; reflexivity|]. vm_compute. by eexists.
Defined.

Lemma host_runs_one_update_witness :
  ¬ (Pending ∈ host_blocking ∧ Queued ∈ host_blocking)
  ∧ (31%N = 32%N → ¬ (Pending ∈ unfinished ∧ Queued ∈ unfinished)).
Proof.
  apply (host_runs_one_update d3 101 102 (row d3 101) (row d3 102) reach3);
    vm_compute; first [reflexivity|discriminate].
Defined.

(** ** Completion *)

Definition d6 : Db :=
  match @dispatch_next_queued_for_host lost_targets (queue_fuel 10 d5) 5 10 d5 with
  | Some (Ok d) => d
  | _ => d5
  end.

(** The batch of d5 with its only update failed by hand. *)
Definition d5_failed : Db :=
  run d5 (fail_before_agent_dispatch 5 102 None None d5).

Lemma batch_completes_once_witness :
  (∀ id r, histories d5_failed !! id = Some r → batch_id (orig r) = Some 90%N → status r ∉ unfinished)
  ∧ BatchPartiallyCompleted = (if 0 <? count_rows (batch_is 90 &&& status_is Failed) d5_failed
                               then BatchPartiallyCompleted else BatchCompleted)
  ∧ 0 = count_rows (batch_is 90 &&& status_is Completed) d5_failed
  ∧ (maybe_complete_batch 7 90 1 (maybe_complete_batch 6 90 1 d5_failed).1).2 = None.
Proof.
  exact (batch_completes_once 6 90 1 d5_failed _ (mkCompletion 90 1 BatchPartiallyCompleted 1 0 1)
    _ 7 1 ltac:(vm_compute; reflexivity) (rtc_refl _ _)).
Defined.

Lemma batch_completion_unreported_witness :
  @dispatch_next_in_batch lost_targets 5 90 10 1 d5 = Some (Ok (d6, None)).
Proof.
  apply (@batch_completion_unreported lost_targets 5 90 10 1 d5 d6
    (mkBatch 1 "host" BatchInProgress 1 "user" "7" "" 0 0 None)
    (mkBatch 1 "host" BatchPartiallyCompleted 1 "user" "7" "" 0 0 (Some 5%Z)));
    [vm_compute; reflexivity..|]. by right.
Defined.

Lemma interrupted_batch_completed_witness :
  (maybe_complete_batch 6 91 1 (set_batches
     {[ 91%N := mkBatch 1 "host" BatchInProgress 3 "user" "7" "" 0 0 None ]} empty_db)).2
  = Some (mkCompletion 91 1 BatchCompleted 3 0 0).
Proof.
  apply (interrupted_batch_completed 6 91 1 _ (mkBatch 1 "host" BatchInProgress 3 "user" "7" "" 0 0 None));
    [|vm_compute; reflexivity|reflexivity]. intros id r Hr. simpl in Hr. by rewrite lookup_empty in Hr.
Defined.

(** ** The backstop *)

Definition add_instants (t : Instant) (d : Duration) : option Instant := Some (t + d)%Z.
Definition later : Instant := secs 8000.

(** Two hours and some minutes later update 101 is overdue. *)
Lemma reaper_exact_witness :
  overdue add_instants later DEFAULT_UPDATE_TIMEOUT REAPER_GRACE 101 (row d4 101) = true
  ∧ ∃ d' l, reap_overdue_updates add_instants later DEFAULT_UPDATE_TIMEOUT REAPER_GRACE d4 = Ok (d', l)
  ∧ (∀ id, histories d' !! id =
       (λ r, if overdue add_instants later DEFAULT_UPDATE_TIMEOUT REAPER_GRACE id r
             then assign_all (interrupt_with later RECOVERY_HINT REASON) r else r) <$> histories d4 !! id)
  ∧ (∀ id r', (id, r') ∈ l ↔ ∃ r, histories d4 !! id = Some r
       ∧ overdue add_instants later DEFAULT_UPDATE_TIMEOUT REAPER_GRACE id r = true
       ∧ histories d' !! id = Some r').
Proof.
  split; [vm_compute; reflexivity|].
  apply (reaper_exact add_instants later DEFAULT_UPDATE_TIMEOUT REAPER_GRACE d4).
  exact (guarded_step_indexes _ _ (gs_claim _ _ _ _ _ _ _ _ _ claimed) d3_indexes).
Defined.

(** Update 101, claimed at 3, runs in [d4] and is overdue at [later]; the sweep interrupts it. *)
Lemma sweep_leaves_none_overdue_witness :
  (latest_end (row d4 101) 3 < later)%Z ∧
  ∃ d' r', @reaper_sweep add_instants reachable_agents later [] (λ _, false) (λ _, None) d4 = Ok d'
  ∧ histories d' !! 101%N = Some r' ∧ status r' = Interrupted ∧ completed_at r' = Some later.
Proof.
  assert (latest_end (row d4 101) 3 < later)%Z as Hlate by (vm_compute; reflexivity).
  split; [exact Hlate|].
  destruct (@sweep_leaves_none_overdue add_instants reachable_agents later [] (λ _, false) (λ _, None) d4
    (guarded_step_indexes _ _ (gs_claim _ _ _ _ _ _ _ _ _ claimed) d3_indexes)) as (d' & Hs & _ & Hint & _).
  - intros t d t' Ht. unfold add_instants in Ht. by injection Ht as <-.
  - destruct (Hint 101%N (row d4 101) 3%Z) as (r' & Hr' & Hst & _ & Hc & _);
      [vm_compute; reflexivity..|exact Hlate|].
    exists d', r'. split; [exact Hs|]. split; [exact Hr'|]. split; [exact Hst|exact Hc].
Defined.

(** ** Creating a batch *)

Definition cand (h item : Uuid) : Candidate := mkCandidate h item 77 "2.0" "1.0" "minor".
Definition bparams : CreateBatchParams := mkBatchParams 1 "host" "user" "7".

(** Update 101 of item 31 on host 10 is unfinished in d3: a batch with that item is refused
    as a whole. *)
Lemma batch_created_iff_witness :
  ¬ ∃ d' a, create_batch_txn 9 bparams 95 [201%N; 202%N] [cand 30 31; cand 10 31] d3 d3 = Ok (d', a).
Proof.
  destruct (batch_created_iff 9 bparams 95 [201%N; 202%N] [cand 30 31; cand 10 31] d3 d3_indexes eq_refl)
    as [Hiff _].
  - repeat constructor; set_solver.
  - intros id [->|[->|[]%elem_of_nil]%elem_of_cons]%elem_of_cons; vm_compute; reflexivity.
  - rewrite Hiff. intros [_ Hf]. specialize (Hf (cand 10 31)). vm_compute in Hf.
    discriminate Hf. right. left.
Defined.
End UpdateDemo.
