(* ===== verification/Scheduler.v ===== *)
(** The periodic tasks ([crates/core/scheduler-runtime/src/], [claim.rs], [interval.rs] and
    [scheduler.rs]): the [scheduled_tasks] table, the statements that claim and release its
    rows, and the schedulers of several controllers as a step relation over the shared
    table.

    Instants and durations are in nanoseconds. *)

From Stdlib Require Import Ascii.
From stdpp Require Import base list gmap sets strings numbers pretty.
From S2P Require Import Prelude RustStr Json.

(** ** The table *)

Inductive ScheduledTaskType :=
| AuthCleanup | StaleLeaseCleanup | CaRotationCheck | FetchReleases | DetectVersion
| ServiceCertCheck | CrlRenewal | AuditLogCleanup | DiscoverSoftware.
#[global] Instance ScheduledTaskType_eq_dec : EqDecision ScheduledTaskType.
Proof. solve_decision. Defined.

Definition task_types : list ScheduledTaskType :=
  [AuthCleanup; StaleLeaseCleanup; CaRotationCheck; FetchReleases; DetectVersion;
   ServiceCertCheck; CrlRenewal; AuditLogCleanup; DiscoverSoftware].

Definition into_value (t : ScheduledTaskType) : string :=
  match t with
  | AuthCleanup => "auth_cleanup"
  | StaleLeaseCleanup => "stale_lease_cleanup"
  | CaRotationCheck => "ca_rotation_check"
  | FetchReleases => "fetch_releases"
  | DetectVersion => "detect_version"
  | ServiceCertCheck => "service_cert_check"
  | CrlRenewal => "crl_renewal"
  | AuditLogCleanup => "audit_log_cleanup"
  | DiscoverSoftware => "discover_software"
  end.

(** Reading the column back; an unknown string is a type of a newer controller. *)
Definition try_from_value (s : string) : option ScheduledTaskType :=
  find (λ t, bool_decide (into_value t = s)) task_types.

Definition is_internal (t : ScheduledTaskType) : bool :=
  match t with CrlRenewal | CaRotationCheck | ServiceCertCheck => true | _ => false end.

(** A row; its [id] is the key of the table. *)
Record Task := mkTask {
  task_tenant_id : Uuid; task_type : string; interval_seconds : Z; jitter_seconds : Z;
  enabled : bool; task_config : option Value; last_run_at : option Instant;
  next_run_at : Instant; locked_by : option Uuid; locked_at : option Instant;
  last_error : option string; run_count : Z; task_created_at : Instant;
  task_updated_at : Instant }.

Notation Tasks := (gmap Uuid Task) (only parsing).

Definition set_lock (by_ : option Uuid) (at_ : option Instant) (t : Task) : Task :=
  mkTask (task_tenant_id t) (task_type t) (interval_seconds t) (jitter_seconds t) (enabled t)
    (task_config t) (last_run_at t) (next_run_at t) by_ at_ (last_error t) (run_count t)
    (task_created_at t) (task_updated_at t).

Definition set_last_error (e : option string) (t : Task) : Task :=
  mkTask (task_tenant_id t) (task_type t) (interval_seconds t) (jitter_seconds t) (enabled t)
    (task_config t) (last_run_at t) (next_run_at t) (locked_by t) (locked_at t) e (run_count t)
    (task_created_at t) (task_updated_at t).

Definition set_next_run (next now : Instant) (t : Task) : Task :=
  mkTask (task_tenant_id t) (task_type t) (interval_seconds t) (jitter_seconds t) (enabled t)
    (task_config t) (last_run_at t) next (locked_by t) (locked_at t) (last_error t)
    (run_count t) (task_created_at t) now.

Definition count_run (now : Instant) (t : Task) : Task :=
  mkTask (task_tenant_id t) (task_type t) (interval_seconds t) (jitter_seconds t) (enabled t)
    (task_config t) (Some now) (next_run_at t) (locked_by t) (locked_at t) (last_error t)
    (run_count t + 1)%Z (task_created_at t) (task_updated_at t).

(** [update_many().filter(..).col_expr(..).exec(..)] and the number of rows it affects. *)
Definition update_tasks (P : Uuid → Task → bool) (f : Task → Task) (m : Tasks) : Tasks * nat :=
  (map_imap (λ id t, Some (if P id t then f t else t)) m,
   size (filter (λ kv : Uuid * Task, P kv.1 kv.2 = true) m)).

(** ** Claims ([claim.rs]) *)

Definition STALE_CLAIM_SECONDS : Z := 600.

Definition try_claim (now : Instant) (id c : Uuid) (m : Tasks) : Tasks * bool :=
  let '(m', n) := update_tasks (λ x t, bool_decide (x = id) && bool_decide (locked_by t = None))
                    (set_lock (Some c) (Some now)) m in
  (m', n =? 1).

(** [result] is the outcome of the run; run metadata are written with the claim only. *)
Definition release_claim (now : Instant) (id c : Uuid) (next : Instant)
    (result : Result string unit) : Tasks → Tasks * nat :=
  update_tasks (λ x t, bool_decide (x = id) && bool_decide (locked_by t = Some c))
    (λ t, let t := set_last_error (match result with Ok _ => None | Err e => Some e end)
                     (set_next_run next now (set_lock None None t)) in
          match result with Ok _ => count_run now t | Err _ => t end).

Definition STALE_ERROR : string := "released: stale claim (controller may have crashed)".

(** A claim that was not refreshed in time. *)
Definition is_stale (now : Instant) (t : Task) : bool :=
  match locked_at t with
  | Some at_ => (at_ <? now - secs STALE_CLAIM_SECONDS)%Z
  | None => false
  end.

Definition recover_stale_claims (now : Instant) : Tasks → Tasks * nat :=
  update_tasks (λ _ t, is_stale now t) (λ t, set_last_error (Some STALE_ERROR) (set_lock None None t)).

Definition refresh_claims (now : Instant) (c : Uuid) (live_ids : list Uuid) (m : Tasks)
    : Tasks * nat :=
  if decide (live_ids = []) then (m, 0)
  else update_tasks (λ x t, bool_decide (locked_by t = Some c) && bool_decide (x ∈ live_ids))
         (λ t, set_lock (locked_by t) (Some now) t) m.

Definition release_all_claims (c : Uuid) : Tasks → Tasks * nat :=
  update_tasks (λ _ t, bool_decide (locked_by t = Some c)) (set_lock None None).

Definition is_due (now : Instant) (t : Task) : bool :=
  bool_decide (task_type t ∈ into_value <$> task_types) && enabled t
  && bool_decide (locked_by t = None) && (next_run_at t <=? now)%Z.

Definition find_due_tasks (now : Instant) (m : Tasks) : list (Uuid * Task) :=
  map_to_list (filter (λ kv : Uuid * Task, is_due now kv.2 = true) m).

(** [compute_next_run_at] of [interval.rs]; [draw] is what the generator returned. *)
Definition compute_next_run_at (now : Instant) (interval jitter draw : Z) : Instant :=
  (now + secs (interval + (if 0 <? jitter then draw else 0)))%Z.

(** ** The schedulers *)

(** What a scheduler keeps: the rest of the due list of its poll cycle, the tasks it is
    executing ([live_tasks], each with the row as the due list had it), the snapshot of them the heartbeat took last, and the two
    shutdown tokens. [lost] is a history variable: the executing tasks whose claim another
    controller recovered as stale. *)
Record Controller := mkController {
  due : list (Uuid * Task); live_tasks : gmap Uuid Task; live_ids : list Uuid;
  drain : bool; abort_ : bool; lost : gset Uuid }.

Definition fresh_controller : Controller := mkController [] ∅ [] false false ∅.
Definition with_due l (k : Controller) : Controller :=
  mkController l (live_tasks k) (live_ids k) (drain k) (abort_ k) (lost k).
Definition with_live_ids l (k : Controller) : Controller :=
  mkController (due k) (live_tasks k) l (drain k) (abort_ k) (lost k).
Definition with_shutdown d a (k : Controller) : Controller :=
  mkController (due k) (live_tasks k) (live_ids k) d a (lost k).
Definition start_task id t (k : Controller) : Controller :=
  mkController (due k) (<[id := t]> (live_tasks k)) (live_ids k) (drain k) (abort_ k) (lost k ∖ {[id]}).
Definition end_task id (k : Controller) : Controller :=
  mkController (due k) (delete id (live_tasks k)) (live_ids k) (drain k) (abort_ k) (lost k ∖ {[id]}).
Definition lose ids (k : Controller) : Controller :=
  mkController (due k) (live_tasks k) (live_ids k) (drain k) (abort_ k) (lost k ∪ (dom (live_tasks k) ∩ ids)).

(** Between poll cycles: the due list is worked off and the join set is drained. *)
Definition idle (k : Controller) : Prop := due k = [] ∧ live_tasks k = ∅.

Section Poll.
(** The task types this scheduler has an executor for. *)
Context (executors : ScheduledTaskType → bool).

(** One turn of the loop of [poll_cycle] over the due tasks; [yield_external] is what the
    closure returned for this task. *)
Definition poll_next (now : Instant) (c : Uuid) (yield_external : bool) (k : Controller) (m : Tasks)
    : Controller * Tasks :=
  match due k with
  | [] => (k, m)
  | (id, t) :: rest =>
      if drain k || abort_ k then (with_due [] k, m)
      else match try_from_value (task_type t) with
           | None => (with_due rest k, m)
           | Some ty =>
               if yield_external && negb (is_internal ty) then (with_due rest k, m)
               else if negb (executors ty) then (with_due rest k, m)
               else match try_claim now id c m with
                    | (m', true) => (start_task id t (with_due rest k), m')
                    | (m', false) => (with_due rest k, m')
                    end
           end
  end.
End Poll.

(** The end of the spawned execution future: the claim is released with the next run and
    the outcome (that of the executor, a time-out, or the abort), and the guard leaves the
    live set. *)
Definition finish_task (now : Instant) (c id : Uuid) (t : Task) (draw : Z) (res : Result string unit)
    (k : Controller) (m : Tasks) : Controller * Tasks :=
  (end_task id k,
   (release_claim now id c (compute_next_run_at now (interval_seconds t) (jitter_seconds t) draw) res m).1).

Record Sys := mkSys { clock : Instant; tasks : Tasks; controllers : gmap Uuid Controller }.

Definition set_tasks m (s : Sys) : Sys := mkSys (clock s) m (controllers s).
Definition set_controller c k (s : Sys) : Sys := mkSys (clock s) (tasks s) (<[c := k]> (controllers s)).

Definition stale_ids (now : Instant) (m : Tasks) : gset Uuid :=
  dom (filter (λ kv : Uuid * Task, is_stale now kv.2 = true) m).

(** Any interleaving of the statements of any number of schedulers. A task ends with a
    result, a time-out or the abort, in each case by releasing its claim; its guard leaves
    the live set then, also when the release failed in the database; a claim that failed
    there is skipped. A snapshot of the heartbeat may miss a task whose future was spawned
    and did not start yet. A crash leaves the claims behind. *)
Inductive step (executors : Uuid → ScheduledTaskType → bool) : Sys → Sys → Prop :=
| st_tick dt s : (0 ≤ dt)%Z → step executors s (mkSys (clock s + dt)%Z (tasks s) (controllers s))
| st_start c s : controllers s !! c = None → step executors s (set_controller c fresh_controller s)
| st_recover c k s :
    controllers s !! c = Some k → idle k →
    step executors s
      (mkSys (clock s) (recover_stale_claims (clock s) (tasks s)).1
         (lose (stale_ids (clock s) (tasks s)) <$> controllers s))
| st_find_due c k s :
    controllers s !! c = Some k → idle k →
    step executors s (set_controller c (with_due (find_due_tasks (clock s) (tasks s)) k) s)
| st_poll c k y s :
    controllers s !! c = Some k →
    step executors s
      (set_controller c (poll_next (executors c) (clock s) c y k (tasks s)).1
         (set_tasks (poll_next (executors c) (clock s) c y k (tasks s)).2 s))
| st_end c k id t draw res s :
    controllers s !! c = Some k → live_tasks k !! id = Some t →
    (0 ≤ draw ≤ jitter_seconds t)%Z ∨ draw = 0%Z →
    step executors s
      (set_controller c (finish_task (clock s) c id t draw res k (tasks s)).1
         (set_tasks (finish_task (clock s) c id t draw res k (tasks s)).2 s))
| st_release_failed c k id s :
    controllers s !! c = Some k → step executors s (set_controller c (end_task id k) s)
| st_claim_failed c k e rest s :
    controllers s !! c = Some k → due k = e :: rest →
    step executors s (set_controller c (with_due rest k) s)
| st_snapshot c k l s :
    controllers s !! c = Some k → drain k = false → abort_ k = false →
    (∀ id, id ∈ l → is_Some (live_tasks k !! id)) →
    step executors s (set_controller c (with_live_ids l k) s)
| st_beat c k s :
    controllers s !! c = Some k →
    step executors s (set_tasks (refresh_claims (clock s) c (live_ids k) (tasks s)).1 s)
| st_drain c k s :
    controllers s !! c = Some k → step executors s (set_controller c (with_shutdown true (abort_ k) k) s)
| st_abort c k s :
    controllers s !! c = Some k → step executors s (set_controller c (with_shutdown (drain k) true k) s)
| st_stop c k s :
    controllers s !! c = Some k → idle k →
    step executors s (mkSys (clock s) (release_all_claims c (tasks s)).1 (delete c (controllers s)))
| st_crash c s : step executors s (mkSys (clock s) (tasks s) (delete c (controllers s)))
| st_edit id t t' s :
    tasks s !! id = Some t → locked_by t' = locked_by t → locked_at t' = locked_at t →
    step executors s (set_tasks (<[id := t']> (tasks s)) s)
| st_insert id t s :
    tasks s !! id = None → locked_by t = None → locked_at t = None →
    step executors s (set_tasks (<[id := t]> (tasks s)) s).

Definition reachable (executors : Uuid → ScheduledTaskType → bool) (s : Sys) : Prop :=
  ∃ now, rtc (step executors) (mkSys now ∅ ∅) s.

(** ** What the statements do *)

Ltac reduce_sys :=
  cbn [tasks controllers clock set_tasks set_controller live_tasks lost due start_task end_task
       with_due with_live_ids with_shutdown lose] in *.

Lemma update_tasks_lookup P f m id :
  (update_tasks P f m).1 !! id = (λ t, if P id t then f t else t) <$> m !! id.
Proof. unfold update_tasks. simpl. rewrite map_lookup_imap. by destruct (m !! id). Qed.

(** A statement about one row affects it once or not at all. *)
Lemma update_tasks_one P f m id :
  (∀ x t, P x t = true → x = id) →
  (update_tasks P f m).2 = match m !! id with Some t => if P id t then 1 else 0 | None => 0 end.
Proof. intros HP. unfold update_tasks. simpl. by apply size_filter_key. Qed.

(** A claim succeeds iff the row is there and unlocked, and then the row is this
    controller's. *)
Lemma try_claim_spec now id c m :
  (try_claim now id c m).2 = bool_decide (locked_by <$> m !! id = Some None)
  ∧ (try_claim now id c m).1 =
      if (try_claim now id c m).2 then alter (set_lock (Some c) (Some now)) id m else m.
Proof.
  set (P := λ (x : Uuid) t, bool_decide (x = id) && bool_decide (locked_by t = None)).
  set (f := set_lock (Some c) (Some now)).
  assert (try_claim now id c m = ((update_tasks P f m).1, (update_tasks P f m).2 =? 1)) as -> by done.
  rewrite (update_tasks_one P f m id).
  2:{ intros x t [Hx _]%andb_true_iff. by apply bool_decide_eq_true in Hx. }
  assert (∀ x, (update_tasks P f m).1 !! x = (λ t, if P x t then f t else t) <$> m !! x) as Hl
    by (intros; apply update_tasks_lookup). simpl.
  destruct (m !! id) as [t|] eqn:E.
  - unfold P. rewrite bool_decide_true by done. simpl. destruct (decide (locked_by t = None)) as [H|H].
    + rewrite (bool_decide_true (locked_by t = None)), bool_decide_true by (by rewrite ?H). split; [done|].
      simpl. apply map_eq. intros x. rewrite Hl. unfold P. destruct (decide (x = id)) as [->|Hne].
      * rewrite E, lookup_alter_eq, E. simpl. by rewrite !bool_decide_true.
      * rewrite lookup_alter_ne by done. destruct (m !! x); [|done]. simpl. by rewrite bool_decide_false.
    + rewrite (bool_decide_false (locked_by t = None)) by done.
      rewrite bool_decide_false; [|simpl; congruence]. split; [done|]. simpl.
      apply map_eq. intros x. rewrite Hl. destruct (m !! x) as [y|] eqn:Ex; [|done]. simpl. f_equal.
      unfold P. destruct (decide (x = id)) as [->|Hne].
      * assert (y = t) as -> by congruence. by rewrite (bool_decide_false (locked_by t = None)), andb_false_r.
      * by rewrite bool_decide_false.
  - rewrite bool_decide_false by done. split; [done|]. simpl. apply map_eq. intros x. rewrite Hl.
    destruct (m !! x) as [y|] eqn:Ex; [|done]. simpl. unfold P. rewrite bool_decide_false; [done|congruence].
Qed.

(** ** Exclusive claims *)

(** Each task a controller executes is in the table and, unless its claim was recovered,
    locked by it. *)
Definition claims_held (s : Sys) : Prop :=
  ∀ c k id t, controllers s !! c = Some k → live_tasks k !! id = Some t →
    ∃ row, tasks s !! id = Some row ∧ (id ∉ lost k → locked_by row = Some c).

(** The controllers change one entry, which executes nothing new; the rows it names stay. *)
Lemma claims_held_controller c k k' s :
  controllers s !! c = Some k ∨ live_tasks k' = ∅ →
  (∀ id t, live_tasks k' !! id = Some t → live_tasks k !! id = Some t ∧ (id ∉ lost k' → id ∉ lost k)) →
  claims_held s → claims_held (set_controller c k' s).
Proof.
  intros Hk Hl Hs c' k1 id t Hk1 Ht. simpl in Hk1. apply lookup_insert_Some in Hk1 as [[<- <-]|[Hne Hk1]].
  - destruct Hk as [Hk|He]; [|by rewrite He, lookup_empty in Ht].
    destruct (Hl id t Ht) as [Ht0 Hlost]. destruct (Hs c k id t Hk Ht0) as (row & Hrow & Hlock).
    exists row. split; [done|]. auto.
  - by eapply Hs.
Qed.

(** The rows change, and keep the locks of the tasks that are executed. *)
Lemma claims_held_tasks m' s :
  (∀ c k id t row, controllers s !! c = Some k → live_tasks k !! id = Some t → tasks s !! id = Some row →
     ∃ row', m' !! id = Some row' ∧ (id ∉ lost k → locked_by row = Some c → locked_by row' = Some c)) →
  claims_held s → claims_held (set_tasks m' s).
Proof.
  intros Hm Hs c k id t Hk Ht. destruct (Hs c k id t Hk Ht) as (row & Hrow & Hlock).
  destruct (Hm c k id t row Hk Ht Hrow) as (row' & Hrow' & Hl). exists row'. auto.
Qed.

Lemma claims_held_update P f s :
  (∀ c k id row, controllers s !! c = Some k → is_Some (live_tasks k !! id) → id ∉ lost k →
     locked_by row = Some c → P id row = true → locked_by (f row) = Some c) →
  claims_held s → claims_held (set_tasks (update_tasks P f (tasks s)).1 s).
Proof.
  intros HP. apply claims_held_tasks. intros c k id t row Hk Ht Hrow.
  rewrite update_tasks_lookup, Hrow. simpl. eexists. split; [done|]. intros Hl Hlock.
  destruct (P id row) eqn:E; [by eapply HP; [|exists t| | |]|done].
Qed.

(** What one turn of the poll loop does to the controller and to the table. *)
Lemma poll_next_cases executors now c y k m :
  (∃ l, poll_next executors now c y k m = (with_due l k, m))
  ∨ ∃ l id t row, m !! id = Some row ∧ locked_by row = None
    ∧ poll_next executors now c y k m =
        (start_task id t (with_due l k), alter (set_lock (Some c) (Some now)) id m).
Proof.
  unfold poll_next. destruct (due k) as [|[id t] rest] eqn:Hd.
  { left. exists []. destruct k. simpl in *. by subst. }
  destruct (drain k || abort_ k); [left; by eexists|].
  destruct (try_from_value (task_type t)) as [ty|]; [|left; by eexists].
  destruct (y && negb (is_internal ty)); [left; by eexists|].
  destruct (negb (executors ty)); [left; by eexists|].
  pose proof (try_claim_spec now id c m) as [Hb Hm].
  destruct (try_claim now id c m) as [m' b]. simpl in *. destruct b; subst m'.
  - right. symmetry in Hb. apply bool_decide_eq_true in Hb. apply fmap_Some in Hb as (row & Hrow & Hl).
    by exists rest, id, t, row.
  - left. by exists rest.
Qed.

(** Claiming: the row was unlocked, so nobody held it. *)
Lemma claim_claims_held c k l id t row now s :
  controllers s !! c = Some k → tasks s !! id = Some row → locked_by row = None → claims_held s →
  claims_held (set_controller c (start_task id t (with_due l k))
                 (set_tasks (alter (set_lock (Some c) (Some now)) id (tasks s)) s)).
Proof.
  intros Hk Hrow Hfree Hs c' k1 x t1 Hk1 Ht1. simpl in *.
  destruct (decide (x = id)) as [->|Hx].
  - exists (set_lock (Some c) (Some now) row). rewrite lookup_alter_eq, Hrow. split; [done|].
    intros Hlost. simpl. apply lookup_insert_Some in Hk1 as [[<- _]|[_ Hk1]]; [done|].
    destruct (Hs c' k1 id t1 Hk1 Ht1) as (r & Hr & Hl). specialize (Hl Hlost). congruence.
  - rewrite lookup_alter_ne by done. apply lookup_insert_Some in Hk1 as [[<- <-]|[_ Hk1]].
    + simpl in Ht1. rewrite lookup_insert_ne in Ht1 by done.
      destruct (Hs c k x t1 Hk Ht1) as (r & Hr & Hl). exists r. split; [done|].
      intros Hn. apply Hl. simpl in Hn. set_solver.
    + by eapply Hs.
Qed.

Lemma poll_claims_held executors c k y s :
  controllers s !! c = Some k → claims_held s →
  claims_held (set_controller c (poll_next executors (clock s) c y k (tasks s)).1
                 (set_tasks (poll_next executors (clock s) c y k (tasks s)).2 s)).
Proof.
  intros Hk Hs.
  destruct (poll_next_cases executors (clock s) c y k (tasks s)) as [[l ->]|(l & id & t & row & Hr & Hf & ->)].
  - apply (claims_held_controller c k); [by left|by auto|]. by destruct s.
  - by eapply claim_claims_held.
Qed.

(** Recovery: the claims it drops are the lost ones. *)
Lemma recover_claims_held s :
  claims_held s →
  claims_held (mkSys (clock s) (recover_stale_claims (clock s) (tasks s)).1
                 (lose (stale_ids (clock s) (tasks s)) <$> controllers s)).
Proof.
  intros Hs c k id t Hk Ht. reduce_sys. rewrite lookup_fmap in Hk.
  apply fmap_Some in Hk as (k0 & Hk0 & ->). reduce_sys.
  destruct (Hs c k0 id t Hk0 Ht) as (row & Hrow & Hl). unfold recover_stale_claims.
  rewrite update_tasks_lookup, Hrow. simpl. eexists. split; [done|]. intros Hn.
  assert (id ∈ dom (live_tasks k0)) as Hd by (by apply elem_of_dom; exists t).
  destruct (is_stale (clock s) row) eqn:E; [|apply Hl; set_solver].
  exfalso. apply Hn, elem_of_union_r, elem_of_intersection. split; [done|].
  apply elem_of_dom. exists row. by apply map_lookup_filter_Some.
Qed.

(** Ending a task: its own claim goes, the others stay. *)
Lemma end_claims_held now c k id next res s :
  controllers s !! c = Some k → claims_held s →
  claims_held (set_controller c (end_task id k) (set_tasks (release_claim now id c next res (tasks s)).1 s)).
Proof.
  intros Hk Hs c' k1 x t1 Hk1 Ht1. reduce_sys. unfold release_claim. rewrite update_tasks_lookup.
  apply lookup_insert_Some in Hk1 as [[<- <-]|[Hc Hk1]].
  - simpl in Ht1. apply lookup_delete_Some in Ht1 as [Hx Ht1].
    destruct (Hs c k x t1 Hk Ht1) as (row & -> & Hl). simpl. rewrite bool_decide_false by done. simpl.
    eexists. split; [done|]. intros Hn. apply Hl. simpl in Hn. set_solver.
  - destruct (Hs c' k1 x t1 Hk1 Ht1) as (row & -> & Hl). simpl. eexists. split; [done|]. intros Hn.
    rewrite (bool_decide_false (locked_by row = Some c)), andb_false_r; [auto|].
    rewrite Hl by done. congruence.
Qed.

Lemma stop_claims_held c s :
  claims_held s → claims_held (mkSys (clock s) (release_all_claims c (tasks s)).1 (delete c (controllers s))).
Proof.
  intros Hs c' k id t Hk Ht. reduce_sys. apply lookup_delete_Some in Hk as [Hc Hk].
  destruct (Hs c' k id t Hk Ht) as (row & Hrow & Hl). unfold release_all_claims.
  rewrite update_tasks_lookup, Hrow. simpl. eexists. split; [done|]. intros Hn.
  rewrite bool_decide_false; [auto|]. rewrite Hl by done. congruence.
Qed.

(** A row that is written keeps its lock. *)
Lemma edit_claims_held id row s :
  (∀ old, tasks s !! id = Some old → locked_by row = locked_by old) →
  claims_held s → claims_held (set_tasks (<[id := row]> (tasks s)) s).
Proof.
  intros He. apply claims_held_tasks. intros c k x t r _ _ Hr.
  destruct (decide (x = id)) as [->|Hx].
  - exists row. rewrite lookup_insert_eq. split; [done|]. intros _ <-. by apply He.
  - exists r. by rewrite lookup_insert_ne.
Qed.

Lemma step_claims_held executors s s' : step executors s s' → claims_held s → claims_held s'.
Proof.
  intros Hst Hs. destruct Hst.
  - exact Hs.
  - apply (claims_held_controller c fresh_controller); [by right| |done].
    intros id t Ht. change (@lookup _ _ (gmap Uuid Task) _ id ∅ = Some t) in Ht. by rewrite lookup_empty in Ht.
  - by apply recover_claims_held.
  - apply (claims_held_controller c k); auto.
  - by apply poll_claims_held.
  - by apply end_claims_held.
  - apply (claims_held_controller c k); [by left| |done]. intros x t Ht. reduce_sys.
    apply lookup_delete_Some in Ht as [? ?]. split; [done|]. set_solver.
  - apply (claims_held_controller c k); auto.
  - apply (claims_held_controller c k); auto.
  - unfold refresh_claims. case_decide; [by destruct s|]. by apply claims_held_update.
  - apply (claims_held_controller c k); auto.
  - apply (claims_held_controller c k); auto.
  - by apply stop_claims_held.
  - intros c' k id t Hk. reduce_sys. apply lookup_delete_Some in Hk as [_ Hk]. by eapply Hs.
  - apply edit_claims_held; [|done]. intros old ?. by simplify_eq.
  - apply edit_claims_held; [|done]. intros old ?. by simplify_eq.
Qed.

Lemma reachable_claims_held executors s : reachable executors s → claims_held s.
Proof.
  intros [now Hr]. remember (mkSys now ∅ ∅) as s0 eqn:E.
  assert (claims_held s0) as H0 by (subst; intros c k id t Hk; simpl in Hk; by rewrite lookup_empty in Hk).
  clear E. induction Hr; eauto using step_claims_held.
Qed.

(** A claim is lost only by a recovery that found it unrefreshed for ten minutes. *)
Definition stale_loss (s : Sys) (k k' : Controller) : Prop :=
  ∀ id, id ∈ lost k' → id ∉ lost k →
    id ∈ dom (live_tasks k) ∧ ∃ row at_, tasks s !! id = Some row ∧ locked_at row = Some at_
      ∧ (at_ < clock s - secs STALE_CLAIM_SECONDS)%Z.

Lemma recovery_loss s k : stale_loss s k (lose (stale_ids (clock s) (tasks s)) k).
Proof.
  intros id Hin Hn. simpl in Hin. assert (id ∈ dom (live_tasks k) ∧ id ∈ stale_ids (clock s) (tasks s))
    as [Hl Hst] by set_solver. split; [done|].
  unfold stale_ids in Hst. apply elem_of_dom in Hst as [row Hrow]. apply map_lookup_filter_Some in Hrow as [Hrow Hs]. simpl in Hs.
  unfold is_stale in Hs. destruct (locked_at row) as [at_|] eqn:E; [|done]. exists row, at_.
  repeat split; auto. lia.
Qed.

Lemma poll_next_lost executors now c y k m : lost (poll_next executors now c y k m).1 ⊆ lost k.
Proof.
  destruct (poll_next_cases executors now c y k m) as [[l ->]|(l & id & t & row & _ & _ & ->)]; simpl; set_solver.
Qed.

Lemma step_loss executors s s' c k k' :
  step executors s s' → controllers s !! c = Some k → controllers s' !! c = Some k' → stale_loss s k k'.
Proof.
  assert (∀ k2, lost k2 ⊆ lost k → stale_loss s k k2) as Hsub
    by (intros k2 H id Hin Hn; by destruct Hn; apply H).
  assert (∀ c0 k0 k2, <[c0 := k2]> (controllers s) !! c = Some k' → controllers s !! c0 = Some k0 →
    controllers s !! c = Some k → lost k2 ⊆ lost k0 → stale_loss s k k') as Hset.
  { intros c0 k0 k2 Hi H0 Hk Hl. apply lookup_insert_Some in Hi as [[-> <-]|[_ Hi]];
      simplify_eq; by apply Hsub. }
  intros Hst Hk Hk'. destruct Hst; simpl in Hk'; try (simplify_eq; by apply Hsub);
    try (apply lookup_delete_Some in Hk' as [_ Hk']; simplify_eq; by apply Hsub);
    try (eapply (Hset c0 k0); [exact Hk'|eassumption|eassumption|simpl; set_solver]).
  - apply lookup_insert_Some in Hk' as [[-> <-]|[_ Hk']]; simplify_eq; by apply Hsub.
  - rewrite lookup_fmap, Hk in Hk'. simpl in Hk'. simplify_eq. apply recovery_loss.
  - eapply (Hset c0 k0); [exact Hk'|eassumption|eassumption|apply poll_next_lost].
Qed.

(** ** What the schedulers promise *)

(** C22: no two controllers execute a task at the same time unless the claim of one of them
    was recovered as stale, in every interleaving of claims, releases, heartbeats, edits,
    shutdowns and crashes; and a step takes a claim from an executing task only if the row
    was not refreshed for [STALE_CLAIM_SECONDS]. *)
Theorem one_runner executors s :
  reachable executors s →
  (∀ c1 c2 k1 k2 id, controllers s !! c1 = Some k1 → controllers s !! c2 = Some k2 →
     id ∈ dom (live_tasks k1) → id ∈ dom (live_tasks k2) → c1 = c2 ∨ id ∈ lost k1 ∨ id ∈ lost k2)
  ∧ (∀ s' c k k', step executors s s' → controllers s !! c = Some k → controllers s' !! c = Some k' →
       stale_loss s k k').
Proof.
  intros Hr%reachable_claims_held. split; [|by eauto using step_loss].
  intros c1 c2 k1 k2 id H1 H2 [t1 Ht1]%elem_of_dom [t2 Ht2]%elem_of_dom.
  destruct (Hr c1 k1 id t1 H1 Ht1) as (row & Hrow & L1). destruct (Hr c2 k2 id t2 H2 Ht2) as (r2 & Hr2 & L2).
  destruct (decide (id ∈ lost k1)) as [|N1]; [by auto|]. destruct (decide (id ∈ lost k2)) as [|N2]; [by auto|].
  left. specialize (L1 N1). specialize (L2 N2). congruence.
Qed.

(** A release through a lost claim writes nothing; through a held one it unlocks the row,
    schedules the next run, and counts the run iff it succeeded. *)
Lemma release_claim_exact now id c next res m :
  release_claim now id c next res m =
    match m !! id with
    | Some t =>
        if decide (locked_by t = Some c) then
          (<[id := mkTask (task_tenant_id t) (task_type t) (interval_seconds t) (jitter_seconds t) (enabled t)
                     (task_config t) (match res with Ok _ => Some now | Err _ => last_run_at t end) next None None
                     (match res with Ok _ => None | Err e => Some e end)
                     (match res with Ok _ => run_count t + 1 | Err _ => run_count t end)%Z
                     (task_created_at t) now]> m, 1)
        else (m, 0)
    | None => (m, 0)
    end.
Proof.
  unfold release_claim. match goal with |- update_tasks ?P ?f m = _ => set (p := P); set (g := f) end.
  rewrite (surjective_pairing (update_tasks p g m)), (update_tasks_one p g m id).
  2:{ intros x t [Hx _]%andb_true_iff. by apply bool_decide_eq_true in Hx. }
  assert (∀ x t, x ≠ id → p x t = false) as Hp by (intros; unfold p; by rewrite bool_decide_false).
  assert (∀ t, p id t = bool_decide (locked_by t = Some c)) as Hid
    by (intros; unfold p; by rewrite (bool_decide_true (id = id))).
  destruct (m !! id) as [t|] eqn:E; [rewrite Hid; case_decide as Hl; [rewrite bool_decide_true by done|
    rewrite bool_decide_false by done]|]; f_equal; apply map_eq; intros x; rewrite update_tasks_lookup;
    (destruct (decide (x = id)) as [->|Hx];
      [rewrite ?lookup_insert_eq, ?E; simpl|rewrite ?lookup_insert_ne by done; destruct (m !! x); simpl;
        rewrite ?Hp by done; done]); rewrite ?Hid; try done.
  - rewrite bool_decide_true by done. by destruct res.
  - by rewrite bool_decide_false.
Qed.

(** The claim of a crashed controller is healed by the next poll cycle of any other one that
    comes after the timeout: the task is due again and can be claimed. *)
Lemma crashed_task_recovered now c id row at_ m :
  m !! id = Some row → locked_at row = Some at_ → (at_ < now - secs STALE_CLAIM_SECONDS)%Z →
  enabled row = true → task_type row ∈ into_value <$> task_types → (next_run_at row ≤ now)%Z →
  let m' := (recover_stale_claims now m).1 in
  id ∈ (find_due_tasks now m').*1 ∧ (try_claim now id c m').2 = true.
Proof.
  intros Hrow Hat Hlt Hen Hty Hnext m'.
  assert (m' !! id = Some (set_last_error (Some STALE_ERROR) (set_lock None None row))) as Hm'.
  { unfold m', recover_stale_claims. rewrite update_tasks_lookup, Hrow. simpl. unfold is_stale.
    rewrite Hat. by rewrite (proj2 (Z.ltb_lt _ _)). }
  split.
  - apply list_elem_of_fmap. exists (id, set_last_error (Some STALE_ERROR) (set_lock None None row)).
    split; [done|]. apply elem_of_map_to_list, map_lookup_filter_Some. split; [done|]. simpl. unfold is_due. simpl.
    rewrite bool_decide_true by done. rewrite Hen. simpl. by apply Z.leb_le.
  - rewrite (proj1 (try_claim_spec _ _ _ _)), Hm'. by apply bool_decide_eq_true.
Qed.

(** ** Scenarios *)

Module SchedulerDemo.

Definition task : Task :=
  mkTask 1%N "fetch_releases" 3600 0 true None None 0 None None None 0 0 0.
Definition execs (c : Uuid) (t : ScheduledTaskType) : bool := true.
Definition ctl (c : Uuid) (s : Sys) : Controller := default fresh_controller (controllers s !! c).
Definition next_due (c : Uuid) (s : Sys) : Sys :=
  set_controller c (with_due (find_due_tasks (clock s) (tasks s)) (ctl c s)) s.
Definition poll (c : Uuid) (s : Sys) : Sys :=
  set_controller c (poll_next (execs c) (clock s) c false (ctl c s) (tasks s)).1
    (set_tasks (poll_next (execs c) (clock s) c false (ctl c s) (tasks s)).2 s).
Definition finish (c id : Uuid) (s : Sys) : Sys :=
  set_controller c (finish_task (clock s) c id task 0 (Ok tt) (ctl c s) (tasks s)).1
    (set_tasks (finish_task (clock s) c id task 0 (Ok tt) (ctl c s) (tasks s)).2 s).

(** Two controllers and a task that is due. *)
Definition start : Sys :=
  set_controller 2%N fresh_controller
    (set_controller 1%N fresh_controller (set_tasks (<[7%N := task]> ∅) (mkSys 0 ∅ ∅))).

Lemma start_reachable : reachable execs start.
Proof.
  exists 0%Z. eapply rtc_l; [eapply (st_insert _ 7%N task); reflexivity|].
  eapply rtc_l; [eapply (st_start _ 1%N); reflexivity|].
  eapply rtc_l; [eapply (st_start _ 2%N); reflexivity|]. reflexivity.
Qed.

(** The first controller runs the task for more than ten minutes without a heartbeat; the
    second recovers the claim and runs it as well. *)
Definition claimed : Sys := poll 1%N (next_due 1%N start).
Definition waited : Sys := mkSys (clock claimed + secs 601)%Z (tasks claimed) (controllers claimed).
Definition recovered : Sys :=
  mkSys (clock waited) (recover_stale_claims (clock waited) (tasks waited)).1
    (lose (stale_ids (clock waited) (tasks waited)) <$> controllers waited).
Definition taken_over : Sys := poll 2%N (next_due 2%N recovered).

Lemma taken_over_reachable : reachable execs taken_over.
Proof.
  destruct start_reachable as [now Hr]. exists now. etrans; [exact Hr|].
  eapply rtc_l; [eapply (st_find_due _ 1%N); [reflexivity|split; reflexivity]|].
  eapply rtc_l; [eapply (st_poll _ 1%N _ false); reflexivity|].
  eapply rtc_l; [eapply (st_tick _ (secs 601)); vm_compute; discriminate|].
  eapply rtc_l; [eapply (st_recover _ 2%N (ctl 2%N waited)); [vm_compute; reflexivity|split; vm_compute; reflexivity]|].
  eapply rtc_l; [eapply (st_find_due _ 2%N (ctl 2%N recovered)); [vm_compute; reflexivity|split; vm_compute; reflexivity]|].
  eapply rtc_l; [eapply (st_poll _ 2%N (ctl 2%N (next_due 2%N recovered)) false); vm_compute; reflexivity|].
  reflexivity.
Qed.

Lemma one_runner_witness :
  (7%N ∈ dom (live_tasks (ctl 1%N taken_over)) ∧ 7%N ∈ dom (live_tasks (ctl 2%N taken_over)))
  ∧ (1%N = 2%N ∨ 7%N ∈ lost (ctl 1%N taken_over) ∨ 7%N ∈ lost (ctl 2%N taken_over)).
Proof.
  assert (7%N ∈ dom (live_tasks (ctl 1%N taken_over)) ∧ 7%N ∈ dom (live_tasks (ctl 2%N taken_over))) as [H1 H2]
    by (split; apply elem_of_dom; vm_compute; eexists; reflexivity).
  split; [by split|].
  apply (proj1 (one_runner execs taken_over taken_over_reachable) 1%N 2%N); [vm_compute; reflexivity..|done|done].
Defined.

(** Both controllers read the due list before the first one claims: when the first run is
    over, the second controller claims the row again, although its next run is an hour
    away, and the task runs twice in one period. *)
Definition listed : Sys := next_due 2%N (next_due 1%N start).
Definition ran_once : Sys := finish 1%N 7%N (poll 1%N listed).
Definition ran_twice : Sys := finish 2%N 7%N (poll 2%N ran_once).

Lemma ran_twice_reachable : reachable execs ran_twice.
Proof.
  destruct start_reachable as [now Hr]. exists now. etrans; [exact Hr|].
  eapply rtc_l; [eapply (st_find_due _ 1%N (ctl 1%N start)); [reflexivity|split; reflexivity]|].
  eapply rtc_l; [eapply (st_find_due _ 2%N (ctl 2%N (next_due 1%N start))); [reflexivity|split; reflexivity]|].
  eapply rtc_l; [eapply (st_poll _ 1%N (ctl 1%N listed) false); vm_compute; reflexivity|].
  eapply rtc_l; [eapply (st_end _ 1%N (ctl 1%N (poll 1%N listed)) 7%N task 0 (Ok tt));
    [vm_compute; reflexivity..|by right]|].
  eapply rtc_l; [eapply (st_poll _ 2%N (ctl 2%N ran_once) false); vm_compute; reflexivity|].
  eapply rtc_l; [eapply (st_end _ 2%N (ctl 2%N (poll 2%N ran_once)) 7%N task 0 (Ok tt));
    [vm_compute; reflexivity..|by right]|].
  reflexivity.
Qed.

Lemma stale_due_list_runs_twice :
  reachable execs ran_twice ∧ clock ran_twice = 0%Z
  ∧ next_run_at <$> tasks ran_once !! 7%N = Some (secs 3600)
  ∧ run_count <$> tasks ran_twice !! 7%N = Some 2%Z.
Proof. split; [exact ran_twice_reachable|]. by vm_compute. Qed.

End SchedulerDemo.
