(* ===== verification/Handlers.v ===== *)
(** Request handlers over a shared database: a handler is a sequence of atomic statements
    (one SQL statement, or one immediate transaction) with emitted events between them. Its
    executions interleave with other requests: between two of its statements the database
    takes any number of environment steps. *)

From stdpp Require Import base list relations.
From S2P Require Import Prelude.

Inductive Handler (Db Ev R : Type) : Type :=
| Return (r : R)
| Statement (A : Type) (f : Db → A * Db) (k : A → Handler Db Ev R)
| Emit (e : Ev) (h : Handler Db Ev R).
Arguments Return {Db Ev R} r.
Arguments Statement {Db Ev R A} f k.
Arguments Emit {Db Ev R} e h.

#[export] Instance Handler_ret {Db Ev} : MRet (Handler Db Ev) := λ R r, Return r.
#[export] Instance Handler_bind {Db Ev} : MBind (Handler Db Ev) := λ A B k,
  fix go h := match h with
              | Return a => k a
              | Statement f c => Statement f (λ x, go (c x))
              | Emit e h' => Emit e (go h')
              end.

(** One statement; a statement that only reads. *)
Definition exec {Db Ev A} (f : Db → A * Db) : Handler Db Ev A := Statement f Return.
Definition query {Db Ev A} (f : Db → A) : Handler Db Ev A := exec (λ db, (f db, db)).
Definition emit {Db Ev} (e : Ev) : Handler Db Ev unit := Emit e (Return tt).

Section Runs.
Context {Db Ev : Type}.

(** The handler alone: what it returns, the database it leaves and the events it emits. *)
Fixpoint run {R} (h : Handler Db Ev R) (db : Db) : R * Db * list Ev :=
  match h with
  | Return r => (r, db, [])
  | Statement f k => let '(a, db') := f db in run (k a) db'
  | Emit e h' => let '(r, db', es) := run h' db in (r, db', e :: es)
  end.

Context (env : relation Db).

(** The handler among other requests, whose statements are [env] steps: it can start in
    [db], return [r], leave [db'] and have emitted [es]. *)
Fixpoint runs {R} (h : Handler Db Ev R) (db : Db) (r : R) (db' : Db) (es : list Ev) : Prop :=
  match h with
  | Return a => r = a ∧ db' = db ∧ es = []
  | Statement f k => ∃ db1, rtc env db db1 ∧ runs (k (f db1).1) (f db1).2 r db' es
  | Emit e h' => ∃ es', es = e :: es' ∧ runs h' db r db' es'
  end.

(** Every statement of the handler is itself a step other requests may see. *)
Fixpoint obeys {R} (h : Handler Db Ev R) : Prop :=
  match h with
  | Return _ => True
  | Statement f k => (∀ db, rtc env db (f db).2) ∧ ∀ a, obeys (k a)
  | Emit _ h' => obeys h'
  end.

Lemma obeys_exec {A} (f : Db → A * Db) : (∀ db, rtc env db (f db).2) → obeys (exec f).
Proof. by intros Hf. Qed.

Lemma obeys_query {A} (f : Db → A) : obeys (query f).
Proof. apply obeys_exec. intros db. apply rtc_refl. Qed.

Lemma obeys_emit1 e : obeys (emit e).
Proof. done. Qed.

Lemma obeys_bind {A B} (h : Handler Db Ev A) (k : A → Handler Db Ev B) :
  obeys h → (∀ a, obeys (k a)) → obeys (h ≫= k).
Proof.
  intros Hh Hk. induction h as [a|X f c IH|e h IH]; simpl; [apply Hk| |by apply IH].
  destruct Hh as [Hf Hc]. split; [done|]. intros a. by apply IH.
Qed.

(** The whole run is then a sequence of steps. *)
Lemma runs_steps {R} (h : Handler Db Ev R) db r db' es :
  runs h db r db' es → obeys h → rtc env db db'.
Proof.
  revert db es. induction h as [a|X f c IH|e h IH]; intros db es; simpl.
  - intros (_ & -> & _) _. apply rtc_refl.
  - intros (db1 & Henv & Hr) [Hf Hc]. etrans; [exact Henv|]. etrans; [apply Hf|].
    by eapply IH.
  - intros (es' & _ & Hr) Ho. by eapply IH.
Qed.

(** The handler alone is one of its interleaved runs. *)
Lemma run_runs {R} (h : Handler Db Ev R) db :
  runs h db (run h db).1.1 (run h db).1.2 (run h db).2.
Proof.
  revert db. induction h as [r|A f k IH|e h IH]; intros db; simpl; [done| |].
  - exists db. split; [apply rtc_refl|]. destruct (f db) as [a db1]. apply IH.
  - specialize (IH db). destruct (run h db) as [[r db1] es]. by exists es.
Qed.

Lemma run_alone {R} (h : Handler Db Ev R) db r db' es : run h db = (r, db', es) → runs h db r db' es.
Proof. intros E. pose proof (run_runs h db) as Hr. by rewrite E in Hr. Qed.

Lemma run_bind {A B} (h : Handler Db Ev A) (k : A → Handler Db Ev B) db :
  run (h ≫= k) db =
  let '(a, db1, es1) := run h db in let '(b, db2, es2) := run (k a) db1 in (b, db2, es1 ++ es2).
Proof.
  revert db. induction h as [a|X f c IH|e h IH]; intros db; simpl.
  - by destruct (run (k a) db) as [[? ?] ?].
  - destruct (f db) as [x db1]. apply IH.
  - change (run (Emit e (h ≫= k)) db = let '(a, db1, es1) := let '(r, db', es) := run h db in (r, db', e :: es) in
      let '(b, db2, es2) := run (k a) db1 in (b, db2, es1 ++ es2)).
    cbn [run]. rewrite IH. destruct (run h db) as [[a db1] e1]. by destruct (run (k a) db1) as [[? ?] ?].
Qed.

Lemma runs_bind {A B} (h : Handler Db Ev A) (k : A → Handler Db Ev B) db r db' es :
  runs (h ≫= k) db r db' es ↔
  ∃ a db1 es1 es2, runs h db a db1 es1 ∧ runs (k a) db1 r db' es2 ∧ es = es1 ++ es2.
Proof.
  revert db es. induction h as [a|X f c IH|e h IH]; intros db es; simpl.
  - split; [by exists a, db, [], es|]. by intros (? & ? & ? & ? & (-> & -> & ->) & ? & ->).
  - split.
    + intros (db1 & Henv & (a & d & es1 & es2 & H1 & H2 & ->)%IH). naive_solver.
    + intros (a & d & es1 & es2 & (db1 & Henv & H1) & H2 & ->).
      exists db1. split; [done|]. apply IH. naive_solver.
  - split.
    + intros (es' & -> & (a & d & es1 & es2 & H1 & H2 & ->)%IH).
      exists a, d, (e :: es1), es2. naive_solver.
    + intros (a & d & ? & es2 & (es1 & -> & H1) & H2 & ->).
      exists (es1 ++ es2). split; [done|]. apply IH. naive_solver.
Qed.

Lemma runs_exec {A} (f : Db → A * Db) db r db' es :
  runs (exec f) db r db' es ↔ ∃ db1, rtc env db db1 ∧ f db1 = (r, db') ∧ es = [].
Proof.
  simpl. split; intros (db1 & Henv & Hf); exists db1; (split; [done|]).
  - destruct (f db1); naive_solver.
  - destruct Hf as [-> ->]. done.
Qed.

Lemma runs_query {A} (f : Db → A) db r db' es :
  runs (query f) db r db' es ↔ rtc env db db' ∧ r = f db' ∧ es = [].
Proof.
  unfold query. rewrite runs_exec. split.
  - intros (db1 & Henv & [= <- <-] & ->). done.
  - intros (Henv & -> & ->). by exists db'.
Qed.

Lemma runs_ret {R} (a r : R) db db' es :
  runs (Return a) db r db' es ↔ r = a ∧ db' = db ∧ es = [].
Proof. done. Qed.

Lemma runs_emit1 e db r db' es : runs (emit e) db r db' es ↔ r = tt ∧ db' = db ∧ es = [e].
Proof. simpl. naive_solver. Qed.
End Runs.

(** A run among some requests is a run among more, and the same for what it obeys. *)
Lemma runs_mono {Db Ev R} (env env' : relation Db) (h : Handler Db Ev R) d r d' es :
  (∀ a b, env a b → env' a b) → runs env h d r d' es → runs env' h d r d' es.
Proof.
  intros Hsub. revert d es. induction h as [a|A f k IH|e h IH]; intros d es; simpl; [done| |].
  - intros (d1 & Hs & Hr). exists d1. split; [by eapply rtc_subrel|auto].
  - intros (es' & -> & Hr). exists es'. split; [done|auto].
Qed.

Lemma obeys_mono {Db Ev R} (env env' : relation Db) (h : Handler Db Ev R) :
  (∀ a b, env a b → env' a b) → obeys env h → obeys env' h.
Proof.
  intros Hsub. induction h as [a|A f k IH|e h IH]; simpl; [done| |done].
  intros [Hf Hk]. split; [|auto]. intros d. eapply rtc_subrel; [exact Hsub|apply Hf].
Qed.

(** Unfold one interleaved run into the statements it is made of. *)
Ltac inv_runs :=
  repeat match goal with
  | H : runs _ (_ ≫= _) _ _ _ _ |- _ =>
      let a := fresh "a" in let d := fresh "d" in let e1 := fresh "es" in
      let e2 := fresh "es" in let H1 := fresh "Hrun" in let He := fresh "Hes" in
      apply runs_bind in H as (a & d & e1 & e2 & H1 & H & He)
  | H : runs _ (query _) _ _ _ _ |- _ =>
      let He := fresh "Henv" in let Hq := fresh "Hq" in let Hs := fresh "Hes" in
      apply runs_query in H as (He & Hq & Hs)
  | H : runs _ (exec _) _ _ _ _ |- _ =>
      let d := fresh "d" in let He := fresh "Henv" in let Hq := fresh "Hst" in
      let Hs := fresh "Hes" in
      apply runs_exec in H as (d & He & Hq & Hs)
  | H : runs _ (emit _) _ _ _ _ |- _ =>
      let Hq := fresh "Hq" in let Hd := fresh "Hd" in let Hs := fresh "Hes" in
      apply runs_emit1 in H as (Hq & Hd & Hs)
  | H : runs _ (mret _) _ _ _ _ |- _ =>
      let Hq := fresh "Hq" in let Hd := fresh "Hd" in let Hs := fresh "Hes" in
      apply runs_ret in H as (Hq & Hd & Hs)
  | H : runs _ (Return _) _ _ _ _ |- _ =>
      let Hq := fresh "Hq" in let Hd := fresh "Hd" in let Hs := fresh "Hes" in
      apply runs_ret in H as (Hq & Hd & Hs)
  end.

(** ** Handlers over a part of the database *)

Section Zoom.
Context {Db Part Ev : Type} (get : Db → Part) (put : Part → Db → Db).

(** The handler of a component, run against the component's part of the database. *)
Fixpoint zoom {R} (h : Handler Part Ev R) : Handler Db Ev R :=
  match h with
  | Return r => Return r
  | Statement f k => Statement (λ d, ((f (get d)).1, put (f (get d)).2 d)) (λ a, zoom (k a))
  | Emit e h' => Emit e (zoom h')
  end.

Context (get_put : ∀ p d, get (put p d) = p).

Lemma runs_zoom (env : relation Db) (env' : relation Part) {R} (h : Handler Part Ev R) d r d' es :
  (∀ x y, env x y → rtc env' (get x) (get y)) →
  runs env (zoom h) d r d' es → runs env' h (get d) r (get d') es.
Proof.
  intros Henv. assert (∀ x y, rtc env x y → rtc env' (get x) (get y)) as Hrtc.
  { intros x y Hs. induction Hs as [|x y z Hs _ IH]; [done|]. etrans; [by apply Henv|done]. }
  revert d es. induction h as [a|A f k IH|e h IH]; intros d es; simpl.
  - by intros (-> & -> & ->).
  - intros (d1 & Hs & Hr). exists (get d1). split; [by apply Hrtc|].
    apply IH in Hr. by rewrite get_put in Hr.
  - intros (es' & -> & Hr). exists es'. split; [done|]. by apply IH.
Qed.
End Zoom.

(** The same handler emitting other events. *)
Fixpoint relabel {Db Ev Ev' R} (g : Ev → Ev') (h : Handler Db Ev R) : Handler Db Ev' R :=
  match h with
  | Return r => Return r
  | Statement f k => Statement f (λ a, relabel g (k a))
  | Emit e h' => Emit (g e) (relabel g h')
  end.

Lemma runs_relabel {Db Ev Ev' R} (env : relation Db) (g : Ev → Ev') (h : Handler Db Ev R) d r d' es :
  runs env (relabel g h) d r d' es → ∃ es', runs env h d r d' es' ∧ es = g <$> es'.
Proof.
  revert d es. induction h as [a|A f k IH|e h IH]; intros d es; simpl.
  - intros (-> & -> & ->). by exists [].
  - intros (d1 & Hs & (es' & Hr & ->)%IH). exists es'. split; [|done]. by exists d1.
  - intros (es' & -> & (es0 & Hr & ->)%IH). exists (e :: es0). split; [|done]. by exists es0.
Qed.

(** A handler that emits nothing. *)
Fixpoint silent {Db Ev R} (h : Handler Db Ev R) : Prop :=
  match h with
  | Return _ => True
  | Statement f k => ∀ a, silent (k a)
  | Emit _ _ => False
  end.

Lemma silent_bind {Db Ev A B} (h : Handler Db Ev A) (k : A → Handler Db Ev B) :
  silent h → (∀ a, silent (k a)) → silent (h ≫= k).
Proof. intros Hh Hk. induction h as [a|X f c IH|e h IH]; simpl; [apply Hk| |done]. intros a. by apply IH. Qed.

Lemma silent_runs {Db Ev R} (env : relation Db) (h : Handler Db Ev R) d r d' es :
  silent h → runs env h d r d' es → es = [].
Proof.
  revert d es. induction h as [a|A f k IH|e h IH]; intros d es; simpl; [by intros _ (_ & _ & ->)| |done].
  intros Hk (d1 & _ & Hr). by eapply IH.
Qed.

(** ** Which events a handler emits, and how many *)

Section Emits.
Context {Db Ev : Type}.

Fixpoint emits {R} (P : Ev → Prop) (h : Handler Db Ev R) : Prop :=
  match h with
  | Return _ => True
  | Statement f k => ∀ a, emits P (k a)
  | Emit e h' => P e ∧ emits P h'
  end.
Fixpoint at_most {R} (n : nat) (h : Handler Db Ev R) : Prop :=
  match h with
  | Return _ => True
  | Statement f k => ∀ a, at_most n (k a)
  | Emit _ h' => match n with O => False | S m => at_most m h' end
  end.

Lemma emits_bind {A B} P (h : Handler Db Ev A) (k : A → Handler Db Ev B) :
  emits P h → (∀ a, emits P (k a)) → emits P (h ≫= k).
Proof. intros Hh Hk. induction h as [a|X f c IH|e h IH]; simpl in *; naive_solver. Qed.

Lemma at_most_weaken {R} n m (h : Handler Db Ev R) : n ≤ m → at_most n h → at_most m h.
Proof.
  revert n m. induction h as [r|X f c IH|e h IH]; intros n m Hnm; simpl; [done|eauto|].
  destruct n as [|n]; [done|]. destruct m as [|m]; [lia|]. apply IH. lia.
Qed.


Lemma at_most_bind {A B} n m (h : Handler Db Ev A) (k : A → Handler Db Ev B) :
  at_most n h → (∀ a, at_most m (k a)) → at_most (n + m) (h ≫= k).
Proof.
  intros Hh Hk. revert n Hh. induction h as [a|X f c IH|e h IH]; intros n Hh; simpl in *.
  - apply (at_most_weaken m); [lia|apply Hk].
  - intros a. by apply IH.
  - destruct n as [|n]; [done|]. by apply IH.
Qed.

Lemma emits_runs {R} (env : relation Db) P (h : Handler Db Ev R) d r d' es :
  emits P h → runs env h d r d' es → Forall P es.
Proof.
  revert d es. induction h as [a|X f c IH|e h IH]; intros d es; simpl.
  - by intros _ (_ & _ & ->).
  - intros Hk (d1 & _ & Hr). by eapply IH.
  - intros [He Hh] (es' & -> & Hr). constructor; [done|]. by eapply IH.
Qed.

Lemma at_most_runs {R} (env : relation Db) n (h : Handler Db Ev R) d r d' es :
  at_most n h → runs env h d r d' es → length es ≤ n.
Proof.
  revert n d es. induction h as [a|X f c IH|e h IH]; intros n d es; simpl.
  - intros _ (_ & _ & ->). simpl. lia.
  - intros Hk (d1 & _ & Hr). by eapply IH.
  - destruct n as [|n]; [done|]. intros Hh (es' & -> & Hr). simpl. apply le_n_S. by eapply IH.
Qed.
End Emits.

(** ** Statements that keep an invariant *)

Section Under.
Context {Db Ev : Type} (env : relation Db) (I : Db → Prop).
Context (env_I : ∀ d d', env d d' → I d → I d').

(** As [obeys], where a statement may count on the invariant and what follows it on the value
    the statement returned. *)
Fixpoint obeys_under {R} (h : Handler Db Ev R) : Prop :=
  match h with
  | Return _ => True
  | Statement f k => ∀ d, I d → rtc env d (f d).2 ∧ obeys_under (k (f d).1)
  | Emit _ h' => obeys_under h'
  end.

Lemma rtc_under d d' : rtc env d d' → I d → I d'.
Proof. induction 1; eauto. Qed.

Lemma runs_under {R} (h : Handler Db Ev R) d r d' es :
  runs env h d r d' es → obeys_under h → I d → rtc env d d'.
Proof.
  revert d es. induction h as [a|A f k IH|e h IH]; intros d es; simpl.
  - by intros (_ & -> & _).
  - intros (d1 & Hs & Hr) Ho HI. pose proof (rtc_under _ _ Hs HI) as HI1.
    destruct (Ho d1 HI1) as [Hf Hk]. etrans; [exact Hs|]. etrans; [exact Hf|].
    eapply IH; [exact Hr|exact Hk|]. by eapply rtc_under.
  - intros (es' & _ & Hr). by eapply IH.
Qed.

Lemma under_bind {A B} (h : Handler Db Ev A) (k : A → Handler Db Ev B) :
  obeys_under h → (∀ a, obeys_under (k a)) → obeys_under (h ≫= k).
Proof.
  intros Hh Hk. induction h as [a|X f c IH|e h IH]; simpl; [apply Hk| |by apply IH].
  intros d Hd. destruct (Hh d Hd). split; [done|]. by apply IH.
Qed.

(** What follows a read may count on the value read. *)
Lemma under_query {A B} (f : Db → A) (k : A → Handler Db Ev B) :
  (∀ d, I d → obeys_under (k (f d))) → obeys_under (query f ≫= k).
Proof. intros Hk d Hd. split; [apply rtc_refl|by apply Hk]. Qed.

Lemma under_exec {A B} (f : Db → A * Db) (k : A → Handler Db Ev B) :
  (∀ d, I d → env d (f d).2 ∧ obeys_under (k (f d).1)) → obeys_under (exec f ≫= k).
Proof. intros Hk d Hd. destruct (Hk d Hd). split; [by apply rtc_once|done]. Qed.
End Under.
