(* ===== verification/RateLimit.v ===== *)
(** The database-backed request limiter ([crates/ui/web-api-auth/src/auth/rate_limit.rs]) and
    its OAuth endpoints ([crates/ui/web-api/src/oauth/rate_limit.rs]): one upsert counts the
    request, a read decides. Instants are in nanoseconds. *)

From stdpp Require Import base list gmap strings numbers sorting.
From S2P Require Import Prelude.
Local Open Scope Z_scope.

Module RateLimit.

Record Row := mkRow { request_count : Z; window_start : Instant; expires_at : Instant }.
Notation Table := (gmap string Row) (only parsing).

Inductive RateLimitOutcome := Allowed | Limited (retry_after_secs : Z).
#[global] Instance RateLimitOutcome_eq_dec : EqDecision RateLimitOutcome.
Proof. solve_decision. Defined.

(** What the upsert leaves for the key: a first row, one more request in the open window, or
    a window opened anew. *)
Definition count_request (now : Instant) (window_secs : Z) (row : option Row) : Row :=
  let threshold := now - secs window_secs in
  let expires := now + secs (window_secs * 2) in
  match row with
  | None => mkRow 1 now expires
  | Some r =>
      if threshold <=? window_start r
      then mkRow (request_count r + 1) (window_start r) expires
      else mkRow 1 now expires
  end.

Definition upsert (now : Instant) (key : string) (window_secs : Z) (t : Table) : Table :=
  <[key := count_request now window_secs (t !! key)]> t.

(** The read-back. *)
Definition outcome (now : Instant) (max_requests window_secs : Z) (row : option Row) : RateLimitOutcome :=
  match row with
  | Some r =>
      if max_requests <? request_count r
      then Limited (Z.max (Z.quot (window_start r + secs window_secs - now) 1000000000) 1)
      else Allowed
  | None => Allowed
  end.

(** [check_rate_limit] with no other request between its two statements. *)
Definition check_rate_limit (now : Instant) (key : string) (max_requests window_secs : Z) (t : Table)
    : RateLimitOutcome * Table :=
  let t' := upsert now key window_secs t in (outcome now max_requests window_secs (t' !! key), t').

Definition cleanup_expired (now : Instant) (t : Table) : Table :=
  filter (λ kv : string * Row, ¬ (expires_at kv.2 < now)) t.

(** ** OAuth endpoints *)

Inductive EndpointKind := Dcr | Authorize | Token | Consent | McpAuthFail | CimdFetch.
#[global] Instance EndpointKind_eq_dec : EqDecision EndpointKind.
Proof. solve_decision. Defined.

Definition settings_key (e : EndpointKind) : string :=
  match e with
  | Dcr => "oauth.rate.dcr_per_hour" | Authorize => "oauth.rate.authorize_per_min"
  | Token => "oauth.rate.token_per_min" | Consent => "oauth.rate.consent_per_min"
  | McpAuthFail => "oauth.rate.mcp_auth_fail_per_min" | CimdFetch => "oauth.rate.cimd_per_min"
  end.
Definition default_per_window (e : EndpointKind) : Z :=
  match e with
  | Dcr => 10 | Authorize => 60 | Token => 60 | Consent => 60 | McpAuthFail => 30 | CimdFetch => 5
  end.
Definition window_secs_of (e : EndpointKind) : Z := match e with Dcr => 3600 | _ => 60 end.
Definition bucket_label (e : EndpointKind) : string :=
  match e with
  | Dcr => "oauth:dcr" | Authorize => "oauth:authorize" | Token => "oauth:token"
  | Consent => "oauth:consent" | McpAuthFail => "oauth:mcp_auth_fail"
  | CimdFetch => "oauth:cimd_fetch"
  end.
Definition endpoint_key (e : EndpointKind) (client_ip : string) : string :=
  bucket_label e +:+ ":" +:+ client_ip.

(** ** What a window admits *)

(** The checks of one key at the given times: those that were allowed. *)
Fixpoint allowed_at (max w : Z) (row : option Row) (ts : list Instant) : list Instant :=
  match ts with
  | [] => []
  | t :: ts' =>
      let r := count_request t w row in
      match outcome t max w (Some r) with
      | Allowed => t :: allowed_at max w (Some r) ts'
      | Limited _ => allowed_at max w (Some r) ts'
      end
  end.

(** The times of a list inside [[a, a + w]]. *)
Definition within (a w : Z) (ts : list Instant) : list Instant :=
  filter (λ t, a ≤ t ∧ t ≤ a + secs w) ts.

Definition in_order (ts : list Instant) : Prop := StronglySorted Z.le ts.

(** One step of [allowed_at]: the check is allowed exactly when its count is in bounds. *)
Lemma allowed_at_cons max w row t ts :
  let r := count_request t w row in
  allowed_at max w row (t :: ts)
  = (if max <? request_count r then [] else [t]) ++ allowed_at max w (Some r) ts.
Proof. simpl. by destruct (max <? _). Qed.

Lemma count_request_cases now w row :
  (∃ r, row = Some r ∧ now - secs w ≤ window_start r ∧
        request_count (count_request now w row) = request_count r + 1 ∧
        window_start (count_request now w row) = window_start r) ∨
  (request_count (count_request now w row) = 1 ∧ window_start (count_request now w row) = now ∧
   ∀ r, row = Some r → window_start r < now - secs w).
Proof.
  unfold count_request. destruct row as [r|]; [|by right].
  destruct (Z.leb_spec (now - secs w) (window_start r)); [left; by exists r|right].
  split_and!; [done|done|]. intros r' [= <-]. lia.
Qed.

Lemma allowed_at_sub max w row ts t : t ∈ allowed_at max w row ts → t ∈ ts.
Proof.
  revert row. induction ts as [|u ts IH]; intros row; [done|].
  rewrite allowed_at_cons. intros [Hu|Ht%IH]%elem_of_app; [|by right].
  destruct (_ <? _); [by apply not_elem_of_nil in Hu|]. apply list_elem_of_singleton in Hu.
  subst. by left.
Qed.

(** Nothing after the interval counts. *)
Lemma within_past max w a row ts :
  Forall (λ t, a + secs w < t) ts → within a w (allowed_at max w row ts) = [].
Proof.
  intros Hts. apply elem_of_nil_inv. intros t [[_ Ht] Hin%allowed_at_sub]%list_elem_of_filter.
  rewrite Forall_forall in Hts. specialize (Hts t Hin). lia.
Qed.

Lemma length_within_app a w l1 l2 :
  length (within a w (l1 ++ l2)) = (length (within a w l1) + length (within a w l2))%nat.
Proof. unfold within. by rewrite filter_app, length_app. Qed.

(** A check the interval may count, and the limit lets through at most once. *)
Lemma within_one (max w a t c : Z) :
  (length (within a w (if (max <? c)%Z then [] else [t])) ≤ if (max <? c)%Z then 0 else 1)%nat.
Proof.
  destruct (max <? c); [done|]. unfold within. rewrite filter_cons.
  destruct (decide _); simpl; lia.
Qed.

Lemma in_order_cons t ts :
  in_order (t :: ts) → in_order ts ∧ Forall (λ u, t ≤ u) ts.
Proof. intros [? ?]%StronglySorted_inv. done. Qed.

(** Once a window opens at or after [a], the interval [[a, a + w]] sees only that window. *)
Lemma within_same_window max w a (r : Row) ts :
  0 ≤ w → a ≤ window_start r → in_order ts →
  Z.of_nat (length (within a w (allowed_at max w (Some r) ts))) ≤ Z.max 0 (max - request_count r).
Proof.
  intros Hw. revert r. induction ts as [|t ts IH]; intros r Ha Hord; [simpl; lia|].
  apply in_order_cons in Hord as [Hord Hall].
  destruct (count_request_cases t w (Some r)) as [(r' & [= <-] & Ht & Hc & Hs)|(Hc & Hs & Hold)].
  - rewrite allowed_at_cons, length_within_app.
    pose proof (within_one max w a t (request_count (count_request t w (Some r)))) as H1.
    assert (a ≤ window_start (count_request t w (Some r))) as Ha' by lia.
    specialize (IH _ Ha' Hord). rewrite Hc in IH, H1 |- *.
    destruct (Z.ltb_spec max (request_count r + 1)); lia.
  - specialize (Hold r eq_refl). rewrite within_past; [simpl; lia|].
    constructor; [lia|]. eapply Forall_impl; [exact Hall|]. simpl. lia.
Qed.

(** From any row, once the interval has begun: the rest of the old window and one new one. *)
Lemma within_begun max w a row ts :
  0 ≤ w → 0 ≤ max → in_order ts → Forall (λ t, a ≤ t) ts →
  Z.of_nat (length (within a w (allowed_at max w row ts)))
  ≤ max + Z.max 0 (max - default 0 (request_count <$> row)).
Proof.
  intros Hw Hmax. revert row. induction ts as [|t ts IH]; intros row Hord Hge; [simpl; lia|].
  apply in_order_cons in Hord as [Hord _]. inversion_clear Hge as [|? ? Hat Hge'].
  rewrite allowed_at_cons, length_within_app.
  pose proof (within_one max w a t (request_count (count_request t w row))) as H1.
  destruct (count_request_cases t w row) as [(r & -> & Ht & Hc & Hs)|(Hc & Hs & Hold)].
  - specialize (IH (Some (count_request t w (Some r))) Hord Hge').
    cbn [fmap option_fmap option_map default from_option id] in IH |- *.
    rewrite Hc in IH, H1 |- *. destruct (Z.ltb_spec max (request_count r + 1)); lia.
  - pose proof (within_same_window max w a (count_request t w row) ts Hw) as H2.
    rewrite Hs, Hc in H2. specialize (H2 Hat Hord). rewrite Hc in H1 |- *.
    destruct (Z.ltb_spec max 1); lia.
Qed.

(** No stretch of one window length, wherever it starts and whatever the row was, sees more
    than twice the limit. *)
Lemma within_twice max w a row ts :
  0 ≤ w → 0 ≤ max → (∀ r, row = Some r → 0 ≤ request_count r) → in_order ts →
  Z.of_nat (length (within a w (allowed_at max w row ts))) ≤ 2 * max.
Proof.
  intros Hw Hmax. revert row. induction ts as [|t ts IH]; intros row Hrow Hord; [simpl; lia|].
  destruct (Z.le_gt_cases a t) as [Hat|Hat].
  - etrans; [apply within_begun; try done|].
    + apply in_order_cons in Hord as [_ Hall]. constructor; [done|].
      eapply Forall_impl; [exact Hall|]. simpl. lia.
    + destruct row as [r|]; simpl; [specialize (Hrow r eq_refl)|]; lia.
  - rewrite allowed_at_cons, length_within_app.
    assert (length (within a w (if max <? request_count (count_request t w row) then [] else [t]))
            = 0%nat) as ->.
    { destruct (_ <? _); [done|]. unfold within. rewrite filter_cons.
      destruct (decide _); [lia|done]. }
    apply IH; [|by apply in_order_cons in Hord as [? _]]. intros r [= <-].
    destruct (count_request_cases t w row) as [(r & -> & _ & Hc & _)|(Hc & _)]; rewrite Hc; [|lia].
    specialize (Hrow r eq_refl). lia.
Qed.

(** over any history of checks of one key, in the order of their clock readings and from
    any row already stored, no stretch of time of one window's length, wherever it starts,
    contains more than twice [max_requests] allowed requests; and inside one window the limit
    is exact, the first [max_requests] requests of a fresh key within one window being
    allowed and all later ones of that window refused. *)
Theorem rate_limit_bounds (max w a : Z) (row : option Row) (ts : list Instant) (t0 : Instant) :
  0 ≤ w → 0 ≤ max → (∀ r, row = Some r → 0 ≤ request_count r) → in_order ts →
  Z.of_nat (length (within a w (allowed_at max w row ts))) ≤ 2 * max ∧
  (in_order (t0 :: ts) → Forall (λ t, t ≤ t0 + secs w) ts →
   allowed_at max w None (t0 :: ts) = take (Z.to_nat max) (t0 :: ts)).
Proof.
  intros Hw Hmax Hrow Hord. split; [by apply within_twice|]. intros _ Hin.
  assert (∀ c, 1 ≤ c → ∀ e ts', Forall (λ t, t ≤ t0 + secs w) ts' →
    allowed_at max w (Some (mkRow c t0 e)) ts' = take (Z.to_nat (max - c)) ts') as Hgen.
  { clear -Hmax. intros c Hc e ts'. revert c Hc e.
    induction ts' as [|t ts' IH]; intros c Hc e Hin; [by rewrite take_nil|].
    inversion_clear Hin as [|? ? Ht Hin']. rewrite allowed_at_cons.
    unfold count_request. simpl. rewrite (proj2 (Z.leb_le _ _)) by lia. simpl.
    rewrite IH by (done || lia). destruct (Z.ltb_spec max (c + 1)) as [Hlt|Hlt]; simpl.
    - by replace (Z.to_nat (max - (c + 1))) with 0%nat by lia;
        replace (Z.to_nat (max - c)) with 0%nat by lia.
    - by replace (Z.to_nat (max - c)) with (S (Z.to_nat (max - (c + 1)))) by lia. }
  rewrite allowed_at_cons. simpl. rewrite Hgen by (done || lia).
  destruct (Z.ltb_spec max 1); simpl.
  - by replace (Z.to_nat (max - 1)) with 0%nat by lia; replace (Z.to_nat max) with 0%nat by lia.
  - by replace (Z.to_nat max) with (S (Z.to_nat (max - 1))) by lia.
Qed.

(** Two requests a minute: the third inside the window is refused, and the two at its end and
    the two after it all fall within one minute. *)
Lemma rate_limit_bounds_witness :
  let ts := [secs 50; secs 59; secs 61; secs 62; secs 63] in
  Z.of_nat (length (within (secs 50) 60 (allowed_at 2 60 (Some (mkRow 0 0 (secs 120))) ts))) ≤ 2 * 2 ∧
  allowed_at 2 60 None (0 :: [secs 50; secs 60]) = [0; secs 50] ∧
  length (within (secs 50) 60 (allowed_at 2 60 (Some (mkRow 0 0 (secs 120))) ts)) = 4%nat.
Proof.
  intros ts. split_and!.
  - apply (rate_limit_bounds 2 60 (secs 50) (Some (mkRow 0 0 (secs 120))) ts 0); [lia|lia| |].
    + intros r [= <-]. done.
    + unfold ts, in_order. repeat constructor; by vm_compute.
  - apply (rate_limit_bounds 2 60 0 None [secs 50; secs 60] 0); [lia|lia|done| | |];
      unfold in_order; repeat constructor; by vm_compute.
  - reflexivity.
Defined.

(** A refused request is told to wait at least a second and never longer than the window. *)
Lemma retry_after_in_window now max w r n :
  window_start r ≤ now → 1 ≤ w → outcome now max w (Some r) = Limited n → 1 ≤ n ≤ w.
Proof.
  simpl. destruct (_ <? _); [|done]. intros Hs Hw [= <-].
  assert (Z.quot (window_start r + secs w - now) 1000000000 ≤ w).
  { unfold secs. destruct (Z.le_gt_cases 0 (window_start r + w * 1000000000 - now)).
    - rewrite Z.quot_div_nonneg by lia. apply Z.div_le_upper_bound; lia.
    - assert (Z.quot (window_start r + w * 1000000000 - now) 1000000000 ≤ Z.quot 0 1000000000)
        by (apply Z.quot_le_mono; lia).
      change (Z.quot 0 1000000000) with 0 in *. lia. }
  lia.
Qed.

End RateLimit.
