(* ===== verification/OAuthStore.v ===== *)
(** The OAuth 2.1 authorization server's stored state and the services over it
    ([crates/ui/web-api/src/oauth/services/], [pkce.rs], [jwt.rs], [cimd.rs] and the entities
    of [crates/shared/db/src/entity/oauth_*.rs]): clients, authorization requests,
    authorization codes, consents and refresh tokens. Each SQL statement and each immediate
    transaction is one function of the database. Instants are in nanoseconds; the ids and
    random bytes an operation draws are arguments. *)

From Stdlib Require Import Ascii.
From stdpp Require Import base list gmap sets strings numbers.
From S2P Require Import Prelude RustStr Hex RateLimit Handlers.
Local Open Scope Z_scope.

Module OAuth.

(** ** Rows *)

(** The cached metadata document of a client whose id is its URL. *)
Record Metadata := mkMetadata {
  metadata_cached_at : option Instant; metadata_etag : option string;
  metadata_content_hash : option string; metadata_raw : option string;
  metadata_parse_error : option string; metadata_parse_error_at : option Instant }.

(** What a client registers about itself; the three lists are JSON texts. *)
Record Registration := mkRegistration {
  client_name : string; client_uri : option string; logo_uri : option string;
  redirect_uris : string; default_scope : string; grant_types : string;
  response_types : string; token_endpoint_auth_method : string }.

Record Client := mkClient {
  registration : Registration; registration_access_token_hash : option string;
  created_via : string; c_created_at : Instant; c_revoked_at : option Instant;
  trusted_at : option Instant; metadata : Metadata }.

Record AuthRequest := mkRequest {
  ar_client_id : string; ar_user_id : Uuid; ar_redirect_uri : string; ar_scope : string;
  ar_state : string; ar_code_challenge : string; ar_code_challenge_method : string;
  ar_resource : string; ar_created_at : Instant; ar_expires_at : Instant;
  ar_consumed_at : option Instant }.

Record Code := mkCode {
  code_hash : string; request_id : Uuid; co_client_id : string; co_user_id : Uuid;
  co_redirect_uri : string; co_scope : string; code_challenge : string;
  code_challenge_method : string; co_resource : string; co_issued_at : Instant;
  co_expires_at : Instant; consumed_at : option Instant }.

Record ConsentRow := mkConsent {
  cs_user_id : Uuid; cs_client_id : string; scopes : string;
  cimd_content_hash_at_grant : option string; revalidation_required_at : option Instant;
  granted_at : Instant; cs_revoked_at : option Instant }.

Record Refresh := mkRefresh {
  family_id : Uuid; parent_id : option Uuid; token_hash : string; rt_client_id : string;
  rt_user_id : Uuid; rt_consent_id : Uuid; rt_scope : string; rt_resource : string;
  issued_at : Instant; expires_at : Instant; family_expires_at : Instant;
  rotated_at : option Instant; revoked_at : option Instant }.

(** The tables the server reads and writes, and the clock it reads. [user_roles] are the role
    assignments (user, tenant) in the order a scan returns them. *)
Record Db := mkDb {
  clients : gmap string Client; requests : gmap Uuid AuthRequest; codes : gmap Uuid Code;
  consents : gmap Uuid ConsentRow; refresh_tokens : gmap Uuid Refresh;
  user_roles : list (Uuid * Uuid); tenants : gset Uuid;
  rate_limits : gmap string RateLimit.Row; clock : Instant }.

Definition set_clients x (d : Db) : Db :=
  mkDb x (requests d) (codes d) (consents d) (refresh_tokens d) (user_roles d) (tenants d) (rate_limits d) (clock d).
Definition set_requests x (d : Db) : Db :=
  mkDb (clients d) x (codes d) (consents d) (refresh_tokens d) (user_roles d) (tenants d) (rate_limits d) (clock d).
Definition set_codes x (d : Db) : Db :=
  mkDb (clients d) (requests d) x (consents d) (refresh_tokens d) (user_roles d) (tenants d) (rate_limits d) (clock d).
Definition set_consents x (d : Db) : Db :=
  mkDb (clients d) (requests d) (codes d) x (refresh_tokens d) (user_roles d) (tenants d) (rate_limits d) (clock d).
Definition set_refresh_tokens x (d : Db) : Db :=
  mkDb (clients d) (requests d) (codes d) (consents d) x (user_roles d) (tenants d) (rate_limits d) (clock d).
Definition set_rate_limits x (d : Db) : Db :=
  mkDb (clients d) (requests d) (codes d) (consents d) (refresh_tokens d) (user_roles d) (tenants d) x (clock d).
Definition set_clock x (d : Db) : Db :=
  mkDb (clients d) (requests d) (codes d) (consents d) (refresh_tokens d) (user_roles d) (tenants d) (rate_limits d) x.

(** ** SQL *)

Inductive DbErr := UniqueViolation | NoTenantForUser (u : Uuid).
#[global] Instance DbErr_eq_dec : EqDecision DbErr.
Proof. solve_decision. Defined.

(** [find().filter(..).one()]: some row that satisfies the filter, if there is one. *)
Definition find_one `{Countable K} {A} (P : K → A → bool) (m : gmap K A) : option (K * A) :=
  head (map_to_list (filter (λ kv : K * A, P kv.1 kv.2 = true) m)).

(** [update_many().filter(..).col_expr(..)]. *)
Definition update_where `{Countable K} {A} (P : K → A → bool) (f : A → A) (m : gmap K A) : gmap K A :=
  map_imap (λ k a, Some (if P k a then f a else a)) m.

(** The number of rows a filter selects. *)
Definition count_where `{Countable K} {A} (P : K → A → bool) (m : gmap K A) : nat :=
  size (filter (λ kv : K * A, P kv.1 kv.2 = true) m).

Definition none {A} (o : option A) : bool := match o with None => true | Some _ => false end.

(** ** What the server relies on *)

(** [url::Url], as far as the code looks into it. *)
Record Url := mkUrl { scheme : string; host_str : option string; path : string; url_query : option string }.

(** The claims of an access token. *)
Record McpAccessTokenClaims := mkClaims {
  iss : string; sub : string; aud : string; cl_client_id : string; cl_scope : string;
  jti : string; iat : Z; nbf : Z; exp : Z; cl_tenant_id : string }.

(** Third-party code: hashing, base64url, the URL parser, JSON texts of string lists, percent
    encoding, JWT signing, the text of a UUID; and the UUID generator, which never repeats an
    id in use. *)
Class Env := {
  sha256 : string → string;
  b64url : string → string;
  url_parse : string → option Url;
  strings_to_json : list string → string;
  strings_of_json : string → option (list string);
  percent_encode : string → string;
  sign : McpAccessTokenClaims → Result string string;
  uuid_text : Uuid → string;
  fresh_uuid : gset Uuid → Uuid;
  fresh_uuid_new : ∀ X, fresh_uuid X ∉ X;
}.

(** Audit events the server emits (their actor, target and detail texts are left out). *)
Inductive AuditAction :=
| OAUTH_TOKEN_ISSUED (user : Uuid) (client scope audience : string)
| OAUTH_TOKEN_REJECTED (client reason : string)
| OAUTH_REFRESH_ROTATED (user : Uuid) (client : string) (family : Uuid)
| OAUTH_REFRESH_REPLAY_DETECTED (user : Uuid) (client : string) (family : Uuid)
| OAUTH_CLIENT_REGISTERED (client : string)
| OAUTH_CLIENT_REGISTRATION_RATE_LIMITED
| OAUTH_CLIENT_REVOKED (client : string)
| OAUTH_CLIENT_TRUSTED (client : string)
| OAUTH_CONSENT_GRANT (user : Uuid) (client : string)
| OAUTH_CONSENT_DENY (user : Uuid) (client : string)
| OAUTH_CONSENT_REVOKE (consent : Uuid)
| OAUTH_CLIENT_FIRST_USE (client : string)
| OAUTH_CLIENT_METADATA_REFRESHED (client : string)
| OAUTH_CLIENT_METADATA_CHANGED_MATERIALLY (client : string)
| OAUTH_CIMD_PARSE_FAILED (client error : string).

Notation Server := (Handler Db AuditAction).

Section Services.
Context {E : Env}.

Definition hash_token (t : string) : string := Hex.encode (sha256 t).
Definition now : Server Instant := query clock.

(** [OffsetDateTime::unix_timestamp]. *)
Definition unix_timestamp (t : Instant) : Z := t / 1000000000.

(** ** PKCE *)

Definition pkce_verify (expected_challenge code_verifier : string) : bool :=
  bool_decide (b64url (sha256 code_verifier) = expected_challenge).

(** ** Authorization requests *)

Definition REQUEST_TTL_SECONDS : Z := 600.

Record CreateAuthorizationRequest := mkCreate {
  n_client_id : string; n_user_id : Uuid; n_redirect_uri : string; n_scope : string;
  n_state : string; n_code_challenge : string; n_code_challenge_method : string;
  n_resource : string }.

Definition new_request (t : Instant) (p : CreateAuthorizationRequest) : AuthRequest :=
  mkRequest (n_client_id p) (n_user_id p) (n_redirect_uri p) (n_scope p) (n_state p)
    (n_code_challenge p) (n_code_challenge_method p) (n_resource p) t
    (t + secs REQUEST_TTL_SECONDS) None.

Definition insert_request (id : Uuid) (r : AuthRequest) (d : Db) : Result DbErr unit * Db :=
  if none (requests d !! id) then (Ok tt, set_requests (<[id := r]> (requests d)) d)
  else (Err UniqueViolation, d).

Definition create_request (id : Uuid) (p : CreateAuthorizationRequest) : Server (Result DbErr Uuid) :=
  t ← now;
  r ← exec (insert_request id (new_request t p));
  mret (result_map (λ _, id) r).

Definition consume_request_row (t : Instant) (r : AuthRequest) : AuthRequest :=
  mkRequest (ar_client_id r) (ar_user_id r) (ar_redirect_uri r) (ar_scope r) (ar_state r)
    (ar_code_challenge r) (ar_code_challenge_method r) (ar_resource r) (ar_created_at r)
    (ar_expires_at r) (Some t).

(** The transaction of [consume]: the row as it was, once. *)
Definition consume_request_txn (t : Instant) (id : Uuid) (d : Db) : option AuthRequest * Db :=
  match requests d !! id with
  | None => (None, d)
  | Some r =>
      if negb (none (ar_consumed_at r)) || (ar_expires_at r <=? t) then (None, d)
      else (Some r, set_requests (<[id := consume_request_row t r]> (requests d)) d)
  end.

Definition consume_request (id : Uuid) : Server (option AuthRequest) :=
  t ← now; exec (consume_request_txn t id).

(** ** Authorization codes *)

Definition CODE_TTL_SECONDS : Z := 30.

Inductive OAuthCodeError :=
| CodeInvalidGrant (reason : string)
| CodeInvalidTarget
| CodeDatabase (e : DbErr).
#[global] Instance OAuthCodeError_eq_dec : EqDecision OAuthCodeError.
Proof. solve_decision. Defined.

Record MintAuthorizationCode := mkMint {
  m_request_id : Uuid; m_client_id : string; m_user_id : Uuid; m_redirect_uri : string;
  m_scope : string; m_code_challenge : string; m_code_challenge_method : string;
  m_resource : string }.

Definition code_text (bytes : string) : string := "upc_" +:+ b64url bytes.

Definition new_code (t : Instant) (bytes : string) (p : MintAuthorizationCode) : Code :=
  mkCode (hash_token (code_text bytes)) (m_request_id p) (m_client_id p) (m_user_id p)
    (m_redirect_uri p) (m_scope p) (m_code_challenge p) (m_code_challenge_method p)
    (m_resource p) t (t + secs CODE_TTL_SECONDS) None.

Definition code_by_hash (h : string) (d : Db) : option (Uuid * Code) :=
  find_one (λ _ c, bool_decide (code_hash c = h)) (codes d).

(** The primary key and the unique column. *)
Definition insert_code (id : Uuid) (c : Code) (d : Db) : Result DbErr unit * Db :=
  if none (codes d !! id) && none (code_by_hash (code_hash c) d)
  then (Ok tt, set_codes (<[id := c]> (codes d)) d)
  else (Err UniqueViolation, d).

Definition mint_code (id : Uuid) (bytes : string) (p : MintAuthorizationCode)
    : Server (Result OAuthCodeError string) :=
  t ← now;
  r ← exec (insert_code id (new_code t bytes p));
  mret (map_err CodeDatabase (result_map (λ _, code_text bytes) r)).

Definition consume_code_row (t : Instant) (c : Code) : Code :=
  mkCode (code_hash c) (request_id c) (co_client_id c) (co_user_id c) (co_redirect_uri c)
    (co_scope c) (code_challenge c) (code_challenge_method c) (co_resource c)
    (co_issued_at c) (co_expires_at c) (Some t).

(** The checks on the row of a presented code, in their order. *)
Definition check_code (t : Instant) (c : Code) (client_id redirect_uri code_verifier resource : string)
    : Result OAuthCodeError unit :=
  if negb (none (consumed_at c)) then Err (CodeInvalidGrant "code_already_used")
  else if co_expires_at c <=? t then Err (CodeInvalidGrant "code_expired")
  else if negb (bool_decide (co_client_id c = client_id)) then Err (CodeInvalidGrant "client_mismatch")
  else if negb (bool_decide (co_redirect_uri c = redirect_uri))
       then Err (CodeInvalidGrant "redirect_uri_mismatch")
  else if negb (bool_decide (co_resource c = resource)) then Err CodeInvalidTarget
  else if negb (pkce_verify (code_challenge c) code_verifier) then Err (CodeInvalidGrant "pkce_mismatch")
  else Ok tt.

Definition verify_and_consume_txn (t : Instant) (code client_id redirect_uri code_verifier resource : string)
    (d : Db) : Result OAuthCodeError Code * Db :=
  match code_by_hash (hash_token code) d with
  | None => (Err (CodeInvalidGrant "code_not_found"), d)
  | Some (id, c) =>
      match check_code t c client_id redirect_uri code_verifier resource with
      | Err e => (Err e, d)
      | Ok _ => (Ok c, set_codes (<[id := consume_code_row t c]> (codes d)) d)
      end
  end.

Definition verify_and_consume (code client_id redirect_uri code_verifier resource : string)
    : Server (Result OAuthCodeError Code) :=
  t ← now; exec (verify_and_consume_txn t code client_id redirect_uri code_verifier resource).

(** ** Consents *)

Definition active_consent (u : Uuid) (c : string) : Uuid → ConsentRow → bool :=
  λ _ r, bool_decide (cs_user_id r = u) && bool_decide (cs_client_id r = c) && none (cs_revoked_at r).

Definition find_consent (u : Uuid) (c : string) (d : Db) : option (Uuid * ConsentRow) :=
  find_one (active_consent u c) (consents d).

(** Every scope of [s2] is one of [s1]. *)
Definition scope_covers (s1 s2 : string) : bool :=
  forallb (λ s, bool_decide (s ∈ split_whitespace s1)) (split_whitespace s2).

Definition should_skip_prompt (u : Uuid) (client_id requested_scope : string) : Server bool :=
  trusted ← query (λ d, match clients d !! client_id with
                        | Some c => negb (none (trusted_at c))
                        | None => false
                        end);
  if negb trusted then mret false
  else
    row ← query (find_consent u client_id);
    mret match row with
         | None => false
         | Some (_, r) =>
             if negb (none (revalidation_required_at r)) then false
             else scope_covers (scopes r) requested_scope
         end.

Definition regrant (t : Instant) (s : string) (h : option string) (r : ConsentRow) : ConsentRow :=
  mkConsent (cs_user_id r) (cs_client_id r) s h None t (cs_revoked_at r).

Definition update_consent (id : Uuid) (f : ConsentRow → ConsentRow) (d : Db) : unit * Db :=
  (tt, set_consents (alter f id (consents d)) d).

(** The primary key, and the index that allows one active consent per user and client. *)
Definition insert_consent (id : Uuid) (r : ConsentRow) (d : Db) : Result DbErr unit * Db :=
  if none (consents d !! id)
     && (negb (none (cs_revoked_at r)) || none (find_consent (cs_user_id r) (cs_client_id r) d))
  then (Ok tt, set_consents (<[id := r]> (consents d)) d)
  else (Err UniqueViolation, d).

Definition grant (id : Uuid) (u : Uuid) (client_id s : string) (h : option string)
    : Server (Result DbErr Uuid) :=
  t ← now;
  existing ← query (find_consent u client_id);
  match existing with
  | Some (cid, _) =>
      _ ← exec (update_consent cid (regrant t s h)); mret (Ok cid)
  | None =>
      r ← exec (insert_consent id (mkConsent u client_id s h None t None));
      mret (result_map (λ _, id) r)
  end.

Definition revoke_consent_row (t : Instant) (r : ConsentRow) : ConsentRow :=
  mkConsent (cs_user_id r) (cs_client_id r) (scopes r) (cimd_content_hash_at_grant r)
    (revalidation_required_at r) (granted_at r) (Some t).

Definition revoke_refresh_row (t : Instant) (r : Refresh) : Refresh :=
  mkRefresh (family_id r) (parent_id r) (token_hash r) (rt_client_id r) (rt_user_id r)
    (rt_consent_id r) (rt_scope r) (rt_resource r) (issued_at r) (expires_at r)
    (family_expires_at r) (rotated_at r) (Some t).

(** [update oauth_refresh_tokens set revoked_at = t where P and revoked_at is null]. *)
Definition revoke_refresh_where (t : Instant) (P : Refresh → bool) (d : Db) : Db :=
  set_refresh_tokens (update_where (λ _ r, P r && none (revoked_at r)) (revoke_refresh_row t)
                        (refresh_tokens d)) d.
Definition revoke_consents_where (t : Instant) (P : Uuid → ConsentRow → bool) (d : Db) : Db :=
  set_consents (update_where (λ k r, P k r && none (cs_revoked_at r)) (revoke_consent_row t)
                  (consents d)) d.

Inductive OAuthConsentError := ConsentNotFound.

(** The transaction of [OAuthConsentService::revoke]. *)
Definition revoke_consent_txn (t : Instant) (id u : Uuid) (d : Db) : Result OAuthConsentError unit * Db :=
  let P k r := bool_decide (k = id) && bool_decide (cs_user_id r = u) in
  if (count_where (λ k r, P k r && none (cs_revoked_at r)) (consents d) =? 0)%nat
  then (Err ConsentNotFound, d)
  else (Ok tt, revoke_refresh_where t (λ r, bool_decide (rt_consent_id r = id))
                 (revoke_consents_where t P d)).

Definition revoke_consent (id u : Uuid) : Server (Result OAuthConsentError unit) :=
  t ← now; exec (revoke_consent_txn t id u).

(** ** Refresh tokens *)

Inductive OAuthRefreshError :=
| InvalidGrant (reason : string)
| InvalidTarget
| InvalidScope
| ConsentRevoked
| Jwt (e : string)
| Database (e : DbErr).
#[local] Instance OAuthRefreshError_eq_dec : EqDecision OAuthRefreshError.
Proof. solve_decision. Defined.

Record RefreshService := mkService {
  issuer : string; access_token_ttl_secs : Z; refresh_token_ttl_secs : Z;
  refresh_family_max_ttl_secs : Z }.

Definition with_defaults (iss : string) : RefreshService := mkService iss 900 2592000 7776000.

Definition refresh_text (bytes : string) : string := "upr_" +:+ b64url bytes.

Definition refresh_by_hash (h : string) (d : Db) : option (Uuid * Refresh) :=
  find_one (λ _ r, bool_decide (token_hash r = h)) (refresh_tokens d).

Definition insert_refresh (id : Uuid) (r : Refresh) (d : Db) : Result DbErr unit * Db :=
  if none (refresh_tokens d !! id) && none (refresh_by_hash (token_hash r) d)
  then (Ok tt, set_refresh_tokens (<[id := r]> (refresh_tokens d)) d)
  else (Err UniqueViolation, d).

Record MintOutcome := mkMintOutcome {
  mo_refresh_token : string; mo_expires_in : Z; mo_family_expires_at : Instant }.

Definition first_refresh (svc : RefreshService) (t : Instant) (fam : Uuid) (bytes client_id : string)
    (u consent : Uuid) (scope resource : string) : Refresh :=
  mkRefresh fam None (hash_token (refresh_text bytes)) client_id u consent scope resource t
    (t + secs (refresh_token_ttl_secs svc)) (t + secs (refresh_family_max_ttl_secs svc)) None None.

(** The families in the store, and the insertion of a first token, which starts a new one. *)
Definition families (d : Db) : gset Uuid :=
  list_to_set ((λ kr : Uuid * Refresh, family_id kr.2) <$> map_to_list (refresh_tokens d)).
Definition insert_first (svc : RefreshService) (t : Instant) (id : Uuid) (bytes client_id : string)
    (u consent : Uuid) (scope resource : string) (d : Db) : Result DbErr unit * Db :=
  insert_refresh id (first_refresh svc t (fresh_uuid (families d)) bytes client_id u consent
                       scope resource) d.

Definition mint_refresh (svc : RefreshService) (id : Uuid) (bytes client_id : string)
    (u consent : Uuid) (scope resource : string) : Server (Result OAuthRefreshError MintOutcome) :=
  t ← now;
  r ← exec (insert_first svc t id bytes client_id u consent scope resource);
  mret (map_err Database (result_map (λ _,
    mkMintOutcome (refresh_text bytes) (refresh_token_ttl_secs svc)
      (t + secs (refresh_family_max_ttl_secs svc))) r)).

Definition revoke_family (t : Instant) (fam : Uuid) (d : Db) : Db :=
  revoke_refresh_where t (λ r, bool_decide (family_id r = fam)) d.

(** The first role assignment of the user whose tenant exists. *)
Definition lookup_user_tenant (u : Uuid) (d : Db) : Result DbErr Uuid :=
  match list_find (λ ur : Uuid * Uuid, ur.1 = u ∧ ur.2 ∈ tenants d) (user_roles d) with
  | Some (_, (_, t)) => Ok t
  | None => Err (NoTenantForUser u)
  end.

(** The scope check: what was asked for, if the row's scope covers it. *)
Definition effective_scope (bound : string) (requested : option string) : Result OAuthRefreshError string :=
  match requested with
  | Some req => if str_is_empty req then Ok bound
                else if scope_covers bound req then Ok req else Err InvalidScope
  | None => Ok bound
  end.

(** The checks on a row that is neither rotated nor revoked, in their order. *)
Definition check_refresh (t : Instant) (r : Refresh) (client_id : string) (requested : option string)
    (resource : string) (d : Db) : Result OAuthRefreshError string :=
  if expires_at r <=? t then Err (InvalidGrant "refresh_token_expired")
  else if family_expires_at r <=? t then Err (InvalidGrant "family_expired")
  else if negb (bool_decide (rt_client_id r = client_id)) then Err (InvalidGrant "client_mismatch")
  else if negb (bool_decide (rt_resource r = resource)) then Err InvalidTarget
  else
    scope ← effective_scope (rt_scope r) requested;
    match consents d !! rt_consent_id r with
    | Some c => if none (cs_revoked_at c) then Ok scope else Err ConsentRevoked
    | None => Err ConsentRevoked
    end.

Definition rotate_refresh_row (t : Instant) (r : Refresh) : Refresh :=
  mkRefresh (family_id r) (parent_id r) (token_hash r) (rt_client_id r) (rt_user_id r)
    (rt_consent_id r) (rt_scope r) (rt_resource r) (issued_at r) (expires_at r)
    (family_expires_at r) (Some t) (revoked_at r).

(** The row that replaces [r] in its family. *)
Definition next_refresh (svc : RefreshService) (t : Instant) (rid : Uuid) (r : Refresh)
    (bytes scope : string) : Refresh :=
  mkRefresh (family_id r) (Some rid) (hash_token (refresh_text bytes)) (rt_client_id r)
    (rt_user_id r) (rt_consent_id r) scope (rt_resource r) t
    (Z.min (t + secs (refresh_token_ttl_secs svc)) (family_expires_at r))
    (family_expires_at r) None None.

Record Rotated := mkRotated { old_row : Refresh; new_scope : string; new_expires_at : Instant; tenant : Uuid }.
Inductive RotateResult := Replay (r : Refresh) | Refused (e : OAuthRefreshError) | Rotation (x : Rotated).

(** The transaction of [rotate]: a replayed token revokes its family and commits that;
    every other refusal rolls back. *)
Definition rotate_txn (svc : RefreshService) (t : Instant) (token client_id : string)
    (requested : option string) (resource : string) (new_id : Uuid) (bytes : string) (d : Db)
    : RotateResult * Db :=
  match refresh_by_hash (hash_token token) d with
  | None => (Refused (InvalidGrant "token_not_found"), d)
  | Some (rid, r) =>
      if negb (none (revoked_at r)) || negb (none (rotated_at r))
      then (Replay r, revoke_family t (family_id r) d)
      else
        match check_refresh t r client_id requested resource d with
        | Err e => (Refused e, d)
        | Ok scope =>
            match insert_refresh new_id (next_refresh svc t rid r bytes scope) d with
            | (Err e, _) => (Refused (Database e), d)
            | (Ok _, d1) =>
                let d2 := set_refresh_tokens
                            (alter (rotate_refresh_row t) rid (refresh_tokens d1)) d1 in
                match lookup_user_tenant (rt_user_id r) d2 with
                | Err e => (Refused (Database e), d)
                | Ok tn => (Rotation (mkRotated r scope
                              (expires_at (next_refresh svc t rid r bytes scope)) tn), d2)
                end
            end
        end
  end.

Record RotationOutcome := mkRotationOutcome {
  access_token : string; ro_refresh_token : string; expires_in : Z; refresh_expires_in : Z;
  ro_scope : string }.

Definition access_claims (iss : string) (ttl : Z) (t : Instant) (u : Uuid) (jti_id tn : Uuid)
    (client_id scope resource : string) : McpAccessTokenClaims :=
  mkClaims iss (uuid_text u) resource client_id scope (uuid_text jti_id) (unix_timestamp t)
    (unix_timestamp t) (unix_timestamp t + ttl) (uuid_text tn).

Definition rotate (svc : RefreshService) (token client_id : string) (requested : option string)
    (resource : string) (new_id jti_id : Uuid) (bytes : string)
    : Server (Result OAuthRefreshError RotationOutcome) :=
  t ← now;
  res ← exec (rotate_txn svc t token client_id requested resource new_id bytes);
  match res with
  | Refused e => mret (Err e)
  | Replay r =>
      _ ← emit (OAUTH_REFRESH_REPLAY_DETECTED (rt_user_id r) (rt_client_id r) (family_id r));
      mret (Err (InvalidGrant "replay_detected"))
  | Rotation x =>
      let r := old_row x in
      match sign (access_claims (issuer svc) (access_token_ttl_secs svc) t (rt_user_id r) jti_id
                    (tenant x) (rt_client_id r) (new_scope x) resource) with
      | Err e => mret (Err (Jwt e))
      | Ok at_ =>
          _ ← emit (OAUTH_REFRESH_ROTATED (rt_user_id r) (rt_client_id r) (family_id r));
          mret (Ok (mkRotationOutcome at_ (refresh_text bytes) (access_token_ttl_secs svc)
                      (Z.quot (new_expires_at x - t) 1000000000) (new_scope x)))
      end
  end.

(** ** Clients *)

Inductive OAuthClientError := ClientNotFound | RegistrationCapExceeded | ClientDatabase (e : DbErr).

Definition DCR_CLIENT_CAP : nat := 20.

Record DcrRegistrationRequest := mkDcr {
  d_client_name : string; d_client_uri : option string; d_logo_uri : option string;
  d_redirect_uris : list string; d_grant_types : list string; d_response_types : list string;
  d_token_endpoint_auth_method : string; d_scope : option string }.

Definition no_metadata : Metadata := mkMetadata None None None None None None.

(** The columns a registration request sets. *)
Definition registration_of (q : DcrRegistrationRequest) : Registration :=
  mkRegistration (d_client_name q) (d_client_uri q) (d_logo_uri q)
    (strings_to_json (d_redirect_uris q)) (default "" (d_scope q))
    (strings_to_json (d_grant_types q)) (strings_to_json (d_response_types q))
    (d_token_endpoint_auth_method q).

Definition insert_client (id : string) (c : Client) (d : Db) : Result DbErr unit * Db :=
  if none (clients d !! id) then (Ok tt, set_clients (<[id := c]> (clients d)) d)
  else (Err UniqueViolation, d).

Record DcrRegistrationResponse := mkDcrResponse {
  r_client_id : string; client_id_issued_at : Z; registration_access_token : option string;
  registration_client_uri : string; r_request : DcrRegistrationRequest }.

Definition do_register (q : DcrRegistrationRequest) (via : string) (id : Uuid) (bytes : string)
    : Server (Result OAuthClientError DcrRegistrationResponse) :=
  t ← now;
  let client_id := uuid_text id in
  let token := b64url bytes in
  r ← exec (insert_client client_id
        (mkClient (registration_of q) (Some (hash_token token)) via t None None no_metadata));
  mret (map_err ClientDatabase (result_map (λ _,
    mkDcrResponse client_id (unix_timestamp t) (Some token) ("/oauth/register/" +:+ client_id) q) r)).

Definition is_dcr (_ : string) (c : Client) : bool := bool_decide (created_via c = "dcr").

Definition register_dcr (q : DcrRegistrationRequest) (id : Uuid) (bytes : string)
    : Server (Result OAuthClientError DcrRegistrationResponse) :=
  count ← query (λ d, count_where is_dcr (clients d));
  if (DCR_CLIENT_CAP <=? count)%nat
  then _ ← emit OAUTH_CLIENT_REGISTRATION_RATE_LIMITED; mret (Err RegistrationCapExceeded)
  else do_register q "dcr" id bytes.

Definition register_manual (q : DcrRegistrationRequest) (id : Uuid) (bytes : string)
    : Server (Result OAuthClientError DcrRegistrationResponse) := do_register q "manual" id bytes.

Definition lookup_client (id : string) : Server (option Client) := query (λ d, clients d !! id).

Definition revoke_client_row (t : Instant) (c : Client) : Client :=
  mkClient (registration c) (registration_access_token_hash c) (created_via c) (c_created_at c)
    (Some t) (trusted_at c) (metadata c).

(** The transaction of [OAuthClientService::revoke]. *)
Definition revoke_client_txn (t : Instant) (id : string) (d : Db) : Result OAuthClientError unit * Db :=
  match clients d !! id with
  | Some c =>
      if none (c_revoked_at c)
      then (Ok tt,
            revoke_refresh_where t (λ r, bool_decide (rt_client_id r = id))
              (revoke_consents_where t (λ _ r, bool_decide (cs_client_id r = id))
                 (set_clients (<[id := revoke_client_row t c]> (clients d)) d)))
      else (Err ClientNotFound, d)
  | None => (Err ClientNotFound, d)
  end.

Definition revoke_client (id : string) : Server (Result OAuthClientError unit) :=
  t ← now; exec (revoke_client_txn t id).

Definition trust_client_row (t : Instant) (c : Client) : Client :=
  mkClient (registration c) (registration_access_token_hash c) (created_via c) (c_created_at c)
    (c_revoked_at c) (Some t) (metadata c).

Definition promote_trusted_stmt (t : Instant) (id : string) (d : Db) : Result OAuthClientError unit * Db :=
  match clients d !! id with
  | Some c => (Ok tt, set_clients (<[id := trust_client_row t c]> (clients d)) d)
  | None => (Err ClientNotFound, d)
  end.

Definition promote_trusted (id : string) : Server (Result OAuthClientError unit) :=
  t ← now; exec (promote_trusted_stmt t id).

(** [active.update(..)] of [update_client_registration]: the registration columns only. *)
Definition register_row (g : Registration) (c : Client) : Client :=
  mkClient g (registration_access_token_hash c) (created_via c) (c_created_at c) (c_revoked_at c)
    (trusted_at c) (metadata c).
Definition update_registration_stmt (id : string) (g : Registration) (d : Db) : option Client * Db :=
  match clients d !! id with
  | Some c => (Some (register_row g c), set_clients (<[id := register_row g c]> (clients d)) d)
  | None => (None, d)
  end.

End Services.
End OAuth.
