(* ===== verification/OAuthTheorems.v ===== *)
(** What the OAuth store keeps true while requests interleave: an authorization code is
    exchanged once; a refresh-token family has one live token, never widens its scope, never
    outlives its first token's limit, and dies as a whole when one of its tokens is replayed
    or its consent or client is revoked. *)

From stdpp Require Import base list gmap sets strings numbers relations.
From S2P Require Import Prelude RustStr Hex RateLimit Handlers OAuthStore.
Local Open Scope Z_scope.

Module OAuthFacts.
Import OAuth.

(** ** Tables *)

Section Tables.
Context `{Countable K} {A : Type}.
Implicit Types (P : K → A → bool) (m : gmap K A).

Lemma find_one_Some P m k a : find_one P m = Some (k, a) → m !! k = Some a ∧ P k a = true.
Proof.
  unfold find_one. intros Hh.
  assert ((k, a) ∈ map_to_list (filter (λ kv : K * A, P kv.1 kv.2 = true) m)) as Hin.
  { destruct (map_to_list _) as [|x l]; simplify_eq/=. by left. }
  apply elem_of_map_to_list, map_lookup_filter_Some in Hin. done.
Qed.

Lemma find_one_None P m k a : find_one P m = None → m !! k = Some a → P k a = false.
Proof.
  unfold find_one. intros Hh Hk. destruct (P k a) eqn:E; [|done].
  assert ((k, a) ∈ map_to_list (filter (λ kv : K * A, P kv.1 kv.2 = true) m)) as Hin.
  { by apply elem_of_map_to_list, map_lookup_filter_Some. }
  destruct (map_to_list _) as [|x l]; [by apply not_elem_of_nil in Hin|done].
Qed.

(** A row that is the only one to satisfy the filter is the one found. *)
Lemma find_one_unique P m k a :
  m !! k = Some a → P k a = true →
  (∀ k' a', m !! k' = Some a' → P k' a' = true → k' = k) → find_one P m = Some (k, a).
Proof.
  intros Hk HP Huniq. destruct (find_one P m) as [[k' a']|] eqn:E.
  - apply find_one_Some in E as [Hk' HP']. pose proof (Huniq _ _ Hk' HP') as ->. by simplify_eq.
  - by rewrite (find_one_None _ _ _ _ E Hk) in HP.
Qed.

Lemma lookup_update_where P f m k :
  update_where P f m !! k = (λ a, if P k a then f a else a) <$> m !! k.
Proof. unfold update_where. rewrite map_lookup_imap. by destruct (m !! k). Qed.

Lemma count_where_0 P m : count_where P m = 0%nat ↔ ∀ k a, m !! k = Some a → P k a = false.
Proof.
  unfold count_where. rewrite map_size_empty_iff. split.
  - intros Hc k a Hk. destruct (P k a) eqn:E; [|done].
    assert (filter (λ kv : K * A, P kv.1 kv.2 = true) m !! k = Some a) as Hin
      by by apply map_lookup_filter_Some.
    by rewrite Hc, lookup_empty in Hin.
  - intros Hall. apply map_empty. intros k. apply map_lookup_filter_None. right.
    intros a Hk HP. simpl in HP. by rewrite (Hall k a Hk) in HP.
Qed.
End Tables.

Lemma none_true {A} (o : option A) : none o = true ↔ o = None.
Proof. by destruct o. Qed.
Lemma none_false {A} (o : option A) : none o = false ↔ is_Some o.
Proof. destruct o; split; [eauto|done|done|by intros []]. Qed.

(** ** Scopes *)

Section Facts.
Context {E : Env}.

Lemma scope_covers_spec s1 s2 :
  scope_covers s1 s2 = true ↔ ∀ s, s ∈ split_whitespace s2 → s ∈ split_whitespace s1.
Proof.
  unfold scope_covers. rewrite forallb_forall. setoid_rewrite <-list_elem_of_In.
  by setoid_rewrite bool_decide_eq_true.
Qed.
Lemma scope_covers_refl s : scope_covers s s = true.
Proof. by apply scope_covers_spec. Qed.
Lemma scope_covers_trans s1 s2 s3 :
  scope_covers s1 s2 = true → scope_covers s2 s3 = true → scope_covers s1 s3 = true.
Proof. rewrite !scope_covers_spec. auto. Qed.

Lemma effective_scope_covered bound requested s :
  effective_scope bound requested = Ok s → scope_covers bound s = true.
Proof.
  unfold effective_scope. destruct requested as [req|]; [|intros [= <-]; apply scope_covers_refl].
  destruct (str_is_empty req); [intros [= <-]; apply scope_covers_refl|].
  destruct (scope_covers bound req) eqn:Hc; [by intros [= <-]|done].
Qed.

(** ** The steps of the database *)

(** One statement or transaction of any request, with any arguments; a clock that does not
    run backwards, and role assignments that change in any way. *)
Inductive step : Db → Db → Prop :=
| step_tick t d : clock d ≤ t → step d (set_clock t d)
| step_insert_request id t p d : step d (insert_request id (new_request t p) d).2
| step_consume_request t id d : step d (consume_request_txn t id d).2
| step_insert_code id t bytes p d : step d (insert_code id (new_code t bytes p) d).2
| step_exchange t code cid uri ver res d :
    step d (verify_and_consume_txn t code cid uri ver res d).2
| step_regrant id t s h d : step d (update_consent id (regrant t s h) d).2
| step_insert_consent id u c s h t d :
    step d (insert_consent id (mkConsent u c s h None t None) d).2
| step_revoke_consent t id u d : step d (revoke_consent_txn t id u d).2
| step_first_refresh isr t id bytes c u cs s res d :
    step d (insert_first (with_defaults isr) t id bytes c u cs s res d).2
| step_rotate isr t tok c req res id bytes d :
    step d (rotate_txn (with_defaults isr) t tok c req res id bytes d).2
| step_insert_client id c d :
    c_revoked_at c = None → trusted_at c = None → step d (insert_client id c d).2
| step_revoke_client t id d : step d (revoke_client_txn t id d).2
| step_trust t id d : step d (promote_trusted_stmt t id d).2
| step_update_client id f d :
    (∀ c, c_revoked_at (f c) = c_revoked_at c ∧ trusted_at (f c) = trusted_at c
          ∧ created_via (f c) = created_via c) →
    step d (set_clients (alter f id (clients d)) d)
| step_flag_consents t P d :
    step d (set_consents (update_where P (λ r,
      mkConsent (cs_user_id r) (cs_client_id r) (scopes r) (cimd_content_hash_at_grant r)
        (Some t) (granted_at r) (cs_revoked_at r)) (consents d)) d)
| step_rate_limit m d : step d (set_rate_limits m d)
| step_users us ts d :
    step d (mkDb (clients d) (requests d) (codes d) (consents d) (refresh_tokens d) us ts
              (rate_limits d) (clock d)).

(** ** What a step does to each table *)

(** Codes: nothing, a new code with a hash of its own, or one code marked consumed. *)
Definition codes_step (m m' : gmap Uuid Code) : Prop :=
  m' = m
  ∨ (∃ id c, m !! id = None ∧ consumed_at c = None ∧ m' = <[id := c]> m ∧
             ∀ k x, m !! k = Some x → code_hash x ≠ code_hash c)
  ∨ (∃ id c t, m !! id = Some c ∧ m' = <[id := consume_code_row t c]> m).

(** Refresh tokens: nothing, a first token of a new family, a live token replaced by its
    successor, or the unrevoked tokens of some families revoked. *)
Definition live (r : Refresh) : Prop := rotated_at r = None ∧ revoked_at r = None.

Definition refresh_step (m m' : gmap Uuid Refresh) : Prop :=
  m' = m
  ∨ (∃ id r, m !! id = None ∧ live r ∧ parent_id r = None ∧ m' = <[id := r]> m ∧
             expires_at r ≤ family_expires_at r ∧
             family_expires_at r = issued_at r + secs 7776000 ∧
             ∀ k x, m !! k = Some x → token_hash x ≠ token_hash r ∧ family_id x ≠ family_id r)
  ∨ (∃ isr t rid r id bytes scope,
       m !! rid = Some r ∧ live r ∧ m !! id = None ∧ scope_covers (rt_scope r) scope = true ∧
       t < family_expires_at r ∧
       m' = <[rid := rotate_refresh_row t r]>
              (<[id := next_refresh (with_defaults isr) t rid r bytes scope]> m) ∧
       ∀ k x, m !! k = Some x → token_hash x ≠ hash_token (refresh_text bytes))
  ∨ (∃ t P, (∀ r1 r2, family_id r1 = family_id r2 → rt_client_id r1 = rt_client_id r2 →
                      rt_consent_id r1 = rt_consent_id r2 → P r1 = P r2) ∧
            m' = update_where (λ _ r, P r && none (revoked_at r)) (revoke_refresh_row t) m).

(** Consents and clients keep their rows; what is revoked stays revoked. *)
Definition consents_step (m m' : gmap Uuid ConsentRow) : Prop :=
  ∀ k r, m !! k = Some r → ∃ r', m' !! k = Some r' ∧ cs_user_id r' = cs_user_id r ∧
    cs_client_id r' = cs_client_id r ∧ (is_Some (cs_revoked_at r) → is_Some (cs_revoked_at r')).
Definition clients_step (m m' : gmap string Client) : Prop :=
  ∀ k c, m !! k = Some c → ∃ c', m' !! k = Some c' ∧
    (is_Some (c_revoked_at c) → is_Some (c_revoked_at c')).

Lemma insert_code_spec id c d :
  insert_code id c d = (Ok tt, set_codes (<[id := c]> (codes d)) d) ∧ codes d !! id = None ∧
    (∀ k x, codes d !! k = Some x → code_hash x ≠ code_hash c)
  ∨ insert_code id c d = (Err UniqueViolation, d).
Proof.
  unfold insert_code. destruct (none (codes d !! id)) eqn:H1; [|by right].
  destruct (none (code_by_hash (code_hash c) d)) eqn:H2; [|by right]. left.
  apply none_true in H1, H2. split_and!; [done|done|]. intros k x Hk.
  pose proof (find_one_None _ _ _ _ H2 Hk) as Hx. by apply bool_decide_eq_false in Hx.
Qed.

Lemma insert_refresh_spec id r d :
  insert_refresh id r d = (Ok tt, set_refresh_tokens (<[id := r]> (refresh_tokens d)) d) ∧
    refresh_tokens d !! id = None ∧
    (∀ k x, refresh_tokens d !! k = Some x → token_hash x ≠ token_hash r)
  ∨ insert_refresh id r d = (Err UniqueViolation, d).
Proof.
  unfold insert_refresh. destruct (none (refresh_tokens d !! id)) eqn:H1; [|by right].
  destruct (none (refresh_by_hash (token_hash r) d)) eqn:H2; [|by right]. left.
  apply none_true in H1, H2. split_and!; [done|done|]. intros k x Hk.
  pose proof (find_one_None _ _ _ _ H2 Hk) as Hx. by apply bool_decide_eq_false in Hx.
Qed.

(** An exchange either refuses and changes nothing, or finds an unconsumed, unexpired code
    bound to what was presented and consumes it. *)
Lemma exchange_cases t code cid uri ver res d :
  (∃ e, verify_and_consume_txn t code cid uri ver res d = (Err e, d))
  ∨ ∃ id c, verify_and_consume_txn t code cid uri ver res d
              = (Ok c, set_codes (<[id := consume_code_row t c]> (codes d)) d) ∧
      codes d !! id = Some c ∧ code_hash c = hash_token code ∧ consumed_at c = None ∧
      t < co_expires_at c ∧ co_client_id c = cid ∧ co_redirect_uri c = uri ∧
      co_resource c = res ∧ code_challenge c = b64url (sha256 ver).
Proof.
  unfold verify_and_consume_txn, code_by_hash.
  destruct (find_one _ (codes d)) as [[id c]|] eqn:Hf; [|by left; eexists].
  apply find_one_Some in Hf as [Hid Hh%bool_decide_eq_true].
  destruct (check_code t c cid uri ver res) as [[]|e] eqn:Hc; [right|by left; eexists].
  exists id, c. unfold check_code in Hc.
  destruct (none (consumed_at c)) eqn:H1; [|done]. apply none_true in H1.
  destruct (Z.leb_spec (co_expires_at c) t); [done|].
  destruct (bool_decide (co_client_id c = cid)) eqn:H2; [|done].
  destruct (bool_decide (co_redirect_uri c = uri)) eqn:H3; [|done].
  destruct (bool_decide (co_resource c = res)) eqn:H4; [|done].
  destruct (pkce_verify (code_challenge c) ver) eqn:H5; [|done].
  apply bool_decide_eq_true in H2, H3, H4, H5. done.
Qed.

(** A rotation either refuses and changes nothing, or meets a spent token and revokes its
    family, or replaces a live, unexpired token bound to what was presented. *)
Lemma rotate_cases isr t tok cid req res id bytes d :
  let svc := with_defaults isr in
  (∃ e, rotate_txn svc t tok cid req res id bytes d = (Refused e, d))
  ∨ (∃ rid r, refresh_tokens d !! rid = Some r ∧ token_hash r = hash_token tok ∧ ¬ live r ∧
       rotate_txn svc t tok cid req res id bytes d = (Replay r, revoke_family t (family_id r) d))
  ∨ (∃ rid r scope tn,
       refresh_tokens d !! rid = Some r ∧ token_hash r = hash_token tok ∧ live r ∧
       t < expires_at r ∧ t < family_expires_at r ∧ rt_client_id r = cid ∧ rt_resource r = res ∧
       scope_covers (rt_scope r) scope = true ∧
       (∃ c, consents d !! rt_consent_id r = Some c ∧ cs_revoked_at c = None) ∧
       refresh_tokens d !! id = None ∧
       (∀ k x, refresh_tokens d !! k = Some x → token_hash x ≠ hash_token (refresh_text bytes)) ∧
       rotate_txn svc t tok cid req res id bytes d
       = (Rotation (mkRotated r scope (expires_at (next_refresh svc t rid r bytes scope)) tn),
          set_refresh_tokens
            (<[rid := rotate_refresh_row t r]>
               (<[id := next_refresh svc t rid r bytes scope]> (refresh_tokens d))) d)).
Proof.
  intros svc. unfold rotate_txn, refresh_by_hash.
  destruct (find_one _ (refresh_tokens d)) as [[rid r]|] eqn:Hf; [|by left; eexists].
  apply find_one_Some in Hf as [Hid Hh%bool_decide_eq_true].
  destruct (none (revoked_at r)) eqn:H1; simpl; [|right; left; exists rid, r].
  2:{ split_and!; try done. intros [_ Hn]. by rewrite Hn in H1. }
  destruct (none (rotated_at r)) eqn:H2; simpl; [|right; left; exists rid, r].
  2:{ split_and!; try done. intros [Hn _]. by rewrite Hn in H2. }
  apply none_true in H1, H2.
  destruct (check_refresh t r cid req res d) as [scope|e] eqn:Hc; [|by left; eexists].
  destruct (insert_refresh_spec id (next_refresh svc t rid r bytes scope) d)
    as [(Hins & Hnew & Hhash)|Hins]; rewrite Hins; [|by left; eexists].
  destruct (lookup_user_tenant _ _) as [tn|e]; [|by left; eexists]. right; right.
  exists rid, r, scope, tn. unfold check_refresh in Hc.
  destruct (Z.leb_spec (expires_at r) t); [done|].
  destruct (Z.leb_spec (family_expires_at r) t); [done|].
  destruct (bool_decide (rt_client_id r = cid)) eqn:H3; [|done].
  destruct (bool_decide (rt_resource r = res)) eqn:H4; [|done].
  apply bool_decide_eq_true in H3, H4. simpl in Hc. apply bind_ok in Hc as (sc & Hsc & Hc).
  destruct (consents d !! rt_consent_id r) as [c|] eqn:Hcon; [|done].
  destruct (none (cs_revoked_at c)) eqn:H5; [|done]. injection Hc as ->.
  apply none_true in H5. split_and!; eauto using effective_scope_covered; [done|].
  f_equal. cbn [refresh_tokens set_refresh_tokens]. unfold set_refresh_tokens. f_equal.
  assert (rid ≠ id) as Hne by (intros ->; by rewrite Hid in Hnew).
  apply map_eq. intros k. destruct (decide (k = rid)) as [->|Hk].
  - rewrite lookup_alter_eq, lookup_insert_ne, Hid by congruence. by rewrite lookup_insert_eq.
  - by rewrite lookup_alter_ne, (lookup_insert_ne _ rid) by congruence.
Qed.

Lemma fresh_family d k r :
  refresh_tokens d !! k = Some r → family_id r ≠ fresh_uuid (families d).
Proof.
  intros Hk Heq. apply (fresh_uuid_new (families d)). rewrite <-Heq. unfold families.
  apply elem_of_list_to_set, list_elem_of_fmap. exists (k, r).
  split; [done|]. by apply elem_of_map_to_list.
Qed.

Lemma exchange_frame t code cid uri ver res d :
  ∃ m, (verify_and_consume_txn t code cid uri ver res d).2 = set_codes m d.
Proof.
  destruct (exchange_cases t code cid uri ver res d) as [(e & ->)|(id & c & -> & _)]; [|by eexists].
  exists (codes d). by destruct d.
Qed.

Lemma rotate_frame isr t tok cid req res id bytes d :
  ∃ m, (rotate_txn (with_defaults isr) t tok cid req res id bytes d).2 = set_refresh_tokens m d.
Proof.
  destruct (rotate_cases isr t tok cid req res id bytes d)
    as [(e & ->)|[(rid & r & _ & _ & _ & ->)|(rid & r & sc & tn & Hr)]].
  - exists (refresh_tokens d). by destruct d.
  - by eexists.
  - destruct Hr as (_ & _ & _ & _ & _ & _ & _ & _ & _ & _ & _ & ->). by eexists.
Qed.

(** A step that leaves the table in question alone. *)
Ltac quiet_step refl :=
  try match goal with
  | |- context [verify_and_consume_txn ?t ?a ?b ?c ?e ?f ?d] =>
      let m := fresh "m" in destruct (exchange_frame t a b c e f d) as [m ->]
  | |- context [rotate_txn (with_defaults ?i) ?t ?a ?b ?c ?e ?f ?g ?d] =>
      let m := fresh "m" in destruct (rotate_frame i t a b c e f g d) as [m ->]
  end;
  unfold insert_request, consume_request_txn, insert_code, insert_consent, revoke_consent_txn,
    insert_first, insert_refresh, insert_client, revoke_client_txn, promote_trusted_stmt;
  repeat case_match; refl.

Lemma step_codes d d' : step d d' → codes_step (codes d) (codes d').
Proof.
  intros Hs; destruct Hs; try solve [quiet_step ltac:(by left)].
  - destruct (insert_code_spec id (new_code t bytes p) d) as [(-> & H1 & H2)| ->]; [|by left].
    right; left. by exists id, (new_code t bytes p).
  - destruct (exchange_cases t code cid uri ver res d) as [(e & ->)|(id & c & -> & H1 & _)];
      [by left|]. right; right. by exists id, c, t.
Qed.

Lemma step_refresh d d' : step d d' → refresh_step (refresh_tokens d) (refresh_tokens d').
Proof.
  intros Hs; destruct Hs; try solve [quiet_step ltac:(by left)].
  - unfold revoke_consent_txn. destruct (_ =? _)%nat; [by left|]. right; right; right.
    exists t, (λ r, bool_decide (rt_consent_id r = id)). split; [|done].
    intros r1 r2 _ _ ->. done.
  - unfold insert_first. set (r := first_refresh _ _ _ _ _ _ _ _ _).
    destruct (insert_refresh_spec id r d) as [(-> & H1 & H2)| ->]; [|by left]. right; left.
    exists id, r. split_and!; try done; [simpl; unfold secs; lia|]. intros k x Hk.
    split; [by eapply H2|]. by apply (fresh_family d k).
  - destruct (rotate_cases isr t tok c req res id bytes d)
      as [(e & ->)|[(rid & r & _ & _ & _ & ->)|(rid & r & sc & tn & Hr)]]; [by left| |].
    + right; right; right. exists t, (λ x, bool_decide (family_id x = family_id r)).
      split; [|done]. intros r1 r2 -> _ _. done.
    + destruct Hr as (H1 & _ & H2 & _ & H3 & _ & _ & H4 & _ & H5 & H6 & ->).
      right; right; left. by exists isr, t, rid, r, id, bytes, sc.
  - unfold revoke_client_txn. destruct (clients d !! id) as [c|]; [|by left].
    destruct (none _); [|by left]. right; right; right.
    exists t, (λ r, bool_decide (rt_client_id r = id)). split; [|done].
    intros r1 r2 _ -> _. done.
Qed.

Lemma consents_step_refl m : consents_step m m.
Proof. intros k r Hk. by exists r. Qed.
Lemma clients_step_refl m : clients_step m m.
Proof. intros k r Hk. by exists r. Qed.

Lemma consents_update P f m :
  (∀ r, cs_user_id (f r) = cs_user_id r ∧ cs_client_id (f r) = cs_client_id r ∧
        (is_Some (cs_revoked_at r) → is_Some (cs_revoked_at (f r)))) →
  consents_step m (update_where P f m).
Proof.
  intros Hf k r Hk. rewrite lookup_update_where, Hk. simpl.
  eexists. split; [done|]. destruct (P k r); [apply Hf|done].
Qed.

(** A client row replaced by one that is revoked if it was. *)
Lemma clients_update f id m :
  (∀ c, is_Some (c_revoked_at c) → is_Some (c_revoked_at (f c))) →
  clients_step m (alter f id m).
Proof.
  intros Hf k x Hk. destruct (decide (k = id)) as [->|Hne].
  - rewrite lookup_alter_eq, Hk. simpl. eauto.
  - rewrite lookup_alter_ne by congruence. by exists x.
Qed.
Lemma alter_as_insert {A} f id (m : gmap string A) c :
  m !! id = Some c → <[id := f c]> m = alter f id m.
Proof.
  intros Hc. apply map_eq. intros k. destruct (decide (k = id)) as [->|Hne].
  - by rewrite lookup_insert_eq, lookup_alter_eq, Hc.
  - by rewrite lookup_insert_ne, lookup_alter_ne by congruence.
Qed.

Lemma step_consents d d' : step d d' → consents_step (consents d) (consents d').
Proof.
  intros Hs; destruct Hs; try solve [quiet_step ltac:(apply consents_step_refl)].
  - intros k r Hk. simpl. destruct (decide (k = id)) as [->|Hne].
    + rewrite lookup_alter_eq, Hk. by eexists.
    + rewrite lookup_alter_ne by congruence. by exists r.
  - unfold insert_consent. destruct (_ && _) eqn:E0; [|apply consents_step_refl].
    apply andb_true_iff in E0 as [Hn%none_true _]. intros k r Hk. simpl.
    exists r. rewrite lookup_insert_ne; [done|]. intros ->. by rewrite Hk in Hn.
  - unfold revoke_consent_txn. destruct (_ =? _)%nat; [apply consents_step_refl|].
    apply (consents_update _ (revoke_consent_row t)). intros r. by simpl.
  - unfold revoke_client_txn. destruct (clients d !! id) as [c|]; [|apply consents_step_refl].
    destruct (none _); [|apply consents_step_refl].
    apply (consents_update _ (revoke_consent_row t)). intros r. by simpl.
  - by apply consents_update.
Qed.

Lemma step_clients d d' : step d d' → clients_step (clients d) (clients d').
Proof.
  intros Hs; destruct Hs; try solve [quiet_step ltac:(apply clients_step_refl)].
  - unfold insert_client. destruct (none (clients d !! id)) eqn:Hn; [|apply clients_step_refl].
    apply none_true in Hn. intros k x Hk. exists x. simpl.
    rewrite lookup_insert_ne; [done|]. intros ->. by rewrite Hk in Hn.
  - unfold revoke_client_txn. destruct (clients d !! id) as [c|] eqn:Hc; [|apply clients_step_refl].
    destruct (none _); [|apply clients_step_refl]. simpl.
    rewrite (alter_as_insert (revoke_client_row t)) by done. apply clients_update. eauto.
  - unfold promote_trusted_stmt. destruct (clients d !! id) as [c|] eqn:Hc; [|apply clients_step_refl].
    simpl. rewrite (alter_as_insert (trust_client_row t)) by done. by apply clients_update.
  - apply clients_update. intros c. by rewrite (proj1 (H c)).
Qed.

(** ** The invariant *)

(** The columns a refresh token never changes. *)
Definition core (r : Refresh) :=
  (family_id r, parent_id r, token_hash r, rt_client_id r, rt_user_id r, rt_consent_id r,
   rt_scope r, rt_resource r, issued_at r, expires_at r, family_expires_at r).

(** Later states: every row still there, its columns kept, spent rows still spent. *)
Definition extends (m m' : gmap Uuid Refresh) : Prop :=
  ∀ k r, m !! k = Some r → ∃ r', m' !! k = Some r' ∧ core r' = core r ∧
    (is_Some (rotated_at r) → is_Some (rotated_at r')) ∧
    (is_Some (revoked_at r) → is_Some (revoked_at r')).

(** [k] comes from the first token [root] of its family by rotations, each of which spent the
    token it replaced and asked for no more than that token's scope. *)
Inductive lineage (m : gmap Uuid Refresh) : Uuid → Uuid → Prop :=
| lineage_root k r : m !! k = Some r → parent_id r = None → lineage m k k
| lineage_next k r p rp root :
    m !! k = Some r → parent_id r = Some p → m !! p = Some rp → is_Some (rotated_at rp) →
    family_id rp = family_id r → scope_covers (rt_scope rp) (rt_scope r) = true →
    family_expires_at r = family_expires_at rp → lineage m p root → lineage m k root.

Record refresh_inv (m : gmap Uuid Refresh) : Prop := {
  inv_hash k1 k2 r1 r2 : m !! k1 = Some r1 → m !! k2 = Some r2 →
    token_hash r1 = token_hash r2 → k1 = k2;
  inv_owner k1 k2 r1 r2 : m !! k1 = Some r1 → m !! k2 = Some r2 → family_id r1 = family_id r2 →
    rt_client_id r1 = rt_client_id r2 ∧ rt_user_id r1 = rt_user_id r2 ∧
    rt_consent_id r1 = rt_consent_id r2 ∧ rt_resource r1 = rt_resource r2;
  inv_revoked k1 k2 r1 r2 : m !! k1 = Some r1 → m !! k2 = Some r2 →
    family_id r1 = family_id r2 → revoked_at r1 = None → revoked_at r2 = None;
  inv_live k1 k2 r1 r2 : m !! k1 = Some r1 → m !! k2 = Some r2 → family_id r1 = family_id r2 →
    rotated_at r1 = None → rotated_at r2 = None → k1 = k2;
  inv_expires k r : m !! k = Some r → expires_at r ≤ family_expires_at r;
  inv_lifetime k r : m !! k = Some r → parent_id r = None →
    family_expires_at r = issued_at r + secs 7776000;
  inv_lineage k r : m !! k = Some r → ∃ root, lineage m k root }.

Definition codes_inv (m : gmap Uuid Code) : Prop :=
  ∀ k1 k2 c1 c2, m !! k1 = Some c1 → m !! k2 = Some c2 → code_hash c1 = code_hash c2 → k1 = k2.

Definition inv (d : Db) : Prop := codes_inv (codes d) ∧ refresh_inv (refresh_tokens d).

Lemma extends_refl m : extends m m.
Proof. intros k r Hk. by exists r. Qed.
Lemma extends_trans m1 m2 m3 : extends m1 m2 → extends m2 m3 → extends m1 m3.
Proof.
  intros H1 H2 k r Hk. destruct (H1 k r Hk) as (r2 & Hk2 & Hc2 & Ha & Hb).
  destruct (H2 k r2 Hk2) as (r3 & Hk3 & Hc3 & Ha' & Hb'). exists r3. split_and!; [done| |auto|auto].
  by rewrite Hc3.
Qed.

Lemma refresh_step_extends m m' : refresh_step m m' → extends m m'.
Proof.
  intros [->|[(id & r & Hn & _ & _ & -> & _)|[H|(t & P & _ & ->)]]] k x Hk.
  - by exists x.
  - exists x. rewrite lookup_insert_ne; [done|]. intros ->. by rewrite Hk in Hn.
  - destruct H as (isr & t & rid & r & id & bytes & sc & Hr & _ & Hn & _ & _ & -> & _).
    destruct (decide (k = rid)) as [->|Hne].
    + rewrite lookup_insert_eq. simplify_eq. by eexists.
    + exists x. rewrite lookup_insert_ne by congruence.
      rewrite lookup_insert_ne; [done|]. intros ->. by rewrite Hk in Hn.
  - rewrite lookup_update_where, Hk. simpl. eexists. split; [done|].
    by destruct (P x && none (revoked_at x)).
Qed.

Lemma lineage_extends m m' k root : extends m m' → lineage m k root → lineage m' k root.
Proof.
  intros Hext. induction 1 as [k r Hk Hp|k r p rp root Hk Hp Hkp Hrot Hfam Hsc Hexp _ IH].
  - destruct (Hext k r Hk) as (r' & Hk' & Hc & _). injection Hc as Hc.
    apply lineage_root with r'; congruence.
  - destruct (Hext k r Hk) as (r' & Hk' & Hc & _). injection Hc as Hc.
    destruct (Hext p rp Hkp) as (rp' & Hkp' & Hcp & Hrot' & _). injection Hcp as Hcp.
    apply lineage_next with r' p rp'; try congruence; auto.
Qed.

Lemma codes_step_inv m m' : codes_step m m' → codes_inv m → codes_inv m'.
Proof.
  intros [->|[(id & c & Hn & _ & -> & Hf)|(id & c & t & Hc & ->)]] Hinv; [done| |];
    intros k1 k2 c1 c2 [[<- <-]|[H1 Hk1]]%lookup_insert_Some [[<- <-]|[H2 Hk2]]%lookup_insert_Some
      Heq; try done.
  - by apply Hf in Hk2.
  - by apply Hf in Hk1.
  - by apply (Hinv k1 k2 c1 c2).
  - by apply (Hinv id k2 c c2).
  - by apply (Hinv k1 id c1 c).
  - by apply (Hinv k1 k2 c1 c2).
Qed.

(** A first token of a new family keeps the invariant. *)
Lemma inv_first m id r :
  m !! id = None → live r → parent_id r = None → expires_at r ≤ family_expires_at r →
  family_expires_at r = issued_at r + secs 7776000 →
  (∀ k x, m !! k = Some x → token_hash x ≠ token_hash r ∧ family_id x ≠ family_id r) →
  refresh_inv m → refresh_inv (<[id := r]> m).
Proof.
  intros Hn [Hrot Hrev] Hp He Hl Hf Hinv.
  assert (extends m (<[id := r]> m)) as Hext.
  { intros k x Hk. exists x. rewrite lookup_insert_ne; [done|]. intros ->. by rewrite Hk in Hn. }
  split.
  - intros k1 k2 r1 r2 [[<- <-]|[_ H1]]%lookup_insert_Some [[<- <-]|[_ H2]]%lookup_insert_Some;
      [done|intros Heq; by apply Hf in H2 as []|intros Heq; by apply Hf in H1 as []
       |by apply (inv_hash m Hinv)].
  - intros k1 k2 r1 r2 [[<- <-]|[_ H1]]%lookup_insert_Some [[<- <-]|[_ H2]]%lookup_insert_Some;
      [done|intros Heq; by apply Hf in H2 as []|intros Heq; by apply Hf in H1 as []
       |by apply (inv_owner m Hinv k1 k2)].
  - intros k1 k2 r1 r2 [[<- <-]|[_ H1]]%lookup_insert_Some [[<- <-]|[_ H2]]%lookup_insert_Some;
      [done|intros Heq; by apply Hf in H2 as []|intros Heq; by apply Hf in H1 as []
       |by apply (inv_revoked m Hinv k1 k2)].
  - intros k1 k2 r1 r2 [[<- <-]|[_ H1]]%lookup_insert_Some [[<- <-]|[_ H2]]%lookup_insert_Some;
      [done|intros Heq; by apply Hf in H2 as []|intros Heq; by apply Hf in H1 as []
       |by apply (inv_live m Hinv)].
  - intros k x [[<- <-]|[_ Hk]]%lookup_insert_Some; [done|by apply (inv_expires m Hinv k)].
  - intros k x [[<- <-]|[_ Hk]]%lookup_insert_Some; [done|by apply (inv_lifetime m Hinv k)].
  - intros k x [[<- <-]|[_ Hk]]%lookup_insert_Some.
    + exists id. apply lineage_root with r; [apply lookup_insert_eq|done].
    + destruct (inv_lineage m Hinv k x Hk) as [root Hroot]. exists root.
      by eapply lineage_extends.
Qed.

(** Revoking whole families keeps the invariant. *)
Lemma inv_revoke m t P :
  (∀ r1 r2, family_id r1 = family_id r2 → rt_client_id r1 = rt_client_id r2 →
            rt_consent_id r1 = rt_consent_id r2 → P r1 = P r2) →
  refresh_inv m →
  refresh_inv (update_where (λ _ r, P r && none (revoked_at r)) (revoke_refresh_row t) m).
Proof.
  intros HP Hinv. set (m' := update_where _ _ m).
  assert (extends m m') as Hext.
  { apply refresh_step_extends. right; right; right. by exists t, P. }
  assert (∀ k x, m' !! k = Some x → ∃ r, m !! k = Some r ∧ core x = core r ∧
            rotated_at x = rotated_at r ∧
            (revoked_at x = None ↔ P r = false ∧ revoked_at r = None)) as Hback.
  { intros k x. unfold m'. rewrite lookup_update_where. destruct (m !! k) as [r|]; [|done].
    intros [= <-]. exists r. split; [done|].
    destruct (P r), (revoked_at r) eqn:Er; simpl; naive_solver. }
  clearbody m'. unfold core in Hback. split.
  - intros k1 k2 x1 x2 (r1 & H1 & Hc1 & _)%Hback (r2 & H2 & Hc2 & _)%Hback Heq.
    apply (inv_hash m Hinv k1 k2 r1 r2); congruence.
  - intros k1 k2 x1 x2 (r1 & H1 & Hc1 & _)%Hback (r2 & H2 & Hc2 & _)%Hback Heq.
    destruct (inv_owner m Hinv k1 k2 r1 r2 H1 H2) as (? & ? & ? & ?); [congruence|].
    split_and!; congruence.
  - intros k1 k2 x1 x2 (r1 & H1 & Hc1 & _ & Hr1)%Hback (r2 & H2 & Hc2 & _ & Hr2)%Hback Heq.
    assert (family_id r1 = family_id r2) as Hfam by congruence.
    destruct (inv_owner m Hinv k1 k2 r1 r2 H1 H2 Hfam) as (Ho1 & _ & Ho2 & _).
    intros [HP1 Hn1]%Hr1. apply Hr2. split; [by rewrite <-(HP r1 r2)|].
    by apply (inv_revoked m Hinv k1 k2 r1 r2).
  - intros k1 k2 x1 x2 (r1 & H1 & Hc1 & Hr1 & _)%Hback (r2 & H2 & Hc2 & Hr2 & _)%Hback Heq.
    rewrite Hr1, Hr2. apply (inv_live m Hinv k1 k2 r1 r2 H1 H2). congruence.
  - intros k x (r & Hk & Hc & _)%Hback. pose proof (inv_expires m Hinv k r Hk). congruence.
  - intros k x (r & Hk & Hc & _)%Hback Hp.
    pose proof (inv_lifetime m Hinv k r Hk) as Hl. assert (parent_id r = None) as Hp' by congruence.
    specialize (Hl Hp'). congruence.
  - intros k x (r & Hk & _)%Hback. destruct (inv_lineage m Hinv k r Hk) as [root Hroot].
    exists root. by eapply lineage_extends.
Qed.

(** Replacing a live token by its successor keeps the invariant. *)
Lemma inv_rotate m isr t rid r id bytes scope :
  m !! rid = Some r → live r → m !! id = None → scope_covers (rt_scope r) scope = true →
  t < family_expires_at r →
  (∀ k x, m !! k = Some x → token_hash x ≠ hash_token (refresh_text bytes)) →
  refresh_inv m →
  refresh_inv (<[rid := rotate_refresh_row t r]>
                 (<[id := next_refresh (with_defaults isr) t rid r bytes scope]> m)).
Proof.
  intros Hr [Hrot Hrev] Hn Hsc Ht Hh Hinv. set (n := next_refresh _ _ _ _ _ _).
  set (m' := insert rid _ _).
  assert (extends m m') as Hext.
  { apply refresh_step_extends. right; right; left. by exists isr, t, rid, r, id, bytes, scope. }
  assert (id ≠ rid) as Hne by congruence.
  assert (m' !! id = Some n) as Hid by (by unfold m'; rewrite lookup_insert_ne, lookup_insert_eq).
  (* every row is the new one, the spent one, or an old one that was spent before if it is of
     the family *)
  assert (∀ k x, m' !! k = Some x →
    (k = id ∧ x = n) ∨
    (k ≠ id ∧ ∃ r', m !! k = Some r' ∧ core x = core r' ∧ revoked_at x = revoked_at r' ∧
     (rotated_at x = None → rotated_at r' = None ∧ family_id r' ≠ family_id r))) as Hback.
  { intros k x. unfold m'. destruct (decide (k = rid)) as [->|Hk].
    { rewrite lookup_insert_eq. intros [= <-]. right. split; [done|]. by exists r. }
    rewrite lookup_insert_ne by done. destruct (decide (k = id)) as [->|Hk'].
    { rewrite lookup_insert_eq. intros [= <-]. by left. }
    rewrite lookup_insert_ne by done. intros Hx. right. split; [done|]. exists x.
    split_and!; try done. intros Hx0. split; [done|]. intros Hfam. apply Hk.
    by apply (inv_live m Hinv k rid x r). }
  assert (family_id n = family_id r ∧ revoked_at n = None ∧ rotated_at n = None ∧
          token_hash n = hash_token (refresh_text bytes)) as (Hnf & Hnr & Hnx & Hnh) by done.
  clearbody m'. unfold core in Hback. split.
  - intros k1 k2 x1 x2 [[-> ->]|(_ & r1 & H1 & Hc1 & _)]%Hback
      [[-> ->]|(_ & r2 & H2 & Hc2 & _)]%Hback Heq; [done|exfalso; eapply Hh; eauto; congruence..|].
    apply (inv_hash m Hinv k1 k2 r1 r2); congruence.
  - intros k1 k2 x1 x2 [[-> ->]|(_ & r1 & H1 & Hc1 & _)]%Hback
      [[-> ->]|(_ & r2 & H2 & Hc2 & _)]%Hback Heq; [done| | |].
    + destruct (inv_owner m Hinv rid k2 r r2 Hr H2) as (? & ? & ? & ?); [congruence|].
      split_and!; simpl; congruence.
    + destruct (inv_owner m Hinv k1 rid r1 r H1 Hr) as (? & ? & ? & ?); [congruence|].
      split_and!; simpl; congruence.
    + destruct (inv_owner m Hinv k1 k2 r1 r2 H1 H2) as (? & ? & ? & ?); [congruence|].
      split_and!; congruence.
  - intros k1 k2 x1 x2 [[-> ->]|(_ & r1 & H1 & Hc1 & Hr1 & _)]%Hback
      [[-> ->]|(_ & r2 & H2 & Hc2 & Hr2 & _)]%Hback Heq; [done| |done|].
    + intros _. rewrite Hr2. apply (inv_revoked m Hinv rid k2 r r2 Hr H2); congruence.
    + rewrite Hr1, Hr2. apply (inv_revoked m Hinv k1 k2 r1 r2 H1 H2). congruence.
  - intros k1 k2 x1 x2 [[-> ->]|(_ & r1 & H1 & Hc1 & _ & Hl1)]%Hback
      [[-> ->]|(_ & r2 & H2 & Hc2 & _ & Hl2)]%Hback Heq Hx1 Hx2; [done| | |].
    + destruct (Hl2 Hx2) as [_ []]. congruence.
    + destruct (Hl1 Hx1) as [_ []]. congruence.
    + apply (inv_live m Hinv k1 k2 r1 r2 H1 H2);
        [congruence|by apply Hl1|by apply Hl2].
  - intros k x [[-> ->]|(_ & r1 & H1 & Hc1 & _)]%Hback; [simpl; lia|].
    pose proof (inv_expires m Hinv k r1 H1). congruence.
  - intros k x [[-> ->]|(_ & r1 & H1 & Hc1 & _)]%Hback Hp; [done|].
    assert (parent_id r1 = None) as Hp' by congruence.
    pose proof (inv_lifetime m Hinv k r1 H1 Hp'). congruence.
  - intros k x [[-> ->]|(_ & r1 & H1 & _)]%Hback.
    + destruct (inv_lineage m Hinv rid r Hr) as [root Hroot]. exists root.
      destruct (Hext rid r Hr) as (r' & Hr' & Hc & _).
      destruct (Hback rid r' Hr') as [[? _]|(_ & r0 & H0 & Hc0 & _ & Hl0)]; [done|].
      assert (r0 = r) as -> by congruence.
      apply lineage_next with n rid r'; try done; [| | | |by eapply lineage_extends].
      * destruct (rotated_at r') eqn:Er; [by eexists|]. by destruct (Hl0 eq_refl) as [_ []].
      * congruence.
      * simpl. replace (rt_scope r') with (rt_scope r) by congruence. done.
      * simpl. congruence.
    + destruct (inv_lineage m Hinv k r1 H1) as [root Hroot]. exists root.
      by eapply lineage_extends.
Qed.

Lemma oauth_step_inv d d' : step d d' → inv d → inv d'.
Proof.
  intros Hs [Hc Hr]. split; [by eapply codes_step_inv; [apply step_codes|]|].
  destruct (step_refresh d d' Hs) as [->|[H|[H|(t & P & HP & ->)]]]; [done| | |].
  - destruct H as (id & r & ? & ? & ? & -> & ? & ? & ?). by apply inv_first.
  - destruct H as (isr & t & rid & r & id & bytes & sc & ? & ? & ? & ? & ? & -> & ?).
    by apply inv_rotate.
  - by apply inv_revoke.
Qed.

Lemma oauth_steps_inv d d' : rtc step d d' → inv d → inv d'.
Proof. induction 1; eauto using oauth_step_inv. Qed.

Lemma steps_extends d d' : rtc step d d' → extends (refresh_tokens d) (refresh_tokens d').
Proof.
  induction 1 as [|d1 d2 d3 Hs _ IH]; [apply extends_refl|].
  eapply extends_trans; [|exact IH]. by apply refresh_step_extends, step_refresh.
Qed.

(** ** Authorization codes *)

(** A database before the server has issued anything. *)
Definition initial (d : Db) : Prop := codes d = ∅ ∧ refresh_tokens d = ∅.

Lemma initial_inv d0 d : initial d0 → rtc step d0 d → inv d.
Proof.
  intros [Hc Hr] Hs. eapply oauth_steps_inv; [exact Hs|]. split.
  - rewrite Hc. by intros k1 k2 c1 c2 ?%lookup_empty_Some.
  - rewrite Hr. split; by repeat intros ?%lookup_empty_Some || intro.
Qed.

Lemma steps_consumed d d' k c :
  rtc step d d' → codes d !! k = Some c → is_Some (consumed_at c) →
  ∃ c', codes d' !! k = Some c' ∧ code_hash c' = code_hash c ∧ is_Some (consumed_at c').
Proof.
  intros Hs. revert c. induction Hs as [|d1 d2 d3 Hs _ IH]; intros c Hk Hc; [by exists c|].
  destruct (step_codes d1 d2 Hs) as [Heq|[(id & x & Hn & _ & Heq & _)|(id & x & t & Hx & Heq)]].
  - apply IH; [by rewrite Heq|done].
  - apply IH; [|done]. rewrite Heq, lookup_insert_ne; [done|]. intros ->. by rewrite Hk in Hn.
  - destruct (decide (k = id)) as [->|Hne].
    + assert (c = x) as -> by congruence.
      destruct (IH (consume_code_row t x)) as (c' & ? & ? & ?);
        [by rewrite Heq, lookup_insert_eq|by eexists|]. by exists c'.
    + apply IH; [|done]. by rewrite Heq, lookup_insert_ne by congruence.
Qed.

(** Once exchanged, a code is refused as used at every later time, whatever is presented with
    it. *)
Lemma exchanged_is_used t code cid uri ver res d c d1 d2 t' cid' uri' ver' res' :
  inv d → verify_and_consume_txn t code cid uri ver res d = (Ok c, d1) → rtc step d1 d2 →
  verify_and_consume_txn t' code cid' uri' ver' res' d2
  = (Err (CodeInvalidGrant "code_already_used"), d2).
Proof.
  intros Hinv Hex Hs.
  destruct (exchange_cases t code cid uri ver res d) as [(e & He)|(id & c0 & He & Hid & Hh & _)];
    rewrite Hex in He; [done|]. injection He as <- ->.
  assert (inv d2) as [Hci _].
  { eapply oauth_steps_inv; [exact Hs|]. eapply oauth_step_inv; [|exact Hinv].
    replace (set_codes _ d) with (verify_and_consume_txn t code cid uri ver res d).2
      by (by rewrite Hex). apply step_exchange. }
  destruct (steps_consumed _ d2 id (consume_code_row t c) Hs) as (c2 & Hc2 & Hh2 & Hused);
    [by cbn [codes set_codes]; rewrite lookup_insert_eq|by eexists|].
  unfold verify_and_consume_txn, code_by_hash.
  rewrite (find_one_unique _ (codes d2) id c2 Hc2).
  - unfold check_code. by rewrite (proj2 (none_false _) Hused).
  - apply bool_decide_eq_true. by rewrite Hh2, <-Hh.
  - intros k x Hk Hx%bool_decide_eq_true. apply (Hci k id x c2 Hk Hc2). by rewrite Hx, Hh2, <-Hh.
Qed.

(** whatever requests interleave, an authorization code is exchanged at most once: after
    the exchange that succeeded, every later exchange of the same code fails with
    [code_already_used] and changes nothing, whatever client, redirect URI, verifier and
    resource come with it; and the exchange that succeeded was of an unconsumed code younger
    than its lifetime, presented by the client it was issued to, for the redirect URI and
    resource it was issued for, with the verifier of its challenge. *)
Theorem code_single_use t code cid uri ver res d0 d c d1 d2 :
  initial d0 → rtc step d0 d →
  verify_and_consume_txn t code cid uri ver res d = (Ok c, d1) → rtc step d1 d2 →
  (∀ t' cid' uri' ver' res',
     verify_and_consume_txn t' code cid' uri' ver' res' d2
     = (Err (CodeInvalidGrant "code_already_used"), d2)) ∧
  consumed_at c = None ∧ t < co_expires_at c ∧ co_client_id c = cid ∧
  co_redirect_uri c = uri ∧ co_resource c = res ∧ code_challenge c = b64url (sha256 ver).
Proof.
  intros H0 Hs0 Hex Hs. split.
  - intros. eapply exchanged_is_used; eauto using initial_inv.
  - destruct (exchange_cases t code cid uri ver res d) as [(e & He)|(id & c0 & He & Hid & Hr)];
      rewrite Hex in He; [done|]. injection He as <- _. naive_solver.
Qed.

(** ** Refresh-token families *)

(** Nothing of a family with a revoked token is or will be live. *)
Lemma revoked_family_stays d d' k r :
  inv d → rtc step d d' → refresh_tokens d !! k = Some r → is_Some (revoked_at r) →
  ∀ k' r', refresh_tokens d' !! k' = Some r' → family_id r' = family_id r → is_Some (revoked_at r').
Proof.
  intros Hinv Hs Hk Hrev k' r' Hk' Hfam.
  pose proof (proj2 (oauth_steps_inv d d' Hs Hinv)) as Hinv'.
  destruct (steps_extends d d' Hs k r Hk) as (r2 & Hk2 & Hc & _ & Hrev2).
  destruct (revoked_at r') eqn:Er; [by eexists|].
  assert (family_id r' = family_id r2) as Hf by (unfold core in Hc; congruence).
  pose proof (inv_revoked _ Hinv' k' k r' r2 Hk' Hk2 Hf Er) as Hn.
  destruct (Hrev2 Hrev) as [? Hsome]. congruence.
Qed.

(** A token that is not live is answered as a replay. *)
Lemma spent_is_replay d k r isr t tok cid req res id bytes :
  inv d → refresh_tokens d !! k = Some r → token_hash r = hash_token tok → ¬ live r →
  rotate_txn (with_defaults isr) t tok cid req res id bytes d
  = (Replay r, revoke_family t (family_id r) d).
Proof.
  intros [_ Hinv] Hk Hh Hl. unfold rotate_txn, refresh_by_hash.
  rewrite (find_one_unique _ (refresh_tokens d) k r Hk).
  - destruct (revoked_at r) eqn:H1; [done|]. destruct (rotated_at r) eqn:H2; [done|].
    by destruct Hl.
  - by apply bool_decide_eq_true.
  - intros k' x Hk' Hx%bool_decide_eq_true. apply (inv_hash _ Hinv k' k x r Hk' Hk). congruence.
Qed.

(** Revoking a family: none of its tokens is accepted again. *)
Lemma burned_family t d rid r d4 :
  inv d → refresh_tokens d !! rid = Some r → ¬ live r →
  rtc step (revoke_family t (family_id r) d) d4 →
  ∀ k4 r4, refresh_tokens d4 !! k4 = Some r4 → family_id r4 = family_id r →
    is_Some (revoked_at r4) ∧
    ∀ isr tok cid req res id bytes t4, hash_token tok = token_hash r4 →
      (rotate_txn (with_defaults isr) t4 tok cid req res id bytes d4).1 = Replay r4.
Proof.
  intros Hinv Hr Hl Hs k4 r4 Hk4 Hfam. set (d3 := revoke_family t (family_id r) d) in Hs.
  assert (inv d3) as Hinv3.
  { destruct Hinv as [Hc Hi]. split; [done|]. apply (inv_revoke _ t (λ x, bool_decide (family_id x = family_id r)));
      [|done]. by intros r1 r2 -> _ _. }
  destruct (refresh_tokens d3 !! rid) as [r3|] eqn:Hr3;
    unfold d3, revoke_family, revoke_refresh_where in Hr3;
    cbn [refresh_tokens set_refresh_tokens] in Hr3;
    rewrite lookup_update_where, Hr in Hr3; [|done].
  simpl in Hr3. rewrite bool_decide_eq_true_2 in Hr3 by done. injection Hr3 as Hr3.
  assert (is_Some (revoked_at r4)) as Hrev.
  { apply (revoked_family_stays d3 d4 rid r3 Hinv3 Hs) with k4; [| |done|].
    - unfold d3, revoke_family, revoke_refresh_where. cbn [refresh_tokens set_refresh_tokens].
      rewrite lookup_update_where, Hr. simpl. by rewrite bool_decide_eq_true_2, <-Hr3 by done.
    - subst r3. destruct (revoked_at r) eqn:Er; simpl; [rewrite Er|]; by eexists.
    - subst r3. by destruct (none (revoked_at r)). }
  split; [done|]. intros isr tok cid req res id bytes t4 Htok.
  rewrite (spent_is_replay d4 k4 r4); [done|by eapply oauth_steps_inv|done|done|].
  intros [_ Hx]. destruct Hrev. congruence.
Qed.

(** C21: a refresh token works once, and its second use burns its family: after a successful
    rotation of [tok], presenting [tok] again at any later time is answered as a replay, and
    from then on every token of the family is revoked and every presentation of any of them,
    at any time, is refused as a replay too. Each rotation is taken as one atomic step, which is
    what SQLite's immediate transaction gives; on PostgreSQL two rotations may overlap. *)
Theorem replay_burns_family isr t tok cid req res id bytes d0 d x d1 d2 isr' t' cid' req' res' id' bytes' :
  initial d0 → rtc step d0 d →
  rotate_txn (with_defaults isr) t tok cid req res id bytes d = (Rotation x, d1) →
  rtc step d1 d2 →
  ∃ r d3, rotate_txn (with_defaults isr') t' tok cid' req' res' id' bytes' d2 = (Replay r, d3) ∧
    family_id r = family_id (old_row x) ∧
    ∀ d4, rtc step d3 d4 → ∀ k4 r4, refresh_tokens d4 !! k4 = Some r4 → family_id r4 = family_id r →
      is_Some (revoked_at r4) ∧
      ∀ isr4 tok4 cid4 req4 res4 id4 bytes4 t4, hash_token tok4 = token_hash r4 →
        (rotate_txn (with_defaults isr4) t4 tok4 cid4 req4 res4 id4 bytes4 d4).1 = Replay r4.
Proof.
  intros H0 Hs0 Hrot Hs. pose proof (initial_inv d0 d H0 Hs0) as Hinv.
  assert (inv d1) as Hinv1.
  { eapply oauth_step_inv; [|exact Hinv].
    replace d1 with (rotate_txn (with_defaults isr) t tok cid req res id bytes d).2
      by (by rewrite Hrot). apply step_rotate. }
  destruct (rotate_cases isr t tok cid req res id bytes d)
    as [(e & He)|[(rid & r & _ & _ & _ & He)|(rid & r & sc & tn & Hr)]]; [congruence..|].
  destruct Hr as (Hrid & Hh & Hl & _ & _ & _ & _ & _ & _ & Hn & _ & He).
  rewrite Hrot in He. injection He as -> ->.
  destruct (steps_extends _ d2 Hs rid (rotate_refresh_row t r)) as (r2 & Hr2 & Hc2 & Hrot2 & _);
    [by cbn [refresh_tokens set_refresh_tokens]; rewrite lookup_insert_eq|].
  assert (inv d2) as Hinv2 by by eapply oauth_steps_inv.
  assert (¬ live r2) as Hl2.
  { intros [Hx _]. destruct Hrot2 as [? ?]; [by eexists|]. congruence. }
  unfold core in Hc2. simpl in Hc2.
  exists r2, (revoke_family t' (family_id r2) d2). split_and!.
  - apply (spent_is_replay d2 rid); [done|done|congruence|done].
  - simpl. congruence.
  - intros d4 Hs4 k4 r4 Hk4 Hfam4. by eapply burned_family.
Qed.

(** ** Lineage *)

(** From the root to [k]: one family, one absolute limit, a scope the root's covers. *)
Lemma lineage_facts m k root :
  lineage m k root → ∀ r, m !! k = Some r →
  ∃ r0, m !! root = Some r0 ∧ parent_id r0 = None ∧ family_id r0 = family_id r ∧
    scope_covers (rt_scope r0) (rt_scope r) = true ∧ family_expires_at r = family_expires_at r0.
Proof.
  induction 1 as [k r Hk Hp|k r p rp root Hk Hp Hkp _ Hfam Hsc Hexp _ IH]; intros x Hx;
    (assert (x = r) as -> by congruence).
  - exists r. split_and!; try done. apply scope_covers_refl.
  - destruct (IH rp Hkp) as (r0 & H1 & H2 & H3 & H4 & H5). exists r0.
    split_and!; try done; [congruence|by eapply scope_covers_trans|congruence].
Qed.

(** rotation never widens what was granted. Every refresh token in the store descends by
    rotations from the first token of its family; it belongs to the same user, client,
    consent and resource, every scope it carries is one of the first token's, and it expires
    no later than 90 days after that first token was issued, however often the family was
    refreshed; and of the tokens of a family at most one is live. *)
Theorem rotation_never_widens d0 d k r :
  initial d0 → rtc step d0 d → refresh_tokens d !! k = Some r →
  (∃ root r0, lineage (refresh_tokens d) k root ∧ refresh_tokens d !! root = Some r0 ∧
     parent_id r0 = None ∧ rt_client_id r0 = rt_client_id r ∧ rt_user_id r0 = rt_user_id r ∧
     rt_consent_id r0 = rt_consent_id r ∧ rt_resource r0 = rt_resource r ∧
     (∀ s, s ∈ split_whitespace (rt_scope r) → s ∈ split_whitespace (rt_scope r0)) ∧
     expires_at r ≤ issued_at r0 + secs 7776000) ∧
  ∀ k' r', refresh_tokens d !! k' = Some r' → family_id r' = family_id r → live r → live r' → k' = k.
Proof.
  intros H0 Hs Hk. destruct (initial_inv d0 d H0 Hs) as [_ Hinv]. split.
  - destruct (inv_lineage _ Hinv k r Hk) as [root Hroot].
    destruct (lineage_facts _ k root Hroot r Hk) as (r0 & H1 & H2 & H3 & H4 & H5).
    exists root, r0. destruct (inv_owner _ Hinv root k r0 r H1 Hk H3) as (? & ? & ? & ?).
    split_and!; try done; [by apply scope_covers_spec|].
    pose proof (inv_expires _ Hinv k r Hk). pose proof (inv_lifetime _ Hinv root r0 H1 H2). lia.
  - intros k' r' Hk' Hfam [Hl _] [Hl' _]. by apply (inv_live _ Hinv k' k r' r).
Qed.

(** ** Revocation *)

Lemma steps_consents d d' k c :
  rtc step d d' → consents d !! k = Some c → is_Some (cs_revoked_at c) →
  ∃ c', consents d' !! k = Some c' ∧ is_Some (cs_revoked_at c').
Proof.
  intros Hs. revert c. induction Hs as [|d1 d2 d3 Hs _ IH]; intros c Hk Hc; [by exists c|].
  destruct (step_consents d1 d2 Hs k c Hk) as (c' & Hk' & _ & _ & Hc'). eauto.
Qed.
Lemma steps_clients d d' k c :
  rtc step d d' → clients d !! k = Some c → is_Some (c_revoked_at c) →
  ∃ c', clients d' !! k = Some c' ∧ is_Some (c_revoked_at c').
Proof.
  intros Hs. revert c. induction Hs as [|d1 d2 d3 Hs _ IH]; intros c Hk Hc; [by exists c|].
  destruct (step_clients d1 d2 Hs k c Hk) as (c' & Hk' & Hc'). eauto.
Qed.

(** The revocation takes effect exactly on an active consent of that user. *)
Lemma revoke_consent_foreign t id u d :
  (∀ c, consents d !! id = Some c → cs_user_id c = u → is_Some (cs_revoked_at c)) →
  revoke_consent_txn t id u d = (Err ConsentNotFound, d).
Proof.
  intros Hno. unfold revoke_consent_txn. rewrite (proj2 (count_where_0 _ _)); [done|].
  intros k x Hx. destruct (bool_decide (k = id)) eqn:H1; [|done].
  destruct (bool_decide (cs_user_id x = u)) eqn:H2; [|done].
  apply bool_decide_eq_true in H1, H2. subst k. simpl. by apply none_false, (Hno x).
Qed.
Lemma revoke_consent_ok t id u d d1 :
  revoke_consent_txn t id u d = (Ok tt, d1) →
  ∃ c, consents d !! id = Some c ∧ cs_user_id c = u ∧ cs_revoked_at c = None.
Proof.
  intros Hrev. destruct (consents d !! id) as [c|] eqn:Hc.
  - destruct (decide (cs_user_id c = u)) as [Hu|Hu]; [destruct (cs_revoked_at c) eqn:Hn|].
    + rewrite revoke_consent_foreign in Hrev; [done|]. intros c' Hc' _. assert (c' = c) as -> by congruence.
      rewrite Hn. by eexists.
    + by exists c.
    + rewrite revoke_consent_foreign in Hrev; [done|]. intros c' Hc' Hu'. congruence.
  - rewrite revoke_consent_foreign in Hrev; [done|]. intros c' Hc'. congruence.
Qed.

(** a user who revokes a consent cuts off every refresh token given under it, including
    one minted by an exchange that had read the consent just before: once the revocation has
    committed, no rotation, at any later time, of any token of that consent succeeds. A
    revocation by anyone but the consent's user changes nothing. *)
Theorem consent_revocation_final t id u d d1 d2 :
  revoke_consent_txn t id u d = (Ok tt, d1) → rtc step d1 d2 →
  (∃ c, consents d !! id = Some c ∧ cs_user_id c = u ∧ cs_revoked_at c = None) ∧
  (∀ isr t' tok cid req res nid bytes x d3,
     rotate_txn (with_defaults isr) t' tok cid req res nid bytes d2 = (Rotation x, d3) →
     rt_consent_id (old_row x) ≠ id) ∧
  ∀ u', u' ≠ u → revoke_consent_txn t id u' d = (Err ConsentNotFound, d).
Proof.
  intros Hrev Hs.
  destruct (revoke_consent_ok t id u d d1 Hrev) as (c & Hc & Hu & Hn).
  split_and!; [by exists c| |].
  - intros isr t' tok cid req res nid bytes x d3 Hrot Hid.
    destruct (rotate_cases isr t' tok cid req res nid bytes d2)
      as [(e & He)|[(rid & r & _ & _ & _ & He)|(rid & r & sc & tn & Hr)]]; [congruence..|].
    destruct Hr as (_ & _ & _ & _ & _ & _ & _ & _ & (c2 & Hc2 & Hn2) & _ & _ & He).
    rewrite Hrot in He. injection He as -> ->. simpl in Hid. rewrite Hid in Hc2.
    unfold revoke_consent_txn in Hrev. destruct (_ =? 0)%nat; [done|]. injection Hrev as <-.
    destruct (steps_consents _ d2 id (revoke_consent_row t c) Hs) as (c3 & Hc3 & [? Hn3]);
      [|by eexists|congruence].
    cbn [consents set_consents set_refresh_tokens revoke_refresh_where revoke_consents_where].
    rewrite lookup_update_where, Hc. simpl. rewrite !bool_decide_eq_true_2 by done. by rewrite Hn.
  - intros u' Hne. apply revoke_consent_foreign. intros c' Hc'. congruence.
Qed.

(** ** Authorization requests *)

(** A consumed request stays consumed. *)
Definition requests_step (m m' : gmap Uuid AuthRequest) : Prop :=
  ∀ k r, m !! k = Some r → ∃ r', m' !! k = Some r' ∧
    (is_Some (ar_consumed_at r) → is_Some (ar_consumed_at r')).
Lemma requests_step_refl m : requests_step m m.
Proof. intros k r Hk. by exists r. Qed.

Lemma step_requests d d' : step d d' → requests_step (requests d) (requests d').
Proof.
  intros Hs; destruct Hs; try solve [quiet_step ltac:(apply requests_step_refl)].
  - unfold insert_request. destruct (none (requests d !! id)) eqn:Hn; [|apply requests_step_refl].
    apply none_true in Hn. intros k r Hk. exists r. simpl.
    rewrite lookup_insert_ne; [done|]. intros ->. by rewrite Hk in Hn.
  - unfold consume_request_txn. destruct (requests d !! id) as [r0|] eqn:Hr; [|apply requests_step_refl].
    destruct (_ || _); [apply requests_step_refl|]. intros k r Hk. simpl.
    destruct (decide (k = id)) as [->|Hne].
    + rewrite lookup_insert_eq. by eexists.
    + rewrite lookup_insert_ne by congruence. by exists r.
Qed.

Lemma steps_requests d d' k r :
  rtc step d d' → requests d !! k = Some r → is_Some (ar_consumed_at r) →
  ∃ r', requests d' !! k = Some r' ∧ is_Some (ar_consumed_at r').
Proof.
  intros Hs. revert r. induction Hs as [|d1 d2 d3 Hs _ IH]; intros r Hk Hc; [by exists r|].
  destruct (step_requests d1 d2 Hs k r Hk) as (r' & Hk' & Hc'). eauto.
Qed.

Lemma consume_ok t id d r d1 :
  consume_request_txn t id d = (Some r, d1) →
  requests d !! id = Some r ∧ ar_consumed_at r = None ∧ t < ar_expires_at r ∧
  requests d1 !! id = Some (consume_request_row t r).
Proof.
  unfold consume_request_txn. destruct (requests d !! id) as [r0|]; [|done].
  destruct (none (ar_consumed_at r0)) eqn:Hn; [|done]. apply none_true in Hn.
  destruct (Z.leb_spec (ar_expires_at r0) t); [done|]. intros [= <- <-]. simpl.
  split_and!; try done. apply lookup_insert_eq.
Qed.

Lemma consumed_is_final t id d r d1 d2 t' :
  consume_request_txn t id d = (Some r, d1) → rtc step d1 d2 →
  consume_request_txn t' id d2 = (None, d2).
Proof.
  intros (_ & _ & _ & Hc)%consume_ok Hs.
  destruct (steps_requests _ d2 id _ Hs Hc) as (r' & Hr' & Hused); [by eexists|].
  unfold consume_request_txn. rewrite Hr'. by rewrite (proj2 (none_false _) Hused).
Qed.

(** Whether the consent screen is skipped, in a database nobody else touches. *)
Lemma skip_prompt_alone u cid scope d :
  (run (should_skip_prompt u cid scope) d).1.1 = true ↔
  ∃ c k cs, clients d !! cid = Some c ∧ is_Some (trusted_at c) ∧ find_consent u cid d = Some (k, cs) ∧
    revalidation_required_at cs = None ∧ scope_covers (scopes cs) scope = true.
Proof.
  simpl. destruct (clients d !! cid) as [c|]; [|naive_solver].
  destruct (trusted_at c) eqn:Htr; simpl; [|split; [done|]; intros (? & ? & ? & [= <-] & [? ?] & _); congruence].
  destruct (find_consent u cid d) as [[k cs]|]; [|naive_solver].
  destruct (revalidation_required_at cs) eqn:Hv; simpl; [naive_solver|]. split; [|naive_solver].
  intros Hc. exists c, k, cs. by split_and!.
Qed.

End Facts.
End OAuthFacts.
