(* ===== verification/OAuthRoutes.v ===== *)
(** The endpoints of the OAuth authorization server
    ([crates/ui/web-api/src/routes/oauth/], [oauth/cimd.rs], [oauth/cimd_parser/v0_draft00.rs]
    and the request types of [crates/shared/web-api-types/src/oauth/]), as handlers over the
    store: each [await] on the database is one statement, so other requests run in between.
    What a request carries, the UUIDs and random bytes it draws, the answer of the HTTP fetch
    and the identity the middleware established are arguments. *)

From Stdlib Require Import Ascii.
From stdpp Require Import base list gmap sets strings numbers sorting.
From S2P Require Import Prelude RustStr Hex Json RateLimit Handlers OAuthStore.
Local Open Scope Z_scope.

Module OAuthApi.
Import OAuth.

(** ** Responses and configuration *)

Record TokenResponse := mkTokenResponse {
  tr_access_token : string; tr_expires_in : Z; tr_refresh_token : option string;
  tr_refresh_expires_in : option Z; tr_scope : string }.

Record ConsentDetails := mkDetails {
  cd_client_id : string; cd_client_name : string; cd_scopes : list string;
  redirect_uri_host : string; requires_typed_confirmation : bool;
  typed_confirmation_value : string; revalidation_required : bool }.

Inductive Response :=
| Status (code : Z)
| OauthError (code : Z) (error description : string)
| TooManyRequests (retry_after : Z)
| Redirect302 (location : string)
| RedirectTo (url : string)
| TokenBody (b : TokenResponse)
| DetailsBody (b : ConsentDetails)
| RegistrationBody (code : Z) (b : DcrRegistrationResponse).

Definition oauth_400 (error description : string) : Response := OauthError 400 error description.
Definition oauth_401 (description : string) : Response := OauthError 401 "unauthorized_client" description.
Definition oauth_403 (error description : string) : Response := OauthError 403 error description.
Definition oauth_500 : Response := OauthError 500 "server_error" "internal server error".

(** [CanonicalUrlConfig]: the issuer, the primary resource and every accepted audience. *)
Record Canonical := mkCanonical {
  ca_issuer : string; primary_resource : string; accepted_resources : list string }.
Definition accepts_audience (c : Canonical) (a : string) : bool :=
  bool_decide (a ∈ accepted_resources c).

Record OAuthState := mkState {
  enabled : bool; canonical : Canonical; dcr_enabled : bool; cimd_enabled : bool }.

(** A [ValidationError] is its message. *)
Notation Validation := (Result string unit) (only parsing).

Record AuthorizeRequest := mkAuthorize {
  response_type : string; q_client_id : string; q_redirect_uri : string; q_scope : string;
  q_state : string; q_code_challenge : string; q_code_challenge_method : string;
  q_resource : option string }.

Definition validate_authorize (q : AuthorizeRequest) : Validation :=
  if negb (bool_decide (response_type q = "code")) then Err "response_type must be 'code'"
  else if negb (bool_decide (q_code_challenge_method q = "S256"))
       then Err "code_challenge_method must be 'S256'"
  else if str_is_empty (q_code_challenge q) then Err "code_challenge is required (PKCE)"
  else if str_is_empty (q_state q) then Err "state is required"
  else Ok tt.

Inductive TokenRequest :=
| AuthorizationCode (code redirect_uri client_id code_verifier : string) (resource : option string)
| RefreshToken (refresh_token client_id : string) (scope resource : option string).

Definition validate_token (q : TokenRequest) : Validation :=
  match q with
  | AuthorizationCode code _ _ code_verifier _ =>
      if str_is_empty code then Err "code is required"
      else if str_is_empty code_verifier then Err "code_verifier is required (PKCE)"
      else Ok tt
  | RefreshToken refresh_token _ _ _ =>
      if str_is_empty refresh_token then Err "refresh_token is required" else Ok tt
  end.

Definition validate_registration (q : DcrRegistrationRequest) : Validation :=
  if decide (d_redirect_uris q = []) then Err "at least one redirect_uri is required"
  else
    _ ← for_each (λ gt, if bool_decide (gt ∈ ["authorization_code"; "refresh_token"]) then Ok tt
                        else Err ("unsupported grant_type: " +:+ gt)) (d_grant_types q);
    _ ← for_each (λ rt, if bool_decide (rt ∈ ["code"]) then Ok tt
                        else Err ("unsupported response_type: " +:+ rt)) (d_response_types q);
    if bool_decide (d_token_endpoint_auth_method q ∈ ["none"; "client_secret_basic"]) then Ok tt
    else Err ("unsupported token_endpoint_auth_method: " +:+ d_token_endpoint_auth_method q).

Section Routes.
Context {E : Env} (st : OAuthState).

(** The optional parameter, unless it is empty. *)
Definition or_default (o : option string) (d : string) : string :=
  match o with Some s => if str_is_empty s then d else s | None => d end.

(** [check_rate_limit]: count, read back, answer 429. *)
Definition check_rate_limit (e : RateLimit.EndpointKind) (ip : string) : Server (option Response) :=
  let key := RateLimit.endpoint_key e ip in
  t ← now;
  _ ← exec (λ d, (tt, set_rate_limits
              (RateLimit.upsert t key (RateLimit.window_secs_of e) (rate_limits d)) d));
  row ← query (λ d, rate_limits d !! key);
  mret match RateLimit.outcome t (RateLimit.default_per_window e) (RateLimit.window_secs_of e) row with
       | RateLimit.Limited n => Some (TooManyRequests n)
       | RateLimit.Allowed => None
       end.

(** ** Redirect URIs *)

Definition is_loopback_url (u : Url) : bool :=
  bool_decide (scheme u = "http")
  && match host_str u with
     | Some h => bool_decide (h = "localhost") || bool_decide (h = "127.0.0.1")
     | None => false
     end.

Definition redirect_uri_matches (registered requested : string) : bool :=
  if decide (registered = requested) then true
  else match url_parse registered, url_parse requested with
       | Some reg, Some req =>
           is_loopback_url reg && is_loopback_url req
           && bool_decide (scheme reg = scheme req) && bool_decide (host_str reg = host_str req)
           && bool_decide (path reg = path req) && bool_decide (url_query reg = url_query req)
       | _, _ => false
       end.

Definition separator (uri : string) : string := if contains_char "?" uri then "&" else "?".
Definition code_location (uri code state : string) : string :=
  uri +:+ separator uri +:+ "code=" +:+ percent_encode code +:+ "&state=" +:+ percent_encode state.
Definition denied_location (uri state : string) : string :=
  uri +:+ separator uri +:+ "error=access_denied&state=" +:+ percent_encode state.

Definition build_authorize_uri (q : AuthorizeRequest) (resource : string) : string :=
  "/oauth/authorize?response_type=" +:+ percent_encode (response_type q)
  +:+ "&client_id=" +:+ percent_encode (q_client_id q)
  +:+ "&redirect_uri=" +:+ percent_encode (q_redirect_uri q)
  +:+ "&scope=" +:+ percent_encode (q_scope q) +:+ "&state=" +:+ percent_encode (q_state q)
  +:+ "&code_challenge=" +:+ percent_encode (q_code_challenge q)
  +:+ "&code_challenge_method=" +:+ percent_encode (q_code_challenge_method q)
  +:+ "&resource=" +:+ percent_encode resource.

(** ** Client metadata documents *)

Inductive CimdFetchError :=
  CimdHttp | BodyTooLarge | UnparseableFirstFetch | ClientIdMismatch | CimdRateLimited.

Definition MAX_BODY_BYTES : nat := 64 * 1024.
Definition COSMETIC_FIELDS : list string := ["tos_uri"; "policy_uri"; "software_version"; "software_id"].

Record CimdDocument := mkDocument { doc_client_id : string; doc_redirect_uris : list string; doc_client_name : string }.
Inductive CimdParseError := MissingField (f : string) | WrongType (f : string).

(** [value.get(f)] and [as_str]. *)
Definition get_field (f : string) (v : Value) : option Value :=
  match v with JObject l => json_get f l | _ => None end.
Definition as_str (v : Value) : option string := match v with JString s => Some s | _ => None end.
Definition string_field (f : string) (v : Value) : Result CimdParseError string :=
  match get_field f v with
  | None => Err (MissingField f)
  | Some w => match as_str w with Some s => Ok s | None => Err (WrongType f) end
  end.

Definition extract (v : Value) : Result CimdParseError CimdDocument :=
  client_id ← string_field "client_id" v;
  uris ← match get_field "redirect_uris" v with
         | None => Err (MissingField "redirect_uris")
         | Some (JArray l) =>
             for_fold (λ out item, match as_str item with
                                   | Some s => Ok (out ++ [s])
                                   | None => Err (WrongType "redirect_uris")
                                   end) [] l
         | Some _ => Err (WrongType "redirect_uris")
         end;
  name ← string_field "client_name" v;
  Ok (mkDocument client_id uris name).

(** [serde_json], [from_utf8_lossy] and the text of a parse error. *)
Context (parse_json : string → option Value) (json_text : Value → string)
  (utf8_lossy : string → string) (parse_error_text : CimdParseError → string).

(** The document without its cosmetic fields. *)
Definition material_fields (extra : list string) (l : list (string * Value)) : list (string * Value) :=
  filter (λ kv : string * Value, kv.1 ∉ COSMETIC_FIELDS ∧ kv.1 ∉ extra) l.
Definition compute_material_hash (extra : list string) (v : Value) : string :=
  match v with
  | JObject l => Hex.encode (sha256 (json_text (JObject (material_fields extra l))))
  | _ => ""
  end.

(** The parse of the body: the value and the document, or the error's text. *)
Definition parse_document (raw : string) : option Value * Result string CimdDocument :=
  match parse_json raw with
  | Some v => (Some v, map_err parse_error_text (extract v))
  | None => (None, Err "invalid JSON")
  end.

Definition flag_consent (t : Instant) (r : ConsentRow) : ConsentRow :=
  mkConsent (cs_user_id r) (cs_client_id r) (scopes r) (cimd_content_hash_at_grant r) (Some t)
    (granted_at r) (cs_revoked_at r).

(** Mark every active, unmarked consent of the client for revalidation. *)
Definition require_revalidation (t : Instant) (url : string) (d : Db) : Db :=
  set_consents (update_where (λ _ r, bool_decide (cs_client_id r = url) && none (cs_revoked_at r)
                                     && none (revalidation_required_at r))
                  (flag_consent t) (consents d)) d.

Definition refreshed_client (t : Instant) (doc : CimdDocument) (etag : option string) (hash raw : string)
    (c : Client) : Client :=
  let g := registration c in
  mkClient (mkRegistration (doc_client_name doc) (client_uri g) (logo_uri g)
              (strings_to_json (doc_redirect_uris doc)) (default_scope g) (grant_types g)
              (response_types g) (token_endpoint_auth_method g))
    (registration_access_token_hash c) (created_via c) (c_created_at c) (c_revoked_at c)
    (trusted_at c) (mkMetadata (Some t) etag (Some hash) (Some raw) None None).

Definition first_cimd_client (t : Instant) (doc : CimdDocument) (etag : option string) (hash raw : string)
    : Client :=
  mkClient (mkRegistration (doc_client_name doc) None None (strings_to_json (doc_redirect_uris doc))
              "" (strings_to_json ["authorization_code"]) (strings_to_json ["code"]) "none")
    None "cimd_cache" t None None (mkMetadata (Some t) etag (Some hash) (Some raw) None None).

Definition note_parse_error (t : Instant) (e : string) (c : Client) : Client :=
  let m := metadata c in
  mkClient (registration c) (registration_access_token_hash c) (created_via c) (c_created_at c)
    (c_revoked_at c) (trusted_at c)
    (mkMetadata (metadata_cached_at m) (metadata_etag m) (metadata_content_hash m)
       (metadata_raw m) (Some e) (Some t)).

Inductive CimdOutcome :=
| Refreshed (first_use material : bool)
| Kept (e : string)
| CimdFailed (e : CimdFetchError) (parse_error : option string).

(** Did the material part of the cached document change? *)
Definition material_change (extra : list string) (existing : option Client) (v : option Value) : bool :=
  let new_hash := default "" (compute_material_hash extra <$> v) in
  match existing ≫= λ c, metadata_raw (metadata c) ≫= parse_json with
  | Some old => negb (bool_decide (compute_material_hash extra old = new_hash))
  | None => false
  end.

(** The transaction of [fetch_and_upsert]. *)
Definition cimd_txn (t : Instant) (url : string) (extra : list string) (etag : option string)
    (hash raw : string) (d : Db) : CimdOutcome * Db :=
  let existing := clients d !! url in
  let '(v, parsed) := parse_document raw in
  match parsed with
  | Ok doc =>
      if negb (bool_decide (doc_client_id doc = url)) then (CimdFailed ClientIdMismatch None, d)
      else
        let material := material_change extra existing v in
        let d1 := if material then require_revalidation t url d else d in
        match existing with
        | Some c => (Refreshed false material,
                     set_clients (<[url := refreshed_client t doc etag hash raw c]> (clients d1)) d1)
        | None => (Refreshed true material,
                   set_clients (<[url := first_cimd_client t doc etag hash raw]> (clients d1)) d1)
        end
  | Err e =>
      match existing with
      | Some c => (Kept e, set_clients (<[url := note_parse_error t e c]> (clients d)) d)
      | None => (CimdFailed UnparseableFirstFetch (Some e), d)
      end
  end.

(** [fetched]: the answer of the HTTP client (an ETag and the body), or its failure. *)
Definition fetch_and_upsert (url : string) (source_ip : option string) (extra : list string)
    (fetched : option (option string * string)) : Server (Result CimdFetchError unit) :=
  limited ← check_rate_limit RateLimit.CimdFetch (default "unknown" source_ip +:+ ":" +:+ url);
  match limited with
  | Some _ => mret (Err CimdRateLimited)
  | None =>
      match fetched with
      | None => mret (Err CimdHttp)
      | Some (etag, body) =>
          if (MAX_BODY_BYTES <? str_len body)%nat then mret (Err BodyTooLarge)
          else
            t ← now;
            out ← exec (cimd_txn t url extra etag (Hex.encode (sha256 body)) (utf8_lossy body));
            match out with
            | Refreshed first material =>
                _ ← emit (if first then OAUTH_CLIENT_FIRST_USE url
                          else OAUTH_CLIENT_METADATA_REFRESHED url);
                if material : bool
                then _ ← emit (OAUTH_CLIENT_METADATA_CHANGED_MATERIALLY url); mret (Ok tt)
                else mret (Ok tt)
            | Kept e => _ ← emit (OAUTH_CIMD_PARSE_FAILED url e); mret (Ok tt)
            | CimdFailed err (Some e) => _ ← emit (OAUTH_CIMD_PARSE_FAILED url e); mret (Err err)
            | CimdFailed err None => mret (Err err)
            end
      end
  end.

(** ** GET /oauth/authorize *)

(** What the request draws: the ids of its two rows and the bytes of the code. *)
Record Draws := mkDraws { id1 : Uuid; id2 : Uuid; id3 : Uuid; bytes : string }.

(** The request's client, once its metadata document, if it has one, was refreshed. *)
Definition resolve_cimd (client_id ip : string) (extra : list string)
    (fetched : option (option string * string)) : Server (option Response) :=
  if starts_with "https://" client_id then
    if negb (cimd_enabled st)
    then mret (Some (oauth_400 "invalid_client"
                       "URL-shaped client_id requires CIMD support, which is disabled"))
    else
      r ← fetch_and_upsert client_id (Some ip) extra fetched;
      mret match r with
           | Ok _ => None
           | Err CimdRateLimited => Some (Status 429)
           | Err _ => Some (oauth_400 "invalid_client" "failed to fetch client metadata document")
           end
  else mret None.

Definition authorize_client (q : AuthorizeRequest) (resource : string) (c : option Client)
    : option Response :=
  match c with
  | None => Some (oauth_400 "invalid_client" "unknown client_id")
  | Some c =>
      match strings_of_json (redirect_uris (registration c)) with
      | None => Some (oauth_400 "invalid_client" "malformed client registration")
      | Some uris =>
          if negb (existsb (λ r, redirect_uri_matches r (q_redirect_uri q)) uris)
          then Some (oauth_400 "invalid_redirect_uri" "redirect_uri not registered for this client")
          else if negb (accepts_audience (canonical st) resource)
          then Some (oauth_400 "invalid_target" "resource indicator not accepted by this server")
          else None
      end
  end.

Definition create_of (q : AuthorizeRequest) (u : Uuid) (resource : string) : CreateAuthorizationRequest :=
  mkCreate (q_client_id q) u (q_redirect_uri q) (q_scope q) (q_state q) (q_code_challenge q)
    (q_code_challenge_method q) resource.
Definition mint_of (rid : Uuid) (q : AuthorizeRequest) (u : Uuid) (resource : string)
    : MintAuthorizationCode :=
  mkMint rid (q_client_id q) u (q_redirect_uri q) (q_scope q) (q_code_challenge q)
    (q_code_challenge_method q) resource.

(** Steps 7 and 8, for an authenticated user. *)
Definition authorize_user (q : AuthorizeRequest) (resource : string) (u : Uuid) (x : Draws)
    : Server Response :=
  skip ← should_skip_prompt u (q_client_id q) (q_scope q);
  r ← create_request (id1 x) (create_of q u resource);
  match r with
  | Err _ => mret (Status 500)
  | Ok rid =>
      if skip : bool then
        c ← mint_code (id2 x) (bytes x) (mint_of rid q u resource);
        mret match c with
             | Err _ => Status 500
             | Ok code => Redirect302 (code_location (q_redirect_uri q) code (q_state q))
             end
      else mret (Redirect302 ("/oauth/consent/" +:+ uuid_text rid))
  end.

Definition authorize (q : AuthorizeRequest) (ip : string) (user : option Uuid) (extra : list string)
    (fetched : option (option string * string)) (x : Draws) : Server Response :=
  if negb (enabled st) then mret (Status 404)
  else
    limited ← check_rate_limit RateLimit.Authorize ip;
    match limited with
    | Some r => mret r
    | None =>
        match validate_authorize q with
        | Err e => mret (oauth_400 "invalid_request" e)
        | Ok _ =>
            let resource := or_default (q_resource q) (primary_resource (canonical st)) in
            cimd ← resolve_cimd (q_client_id q) ip extra fetched;
            match cimd with
            | Some r => mret r
            | None =>
                c ← lookup_client (q_client_id q);
                match authorize_client q resource c with
                | Some r => mret r
                | None =>
                    match user with
                    | None => mret (Redirect302 ("/login?redirect="
                                +:+ percent_encode (build_authorize_uri q resource)
                                +:+ "&_auth_context=oauth"))
                    | Some u => authorize_user q resource u x
                    end
                end
            end
        end
    end.

(** ** The consent screen *)

(** The host in lower case; the URL parser has made it ASCII. *)
Definition parsed_host (uri : string) : option string := lowercase <$> (url_parse uri ≫= host_str).

Definition loopback_or_host (uri : string) : string :=
  let h := default "" (parsed_host uri) in
  if bool_decide (h ∈ ["localhost"; "127.0.0.1"; "[::1]"]) then "localhost" else h.

Definition require_auth_and_rate_limit (user : option Uuid) (ip : string) (e : RateLimit.EndpointKind)
    : Server (Result Response Uuid) :=
  match user with
  | None => mret (Err (Status 401))
  | Some u =>
      limited ← check_rate_limit e ip;
      mret match limited with Some r => Err r | None => Ok u end
  end.

Definition consent_details (rid : Uuid) (ip : string) (user : option Uuid) : Server Response :=
  if negb (enabled st) then mret (Status 404)
  else
    au ← require_auth_and_rate_limit user ip RateLimit.Consent;
    match au with
    | Err r => mret r
    | Ok u =>
        row ← query (λ d, requests d !! rid);
        match row with
        | None => mret (Status 404)
        | Some r =>
            t ← now;
            if negb (none (ar_consumed_at r)) || (ar_expires_at r <? t) then mret (Status 404)
            else if negb (bool_decide (ar_user_id r = u)) then mret (Status 403)
            else
              c ← lookup_client (ar_client_id r);
              match c with
              | None => mret (Status 404)
              | Some c =>
                  cs ← query (find_consent (ar_user_id r) (ar_client_id r));
                  mret (DetailsBody (mkDetails (ar_client_id r) (client_name (registration c))
                    (split_whitespace (ar_scope r)) (default "unknown" (parsed_host (ar_redirect_uri r)))
                    (none (trusted_at c)) (loopback_or_host (ar_redirect_uri r))
                    match cs with
                    | Some (_, k) => negb (none (revalidation_required_at k))
                    | None => false
                    end))
              end
        end
    end.

Definition approve_consent (rid : Uuid) (ip : string) (user : option Uuid) (x : Draws) : Server Response :=
  if negb (enabled st) then mret (Status 404)
  else
    au ← require_auth_and_rate_limit user ip RateLimit.Consent;
    match au with
    | Err r => mret r
    | Ok u =>
        pre ← query (λ d, requests d !! rid);
        match pre with
        | None => mret (oauth_400 "invalid_request" "authorization request expired or already used")
        | Some pr =>
            if negb (bool_decide (ar_user_id pr = u)) then mret (Status 403)
            else
              row ← consume_request rid;
              match row with
              | None => mret (oauth_400 "invalid_request" "authorization request expired or already used")
              | Some r =>
                  if negb (bool_decide (ar_user_id r = u)) then mret (Status 403)
                  else
                    g ← grant (id1 x) (ar_user_id r) (ar_client_id r) (ar_scope r) None;
                    match g with
                    | Err _ => mret oauth_500
                    | Ok _ =>
                        c ← mint_code (id2 x) (bytes x)
                              (mkMint rid (ar_client_id r) (ar_user_id r) (ar_redirect_uri r)
                                 (ar_scope r) (ar_code_challenge r) (ar_code_challenge_method r)
                                 (ar_resource r));
                        match c with
                        | Err _ => mret oauth_500
                        | Ok code =>
                            _ ← emit (OAUTH_CONSENT_GRANT (ar_user_id r) (ar_client_id r));
                            mret (RedirectTo (code_location (ar_redirect_uri r) code (ar_state r)))
                        end
                    end
              end
        end
    end.

Definition deny_consent (rid : Uuid) (ip : string) (user : option Uuid) : Server Response :=
  if negb (enabled st) then mret (Status 404)
  else
    au ← require_auth_and_rate_limit user ip RateLimit.Consent;
    match au with
    | Err r => mret r
    | Ok u =>
        row ← consume_request rid;
        match row with
        | None => mret (Status 410)
        | Some r =>
            if negb (bool_decide (ar_user_id r = u)) then mret (Status 403)
            else
              _ ← emit (OAUTH_CONSENT_DENY (ar_user_id r) (ar_client_id r));
              mret (RedirectTo (denied_location (ar_redirect_uri r) (ar_state r)))
        end
    end.

(** ** POST /oauth/token *)

Definition refresh_error_to_response (e : OAuthRefreshError) : Response :=
  match e with
  | InvalidGrant reason => oauth_400 "invalid_grant" reason
  | InvalidTarget => oauth_400 "invalid_target" "resource mismatch"
  | InvalidScope => oauth_400 "invalid_scope" "requested scope exceeds granted scope"
  | ConsentRevoked => oauth_400 "invalid_grant" "consent has been revoked"
  | Jwt _ | Database _ => oauth_500
  end.

Definition refresh_token_grant (resource tok client_id : string) (scope : option string) (x : Draws)
    : Server Response :=
  if negb (accepts_audience (canonical st) resource)
  then mret (oauth_400 "invalid_target" "resource indicator not accepted")
  else
    c ← lookup_client client_id;
    match c with
    | None => mret (oauth_400 "invalid_client" "unknown client_id")
    | Some c =>
        if negb (none (c_revoked_at c)) then mret (oauth_400 "invalid_client" "client revoked")
        else
          r ← rotate (with_defaults (ca_issuer (canonical st))) tok client_id scope resource
                (id1 x) (id2 x) (bytes x);
          mret match r with
               | Err e => refresh_error_to_response e
               | Ok o => TokenBody (mkTokenResponse (access_token o) (expires_in o)
                           (Some (ro_refresh_token o)) (Some (refresh_expires_in o)) (ro_scope o))
               end
    end.

Definition ACCESS_TOKEN_TTL_SECS : Z := 900.

(** [code_error_to_response]: the audit entry and the answer. *)
Definition code_error_to_response (e : OAuthCodeError) (client_id : string) : Server Response :=
  match e with
  | CodeInvalidGrant reason =>
      _ ← emit (OAUTH_TOKEN_REJECTED client_id "invalid_grant");
      mret (oauth_400 "invalid_grant" reason)
  | CodeInvalidTarget =>
      _ ← emit (OAUTH_TOKEN_REJECTED client_id "invalid_target");
      mret (oauth_400 "invalid_target" "resource indicator mismatch")
  | CodeDatabase _ => mret oauth_500
  end.

(** Steps 7 to 11, for a consumed code. *)
Definition issue_tokens (c : Code) (client_id resource : string) (x : Draws) (jti_id : Uuid)
    : Server Response :=
  cs ← query (find_consent (co_user_id c) client_id);
  match cs with
  | None => mret (oauth_400 "invalid_grant" "no active consent")
  | Some (consent_id, _) =>
      role ← query (λ d, list_find (λ ur : Uuid * Uuid, ur.1 = co_user_id c) (user_roles d));
      match role with
      | None => mret oauth_500
      | Some (_, (_, tn)) =>
          m ← mint_refresh (with_defaults (ca_issuer (canonical st))) (id1 x) (bytes x)
                client_id (co_user_id c) consent_id (co_scope c) resource;
          match m with
          | Err _ => mret oauth_500
          | Ok mo =>
              t ← now;
              match sign (access_claims (ca_issuer (canonical st)) ACCESS_TOKEN_TTL_SECS t
                            (co_user_id c) jti_id tn client_id (co_scope c) resource) with
              | Err _ => mret oauth_500
              | Ok at_ =>
                  _ ← emit (OAUTH_TOKEN_ISSUED (co_user_id c) client_id (co_scope c) resource);
                  mret (TokenBody (mkTokenResponse at_ ACCESS_TOKEN_TTL_SECS
                          (Some (mo_refresh_token mo)) (Some (mo_expires_in mo)) (co_scope c)))
              end
          end
      end
  end.

Definition authorization_code_grant (code redirect_uri client_id code_verifier resource : string)
    (x : Draws) : Server Response :=
  c ← lookup_client client_id;
  match c with
  | None =>
      _ ← emit (OAUTH_TOKEN_REJECTED client_id "unknown_client");
      mret (oauth_400 "invalid_client" "unknown client_id")
  | Some c =>
      if negb (none (c_revoked_at c)) then
        _ ← emit (OAUTH_TOKEN_REJECTED client_id "client_revoked");
        mret (oauth_400 "invalid_client" "client has been revoked")
      else if negb (accepts_audience (canonical st) resource) then
        _ ← emit (OAUTH_TOKEN_REJECTED client_id "invalid_target");
        mret (oauth_400 "invalid_target" "resource indicator not accepted")
      else
        r ← verify_and_consume code client_id redirect_uri code_verifier resource;
        match r with
        | Err e => code_error_to_response e client_id
        | Ok row => issue_tokens row client_id resource x (id3 x)
        end
  end.

Definition mcp_token (q : TokenRequest) (ip : string) (x : Draws) : Server Response :=
  if negb (enabled st) then mret (Status 404)
  else
    limited ← check_rate_limit RateLimit.Token ip;
    match limited with
    | Some r => mret r
    | None =>
        match validate_token q with
        | Err e => mret (oauth_400 "invalid_request" e)
        | Ok _ =>
            let def := primary_resource (canonical st) in
            match q with
            | AuthorizationCode code uri client_id ver resource =>
                authorization_code_grant code uri client_id ver (or_default resource def) x
            | RefreshToken tok client_id scope resource =>
                refresh_token_grant (or_default resource def) tok client_id scope x
            end
        end
    end.

(** ** Client registration *)

Definition registration_error_to_response (e : OAuthClientError) : Response :=
  match e with
  | RegistrationCapExceeded => oauth_403 "registration_not_allowed" "per-IP lifetime cap exceeded"
  | ClientDatabase _ | ClientNotFound => oauth_500
  end.

Definition register (q : DcrRegistrationRequest) (ip : string) (x : Draws) : Server Response :=
  if negb (enabled st) then mret (Status 404)
  else if negb (dcr_enabled st)
  then mret (oauth_403 "dcr_disabled" "dynamic client registration is not enabled")
  else
    limited ← check_rate_limit RateLimit.Dcr ip;
    match limited with
    | Some r => mret r
    | None =>
        match validate_registration q with
        | Err e => mret (oauth_400 "invalid_client_metadata" e)
        | Ok _ =>
            r ← register_dcr q (id1 x) (bytes x);
            match r with
            | Ok resp =>
                _ ← emit (OAUTH_CLIENT_REGISTERED (r_client_id resp));
                mret (RegistrationBody 201 resp)
            | Err e => mret (registration_error_to_response e)
            end
        end
    end.

Definition verify_registration_token (c : Client) (bearer : string) : bool :=
  match registration_access_token_hash c with
  | Some h => bool_decide (Hex.encode (sha256 bearer) = h)
  | None => false
  end.

(** The checks of the three management endpoints: the client, if the bearer owns it. *)
Definition registered_client (client_id : string) (bearer : option string)
    : Server (Result Response Client) :=
  if negb (enabled st) then mret (Err (Status 404))
  else match bearer with
       | None => mret (Err (oauth_401 "missing or malformed Authorization header"))
       | Some b =>
           c ← lookup_client client_id;
           mret match c with
                | None => Err (Status 404)
                | Some c =>
                    if negb (none (c_revoked_at c)) then Err (Status 404)
                    else if negb (verify_registration_token c b)
                    then Err (oauth_401 "invalid registration access token")
                    else Ok c
                end
       end.

Definition client_to_response (id : string) (c : Client) : option DcrRegistrationResponse :=
  let g := registration c in
  uris ← strings_of_json (redirect_uris g);
  gts ← strings_of_json (grant_types g);
  rts ← strings_of_json (response_types g);
  Some (mkDcrResponse id (unix_timestamp (c_created_at c)) None ("/oauth/register/" +:+ id)
          (mkDcr (client_name g) (client_uri g) (logo_uri g) uris gts rts
             (token_endpoint_auth_method g) (Some (default_scope g)))).

Definition body_or_500 (o : option DcrRegistrationResponse) : Response :=
  match o with Some b => RegistrationBody 200 b | None => oauth_500 end.

Definition get_client_registration (client_id : string) (bearer : option string) : Server Response :=
  c ← registered_client client_id bearer;
  mret match c with Err r => r | Ok c => body_or_500 (client_to_response client_id c) end.

Definition update_client_registration (client_id : string) (bearer : option string)
    (q : DcrRegistrationRequest) : Server Response :=
  c ← registered_client client_id bearer;
  match c with
  | Err r => mret r
  | Ok _ =>
      match validate_registration q with
      | Err e => mret (oauth_400 "invalid_client_metadata" e)
      | Ok _ =>
          u ← exec (update_registration_stmt client_id (registration_of q));
          mret match u with
               | None => oauth_500
               | Some c' => body_or_500 (client_to_response client_id c')
               end
      end
  end.

Definition delete_client_registration (client_id : string) (bearer : option string) : Server Response :=
  c ← registered_client client_id bearer;
  match c with
  | Err r => mret r
  | Ok _ =>
      r ← revoke_client client_id;
      match r with
      | Ok _ => _ ← emit (OAUTH_CLIENT_REVOKED client_id); mret (Status 204)
      | Err _ => mret oauth_500
      end
  end.

(** ** Operator and end-user endpoints *)

(** The operator endpoints; the middleware has checked [settings.auth:manage]. *)
Definition manual_register_client (q : DcrRegistrationRequest) (x : Draws) : Server Response :=
  if negb (enabled st) then mret (Status 404)
  else match validate_registration q with
       | Err e => mret (oauth_400 "invalid_request" e)
       | Ok _ =>
           r ← register_manual q (id1 x) (bytes x);
           match r with
           | Ok resp => _ ← emit (OAUTH_CLIENT_REGISTERED (r_client_id resp));
                        mret (RegistrationBody 201 resp)
           | Err _ => mret oauth_500
           end
       end.

Definition revoke_client_route (client_id : string) : Server Response :=
  if negb (enabled st) then mret (Status 404)
  else
    r ← revoke_client client_id;
    match r with
    | Ok _ => _ ← emit (OAUTH_CLIENT_REVOKED client_id); mret (Status 204)
    | Err _ => mret (Status 404)
    end.

Definition trust_client (client_id : string) : Server Response :=
  if negb (enabled st) then mret (Status 404)
  else
    r ← promote_trusted client_id;
    match r with
    | Ok _ => _ ← emit (OAUTH_CLIENT_TRUSTED client_id); mret (Status 204)
    | Err _ => mret (Status 404)
    end.

Definition revoke_consent_route (u id : Uuid) : Server Response :=
  if negb (enabled st) then mret (Status 404)
  else
    row ← query (λ d, consents d !! id);
    match row with
    | None => mret (Status 404)
    | Some r =>
        if negb (bool_decide (cs_user_id r = u)) then mret (Status 403)
        else
          o ← revoke_consent id u;
          match o with
          | Ok _ => _ ← emit (OAUTH_CONSENT_REVOKE id); mret (Status 204)
          | Err _ => mret (Status 404)
          end
    end.

End Routes.
End OAuthApi.
