(* ===== verification/OAuthFlows.v ===== *)
(** The OAuth endpoints among other requests: every statement they make is a step of the
    store, so the store's guarantees hold across any interleaving; what a token response, a
    code and a consent decision then mean. *)

From stdpp Require Import base list gmap sets strings numbers relations.
From S2P Require Import Prelude RustStr Hex Json RateLimit Handlers OAuthStore OAuthTheorems OAuthRoutes.
Local Open Scope Z_scope.

Module OAuthFlow.
Import OAuth OAuthFacts OAuthApi.

Section Flows.
Context {E : Env} (st : OAuthState) (parse_json : string → option Value)
  (json_text : Value → string) (utf8_lossy : string → string)
  (parse_error_text : CimdParseError → string).

Notation authorize := (authorize st parse_json json_text utf8_lossy parse_error_text).
Notation cimd_txn := (cimd_txn parse_json json_text parse_error_text).

(** ** Every statement is a step *)

Lemma one_step d d' : step d d' → rtc step d d'.
Proof. apply rtc_once. Qed.

Lemma obeys_now : obeys step (now : Server Instant).
Proof. apply obeys_query. Qed.

Lemma clients_keep_step d id c c' :
  clients d !! id = Some c → c_revoked_at c' = c_revoked_at c → trusted_at c' = trusted_at c →
  created_via c' = created_via c → rtc step d (set_clients (<[id := c']> (clients d)) d).
Proof.
  intros Hc H1 H2 H3. apply one_step.
  assert (<[id := c']> (clients d) = alter (λ x, mkClient (registration c')
    (registration_access_token_hash c') (created_via x) (c_created_at c') (c_revoked_at x)
    (trusted_at x) (metadata c')) id (clients d)) as ->.
  { apply map_eq. intros k. destruct (decide (k = id)) as [->|Hne].
    - rewrite lookup_insert_eq, lookup_alter_eq, Hc. simpl. rewrite <-H1, <-H2, <-H3.
      by destruct c'.
    - by rewrite lookup_insert_ne, lookup_alter_ne by congruence. }
  by apply step_update_client.
Qed.

Lemma cimd_steps t url extra etag hash raw d :
  rtc step d (cimd_txn t url extra etag hash raw d).2.
Proof.
  unfold OAuthApi.cimd_txn. destruct (parse_document _ _ raw) as [v parsed].
  destruct parsed as [doc|e].
  - destruct (negb _); [apply rtc_refl|].
    set (d1 := if material_change _ _ _ _ _ then _ else _).
    assert (rtc step d d1 ∧ clients d1 = clients d) as [Hs Hc].
    { unfold d1. destruct (material_change _ _ _ _ _); [|split; [apply rtc_refl|done]].
      split; [|done]. apply one_step, step_flag_consents. }
    clearbody d1. etrans; [exact Hs|]. rewrite <-Hc. destruct (clients d1 !! url) as [c|] eqn:Hurl.
    + simpl. by apply clients_keep_step with c.
    + simpl. apply one_step. set (c := first_cimd_client _ _ _ _ _).
      pose proof (step_insert_client url c d1 eq_refl eq_refl) as Hi.
      unfold insert_client in Hi. rewrite (proj2 (none_true _) Hurl) in Hi. exact Hi.
  - destruct (clients d !! url) as [c|] eqn:Hurl; [|apply rtc_refl].
    by apply clients_keep_step with c.
Qed.

(** Discharge an [obeys] goal by walking down the handler. *)
Ltac obey :=
  repeat match goal with
  | |- obeys _ (_ ≫= _) => apply obeys_bind; [|intros ?]
  | |- obeys _ (query _) => apply obeys_query
  | |- obeys _ (emit _) => apply obeys_emit1
  | |- obeys _ (mret _) => done
  | |- obeys _ now => apply obeys_now
  | |- obeys _ (match ?x with _ => _ end) => destruct x
  | |- obeys _ (if ?x then _ else _) => destruct x
  end.

Lemma obeys_check_rate_limit e ip : obeys step (check_rate_limit e ip : Server _).
Proof. unfold check_rate_limit. obey. apply obeys_exec. intros d. apply one_step, step_rate_limit. Qed.

Ltac obey_step c := apply obeys_exec; intros d; apply one_step, c.

Lemma obeys_rotate isr tok cid req res id jid b :
  obeys step (rotate (with_defaults isr) tok cid req res id jid b).
Proof. unfold rotate. obey. obey_step step_rotate. Qed.
Lemma obeys_verify code cid uri ver res : obeys step (verify_and_consume code cid uri ver res).
Proof. unfold verify_and_consume. obey. obey_step step_exchange. Qed.
Lemma obeys_mint_code id b p : obeys step (mint_code id b p).
Proof. unfold mint_code. obey. obey_step step_insert_code. Qed.
Lemma obeys_mint_refresh isr id b cid u cs s res :
  obeys step (mint_refresh (with_defaults isr) id b cid u cs s res).
Proof. unfold mint_refresh. obey. obey_step step_first_refresh. Qed.
Lemma obeys_grant id u cid s h : obeys step (grant id u cid s h).
Proof. unfold grant. obey; [obey_step step_regrant|obey_step step_insert_consent]. Qed.
Lemma obeys_consume id : obeys step (consume_request id).
Proof. unfold consume_request. obey. obey_step step_consume_request. Qed.
Lemma obeys_create id p : obeys step (create_request id p).
Proof. unfold create_request. obey. obey_step step_insert_request. Qed.
Lemma obeys_revoke_client cid : obeys step (revoke_client cid).
Proof. unfold revoke_client. obey. obey_step step_revoke_client. Qed.
Lemma obeys_do_register q via id b : obeys step (do_register q via id b).
Proof.
  unfold do_register. obey. apply obeys_exec. intros d. by apply one_step, step_insert_client.
Qed.
Lemma obeys_cimd url ip extra fetched :
  obeys step (fetch_and_upsert parse_json json_text utf8_lossy parse_error_text url ip extra fetched).
Proof.
  unfold fetch_and_upsert. obey; try apply obeys_check_rate_limit.
  apply obeys_exec. intros d. apply cimd_steps.
Qed.

Lemma obeys_authorize q ip u extra f x : obeys step (authorize q ip u extra f x).
Proof.
  unfold OAuthApi.authorize, resolve_cimd, lookup_client, authorize_user, should_skip_prompt.
  obey; auto using obeys_check_rate_limit, obeys_cimd, obeys_create, obeys_mint_code.
Qed.
Lemma obeys_auth u ip e : obeys step (require_auth_and_rate_limit u ip e : Server _).
Proof. unfold require_auth_and_rate_limit. obey. apply obeys_check_rate_limit. Qed.
Lemma obeys_approve rid ip u x : obeys step (approve_consent st rid ip u x).
Proof.
  unfold approve_consent. obey; auto using obeys_auth, obeys_consume, obeys_grant, obeys_mint_code.
Qed.
Lemma obeys_deny rid ip u : obeys step (deny_consent st rid ip u : Server _).
Proof. unfold deny_consent. obey; auto using obeys_auth, obeys_consume. Qed.
Lemma obeys_token q ip x : obeys step (mcp_token st q ip x).
Proof.
  unfold mcp_token, authorization_code_grant, refresh_token_grant, issue_tokens,
    code_error_to_response, lookup_client.
  obey; auto using obeys_check_rate_limit, obeys_verify, obeys_rotate, obeys_mint_refresh.
Qed.
Lemma obeys_register q ip x : obeys step (register st q ip x).
Proof.
  unfold register, register_dcr. obey; auto using obeys_check_rate_limit, obeys_do_register.
Qed.
Lemma obeys_registered cid b : obeys step (registered_client st cid b : Server _).
Proof. unfold registered_client, lookup_client. obey. Qed.
Lemma obeys_update cid b q : obeys step (update_client_registration st cid b q).
Proof.
  unfold update_client_registration. obey; auto using obeys_registered. apply obeys_exec.
  intros d. unfold update_registration_stmt. destruct (clients d !! cid) as [c|] eqn:Hc; [|apply rtc_refl].
  by apply clients_keep_step with c.
Qed.
Lemma obeys_delete cid b : obeys step (delete_client_registration st cid b : Server _).
Proof. unfold delete_client_registration. obey; auto using obeys_registered, obeys_revoke_client. Qed.
Lemma obeys_operator q cid u id x :
  obeys step (manual_register_client st q x) ∧ obeys step (revoke_client_route st cid) ∧
  obeys step (trust_client st cid) ∧ obeys step (revoke_consent_route st u id).
Proof.
  split_and!; [unfold manual_register_client, register_manual|unfold revoke_client_route
    |unfold trust_client, promote_trusted|unfold revoke_consent_route, revoke_consent];
    obey; auto using obeys_do_register, obeys_revoke_client.
  - obey_step step_trust.
  - obey_step step_revoke_consent.
Qed.

(** ** Metadata documents *)

(** Every active consent of the client waits for revalidation. *)
Lemma revalidation_pending t u url d k cs :
  find_one (active_consent u url) (consents (require_revalidation t url d)) = Some (k, cs) →
  revalidation_required_at cs ≠ None.
Proof.
  intros [Hk Hact]%find_one_Some. unfold require_revalidation in Hk.
  cbn [consents set_consents] in Hk. rewrite lookup_update_where in Hk.
  destruct (consents d !! k) as [r|]; [|done]. injection Hk as <-. unfold active_consent in Hact.
  destruct (bool_decide (cs_client_id r = url)) eqn:H1, (cs_revoked_at r) eqn:H2,
    (revalidation_required_at r) eqn:H3; simpl in *; rewrite ?H1, ?H2, ?H3 in *; simpl in *;
    rewrite ?andb_false_r in *; done.
Qed.

(** when the material part of a client's metadata document changes, nobody is waved
    through on an old consent: the transaction that stores the new document leaves every
    active consent of that client awaiting revalidation, so the consent screen is shown for
    every user and scope; the client keeps its revocation and trust marks, consents of other
    clients are untouched, and a document whose [client_id] is not its URL, or that does not
    parse on first use, changes nothing. *)
Theorem material_change_prompts t url extra etag hash raw d out d' :
  cimd_txn t url extra etag hash raw d = (out, d') →
  (∀ first, out = Refreshed first true →
     ∀ u scope, (run (should_skip_prompt u url scope) d').1.1 = false) ∧
  (∀ c, clients d !! url = Some c → ∃ c', clients d' !! url = Some c' ∧
     c_revoked_at c' = c_revoked_at c ∧ trusted_at c' = trusted_at c) ∧
  (∀ k r, consents d !! k = Some r → cs_client_id r ≠ url → consents d' !! k = Some r) ∧
  (∀ e pe, out = CimdFailed e pe → d' = d).
Proof.
  clear st utf8_lossy. unfold OAuthApi.cimd_txn. destruct (parse_document _ _ raw) as [v [doc|e]].
  - destruct (bool_decide (doc_client_id doc = url)); simpl; [|naive_solver].
    set (m := material_change _ _ _ _ _). intros Hout. split_and!.
    + intros first -> u scope. assert (m = true ∧ consents d' = consents (require_revalidation t url d))
        as [_ Hcs] by (destruct m, (clients d !! url); by simplify_eq/=).
      destruct (run _ d').1.1 eqn:Hskip; [|done].
      apply skip_prompt_alone in Hskip as (c & k & cs & _ & _ & Hf & Hv & _).
      unfold find_consent in Hf. rewrite Hcs in Hf. by apply revalidation_pending in Hf.
    + intros c Hc. rewrite Hc in Hout. injection Hout as <- <-. cbn [clients set_clients].
      rewrite lookup_insert_eq. by eexists.
    + intros k r Hk Hne.
      assert (consents (if m then require_revalidation t url d else d) !! k = Some r) as Hk'.
      { destruct m; [|done]. unfold require_revalidation. cbn [consents set_consents].
        rewrite lookup_update_where, Hk. simpl. by rewrite bool_decide_eq_false_2. }
      destruct (clients d !! url); by injection Hout as <- <-.
    + intros e pe ->. by destruct (clients d !! url).
  - destruct (clients d !! url) as [c|] eqn:Hc; intros [= <- <-]; split_and!; try naive_solver.
    intros c' [= <-]. cbn [clients set_clients]. rewrite lookup_insert_eq. by eexists.
Qed.

End Flows.

(** ** What a token response means *)

Section Justified.
Context {E : Env} (st : OAuthState) (env : relation Db).

(** What may have happened by the time the rate limit is behind a request: other requests'
    statements, and its own two writes to the rate-limit table. *)
Definition past (d d' : Db) : Prop := env d d' ∨ ∃ l, d' = set_rate_limits l d.

(** The service read the clock, [t], on the way from [d] to [d']. *)
Definition timed (d : Db) (t : Instant) (d' : Db) : Prop :=
  ∃ dt, rtc env d dt ∧ t = clock dt ∧ rtc env dt d'.

(** The code of an [AuthorizationCode] grant was good and is spent: it was stored, unconsumed,
    unexpired, issued to this client for this redirect URI and resource, its challenge was the
    hash of the verifier, and its row is consumed in [d']. *)
Definition code_spent (code cid uri ver res : string) (c : Code) (d d' : Db) : Prop :=
  ∃ t da id, timed d t da ∧ codes da !! id = Some c ∧ code_hash c = hash_token code ∧
    consumed_at c = None ∧ t < co_expires_at c ∧ co_client_id c = cid ∧
    co_redirect_uri c = uri ∧ co_resource c = res ∧ code_challenge c = b64url (sha256 ver) ∧
    d' = set_codes (<[id := consume_code_row t c]> (codes da)) da.

(** The token of a [RefreshToken] grant was good: stored, neither rotated nor revoked, within
    its own and its family's lifetime, of this client and resource, under a consent that was
    not revoked. *)
Definition refresh_good (tok cid res : string) (r : Refresh) (d : Db) : Prop :=
  ∃ t da id k, timed d t da ∧ refresh_tokens da !! id = Some r ∧ token_hash r = hash_token tok ∧
    live r ∧ t < expires_at r ∧ t < family_expires_at r ∧ rt_client_id r = cid ∧
    rt_resource r = res ∧ consents da !! rt_consent_id r = Some k ∧ cs_revoked_at k = None.

(** The access token of the response was signed over these claims. *)
Definition signed_for (b : TokenResponse) (u : Uuid) (cid scope res : string) : Prop :=
  tr_scope b = scope ∧ ∃ t jid tn,
    sign (access_claims (ca_issuer (canonical st)) 900 t u jid tn cid scope res) = Ok (tr_access_token b).

Lemma rtc_past d d' : rtc env d d' → rtc past d d'.
Proof. apply rtc_subrel. intros x y Hs. by left. Qed.

Lemma runs_now d t d' es : runs env (now : Server Instant) d t d' es ↔ rtc env d d' ∧ t = clock d' ∧ es = [].
Proof. apply runs_query. Qed.

Lemma runs_limit e ip d r d' es :
  runs env (check_rate_limit e ip : Server _) d r d' es →
  rtc past d d' ∧ es = [] ∧ (r = None ∨ ∃ n, r = Some (TooManyRequests n)).
Proof.
  intros Hr. unfold check_rate_limit in Hr. apply runs_bind in Hr as (t & d1 & ? & ? & Hn & Hr & ->).
  apply runs_now in Hn as (Hs1 & _ & ->). inv_runs. subst. simplify_eq/=. split_and!; [|done|].
  - etrans; [apply rtc_past; by etrans|]. eapply rtc_l; [right; by eexists|]. by apply rtc_past.
  - destruct (RateLimit.outcome _ _ _ _); eauto.
Qed.

Lemma runs_lookup cid d c d' es :
  runs env (lookup_client cid : Server _) d c d' es ↔ rtc env d d' ∧ c = clients d' !! cid ∧ es = [].
Proof. apply (runs_query env (λ d, clients d !! cid)). Qed.

(** A service call is a reading of the clock and then its transaction. *)
Lemma runs_timed {A} (f : Instant → Db → A * Db) d r d' es :
  runs env (t ← now; exec (f t)) d r d' es →
  ∃ t da, timed d t da ∧ f t da = (r, d') ∧ es = [].
Proof.
  intros Hr. apply runs_bind in Hr as (t & d1 & ? & ? & Hn & Hr & ->).
  apply runs_now in Hn as (Hs1 & -> & ->). apply runs_exec in Hr as (da & Hs & Hf & ->).
  exists (clock d1), da. split_and!; [|done|done]. by exists d1.
Qed.

Lemma timed_steps d t d' : timed d t d' → rtc env d d'.
Proof. intros (dt & H1 & _ & H2). by etrans. Qed.

Lemma timed_after d d1 t d' : rtc env d d1 → timed d1 t d' → timed d t d'.
Proof. intros Hs (dt & H1 & H2 & H3). exists dt. split; [by etrans|done]. Qed.

(** The client was registered and not revoked in [d]. *)
Definition client_open (cid : string) (d : Db) : Prop :=
  ∃ c, clients d !! cid = Some c ∧ c_revoked_at c = None.

(** A branch that answers with something else. *)
Ltac refused :=
  cbn [negb] in *; inv_runs; match goal with H : @eq Response _ _ |- _ => discriminate H end.

Lemma issue_tokens_good c cid res x jid d b d' es :
  runs env (issue_tokens st c cid res x jid) d (TokenBody b) d' es →
  ∃ dc k cs, rtc env d dc ∧ consents dc !! k = Some cs ∧
    cs_user_id cs = co_user_id c ∧ cs_client_id cs = cid ∧ cs_revoked_at cs = None ∧
    signed_for b (co_user_id c) cid (co_scope c) res ∧
    es = [OAUTH_TOKEN_ISSUED (co_user_id c) cid (co_scope c) res].
Proof.
  unfold issue_tokens. intros Hr. apply runs_bind in Hr as (cs & dc & ? & ? & Hcs & Hr & ->).
  apply runs_query in Hcs as (Hsc & -> & ->).
  destruct (find_consent (co_user_id c) cid dc) as [[k cs]|] eqn:Hf; [|refused].
  apply find_one_Some in Hf as [Hk Hact]. unfold active_consent in Hact.
  apply andb_true_iff in Hact as [[H1 H2]%andb_true_iff H3].
  apply bool_decide_eq_true in H1, H2. apply none_true in H3.
  apply runs_bind in Hr as (role & dr & ? & ? & Hrole & Hr & ->).
  apply runs_query in Hrole as (Hsr & -> & ->).
  destruct (list_find _ (user_roles dr)) as [[i [u0 tn]]|]; [|refused].
  apply runs_bind in Hr as (m & dm & ? & ? & Hm & Hr & ->).
  unfold mint_refresh, now in Hm. unfold now in Hr. inv_runs. subst.
  destruct (map_err _ _) as [mo|e]; [|refused]. inv_runs. subst.
  destruct (sign _) as [at_|e] eqn:Hsign; [|refused]. inv_runs. subst. simplify_eq/=.
  exists dc, k, cs. split_and!; try done. split; [done|]. eauto.
Qed.

Lemma code_grant_good code uri cid ver res x d b d' es :
  runs env (authorization_code_grant st code uri cid ver res x) d (TokenBody b) d' es →
  accepts_audience (canonical st) res = true ∧
  ∃ dl c dv dc k cs, rtc env d dl ∧ client_open cid dl ∧
    code_spent code cid uri ver res c dl dv ∧ rtc env dv dc ∧
    consents dc !! k = Some cs ∧
    cs_user_id cs = co_user_id c ∧ cs_client_id cs = cid ∧ cs_revoked_at cs = None ∧
    signed_for b (co_user_id c) cid (co_scope c) res ∧
    es = [OAUTH_TOKEN_ISSUED (co_user_id c) cid (co_scope c) res].
Proof.
  unfold authorization_code_grant. intros Hr. apply runs_bind in Hr as (c0 & dl & ? & ? & Hl & Hr & ->).
  apply runs_lookup in Hl as (Hsl & -> & ->).
  destruct (clients dl !! cid) as [c0|] eqn:Hc0; [|refused].
  destruct (none (c_revoked_at c0)) eqn:Hrev; [|refused]. apply none_true in Hrev.
  destruct (accepts_audience (canonical st) res) eqn:Haud; [|refused]. cbn [negb] in Hr.
  split; [done|]. apply runs_bind in Hr as (row & dv & ? & ? & Hv & Hr & ->).
  apply (runs_timed (λ t, verify_and_consume_txn t code cid uri ver res)) in Hv
    as (t & da & Hsa & Hst & ->).
  destruct row as [c|e]; [|destruct e; unfold code_error_to_response in Hr; refused].
  destruct (exchange_cases t code cid uri ver res da) as [(e & He)|(id & c1 & He & Hg)];
    [congruence|].
  rewrite He in Hst. injection Hst as -> <-.
  apply issue_tokens_good in Hr as (dc & k & cs & Hsc & Hk & H1 & H2 & H3 & Hsig & ->).
  eexists dl, c, _, dc, k, cs. split_and!; [done|by exists c0| |exact Hsc|done..].
  exists t, da, id. naive_solver.
Qed.

Lemma refresh_grant_good res tok cid scope x d b d' es :
  runs env (refresh_token_grant st res tok cid scope x) d (TokenBody b) d' es →
  accepts_audience (canonical st) res = true ∧
  ∃ dl r, rtc env d dl ∧ client_open cid dl ∧ refresh_good tok cid res r dl ∧
    scope_covers (rt_scope r) (tr_scope b) = true ∧
    signed_for b (rt_user_id r) cid (tr_scope b) res ∧
    es = [OAUTH_REFRESH_ROTATED (rt_user_id r) cid (family_id r)].
Proof.
  unfold refresh_token_grant. intros Hr.
  destruct (accepts_audience (canonical st) res) eqn:Haud; [|refused]. cbn [negb] in Hr.
  split; [done|]. apply runs_bind in Hr as (c0 & dl & ? & ? & Hl & Hr & ->).
  apply runs_lookup in Hl as (Hsl & -> & ->).
  destruct (clients dl !! cid) as [c0|] eqn:Hc0; [|refused].
  destruct (none (c_revoked_at c0)) eqn:Hrev; [|refused]. apply none_true in Hrev.
  cbn [negb] in Hr.
  apply runs_bind in Hr as (o & dr & ? & ? & Ho & Hr & ->). unfold rotate in Ho.
  apply runs_bind in Ho as (t & dt & ? & ? & Ht & Ho & ->). apply runs_now in Ht as (Hst & Hclk & ->).
  apply runs_bind in Ho as (rr & d2 & ? & ? & Hx & Ho & ->). apply runs_exec in Hx as (da & Hsa & Hx & ->).
  destruct (rotate_cases (ca_issuer (canonical st)) t tok cid scope res (id1 x) (bytes x) da)
    as [(e & He)|[(rid & r & _ & _ & _ & He)|(rid & r & sc & tn & Hg)]].
  - assert (rr = Refused e) as -> by congruence. inv_runs. subst. destruct e; discriminate.
  - assert (rr = Replay r) as -> by congruence. inv_runs. subst. discriminate.
  - destruct Hg as (Hid & Hh & Hlv & Hex & Hfx & Hcl & Hres & Hsc & (k & Hk & Hkr) & _ & _ & He).
    rewrite He in Hx. injection Hx as <- _. cbn [old_row new_scope tenant] in Ho.
    destruct (sign _) as [at_|e] eqn:Hsign; [|by inv_runs; subst].
    inv_runs. subst. simplify_eq/=. exists dl, r. split_and!; try done.
    + by exists c0.
    + exists (clock dt), da, rid, k. split_and!; try done. by exists dt.
    + split; [done|]. eauto.
Qed.

(** The facts behind a token response. *)
Lemma token_facts q ip x d b d' es :
  runs env (mcp_token st q ip x) d (TokenBody b) d' es →
  match q with
  | AuthorizationCode code uri cid ver r =>
      let res := or_default r (primary_resource (canonical st)) in
      accepts_audience (canonical st) res = true ∧
      ∃ dl c dv dc k cs, rtc past d dl ∧ client_open cid dl ∧
        code_spent code cid uri ver res c dl dv ∧ rtc env dv dc ∧
        consents dc !! k = Some cs ∧
        cs_user_id cs = co_user_id c ∧ cs_client_id cs = cid ∧ cs_revoked_at cs = None ∧
        signed_for b (co_user_id c) cid (co_scope c) res ∧
        es = [OAUTH_TOKEN_ISSUED (co_user_id c) cid (co_scope c) res]
  | RefreshToken tok cid scope r =>
      let res := or_default r (primary_resource (canonical st)) in
      accepts_audience (canonical st) res = true ∧
      ∃ dl row, rtc past d dl ∧ client_open cid dl ∧ refresh_good tok cid res row dl ∧
        scope_covers (rt_scope row) (tr_scope b) = true ∧
        signed_for b (rt_user_id row) cid (tr_scope b) res ∧
        es = [OAUTH_REFRESH_ROTATED (rt_user_id row) cid (family_id row)]
  end.
Proof.
  unfold mcp_token. intros Hr. destruct (enabled st); [|refused]. cbn [negb] in Hr.
  apply runs_bind in Hr as (lim & d1 & ? & ? & Hl & Hr & ->). apply runs_limit in Hl as (Hs & -> & Hlim).
  destruct Hlim as [->|[n ->]]; [|refused].
  destruct (validate_token q); [|refused].
  destruct q as [code uri cid ver r|tok cid scope r]; simpl.
  - apply code_grant_good in Hr as (Haud & dl & c & dv & dc & k & cs & Hl & Hg).
    split; [done|]. exists dl, c, dv, dc, k, cs. split; [|done]. etrans; [done|]. by apply rtc_past.
  - apply refresh_grant_good in Hr as (Haud & dl & row & Hl & Hg).
    split; [done|]. exists dl, row. split; [|done]. etrans; [done|]. by apply rtc_past.
Qed.

(** C10: a token response is always backed by what the client presented, whatever the
    environment does between the statements of the request: nothing is said of the other
    requests, so in an idle database every fact below holds of the database itself (up to the
    request's own rate-limit count). The resource is an accepted audience, and the client was
    registered and not revoked when it was looked up. For a code grant the code was then
    stored, unconsumed, unexpired, issued to this client for this redirect URI and resource,
    and its PKCE challenge was the hash of the verifier; its row was marked consumed, and
    after that its user had an unrevoked consent for the client. For a refresh grant the
    token was then stored, neither rotated nor revoked, within its own and its family's
    lifetime, of this client and resource, and its consent not revoked, and the new scope is
    within the token's. The access token is signed over that user, client, scope and
    resource, and the one audit event emitted says so. *)
Theorem token_response_justified q ip x d b d' es :
  runs env (mcp_token st q ip x) d (TokenBody b) d' es →
  match q with
  | AuthorizationCode code uri cid ver r =>
      let res := or_default r (primary_resource (canonical st)) in
      accepts_audience (canonical st) res = true ∧
      ∃ dl c dv dc k cs, rtc past d dl ∧ client_open cid dl ∧
        code_spent code cid uri ver res c dl dv ∧ rtc env dv dc ∧
        consents dc !! k = Some cs ∧
        cs_user_id cs = co_user_id c ∧ cs_client_id cs = cid ∧ cs_revoked_at cs = None ∧
        signed_for b (co_user_id c) cid (co_scope c) res ∧
        es = [OAUTH_TOKEN_ISSUED (co_user_id c) cid (co_scope c) res]
  | RefreshToken tok cid scope r =>
      let res := or_default r (primary_resource (canonical st)) in
      accepts_audience (canonical st) res = true ∧
      ∃ dl row, rtc past d dl ∧ client_open cid dl ∧ refresh_good tok cid res row dl ∧
        scope_covers (rt_scope row) (tr_scope b) = true ∧
        signed_for b (rt_user_id row) cid (tr_scope b) res ∧
        es = [OAUTH_REFRESH_ROTATED (rt_user_id row) cid (family_id row)]
  end.
Proof. apply token_facts. Qed.

End Justified.

Section Answers.
Context {E : Env} (st : OAuthState).

(** A branch that answers with something else. *)
Ltac refused :=
  cbn [negb] in *; inv_runs; match goal with H : @eq Response _ _ |- _ => discriminate H end.

(** The request's own rate-limit count is a step of the store. *)
Lemma past_steps d d' : rtc (past step) d d' → rtc step d d'.
Proof. apply rtc_subrel. intros x y [Hs|[l ->]]; [done|]. apply step_rate_limit. Qed.

Lemma runs_rate_limit e ip d r d' es :
  runs step (check_rate_limit e ip : Server _) d r d' es →
  rtc step d d' ∧ es = [] ∧ (r = None ∨ ∃ n, r = Some (TooManyRequests n)).
Proof. intros (Hs & H)%runs_limit. split; [by apply past_steps|done]. Qed.

(** revoking a client is final. From the moment the revocation has committed, no token
    request of that client is answered with tokens, by code or by refresh token, including
    requests for codes and tokens issued before; and all its refresh tokens and consents are
    revoked with it. *)
Theorem revoked_client_locked_out t cid d d1 d2 q ip x r d3 es :
  revoke_client_txn t cid d = (Ok tt, d1) → rtc step d1 d2 →
  match q with AuthorizationCode _ _ c _ _ => c | RefreshToken _ c _ _ => c end = cid →
  runs step (mcp_token st q ip x) d2 r d3 es →
  (∀ b, r ≠ TokenBody b) ∧
  (∀ k row, refresh_tokens d1 !! k = Some row → rt_client_id row = cid → is_Some (revoked_at row)) ∧
  (∀ k row, consents d1 !! k = Some row → cs_client_id row = cid → is_Some (cs_revoked_at row)).
Proof.
  intros Hrev Hs Hq Hr. unfold revoke_client_txn in Hrev.
  destruct (clients d !! cid) as [c|] eqn:Hc; [|done].
  destruct (none (c_revoked_at c)); [|done]. injection Hrev as <-. split_and!.
  - intros b ->.
    destruct (steps_clients _ d2 cid (revoke_client_row t c) Hs) as (c2 & Hc2 & Hrev2);
      [by cbn [clients set_clients set_consents set_refresh_tokens revoke_refresh_where
                 revoke_consents_where]; rewrite lookup_insert_eq|by eexists|].
    apply token_facts in Hr.
    assert (∃ dl, rtc (past step) d2 dl ∧ client_open cid dl)
      as (dl & Hsl%past_steps & c0 & Hc0 & Hn) by (destruct q; simpl in *; subst; naive_solver).
    destruct (steps_clients _ dl cid c2 Hsl Hc2 Hrev2) as (c3 & Hc3 & [? Hrev3]). congruence.
  - intros k row. cbn [refresh_tokens set_clients set_consents set_refresh_tokens
      revoke_refresh_where revoke_consents_where]. rewrite lookup_update_where.
    destruct (refresh_tokens d !! k) as [r0|]; [|done]. intros [= <-] Hcl.
    destruct (bool_decide (rt_client_id r0 = cid)) eqn:Eb; simpl in *.
    + destruct (revoked_at r0) eqn:Er; simpl; [rewrite Er|]; by eexists.
    + by apply bool_decide_eq_false in Eb.
  - intros k row. cbn [consents set_clients set_consents set_refresh_tokens
      revoke_refresh_where revoke_consents_where]. rewrite lookup_update_where.
    destruct (consents d !! k) as [r0|]; [|done]. intros [= <-] Hcl.
    destruct (bool_decide (cs_client_id r0 = cid)) eqn:Eb; simpl in *.
    + destruct (cs_revoked_at r0) eqn:Er; simpl; [rewrite Er|]; by eexists.
    + by apply bool_decide_eq_false in Eb.
Qed.

(** ** Consent *)

(** the consent screen is skipped only for what was consented to: whatever runs meanwhile,
    if [should_skip_prompt] says yes then the client was trusted and, later during the call,
    the user had an active consent for it that awaited no revalidation and covered every
    scope requested; and in a database nobody else touches it says yes exactly then. *)
Theorem skip_prompt_sound u cid scope d d' es :
  (runs step (should_skip_prompt u cid scope) d true d' es →
   ∃ da c dc k cs, rtc step d da ∧ clients da !! cid = Some c ∧ is_Some (trusted_at c) ∧
     rtc step da dc ∧ consents dc !! k = Some cs ∧ active_consent u cid k cs = true ∧
     revalidation_required_at cs = None ∧
     ∀ s, s ∈ split_whitespace scope → s ∈ split_whitespace (scopes cs)) ∧
  ((run (should_skip_prompt u cid scope) d).1.1 = true ↔
   ∃ c k cs, clients d !! cid = Some c ∧ is_Some (trusted_at c) ∧ find_consent u cid d = Some (k, cs) ∧
     revalidation_required_at cs = None ∧ scope_covers (scopes cs) scope = true).
Proof.
  split.
  - unfold should_skip_prompt. intros Hr. apply runs_bind in Hr as (tr & da & ? & ? & Ht & Hr & ->).
    apply (runs_query step (λ d, match clients d !! cid with
      Some c => negb (none (trusted_at c)) | None => false end)) in Ht as (Hsa & -> & ->).
    destruct (clients da !! cid) as [c|] eqn:Hc; [|by cbn [negb] in Hr; inv_runs].
    destruct (none (trusted_at c)) eqn:Htr; [by cbn [negb] in Hr; inv_runs|]. apply none_false in Htr. cbn [negb] in Hr.
    apply runs_bind in Hr as (row & dc & ? & ? & Hrow & Hr & ->).
    apply runs_query in Hrow as (Hsc & -> & ->). apply runs_ret in Hr as (Hr & -> & ->).
    destruct (find_consent u cid dc) as [[k cs]|] eqn:Hf; [|done].
    apply find_one_Some in Hf as [Hk Hact].
    destruct (none (revalidation_required_at cs)) eqn:Hv; [|done]. apply none_true in Hv.
    simpl in Hr. exists da, c, dc, k, cs. split_and!; try done. by apply scope_covers_spec.
  - apply skip_prompt_alone.
Qed.

Lemma runs_grant id u cid sc h d r d' es :
  runs step (grant id u cid sc h) d r d' es → rtc step d d' ∧ es = [].
Proof.
  intros Hr. split; [by eapply runs_steps; [|apply obeys_grant]|].
  unfold grant, now in Hr. inv_runs. subst.
  destruct (find_consent _ _ _) as [[cid0 cc]|]; inv_runs; by subst.
Qed.

Lemma runs_mint_code id b p d r d' es :
  runs step (mint_code id b p) d r d' es →
  rtc step d d' ∧ es = [] ∧ ∀ c, r = Ok c → c = code_text b.
Proof.
  intros Hr. split; [by eapply runs_steps; [|apply obeys_mint_code]|].
  unfold mint_code, now in Hr. inv_runs. subst. split; [done|].
  match goal with |- context [result_map _ ?y] => destruct y as [[]|e] end; by intros c [= <-].
Qed.

(** Past authentication and the rate limit. *)
Lemma runs_auth u ip e d r d' es :
  runs step (require_auth_and_rate_limit (Some u) ip e : Server _) d r d' es →
  rtc step d d' ∧ es = [] ∧ (r = Ok u ∨ ∃ n, r = Err (TooManyRequests n)).
Proof.
  unfold require_auth_and_rate_limit. intros Hr. apply runs_bind in Hr as (lim & d2 & ? & ? & Hl & Hr & ->).
  apply runs_rate_limit in Hl as (Hs1 & -> & Hlim). apply runs_ret in Hr as (-> & -> & ->).
  split; [done|]. split; [done|]. destruct Hlim as [->|[n ->]]; eauto.
Qed.

(** an authorization request is approved only by the user it was made for, and only once:
    if [approve_consent] answers with the client's redirect, the request was that user's,
    unconsumed and unexpired when it was consumed, the redirect goes to the request's own URI
    with the code just minted and the request's state, one grant event was emitted, and no
    later approval or denial consumes the request again. *)
Theorem approval_by_owner_once rid ip u x d url d' es :
  runs step (approve_consent st rid ip (Some u) x) d (RedirectTo url) d' es →
  ∃ t da r d1, rtc step d da ∧ consume_request_txn t rid da = (Some r, d1) ∧ rtc step d1 d' ∧
    ar_user_id r = u ∧ ar_consumed_at r = None ∧ t < ar_expires_at r ∧
    url = code_location (ar_redirect_uri r) (code_text (bytes x)) (ar_state r) ∧
    es = [OAUTH_CONSENT_GRANT u (ar_client_id r)] ∧
    ∀ d2 t', rtc step d' d2 → consume_request_txn t' rid d2 = (None, d2).
Proof.
  unfold approve_consent. intros Hr. destruct (enabled st); [|refused]. cbn [negb] in Hr.
  apply runs_bind in Hr as (au & d1 & ? & ? & Ha & Hr & ->).
  apply runs_auth in Ha as (Hs1 & -> & [->|[n ->]]); [|refused].
  apply runs_bind in Hr as (pre & d3 & ? & ? & Hp & Hr & ->).
  apply (runs_query step (λ d, requests d !! rid)) in Hp as (Hs2 & -> & ->).
  destruct (requests d3 !! rid) as [pr|] eqn:Hpr; [|refused].
  destruct (bool_decide (ar_user_id pr = u)) eqn:Hu; [|refused]. cbn [negb] in Hr.
  apply runs_bind in Hr as (row & d4 & ? & ? & Hc & Hr & ->).
  apply (runs_timed step (λ t, consume_request_txn t rid)) in Hc as (t & da & Hsa%timed_steps & Hc & ->).
  destruct row as [r|]; [|refused].
  destruct (bool_decide (ar_user_id r = u)) eqn:Hu2; [|refused]. cbn [negb] in Hr.
  apply bool_decide_eq_true in Hu2.
  apply runs_bind in Hr as (g & d5 & ? & ? & Hg & Hr & ->). apply runs_grant in Hg as [Hs5 ->].
  destruct g as [cid|e]; [|refused].
  apply runs_bind in Hr as (co & d6 & ? & ? & Hm & Hr & ->).
  apply runs_mint_code in Hm as (Hs6 & -> & Hco). destruct co as [c|e]; [|refused].
  pose proof (Hco c eq_refl) as ->. inv_runs. subst. simplify_eq/=.
  assert (rtc step d4 d6) as Hs46 by by etrans.
  destruct (consume_ok t rid da r d4 Hc) as (_ & Hn & Ht & _).
  exists t, da, r, d4. split_and!; try done.
  - by do 2 (etrans; [eassumption|]).
  - intros d2 t' Hs. eapply consumed_is_final; [exact Hc|]. by etrans.
Qed.

End Answers.
End OAuthFlow.
