(* ===== verification/OAuthWitnesses.v ===== *)
(** A whole authorization on concrete data: a client is authorized, its user approves, the
    code is exchanged and the refresh token rotated; the hypotheses of the OAuth theorems
    hold there. Third-party functions are instantiated by simple concrete ones. *)

From stdpp Require Import base list gmap sets strings numbers relations pretty.
From S2P Require Import Prelude RustStr Hex Json RateLimit Handlers OAuthStore OAuthTheorems OAuthRoutes OAuthFlows.
Local Open Scope Z_scope.

Module OAuthExamples.
Import OAuth OAuthFacts OAuthApi OAuthFlow.

(** Injective stand-ins: the identity for the hash and the encodings, one list element per
    JSON text, and a token that spells its claims. *)
#[local] Instance plain_env : Env := {
  sha256 := id; b64url := id; url_parse _ := None;
  strings_to_json l := default "" (head l); strings_of_json s := Some [s];
  percent_encode := id; sign c := Ok (sub c +:+ "/" +:+ cl_client_id c +:+ "/" +:+ cl_scope c);
  uuid_text := pretty; fresh_uuid := fresh; fresh_uuid_new X := is_fresh X }.

Definition state0 : OAuthState :=
  mkState true (mkCanonical "https://up" "https://up/mcp" ["https://up/mcp"]) true true.

Definition app : Client :=
  mkClient (mkRegistration "App" None None "http://app/cb" "" "authorization_code" "code" "none")
    None "manual" 0 None None no_metadata.

Definition db0 : Db := mkDb {[ "app" := app ]} ∅ ∅ ∅ ∅ [(1%N, 7%N)] {[ 7%N ]} ∅ (secs 1000).
Definition ask : AuthorizeRequest :=
  mkAuthorize "code" "app" "http://app/cb" "read write" "xyz" "ver" "S256" None.
Definition draws (n : N) (b : string) : Draws := mkDraws n (n + 1)%N (n + 2)%N b.

(** Authorize as user 1, approve, exchange the code, rotate the refresh token. *)
Definition do_authorize := authorize state0 (λ _, None) (λ _, "") id (λ _, "") ask "10.0.0.1" (Some 1%N) [] None (draws 10 "c0").
Definition do_approve := approve_consent state0 10%N "10.0.0.1" (Some 1%N) (draws 20 "c1").
Definition exchange : TokenRequest := AuthorizationCode "upc_c1" "http://app/cb" "app" "ver" None.
Definition do_exchange := mcp_token state0 exchange "10.0.0.9" (draws 30 "r1").
Definition refresh : TokenRequest := RefreshToken "upr_r1" "app" (Some "read") None.
Definition do_refresh := mcp_token state0 refresh "10.0.0.9" (draws 40 "r2").

Definition after {R} (h : Server R) (d : Db) : Db := (run h d).1.2.
Definition db1 : Db := after do_authorize db0.
Definition db2 : Db := after do_approve db1.
Definition db3 : Db := after do_exchange db2.
Definition db4 : Db := after do_refresh db3.

Lemma after_steps {R} (h : Server R) d : obeys step h → rtc step d (after h d).
Proof. intros Ho. eapply runs_steps; [apply run_runs|done]. Qed.

Lemma steps_db2 : rtc step db0 db2.
Proof.
  transitivity db1; [apply (after_steps do_authorize), obeys_authorize|].
  apply (after_steps do_approve), obeys_approve.
Qed.
Lemma steps_db3 : rtc step db0 db3.
Proof. etrans; [apply steps_db2|]. apply (after_steps do_exchange), obeys_token. Qed.
Lemma steps_db4 : rtc step db0 db4.
Proof. etrans; [apply steps_db3|]. apply (after_steps do_refresh), obeys_token. Qed.

Lemma initial_db0 : initial db0.
Proof. split; reflexivity. Qed.

(** The whole flow answers as it should, with a narrowed scope at the end. *)
Example whole_flow :
  (run do_authorize db0).1.1 = Redirect302 "/oauth/consent/10" ∧
  (run do_approve db1).1.1 = RedirectTo "http://app/cb?code=upc_c1&state=xyz" ∧
  (run do_exchange db2).1.1
    = TokenBody (mkTokenResponse "1/app/read write" 900 (Some "upr_r1") (Some 2592000) "read write") ∧
  (run do_refresh db3).1.1
    = TokenBody (mkTokenResponse "1/app/read" 900 (Some "upr_r2") (Some 2592000) "read") ∧
  (run do_refresh db4).1.1 = oauth_400 "invalid_grant" "replay_detected".
Proof. by vm_compute. Qed.

Lemma code_single_use_witness :
  let x := verify_and_consume_txn (secs 1001) "upc_c1" "app" "http://app/cb" "ver" "https://up/mcp" db2 in
  (∃ c, x.1 = Ok c) ∧
  verify_and_consume_txn (secs 1002) "upc_c1" "app" "http://app/cb" "ver" "https://up/mcp" x.2
  = (Err (CodeInvalidGrant "code_already_used"), x.2).
Proof.
  intros x. destruct x as [[c|e] d1] eqn:Hx; [|by vm_compute in Hx]. split; [by exists c|].
  apply (code_single_use (secs 1001) "upc_c1" "app" "http://app/cb" "ver" "https://up/mcp" db0 db2 c d1 d1);
    [apply initial_db0|apply steps_db2|exact Hx|apply rtc_refl].
Defined.

Lemma replay_burns_family_witness :
  let x := rotate_txn (with_defaults "https://up") (secs 1001) "upr_r1" "app" None "https://up/mcp" 50%N "r3" db3 in
  (∃ o, x.1 = Rotation o) ∧
  ∃ r d3, rotate_txn (with_defaults "https://up") (secs 1002) "upr_r1" "app" None "https://up/mcp" 51%N "r4" x.2
          = (Replay r, d3) ∧
          ∀ k4 r4, refresh_tokens d3 !! k4 = Some r4 → family_id r4 = family_id r → is_Some (revoked_at r4).
Proof.
  intros x. destruct x as [o d1] eqn:Hx. destruct o as [?|?|o]; [by vm_compute in Hx..|].
  split; [by exists o|].
  destruct (replay_burns_family "https://up" (secs 1001) "upr_r1" "app" None "https://up/mcp" 50%N "r3"
    db0 db3 o d1 d1 "https://up" (secs 1002) "app" None "https://up/mcp" 51%N "r4")
    as (r & d3 & H1 & _ & H3); [apply initial_db0|apply steps_db3|exact Hx|apply rtc_refl|].
  exists r, d3. split; [exact H1|]. intros k4 r4 Hk Hf. by eapply (H3 d3).
Defined.

Lemma rotation_never_widens_witness :
  ∃ k r, refresh_tokens db4 !! k = Some r ∧ rt_scope r = "read" ∧
    ∃ root r0, lineage (refresh_tokens db4) k root ∧ refresh_tokens db4 !! root = Some r0 ∧
      expires_at r ≤ issued_at r0 + secs 7776000.
Proof.
  destruct (refresh_tokens db4 !! 40%N) as [r|] eqn:Hk; [|by vm_compute in Hk].
  exists 40%N, r. split; [done|]. split; [by vm_compute in Hk; simplify_eq|].
  destruct (rotation_never_widens db0 db4 40%N r) as [(root & r0 & H1 & H2 & _ & _ & _ & _ & _ & _ & H3) _];
    [apply initial_db0|apply steps_db4|exact Hk|]. exists root, r0. split_and!; [exact H1|exact H2|exact H3].
Defined.

Lemma consent_revocation_final_witness :
  let x := revoke_consent_txn (secs 1003) 20%N 1%N db3 in
  x.1 = Ok tt ∧ revoke_consent_txn (secs 1003) 20%N 2%N db3 = (Err ConsentNotFound, db3).
Proof.
  intros x. destruct x as [[[]|e] d1] eqn:Hx; [|by vm_compute in Hx]. split; [done|].
  apply (consent_revocation_final (secs 1003) 20%N 1%N db3 d1 d1); [exact Hx|apply rtc_refl|done].
Defined.

(** In an idle database the facts are the database's own: the client is open and the consent
    is there, both before and after. *)
Lemma token_response_justified_witness :
  ∃ b, runs (λ _ _, False) do_exchange db2 (TokenBody b) db3 (run do_exchange db2).2 ∧
    ∃ dl c dv, client_open "app" dl ∧
      code_spent (λ _ _, False) "upc_c1" "app" "http://app/cb" "ver" "https://up/mcp" c dl dv.
Proof.
  pose proof (run_runs (λ _ _, False) do_exchange db2) as Hr.
  destruct (run do_exchange db2).1.1 as [| | | | |b| |] eqn:Hx; try by vm_compute in Hx.
  exists b. split; [exact Hr|].
  destruct (token_response_justified state0 (λ _ _, False) exchange "10.0.0.9" (draws 30 "r1") db2 b db3
              (run do_exchange db2).2 Hr) as (_ & dl & c & dv & _ & _ & _ & _ & Ho & Hg & _).
  by exists dl, c, dv.
Defined.

Lemma revoked_client_locked_out_witness :
  let x := revoke_client_txn (secs 1003) "app" db3 in
  x.1 = Ok tt ∧ ∀ b, (run do_refresh x.2).1.1 ≠ TokenBody b.
Proof.
  intros x. destruct x as [[[]|e] d1] eqn:Hx; [|by vm_compute in Hx]. split; [done|].
  apply (revoked_client_locked_out state0 (secs 1003) "app" db3 d1 d1 refresh "10.0.0.9" (draws 40 "r2")
           (run do_refresh d1).1.1 (run do_refresh d1).1.2 (run do_refresh d1).2);
    [exact Hx|apply rtc_refl|done|apply run_runs].
Defined.

Lemma approval_by_owner_once_witness :
  ∃ url, runs step do_approve db1 (RedirectTo url) db2 (run do_approve db1).2 ∧
    ∀ t', consume_request_txn t' 10%N db2 = (None, db2).
Proof.
  pose proof (run_runs step do_approve db1) as Hr.
  destruct (run do_approve db1).1.1 as [| | | |url| | |] eqn:Hx; try by vm_compute in Hx.
  exists url. split; [exact Hr|].
  destruct (approval_by_owner_once state0 10%N "10.0.0.1" 1%N (draws 20 "c1") db1 url db2
              (run do_approve db1).2 Hr) as (? & ? & ? & ? & _ & _ & _ & _ & _ & _ & _ & _ & Hf).
  intros t'. apply Hf, rtc_refl.
Defined.

(** The screen is skipped for a trusted client with a covering consent, and then only. *)
Lemma skip_prompt_sound_witness :
  (run (should_skip_prompt 1%N "app" "read") db4).1.1 = false ∧
  (run (should_skip_prompt 1%N "app" "read") (promote_trusted_stmt 0 "app" db4).2).1.1 = true ∧
  ∃ c, clients (promote_trusted_stmt 0 "app" db4).2 !! "app" = Some c ∧ is_Some (trusted_at c).
Proof.
  split; [by vm_compute|]. split; [by vm_compute|].
  destruct (proj1 (proj2 (skip_prompt_sound 1%N "app" "read" (promote_trusted_stmt 0 "app" db4).2
    (promote_trusted_stmt 0 "app" db4).2 []))) as (c & _ & _ & Hc & Ht & _); [by vm_compute|].
  exists c. split; [exact Hc|exact Ht].
Defined.

(** A client known by its document: the second document has another redirect URI. *)
Definition site : string := "https://site/client".
Definition document (uri : string) : Value :=
  JObject [("client_id", JString site); ("redirect_uris", JArray [JString uri]); ("client_name", JString "Site")].
Definition parse_doc (raw : string) : option Value := Some (document raw).
Definition doc_text (v : Value) : string :=
  match get_field "redirect_uris" v with Some (JArray [JString u]) => u | _ => "" end.
Definition refetch (t : Instant) (raw : string) : Db → CimdOutcome * Db :=
  cimd_txn parse_doc doc_text (λ _, "") t site [] None "h" raw.
Definition trusting : Db :=
  let d1 := (refetch 0 "http://a" db0).2 in
  (insert_consent 60%N (mkConsent 1%N site "read" None None 0 None) (promote_trusted_stmt 0 site d1).2).2.

Lemma material_change_prompts_witness :
  (run (should_skip_prompt 1%N site "read") trusting).1.1 = true ∧
  (refetch 1 "http://b" trusting).1 = Refreshed false true ∧
  (run (should_skip_prompt 1%N site "read") (refetch 1 "http://b" trusting).2).1.1 = false.
Proof.
  split; [by vm_compute|]. assert ((refetch 1 "http://b" trusting).1 = Refreshed false true) as Hf by by vm_compute.
  split; [exact Hf|].
  apply (proj1 (material_change_prompts parse_doc doc_text (λ _, "") 1 site [] None "h" "http://b" trusting
           (refetch 1 "http://b" trusting).1 (refetch 1 "http://b" trusting).2 (surjective_pairing _)) false Hf).
Defined.

(** A denial by somebody else spends the request: the answer is 403, and the owner can no
    longer approve it. *)
Example foreign_denial_spends_request :
  let d := after (deny_consent state0 10%N "10.0.0.1" (Some 2%N)) db1 in
  (run (deny_consent state0 10%N "10.0.0.1" (Some 2%N)) db1).1.1 = Status 403 ∧
  (run do_approve d).1.1 = oauth_400 "invalid_request" "authorization request expired or already used".
Proof. by vm_compute. Qed.

End OAuthExamples.
