(* ===== verification/TokenDenylist.v ===== *)
(** The denylist of access tokens ([crates/ui/web-api-auth/src/auth/token_denylist.rs]): every
    controller keeps one in memory and all share two database tables; revocations also reach
    the other controllers as messages ([crates/ui/web-api/src/event_delivery.rs]). Times are
    Unix seconds. *)

From stdpp Require Import base list gmap strings numbers relations.
From S2P Require Import Prelude Handlers.
Local Open Scope Z_scope.

Module Denylist.

(** ** State *)

Record UserDenyEntry := mkEntry { iat_cutoff : Z; purge_after : Z }.

Record Inner := mkInner {
  jti_entries : gmap string Z; jti_allowlist : gmap string Z;
  user_entries : gmap Uuid UserDenyEntry }.
Definition new : Inner := mkInner ∅ ∅ ∅.

(** The controllers' memories and the two tables [revoked_token_jtis] and
    [revoked_token_users]. *)
Record Sys := mkSys {
  mem : gmap nat Inner; revoked_jtis : gmap string Z; revoked_users : gmap Uuid UserDenyEntry }.

Definition memory (i : nat) (s : Sys) : Inner := default new (mem s !! i).
Definition set_mem (i : nat) (m : Inner) (s : Sys) : Sys :=
  mkSys (<[i := m]> (mem s)) (revoked_jtis s) (revoked_users s).
Definition set_jtis x (s : Sys) : Sys := mkSys (mem s) x (revoked_users s).
Definition set_users x (s : Sys) : Sys := mkSys (mem s) (revoked_jtis s) x.

(** ** One controller's memory *)

Definition allow_jti (jti : string) (exp : Z) (m : Inner) : Inner :=
  mkInner (jti_entries m) (<[jti := exp]> (jti_allowlist m)) (user_entries m).
Definition deny_jti (jti : string) (exp : Z) (m : Inner) : Inner :=
  mkInner (<[jti := exp]> (jti_entries m)) (jti_allowlist m) (user_entries m).

(** [entry(user_id).or_insert(0, 0)], then the later cutoff wins; was it updated? *)
Definition advance (u : Uuid) (e : UserDenyEntry) (m : Inner) : bool * Inner :=
  let old := default (mkEntry 0 0) (user_entries m !! u) in
  if iat_cutoff old <? iat_cutoff e
  then (true, mkInner (jti_entries m) (jti_allowlist m) (<[u := e]> (user_entries m)))
  else (false, mkInner (jti_entries m) (jti_allowlist m) (<[u := old]> (user_entries m))).

Definition is_denied_in (jti : string) (u : Uuid) (iat : Z) (m : Inner) : bool :=
  if bool_decide (is_Some (jti_entries m !! jti)) then true
  else if bool_decide (is_Some (jti_allowlist m !! jti)) then false
  else match user_entries m !! u with
       | Some e => iat <? iat_cutoff e
       | None => false
       end.

Definition purge_inner (now : Z) (m : Inner) : Inner :=
  mkInner (filter (λ kv : string * Z, now < kv.2) (jti_entries m))
    (filter (λ kv : string * Z, now < kv.2) (jti_allowlist m))
    (filter (λ kv : Uuid * UserDenyEntry, now < purge_after kv.2) (user_entries m)).

Definition load_rows (jtis : gmap string Z) (users : gmap Uuid UserDenyEntry) (m : Inner) : Inner :=
  mkInner (jtis ∪ jti_entries m) (jti_allowlist m) (users ∪ user_entries m).

(** ** Statements *)

Definition mem_advance (i : nat) (u : Uuid) (e : UserDenyEntry) (s : Sys) : bool * Sys :=
  let '(b, m) := advance u e (memory i s) in (b, set_mem i m s).
Definition mem_deny_jti (i : nat) (jti : string) (exp : Z) (s : Sys) : unit * Sys :=
  (tt, set_mem i (deny_jti jti exp (memory i s)) s).
Definition mem_allow_jti (i : nat) (jti : string) (exp : Z) (s : Sys) : unit * Sys :=
  (tt, set_mem i (allow_jti jti exp (memory i s)) s).

(** A database statement that may fail, leaving the tables as they were. *)
Definition fallible {A} (ok : bool) (f : Sys → A * Sys) (s : Sys) : option A * Sys :=
  if ok then let '(a, s') := f s in (Some a, s') else (None, s).

Definition insert_jti (jti : string) (exp : Z) (s : Sys) : bool * Sys :=
  match revoked_jtis s !! jti with
  | Some _ => (false, s)
  | None => (true, set_jtis (<[jti := exp]> (revoked_jtis s)) s)
  end.

(** The upsert guarded by [iat_cutoff < incoming]: the number of rows written. *)
Definition upsert_user (u : Uuid) (e : UserDenyEntry) (s : Sys) : nat * Sys :=
  match revoked_users s !! u with
  | Some old => if iat_cutoff old <? iat_cutoff e
                then (1%nat, set_users (<[u := e]> (revoked_users s)) s) else (0%nat, s)
  | None => (1%nat, set_users (<[u := e]> (revoked_users s)) s)
  end.

Definition find_user (u : Uuid) (s : Sys) : option UserDenyEntry * Sys := (revoked_users s !! u, s).

Definition purge_mem (i : nat) (now : Z) (s : Sys) : unit * Sys :=
  (tt, set_mem i (purge_inner now (memory i s)) s).
Definition purge_jtis (now : Z) (s : Sys) : unit * Sys :=
  (tt, set_jtis (filter (λ kv : string * Z, ¬ kv.2 ≤ now) (revoked_jtis s)) s).
Definition purge_users (now : Z) (s : Sys) : unit * Sys :=
  (tt, set_users (filter (λ kv : Uuid * UserDenyEntry, ¬ purge_after kv.2 ≤ now) (revoked_users s)) s).

(** ** Operations *)

Section Ops.
(** The controller; whether it has a database; and what it emits elsewhere. *)
Context {Ev : Type} (i : nat) (has_db : bool).
Notation Op := (Handler Sys Ev).

Definition load_from_db : Op unit :=
  if negb has_db then mret tt
  else
    jtis ← query revoked_jtis;
    users ← query revoked_users;
    exec (λ s, (tt, set_mem i (load_rows jtis users (memory i s)) s)).

Definition deny_token (ok : bool) (jti : string) (exp : Z) : Op unit :=
  _ ← exec (mem_deny_jti i jti exp);
  if has_db then _ ← exec (fallible ok (insert_jti jti exp)); mret tt else mret tt.

(** [ok1] and [ok2]: do the upsert and the re-read succeed? *)
Definition deny_user (ok1 ok2 : bool) (u : Uuid) (cutoff purge : Z) : Op unit :=
  updated ← exec (mem_advance i u (mkEntry cutoff purge));
  if (updated : bool) && has_db then
    rows ← exec (fallible ok1 (upsert_user u (mkEntry cutoff purge)));
    match rows with
    | Some 0%nat =>
        row ← exec (fallible ok2 (find_user u));
        match row with
        | Some (Some r) => _ ← exec (mem_advance i u r); mret tt
        | _ => mret tt
        end
    | _ => mret tt
    end
  else mret tt.

Definition deny_user_except (ok1 ok2 : bool) (u : Uuid) (jti : string) (jti_exp cutoff purge : Z) : Op unit :=
  _ ← deny_user ok1 ok2 u cutoff purge;
  exec (mem_allow_jti i jti jti_exp).

Definition deny_token_remote (jti : string) (exp : Z) : Op unit := exec (mem_deny_jti i jti exp).
Definition deny_user_remote (u : Uuid) (cutoff purge : Z) : Op unit :=
  _ ← exec (mem_advance i u (mkEntry cutoff purge)); mret tt.

Definition is_denied (jti : string) (u : Uuid) (iat : Z) : Op bool :=
  query (λ s, is_denied_in jti u iat (memory i s)).

Definition purge_expired (now : Z) : Op unit :=
  _ ← exec (purge_mem i now);
  if has_db then _ ← exec (purge_jtis now); exec (purge_users now) else mret tt.

(** [ControllerMessage::TokenRevoked], on the receiving controller. *)
Record TokenRevoked := mkRevoked {
  rv_jti : option string; rv_exp : option Z; rv_user_id : option Uuid;
  rv_iat_cutoff : option Z; rv_purge_after : option Z }.
Definition deliver_token_revoked (p : TokenRevoked) : Op unit :=
  _ ← match rv_jti p, rv_exp p with
      | Some j, Some e => deny_token_remote j e
      | _, _ => mret tt
      end;
  match rv_user_id p, rv_iat_cutoff p, rv_purge_after p with
  | Some u, Some c, Some a => deny_user_remote u c a
  | _, _, _ => mret tt
  end.
End Ops.

(** ** What other requests do *)

Definition ACCESS_TOKEN_EXPIRY_SECS : Z := 900.

(** An entry as every caller makes it: kept for one token lifetime after its cutoff. *)
Definition entry (cutoff : Z) : UserDenyEntry := mkEntry cutoff (cutoff + ACCESS_TOKEN_EXPIRY_SECS).

(** The statements of all controllers while controller [k] runs, up to time [T]: cutoffs are
    Unix times, purges use clock readings that are not later than [T]; another controller may
    also boot. *)
Inductive step (k : nat) (T : Z) : Sys → Sys → Prop :=
| step_advance i u c s : 0 ≤ c → step k T s (mem_advance i u (entry c) s).2
| step_deny_jti i j e s : step k T s (mem_deny_jti i j e s).2
| step_allow i j e s : step k T s (mem_allow_jti i j e s).2
| step_insert_jti ok j e s : step k T s (fallible ok (insert_jti j e) s).2
| step_upsert ok u c s : 0 ≤ c → step k T s (fallible ok (upsert_user u (entry c)) s).2
| step_purge_mem i t s : t ≤ T → step k T s (purge_mem i t s).2
| step_purge_jtis t s : t ≤ T → step k T s (purge_jtis t s).2
| step_purge_users t s : t ≤ T → step k T s (purge_users t s).2
| step_boot i m s : i ≠ k → step k T s (set_mem i m s).

(** ** Revocations hold *)

(** An entry as the callers make them, or the empty one; a table of such entries. *)
Definition kept_entry (e : UserDenyEntry) : Prop :=
  0 ≤ iat_cutoff e ∧ (0 < iat_cutoff e → e = entry (iat_cutoff e)).
Definition well_kept (m : gmap Uuid UserDenyEntry) : Prop :=
  ∀ u e, m !! u = Some e → kept_entry e.
(** Tokens of [u] issued before [c] are covered. *)
Definition covers (u : Uuid) (c : Z) (m : gmap Uuid UserDenyEntry) : Prop :=
  ∃ e, m !! u = Some e ∧ c ≤ iat_cutoff e.

(** What controller [k] denies by user, and what a booting controller would load. *)
Definition denied_by (k : nat) (s : Sys) : gmap Uuid UserDenyEntry := user_entries (memory k s).
Definition kept (k : nat) (s : Sys) : Prop := well_kept (denied_by k s) ∧ well_kept (revoked_users s).

(** [m'] keeps, before time [T], everything [m] covers. *)
Definition keeps (T : Z) (m m' : gmap Uuid UserDenyEntry) : Prop :=
  (well_kept m → well_kept m') ∧
  ∀ u c, well_kept m → 0 < c → T < c + ACCESS_TOKEN_EXPIRY_SECS → covers u c m → covers u c m'.

Lemma kept_entry_entry c : 0 ≤ c → kept_entry (entry c).
Proof. by split. Qed.

Lemma keeps_self T m : keeps T m m.
Proof. split; auto. Qed.

Lemma memory_set i k m s : memory k (set_mem i m s) = if decide (i = k) then m else memory k s.
Proof.
  unfold memory, set_mem. simpl. destruct (decide (i = k)) as [->|Hne].
  - by rewrite lookup_insert_eq.
  - by rewrite lookup_insert_ne.
Qed.

Lemma keeps_insert T u e m :
  kept_entry e →
  (∀ e', m !! u = Some e' → iat_cutoff e' ≤ iat_cutoff e) → keeps T m (<[u := e]> m).
Proof.
  intros He Hle. split.
  - intros Hm u' e' [[-> ->]|[Hne Hu]]%lookup_insert_Some; eauto.
  - intros u' c _ _ _ (e' & Hu & Hc). destruct (decide (u = u')) as [->|Hne].
    + exists e. rewrite lookup_insert_eq. split; [done|]. specialize (Hle e' Hu). lia.
    + exists e'. by rewrite lookup_insert_ne.
Qed.

Lemma keeps_filter T (P : Uuid * UserDenyEntry → Prop) `{∀ x, Decision (P x)} m :
  (∀ u e, T < purge_after e → P (u, e)) → keeps T m (filter P m).
Proof.
  intros HP. split.
  - intros Hm u e [Hu _]%map_lookup_filter_Some. eauto.
  - intros u c Hm Hc HT (e & Hu & Hle). exists e. split; [|done].
    apply map_lookup_filter_Some. split; [done|]. apply HP.
    destruct (Hm u e Hu) as [_ He]. specialize (He ltac:(lia)). rewrite He. simpl. lia.
Qed.

(** Advancing an entry: what was covered stays, and the new cutoff is covered. *)
Lemma advance_keeps T u e m :
  kept_entry e →
  keeps T (user_entries m) (user_entries (advance u e m).2).
Proof.
  intros He. unfold advance. destruct (Z.ltb_spec (iat_cutoff (default (mkEntry 0 0) (user_entries m !! u))) (iat_cutoff e)) as [Hlt|Hge].
  - apply keeps_insert; [done|]. intros e' Hu. rewrite Hu in Hlt. simpl in Hlt. lia.
  - simpl. destruct (user_entries m !! u) as [e'|] eqn:Hu; simpl.
    + rewrite insert_id by done. apply keeps_self.
    + apply keeps_insert; [by split|congruence].
Qed.

Lemma advance_covers u e m : covers u (iat_cutoff e) (user_entries (advance u e m).2).
Proof.
  unfold advance, covers. destruct (Z.ltb_spec (iat_cutoff (default (mkEntry 0 0) (user_entries m !! u))) (iat_cutoff e));
    simpl; eexists; rewrite lookup_insert_eq; (split; [done|]); lia.
Qed.

Lemma mem_advance_eq i u e s :
  mem_advance i u e s = ((advance u e (memory i s)).1, set_mem i (advance u e (memory i s)).2 s).
Proof. unfold mem_advance. by destruct (advance u e (memory i s)). Qed.

Lemma upsert_keeps T u e s :
  kept_entry e →
  keeps T (revoked_users s) (revoked_users (upsert_user u e s).2).
Proof.
  intros He. unfold upsert_user. destruct (revoked_users s !! u) as [old|] eqn:Hu.
  - destruct (Z.ltb_spec (iat_cutoff old) (iat_cutoff e)); [|apply keeps_self].
    apply keeps_insert; [done|]. intros e' He'. rewrite Hu in He'. simplify_eq. lia.
  - apply keeps_insert; [done|]. congruence.
Qed.

Lemma upsert_covers u e s : covers u (iat_cutoff e) (revoked_users (upsert_user u e s).2).
Proof.
  unfold upsert_user, covers. destruct (revoked_users s !! u) as [old|] eqn:Hu.
  - destruct (Z.ltb_spec (iat_cutoff old) (iat_cutoff e)); simpl.
    + eexists. by rewrite lookup_insert_eq.
    + by exists old.
  - simpl. eexists. by rewrite lookup_insert_eq.
Qed.

Lemma step_keeps k T s s' :
  step k T s s' →
  keeps T (denied_by k s) (denied_by k s') ∧ keeps T (revoked_users s) (revoked_users s').
Proof.
  unfold denied_by. intros Hs. destruct Hs as [i u c s Hc|i j e s|i j e s|ok j e s|ok u c s Hc|i t s Ht|t s Ht|t s Ht|i m s Hne].
  - rewrite mem_advance_eq. split; [|apply keeps_self]. cbn [snd]. rewrite memory_set.
    destruct (decide (i = k)) as [->|]; [|apply keeps_self]. by apply advance_keeps, kept_entry_entry.
  - split; [|apply keeps_self]. cbn [mem_deny_jti snd]. rewrite memory_set.
    destruct (decide (i = k)) as [->|]; apply keeps_self.
  - split; [|apply keeps_self]. cbn [mem_allow_jti snd]. rewrite memory_set.
    destruct (decide (i = k)) as [->|]; apply keeps_self.
  - unfold fallible, insert_jti. destruct ok; [|split; apply keeps_self].
    destruct (revoked_jtis s !! j); split; apply keeps_self.
  - unfold fallible. destruct ok; [|split; apply keeps_self].
    pose proof (upsert_keeps T u (entry c) s (kept_entry_entry c Hc)) as Hk.
    assert (mem (upsert_user u (entry c) s).2 = mem s) as Hm.
    { unfold upsert_user. destruct (revoked_users s !! u); [by destruct (_ <? _)|done]. }
    destruct (upsert_user u (entry c) s) as [n s'] eqn:Hu. simpl in *. split; [|done].
    unfold memory. rewrite Hm. apply keeps_self.
  - split; [|apply keeps_self]. cbn [purge_mem snd]. rewrite memory_set.
    destruct (decide (i = k)) as [->|]; [|apply keeps_self]. cbn [user_entries purge_inner].
    apply keeps_filter. simpl. lia.
  - split; apply keeps_self.
  - split; [apply keeps_self|]. apply keeps_filter. simpl. lia.
  - split; [|apply keeps_self]. rewrite memory_set. destruct (decide (i = k)); [done|apply keeps_self].
Qed.

Lemma steps_keep k T s s' :
  rtc (step k T) s s' →
  keeps T (denied_by k s) (denied_by k s') ∧ keeps T (revoked_users s) (revoked_users s').
Proof.
  induction 1 as [|s1 s2 s3 Hs _ [[IH1 IH2] [IH3 IH4]]]; [split; apply keeps_self|].
  apply step_keeps in Hs as [[H1 H2] [H3 H4]]. split; (split; [auto|]); eauto 10.
Qed.

Lemma steps_kept k T s s' : rtc (step k T) s s' → kept k s → kept k s'.
Proof. intros [[H1 _] [H2 _]]%steps_keep [? ?]. split; auto. Qed.

(** A row read back from the table advances the memory as some caller's entry would. *)
Lemma advance_kept k u r s :
  kept k s → kept_entry r → ∃ c, 0 ≤ c ∧ mem_advance k u r s = mem_advance k u (entry c) s.
Proof.
  intros [Hk _] [H0 Hr]. destruct (decide (0 < iat_cutoff r)) as [Hlt|].
  - exists (iat_cutoff r). split; [done|]. by rewrite <-Hr.
  - exists 0. split; [done|]. unfold mem_advance, advance.
    assert (0 ≤ iat_cutoff (default (mkEntry 0 0) (user_entries (memory k s) !! u))).
    { destruct (user_entries (memory k s) !! u) as [e|] eqn:He; [|done]. by destruct (Hk u e He). }
    destruct (Z.ltb_spec (iat_cutoff (default (mkEntry 0 0) (user_entries (memory k s) !! u))) (iat_cutoff r)); [lia|].
    by destruct (Z.ltb_spec (iat_cutoff (default (mkEntry 0 0) (user_entries (memory k s) !! u))) (iat_cutoff (entry 0)));
      [simpl in *; lia|].
Qed.

(** The statements of [deny_user] after the first one. *)
Lemma obeys_persist {Ev} k T ok1 ok2 u c :
  0 ≤ c →
  obeys_under (Ev := Ev) (step k T) (kept k)
    (rows ← exec (fallible ok1 (upsert_user u (entry c)));
     match rows with
     | Some 0%nat =>
         row ← exec (fallible ok2 (find_user u));
         match row with
         | Some (Some r) => _ ← exec (mem_advance k u r); mret tt
         | _ => mret tt
         end
     | _ => mret tt
     end).
Proof.
  intros Hc d Hd. split; [by apply rtc_once, step_upsert|].
  destruct (fallible ok1 _ d).1 as [[|n]|]; [|done|done]. cbn [mbind Handler_bind exec].
  intros d2 Hd2. split; [unfold fallible, find_user; destruct ok2; apply rtc_refl|].
  destruct ok2; [|done]. cbn [fallible find_user fst]. destruct (revoked_users d2 !! u) as [r|] eqn:Hr; [|done].
  intros d3 Hd3. split; [|done]. destruct Hd2 as [_ Hdb].
  destruct (advance_kept k u r d3 Hd3 (Hdb u r Hr)) as (c' & Hc' & ->). by apply rtc_once, step_advance.
Qed.

Lemma load_denies s i u c jti iat :
  covers u c (revoked_users s) → mem s !! i = None → iat < c →
  is_denied_in jti u iat (memory i (run (Ev := Empty_set) (load_from_db i true) s).1.2) = true.
Proof.
  intros (e & He & Hc) Hi Hiat. simpl. rewrite memory_set, decide_True by done.
  unfold memory. rewrite Hi. unfold is_denied_in, load_rows. cbn [jti_entries jti_allowlist user_entries default new].
  destruct (bool_decide (is_Some ((revoked_jtis s ∪ ∅) !! jti))); [done|].
  rewrite bool_decide_eq_false_2 by (rewrite lookup_empty; by intros []).
  rewrite (lookup_union_Some_l _ _ _ _ He). apply Z.ltb_lt. lia.
Qed.

(** What [deny_user] leaves covered, in memory and, when its upsert goes through, in the table. *)
Lemma deny_user_covers {Ev} k T ok1 ok2 u c d d1 es :
  kept k d → 0 < c →
  runs (step k T) (deny_user (Ev := Ev) k true ok1 ok2 u c (c + ACCESS_TOKEN_EXPIRY_SECS)) d tt d1 es →
  (∃ d3, kept k d3 ∧ covers u c (denied_by k d3) ∧ rtc (step k T) d d3 ∧ rtc (step k T) d3 d1) ∧
  (ok1 = true →
   (∃ d0, rtc (step k T) d d0 ∧ covers u c (denied_by k d0)) ∨
   ∃ d4, kept k d4 ∧ covers u c (revoked_users d4) ∧ rtc (step k T) d4 d1).
Proof.
  intros Hd Hc Hr. unfold deny_user in Hr. change (mkEntry c _) with (entry c) in Hr.
  apply runs_bind in Hr as (upd & d3 & ? & ? & Hx & Hr & ->). apply runs_exec in Hx as (d0 & Hs0 & Hx & ->).
  rewrite mem_advance_eq in Hx. injection Hx as <- <-.
  assert (kept k d0) as Hd0 by by eapply steps_kept.
  assert (∀ x y, step k T x y → kept k x → kept k y) as Hst.
  { intros x y Hxy. eapply (steps_kept k T). by apply rtc_once. }
  set (d3 := set_mem _ _ _) in Hr.
  assert (step k T d0 d3) as Hs3.
  { pose proof (step_advance k T k u c d0 ltac:(lia)) as Hs3. by rewrite mem_advance_eq in Hs3. }
  assert (rtc (step k T) d3 d1) as Hs31.
  { destruct (_ && _); [|by inv_runs; subst].
    eapply runs_under; [done|exact Hr|by apply obeys_persist; lia|eauto]. }
  split.
  - exists d3. split_and!; [eauto| |by eapply rtc_r|done].
    unfold denied_by, d3. rewrite memory_set, decide_True by done. apply (advance_covers u (entry c)).
  - intros ->. destruct ((advance u (entry c) (memory k d0)).1) eqn:Hupd.
    + right. cbn [andb] in Hr. apply runs_bind in Hr as (rows & d4 & ? & ? & Hx & Hr & ->).
      apply runs_exec in Hx as (d5 & Hs5 & Hx & ->).
      assert (kept k d5) as Hd5 by (eapply steps_kept; [exact Hs5|eauto]).
      assert (d4 = (upsert_user u (entry c) d5).2) as ->.
      { unfold fallible in Hx. destruct (upsert_user u (entry c) d5). by simplify_eq/=. }
      assert (step k T d5 (upsert_user u (entry c) d5).2) as Hs4.
      { pose proof (step_upsert k T true u c d5 ltac:(lia)) as Hs4. unfold fallible in Hs4.
        by destruct (upsert_user u (entry c) d5). }
      exists (upsert_user u (entry c) d5).2. split_and!; [eauto|apply (upsert_covers u (entry c))|].
      destruct rows as [[|n]|]; [|by inv_runs; subst..].
      pose proof (obeys_persist (Ev := Ev) k T true ok2 u c ltac:(lia) d5 Hd5) as [_ Ho].
      rewrite Hx in Ho. eapply runs_under; [done|exact Hr|exact Ho|eauto].
    + left. exists d0. split; [done|]. unfold advance in Hupd.
      destruct (Z.ltb_spec (iat_cutoff (default (mkEntry 0 0) (user_entries (memory k d0) !! u))) (iat_cutoff (entry c))) as [|Hle]; [done|].
      unfold covers, denied_by. destruct (user_entries (memory k d0) !! u) as [e|]; [by exists e|].
      simpl in Hle. lia.
Qed.

(** A covered token that is not allowlisted is denied. *)
Lemma covered_denied k s u c jti iat :
  covers u c (denied_by k s) → iat < c → jti_allowlist (memory k s) !! jti = None →
  is_denied_in jti u iat (memory k s) = true.
Proof.
  intros (e & He & Hle) Hiat Hal. unfold is_denied_in. destruct (bool_decide _); [done|].
  rewrite Hal, bool_decide_eq_false_2 by (by intros []). unfold denied_by in He. rewrite He.
  apply Z.ltb_lt. lia.
Qed.

Lemma deny_user_holds {Ev} k T ok1 ok2 u c d d1 es d2 :
  kept k d → 0 < c → T < c + ACCESS_TOKEN_EXPIRY_SECS →
  runs (step k T) (deny_user (Ev := Ev) k true ok1 ok2 u c (c + ACCESS_TOKEN_EXPIRY_SECS)) d tt d1 es →
  rtc (step k T) d1 d2 → covers u c (denied_by k d2).
Proof.
  intros Hd Hc HT Hr Hs.
  destruct (deny_user_covers k T ok1 ok2 u c d d1 es Hd Hc Hr) as [(d3 & Hd3 & Hcov & _ & Hs3) _].
  assert (rtc (step k T) d3 d2) as Hs2 by by etrans.
  destruct (steps_keep k T d3 d2 Hs2) as [[_ Hk] _]. by apply Hk; [apply Hd3|..].
Qed.

(** a revocation holds for as long as a revoked token can live. Once [deny_user] has run on
    a controller, whatever the controllers do meanwhile (other revocations, messages, purges,
    boots) and however its database statements fail, the controller denies every token of the
    user issued before the cutoff until the cutoff plus a token's lifetime, unless the token
    was allowlisted by its id there. If the upsert did not fail, a controller that boots
    meanwhile denies it too, unless the first controller already knew a cutoff as late, in
    which case this call does not write the table. *)
Theorem revocation_holds {Ev} k T ok1 ok2 u c d d1 es d2 :
  kept k d → 0 < c → T < c + ACCESS_TOKEN_EXPIRY_SECS →
  runs (step k T) (deny_user (Ev := Ev) k true ok1 ok2 u c (c + ACCESS_TOKEN_EXPIRY_SECS)) d tt d1 es →
  rtc (step k T) d1 d2 →
  (∀ jti iat, iat < c → jti_allowlist (memory k d2) !! jti = None →
     is_denied_in jti u iat (memory k d2) = true) ∧
  (ok1 = true →
   (∃ d0, rtc (step k T) d d0 ∧ covers u c (denied_by k d0)) ∨
   ∀ i jti iat, mem d2 !! i = None → iat < c →
     is_denied_in jti u iat (memory i (run (Ev := Empty_set) (load_from_db i true) d2).1.2) = true).
Proof.
  intros Hd Hc HT Hr Hs. split.
  - intros jti iat. apply covered_denied. by eapply deny_user_holds.
  - intros Hok. destruct (deny_user_covers k T ok1 ok2 u c d d1 es Hd Hc Hr) as [_ Hdb].
    destruct (Hdb Hok) as [Hknown|(d4 & Hd4 & Hcov & Hs4)]; [by left|right].
    intros i jti iat Hi Hiat. apply load_denies with c; [|done|done].
    assert (rtc (step k T) d4 d2) as Hs2 by by etrans.
    destruct (steps_keep k T d4 d2 Hs2) as [_ [_ Hk]]. by apply Hk; [apply Hd4|..].
Qed.

(** Two controllers and a revocation of user 5 at time 1000. *)
Definition quiet : Sys := mkSys {[ 0%nat := new; 1%nat := new ]} ∅ ∅.
Definition revoked : Sys := (run (Ev := Empty_set) (deny_user 0 true true true 5%N 1000 1900) quiet).1.2.

Lemma revocation_holds_witness :
  is_denied_in "t" 5%N 999 (memory 0 revoked) = true ∧
  is_denied_in "t" 5%N 999 (memory 1 revoked) = false ∧
  is_denied_in "t" 5%N 999 (memory 7 (run (Ev := Empty_set) (load_from_db 7 true) revoked).1.2) = true.
Proof.
  destruct (revocation_holds (Ev := Empty_set) 0%nat 1899 true true 5%N 1000 quiet revoked [] revoked) as [H1 H2].
  - split; intros u e He; [|by vm_compute in He]. unfold denied_by, memory in He.
    by vm_compute in He.
  - lia.
  - by vm_compute.
  - apply (run_runs (Ev := Empty_set) (step 0 1899) (deny_user 0 true true true 5%N 1000 1900) quiet).
  - apply rtc_refl.
  - split; [by apply H1|]. split; [by vm_compute|]. by vm_compute.
Defined.

(** What [deny_user_except] keeps alive outlives the next revocation: after a password change
    a logout does not revoke the session's own access token. *)
Example allowlist_outlives_revocation :
  let changed := (run (Ev := Empty_set) (deny_user_except 0 true true true 5%N "t" 1900 1000 1900) quiet).1.2 in
  let logged_out := (run (Ev := Empty_set) (deny_user 0 true true true 5%N 1010 1910) changed).1.2 in
  is_denied_in "t" 5%N 990 (memory 0 logged_out) = false ∧
  is_denied_in "t" 5%N 990 (memory 1 (run (Ev := Empty_set)
    (deliver_token_revoked 1 (mkRevoked None None (Some 5%N) (Some 1000) (Some 1900))) changed).1.2) = true.
Proof. by vm_compute. Qed.

End Denylist.
