(* ===== verification/AuthStore.v ===== *)
(** Credentials of users and the services over them
    ([crates/ui/web-api-auth/src/auth/]: [session.rs], [api_token.rs], [device_flow.rs],
    [mfa_challenge.rs], [jwt.rs], [password.rs], [auth_method.rs]): login sessions, API tokens,
    device authorizations, second factors. Each SQL statement and each immediate transaction
    is one function of the database. Instants are in nanoseconds; the ids, tokens and codes an
    operation draws are arguments. *)

From Stdlib Require Import Ascii.
From stdpp Require Import base list gmap sets strings numbers.
From S2P Require Import Prelude RustStr Hex Handlers OAuthStore TokenDenylist.
Local Open Scope Z_scope.

Module Auth.
Import OAuth(find_one, update_where, count_where, none).

(** ** Rows *)

Record User := mkUser { email : string; is_active : bool; password_hash : option string }.

Record Session := mkSession {
  s_user_id : Uuid; refresh_token_hash : string; auth_method : string;
  oidc_provider_id : option Uuid; s_created_at : Instant; s_expires_at : Instant;
  s_revoked_at : option Instant; user_agent : option string; ip_address : option string }.

Record ApiToken := mkApiToken {
  k_user_id : Uuid; k_name : string; k_token_hash : string; k_created_at : Instant;
  last_used_at : option Instant; k_revoked_at : option Instant }.

Inductive DeviceAuthStatus := Pending | Authorized | Denied | Expired | OtherStatus (s : string).
#[global] Instance DeviceAuthStatus_eq_dec : EqDecision DeviceAuthStatus.
Proof. solve_decision. Defined.

Record DeviceFlow := mkFlow {
  device_code_hash : string; user_code : string; status : DeviceAuthStatus;
  f_user_id : option Uuid; denied_by : option Uuid; f_client_name : option string;
  f_scope : option string; interval : Z; last_polled_at : option Instant;
  f_created_at : Instant; f_expires_at : Instant }.

Record Challenge := mkChallenge {
  c_user_id : Uuid; c_token_hash : string; email_code_hash : option string; attempt_count : Z;
  c_expires_at : Instant; c_consumed_at : option Instant; c_created_at : Instant }.

Record Totp := mkTotp {
  t_user_id : Uuid; secret : string; t_is_active : bool; enrolled_at : option Instant;
  last_used_step : option Z; t_created_at : Instant }.

Record RecoveryCode := mkRecovery {
  rc_user_id : Uuid; code_hash : string; rc_created_at : Instant; used_at : option Instant }.

(** The tables, the controllers' denylists and the clock. *)
Record Db := mkDb {
  users : gmap Uuid User; sessions : gmap Uuid Session; api_tokens : gmap Uuid ApiToken;
  device_flows : gmap Uuid DeviceFlow; challenges : gmap Uuid Challenge;
  totps : gmap Uuid Totp; recovery_codes : gmap Uuid RecoveryCode;
  deny : Denylist.Sys; clock : Instant }.

Definition set_users x (d : Db) : Db :=
  mkDb x (sessions d) (api_tokens d) (device_flows d) (challenges d) (totps d) (recovery_codes d) (deny d) (clock d).
Definition set_sessions x (d : Db) : Db :=
  mkDb (users d) x (api_tokens d) (device_flows d) (challenges d) (totps d) (recovery_codes d) (deny d) (clock d).
Definition set_api_tokens x (d : Db) : Db :=
  mkDb (users d) (sessions d) x (device_flows d) (challenges d) (totps d) (recovery_codes d) (deny d) (clock d).
Definition set_device_flows x (d : Db) : Db :=
  mkDb (users d) (sessions d) (api_tokens d) x (challenges d) (totps d) (recovery_codes d) (deny d) (clock d).
Definition set_challenges x (d : Db) : Db :=
  mkDb (users d) (sessions d) (api_tokens d) (device_flows d) x (totps d) (recovery_codes d) (deny d) (clock d).
Definition set_totps x (d : Db) : Db :=
  mkDb (users d) (sessions d) (api_tokens d) (device_flows d) (challenges d) x (recovery_codes d) (deny d) (clock d).
Definition set_recovery_codes x (d : Db) : Db :=
  mkDb (users d) (sessions d) (api_tokens d) (device_flows d) (challenges d) (totps d) x (deny d) (clock d).
Definition set_deny x (d : Db) : Db :=
  mkDb (users d) (sessions d) (api_tokens d) (device_flows d) (challenges d) (totps d) (recovery_codes d) x (clock d).
Definition set_clock x (d : Db) : Db :=
  mkDb (users d) (sessions d) (api_tokens d) (device_flows d) (challenges d) (totps d) (recovery_codes d) (deny d) x.

(** ** Third-party code *)

Record AccessTokenClaims := mkClaims {
  sub : string; jti : string; cl_auth_method : string; cl_oidc_provider_id : option string;
  iat : Z; exp : Z; iss : string; aud : list string; setup_required : option bool }.

(** Hashing and encoding, Argon2, TOTP (the counter a code matches at a time), the JWT library
    (its decoder also validates [iss], [aud] and, at a given time, [exp]), UUID texts, and
    the Unicode tables behind [str::to_uppercase]. *)
Class AuthEnv := {
  sha256 : string → string;
  argon2_hash : string → Result string string;
  argon2_verify : string → string → Result string bool;
  totp_check : string → string → Z → option Z;
  encode_jwt : AccessTokenClaims → Result string string;
  decode_jwt : Z → string → Result string AccessTokenClaims;
  uuid_text : Uuid → string;
  parse_uuid : string → option Uuid;
  to_uppercase : string → string;
}.

Inductive DbErr := UniqueViolation | RecordNotUpdated.

Inductive AuthError :=
| InvalidRefreshToken | RefreshTokenExpired | RefreshTokenRevoked | InvalidSession
| ApiTokenNotFound | ApiTokenRevoked
| MfaChallengeNotFound | MfaChallengeExpired | MfaChallengeExhausted
| PasswordHash (e : string) | JwtEncode (e : string) | Database (e : DbErr).

(** What handlers emit: audit events (action, user, outcome, reason), messages to the other
    controllers, and mail. *)
Inductive AuditOutcome := Success | DeniedOutcome | Failed | ValidationFailed.
Inductive Event :=
| Audit (action : string) (user : option Uuid) (outcome : AuditOutcome) (reason : option string)
| Publish (m : Denylist.TokenRevoked)
| SendEmail (to : string) (code : string).

Notation Server := (Handler Db Event).

Section Services.
Context {E : AuthEnv}.

Definition hash_token (t : string) : string := Hex.encode (sha256 t).
Definition now : Server Instant := query clock.
Definition unix_timestamp (t : Instant) : Z := t / 1000000000.

(** ** Authentication methods *)

Inductive AuthMethod := Password | Oidc (provider_id : Uuid) | ApiTokenMethod.

Definition from_session (kind : string) (provider : option Uuid) : option AuthMethod :=
  if decide (kind = "password") then Some Password
  else if decide (kind = "oidc") then Oidc <$> provider
  else if decide (kind = "api_token") then Some ApiTokenMethod
  else None.
Definition method_kind (m : AuthMethod) : string :=
  match m with Password => "password" | Oidc _ => "oidc" | ApiTokenMethod => "api_token" end.
Definition method_provider (m : AuthMethod) : option Uuid :=
  match m with Oidc p => Some p | _ => None end.

(** ** Passwords *)

Definition MIN_PASSWORD_LENGTH : nat := 8.
Definition MAX_PASSWORD_LENGTH : nat := 1024.
Definition validate_password_length (p : string) : option string :=
  if (str_len p <? MIN_PASSWORD_LENGTH)%nat then Some "Password must be at least 8 characters"
  else if (MAX_PASSWORD_LENGTH <? str_len p)%nat then Some "Password must be at most 1024 characters"
  else None.

(** ** Access tokens *)

Definition create_access_token (t : Instant) (jti_id : Uuid) (u : Uuid) (m : string)
    (provider : option Uuid) (setup : option bool) : Result AuthError string :=
  let t := unix_timestamp t in
  map_err JwtEncode (encode_jwt (mkClaims (uuid_text u) (uuid_text jti_id) m (uuid_text <$> provider) t
    (t + Denylist.ACCESS_TOKEN_EXPIRY_SECS) "uptrakit" ["uptrakit"] setup)).

(** ** Refresh tokens *)

Definition REFRESH_TOKEN_EXPIRY_DAYS : Z := 7.
Record VerifiedSession := mkVerified { v_user_id : Uuid; v_auth_method : AuthMethod }.

Definition session_by_hash (h : string) (d : Db) : option (Uuid * Session) :=
  find_one (λ _ s, bool_decide (refresh_token_hash s = h)) (sessions d).

Definition insert_session (id : Uuid) (s : Session) (d : Db) : Result DbErr unit * Db :=
  if none (sessions d !! id) && none (session_by_hash (refresh_token_hash s) d)
  then (Ok tt, set_sessions (<[id := s]> (sessions d)) d)
  else (Err UniqueViolation, d).

Definition session_ttl : Z := secs (REFRESH_TOKEN_EXPIRY_DAYS * 86400).

Definition create_refresh_token (id : Uuid) (token : string) (u : Uuid) (m : AuthMethod)
    (agent ip : option string) : Server (Result AuthError string) :=
  t ← now;
  r ← exec (insert_session id (mkSession u (hash_token token) (method_kind m) (method_provider m) t
              (t + session_ttl) None agent ip));
  mret (map_err Database (result_map (λ _, token) r)).

(** The checks of a session row. *)
Definition check_session (t : Instant) (s : Session) : Result AuthError unit :=
  if negb (none (s_revoked_at s)) then Err RefreshTokenRevoked
  else if s_expires_at s <=? t then Err RefreshTokenExpired
  else Ok tt.

Definition session_method (s : Session) : Result AuthError VerifiedSession :=
  match from_session (auth_method s) (oidc_provider_id s) with
  | Some m => Ok (mkVerified (s_user_id s) m)
  | None => Err InvalidSession
  end.

Definition verify_refresh_token (token : string) : Server (Result AuthError VerifiedSession) :=
  t ← now;
  row ← query (session_by_hash (hash_token token));
  mret match row with
       | None => Err InvalidRefreshToken
       | Some (_, s) => _ ← check_session t s; session_method s
       end.

Definition revoke_session_row (t : Instant) (s : Session) : Session :=
  mkSession (s_user_id s) (refresh_token_hash s) (auth_method s) (oidc_provider_id s)
    (s_created_at s) (s_expires_at s) (Some t) (user_agent s) (ip_address s).
Definition renewed_session (t : Instant) (h : string) (s : Session) : Session :=
  mkSession (s_user_id s) h (auth_method s) (oidc_provider_id s) t (t + session_ttl) None
    (user_agent s) (ip_address s).

(** The transaction of [rotate_refresh_token]; an error rolls it back. *)
Definition rotate_txn (t : Instant) (token : string) (new_id : Uuid) (new_token : string) (d : Db)
    : Result AuthError VerifiedSession * Db :=
  match session_by_hash (hash_token token) d with
  | None => (Err InvalidRefreshToken, d)
  | Some (sid, s) =>
      match check_session t s with
      | Err e => (Err e, d)
      | Ok _ =>
          let d1 := set_sessions (<[sid := revoke_session_row t s]> (sessions d)) d in
          match session_method s with
          | Err e => (Err e, d)
          | Ok v =>
              match insert_session new_id (renewed_session t (hash_token new_token) s) d1 with
              | (Err e, _) => (Err (Database e), d)
              | (Ok _, d2) => (Ok v, d2)
              end
          end
      end
  end.

Definition rotate_refresh_token (token : string) (new_id : Uuid) (new_token : string)
    : Server (Result AuthError (VerifiedSession * string)) :=
  t ← now;
  r ← exec (rotate_txn t token new_id new_token);
  mret (result_map (λ v, (v, new_token)) r).

(** [update] of the row with this id. *)
Definition update_session (id : Uuid) (f : Session → Session) (d : Db) : Result DbErr unit * Db :=
  match sessions d !! id with
  | Some s => (Ok tt, set_sessions (<[id := f s]> (sessions d)) d)
  | None => (Err RecordNotUpdated, d)
  end.

Definition revoke_refresh_token (token : string) : Server (Result AuthError unit) :=
  t ← now;
  row ← query (session_by_hash (hash_token token));
  match row with
  | None => mret (Ok tt)
  | Some (sid, _) => r ← exec (update_session sid (revoke_session_row t)); mret (map_err Database r)
  end.

Definition delete_sessions (P : Uuid → Session → bool) (d : Db) : unit * Db :=
  (tt, set_sessions (filter (λ kv : Uuid * Session, P kv.1 kv.2 = false) (sessions d)) d).
Definition delete_user_sessions (u : Uuid) : Server unit :=
  exec (delete_sessions (λ _ s, bool_decide (s_user_id s = u))).
Definition delete_user_sessions_except (u sid : Uuid) : Server unit :=
  exec (delete_sessions (λ k s, bool_decide (s_user_id s = u) && negb (bool_decide (k = sid)))).
Definition cleanup_expired_sessions : Server unit :=
  t ← now; exec (delete_sessions (λ _ s, s_expires_at s <? t)).

(** ** API tokens *)

Definition token_by_hash (h : string) (d : Db) : option (Uuid * ApiToken) :=
  find_one (λ _ k, bool_decide (k_token_hash k = h)) (api_tokens d).

Definition insert_api_token (id : Uuid) (k : ApiToken) (d : Db) : Result DbErr unit * Db :=
  if none (api_tokens d !! id) && none (token_by_hash (k_token_hash k) d)
  then (Ok tt, set_api_tokens (<[id := k]> (api_tokens d)) d)
  else (Err UniqueViolation, d).

Definition new_api_token (t : Instant) (u : Uuid) (name raw : string) : ApiToken :=
  mkApiToken u name (hash_token ("upk_" +:+ raw)) t None None.

Definition create_token (id : Uuid) (raw : string) (u : Uuid) (name : string)
    : Server (Result AuthError string) :=
  t ← now;
  r ← exec (insert_api_token id (new_api_token t u name raw));
  mret (map_err Database (result_map (λ _, "upk_" +:+ raw) r)).

Definition revoke_token_row (t : Instant) (k : ApiToken) : ApiToken :=
  mkApiToken (k_user_id k) (k_name k) (k_token_hash k) (k_created_at k) (last_used_at k) (Some t).
Definition use_token_row (t : Instant) (k : ApiToken) : ApiToken :=
  mkApiToken (k_user_id k) (k_name k) (k_token_hash k) (k_created_at k) (Some t) (k_revoked_at k).
Definition update_token (id : Uuid) (f : ApiToken → ApiToken) (d : Db) : Result DbErr unit * Db :=
  match api_tokens d !! id with
  | Some k => (Ok tt, set_api_tokens (<[id := f k]> (api_tokens d)) d)
  | None => (Err RecordNotUpdated, d)
  end.

Definition revoke_token (id u : Uuid) : Server (Result AuthError unit) :=
  row ← query (λ d, match api_tokens d !! id with
                    | Some k => if decide (k_user_id k = u) then Some k else None
                    | None => None
                    end);
  match row with
  | None => mret (Err ApiTokenNotFound)
  | Some _ => t ← now; r ← exec (update_token id (revoke_token_row t)); mret (map_err Database r)
  end.

Definition verify_token (plaintext : string) : Server (Result AuthError (Uuid * Uuid)) :=
  row ← query (token_by_hash (hash_token plaintext));
  match row with
  | None => mret (Err ApiTokenNotFound)
  | Some (id, k) =>
      if negb (none (k_revoked_at k)) then mret (Err ApiTokenRevoked)
      else
        t ← now;
        r ← exec (update_token id (use_token_row t));
        mret (map_err Database (result_map (λ _, (k_user_id k, id)) r))
  end.

(** ** Device authorizations *)

Definition DEVICE_CODE_TTL_SECONDS : Z := 600.
Definition CLIENT_ID : string := "uptrakit-cli".
Definition POLL_INTERVAL_SECONDS : Z := 5.
Definition POLL_INTERVAL_BUMP_SECONDS : Z := 5.
Definition I32_MAX : Z := 2147483647.

Inductive DeviceFlowError := NotFound | AlreadyAuthorized | FlowDatabase (e : DbErr).
Inductive PollOutcome :=
| PollAuthorized (token token_name : string) | PollPending | SlowDown (bumped_interval : Z)
| PollDenied | PollExpired | Unknown | MalformedDeviceCode.

Fixpoint without_dashes (s : string) : string :=
  match s with
  | EmptyString => EmptyString
  | String c s' => if Ascii.eqb c "-" then without_dashes s' else String c (without_dashes s')
  end.
Definition normalize (code : string) : string := to_uppercase (without_dashes code).

Definition flow_by_device (h : string) (d : Db) : option (Uuid * DeviceFlow) :=
  find_one (λ _ f, bool_decide (device_code_hash f = h)) (device_flows d).
Definition flow_by_user_code (c : string) (d : Db) : option (Uuid * DeviceFlow) :=
  find_one (λ _ f, bool_decide (user_code f = c)) (device_flows d).

Definition insert_flow (id : Uuid) (f : DeviceFlow) (d : Db) : Result DbErr unit * Db :=
  if none (device_flows d !! id) && none (flow_by_device (device_code_hash f) d)
     && none (flow_by_user_code (user_code f) d)
  then (Ok tt, set_device_flows (<[id := f]> (device_flows d)) d)
  else (Err UniqueViolation, d).

(** [code] is the generated user code, [XXXX-XXXX]. *)
Definition new_flow (t : Instant) (device code : string) (name scope : option string) : DeviceFlow :=
  mkFlow (hash_token device) (without_dashes code) Pending None None name scope
    POLL_INTERVAL_SECONDS None t (t + secs DEVICE_CODE_TTL_SECONDS).
Definition create_flow (id : Uuid) (device code : string) (name scope : option string)
    : Server (Result DeviceFlowError (string * string)) :=
  t ← now;
  r ← exec (insert_flow id (new_flow t device code name scope));
  mret (map_err FlowDatabase (result_map (λ _, (device, code)) r)).

(** [update_many] columns of a flow. *)
Definition polled (t : Instant) (n : Z) (f : DeviceFlow) : DeviceFlow :=
  mkFlow (device_code_hash f) (user_code f) (status f) (f_user_id f) (denied_by f)
    (f_client_name f) (f_scope f) n (Some t) (f_created_at f) (f_expires_at f).
Definition authorize_row (u : Uuid) (f : DeviceFlow) : DeviceFlow :=
  mkFlow (device_code_hash f) (user_code f) Authorized (Some u) (denied_by f)
    (f_client_name f) (f_scope f) (interval f) (last_polled_at f) (f_created_at f) (f_expires_at f).
Definition deny_row (u : Uuid) (f : DeviceFlow) : DeviceFlow :=
  mkFlow (device_code_hash f) (user_code f) Denied (f_user_id f) (Some u)
    (f_client_name f) (f_scope f) (interval f) (last_polled_at f) (f_created_at f) (f_expires_at f).

(** [(now - prev).whole_seconds() < interval]. *)
Definition too_fast (t : Instant) (f : DeviceFlow) : bool :=
  match last_polled_at f with
  | Some prev => Z.quot (t - prev) 1000000000 <? interval f
  | None => false
  end.

(** The transaction of [poll]; [t'] is the creation time [issue_access_token] reads. *)
Definition poll_txn (t t' : Instant) (device : string) (token_id : Uuid) (raw : string) (d : Db)
    : Result DeviceFlowError PollOutcome * Db :=
  match flow_by_device (hash_token device) d with
  | None => (Ok Unknown, d)
  | Some (fid, f) =>
      if f_expires_at f <=? t then (Ok PollExpired, d)
      else match status f with
      | Authorized =>
          match f_user_id f with
          | None => (Err NotFound, d)
          | Some u =>
              let name := default "cli" (f_client_name f) in
              let d1 := set_device_flows (delete fid (device_flows d)) d in
              match insert_api_token token_id (new_api_token t' u name raw) d1 with
              | (Err e, _) => (Err (FlowDatabase e), d)
              | (Ok _, d2) => (Ok (PollAuthorized ("upk_" +:+ raw) name), d2)
              end
          end
      | Denied => (Ok PollDenied, d)
      | Expired => (Ok PollExpired, d)
      | Pending =>
          if too_fast t f then
            let bumped := Z.min (interval f + POLL_INTERVAL_BUMP_SECONDS) I32_MAX in
            (Ok (SlowDown bumped), set_device_flows (<[fid := polled t bumped f]> (device_flows d)) d)
          else (Ok PollPending, set_device_flows (<[fid := polled t (interval f) f]> (device_flows d)) d)
      | OtherStatus _ => (Ok Unknown, d)
      end
  end.

Definition poll (device : string) (t : Instant) (token_id : Uuid) (raw : string)
    : Server (Result DeviceFlowError PollOutcome) :=
  if str_is_empty device then mret (Ok MalformedDeviceCode)
  else t' ← now; exec (poll_txn t t' device token_id raw).

Definition decide_flow (t : Instant) (fid : Uuid) (f : DeviceFlow) (g : DeviceFlow → DeviceFlow) (d : Db)
    : Result DeviceFlowError unit * Db :=
  if bool_decide (status f = Pending) && (t <? f_expires_at f)
  then (Ok tt, set_device_flows (<[fid := g f]> (device_flows d)) d)
  else (Err AlreadyAuthorized, d).

Definition deny_txn (t : Instant) (code : string) (u : Uuid) (d : Db) : Result DeviceFlowError unit * Db :=
  match flow_by_user_code (normalize code) d with
  | None => (Err NotFound, d)
  | Some (fid, f) =>
      if f_expires_at f <=? t then (Err NotFound, d)
      else if negb (bool_decide (status f = Pending)) then (Err AlreadyAuthorized, d)
      else decide_flow t fid f (deny_row u) d
  end.
Definition deny_flow (code : string) (u : Uuid) : Server (Result DeviceFlowError unit) :=
  t ← now; exec (deny_txn t code u).

Definition approve_txn (t : Instant) (code : string) (u : Uuid) (d : Db) : Result DeviceFlowError unit * Db :=
  match flow_by_user_code (normalize code) d with
  | None => (Err NotFound, d)
  | Some (fid, f) =>
      if f_expires_at f <=? t then (Err NotFound, d)
      else if bool_decide (status f = Authorized) then (Err AlreadyAuthorized, d)
      else decide_flow t fid f (authorize_row u) d
  end.
Definition approve_flow (code : string) (u : Uuid) : Server (Result DeviceFlowError unit) :=
  t ← now; exec (approve_txn t code u).

Definition lookup_by_user_code (code : string) : Server (option (Uuid * DeviceFlow)) :=
  query (flow_by_user_code (normalize code)).
Definition get_client_name (device : string) : Server (Result DeviceFlowError (option string)) :=
  f ← query (flow_by_device (hash_token device));
  mret match f with Some (_, f) => Ok (f_client_name f) | None => Err NotFound end.
Definition cleanup_flows (t : Instant) (d : Db) : unit * Db :=
  (tt, set_device_flows (filter (λ kv : Uuid * DeviceFlow, ¬ f_expires_at kv.2 < t) (device_flows d)) d).
Definition cleanup_expired_flows : Server unit := t ← now; exec (cleanup_flows t).

Definition validate_client_id (c : string) : bool := bool_decide (c = CLIENT_ID).

(** ** Second factors *)

Definition MFA_CHALLENGE_TTL_SECS : Z := 300.
Definition MAX_MFA_ATTEMPTS : Z := 5.

(** [verify_totp_code]: the counter the code matches, as an [i64]. *)
Definition verify_totp_code (t : Instant) (sec code : string) : option Z :=
  match totp_check sec code (unix_timestamp t) with
  | Some step => if step <? 2 ^ 63 then Some step else None
  | None => None
  end.

Definition challenge_by_hash (h : string) (d : Db) : option (Uuid * Challenge) :=
  find_one (λ _ c, bool_decide (c_token_hash c = h)) (challenges d).
Definition insert_challenge (id : Uuid) (c : Challenge) (d : Db) : Result DbErr unit * Db :=
  if none (challenges d !! id) && none (challenge_by_hash (c_token_hash c) d)
  then (Ok tt, set_challenges (<[id := c]> (challenges d)) d)
  else (Err UniqueViolation, d).

Definition create_mfa_challenge (id : Uuid) (token : string) (u : Uuid) : Server (Result AuthError string) :=
  t ← now;
  r ← exec (insert_challenge id (mkChallenge u (hash_token token) None 0
              (t + secs MFA_CHALLENGE_TTL_SECS) None t));
  mret (map_err Database (result_map (λ _, token) r)).

Definition load_valid_challenge (t : Instant) (token : string) (d : Db)
    : Result AuthError (Uuid * Challenge) :=
  match challenge_by_hash (hash_token token) d with
  | None => Err MfaChallengeNotFound
  | Some (cid, c) =>
      if negb (none (c_consumed_at c)) then Err MfaChallengeNotFound
      else if c_expires_at c <=? t then Err MfaChallengeExpired
      else if MAX_MFA_ATTEMPTS <=? attempt_count c then Err MfaChallengeExhausted
      else Ok (cid, c)
  end.

Definition failed_challenge (t : Instant) (c : Challenge) : Challenge :=
  mkChallenge (c_user_id c) (c_token_hash c) (email_code_hash c) (attempt_count c + 1)
    (c_expires_at c) (if MAX_MFA_ATTEMPTS <=? attempt_count c + 1 then Some t else c_consumed_at c)
    (c_created_at c).
Definition record_failed_attempt (t : Instant) (cid : Uuid) (c : Challenge) (d : Db) : bool * Db :=
  (MAX_MFA_ATTEMPTS <=? attempt_count c + 1,
   set_challenges (<[cid := failed_challenge t c]> (challenges d)) d).

Definition consumed_challenge (t : Instant) (c : Challenge) : Challenge :=
  mkChallenge (c_user_id c) (c_token_hash c) (email_code_hash c) (attempt_count c)
    (c_expires_at c) (Some t) (c_created_at c).
Definition consume_challenge (t : Instant) (cid : Uuid) (c : Challenge) (d : Db) : Db :=
  set_challenges (<[cid := consumed_challenge t c]> (challenges d)) d.

Definition with_otp_hash (h : string) (c : Challenge) : Challenge :=
  mkChallenge (c_user_id c) (c_token_hash c) (Some h) (attempt_count c) (c_expires_at c)
    (c_consumed_at c) (c_created_at c).
Definition store_email_otp_hash (h : string) (cid : Uuid) (c : Challenge) (d : Db) : Db :=
  set_challenges (<[cid := with_otp_hash h c]> (challenges d)) d.

Definition user_totp (u : Uuid) (active : bool) (d : Db) : option (Uuid * Totp) :=
  find_one (λ _ r, bool_decide (t_user_id r = u) && Bool.eqb (t_is_active r) active) (totps d).

Definition use_step (step : Z) (r : Totp) : Totp :=
  mkTotp (t_user_id r) (secret r) (t_is_active r) (enrolled_at r) (Some step) (t_created_at r).

(** A code against an enrolled secret: a step not used before, recorded. *)
Definition spend_totp (t : Instant) (tid : Uuid) (r : Totp) (code : string) (d : Db) : bool * Db :=
  match verify_totp_code t (secret r) code with
  | None => (false, d)
  | Some step =>
      if match last_used_step r with Some last => step <=? last | None => false end
      then (false, d)
      else (true, set_totps (<[tid := use_step step r]> (totps d)) d)
  end.

(** [find_matching_recovery_code]: an unused code of the user that the text matches. *)
Definition matching_recovery_code (u : Uuid) (code : string) (d : Db) : option (Uuid * RecoveryCode) :=
  find_one (λ _ r, bool_decide (rc_user_id r = u) && none (used_at r)
                   && match argon2_verify code (code_hash r) with Ok true => true | _ => false end)
    (recovery_codes d).
Definition use_recovery_row (t : Instant) (r : RecoveryCode) : RecoveryCode :=
  mkRecovery (rc_user_id r) (code_hash r) (rc_created_at r) (Some t).
Definition consume_recovery_code (t : Instant) (rid : Uuid) (d : Db) : Db :=
  set_recovery_codes (alter (use_recovery_row t) rid (recovery_codes d)) d.

Definition replace_recovery_codes (t : Instant) (u : Uuid) (hashes : list (Uuid * string)) (d : Db)
    : Result DbErr unit * Db :=
  let kept := filter (λ kv : Uuid * RecoveryCode, rc_user_id kv.2 ≠ u) (recovery_codes d) in
  let add m ih := match (m : option (gmap Uuid RecoveryCode)) with
                  | Some m => if none (m !! (ih : Uuid * string).1)
                              then Some (<[ih.1 := mkRecovery u ih.2 t None]> m) else None
                  | None => None
                  end in
  match foldl add (Some kept) hashes with
  | Some m => (Ok tt, set_recovery_codes m d)
  | None => (Err UniqueViolation, d)
  end.

(** ** The cleanup task *)

(** [AuthCleanupExecutor::execute], on the tables of this store. *)
Definition auth_cleanup_txn (t : Instant) (d : Db) : unit * Db :=
  (tt, set_sessions (filter (λ kv : Uuid * Session, ¬ s_expires_at kv.2 < t) (sessions d))
        (set_challenges (filter (λ kv : Uuid * Challenge, ¬ c_expires_at kv.2 < t - secs 86400) (challenges d))
          (cleanup_flows t d).2)).

End Services.
End Auth.
