(* ===== verification/AuthRoutes.v ===== *)
(** Authentication endpoints and middleware
    ([crates/ui/web-api/src/routes/{auth,mfa,me_2fa,device_auth,users}.rs],
    [routes/oauth/{token,device_authorization}.rs], [middleware/require_auth.rs],
    [crates/ui/controller-core/src/auth/]) as handlers over the credential store. Each [await]
    on the database is one statement. The answers leave out the user's name, effective actions
    and pending email change, which are read and returned only. *)

From Stdlib Require Import Ascii.
From stdpp Require Import base list gmap sets strings numbers.
From S2P Require Import Prelude RustStr Hex Handlers OAuthStore TokenDenylist AuthStore.
Local Open Scope Z_scope.

Module AuthApi.
Import Auth.
Import OAuth(find_one, update_where, count_where, none).

Record AuthSettings := mkSettings { password_auth_enabled : bool; two_factor_required : bool }.

Inductive Response :=
| ErrorResponse (status : Z) (message : string)
| Session200 (access refresh : string)
| MfaRequired (mfa_token : string)
| NoContent
| Ok200
| EnrollBody (secret : string)
| ConfirmBody (recovery_codes : list string) (session : option (string * string))
| RecoveryBody (recovery_codes : list string)
| DeviceStarted (device_code user_code : string) (expires_in interval : Z)
| TokenGranted (token : string)
| OAuthErr (status : Z) (error : string) (interval : option Z)
| DeviceMessage (message : string)
| DeviceDetails (client_name : option string) (expires_at : Instant).

Definition internal_error : Response := ErrorResponse 500 "Internal server error".

Section Routes.
Context {E : AuthEnv} (cfg : AuthSettings).
(** This controller, and whether each of its denylist's database statements succeeds. *)
Context (self : nat) (ok1 ok2 : bool).

Definition denylist {R} (h : Handler Denylist.Sys Event R) : Server R := zoom deny set_deny h.
Definition audit (action : string) (u : option Uuid) (o : AuditOutcome) (reason : option string) : Server unit :=
  emit (Audit action u o reason).

(** ** Middleware *)

Inductive AuthFailure :=
| InvalidApiToken | UserNotFound | UserDeactivated | InvalidOrExpiredToken | InvalidTokenSubject
| TokenRevoked | InvalidOidcSessionMissingProvider | InternalError.

Definition failure_response (f : AuthFailure) : Response :=
  match f with
  | InvalidApiToken => ErrorResponse 401 "Invalid or revoked API token"
  | UserNotFound => ErrorResponse 401 "User not found"
  | UserDeactivated => ErrorResponse 403 "User is deactivated"
  | InvalidOrExpiredToken => ErrorResponse 401 "Invalid or expired token"
  | InvalidTokenSubject => ErrorResponse 401 "Invalid token subject"
  | TokenRevoked => ErrorResponse 401 "Token has been revoked"
  | InvalidOidcSessionMissingProvider => ErrorResponse 401 "Invalid OIDC session: missing provider"
  | InternalError => internal_error
  end.
Definition api_token_reason_code (f : AuthFailure) : option string :=
  match f with
  | InvalidApiToken => Some "invalid_or_revoked_api_token"
  | UserNotFound => Some "user_not_found"
  | UserDeactivated => Some "user_deactivated"
  | InternalError => Some "internal_error"
  | _ => None
  end.
Definition jwt_audit_attributes (f : AuthFailure) : option (AuditOutcome * string) :=
  match f with
  | InvalidOrExpiredToken => Some (DeniedOutcome, "invalid_or_expired_token")
  | InvalidTokenSubject => Some (DeniedOutcome, "invalid_token_subject")
  | TokenRevoked => Some (DeniedOutcome, "token_revoked")
  | InvalidOidcSessionMissingProvider => Some (DeniedOutcome, "invalid_oidc_session_missing_provider")
  | UserNotFound => Some (DeniedOutcome, "user_not_found")
  | UserDeactivated => Some (DeniedOutcome, "user_deactivated")
  | InternalError => Some (Failed, "jwt_authenticate_failed")
  | InvalidApiToken => None
  end.

Record AuthenticatedUser := mkAuthenticated {
  au_user_id : Uuid; au_auth_method : AuthMethod; au_jti : option string }.

Definition classify_api_token_verify_error (e : AuthError) : AuthFailure :=
  match e with ApiTokenNotFound | ApiTokenRevoked => InvalidApiToken | _ => InternalError end.

Definition authenticate_api_token (token : string) : Server (Result AuthFailure (AuthenticatedUser * Uuid)) :=
  r ← verify_token token;
  match r with
  | Err e => mret (Err (classify_api_token_verify_error e))
  | Ok (u, token_id) =>
      user ← query (λ d, users d !! u);
      mret match user with
           | None => Err UserNotFound
           | Some w => if negb (is_active w) then Err UserDeactivated
                       else Ok (mkAuthenticated u ApiTokenMethod None, token_id)
           end
  end.

(** The authentication method a token's claims name. *)
Definition claims_method (c : AccessTokenClaims) : Result AuthFailure AuthMethod :=
  if decide (cl_auth_method c = "oidc")
  then match cl_oidc_provider_id c ≫= parse_uuid with
       | Some p => Ok (Oidc p)
       | None => Err InvalidOidcSessionMissingProvider
       end
  else Ok Password.

Definition authenticate_jwt (token : string) : Server (Result AuthFailure (AuthenticatedUser * bool)) :=
  t ← now;
  match decode_jwt (unix_timestamp t) token with
  | Err _ => mret (Err InvalidOrExpiredToken)
  | Ok c =>
      match parse_uuid (sub c) with
      | None => mret (Err InvalidTokenSubject)
      | Some u =>
          denied ← denylist (Denylist.is_denied self (jti c) u (iat c));
          mret (if (denied : bool) then Err TokenRevoked
                else result_map (λ m, (mkAuthenticated u m (Some (jti c)), default false (setup_required c)))
                       (claims_method c))
      end
  end.

(** What the middleware puts into the request: the user, the API token and the setup mark. *)
Record Principal := mkPrincipal { who : AuthenticatedUser; via_token : option Uuid; setup_only : bool }.

Definition SETUP_PREFIX : string := "/api/v1/auth/me/2fa/".

Definition require_auth (bearer : option string) (path : string) : Server (Result Response Principal) :=
  match bearer with
  | None =>
      _ ← audit "AUTH_JWT_AUTHENTICATE" None DeniedOutcome (Some "missing_authorization_header");
      mret (Err (ErrorResponse 401 "Authentication required"))
  | Some token =>
      r ← (if starts_with "upk_" token then
             r ← authenticate_api_token token;
             match r with
             | Ok (u, id) => mret (Ok (mkPrincipal u (Some id) false))
             | Err f =>
                 _ ← match api_token_reason_code f with
                     | Some c => audit "AUTH_API_TOKEN_AUTHENTICATE" None DeniedOutcome (Some c)
                     | None => mret tt
                     end;
                 mret (Err (failure_response f))
             end
           else
             r ← authenticate_jwt token;
             match r with
             | Ok (u, sr) => mret (Ok (mkPrincipal u None sr))
             | Err f =>
                 _ ← match jwt_audit_attributes f with
                     | Some (o, c) => audit "AUTH_JWT_AUTHENTICATE" None o (Some c)
                     | None => mret tt
                     end;
                 mret (Err (failure_response f))
             end);
      mret match r with
           | Err e => Err e
           | Ok p =>
               if setup_only p && negb (starts_with SETUP_PREFIX path)
               then Err (ErrorResponse 403 "Two-factor authentication setup is required before accessing this resource")
               else Ok p
           end
  end.

(** The [FullSessionUser] extractor. *)
Definition full_session (p : Principal) : Result Response AuthenticatedUser :=
  if setup_only p
  then Err (ErrorResponse 403 "Two-factor authentication setup is required before accessing this resource")
  else Ok (who p).

(** ** POST /api/v1/auth/login *)

(** What a request draws: row and token ids, and random tokens. *)
Record Draws := mkDraws { id1 : Uuid; id2 : Uuid; token1 : string }.

Definition user_by_email (e : string) (d : Db) : option (Uuid * User) :=
  find_one (λ _ w, bool_decide (email w = e)) (users d).

(** A refresh token and an access token for a password login; [fail] audits a failed step. *)
Definition issue_session (u : Uuid) (setup : option bool) (fail : string → Server unit) (x : Draws)
    : Server (Result Response (string * string)) :=
  r ← create_refresh_token (id1 x) (token1 x) u Password None None;
  match r with
  | Err _ => _ ← fail "refresh_token_create_failed"; mret (Err internal_error)
  | Ok refresh =>
      t ← now;
      match create_access_token t (id2 x) u "password" None setup with
      | Err _ => _ ← fail "access_token_create_failed"; mret (Err internal_error)
      | Ok access => mret (Ok (access, refresh))
      end
  end.

Definition login (mail pw : string) (x : Draws) : Server Response :=
  let deny u reason := audit "AUTH_LOGIN" u DeniedOutcome (Some reason) in
  let fail u reason := audit "AUTH_LOGIN" (Some u) Failed (Some reason) in
  if negb (password_auth_enabled cfg) then
    _ ← deny None "password_auth_disabled"; mret (ErrorResponse 403 "Password authentication is disabled")
  else match validate_password_length pw with
  | Some m => _ ← audit "AUTH_LOGIN" None ValidationFailed (Some "invalid_password_length");
              mret (ErrorResponse 400 m)
  | None =>
      found ← query (user_by_email mail);
      match found with
      | None => _ ← deny None "invalid_credentials"; mret (ErrorResponse 401 "Invalid credentials")
      | Some (u, w) =>
          if negb (is_active w) then
            _ ← deny (Some u) "invalid_credentials"; mret (ErrorResponse 401 "Invalid credentials")
          else match password_hash w with
          | None => _ ← deny (Some u) "invalid_credentials"; mret (ErrorResponse 401 "Invalid credentials")
          | Some h =>
              match argon2_verify pw h with
              | Err _ => _ ← fail u "password_verification_error"; mret internal_error
              | Ok false =>
                  _ ← deny (Some u) "invalid_credentials"; mret (ErrorResponse 401 "Invalid credentials")
              | Ok true =>
                  active ← query (user_totp u true);
                  match active with
                  | Some _ =>
                      c ← create_mfa_challenge (id1 x) (token1 x) u;
                      match c with
                      | Err _ => _ ← fail u "mfa_challenge_create_failed"; mret internal_error
                      | Ok token =>
                          _ ← audit "AUTH_MFA_CHALLENGE_ISSUED" (Some u) Success None;
                          mret (MfaRequired token)
                      end
                  | None =>
                      r ← issue_session u (if two_factor_required cfg then Some true else None) (fail u) x;
                      match r with
                      | Err e => mret e
                      | Ok (access, refresh) =>
                          _ ← audit "AUTH_LOGIN" (Some u) Success None;
                          mret (Session200 access refresh)
                      end
                  end
              end
          end
      end
  end.

(** ** POST /api/v1/auth/refresh *)

Definition refresh_rotation_classification (e : AuthError) : Z * AuditOutcome * string :=
  match e with
  | InvalidRefreshToken | RefreshTokenExpired | RefreshTokenRevoked | InvalidSession =>
      (401, DeniedOutcome, "invalid_or_expired_refresh_token")
  | _ => (500, Failed, "refresh_rotation_failed")
  end.
Definition refuse_refresh (e : AuthError) : Server Response :=
  let '(status, o, reason) := refresh_rotation_classification e in
  _ ← audit "AUTH_TOKEN_REFRESH" None o (Some reason);
  mret (if decide (status = 401) then ErrorResponse 401 "Invalid or expired refresh token" else internal_error).

(** [token]: from the cookie, else from the body. *)
Definition refresh (token : option string) (x : Draws) : Server Response :=
  match token with
  | None =>
      _ ← audit "AUTH_TOKEN_REFRESH" None DeniedOutcome (Some "missing_refresh_token");
      mret (ErrorResponse 401 "No refresh token provided")
  | Some token =>
      v ← verify_refresh_token token;
      match v with
      | Err e => refuse_refresh e
      | Ok v =>
          let u := v_user_id v in
          user ← query (λ d, users d !! u);
          match user with
          | None => _ ← audit "AUTH_TOKEN_REFRESH" (Some u) DeniedOutcome (Some "user_not_found");
                    mret (ErrorResponse 401 "User not found")
          | Some w =>
              if negb (is_active w) then
                _ ← audit "AUTH_TOKEN_REFRESH" (Some u) DeniedOutcome (Some "user_deactivated");
                mret (ErrorResponse 403 "User is deactivated")
              else
                r ← rotate_refresh_token token (id1 x) (token1 x);
                match r with
                | Err e => refuse_refresh e
                | Ok (v', fresh) =>
                    totp ← query (user_totp u true);
                    let setup := if two_factor_required cfg && none totp then Some true else None in
                    t ← now;
                    match create_access_token t (id2 x) u (method_kind (v_auth_method v'))
                            (method_provider (v_auth_method v')) setup with
                    | Err _ => _ ← audit "AUTH_TOKEN_REFRESH" (Some u) Failed (Some "access_token_create_failed");
                               mret internal_error
                    | Ok access => _ ← audit "AUTH_TOKEN_REFRESH" (Some u) Success None;
                                   mret (Session200 access fresh)
                    end
                end
          end
      end
  end.

(** ** POST /api/v1/auth/logout *)

Definition logout_verify_classification (e : AuthError) : AuditOutcome * string :=
  match e with
  | InvalidRefreshToken | RefreshTokenExpired | RefreshTokenRevoked =>
      (DeniedOutcome, "invalid_or_expired_refresh_token")
  | _ => (Failed, "refresh_token_verify_failed")
  end.

(** [deny_user] here and [TokenRevoked] to the other controllers. *)
Definition revoke_user_tokens (u : Uuid) (t : Z) (except : option string) : Server unit :=
  let purge := t + Denylist.ACCESS_TOKEN_EXPIRY_SECS in
  _ ← match except with
      | Some j => denylist (Denylist.deny_user_except self true ok1 ok2 u j purge t purge)
      | None => denylist (Denylist.deny_user self true ok1 ok2 u t purge)
      end;
  emit (Publish (Denylist.mkRevoked None None (Some u) (Some t) (Some purge))).

Definition logout (me : Uuid) (token : option string) : Server Response :=
  match token with
  | None => mret NoContent
  | Some token =>
      v ← verify_refresh_token token;
      match v with
      | Ok v =>
          if negb (bool_decide (v_user_id v = me)) then
            _ ← audit "AUTH_LOGOUT" (Some me) DeniedOutcome (Some "token_not_owned");
            mret (ErrorResponse 403 "Token does not belong to this user")
          else
            t ← now;
            _ ← revoke_user_tokens (v_user_id v) (unix_timestamp t) None;
            r ← revoke_refresh_token token;
            _ ← match r with
                | Ok _ => audit "AUTH_LOGOUT" (Some me) Success None
                | Err _ => audit "AUTH_LOGOUT" (Some me) Failed (Some "refresh_token_revoke_failed")
                end;
            mret NoContent
      | Err e =>
          let '(o, reason) := logout_verify_classification e in
          _ ← audit "AUTH_LOGOUT" (Some me) o (Some reason);
          _ ← revoke_refresh_token token;
          mret NoContent
      end
  end.

(** ** PUT /api/v1/users/{id}/password *)

Definition validate_change_password (new_password : string) : Result string unit :=
  if (str_len new_password <? 8)%nat then Err "new_password must be at least 8 characters"
  else if (128 <? str_len new_password)%nat then Err "new_password must not exceed 128 characters"
  else Ok tt.

Definition set_password (u : Uuid) (h : string) (d : Db) : Result DbErr unit * Db :=
  match users d !! u with
  | Some w => (Ok tt, set_users (<[u := mkUser (email w) (is_active w) (Some h)]> (users d)) d)
  | None => (Err RecordNotUpdated, d)
  end.

(** [cookie]: the refresh token of the request, which names the session to keep. *)
Definition change_password (me : AuthenticatedUser) (u : Uuid) (current new : string)
    (cookie : option string) : Server Response :=
  if negb match au_auth_method me with Password => true | _ => false end
  then mret (ErrorResponse 403 "Password change is not available for OIDC accounts")
  else if negb (bool_decide (au_user_id me = u))
  then mret (ErrorResponse 403 "Cannot change another user's password")
  else match validate_change_password new with
  | Err e => mret (ErrorResponse 422 ("new_password: " +:+ e))
  | Ok _ =>
      user ← query (λ d, users d !! u);
      match user with
      | None => mret (ErrorResponse 404 "User not found")
      | Some w =>
          match password_hash w with
          | None => mret (ErrorResponse 401 "Invalid credentials")
          | Some h =>
              match argon2_verify current h with
              | Ok false => mret (ErrorResponse 401 "Current password is incorrect")
              | Err _ => mret internal_error
              | Ok true =>
                  match argon2_hash new with
                  | Err _ => mret internal_error
                  | Ok h' =>
                      t ← now;
                      r ← exec (set_password u h');
                      match r with
                      | Err _ => mret internal_error
                      | Ok _ =>
                          _ ← match cookie with
                              | Some token =>
                                  row ← query (session_by_hash (hash_token token));
                                  match row with
                                  | Some (sid, _) => delete_user_sessions_except u sid
                                  | None => delete_user_sessions u
                                  end
                              | None => delete_user_sessions u
                              end;
                          _ ← revoke_user_tokens u (unix_timestamp t) (au_jti me);
                          _ ← audit "USER_UPDATE" (Some u) Success None;
                          mret NoContent
                      end
                  end
              end
          end
      end
  end.

(** ** POST /api/v1/auth/mfa/verify *)

Inductive MfaMethod := MethodTotp | MethodEmail | MethodRecoveryCode | MethodOther (s : string).

Inductive MfaResult :=
| MfaRefused (r : Response)
| MfaWrong (u : Uuid) (exhausted : bool)
| MfaVerified (u : Uuid) (is_recovery : bool).

Definition challenge_error_response (e : AuthError) : Response :=
  match e with
  | MfaChallengeNotFound => ErrorResponse 401 "Invalid or expired MFA token"
  | MfaChallengeExpired => ErrorResponse 401 "MFA token has expired"
  | MfaChallengeExhausted => ErrorResponse 401 "Too many failed attempts"
  | _ => internal_error
  end.

(** The code against the chosen method: a refusal that rolls back, or whether it is right,
    whether it was a recovery code, and the database with the code spent. *)
Definition verify_code (t : Instant) (m : MfaMethod) (c : Challenge) (code : string) (d : Db)
    : Result Response (bool * bool * Db) :=
  let u := c_user_id c in
  match m with
  | MethodTotp =>
      match user_totp u true d with
      | None => Err (ErrorResponse 401 "TOTP not enrolled")
      | Some (tid, r) => let '(valid, d') := spend_totp t tid r code d in Ok (valid, false, d')
      end
  | MethodEmail =>
      match email_code_hash c with
      | None => Err (ErrorResponse 401 "No email OTP issued for this challenge")
      | Some h => match argon2_verify code h with
                  | Ok valid => Ok (valid, false, d)
                  | Err _ => Err internal_error
                  end
      end
  | MethodRecoveryCode =>
      match matching_recovery_code u code d with
      | Some (rid, _) => Ok (true, true, consume_recovery_code t rid d)
      | None => Ok (false, false, d)
      end
  | MethodOther _ => Err (ErrorResponse 400 "Unsupported MFA method")
  end.

(** The transaction of [mfa_verify]; [commits] says whether its commit goes through. A wrong
    code is answered as one either way (a failed commit is only logged), but its attempt is
    recorded only when it does; a right code whose commit fails is answered with an error. *)
Definition mfa_verify_txn (commits : bool) (t : Instant) (token : string) (m : MfaMethod)
    (code : string) (d : Db) : MfaResult * Db :=
  match load_valid_challenge t token d with
  | Err e => (MfaRefused (challenge_error_response e), d)
  | Ok (cid, c) =>
      match verify_code t m c code d with
      | Err r => (MfaRefused r, d)
      | Ok (false, _, d1) =>
          let '(exhausted, d2) := record_failed_attempt t cid c d1 in
          (MfaWrong (c_user_id c) exhausted, if commits then d2 else d)
      | Ok (true, is_recovery, d1) =>
          if commits then (MfaVerified (c_user_id c) is_recovery, consume_challenge t cid c d1)
          else (MfaRefused internal_error, d)
      end
  end.

Definition no_audit (_ : string) : Server unit := mret tt.

Definition mfa_verify (commits : bool) (token : string) (m : MfaMethod) (code : string) (x : Draws)
    : Server Response :=
  t ← now;
  r ← exec (mfa_verify_txn commits t token m code);
  match r with
  | MfaRefused resp => mret resp
  | MfaWrong u true => _ ← audit "AUTH_MFA_CHALLENGE_EXHAUSTED" (Some u) DeniedOutcome (Some "too_many_attempts");
                       mret (ErrorResponse 401 "Too many failed attempts")
  | MfaWrong u false => _ ← audit "AUTH_MFA_FAILED" (Some u) DeniedOutcome (Some "invalid_code");
                        mret (ErrorResponse 401 "Invalid MFA code")
  | MfaVerified u is_recovery =>
      user ← query (λ d, users d !! u);
      match user with
      | None => mret (ErrorResponse 401 "User not found")
      | Some w =>
          if negb (is_active w) then mret (ErrorResponse 401 "Invalid credentials")
          else
            _ ← (if (is_recovery : bool) then audit "AUTH_MFA_RECOVERY_USED" (Some u) Success None else mret tt);
            _ ← audit "AUTH_MFA_VERIFIED" (Some u) Success None;
            s ← issue_session u None no_audit x;
            mret match s with Err e => e | Ok (access, fresh) => Session200 access fresh end
      end
  end.

(** ** POST /api/v1/auth/mfa/email *)

Definition store_otp_txn (t : Instant) (token h : string) (d : Db) : Result Response string * Db :=
  match load_valid_challenge t token d with
  | Err e => (Err (challenge_error_response e), d)
  | Ok (cid, c) =>
      match users d !! c_user_id c with
      | None => (Err (ErrorResponse 401 "User not found"), d)
      | Some w =>
          if str_is_empty (email w) then (Err (ErrorResponse 400 "User has no email address configured"), d)
          else (Ok (email w), store_email_otp_hash h cid c d)
      end
  end.

Inductive EmailResult := Sent | NotConfigured | DeliveryFailed.

(** [otp]: the six digits drawn; [sent]: the answer of the mail service. *)
Definition mfa_send_email (token otp : string) (sent : EmailResult) : Server Response :=
  match argon2_hash otp with
  | Err _ => mret internal_error
  | Ok h =>
      t ← now;
      r ← exec (store_otp_txn t token h);
      match r with
      | Err resp => mret resp
      | Ok addr =>
          _ ← emit (SendEmail addr otp);
          mret match sent with
               | Sent => Ok200
               | NotConfigured => ErrorResponse 503 "Email delivery not configured"
               | DeliveryFailed => ErrorResponse 503 "Email delivery failed"
               end
      end
  end.

(** ** /api/v1/auth/me/2fa *)

(** The re-authentication of [totp_disable] and [regenerate_recovery_codes]. *)
Definition reauth_totp_txn (t : Instant) (u : Uuid) (code : string) (d : Db) : bool * Db :=
  match user_totp u true d with
  | None => (false, d)
  | Some (tid, r) => spend_totp t tid r code d
  end.
Definition re_auth_ok (u : Uuid) (pw totp_code : option string) : Server bool :=
  match pw, totp_code with
  | Some p, _ =>
      user ← query (λ d, users d !! u);
      mret match user ≫= password_hash with
           | Some h => match argon2_verify p h with Ok v => v | Err _ => false end
           | None => false
           end
  | None, Some code => t ← now; exec (reauth_totp_txn t u code)
  | None, None => mret false
  end.

(** [user_totp.user_id] is unique. *)
Definition insert_totp (id : Uuid) (r : Totp) (d : Db) : Result DbErr unit * Db :=
  if none (totps d !! id) && none (find_one (λ _ x, bool_decide (t_user_id x = t_user_id r)) (totps d))
  then (Ok tt, set_totps (<[id := r]> (totps d)) d)
  else (Err UniqueViolation, d).

Definition enroll_txn (t : Instant) (id : Uuid) (sec : string) (u : Uuid) (d : Db) : Result Response unit * Db :=
  if negb (count_where (λ _ r, bool_decide (t_user_id r = u) && t_is_active r) (totps d) =? 0)%nat
  then (Err (ErrorResponse 409 "TOTP already active"), d)
  else
    let d1 := set_totps (filter (λ kv : Uuid * Totp, ¬ (t_user_id kv.2 = u ∧ t_is_active kv.2 = false)) (totps d)) d in
    match insert_totp id (mkTotp u sec false None None t) d1 with
    | (Err _, _) => (Err internal_error, d)
    | (Ok _, d2) => (Ok tt, d2)
    end.

(** [uri_ok]: could the otpauth URI be built? *)
Definition totp_enroll (u id : Uuid) (sec : string) (uri_ok : bool) : Server Response :=
  t ← now;
  r ← exec (enroll_txn t id sec u);
  match r with
  | Err e => mret e
  | Ok _ =>
      user ← query (λ d, users d !! u);
      mret match user with
           | None => ErrorResponse 401 "User not found"
           | Some _ => if uri_ok then EnrollBody sec else internal_error
           end
  end.

Definition activate (t : Instant) (step : Z) (r : Totp) : Totp :=
  mkTotp (t_user_id r) (secret r) true (Some t) (Some step) (t_created_at r).

(** [codes]: the recovery codes drawn, with the ids of their rows. *)
Definition confirm_txn (t : Instant) (u : Uuid) (code : string) (codes : list (Uuid * string)) (d : Db)
    : Result Response unit * Db :=
  match user_totp u false d with
  | None => (Err (ErrorResponse 400 "No pending TOTP enrolment found"), d)
  | Some (tid, r) =>
      match verify_totp_code t (secret r) code with
      | None => (Err (ErrorResponse 401 "Invalid TOTP code"), d)
      | Some step =>
          let d1 := set_totps (<[tid := activate t step r]> (totps d)) d in
          match mapM (λ ic : Uuid * string, match argon2_hash ic.2 with Ok h => Some (ic.1, h) | Err _ => None end) codes with
          | None => (Err internal_error, d)
          | Some hashes =>
              match replace_recovery_codes t u hashes d1 with
              | (Err _, _) => (Err internal_error, d)
              | (Ok _, d2) => (Ok tt, d2)
              end
          end
      end
  end.

Definition totp_confirm (p : Principal) (code : string) (codes : list (Uuid * string)) (x : Draws) : Server Response :=
  let u := au_user_id (who p) in
  t ← now;
  r ← exec (confirm_txn t u code codes);
  match r with
  | Err e => mret e
  | Ok _ =>
      _ ← audit "AUTH_MFA_ENROLLED" (Some u) Success None;
      if setup_only p then
        user ← query (λ d, users d !! u);
        match user with
        | None => mret (ErrorResponse 401 "User not found")
        | Some _ =>
            s ← issue_session u None no_audit x;
            mret match s with Err e => e | Ok tokens => ConfirmBody (codes.*2) (Some tokens) end
        end
      else mret (ConfirmBody (codes.*2) None)
  end.

Definition disable_txn (u : Uuid) (d : Db) : unit * Db :=
  (tt, set_recovery_codes (filter (λ kv : Uuid * RecoveryCode, rc_user_id kv.2 ≠ u) (recovery_codes d))
         (set_totps (filter (λ kv : Uuid * Totp, t_user_id kv.2 ≠ u) (totps d)) d)).

(** Both take a full session; the request names one of the two credentials. *)
Definition totp_disable (p : Principal) (pw code : option string) : Server Response :=
  match full_session p with
  | Err e => mret e
  | Ok me =>
      okay ← re_auth_ok (au_user_id me) pw code;
      if negb okay then mret (ErrorResponse 401 "Re-authentication failed")
      else
        _ ← exec (disable_txn (au_user_id me));
        _ ← audit "AUTH_MFA_DISABLED" (Some (au_user_id me)) Success None;
        mret NoContent
  end.

Definition regenerate_recovery_codes (p : Principal) (pw code : option string) (codes : list (Uuid * string))
    : Server Response :=
  match full_session p with
  | Err e => mret e
  | Ok me =>
      okay ← re_auth_ok (au_user_id me) pw code;
      if negb okay then mret (ErrorResponse 401 "Re-authentication failed")
      else match mapM (λ ic : Uuid * string, match argon2_hash ic.2 with Ok h => Some (ic.1, h) | Err _ => None end) codes with
      | None => mret internal_error
      | Some hashes =>
          t ← now;
          r ← exec (replace_recovery_codes t (au_user_id me) hashes);
          match r with
          | Err _ => mret internal_error
          | Ok _ =>
              _ ← audit "AUTH_MFA_RECOVERY_REGENERATED" (Some (au_user_id me)) Success None;
              mret (RecoveryBody (codes.*2))
          end
      end
  end.

(** ** Device authorization *)

Definition blank (s : string) : bool := bool_decide (split_whitespace s = []).

Definition validate_device_authorization (client_id : string) (scope : option string) : Result string unit :=
  if blank client_id then Err "client_id is required"
  else if match scope with Some s => blank s | None => false end
       then Err "scope must be non-empty when present"
  else Ok tt.

Definition device_authorization (client_id : string) (name scope : option string) (id : Uuid) (device code : string)
    : Server Response :=
  match validate_device_authorization client_id scope with
  | Err _ => mret (OAuthErr 400 "invalid_request" None)
  | Ok _ =>
      if negb (validate_client_id client_id) then mret (OAuthErr 400 "invalid_client" None)
      else
        r ← create_flow id device code name scope;
        match r with
        | Err _ => _ ← audit "AUTH_DEVICE_START" None Failed (Some "device_flow_create_failed");
                   mret (OAuthErr 500 "server_error" None)
        | Ok (device, code) => _ ← audit "AUTH_DEVICE_START" None Success None;
                               mret (DeviceStarted device code 600 POLL_INTERVAL_SECONDS)
        end
  end.

Definition poll_audit (o : PollOutcome) : AuditOutcome * option string :=
  match o with
  | PollAuthorized _ _ => (Success, None)
  | SlowDown _ => (Failed, None)
  | PollDenied => (Failed, Some "access_denied")
  | PollExpired | Unknown => (Failed, Some "expired_token")
  | MalformedDeviceCode => (Failed, Some "invalid_grant")
  | PollPending => (Failed, None)
  end.
Definition poll_response (o : PollOutcome) : Response :=
  match o with
  | PollAuthorized token _ => TokenGranted token
  | PollPending => OAuthErr 400 "authorization_pending" None
  | SlowDown n => OAuthErr 400 "slow_down" (Some n)
  | PollDenied => OAuthErr 400 "access_denied" None
  | PollExpired | Unknown => OAuthErr 400 "expired_token" None
  | MalformedDeviceCode => OAuthErr 400 "invalid_grant" None
  end.

Definition device_code_grant (device client_id : option string) (token_id : Uuid) (raw : string) : Server Response :=
  match device with
  | None => mret (OAuthErr 400 "invalid_request" None)
  | Some device =>
      if blank device then mret (OAuthErr 400 "invalid_request" None)
      else if match client_id with Some c => negb (validate_client_id c) | None => false end
      then mret (OAuthErr 400 "invalid_client" None)
      else
        t ← now;
        o ← poll device t token_id raw;
        match o with
        | Err _ => mret (OAuthErr 500 "server_error" None)
        | Ok o =>
            _ ← audit "AUTH_DEVICE_POLL" None (poll_audit o).1 (poll_audit o).2;
            mret (poll_response o)
        end
  end.

Definition DEVICE_CODE_GRANT : string := "urn:ietf:params:oauth:grant-type:device_code".
Definition token (grant_type : string) (device client_id : option string) (token_id : Uuid) (raw : string)
    : Server Response :=
  if blank grant_type then mret (OAuthErr 400 "invalid_request" None)
  else if decide (grant_type = DEVICE_CODE_GRANT) then device_code_grant device client_id token_id raw
  else mret (OAuthErr 400 "unsupported_grant_type" None).

(** [XXXX-XXXX] over the user-code alphabet. *)
Definition USER_CODE_ALPHABET : list ascii := String.list_ascii_of_string "BCDFGHJKLMNPQRSTVWXZ".
Definition valid_user_code (code : string) : bool :=
  let l := String.list_ascii_of_string code in
  bool_decide (length l = 9%nat)
  && forallb (λ ic : nat * ascii, if decide (ic.1 = 4%nat) then Ascii.eqb ic.2 "-"
                                  else bool_decide (ic.2 ∈ USER_CODE_ALPHABET)) (imap pair l).

Definition device_error (e : DeviceFlowError) : Response :=
  match e with
  | NotFound => ErrorResponse 404 "Device flow not found or expired."
  | AlreadyAuthorized => ErrorResponse 409 "Device flow has already been authorized."
  | FlowDatabase _ => ErrorResponse 500 "An internal error occurred."
  end.
Definition approval_classification (e : DeviceFlowError) : string * AuditOutcome * string :=
  match e with
  | NotFound => ("AUTH_DEVICE_DENY", DeniedOutcome, "device_flow_not_found")
  | AlreadyAuthorized => ("AUTH_DEVICE_DENY", DeniedOutcome, "device_flow_already_authorized")
  | FlowDatabase _ => ("AUTH_DEVICE_APPROVE", Failed, "device_flow_database_error")
  end.
Definition denial_classification (e : DeviceFlowError) : AuditOutcome * string :=
  match e with
  | NotFound => (DeniedOutcome, "device_flow_not_found")
  | AlreadyAuthorized => (DeniedOutcome, "device_flow_already_authorized")
  | FlowDatabase _ => (Failed, "device_flow_deny_failed")
  end.

(** The three endpoints of a signed-in user who may read services. *)
Definition device_auth_approve (me : Uuid) (code : string) : Server Response :=
  if blank code then
    _ ← audit "AUTH_DEVICE_APPROVE" (Some me) ValidationFailed (Some "invalid_request");
    mret (ErrorResponse 400 "user_code is required")
  else
    r ← approve_flow (normalize code) me;
    match r with
    | Err e => let '(a, o, reason) := approval_classification e in
               _ ← audit a (Some me) o (Some reason); mret (device_error e)
    | Ok _ => _ ← audit "AUTH_DEVICE_APPROVE" (Some me) Success None; mret (DeviceMessage "Device authorized")
    end.

Definition device_auth_deny (me : Uuid) (code : string) : Server Response :=
  if negb (valid_user_code code) then mret (ErrorResponse 400 "user_code must be in XXXX-XXXX format (uppercase consonants)")
  else
    r ← deny_flow (normalize code) me;
    match r with
    | Err e => let '(o, reason) := denial_classification e in
               _ ← audit "AUTH_DEVICE_DENY" (Some me) o (Some reason); mret (device_error e)
    | Ok _ => _ ← audit "AUTH_DEVICE_DENY" (Some me) Success None;
              mret (DeviceMessage "Device authorization denied.")
    end.

Definition device_auth_lookup (code : string) : Server Response :=
  if negb (valid_user_code code) then mret (ErrorResponse 400 "user_code must be in XXXX-XXXX format (uppercase consonants)")
  else
    f ← lookup_by_user_code code;
    mret match f with
         | Some (_, f) => DeviceDetails (f_client_name f) (f_expires_at f)
         | None => ErrorResponse 404 "Device flow not found."
         end.

End Routes.
End AuthApi.
