(* ===== verification/AuthTheorems.v ===== *)
(** What the credential store keeps true while requests interleave: a refresh token is rotated
    once, a device authorization redeemed once and only if approved, a second factor guessed
    at most five times and never replayed. *)

From Stdlib Require Import Ascii.
From stdpp Require Import base list gmap sets strings numbers relations.
From S2P Require Import Prelude RustStr Hex Handlers OAuthStore OAuthTheorems TokenDenylist AuthStore AuthRoutes.
Local Open Scope Z_scope.

Module AuthFacts.
Import Auth AuthApi.
Import OAuth(find_one, update_where, count_where, none).
Import OAuthFacts(find_one_Some, find_one_None, find_one_unique, none_true, none_false).

Section Facts.
Context {E : AuthEnv}.
(** The controller in question and a bound on its purges' clock readings; hashes of secrets
    and ids of rows that already exist, which the generators do not draw again. *)
Context (self : nat) (T : Z) (X : gset string) (Y : gset Uuid).

(** ** The steps of the database *)

Inductive step : Db → Db → Prop :=
| step_tick t d : clock d ≤ t → step d (set_clock t d)
| step_users us d : step d (set_users us d)
| step_insert_session id s d : refresh_token_hash s ∉ X → step d (insert_session id s d).2
| step_rotate t tok id new d : hash_token new ∉ X → step d (rotate_txn t tok id new d).2
| step_revoke_session t id d : step d (update_session id (revoke_session_row t) d).2
| step_delete_sessions P d : step d (delete_sessions P d).2
| step_insert_token id k d : k_token_hash k ∉ X → step d (insert_api_token id k d).2
| step_revoke_token t id d : step d (update_token id (revoke_token_row t) d).2
| step_use_token t id d : step d (update_token id (use_token_row t) d).2
| step_insert_flow id t dev code name scope d :
    hash_token dev ∉ X → step d (insert_flow id (new_flow t dev code name scope) d).2
| step_poll t t' dev id raw d : hash_token ("upk_" +:+ raw) ∉ X → step d (poll_txn t t' dev id raw d).2
| step_deny_flow t code u d : step d (deny_txn t code u d).2
| step_approve_flow t code u d : step d (approve_txn t code u d).2
| step_cleanup_flows t d : step d (cleanup_flows t d).2
| step_insert_challenge id u t tok d :
    hash_token tok ∉ X →
    step d (insert_challenge id (mkChallenge u (hash_token tok) None 0 (t + secs MFA_CHALLENGE_TTL_SECS) None t) d).2
| step_mfa_verify commits t tok m code d : step d (mfa_verify_txn commits t tok m code d).2
| step_store_otp t tok h d : step d (store_otp_txn t tok h d).2
| step_reauth t u code d : step d (reauth_totp_txn t u code d).2
| step_enroll t id sec u d : id ∉ Y → step d (enroll_txn t id sec u d).2
| step_confirm t u code codes d : step d (confirm_txn t u code codes d).2
| step_disable u d : step d (disable_txn u d).2
| step_recovery t u hs d : step d (replace_recovery_codes t u hs d).2
| step_cleanup t d : step d (auth_cleanup_txn t d).2
| step_denylist s d : Denylist.step self T (deny d) s → step d (set_deny s d).

(** ** What each transaction touches *)

Lemma insert_session_spec id s d :
  insert_session id s d = (Ok tt, set_sessions (<[id := s]> (sessions d)) d) ∧ sessions d !! id = None ∧
    (∀ k x, sessions d !! k = Some x → refresh_token_hash x ≠ refresh_token_hash s)
  ∨ insert_session id s d = (Err UniqueViolation, d).
Proof.
  unfold insert_session. destruct (none (sessions d !! id)) eqn:H1; [|by right].
  destruct (none (session_by_hash _ d)) eqn:H2; [|by right]. left. apply none_true in H1, H2.
  split_and!; [done|done|]. intros k x Hk.
  pose proof (find_one_None _ _ _ _ H2 Hk) as Hx. by apply bool_decide_eq_false in Hx.
Qed.

Lemma insert_api_token_spec id k d :
  insert_api_token id k d = (Ok tt, set_api_tokens (<[id := k]> (api_tokens d)) d) ∧ api_tokens d !! id = None
  ∨ insert_api_token id k d = (Err UniqueViolation, d).
Proof.
  unfold insert_api_token. destruct (none (api_tokens d !! id)) eqn:H1; [|by right].
  destruct (none (token_by_hash _ d)); [|by right]. left. apply none_true in H1. done.
Qed.

Lemma insert_flow_spec id f d :
  insert_flow id f d = (Ok tt, set_device_flows (<[id := f]> (device_flows d)) d) ∧ device_flows d !! id = None ∧
    (∀ k x, device_flows d !! k = Some x → device_code_hash x ≠ device_code_hash f ∧ user_code x ≠ user_code f)
  ∨ insert_flow id f d = (Err UniqueViolation, d).
Proof.
  unfold insert_flow. destruct (none (device_flows d !! id)) eqn:H1; [|by right].
  destruct (none (flow_by_device _ d)) eqn:H2; [|by right].
  destruct (none (flow_by_user_code _ d)) eqn:H3; [|by right]. left. apply none_true in H1, H2, H3.
  split_and!; [done|done|]. intros k x Hk. split.
  - pose proof (find_one_None _ _ _ _ H2 Hk) as Hx. by apply bool_decide_eq_false in Hx.
  - pose proof (find_one_None _ _ _ _ H3 Hk) as Hx. by apply bool_decide_eq_false in Hx.
Qed.

Lemma insert_challenge_spec id c d :
  insert_challenge id c d = (Ok tt, set_challenges (<[id := c]> (challenges d)) d) ∧ challenges d !! id = None ∧
    (∀ k x, challenges d !! k = Some x → c_token_hash x ≠ c_token_hash c)
  ∨ insert_challenge id c d = (Err UniqueViolation, d).
Proof.
  unfold insert_challenge. destruct (none (challenges d !! id)) eqn:H1; [|by right].
  destruct (none (challenge_by_hash _ d)) eqn:H2; [|by right]. left. apply none_true in H1, H2.
  split_and!; [done|done|]. intros k x Hk.
  pose proof (find_one_None _ _ _ _ H2 Hk) as Hx. by apply bool_decide_eq_false in Hx.
Qed.

(** A rotation refuses and changes nothing, or revokes a live session and adds its successor. *)
Lemma session_rotate_cases t tok id new d :
  (∃ e, rotate_txn t tok id new d = (Err e, d))
  ∨ ∃ sid s v, sessions d !! sid = Some s ∧ refresh_token_hash s = hash_token tok ∧
      s_revoked_at s = None ∧ t < s_expires_at s ∧ session_method s = Ok v ∧ sid ≠ id ∧
      sessions d !! id = None ∧ hash_token new ≠ hash_token tok ∧
      rotate_txn t tok id new d
      = (Ok v, set_sessions (<[id := renewed_session t (hash_token new) s]>
                 (<[sid := revoke_session_row t s]> (sessions d))) d).
Proof.
  unfold rotate_txn. destruct (session_by_hash _ d) as [[sid s]|] eqn:Hf; [|by left; eexists].
  apply find_one_Some in Hf as [Hs Hh%bool_decide_eq_true].
  destruct (check_session t s) as [[]|e] eqn:Hc; [|by left; eexists].
  unfold check_session in Hc. destruct (none (s_revoked_at s)) eqn:Hn; [|done]. apply none_true in Hn.
  destruct (Z.leb_spec (s_expires_at s) t); [done|].
  destruct (session_method s) as [v|e] eqn:Hm; [|by left; eexists].
  set (d1 := set_sessions _ d).
  destruct (insert_session_spec id (renewed_session t (hash_token new) s) d1) as [(Hi & Hid & Hu)|Hi];
    rewrite Hi; [|by left; eexists]. right. exists sid, s, v.
  unfold d1 in Hid, Hu. cbn [sessions set_sessions] in Hid, Hu. apply lookup_insert_None in Hid as [Hid Hne].
  split_and!; try done. specialize (Hu sid (revoke_session_row t s) (lookup_insert_eq _ _ _)). simpl in Hu. congruence.
Qed.

(** A poll leaves the flows alone, notes the time of a pending one, or redeems an approved
    one for a token of its approver. *)
Lemma poll_cases t t' dev id raw d :
  (∃ o, poll_txn t t' dev id raw d = (o, d) ∧ ∀ tok name, o ≠ Ok (PollAuthorized tok name))
  ∨ (∃ fid f n o, device_flows d !! fid = Some f ∧ status f = Pending ∧
       poll_txn t t' dev id raw d = (Ok o, set_device_flows (<[fid := polled t n f]> (device_flows d)) d) ∧
       (o = PollPending ∧ n = interval f ∨ o = SlowDown n))
  ∨ (∃ fid f u, device_flows d !! fid = Some f ∧ device_code_hash f = hash_token dev ∧
       status f = Authorized ∧ f_user_id f = Some u ∧ t < f_expires_at f ∧ api_tokens d !! id = None ∧
       let name := default "cli" (f_client_name f) in
       poll_txn t t' dev id raw d
       = (Ok (PollAuthorized ("upk_" +:+ raw) name),
          set_api_tokens (<[id := new_api_token t' u name raw]> (api_tokens d))
            (set_device_flows (delete fid (device_flows d)) d))).
Proof.
  unfold poll_txn. destruct (flow_by_device _ d) as [[fid f]|] eqn:Hf; [|left; by eexists].
  apply find_one_Some in Hf as [Hid Hh%bool_decide_eq_true].
  destruct (Z.leb_spec (f_expires_at f) t); [left; by eexists|].
  destruct (status f) eqn:Hst; [|  |left; by eexists..].
  - right; left. destruct (too_fast t f); repeat eexists; eauto.
  - destruct (f_user_id f) as [u|] eqn:Hu; [|left; by eexists].
    set (d1 := set_device_flows _ d). set (k := new_api_token _ _ _ _).
    destruct (insert_api_token_spec id k d1) as [(Hi & Hid')|Hi]; rewrite Hi; [|left; by eexists].
    right; right. exists fid, f, u. by split_and!.
Qed.

(** A transaction on other tables. *)
Ltac other_table :=
  cbn [fst snd]; unfold poll_txn, rotate_txn, mfa_verify_txn, reauth_totp_txn, verify_code, spend_totp,
    consume_recovery_code, record_failed_attempt, consume_challenge, store_otp_txn,
    store_email_otp_hash, enroll_txn, insert_totp, confirm_txn, replace_recovery_codes, disable_txn,
    auth_cleanup_txn, deny_txn, approve_txn, decide_flow, cleanup_flows, insert_challenge,
    insert_flow, insert_api_token, update_token, insert_session, update_session, delete_sessions;
  repeat (case_match; simplify_eq/=); try reflexivity.

(** ** Sessions *)

Definition sessions_step (m m' : gmap Uuid Session) : Prop :=
  ∀ k s', m' !! k = Some s' →
    (∃ s, m !! k = Some s ∧ refresh_token_hash s = refresh_token_hash s' ∧
          (is_Some (s_revoked_at s) → is_Some (s_revoked_at s'))) ∨
    refresh_token_hash s' ∉ X ∧ ∀ j x, m !! j = Some x → refresh_token_hash x ≠ refresh_token_hash s'.

Lemma sessions_step_refl m : sessions_step m m.
Proof. intros k s Hk. left. by exists s. Qed.

Lemma step_sessions d d' : step d d' → sessions_step (sessions d) (sessions d').
Proof.
  intros Hs. destruct Hs as [| |id s d Hx|t tok id new d Hx|t id d|P d| | | | | | | | | | | | | | | | |t d|].
  3:{ destruct (insert_session_spec id s d) as [(-> & _ & Hu)| ->]; [|apply sessions_step_refl].
      cbn [snd sessions set_sessions]; intros k s' [[-> ->]|[Hne Hk]]%lookup_insert_Some; [by right|]. left. by exists s'. }
  3:{ unfold rotate_txn. destruct (session_by_hash _ d) as [[sid s]|] eqn:Hf; [|apply sessions_step_refl].
      apply find_one_Some in Hf as [Hsid _]. destruct (check_session t s); [|apply sessions_step_refl].
      destruct (session_method s); [|apply sessions_step_refl]. set (d1 := set_sessions _ d).
      destruct (insert_session_spec id (renewed_session t (hash_token new) s) d1) as [(-> & _ & Hu)| ->];
        [|apply sessions_step_refl].
      assert (∀ j x, sessions d !! j = Some x → refresh_token_hash x ≠ hash_token new) as Hu'.
      { intros j x Hj. destruct (decide (j = sid)) as [->|Hne].
        - assert (x = s) as -> by congruence.
          apply (Hu sid (revoke_session_row t s)). unfold d1. cbn [sessions set_sessions]. by rewrite lookup_insert_eq.
        - apply (Hu j x). unfold d1. cbn [sessions set_sessions]. by rewrite lookup_insert_ne. }
      cbn [snd sessions set_sessions]; intros k s' [[-> <-]|[Hne Hk]]%lookup_insert_Some; [by right|]. left.
      unfold d1 in Hk. cbn [sessions set_sessions] in Hk.
      apply lookup_insert_Some in Hk as [[-> <-]|[Hne' Hk]]; [exists s|by exists s'].
      split_and!; [done|done|by eexists]. }
  3:{ unfold update_session. destruct (sessions d !! id) as [s|] eqn:Hid; [|apply sessions_step_refl].
      cbn [snd sessions set_sessions]; intros k s' [[-> <-]|[Hne Hk]]%lookup_insert_Some; left; [exists s|by exists s'].
      split_and!; [done|done|by eexists]. }
  3:{ unfold delete_sessions; cbn [snd sessions set_sessions]; intros k s' [Hk _]%map_lookup_filter_Some. left. by exists s'. }
  19:{ unfold auth_cleanup_txn; cbn [snd sessions set_sessions]; intros k s' [Hk _]%map_lookup_filter_Some. left. by exists s'. }
  all: match goal with |- sessions_step _ (sessions ?y) =>
         let H := fresh in assert (sessions y = sessions d) as H by other_table; rewrite H end;
       apply sessions_step_refl.
Qed.

Lemma steps_spent h d d' :
  h ∈ X → rtc step d d' →
  (∀ k s, sessions d !! k = Some s → refresh_token_hash s = h → is_Some (s_revoked_at s)) →
  ∀ k s, sessions d' !! k = Some s → refresh_token_hash s = h → is_Some (s_revoked_at s).
Proof.
  intros Hh Hs. induction Hs as [|d1 d2 d3 Hs _ IH]; [done|]. intros Hsp. apply IH. intros k s Hk <-.
  destruct (step_sessions d1 d2 Hs k s Hk) as [(s0 & Hk0 & He & Hr)|[Hn _]]; [|done]. eauto.
Qed.

Definition unique_sessions (m : gmap Uuid Session) : Prop :=
  ∀ k1 k2 s1 s2, m !! k1 = Some s1 → m !! k2 = Some s2 →
    refresh_token_hash s1 = refresh_token_hash s2 → k1 = k2.

(** A spent token is refused, by rotation and by verification. *)
Lemma spent_refused h tok d :
  hash_token tok = h →
  (∀ k s, sessions d !! k = Some s → refresh_token_hash s = h → is_Some (s_revoked_at s)) →
  (∀ t id new, ∃ e, rotate_txn t tok id new d = (Err e, d)) ∧
  ∃ e, (run (verify_refresh_token tok) d).1.1 = Err e.
Proof.
  intros Hh Hsp. split.
  - intros t id new. destruct (session_rotate_cases t tok id new d) as [He|(sid & s & v & Hk & Hs & Hn & _)]; [done|].
    destruct (Hsp sid s Hk) as [x Hx]; congruence.
  - simpl. destruct (session_by_hash _ d) as [[sid s]|] eqn:Hf; [|by eexists].
    apply find_one_Some in Hf as [Hk Hs%bool_decide_eq_true].
    destruct (Hsp sid s Hk) as [x Hx]; [congruence|]. unfold check_session. rewrite Hx. by eexists.
Qed.

(** ** Device flows *)

(** One flow after a step: the same decision, or a pending one decided. *)
Definition flow_next (f f' : DeviceFlow) : Prop :=
  device_code_hash f' = device_code_hash f ∧ user_code f' = user_code f ∧ f_expires_at f' = f_expires_at f ∧
  (status f' = status f ∧ f_user_id f' = f_user_id f ∧ denied_by f' = denied_by f
   ∨ status f = Pending ∧ status f' = Authorized ∧ is_Some (f_user_id f') ∧ denied_by f' = denied_by f
   ∨ status f = Pending ∧ status f' = Denied ∧ f_user_id f' = f_user_id f ∧ is_Some (denied_by f')).

Definition flows_step (m m' : gmap Uuid DeviceFlow) : Prop :=
  ∀ k f', m' !! k = Some f' →
    (∃ f, m !! k = Some f ∧ flow_next f f') ∨
    status f' = Pending ∧ f_user_id f' = None ∧ denied_by f' = None ∧ device_code_hash f' ∉ X ∧
    (∀ j x, m !! j = Some x → device_code_hash x ≠ device_code_hash f') ∧
    (∀ j x, m' !! j = Some x → j ≠ k → m !! j = Some x).

Lemma flow_next_refl f : flow_next f f.
Proof. unfold flow_next. split_and!; try done. by left. Qed.
Lemma flows_step_refl m : flows_step m m.
Proof. intros k f Hk. left. exists f. split; [done|apply flow_next_refl]. Qed.
Lemma flows_step_insert m k f f' : m !! k = Some f → flow_next f f' → flows_step m (<[k := f']> m).
Proof.
  intros Hk Hn j x [[-> <-]|[Hne Hj]]%lookup_insert_Some; left; [by exists f|].
  exists x. split; [done|apply flow_next_refl].
Qed.

Lemma decide_step t k f g d :
  device_flows d !! k = Some f → (status f = Pending → flow_next f (g f)) →
  flows_step (device_flows d) (device_flows (decide_flow t k f g d).2).
Proof.
  intros Hk Hg. unfold decide_flow. destruct (bool_decide (status f = Pending)) eqn:Hp; [|apply flows_step_refl].
  apply bool_decide_eq_true in Hp. destruct (_ <? _); [|apply flows_step_refl].
  apply flows_step_insert with f; auto.
Qed.

Lemma step_flows d d' : step d d' → flows_step (device_flows d) (device_flows d').
Proof.
  intros Hs. destruct Hs as [| | | | | | | | |id t dev code name scope d Hx|t t' dev id raw d Hx|t code u d|t code u d|t d| | | | | | | | |t d|].
  10:{ destruct (insert_flow_spec id (new_flow t dev code name scope) d) as [(-> & _ & Hu)| ->]; [|apply flows_step_refl].
       cbn [snd device_flows set_device_flows]. intros k f [[-> <-]|[Hne Hk]]%lookup_insert_Some.
       - right. split_and!; try done; [intros j x Hj; by apply (Hu j x)|].
         intros j x Hj Hne. by rewrite lookup_insert_ne in Hj.
       - left. exists f. split; [done|apply flow_next_refl]. }
  10:{ destruct (poll_cases t t' dev id raw d) as [(o & -> & _)|[(fid & f & n & o & Hf & Hp & -> & _)|(fid & f & u & Hf & _ & _ & _ & _ & _ & ->)]].
       - apply flows_step_refl.
       - cbn [snd device_flows set_device_flows]. apply flows_step_insert with f; [done|]. unfold flow_next. split_and!; try done. by left.
       - cbn [snd device_flows set_device_flows set_api_tokens]. intros k x [Hne Hk]%lookup_delete_Some. left. exists x.
         split; [done|apply flow_next_refl]. }
  10:{ unfold deny_txn. destruct (flow_by_user_code _ d) as [[fid f]|] eqn:Hf; [|apply flows_step_refl].
       apply find_one_Some in Hf as [Hf _]. destruct (_ <=? _); [apply flows_step_refl|].
       destruct (negb _); [apply flows_step_refl|]. apply decide_step; [done|]. intros Hp. unfold flow_next. simpl.
       split_and!; try done. right. right. by split_and!. }
  10:{ unfold approve_txn. destruct (flow_by_user_code _ d) as [[fid f]|] eqn:Hf; [|apply flows_step_refl].
       apply find_one_Some in Hf as [Hf _]. destruct (_ <=? _); [apply flows_step_refl|].
       destruct (bool_decide _); [apply flows_step_refl|]. apply decide_step; [done|]. intros Hp. unfold flow_next. simpl.
       split_and!; try done. right. left. by split_and!. }
  10:{ unfold cleanup_flows. cbn [snd device_flows set_device_flows]. intros k f [Hk _]%map_lookup_filter_Some.
       left. exists f. split; [done|apply flow_next_refl]. }
  18:{ unfold auth_cleanup_txn, cleanup_flows. cbn [snd device_flows set_device_flows set_sessions set_challenges].
       intros k f [Hk _]%map_lookup_filter_Some. left. exists f. split; [done|apply flow_next_refl]. }
  all: match goal with |- flows_step _ (device_flows ?y) =>
         let H := fresh in assert (device_flows y = device_flows d) as H by other_table; rewrite H end;
       apply flows_step_refl.
Qed.

(** The documented invariant of the rows: the approver of an authorized flow, the denier of a
    denied one, neither for a pending one; and one row per device code. *)
Definition flow_ok (f : DeviceFlow) : Prop :=
  match status f with
  | Pending => f_user_id f = None ∧ denied_by f = None
  | Authorized => is_Some (f_user_id f) ∧ denied_by f = None
  | Denied => f_user_id f = None ∧ is_Some (denied_by f)
  | _ => False
  end.
Record flows_inv (m : gmap Uuid DeviceFlow) : Prop := mkFlowsInv {
  inv_flow_ok : ∀ k f, m !! k = Some f → flow_ok f;
  inv_flow_unique : ∀ k1 k2 f1 f2, m !! k1 = Some f1 → m !! k2 = Some f2 →
    device_code_hash f1 = device_code_hash f2 → k1 = k2 }.

Lemma flow_next_ok f f' : flow_next f f' → flow_ok f → flow_ok f'.
Proof.
  intros (_ & _ & _ & [(Hs & Hu & Hd)|[(Hp & Hs & Hu & Hd)|(Hp & Hs & Hu & Hd)]]); unfold flow_ok.
  - by rewrite Hs, Hu, Hd.
  - rewrite Hp, Hs, Hd. naive_solver.
  - rewrite Hp, Hs, Hu. naive_solver.
Qed.

Lemma step_flows_inv d d' : step d d' → flows_inv (device_flows d) → flows_inv (device_flows d').
Proof.
  intros Hs%step_flows [Hok Hu]. split.
  - intros k f' Hk. destruct (Hs k f' Hk) as [(f & Hf & Hn)|(Hp & H1 & H2 & _)].
    + by eapply flow_next_ok; eauto.
    + unfold flow_ok. by rewrite Hp.
  - intros k1 k2 f1 f2 Hk1 Hk2 Hh. destruct (Hs k1 f1 Hk1) as [(g1 & Hg1 & Hn1)|(_ & _ & _ & _ & Hnew1 & Holds1)];
      destruct (Hs k2 f2 Hk2) as [(g2 & Hg2 & Hn2)|(_ & _ & _ & _ & Hnew2 & _)].
    + destruct Hn1 as [Hn1 _], Hn2 as [Hn2 _]. apply (Hu k1 k2 g1 g2); congruence.
    + destruct Hn1 as [Hn1 _]. destruct (Hnew2 k1 g1 Hg1). congruence.
    + destruct Hn2 as [Hn2 _]. destruct (Hnew1 k2 g2 Hg2). congruence.
    + destruct (decide (k1 = k2)) as [|Hne]; [done|].
      destruct (Hnew1 k2 f2); [|done]. by apply Holds1; [|congruence].
Qed.

Lemma steps_flows_inv d d' : rtc step d d' → flows_inv (device_flows d) → flows_inv (device_flows d').
Proof. induction 1; eauto using step_flows_inv. Qed.

(** A device code none of whose flows can still be redeemed. *)
Definition dead (h : string) (m : gmap Uuid DeviceFlow) : Prop :=
  ∀ k f, m !! k = Some f → device_code_hash f = h → status f = Denied.

Lemma steps_dead h d d' :
  h ∈ X → rtc step d d' → dead h (device_flows d) → dead h (device_flows d').
Proof.
  intros Hh Hs. induction Hs as [|d1 d2 d3 Hs _ IH]; [done|]. intros Hd. apply IH. intros k f' Hk Hc.
  destruct (step_flows d1 d2 Hs k f' Hk) as [(f & Hf & Hn)|(_ & _ & _ & Hx & _)]; [|congruence].
  destruct Hn as (He & _ & _ & Hn). assert (device_code_hash f = h) as Hc' by congruence.
  specialize (Hd k f Hf Hc'). destruct Hn as [(Hn & _)|[(Hn & _)|(Hn & _)]]; congruence.
Qed.

Lemma dead_never_redeemed t t' dev id raw d tok name :
  dead (hash_token dev) (device_flows d) → (poll_txn t t' dev id raw d).1 ≠ Ok (PollAuthorized tok name).
Proof.
  intros Hd. destruct (poll_cases t t' dev id raw d)
    as [(o & -> & Ho)|[(fid & f & n & o & Hf & Hp & -> & Ho)|(fid & f & u & Hf & Hh & Hs & _)]].
  - apply Ho.
  - simpl. destruct Ho as [[-> _]| ->]; discriminate.
  - specialize (Hd fid f Hf Hh). congruence.
Qed.

(** ** Challenges *)

(** Attempts that are left on a challenge. *)
Definition left_attempts (c : Challenge) : Z :=
  if none (c_consumed_at c) then MAX_MFA_ATTEMPTS - attempt_count c else 0.

Definition challenge_next (c c' : Challenge) : Prop :=
  c_token_hash c' = c_token_hash c ∧ c_user_id c' = c_user_id c ∧ left_attempts c' ≤ Z.max 0 (left_attempts c).

Definition challenges_step (m m' : gmap Uuid Challenge) : Prop :=
  ∀ k c', m' !! k = Some c' →
    (∃ c, m !! k = Some c ∧ challenge_next c c') ∨
    c_token_hash c' ∉ X ∧ (∀ j x, m !! j = Some x → c_token_hash x ≠ c_token_hash c') ∧
    (∀ j x, m' !! j = Some x → j ≠ k → m !! j = Some x).

Lemma challenge_next_refl c : challenge_next c c.
Proof. unfold challenge_next. split_and!; [done|done|lia]. Qed.
Lemma challenges_step_refl m : challenges_step m m.
Proof. intros k c Hk. left. exists c. split; [done|apply challenge_next_refl]. Qed.
Lemma challenges_step_insert m k c c' :
  m !! k = Some c → challenge_next c c' → challenges_step m (<[k := c']> m).
Proof.
  intros Hk Hn j x [[-> <-]|[Hne Hj]]%lookup_insert_Some; left; [by exists c|].
  exists x. split; [done|apply challenge_next_refl].
Qed.

Lemma failed_next t c : challenge_next c (failed_challenge t c).
Proof.
  unfold challenge_next, left_attempts, failed_challenge. simpl. split_and!; [done|done|].
  destruct (MAX_MFA_ATTEMPTS <=? _); simpl; [lia|]. destruct (none (c_consumed_at c)); lia.
Qed.
Lemma consumed_next t c : challenge_next c (consumed_challenge t c).
Proof. unfold challenge_next, left_attempts. simpl. split_and!; [done|done|lia]. Qed.

(** Spending a code leaves the challenges alone. *)
Lemma verify_code_challenges t m c code d v r d' :
  verify_code t m c code d = Ok (v, r, d') → challenges d' = challenges d.
Proof. unfold verify_code, spend_totp, consume_recovery_code. intros Hv. by repeat (case_match; simplify_eq/=). Qed.

Lemma load_valid_spec t tok d cid c :
  load_valid_challenge t tok d = Ok (cid, c) →
  challenges d !! cid = Some c ∧ c_token_hash c = hash_token tok ∧ c_consumed_at c = None ∧
  t < c_expires_at c ∧ attempt_count c < MAX_MFA_ATTEMPTS.
Proof.
  unfold load_valid_challenge. destruct (challenge_by_hash _ d) as [[k x]|] eqn:Hf; [|done].
  apply find_one_Some in Hf as [Hk Hh%bool_decide_eq_true].
  destruct (none (c_consumed_at x)) eqn:Hn; [|done]. apply none_true in Hn.
  destruct (Z.leb_spec (c_expires_at x) t); [done|].
  destruct (Z.leb_spec MAX_MFA_ATTEMPTS (attempt_count x)); [done|]. by intros [= <- <-].
Qed.

(** A verification refuses and changes nothing; judges a code wrong, which is recorded if the
    commit goes through and changes nothing otherwise; or consumes the challenge. *)
Lemma mfa_verify_cases commits t tok m code d :
  (∃ r, mfa_verify_txn commits t tok m code d = (MfaRefused r, d))
  ∨ ∃ cid c v rec d1, load_valid_challenge t tok d = Ok (cid, c) ∧
      verify_code t m c code d = Ok (v, rec, d1) ∧ challenges d1 = challenges d ∧
      mfa_verify_txn commits t tok m code d
      = (if v then MfaVerified (c_user_id c) rec
         else MfaWrong (c_user_id c) (MAX_MFA_ATTEMPTS <=? attempt_count c + 1),
         if v then consume_challenge t cid c d1
         else if commits then set_challenges (<[cid := failed_challenge t c]> (challenges d1)) d1
         else d).
Proof.
  unfold mfa_verify_txn. destruct (load_valid_challenge t tok d) as [[cid c]|e] eqn:Hl; [|by left; eexists].
  destruct (verify_code t m c code d) as [[[v rec] d1]|r] eqn:Hv; [|by left; eexists].
  apply verify_code_challenges in Hv as Hch.
  destruct v, commits; [|by left; eexists| |]; right; by eexists cid, c, _, rec, d1.
Qed.

Lemma step_challenges d d' : step d d' → challenges_step (challenges d) (challenges d').
Proof.
  intros Hs. destruct Hs as [| | | | | | | | | | | | | |id u t tok d Hx|commits t tok m code d|t tok h d| | | | | |t d|].
  15:{ set (c := mkChallenge _ _ _ _ _ _ _).
       destruct (insert_challenge_spec id c d) as [(-> & _ & Hu)| ->]; [|apply challenges_step_refl].
       cbn [snd challenges set_challenges]. intros k x [[-> <-]|[Hne Hk]]%lookup_insert_Some.
       - right. split_and!; [done|done|]. intros j y Hj Hne. by rewrite lookup_insert_ne in Hj.
       - left. exists x. split; [done|apply challenge_next_refl]. }
  15:{ destruct (mfa_verify_cases commits t tok m code d) as [(r & ->)|(cid & c & v & rec & d1 & Hl & _ & Hd1 & ->)];
         [apply challenges_step_refl|].
       apply load_valid_spec in Hl as (Hc & _).
       destruct v, commits; cbn [snd challenges set_challenges consume_challenge];
         try apply challenges_step_refl; rewrite Hd1; eapply challenges_step_insert; eauto using consumed_next, failed_next. }
  15:{ unfold store_otp_txn. destruct (load_valid_challenge t tok d) as [[cid c]|e] eqn:Hl; [|apply challenges_step_refl].
       apply load_valid_spec in Hl as (Hc & _). repeat case_match; simplify_eq/=; try apply challenges_step_refl.
       eapply challenges_step_insert; [done|]. unfold challenge_next, left_attempts. simpl. split_and!; [done|done|lia]. }
  20:{ unfold auth_cleanup_txn. cbn [snd challenges set_challenges set_sessions]. intros k c [Hk _]%map_lookup_filter_Some.
       left. exists c. split; [done|apply challenge_next_refl]. }
  all: match goal with |- challenges_step _ (challenges ?y) =>
         let H := fresh in assert (challenges y = challenges d) as H by other_table; rewrite H end;
       apply challenges_step_refl.
Qed.

Definition unique_challenges (m : gmap Uuid Challenge) : Prop :=
  ∀ k1 k2 c1 c2, m !! k1 = Some c1 → m !! k2 = Some c2 → c_token_hash c1 = c_token_hash c2 → k1 = k2.

Lemma step_unique_challenges d d' :
  step d d' → unique_challenges (challenges d) → unique_challenges (challenges d').
Proof.
  intros Hs%step_challenges Hu k1 k2 c1 c2 Hk1 Hk2 Hh.
  destruct (Hs k1 c1 Hk1) as [(g1 & Hg1 & Hn1 & _)|(_ & Hnew1 & Holds1)];
    destruct (Hs k2 c2 Hk2) as [(g2 & Hg2 & Hn2 & _)|(_ & Hnew2 & _)].
  - apply (Hu k1 k2 g1 g2); congruence.
  - destruct (Hnew2 k1 g1 Hg1). congruence.
  - destruct (Hnew1 k2 g2 Hg2). congruence.
  - destruct (decide (k1 = k2)) as [|Hne]; [done|].
    destruct (Hnew1 k2 c2); [|done]. by apply Holds1; [|congruence].
Qed.

(** At most [n] attempts are left on the challenge of this token. *)
Definition at_most (h : string) (n : Z) (m : gmap Uuid Challenge) : Prop :=
  ∀ k c, m !! k = Some c → c_token_hash c = h → left_attempts c ≤ n.

Lemma step_at_most h n d d' :
  h ∈ X → 0 ≤ n → step d d' → at_most h n (challenges d) → at_most h n (challenges d').
Proof.
  intros Hh Hn Hs%step_challenges Hm k c' Hk Hc.
  destruct (Hs k c' Hk) as [(c & Hck & Ht & _ & Hl)|(Hx & _)]; [|congruence].
  assert (c_token_hash c = h) as Hc2 by congruence. specialize (Hm k c Hck Hc2). lia.
Qed.

(** The answers to attempts on one challenge, other requests in between: how many were
    answered as wrong and recorded, how many were answered as wrong though the commit that
    would have recorded them failed, and how many let the caller in. *)
Inductive attempts (tok : string) : Db → nat → nat → nat → Db → Prop :=
| no_attempt d : attempts tok d 0 0 0 d
| other_request d d1 w l v d2 : step d d1 → attempts tok d1 w l v d2 → attempts tok d w l v d2
| refused_attempt commits t m code d r d1 w l v d2 :
    mfa_verify_txn commits t tok m code d = (MfaRefused r, d1) → attempts tok d1 w l v d2 →
    attempts tok d w l v d2
| wrong_attempt t m code d u b d1 w l v d2 :
    mfa_verify_txn true t tok m code d = (MfaWrong u b, d1) → attempts tok d1 w l v d2 →
    attempts tok d (S w) l v d2
| lost_attempt t m code d u b d1 w l v d2 :
    mfa_verify_txn false t tok m code d = (MfaWrong u b, d1) → attempts tok d1 w l v d2 →
    attempts tok d w (S l) v d2
| right_attempt commits t m code d u b d1 w l v d2 :
    mfa_verify_txn commits t tok m code d = (MfaVerified u b, d1) → attempts tok d1 w l v d2 →
    attempts tok d w l (S v) d2.

(** A recorded attempt uses one up. *)
Lemma attempt_cost commits t tok m code d u b d1 n :
  unique_challenges (challenges d) → at_most (hash_token tok) n (challenges d) →
  (mfa_verify_txn true t tok m code d = (MfaWrong u b, d1) →
     1 ≤ n ∧ at_most (hash_token tok) (n - 1) (challenges d1)) ∧
  (mfa_verify_txn commits t tok m code d = (MfaVerified u b, d1) →
     1 ≤ n ∧ at_most (hash_token tok) 0 (challenges d1)).
Proof.
  intros Hu Hm.
  assert (∀ cid c, load_valid_challenge t tok d = Ok (cid, c) →
    1 ≤ n ∧ MAX_MFA_ATTEMPTS ≤ attempt_count c + n ∧ c_consumed_at c = None ∧
    ∀ k x, challenges d !! k = Some x → c_token_hash x = hash_token tok → k = cid) as Hone.
  { intros cid c (Hc & Hh & Hn & _ & Hlt)%load_valid_spec. pose proof (Hm cid c Hc Hh) as Hleft.
    unfold left_attempts in Hleft. rewrite Hn in Hleft. simpl in Hleft. split_and!; [lia|lia|done|].
    intros k x Hk Hx. apply (Hu k cid x c); congruence. }
  split; intros Heq;
    [destruct (mfa_verify_cases true t tok m code d) as [(r & Hr)|(cid & c & v & rec & d2 & Hl & _ & Hd & Hr)]
    |destruct (mfa_verify_cases commits t tok m code d) as [(r & Hr)|(cid & c & v & rec & d2 & Hl & _ & Hd & Hr)]];
    rewrite Heq in Hr; try done; destruct v; simplify_eq/=;
    destruct (Hone cid c Hl) as (H1 & H2 & Hn & Honly); (split; [lia|]); rewrite Hd; intros k x Hk Hx;
    apply lookup_insert_Some in Hk as [[-> <-]|[Hne Hk]]; try (by destruct Hne; symmetry; eapply Honly).
  - unfold left_attempts, failed_challenge. simpl. rewrite Hn.
    destruct (Z.leb_spec MAX_MFA_ATTEMPTS (attempt_count c + 1)); simpl; lia.
  - done.
Qed.

Lemma attempts_bounded tok d w l v d' n :
  hash_token tok ∈ X → 0 ≤ n → unique_challenges (challenges d) →
  at_most (hash_token tok) n (challenges d) → attempts tok d w l v d' →
  Z.of_nat w + Z.of_nat v ≤ n ∧ (v ≤ 1)%nat.
Proof.
  assert (∀ commits t m code d x d1, mfa_verify_txn commits t tok m code d = (x, d1) → step d d1) as Hstep.
  { intros commits t m code d0 x d1 Hx. replace d1 with (mfa_verify_txn commits t tok m code d0).2 by by rewrite Hx.
    apply step_mfa_verify. }
  intros HX Hn Hu Hm Ha. revert n Hn Hu Hm.
  induction Ha as [d|d d1 w l v d2 Hs _ IH|commits t m code d r d1 w l v d2 Hw _ IH
    |t m code d u b d1 w l v d2 Hw _ IH|t m code d u b d1 w l v d2 Hw _ IH
    |commits t m code d u b d1 w l v d2 Hw _ IH]; intros n Hn Hu Hm.
  - lia.
  - apply IH; eauto using step_unique_challenges, step_at_most.
  - apply IH; eauto using step_unique_challenges, step_at_most.
  - destruct (attempt_cost true t tok m code d u b d1 n Hu Hm) as [Hc _]. destruct (Hc Hw) as [H1 H2].
    destruct (IH (n - 1)) as [H3 H4]; [lia|by eauto using step_unique_challenges|done|]. split; [lia|done].
  - apply IH; eauto using step_unique_challenges, step_at_most.
  - destruct (attempt_cost commits t tok m code d u b d1 n Hu Hm) as [_ Hc]. destruct (Hc Hw) as [H1 H2].
    destruct (IH 0) as [H3 H4]; [lia|by eauto using step_unique_challenges|done|]. lia.
Qed.

(** ** TOTP *)

(** An active enrolment keeps its secret and owner, and its counter only advances. *)
Definition totp_next (r r' : Totp) : Prop :=
  secret r' = secret r ∧ t_user_id r' = t_user_id r ∧
  (t_is_active r = true → t_is_active r' = true ∧
     ∀ s, last_used_step r = Some s → ∃ s', last_used_step r' = Some s' ∧ s ≤ s').
Definition totps_step (m m' : gmap Uuid Totp) : Prop :=
  ∀ k r', m' !! k = Some r' → (∃ r, m !! k = Some r ∧ totp_next r r') ∨ k ∉ Y.

Lemma totp_next_refl r : totp_next r r.
Proof. split_and!; [done..|]. intros Ha. split; [done|]. intros s Hs. exists s. split; [done|lia]. Qed.
Lemma totps_step_refl m : totps_step m m.
Proof. intros k r Hk. left. exists r. split; [done|apply totp_next_refl]. Qed.

Lemma spend_totps t tid r code d :
  totps d !! tid = Some r → totps_step (totps d) (totps (spend_totp t tid r code d).2).
Proof.
  intros Hr. unfold spend_totp. destruct (verify_totp_code _ _ _) as [s|]; [|apply totps_step_refl].
  destruct (match last_used_step r with Some last => s <=? last | None => false end) eqn:Hl; [apply totps_step_refl|].
  cbn [snd totps set_totps]. intros k r' [[-> <-]|[Hne Hk]]%lookup_insert_Some; left; [exists r|exists r'; split; [done|apply totp_next_refl]].
  split; [done|]. split_and!; [done..|]. intros Ha. split; [done|]. intros s0 Hs0. exists s. split; [done|].
  rewrite Hs0 in Hl. apply Z.leb_gt in Hl. lia.
Qed.

Lemma user_totp_spec u a d tid r :
  user_totp u a d = Some (tid, r) → totps d !! tid = Some r ∧ t_user_id r = u ∧ t_is_active r = a.
Proof.
  intros [Hr Hp]%find_one_Some. apply andb_true_iff in Hp as [Hu%bool_decide_eq_true Ha%eqb_prop]. done.
Qed.

Lemma verify_code_totps t m c code d v rec d1 :
  verify_code t m c code d = Ok (v, rec, d1) → totps_step (totps d) (totps d1).
Proof.
  unfold verify_code. destruct m.
  - destruct (user_totp _ true d) as [[tid r]|] eqn:Hu; [|done]. apply user_totp_spec in Hu as (Hr & _).
    pose proof (spend_totps t tid r code d Hr) as Hs. destruct (spend_totp t tid r code d). by intros [= <- <- <-].
  - destruct (email_code_hash c); [|done]. destruct (argon2_verify _ _); [|done]. intros [= <- <- <-]. apply totps_step_refl.
  - destruct (matching_recovery_code _ _ d) as [[rid x]|]; intros [= <- <- <-]; apply totps_step_refl.
  - done.
Qed.

Lemma step_totps d d' : step d d' → totps_step (totps d) (totps d').
Proof.
  intros Hs. destruct Hs as [| | | | | | | | | | | | | | |commits t tok m code d| |t u code d|t id sec u d Hy|t u code codes d|u d| | |].
  16:{ destruct (mfa_verify_cases commits t tok m code d) as [(r & ->)|(cid & c & v & rec & d1 & _ & Hv & _ & ->)];
         [apply totps_step_refl|]. apply verify_code_totps in Hv. destruct v, commits; try done. apply totps_step_refl. }
  17:{ unfold reauth_totp_txn. destruct (user_totp u true d) as [[tid r]|] eqn:Hu; [|apply totps_step_refl].
       apply user_totp_spec in Hu as (Hr & _). by apply spend_totps. }
  17:{ unfold enroll_txn. destruct (negb _); [apply totps_step_refl|]. unfold insert_totp. set (d1 := set_totps _ d).
       destruct (_ && _); [|apply totps_step_refl]. cbn [snd totps set_totps d1].
       intros k r [[-> <-]|[Hne Hk]]%lookup_insert_Some; [by right|left]. apply map_lookup_filter_Some in Hk as [Hk _].
       exists r. split; [done|apply totp_next_refl]. }
  17:{ unfold confirm_txn. destruct (user_totp u false d) as [[tid r]|] eqn:Hu; [|apply totps_step_refl].
       apply user_totp_spec in Hu as (Hr & _ & Ha).
       assert (∀ s, totps_step (totps d) (<[tid := activate t s r]> (totps d))) as Hact.
       { intros s k r' [[-> <-]|[Hne Hk]]%lookup_insert_Some; left; [exists r|exists r'; split; [done|apply totp_next_refl]].
         split; [done|]. split_and!; [done..|]. congruence. }
       unfold replace_recovery_codes. repeat (case_match; simplify_eq/=); try apply totps_step_refl; apply Hact. }
  17:{ unfold disable_txn. cbn [snd totps set_totps set_recovery_codes]. intros k r [Hk _]%map_lookup_filter_Some.
       left. exists r. split; [done|apply totp_next_refl]. }
  all: match goal with |- totps_step _ (totps ?y) =>
         let H := fresh in assert (totps y = totps d) as H by other_table; rewrite H end;
       apply totps_step_refl.
Qed.

(** From an active row on, the counter of that row never goes back. *)
Lemma steps_totp d d' tid r s :
  tid ∈ Y → rtc step d d' → totps d !! tid = Some r → t_is_active r = true → last_used_step r = Some s →
  ∀ r', totps d' !! tid = Some r' →
    secret r' = secret r ∧ t_is_active r' = true ∧ ∃ s', last_used_step r' = Some s' ∧ s ≤ s'.
Proof.
  intros Hy Hs Hr Ha Hl. revert d' Hs.
  apply (rtc_ind_r (λ d', ∀ r', totps d' !! tid = Some r' →
    secret r' = secret r ∧ t_is_active r' = true ∧ ∃ s', last_used_step r' = Some s' ∧ s ≤ s')).
  - intros r' Hr'. assert (r' = r) as -> by congruence. split_and!; [done|done|]. exists s. split; [done|lia].
  - intros d1 d2 Hs1 Hs2 IH r2 Hr2. destruct (step_totps d1 d2 Hs2 tid r2 Hr2) as [(r1 & Hr1 & He & _ & Hn)|]; [|done].
    destruct (IH r1 Hr1) as (He1 & Ha1 & s1 & Hl1 & Hle). destruct (Hn Ha1) as [Ha2 Hn2].
    destruct (Hn2 s1 Hl1) as (s2 & Hl2 & Hle2). split_and!; [congruence|done|]. exists s2. split; [done|lia].
Qed.

(** ** The denylist *)

Lemma step_denies d d' : step d d' → rtc (Denylist.step self T) (deny d) (deny d').
Proof.
  intros Hs. destruct Hs.
  24:{ by apply rtc_once. }
  all: match goal with |- rtc _ _ (deny ?y) =>
         let H := fresh in assert (deny y = deny d) as H by other_table; rewrite H end;
       apply rtc_refl.
Qed.

Lemma steps_denies d d' : rtc step d d' → rtc (Denylist.step self T) (deny d) (deny d').
Proof. induction 1 as [|d1 d2 d3 Hs _ IH]; [done|]. etrans; [by apply step_denies|done]. Qed.

Lemma runs_denylist {R} (h : Handler Denylist.Sys Event R) d r d' es :
  runs step (denylist h) d r d' es → runs (Denylist.step self T) h (deny d) r (deny d') es.
Proof. apply runs_zoom; [by intros p []|]. apply step_denies. Qed.

End Facts.

Section Claims.
Context {E : AuthEnv}.

(** a refresh token is rotated once. If a rotation succeeds, the token's session was
    neither revoked nor expired, its successor has the same user and method, a new token and a
    full lifetime of seven days; and from then on, as long as no generator draws the old token
    again, rotating or verifying the old token fails and changes nothing, whatever other
    requests do. *)
Theorem refresh_token_spent_once self T Y t tok id new d v d1 d2 :
  unique_sessions (sessions d) → rotate_txn t tok id new d = (Ok v, d1) →
  rtc (step self T {[ hash_token tok ]} Y) d1 d2 →
  (∃ sid s s', sessions d !! sid = Some s ∧ refresh_token_hash s = hash_token tok ∧
     s_revoked_at s = None ∧ t < s_expires_at s ∧ sessions d1 !! id = Some s' ∧
     v_user_id v = s_user_id s ∧ s_user_id s' = s_user_id s ∧ auth_method s' = auth_method s ∧
     refresh_token_hash s' = hash_token new ∧ s_expires_at s' = t + secs (7 * 86400)) ∧
  (∀ t' id' new', ∃ e, rotate_txn t' tok id' new' d2 = (Err e, d2)) ∧
  ∃ e, (run (verify_refresh_token tok) d2).1.1 = Err e.
Proof.
  intros Hu Hrot Hs.
  destruct (session_rotate_cases t tok id new d) as [(e & He)|(sid & s & v' & Hsid & Hh & Hn & Ht & Hm & Hne & Hid & Hnew & He)];
    [congruence|]. rewrite Hrot in He. injection He as -> ->. split.
  - exists sid, s, (renewed_session t (hash_token new) s). cbn [sessions set_sessions].
    rewrite lookup_insert_eq. split_and!; try done. unfold session_method in Hm. by case_match; simplify_eq.
  - apply (spent_refused (hash_token tok)); [done|].
    eapply (steps_spent self T {[ hash_token tok ]} Y); [set_solver|exact Hs|].
    cbn [sessions set_sessions]. intros k x Hk Hx.
    apply lookup_insert_Some in Hk as [[-> <-]|[Hne' Hk]]; [by destruct Hnew|].
    apply lookup_insert_Some in Hk as [[-> <-]|[Hne2 Hk]]; [by eexists|].
    destruct Hne2. apply (Hu sid k s x); congruence.
Qed.

(** a device gets a token only if a signed-in user approved it, and only once. Starting
    from no flows, every row keeps its documented shape (an authorized flow names its
    approver, a denied one its denier, a pending one neither). A poll that hands out a token
    had an unexpired flow with this device code that some user approved and nobody denied;
    the token stored is that user's, and the flow is gone, so the code is never redeemed
    again. A denied code is never redeemed either. *)
Theorem device_flow_sound self T X Y d0 d t dev :
  device_flows d0 = ∅ → rtc (step self T X Y) d0 d →
  (∀ k f, device_flows d !! k = Some f → flow_ok f) ∧
  (∀ t' id raw tok name d1, poll_txn t t' dev id raw d = (Ok (PollAuthorized tok name), d1) →
     (∃ k f u, device_flows d !! k = Some f ∧ device_code_hash f = hash_token dev ∧
        f_user_id f = Some u ∧ denied_by f = None ∧ t < f_expires_at f ∧
        api_tokens d1 !! id = Some (new_api_token t' u name raw) ∧ tok = "upk_" +:+ raw) ∧
     ∀ d2 t2 t3 id2 raw2 tok2 name2, rtc (step self T {[ hash_token dev ]} Y) d1 d2 →
       (poll_txn t2 t3 dev id2 raw2 d2).1 ≠ Ok (PollAuthorized tok2 name2)) ∧
  (∀ code u k f d1, flow_by_user_code (normalize code) d = Some (k, f) → device_code_hash f = hash_token dev →
     deny_txn t code u d = (Ok tt, d1) →
     ∀ d2 t2 t3 id2 raw2 tok2 name2, rtc (step self T {[ hash_token dev ]} Y) d1 d2 →
       (poll_txn t2 t3 dev id2 raw2 d2).1 ≠ Ok (PollAuthorized tok2 name2)).
Proof.
  intros H0 Hs. assert (flows_inv (device_flows d)) as [Hok Huniq].
  { eapply steps_flows_inv; [exact Hs|]. rewrite H0. split; by intros ? * ?%lookup_empty_Some. }
  split_and!; [done| |].
  - intros t' id raw tok name d1 Hp. destruct (poll_cases t t' dev id raw d)
      as [(o & Ho & Hno)|[(fid & f & n & o & Hf & _ & Ho & Hcase)|(fid & f & u & Hf & Hh & Hst & Hu & Ht & Hid & Ho)]];
      rewrite Hp in Ho; [injection Ho as <- _; by destruct (Hno tok name)|injection Ho as <- _; by destruct Hcase as [[? _]|?]|].
    injection Ho as -> -> ->. split.
    + exists fid, f, u. cbn [api_tokens set_api_tokens]. rewrite lookup_insert_eq.
      specialize (Hok fid f Hf). unfold flow_ok in Hok. rewrite Hst in Hok. by destruct_and!.
    + intros d2 t2 t3 id2 raw2 tok2 name2 Hs2. apply dead_never_redeemed.
      eapply (steps_dead self T {[ hash_token dev ]} Y); [set_solver|exact Hs2|].
      cbn [device_flows set_device_flows set_api_tokens]. intros k x [Hne Hk]%lookup_delete_Some Hx.
      destruct Hne. apply (Huniq fid k f x); congruence.
  - intros code u k f d1 Hf Hh Hd d2 t2 t3 id2 raw2 tok2 name2 Hs2. apply dead_never_redeemed.
    eapply (steps_dead self T {[ hash_token dev ]} Y); [set_solver|exact Hs2|].
    unfold deny_txn, decide_flow in Hd. rewrite Hf in Hd. apply find_one_Some in Hf as [Hf _].
    repeat (case_match; simplify_eq/=). intros j x [[-> <-]|[Hne Hj]]%lookup_insert_Some Hx; [done|].
    destruct Hne. apply (Huniq k j f x); congruence.
Qed.

(** C34: at most five guesses at a second factor are recorded against one challenge. On one
    challenge, whatever other requests run in between, the wrong codes whose attempt was
    committed and the right ones together are at most five, and at most one is right: success
    and the fifth recorded failure consume the challenge. Transactions are serial here, as
    immediate ones are on SQLite. Two kinds of guess escape the count, as the examples show: a
    wrong code whose commit fails is answered like any other and not recorded
    ([uncommitted_guesses_free]), and transactions that read the row before one another's
    write, as PostgreSQL allows, record one attempt between them ([parallel_guesses_count_once]). *)
Theorem second_factor_attempts_bounded self T X Y tok d w l v d' :
  hash_token tok ∈ X → unique_challenges (challenges d) →
  (∀ k c, challenges d !! k = Some c → c_token_hash c = hash_token tok → 0 ≤ attempt_count c) →
  attempts self T X Y tok d w l v d' → (w + v ≤ 5)%nat ∧ (v ≤ 1)%nat.
Proof.
  intros HX Hu Hpos Ha. destruct (attempts_bounded self T X Y tok d w l v d' 5) as [H1 H2]; [done|done|done| |done|].
  - intros k c Hk Hc. specialize (Hpos k c Hk Hc). unfold left_attempts, MAX_MFA_ATTEMPTS.
    destruct (none _); lia.
  - lia.
Qed.

(** Writing the count read before another guess was recorded loses that guess. *)
Lemma parallel_guesses_count_once t t' cid c d :
  let d1 := (record_failed_attempt t cid c d).2 in
  let d2 := (record_failed_attempt t' cid c d1).2 in
  ∃ c', challenges d2 !! cid = Some c' ∧ attempt_count c' = attempt_count c + 1.
Proof. simpl. rewrite lookup_insert_eq. by eexists. Qed.

(** a TOTP code is accepted once. When a code is accepted against an active enrolment at
    counter [s], then for as long as the enrolment exists, whatever other requests do, only
    codes of later counters are accepted, at login and at re-authentication alike. *)
Theorem totp_never_replayed self T X Y t tid r code d d1 d2 :
  tid ∈ Y → totps d !! tid = Some r → t_is_active r = true → spend_totp t tid r code d = (true, d1) →
  rtc (step self T X Y) d1 d2 →
  ∃ s, verify_totp_code t (secret r) code = Some s ∧
    ∀ r2 t' code' d3, totps d2 !! tid = Some r2 → spend_totp t' tid r2 code' d2 = (true, d3) →
      ∃ s', verify_totp_code t' (secret r) code' = Some s' ∧ s < s'.
Proof.
  intros Hy Hr Ha Hsp Hs. unfold spend_totp in Hsp.
  destruct (verify_totp_code t (secret r) code) as [s|]; [|done]. exists s. split; [done|].
  case_match; [done|]. injection Hsp as <-. intros r2 t' code' d3 Hr2 Hsp2.
  destruct (steps_totp self T X Y _ d2 tid (use_step s r) s Hy Hs) with r2 as (Hsec & _ & s2 & Hl2 & Hle); [|done..|].
  { cbn [totps set_totps]. by rewrite lookup_insert_eq. }
  unfold spend_totp in Hsp2. simpl in Hsec. rewrite Hsec in Hsp2.
  destruct (verify_totp_code t' (secret r) code') as [s'|]; [|done]. exists s'. split; [done|].
  rewrite Hl2 in Hsp2. destruct (Z.leb_spec s' s2); [done|lia].
Qed.

End Claims.
End AuthFacts.
