(* ===== verification/AuthFlows.v ===== *)
(** The authentication endpoints among other requests: what a session response means, that a
    user with a second factor never gets one without it, and how long a revoked access token
    stays refused; with concrete data on which the hypotheses hold. *)

From Stdlib Require Import Ascii.
From stdpp Require Import base list gmap sets strings numbers relations pretty.
From S2P Require Import Prelude RustStr Hex Handlers OAuthStore OAuthTheorems TokenDenylist AuthStore AuthRoutes AuthTheorems.
Local Open Scope Z_scope.

Module AuthFlow.
Import Auth AuthApi AuthFacts.
Import OAuth(find_one, update_where, count_where, none).
Import OAuthFacts(none_true, none_false, find_one_Some, find_one_None).

Section Flows.
Context {E : AuthEnv} (cfg : AuthSettings).

(** A branch that answers with something else. *)
Ltac refused :=
  cbn [negb] in *; inv_runs; match goal with H : @eq Response _ _ |- _ => discriminate H end.

Section AnyEnv.
Context (env : relation Db).

Lemma auth_runs_now d t d' es : runs env (now : Server Instant) d t d' es ↔ rtc env d d' ∧ t = clock d' ∧ es = [].
Proof. apply runs_query. Qed.

(** A session handed out: the two tokens come from these draws, at some time. *)
Lemma runs_issue_session u setup fail x d o d' es :
  runs env (issue_session u setup fail x) d o d' es →
  match o with
  | Ok (a, r) => r = token1 x ∧ ∃ t, create_access_token t (id2 x) u "password" None setup = Ok a
  | Err e => e = internal_error
  end.
Proof.
  unfold issue_session, create_refresh_token. intros Hr.
  apply runs_bind in Hr as (q & d1 & ? & ? & H1 & Hr & ->).
  apply runs_bind in H1 as (t & d2 & ? & ? & _ & H1 & ->).
  apply runs_bind in H1 as (ins & d3 & ? & ? & _ & H1 & ->). apply runs_ret in H1 as (-> & _ & _).
  destruct ins as [[]|e]; cbn [map_err result_map] in Hr.
  - apply runs_bind in Hr as (t' & d4 & ? & ? & _ & Hr & ->).
    destruct (create_access_token t' _ _ _ _ _) eqn:Ha.
    + apply runs_ret in Hr as (-> & _ & _). eauto.
    + apply runs_bind in Hr as (? & ? & ? & ? & _ & Hr & ->). by apply runs_ret in Hr as (-> & _ & _).
  - apply runs_bind in Hr as (? & ? & ? & ? & _ & Hr & ->). by apply runs_ret in Hr as (-> & _ & _).
Qed.

(** The challenge of a token in [d]: stored, not consumed, not expired at [t], with fewer than
    five attempts recorded. *)
Definition open_challenge (t : Instant) (tok : string) (cid : Uuid) (c : Challenge) (d : Db) : Prop :=
  challenges d !! cid = Some c ∧ c_token_hash c = hash_token tok ∧ c_consumed_at c = None ∧
  t < c_expires_at c ∧ attempt_count c < 5.

(** The code is right for user [u] and is spent from [d] to [d']: a TOTP code of the user's
    active enrolment, of a counter later than any used, which is recorded; the one-time code
    mailed for the challenge; or an unused recovery code of the user, which is marked used. *)
Definition code_accepted (t : Instant) (m : MfaMethod) (u : Uuid) (mailed : option string)
    (code : string) (d d' : Db) : Prop :=
  match m with
  | MethodTotp => ∃ tid r s r', totps d !! tid = Some r ∧ t_user_id r = u ∧ t_is_active r = true ∧
      totp_check (secret r) code (unix_timestamp t) = Some s ∧
      (∀ last, last_used_step r = Some last → last < s) ∧
      totps d' !! tid = Some r' ∧ last_used_step r' = Some s
  | MethodEmail => ∃ h, mailed = Some h ∧ argon2_verify code h = Ok true
  | MethodRecoveryCode => ∃ rid r r', recovery_codes d !! rid = Some r ∧ rc_user_id r = u ∧
      used_at r = None ∧ argon2_verify code (code_hash r) = Ok true ∧
      recovery_codes d' !! rid = Some r' ∧ used_at r' = Some t
  | MethodOther _ => False
  end.

Lemma spend_totp_right t tid r code d d' :
  spend_totp t tid r code d = (true, d') →
  ∃ s r', totp_check (secret r) code (unix_timestamp t) = Some s ∧
    (∀ last, last_used_step r = Some last → last < s) ∧
    totps d' !! tid = Some r' ∧ last_used_step r' = Some s.
Proof.
  unfold spend_totp, verify_totp_code. destruct (totp_check _ _ _) as [s|]; [|done].
  destruct (s <? 2 ^ 63); [|done].
  destruct (match last_used_step r with Some last => s <=? last | None => false end) eqn:Hl; [done|].
  intros [= <-]. exists s, (use_step s r). cbn [totps set_totps]. rewrite lookup_insert_eq.
  split_and!; [done| |done|done]. intros last Hlast. rewrite Hlast in Hl. by apply Z.leb_gt in Hl.
Qed.

Lemma verify_code_right t m c code d rec d' :
  verify_code t m c code d = Ok (true, rec, d') →
  code_accepted t m (c_user_id c) (email_code_hash c) code d d'.
Proof.
  unfold verify_code. destruct m as [| | |other]; simpl.
  - destruct (user_totp _ true d) as [[tid r]|] eqn:Hu; [|done]. apply user_totp_spec in Hu as (Hr & Hw & Ha).
    destruct (spend_totp t tid r code d) as [v d1] eqn:Hsp. intros [= -> _ ->].
    apply spend_totp_right in Hsp as (s & r' & Hs). by exists tid, r, s, r'.
  - destruct (email_code_hash c) as [h|]; [|done]. destruct (argon2_verify code h) eqn:Hv; [|done].
    intros [= -> _ _]. by exists h.
  - destruct (matching_recovery_code _ _ d) as [[rid r]|] eqn:Hm; [|done]. intros [= _ <-].
    apply find_one_Some in Hm as [Hr [[Hu%bool_decide_eq_true Hn%none_true]%andb_true_iff Hv]%andb_true_iff].
    destruct (argon2_verify code (code_hash r)) as [[]|] eqn:Hc; try done.
    exists rid, r, (use_recovery_row t r). split_and!; try done.
    cbn [consume_recovery_code recovery_codes set_recovery_codes]. by rewrite lookup_alter_eq, Hr.
  - done.
Qed.

Lemma no_active_totp u d :
  user_totp u true d = None → ∀ k e, totps d !! k = Some e → t_user_id e = u → t_is_active e = false.
Proof.
  intros Hn k e Hk Hu. pose proof (find_one_None _ _ _ _ Hn Hk) as Hf. simpl in Hf.
  rewrite bool_decide_eq_true_2 in Hf by done. by destruct (t_is_active e).
Qed.

(** A refusal carries an error response, never a session. *)
Lemma mfa_refused_no_session commits t tok m code d a r d' :
  mfa_verify_txn commits t tok m code d ≠ (MfaRefused (Session200 a r), d').
Proof.
  unfold mfa_verify_txn, challenge_error_response, verify_code, internal_error. intros Hx.
  repeat (case_match; simplify_eq/=).
Qed.

(** A verification met an open challenge and a right code, and leaves both spent. *)
Lemma mfa_verified commits t tok m code d u rec d' :
  mfa_verify_txn commits t tok m code d = (MfaVerified u rec, d') →
  ∃ cid c c1, c_user_id c = u ∧ open_challenge t tok cid c d ∧
    code_accepted t m u (email_code_hash c) code d d' ∧
    challenges d' !! cid = Some c1 ∧ c_consumed_at c1 = Some t.
Proof.
  intros Hx. destruct (mfa_verify_cases commits t tok m code d) as [(r & He)|(cid & c & v & rc & d1 & Hl & Hv & _ & He)];
    rewrite Hx in He; [done|]. destruct v; [|done]. injection He as -> _ ->.
  exists cid, c, (consumed_challenge t c). split_and!; [done|by apply load_valid_spec| | |done].
  - apply verify_code_right in Hv. by destruct m.
  - cbn [consume_challenge challenges set_challenges]. by rewrite lookup_insert_eq.
Qed.

(** C11: a user with a second factor does not get a session from [login] or [mfa_verify]
    without it, whatever the environment does between the statements. [login] answers with a
    session only if password login is on, the address's user was active, the password
    verified against their stored hash and, later, they had no active TOTP enrolment; the
    access token is then marked for setup exactly when the instance requires two factors.
    [mfa_verify] answers with one only if its transaction met a challenge of the token that
    was not consumed, not expired and had fewer than five recorded attempts, and the code was
    right by the chosen method (a TOTP code of the challenge's user newer than the last one
    used, the mailed code, or an unused recovery code of the user); the transaction committed
    the code as spent and the challenge as consumed, the user was still active afterwards,
    and the session is that user's. *)
Theorem second_factor_enforced d d' es a r x :
  (∀ mail pw, runs env (login cfg mail pw x) d (Session200 a r) d' es →
     password_auth_enabled cfg = true ∧
     ∃ da u w h db t, rtc env d da ∧ users da !! u = Some w ∧ email w = mail ∧ is_active w = true ∧
       password_hash w = Some h ∧ argon2_verify pw h = Ok true ∧
       rtc env da db ∧ (∀ k e, totps db !! k = Some e → t_user_id e = u → t_is_active e = false) ∧
       create_access_token t (id2 x) u "password" None
         (if two_factor_required cfg then Some true else None) = Ok a) ∧
  (∀ commits tok m code, runs env (mfa_verify commits tok m code x) d (Session200 a r) d' es →
     ∃ dt t da cid c d1 c1 db w t',
       rtc env d dt ∧ t = clock dt ∧ rtc env dt da ∧ open_challenge t tok cid c da ∧
       code_accepted t m (c_user_id c) (email_code_hash c) code da d1 ∧
       challenges d1 !! cid = Some c1 ∧ c_consumed_at c1 = Some t ∧
       rtc env d1 db ∧ users db !! c_user_id c = Some w ∧ is_active w = true ∧
       create_access_token t' (id2 x) (c_user_id c) "password" None None = Ok a).
Proof.
  split.
  - intros mail pw Hr. unfold login in Hr.
    destruct (password_auth_enabled cfg); [|unfold audit in Hr; refused]. cbn [negb] in Hr. split; [done|].
    destruct (validate_password_length pw); [unfold audit in Hr; refused|].
    apply runs_bind in Hr as (fu & da & ? & ? & Hq & Hr & ->). apply runs_query in Hq as (Hsa & -> & ->).
    destruct (user_by_email mail da) as [[u w]|] eqn:Hu; [|unfold audit in Hr; refused].
    apply find_one_Some in Hu as [Hu Hmail%bool_decide_eq_true].
    destruct (is_active w) eqn:Hact; [|unfold audit in Hr; refused]. cbn [negb] in Hr.
    destruct (password_hash w) as [h|] eqn:Hh; [|unfold audit in Hr; refused].
    destruct (argon2_verify pw h) as [[]|] eqn:Hv; [|unfold audit in Hr; refused..].
    apply runs_bind in Hr as (tt & db & ? & ? & Hq & Hr & ->). apply runs_query in Hq as (Hsb & -> & ->).
    destruct (user_totp u true db) as [x0|] eqn:Ht.
    + apply runs_bind in Hr as (c & dc & ? & ? & _ & Hr & ->). destruct c; unfold audit in Hr; refused.
    + apply runs_bind in Hr as (s & ds & ? & ? & Hi & Hr & ->).
      destruct s as [[a0 r0]|e].
      * apply runs_issue_session in Hi as (-> & t & Ha). unfold audit in Hr. inv_runs. simplify_eq.
        exists da, u, w, h, db, t. split_and!; try done. by apply no_active_totp.
      * apply runs_issue_session in Hi as ->. refused.
  - intros commits tok m code Hr. unfold mfa_verify in Hr.
    apply runs_bind in Hr as (t & dt & ? & ? & Hn & Hr & ->). apply auth_runs_now in Hn as (Hst & Ht & ->).
    apply runs_bind in Hr as (res & d2 & ? & ? & Hx & Hr & ->). apply runs_exec in Hx as (da & Hsa & Hx & ->).
    destruct res as [resp|u b|u rec].
    + apply runs_ret in Hr as (<- & _ & _). by apply mfa_refused_no_session in Hx.
    + destruct b; unfold audit in Hr; refused.
    + apply mfa_verified in Hx as (cid & c & c1 & <- & Hopen & Hcode & Hc1 & Hcons).
      apply runs_bind in Hr as (w & db & ? & ? & Hq & Hr & ->).
      apply (runs_query env (λ d, users d !! c_user_id c)) in Hq as (Hsb & -> & ->).
      destruct (users db !! c_user_id c) as [w|] eqn:Hw; [|refused].
      destruct (is_active w) eqn:Hact; [|refused]. cbn [negb] in Hr.
      apply runs_bind in Hr as (? & d3 & ? & ? & _ & Hr & ->).
      apply runs_bind in Hr as (? & d4 & ? & ? & _ & Hr & ->).
      apply runs_bind in Hr as (s & ds & ? & ? & Hi & Hr & ->). apply runs_ret in Hr as (Hr & _ & _).
      destruct s as [[a0 r0]|e]; [|apply runs_issue_session in Hi as ->; discriminate Hr].
      injection Hr as -> ->. apply runs_issue_session in Hi as (-> & t' & Ha).
      exists dt, t, da, cid, c, d2, c1, db, w, t'. by split_and!.
Qed.

End AnyEnv.
End Flows.

(** ** Logout *)

Section Logout.
Context {E : AuthEnv}.
(** The JWT library accepts an expired token for [leeway] more seconds; and only tokens this
    server made verify, which live for [ACCESS_TOKEN_EXPIRY_SECS]. *)
Context (leeway : Z) (decode_law : ∀ n jwt c,
  decode_jwt n jwt = Ok c → n ≤ exp c + leeway ∧ exp c ≤ iat c + Denylist.ACCESS_TOKEN_EXPIRY_SECS).

Context (self : nat) (T : Z) (X : gset string) (Y : gset Uuid).
Notation env := (step self T X Y).

Lemma obeys_revoke_refresh tok : obeys env (revoke_refresh_token tok).
Proof.
  unfold revoke_refresh_token. apply obeys_bind; [apply obeys_query|]. intros t.
  apply obeys_bind; [apply obeys_query|]. intros [[sid s]|]; [|done].
  apply obeys_bind; [|done]. apply obeys_exec. intros d. apply rtc_once, step_revoke_session.
Qed.

(** The revocation a logout publishes was made on this controller. *)
Lemma logout_denies ok1 ok2 me tok d d1 es c p :
  runs env (logout self ok1 ok2 me (Some tok)) d NoContent d1 es →
  Publish (Denylist.mkRevoked None None (Some me) (Some c) (Some p)) ∈ es →
  p = c + Denylist.ACCESS_TOKEN_EXPIRY_SECS ∧
  ∃ da db es', rtc env d da ∧
    runs (Ev := Event) (Denylist.step self T) (Denylist.deny_user self true ok1 ok2 me c p) (deny da) tt (deny db) es' ∧
    rtc env db d1.
Proof.
  unfold logout. intros Hr Hp. apply runs_bind in Hr as (v & d2 & es1 & es2 & Hv & Hr & ->).
  assert (rtc env d d2 ∧ es1 = []) as [Hs2 ->].
  { unfold verify_refresh_token, now in Hv. inv_runs. subst. split; [by etrans|done]. }
  destruct v as [v|e].
  - destruct (bool_decide (v_user_id v = me)) eqn:Hme; cbn [negb] in Hr.
    2:{ unfold audit in Hr. by inv_runs. }
    apply bool_decide_eq_true in Hme as <-.
    apply runs_bind in Hr as (t & d3 & ? & ? & Hn & Hr & ->). apply auth_runs_now in Hn as (Hs3 & -> & ->).
    apply runs_bind in Hr as (? & d4 & es3 & es4 & Hk & Hr & ->). unfold revoke_user_tokens in Hk.
    apply runs_bind in Hk as ([] & d5 & es5 & es6 & Hd & Hk & ->). apply runs_emit1 in Hk as (_ & -> & ->).
    apply runs_denylist in Hd.
    apply runs_bind in Hr as (o & d6 & es7 & es8 & Ho & Hr & ->).
    pose proof (runs_steps _ _ _ _ _ _ Ho (obeys_revoke_refresh tok)) as Hs6.
    assert (es7 = []) as ->.
    { unfold revoke_refresh_token, now in Ho. inv_runs. subst. destruct (session_by_hash _ _) as [[]|]; by inv_runs; subst. }
    apply runs_bind in Hr as (? & d7 & es9 & es10 & Ha & Hr & ->). apply runs_ret in Hr as (_ & -> & ->).
    assert (d7 = d6 ∧ ∃ a, es9 = [a] ∧ ∀ m, a ≠ Publish m) as (-> & a & -> & Hna).
    { unfold audit in Ha. destruct o; apply runs_emit1 in Ha as (_ & -> & ->); split; eauto. }
    assert (es5 = []) as ->.
    { unfold Denylist.deny_user in Hd. inv_runs. subst. revert Hd. destruct (_ && _); intros Hd; inv_runs; subst; [|done].
      destruct a1 as [[|n]|]; inv_runs; subst; [|done..]. destruct a1 as [[r|]|]; by inv_runs; subst. }
    simpl in Hp. rewrite !elem_of_cons in Hp. destruct Hp as [Hp|[Hp|Hp%not_elem_of_nil]]; [|by destruct (Hna _ (eq_sym Hp))|done].
    injection Hp as -> ->. split; [done|]. exists d3, d5, []. split_and!; [by etrans|exact Hd|exact Hs6].
  - exfalso. destruct (logout_verify_classification e) as [o reason]. unfold audit in Hr.
    apply runs_bind in Hr as (? & d3 & ? & ? & Ha & Hr & ->). apply runs_emit1 in Ha as (_ & -> & ->).
    apply runs_bind in Hr as (o' & d6 & es7 & es8 & Ho & Hr & ->). apply runs_ret in Hr as (_ & -> & ->).
    assert (es7 = []) as ->.
    { unfold revoke_refresh_token, now in Ho. inv_runs. subst. destruct (session_by_hash _ _) as [[]|]; by inv_runs; subst. }
    simpl in Hp. rewrite elem_of_cons in Hp. destruct Hp as [Hp|Hp%not_elem_of_nil]; [discriminate Hp|done].
Qed.

(** C24: after a logout the user's access tokens are refused. Once [logout] has published its
    revocation, whatever other requests, other controllers and failing database statements
    do, an access token of that user issued before it, and not allowlisted by a password
    change, is accepted on this controller at most during the JWT library's leeway after the
    denylist entry could be purged; with no leeway, never. *)
Theorem logout_revokes_access ok1 ok2 me tok d d1 es c p d2 jwt cl w setup :
  Denylist.kept self (deny d) → 0 < c →
  runs env (logout self ok1 ok2 me (Some tok)) d NoContent d1 es →
  Publish (Denylist.mkRevoked None None (Some me) (Some c) (Some p)) ∈ es →
  rtc env d1 d2 → T ≤ unix_timestamp (clock d2) →
  decode_jwt (unix_timestamp (clock d2)) jwt = Ok cl → iat cl < c →
  Denylist.jti_allowlist (Denylist.memory self (deny d2)) !! jti cl = None →
  (run (authenticate_jwt self jwt) d2).1.1 = Ok (w, setup) → au_user_id w = me →
  c + Denylist.ACCESS_TOKEN_EXPIRY_SECS ≤ unix_timestamp (clock d2)
  < c + Denylist.ACCESS_TOKEN_EXPIRY_SECS + leeway.
Proof.
  intros Hkept Hc Hr Hp Hs HT Hdec Hiat Hal Hauth Hw.
  destruct (logout_denies ok1 ok2 me tok d d1 es c p Hr Hp) as (-> & da & db & es' & Hsa & Hd & Hsb).
  destruct (decode_law _ _ _ Hdec) as [Hexp Hlife]. split; [|lia].
  destruct (decide (T < c + Denylist.ACCESS_TOKEN_EXPIRY_SECS)) as [HT'|]; [exfalso|lia].
  assert (Denylist.covers me c (Denylist.denied_by self (deny d2))) as Hcov.
  { eapply Denylist.deny_user_holds; [|exact Hc|exact HT'|exact Hd|].
    - eapply Denylist.steps_kept; [by eapply steps_denies|done].
    - eapply steps_denies. by etrans. }
  pose proof (Denylist.covered_denied self (deny d2) me c (jti cl) (iat cl) Hcov Hiat Hal) as Hden.
  simpl in Hauth. rewrite Hdec in Hauth. destruct (parse_uuid (sub cl)) as [u|]; [|done].
  simpl in Hauth. destruct (Denylist.is_denied_in (jti cl) u (iat cl) _) eqn:Hd2; [done|].
  destruct (claims_method cl); [|done]. injection Hauth as <- _. simpl in Hw. congruence.
Qed.
End Logout.
End AuthFlow.

(** ** Examples: logins with and without a second factor, a rotation, a device authorization and
    a logout. Third-party functions are instantiated by simple concrete ones. *)

Module AuthExamples.
Import Auth AuthApi AuthFacts AuthFlow.

(** Hashes are the identity; a TOTP code is its secret and gives the current counter; the one
    JWT that decodes was issued at second 990 and is accepted for 60 seconds after it expired. *)
#[local] Instance plain_auth : AuthEnv := {
  sha256 := id; argon2_hash p := Ok p; argon2_verify p h := Ok (bool_decide (p = h));
  totp_check sec code n := if decide (code = sec) then Some (n / 30) else None;
  encode_jwt c := Ok (sub c +:+ (if setup_required c then "/setup" else ""));
  decode_jwt n jwt := if decide (jwt = "j" ∧ n ≤ 1890 + 60)
    then Ok (mkClaims "5" "t" "password" None 990 1890 "uptrakit" ["uptrakit"] None) else Err "expired";
  uuid_text := pretty; parse_uuid s := if decide (s = "5") then Some 5%N else None;
  to_uppercase := id }.

Definition alice : User := mkUser "alice@x" true (Some "password").
Definition bob : User := mkUser "bob@x" true (Some "password").
Definition bob_totp : Totp := mkTotp 6%N "otp" true (Some 0) (Some 10) 0.
Definition alice_session : Session :=
  mkSession 5%N (hash_token "r0") "password" None 0 (secs 5000) None None None.
Definition db0 : Db :=
  mkDb {[ 5%N := alice; 6%N := bob ]} {[ 1%N := alice_session ]} ∅ ∅ ∅ {[ 2%N := bob_totp ]} ∅
    (Denylist.mkSys {[ 0%nat := Denylist.new ]} ∅ ∅) (secs 1000).
Definition strict : AuthSettings := mkSettings true true.
Definition draw : Draws := mkDraws 100%N 101%N "r1".

Definition after {R} (h : Server R) (d : Db) : Db := (run h d).1.2.

Lemma run_answers {R} (env : relation Db) (h : Server R) d r :
  (run h d).1.1 = r → runs env h d r (after h d) (run h d).2.
Proof. intros <-. apply run_runs. Qed.

(** Alice has no second factor and is sent to set one up; Bob has to present his. *)
Definition challenged : Db := after (login strict "bob@x" "password" draw) db0.
Example two_logins :
  (run (login strict "alice@x" "password" draw) db0).1.1 = Session200 "5/setup" "r1" ∧
  (run (login strict "bob@x" "password" draw) db0).1.1 = MfaRequired "r1" ∧
  (run (mfa_verify true "r1" MethodTotp "otp" (mkDraws 102%N 103%N "r2")) challenged).1.1 = Session200 "6" "r2".
Proof. by vm_compute. Qed.

Lemma second_factor_enforced_witness :
  (∃ u w, users db0 !! u = Some w ∧ email w = "alice@x" ∧
     ∀ k e, totps db0 !! k = Some e → t_user_id e = u → t_is_active e = false) ∧
  ∃ t cid c d1, open_challenge t "r1" cid c challenged ∧
    code_accepted t MethodTotp (c_user_id c) (email_code_hash c) "otp" challenged d1.
Proof.
  split.
  - destruct (proj1 (second_factor_enforced strict (λ _ _ : Db, False) db0
      (after (login strict "alice@x" "password" draw) db0) (run (login strict "alice@x" "password" draw) db0).2
      "5/setup" "r1" draw) "alice@x" "password") as (_ & da & u & w & h & db & t & Hs & Hu & Hm & _ & _ & _ & Hs' & Ht & _).
    + apply run_answers. by vm_compute.
    + inversion Hs; [subst|done]. inversion Hs'; [subst|done]. exists u, w. split_and!; [exact Hu|exact Hm|exact Ht].
  - set (h := mfa_verify true "r1" MethodTotp "otp" (mkDraws 102%N 103%N "r2")).
    destruct (proj2 (second_factor_enforced strict (λ _ _ : Db, False) challenged (after h challenged)
      (run h challenged).2 "6" "r2" (mkDraws 102%N 103%N "r2")) true "r1" MethodTotp "otp")
      as (dt & t & da & cid & c & d1 & _ & _ & _ & _ & Hs & _ & Hs' & Ho & Hc & _).
    + apply run_answers. by vm_compute.
    + inversion Hs; [subst|done]. inversion Hs'; [subst|done].
      exists t, cid, c, d1. split; [exact Ho|exact Hc].
Defined.

(** Guesses whose commit fails are answered as wrong and cost nothing, however many. *)
Example uncommitted_guesses_free n :
  attempts 0 0 {[ hash_token "r1" ]} ∅ "r1" challenged 0 n 0 challenged.
Proof.
  induction n as [|n IH]; [apply no_attempt|].
  by apply lost_attempt with (secs 1001) MethodTotp "no" 6%N false challenged; [vm_compute|].
Qed.

Lemma refresh_token_spent_once_witness :
  let x := rotate_txn (secs 1001) "r0" 7%N "r9" db0 in
  (∃ v, x.1 = Ok v) ∧ ∃ e, rotate_txn (secs 1002) "r0" 8%N "r8" x.2 = (Err e, x.2).
Proof.
  intros x. destruct x as [[v|e] d1] eqn:Hx; [|by vm_compute in Hx]. split; [by exists v|].
  apply (refresh_token_spent_once 0%nat 0 ∅ (secs 1001) "r0" 7%N "r9" db0 v d1 d1).
  - cbn [sessions db0]. intros k1 k2 s1 s2 [<- _]%lookup_singleton_Some [<- _]%lookup_singleton_Some _. done.
  - exact Hx.
  - apply rtc_refl.
Defined.

(** A flow created, approved by Alice and redeemed. *)
Definition flow0 : Db := after (create_flow 20%N "dev" "BCDF-GHJK" None None) db0.
Definition flow1 : Db := after (approve_flow "BCDFGHJK" 5%N) flow0.
Lemma flow_steps : rtc (step 0 0 ∅ ∅) db0 flow1.
Proof.
  apply rtc_l with flow0.
  - assert (flow0 = (insert_flow 20%N (new_flow (secs 1000) "dev" "BCDF-GHJK" None None) db0).2) as -> by reflexivity.
    apply step_insert_flow. set_solver.
  - assert (flow1 = (approve_txn (secs 1000) "BCDFGHJK" 5%N flow0).2) as -> by reflexivity.
    apply rtc_once, step_approve_flow.
Qed.

Lemma device_flow_sound_witness :
  let x := poll_txn (secs 1001) (secs 1001) "dev" 30%N "k" flow1 in
  x.1 = Ok (PollAuthorized "upk_k" "cli") ∧
  (poll_txn (secs 1009) (secs 1009) "dev" 31%N "m" x.2).1 ≠ Ok (PollAuthorized "upk_m" "cli").
Proof.
  intros x. destruct x as [o d1] eqn:Hx.
  assert (o = Ok (PollAuthorized "upk_k" "cli")) as -> by (vm_compute in Hx; by injection Hx).
  split; [done|].
  destruct (device_flow_sound 0%nat 0 ∅ ∅ db0 flow1 (secs 1001) "dev" eq_refl flow_steps) as (_ & Hp & _).
  destruct (Hp (secs 1001) 30%N "k" "upk_k" "cli" d1 Hx) as [_ Hn]. apply Hn, rtc_refl.
Defined.

(** Bob's challenge: a wrong code, then the right one. *)
Lemma second_factor_attempts_bounded_witness :
  attempts 0 0 {[ hash_token "r1" ]} ∅ "r1" challenged 1 0 1
    (mfa_verify_txn true (secs 1002) "r1" MethodTotp "otp" (mfa_verify_txn true (secs 1001) "r1" MethodTotp "no" challenged).2).2 ∧
  (1 + 1 ≤ 5)%nat.
Proof.
  set (d1 := (mfa_verify_txn true (secs 1001) "r1" MethodTotp "no" challenged).2).
  set (d2 := (mfa_verify_txn true (secs 1002) "r1" MethodTotp "otp" d1).2).
  assert (attempts 0 0 {[ hash_token "r1" ]} ∅ "r1" challenged 1 0 1 d2) as Ha.
  { apply wrong_attempt with (secs 1001) MethodTotp "no" 6%N false d1; [by vm_compute|].
    apply right_attempt with true (secs 1002) MethodTotp "otp" 6%N false d2; [by vm_compute|]. apply no_attempt. }
  split; [exact Ha|].
  apply (second_factor_attempts_bounded 0%nat 0 {[ hash_token "r1" ]} ∅ "r1" challenged 1 0 1 d2).
  - set_solver.
  - intros k1 k2 c1 c2 H1 H2 _. assert (∃ c, challenges challenged = {[ 100%N := c ]}) as [c Hc] by by vm_compute; eexists.
    rewrite Hc in H1, H2. apply lookup_singleton_Some in H1 as [<- _], H2 as [<- _]. done.
  - intros k c H1 _. assert (∃ c, challenges challenged = {[ 100%N := c ]} ∧ 0 ≤ attempt_count c) as (c0 & Hc & Hpos)
      by by vm_compute; eexists.
    rewrite Hc in H1. apply lookup_singleton_Some in H1 as [_ <-]. exact Hpos.
  - exact Ha.
Defined.

Lemma totp_never_replayed_witness :
  let x := spend_totp (secs 1000) 2%N bob_totp "otp" db0 in
  x.1 = true ∧ ∃ s, verify_totp_code (secs 1000) "otp" "otp" = Some s.
Proof.
  intros x. destruct x as [b d1] eqn:Hx. assert (b = true) as -> by (vm_compute in Hx; by injection Hx).
  split; [done|].
  destruct (totp_never_replayed 0%nat 0 ∅ {[ 2%N ]} (secs 1000) 2%N bob_totp "otp" db0 d1 d1) as (s & Hs & _);
    [set_solver|done|done|exact Hx|apply rtc_refl|]. exists s. exact Hs.
Defined.

(** Alice logs out at second 1000; the entry is purged at 1900 and at 1905 her token of second
    990 is within the leeway again. *)
Definition logged_out : Db := after (logout 0 true true 5%N (Some "r0")) db0.
Definition late : Db := set_clock (secs 1905) (set_deny (Denylist.purge_mem 0 1900 (deny logged_out)).2 logged_out).

Lemma logout_revokes_access_witness :
  (run (authenticate_jwt 0 "j") logged_out).1.1 = Err TokenRevoked ∧
  (run (authenticate_jwt 0 "j") late).1.1 = Ok (mkAuthenticated 5%N Password (Some "t"), false) ∧
  1900 ≤ 1905 < 1960.
Proof.
  split; [by vm_compute|]. assert ((run (authenticate_jwt 0 "j") late).1.1
    = Ok (mkAuthenticated 5%N Password (Some "t"), false)) as Hacc by by vm_compute.
  split; [exact Hacc|].
  apply (logout_revokes_access 60) with (self := 0%nat) (T := 1900) (X := ∅) (Y := ∅) (ok1 := true) (ok2 := true)
    (me := 5%N) (tok := "r0") (d := db0) (d1 := logged_out) (es := (run (logout 0 true true 5%N (Some "r0")) db0).2)
    (c := 1000) (p := 1900) (d2 := late) (jwt := "j")
    (cl := mkClaims "5" "t" "password" None 990 1890 "uptrakit" ["uptrakit"] None)
    (w := mkAuthenticated 5%N Password (Some "t")) (setup := false).
  - intros n jwt c. simpl. case_decide as Hd; [|done]. intros [= <-]. simpl.
    unfold Denylist.ACCESS_TOKEN_EXPIRY_SECS. lia.
  - split; intros u e He; by vm_compute in He.
  - lia.
  - apply run_answers. by vm_compute.
  - vm_compute. left.
  - apply rtc_l with (set_deny (Denylist.purge_mem 0 1900 (deny logged_out)).2 logged_out).
    + apply step_denylist, Denylist.step_purge_mem. lia.
    + apply rtc_once, step_tick. by vm_compute.
  - by vm_compute.
  - reflexivity.
  - simpl. lia.
  - by vm_compute.
  - exact Hacc.
  - reflexivity.
Defined.

End AuthExamples.
