(* ===== verification/OidcStore.v ===== *)
(** Sign-in through OpenID Connect and registration: the stores and services
    ([crates/ui/web-api-auth/src/auth/]: [oidc_state.rs], [authentication.rs],
    [registration.rs]; [crates/ui/web-api-queries/src/queries/users/oidc_sync.rs]; the
    bootstrap of the first user and the pinning of redirects in
    [crates/ui/web-api/src/routes/]: [auth.rs], [oidc_auth.rs]).

    The database is the credential store ([Auth.Db]), the tables of access control
    ([Grants.Db], its users taken from the credential store) and the tables of this file.
    The names of people and the columns nothing reads are left out. *)

From Stdlib Require Import Ascii.
From stdpp Require Import base list gmap sets strings numbers sorting.
From S2P Require Import Prelude RustStr Json Handlers AccessVocab AccessGrants OAuthStore TokenDenylist AuthStore AuthRoutes.
Local Open Scope Z_scope.

Module Oidc.
Import OAuth(find_one, none).

(** ** Rows *)

Record Link := mkLink { l_user_id : Uuid; l_provider_id : Uuid; l_subject : string; linked_at : Instant }.

Record Provider := mkProvider {
  p_tenant_id : Uuid; p_name : string; issuer_url : string; p_client_id : string; p_scopes : string;
  auto_create_users : bool; allow_private_network_issuers : bool; role_claim_path : option string;
  role_mapping : gmap string string; p_is_active : bool; p_deactivated_at : option Instant }.

(** A flow is keyed by its [state] parameter; its verifier is stored encrypted, and the empty
    [return_origin] stands for [None]. *)
Record Flow := mkFlow {
  fl_provider_id : Uuid; pkce_verifier : string; nonce : string; redirect_uri : string;
  return_origin : string; fl_created_at : Instant; fl_expires_at : Instant }.

Record PendingLink := mkPendingLink {
  pl_token_hash : string; pl_provider_id : Uuid; pl_subject : string; pl_email : string;
  pl_user_id : Uuid; pl_mapped_roles : Value; existing_link_provider_id : option Uuid;
  pl_created_at : Instant; pl_expires_at : Instant }.

Record Exchange := mkExchange {
  ex_code_hash : string; ex_user_id : Uuid; ex_provider_id : Uuid;
  ex_created_at : Instant; ex_expires_at : Instant }.

Record PendingRegistration := mkPendingRegistration {
  pr_code_hash : string; pr_provider_id : Uuid; pr_subject : string; pr_email : string;
  pr_mapped_roles : Value; pr_created_at : Instant; pr_expires_at : Instant }.

Inductive RegistrationMode := Open | Invite | Closed.
#[global] Instance RegistrationMode_eq_dec : EqDecision RegistrationMode.
Proof. solve_decision. Defined.

Record RegistrationSettings := mkRegistration {
  mode : RegistrationMode; token_hash : option string; require_token_for_oidc : bool }.

(** [registration] is the settings snapshot in the memory of this controller. *)
Record Db := mkDb {
  auth : Auth.Db; access : Grants.Db; role_names : gmap Uuid string;
  links : gmap Uuid Link; providers : gmap Uuid Provider; flows : gmap string Flow;
  pending_links : gmap Uuid PendingLink; exchanges : gmap Uuid Exchange;
  registrations : gmap Uuid PendingRegistration;
  settings : gmap (Uuid * string) Value; global_settings : gmap string Value;
  registration : RegistrationSettings }.

Definition set_auth x (d : Db) : Db :=
  mkDb x (access d) (role_names d) (links d) (providers d) (flows d) (pending_links d) (exchanges d)
    (registrations d) (settings d) (global_settings d) (registration d).
Definition set_access x (d : Db) : Db :=
  mkDb (auth d) x (role_names d) (links d) (providers d) (flows d) (pending_links d) (exchanges d)
    (registrations d) (settings d) (global_settings d) (registration d).
Definition set_links x (d : Db) : Db :=
  mkDb (auth d) (access d) (role_names d) x (providers d) (flows d) (pending_links d) (exchanges d)
    (registrations d) (settings d) (global_settings d) (registration d).
Definition set_providers x (d : Db) : Db :=
  mkDb (auth d) (access d) (role_names d) (links d) x (flows d) (pending_links d) (exchanges d)
    (registrations d) (settings d) (global_settings d) (registration d).
Definition set_flows x (d : Db) : Db :=
  mkDb (auth d) (access d) (role_names d) (links d) (providers d) x (pending_links d) (exchanges d)
    (registrations d) (settings d) (global_settings d) (registration d).
Definition set_pending_links x (d : Db) : Db :=
  mkDb (auth d) (access d) (role_names d) (links d) (providers d) (flows d) x (exchanges d)
    (registrations d) (settings d) (global_settings d) (registration d).
Definition set_exchanges x (d : Db) : Db :=
  mkDb (auth d) (access d) (role_names d) (links d) (providers d) (flows d) (pending_links d) x
    (registrations d) (settings d) (global_settings d) (registration d).
Definition set_registrations x (d : Db) : Db :=
  mkDb (auth d) (access d) (role_names d) (links d) (providers d) (flows d) (pending_links d) (exchanges d)
    x (settings d) (global_settings d) (registration d).
Definition set_settings x (d : Db) : Db :=
  mkDb (auth d) (access d) (role_names d) (links d) (providers d) (flows d) (pending_links d) (exchanges d)
    (registrations d) x (global_settings d) (registration d).
Definition set_registration x (d : Db) : Db :=
  mkDb (auth d) (access d) (role_names d) (links d) (providers d) (flows d) (pending_links d) (exchanges d)
    (registrations d) (settings d) (global_settings d) x.

(** Events: those of the credential store, the invalidation told to the other controllers and
    the operator's signal that a role sync was held back. *)
Inductive Event :=
| AuthEvent (e : Auth.Event)
| AccessInvalidated (user : Uuid)
| SyncLockoutPrevented (user : Uuid) (provider : string) (attempted_roles : list string).

Notation Server := (Handler Db Event).

(** The claims of a validated ID token, and the ways in which asking for one fails. *)
Record IdClaims := mkIdClaims {
  id_sub : string; id_email : option string; id_email_verified : option bool; additional_claims : Value }.
Inductive ExchangeFailure := TokenExchangeFailed | NoIdToken | TokenValidationFailed.

(** Third-party code: URL parsing, percent-encoding, and the authorization URL the OpenID
    library builds (from the provider, redirect, state, nonce, verifier and scopes); and the
    order in which a hash map is iterated. *)
Class OidcEnv := {
  url_ok : string → bool;
  url_has_host : string → bool;
  pct : string → string;
  authorize_url : Provider → string → string → string → string → list string → string;
  map_order : gmap string string → list (string * string);
  map_order_perm m : map_order m ≡ₚ map_to_list m;
}.

(** One conversation with the identity provider: whether discovery succeeds, and what the
    token endpoint answers to a code, verifier, nonce and redirect, after the OpenID library
    has validated it. *)
Record IdP := mkIdP {
  discover : Provider → string → bool → bool;
  exchange_code : Provider → string → string → string → string → bool → Result ExchangeFailure IdClaims }.

Section Services.
Context {E : Auth.AuthEnv} {O : OidcEnv} `{SerdeSelector}.

Definition credential {R} (h : Handler Auth.Db Auth.Event R) : Server R :=
  zoom auth set_auth (relabel AuthEvent h).
Definition now : Server Instant := query (λ d, Auth.clock (auth d)).

(** ** One-time tickets *)

(** [delete_many] of one row that has not expired: was a row deleted? *)
Definition delete_unexpired `{Countable K} {A} (expires : A → Instant) (t : Instant) (k : K) (m : gmap K A)
    : bool * gmap K A :=
  match m !! k with
  | Some r => if t <? expires r then (true, delete k m) else (false, m)
  | None => (false, m)
  end.

(** [take]: read the row, then delete it by its key unless it expired; the reader whose delete
    removed the row gets it. *)
Definition take {K A} (find : Db → option (K * A)) (del : Instant → K → Db → bool * Db)
    : Server (option (K * A)) :=
  t ← now;
  r ← query find;
  match r with
  | None => mret None
  | Some (k, row) => deleted ← exec (del t k); mret (if (deleted : bool) then Some (k, row) else None)
  end.

Definition TTL_SECONDS : Z := 600.
Definition EXCHANGE_TTL_SECONDS : Z := 60.

Definition find_flow (st : string) (d : Db) : option (string * Flow) := (st,.) <$> flows d !! st.
Definition delete_flow (t : Instant) (st : string) (d : Db) : bool * Db :=
  let '(b, m) := delete_unexpired fl_expires_at t st (flows d) in (b, set_flows m d).
Definition take_flow (st : string) : Server (option (string * Flow)) := take (find_flow st) delete_flow.

(** The primary key refuses a second flow with the same state. *)
Definition insert_flow (st : string) (f : Flow) (d : Db) : bool * Db :=
  if none (flows d !! st) then (true, set_flows (<[st := f]> (flows d)) d) else (false, d).
Definition flow_insert (st : string) (provider : Uuid) (verifier nce uri : string) (origin : option string)
    : Server bool :=
  t ← now;
  exec (insert_flow st (mkFlow provider verifier nce uri (default "" origin) t (t + secs TTL_SECONDS))).

(** Purge of one provider's flows, in the transaction that changes the provider. *)
Definition purge_for_provider (p : Uuid) (d : Db) : unit * Db :=
  (tt, set_flows (filter (λ kv : string * Flow, fl_provider_id kv.2 ≠ p) (flows d)) d).

(** JSON of a list of strings, and back. *)
Definition roles_json (l : list string) : Value := JArray (JString <$> l).
Definition json_str (v : Value) : option string := match v with JString s => Some s | _ => None end.
Definition roles_of_json (v : Value) : option (list string) :=
  match v with JArray l => mapM json_str l | _ => None end.

Definition find_link_ticket (token : string) (d : Db) : option (Uuid * PendingLink) :=
  find_one (λ _ r, bool_decide (pl_token_hash r = Auth.hash_token token)) (pending_links d).
Definition delete_link_ticket (t : Instant) (k : Uuid) (d : Db) : bool * Db :=
  let '(b, m) := delete_unexpired pl_expires_at t k (pending_links d) in (b, set_pending_links m d).
Definition take_link (token : string) : Server (option (Uuid * PendingLink)) :=
  take (find_link_ticket token) delete_link_ticket.
Definition insert_link_ticket (k : Uuid) (r : PendingLink) (d : Db) : bool * Db :=
  if none (pending_links d !! k)
     && bool_decide (map_Forall (λ _ r', pl_token_hash r' ≠ pl_token_hash r) (pending_links d))
  then (true, set_pending_links (<[k := r]> (pending_links d)) d) else (false, d).

Definition find_exchange (code : string) (d : Db) : option (Uuid * Exchange) :=
  find_one (λ _ r, bool_decide (ex_code_hash r = Auth.hash_token code)) (exchanges d).
Definition delete_exchange (t : Instant) (k : Uuid) (d : Db) : bool * Db :=
  let '(b, m) := delete_unexpired ex_expires_at t k (exchanges d) in (b, set_exchanges m d).
Definition take_exchange (code : string) : Server (option (Uuid * Exchange)) :=
  take (find_exchange code) delete_exchange.
Definition insert_exchange (k : Uuid) (r : Exchange) (d : Db) : bool * Db :=
  if none (exchanges d !! k)
     && bool_decide (map_Forall (λ _ r', ex_code_hash r' ≠ ex_code_hash r) (exchanges d))
  then (true, set_exchanges (<[k := r]> (exchanges d)) d) else (false, d).

Definition find_registration (code : string) (d : Db) : option (Uuid * PendingRegistration) :=
  find_one (λ _ r, bool_decide (pr_code_hash r = Auth.hash_token code)) (registrations d).
Definition delete_registration (t : Instant) (k : Uuid) (d : Db) : bool * Db :=
  let '(b, m) := delete_unexpired pr_expires_at t k (registrations d) in (b, set_registrations m d).
Definition take_registration (code : string) : Server (option (Uuid * PendingRegistration)) :=
  take (find_registration code) delete_registration.
Definition insert_registration (k : Uuid) (r : PendingRegistration) (d : Db) : bool * Db :=
  if none (registrations d !! k)
     && bool_decide (map_Forall (λ _ r', pr_code_hash r' ≠ pr_code_hash r) (registrations d))
  then (true, set_registrations (<[k := r]> (registrations d)) d) else (false, d).

(** The expired tickets of all four tables go (the cleanup task). *)
Definition cleanup_tickets (t : Instant) (d : Db) : unit * Db :=
  (tt, set_flows (filter (λ kv : string * Flow, ¬ fl_expires_at kv.2 < t) (flows d))
        (set_pending_links (filter (λ kv : Uuid * PendingLink, ¬ pl_expires_at kv.2 < t) (pending_links d))
          (set_exchanges (filter (λ kv : Uuid * Exchange, ¬ ex_expires_at kv.2 < t) (exchanges d))
            (set_registrations
               (filter (λ kv : Uuid * PendingRegistration, ¬ pr_expires_at kv.2 < t) (registrations d)) d)))).

(** ** Registration settings *)

Definition mode_text (m : RegistrationMode) : string :=
  match m with Open => "open" | Invite => "invite" | Closed => "closed" end.
Definition parse_mode (s : string) : option RegistrationMode :=
  if decide (s = "open") then Some Open
  else if decide (s = "invite") then Some Invite
  else if decide (s = "closed") then Some Closed
  else None.

Definition json_bool (v : Value) : option bool := match v with JBool b => Some b | _ => None end.

Definition from_raw (tenant : Uuid) (m : gmap (Uuid * string) Value) : RegistrationSettings :=
  mkRegistration
    (default Closed ((m !! (tenant, "registration.mode") ≫= json_str) ≫= parse_mode))
    (m !! (tenant, "registration.token_hash") ≫= json_str)
    (default false (m !! (tenant, "registration.require_token_for_oidc") ≫= json_bool)).

Definition upsert_setting (tenant : Uuid) (key : string) (v : Value) (d : Db) : Db :=
  set_settings (<[(tenant, key) := v]> (settings d)) d.
Definition delete_setting (tenant : Uuid) (key : string) (d : Db) : Db :=
  set_settings (delete (tenant, key) (settings d)) d.

(** [initialize], at start-up: with no users, a fresh invite token; the text of the token is
    logged. *)
Definition initialize (tenant : Uuid) (plaintext : string) (d : Db)
    : Result string (RegistrationSettings * option string) * Db :=
  if decide (size (Auth.users (auth d)) = 0%nat) then
    match Auth.argon2_hash plaintext with
    | Err e => (Err e, d)
    | Ok h =>
        (Ok (mkRegistration Invite (Some h) false, Some plaintext),
         upsert_setting tenant "registration.token_hash" (JString h)
           (upsert_setting tenant "registration.mode" (JString (mode_text Invite)) d))
    end
  else (Ok (from_raw tenant (settings d), None), d).

Inductive RegistrationValidationError :=
| RegClosed | TokenRequired | NoTokenConfigured | VerificationFailed | InvalidToken.

Definition validate_registration (r : RegistrationSettings) (token : option string)
    : Result RegistrationValidationError unit :=
  match mode r with
  | Open => Ok tt
  | Closed => Err RegClosed
  | Invite =>
      match token with
      | None => Err TokenRequired
      | Some t =>
          match token_hash r with
          | None => Err NoTokenConfigured
          | Some h => match Auth.argon2_verify t h with
                      | Err _ => Err VerificationFailed
                      | Ok true => Ok tt
                      | Ok false => Err InvalidToken
                      end
          end
      end
  end.

Definition complete_initial_setup (tenant : Uuid) (d : Db) : RegistrationSettings * Db :=
  (mkRegistration Closed None false,
   delete_setting tenant "registration.require_token_for_oidc"
     (delete_setting tenant "registration.token_hash"
        (upsert_setting tenant "registration.mode" (JString (mode_text Closed)) d))).

Definition needs_token_for_oidc (r : RegistrationSettings) (is_first_user : bool) : bool :=
  bool_decide (mode r = Invite) && (is_first_user || require_token_for_oidc r).

(** The administrator's change of mode, token and flag. *)
Definition update_registration (r : RegistrationSettings) (tenant : Uuid) (m : RegistrationMode)
    (token : option string) (require : option bool) (d : Db) : Result string RegistrationSettings * Db :=
  let d1 := upsert_setting tenant "registration.mode" (JString (mode_text m)) d in
  match m with
  | Invite =>
      match match token with
            | Some t => match Auth.argon2_hash t with
                        | Err e => Err e
                        | Ok h => Ok (Some h, upsert_setting tenant "registration.token_hash" (JString h) d1)
                        end
            | None => Ok (settings d1 !! (tenant, "registration.token_hash") ≫= json_str, d1)
            end with
      | Err e => (Err e, d1)
      | Ok (th, d2) =>
          match require with
          | Some b => (Ok (mkRegistration m th b),
                       upsert_setting tenant "registration.require_token_for_oidc" (JBool b) d2)
          | None => (Ok (mkRegistration m th (require_token_for_oidc r)), d2)
          end
      end
  | _ => (Ok (mkRegistration m None false),
          delete_setting tenant "registration.require_token_for_oidc"
            (delete_setting tenant "registration.token_hash" d1))
  end.

(** ** Roles *)

(** The tables of access control, with the users of the credential store. *)
Definition access_view (d : Db) : Grants.Db :=
  Grants.with_users (Auth.is_active <$> Auth.users (auth d)) (access d).

(** The global roles with one of the names, in the order of their names. *)
Definition name_le (x y : Uuid * string) : Prop := Is_true (str_leb x.2 y.2).
Definition roles_named (names : list string) (d : Db) : list (Uuid * string) :=
  merge_sort name_le
    (filter (λ rn : Uuid * string, rn.2 ∈ names ∧ Grants.roles (access d) !! rn.1 = Some None)
       (map_to_list (role_names d))).
Definition global_role (name : string) (d : Db) : option Uuid := fst <$> head (roles_named [name] d).

(** Insertion of one assignment; the primary key refuses a second one. *)
Definition assign_role (tenant u r : Uuid) (d : Db) : Result string Db :=
  match Grants.db_fail (access d) Grants.TUserRoles with
  | Some e => Err e
  | None => l ← Grants.insert_user_roles tenant u [r] (Grants.user_roles (access d));
            Ok (set_access (Grants.with_roles (Grants.roles (access d)) l (access d)) d)
  end.

Definition OWNER_ROLES : list string :=
  ["viewer"; "operator"; "service_manager"; "software_manager"; "host_manager"; "settings_manager";
   "command_manager"; "system_administrator"].

Definition assign_named (tenant u : Uuid) (d : Db) (name : string) : Result string Db :=
  match Grants.db_fail (access d) Grants.TRoles with
  | Some e => Err e
  | None => match global_role name d with
            | None => Err (name +:+ " role not found")
            | Some r => assign_role tenant u r d
            end
  end.
Definition assign_owner_roles (tenant u : Uuid) (d : Db) : Result string Db :=
  for_fold (assign_named tenant u) d OWNER_ROLES.
Definition assign_viewer_role (tenant u : Uuid) (d : Db) : Result string Db :=
  assign_named tenant u d "viewer".

Definition clear_roles (tenant u : Uuid) (d : Db) : Result string Db :=
  match Grants.db_fail (access d) Grants.TUserRoles with
  | Some e => Err e
  | None => Ok (set_access (Grants.with_roles (Grants.roles (access d))
                  (filter (λ a, ¬ (Grants.as_tenant_id a = tenant ∧ Grants.as_user_id a = u))
                     (Grants.user_roles (access d))) (access d)) d)
  end.

Inductive ClearDefaultRoles := Clear | Keep.

Definition handle_first_user_setup (tenant u : Uuid) (threshold : nat) (c : ClearDefaultRoles) (d : Db)
    : Result string (option RegistrationSettings * Db) :=
  if (threshold <? size (Auth.users (auth d)))%nat then Ok (None, d)
  else
    d1 ← match c with Clear => clear_roles tenant u d | Keep => Ok d end;
    d2 ← assign_owner_roles tenant u d1;
    let '(reg, d3) := complete_initial_setup tenant d2 in Ok (Some reg, d3).

(** ** Claims and mapped roles *)

Definition json_field (key : string) (v : Value) : option Value :=
  match v with JObject l => json_get key l | _ => None end.
Definition navigate_json_path (v : Value) (path : string) : option Value :=
  foldl (λ cur seg, cur ≫= json_field seg) (Some v) (split_char "." path).

(** The strings at the claim path, if the provider maps any. *)
Definition claim_strings (p : Provider) (claims : Value) : option (list string) :=
  match role_claim_path p with
  | None => None
  | Some path =>
      if str_is_empty path || bool_decide (role_mapping p = ∅) then None
      else match navigate_json_path claims path with
           | Some (JArray l) => Some (omap json_str l)
           | Some (JString s) => Some [s]
           | _ => None
           end
  end.
Definition extract_mapped_roles (p : Provider) (claims : Value) : list string :=
  omap (λ c, role_mapping p !! c) (default [] (claim_strings p claims)).

(** The claims that deferred flows make up. *)
Definition reverse_lookup (m : gmap string string) (name : string) : option string :=
  fst <$> head (filter (λ kv : string * string, kv.2 = name) (map_order m)).
Definition build_fake_claims_for_sync (p : Provider) (mapped : list string) : Value :=
  match role_claim_path p with
  | None => JObject []
  | Some path => JObject [(default path (head (split_char "." path)),
                           roles_json (omap (reverse_lookup (role_mapping p)) mapped))]
  end.

Definition find_active_provider (tenant id : Uuid) (d : Db) : option Provider :=
  match providers d !! id with
  | Some p => if bool_decide (p_tenant_id p = tenant) && p_is_active p && none (p_deactivated_at p)
              then Some p else None
  | None => None
  end.

Inductive RoleSyncOutcome := Applied | SkippedLockout (attempted : list string) | NoChange.

Definition user_role_ids (tenant u : Uuid) (d : Db) : gset Uuid :=
  list_to_set (Grants.as_role_id <$>
    filter (λ a, Grants.as_tenant_id a = tenant ∧ Grants.as_user_id a = u) (Grants.user_roles (access d))).

(** The write phase, in a savepoint: the user's assignments are replaced, or nothing is. *)
Definition replace_roles (tenant u : Uuid) (ids : list Uuid) (d : Db) : Result string Db :=
  a ← Grants.replace_user_roles (access d) tenant u ids; Ok (set_access a d).

Definition sync_oidc_roles (tenant default_tenant u : Uuid) (p : Provider) (claims : Value) (d : Db)
    : Result string RoleSyncOutcome * Db :=
  match claim_strings p claims with
  | None => (Ok NoChange, d)
  | Some cs =>
      let names := omap (λ c, role_mapping p !! c) cs in
      if decide (names = []) then (Ok NoChange, d)
      else match Grants.db_fail (access d) Grants.TRoles with
      | Some e => (Err e, d)
      | None =>
          let local_roles := roles_named names d in
          if decide (local_roles = []) then (Ok NoChange, d)
          else match Grants.db_fail (access d) Grants.TUserRoles with
          | Some e => (Err e, d)
          | None =>
              let ids := canonical_ids local_roles.*1 in
              if decide ((list_to_set ids : gset Uuid) = user_role_ids tenant u d) then (Ok NoChange, d)
              else match Grants.check_lockout (access_view d) default_tenant
                           (Grants.SetUserRoles tenant u ids) with
              | Err _ => (Err "lockout guard failed", d)
              | Ok Grants.Permitted =>
                  match replace_roles tenant u local_roles.*1 d with
                  | Ok d' => (Ok Applied, d')
                  | Err e => (Err e, d)
                  end
              | Ok _ => (Ok (SkippedLockout local_roles.*2), d)
              end
          end
      end
  end.

(** ** Resolving a user *)

Inductive OidcUserResolution :=
| LinkedUser (u : Uuid)
| LinkViaOidcRequired (u existing_provider : Uuid)
| LinkViaPasswordRequired (u : Uuid)
| EmailNotVerified
| NewUser (u : Uuid)
| NotAllowed
| Deactivated.

Definition find_link (p : Uuid) (subject : string) (d : Db) : option (Uuid * Link) :=
  find_one (λ _ l, bool_decide (l_provider_id l = p) && bool_decide (l_subject l = subject)) (links d).
Definition user_by_email (mail : string) (d : Db) : option (Uuid * Auth.User) :=
  AuthApi.user_by_email mail (auth d).

Definition live_provider (d : Db) (id : Uuid) : bool :=
  match providers d !! id with Some p => p_is_active p && none (p_deactivated_at p) | None => false end.
(** The first link of the user with another provider that is still in use. *)
Definition other_provider (p u : Uuid) (d : Db) : option Uuid :=
  (λ kl : Uuid * Link, l_provider_id kl.2) <$>
    head (filter (λ kl : Uuid * Link, l_user_id kl.2 = u ∧ l_provider_id kl.2 ≠ p
                    ∧ live_provider d (l_provider_id kl.2) = true) (map_to_list (links d))).

(** Insertions with the unique keys of their tables. *)
Definition insert_user (u : Uuid) (w : Auth.User) (d : Db) : Result string Db :=
  if none (Auth.users (auth d) !! u)
     && bool_decide (map_Forall (λ _ w', Auth.email w' ≠ Auth.email w) (Auth.users (auth d)))
  then Ok (set_auth (Auth.set_users (<[u := w]> (Auth.users (auth d))) (auth d)) d)
  else Err "unique constraint violated: users".
Definition insert_link (k : Uuid) (l : Link) (d : Db) : Result string Db :=
  if none (links d !! k)
     && bool_decide (map_Forall (λ _ l', ¬ (l_provider_id l' = l_provider_id l ∧ l_subject l' = l_subject l)
                       ∧ ¬ (l_user_id l' = l_user_id l ∧ l_provider_id l' = l_provider_id l)) (links d))
  then Ok (set_links (<[k := l]> (links d)) d)
  else Err "unique constraint violated: user_oidc_links".

(** The default role, if there is one; a failure is ignored. *)
Definition assign_default_role (tenant u : Uuid) (d : Db) : Db :=
  match assign_named tenant u d "user" with Ok d' => d' | Err _ => d end.

Definition create_oidc_user (t : Instant) (tenant p : Uuid) (subject mail : string) (u k : Uuid) (d : Db)
    : Result string Db :=
  d1 ← insert_user u (Auth.mkUser mail true None) d;
  d2 ← insert_link k (mkLink u p subject t) d1;
  Ok (assign_default_role tenant u d2).

Definition resolve_oidc_user (t : Instant) (tenant p : Uuid) (subject mail : string) (auto_create : bool)
    (email_verified : option bool) (u k : Uuid) (d : Db) : Result string (OidcUserResolution * Db) :=
  if negb (bool_decide (email_verified = Some true)) then Ok (EmailNotVerified, d)
  else
    let linked := '(_, l) ← find_link p subject d; w ← Auth.users (auth d) !! l_user_id l; Some (l_user_id l, w) in
    match linked with
    | Some (v, w) => Ok (if Auth.is_active w then LinkedUser v else Deactivated, d)
    | None =>
        match user_by_email mail d with
        | Some (v, w) =>
            Ok (if negb (Auth.is_active w) then Deactivated
                else match other_provider p v d with
                     | Some q => LinkViaOidcRequired v q
                     | None => if none (Auth.password_hash w) then EmailNotVerified
                               else LinkViaPasswordRequired v
                     end, d)
        | None =>
            if negb auto_create then Ok (NotAllowed, d)
            else d' ← create_oidc_user t tenant p subject mail u k d; Ok (NewUser u, d')
        end
    end.

(** ** Pinned redirects *)

(** [str::trim_end_matches('/')] *)
Fixpoint trim_slashes (s : string) : string :=
  if all_chars (Ascii.eqb "/") s then EmptyString
  else match s with String c s' => String c (trim_slashes s') | EmptyString => EmptyString end.

Definition is_bare_host (host : string) : bool :=
  negb (contains_char "/" host || contains_char "\" host || contains_char "@" host
        || contains_char "?" host || contains_char "#" host)
  && bool_decide (split_whitespace host = [host]) && url_has_host ("https://" +:+ host).

(** [None] is a stored host that is not usable. *)
Definition canonical_origin (d : Db) : option (option string) :=
  match global_settings d !! "oauth.canonical_host" with
  | None => Some None
  | Some v =>
      match json_str v with
      | None => None
      | Some host =>
          let trimmed := trim host in
          if str_is_empty trimmed then Some None
          else if is_bare_host trimmed then Some (Some ("https://" +:+ lowercase trimmed)) else None
      end
  end.
Definition accepted_audience_hosts (d : Db) : list string :=
  match global_settings d !! "oauth.accepted_audience_hosts" with
  | Some (JArray l) => omap json_str l
  | _ => []
  end.

Record PinnedRedirect := mkPinned { pin_redirect_uri : string; pin_return_origin : option string }.
Definition CALLBACK : string := "/api/v1/auth/oidc/callback".

Definition pin (observed canonical : string) (accepted : list string) : PinnedRedirect :=
  mkPinned (canonical +:+ CALLBACK)
    (if decide (lowercase observed = lowercase canonical) then Some observed
     else if existsb (λ h, is_bare_host h && bool_decide ("https://" +:+ lowercase h = lowercase observed)) accepted
     then Some observed else Some canonical).

Definition compute_pinned_redirect (base_url : string) : Server (option PinnedRedirect) :=
  let observed := trim_slashes base_url in
  canonical ← query canonical_origin;
  match canonical with
  | None => mret None
  | Some None => mret (Some (mkPinned (observed +:+ CALLBACK) None))
  | Some (Some c) =>
      if decide (lowercase observed = lowercase c) then mret (Some (pin observed c []))
      else accepted ← query accepted_audience_hosts; mret (Some (pin observed c accepted))
  end.

End Services.
End Oidc.
