(* ===== verification/OidcRoutes.v ===== *)
(** The endpoints of OpenID Connect sign-in and of registration
    ([crates/ui/web-api/src/routes/oidc_auth.rs], [register] of [routes/auth.rs]) as handlers
    over [Oidc.Db]. Audit events carry the action, the user, the outcome and the reason code. *)

From Stdlib Require Import Ascii.
From stdpp Require Import base list gmap sets strings numbers.
From S2P Require Import Prelude RustStr Json Handlers AccessVocab AccessGrants OAuthStore TokenDenylist AuthStore AuthRoutes OidcStore.
Local Open Scope Z_scope.

Module OidcApi.
Import OAuth(none) Oidc.

(** Redirects are kept apart by what they carry; [location] is the header. *)
Inductive Response :=
| ErrorResponse (status : Z) (message : string)
| LoginError (code : string)
| ExchangeRedirect (origin : option string) (code : string)
| RegistrationRedirect (origin : option string) (code : string)
| LinkRedirect (origin : option string) (mail token : string) (existing : option Uuid)
| AuthorizeBody (url : string)
| MethodsBody (password : bool) (oidc_providers : list (Uuid * string)) (setup_required token_required : bool)
| AuthBody (status : Z) (access refresh : string).

Definition internal_error : Response := ErrorResponse 500 "Internal server error".

Record Draws := mkDraws {
  id1 : Uuid; id2 : Uuid; id3 : Uuid; id4 : Uuid; id5 : Uuid; token1 : string; token2 : string }.

Section Routes.
Context {E : Auth.AuthEnv} {O : OidcEnv} `{SerdeSelector}.
Context (cfg : AuthApi.AuthSettings) (default_tenant : Uuid).

Definition redirect_origin_prefix (o : option string) : string := default "" o.
Definition build_link_required_redirect (mail token : string) (existing : option Uuid) : string :=
  match existing with
  | Some p => "/login?link_required=true&email=" +:+ pct mail +:+ "&link_provider_id="
              +:+ Auth.uuid_text p +:+ "#link_token=" +:+ pct token
  | None => "/login?link_required=true&email=" +:+ pct mail +:+ "#link_token=" +:+ pct token
  end.
Definition location (r : Response) : option string :=
  match r with
  | LoginError code => Some ("/login?error=" +:+ code)
  | ExchangeRedirect o code => Some (redirect_origin_prefix o +:+ "/login?oidc_code=" +:+ code)
  | RegistrationRedirect o code =>
      Some (redirect_origin_prefix o +:+ "/login#registration_token_required=true&registration_code=" +:+ code)
  | LinkRedirect o mail tok ex => Some (redirect_origin_prefix o +:+ build_link_required_redirect mail tok ex)
  | _ => None
  end.

Definition audit (action : string) (u : option Uuid) (o : Auth.AuditOutcome) (reason : option string) : Server unit :=
  emit (AuthEvent (Auth.Audit action u o reason)).

(** ** Email addresses *)

Definition MAX_EMAIL_LEN : nat := 254.
(** [MaskedEmail::from_str]: trimmed and in ASCII lower case. *)
Definition parse_email (s : string) : option string :=
  let canonical := lowercase (trim s) in
  if (MAX_EMAIL_LEN <? str_len canonical)%nat then None
  else match split_once "@" canonical with
       | None => None
       | Some (local, domain) =>
           if str_is_empty local || str_is_empty domain || contains_char "@" domain then None
           else Some canonical
       end.

(** ** Public endpoints that only read *)

Definition auth_methods : Server Response :=
  ps ← query (λ d, (λ kp : Uuid * Provider, (kp.1, p_name kp.2)) <$>
                     filter (λ kp : Uuid * Provider, p_tenant_id kp.2 = default_tenant
                               ∧ p_is_active kp.2 = true ∧ p_deactivated_at kp.2 = None)
                       (map_to_list (providers d)));
  setup ← query (λ d, bool_decide (size (Auth.users (auth d)) = 0%nat));
  reg ← query registration;
  mret (MethodsBody (AuthApi.password_auth_enabled cfg) ps setup (needs_token_for_oidc reg setup)).

(** ** GET /api/v1/auth/oidc/{provider}/authorize *)

Definition is_multi_tenancy_enabled (d : Db) : bool :=
  default false (global_settings d !! "multi_tenancy.enabled" ≫= json_bool).

Definition oidc_authorize (idp : IdP) (provider_id : Uuid) (base_url : option string)
    (csrf nce verifier : string) : Server Response :=
  let fail o reason := audit "AUTH_OIDC_AUTHORIZE" None o (Some reason) in
  match base_url with
  | None => _ ← fail Auth.ValidationFailed "missing_host_header"; mret (ErrorResponse 400 "Missing Host header")
  | Some base =>
      p ← query (find_active_provider default_tenant provider_id);
      match p with
      | None => _ ← fail Auth.DeniedOutcome "provider_not_found_or_inactive";
                mret (ErrorResponse 404 "Provider not found or inactive")
      | Some p =>
          multi ← query is_multi_tenancy_enabled;
          let allow := allow_private_network_issuers p && negb multi in
          pinned ← compute_pinned_redirect base;
          match pinned with
          | None => _ ← fail Auth.Failed "canonical_settings_read_failed"; mret internal_error
          | Some pn =>
              if negb (url_ok (pin_redirect_uri pn)) then
                _ ← fail Auth.ValidationFailed "invalid_redirect_url"; mret (ErrorResponse 400 "Invalid redirect URL")
              else if negb (discover idp p (pin_redirect_uri pn) allow) then
                _ ← fail Auth.Failed "provider_unavailable"; mret (ErrorResponse 502 "OIDC provider unavailable")
              else
                ok ← flow_insert csrf provider_id verifier nce (pin_redirect_uri pn) (pin_return_origin pn);
                if negb ok then _ ← fail Auth.Failed "flow_store_insert_failed"; mret internal_error
                else
                  _ ← audit "AUTH_OIDC_AUTHORIZE" None Auth.Success None;
                  mret (AuthorizeBody (authorize_url p (pin_redirect_uri pn) csrf nce verifier
                          (filter (λ s, s ≠ "openid") (split_whitespace (p_scopes p)))))
          end
      end
  end.

(** ** GET /api/v1/auth/oidc/callback *)

Definition callback_outcome (code : string) : Auth.AuditOutcome :=
  if decide (code ∈ ["oidc_missing_params"; "oidc_invalid_redirect"]) then Auth.ValidationFailed
  else if decide (code ∈ ["oidc_denied"; "oidc_state_expired"; "oidc_provider_gone"; "oidc_no_account";
                          "oidc_email_unverified"; "account_deactivated"; "oidc_no_email"; "oidc_invalid_email"])
  then Auth.DeniedOutcome else Auth.Failed.

(** What the audit reads off the response: an exchange code or an error code in the query of
    its location, or its status. *)
Definition classify_callback (r : Response) : Auth.AuditOutcome * option string :=
  match r with
  | ExchangeRedirect _ _ => (Auth.Success, None)
  | LoginError code => (callback_outcome code, Some code)
  | ErrorResponse s _ =>
      if decide (s = 400) then (Auth.ValidationFailed, Some "bad_request")
      else if (400 <=? s) && (s <? 500) then (Auth.DeniedOutcome, Some "client_error")
      else (Auth.Failed, Some "internal_error")
  | _ => (Auth.Failed, Some "internal_error")
  end.
Definition callback_answer (r : Response) : Server Response :=
  let '(o, reason) := classify_callback r in _ ← audit "AUTH_OIDC_CALLBACK" None o reason; mret r.

(** Stage 1: the flow, consumed; its provider, redirect and return origin. *)
Definition validate_oidc_state (idp : IdP) (csrf : string)
    : Server (Result Response (Flow * Provider * bool)) :=
  fl ← take_flow csrf;
  match fl with
  | None => mret (Err (LoginError "oidc_state_expired"))
  | Some (_, f) =>
      if str_is_empty (redirect_uri f) then mret (Err (LoginError "oidc_state_expired"))
      else
        p ← query (find_active_provider default_tenant (fl_provider_id f));
        match p with
        | None => mret (Err (LoginError "oidc_provider_gone"))
        | Some p =>
            if negb (url_ok (redirect_uri f)) then mret (Err (LoginError "oidc_invalid_redirect"))
            else
              multi ← query is_multi_tenancy_enabled;
              let allow := allow_private_network_issuers p && negb multi in
              if negb (discover idp p (redirect_uri f) allow)
              then mret (Err (LoginError "oidc_discovery_failed"))
              else mret (Ok (f, p, allow))
        end
  end.
Definition flow_origin (f : Flow) : option string :=
  if str_is_empty (return_origin f) then None else Some (return_origin f).

(** Stage 2: the claims. *)
Definition extract_claims (r : Result ExchangeFailure IdClaims) : Result Response (IdClaims * string) :=
  match r with
  | Err TokenExchangeFailed => Err (LoginError "oidc_token_exchange_failed")
  | Err NoIdToken => Err (LoginError "oidc_no_id_token")
  | Err TokenValidationFailed => Err (LoginError "oidc_token_validation_failed")
  | Ok c =>
      let mail := default "" (id_email c) in
      if str_is_empty mail then Err (LoginError "oidc_no_email")
      else match parse_email mail with
           | None => Err (LoginError "oidc_invalid_email")
           | Some m => Ok (c, m)
           end
  end.

(** Stage 3, before the transaction: a new user who needs a registration token. *)
Definition check_registration_eligibility (provider_id : Uuid) (p : Provider) (c : IdClaims) (mail : string)
    (origin : option string) (x : Draws) : Server (option Response) :=
  reg ← query registration;
  if negb (bool_decide (mode reg = Invite)) || negb (auto_create_users p) then mret None
  else
    has_link ← query (λ d, negb (none (find_link provider_id (id_sub c) d)));
    if (has_link : bool) then mret None
    else
      has_user ← query (λ d, negb (none (user_by_email mail d)));
      if (has_user : bool) then mret None
      else
        first ← query (λ d, bool_decide (size (Auth.users (auth d)) = 0%nat));
        if negb (needs_token_for_oidc reg first) then mret None
        else
          t ← now;
          ok ← exec (insert_registration (id5 x)
                 (mkPendingRegistration (Auth.hash_token (token2 x)) provider_id (id_sub c) mail
                    (roles_json (extract_mapped_roles p (additional_claims c))) t (t + secs TTL_SECONDS)));
          mret (Some (if (ok : bool) then RegistrationRedirect origin (token2 x)
                      else LoginError "oidc_internal_error")).

(** What the transaction of the callback decides. *)
Inductive CallbackResult :=
| Login (u : Uuid) (created : bool) (reg : option RegistrationSettings) (sync : RoleSyncOutcome)
| AskLink (u : Uuid) (existing : option Uuid)
| Refuse (code : string).

(** A role sync that fails is logged and the login goes on. *)
Definition sync_or_skip (u : Uuid) (p : Provider) (claims : Value) (d : Db) : RoleSyncOutcome * Db :=
  match sync_oidc_roles default_tenant default_tenant u p claims d with
  | (Ok o, d') => (o, d')
  | (Err _, d') => (NoChange, d')
  end.

Definition callback_txn (t : Instant) (provider_id : Uuid) (p : Provider) (c : IdClaims) (mail : string)
    (u k : Uuid) (d : Db) : CallbackResult * Db :=
  match resolve_oidc_user t default_tenant provider_id (id_sub c) mail (auto_create_users p)
          (id_email_verified c) u k d with
  | Err _ => (Refuse "oidc_internal_error", d)
  | Ok (LinkedUser v, d1) =>
      match Auth.users (auth d1) !! v with
      | None => (Refuse "oidc_internal_error", d)
      | Some w =>
          if negb (Auth.is_active w) then (Refuse "account_deactivated", d)
          else let '(o, d2) := sync_or_skip v p (additional_claims c) d1 in (Login v false None o, d2)
      end
  | Ok (NewUser v, d1) =>
      match handle_first_user_setup default_tenant v 1 Clear d1 with
      | Err _ => (Refuse "oidc_internal_error", d)
      | Ok (reg, d2) =>
          let '(o, d3) := sync_or_skip v p (additional_claims c) d2 in (Login v true reg o, d3)
      end
  | Ok (LinkViaPasswordRequired v, _) => (AskLink v None, d)
  | Ok (LinkViaOidcRequired v q, _) => (AskLink v (Some q), d)
  | Ok (NotAllowed, _) => (Refuse "oidc_no_account", d)
  | Ok (EmailNotVerified, _) => (Refuse "oidc_email_unverified", d)
  | Ok (Deactivated, _) => (Refuse "account_deactivated", d)
  end.

Definition handle_role_sync_outcome (u : Uuid) (provider_name : string) (o : RoleSyncOutcome) : Server unit :=
  match o with
  | Applied => emit (AccessInvalidated u)
  | SkippedLockout attempted => emit (SyncLockoutPrevented u provider_name attempted)
  | NoChange => mret tt
  end.

Definition publish_registration (reg : option RegistrationSettings) : Server unit :=
  match reg with
  | Some r => exec (λ d, (tt, set_registration r d))
  | None => mret tt
  end.

Definition create_oidc_exchange_and_redirect (u provider_id : Uuid) (origin : option string) (x : Draws)
    : Server Response :=
  t ← now;
  ok ← exec (insert_exchange (id3 x)
         (mkExchange (Auth.hash_token (token1 x)) u provider_id t (t + secs EXCHANGE_TTL_SECONDS)));
  if (ok : bool) then mret (ExchangeRedirect origin (token1 x))
  else _ ← audit "AUTH_OIDC_EXCHANGE" None Auth.Failed (Some "exchange_store_insert_failed");
       mret (LoginError "oidc_session_failed").

Definition handle_link (provider_id : Uuid) (p : Provider) (c : IdClaims) (mail : string) (u : Uuid)
    (existing : option Uuid) (origin : option string) (x : Draws) : Server Response :=
  t ← now;
  ok ← exec (insert_link_ticket (id4 x)
         (mkPendingLink (Auth.hash_token (token1 x)) provider_id (id_sub c) mail u
            (roles_json (extract_mapped_roles p (additional_claims c))) existing t (t + secs TTL_SECONDS)));
  mret (if (ok : bool) then LinkRedirect origin mail (token1 x) existing else LoginError "oidc_internal_error").

(** Stage 3. *)
Definition resolve_or_create_oidc_user (provider_id : Uuid) (p : Provider) (c : IdClaims) (mail : string)
    (origin : option string) (x : Draws) : Server Response :=
  early ← check_registration_eligibility provider_id p c mail origin x;
  match early with
  | Some r => mret r
  | None =>
      t ← now;
      res ← exec (callback_txn t provider_id p c mail (id1 x) (id2 x));
      match res with
      | Refuse code => mret (LoginError code)
      | AskLink u existing => handle_link provider_id p c mail u existing origin x
      | Login u created reg sync =>
          _ ← handle_role_sync_outcome u (p_name p) sync;
          _ ← publish_registration reg;
          _ ← (if (created : bool) then audit "USER_CREATE" (Some u) Auth.Success None else mret tt);
          create_oidc_exchange_and_redirect u provider_id origin x
      end
  end.

Definition oidc_callback (idp : IdP) (error code csrf : option string) (x : Draws) : Server Response :=
  match error with
  | Some _ => callback_answer (LoginError "oidc_denied")
  | None =>
      match code, csrf with
      | Some code, Some csrf =>
          v ← validate_oidc_state idp csrf;
          match v with
          | Err r => callback_answer r
          | Ok (f, p, allow) =>
              match extract_claims (exchange_code idp p code (pkce_verifier f) (nonce f) (redirect_uri f) allow) with
              | Err r => callback_answer r
              | Ok (c, mail) =>
                  r ← resolve_or_create_oidc_user (fl_provider_id f) p c mail (flow_origin f) x;
                  callback_answer r
              end
          end
      | _, _ => callback_answer (LoginError "oidc_missing_params")
      end
  end.

(** ** Sessions *)

Definition mint_oidc_auth_response (u provider_id : Uuid) (x : Draws) : Server Response :=
  user ← query (λ d, Auth.users (auth d) !! u);
  match user with
  | None => mret internal_error
  | Some w =>
      if negb (Auth.is_active w) then mret (ErrorResponse 403 "User is deactivated")
      else
        r ← credential (Auth.create_refresh_token (id4 x) (token2 x) u (Auth.Oidc provider_id) None None);
        match r with
        | Err _ => mret internal_error
        | Ok refresh =>
            t ← now;
            mret match Auth.create_access_token t (id5 x) u "oidc" (Some provider_id) None with
                 | Err _ => internal_error
                 | Ok access => AuthBody 200 access refresh
                 end
        end
  end.

Definition minted (r : Response) : Auth.AuditOutcome * option string :=
  match r with
  | AuthBody _ _ _ => (Auth.Success, None)
  | _ => (Auth.Failed, Some "mint_auth_response_failed")
  end.

Definition oidc_exchange (code : string) (x : Draws) : Server Response :=
  if is_blank code then
    _ ← audit "AUTH_OIDC_EXCHANGE" None Auth.ValidationFailed (Some "invalid_request");
    mret (ErrorResponse 400 "code must not be empty")
  else
    e ← take_exchange code;
    match e with
    | None => _ ← audit "AUTH_OIDC_EXCHANGE" None Auth.ValidationFailed (Some "invalid_or_expired_exchange_code");
              mret (ErrorResponse 400 "Invalid or expired exchange code")
    | Some (_, e) =>
        r ← mint_oidc_auth_response (ex_user_id e) (ex_provider_id e) x;
        let '(o, reason) := minted r in
        _ ← audit "AUTH_OIDC_EXCHANGE" None o reason;
        mret r
    end.

(** ** POST /api/v1/auth/oidc/complete-registration *)

Definition registration_error (e : RegistrationValidationError) : Response :=
  match e with
  | RegClosed => ErrorResponse 403 "Registration is currently closed."
  | TokenRequired => ErrorResponse 403 "A registration token is required."
  | NoTokenConfigured => ErrorResponse 403 "No registration token is configured."
  | InvalidToken => ErrorResponse 403 "Invalid registration token."
  | VerificationFailed => ErrorResponse 500 "An internal error occurred."
  end.

(** A failed default role is logged and ignored. *)
Definition viewer_or_skip (u : Uuid) (d : Db) : Db :=
  match assign_viewer_role default_tenant u d with Ok d' => d' | Err _ => d end.

(** The deferred role sync, if there are mapped roles and the provider is still in use. *)
Definition deferred_sync (u provider_id : Uuid) (mapped : list string) (d : Db)
    : option (string * RoleSyncOutcome) * Db :=
  if decide (mapped = []) then (None, d)
  else match find_active_provider default_tenant provider_id d with
       | None => (None, d)
       | Some p => let '(o, d') := sync_or_skip u p (build_fake_claims_for_sync p mapped) d in
                   (Some (p_name p, o), d')
       end.

Inductive CreateResult :=
| Created (reg : option RegistrationSettings) (sync : option (string * RoleSyncOutcome))
| NotCreated (outcome : Auth.AuditOutcome) (reason : string) (r : Response)
| SetupFailed.

Definition complete_registration_txn (t : Instant) (r : PendingRegistration) (mapped : list string)
    (mail : string) (u k : Uuid) (d : Db) : CreateResult * Db :=
  if negb (none (user_by_email mail d))
  then (NotCreated Auth.DeniedOutcome "email_already_exists"
          (ErrorResponse 409 "A user with this email already exists"), d)
  else match insert_user u (Auth.mkUser mail true None) d with
  | Err _ => (NotCreated Auth.Failed "user_insert_failed" internal_error, d)
  | Ok d1 =>
      match insert_link k (mkLink u (pr_provider_id r) (pr_subject r) t) d1 with
      | Err _ => (NotCreated Auth.Failed "oidc_link_insert_failed" internal_error, d)
      | Ok d2 =>
          match handle_first_user_setup default_tenant u 1 Keep d2 with
          | Err _ => (SetupFailed, d)
          | Ok (reg, d3) =>
              let d4 := if none reg then viewer_or_skip u d3 else d3 in
              let '(s, d5) := deferred_sync u (pr_provider_id r) mapped d4 in
              (Created reg s, d5)
          end
      end
  end.

Definition oidc_complete_registration (reg_token code : string) (x : Draws) : Server Response :=
  reg ← query registration;
  match validate_registration reg (Some reg_token) with
  | Err e => _ ← audit "USER_CREATE" None Auth.DeniedOutcome (Some "registration_not_allowed");
             mret (registration_error e)
  | Ok _ =>
      pending ← take_registration code;
      match pending with
      | None =>
          _ ← audit "USER_CREATE" None Auth.ValidationFailed (Some "invalid_or_expired_registration_code");
          mret (ErrorResponse 400 "Invalid or expired registration code")
      | Some (_, r) =>
          match roles_of_json (pr_mapped_roles r) with
          | None => _ ← audit "USER_CREATE" None Auth.Failed (Some "pending_registration_load_failed");
                    mret internal_error
          | Some mapped =>
              match parse_email (pr_email r) with
              | None => _ ← audit "USER_CREATE" None Auth.Failed (Some "pending_email_parse_failed");
                        mret internal_error
              | Some mail =>
                  t ← now;
                  res ← exec (complete_registration_txn t r mapped mail (id1 x) (id2 x));
                  match res with
                  | SetupFailed => mret internal_error
                  | NotCreated o reason resp => _ ← audit "USER_CREATE" None o (Some reason); mret resp
                  | Created reg' sync =>
                      _ ← publish_registration reg';
                      _ ← match sync with
                          | Some (n, o) => handle_role_sync_outcome (id1 x) n o
                          | None => mret tt
                          end;
                      _ ← audit "USER_CREATE" (Some (id1 x)) Auth.Success None;
                      mint_oidc_auth_response (id1 x) (pr_provider_id r) x
                  end
              end
          end
      end
  end.

(** ** POST /api/v1/auth/oidc/link *)

(** Whether the caller owns the account: a refusal with its reason, or a verdict. *)
Definition verify_ownership (u : Uuid) (password bearer : option string)
    : Server (Result (string * Response) (bool * string)) :=
  match password with
  | Some pw =>
      match Auth.validate_password_length pw with
      | Some m => mret (Err ("password_length_invalid", ErrorResponse 400 m))
      | None =>
          user ← query (λ d, Auth.users (auth d) !! u);
          mret match user with
               | None => Err ("ownership_user_not_found", ErrorResponse 401 "User not found")
               | Some w =>
                   match Auth.password_hash w with
                   | None => Err ("ownership_user_has_no_password", ErrorResponse 401 "User has no password")
                   | Some h => Ok (match Auth.argon2_verify pw h with Ok true => true | _ => false end,
                                   "ownership_verification_failed")
                   end
               end
      end
  | None =>
      match bearer with
      | None => mret (Ok (false, "missing_bearer_token"))
      | Some tok =>
          t ← now;
          mret match Auth.decode_jwt (Auth.unix_timestamp t) tok with
               | Err _ => Ok (false, "invalid_bearer_token")
               | Ok c => match Auth.parse_uuid (Auth.sub c) with
                         | None => Ok (false, "invalid_bearer_subject")
                         | Some v => if decide (v = u) then Ok (true, "") else Ok (false, "user_mismatch")
                         end
               end
      end
  end.

Definition link_audit_outcome (reason : string) : Auth.AuditOutcome :=
  if decide (reason = "password_length_invalid") then Auth.ValidationFailed else Auth.DeniedOutcome.

Definition link_stmt (k : Uuid) (l : Link) (d : Db) : bool * Db :=
  match insert_link k l d with Ok d' => (true, d') | Err _ => (false, d) end.

Definition link_sync (r : PendingLink) (mapped : list string) : Server unit :=
  if decide (mapped = []) then mret tt
  else
    provider ← query (find_active_provider default_tenant (pl_provider_id r));
    match provider with
    | None => mret tt
    | Some p =>
        o ← exec (sync_or_skip (pl_user_id r) p (build_fake_claims_for_sync p mapped));
        handle_role_sync_outcome (pl_user_id r) (p_name p) o
    end.

Definition oidc_link (token : string) (password bearer : option string) (x : Draws) : Server Response :=
  let log o reason := audit "AUTH_OIDC_LINK" None o reason in
  pending ← take_link token;
  match pending with
  | None => _ ← log Auth.ValidationFailed (Some "invalid_or_expired_link_token");
            mret (ErrorResponse 400 "Link token not found or expired")
  | Some (_, r) =>
      match roles_of_json (pl_mapped_roles r) with
      | None => _ ← log Auth.Failed (Some "pending_link_load_failed"); mret internal_error
      | Some mapped =>
          v ← verify_ownership (pl_user_id r) password bearer;
          match v with
          | Err (reason, resp) => _ ← log (link_audit_outcome reason) (Some reason); mret resp
          | Ok (false, reason) => _ ← log Auth.DeniedOutcome (Some reason);
                                  mret (ErrorResponse 401 "Verification failed")
          | Ok (true, _) =>
              t ← now;
              linked ← exec (link_stmt (id1 x) (mkLink (pl_user_id r) (pl_provider_id r) (pl_subject r) t));
              if negb linked then _ ← log Auth.Failed (Some "oidc_link_insert_failed"); mret internal_error
              else
                _ ← link_sync r mapped;
                resp ← mint_oidc_auth_response (pl_user_id r) (pl_provider_id r) x;
                let '(o, reason) := minted resp in
                _ ← log o reason;
                mret resp
          end
      end
  end.

(** ** POST /api/v1/auth/register *)

Definition register_txn (mail hash : string) (u : Uuid) (d : Db) : CreateResult * Db :=
  if negb (none (user_by_email mail d))
  then (NotCreated Auth.DeniedOutcome "email_already_exists" (ErrorResponse 409 "Email already exists"), d)
  else match insert_user u (Auth.mkUser mail true (Some hash)) d with
  | Err _ => (NotCreated Auth.Failed "user_insert_failed" internal_error, d)
  | Ok d1 =>
      match handle_first_user_setup default_tenant u 1 Keep d1 with
      | Err _ => (SetupFailed, d)
      | Ok (reg, d2) => (Created reg None, if none reg then viewer_or_skip u d2 else d2)
      end
  end.

Definition register (mail pw : string) (token : option string) (x : Draws) : Server Response :=
  let log o reason := audit "USER_CREATE" None o (Some reason) in
  if negb (AuthApi.password_auth_enabled cfg) then
    _ ← log Auth.DeniedOutcome "password_auth_disabled";
    mret (ErrorResponse 403 "Password authentication is disabled")
  else match Auth.validate_password_length pw with
  | Some m => _ ← log Auth.ValidationFailed "invalid_password_length"; mret (ErrorResponse 400 m)
  | None =>
      reg ← query registration;
      match validate_registration reg token with
      | Err e => _ ← log Auth.DeniedOutcome "registration_not_allowed"; mret (registration_error e)
      | Ok _ =>
          match Auth.argon2_hash pw with
          | Err _ => _ ← log Auth.Failed "password_hash_failed"; mret internal_error
          | Ok h =>
              res ← exec (register_txn mail h (id1 x));
              match res with
              | SetupFailed => mret internal_error
              | NotCreated o reason resp => _ ← log o reason; mret resp
              | Created reg' _ =>
                  _ ← audit "USER_CREATE" (Some (id1 x)) Auth.Success None;
                  _ ← publish_registration reg';
                  r ← credential (Auth.create_refresh_token (id4 x) (token2 x) (id1 x) Auth.Password None None);
                  match r with
                  | Err _ => mret internal_error
                  | Ok refresh =>
                      t ← now;
                      mret match Auth.create_access_token t (id5 x) (id1 x) "password" None None with
                           | Err _ => internal_error
                           | Ok access => AuthBody 201 access refresh
                           end
                  end
              end
          end
      end
  end.

End Routes.
End OidcApi.
