(* ===== verification/OidcTheorems.v ===== *)
(** What holds of OpenID Connect sign-in while requests interleave: a login rests on a flow
    this controller started and on a verified identity, an identity is linked to an existing
    account only by its owner, and a one-time code is redeemed once. *)

From Stdlib Require Import Ascii.
From stdpp Require Import base list gmap sets strings numbers relations.
From S2P Require Import Prelude RustStr Json Handlers AccessVocab AccessGrants OAuthStore OAuthTheorems TokenDenylist AuthStore AuthRoutes OidcStore OidcRoutes.
Local Open Scope Z_scope.

Module OidcFacts.
Import Oidc OidcApi.
Import OAuth(find_one, none).
Import OAuthFacts(find_one_Some, find_one_None, none_true, none_false).

Section Facts.
Context {E : Auth.AuthEnv} {O : OidcEnv} `{SerdeSelector}.
Context (default_tenant : Uuid).
(** Hashes of secrets and ids of rows that already exist, which the generators do not draw
    again. *)
Context (X : gset string) (Y : gset Uuid).

(** ** The steps of the database *)

(** Every statement of the endpoints; the credential store, access control, the settings and
    the providers change at will. *)
Inductive step : Db → Db → Prop :=
| step_auth a d : step d (set_auth a d)
| step_access a d : step d (set_access a d)
| step_settings m d : step d (set_settings m d)
| step_registration r d : step d (set_registration r d)
| step_providers ps d : step d (set_providers ps d)
| step_unlink (P : Uuid * Link → Prop) `{∀ x, Decision (P x)} d : step d (set_links (filter P (links d)) d)
| step_insert_flow st f d : step d (insert_flow st f d).2
| step_delete_flow t st d : step d (delete_flow t st d).2
| step_purge p d : step d (purge_for_provider p d).2
| step_insert_link_ticket k r d : pl_token_hash r ∉ X → k ∉ Y → step d (insert_link_ticket k r d).2
| step_delete_link_ticket t k d : step d (delete_link_ticket t k d).2
| step_insert_exchange k r d : ex_code_hash r ∉ X → k ∉ Y → step d (insert_exchange k r d).2
| step_delete_exchange t k d : step d (delete_exchange t k d).2
| step_insert_registration k r d : pr_code_hash r ∉ X → k ∉ Y → step d (insert_registration k r d).2
| step_delete_registration t k d : step d (delete_registration t k d).2
| step_cleanup t d : step d (cleanup_tickets t d).2
| step_callback t i p c mail u k d : k ∉ Y → step d (callback_txn default_tenant t i p c mail u k d).2
| step_complete t r ms mail u k d : k ∉ Y → step d (complete_registration_txn default_tenant t r ms mail u k d).2
| step_register mail h u d : step d (register_txn default_tenant mail h u d).2
| step_link k l d : k ∉ Y → step d (link_stmt k l d).2
| step_sync u p v d : step d (sync_or_skip default_tenant u p v d).2.

(** ** What the transactions touch *)

(** The tables of tickets. *)
Definition tickets (d : Db) :=
  (flows d, pending_links d, exchanges d, registrations d).

Lemma assign_role_frame t u r d d' :
  assign_role t u r d = Ok d' → ∃ a, d' = set_access a d.
Proof. unfold assign_role. case_match; [done|]. intros; inv_ok. by eexists. Qed.

Lemma assign_named_frame t u n d d' :
  assign_named t u d n = Ok d' → ∃ a, d' = set_access a d.
Proof. unfold assign_named. repeat (case_match; try done). apply assign_role_frame. Qed.

Lemma assign_owner_frame t u d d' :
  assign_owner_roles t u d = Ok d' → ∃ a, d' = set_access a d.
Proof.
  apply (for_fold_inv (λ _ d', ∃ a, d' = set_access a d)).
  - exists (access d). by destruct d.
  - intros pre n s1 s2 [a ->] [b ->]%assign_named_frame. by exists b.
Qed.

Lemma sync_frame u p v d o d' :
  sync_or_skip default_tenant u p v d = (o, d') → ∃ a, d' = set_access a d.
Proof.
  assert (∃ a, d = set_access a d) as Hd by (exists (access d); by destruct d).
  unfold sync_or_skip, sync_oidc_roles, replace_roles. intros Hs.
  repeat (case_match; simplify_eq/=; try done); inv_ok; by eexists.
Qed.

(** Everything but the users, the assignments, the settings and the links. *)
Definition rest (d : Db) :=
  (role_names d, providers d, flows d, pending_links d, exchanges d, registrations d, global_settings d, registration d).

Lemma first_user_frame u n c d r d' :
  handle_first_user_setup default_tenant u n c d = Ok (r, d') →
  rest d' = rest d ∧ links d' = links d ∧ auth d' = auth d.
Proof.
  unfold handle_first_user_setup, clear_roles. destruct (_ <? _)%nat; intros Hf; [by simplify_eq|].
  apply bind_ok in Hf as (d1 & H1 & Hf). apply bind_ok in Hf as (d2 & [a ->]%assign_owner_frame & Hf).
  assert (∃ b, d1 = set_access b d) as [b ->].
  { destruct c; [|injection H1 as <-; exists (access d); by destruct d]. destruct (Grants.db_fail _ _); inv_ok. by eexists. }
  by simplify_eq/=.
Qed.

Lemma insert_user_ok u w d d' :
  insert_user u w d = Ok d' →
  Auth.users (auth d) !! u = None ∧ (∀ k w', Auth.users (auth d) !! k = Some w' → Auth.email w' ≠ Auth.email w) ∧
  d' = set_auth (Auth.set_users (<[u := w]> (Auth.users (auth d))) (auth d)) d.
Proof.
  unfold insert_user. intros Hi. destruct (none _) eqn:Hn; simpl in Hi; [|discriminate Hi].
  case_bool_decide as Hf; [|discriminate Hi]. apply none_true in Hn. inv_ok. split_and!; [done| |done]. intros k w' Hk. by apply (Hf k).
Qed.

Lemma insert_link_ok k l d d' :
  insert_link k l d = Ok d' →
  links d !! k = None ∧ d' = set_links (<[k := l]> (links d)) d ∧
  ∀ j l', links d !! j = Some l' → ¬ (l_provider_id l' = l_provider_id l ∧ l_subject l' = l_subject l).
Proof.
  unfold insert_link. intros Hi. destruct (none _) eqn:Hn; simpl in Hi; [|discriminate Hi].
  case_bool_decide as Hf; [|discriminate Hi]. apply none_true in Hn. inv_ok. split_and!; [done|done|]. intros j l' Hj. by apply (Hf j).
Qed.

(** A fresh account: the id and the address were not taken, nor the identity. *)
Definition fresh_account (i : Uuid) (subject mail : string) (u k : Uuid) (d : Db) : Prop :=
  Auth.users (auth d) !! u = None ∧ (∀ v w, Auth.users (auth d) !! v = Some w → Auth.email w ≠ mail) ∧
  links d !! k = None ∧
  ∀ j l, links d !! j = Some l → ¬ (l_provider_id l = i ∧ l_subject l = subject).
(** An active account the identity is linked to. *)
Definition linked_account (i : Uuid) (subject : string) (v : Uuid) (d : Db) : Prop :=
  ∃ k l w, links d !! k = Some l ∧ l_provider_id l = i ∧ l_subject l = subject ∧ l_user_id l = v ∧
    Auth.users (auth d) !! v = Some w ∧ Auth.is_active w = true.

Lemma create_oidc_user_ok t i subject mail u k d d' :
  create_oidc_user t default_tenant i subject mail u k d = Ok d' →
  fresh_account i subject mail u k d ∧ rest d' = rest d ∧
  auth d' = Auth.set_users (<[u := Auth.mkUser mail true None]> (Auth.users (auth d))) (auth d) ∧
  links d' = <[k := mkLink u i subject t]> (links d).
Proof.
  unfold create_oidc_user. intros Hc. apply bind_ok in Hc as (d1 & (Hu & Hm & ->)%insert_user_ok & Hc).
  apply bind_ok in Hc as (d2 & (Hk & -> & Hl)%insert_link_ok & Hc). cbn [links set_auth] in *.
  injection Hc as <-. split; [by split_and!|]. unfold assign_default_role.
  destruct (assign_named _ _ _ _) as [d'|e] eqn:Ha; [apply assign_named_frame in Ha as [a ->]|]; done.
Qed.

(** The transaction of the callback logs in the active account the identity is linked to, or
    the account it has just created. *)
Lemma callback_cases t i p c mail u k d r d' :
  callback_txn default_tenant t i p c mail u k d = (r, d') →
  rest d' = rest d ∧
  match r with
  | Login v created reg o =>
      id_email_verified c = Some true ∧
      if created : bool
      then v = u ∧ auto_create_users p = true ∧ fresh_account i (id_sub c) mail u k d ∧
           Auth.users (auth d') = <[u := Auth.mkUser mail true None]> (Auth.users (auth d)) ∧
           links d' = <[k := mkLink u i (id_sub c) t]> (links d)
      else linked_account i (id_sub c) v d ∧ auth d' = auth d ∧ links d' = links d
  | _ => d' = d
  end.
Proof.
  unfold callback_txn, resolve_oidc_user.
  case_bool_decide as Hv; cbn [negb]; [|by intros [= <- <-]].
  set (linked := mbind _ _). destruct linked as [[v w]|] eqn:Hl.
  - unfold linked in Hl. destruct (find_link i (id_sub c) d) as [[j l]|] eqn:Hf; [|done]. simpl in Hl.
    apply find_one_Some in Hf as [Hj [Hi%bool_decide_eq_true Hsub%bool_decide_eq_true]%andb_prop].
    destruct (Auth.users (auth d) !! l_user_id l) as [w'|] eqn:Hw; [|done]. injection Hl as <- <-.
    destruct (Auth.is_active w') eqn:Hact; [|by intros [= <- <-]]. rewrite Hw, Hact. cbn [negb].
    destruct (sync_or_skip _ _ _ _ _) as [o d2] eqn:Hs. apply sync_frame in Hs as [a ->].
    intros [= <- <-]. split; [done|]. split; [done|]. split; [|done]. by exists j, l, w'.
  - destruct (user_by_email mail d) as [[v w]|].
    { destruct (Auth.is_active w); [|by intros [= <- <-]]. cbn [negb].
      destruct (other_provider i v d); [by intros [= <- <-]|].
      destruct (none _); by intros [= <- <-]. }
    destruct (auto_create_users p); [|by intros [= <- <-]]. cbn [negb].
    destruct (create_oidc_user _ _ _ _ _ _ _ _) as [d1|e] eqn:Hc; [|by intros [= <- <-]]. simpl.
    apply create_oidc_user_ok in Hc as (Hfresh & Hrest & Hauth & Hlinks).
    destruct (handle_first_user_setup _ _ _ _ _) as [[reg d2]|e] eqn:Hh; [|by intros [= <- <-]].
    apply first_user_frame in Hh as (Hr2 & Hl2 & Ha2).
    destruct (sync_or_skip _ _ _ _ _) as [o d3] eqn:Hs. apply sync_frame in Hs as [a ->].
    intros [= <- <-]. split; [transitivity (rest d1); [by rewrite <-Hr2|done]|].
    split; [done|]. split_and!; [done|done|done| |]; cbn [links set_access auth].
    + by rewrite Ha2, Hauth.
    + by rewrite Hl2.
Qed.

Lemma viewer_frame u d : ∃ a, viewer_or_skip default_tenant u d = set_access a d.
Proof.
  unfold viewer_or_skip. destruct (assign_viewer_role _ _ _) as [d'|e] eqn:Ha.
  - by apply assign_named_frame in Ha.
  - exists (access d). by destruct d.
Qed.

Lemma deferred_frame u i ms d r d' :
  deferred_sync default_tenant u i ms d = (r, d') → ∃ a, d' = set_access a d.
Proof.
  assert (∃ a, d = set_access a d) as Hd by (exists (access d); by destruct d).
  unfold deferred_sync. case_decide; [by intros [= <- <-]|].
  destruct (find_active_provider _ _ _); [|by intros [= <- <-]].
  destruct (sync_or_skip _ _ _ _ _) as [o d1] eqn:Hs. apply sync_frame in Hs. by intros [= <- <-].
Qed.

Lemma complete_cases t r ms mail u k d res d' :
  complete_registration_txn default_tenant t r ms mail u k d = (res, d') →
  rest d' = rest d ∧
  match res with
  | Created reg o =>
      fresh_account (pr_provider_id r) (pr_subject r) mail u k d ∧
      Auth.users (auth d') = <[u := Auth.mkUser mail true None]> (Auth.users (auth d)) ∧
      links d' = <[k := mkLink u (pr_provider_id r) (pr_subject r) t]> (links d)
  | _ => d' = d
  end.
Proof.
  unfold complete_registration_txn. destruct (negb _); [by intros [= <- <-]|].
  destruct (insert_user _ _ _) as [d1|e] eqn:Hu; [|by intros [= <- <-]]. apply insert_user_ok in Hu as (Hu & Hm & ->).
  destruct (insert_link _ _ _) as [d2|e] eqn:Hl; [|by intros [= <- <-]]. apply insert_link_ok in Hl as (Hk & -> & Hl).
  destruct (handle_first_user_setup _ _ _ _ _) as [[reg d3]|e] eqn:Hh; [|by intros [= <- <-]].
  apply first_user_frame in Hh as (Hr & Hl3 & Ha3).
  set (d4 := if none reg then viewer_or_skip default_tenant u d3 else d3).
  assert (∃ a, d4 = set_access a d3) as [a ->].
  { unfold d4. destruct (none reg); [apply viewer_frame|exists (access d3); by destruct d3]. }
  destruct (deferred_sync _ _ _ _ _) as [o d5] eqn:Hs. apply deferred_frame in Hs as [b ->].
  intros [= <- <-]. split; [exact Hr|]. split; [by split_and!|]. cbn [auth links set_access].
  by rewrite Ha3, Hl3.
Qed.

Lemma register_cases mail h u d res d' :
  register_txn default_tenant mail h u d = (res, d') →
  rest d' = rest d ∧ links d' = links d ∧
  match res with
  | Created reg o =>
      Auth.users (auth d) !! u = None ∧ (∀ v w, Auth.users (auth d) !! v = Some w → Auth.email w ≠ mail) ∧
      Auth.users (auth d') = <[u := Auth.mkUser mail true (Some h)]> (Auth.users (auth d))
  | _ => d' = d
  end.
Proof.
  unfold register_txn. destruct (negb _); [by intros [= <- <-]|].
  destruct (insert_user _ _ _) as [d1|e] eqn:Hu; [|by intros [= <- <-]]. apply insert_user_ok in Hu as (Hu & Hm & ->).
  destruct (handle_first_user_setup _ _ _ _ _) as [[reg d3]|e] eqn:Hh; [|by intros [= <- <-]].
  apply first_user_frame in Hh as (Hr & Hl3 & Ha3). intros [= <- <-].
  set (d4 := if none reg then viewer_or_skip default_tenant u d3 else d3).
  assert (∃ a, d4 = set_access a d3) as [a ->].
  { unfold d4. destruct (none reg); [apply viewer_frame|exists (access d3); by destruct d3]. }
  split; [exact Hr|]. cbn [auth links set_access]. rewrite Ha3, Hl3. by split_and!.
Qed.

(** ** One-time exchange codes *)

Lemma delete_unexpired_cases `{Countable K} {A} (ex : A → Instant) t k (m : gmap K A) b m' :
  delete_unexpired ex t k m = (b, m') →
  if b then m' = delete k m ∧ ∃ r, m !! k = Some r ∧ t < ex r else m' = m.
Proof.
  unfold delete_unexpired. destruct (m !! k) as [r|] eqn:Hk; [|by intros [= <- <-]].
  destruct (Z.ltb_spec t (ex r)); intros [= <- <-]; [|done]. split; [done|by exists r].
Qed.

(** A row after a step was there before, or is new. *)
Lemma step_exchanges d d' k r :
  step d d' → exchanges d' !! k = Some r → exchanges d !! k = Some r ∨ ex_code_hash r ∉ X ∧ k ∉ Y.
Proof.
  intros Hs Hk. destruct Hs; cbn [exchanges set_auth set_access set_settings set_registration set_providers set_links snd] in Hk; auto.
  - unfold insert_flow in Hk. destruct (none _); auto.
  - unfold delete_flow in Hk. destruct (delete_unexpired _ _ _ _); auto.
  - unfold insert_link_ticket in Hk. destruct (_ && _); auto.
  - unfold delete_link_ticket in Hk. destruct (delete_unexpired _ _ _ _); auto.
  - unfold insert_exchange in Hk. destruct (_ && _); [|by left]. cbn [snd exchanges set_exchanges] in Hk.
    apply lookup_insert_Some in Hk as [[-> <-]|[_ Hk]]; auto.
  - unfold delete_exchange in Hk. destruct (delete_unexpired _ _ _ _) as [b m] eqn:Hd.
    apply delete_unexpired_cases in Hd. cbn [snd exchanges set_exchanges] in Hk. left.
    destruct b; [|by subst]. destruct Hd as [-> _]. by apply lookup_delete_Some in Hk as [_ Hk].
  - unfold insert_registration in Hk. destruct (_ && _); auto.
  - unfold delete_registration in Hk. destruct (delete_unexpired _ _ _ _); auto.
  - cbn [exchanges set_flows set_pending_links set_exchanges] in Hk. apply map_lookup_filter_Some in Hk as [Hk _]. auto.
  - destruct (callback_txn _ _ _ _ _ _ _ _ _) as [o d1] eqn:Hc. apply callback_cases in Hc as [Hr _].
    unfold rest in Hr. simplify_eq/=. left. congruence.
  - destruct (complete_registration_txn _ _ _ _ _ _ _ _) as [o d1] eqn:Hc. apply complete_cases in Hc as [Hr _].
    unfold rest in Hr. simplify_eq/=. left. congruence.
  - destruct (register_txn _ _ _ _ _) as [o d1] eqn:Hc. apply register_cases in Hc as [Hr _].
    unfold rest in Hr. simplify_eq/=. left. congruence.
  - unfold link_stmt in Hk. destruct (insert_link _ _ _) as [d1|] eqn:Hi; [|auto].
    apply insert_link_ok in Hi as (_ & -> & _). auto.
  - destruct (sync_or_skip _ _ _ _ _) as [o d1] eqn:Hc. apply sync_frame in Hc as [a ->]. auto.
Qed.

Lemma steps_exchanges d d' k r :
  rtc step d d' → exchanges d' !! k = Some r → exchanges d !! k = Some r ∨ ex_code_hash r ∉ X ∧ k ∉ Y.
Proof.
  induction 1 as [|d1 d2 d3 Hs _ IH]; [by left|]. intros [Hk|Hn]%IH; [|by right]. by eapply step_exchanges.
Qed.

(** ** Links *)

Lemma step_links d d' k l :
  step d d' → links d' !! k = Some l → links d !! k = Some l ∨ k ∉ Y.
Proof.
  intros Hs Hk. destruct Hs; cbn [links set_auth set_access set_settings set_registration set_providers snd] in Hk; auto.
  - cbn [links set_links] in Hk. apply map_lookup_filter_Some in Hk as [Hk _]. auto.
  - unfold insert_flow in Hk. destruct (none _); auto.
  - unfold delete_flow in Hk. destruct (delete_unexpired _ _ _ _); auto.
  - unfold insert_link_ticket in Hk. destruct (_ && _); auto.
  - unfold delete_link_ticket in Hk. destruct (delete_unexpired _ _ _ _); auto.
  - unfold insert_exchange in Hk. destruct (_ && _); auto.
  - unfold delete_exchange in Hk. destruct (delete_unexpired _ _ _ _); auto.
  - unfold insert_registration in Hk. destruct (_ && _); auto.
  - unfold delete_registration in Hk. destruct (delete_unexpired _ _ _ _); auto.
  - destruct (callback_txn _ _ _ _ _ _ _ _ _) as [o d1] eqn:Hc. apply callback_cases in Hc as [_ Hc]. cbn [snd] in Hk.
    destruct o as [v [] reg o| |]; [| |by subst; left..].
    + destruct Hc as (_ & _ & _ & _ & _ & Hl). rewrite Hl in Hk. apply lookup_insert_Some in Hk as [[-> _]|[_ Hk]]; auto.
    + destruct Hc as (_ & _ & _ & Hl). rewrite Hl in Hk. auto.
  - destruct (complete_registration_txn _ _ _ _ _ _ _ _) as [o d1] eqn:Hc. apply complete_cases in Hc as [_ Hc].
    cbn [snd] in Hk. destruct o; [|by subst; left..]. destruct Hc as (_ & _ & Hl). rewrite Hl in Hk.
    apply lookup_insert_Some in Hk as [[-> _]|[_ Hk]]; auto.
  - destruct (register_txn _ _ _ _ _) as [o d1] eqn:Hc. apply register_cases in Hc as (_ & Hl & _).
    cbn [snd] in Hk. rewrite Hl in Hk. auto.
  - unfold link_stmt in Hk. destruct (insert_link _ _ _) as [d1|] eqn:Hi; [|auto].
    apply insert_link_ok in Hi as (_ & -> & _). cbn [snd links set_links] in Hk.
    apply lookup_insert_Some in Hk as [[-> _]|[_ Hk]]; auto.
  - destruct (sync_or_skip _ _ _ _ _) as [o d1] eqn:Hc. apply sync_frame in Hc as [a ->]. auto.
Qed.

Lemma steps_links d d' k : rtc step d d' → k ∈ Y → links d !! k = None → links d' !! k = None.
Proof.
  intros Hs HY. induction Hs as [|d1 d2 d3 Hs _ IH]; [done|]. intros Hn. apply IH.
  destruct (links d2 !! k) as [l|] eqn:Hk; [|done]. destruct (step_links _ _ _ _ Hs Hk); congruence.
Qed.

(** ** The endpoints take these steps *)

Lemma obeys_credential {R} (h : Handler Auth.Db Auth.Event R) : obeys step (credential h).
Proof.
  unfold credential. induction h as [r|A f k IH|e h IH]; simpl; [done| |done].
  split; [|exact IH]. intros d. apply rtc_once, step_auth.
Qed.

Lemma obeys_mint u i x : obeys step (mint_oidc_auth_response u i x).
Proof.
  unfold mint_oidc_auth_response. apply obeys_bind; [apply obeys_query|]. intros [w|]; [|done].
  destruct (negb _); [done|]. apply obeys_bind; [apply obeys_credential|]. intros [r|e]; [|done].
  apply obeys_bind; [apply obeys_query|done].
Qed.

Lemma obeys_handle_sync u n o : obeys step (handle_role_sync_outcome u n o).
Proof. by destruct o. Qed.

Lemma obeys_link_sync r ms : obeys step (link_sync default_tenant r ms).
Proof.
  unfold link_sync. case_decide; [done|]. apply obeys_bind; [apply obeys_query|]. intros [p|]; [|done].
  apply obeys_bind; [|apply obeys_handle_sync]. apply obeys_exec. intros d. apply rtc_once, step_sync.
Qed.

End Facts.
End OidcFacts.
