(* ===== verification/OidcFlows.v ===== *)
(** The guarantees of the OpenID Connect endpoints and of registration. *)

From Stdlib Require Import Ascii.
From stdpp Require Import base list gmap sets strings numbers relations.
From S2P Require Import Prelude RustStr Json Handlers AccessVocab AccessGrants OAuthStore OAuthTheorems TokenDenylist AuthStore AuthRoutes OidcStore OidcRoutes OidcTheorems.
Local Open Scope Z_scope.

Module OidcFlow.
Import Oidc OidcApi OidcFacts.
Import OAuth(find_one, none).
Import OAuthFacts(find_one_Some, find_one_None, none_true, none_false).

(** Discharge a branch of a handler whose answer is not the one in question. *)
Ltac refused :=
  unfold audit in *; inv_runs; simplify_eq/=; try done.

Section Runs.
Context {E : Auth.AuthEnv} {O : OidcEnv} `{SerdeSelector}.
Context (cfg : AuthApi.AuthSettings) (default_tenant : Uuid) (env : relation Db).

Lemma oidc_runs_now d t d' es :
  runs env (now : Server Instant) d t d' es ↔ rtc env d d' ∧ t = Auth.clock (auth d') ∧ es = [].
Proof. apply (runs_query env (λ d, Auth.clock (auth d))). Qed.

(** A ticket that was taken: it was read, and then deleted before it had expired. *)
Lemma runs_take {K A} (find : Db → option (K * A)) del d k r d' es :
  runs env (take find del) d (Some (k, r)) d' es →
  es = [] ∧ ∃ d0 d1 d2, rtc env d d0 ∧ rtc env d0 d1 ∧ find d1 = Some (k, r) ∧ rtc env d1 d2 ∧
    del (Auth.clock (auth d0)) k d2 = (true, d').
Proof.
  unfold take. intros Hr. apply runs_bind in Hr as (t & d0 & ? & ? & Ht & Hr & ->).
  apply oidc_runs_now in Ht as (Hs0 & -> & ->). apply runs_bind in Hr as (q & d1 & ? & ? & Hq & Hr & ->).
  apply runs_query in Hq as (Hs1 & -> & ->). destruct (find d1) as [[k' r']|] eqn:Hf; [|by inv_runs].
  apply runs_bind in Hr as (b & d3 & ? & ? & Hx & Hr & ->). apply runs_exec in Hx as (d2 & Hs2 & Hd & ->).
  apply runs_ret in Hr as (Hr & -> & ->). destruct b; simplify_eq. split; [done|]. by exists d0, d1, d2.
Qed.

(** The flow [f] of the state [st] was consumed between [d] and [d'], before it expired. *)
Definition flow_consumed (st : string) (f : Flow) (d d' : Db) : Prop :=
  ∃ d0 d1 d2 f', rtc env d d0 ∧ rtc env d0 d1 ∧ flows d1 !! st = Some f ∧ rtc env d1 d2 ∧
    flows d2 !! st = Some f' ∧ Auth.clock (auth d0) < fl_expires_at f' ∧
    d' = set_flows (delete st (flows d2)) d2.

Lemma runs_take_flow st d k f d' es :
  runs env (take_flow st) d (Some (k, f)) d' es → es = [] ∧ flow_consumed st f d d'.
Proof.
  intros (-> & d0 & d1 & d2 & H0 & H1 & Hf & H2 & Hd)%runs_take. split; [done|].
  unfold find_flow in Hf. destruct (flows d1 !! st) as [f1|] eqn:Hf1; [|done]. simplify_eq/=.
  unfold delete_flow in Hd. destruct (delete_unexpired _ _ _ _) as [b m] eqn:Hdel. simplify_eq/=.
  apply delete_unexpired_cases in Hdel as (-> & f' & Hf' & Hlt). by exists d0, d1, d2, f'.
Qed.

(** Stage 1 of the callback, when it succeeds. *)
Lemma runs_validate idp st d f p allow d' es :
  runs env (validate_oidc_state default_tenant idp st) d (Ok (f, p, allow)) d' es →
  ∃ d1 d2, flow_consumed st f d d1 ∧ rtc env d1 d2 ∧
    find_active_provider default_tenant (fl_provider_id f) d2 = Some p ∧ rtc env d2 d' ∧
    allow = allow_private_network_issuers p && negb (is_multi_tenancy_enabled d') ∧
    discover idp p (redirect_uri f) allow = true.
Proof.
  unfold validate_oidc_state. intros Hr. apply runs_bind in Hr as ([[k f']|] & d1 & ? & ? & Ht & Hr & ->); [|by inv_runs].
  apply runs_take_flow in Ht as [-> Hc]. destruct (str_is_empty (redirect_uri f')); [by inv_runs|].
  apply runs_bind in Hr as (q & d2 & ? & ? & Hq & Hr & ->). apply runs_query in Hq as (Hs2 & -> & ->).
  destruct (find_active_provider _ _ _) as [p'|] eqn:Hp; [|by inv_runs].
  destruct (negb (url_ok _)); [by inv_runs|].
  apply runs_bind in Hr as (multi & d3 & ? & ? & Hq & Hr & ->). apply runs_query in Hq as (Hs3 & -> & ->).
  destruct (discover _ _ _ _) eqn:Hd; cbn [negb] in Hr; [|by inv_runs]. apply runs_ret in Hr as ([= -> -> ->] & -> & _).
  exists d1, d2. by split_and!.
Qed.

(** A stage that fails sends the browser back to the login page. *)
Lemma runs_validate_err idp st d r d' es :
  runs env (validate_oidc_state default_tenant idp st) d (Err r) d' es → ∃ code, r = LoginError code.
Proof.
  unfold validate_oidc_state. intros Hr. apply runs_bind in Hr as ([[k f]|] & d1 & ? & ? & _ & Hr & ->).
  2:{ inv_runs. simplify_eq. by eexists. }
  repeat (match type of Hr with
          | runs _ (if ?b then _ else _) _ _ _ _ => destruct b
          | runs _ (match ?b with Some _ => _ | None => _ end) _ _ _ _ => destruct b
          | _ => progress inv_runs
          end; simplify_eq; try by eexists).
Qed.

Lemma extract_claims_err x r : extract_claims x = Err r → ∃ code, r = LoginError code.
Proof. unfold extract_claims. intros Hc. repeat (case_match; simplify_eq/=); by eexists. Qed.

Lemma runs_ineligible i p c mail origin x d r d' es :
  runs env (check_registration_eligibility i p c mail origin x) d (Some r) d' es →
  r = RegistrationRedirect origin (token2 x) ∨ ∃ code, r = LoginError code.
Proof.
  unfold check_registration_eligibility. intros Hr.
  repeat (match type of Hr with
          | runs _ (if ?b then _ else _) _ _ _ _ => destruct b
          | _ => progress inv_runs
          end; simplify_eq; try done).
  all: case_match; eauto.
Qed.

(** The eligibility check that lets the login go on has only read. *)
Lemma runs_eligible i p c mail origin x d d' es :
  runs env (check_registration_eligibility i p c mail origin x) d None d' es → rtc env d d'.
Proof.
  unfold check_registration_eligibility. intros Hr.
  apply runs_bind in Hr as (reg & d1 & ? & ? & Hq & Hr & ->). apply runs_query in Hq as (Hs1 & -> & ->).
  etrans; [exact Hs1|]. destruct (negb _ || _); [by inv_runs; subst|].
  apply runs_bind in Hr as (b & d2 & ? & ? & Hq & Hr & ->). apply runs_query in Hq as (Hs2 & _ & ->).
  etrans; [exact Hs2|]. destruct b; [by inv_runs; subst|].
  apply runs_bind in Hr as (b & d3 & ? & ? & Hq & Hr & ->). apply runs_query in Hq as (Hs3 & _ & ->).
  etrans; [exact Hs3|]. destruct b; [by inv_runs; subst|].
  apply runs_bind in Hr as (b & d4 & ? & ? & Hq & Hr & ->). apply runs_query in Hq as (Hs4 & _ & ->).
  etrans; [exact Hs4|]. destruct (negb _); [by inv_runs; subst|].
  apply runs_bind in Hr as (t & d5 & ? & ? & Hq & Hr & ->). apply oidc_runs_now in Hq as (Hs5 & _ & ->).
  apply runs_bind in Hr as (ok & d6 & ? & ? & _ & Hr & ->). apply runs_ret in Hr as (Hr & _ & _). done.
Qed.

(** Stage 3, when it answers with an exchange code. *)
Lemma runs_resolve i p c mail o x d origin tok d' es :
  runs env (resolve_or_create_oidc_user default_tenant i p c mail o x) d (ExchangeRedirect origin tok) d' es →
  origin = o ∧ tok = token1 x ∧ id_email_verified c = Some true ∧
  ∃ da v t, rtc env d da ∧
    (linked_account i (id_sub c) v da ∨
     v = id1 x ∧ auto_create_users p = true ∧ fresh_account i (id_sub c) mail v (id2 x) da) ∧
    exchanges d' !! id3 x = Some (mkExchange (Auth.hash_token tok) v i t (t + secs EXCHANGE_TTL_SECONDS)).
Proof.
  unfold resolve_or_create_oidc_user. intros Hr.
  apply runs_bind in Hr as ([early|] & d1 & ? & ? & He & Hr & ->).
  { apply runs_ret in Hr as (<- & _ & _). by apply runs_ineligible in He as [?|[code ?]]. }
  apply runs_eligible in He. apply runs_bind in Hr as (t & d2 & ? & ? & Ht & Hr & ->).
  apply oidc_runs_now in Ht as (Hs2 & -> & ->).
  apply runs_bind in Hr as (res & d4 & ? & ? & Hx & Hr & ->). apply runs_exec in Hx as (d3 & Hs3 & Hx & ->).
  apply callback_cases in Hx as [_ Hx]. destruct res as [v created reg sync|u ex|code].
  2:{ unfold handle_link in Hr. inv_runs. by case_match. }
  2:{ by inv_runs. }
  apply runs_bind in Hr as (? & d5 & ? & ? & _ & Hr & ->). apply runs_bind in Hr as (? & d6 & ? & ? & _ & Hr & ->).
  apply runs_bind in Hr as (? & d7 & ? & ? & _ & Hr & ->). unfold create_oidc_exchange_and_redirect in Hr.
  apply runs_bind in Hr as (t & d8 & ? & ? & Ht & Hr & ->). apply oidc_runs_now in Ht as (Hs8 & -> & ->).
  apply runs_bind in Hr as (ok & d9 & ? & ? & Hi & Hr & ->). apply runs_exec in Hi as (d10 & Hs10 & Hi & ->).
  destruct ok; [|refused]. apply runs_ret in Hr as ([= -> ->] & -> & _).
  destruct Hx as [Hv Hx]. split_and!; [done..|]. exists d3, v, (Auth.clock (auth d8)).
  split; [by etrans; [|etrans]|]. split.
  - destruct created; [right|left]; [|by destruct Hx]. destruct Hx as (-> & Ha & Hf & _). done.
  - unfold insert_exchange in Hi. destruct (_ && _); [|done]. injection Hi as <-. cbn [exchanges set_exchanges].
    apply lookup_insert_eq.
Qed.

Lemma runs_callback_answer r d r' d' es : runs env (callback_answer r) d r' d' es → r' = r ∧ d' = d.
Proof. unfold callback_answer, audit. destruct (classify_callback r). intros Hr. by inv_runs; subst. Qed.

(** C12: an OpenID Connect login is justified, whatever else runs. The callback answers with an
    exchange code only if the provider reported no error and the [state] belonged to a flow
    this service had started, consumed here before it expired; the flow's provider was then
    active, and its token endpoint answered the authorization code, with the flow's own
    verifier, nonce and redirect, with claims whose address is well-formed and verified. The
    code is stored for one account: an active one that this very identity (provider and
    subject) was linked to, or a new one, which the provider's settings allow, whose address
    and identity no account had. *)
Theorem oidc_login_justified idp error code csrf x d origin tok d' es :
  runs env (oidc_callback default_tenant idp error code csrf x) d (ExchangeRedirect origin tok) d' es →
  ∃ st cd f p allow c mail d1 d2 d3 v t,
    error = None ∧ code = Some cd ∧ csrf = Some st ∧
    flow_consumed st f d d1 ∧ rtc env d1 d2 ∧
    find_active_provider default_tenant (fl_provider_id f) d2 = Some p ∧
    exchange_code idp p cd (pkce_verifier f) (nonce f) (redirect_uri f) allow = Ok c ∧
    parse_email (default "" (id_email c)) = Some mail ∧ id_email_verified c = Some true ∧
    rtc env d2 d3 ∧
    (linked_account (fl_provider_id f) (id_sub c) v d3 ∨
     v = id1 x ∧ auto_create_users p = true ∧
       fresh_account (fl_provider_id f) (id_sub c) mail v (id2 x) d3) ∧
    origin = flow_origin f ∧ tok = token1 x ∧
    exchanges d' !! id3 x =
      Some (mkExchange (Auth.hash_token tok) v (fl_provider_id f) t (t + secs EXCHANGE_TTL_SECONDS)).
Proof.
  unfold oidc_callback. intros Hr. destruct error; [by apply runs_callback_answer in Hr as [? _]|].
  destruct code as [cd|]; [|by apply runs_callback_answer in Hr as [? _]].
  destruct csrf as [st|]; [|by apply runs_callback_answer in Hr as [? _]].
  apply runs_bind in Hr as ([[[f p] allow]|resp] & d1 & ? & ? & Hval & Hr & ->).
  - apply runs_validate in Hval as (da & d2 & Hfl & Hs2 & Hp & Hs1 & _ & _).
    destruct (extract_claims _) as [[c mail]|e] eqn:Hc.
    2:{ apply runs_callback_answer in Hr as [<- _]. by apply extract_claims_err in Hc as [? ?]. }
    apply runs_bind in Hr as (resp & d4 & ? & ? & Hres & Hr & ->).
    apply runs_callback_answer in Hr as [<- ->].
    apply runs_resolve in Hres as (-> & -> & Hv & d3 & v & t & Hs3 & Hacc & Hex).
    unfold extract_claims in Hc. destruct (exchange_code _ _ _ _ _ _ _) as [c'|[]] eqn:Hx; [|done..].
    destruct (str_is_empty _); [done|]. destruct (parse_email _) as [m|] eqn:Hm; [|done]. simplify_eq.
    exists st, cd, f, p, allow, c, mail, da, d2, d3, v, t. split_and!; try done. by etrans.
  - apply runs_callback_answer in Hr as [<- _]. by apply runs_validate_err in Hval as [? ?].
Qed.

(** ** Redirects *)

(** The redirect that was pinned, for the request's own origin. *)
Definition pinned_for (observed : string) (d1 d2 : Db) (uri origin : string) : Prop :=
  match canonical_origin d1 with
  | Some (Some c) =>
      uri = c +:+ CALLBACK ∧
      (lowercase origin = lowercase c ∨
       ∃ h, h ∈ accepted_audience_hosts d2 ∧ is_bare_host h = true ∧ lowercase origin = "https://" +:+ lowercase h)
  | Some None => uri = observed +:+ CALLBACK ∧ origin = ""
  | None => False
  end.

Lemma pin_origin observed c accepted o :
  pin_return_origin (pin observed c accepted) = Some o →
  lowercase o = lowercase c ∨
  ∃ h, h ∈ accepted ∧ is_bare_host h = true ∧ lowercase o = "https://" +:+ lowercase h.
Proof.
  unfold pin. cbn [pin_return_origin]. case_decide as Hc; [by intros [= <-]; left|].
  destruct (existsb _ accepted) eqn:He; intros [= <-]; [right|by left].
  apply existsb_exists in He as (h & Hin%list_elem_of_In & [Hb Hh%bool_decide_eq_true]%andb_prop). by exists h.
Qed.

Lemma runs_pinned base d pn d' es :
  runs env (compute_pinned_redirect base) d (Some pn) d' es →
  ∃ d1, rtc env d d1 ∧ rtc env d1 d' ∧
    pinned_for (trim_slashes base) d1 d' (pin_redirect_uri pn) (default "" (pin_return_origin pn)).
Proof.
  unfold compute_pinned_redirect. intros Hr. apply runs_bind in Hr as (q & d1 & ? & ? & Hq & Hr & ->).
  apply runs_query in Hq as (Hs & -> & ->). exists d1. split; [done|]. unfold pinned_for.
  destruct (canonical_origin d1) as [[c|]|] eqn:Hc; [|by inv_runs; simplify_eq|by inv_runs].
  assert (∀ accepted, accepted = [] ∨ accepted = accepted_audience_hosts d' → pn = pin (trim_slashes base) c accepted →
    pin_redirect_uri pn = c +:+ CALLBACK ∧ (lowercase (default "" (pin_return_origin pn)) = lowercase c ∨
      ∃ h, h ∈ accepted_audience_hosts d' ∧ is_bare_host h = true ∧
        lowercase (default "" (pin_return_origin pn)) = "https://" +:+ lowercase h)) as Hpin.
  { intros acc Hacc ->. split; [done|].
    destruct (pin_return_origin (pin (trim_slashes base) c acc)) as [o|] eqn:Ho.
    - apply pin_origin in Ho as [?|(h & Hh & ?)]; [by left|]. right. exists h. split; [|done].
      destruct Hacc as [-> | ->]; [by apply not_elem_of_nil in Hh|done].
    - unfold pin in Ho. cbn [pin_return_origin] in Ho. by repeat case_match. }
  destruct (decide _).
  - apply runs_ret in Hr as ([= ->] & -> & _). split; [done|]. eapply Hpin; [by left|done].
  - apply runs_bind in Hr as (acc & d2 & ? & ? & Hq & Hr & ->). apply runs_query in Hq as (Hs2 & -> & ->).
    apply runs_ret in Hr as ([= ->] & -> & _). split; [done|]. eapply Hpin; [by right|done].
Qed.

(** The origin a response redirects to. *)
Definition response_origin (r : Response) : option string :=
  match r with
  | ExchangeRedirect o _ | RegistrationRedirect o _ | LinkRedirect o _ _ _ => o
  | _ => None
  end.

Lemma location_origin r loc :
  location r = Some loc → ∃ tail, loc = default "" (response_origin r) +:+ "/login" +:+ tail.
Proof.
  unfold location, redirect_origin_prefix, build_link_required_redirect. intros Hl.
  destruct r as [| |[]|[]|[] ? ? []| | |]; simplify_eq/=; by eexists.
Qed.

(** Every stage answers with the flow's origin, or none. *)
Lemma runs_resolve_origin i p c mail o x d r d' es :
  runs env (resolve_or_create_oidc_user default_tenant i p c mail o x) d r d' es →
  response_origin r = None ∨ response_origin r = o.
Proof.
  unfold resolve_or_create_oidc_user. intros Hr.
  apply runs_bind in Hr as ([early|] & d1 & ? & ? & He & Hr & ->).
  { apply runs_ret in Hr as (-> & _ & _). apply runs_ineligible in He as [-> |[code ->]]; auto. }
  apply runs_bind in Hr as (t & d2 & ? & ? & _ & Hr & ->). apply runs_bind in Hr as (res & d4 & ? & ? & _ & Hr & ->).
  destruct res as [v created reg sync|u ex|code].
  - apply runs_bind in Hr as (? & d5 & ? & ? & _ & Hr & ->). apply runs_bind in Hr as (? & d6 & ? & ? & _ & Hr & ->).
    apply runs_bind in Hr as (? & d7 & ? & ? & _ & Hr & ->). unfold create_oidc_exchange_and_redirect in Hr.
    apply runs_bind in Hr as (? & d8 & ? & ? & _ & Hr & ->). apply runs_bind in Hr as (ok & d9 & ? & ? & _ & Hr & ->).
    destruct ok; refused; auto.
  - unfold handle_link in Hr. inv_runs. subst. case_match; auto.
  - inv_runs. subst. auto.
Qed.

(** sign-in never redirects to an origin of the caller's choosing. A flow that [oidc_authorize]
    starts, with the address it sends the browser to, is stored with the verifier, nonce and
    provider of the request and, when a canonical host is configured, with a redirect URI on
    that host whatever the request's [Host] header said, and a return origin that is the
    canonical origin or one of the accepted hosts (without a canonical host, the redirect is
    to the request's own origin and later locations are relative). Every location the callback
    answers with is [/login] under the return origin of the flow it consumed, or relative. *)
Theorem redirects_pinned idp d d' es :
  (∀ provider_id base csrf nce verifier url,
     runs env (oidc_authorize default_tenant idp provider_id base csrf nce verifier) d (AuthorizeBody url) d' es →
     ∃ b f p d1 d2, base = Some b ∧ rtc env d d1 ∧ rtc env d1 d2 ∧
       pinned_for (trim_slashes b) d1 d2 (redirect_uri f) (return_origin f) ∧
       flows d' !! csrf = Some f ∧ fl_provider_id f = provider_id ∧ pkce_verifier f = verifier ∧ nonce f = nce ∧
       url = authorize_url p (redirect_uri f) csrf nce verifier
               (filter (λ s, s ≠ "openid") (split_whitespace (p_scopes p)))) ∧
  (∀ error code csrf x r loc,
     runs env (oidc_callback default_tenant idp error code csrf x) d r d' es → location r = Some loc →
     ∃ o tail, loc = o +:+ "/login" +:+ tail ∧
       (o = "" ∨ ∃ st f d1, csrf = Some st ∧ flow_consumed st f d d1 ∧ o = return_origin f)).
Proof.
  split.
  - intros i base csrf nce ver url Hr. unfold oidc_authorize in Hr. destruct base as [b|]; [|by refused].
    apply runs_bind in Hr as (q & d1 & ? & ? & Hq & Hr & ->). apply runs_query in Hq as (Hs1 & -> & ->).
    destruct (find_active_provider _ _ _) as [p|]; [|by refused].
    apply runs_bind in Hr as (multi & d2 & ? & ? & Hq & Hr & ->). apply runs_query in Hq as (Hs2 & _ & ->).
    apply runs_bind in Hr as ([pn|] & d4 & ? & ? & Hp & Hr & ->); [|by refused].
    apply runs_pinned in Hp as (d3 & Hs3 & Hs4 & Hp).
    destruct (negb (url_ok _)); [by refused|]. destruct (negb (discover _ _ _ _)); [by refused|].
    apply runs_bind in Hr as (ok & d5 & ? & ? & Hi & Hr & ->). destruct ok; cbn [negb] in Hr; [|by refused].
    unfold flow_insert in Hi. apply runs_bind in Hi as (t & d6 & ? & ? & Ht & Hi & ->).
    apply runs_exec in Hi as (d7 & _ & Hi & ->). unfold insert_flow in Hi. destruct (none _); [|done].
    injection Hi as <-. unfold audit in Hr. inv_runs. subst. simplify_eq.
    eexists b, _, p, d3, d4. split_and!; [done|by etrans; [|etrans]|done| |apply lookup_insert_eq|done..].
    exact Hp.
  - intros error code csrf x r loc Hr Hl. apply location_origin in Hl as [tail ->].
    exists (default "" (response_origin r)), tail. split; [done|]. unfold oidc_callback in Hr.
    destruct error; [apply runs_callback_answer in Hr as [-> _]; by left|].
    destruct code as [cd|]; [|apply runs_callback_answer in Hr as [-> _]; by left].
    destruct csrf as [st|]; [|apply runs_callback_answer in Hr as [-> _]; by left].
    apply runs_bind in Hr as ([[[f p] allow]|resp] & d1 & ? & ? & Hval & Hr & ->).
    + apply runs_validate in Hval as (da & d2 & Hfl & _).
      destruct (extract_claims _) as [[c mail]|e] eqn:Hc.
      * apply runs_bind in Hr as (resp & d4 & ? & ? & Hres & Hr & ->). apply runs_callback_answer in Hr as [-> _].
        apply runs_resolve_origin in Hres as [-> | ->]; [by left|]. unfold flow_origin.
        destruct (str_is_empty (return_origin f)); [by left|]. right. by exists st, f, da.
      * apply runs_callback_answer in Hr as [-> _]. apply extract_claims_err in Hc as [? ->]. by left.
    + apply runs_callback_answer in Hr as [-> _]. apply runs_validate_err in Hval as [? ->]. by left.
Qed.

(** ** Who may register *)

(** The audit entry of an account that was created. *)
Definition user_created (u : Uuid) : Event := AuthEvent (Auth.Audit "USER_CREATE" (Some u) Auth.Success None).

Definition admits (r : RegistrationSettings) (token : option string) : Prop :=
  mode r = Open ∨
  mode r = Invite ∧ ∃ t h, token = Some t ∧ token_hash r = Some h ∧ Auth.argon2_verify t h = Ok true.

Lemma validate_admits r token : validate_registration r token = Ok tt ↔ admits r token.
Proof.
  unfold validate_registration, admits. destruct (mode r), token as [t|], (token_hash r) as [h|].
  all: try (destruct (Auth.argon2_verify t h) as [[]|] eqn:Hv).
  all: split; [by intros; try done; eauto 10|]; intros [?|(? & t' & h' & ? & ? & ?)]; simplify_eq; try done; congruence.
Qed.

(** Who passes the eligibility check of the callback: registration is not by invitation, the
    account is known already, or no token is needed for this provider's users. *)
Definition eligible (i : Uuid) (subject mail : string) (reg : RegistrationSettings) (d : Db) : Prop :=
  is_Some (find_link i subject d) ∨ is_Some (user_by_email mail d) ∨
  needs_token_for_oidc reg (bool_decide (size (Auth.users (auth d)) = 0%nat)) = false.

Lemma runs_eligible_why i p c mail origin x d d' es :
  runs env (check_registration_eligibility i p c mail origin x) d None d' es →
  auto_create_users p = true →
  ∃ dr, rtc env d dr ∧ (mode (registration dr) ≠ Invite ∨
    ∃ de, rtc env dr de ∧ eligible i (id_sub c) mail (registration dr) de).
Proof.
  unfold check_registration_eligibility. intros Hr.
  apply runs_bind in Hr as (reg & d1 & ? & ? & Hq & Hr & ->). apply runs_query in Hq as (Hs1 & -> & ->).
  assert (∀ de, rtc env d1 de → eligible i (id_sub c) mail (registration d1) de →
    ∃ dr, rtc env d dr ∧ (mode (registration dr) ≠ Invite ∨
      ∃ de, rtc env dr de ∧ eligible i (id_sub c) mail (registration dr) de)) as Hel by eauto 10.
  intros Hauto. rewrite Hauto in Hr. case_bool_decide as Hm; cbn [negb orb] in Hr; [|eauto].
  apply runs_bind in Hr as (b & d2 & ? & ? & Hq & Hr & ->). apply runs_query in Hq as (Hs2 & Hb & ->).
  destruct b.
  { apply (Hel d2); [done|]. left. by apply eq_sym, negb_true_iff, none_false in Hb. }
  apply runs_bind in Hr as (b & d3 & ? & ? & Hq & Hr & ->). apply runs_query in Hq as (Hs3 & Hb3 & ->).
  destruct b.
  { apply (Hel d3); [by etrans|]. right; left. by apply eq_sym, negb_true_iff, none_false in Hb3. }
  apply runs_bind in Hr as (b & d4 & ? & ? & Hq & Hr & ->). apply runs_query in Hq as (Hs4 & -> & ->).
  apply (Hel d4); [by etrans; [|etrans]|]. right; right.
  destruct (needs_token_for_oidc _ _) eqn:Hneed; [|done]. cbn [negb] in Hr.
  apply runs_bind in Hr as (? & ? & ? & ? & _ & Hr & ->). apply runs_bind in Hr as (? & ? & ? & ? & _ & Hr & ->).
  destruct Hr as [Hr _]. discriminate Hr.
Qed.

Lemma silent_check i p c mail o x : silent (check_registration_eligibility i p c mail o x).
Proof. unfold check_registration_eligibility. repeat (case_match || simpl; intros); try done. Qed.
Lemma silent_validate idp st : silent (validate_oidc_state default_tenant idp st).
Proof. unfold validate_oidc_state. repeat (case_match || simpl; intros); try done. Qed.

Lemma runs_callback_silent r d r' d' es u : runs env (callback_answer r) d r' d' es → user_created u ∉ es.
Proof.
  unfold callback_answer, audit, user_created. destruct (classify_callback r). intros Hr. inv_runs. subst. set_solver.
Qed.

(** The callback's third stage creates the user it drew an id for. *)
Lemma runs_resolve_created i p c mail o x d r d' es u :
  runs env (resolve_or_create_oidc_user default_tenant i p c mail o x) d r d' es → user_created u ∈ es →
  u = id1 x ∧ auto_create_users p = true ∧
  ∃ dr, rtc env d dr ∧ (mode (registration dr) ≠ Invite ∨
    ∃ de, rtc env dr de ∧ eligible i (id_sub c) mail (registration dr) de).
Proof.
  unfold resolve_or_create_oidc_user. intros Hr Hu.
  apply runs_bind in Hr as ([early|] & d1 & ? & ? & He & Hr & ->);
    pose proof (silent_runs _ _ _ _ _ _ (silent_check _ _ _ _ _ _) He) as ->.
  { apply runs_ret in Hr as (_ & _ & ->). set_solver. }
  apply runs_bind in Hr as (t & d2 & ? & ? & Ht & Hr & ->). apply oidc_runs_now in Ht as (_ & _ & ->).
  apply runs_bind in Hr as (res & d4 & ? & ? & Hx & Hr & ->). apply runs_exec in Hx as (d3 & _ & Hx & ->).
  apply callback_cases in Hx as [_ Hx]. destruct res as [v created reg sync|w ex|code].
  - apply runs_bind in Hr as (? & d5 & ? & ? & Hsync & Hr & ->). apply runs_bind in Hr as (? & d6 & ? & ? & Hp & Hr & ->).
    apply runs_bind in Hr as (? & d7 & ? & ? & Ha & Hr & ->).
    assert (∀ es o, runs env (handle_role_sync_outcome v (p_name p) sync) d4 o d5 es → user_created u ∉ es) as Hn1.
    { clear. intros es o' Hs. destruct sync; unfold handle_role_sync_outcome in Hs; inv_runs; subst; unfold user_created; set_solver. }
    assert (∀ es o, runs env (publish_registration reg) d5 o d6 es → user_created u ∉ es) as Hn2.
    { clear. intros es o' Hs. destruct reg; unfold publish_registration in Hs; inv_runs; subst; set_solver. }
    assert (∀ es, runs env (create_oidc_exchange_and_redirect v i o x) d7 r d' es → user_created u ∉ es) as Hn3.
    { clear. intros es Hs. unfold create_oidc_exchange_and_redirect, audit in Hs. unfold user_created.
      apply runs_bind in Hs as (t & d8 & ? & ? & Ht & Hs & ->). apply oidc_runs_now in Ht as (_ & _ & ->).
      apply runs_bind in Hs as ([] & d9 & ? & ? & Hi & Hs & ->); inv_runs; subst; set_solver. }
    cbn [app] in Hu. apply elem_of_app in Hu as [Hu|[Hu|[Hu|Hu]%elem_of_app]%elem_of_app].
    1: by apply Hn1 in Hsync. 1: by apply Hn2 in Hp. 2: by apply Hn3 in Hr.
    destruct created; [|apply runs_ret in Ha as (_ & _ & ->); by apply not_elem_of_nil in Hu].
    destruct Hx as (_ & -> & Hauto & _). apply runs_emit1 in Ha as (_ & _ & ->).
    apply list_elem_of_singleton in Hu as [= ->].
    split_and!; [done|done|]. by apply runs_eligible_why in He.
  - assert (silent (handle_link i p c mail w ex o x)) as Hq by done. apply (silent_runs _ _ _ _ _ _ Hq) in Hr as ->.
    by apply not_elem_of_nil in Hu.
  - apply runs_ret in Hr as (_ & _ & ->). by apply not_elem_of_nil in Hu.
Qed.

(** accounts are created only for whom the registration settings admit, whatever else runs.
    [register] and [oidc_complete_registration] record the creation of a user only if, when
    they read the settings, registration was open, or by invitation and the token they were
    given verified against the stored hash (the former only with password sign-in on, the
    latter also only with an unexpired registration ticket for its code). The callback records
    one only if the provider may create users and registration was not by invitation, or the
    identity or the address was known when it looked, or this provider's users need no token. *)
Theorem registration_gated d r d' es u :
  user_created u ∈ es →
  (∀ mail pw token x, runs env (register cfg default_tenant mail pw token x) d r d' es →
     AuthApi.password_auth_enabled cfg = true ∧ ∃ dr, rtc env d dr ∧ admits (registration dr) token) ∧
  (∀ token code x, runs env (oidc_complete_registration default_tenant token code x) d r d' es →
     ∃ dr k tk d1 d2, rtc env d dr ∧ admits (registration dr) (Some token) ∧
       rtc env dr d1 ∧ registrations d1 !! k = Some tk ∧ pr_code_hash tk = Auth.hash_token code ∧
       rtc env d1 d2 ∧ is_Some (registrations d2 !! k)) ∧
  (∀ idp error code csrf x, runs env (oidc_callback default_tenant idp error code csrf x) d r d' es →
     ∃ st f p c mail d1 d2 dr, csrf = Some st ∧ flow_consumed st f d d1 ∧ rtc env d1 d2 ∧
       find_active_provider default_tenant (fl_provider_id f) d2 = Some p ∧ auto_create_users p = true ∧
       u = id1 x ∧ rtc env d2 dr ∧ (mode (registration dr) ≠ Invite ∨
         ∃ de, rtc env dr de ∧ eligible (fl_provider_id f) (id_sub c) mail (registration dr) de)).
Proof.
  intros Hu. split_and!.
  - intros mail pw token x Hr. unfold register in Hr.
    destruct (AuthApi.password_auth_enabled cfg); cbn [negb] in Hr.
    2:{ unfold audit in Hr. inv_runs. subst. set_solver. }
    split; [done|]. destruct (Auth.validate_password_length pw).
    { unfold audit in Hr. inv_runs. subst. set_solver. }
    apply runs_bind in Hr as (reg & d1 & ? & ? & Hq & Hr & ->). apply runs_query in Hq as (Hs1 & -> & ->).
    destruct (validate_registration _ _) as [[]|e] eqn:Hv.
    + exists d1. split; [done|]. by apply validate_admits.
    + unfold audit in Hr. inv_runs. subst. set_solver.
  - intros token code x Hr. unfold oidc_complete_registration in Hr.
    apply runs_bind in Hr as (reg & dr & ? & ? & Hq & Hr & ->). apply runs_query in Hq as (Hs1 & -> & ->).
    destruct (validate_registration _ _) as [[]|e] eqn:Hv; [|unfold audit in Hr; inv_runs; subst; set_solver].
    apply runs_bind in Hr as ([[k tk]|] & d2 & ? & ? & Ht & Hr & ->); [|].
    + apply runs_take in Ht as (_ & d0 & d1 & d3 & H0 & H1 & Hf & H2 & Hd).
      apply find_one_Some in Hf as [Hk Hh%bool_decide_eq_true]. exists dr, k, tk, d1, d3.
      split_and!; [done|by apply validate_admits|by etrans|done|done|done|].
      unfold delete_registration in Hd. destruct (delete_unexpired _ _ _ _) as [b m] eqn:Hdel. simplify_eq/=.
      apply delete_unexpired_cases in Hdel as (_ & r' & Hr' & _). by eexists.
    + exfalso. unfold take_registration, take in Ht.
      apply runs_bind in Ht as (? & ? & ? & ? & Hn & Ht & ->). apply oidc_runs_now in Hn as (_ & _ & ->).
      apply runs_bind in Ht as (q & ? & ? & ? & Hn & Ht & ->). apply runs_query in Hn as (_ & _ & ->).
      destruct q as [[]|]; unfold audit in Hr; inv_runs; subst; set_solver.
  - intros idp error code csrf x Hr. unfold oidc_callback in Hr.
    destruct error; [by destruct (runs_callback_silent _ _ _ _ _ u Hr)|].
    destruct code as [cd|]; [|by destruct (runs_callback_silent _ _ _ _ _ u Hr)].
    destruct csrf as [st|]; [|by destruct (runs_callback_silent _ _ _ _ _ u Hr)].
    apply runs_bind in Hr as (v & d1 & ? & ? & Hval & Hr & ->).
    pose proof (silent_runs _ _ _ _ _ _ (silent_validate _ _) Hval) as ->. cbn [app] in Hu.
    destruct v as [[[f p] allow]|resp]; [|by destruct (runs_callback_silent _ _ _ _ _ u Hr)].
    apply runs_validate in Hval as (da & d2 & Hfl & Hs2 & Hp & Hs1 & _ & _).
    destruct (extract_claims _) as [[c mail]|e]; [|by destruct (runs_callback_silent _ _ _ _ _ u Hr)].
    apply runs_bind in Hr as (resp & d4 & ? & ? & Hres & Hr & ->).
    apply elem_of_app in Hu as [Hu|Hu]; [|by destruct (runs_callback_silent _ _ _ _ _ u Hr)].
    apply runs_resolve_created with (u := u) in Hres as (-> & Hauto & dr & Hdr & Hel); [|done].
    exists st, f, p, c, mail, da, d2, dr. split_and!; try done. by etrans.
Qed.
(** The caller showed that the account [u] is theirs: its password, or an access token of
    its own. *)
Definition owner_shown (u : Uuid) (password bearer : option string) (d : Db) : Prop :=
  (∃ pw w h, password = Some pw ∧ Auth.users (auth d) !! u = Some w ∧ Auth.password_hash w = Some h ∧
     Auth.argon2_verify pw h = Ok true) ∨
  (∃ jwt c, password = None ∧ bearer = Some jwt ∧
     Auth.decode_jwt (Auth.unix_timestamp (Auth.clock (auth d))) jwt = Ok c ∧ Auth.parse_uuid (Auth.sub c) = Some u).

Lemma runs_verify_ownership u pw bearer d v d' es :
  runs env (verify_ownership u pw bearer) d v d' es →
  rtc env d d' ∧ ∀ reason, v = Ok (true, reason) → owner_shown u pw bearer d'.
Proof.
  unfold verify_ownership. intros Hr. destruct pw as [pw|].
  - destruct (Auth.validate_password_length pw); [inv_runs; by subst|].
    apply runs_bind in Hr as (q & d1 & ? & ? & Hq & Hr & ->).
    apply (runs_query env (λ d, Auth.users (auth d) !! u)) in Hq as (Hs & -> & ->).
    apply runs_ret in Hr as (-> & -> & _). split; [done|]. intros reason Hv. left.
    destruct (Auth.users (auth d1) !! u) as [w|] eqn:Hw; [|done].
    destruct (Auth.password_hash w) as [h|] eqn:Hh; [|done].
    destruct (Auth.argon2_verify pw h) as [[]|] eqn:Ha; [|done..]. by exists pw, w, h.
  - destruct bearer as [jwt|]; [|inv_runs; by subst].
    apply runs_bind in Hr as (t & d1 & ? & ? & Hq & Hr & ->). apply oidc_runs_now in Hq as (Hs & -> & ->).
    apply runs_ret in Hr as (-> & -> & _). split; [done|]. intros reason Hv. right.
    destruct (Auth.decode_jwt _ _) as [c|] eqn:Hj; [|done].
    destruct (Auth.parse_uuid _) as [v|] eqn:Hu; [|done]. case_decide; [|done]. subst v. by exists jwt, c.
Qed.

(** The ticket [r] for [token] was consumed on the way to [d']. *)
Definition link_ticket_consumed (token : string) (r : PendingLink) (d d' : Db) : Prop :=
  ∃ k d0 d1 d2 r', rtc env d d0 ∧ rtc env d0 d1 ∧
    pending_links d1 !! k = Some r ∧ pl_token_hash r = Auth.hash_token token ∧ rtc env d1 d2 ∧
    pending_links d2 !! k = Some r' ∧ Auth.clock (auth d0) < pl_expires_at r' ∧
    d' = set_pending_links (delete k (pending_links d2)) d2.

Lemma runs_take_link token d k r d' es :
  runs env (take_link token) d (Some (k, r)) d' es → link_ticket_consumed token r d d'.
Proof.
  intros (-> & d0 & d1 & d2 & H0 & H1 & Hf & H2 & Hd)%runs_take.
  apply find_one_Some in Hf as [Hk Hh%bool_decide_eq_true].
  unfold delete_link_ticket in Hd. destruct (delete_unexpired _ _ _ _) as [b m] eqn:Hdel. simplify_eq/=.
  apply delete_unexpired_cases in Hdel as (-> & r' & Hr' & Hlt). by exists k, d0, d1, d2, r'.
Qed.

Lemma obeys_take X Y {K A} (find : Db → option (K * A)) (del : Instant → K → Db → bool * Db) :
  (∀ t k d, step default_tenant X Y d (del t k d).2) → obeys (step default_tenant X Y) (take find del).
Proof.
  intros Hdel. unfold take. apply obeys_bind; [apply obeys_query|]. intros t. apply obeys_bind; [apply obeys_query|].
  intros [[k r]|]; [|done]. apply obeys_bind; [|done]. apply obeys_exec. intros d. apply rtc_once, Hdel.
Qed.

(** From [a] to [b] no link came to be at [k]. *)
Definition no_new_link (k : Uuid) (a b : Db) : Prop :=
  ∀ l, links b !! k = Some l → links a !! k = Some l.

Lemma rtc_no_new_link k a b : rtc (no_new_link k) a b → no_new_link k a b.
Proof. induction 1 as [|x y z Hxy _ IH]; [by intros l|]. intros l Hl. by apply Hxy, IH. Qed.

(** A handler none of whose statements adds a link, among requests that do not either. *)
Lemma runs_no_new_link {R} k (h : Server R) d r d' es :
  (∀ a b, env a b → no_new_link k a b) → obeys (step default_tenant ∅ {[ k ]}) h →
  runs env h d r d' es → no_new_link k d d'.
Proof.
  intros Henv Ho Hr. apply rtc_no_new_link.
  eapply (runs_steps (no_new_link k)); [by eapply runs_mono; [exact Henv|]|].
  eapply obeys_mono; [|exact Ho]. intros a b Hs l Hl.
  destruct (step_links _ _ _ _ _ _ _ Hs Hl); [done|set_solver].
Qed.

(** Unless ownership was shown, [oidc_link] adds no link. *)
Lemma runs_link token pw bearer x d r d' es l :
  (∀ a b, env a b → no_new_link (id1 x) a b) → links d !! id1 x = None →
  runs env (oidc_link default_tenant token pw bearer x) d r d' es → links d' !! id1 x = Some l →
  ∃ tk d1 d2 t, link_ticket_consumed token tk d d1 ∧ rtc env d1 d2 ∧
    owner_shown (pl_user_id tk) pw bearer d2 ∧
    l = mkLink (pl_user_id tk) (pl_provider_id tk) (pl_subject tk) t.
Proof.
  intros Henv Hn Hr Hl. assert (∀ a b, rtc env a b → no_new_link (id1 x) a b) as Hrtc.
  { intros a b Hs. apply rtc_no_new_link. by eapply rtc_subrel. }
  unfold oidc_link in Hr. apply runs_bind in Hr as (pending & d1 & ? & ? & Ht & Hr & ->).
  assert (links d1 !! id1 x = None) as Hn1.
  { assert (no_new_link (id1 x) d d1) as Hnn.
    { eapply runs_no_new_link; [exact Henv| |exact Ht]. apply obeys_take. intros. apply step_delete_link_ticket. }
    apply eq_None_ne_Some_2. intros l1 Hl1%Hnn. congruence. }
  assert (∀ l', links d1 !! id1 x ≠ Some l') as Hne1 by congruence.
  destruct pending as [[k tk]|]; [apply runs_take_link in Ht|by refused; edestruct Hne1].
  destruct (roles_of_json _) as [ms|]; [|by refused; edestruct Hne1].
  apply runs_bind in Hr as (v & d2 & ? & ? & Hv & Hr & ->). apply runs_verify_ownership in Hv as [Hs2 Hv].
  assert (∀ l', links d2 !! id1 x ≠ Some l') as Hne2 by (intros l' Hl'; by apply (Hrtc _ _ Hs2) in Hl'; eapply Hne1).
  destruct v as [[[] reason]|[reason resp]]; [|by refused; edestruct Hne2..]. specialize (Hv reason eq_refl).
  apply runs_bind in Hr as (t & d3 & ? & ? & Hq & Hr & ->). apply oidc_runs_now in Hq as (Hs3 & -> & ->).
  exists tk, d1, d2, (Auth.clock (auth d3)). split_and!; [done..|].
  apply runs_bind in Hr as (ok & d5 & ? & ? & Hx & Hr & ->). apply runs_exec in Hx as (d4 & Hs4 & Hx & ->).
  assert (no_new_link (id1 x) d5 d') as Hnn.
  { eapply runs_no_new_link; [exact Henv| |exact Hr]. destruct (negb ok); [done|].
    apply obeys_bind; [apply obeys_link_sync|]. intros _. apply obeys_bind; [apply obeys_mint|].
    intros resp. by destruct (minted resp). }
  apply Hnn in Hl. unfold link_stmt in Hx. destruct (insert_link _ _ _) as [d6|] eqn:Hi; simplify_eq.
  - apply insert_link_ok in Hi as (_ & -> & _). cbn [links set_links] in Hl. rewrite lookup_insert_eq in Hl.
    by injection Hl.
  - edestruct Hne2. eapply Hrtc; [|exact Hl]. by etrans.
Qed.

(** C13: an identity of an identity provider is linked to an account that already exists only
    by the account's owner, whatever else runs: of the other requests it is asked only that
    they do not insert a link under the id this request drew. [oidc_link] leaves a link there
    only if it consumed an unexpired link ticket with that token and, in the database after
    that, the caller showed that the ticket's account is theirs, by the password that
    verifies against that account's stored hash or, giving none, by an access token of that
    account; the link is the ticket's identity for the ticket's account. The transactions of
    the callback and of a completed registration add at most one link, to an account they
    create. *)
Theorem account_link_needs_owner token pw bearer x d r d' es l :
  (∀ a b, env a b → no_new_link (id1 x) a b) → links d !! id1 x = None →
  (runs env (oidc_link default_tenant token pw bearer x) d r d' es → links d' !! id1 x = Some l →
   ∃ tk d1 d2, link_ticket_consumed token tk d d1 ∧ rtc env d1 d2 ∧ owner_shown (pl_user_id tk) pw bearer d2 ∧
     l_user_id l = pl_user_id tk ∧ l_provider_id l = pl_provider_id tk ∧ l_subject l = pl_subject tk) ∧
  (∀ t i p c mail u k res d1 j, callback_txn default_tenant t i p c mail u k d = (res, d1) →
     links d !! j = None → links d1 !! j = Some l → j = k ∧ l_user_id l = u ∧ Auth.users (auth d) !! u = None) ∧
  (∀ t rg ms mail u k res d1 j, complete_registration_txn default_tenant t rg ms mail u k d = (res, d1) →
     links d !! j = None → links d1 !! j = Some l → j = k ∧ l_user_id l = u ∧ Auth.users (auth d) !! u = None).
Proof.
  intros Henv Hn. split_and!.
  - intros Hr Hl. destruct (runs_link token pw bearer x d r d' es l) as (tk & d1 & d2 & t & Ht & Hs & Ho & ->);
      [done..|]. by exists tk, d1, d2.
  - intros t i p c mail u k res d1 j [_ Hc]%callback_cases Hj Hl.
    destruct res as [v [] reg o| |]; [|destruct Hc as (_ & _ & _ & Hc); congruence|congruence..].
    destruct Hc as (_ & _ & _ & (Hu & _) & _ & Hlk). rewrite Hlk in Hl.
    apply lookup_insert_Some in Hl as [[<- <-]|[_ Hl]]; [done|congruence].
  - intros t rg ms mail u k res d1 j [_ Hc]%complete_cases Hj Hl.
    destruct res; [|congruence..]. destruct Hc as ((Hu & _) & _ & Hlk). rewrite Hlk in Hl.
    apply lookup_insert_Some in Hl as [[<- <-]|[_ Hl]]; [done|congruence].
Qed.

End Runs.

Section Steps.
Context {E : Auth.AuthEnv} {O : OidcEnv} `{SerdeSelector}.
Context (default_tenant : Uuid) (X : gset string) (Y : gset Uuid).
Notation env := (step default_tenant X Y).

Lemma runs_mint u i x d s a rt d' es :
  runs env (mint_oidc_auth_response u i x) d (AuthBody s a rt) d' es →
  ∃ d1 w t, rtc env d d1 ∧ Auth.users (auth d1) !! u = Some w ∧ Auth.is_active w = true ∧
    Auth.create_access_token t (id5 x) u "oidc" (Some i) None = Ok a.
Proof.
  unfold mint_oidc_auth_response. intros Hr. apply runs_bind in Hr as (q & d1 & ? & ? & Hq & Hr & ->).
  apply (runs_query env (λ d, Auth.users (auth d) !! u)) in Hq as (Hs & -> & ->).
  destruct (Auth.users (auth d1) !! u) as [w|] eqn:Hw; [|by inv_runs].
  destruct (Auth.is_active w) eqn:Hact; cbn [negb] in Hr; [|by inv_runs].
  apply runs_bind in Hr as ([r|e] & d2 & ? & ? & _ & Hr & ->); [|by inv_runs].
  apply runs_bind in Hr as (t & d3 & ? & ? & _ & Hr & ->). apply runs_ret in Hr as (Hr & _ & _).
  destruct (Auth.create_access_token _ _ _ _ _ _) eqn:Ha; [|done]. injection Hr as -> -> ->.
  by exists d1, w, t.
Qed.

(** No row of the code is left, and none comes back. *)
Definition spent (h : string) (d : Db) : Prop := ∀ k e, exchanges d !! k = Some e → ex_code_hash e ≠ h.

Lemma code_steps_spent h d d' : h ∈ X → rtc env d d' → spent h d → spent h d'.
Proof.
  intros HX Hs Hsp k e Hk He. destruct (steps_exchanges _ _ _ _ _ _ _ Hs Hk) as [Hk'|[Hn _]]; [by eapply Hsp|].
  by subst h.
Qed.

Lemma code_spent_refused code x d r d' es :
  is_blank code = false → Auth.hash_token code ∈ X → spent (Auth.hash_token code) d →
  runs env (oidc_exchange code x) d r d' es → r = ErrorResponse 400 "Invalid or expired exchange code".
Proof.
  intros Hb HX Hsp Hr. unfold oidc_exchange in Hr. rewrite Hb in Hr.
  apply runs_bind in Hr as ([[k e]|] & d1 & ? & ? & Ht & Hr & ->).
  - exfalso. apply runs_take in Ht as (_ & d0 & d2 & d3 & H0 & H1 & Hf & _).
    apply find_one_Some in Hf as [Hk Hh%bool_decide_eq_true].
    eapply (code_steps_spent _ d d2); [exact HX|by etrans|exact Hsp|exact Hk|exact Hh].
  - unfold audit in Hr. by inv_runs.
Qed.

(** an exchange code is redeemed once, by whoever gets there first. [oidc_exchange] answers
    with tokens only if the code's row was there and had not expired when the request read the
    clock, and this request's own delete removed it; the access token is for the row's user,
    who was active, and names the row's provider. From that delete on, while any other
    requests run (codes and row ids are not drawn twice), the row stays gone: the delete of a
    request that had already read it removes nothing, and every later request with the code is
    answered with 400. *)
Theorem exchange_redeemed_once code x d s a rt d' es :
  Auth.hash_token code ∈ X → (dom (exchanges d) : gset Uuid) ⊆ Y →
  (∀ k1 k2 e1 e2, exchanges d !! k1 = Some e1 → exchanges d !! k2 = Some e2 →
     ex_code_hash e1 = ex_code_hash e2 → k1 = k2) →
  runs env (oidc_exchange code x) d (AuthBody s a rt) d' es →
  ∃ k e d0 d1 d2 d3 w t,
    exchanges d !! k = Some e ∧ ex_code_hash e = Auth.hash_token code ∧
    rtc env d d0 ∧ Auth.clock (auth d0) < ex_expires_at e ∧
    rtc env d0 d1 ∧ delete_exchange (Auth.clock (auth d0)) k d1 = (true, d2) ∧
    rtc env d2 d3 ∧ Auth.users (auth d3) !! ex_user_id e = Some w ∧ Auth.is_active w = true ∧
    Auth.create_access_token t (id5 x) (ex_user_id e) "oidc" (Some (ex_provider_id e)) None = Ok a ∧
    rtc env d2 d' ∧
    ∀ d4, rtc env d2 d4 →
      (∀ t', delete_exchange t' k d4 = (false, d4)) ∧
      ∀ x' r d5 es', runs env (oidc_exchange code x') d4 r d5 es' →
        r = ErrorResponse 400 "Invalid or expired exchange code".
Proof.
  intros HX HY Hu Hr. unfold oidc_exchange in Hr. destruct (is_blank code) eqn:Hb; [refused|].
  apply runs_bind in Hr as ([[k e]|] & d2 & ? & ? & Ht & Hr & ->); [|refused].
  apply runs_take in Ht as (_ & d0 & dr & d1 & H0 & H1 & Hf & H2 & Hd).
  apply find_one_Some in Hf as [Hk Hh%bool_decide_eq_true].
  apply runs_bind in Hr as (resp & d6 & ? & ? & Hm & Hr & ->).
  assert (resp = AuthBody s a rt ∧ d6 = d') as [-> ->] by (destruct (minted resp); refused).
  pose proof (runs_steps _ _ _ _ _ _ Hm (obeys_mint _ _ _ _ _ _)) as Hs6.
  apply runs_mint in Hm as (d3 & w & t & H3 & Hw & Hact & Htok).
  assert (rtc env d dr) as Hsr by by etrans. assert (rtc env d d1) as Hs1 by by etrans.
  destruct (steps_exchanges _ _ _ _ _ _ _ Hsr Hk) as [Hk0|[Hn _]]; [|congruence].
  pose proof Hd as Hd'. unfold delete_exchange in Hd'. destruct (delete_unexpired _ _ _ _) as [b m] eqn:Hdel. simplify_eq/=.
  apply delete_unexpired_cases in Hdel as (-> & e' & He' & Hlt).
  assert (e' = e) as ->.
  { destruct (steps_exchanges _ _ _ _ _ _ _ Hs1 He') as [?|[_ HkY]]; [congruence|].
    destruct HkY. apply HY, elem_of_dom. by eexists. }
  exists k, e, d0, d1, (set_exchanges (delete k (exchanges d1)) d1), d3, w, t.
  split_and!; try done; [by etrans|].
  intros d4 H4. split.
  - intros t'. unfold delete_exchange, delete_unexpired.
    assert (exchanges d4 !! k = None) as ->.
    { destruct (exchanges d4 !! k) as [r|] eqn:Hk4; [|done].
      destruct (steps_exchanges _ _ _ _ _ _ _ H4 Hk4) as [Hk2|[_ HkY]].
      - cbn [exchanges set_exchanges] in Hk2. by rewrite lookup_delete_eq in Hk2.
      - destruct HkY. apply HY, elem_of_dom. by eexists. }
    by destruct d4.
  - intros x' r d5 es' Hr'. eapply code_spent_refused; [done|exact HX| |exact Hr'].
    eapply code_steps_spent; [exact HX|exact H4|]. intros j e' Hj He. cbn [exchanges set_exchanges] in Hj.
    apply lookup_delete_Some in Hj as [Hne Hj]. apply Hne.
    destruct (steps_exchanges _ _ _ _ _ _ _ Hs1 Hj) as [Hj0|[HjX _]]; [|congruence].
    apply (Hu k j e e'); congruence.
Qed.
End Steps.
End OidcFlow.
