(* ===== verification/OidcAccounts.v ===== *)
(** Accounts that sign-in creates and the roles they get: the first user becomes the owner and
    closes registration, later ones get no more than the default role and what their provider
    maps, and a role sync never locks a plane out. *)

From Stdlib Require Import Ascii.
From stdpp Require Import base list gmap sets strings numbers relations sorting.
From S2P Require Import Prelude RustStr Json Handlers AccessVocab AccessTheorems AccessGrants AccessEngine GrantLemmas AccessDecisions Lockout OAuthStore OAuthTheorems TokenDenylist AuthStore AuthRoutes OidcStore OidcRoutes OidcTheorems.
Local Open Scope Z_scope.

Module OidcAccounts.
Import Oidc OidcApi OidcFacts.
Import OAuth(find_one, none).
Import OAuthFacts(find_one_Some, find_one_None, none_true, none_false).
Import Grants(Assignment, mkAssignment, as_tenant_id, as_user_id, as_role_id, user_roles, roles).

Section Roles.
Context {E : Auth.AuthEnv} {O : OidcEnv} `{SerdeSelector}.

(** ** Role sync *)

(** A global role by its name. *)
Definition global_named (d : Db) (r : Uuid) (n : string) : Prop :=
  role_names d !! r = Some n ∧ roles (access d) !! r = Some None.

Lemma elem_of_roles_named names d r n :
  (r, n) ∈ roles_named names d ↔ n ∈ names ∧ global_named d r n.
Proof.
  unfold roles_named, global_named. rewrite merge_sort_Permutation, list_elem_of_filter, elem_of_map_to_list. simpl. tauto.
Qed.

Lemma replace_roles_ok t u ids d d' :
  replace_roles t u ids d = Ok d' →
  d' = set_access (Grants.with_roles (roles (access d))
         (filter (λ a, ¬ (as_tenant_id a = t ∧ as_user_id a = u)) (user_roles (access d))
          ++ (mkAssignment t u <$> ids)) (access d)) d.
Proof.
  unfold replace_roles, Grants.replace_user_roles. intros Hr. destruct (Grants.db_fail _ _); [done|].
  inv_ok. match goal with Hi : Grants.insert_user_roles _ _ _ _ = Ok _ |- _ => apply insert_user_roles_ok in Hi as -> end.
  done.
Qed.

Lemma sync_cases t dt u p claims d o d' :
  sync_oidc_roles t dt u p claims d = (o, d') →
  (o ≠ Ok Applied ∧ d' = d) ∨
  o = Ok Applied ∧
  let ids := (roles_named (extract_mapped_roles p claims) d).*1 in
  Grants.check_lockout (access_view d) dt (Grants.SetUserRoles t u (canonical_ids ids)) = Ok Grants.Permitted ∧
  d' = set_access (Grants.with_roles (roles (access d))
         (filter (λ a, ¬ (as_tenant_id a = t ∧ as_user_id a = u)) (user_roles (access d))
          ++ (mkAssignment t u <$> ids)) (access d)) d.
Proof.
  unfold sync_oidc_roles, extract_mapped_roles. intros Hs.
  destruct (claim_strings p claims) as [cs|]; [|by left; simplify_eq]. cbn [default].
  case_decide; [by left; simplify_eq|]. destruct (Grants.db_fail _ Grants.TRoles); [by left; simplify_eq|].
  case_decide; [by left; simplify_eq|]. destruct (Grants.db_fail _ Grants.TUserRoles); [by left; simplify_eq|].
  case_decide; [by left; simplify_eq|].
  destruct (Grants.check_lockout _ _ _) as [[]|] eqn:Hc; [|by left; simplify_eq..].
  destruct (replace_roles _ _ _ _) as [d1|] eqn:Hr; [|by left; simplify_eq]. apply replace_roles_ok in Hr as ->.
  right. by simplify_eq.
Qed.

(** a role sync never locks anyone out, and does nothing but replace the user's roles.
    When [sync_oidc_roles] reports that it applied, the user's assignments in the tenant are
    exactly the global roles the identity provider's claims map to, all others are untouched,
    and every tenant some active user could manage, and the system plane, still has such a
    user. In every other case (nothing to map, no change, the guard refused, an error) the
    database is as before. *)
Theorem role_sync_guarded t dt u p claims d o d' :
  table_ok (access_view d) →
  sync_oidc_roles t dt u p claims d = (o, d') →
  (o ≠ Ok Applied → d' = d) ∧
  (o = Ok Applied →
     planes_kept (access_view d) (access_view d') ∧
     ∀ a, a ∈ user_roles (access d') ↔
       if decide (as_tenant_id a = t ∧ as_user_id a = u)
       then ∃ n, n ∈ extract_mapped_roles p claims ∧ global_named d (as_role_id a) n
       else a ∈ user_roles (access d)).
Proof.
  intros Hok [[Hn ->]|(-> & Hc & ->)]%sync_cases; [done|]. split; [done|]. intros _. split.
  - eapply permitted_keeps; [exact Hok|exact Hc|exact Hok|done|].
    apply snapshot_le_self; [done| |done]. simpl. intros a. rewrite !elem_of_app, !list_elem_of_fmap.
    setoid_rewrite canonical_ids_elem. done.
  - intros a. cbn [access set_access Grants.user_roles Grants.with_roles].
    rewrite elem_of_app, list_elem_of_filter, list_elem_of_fmap.
    setoid_rewrite list_elem_of_fmap. case_decide as Ha.
    + destruct Ha as [<- <-]. split.
      * intros [[Hn _]|(r & -> & [r' n] & -> & Hin)]; [by destruct Hn|].
        apply elem_of_roles_named in Hin as [? ?]. by exists n.
      * intros (n & Hn & Hg). right. exists (as_role_id a). split; [by destruct a|].
        exists (as_role_id a, n). split; [done|]. by apply elem_of_roles_named.
    + split; [|by left]. intros [[_ ?]|(r & -> & _)]; [done|]. by destruct Ha.
Qed.

(** ** Deferred role sync *)

Lemma reverse_lookup_ok (m : gmap string string) n :
  (∃ c, m !! c = Some n) → ∃ c, reverse_lookup m n = Some c ∧ m !! c = Some n.
Proof.
  intros [c Hc]. unfold reverse_lookup.
  assert ((c, n) ∈ filter (λ kv : string * string, kv.2 = n) (map_order m)) as Hin.
  { apply list_elem_of_filter. split; [done|]. rewrite map_order_perm. by apply elem_of_map_to_list. }
  destruct (filter _ _) as [|[c' n'] l] eqn:Hf; [by apply not_elem_of_nil in Hin|].
  assert ((c', n') ∈ filter (λ kv : string * string, kv.2 = n) (map_order m)) as Hin' by (rewrite Hf; by left).
  apply list_elem_of_filter in Hin' as [Hn Hin']. simpl in Hn. subst n'. rewrite map_order_perm in Hin'.
  exists c'. split; [done|]. by apply elem_of_map_to_list.
Qed.

Lemma reverse_roundtrip (m : gmap string string) (ns : list string) :
  (∀ n, n ∈ ns → ∃ c, m !! c = Some n) → omap (λ c, m !! c) (omap (reverse_lookup m) ns) = ns.
Proof.
  induction ns as [|n ns IH]; intros Hns; [done|]. simpl.
  destruct (reverse_lookup_ok m n) as (c & -> & Hc); [apply Hns; by left|]. simpl. rewrite Hc. f_equal.
  apply IH. intros n' Hn'. apply Hns. by right.
Qed.

Lemma omap_json_str (l : list string) : omap json_str (JString <$> l) = l.
Proof. induction l as [|s l IH]; simpl; [done|]. by f_equal. Qed.
Lemma roles_json_roundtrip l : roles_of_json (roles_json l) = Some l.
Proof. unfold roles_of_json, roles_json. rewrite mapM_fmap_Some; [done|]. by intros. Qed.

(** Extracted names are names that the provider maps, and there is a mapping if there is one. *)
Lemma extracted_mapped p claims n :
  n ∈ extract_mapped_roles p claims → ∃ c, role_mapping p !! c = Some n.
Proof. unfold extract_mapped_roles. intros (c & _ & Hc)%list_elem_of_omap. by exists c. Qed.

(** roles that wait for a login to be completed are not lost, if their claim is at the top
    level. What the callback stores (the mapped names, as JSON) reads back, and when the
    provider's claim path is one segment the claims made up from it when the link or the
    registration is completed map to exactly the roles of the original claims. With a path of
    several segments they map to none, whatever was stored. *)
Theorem deferred_roles_roundtrip p path claims :
  role_claim_path p = Some path →
  let stored := extract_mapped_roles p claims in
  roles_of_json (roles_json stored) = Some stored ∧
  extract_mapped_roles p (build_fake_claims_for_sync p stored) =
    if contains_char "." path then [] else stored.
Proof.
  intros Hp stored. split; [apply roles_json_roundtrip|].
  pose proof (extracted_mapped p claims) as Hns. fold stored in Hns.
  unfold extract_mapped_roles, claim_strings, build_fake_claims_for_sync. rewrite Hp.
  destruct (str_is_empty path || _) eqn:He.
  { cbn [default omap list_omap]. assert (stored = []) as ->; [|by destruct (contains_char _ _)].
    unfold stored, extract_mapped_roles, claim_strings. by rewrite Hp, He. }
  unfold navigate_json_path. destruct (contains_char "." path) eqn:Hd.
  - destruct (split_once "." path) as [[l r]|] eqn:Hs; [|apply split_once_none in Hs; congruence].
    apply split_once_spec in Hs as [-> Hl]. rewrite split_char_app, (split_char_none _ _ Hl).
    destruct (split_char "." r) as [|seg segs] eqn:Hr; [by apply split_char_nonempty in Hr|].
    simpl. rewrite decide_True by done. simpl.
    assert (∀ l', foldl (λ cur seg, cur ≫= json_field seg) (@None Value) l' = None) as Hn by (by induction l').
    by rewrite Hn.
  - rewrite (split_char_none _ _ Hd). simpl. rewrite decide_True by done. simpl. rewrite omap_json_str.
    by apply reverse_roundtrip.
Qed.

(** ** Roles of new accounts *)

Context (default_tenant : Uuid).

(** [d'] is [d] with roles [rs] added for the user. *)
Definition roles_added (u : Uuid) (rs : list Uuid) (d d' : Db) : Prop :=
  d' = set_access (Grants.with_roles (roles (access d))
         (user_roles (access d) ++ (mkAssignment default_tenant u <$> rs)) (access d)) d.

Lemma roles_added_nil u d : roles_added u [] d d.
Proof. unfold roles_added. rewrite app_nil_r. by destruct d as [? []]. Qed.

Lemma roles_added_trans u rs1 rs2 d1 d2 d3 :
  roles_added u rs1 d1 d2 → roles_added u rs2 d2 d3 → roles_added u (rs1 ++ rs2) d1 d3.
Proof. unfold roles_added. intros -> ->. simpl. by rewrite fmap_app, app_assoc. Qed.

Lemma assign_named_ok u d n d' :
  assign_named default_tenant u d n = Ok d' → ∃ r, global_named d r n ∧ roles_added u [r] d d'.
Proof.
  unfold assign_named, assign_role, global_role. intros Ha. destruct (Grants.db_fail _ Grants.TRoles); [done|].
  destruct (roles_named [n] d) as [|[r n'] l] eqn:Hl; simpl in Ha; [done|].
  assert ((r, n') ∈ roles_named [n] d) as Hin by (rewrite Hl; by left).
  apply elem_of_roles_named in Hin as [->%list_elem_of_singleton Hg]. exists r. split; [done|].
  destruct (Grants.db_fail _ _); [done|]. case_decide; [done|]. by inv_ok.
Qed.

Lemma assign_owner_ok u d d' :
  assign_owner_roles default_tenant u d = Ok d' →
  ∃ rs, roles_added u rs d d' ∧ Forall2 (global_named d) rs OWNER_ROLES.
Proof.
  apply (for_fold_inv (λ l d', ∃ rs, roles_added u rs d d' ∧ Forall2 (global_named d) rs l)).
  - exists []. split; [apply roles_added_nil|constructor].
  - intros pre n d1 d2 (rs & H1 & Hf) (r & Hg & H2)%assign_named_ok. exists (rs ++ [r]).
    split; [by eapply roles_added_trans|]. apply Forall2_app; [done|]. constructor; [|constructor].
    unfold roles_added in H1. by subst d1.
Qed.

Definition closed : RegistrationSettings := mkRegistration Closed None false.

(** The bootstrap: with more users than the threshold nothing happens; else the user holds
    every owner role and registration is closed. *)
Lemma first_user_cases u n c d reg d' :
  handle_first_user_setup default_tenant u n c d = Ok (reg, d') →
  ((n < size (Auth.users (auth d)))%nat ∧ reg = None ∧ d' = d) ∨
  ((size (Auth.users (auth d)) ≤ n)%nat ∧ reg = Some closed ∧ from_raw default_tenant (settings d') = closed ∧
   ∀ name, name ∈ OWNER_ROLES → ∃ r, global_named d r name ∧
     mkAssignment default_tenant u r ∈ user_roles (access d')).
Proof.
  unfold handle_first_user_setup. destruct (Nat.ltb_spec n (size (Auth.users (auth d)))); intros Hf; [left; by simplify_eq|].
  right. apply bind_ok in Hf as (d1 & H1 & Hf). apply bind_ok in Hf as (d2 & (rs & Hadd & Hrs)%assign_owner_ok & Hf).
  simplify_eq/=. split_and!; [done|done| |].
  - unfold from_raw, closed. cbn [settings delete_setting upsert_setting set_settings].
    rewrite lookup_delete_eq, !(lookup_delete_ne _ (default_tenant, "registration.require_token_for_oidc")) by done.
    rewrite lookup_delete_eq, lookup_delete_ne, lookup_insert_eq by done. done.
  - intros name Hin. destruct (list_elem_of_lookup_1 _ _ Hin) as [i Hi].
    destruct (Forall2_lookup_r _ _ _ _ _ Hrs Hi) as (r & Hr & Hg). exists r. split.
    + unfold clear_roles in H1. destruct c; [|by simplify_eq]. destruct (Grants.db_fail _ _); [done|]. by inv_ok.
    + unfold roles_added in Hadd. subst d2. cbn. apply elem_of_app. right. apply list_elem_of_fmap.
      exists r. split; [done|]. by apply list_elem_of_lookup_2 in Hr.
Qed.

(** What [d'] assigns beyond [d] are global roles of the user, with names in [P]. *)
Definition bounded (u : Uuid) (P : string → Prop) (d d' : Db) : Prop :=
  role_names d' = role_names d ∧ roles (access d') = roles (access d) ∧
  ∀ a, a ∈ user_roles (access d') → a ∈ user_roles (access d) ∨
    as_tenant_id a = default_tenant ∧ as_user_id a = u ∧ ∃ n, global_named d (as_role_id a) n ∧ P n.

Lemma bounded_same u P d d' : role_names d' = role_names d → access d' = access d → bounded u P d d'.
Proof. intros Hr Ha. unfold bounded. rewrite Hr, Ha. auto. Qed.

Lemma bounded_trans u P d1 d2 d3 : bounded u P d1 d2 → bounded u P d2 d3 → bounded u P d1 d3.
Proof.
  intros (Hn1 & Hr1 & H1) (Hn2 & Hr2 & H2). split_and!; [congruence..|].
  intros a [Ha|(? & ? & n & Hg & ?)]%H2; [by apply H1|]. right. split_and!; [done..|].
  exists n. split; [|done]. unfold global_named in *. by rewrite <-Hn1, <-Hr1.
Qed.

Lemma assign_named_bounded u (P : string → Prop) d n d' :
  P n → assign_named default_tenant u d n = Ok d' → bounded u P d d'.
Proof.
  intros HP (r & Hg & ->)%assign_named_ok. split_and!; [done..|]. simpl. intros a.
  rewrite elem_of_app, list_elem_of_singleton. intros [?| ->]; [by left|]. right. split_and!; [done..|]. by exists n.
Qed.

Lemma sync_bounded u p v (P : string → Prop) d o d' :
  (∀ n, n ∈ extract_mapped_roles p v → P n) → sync_or_skip default_tenant u p v d = (o, d') → bounded u P d d'.
Proof.
  intros HP. unfold sync_or_skip. destruct (sync_oidc_roles _ _ _ _ _ _) as [res d1] eqn:Hs. intros Hd.
  assert (d' = d1) as -> by (destruct res; by simplify_eq).
  apply sync_cases in Hs as [[_ ->]|(_ & _ & ->)]; [by apply bounded_same|]. split_and!; [done..|].
  intros a. simpl. rewrite elem_of_app, list_elem_of_filter, list_elem_of_fmap. setoid_rewrite list_elem_of_fmap.
  intros [[_ ?]|(r & -> & [r' n] & -> & Hin)]; [by left|]. right. apply elem_of_roles_named in Hin as [Hin Hg].
  split_and!; [done..|]. exists n. auto.
Qed.

Lemma sync_unapplied u p v d o d' :
  sync_or_skip default_tenant u p v d = (o, d') → o ≠ Applied → d' = d.
Proof.
  unfold sync_or_skip. destruct (sync_oidc_roles _ _ _ _ _ _) as [res d1] eqn:Hs.
  apply sync_cases in Hs as [[_ ->]|(-> & _)]; [destruct res|]; intros [= <- <-] Hn; done.
Qed.

Lemma deferred_bounded u i ms (P : string → Prop) d o d' :
  (∀ p c n, providers d !! i = Some p → role_mapping p !! c = Some n → P n) →
  deferred_sync default_tenant u i ms d = (o, d') →
  bounded u P d d' ∧ (snd <$> o ≠ Some Applied → d' = d).
Proof.
  intros HP. unfold deferred_sync. case_decide; [intros [= <- <-]; split; [by apply bounded_same|done]|].
  destruct (find_active_provider _ _ _) as [p|] eqn:Hp; [|intros [= <- <-]; split; [by apply bounded_same|done]].
  destruct (sync_or_skip _ _ _ _ _) as [o1 d1] eqn:Hs. intros [= <- <-]. split.
  - eapply sync_bounded; [|exact Hs]. intros n. unfold extract_mapped_roles.
    intros (c & _ & Hc)%list_elem_of_omap. eapply HP; [|exact Hc]. unfold find_active_provider in Hp.
    destruct (providers d !! i) as [p'|]; [|done]. destruct (_ && _ && _); by simplify_eq.
  - intros Hn. eapply sync_unapplied; [exact Hs|]. simpl in Hn. congruence.
Qed.

(** The default roles, or the roles in [P]. *)
Definition default_or (P : string → Prop) (n : string) : Prop := n = "user" ∨ n = "viewer" ∨ P n.

Lemma viewer_bounded u P d : bounded u (default_or P) d (viewer_or_skip default_tenant u d).
Proof.
  unfold viewer_or_skip. destruct (assign_viewer_role _ _ _) as [d'|e] eqn:Ha; [|by apply bounded_same].
  eapply assign_named_bounded; [|exact Ha]. by right; left.
Qed.

(** The transactions that create an account: the user, the names of roles that the identity
    provider may confer, what the role sync did, the settings to publish. *)
Inductive creates : Db → Uuid → (string → Prop) → option RoleSyncOutcome → option RegistrationSettings → Db → Prop :=
| creates_callback t i p c mail u k d reg o d' :
    callback_txn default_tenant t i p c mail u k d = (Login u true reg o, d') →
    creates d u (λ n, n ∈ extract_mapped_roles p (additional_claims c)) (Some o) reg d'
| creates_complete t r ms mail u k d reg o d' :
    complete_registration_txn default_tenant t r ms mail u k d = (Created reg o, d') →
    creates d u (λ n, ∃ p c, providers d !! pr_provider_id r = Some p ∧ role_mapping p !! c = Some n) (snd <$> o) reg d'
| creates_register mail h u d reg o d' :
    register_txn default_tenant mail h u d = (Created reg o, d') →
    creates d u (λ _, False) None reg d'.

(** A callback that creates an account, step by step. *)
Lemma callback_created t i p c mail u k d reg o d' :
  callback_txn default_tenant t i p c mail u k d = (Login u true reg o, d') →
  ∃ d1 d2, create_oidc_user t default_tenant i (id_sub c) mail u k d = Ok d1 ∧
    handle_first_user_setup default_tenant u 1 Clear d1 = Ok (reg, d2) ∧
    sync_or_skip default_tenant u p (additional_claims c) d2 = (o, d').
Proof.
  unfold callback_txn, resolve_oidc_user. destruct (negb _); [done|]. set (linked := mbind _ _).
  destruct linked as [[v w]|].
  { destruct (Auth.is_active w); [|done]. destruct (Auth.users _ !! v) as [w'|]; [|done].
    destruct (negb _); [done|]. by destruct (sync_or_skip _ _ _ _ _). }
  destruct (user_by_email mail d) as [[v w]|].
  { destruct (negb _); [done|]. destruct (other_provider i v d); [done|]. by destruct (none _). }
  destruct (negb _); [done|].
  destruct (create_oidc_user _ _ _ _ _ _ _ _) as [d1|e] eqn:Hc; [|done]. simpl.
  destruct (handle_first_user_setup _ _ _ _ _) as [[reg' d2]|e] eqn:Hh; [|done].
  destruct (sync_or_skip _ _ _ _ _) as [o' d3] eqn:Hs. intros [= <- <- <-]. by exists d1, d2.
Qed.

Lemma create_oidc_bounded t i subject mail u k P d d' :
  create_oidc_user t default_tenant i subject mail u k d = Ok d' →
  bounded u (default_or P) d d' ∧ settings d' = settings d.
Proof.
  unfold create_oidc_user. intros Hc. apply bind_ok in Hc as (d1 & (_ & _ & ->)%insert_user_ok & Hc).
  apply bind_ok in Hc as (d2 & (_ & -> & _)%insert_link_ok & Hc). injection Hc as <-.
  unfold assign_default_role. destruct (assign_named _ _ _ _) as [d'|e] eqn:Ha; [|split; [by apply bounded_same|done]].
  split; [|by apply assign_named_frame in Ha as [a ->]].
  eapply assign_named_bounded in Ha; [exact Ha|by left].
Qed.

(** A creation: the user is inserted and linked, the bootstrap runs on the result, and then
    only roles change. *)
Lemma creates_parts d u P o reg d' :
  creates d u P o reg d' →
  Auth.users (auth d) !! u = None ∧
  (∃ w, Auth.is_active w = true ∧ Auth.users (auth d') = <[u := w]> (Auth.users (auth d))) ∧
  ∃ d1 d2 c w, handle_first_user_setup default_tenant u 1 c d1 = Ok (reg, d2) ∧
    Auth.users (auth d1) = <[u := w]> (Auth.users (auth d)) ∧ settings d1 = settings d ∧
    bounded u (default_or P) d d1 ∧ bounded u (default_or P) d2 d' ∧ settings d' = settings d2 ∧
    (reg ≠ None → o ≠ Some Applied → access d' = access d2).
Proof.
  intros Hc. destruct Hc as [t i p c mail u k d reg o d' Hc|t r ms mail u k d reg o d' Hc|mail h u d reg o d' Hc].
  - pose proof (callback_cases _ _ _ _ _ _ _ _ _ _ _ Hc) as (_ & _ & _ & _ & (Hu & _) & Hus & _).
    split; [done|]. split; [eexists; split; [|exact Hus]; done|]. apply callback_created in Hc as (d1 & d2 & Hc & Hh & Hs).
    pose proof (create_oidc_user_ok _ _ _ _ _ _ _ _ _ Hc) as (_ & _ & Ha & _).
    destruct (create_oidc_bounded _ _ _ _ _ _ (λ n, n ∈ extract_mapped_roles p (additional_claims c)) _ _ Hc) as [Hb Hset].
    exists d1, d2, Clear, (Auth.mkUser mail true None). pose proof (sync_frame _ _ _ _ _ _ _ Hs) as [a Ha'].
    split_and!; [done|by rewrite Ha|done|done| |by subst|].
    + eapply sync_bounded; [|exact Hs]. intros n Hn. by right; right.
    + intros _ Hn. f_equal. eapply sync_unapplied; [exact Hs|]. congruence.
  - pose proof (complete_cases _ _ _ _ _ _ _ _ _ _ Hc) as (_ & (Hu & _) & Hus & _). split; [done|]. split; [eexists; split; [|exact Hus]; done|].
    unfold complete_registration_txn in Hc. destruct (negb _); [done|].
    destruct (insert_user _ _ _) as [d1|e] eqn:Hi; [|done]. apply insert_user_ok in Hi as (_ & _ & ->).
    destruct (insert_link _ _ _) as [d2|e] eqn:Hl; [|done]. apply insert_link_ok in Hl as (_ & -> & _).
    set (d2 := set_links _ _) in *. destruct (handle_first_user_setup _ _ _ _ _) as [[reg' d3]|e] eqn:Hh; [|done].
    set (d4 := if none reg' then viewer_or_skip default_tenant u d3 else d3) in Hc.
    destruct (deferred_sync _ _ _ _ _) as [s d5] eqn:Hs. injection Hc as -> -> ->.
    pose proof (first_user_frame _ _ _ _ _ _ _ Hh) as (Hr & _ & _).
    set (P := λ n, ∃ p c, providers d !! pr_provider_id r = Some p ∧ role_mapping p !! c = Some n).
    assert (bounded u (default_or P) d3 d4 ∧ settings d4 = settings d3 ∧ providers d4 = providers d) as (Hb4 & Hs4 & Hp4).
    { unfold rest in Hr. assert (providers d3 = providers d) as Hp by (by simplify_eq/=).
      unfold d4. destruct (none reg); [|split_and!; [by apply bounded_same|done|done]].
      split; [apply viewer_bounded|]. by destruct (viewer_frame default_tenant u d3) as [a ->]. }
    pose proof (deferred_frame _ _ _ _ _ _ _ Hs) as [a Ha].
    destruct (deferred_bounded u (pr_provider_id r) ms (default_or P) d4 o d') as [Hb5 Hsame]; [|exact Hs|].
    { rewrite Hp4. intros p c n Hp Hn. right; right. by exists p, c. }
    exists d2, d3, Keep, (Auth.mkUser mail true None). split_and!; try done.
    + by apply bounded_same.
    + by eapply bounded_trans.
    + rewrite <-Hs4. by subst d'.
    + intros Hreg Ho. rewrite (Hsame Ho). unfold d4. by destruct reg.
  - pose proof (register_cases _ _ _ _ _ _ _ Hc) as (_ & _ & Hu & _ & Hus). split; [done|]. split; [eexists; split; [|exact Hus]; done|].
    unfold register_txn in Hc. destruct (negb _); [done|].
    destruct (insert_user _ _ _) as [d1|e] eqn:Hi; [|done]. apply insert_user_ok in Hi as (_ & _ & ->).
    set (d1 := set_auth _ _) in *. destruct (handle_first_user_setup _ _ _ _ _) as [[reg' d2]|e] eqn:Hh; [|done].
    injection Hc as -> _ <-. exists d1, d2, Keep, (Auth.mkUser mail true (Some h)). split_and!; try done.
    + by apply bounded_same.
    + destruct (none reg); [apply viewer_bounded|by apply bounded_same].
    + destruct (none reg); [|done]. by destruct (viewer_frame default_tenant u d2) as [a ->].
    + intros Hreg _. by destruct reg.
Qed.

(** C14: the first account becomes the owner, and no later one can. A transaction that creates an
    account (through [register], a completed registration or the callback) creates an active
    user that did not exist. If the user table was empty it closes registration, in the stored
    settings and in the snapshot to be published, and the user holds every owner role (unless
    the provider's own role sync then replaced them, which the lockout guard allowed). If it
    was not, the settings stay as they are and every assignment the transaction adds is the
    new user's, in the default tenant, of a global role that is a default role or one that the
    identity provider maps. *)
Theorem owner_bootstrap d u P o reg d' :
  creates d u P o reg d' →
  Auth.users (auth d) !! u = None ∧
  (∃ w, Auth.is_active w = true ∧ Auth.users (auth d') = <[u := w]> (Auth.users (auth d))) ∧
  (Auth.users (auth d) = ∅ →
     reg = Some closed ∧ from_raw default_tenant (settings d') = closed ∧
     (o ≠ Some Applied → ∀ n, n ∈ OWNER_ROLES → ∃ r, global_named d r n ∧
        mkAssignment default_tenant u r ∈ user_roles (access d'))) ∧
  (Auth.users (auth d) ≠ ∅ →
     reg = None ∧ settings d' = settings d ∧
     ∀ a, a ∈ user_roles (access d') → a ∈ user_roles (access d) ∨
       as_tenant_id a = default_tenant ∧ as_user_id a = u ∧
       ∃ n, global_named d (as_role_id a) n ∧ default_or P n).
Proof.
  intros (Hu & Hw & d1 & d2 & c & w & Hh & Hus & Hset & Hb1 & Hb2 & Hset' & Hsame)%creates_parts.
  assert (size (Auth.users (auth d1)) = S (size (Auth.users (auth d)))) as Hsize by (rewrite Hus; by apply map_size_insert_None).
  split_and!; [done|done|..].
  - intros He. assert (size (Auth.users (auth d)) = 0%nat) as H0 by (by apply map_size_empty_iff).
    apply first_user_cases in Hh as [(? & _)|(_ & -> & Hraw & Hroles)]; [lia|].
    split_and!; [done|by rewrite Hset'|]. intros Ho n Hn. destruct (Hroles n Hn) as (r & Hg & Hin).
    exists r. rewrite Hsame by done. split; [|done]. destruct Hb1 as (Hrn & Hr & _).
    unfold global_named in *. by rewrite <-Hrn, <-Hr.
  - intros Hne. assert (size (Auth.users (auth d)) ≠ 0%nat) as H0 by (by rewrite map_size_empty_iff).
    apply first_user_cases in Hh as [(_ & -> & ->)|(? & _)]; [|lia].
    split_and!; [done|congruence|]. apply (bounded_trans _ _ _ _ _ Hb1 Hb2).
Qed.
End Roles.
End OidcAccounts.
