(* ===== verification/OidcWitnesses.v ===== *)
(** OpenID Connect sign-in on concrete data: one provider and its users, on which the
    hypotheses of the theorems hold. Third-party functions are instantiated by simple
    concrete ones. *)

From Stdlib Require Import Ascii.
From stdpp Require Import base list gmap sets strings numbers relations pretty.
From S2P Require Import Prelude RustStr Json Handlers AccessVocab AccessTheorems AccessGrants AccessEngine GrantLemmas AccessDecisions Lockout OAuthStore TokenDenylist AuthStore AuthRoutes OidcStore OidcRoutes OidcTheorems OidcFlows OidcAccounts.
Local Open Scope Z_scope.

Module OidcExamples.
Import Oidc OidcApi OidcFacts OidcFlow OidcAccounts.

#[local] Existing Instance demo_serde.
#[local] Instance plain_auth : Auth.AuthEnv := {
  sha256 := id; argon2_hash p := Ok p; argon2_verify p h := Ok (bool_decide (p = h));
  totp_check sec code n := None;
  encode_jwt c := Ok (Auth.sub c +:+ "@" +:+ Auth.cl_auth_method c);
  decode_jwt n jwt := Err "expired";
  uuid_text := pretty; parse_uuid s := None; to_uppercase := id }.
#[local] Instance plain_oidc : OidcEnv := {
  url_ok _ := true; url_has_host _ := true; pct := id;
  authorize_url p uri st n v scopes := issuer_url p +:+ "?state=" +:+ st;
  map_order := map_to_list; map_order_perm m := Permutation_refl _ }.

Definition provider : Provider :=
  mkProvider 1%N "corp" "https://idp" "client" "openid email" true false (Some "groups")
    {[ "admins" := "administrator"; "staff" := "viewer" ]} true None.
(** The provider knows Dana, and answers only with the flow's own verifier and nonce. *)
Definition dana : IdClaims :=
  mkIdClaims "sub-dana" (Some "Dana@X") (Some true) (JObject [("groups", JArray [JString "staff"])]).
Definition idp : IdP := mkIdP (λ _ _ _, true)
  (λ _ code v n _ _, if decide (code = "c" ∧ v = "ver" ∧ n = "nce") then Ok dana else Err TokenExchangeFailed).

(** Users 10 and 11 of the access-control example; role 5 administers, role 6 views. *)
Definition auth0 (us : gmap Uuid Auth.User) : Auth.Db :=
  Auth.mkDb us ∅ ∅ ∅ ∅ ∅ ∅ (Denylist.mkSys {[ 0%nat := Denylist.new ]} ∅ ∅) (secs 1000).
Definition two_users : gmap Uuid Auth.User :=
  {[ 10%N := Auth.mkUser "root@x" true (Some "password"); 11%N := Auth.mkUser "eve@x" true (Some "password") ]}.
Definition owner_names : gmap Uuid string := list_to_map (zip [20; 21; 22; 23; 24; 25; 26; 27]%N OWNER_ROLES).
Definition access0 : Grants.Db :=
  Grants.with_roles (<[ 5%N := None ]> ((λ _, None) <$> owner_names)) (Grants.user_roles demo_db) demo_db.
Definition db_with (us : gmap Uuid Auth.User) (reg : RegistrationSettings) : Db :=
  mkDb (auth0 us) access0 (<[ 5%N := "administrator" ]> owner_names) ∅ {[ 7%N := provider ]} ∅ ∅ ∅ ∅ ∅
    {[ "oauth.canonical_host" := JString "up.example" ]} reg.
Definition open : RegistrationSettings := mkRegistration Open None false.
Definition invite : RegistrationSettings := mkRegistration Invite (Some "invitation") false.
Definition db0 : Db := db_with two_users open.
Definition draw : Draws := mkDraws 100%N 101%N 102%N 103%N 104%N "t1" "t2".

Definition after {R} (h : Server R) (d : Db) : Db := (run h d).1.2.
Lemma oidc_run_answers {R} (env : relation Db) (h : Server R) d r :
  (run h d).1.1 = r → runs env h d r (after h d) (run h d).2.
Proof. intros <-. apply run_runs. Qed.
Lemma alone (d d' : Db) : rtc (λ _ _ : Db, False) d d' → d' = d.
Proof. by inversion 1. Qed.

(** Dana signs in: the flow, the callback that creates her account, the exchange. *)
Definition authorize : Server Response := oidc_authorize 1%N idp 7%N (Some "https://evil/") "st" "nce" "ver".
Definition callback : Server Response := oidc_callback 1%N idp None (Some "c") (Some "st") draw.
Definition db1 : Db := after authorize db0.
Definition db2 : Db := after callback db1.
Example sign_in :
  (run authorize db0).1.1 = AuthorizeBody "https://idp?state=st" ∧
  (run callback db1).1.1 = ExchangeRedirect (Some "https://up.example") "t1" ∧
  (run (oidc_exchange "t1" draw) db2).1.1 = AuthBody 200 "100@oidc" "t2".
Proof. by vm_compute. Qed.

Lemma oidc_login_justified_witness :
  ∃ f p c, flows db1 !! "st" = Some f ∧ find_active_provider 1%N (fl_provider_id f) db2 = Some p ∧
    id_email_verified c = Some true ∧ is_Some (exchanges db2 !! 102%N).
Proof.
  destruct (oidc_login_justified 1%N (λ _ _ : Db, False) idp None (Some "c") (Some "st") draw db1
    (Some "https://up.example") "t1" db2 (run callback db1).2)
    as (st & cd & f & p & allow & c & mail & d1 & d2 & d3 & v & t & _ & _ & Hst & Hf & Hs & Hp & _ & _ & Hv & _ & _ & _ & _ & He).
  { refine (oidc_run_answers _ callback db1 _ _). by vm_compute. }
  injection Hst as <-. destruct Hf as (da & db & dc & f' & Ha & Hb & Hf & _).
  apply alone in Ha as ->. apply alone in Hb as ->.
  exists f, provider, c. split_and!; [exact Hf| |exact Hv|by eexists].
  vm_compute in Hf. injection Hf as <-. by vm_compute.
Defined.

Lemma redirects_pinned_witness :
  ∃ f, flows db1 !! "st" = Some f ∧ redirect_uri f = "https://up.example/api/v1/auth/oidc/callback".
Proof.
  destruct (proj1 (redirects_pinned 1%N (λ _ _ : Db, False) idp db0 db1 (run authorize db0).2)
    7%N (Some "https://evil/") "st" "nce" "ver" "https://idp?state=st") as (b & f & p & d1 & d2 & _ & Hs & _ & Hp & Hf & _).
  - apply oidc_run_answers. by vm_compute.
  - apply alone in Hs as ->. exists f. split; [exact Hf|]. by destruct Hp.
Defined.

(** Eve's address at the provider: she has to show that the account is hers. *)
Definition eve : IdClaims := mkIdClaims "sub-eve" (Some "eve@x") (Some true) (JObject []).
Definition idp_eve : IdP := mkIdP (λ _ _ _, true) (λ _ _ _ _ _ _, Ok eve).
Definition db_link : Db := after (oidc_callback 1%N idp_eve None (Some "c") (Some "st") draw) db1.
Definition draw2 : Draws := mkDraws 200%N 201%N 202%N 203%N 204%N "t3" "t4".
Definition link_right : Server Response := oidc_link 1%N "t1" (Some "password") None draw2.
Example linking :
  (run (oidc_callback 1%N idp_eve None (Some "c") (Some "st") draw) db1).1.1
    = LinkRedirect (Some "https://up.example") "eve@x" "t1" None ∧
  (run (oidc_link 1%N "t1" (Some "wrong password") None draw2) db_link).1.1 = ErrorResponse 401 "Verification failed" ∧
  (run link_right db_link).1.1 = AuthBody 200 "11@oidc" "t4".
Proof. by vm_compute. Qed.

Lemma account_link_needs_owner_witness :
  ∃ l, links (after link_right db_link) !! 200%N = Some l ∧ l_user_id l = 11%N ∧
  ∃ tk, pending_links db_link !! 103%N = Some tk ∧ pl_user_id tk = 11%N.
Proof.
  destruct (links (after link_right db_link) !! 200%N) as [l|] eqn:Hl; [|by vm_compute in Hl].
  assert (∀ a b : Db, False → no_new_link (id1 draw2) a b) as HY by done.
  assert (links db_link !! id1 draw2 = None) as Hn by (by vm_compute).
  exists l. split; [done|]. destruct (proj1 (account_link_needs_owner 1%N (λ _ _ : Db, False) "t1" (Some "password") None draw2 db_link
    (AuthBody 200 "11@oidc" "t4") (after link_right db_link) (run link_right db_link).2 l
    HY Hn)) as (tk & d1 & d2 & Ht & _ & _ & Hu & _).
  - apply oidc_run_answers. by vm_compute.
  - exact Hl.
  - assert (l_user_id l = 11%N) as Hl11 by (vm_compute in Hl; by injection Hl as <-).
    split; [done|]. destruct (pending_links db_link !! 103%N) as [r|] eqn:Hr; [|by vm_compute in Hr].
    exists r. split; [done|]. vm_compute in Hr. by injection Hr as <-.
Defined.

Lemma exchange_redeemed_once_witness :
  ∃ k e, exchanges db2 !! k = Some e ∧ ex_user_id e = 100%N ∧
    let d := (delete_exchange (secs 1000) k db2).2 in
    (run (oidc_exchange "t1" draw2) d).1.1 = ErrorResponse 400 "Invalid or expired exchange code".
Proof.
  assert (∃ r, exchanges db2 = {[ 102%N := r ]} ∧ ex_user_id r = 100%N) as (r & Hx & Hr).
  { eexists (mkExchange _ _ _ _ _). split; [vm_compute; reflexivity|done]. }
  destruct (exchange_redeemed_once 1%N {[ Auth.hash_token "t1" ]} {[ 102%N ]} "t1" draw2 db2 200 "100@oidc" "t4"
    (after (oidc_exchange "t1" draw2) db2) (run (oidc_exchange "t1" draw2) db2).2)
    as (k & e & d0 & d1 & d2 & d3 & w & t & Hk & Hh & _).
  - set_solver.
  - rewrite Hx, dom_singleton. done.
  - rewrite Hx. intros k1 k2 e1 e2 [<- _]%lookup_singleton_Some [<- _]%lookup_singleton_Some _. done.
  - apply oidc_run_answers. by vm_compute.
  - rewrite Hx in Hk. apply lookup_singleton_Some in Hk as [<- <-].
    exists 102%N, r. split; [by rewrite Hx, lookup_singleton_eq|]. split; [done|]. by vm_compute.
Defined.

(** Registration by invitation. *)
Definition db_invite : Db := db_with two_users invite.
Definition sign_up : Server Response :=
  register (AuthApi.mkSettings true false) 1%N "frank@x" "password" (Some "invitation") draw.
Example signing_up :
  (run sign_up db_invite).1.1 = AuthBody 201 "100@password" "t2" ∧
  (run (register (AuthApi.mkSettings true false) 1%N "frank@x" "password" (Some "guess") draw) db_invite).1.1
    = ErrorResponse 403 "Invalid registration token." ∧
  (run callback (after authorize db_invite)).1.1 = ExchangeRedirect (Some "https://up.example") "t1" ∧
  (run callback (after authorize (db_with ∅ invite))).1.1 = RegistrationRedirect (Some "https://up.example") "t2".
Proof. by vm_compute. Qed.

Lemma registration_gated_witness :
  user_created 100%N ∈ (run sign_up db_invite).2 ∧ admits (registration db_invite) (Some "invitation").
Proof.
  assert (user_created 100%N ∈ (run sign_up db_invite).2) as Hu by (vm_compute; left). split; [done|].
  destruct (proj1 (registration_gated (AuthApi.mkSettings true false) 1%N (λ _ _ : Db, False) db_invite
    (AuthBody 201 "100@password" "t2") (after sign_up db_invite) (run sign_up db_invite).2 100%N Hu)
    "frank@x" "password" (Some "invitation") draw) as (_ & dr & Hs & Ha).
  - apply oidc_run_answers. by vm_compute.
  - apply alone in Hs as ->. exact Ha.
Defined.

(** The first user. *)
Lemma owner_bootstrap_witness :
  let d := db_with ∅ invite in
  let x := register_txn 1%N "root@x" "password" 100%N d in
  from_raw 1%N (settings x.2) = closed ∧
  ∃ r, global_named d r "system_administrator" ∧ Grants.mkAssignment 1%N 100%N r ∈ Grants.user_roles (access x.2).
Proof.
  intros d x. destruct (owner_bootstrap 1%N d 100%N (λ _, False) None (Some closed) x.2) as (_ & _ & Hfirst & _).
  - apply (creates_register 1%N "root@x" "password" 100%N d (Some closed) None). by vm_compute.
  - destruct (Hfirst eq_refl) as (_ & Hraw & Hroles). split; [exact Hraw|]. apply Hroles; [done|]. unfold OWNER_ROLES. do 7 right. left.
Defined.

(** Eve's groups make her a viewer; root keeps the plane. *)
Definition staff : Value := JObject [("groups", JArray [JString "staff"])].
Lemma role_sync_guarded_witness :
  (sync_oidc_roles 1%N 1%N 11%N provider staff db0).1 = Ok Applied ∧
  Grants.mkAssignment 1%N 10%N 5%N ∈ Grants.user_roles (access (sync_oidc_roles 1%N 1%N 11%N provider staff db0).2) ∧
  (sync_oidc_roles 1%N 1%N 10%N provider staff (after (exec (λ d, sync_oidc_roles 1%N 1%N 11%N provider staff d)) db0)).1
    = Ok (SkippedLockout ["viewer"]).
Proof.
  destruct (sync_oidc_roles 1%N 1%N 11%N provider staff db0) as [o d'] eqn:Hs.
  assert (o = Ok Applied) as -> by (vm_compute in Hs; by injection Hs as <-). split; [done|].
  destruct (role_sync_guarded 1%N 1%N 11%N provider staff db0 (Ok Applied) d') as [_ Ha]; [exact demo_table_ok|exact Hs|].
  destruct (Ha eq_refl) as [_ Hr]. split; [|by vm_compute]. apply Hr. rewrite decide_False by (by intros [_ ?]). by vm_compute; left.
Defined.

Lemma deferred_roles_roundtrip_witness :
  extract_mapped_roles provider (build_fake_claims_for_sync provider (extract_mapped_roles provider staff)) = ["viewer"].
Proof. rewrite (proj2 (deferred_roles_roundtrip provider "groups" staff eq_refl)). by vm_compute. Defined.
End OidcExamples.
