(* ===== verification/Egress.v ===== *)
(** Outbound requests: which addresses are private ([crates/shared/types/src/network.rs]), the
    resolver that filters them ([ssrf.rs]), the validation of configured URLs
    ([provider_validation.rs] and the release plugins' [config.rs]), and the clients of
    plugins with their redirect guard ([crates/plugins/infrastructure/core/src/]:
    [redirect.rs], [http_client.rs]).

    URLs are those of the [url] crate, a class with the laws its documentation states; names
    are resolved by a parameter. *)

From Stdlib Require Import Ascii.
From stdpp Require Import base list gmap sets strings numbers pretty.
From S2P Require Import Prelude RustStr ConfigLoader.
Local Open Scope N_scope.

Module Egress.

(** ** Addresses *)

Inductive IpAddr :=
| V4 (a b c d : N)
| V6 (segments : list N).
#[global] Instance IpAddr_eq_dec : EqDecision IpAddr.
Proof. solve_decision. Defined.

(** [IpAddr::from_str] *)
Definition parse_ip (s : string) : option IpAddr :=
  match SocketAddr.read_ipv4_addr s with
  | Some ([a; b; c; d], EmptyString) => Some (V4 a b c d)
  | Some _ => None
  | None => match SocketAddr.read_ipv6_addr s with
            | Some (l, EmptyString) => Some (V6 l)
            | _ => None
            end
  end.

(** [Ipv4Addr::is_private], [is_loopback], [is_unspecified] and the IPv6 ones. *)
Definition v4_private (a b : N) : bool :=
  (a =? 10) || (a =? 172) && (16 <=? b) && (b <=? 31) || (a =? 192) && (b =? 168).
Definition v4_loopback (a : N) : bool := a =? 127.
Definition v4_unspecified (a b c d : N) : bool := (a =? 0) && (b =? 0) && (c =? 0) && (d =? 0).
Definition v6_loopback (l : list N) : bool := bool_decide (l = [0; 0; 0; 0; 0; 0; 0; 1]).
Definition v6_unspecified (l : list N) : bool := bool_decide (l = [0; 0; 0; 0; 0; 0; 0; 0]).

Definition is_private_ip (addr : IpAddr) : bool :=
  match addr with
  | V4 a b c d =>
      v4_private a b || v4_loopback a || v4_unspecified a b c d
      || (a =? 169) && (b =? 254)
      || (a =? 100) && ((64 <=? b) && (b <=? 127))
  | V6 segments =>
      let s0 := default 0 (head segments) in
      v6_loopback segments || v6_unspecified segments
      || (N.land (N.shiftr s0 8) 0xFE =? 0xFC)
      || (N.land s0 0xFFC0 =? 0xFE80)
  end.

Definition ends_with (suf s : string) : bool := if strip_suffix suf s is Some _ then true else false.

(** No character outside ASCII has one of these names, or an end of one, as its lower case, so
    lowering the ASCII letters is enough. *)
Definition is_private_host (host : string) : bool :=
  let lower := lowercase host in
  if bool_decide (lower = "localhost") || ends_with ".local" lower || ends_with ".internal" lower
     || ends_with ".localhost" lower
  then true
  else match parse_ip host with Some addr => is_private_ip addr | None => false end.

(** ** URLs *)

Inductive Host :=
| Domain (name : string)
| Ipv4 (a b c d : N)
| Ipv6 (segments : list N).

Definition ip4_text (a b c d : N) : string :=
  pretty a +:+ "." +:+ pretty b +:+ "." +:+ pretty c +:+ "." +:+ pretty d.

(** The [url] crate: parsing and the accessors of a URL, and the two setters; a host's text is
    the name, the dotted address, or the IPv6 address in brackets. *)
Class UrlLib := {
  Url : Type;
  url_parse : string → Result string Url;
  scheme : Url → string;
  host : Url → option Host;
  port : Url → option N;
  url_path : Url → string;
  url_query : Url → option string;
  url_text : Url → string;
  ip6_text : list N → string;
  set_path : string → Url → Url;
  set_query : option string → Url → Url;
  set_path_keeps p u : scheme (set_path p u) = scheme u ∧ host (set_path p u) = host u ∧ port (set_path p u) = port u;
  set_query_keeps q u : scheme (set_query q u) = scheme u ∧ host (set_query q u) = host u ∧ port (set_query q u) = port u;
  host_v4_bytes u a b c d : host u = Some (Ipv4 a b c d) → a < 256 ∧ b < 256 ∧ c < 256 ∧ d < 256;
}.

Section Clients.
Context `{UrlLib}.

Definition host_str (u : Url) : option string :=
  match host u with
  | Some (Domain s) => Some s
  | Some (Ipv4 a b c d) => Some (ip4_text a b c d)
  | Some (Ipv6 l) => Some ("[" +:+ ip6_text l +:+ "]")
  | None => None
  end.

(** ** Configured URLs *)

Inductive ProviderValidationError := InvalidUrl | MustUseHttps | MissingHost | PrivateHost.

Definition validate_provider_api_base_url (value : string) : Result ProviderValidationError unit :=
  match url_parse value with
  | Err _ => Err InvalidUrl
  | Ok parsed =>
      if negb (bool_decide (scheme parsed = "https")) then Err MustUseHttps
      else match host_str parsed with
           | None => Err MissingHost
           | Some h => if is_private_host h then Err PrivateHost else Ok tt
           end
  end.

(** [PluginConfigValidationError::invalid_field] *)
Inductive ConfigError := InvalidField (field message : string).

(** The check of [api_base_url] that the three release plugins share word for word. *)
Definition check_base_url (value : string) : Result ConfigError unit :=
  match url_parse value with
  | Err e => Err (InvalidField "api_base_url" ("invalid URL: " +:+ e))
  | Ok parsed =>
      if negb (bool_decide (scheme parsed = "https")) then Err (InvalidField "api_base_url" "must use https")
      else match host_str parsed with
           | None => Err (InvalidField "api_base_url" "must include a host")
           | Some h => if is_private_host h
                       then Err (InvalidField "api_base_url" "must not point to private/loopback addresses")
                       else Ok tt
           end
  end.

(** [chars().any(char::is_control)]: the characters up to U+001F and from U+007F to U+009F,
    by their UTF-8 bytes *)
Fixpoint has_control (s : string) : bool :=
  match s with
  | EmptyString => false
  | String a s' =>
      (N_of_ascii a <? 32) || (N_of_ascii a =? 127)
      || (N_of_ascii a =? 194)
         && match s' with String b _ => (128 <=? N_of_ascii b) && (N_of_ascii b <=? 159) | EmptyString => false end
      || has_control s'
  end.

Definition MAX_VERSION_PREFIX_LENGTH : nat := 256.
Definition validate_version_prefix (prefix field_name : string) : Result string unit :=
  if str_is_empty prefix then Err (field_name +:+ " must not be empty (omit the field instead)")
  else if negb (bool_decide (prefix = trim prefix)) || has_control prefix
  then Err (field_name +:+ " must not contain leading/trailing whitespace or control characters")
  else if (MAX_VERSION_PREFIX_LENGTH <? str_len prefix)%nat
  then Err (field_name +:+ " exceeds maximum length of 256 bytes (" +:+ pretty (N.of_nat (str_len prefix)) +:+ " bytes)")
  else Ok tt.

(** The regular expression compiler. *)
Context (regex_new : string → Result string unit).

Definition check_pattern (pattern : string) : Result ConfigError unit :=
  match regex_new pattern with
  | Err e => Err (InvalidField "asset_patterns" ("invalid regex pattern '" +:+ pattern +:+ "': " +:+ e))
  | Ok _ => Ok tt
  end.
Definition check_tag_prefix (prefix : option string) : Result ConfigError unit :=
  match prefix with
  | None => Ok tt
  | Some p => match validate_version_prefix p "tag_prefix" with
              | Err e => Err (InvalidField "tag_prefix" e)
              | Ok _ => Ok tt
              end
  end.

Record ForgejoConfig := mkForgejo {
  fj_auth_token : option string; fj_api_base_url : option string; fj_include_prereleases : bool;
  fj_tag_strip_prefix : string; fj_tag_prefix : option string; fj_asset_patterns : list string }.
Record GitLabConfig := mkGitLab {
  gl_auth_token : option string; gl_api_base_url : option string; gl_include_prereleases : bool;
  gl_tag_strip_prefix : string; gl_asset_patterns : list string }.
Record GitHubConfig := mkGitHub {
  gh_auth_token : option string; gh_api_base_url : option string; gh_include_prereleases : bool;
  gh_tag_strip_prefix : string; gh_tag_prefix : option string; gh_asset_patterns : list string;
  verify_attestation : bool; require_attestation : bool; install_path : option string; make_executable : bool }.

(** The defaults, and the base URL a client is given. *)
Definition forgejo_default : ForgejoConfig := mkForgejo None None false "v" None [].
Definition gitlab_default : GitLabConfig := mkGitLab None None false "v" [].
Definition github_default : GitHubConfig := mkGitHub None None false "v" None [] true false None true.
Definition gitlab_base_url (c : GitLabConfig) : string := default "https://gitlab.com" (gl_api_base_url c).
Definition github_base_url (c : GitHubConfig) : string := default "https://api.github.com" (gh_api_base_url c).

Definition forgejo_validate (c : ForgejoConfig) : Result ConfigError unit :=
  match fj_api_base_url c with
  | None => Err (InvalidField "api_base_url" "is required")
  | Some u => _ ← check_base_url u; _ ← check_tag_prefix (fj_tag_prefix c); for_each check_pattern (fj_asset_patterns c)
  end.
Definition gitlab_validate (c : GitLabConfig) : Result ConfigError unit :=
  _ ← match gl_api_base_url c with Some u => check_base_url u | None => Ok tt end;
  for_each check_pattern (gl_asset_patterns c).

Definition MAX_INSTALL_PATH_LENGTH : nat := 4096.
Definition check_install_path (path : string) : Result ConfigError unit :=
  if str_is_empty path then Err (InvalidField "install_path" "must not be empty")
  else if (MAX_INSTALL_PATH_LENGTH <? str_len path)%nat
  then Err (InvalidField "install_path" "exceeds maximum length of 4096")
  else if negb (starts_with "/" path) then Err (InvalidField "install_path" "must be an absolute path")
  else if bool_decide (".." ∈ split_char "/" path)
  then Err (InvalidField "install_path" "must not contain '..' components")
  else if contains_char Ascii.zero path then Err (InvalidField "install_path" "must not contain null bytes")
  else Ok tt.
Definition github_validate (c : GitHubConfig) : Result ConfigError unit :=
  _ ← match gh_api_base_url c with Some u => check_base_url u | None => Ok tt end;
  _ ← check_tag_prefix (gh_tag_prefix c);
  _ ← for_each check_pattern (gh_asset_patterns c);
  match install_path c with Some p => check_install_path p | None => Ok tt end.

(** ** The resolver *)

Definition resolve (allow_private : bool) (lookup : Result string (list IpAddr)) : Result string (list IpAddr) :=
  match lookup with
  | Err e => Err e
  | Ok addrs =>
      if decide (addrs = []) then Err "DNS lookup returned no addresses"
      else if allow_private then Ok addrs
      else let public := filter (λ a, is_private_ip a = false) addrs in
           if decide (public = [])
           then Err "DNS lookup resolved to private/loopback addresses (blocked by SSRF protection)"
           else Ok public
  end.

(** ** Redirects *)

Inductive SsrfMode := Strict | Permissive.
Inductive RedirectMode := NoRedirects | Limited (hops : nat).
Inductive HopGuardError :=
| SchemeDowngrade (previous target : string)
| PrivateTarget (addr : IpAddr) (target : string).

Definition host_ip (h : option Host) : option IpAddr :=
  match h with
  | Some (Ipv4 a b c d) => Some (V4 a b c d)
  | Some (Ipv6 l) => Some (V6 l)
  | _ => None
  end.

Definition check_hop (previous target : Url) (m : SsrfMode) : Result HopGuardError (option HopGuardError) :=
  if bool_decide (scheme previous = "https") && bool_decide (scheme target = "http")
  then Err (SchemeDowngrade (url_text previous) (url_text target))
  else match host_ip (host target) with
       | Some addr =>
           if is_private_ip addr
           then let err := PrivateTarget addr (url_text target) in
                match m with Strict => Err err | Permissive => Ok (Some err) end
           else Ok None
       | None => Ok None
       end.

Definition MAX_WARNED_HOSTS : nat := 128.
Record WarnDedupe := mkDedupe { hosts : gset string; full_warned : bool }.
Inductive DedupeOutcome := Warn | Debug | FullWarn.

Definition dedupe_decision (d : WarnDedupe) (h : string) : DedupeOutcome * WarnDedupe :=
  if bool_decide (h ∈ hosts d) then (Debug, d)
  else if (MAX_WARNED_HOSTS <=? size (hosts d))%nat then
    if full_warned d then (Debug, d) else (FullWarn, mkDedupe (hosts d) true)
  else (Warn, mkDedupe ({[h]} ∪ hosts d) (full_warned d)).

Inductive Action := Follow | Stop | TooManyRedirects | Refuse (e : HopGuardError).

(** What an attempt logs. *)
Inductive HopLog := GuardedHop (o : DedupeOutcome) | Rejected (e : HopGuardError).

(** [Policy::limited] of the HTTP library: does it follow an attempt, after these URLs? *)
Context (counting : nat → list Url → bool).
Definition limited (hops : nat) (previous : list Url) : Action :=
  if counting hops previous then Follow else TooManyRedirects.

Definition limited_policy (hops : nat) (m : SsrfMode) (d : WarnDedupe) (previous : list Url) (target : Url)
    : Action * list HopLog * WarnDedupe :=
  match last previous with
  | None => (limited hops previous, [], d)
  | Some p =>
      match check_hop p target m with
      | Ok None => (limited hops previous, [], d)
      | Ok (Some _) =>
          let '(o, d') := dedupe_decision d (default "<no-host>" (host_str target)) in
          (limited hops previous, [GuardedHop o], d')
      | Err e => (Refuse e, [Rejected e], d)
      end
  end.
Definition into_policy (r : RedirectMode) (m : SsrfMode) (d : WarnDedupe) (previous : list Url) (target : Url)
    : Action * list HopLog * WarnDedupe :=
  match r with
  | NoRedirects => (Stop, [], d)
  | Limited hops => limited_policy hops m d previous target
  end.

(** ** Clients *)

Record ClientConfig := mkClientConfig {
  user_agent : string; ssrf_mode : SsrfMode; default_headers : option (list (string * string));
  request_timeout_secs : N; redirect : RedirectMode; danger_accept_invalid_certs : bool }.
Definition default_config : ClientConfig := mkClientConfig "uptrakit-plugin" Strict None 60 NoRedirects false.

(** The settings of a built client: its policy, resolver, certificates, timeouts and headers.
    Building fails only when the TLS library does not start. *)
Record Client := mkClient {
  policy : WarnDedupe → list Url → Url → Action * list HopLog * WarnDedupe;
  resolver : Result string (list IpAddr) → Result string (list IpAddr);
  any_certificate : bool; connect_timeout_secs : N; timeout_secs : N; agent : string;
  headers : list (string * string) }.
Definition build_plugin_http_client (c : ClientConfig) : Client :=
  mkClient (into_policy (redirect c) (ssrf_mode c))
    (resolve match ssrf_mode c with Strict => false | Permissive => true end)
    (danger_accept_invalid_certs c) 10 (request_timeout_secs c) (user_agent c) (default [] (default_headers c)).
Definition build_base_http_client (allow_private_urls : bool) : Client :=
  build_plugin_http_client
    (mkClientConfig "uptrakit" (if allow_private_urls then Permissive else Strict) (default_headers default_config)
       (request_timeout_secs default_config) (Limited 10) (danger_accept_invalid_certs default_config)).

(** [rebase_to_origin], without its log line. *)
Definition rebase_to_origin (origin candidate : Url) : Url :=
  set_query (url_query candidate) (set_path (url_path candidate) origin).

End Clients.
End Egress.
