(* ===== verification/EgressTheorems.v ===== *)
(** Which addresses outbound requests reach: the private ranges, the redirect chains of a
    strict client, and a validated base URL together with the client that uses it. *)

From Stdlib Require Import Ascii.
From stdpp Require Import base list gmap sets strings numbers pretty.
From S2P Require Import Prelude RustStr Hex ConfigLoader Egress.
Local Open Scope N_scope.

Module EgressFacts.
Import Egress.

(** ** The private ranges *)

(** A block of addresses: those that share the leading [len] bits of [base]. *)
Record Cidr := mkCidr { base : N; len : N }.
Definition in_block (width value : N) (b : Cidr) : bool :=
  value / 2 ^ (width - len b) =? base b / 2 ^ (width - len b).

Definition v4_value (a b c d : N) : N := ((a * 256 + b) * 256 + c) * 256 + d.
Definition v6_value (l : list N) : N := foldl (λ v s, v * 65536 + s) 0 l.

Definition V4_PRIVATE : list Cidr :=
  [mkCidr (v4_value 10 0 0 0) 8; mkCidr (v4_value 172 16 0 0) 12; mkCidr (v4_value 192 168 0 0) 16;
   mkCidr (v4_value 127 0 0 0) 8; mkCidr 0 32; mkCidr (v4_value 169 254 0 0) 16; mkCidr (v4_value 100 64 0 0) 10].
Definition V6_PRIVATE : list Cidr :=
  [mkCidr 1 128; mkCidr 0 128; mkCidr (v6_value [0xfc00; 0; 0; 0; 0; 0; 0; 0]) 7;
   mkCidr (v6_value [0xfe80; 0; 0; 0; 0; 0; 0; 0]) 10].

Definition addr_ok (a : IpAddr) : Prop :=
  match a with
  | V4 a b c d => a < 256 ∧ b < 256 ∧ c < 256 ∧ d < 256
  | V6 l => length l = 8%nat ∧ Forall (λ s, s < 65536) l
  end.
Definition in_private_block (a : IpAddr) : bool :=
  match a with
  | V4 a b c d => existsb (in_block 32 (v4_value a b c d)) V4_PRIVATE
  | V6 l => existsb (in_block 128 (v6_value l)) V6_PRIVATE
  end.

(** Division by a power that cuts between two bytes, or inside the second. *)
Lemma v4_div a b c d :
  a < 256 → b < 256 → c < 256 → d < 256 →
  v4_value a b c d / 2 ^ 24 = a ∧ v4_value a b c d / 2 ^ 16 = a * 256 + b ∧
  v4_value a b c d / 2 ^ 20 = a * 16 + b / 16 ∧ v4_value a b c d / 2 ^ 22 = a * 4 + b / 64.
Proof.
  unfold v4_value. intros. change (2 ^ 24) with 16777216. change (2 ^ 16) with 65536.
  change (2 ^ 20) with 1048576. change (2 ^ 22) with 4194304.
  pose proof (N.div_mod b 16). pose proof (N.mod_lt b 16). pose proof (N.div_mod b 64). pose proof (N.mod_lt b 64).
  split_and!; symmetry.
  - apply N.div_unique with (b * 65536 + c * 256 + d); lia.
  - apply N.div_unique with (c * 256 + d); lia.
  - apply N.div_unique with ((b mod 16) * 65536 + c * 256 + d); lia.
  - apply N.div_unique with ((b mod 64) * 65536 + c * 256 + d); lia.
Qed.

Lemma v4_ranges a b c d :
  a < 256 → b < 256 → c < 256 → d < 256 →
  is_private_ip (V4 a b c d) = in_private_block (V4 a b c d).
Proof.
  intros Ha Hb Hc Hd. destruct (v4_div a b c d) as (H24 & H16 & H20 & H22); [done..|].
  unfold in_private_block, V4_PRIVATE, in_block. cbn [existsb len base].
  change (32 - 8) with 24. change (32 - 12) with 20. change (32 - 16) with 16. change (32 - 32) with 0.
  change (32 - 10) with 22. rewrite H24, H16, H20, H22.
  change (2 ^ 0) with 1. rewrite !N.div_1_r.
  change (v4_value 10 0 0 0 / 2 ^ 24) with 10. change (v4_value 172 16 0 0 / 2 ^ 20) with 2753.
  change (v4_value 192 168 0 0 / 2 ^ 16) with 49320. change (v4_value 127 0 0 0 / 2 ^ 24) with 127.
  change (v4_value 169 254 0 0 / 2 ^ 16) with 43518. change (v4_value 100 64 0 0 / 2 ^ 22) with 401.
  unfold is_private_ip, v4_private, v4_loopback, v4_unspecified, v4_value.
  clear H24 H16 H20 H22.
  pose proof (N.div_mod b 16 ltac:(done)) as H16. pose proof (N.mod_lt b 16 ltac:(done)).
  pose proof (N.div_mod b 64 ltac:(done)) as H64. pose proof (N.mod_lt b 64 ltac:(done)).
  generalize dependent (b mod 16). generalize dependent (b mod 64). generalize (b / 16) (b / 64).
  intros q16 q64 r64 H64 Hr64 r16 H16 Hr16.
  apply eq_bool_prop_intro. rewrite !orb_True, !andb_True, !Is_true_true, !N.eqb_eq, !N.leb_le.
  assert (false = true ↔ False) as -> by done. lia.
Qed.

(** A fact about every number of [k] bits after [acc], by computation. *)
Fixpoint all_bits (k : nat) (f : N → bool) (acc : N) : bool :=
  match k with
  | O => f acc
  | S k' => all_bits k' f (2 * acc) && all_bits k' f (2 * acc + 1)
  end.
Lemma all_bits_spec k f acc : all_bits k f acc = true → ∀ s, s < 2 ^ N.of_nat k → f (acc * 2 ^ N.of_nat k + s) = true.
Proof.
  revert acc. induction k as [|k IH]; intros acc; cbn [all_bits].
  - intros Hf s Hs. change (2 ^ N.of_nat 0) with 1 in *. by replace (acc * 1 + s) with acc by lia.
  - intros [H0 H1]%andb_prop s. rewrite Nat2N.inj_succ, N.pow_succ_r'. intros Hs.
    destruct (N.lt_ge_cases s (2 ^ N.of_nat k)) as [Hlt|Hge].
    + replace (acc * (2 * 2 ^ N.of_nat k) + s) with (2 * acc * 2 ^ N.of_nat k + s) by lia. by apply IH.
    + replace (acc * (2 * 2 ^ N.of_nat k) + s) with ((2 * acc + 1) * 2 ^ N.of_nat k + (s - 2 ^ N.of_nat k)) by nia.
      apply IH; [done|]. lia.
Qed.
Lemma forall_u16 (f : N → bool) : all_bits 16 f 0 = true → ∀ s, s < 65536 → f s = true.
Proof. intros Hf s Hs. by apply (all_bits_spec 16 f 0 Hf s). Qed.

Lemma ula_bits s : s < 65536 → (N.land (N.shiftr s 8) 0xFE =? 0xFC) = (s / 2 ^ 9 =? 126).
Proof.
  intros Hs. apply eqb_prop.
  assert (all_bits 16 (λ s, eqb (N.land (N.shiftr s 8) 0xFE =? 0xFC) (s / 2 ^ 9 =? 126)) 0 = true) as Hall
    by (by vm_compute). exact (forall_u16 _ Hall s Hs).
Qed.
Lemma link_local_bits s : s < 65536 → (N.land s 0xFFC0 =? 0xFE80) = (s / 2 ^ 6 =? 1018).
Proof.
  intros Hs. apply eqb_prop.
  assert (all_bits 16 (λ s, eqb (N.land s 0xFFC0 =? 0xFE80) (s / 2 ^ 6 =? 1018)) 0 = true) as Hall
    by (by vm_compute). exact (forall_u16 _ Hall s Hs).
Qed.

Lemma v6_value_bound l v : Forall (λ s, s < 65536) l → foldl (λ v s, v * 65536 + s) v l < (v + 1) * 65536 ^ N.of_nat (length l).
Proof.
  intros Hl. revert v. induction Hl as [|s l Hs Hl IH]; intros v; cbn [foldl length]; [rewrite N.pow_0_r; lia|].
  specialize (IH (v * 65536 + s)). rewrite Nat2N.inj_succ, N.pow_succ_r'. nia.
Qed.
Lemma v6_value_ge l v : v * 65536 ^ N.of_nat (length l) ≤ foldl (λ v s, v * 65536 + s) v l.
Proof.
  revert v. induction l as [|s l IH]; intros v; cbn [foldl length]; [rewrite N.pow_0_r; lia|].
  specialize (IH (v * 65536 + s)). rewrite Nat2N.inj_succ, N.pow_succ_r'. nia.
Qed.

(** The first segment is the leading 16 bits. *)
Lemma v6_div s l : length l = 7%nat → Forall (λ s, s < 65536) l → v6_value (s :: l) / 2 ^ 112 = s.
Proof.
  intros Hlen Hl. unfold v6_value. cbn [foldl]. rewrite N.mul_0_l, N.add_0_l.
  pose proof (v6_value_bound l s Hl) as Hu. pose proof (v6_value_ge l s) as Hg. rewrite Hlen in Hu, Hg.
  change (65536 ^ N.of_nat 7) with (2 ^ 112) in Hu, Hg. generalize dependent (foldl (λ v s, v * 65536 + s) s l).
  intros v Hu Hg. symmetry. apply N.div_unique with (v - 2 ^ 112 * s); lia.
Qed.

Lemma v6_ranges l :
  length l = 8%nat → Forall (λ s, s < 65536) l → is_private_ip (V6 l) = in_private_block (V6 l).
Proof.
  intros Hlen Hl. destruct l as [|s0 l]; [done|]. simpl in Hlen. injection Hlen as Hlen.
  pose proof (Forall_inv Hl) as Hs0. pose proof (Forall_inv_tail Hl) as Hl'.
  pose proof (v6_div s0 l Hlen Hl') as Hdiv.
  unfold in_private_block, V6_PRIVATE, in_block. cbn [existsb len base is_private_ip default head].
  change (128 - 128) with 0. change (2 ^ 0) with 1. change (128 - 7) with (112 + 9). change (128 - 10) with (112 + 6).
  rewrite !N.div_1_r, !N.pow_add_r, <-!N.Div0.div_div, Hdiv, ula_bits, link_local_bits by done.
  change (v6_value [0xfc00; 0; 0; 0; 0; 0; 0; 0] / 2 ^ 112 / 2 ^ 9) with 126.
  change (v6_value [0xfe80; 0; 0; 0; 0; 0; 0; 0] / 2 ^ 112 / 2 ^ 6) with 1018.
  rewrite orb_false_r, !orb_assoc. f_equal. f_equal.
  unfold v6_loopback, v6_unspecified. clear Hdiv.
  do 8 (destruct l as [|? l]; [try done|]); try done. repeat match goal with HF : Forall _ (_ :: _) |- _ => inversion HF; clear HF; subst end.
  unfold v6_value. cbn [foldl]. apply eq_bool_prop_intro.
  rewrite !orb_True, !Is_true_true, !N.eqb_eq, !bool_decide_eq_true. split.
  - intros [?|?]; simplify_eq; auto.
  - intros [?|?]; [left|right]; repeat f_equal; lia.
Qed.

(** C27: [is_private_ip] is true exactly for the addresses in the blocks its documentation
    lists: for IPv4 10/8, 172.16/12, 192.168/16, 127/8, 0.0.0.0, 169.254/16 and 100.64/10, for
    IPv6 ::1, ::, fc00::/7 and fe80::/10. *)
Theorem is_private_ip_ranges a : addr_ok a → is_private_ip a = in_private_block a.
Proof.
  destruct a as [a b c d|l]; [intros (? & ? & ? & ?); by apply v4_ranges|intros [? ?]; by apply v6_ranges].
Qed.

(** An IPv4 address written as an IPv6 one is in none of the blocks: ::ffff:127.0.0.1. *)
Example mapped_loopback_is_public : is_private_ip (V6 [0; 0; 0; 0; 0; 0xffff; 0x7f00; 1]) = false.
Proof. reflexivity. Qed.

(** ** Dotted addresses read back *)

Definition no_digit_first (s : string) : Prop :=
  match s with String c _ => SocketAddr.to_digit 10 c = None | EmptyString => True end.

Lemma digits_stop s : no_digit_first s → SocketAddr.digits 10 s = ([], s).
Proof. destruct s as [|c s]; simpl; [done|]. by intros ->. Qed.

Lemma digits_app s ds rest :
  SocketAddr.digits 10 s = (ds, EmptyString) → no_digit_first rest → SocketAddr.digits 10 (s +:+ rest) = (ds, rest).
Proof.
  revert ds. induction s as [|c s IH]; intros ds Hs Hrest.
  - simpl in Hs. injection Hs as <-. rewrite append_nil_l. by apply digits_stop.
  - rewrite append_cons. cbn [SocketAddr.digits] in *. destruct (SocketAddr.to_digit 10 c); [|done].
    destruct (SocketAddr.digits 10 s) as [ds' r] eqn:Hd. injection Hs as <- ->. by rewrite (IH ds').
Qed.

(** The decimal text of a byte, as [read_number] wants it. *)
Definition byte_text_ok (n : N) : bool :=
  match SocketAddr.digits 10 (pretty n) with
  | (ds, EmptyString) =>
      negb (bool_decide (ds = [])) && negb (3 <? length ds)%nat
      && negb (bool_decide (head ds = Some 0) && (1 <? length ds)%nat) && (SocketAddr.value 10 ds =? n)
  | _ => false
  end.

Lemma read_octet n rest :
  n < 256 → no_digit_first rest →
  SocketAddr.read_number 10 (Some 3%nat) false 255 (pretty n +:+ rest) = Some (n, rest).
Proof.
  intros Hn Hrest. assert (all_bits 8 byte_text_ok 0 = true) as Hall by (by vm_compute).
  pose proof (all_bits_spec 8 byte_text_ok 0 Hall n Hn) as Hb. change (0 * 2 ^ N.of_nat 8 + n) with n in Hb.
  unfold byte_text_ok in Hb. destruct (SocketAddr.digits 10 (pretty n)) as [ds [|]] eqn:Hd; [|done].
  unfold SocketAddr.read_number. rewrite (digits_app _ ds rest Hd Hrest).
  apply andb_prop in Hb as [[[H1 H2]%andb_prop H3]%andb_prop Hv%N.eqb_eq].
  rewrite decide_False by (by apply negb_true_iff, bool_decide_eq_false in H1).
  apply negb_true_iff in H2, H3. rewrite H2. cbn [negb andb]. rewrite H3, Hv.
  assert (n <=? 255 = true) as -> by (apply N.leb_le; lia). done.
Qed.

Lemma parse_ip4_text a b c d :
  a < 256 → b < 256 → c < 256 → d < 256 → parse_ip (ip4_text a b c d) = Some (V4 a b c d).
Proof.
  intros Ha Hb Hc Hd. unfold parse_ip, ip4_text, SocketAddr.read_ipv4_addr, SocketAddr.octet, SocketAddr.separated.
  rewrite decide_True by done. rewrite read_octet by done. cbn [mbind option_bind].
  rewrite append_cons, append_nil_l. cbn [SocketAddr.given_char Ascii.eqb Bool.eqb mbind option_bind].
  rewrite decide_False by done. rewrite read_octet by done. cbn [mbind option_bind].
  rewrite append_cons, append_nil_l. cbn [SocketAddr.given_char Ascii.eqb Bool.eqb mbind option_bind].
  rewrite decide_False by done. rewrite read_octet by done. cbn [mbind option_bind].
  rewrite append_cons, append_nil_l. cbn [SocketAddr.given_char Ascii.eqb Bool.eqb mbind option_bind].
  rewrite decide_False by done. pose proof (read_octet d "" Hd I) as Hr. rewrite append_nil_r in Hr. rewrite Hr. done.
Qed.

(** ** Redirect chains *)

Section Chains.
Context `{UrlLib} (counting : nat → list Url → bool).

(** The chains of URLs a client requests: the first one, and every redirect its policy
    follows. *)
Inductive follows (c : Client) : list Url → WarnDedupe → Prop :=
| follows_start u : follows c [u] (mkDedupe ∅ false)
| follows_hop us d t logs d' :
    follows c us d → policy c d us t = (Follow, logs, d') → follows c (us ++ [t]) d'.

(** The addresses a request for a URL connects to: the address it names, or those the client's
    resolver lets through. *)
Inductive contacts (c : Client) (lookup : string → Result string (list IpAddr)) : Url → IpAddr → Prop :=
| contacts_literal u a : host_ip (host u) = Some a → contacts c lookup u a
| contacts_name u name addrs a :
    host u = Some (Domain name) → resolver c (lookup name) = Ok addrs → a ∈ addrs → contacts c lookup u a.

Lemma resolve_public r addrs a : resolve false r = Ok addrs → a ∈ addrs → is_private_ip a = false.
Proof.
  unfold resolve. destruct r as [l|]; [|done]. case_decide; [done|]. case_decide; [done|].
  intros [= <-] [? _]%list_elem_of_filter. done.
Qed.

(** A hop the strict guard passes. *)
Lemma check_hop_strict p t o :
  check_hop p t Strict = Ok o →
  ¬ (scheme p = "https" ∧ scheme t = "http") ∧ ∀ a, host_ip (host t) = Some a → is_private_ip a = false.
Proof.
  unfold check_hop. destruct (_ && _) eqn:Hs; [done|]. intros Hc. split.
  - intros [H1 H2]. by rewrite !bool_decide_true in Hs.
  - intros a Ha. rewrite Ha in Hc. by destruct (is_private_ip a).
Qed.

Definition hop_limit (r : RedirectMode) : nat := match r with NoRedirects => 0 | Limited hops => hops end.

(** What is known of a chain of a strict client: every redirect was checked against the URL
    before it, and counted. *)
Lemma follows_strict cfg us d :
  ssrf_mode cfg = Strict → (∀ hops previous, counting hops previous = true → (length previous ≤ hops)%nat) →
  follows (build_plugin_http_client counting cfg) us d →
  ∃ u rest, us = u :: rest ∧ (length rest ≤ hop_limit (redirect cfg))%nat ∧
    ∀ i v t, us !! i = Some v → us !! S i = Some t →
      ¬ (scheme v = "https" ∧ scheme t = "http") ∧ ∀ a, host_ip (host t) = Some a → is_private_ip a = false.
Proof.
  intros Hmode Hcount Hf. induction Hf as [u|us d t logs d' Hf IH Hp].
  { exists u, []. split_and!; [done|simpl; lia|]. intros i v t _ Ht. destruct i; discriminate Ht. }
  destruct IH as (u & rest & -> & Hlen & Hhops). exists u, (rest ++ [t]). split; [done|].
  cbn [policy build_plugin_http_client] in Hp. rewrite Hmode in Hp. unfold into_policy in Hp.
  destruct (redirect cfg) as [|hops]; [done|]. unfold limited_policy in Hp.
  destruct (last (u :: rest)) as [p|] eqn:Hlast; [|by apply last_None in Hlast].
  destruct (check_hop p t Strict) as [o|e] eqn:Hc; [|done].
  assert (limited counting hops (u :: rest) = Follow) as Hl.
  { destruct o; [|congruence]. destruct (dedupe_decision _ _). congruence. }
  assert (counting hops (u :: rest) = true) as Hcnt by (unfold limited in Hl; by destruct (counting _ _)).
  apply Hcount in Hcnt. cbn [length] in Hcnt. split; [rewrite length_app; simpl; lia|].
  intros i v t' Hv Ht'. apply lookup_app_Some in Ht' as [Ht'|[Hi Ht']].
  - rewrite lookup_app_l in Hv; [by eapply Hhops|]. apply lookup_lt_Some in Ht'. lia.
  - apply check_hop_strict in Hc. assert (S i - length (u :: rest) = 0)%nat as Hz.
    { destruct (S i - length (u :: rest))%nat; [done|discriminate Ht']. }
    rewrite Hz in Ht'. injection Ht' as <-. rewrite lookup_app_l in Hv by lia.
    rewrite last_lookup in Hlast. replace (pred (length (u :: rest))) with i in Hlast by lia.
    assert (v = p) as -> by congruence. done.
Qed.

(** Once https, always https, if nothing but http and https is ever requested. *)
Lemma chain_https u rest :
  Forall (λ v, scheme v = "http" ∨ scheme v = "https") (u :: rest) →
  (∀ i v t, (u :: rest) !! i = Some v → (u :: rest) !! S i = Some t → ¬ (scheme v = "https" ∧ scheme t = "http")) →
  scheme u = "https" → Forall (λ v, scheme v = "https") (u :: rest).
Proof.
  revert u. induction rest as [|t rest IH]; intros u Hs Hhops Hu; [by repeat constructor|].
  constructor; [done|]. inversion Hs as [|? ? _ Hs']; subst. apply IH; [done|..].
  - intros i v w Hv Hw. apply (Hhops (S i)); done.
  - inversion Hs' as [|? ? [Ht|Ht] _]; subst; [|done]. exfalso. by apply (Hhops 0%nat u t).
Qed.

Lemma strict_contacts cfg lookup us d :
  ssrf_mode cfg = Strict → (∀ hops previous, counting hops previous = true → (length previous ≤ hops)%nat) →
  follows (build_plugin_http_client counting cfg) us d →
  (∀ u a, head us = Some u → host_ip (host u) = Some a → is_private_ip a = false) →
  ∀ v a, v ∈ us → contacts (build_plugin_http_client counting cfg) lookup v a → is_private_ip a = false.
Proof.
  intros Hmode Hcount Hf Hfirst v a Hv Hc.
  destruct (follows_strict _ _ _ Hmode Hcount Hf) as (u & rest & -> & _ & Hhops).
  destruct Hc as [v a Ha|v name addrs a _ Hr Hin].
  - destruct (list_elem_of_lookup_1 _ _ Hv) as [[|i] Hi]; [injection Hi as ->; by apply (Hfirst v a)|].
    destruct (lookup_lt_is_Some_2 (u :: rest) i) as [p Hp].
    { pose proof (lookup_lt_Some _ _ _ Hi). simpl in *. lia. }
    destruct (Hhops i p v Hp Hi) as [_ Hpub]. by apply Hpub.
  - cbn [resolver build_plugin_http_client] in Hr. rewrite Hmode in Hr. by eapply resolve_public.
Qed.

(** The set of hosts warned about stays bounded. *)
Lemma dedupe_bounded cfg us d :
  follows (build_plugin_http_client counting cfg) us d → (size (hosts d) ≤ MAX_WARNED_HOSTS)%nat.
Proof.
  induction 1 as [u|us d t logs d' _ IH Hp]; [cbn [hosts]; rewrite size_empty; unfold MAX_WARNED_HOSTS; lia|].
  cbn [policy build_plugin_http_client] in Hp. unfold into_policy, limited_policy in Hp.
  destruct (redirect cfg); [done|]. destruct (last us); [|by simplify_eq]. destruct (check_hop _ _ _) as [[g|]|]; [|by simplify_eq..].
  destruct (dedupe_decision d _) as [o d1] eqn:Hd. simplify_eq. unfold dedupe_decision in Hd.
  case_bool_decide; [by simplify_eq|]. destruct (Nat.leb_spec MAX_WARNED_HOSTS (size (hosts d))).
  - by destruct (full_warned d); simplify_eq.
  - simplify_eq. cbn [hosts]. rewrite size_union by set_solver. rewrite size_singleton. lia.
Qed.

(** A rebased pagination link keeps the origin's scheme, host and port. *)
Lemma rebase_keeps_origin origin candidate :
  scheme (rebase_to_origin origin candidate) = scheme origin ∧
  host (rebase_to_origin origin candidate) = host origin ∧ port (rebase_to_origin origin candidate) = port origin.
Proof.
  unfold rebase_to_origin.
  destruct (set_query_keeps (url_query candidate) (set_path (url_path candidate) origin)) as (-> & -> & ->).
  apply set_path_keeps.
Qed.

(** C18: a validated base URL and a strict client reach only public addresses. If
    [validate_provider_api_base_url] accepts a value whose host is not an IPv6 literal, then
    whatever the name server and the servers answer, every connection of every redirect chain
    that a strict plugin client follows from it is to an address outside the private ranges;
    the chain makes at most the configured number of redirects; and, as only http and https
    are requested, it never leaves https. The library's counting policy is assumed to follow
    no more redirects than its limit. *)
Theorem validated_url_stays_public cfg lookup value u us d :
  ssrf_mode cfg = Strict →
  (∀ hops previous, counting hops previous = true → (length previous ≤ hops)%nat) →
  validate_provider_api_base_url value = Ok tt → url_parse value = Ok u →
  (∀ l, host u ≠ Some (Ipv6 l)) →
  follows (build_plugin_http_client counting cfg) (u :: us) d →
  (∀ v a, v ∈ u :: us → contacts (build_plugin_http_client counting cfg) lookup v a → is_private_ip a = false) ∧
  (length us ≤ hop_limit (redirect cfg))%nat ∧
  (Forall (λ v, scheme v = "http" ∨ scheme v = "https") us → Forall (λ v, scheme v = "https") (u :: us)).
Proof.
  intros Hmode Hcount Hval Hu Hn6 Hf. unfold validate_provider_api_base_url in Hval. rewrite Hu in Hval.
  case_bool_decide as Hs; [|done]. cbn [negb] in Hval.
  destruct (host_str u) as [h|] eqn:Hh; [|done]. destruct (is_private_host h) eqn:Hp; [done|].
  destruct (follows_strict _ _ _ Hmode Hcount Hf) as (u' & rest & [= <- <-] & Hlen & Hhops). split_and!.
  - eapply strict_contacts; [done|done|exact Hf|]. intros u' a [= <-] Ha.
    unfold host_ip in Ha. destruct (host u) as [[name|a0 b0 c0 d0|l]|] eqn:Hhost; [done| |by destruct (Hn6 l)|done].
    destruct (host_v4_bytes u _ _ _ _ Hhost) as (H1 & H2 & H3 & H4).
    unfold host_str in Hh. rewrite Hhost in Hh. injection Hh as <-. injection Ha as <-.
    unfold is_private_host in Hp. destruct (_ || _); [done|]. by rewrite parse_ip4_text in Hp.
  - done.
  - intros Hall. apply chain_https; [by constructor; [right|]| |done]. intros i v t Hv Ht. by apply (Hhops i).
Qed.
End Chains.

(** An IPv6 literal passes the check of the host's text, whatever the address: the text has
    brackets, which the address parser does not read. *)
Lemma bracketed_host_unchecked s : is_private_host ("[" +:+ s +:+ "]") = false.
Proof.
  assert (lowercase ("[" +:+ s +:+ "]") = "[" +:+ lowercase s +:+ "]") as Hl.
  { induction s as [|c s IH]; [done|]. rewrite !append_cons, !append_nil_l in *. cbn [lowercase] in *.
    injection IH as IH. rewrite append_cons. cbn [lowercase]. by rewrite IH. }
  assert (∀ x y c, Ascii.eqb c "]" = false → ends_with (y +:+ String c "") (x +:+ "]") = false) as He.
  { intros x y c Hc. unfold ends_with. destruct (strip_suffix _ _) as [r|] eqn:Hr; [|done].
    apply strip_suffix_spec in Hr. rewrite <-append_assoc in Hr. exfalso. revert Hr. generalize (r +:+ y) as z. clear -Hc.
    induction x as [|a x IH]; intros z Hz.
    - destruct z as [|? [|]]; try discriminate Hz. rewrite append_nil_l in Hz. injection Hz as <-. done.
    - destruct z as [|? z]; [destruct x; discriminate Hz|]. rewrite !append_cons in Hz. injection Hz as <- Hz. by apply (IH z). }
  unfold is_private_host. rewrite Hl.
  set (x := "[" +:+ lowercase s +:+ "]").
  assert (ends_with ".local" x = false) as -> by exact (He ("[" +:+ lowercase s) ".loca" "l"%char eq_refl).
  assert (ends_with ".internal" x = false) as -> by exact (He ("[" +:+ lowercase s) ".interna" "l"%char eq_refl).
  assert (ends_with ".localhost" x = false) as -> by exact (He ("[" +:+ lowercase s) ".localhos" "t"%char eq_refl).
  rewrite bool_decide_false by done. cbn [orb].
  assert (parse_ip ("[" +:+ s +:+ "]") = None) as ->; [|done]. by vm_compute.
Qed.

(** ** Examples *)

Lemma is_private_ip_ranges_witness : is_private_ip (V4 100 64 0 1) = in_private_block (V4 100 64 0 1).
Proof. apply is_private_ip_ranges. by vm_compute. Defined.

(** URLs of a scheme and a name. *)
Module Demo.
Record PlainUrl := mkPlain { p_scheme : string; p_name : string; p_path : string; p_query : option string }.
#[local] Instance plain_urls : UrlLib := {
  Url := PlainUrl;
  url_parse s := match strip_prefix "https://" s with Some n => Ok (mkPlain "https" n "/" None) | None => Err "relative URL" end;
  scheme := p_scheme; host u := Some (Domain (p_name u)); port _ := None; url_path := p_path; url_query := p_query;
  url_text u := p_scheme u +:+ "://" +:+ p_name u; ip6_text _ := "";
  set_path p u := mkPlain (p_scheme u) (p_name u) p (p_query u);
  set_query q u := mkPlain (p_scheme u) (p_name u) (p_path u) q;
  set_path_keeps _ _ := conj eq_refl (conj eq_refl eq_refl);
  set_query_keeps _ _ := conj eq_refl (conj eq_refl eq_refl);
  host_v4_bytes _ _ _ _ _ Hh := match Hh with end }.

Definition api : Url := mkPlain "https" "api.example" "/" None.
Definition cdn : Url := mkPlain "https" "cdn.example" "/" None.
Definition cfg : ClientConfig := mkClientConfig "test" Strict None 60 (Limited 1) false.
Definition counting (hops : nat) (previous : list Url) : bool := (length previous <=? hops)%nat.
Definition lookup (_ : string) : Result string (list IpAddr) := Ok [V4 127 0 0 1; V4 93 184 216 34].

Lemma chain_witness : follows (build_plugin_http_client counting cfg) [api; cdn] (mkDedupe ∅ false).
Proof. apply (follows_hop _ [api] (mkDedupe ∅ false) cdn []); [apply follows_start|reflexivity]. Qed.

Lemma validated_url_stays_public_witness :
  contacts (build_plugin_http_client counting cfg) lookup cdn (V4 93 184 216 34) ∧
  ¬ contacts (build_plugin_http_client counting cfg) lookup cdn (V4 127 0 0 1).
Proof.
  split; [apply (contacts_name _ _ _ "cdn.example" [V4 93 184 216 34]); [done..|by left]|].
  intros Hc. destruct (validated_url_stays_public counting cfg lookup "https://api.example" api [cdn] (mkDedupe ∅ false))
    as [Hpub _]; [done| |reflexivity|reflexivity|done|exact chain_witness|].
  - intros hops previous Hcnt. by apply Nat.leb_le.
  - assert (is_private_ip (V4 127 0 0 1) = false) as Hf; [|discriminate Hf].
    apply (Hpub cdn); [right; left|exact Hc].
Defined.
End Demo.
End EgressFacts.
