(* ===== verification/Shell.v ===== *)
(** Quoting of values that are put into shell commands: [shell_escape] of
    [crates/shared/command/src/command.rs] (and its copy [shell_quote] in the Docker plugin),
    against a reader of POSIX shell words. *)

From Stdlib Require Import Ascii.
From stdpp Require Import base list strings.
From S2P Require Import Prelude RustStr.

Module Shell.

(** [s.replace('\'', "'\\''")]: every quote closes the quoted text, adds an escaped quote, and
    opens it again. *)
Fixpoint escape_body (s : string) : string :=
  match s with
  | EmptyString => EmptyString
  | String c s' => if Ascii.eqb c "'" then "'\''" +:+ escape_body s' else String c (escape_body s')
  end.
Definition shell_escape (s : string) : string := "'" +:+ escape_body s +:+ "'".

(** ** What a shell reads *)

Inductive Token := Word (w : string) | And | Pipe.
#[global] Instance Token_eq_dec : EqDecision Token.
Proof. solve_decision. Defined.

Inductive Mode := Between | InWord (cur : string) | Quoted (cur : string) | Escaped (cur : string).

Definition push (cur : string) (c : ascii) : string := cur +:+ String c EmptyString.

(** Characters that mean something else than themselves outside quotes. *)
Definition special (c : ascii) : bool :=
  contains_char c "$`();<>*?[#~{}!=" || Ascii.eqb c (ascii_of_N 34) || (N_of_ascii c <? 32)%N.

Definition word_start (m : Mode) : string := match m with InWord cur => cur | _ => EmptyString end.
Definition flush_word (m : Mode) (ts : list Token) : list Token :=
  match m with InWord cur => Word cur :: ts | _ => ts end.

(** The words and operators of a command line that has only literal words, [&&] and [|];
    [None] for anything else (expansions, substitutions, other operators, an open quote). *)
Fixpoint lex (m : Mode) (s : string) : option (list Token) :=
  match s with
  | EmptyString => match m with Between | InWord _ => Some (flush_word m []) | _ => None end
  | String c s' =>
      match m with
      | Quoted cur => if Ascii.eqb c "'" then lex (InWord cur) s' else lex (Quoted (push cur c)) s'
      | Escaped cur => if (N_of_ascii c <? 32)%N then None else lex (InWord (push cur c)) s'
      | Between | InWord _ =>
          if Ascii.eqb c " " then flush_word m <$> lex Between s'
          else if Ascii.eqb c "'" then lex (Quoted (word_start m)) s'
          else if Ascii.eqb c "\" then lex (Escaped (word_start m)) s'
          else if Ascii.eqb c "|" then (λ ts, flush_word m (Pipe :: ts)) <$> lex Between s'
          else if Ascii.eqb c "&"
          then match s' with
               | String d s'' => if Ascii.eqb d "&" then (λ ts, flush_word m (And :: ts)) <$> lex Between s'' else None
               | EmptyString => None
               end
          else if special c then None
          else lex (InWord (push (word_start m) c)) s'
      end
  end.
Definition tokens (s : string) : option (list Token) := lex Between s.

(** ** Quoted values are read back as one word *)

Lemma push_app cur c s : push cur c +:+ s = cur +:+ String c s.
Proof. unfold push. by rewrite append_assoc. Qed.

Lemma lex_body s cur rest : lex (Quoted cur) (escape_body s +:+ "'" +:+ rest) = lex (InWord (cur +:+ s)) rest.
Proof.
  revert cur. induction s as [|c s IH]; intros cur.
  - rewrite append_nil_r. done.
  - cbn [escape_body]. destruct (Ascii.eqb_spec c "'") as [->|Hc].
    + change (lex (Quoted (push cur "'"%char)) (escape_body s +:+ "'" +:+ rest) = lex (InWord (cur +:+ String "'" s)) rest).
      by rewrite IH, push_app.
    + rewrite append_cons. cbn [lex]. destruct (Ascii.eqb_spec c "'"); [done|]. by rewrite IH, push_app.
Qed.

(** An escaped value, at the start of a word, adds exactly its characters to the word. *)
Lemma lex_escaped s m rest :
  (m = Between ∨ ∃ cur, m = InWord cur) →
  lex m (shell_escape s +:+ rest) = lex (InWord (word_start m +:+ s)) rest.
Proof.
  intros Hm. unfold shell_escape. rewrite !append_assoc.
  destruct Hm as [->|[cur ->]]; rewrite append_cons, append_nil_l; cbn [lex Ascii.eqb Bool.eqb word_start]; apply lex_body.
Qed.

(** Plain text: only letters, digits, [_], [-], [.] and [/]. *)
Definition plain (c : ascii) : bool :=
  is_ascii_alphanumeric c || Ascii.eqb c "_" || Ascii.eqb c "-" || Ascii.eqb c "." || Ascii.eqb c "/".

Lemma plain_ordinary c :
  plain c = true →
  Ascii.eqb c " " = false ∧ Ascii.eqb c "'" = false ∧ Ascii.eqb c "\" = false ∧ Ascii.eqb c "|" = false ∧
  Ascii.eqb c "&" = false ∧ special c = false.
Proof. destruct c as [[] [] [] [] [] [] [] []]; vm_compute; intros; try done. Qed.

Lemma lex_plain s m rest :
  (m = Between ∨ ∃ cur, m = InWord cur) → s ≠ "" → all_chars plain s = true →
  lex m (s +:+ rest) = lex (InWord (word_start m +:+ s)) rest.
Proof.
  revert m. induction s as [|c s IH]; intros m Hm Hne Hs; [done|]. cbn [all_chars] in Hs.
  apply andb_prop in Hs as [Hc Hs]. destruct (plain_ordinary c Hc) as (H1 & H2 & H3 & H4 & H5 & H6).
  assert (lex m (String c s +:+ rest) = lex (InWord (push (word_start m) c)) (s +:+ rest)) as ->.
  { rewrite append_cons. destruct Hm as [->|[cur ->]]; cbn [lex]; by rewrite H1, H2, H3, H4, H5, H6. }
  destruct s as [|d s]; [done|]. rewrite IH; [|by right; eexists|done|done].
  cbn [word_start]. by rewrite push_app.
Qed.

(** A word that ends here. *)
Lemma lex_word_next cur rest :
  rest = "" ∨ (∃ r, rest = " " +:+ r) → lex (InWord cur) rest = (λ ts, Word cur :: ts) <$> lex Between rest.
Proof.
  intros [->|[r ->]]; [done|].
  change (flush_word (InWord cur) <$> lex Between r = (λ ts, Word cur :: ts) <$> (flush_word Between <$> lex Between r)).
  by destruct (lex Between r).
Qed.

(** What makes up a command line: plain words, escaped values and [&&], joined by spaces. *)
Inductive Part := Lit (s : string) | Arg (s : string) | AndPart.
Definition part_text (p : Part) : string :=
  match p with Lit s => s | Arg s => shell_escape s | AndPart => "&&" end.
Definition part_token (p : Part) : Token := match p with Lit s | Arg s => Word s | AndPart => And end.
Definition part_ok (p : Part) : bool := match p with Lit s => negb (str_is_empty s) && all_chars plain s | _ => true end.

Lemma lex_part p rest :
  part_ok p = true → (rest = "" ∨ ∃ r, rest = " " +:+ r) →
  lex Between (part_text p +:+ rest) = (λ ts, part_token p :: ts) <$> lex Between rest.
Proof.
  intros Hp Hrest. destruct p as [s|s|]; cbn [part_text part_token].
  - apply andb_prop in Hp as [Hne Hs]. rewrite lex_plain; [|by left|by destruct s|done].
    by rewrite lex_word_next.
  - rewrite lex_escaped by (by left). by rewrite lex_word_next.
  - rewrite !append_cons, append_nil_l. cbn [lex Ascii.eqb Bool.eqb]. done.
Qed.

Lemma lex_join ps :
  forallb part_ok ps = true → lex Between (join " " (map part_text ps)) = Some (map part_token ps).
Proof.
  induction ps as [|p [|q ps] IH]; intros Hps; [done| |]; cbn [forallb] in Hps; apply andb_prop in Hps as [Hp Hps].
  - cbn [map join]. rewrite <-(append_nil_r (part_text p)), lex_part; [done|done|by left].
  - change (join " " (map part_text (p :: q :: ps))) with (part_text p +:+ " " +:+ join " " (map part_text (q :: ps))).
    rewrite lex_part; [|done|by right; eexists].
    change (lex Between (" " +:+ join " " (map part_text (q :: ps)))) with (id <$> lex Between (join " " (map part_text (q :: ps)))).
    by rewrite (IH Hps).
Qed.
End Shell.
