(* ===== verification/DockerImages.v ===== *)
(** Image references and configuration of the Docker release plugin
    ([crates/plugins/releases/docker/src/]: [image_ref.rs], [config.rs]) and the length check of
    commands ([crates/shared/types/src/command_validation.rs]). *)

From Stdlib Require Import Ascii.
From stdpp Require Import base list gmap strings numbers pretty.
From S2P Require Import Prelude RustStr ConfigLoader Egress.
Local Open Scope nat_scope.

Module Docker.

(** ** Strings *)

(** [str::contains(char::is_whitespace)] *)
Fixpoint contains_whitespace (s : string) : bool :=
  match s with
  | EmptyString => false
  | String a s1 =>
      is_ascii_space a
      || match s1 with
         | String b s2 =>
             is_space2 a b || match s2 with String c _ => is_space3 a b c | EmptyString => false end
         | EmptyString => false
         end
      || contains_whitespace s1
  end.

(** [str::find] of a text, as what comes before and after its first occurrence *)
Fixpoint split_str (p s : string) : option (string * string) :=
  match strip_prefix p s with
  | Some r => Some (EmptyString, r)
  | None => match s with
            | EmptyString => None
            | String c s' => '(l, r) ← split_str p s'; Some (String c l, r)
            end
  end.
Definition contains_str (p s : string) : bool := if split_str p s is Some _ then true else false.

(** [str::rfind] of a character, as what comes before and after its last occurrence *)
Fixpoint rsplit_once (c : ascii) (s : string) : option (string * string) :=
  match s with
  | EmptyString => None
  | String a s' =>
      match rsplit_once c s' with
      | Some (l, r) => Some (String a l, r)
      | None => if Ascii.eqb a c then Some (EmptyString, s') else None
      end
  end.

(** [split('/').any(|seg| seg == "..")] *)
Definition has_dotdot (s : string) : bool := bool_decide (".." ∈ split_char "/" s).

(** ** Image references *)

Record ImageRef := mkImageRef {
  registry : string; repository : string; tag : string; image : string; full_ref : string;
  container_name : option string }.

Inductive ParseImageRefError := Invalid (reason : string).
Definition parse_error_text (e : ParseImageRefError) : string :=
  match e with Invalid reason => "invalid image reference: " +:+ reason end.

Definition DEFAULT_REGISTRY : string := "registry-1.docker.io".

Definition name_char (c : ascii) : bool :=
  is_ascii_alphanumeric c || Ascii.eqb c "_" || Ascii.eqb c "." || Ascii.eqb c "-".
(** The loop over the characters after the first one. *)
Fixpoint check_name_chars (s : string) : Result ParseImageRefError unit :=
  match s with
  | EmptyString => Ok tt
  | String c s' =>
      if name_char c then check_name_chars s'
      else Err (Invalid ("container name contains invalid character '" +:+ first_char s
                         +:+ "': only letters, digits, '_', '.', and '-' are allowed"))
  end.
Definition validate_container_name (name : string) : Result ParseImageRefError unit :=
  if str_is_empty name then Err (Invalid "container name after '#' must not be empty")
  else if 253 <? str_len name
  then Err (Invalid ("container name exceeds maximum length of 253 characters (got "
                     +:+ pretty (N.of_nat (str_len name)) +:+ ")"))
  else if contains_whitespace name then Err (Invalid "container name must not contain whitespace")
  else if contains_char "/" name || contains_char "\" name
  then Err (Invalid "container name must not contain path separators")
  else match name with
       | EmptyString => Ok tt
       | String first rest =>
           if negb (is_ascii_alphanumeric first)
           then Err (Invalid ("container name must start with a letter or digit, got '" +:+ first_char name +:+ "'"))
           else check_name_chars rest
       end.

Definition split_image_tag (s : string) : string * string :=
  let '(before, last_segment) := match rsplit_once "/" s with
                                 | Some (l, r) => (l +:+ "/", r)
                                 | None => (EmptyString, s)
                                 end in
  match split_once ":" last_segment with
  | Some (name, t) => (before +:+ name, t)
  | None => (s, "latest")
  end.

(** Is the first component a registry's host name? *)
Definition is_registry (first_component : string) : bool :=
  contains_char "." first_component || contains_char ":" first_component || bool_decide (first_component = "localhost").
Definition infer_registry (img : string) : string :=
  match split_once "/" img with
  | Some (first, _) => if is_registry first then first else DEFAULT_REGISTRY
  | None => DEFAULT_REGISTRY
  end.
Definition resolve_repository (img : string) : string :=
  match split_once "/" img with
  | Some (first, rest) => if is_registry first then rest else img
  | None => "library/" +:+ img
  end.

Definition check_image_part (image_part : string) : Result ParseImageRefError unit :=
  if str_is_empty image_part then Err (Invalid "image reference part must not be empty")
  else if contains_str "//" image_part then Err (Invalid "image reference must not contain '//'")
  else if has_dotdot image_part then Err (Invalid "image reference segments must not be '..'")
  else if contains_whitespace image_part then Err (Invalid "image reference must not contain whitespace")
  else Ok tt.

Definition from_str (s0 : string) : Result ParseImageRefError ImageRef :=
  let s := trim s0 in
  if str_is_empty s then Err (Invalid "image reference must not be empty")
  else
    '(image_part, name) ← match split_once "#" s with
                          | Some (l, n) => _ ← validate_container_name n; Ok (l, Some n)
                          | None => Ok (s, None)
                          end;
    _ ← check_image_part image_part;
    let '(image_no_tag, t) := split_image_tag image_part in
    Ok (mkImageRef (infer_registry image_no_tag) (resolve_repository image_no_tag) t image_no_tag
          (image_no_tag +:+ ":" +:+ t) name).

Definition full_pkg_id (r : ImageRef) : string :=
  match container_name r with Some n => full_ref r +:+ "#" +:+ n | None => full_ref r end.
Definition web_url (r : ImageRef) (tag_or_digest : string) : string :=
  if bool_decide (registry r = DEFAULT_REGISTRY)
  then "https://hub.docker.com/_/" +:+ default (repository r) (strip_prefix "library/" (repository r))
       +:+ "/tags?name=" +:+ tag_or_digest
  else if bool_decide (registry r = "ghcr.io")
  then "https://ghcr.io/" +:+ repository r +:+ ":" +:+ tag_or_digest
  else "https://" +:+ registry r +:+ "/" +:+ repository r +:+ ":" +:+ tag_or_digest.
Definition server_address (r : ImageRef) : string :=
  if bool_decide (registry r = DEFAULT_REGISTRY) then "https://index.docker.io/v1/"
  else "https://" +:+ registry r +:+ "/".

Definition validate_identifier (id : string) : Result string unit :=
  r ← map_err parse_error_text (from_str id);
  let registry_host := match split_once ":" (registry r) with Some (h, _) => h | None => registry r end in
  if Egress.is_private_host registry_host
  then Err ("registry hostname '" +:+ registry_host +:+ "' resolves to a private/internal address")
  else Ok tt.

(** ** Configuration *)

Inductive ContainerRuntime := RuntimeAuto | RuntimeDocker | RuntimePodman.
Inductive DockerAuth := Basic (username password : string) | Bearer (token : string).
#[global] Instance DockerAuth_eq_dec : EqDecision DockerAuth.
Proof. solve_decision. Defined.
Record ComposeRestartConfig := mkCompose {
  compose_file : option string; service : option string; working_dir : option string }.
Record DockerTlsConfig := mkTls {
  ca_cert_path : option string; client_cert_path : option string; client_key_path : option string }.

(** [HashMap] label filters in their iteration order. *)
Record DockerConfig := mkDockerConfig {
  docker_host : option string; ssh_key_path : option string; auth : option DockerAuth;
  tracked_tag : option string; compose_restart : option ComposeRestartConfig;
  post_pull_command : option string; include_labels : list (string * string);
  exclude_labels : list (string * string); tls : option DockerTlsConfig;
  container_runtime : ContainerRuntime; use_system_credentials : bool; platform : option string;
  resumable : bool }.
Definition default_config : DockerConfig :=
  mkDockerConfig None None None None None None [] [] None RuntimeAuto false None false.

Inductive DockerError :=
| Request (message : string)
| ApiError (status : N) (message : string)
| AuthFailed (message : string)
| ParseResponse (message : string)
| Configuration (message : string)
| DaemonConnection (message : string)
| PullFailed (message : string)
| PlatformNotAvailable (wanted img t : string)
| RateLimited.

Definition form_platform_string (os architecture variant : option string) : option string :=
  match os, architecture with
  | Some os, Some arch => Some match variant with
                               | Some v => os +:+ "/" +:+ arch +:+ "/" +:+ v
                               | None => os +:+ "/" +:+ arch
                               end
  | _, _ => None
  end.

Definition MAX_COMMAND_LENGTH : nat := 8192.
Definition validate_command_length (command field_name : string) : Result string unit :=
  if str_is_empty command then Err (field_name +:+ " must not be empty")
  else if MAX_COMMAND_LENGTH <? str_len command
  then Err (field_name +:+ " exceeds maximum length of 8192 bytes (" +:+ pretty (N.of_nat (str_len command)) +:+ " bytes)")
  else Ok tt.

Definition check_opt {E A} (f : A → Result E unit) (o : option A) : Result E unit :=
  match o with Some a => f a | None => Ok tt end.

Definition check_compose (c : ComposeRestartConfig) : Result DockerError unit :=
  _ ← check_opt (λ f, if has_dotdot f then Err (Configuration "compose_file must not contain '..' path segments")
                      else Ok tt) (compose_file c);
  check_opt (λ d, if has_dotdot d then Err (Configuration "working_dir must not contain '..' path segments") else Ok tt)
    (working_dir c).
Definition check_ssh_key (c : DockerConfig) : Result DockerError unit :=
  match docker_host c, ssh_key_path c with
  | Some h, Some k => if starts_with "ssh://" h && str_is_empty k
                      then Err (Configuration "ssh_key_path must not be empty when set") else Ok tt
  | _, _ => Ok tt
  end.
Definition check_tls_path (x : string * option string) : Result DockerError unit :=
  check_opt (λ p, if str_is_empty p then Err (Configuration (x.1 +:+ " must not be empty when set"))
                  else if has_dotdot p then Err (Configuration (x.1 +:+ " must not contain '..' path segments"))
                  else Ok tt) x.2.
Definition check_tls (t : DockerTlsConfig) : Result DockerError unit :=
  for_each check_tls_path
    [("tls.ca_cert_path", ca_cert_path t); ("tls.client_cert_path", client_cert_path t);
     ("tls.client_key_path", client_key_path t)].
Definition check_label (map_name : string) (kv : string * string) : Result DockerError unit :=
  if str_is_empty kv.1 then Err (Configuration (map_name +:+ ": label key must not be empty"))
  else if 253 <? str_len kv.1
  then Err (Configuration (map_name +:+ ": label key '" +:+ kv.1 +:+ "' exceeds maximum length of 253 characters"))
  else if 4096 <? str_len kv.2
  then Err (Configuration (map_name +:+ ": value for label '" +:+ kv.1 +:+ "' exceeds maximum length of 4096 characters"))
  else Ok tt.

(** [splitn(3, '/')] *)
Definition splitn3 (c : ascii) (s : string) : list string :=
  match split_once c s with
  | None => [s]
  | Some (a, r) => match split_once c r with None => [a; r] | Some (b, r') => [a; b; r'] end
  end.
Definition platform_char (c : ascii) : bool :=
  is_ascii_alphanumeric c || Ascii.eqb c "." || Ascii.eqb c "-" || Ascii.eqb c "_".
Definition valid_platform (p : string) : bool :=
  let parts := splitn3 "/" p in
  (2 <=? length parts) && forallb (λ x, negb (str_is_empty x)) parts && forallb (all_chars platform_char) parts.
Definition check_platform (p : string) : Result DockerError unit :=
  if valid_platform p then Ok tt
  else Err (Configuration ("platform '" +:+ p +:+ "' is not a valid OCI platform string (expected os/arch or os/arch/variant, e.g. linux/amd64, linux/arm/v7)")).

Definition validate_inner (c : DockerConfig) : Result DockerError unit :=
  _ ← check_opt (λ cmd, map_err Configuration (validate_command_length cmd "post_pull_command")) (post_pull_command c);
  _ ← check_opt check_compose (compose_restart c);
  _ ← check_ssh_key c;
  _ ← check_opt check_tls (tls c);
  _ ← for_each (check_label "include_labels") (include_labels c);
  _ ← for_each (check_label "exclude_labels") (exclude_labels c);
  check_opt check_platform (platform c).

Definition resolved_tracked_tag (c : DockerConfig) (image_tag : string) : string := default image_tag (tracked_tag c).

(** [parse_platform] and [platform_matches] of [registry.rs] *)
Record OciPlatform := mkOciPlatform { architecture : string; os : string; variant : option string }.
Definition parse_platform (s : string) : string * string * option string :=
  match splitn3 "/" s with
  | [a] => (a, EmptyString, None)
  | [a; b] => (a, b, None)
  | a :: b :: v :: _ => (a, b, Some v)
  | [] => (EmptyString, EmptyString, None)
  end.
Definition platform_matches (entry : OciPlatform) (wanted : string) : bool :=
  let '(want_os, want_arch, want_variant) := parse_platform wanted in
  bool_decide (os entry = want_os) && bool_decide (architecture entry = want_arch)
  && bool_decide (variant entry = want_variant).

(** [container_passes_label_filter] of [plugin.rs] *)
Definition container_passes_label_filter (c : DockerConfig) (labels : gmap string string) : bool :=
  forallb (λ kv, bool_decide (labels !! kv.1 = Some kv.2)) (include_labels c)
  && forallb (λ kv, negb (bool_decide (labels !! kv.1 = Some kv.2))) (exclude_labels c).

End Docker.

(** Image references: what a parsed reference is made of, and that its canonical text parses
    back to it. *)
Module DockerImageFacts.
Import Docker.

(** ** White space *)

Lemma blank_has_whitespace s : is_blank s = true → s = "" ∨ contains_whitespace s = true.
Proof.
  destruct s as [|a [|b [|c s]]]; cbn [is_blank contains_whitespace]; [by left|..]; intros Hb; right.
  - by destruct (is_ascii_space a).
  - destruct (is_ascii_space a); [done|]. by destruct (is_space2 a b).
  - destruct (is_ascii_space a); [done|]. destruct (is_space2 a b); [done|].
    apply andb_prop in Hb as [Hs _]. by rewrite Hs.
Qed.

Lemma no_whitespace_tail c s : contains_whitespace (String c s) = false → contains_whitespace s = false.
Proof. cbn [contains_whitespace]. by intros [_ ?]%orb_false_elim. Qed.

Lemma trim_no_whitespace s : contains_whitespace s = false → trim s = s.
Proof.
  intros Hs. unfold trim. assert (trim_start s = s) as ->.
  { destruct s as [|a [|b [|c s]]]; [done|..]; cbn [trim_start contains_whitespace] in *;
      apply orb_false_elim in Hs as [[Ha Hs]%orb_false_elim _]; rewrite Ha; [done|..];
      apply orb_false_elim in Hs as [-> Hs]; [done|]. by rewrite Hs. }
  induction s as [|c s IH]; [done|]. cbn [trim_end].
  destruct (is_blank (String c s)) eqn:Hb.
  { apply blank_has_whitespace in Hb as [Hb|Hb]; [done|congruence]. }
  rewrite IH; [done|]. by eapply no_whitespace_tail.
Qed.

(** An ASCII byte ends no longer white-space character. *)
Lemma ascii_no_space c : (N_of_ascii c <? 128)%N = true →
  (∀ a, is_space2 a c = false) ∧ (∀ a b, is_space3 a b c = false) ∧ (∀ a b, is_space3 a c b = false).
Proof.
  intros Hc. apply N.ltb_lt in Hc. split_and!; intros a.
  - unfold is_space2. destruct (Ascii.eqb_spec c (ascii_of_N 133)) as [->|]; [done|].
    destruct (Ascii.eqb_spec c (ascii_of_N 160)) as [->|]; [done|]. apply andb_false_r.
  - intros b. unfold is_space3. generalize (N_of_ascii a) (N_of_ascii b). generalize dependent (N_of_ascii c).
    intros n Hn x y. repeat case_match; try done; try lia;
      rewrite !orb_false_iff, andb_false_iff, !N.leb_gt, !N.eqb_neq; lia.
  - intros b. unfold is_space3. generalize (N_of_ascii a) (N_of_ascii b). generalize dependent (N_of_ascii c).
    intros n Hn x y. repeat case_match; try done; try lia.
Qed.

Lemma whitespace_app a c b :
  (N_of_ascii c <? 128)%N = true →
  contains_whitespace (a +:+ String c b) = contains_whitespace a || contains_whitespace (String c b).
Proof.
  intros Hc. destruct (ascii_no_space c Hc) as (H2 & H3 & H3'). induction a as [|x a IH]; [done|].
  rewrite append_cons. destruct a as [|y [|z a]].
  - rewrite append_nil_l in *. cbn [contains_whitespace]. rewrite H2. destruct b as [|d b]; [by rewrite !orb_false_r|].
    rewrite H3'. by rewrite !orb_false_r.
  - rewrite append_cons, append_nil_l in *. cbn [contains_whitespace] in *. rewrite IH, H3. by rewrite !orb_assoc.
  - rewrite !append_cons in *. cbn [contains_whitespace] in *. rewrite IH. by rewrite !orb_assoc.
Qed.

(** ** Splitting *)

Lemma rsplit_once_spec c s l r :
  rsplit_once c s = Some (l, r) ↔ s = l +:+ String c r ∧ contains_char c r = false.
Proof.
  revert l r. induction s as [|a s IH]; intros l r; cbn [rsplit_once].
  - split; [done|]. intros [He _]. by destruct l.
  - destruct (rsplit_once c s) as [[l' r']|] eqn:Hs.
    + split.
      * intros [= <- <-]. destruct (IH l' r') as [[-> Hr] _]; [done|]. done.
      * intros [He Hr]. destruct l as [|b l].
        { rewrite append_nil_l in He. injection He as <- ->. destruct (IH l' r') as [[-> _] _]; [done|].
          rewrite contains_char_app in Hr. cbn [contains_char] in Hr. rewrite Ascii.eqb_refl in Hr.
          by rewrite orb_true_r in Hr. }
        rewrite append_cons in He. injection He as <- ->. destruct (IH l r) as [_ Hlr].
        by injection (Hlr (conj eq_refl Hr)) as -> ->.
    + destruct (Ascii.eqb_spec a c) as [->|Hne].
      * split.
        { intros [= <- <-]. split; [done|]. clear -Hs. destruct (contains_char c s) eqn:Hc; [|done].
          apply not_false_iff_true in Hc. exfalso. apply Hc. clear Hc. induction s as [|d s IH]; [done|].
          cbn [rsplit_once contains_char] in *. destruct (rsplit_once c s) as [[]|]; [done|].
          rewrite IH by done. by destruct (Ascii.eqb_spec d c). }
        { intros [He Hr]. destruct l as [|b l]; [by injection He as ->|]. rewrite append_cons in He.
          injection He as <- ->. destruct (IH l r) as [_ Hlr]. discriminate (Hlr (conj eq_refl Hr)). }
      * split; [done|]. intros [He Hr]. destruct l as [|b l]; [rewrite append_nil_l in He; by injection He as ->|].
        rewrite append_cons in He. injection He as <- ->. destruct (IH l r) as [_ Hlr].
        discriminate (Hlr (conj eq_refl Hr)).
Qed.

Lemma rsplit_once_none c s : rsplit_once c s = None ↔ contains_char c s = false.
Proof.
  induction s as [|a s IH]; [done|]. cbn [rsplit_once contains_char].
  destruct (rsplit_once c s) as [[l r]|] eqn:Hs.
  - apply rsplit_once_spec in Hs as [-> _]. rewrite contains_char_app. cbn [contains_char].
    rewrite Ascii.eqb_refl. rewrite !orb_true_r. done.
  - destruct IH as [IH _]. rewrite IH by done. by destruct (Ascii.eqb_spec a c).
Qed.

(** A tag put back after the image. *)
Lemma split_image_tag_again s img t :
  split_image_tag s = (img, t) → split_image_tag (img +:+ ":" +:+ t) = (img, t) ∧
    (img +:+ ":" +:+ t = s ∨ img = s ∧ t = "latest").
Proof.
  unfold split_image_tag. destruct (rsplit_once "/" s) as [[l r]|] eqn:Hs.
  - apply rsplit_once_spec in Hs as [-> Hr]. destruct (split_once ":" r) as [[n t']|] eqn:Hr'.
    + intros [= <- <-]. pose proof Hr' as Hr''. apply split_once_spec in Hr'' as [-> Hn].
      assert (((l +:+ "/") +:+ n) +:+ ":" +:+ t' = l +:+ String "/" (n +:+ String ":" t')) as ->
        by (by rewrite !append_assoc).
      destruct (rsplit_once_spec "/" (l +:+ String "/" (n +:+ String ":" t')) l (n +:+ String ":" t')) as [_ ->]; [|done].
      rewrite Hr'. by split; [|left].
    + intros [= <- <-]. split; [|by right].
      assert ((l +:+ String "/" r) +:+ ":" +:+ "latest" = l +:+ String "/" (r +:+ String ":" "latest")) as ->
        by (by rewrite append_assoc, append_cons).
      destruct (rsplit_once_spec "/" (l +:+ String "/" (r +:+ String ":" "latest")) l (r +:+ String ":" "latest")) as [_ ->].
      2: { split; [done|]. rewrite contains_char_app, Hr. done. }
      rewrite split_once_app by (by apply split_once_none). by rewrite append_assoc.
  - apply rsplit_once_none in Hs. destruct (split_once ":" s) as [[n t']|] eqn:Hs'.
    + intros [= <- <-]. pose proof Hs' as Hs''. apply split_once_spec in Hs'' as [-> Hn].
      change (("" +:+ n) +:+ ":" +:+ t') with (n +:+ String ":" t').
      apply rsplit_once_none in Hs. rewrite Hs, Hs'. by split; [|left].
    + intros [= <- <-]. split; [|by right].
      change (s +:+ ":" +:+ "latest") with (s +:+ String ":" "latest").
      destruct (rsplit_once_none "/" (s +:+ String ":" "latest")) as [_ ->].
      2: { by rewrite contains_char_app, Hs. }
      rewrite split_once_app by (by apply split_once_none). done.
Qed.

(** ** The checks of an image part, with the default tag added *)

Lemma double_slash_tag s : contains_str "//" (s +:+ ":latest") = contains_str "//" s.
Proof.
  unfold contains_str. induction s as [|a s IH]; [done|]. rewrite append_cons. cbn [split_str strip_prefix].
  destruct (Ascii.eqb "/" a).
  - destruct s as [|b s]; [done|]. rewrite append_cons in *. cbn [strip_prefix].
    destruct (Ascii.eqb "/" b); [done|]. destruct (split_str "//" (String b (s +:+ ":latest"))) as [[]|],
      (split_str "//" (String b s)) as [[]|]; done.
  - destruct (split_str "//" (s +:+ ":latest")) as [[]|], (split_str "//" s) as [[]|]; done.
Qed.

Lemma dotdot_tag s : has_dotdot s = false → has_dotdot (s +:+ ":latest") = false.
Proof.
  unfold has_dotdot. rewrite !bool_decide_eq_false. intros Hs.
  assert (∀ r, r +:+ ":latest" ≠ "..") as Hne.
  { intros r Heq. apply (f_equal str_len) in Heq. rewrite str_len_app in Heq. unfold str_len in Heq. simpl in Heq. lia. }
  destruct (rsplit_once "/" s) as [[l r]|] eqn:Hr.
  - apply rsplit_once_spec in Hr as [-> Hr]. rewrite append_assoc, append_cons.
    rewrite split_char_app in *. rewrite (split_char_none _ (r +:+ _)) by (by rewrite contains_char_app, Hr).
    rewrite elem_of_app, list_elem_of_singleton. intros [Hin|Hin]; [|by apply (Hne r)].
    apply Hs. apply elem_of_app. by left.
  - apply rsplit_once_none in Hr. rewrite split_char_none by (by rewrite contains_char_app, Hr).
    rewrite list_elem_of_singleton. intros Heq. by apply (Hne s).
Qed.

Lemma check_image_part_inv s :
  check_image_part s = Ok tt ↔
  s ≠ "" ∧ contains_str "//" s = false ∧ has_dotdot s = false ∧ contains_whitespace s = false.
Proof.
  unfold check_image_part. rewrite <-str_is_empty_false.
  destruct (str_is_empty s), (contains_str "//" s), (has_dotdot s), (contains_whitespace s); naive_solver.
Qed.

Lemma image_part_tagged s img t :
  check_image_part s = Ok tt → split_image_tag s = (img, t) → check_image_part (img +:+ ":" +:+ t) = Ok tt.
Proof.
  intros Hs Hsplit. destruct (split_image_tag_again _ _ _ Hsplit) as [_ [->|[-> ->]]]; [done|].
  apply check_image_part_inv in Hs as (Hne & Hss & Hdd & Hws). apply check_image_part_inv.
  change (s +:+ ":" +:+ "latest") with (s +:+ ":latest"). split_and!.
  - by destruct s.
  - by rewrite double_slash_tag.
  - by apply dotdot_tag.
  - by rewrite whitespace_app, Hws.
Qed.

(** ** Container names *)

Lemma check_name_chars_ok s : check_name_chars s = Ok tt ↔ all_chars name_char s = true.
Proof. induction s as [|c s IH]; [done|]. cbn [check_name_chars all_chars]. by destruct (name_char c). Qed.

Lemma name_char_ascii c : name_char c = true → (N_of_ascii c <? 128)%N = true ∧ is_ascii_space c = false ∧ Ascii.eqb c "#" = false.
Proof. destruct c as [[] [] [] [] [] [] [] []]; vm_compute; intros; done. Qed.

Lemma name_chars_no_whitespace s : all_chars name_char s = true → contains_whitespace s = false.
Proof.
  induction s as [|a s IH]; [done|]. cbn [all_chars]. intros [Ha Hs]%andb_prop.
  destruct (name_char_ascii a Ha) as (Ha1 & Ha2 & _).
  change (String a s) with (String a "" +:+ s). destruct s as [|b s].
  - change (String a "" +:+ "") with (String a ""). cbn [contains_whitespace]. by rewrite Ha2.
  - cbn [all_chars] in Hs. pose proof Hs as [Hb _]%andb_prop. destruct (name_char_ascii b Hb) as (Hb1 & _ & _).
    rewrite whitespace_app, IH by done. cbn [contains_whitespace]. by rewrite Ha2.
Qed.

Lemma validate_container_name_inv n :
  validate_container_name n = Ok tt → n ≠ "" ∧ all_chars name_char n = true.
Proof.
  unfold validate_container_name. destruct n as [|c n]; [done|].
  change (str_is_empty (String c n)) with false. cbv iota.
  destruct (253 <? _); [done|]. destruct (contains_whitespace _); [done|]. destruct (_ || _); [done|].
  destruct (is_ascii_alphanumeric c) eqn:Hc; [|done]. cbn [negb]. intros Hn%check_name_chars_ok.
  split; [done|]. cbn [all_chars]. rewrite Hn. unfold name_char. by rewrite Hc.
Qed.

(** ** Parsing *)

(** What a parsed reference is: the part before the container's name, checked and split. *)
Definition parts_of (r : ImageRef) (part : string) : Prop :=
  check_image_part part = Ok tt ∧ contains_char "#" part = false ∧
  split_image_tag part = (image r, tag r) ∧ full_ref r = image r +:+ ":" +:+ tag r ∧
  registry r = infer_registry (image r) ∧ repository r = resolve_repository (image r) ∧
  match container_name r with Some n => validate_container_name n = Ok tt | None => True end.

Lemma from_str_parts s r : from_str s = Ok r → ∃ part, parts_of r part.
Proof.
  unfold from_str. destruct (str_is_empty (trim s)); [done|].
  destruct (split_once "#" (trim s)) as [[l n]|] eqn:Hs.
  - destruct (validate_container_name n) as [[]|] eqn:Hn; [|done]. cbn [mbind Result_bind].
    destruct (check_image_part l) as [[]|] eqn:Hl; [|done]. cbn [mbind Result_bind].
    destruct (split_image_tag l) as [img t] eqn:Hsp. intros [= <-]. apply split_once_spec in Hs as [_ Hl'].
    by exists l.
  - cbn [mbind Result_bind]. destruct (check_image_part (trim s)) as [[]|] eqn:Hl; [|done]. cbn [mbind Result_bind].
    destruct (split_image_tag (trim s)) as [img t] eqn:Hsp. intros [= <-]. apply split_once_none in Hs. by exists (trim s).
Qed.

Lemma pkg_id_no_whitespace r part : parts_of r part → contains_whitespace (full_pkg_id r) = false.
Proof.
  intros (Hc & _ & Hsp & Hf & _ & _ & Hn). pose proof (image_part_tagged _ _ _ Hc Hsp) as Ht.
  rewrite <-Hf in Ht. apply check_image_part_inv in Ht as (_ & _ & _ & Hws). unfold full_pkg_id.
  destruct (container_name r) as [n|]; [|done]. apply validate_container_name_inv in Hn as [_ Hn].
  change ("#" +:+ n) with (String "#" n). rewrite whitespace_app, Hws by done.
  pose proof (name_chars_no_whitespace n Hn) as Hw. destruct n as [|c n]; [done|].
  cbn [all_chars] in Hn. apply andb_prop in Hn as [Hc' _]. destruct (name_char_ascii c Hc') as (Hc1 & _ & _).
  change (String "#" (String c n)) with ("#" +:+ String c n). by rewrite whitespace_app, Hw.
Qed.

Lemma from_str_again r part : parts_of r part → from_str (full_pkg_id r) = Ok r.
Proof.
  intros Hp. pose proof (pkg_id_no_whitespace r part Hp) as Hws.
  destruct Hp as (Hc & Hh & Hsp & Hf & Hreg & Hrep & Hn).
  pose proof (image_part_tagged _ _ _ Hc Hsp) as Ht. destruct (split_image_tag_again _ _ _ Hsp) as [Hsp' Hsame].
  rewrite <-Hf in Ht, Hsp', Hsame.
  assert (contains_char "#" (full_ref r) = false) as Hh'.
  { destruct Hsame as [->|[Hi Htag]]; [done|]. rewrite Hf, Hi, Htag. by rewrite contains_char_app, Hh. }
  unfold from_str. rewrite trim_no_whitespace by done.
  assert (str_is_empty (full_pkg_id r) = false) as ->.
  { apply str_is_empty_false. unfold full_pkg_id. rewrite Hf. destruct (image r), (container_name r); done. }
  assert (∀ n, mkImageRef (infer_registry (image r)) (resolve_repository (image r)) (tag r) (image r)
                 (image r +:+ ":" +:+ tag r) n = mkImageRef (registry r) (repository r) (tag r) (image r) (full_ref r) n) as Hmk
    by (by rewrite Hf, Hreg, Hrep).
  unfold full_pkg_id. destruct (container_name r) as [n|] eqn:Hcn.
  - change ("#" +:+ n) with (String "#" n). rewrite split_once_app by done. rewrite Hn. cbn [mbind Result_bind].
    rewrite Ht. cbn [mbind Result_bind]. rewrite Hsp', Hmk. destruct r; cbn in *; by subst.
  - rewrite (proj2 (split_once_none _ _) Hh'). cbn [mbind Result_bind]. rewrite Ht. cbn [mbind Result_bind].
    rewrite Hsp', Hmk. destruct r; cbn in *; by subst.
Qed.

(** The identifier discovery builds for a container names the same image and that container. *)
Lemma qualified_identifier s r n :
  from_str s = Ok r → validate_container_name n = Ok tt →
  from_str (full_ref r +:+ "#" +:+ n) = Ok (mkImageRef (registry r) (repository r) (tag r) (image r) (full_ref r) (Some n)).
Proof.
  intros [part (H1 & H2 & H3 & H4 & H5 & H6 & _)]%from_str_parts Hn.
  apply (from_str_again (mkImageRef (registry r) (repository r) (tag r) (image r) (full_ref r) (Some n)) part).
  done.
Qed.

(** The registry and the repository make up the image. *)
Lemma registry_repository img :
  (is_registry (infer_registry img) = true ∧ img = infer_registry img +:+ "/" +:+ resolve_repository img) ∨
  infer_registry img = DEFAULT_REGISTRY ∧ (resolve_repository img = img ∨ resolve_repository img = "library/" +:+ img).
Proof.
  unfold infer_registry, resolve_repository. destruct (split_once "/" img) as [[first rest]|] eqn:Hs; [|by right; split; [|right]].
  apply split_once_spec in Hs as [-> _]. destruct (is_registry first) eqn:Hr; [by left|by right; split; [|left]].
Qed.

(** the canonical text of a reference parses back to it. Whatever [from_str] accepts, the
    text [full_pkg_id] of the result has no white space and parses to the same reference;
    its image, tag and container name are those of that text, and the registry and the
    repository are the two parts of the image, or Docker Hub and the whole of it. *)
Theorem image_ref_roundtrip s r :
  from_str s = Ok r →
  from_str (full_pkg_id r) = Ok r ∧ trim (full_pkg_id r) = full_pkg_id r ∧
  full_pkg_id r = image r +:+ ":" +:+ tag r +:+ match container_name r with Some n => "#" +:+ n | None => "" end ∧
  contains_char "/" (tag r) = false ∧
  ((is_registry (registry r) = true ∧ image r = registry r +:+ "/" +:+ repository r) ∨
   registry r = DEFAULT_REGISTRY ∧ (repository r = image r ∨ repository r = "library/" +:+ image r)).
Proof.
  intros [part Hp]%from_str_parts. split; [by eapply from_str_again|].
  pose proof (pkg_id_no_whitespace r part Hp) as Hws. split; [by apply trim_no_whitespace|].
  destruct Hp as (_ & _ & Hsp & Hf & -> & -> & _). split_and!.
  - unfold full_pkg_id. rewrite Hf. by destruct (container_name r); rewrite ?append_nil_r, ?append_assoc.
  - unfold split_image_tag in Hsp. destruct (rsplit_once "/" part) as [[l rr]|] eqn:Hr.
    + apply rsplit_once_spec in Hr as [-> Hr]. destruct (split_once ":" rr) as [[n t]|] eqn:Ht; [|by injection Hsp as _ <-].
      injection Hsp as _ <-. apply split_once_spec in Ht as [-> _]. rewrite contains_char_app in Hr.
      by apply orb_false_elim in Hr as [_ Hr].
    + apply rsplit_once_none in Hr. destruct (split_once ":" part) as [[n t]|] eqn:Ht; [|by injection Hsp as _ <-].
      injection Hsp as _ <-. apply split_once_spec in Ht as [-> _]. rewrite contains_char_app in Hr.
      by apply orb_false_elim in Hr as [_ Hr].
  - apply registry_repository.
Qed.

Lemma image_ref_roundtrip_witness :
  let r := mkImageRef "host:5000" "team/app" "v2" "host:5000/team/app" "host:5000/team/app:v2" (Some "web-1") in
  from_str " host:5000/team/app:v2#web-1 " = Ok r ∧ from_str (full_pkg_id r) = Ok r.
Proof.
  split; [by vm_compute|].
  eapply (image_ref_roundtrip " host:5000/team/app:v2#web-1 "). by vm_compute.
Defined.

(** The segments are compared with [..] before the tag is split off: with a tag, the last one
    escapes the check. *)
Example dotdot_before_tag :
  result_map repository (from_str "ghcr.io/owner/..:latest") = Ok "owner/..".
Proof. by vm_compute. Qed.

(** A bracketed address is cut at its first colon before the private ranges are asked. *)
Example bracketed_registry_accepted : validate_identifier "[::1]:5000/app" = Ok tt.
Proof. by vm_compute. Qed.
End DockerImageFacts.
