(* ===== verification/DockerRegistry.v ===== *)
(** The registry client of the Docker release plugin
    ([crates/plugins/releases/docker/src/]: [auth.rs], [registry.rs], [api_types.rs]): bearer
    tokens and their cache, manifest requests with the retry after a challenge, and the digest
    of a platform.

    A request that follows redirects is every request it makes. Calls are handlers: between two
    of their steps other calls of the same client run. The network, the HTTP library, JSON, timestamps and the texts of error reports are an interface. *)

From Stdlib Require Import Ascii.
From stdpp Require Import base list gmap strings numbers.
From S2P Require Import Prelude RustStr ConfigLoader Handlers Egress DockerImages.
Local Open Scope Z_scope.

Module Registry.
Import Docker.

Definition dquote : ascii := ascii_of_N 34.

(** ** Messages *)

Inductive Method := HEAD | GET.
Definition method_text (m : Method) : string := match m with HEAD => "HEAD" | GET => "GET" end.

Inductive Credential := NoCredential | BasicCredential (username password : string) | BearerCredential (token : string).

(** [via] is the configuration of the client that sends the request. *)
Record HttpRequest := mkHttp {
  via : Egress.ClientConfig; method : Method; target : string; accept : option string; credential : Credential }.

(** The headers are those whose value is a string; the body may fail to be read. *)
Record HttpResponse := mkResponse {
  status : N; www_authenticate : option string; content_digest : option string;
  content_type : option string; location : option string; body : Result string string }.
Definition is_success (s : N) : bool := (200 <=? s)%N && (s <? 300)%N.

Record TokenResponse := mkTokenResponse { token : option string; access_token : option string; expires_in : option Z }.
Record OciManifestEntry := mkEntry { digest : string; entry_platform : option OciPlatform }.
Record OciSingleManifest := mkManifest { config_digest : string; annotations : gmap string string }.
Record ManifestInfo := mkInfo { info_digest : string; created_at : option Z }.

Record CachedToken := mkCached { cached : string; expires_at : option Z }.

(** The world of a call: the clock, the client's cached token, and everything outside. *)
Record World (O : Type) := mkWorld { now : Z; cached_token : option CachedToken; outside : O }.
Arguments mkWorld {O} _ _ _.
Arguments now {O} _.
Arguments cached_token {O} _.
Arguments outside {O} _.
Definition set_cache {O} (c : option CachedToken) (w : World O) : World O := mkWorld (now w) c (outside w).
Definition set_outside {O} (o : O) (w : World O) : World O := mkWorld (now w) (cached_token w) o.

(** The network; the HTTP library's part in redirects: the URL a response redirects a request
    to and the credential it would send there, and its counting policy; the parsers of the bodies ([Ok] or the parser's message), the parser of RFC
    3339 timestamps, the display of a status and of an error report, and the version of the
    package. *)
Class Net (O : Type) `{Egress.UrlLib} := {
  send : HttpRequest → O → Result string HttpResponse * O;
  redirect_of : HttpRequest → HttpResponse → option (Egress.Url * Credential);
  counting : nat → list Egress.Url → bool;
  parse_token_response : string → Result string TokenResponse;
  parse_index : string → Result string (list OciManifestEntry);
  parse_manifest : string → option OciSingleManifest;
  parse_image_config : string → option (option string);
  parse_rfc3339 : string → option Z;
  status_text : N → string;
  report_text : DockerError → string;
  CARGO_PKG_VERSION : string;
}.

Section Client.
Context {O : Type} `{HU : Egress.UrlLib} `{HN : !Net O}.

#[local] Notation Call := (Handler (World O) HttpRequest).

(** Rust's [?] in a call. *)
Definition try_ {E A B} (h : Call (Result E A)) (k : A → Call (Result E B)) : Call (Result E B) :=
  r ← h; match r with Ok a => k a | Err e => mret (Err e) end.

(** One request on the wire. *)
Definition transmit (r : HttpRequest) : Call (Result string HttpResponse) :=
  _ ← emit r; exec (λ w, let '(res, o) := send r (outside w) in (res, set_outside o w)).

(** Following redirects as the client's policy says; [previous] are the URLs so far. The
    action does not depend on the hosts already warned about. The fuel is one more than the
    redirects the policy lets pass, so that the policy ends the chain and not the fuel. *)
Fixpoint follow_redirects (fuel : nat) (previous : list Egress.Url) (r : HttpRequest) (resp : HttpResponse)
    : Call (Result string HttpResponse) :=
  match redirect_of r resp with
  | None => mret (Ok resp)
  | Some (u, c) =>
      match (Egress.into_policy counting (Egress.redirect (via r)) (Egress.ssrf_mode (via r))
               (Egress.mkDedupe ∅ false) previous u).1.1 with
      | Egress.Stop => mret (Ok resp)
      | Egress.TooManyRedirects => mret (Err "too many redirects")
      | Egress.Refuse _ => mret (Err "redirect refused")
      | Egress.Follow =>
          match fuel with
          | 0%nat => mret (Err "too many redirects")
          | S fuel =>
              let r' := mkHttp (via r) (method r) (Egress.url_text u) (accept r) c in
              try_ (transmit r') (follow_redirects fuel (previous ++ [u]) r')
          end
      end
  end.

Definition hop_limit (m : Egress.RedirectMode) : nat :=
  match m with Egress.NoRedirects => 0 | Egress.Limited hops => hops end.

(** A request of the client and the redirects it follows. *)
Definition http (r : HttpRequest) : Call (Result string HttpResponse) :=
  match Egress.url_parse (target r) with
  | Err e => mret (Err e)
  | Ok u => try_ (transmit r) (follow_redirects (S (hop_limit (Egress.redirect (via r)))) [u] r)
  end.

(** ** Tokens *)

Definition EXPIRY_SAFETY_MARGIN_SECS : Z := 30.

Definition live_token (w : World O) : option string :=
  match cached_token w with
  | Some ct => match expires_at ct with
               | Some e => if e <=? now w then None else Some (cached ct)
               | None => Some (cached ct)
               end
  | None => None
  end.
Definition cached_bearer_token : Call (option string) := query live_token.
Definition clear_cache : Call unit := exec (λ w, (tt, set_cache None w)).

Definition extract_quoted_param (header param : string) : option string :=
  '(_, rest) ← Docker.split_str (param +:+ "=" +:+ String dquote "") header;
  '(v, _) ← split_once dquote rest;
  Some v.

Definition append_param (name : string) (value : option string) (st : string * bool) : string * bool :=
  match value with
  | Some v => (st.1 +:+ (if st.2 then "&" else "?") +:+ name +:+ "=" +:+ v, true)
  | None => st
  end.
Definition token_url (realm : string) (svc scope : option string) : string :=
  (append_param "scope" scope (append_param "service" svc (realm, contains_char "?" realm))).1.

Definition token_expiry (t : Z) (secs : Z) : Z :=
  if EXPIRY_SAFETY_MARGIN_SECS <? secs then t + (secs - EXPIRY_SAFETY_MARGIN_SECS) else t.

(** The clients of [RegistryClient::new]. *)
Definition user_agent : string := "uptrakit-plugin-releases-docker/" +:+ CARGO_PKG_VERSION.
Definition registry_client : Egress.ClientConfig :=
  Egress.mkClientConfig user_agent (Egress.ssrf_mode Egress.default_config) None 60 Egress.NoRedirects false.
Definition blob_client : Egress.ClientConfig :=
  Egress.mkClientConfig user_agent (Egress.ssrf_mode Egress.default_config) None 30 (Egress.Limited 5) false.

Definition configured_credential (a : option DockerAuth) : Credential :=
  match a with
  | Some (Basic u p) => BasicCredential u p
  | Some (Bearer t) => BearerCredential t
  | None => NoCredential
  end.

(** The checks of a challenge: the realm it names. *)
Definition check_realm (www : string) : Result DockerError string :=
  match extract_quoted_param www "realm" with
  | None => Err (AuthFailed "missing realm in WWW-Authenticate header")
  | Some realm =>
      match Egress.url_parse realm with
      | Err e => Err (AuthFailed ("invalid realm URL in WWW-Authenticate header: " +:+ e))
      | Ok u =>
          let realm_host := default EmptyString (Egress.host_str u) in
          if Egress.is_private_host realm_host
          then Err (AuthFailed ("auth realm host '" +:+ realm_host +:+ "' points to a private/internal address; possible SSRF attempt rejected"))
          else Ok realm
      end
  end.

(** The token of a response of the token endpoint, and its lifetime. *)
Definition read_token (resp : HttpResponse) : Result DockerError (string * option Z) :=
  if negb (is_success (status resp))
  then Err (AuthFailed ("token endpoint returned " +:+ status_text (status resp) +:+ ": "
                        +:+ match body resp with Ok b => b | Err _ => EmptyString end))
  else
    tr ← map_err (λ e, ParseResponse ("failed to parse token response: " +:+ e))
           (match body resp with Ok b => parse_token_response b | Err e => Err e end);
    match token tr, access_token tr with
    | Some t, _ | None, Some t => Ok (t, expires_in tr)
    | None, None => Err (ParseResponse "registry token response contained neither 'token' nor 'access_token'")
    end.

Definition fetch_token (auth_config : option DockerAuth) (www : string) : Call (Result DockerError string) :=
  match check_realm www with
  | Err e => mret (Err e)
  | Ok realm =>
      let url := token_url realm (extract_quoted_param www "service") (extract_quoted_param www "scope") in
      resp ← http (mkHttp registry_client GET url None (configured_credential auth_config));
      match resp with
      | Err e => mret (Err (AuthFailed ("token request failed: " +:+ e)))
      | Ok resp =>
          match read_token resp with
          | Err e => mret (Err e)
          | Ok (t, secs) =>
              _ ← exec (λ w, (tt, set_cache (Some (mkCached t (token_expiry (now w) <$> secs))) w));
              mret (Ok t)
          end
      end
  end.

(** ** Manifests *)

Definition MANIFEST_ACCEPT : string :=
  "application/vnd.oci.image.index.v1+json, application/vnd.oci.image.manifest.v1+json, application/vnd.docker.distribution.manifest.list.v2+json, application/vnd.docker.distribution.manifest.v2+json".
Definition OCI_CREATED_ANNOTATION : string := "org.opencontainers.image.created".

Definition manifest_status (resp : HttpResponse) : Result DockerError unit :=
  if (status resp =? 429)%N then Err RateLimited
  else if negb (is_success (status resp))
  then Err (ApiError (status resp) ("manifest request returned " +:+ status_text (status resp)))
  else Ok tt.
Definition digest_header (resp : HttpResponse) : Result DockerError string :=
  match content_digest resp with
  | Some d => Ok d
  | None => Err (ParseResponse "missing Docker-Content-Digest header")
  end.
Definition extract_digest (resp : HttpResponse) : Result DockerError string :=
  _ ← manifest_status resp; digest_header resp.
Definition extract_body (resp : HttpResponse) : Result DockerError (string * string * string) :=
  _ ← manifest_status resp;
  d ← digest_header resp;
  b ← map_err (λ e, Request ("failed to read body: " +:+ e)) (body resp);
  Ok (d, default EmptyString (content_type resp), b).

Context (auth_config : option DockerAuth).

Definition manifest_request (m : Method) (url : string) (c : Credential) : HttpRequest :=
  mkHttp registry_client m url (Some MANIFEST_ACCEPT) c.
Definition request_failed (m : Method) (what : string) (e : string) : DockerError :=
  Request (method_text m +:+ " " +:+ what +:+ ": " +:+ e).

(** The request without the cached token, and its retry after a challenge. *)
Definition challenged_request {A} (extract : HttpResponse → Result DockerError A) (m : Method) (url : string)
    : Call (Result DockerError A) :=
  resp ← http (manifest_request m url NoCredential);
  match resp with
  | Err e => mret (Err (request_failed m "failed" e))
  | Ok resp =>
      if (status resp =? 401)%N
      then try_ (fetch_token auth_config (default EmptyString (www_authenticate resp))) (λ t,
             retry ← http (manifest_request m url (BearerCredential t));
             match retry with
             | Err e => mret (Err (request_failed m "retry failed" e))
             | Ok retry => mret (extract retry)
             end)
      else mret (extract resp)
  end.

(** What [authenticated_request] and [authenticated_request_with_body] have in common: all but
    what they take from the response. *)
Definition authenticated {A} (extract : HttpResponse → Result DockerError A) (m : Method) (url : string)
    : Call (Result DockerError A) :=
  t ← cached_bearer_token;
  match t with
  | Some t =>
      resp ← http (manifest_request m url (BearerCredential t));
      match resp with
      | Err e => mret (Err (request_failed m "failed" e))
      | Ok resp =>
          if negb (status resp =? 401)%N then mret (extract resp)
          else _ ← clear_cache; challenged_request extract m url
      end
  | None => challenged_request extract m url
  end.
Definition authenticated_request (m : Method) (url : string) : Call (Result DockerError string) :=
  authenticated extract_digest m url.
Definition authenticated_request_with_body (m : Method) (url : string) : Call (Result DockerError (string * string * string)) :=
  authenticated extract_body m url.

Definition manifest_url (reg repo reference : string) : string :=
  "https://" +:+ reg +:+ "/v2/" +:+ repo +:+ "/manifests/" +:+ reference.
Definition is_forbidden_response (e : DockerError) : bool :=
  match e with ApiError s _ => (s =? 403)%N | _ => false end.
Definition get_manifest_digest (reg repo t : string) : Call (Result DockerError string) :=
  let url := manifest_url reg repo t in
  r ← authenticated_request HEAD url;
  match r with
  | Ok d => mret (Ok d)
  | Err e => if is_forbidden_response e then authenticated_request GET url else mret (Err e)
  end.
Definition fetch_manifest_body (reg repo reference : string) : Call (Result DockerError (string * string * string)) :=
  authenticated_request_with_body GET (manifest_url reg repo reference).

Definition try_config_blob_created_at (reg repo blob : string) : Call (option Z) :=
  t ← cached_bearer_token;
  resp ← http (mkHttp blob_client GET ("https://" +:+ reg +:+ "/v2/" +:+ repo +:+ "/blobs/" +:+ blob)
                 (Some "application/octet-stream, */*")
                 match t with Some t => BearerCredential t | None => NoCredential end);
  mret match resp with
       | Err _ => None
       | Ok resp =>
           if negb (is_success (status resp)) then None
           else match body resp with
                | Err _ => None
                | Ok b => match parse_image_config b with
                          | Some (Some ts) => parse_rfc3339 ts
                          | _ => None
                          end
                end
       end.

Definition try_extract_created_at (reg repo b : string) : Call (option Z) :=
  match parse_manifest b with
  | None => mret None
  | Some m =>
      match annotations m !! OCI_CREATED_ANNOTATION ≫= parse_rfc3339 with
      | Some dt => mret (Some dt)
      | None => try_config_blob_created_at reg repo (config_digest m)
      end
  end.
Definition try_fetch_manifest_created_at (reg repo manifest_digest : string) : Call (option Z) :=
  r ← fetch_manifest_body reg repo manifest_digest;
  match r with
  | Err _ => mret None
  | Ok (_, _, b) => try_extract_created_at reg repo b
  end.

Definition is_index (ct : string) : bool := contains_str "image.index" ct || contains_str "manifest.list" ct.

Definition get_manifest_info (reg repo t : string) : Call (Result DockerError ManifestInfo) :=
  try_ (fetch_manifest_body reg repo t) (λ '(d, ct, b),
    if is_index ct then mret (Ok (mkInfo d None))
    else c ← try_extract_created_at reg repo b; mret (Ok (mkInfo d c))).

Definition find_platform (wanted : string) (l : list OciManifestEntry) : option string :=
  digest <$> List.find (λ e, match entry_platform e with Some p => platform_matches p wanted | None => false end) l.
Definition get_platform_manifest_digest (reg repo t wanted : string) : Call (Result DockerError (option ManifestInfo)) :=
  try_ (fetch_manifest_body reg repo t) (λ '(d, ct, b),
    if negb (is_index ct) then c ← try_extract_created_at reg repo b; mret (Ok (Some (mkInfo d c)))
    else match parse_index b with
         | Err e => mret (Err (ParseResponse ("failed to parse OCI manifest index: " +:+ e)))
         | Ok index =>
             match find_platform wanted index with
             | None => mret (Ok None)
             | Some pd => c ← try_fetch_manifest_created_at reg repo pd; mret (Ok (Some (mkInfo pd c)))
             end
         end).

End Client.
End Registry.
