(* ===== verification/DockerPlugin.v ===== *)
(** The roles of the Docker release plugin ([crates/plugins/releases/docker/src/]:
    [version_detect.rs], [release_fetch.rs], [discovery.rs], [update.rs], [credentials.rs],
    [daemon_client.rs], [docker_client.rs], [plugin.rs]): which version is installed, which one
    the registry offers, what runs on a host, and the update of an image with the recreation of
    its containers.

    The Docker daemon, the command executor, base64 and the file system are an interface; the
    progress frames sent to the terminal while pulling are left out, the stored output is not. *)

From Stdlib Require Import Ascii.
From stdpp Require Import base list gmap strings numbers.
From S2P Require Import Prelude RustStr ConfigLoader Handlers Egress Shell DockerImages DockerRegistry.
Local Open Scope Z_scope.

Module DockerPlugin.
Import Docker Registry.

(** ** Data of the daemon *)

Record LocalImageDigest := mkLocal {
  local_digest : string; local_os : option string; local_architecture : option string; local_variant : option string }.
Record LocalContainerInfo := mkContainer { c_image : string; c_names : list string; c_labels : gmap string string }.
Record ContainerForImage := mkForImage { name : string; is_running : bool; labels : gmap string string }.

(** Of the client library: an inspected image, an error, a listed container, an inspected
    container (the rest of which [create] gets back), and an event of a pull. *)
Record ImageInspect := mkInspect {
  repo_digests : option (list string); i_os : option string; i_architecture : option string; i_variant : option string }.
Inductive BollardError := NotFound | Other (message : string).
Record ContainerSummary := mkSummary {
  s_image : option string; s_names : option (list string); s_labels : option (gmap string string); s_state : option string }.
Record ContainerInspect (B : Type) := mkInspected { auto_remove : option bool; saved : B }.
Arguments mkInspected {B} _ _.
Arguments auto_remove {B} _.
Arguments saved {B} _.
Record CreateImageInfo := mkPull { p_id : option string; p_status : option string; p_error : option (option string) }.
Record Credentials := mkCreds { username : option string; password : option string; serveraddress : option string; registrytoken : option string }.
Record CommandOutput := mkOutput { output : string; exit_code : Z }.
Record DockerConfigFile := mkFile { auths : gmap string string; cred_helpers : gmap string string }.

(** What a call does to the outside. *)
Inductive Ev :=
| HttpSent (r : HttpRequest)
| Pulled (img t : string) (c : option Credentials)
| Stopped (n : string)
| Removed (n : string)
| Created (n : string)
| Started (n : string)
| Ran (command : string)
| Line (text : string).

(** The daemon, the host and the executor. [Saved] is what an inspection says of a container's
    configuration, [Body] the body of a create request; the configuration becomes one through
    its JSON, and either conversion may fail. *)
Class Host (O : Type) := {
  Saved : Type;
  ConfigJson : Type;
  Body : Type;
  config_to_json : Saved → Result string ConfigJson;
  body_of_json : ConfigJson → Result string Body;
  bollard_inspect_image : string → O → Result BollardError ImageInspect;
  bollard_list : bool → option string → O → Result string (list ContainerSummary);
  bollard_inspect : string → O → Result string (ContainerInspect Saved);
  bollard_create_image : string → string → option Credentials → O → list (Result string CreateImageInfo) * O;
  bollard_stop : string → O → Result string unit * O;
  bollard_remove : string → O → Result string unit * O;
  bollard_create : string → Body → Saved → O → Result string unit * O;
  bollard_start : string → O → Result string unit * O;
  bollard_connect : DockerConfig → O → Result DockerError unit * O;
  execute : string → O → Result string CommandOutput * O;
  execute_quiet : string → O → Result string CommandOutput * O;
  supports_stdio_tunnel : bool;
  read_local_config : O → option string;
  parse_config_file : string → option DockerConfigFile;
  parse_helper_output : string → option (string * string);
  base64_decode : string → option string;
  valid_utf8 : string → bool;
  format_display_version : Z → string;
}.

(** The plugin's own state with the registry client's world. *)
Inductive ClientKind := Noop | Bollard.
Record State (O : Type) := mkState {
  world : World O; docker_client : ClientKind; daemon_client_initialized : bool;
  credential_cache : gmap string (option DockerAuth) }.
Arguments mkState {O} _ _ _ _.
Arguments world {O} _.
Arguments docker_client {O} _.
Arguments daemon_client_initialized {O} _.
Arguments credential_cache {O} _.

Section Plugin.
Context {O : Type} `{HU : Egress.UrlLib} `{HN : !Net O} `{Host O}.
#[local] Notation Call := (Handler (State O) Ev).

Definition set_world (w : World O) (s : State O) : State O :=
  mkState w (docker_client s) (daemon_client_initialized s) (credential_cache s).
Definition set_client (k : ClientKind) (s : State O) : State O :=
  mkState (world s) k (daemon_client_initialized s) (credential_cache s).
Definition set_initialized (s : State O) : State O :=
  mkState (world s) (docker_client s) true (credential_cache s).
Definition cache_credential (reg : string) (a : option DockerAuth) (s : State O) : State O :=
  mkState (world s) (docker_client s) (daemon_client_initialized s) (<[reg := a]> (credential_cache s)).

(** A call of the registry client. *)
Definition registry_call {A} (h : Handler (World O) HttpRequest A) : Call A :=
  zoom world set_world (relabel HttpSent h).

Definition try {E A B} (h : Call (Result E A)) (k : A → Call (Result E B)) : Call (Result E B) :=
  r ← h; match r with Ok a => k a | Err e => mret (Err e) end.
Definition reads {A} (f : O → A) : Call A := query (λ s, f (outside (world s))).
Definition acts {A} (f : O → A * O) : Call A :=
  exec (λ s, let '(a, o) := f (outside (world s)) in (a, set_world (set_outside o (world s)) s)).

Context (config : DockerConfig) (has_executor : bool).

Inductive PluginError := PluginConfiguration (m : string) | InstallFailed (m : string) | PluginInternal (m : string).

(** ** The daemon's client *)

Definition ensure_daemon_client : Call (Result DockerError unit) :=
  i ← query daemon_client_initialized;
  if (i : bool) then mret (Ok tt)
  else if negb has_executor then mret (Ok tt)
  else try (acts (bollard_connect config)) (λ _,
         _ ← exec (λ s, (tt, set_client Bollard s));
         _ ← exec (λ s, (tt, set_initialized s));
         mret (Ok tt)).

Definition noop_error : DockerError := Configuration "Docker daemon operations require the 'daemon' Cargo feature".
(** A method of the client in place: the stub fails every one. *)
Definition on_client {A} (h : Call (Result DockerError A)) : Call (Result DockerError A) :=
  k ← query docker_client;
  match k with Noop => mret (Err noop_error) | Bollard => h end.

Definition inspected (i : ImageInspect) : option LocalImageDigest :=
  d ← repo_digests i ≫= head;
  d ← split_char "@" d !! 1%nat;
  Some (mkLocal d (i_os i) (i_architecture i) (i_variant i)).
Definition inspect_image (full_ref : string) : Call (Result DockerError (option LocalImageDigest)) :=
  on_client (
    r ← reads (bollard_inspect_image full_ref);
    mret match r with
         | Ok i => Ok (inspected i)
         | Err NotFound => Ok None
         | Err (Other e) => Err (DaemonConnection e)
         end).

(** [trim_start_matches('/')] *)
Fixpoint trim_slashes (s : string) : string :=
  match s with
  | String c s' => if Ascii.eqb c "/" then trim_slashes s' else s
  | EmptyString => EmptyString
  end.
Definition container_info (c : ContainerSummary) : LocalContainerInfo :=
  mkContainer (default EmptyString (s_image c)) (trim_slashes <$> default [] (s_names c)) (default ∅ (s_labels c)).
Definition list_containers (all : bool) : Call (Result DockerError (list LocalContainerInfo)) :=
  on_client (r ← reads (bollard_list all None);
             mret (result_map (map container_info) (map_err DaemonConnection r))).
Definition container_for_image (c : ContainerSummary) : option ContainerForImage :=
  n ← s_names c ≫= head;
  Some (mkForImage (trim_slashes n) (bool_decide (s_state c = Some "running") || bool_decide (s_state c = Some "paused"))
          (default ∅ (s_labels c))).
Definition list_containers_for_image (full_ref : string) : Call (Result DockerError (list ContainerForImage)) :=
  on_client (r ← reads (bollard_list true (Some full_ref));
             mret (result_map (λ l : list ContainerSummary, omap container_for_image l) (map_err DaemonConnection r))).

Definition daemon {A} (f : O → Result string A * O) : Call (Result DockerError A) :=
  r ← acts f; mret (map_err DaemonConnection r).

(** The body of the create request: the configuration through its JSON. The host configuration
    and the networks are taken from the inspection as they are. *)
Definition create_body (i : ContainerInspect Saved) : Result DockerError Body :=
  j ← map_err (λ e, Configuration ("failed to serialize container config: " +:+ e)) (config_to_json (saved i));
  map_err (λ e, Configuration ("failed to deserialize container config: " +:+ e)) (body_of_json j).

(** The events are emitted when the call is made. *)
Definition recreate_container (n : string) (was_running : bool) : Call (Result DockerError unit) :=
  on_client (
    i ← reads (bollard_inspect n);
    match i with
    | Err e => mret (Err (DaemonConnection e))
    | Ok i =>
        if default false (auto_remove i) then mret (Ok tt)
        else
          try (if was_running then _ ← emit (Stopped n); daemon (bollard_stop n) else mret (Ok tt)) (λ _,
          try (_ ← emit (Removed n); daemon (bollard_remove n)) (λ _,
          try (mret (create_body i)) (λ body,
          try (_ ← emit (Created n); daemon (bollard_create n body (saved i))) (λ _,
          if was_running then _ ← emit (Started n); daemon (bollard_start n) else mret (Ok tt)))))
    end).

Definition map_auth_to_credentials (img : string) (a : DockerAuth) : Credentials :=
  match a with
  | Basic u p => mkCreds (Some u) (Some p) match from_str img with Ok r => Some (server_address r) | Err _ => None end None
  | Bearer t => mkCreds None None None (Some t)
  end.

(** The part of [PullProgressTracker] that the stored output comes from. *)
Record Tracker := mkTracker { messages : list string; layer_order : list string; layer_state : gmap string string }.
Definition tracker_new : Tracker := mkTracker [] [] ∅.
Definition handle_event (tr : Tracker) (i : CreateImageInfo) : Tracker :=
  let status := trim (default EmptyString (p_status i)) in
  let id := trim <$> p_id i in
  if str_is_empty status then tr
  else match id with
       | Some (String _ _ as layer) =>
           mkTracker (messages tr)
             (if layer_state tr !! layer is Some _ then layer_order tr else layer_order tr ++ [layer])
             (<[layer := status]> (layer_state tr))
       | _ => mkTracker (messages tr ++ [status]) (layer_order tr) (layer_state tr)
       end.
Definition newline : string := String (ascii_of_N 10) EmptyString.
Definition into_clean_output (tr : Tracker) : string :=
  String.concat EmptyString
    (((λ m, m +:+ newline) <$> messages tr)
     ++ omap (λ l, st ← layer_state tr !! l; Some (l +:+ ": " +:+ st +:+ newline)) (layer_order tr)).
Fixpoint pull_stream (tr : Tracker) (l : list (Result string CreateImageInfo)) : Result DockerError string :=
  match l with
  | [] => Ok (into_clean_output tr)
  | Err e :: _ => Err (DaemonConnection e)
  | Ok i :: l' =>
      match p_error i with
      | Some m => Err (PullFailed (default "docker pull error" m))
      | None => pull_stream (handle_event tr i) l'
      end
  end.
Definition pull_image (img t : string) (a : option DockerAuth) : Call (Result DockerError string) :=
  on_client (
    let c := map_auth_to_credentials img <$> a in
    _ ← emit (Pulled img t c);
    l ← acts (bollard_create_image img t c);
    mret (pull_stream tracker_new l)).

(** ** Versions *)

Record ResolvedImageVersion := mkResolved { version : string; display_version : option string }.

Definition platform_error (p img t : string) : string :=
  "platform " +:+ p +:+ " is not available for image " +:+ img +:+ ":" +:+ t.

Definition resolve_image_info (ir : ImageRef) (t : string) (wanted : option string)
    : Call (Result PluginError (option ResolvedImageVersion)) :=
  i ← inspect_image (image ir +:+ ":" +:+ t);
  match i with
  | Err e => mret (Err (PluginInternal (report_text e)))
  | Ok None => mret (Ok None)
  | Ok (Some local) =>
      match wanted with
      | Some p =>
          r ← registry_call (get_platform_manifest_digest (auth config) (registry ir) (repository ir) t p);
          mret match r with
               | Ok (Some info) => Ok (Some (mkResolved (info_digest info) (format_display_version <$> created_at info)))
               | Ok None => Err (PluginInternal (platform_error p (image ir) t))
               | Err e => Err (PluginInternal ("transient failure fetching platform manifest for " +:+ registry ir +:+ "/"
                                               +:+ repository ir +:+ " (platform: " +:+ p +:+ "): " +:+ report_text e))
               end
      | None =>
          match form_platform_string (local_os local) (local_architecture local) (local_variant local) with
          | Some p =>
              r ← registry_call (get_platform_manifest_digest (auth config) (registry ir) (repository ir) t p);
              mret (Ok (Some (mkResolved (local_digest local)
                         match r with Ok (Some info) => format_display_version <$> created_at info | _ => None end)))
          | None => mret (Ok (Some (mkResolved (local_digest local) None)))
          end
      end
  end.

Definition detect_installed_version (package_identifier : string) : Call (Result PluginError (option string)) :=
  match from_str package_identifier with
  | Err e => mret (Err (PluginInternal (parse_error_text e)))
  | Ok ir =>
      c ← ensure_daemon_client;
      match c with
      | Err e => mret (Err (PluginConfiguration (report_text e)))
      | Ok _ =>
          r ← resolve_image_info ir (resolved_tracked_tag config (tag ir)) (platform config);
          mret (result_map (option_map version) r)
      end
  end.

(** [e.to_string()] of an error of the plugin interface. *)
Context (plugin_report : PluginError → string).

Record BatchDetectResult := mkBatch {
  package_identifier : string; installed_version : option string; error : option string; batch_display_version : option string }.
Definition cache_key (ir : ImageRef) : string :=
  image ir +:+ ":" +:+ resolved_tracked_tag config (tag ir) +:+ "::" +:+ default EmptyString (platform config).

Definition ResolutionCache := gmap string (Result string (option ResolvedImageVersion)).
(** The first loop: every distinct image once. *)
Fixpoint resolve_all (cache : ResolutionCache) (items : list string) : Call ResolutionCache :=
  match items with
  | [] => mret cache
  | item :: items' =>
      match from_str item with
      | Err _ => resolve_all cache items'
      | Ok ir =>
          match cache !! cache_key ir with
          | Some _ => resolve_all cache items'
          | None =>
              r ← resolve_image_info ir (resolved_tracked_tag config (tag ir)) (platform config);
              resolve_all (<[cache_key ir := map_err plugin_report r]> cache) items'
          end
      end
  end.
Definition batch_result (cache : ResolutionCache) (item : string) : BatchDetectResult :=
  match from_str item with
  | Err e => mkBatch item None (Some (parse_error_text e)) None
  | Ok ir =>
      match cache !! cache_key ir with
      | Some (Ok (Some r)) => mkBatch item (Some (version r)) None (display_version r)
      | Some (Ok None) | None => mkBatch item None None None
      | Some (Err e) => mkBatch item None (Some e) None
      end
  end.
Definition batch_detect (items : list string) : Call (Result PluginError (list BatchDetectResult)) :=
  c ← ensure_daemon_client;
  match c with
  | Err e => mret (Err (PluginConfiguration (report_text e)))
  | Ok _ => cache ← resolve_all ∅ items; mret (Ok (batch_result cache <$> items))
  end.

(** ** Releases *)

(** [UpstreamRelease] with the fields this plugin sets; it leaves the others at their defaults. *)
Record UpstreamRelease := mkRelease {
  release_version : string; release_tag : string; is_prerelease : bool; release_url : string;
  published_at : option Z; release_display_version : option string }.
Definition release_of (ir : ImageRef) (t : string) (info : ManifestInfo) : UpstreamRelease :=
  mkRelease (info_digest info) t false (web_url ir (info_digest info)) (created_at info) (format_display_version <$> created_at info).
Definition fetch_releases (pkg : string) : Call (Result PluginError (list UpstreamRelease)) :=
  match from_str pkg with
  | Err e => mret (Err (PluginInternal (parse_error_text e)))
  | Ok ir =>
      let t := resolved_tracked_tag config (tag ir) in
      match platform config with
      | Some p =>
          r ← registry_call (get_platform_manifest_digest (auth config) (registry ir) (repository ir) t p);
          mret match r with
               | Err e => Err (PluginInternal (report_text e))
               | Ok None => Err (PluginInternal (platform_error p (image ir) t))
               | Ok (Some info) => Ok [release_of ir t info]
               end
      | None =>
          r ← registry_call (get_manifest_info (auth config) (registry ir) (repository ir) t);
          mret match r with
               | Err e => Err (PluginInternal (report_text e))
               | Ok info => Ok [release_of ir t info]
               end
      end
  end.

(** ** Discovery *)

(** The target's constants (plugin, roles, empty configuration) are left out; the override is
    the platform it carries, if any. *)
Record DiscoveredSoftware := mkFound {
  found_package : string; found_name : string; found_version : string; platform_override : option string;
  qualifier : string; plugin_package_identifier : string; installed_display_version : option string }.

Definition DigestCache := gmap string (option LocalImageDigest).
Definition VersionCache := gmap string (string * option string).
Definition platform_of (d : LocalImageDigest) : option string :=
  form_platform_string (local_os d) (local_architecture d) (local_variant d).

(** The image of a container that discovery looks at: its reference and the container's name. *)
Definition candidate (c : LocalContainerInfo) : option (ImageRef * string) :=
  let raw := trim (c_image c) in
  if str_is_empty raw || starts_with "sha256:" raw then None
  else match from_str raw, head (c_names c) with
       | Ok ir, Some n =>
           let n := trim_slashes n in
           if str_is_empty n then None
           else if container_passes_label_filter config (c_labels c) then Some (ir, n) else None
       | _, _ => None
       end.
Definition local_of (dc : DigestCache) (ir : ImageRef) : Call (Result PluginError (option LocalImageDigest * DigestCache)) :=
  match dc !! full_ref ir with
  | Some o => mret (Ok (o, dc))
  | None =>
      i ← inspect_image (full_ref ir);
      mret match i with
           | Ok o => Ok (o, <[full_ref ir := o]> dc)
           | Err e => Err (PluginInternal ("failed to inspect image " +:+ full_ref ir +:+ " during discovery: " +:+ report_text e))
           end
  end.
Definition versions_of (vc : VersionCache) (ir : ImageRef) (d : LocalImageDigest) : Call (string * option string * VersionCache) :=
  match vc !! full_ref ir with
  | Some v => mret (v, vc)
  | None =>
      v ← match platform_of d with
          | Some p =>
              r ← registry_call (get_platform_manifest_digest (auth config) (registry ir) (repository ir) (tag ir) p);
              mret match r with
                   | Ok (Some info) => (info_digest info, format_display_version <$> created_at info)
                   | _ => (local_digest d, None)
                   end
          | None =>
              r ← registry_call (get_manifest_info (auth config) (registry ir) (repository ir) (tag ir));
              mret match r with
                   | Ok info => (local_digest d, format_display_version <$> created_at info)
                   | Err _ => (local_digest d, None)
                   end
          end;
      mret (v, <[full_ref ir := v]> vc)
  end.
Fixpoint discover (dc : DigestCache) (vc : VersionCache) (cs : list LocalContainerInfo)
    : Call (Result PluginError (list DiscoveredSoftware)) :=
  match cs with
  | [] => mret (Ok [])
  | c :: cs' =>
      match candidate c with
      | None => discover dc vc cs'
      | Some (ir, n) =>
          l ← local_of dc ir;
          match l with
          | Err e => mret (Err e)
          | Ok (None, dc') => discover dc' vc cs'
          | Ok (Some d, dc') =>
              x ← versions_of vc ir d;
              rest ← discover dc' x.2 cs';
              mret (result_map (cons (mkFound (full_ref ir) (image ir) x.1.1 (platform_of d) n
                                        (full_ref ir +:+ "#" +:+ n) x.1.2)) rest)
          end
      end
  end.
Definition discover_software : Call (Result PluginError (list DiscoveredSoftware)) :=
  c ← ensure_daemon_client;
  match c with
  | Err e => mret (Err (PluginConfiguration (report_text e)))
  | Ok _ =>
      l ← list_containers true;
      match l with
      | Err e => mret (Err (PluginInternal (report_text e)))
      | Ok cs => discover ∅ ∅ cs
      end
  end.

(** ** Credentials *)

Definition validate_helper_name (n : string) : bool :=
  negb (str_is_empty n)
  && all_chars (λ c, is_ascii_alphanumeric c || Ascii.eqb c "_" || Ascii.eqb c "-") n.
Definition decode_auth_entry (b64 : string) : option DockerAuth :=
  if str_is_empty b64 then None
  else
    s ← base64_decode b64;
    if negb (valid_utf8 s) then None
    else
      '(u, p) ← split_once ":" s;
      if str_is_empty u then None else Some (Basic u p).
Definition read_docker_config (is_remote : bool) : Call (option string) :=
  if is_remote
  then _ ← emit (Ran "cat ~/.docker/config.json 2>/dev/null");
       r ← acts (execute_quiet "cat ~/.docker/config.json 2>/dev/null");
       mret match r with
            | Ok o => if (exit_code o =? 0) && negb (str_is_empty (output o)) then Some (output o) else None
            | Err _ => None
            end
  else reads read_local_config.
Definition helper_command (reg helper : string) : string :=
  "printf '%s' " +:+ Shell.shell_escape reg +:+ " | docker-credential-" +:+ helper +:+ " get".
Definition invoke_credential_helper (helper reg : string) : Call (option DockerAuth) :=
  if negb (validate_helper_name helper) then mret None
  else
    _ ← emit (Ran (helper_command reg helper));
    r ← acts (execute_quiet (helper_command reg helper));
    mret match r with
         | Err _ => None
         | Ok o =>
             if negb (exit_code o =? 0) || str_is_empty (output o) then None
             else match parse_helper_output (output o) with
                  | None => None
                  | Some (u, s) => Some (if bool_decide (u = "<token>") then Bearer s else Basic u s)
                  end
         end.
Definition resolve_uncached (reg : string) (is_remote : bool) : Call (option DockerAuth) :=
  j ← read_docker_config is_remote;
  match j ≫= parse_config_file with
  | None => mret None
  | Some f =>
      h ← match cred_helpers f !! reg with
          | Some helper => invoke_credential_helper helper reg
          | None => mret None
          end;
      mret match h with
           | Some a => Some a
           | None => auths f !! reg ≫= decode_auth_entry
           end
  end.
Definition resolve_system_credentials (reg : string) (is_remote : bool) : Call (option DockerAuth) :=
  c ← query (λ s, credential_cache s !! reg);
  match c with
  | Some a => mret a
  | None =>
      a ← resolve_uncached reg is_remote;
      _ ← exec (λ s, (tt, cache_credential reg a s));
      mret a
  end.
Definition effective_auth (img : string) : Call (option DockerAuth) :=
  match auth config with
  | Some a => mret (Some a)
  | None =>
      if negb (use_system_credentials config) || negb has_executor then mret None
      else resolve_system_credentials match from_str img with Ok r => server_address r | Err _ => img end
             supports_stdio_tunnel
  end.

(** ** Updates *)

(** [str::replace] *)
Fixpoint replace_from (p to : string) (skip : nat) (s : string) : string :=
  match s with
  | EmptyString => EmptyString
  | String c s' =>
      match skip with
      | S k => replace_from p to k s'
      | O => if starts_with p s then to +:+ replace_from p to (str_len p - 1) s' else String c (replace_from p to 0 s')
      end
  end.
Definition replace (p to s : string) : string := replace_from p to 0 s.

Definition compose_parts (cr : ComposeRestartConfig) (any_running : bool) : list string :=
  match working_dir cr with Some d => ["cd " +:+ Shell.shell_escape d; "&&"] | None => [] end
  ++ ["docker"; "compose"]
  ++ match compose_file cr with Some f => ["-f"; Shell.shell_escape f] | None => [] end
  ++ ["up"; if any_running then "-d" else "--no-start"]
  ++ match service cr with Some s => [Shell.shell_escape s] | None => [] end.
Definition compose_command (cr : ComposeRestartConfig) (any_running : bool) : string := join " " (compose_parts cr any_running).
Definition post_pull (cmd img t d : string) : string :=
  replace "{digest}" (Shell.shell_escape d) (replace "{tag}" (Shell.shell_escape t) (replace "{image}" (Shell.shell_escape img) cmd)).

Record ExecuteUpdateResult := mkUpdated { update_output : string; update_resumable : bool }.

(** A command run with its output, whose failure is an install failure. *)
Definition run_command (cmd : string) : Call (Result PluginError string) :=
  _ ← emit (Ran cmd);
  r ← acts (execute cmd);
  mret match r with Ok o => Ok (output o) | Err e => Err (InstallFailed e) end.

Definition targeted (ir : ImageRef) (cs : list ContainerForImage) : list ContainerForImage :=
  filter (λ c, match container_name ir with Some n => bool_decide (name c = n) | None => true end
               && container_passes_label_filter config (labels c) = true) cs.

Definition recreate_line (c : ContainerForImage) : string :=
  "Recreating container " +:+ name c +:+ " (was " +:+ (if is_running c then "running" else "stopped") +:+ ")".
Fixpoint recreate_all (cs : list ContainerForImage) (out : string) : Call (Result PluginError string) :=
  match cs with
  | [] => mret (Ok out)
  | c :: cs' =>
      _ ← emit (Line (recreate_line c));
      r ← recreate_container (name c) (is_running c);
      match r with
      | Err e => mret (Err (InstallFailed (report_text e)))
      | Ok _ => recreate_all cs' (out +:+ recreate_line c +:+ newline)
      end
  end.

Definition compose_step (cs : list ContainerForImage) (out : string) : Call (Result PluginError string) :=
  match compose_restart config with
  | None => mret (Ok out)
  | Some cr =>
      let cmd := compose_command cr (existsb is_running cs) in
      let msg := "Running docker compose: " +:+ cmd in
      _ ← emit (Line msg);
      r ← run_command cmd;
      mret (result_map (λ o, out +:+ msg +:+ newline +:+ o) r)
  end.
Definition post_pull_step (img t out : string) : Call (Result PluginError string) :=
  match post_pull_command config with
  | None => mret (Ok out)
  | Some c =>
      i ← inspect_image (img +:+ ":" +:+ t);
      let cmd := post_pull c img t match i with Ok (Some d) => local_digest d | _ => EmptyString end in
      _ ← emit (Line ("Running post-pull command: " +:+ cmd));
      r ← run_command cmd;
      mret (result_map (λ o, out +:+ o) r)
  end.
Definition recreate_step (cs : list ContainerForImage) (out : string) : Call (Result PluginError string) :=
  match compose_restart config, post_pull_command config with
  | None, None => recreate_all cs out
  | _, _ => mret (Ok out)
  end.

Definition execute_update (pkg : string) : Call (Result PluginError ExecuteUpdateResult) :=
  if negb has_executor
  then mret (Err (PluginConfiguration "execute_update requires a POSIX executor (not available on controller)"))
  else
    c ← ensure_daemon_client;
    match c with
    | Err e => mret (Err (PluginConfiguration (report_text e)))
    | Ok _ =>
        match from_str pkg with
        | Err e => mret (Err (PluginInternal (parse_error_text e)))
        | Ok ir =>
            let t := resolved_tracked_tag config (tag ir) in
            l ← list_containers_for_image (image ir +:+ ":" +:+ t);
            let before := targeted ir match l with Ok cs => cs | Err _ => [] end in
            let line := "Pulling Docker image " +:+ image ir +:+ ":" +:+ t in
            _ ← emit (Line line);
            a ← effective_auth (image ir);
            p ← pull_image (image ir) t a;
            match p with
            | Err e => mret (Err (InstallFailed (report_text e)))
            | Ok po =>
                try (compose_step before (line +:+ newline +:+ po)) (λ out,
                try (post_pull_step (image ir) t out) (λ out,
                try (recreate_step before out) (λ out,
                mret (Ok (mkUpdated out (resumable config))))))
            end
        end
    end.

End Plugin.
End DockerPlugin.
