(* ===== verification/DockerTheorems.v ===== *)
(** The Docker release plugin: where its registry client sends requests and credentials, which
    containers an update touches, and the commands it runs. *)

From Stdlib Require Import Ascii.
From stdpp Require Import base list gmap relations strings numbers.
From S2P Require Import Prelude RustStr ConfigLoader Handlers Egress Shell DockerImages DockerRegistry DockerPlugin EgressTheorems.
Local Open Scope Z_scope.

Module DockerFacts.
Import Docker Registry DockerPlugin.

(** ** Requests of the registry client *)

Section Client.
Context {O : Type} {HU : Egress.UrlLib} {HN : Net O} (cfg : option DockerAuth).
#[local] Notation Call := (Handler (World O) HttpRequest).

(** A request for a part of one repository: a manifest, or a blob. It carries no credential, or a
    token. *)
Definition repository_request (reg repo : string) (r : HttpRequest) : Prop :=
  (∃ reference, target r = manifest_url reg repo reference ∧ via r = registry_client) ∨
  (∃ blob, target r = "https://" +:+ reg +:+ "/v2/" +:+ repo +:+ "/blobs/" +:+ blob ∧ via r = blob_client ∧ method r = GET).
Definition token_credential (c : Credential) : Prop := c = NoCredential ∨ ∃ t, c = BearerCredential t.

(** A request for a token: to a realm whose host is not private, with what is configured. *)
Definition token_request (r : HttpRequest) : Prop :=
  ∃ realm u svc scope, Egress.url_parse realm = Ok u ∧
    Egress.is_private_host (default "" (Egress.host_str u)) = false ∧
    target r = token_url realm svc scope ∧ method r = GET ∧ via r = registry_client ∧
    credential r = configured_credential cfg.

Definition blob_url (reg repo blob : string) : string :=
  "https://" +:+ reg +:+ "/v2/" +:+ repo +:+ "/blobs/" +:+ blob.

(** The URLs of a chain of redirects, each checked against the one before: none goes from https
    to http, and none names a private address. *)
Definition guarded_chain (us : list Egress.Url) : Prop :=
  ∀ i v t, us !! i = Some v → us !! S i = Some t →
    ¬ (Egress.scheme v = "https" ∧ Egress.scheme t = "http") ∧
    ∀ a, Egress.host_ip (Egress.host t) = Some a → Egress.is_private_ip a = false.

(** A request that a blob of the repository was redirected to, after at most four redirects. *)
Definition redirected_blob (reg repo : string) (r : HttpRequest) : Prop :=
  ∃ blob u0 us u, Egress.url_parse (blob_url reg repo blob) = Ok u0 ∧ guarded_chain (u0 :: us ++ [u]) ∧
    (length us < 5)%nat ∧ target r = Egress.url_text u ∧ via r = blob_client ∧ method r = GET.

Definition confined (reg repo : string) (r : HttpRequest) : Prop :=
  (repository_request reg repo r ∧ token_credential (credential r)) ∨
  (redirected_blob reg repo r ∧ token_credential (credential r)) ∨ token_request r.

Lemma check_realm_ok www realm :
  check_realm www = Ok realm →
  ∃ u, Egress.url_parse realm = Ok u ∧ Egress.is_private_host (default "" (Egress.host_str u)) = false.
Proof.
  unfold check_realm. destruct (extract_quoted_param www "realm") as [r|]; [|done].
  destruct (Egress.url_parse r) as [u|] eqn:Hu; [|done]. destruct (Egress.is_private_host _) eqn:Hp; [done|].
  intros [= <-]. by exists u.
Qed.

(** A handler keeps a bound on its events and emits only such ones. *)
Definition bounded (P : HttpRequest → Prop) (n : nat) {A} (h : Call A) : Prop := emits P h ∧ at_most n h.

Lemma bounded_ret P {A} (a : A) : bounded P 0 (mret a : Call A).
Proof. done. Qed.
Lemma bounded_query P {A} (f : World O → A) : bounded P 0 (query f : Call A).
Proof. done. Qed.
Lemma bounded_exec P {A} (f : World O → A * World O) : bounded P 0 (exec f : Call A).
Proof. done. Qed.
Lemma bounded_transmit (P : HttpRequest → Prop) r : P r → bounded P 1 (transmit r : Call _).
Proof. by split. Qed.
Lemma bounded_bind P n m {A B} (h : Call A) (k : A → Call B) :
  bounded P n h → (∀ a, bounded P m (k a)) → bounded P (n + m) (h ≫= k).
Proof.
  intros [He Ha] Hk. split; [apply emits_bind|apply at_most_bind]; [done| |done|]; intros a; apply Hk.
Qed.
Lemma bounded_weaken P n m {A} (h : Call A) : (n ≤ m)%nat → bounded P n h → bounded P m h.
Proof. intros Hle [He Ha]. split; [done|]. by eapply at_most_weaken. Qed.
Lemma bounded_try P n m {E A B} (h : Call (Result E A)) (k : A → Call (Result E B)) :
  bounded P n h → (∀ a, bounded P m (k a)) → bounded P (n + m) (try_ h k).
Proof.
  intros Hh Hk. apply bounded_bind; [done|]. intros [a|e]; [apply Hk|].
  apply (bounded_weaken _ 0); [lia|apply bounded_ret].
Qed.

(** The client of manifests and tokens makes the one request. *)
Lemma bounded_http (P : HttpRequest → Prop) r :
  Egress.redirect (via r) = Egress.NoRedirects → P r → bounded P 1 (http r : Call _).
Proof.
  intros Hnone Hr. unfold http. destruct (Egress.url_parse _); [|apply (bounded_weaken _ 0); [lia|apply bounded_ret]].
  change 1%nat with (1 + 0)%nat. apply bounded_try; [by apply bounded_transmit|]. intros resp.
  rewrite Hnone. simpl. destruct (redirect_of r resp) as [[u c]|]; [|apply bounded_ret].
  rewrite Hnone. apply bounded_ret.
Qed.

Section Repo.
Context (reg repo : string).
(** The HTTP library, when it follows a redirect, sends the credential it had or none; its
    counting policy follows no more redirects than its limit. *)
Context (keeps_or_drops : ∀ r resp u c, redirect_of r resp = Some (u, c) → c = NoCredential ∨ c = credential r)
  (count_limit : ∀ hops previous, counting hops previous = true → (length previous ≤ hops)%nat).

Lemma guarded_chain_snoc us p u :
  guarded_chain us → list.last us = Some p →
  ¬ (Egress.scheme p = "https" ∧ Egress.scheme u = "http") →
  (∀ a, Egress.host_ip (Egress.host u) = Some a → Egress.is_private_ip a = false) → guarded_chain (us ++ [u]).
Proof.
  intros Hus Hlast Hdown Hpub i v t Hv Ht. apply lookup_app_Some in Ht as [Ht|[Hi Ht]].
  - rewrite lookup_app_l in Hv; [by eapply Hus|]. apply lookup_lt_Some in Ht. lia.
  - destruct (S i - length us)%nat eqn:Hz; [|discriminate Ht]. injection Ht as <-.
    rewrite lookup_app_l in Hv by lia. rewrite last_lookup in Hlast.
    replace (pred (length us)) with i in Hlast by lia. assert (v = p) as -> by congruence. done.
Qed.

(** Following the redirects of a blob: the policy, not the fuel, ends the chain. *)
Lemma follow_bounded fuel blob u0 us r resp :
  Egress.url_parse (blob_url reg repo blob) = Ok u0 → guarded_chain (u0 :: us) →
  via r = blob_client → method r = GET → token_credential (credential r) →
  bounded (confined reg repo) (5 - length us) (follow_redirects fuel (u0 :: us) r resp : Call _).
Proof.
  assert (∀ n (res : Result string HttpResponse), bounded (confined reg repo) n (mret res : Call _)) as Hret.
  { intros n res. apply (bounded_weaken _ 0); [lia|apply bounded_ret]. }
  revert us r resp. induction fuel as [|fuel IH]; intros us r resp Hu0 Hch Hvia Hm Hc; cbn [follow_redirects].
  { destruct (redirect_of r resp) as [[u c]|]; [|apply Hret].
    destruct (Egress.into_policy _ _ _ _ _ _) as [[[]]]; apply Hret. }
  destruct (redirect_of r resp) as [[u c]|] eqn:Hred; [|apply Hret].
  destruct ((Egress.into_policy _ _ _ _ _ _).1.1) eqn:Hpol; [|apply Hret..].
  assert ((length us < 5)%nat ∧ guarded_chain (u0 :: us ++ [u])) as [Hlen Hch'].
  { rewrite Hvia in Hpol. cbn [Egress.redirect Egress.ssrf_mode blob_client Egress.into_policy] in Hpol.
    unfold Egress.limited_policy in Hpol. destruct (list.last (u0 :: us)) as [p|] eqn:Hlast; [|by apply last_None in Hlast].
    destruct (Egress.check_hop p u _) as [o|e] eqn:Hhop; [|done].
    assert (Egress.limited counting 5 (u0 :: us) = Egress.Follow) as Hl.
    { destruct o; [|done]. by destruct (Egress.dedupe_decision _ _). }
    unfold Egress.limited in Hl. destruct (counting 5 (u0 :: us)) eqn:Hcnt; [|done].
    apply count_limit in Hcnt. apply EgressFacts.check_hop_strict in Hhop as [Hdown Hpub].
    split; [simpl in Hcnt; lia|]. by apply (guarded_chain_snoc (u0 :: us) p). }
  set (r' := mkHttp _ _ _ _ _).
  assert (token_credential c) as Hc' by (destruct (keeps_or_drops _ _ _ _ Hred) as [->| ->]; [by left|done]).
  replace (5 - length us)%nat with (1 + (5 - S (length us)))%nat by lia. apply bounded_try.
  - apply bounded_transmit. right. left. split; [|done]. by exists blob, u0, us, u.
  - intros resp'. replace (S (length us)) with (length (us ++ [u])) by (rewrite length_app; simpl; lia).
    by apply (IH (us ++ [u])).
Qed.

Lemma fetch_token_bounded www : bounded (confined reg repo) 1 (fetch_token cfg www : Call _).
Proof.
  unfold fetch_token. destruct (check_realm www) as [realm|e] eqn:Hr; [|by apply (bounded_weaken _ 0); [lia|]].
  destruct (check_realm_ok _ _ Hr) as (u & Hu & Hp). change 1%nat with (1 + 0)%nat. apply bounded_bind.
  - apply bounded_http; [done|]. right. right. by exists realm, u, (extract_quoted_param www "service"), (extract_quoted_param www "scope").
  - intros [resp|e]; [|apply bounded_ret]. destruct (read_token resp) as [[t secs]|]; [|apply bounded_ret].
    change 0%nat with (0 + 0)%nat. apply bounded_bind; [apply bounded_exec|]. intros _. apply bounded_ret.
Qed.

Lemma manifest_confined m reference c :
  token_credential c → confined reg repo (manifest_request m (manifest_url reg repo reference) c).
Proof. intros Hc. left. split; [|done]. left. by exists reference. Qed.

Lemma challenged_bounded {A} (extract : HttpResponse → Result DockerError A) m reference :
  bounded (confined reg repo) 3 (challenged_request cfg extract m (manifest_url reg repo reference) : Call _).
Proof.
  change 3%nat with (1 + 2)%nat. apply bounded_bind; [apply bounded_http, manifest_confined; [done|]; by left|].
  intros [resp|e]; [|apply (bounded_weaken _ 0); [lia|apply bounded_ret]].
  destruct (status resp =? 401)%N; [|apply (bounded_weaken _ 0); [lia|apply bounded_ret]].
  change 2%nat with (1 + 1)%nat. apply bounded_try; [apply fetch_token_bounded|]. intros t.
  change 1%nat with (1 + 0)%nat. apply bounded_bind; [apply bounded_http, manifest_confined; [done|]; right; by exists t|].
  intros [resp'|e]; apply bounded_ret.
Qed.

Lemma authenticated_bounded {A} (extract : HttpResponse → Result DockerError A) m reference :
  bounded (confined reg repo) 4 (authenticated cfg extract m (manifest_url reg repo reference) : Call _).
Proof.
  change 4%nat with (0 + 4)%nat. apply bounded_bind; [apply bounded_query|].
  intros [t|]; [|apply (bounded_weaken _ 3); [lia|apply challenged_bounded]].
  change 4%nat with (1 + 3)%nat. apply bounded_bind; [apply bounded_http, manifest_confined; [done|]; right; by exists t|].
  intros [resp|e]; [|apply (bounded_weaken _ 0); [lia|apply bounded_ret]].
  destruct (negb _); [apply (bounded_weaken _ 0); [lia|apply bounded_ret]|].
  change 3%nat with (0 + 3)%nat. apply bounded_bind; [apply bounded_exec|]. intros _. apply challenged_bounded.
Qed.

Lemma blob_http_bounded blob acc c :
  token_credential c → bounded (confined reg repo) 6 (http (mkHttp blob_client GET (blob_url reg repo blob) acc c) : Call _).
Proof.
  intros Hc. unfold http. cbn [target]. destruct (Egress.url_parse _) as [u0|] eqn:Hu0;
    [|apply (bounded_weaken _ 0); [lia|apply bounded_ret]].
  change 6%nat with (1 + 5)%nat. apply bounded_try.
  - apply bounded_transmit. left. split; [|done]. right. by exists blob.
  - intros resp. by apply (follow_bounded _ blob u0 []).
Qed.
Lemma blob_bounded blob : bounded (confined reg repo) 6 (try_config_blob_created_at reg repo blob : Call _).
Proof.
  change 6%nat with (0 + (6 + 0))%nat. apply bounded_bind; [apply bounded_query|]. intros t.
  apply bounded_bind; [|intros resp; apply bounded_ret]. apply blob_http_bounded.
  destruct t as [t|]; [right; by exists t|by left].
Qed.
Lemma created_at_bounded b : bounded (confined reg repo) 6 (try_extract_created_at reg repo b : Call _).
Proof.
  unfold try_extract_created_at. destruct (parse_manifest b) as [m|]; [|apply (bounded_weaken _ 0); [lia|apply bounded_ret]].
  destruct (_ ≫= _); [apply (bounded_weaken _ 0); [lia|apply bounded_ret]|apply blob_bounded].
Qed.
Lemma fetched_created_at_bounded d : bounded (confined reg repo) 10 (try_fetch_manifest_created_at cfg reg repo d : Call _).
Proof.
  change 10%nat with (4 + 6)%nat. apply bounded_bind; [apply authenticated_bounded|].
  intros [[[d' ct] b]|e]; [apply created_at_bounded|apply (bounded_weaken _ 0); [lia|apply bounded_ret]].
Qed.

Lemma manifest_digest_bounded t : bounded (confined reg repo) 8 (get_manifest_digest cfg reg repo t : Call _).
Proof.
  change 8%nat with (4 + 4)%nat. apply bounded_bind; [apply authenticated_bounded|].
  intros [d|e]; [apply (bounded_weaken _ 0); [lia|apply bounded_ret]|].
  destruct (is_forbidden_response e); [apply authenticated_bounded|apply (bounded_weaken _ 0); [lia|apply bounded_ret]].
Qed.
Lemma manifest_info_bounded t : bounded (confined reg repo) 10 (get_manifest_info cfg reg repo t : Call _).
Proof.
  change 10%nat with (4 + 6)%nat. apply bounded_try; [apply authenticated_bounded|]. intros [[d ct] b].
  destruct (is_index ct); [apply (bounded_weaken _ 0); [lia|apply bounded_ret]|].
  change 6%nat with (6 + 0)%nat. apply bounded_bind; [apply created_at_bounded|]. intros c. apply bounded_ret.
Qed.
Lemma platform_digest_bounded t p :
  bounded (confined reg repo) 14 (get_platform_manifest_digest cfg reg repo t p : Call _).
Proof.
  change 14%nat with (4 + 10)%nat. apply bounded_try; [apply authenticated_bounded|]. intros [[d ct] b].
  destruct (negb _).
  { change 10%nat with (6 + 4)%nat. apply bounded_bind; [apply created_at_bounded|]. intros c.
    apply (bounded_weaken _ 0); [lia|apply bounded_ret]. }
  destruct (parse_index b) as [l|e]; [|apply (bounded_weaken _ 0); [lia|apply bounded_ret]].
  destruct (find_platform p l) as [pd|]; [|apply (bounded_weaken _ 0); [lia|apply bounded_ret]].
  change 10%nat with (10 + 0)%nat. apply bounded_bind; [apply fetched_created_at_bounded|]. intros c. apply bounded_ret.
Qed.

(** The calls of the client's interface, for one repository. *)
Inductive client_call : ∀ A, Call A → Prop :=
| call_digest t : client_call _ (get_manifest_digest cfg reg repo t)
| call_info t : client_call _ (get_manifest_info cfg reg repo t)
| call_platform t p : client_call _ (get_platform_manifest_digest cfg reg repo t p).

End Repo.
End Client.

(** ** Updates *)

Section Updates.
Context {O : Type} {HU : Egress.UrlLib} {HN : Net O} {HH : Host O} (env : relation (State O)) (config : DockerConfig).

(** The container an event is about. *)
Definition touches (e : Ev) : option string :=
  match e with Stopped n | Removed n | Created n | Started n => Some n | _ => None end.
Definition recreation (n : string) (was_running : bool) : list Ev :=
  (if was_running then [Stopped n] else []) ++ [Removed n; Created n] ++ (if was_running then [Started n] else []).

(** What was done to containers. *)
Definition container_events (es : list Ev) : list Ev := filter (λ e, is_Some (touches e)) es.

(** The containers were recreated one after the other, each stopped (if it ran), removed,
    created and started again (if it ran), in this order; only the last one may be left
    unfinished, and not if the update succeeded. *)
Definition recreated_in_order (ok : bool) (es : list Ev) : Prop :=
  ∃ (whole : list (string * bool)) part,
    container_events es = concat ((λ nb, recreation nb.1 nb.2) <$> whole) ++ part ∧
    (∃ n b, part `prefix_of` recreation n b) ∧ (ok = true → part = []).

Lemma container_events_app es es' : container_events (es ++ es') = container_events es ++ container_events es'.
Proof. apply list.filter_app. Qed.
Lemma container_events_quiet es : Forall (λ e, touches e = None) es → container_events es = [].
Proof.
  induction 1 as [|e es He _ IH]; [done|]. unfold container_events in *. rewrite list.filter_cons, decide_False; [done|].
  rewrite He. by intros [? ?].
Qed.
Lemma container_events_part es n b : es `prefix_of` recreation n b → container_events es = es.
Proof.
  intros [k Hk]. assert (Forall (λ e, is_Some (touches e)) (recreation n b)) as Hall.
  { destruct b; repeat constructor; by eexists. }
  rewrite Hk in Hall. apply Forall_app in Hall as [Hes _]. clear Hk. unfold container_events.
  induction Hes as [|e es He _ IH]; [done|]. rewrite list.filter_cons, decide_True by done. by rewrite IH.
Qed.
Lemma in_order_quiet ok es : Forall (λ e, touches e = None) es → recreated_in_order ok es.
Proof.
  intros Hq. exists [], []. rewrite container_events_quiet by done. split_and!; [done| |done].
  exists "", false. apply prefix_nil.
Qed.
Lemma in_order_after ok es es' :
  Forall (λ e, touches e = None) es → recreated_in_order ok es' → recreated_in_order ok (es ++ es').
Proof.
  intros Hq (whole & part & Hes & Hp). exists whole, part. by rewrite container_events_app, container_events_quiet.
Qed.
Lemma in_order_weaken ok ok' es : (ok' = true → ok = true) → recreated_in_order ok es → recreated_in_order ok' es.
Proof. intros Hok (whole & part & Hes & Hp & Hn). exists whole, part. auto. Qed.

Lemma runs_acts {A} (f : O → A * O) s r s' es : runs env (acts f) s r s' es → es = [].
Proof. unfold acts. intros Hr. inv_runs. done. Qed.
Lemma runs_daemon {A} (f : O → Result string A * O) s r s' es : runs env (daemon f) s r s' es → es = [].
Proof.
  unfold daemon. intros Hr. apply runs_bind in Hr as (a & d & e1 & e2 & H1%runs_acts & H2 & ->). inv_runs. by subst.
Qed.
Lemma runs_event (e : Ev) {A} (f : O → Result string A * O) s r s' es :
  runs env (_ ← emit e; daemon f) s r s' es → es = [e].
Proof. intros (a & d & e1 & e2 & (_ & -> & ->)%runs_emit1 & ->%runs_daemon & ->)%runs_bind. done. Qed.

(** One recreation: a prefix of its steps, all of them or none if it succeeds. *)
Lemma recreate_runs n b s r s' es :
  runs env (recreate_container n b) s r s' es →
  es `prefix_of` recreation n b ∧ (r = Ok tt → es = [] ∨ es = recreation n b).
Proof.
  unfold recreate_container, on_client. intros (k & d & e1 & e2 & (_ & _ & ->)%runs_query & Hr & ->)%runs_bind.
  destruct k; [inv_runs; subst; by split; [apply prefix_nil|]|].
  apply runs_bind in Hr as (i & d1 & e1 & e3 & Hi & Hr & ->). unfold reads in Hi. apply runs_query in Hi as (_ & _ & ->).
  rewrite !app_nil_l. destruct i as [i|e]; [|inv_runs; subst; by split; [apply prefix_nil|]].
  destruct (default false (auto_remove i)); [inv_runs; subst; split; [apply prefix_nil|by left]|].
  unfold try in Hr. apply runs_bind in Hr as (r1 & d2 & e1 & e4 & H1 & Hr & ->).
  assert (e1 = if b then [Stopped n] else []) as ->.
  { destruct b; [by apply runs_event in H1|by inv_runs]. }
  destruct r1 as [u|err]; [|inv_runs; subst; rewrite app_nil_r; split; [apply prefix_app_r; done|done]].
  apply runs_bind in Hr as (r2 & d3 & e1 & e5 & H2 & Hr & ->). apply runs_event in H2 as ->.
  destruct r2 as [u2|err]; [|inv_runs; subst; split; [unfold recreation; apply prefix_app, prefix_cons, prefix_nil|done]].
  apply runs_bind in Hr as (r2' & d3' & e1 & e5' & H2' & Hr & ->). apply runs_ret in H2' as (-> & -> & ->).
  rewrite app_nil_l. destruct (create_body i) as [body|err];
    [|inv_runs; subst; split; [unfold recreation; apply prefix_app, prefix_cons, prefix_nil|done]].
  apply runs_bind in Hr as (r3 & d4 & e1 & e6 & H3 & Hr & ->). apply runs_event in H3 as ->.
  destruct r3 as [u3|err]; [|inv_runs; subst; split; [unfold recreation; apply prefix_app, prefix_cons, prefix_cons, prefix_nil|done]].
  assert (e6 = if b then [Started n] else []) as ->.
  { destruct b; [by apply runs_event in Hr|by inv_runs]. }
  split; [done|by right].
Qed.

Lemma recreate_all_runs cs out s r s' es :
  runs env (recreate_all cs out) s r s' es →
  Forall (λ e, touches e = None ∨ ∃ c, c ∈ cs ∧ e ∈ recreation (name c) (is_running c)) es ∧
  recreated_in_order (is_ok r) es.
Proof.
  revert out s es. induction cs as [|c cs IH]; intros out s es Hr; cbn [recreate_all] in Hr.
  { inv_runs. subst. split; [done|]. by apply in_order_quiet. }
  apply runs_bind in Hr as (u & d & e1 & e2 & (_ & -> & ->)%runs_emit1 & Hr & ->).
  apply runs_bind in Hr as (r1 & d1 & e1 & e3 & (Hpre & Hok)%recreate_runs & Hr & ->).
  assert (Forall (λ e, touches e = None ∨ ∃ c0, c0 ∈ c :: cs ∧ e ∈ recreation (name c0) (is_running c0)) e1) as Hf.
  { rewrite list.Forall_forall. intros e He. right. exists c. split; [by left|].
    destruct Hpre as [k ->]. apply elem_of_app. by left. }
  destruct r1 as [[]|err].
  - apply IH in Hr as [Hf' Hord]. split.
    + constructor; [by left|]. apply Forall_app. split; [done|].
      eapply Forall_impl; [|exact Hf']. intros e [?|(c0 & Hc0 & ?)]; [by left|]. right. exists c0. split; [by right|done].
    + apply in_order_after; [by repeat constructor|]. destruct (Hok eq_refl) as [->| ->]; [done|].
      destruct Hord as (whole & part & Hes & Hp). exists ((name c, is_running c) :: whole), part.
      rewrite container_events_app, Hes, (container_events_part _ (name c) (is_running c)) by done.
      split; [by rewrite fmap_cons; cbn [concat fst snd]; rewrite <-app_assoc|done].
  - inv_runs. subst. rewrite app_nil_r. split; [by constructor; [left|]|].
    apply in_order_after; [by repeat constructor|]. exists [], e1.
    rewrite (container_events_part _ _ _ Hpre). split_and!; [done|by eexists _, _|done].
Qed.

(** The steps that touch no container. *)
#[local] Notation quiet := (emits (λ e, touches e = None)).

Lemma quiet_ensure x : quiet (ensure_daemon_client config x).
Proof.
  unfold ensure_daemon_client. apply emits_bind; [done|]. intros [|]; [done|]. destruct x; [|done].
  apply emits_bind; [done|]. by intros [|].
Qed.
Lemma quiet_on_client {A} (h : Handler (State O) Ev (Result DockerError A)) : quiet h → quiet (on_client h).
Proof. intros Hh. apply emits_bind; [done|]. by intros []. Qed.
Lemma quiet_list f : quiet (list_containers_for_image f).
Proof. apply quiet_on_client, emits_bind; done. Qed.
Lemma quiet_inspect f : quiet (inspect_image f).
Proof. apply quiet_on_client, emits_bind; done. Qed.
Lemma quiet_helper h reg : quiet (invoke_credential_helper h reg).
Proof.
  unfold invoke_credential_helper. destruct (negb _); [done|]. apply emits_bind; [done|]. intros _.
  apply emits_bind; done.
Qed.
Lemma quiet_resolve reg b : quiet (resolve_system_credentials reg b).
Proof.
  apply emits_bind; [done|]. intros [a|]; [done|]. apply emits_bind.
  - apply emits_bind.
    + unfold read_docker_config. destruct b; [|done]. apply emits_bind; [done|]. intros _. by apply emits_bind.
    + intros j. destruct (j ≫= parse_config_file) as [f|]; [|done]. apply emits_bind; [|done].
      destruct (cred_helpers f !! reg); [apply quiet_helper|done].
  - intros a. by apply emits_bind.
Qed.
Lemma quiet_auth x img : quiet (effective_auth config x img).
Proof.
  unfold effective_auth. destruct (auth config); [done|]. destruct (_ || _); [done|]. apply quiet_resolve.
Qed.
Lemma quiet_pull img t a : quiet (pull_image img t a).
Proof. apply quiet_on_client. apply emits_bind; [done|]. intros _. by apply emits_bind. Qed.
Lemma quiet_command cmd : quiet (run_command cmd).
Proof. apply emits_bind; [done|]. intros _. by apply emits_bind. Qed.
Lemma quiet_compose cs out : quiet (compose_step config cs out).
Proof.
  unfold compose_step. destruct (compose_restart config); [|done]. apply emits_bind; [done|]. intros _.
  apply emits_bind; [apply quiet_command|done].
Qed.
Lemma quiet_post_pull img t out : quiet (post_pull_step config img t out).
Proof.
  unfold post_pull_step. destruct (post_pull_command config); [|done]. apply emits_bind; [apply quiet_inspect|]. intros i.
  apply emits_bind; [done|]. intros _. apply emits_bind; [apply quiet_command|done].
Qed.

(** A successful pull made the request. *)
Lemma pull_runs img t a s out s' es :
  runs env (pull_image img t a) s (Ok out) s' es → ∃ c, es = [Pulled img t c].
Proof.
  unfold pull_image, on_client. intros (k & d & e1 & e2 & (_ & _ & ->)%runs_query & Hr & ->)%runs_bind.
  destruct k; [by inv_runs|]. apply runs_bind in Hr as (u & d1 & e1 & e3 & (_ & -> & ->)%runs_emit1 & Hr & ->).
  apply runs_bind in Hr as (l & d2 & e1 & e4 & Hl%runs_acts & Hr & ->). inv_runs. subst. by eexists.
Qed.

Lemma list_runs f s l s' es :
  runs env (list_containers_for_image f) s (Ok l) s' es →
  ∃ o listed, bollard_list true (Some f) o = Ok listed ∧ l = omap container_for_image listed.
Proof.
  unfold list_containers_for_image, on_client. intros (k & d & e1 & e2 & (_ & _ & ->)%runs_query & Hr & ->)%runs_bind.
  destruct k; [by inv_runs|]. apply runs_bind in Hr as (x & d1 & e1 & e3 & Hx & Hr & ->). unfold reads in Hx.
  apply runs_query in Hx as (_ & -> & ->). apply runs_ret in Hr as (Hl & _ & _).
  destruct (bollard_list true (Some f) (outside (world d1))) as [listed|] eqn:Hb; [|done]. injection Hl as ->. by eexists _, listed.
Qed.

(** The container of an event, among those the daemon listed for the image. *)
Definition targets (ir : ImageRef) (e : Ev) (n : string) : Prop :=
  ∃ o listed c,
    bollard_list true (Some (image ir +:+ ":" +:+ resolved_tracked_tag config (tag ir))) o = Ok listed ∧
    c ∈ omap container_for_image listed ∧ name c = n ∧ (∀ m, container_name ir = Some m → n = m) ∧
    container_passes_label_filter config (labels c) = true ∧ (e = Stopped n ∨ e = Started n → is_running c = true).

Lemma recreation_target c e n : e ∈ recreation (name c) (is_running c) → touches e = Some n → n = name c ∧ (e = Stopped n ∨ e = Started n → is_running c = true).
Proof.
  unfold recreation. intros He Ht. destruct (is_running c); cbn in He; rewrite !elem_of_cons in He;
    destruct_or? He; subst; cbn in Ht; simplify_eq; try (split; [done|naive_solver]); by apply elem_of_nil in He.
Qed.

Lemma recreate_step_runs cs out s r s' es :
  runs env (recreate_step config cs out) s r s' es →
  (∀ e n, e ∈ es → touches e = Some n →
     compose_restart config = None ∧ post_pull_command config = None ∧
     ∃ c, c ∈ cs ∧ n = name c ∧ (e = Stopped n ∨ e = Started n → is_running c = true)) ∧
  recreated_in_order (is_ok r) es.
Proof.
  unfold recreate_step. intros Hr.
  destruct (compose_restart config), (post_pull_command config);
    [inv_runs; subst; split; [by intros e n Hin%elem_of_nil|by apply in_order_quiet]..|].
  apply recreate_all_runs in Hr as [Hf Hres]. split; [|done]. intros e n He Ht. rewrite list.Forall_forall in Hf.
  destruct (Hf e He) as [Hn|(c & Hc & Hin)]; [congruence|]. do 2 (split; [done|]). exists c. split; [done|].
  by apply recreation_target.
Qed.

(** After the pull: the quiet steps, and then the recreation. *)
Lemma after_pull_runs ir cs t out s r s' es :
  runs env (try (compose_step config cs out) (λ out,
            try (post_pull_step config (image ir) t out) (λ out,
            try (recreate_step config cs out) (λ out, mret (Ok (mkUpdated out (resumable config))))))) s r s' es →
  (∀ e n, e ∈ es → touches e = Some n →
     compose_restart config = None ∧ post_pull_command config = None ∧
     ∃ c, c ∈ cs ∧ n = name c ∧ (e = Stopped n ∨ e = Started n → is_running c = true)) ∧
  recreated_in_order (is_ok r) es.
Proof.
  assert (∀ es, Forall (λ e, touches e = None) es → ∀ e n, e ∈ es → touches e = Some n → False) as Hq.
  { intros es0 Hf e n He Ht. rewrite list.Forall_forall in Hf. rewrite (Hf e He) in Ht. done. }
  unfold try. intros (r1 & d1 & e1 & e2 & H1 & Hr & ->)%runs_bind.
  apply (emits_runs _ _ _ _ _ _ _ (quiet_compose _ _)) in H1.
  destruct r1 as [o1|err]; [|inv_runs; subst; rewrite app_nil_r; split; [intros e n He Ht; by destruct (Hq _ H1 e n)|by apply in_order_quiet]].
  apply runs_bind in Hr as (r2 & d2 & e3 & e4 & H2 & Hr & ->).
  apply (emits_runs _ _ _ _ _ _ _ (quiet_post_pull _ _ _)) in H2.
  assert (Forall (λ e, touches e = None) (e1 ++ e3)) as H12 by (by apply Forall_app).
  rewrite app_assoc. destruct r2 as [o2|err]; [|inv_runs; subst; rewrite app_nil_r; split; [intros e n He Ht; by destruct (Hq _ H12 e n)|by apply in_order_quiet]].
  apply runs_bind in Hr as (r3 & d3 & e5 & e6 & (Hc & Hres)%recreate_step_runs & Hr & ->).
  assert (e6 = [] ∧ (is_ok r = true → is_ok r3 = true)) as [-> Hok] by (by destruct r3; inv_runs; subst).
  rewrite app_nil_r. split.
  - intros e n [He|He]%elem_of_app Ht; [by destruct (Hq _ H12 e n)|by apply Hc].
  - apply in_order_after; [done|]. by eapply in_order_weaken.
Qed.

End Updates.

(** ** Commands *)

Import Shell.

Definition arg (o : option string) : list Part := match o with Some a => [Arg a] | None => [] end.
Definition compose_words (cr : ComposeRestartConfig) (any_running : bool) : list Part :=
  match working_dir cr with Some d => [Lit "cd"; Arg d; AndPart] | None => [] end
  ++ [Lit "docker"; Lit "compose"]
  ++ match compose_file cr with Some f => [Lit "-f"; Arg f] | None => [] end
  ++ [Lit "up"; Lit (if any_running then "-d" else "--no-start")] ++ arg (service cr).

Lemma compose_command_text cr b : compose_command cr b = join " " (map part_text (compose_words cr b)).
Proof.
  unfold compose_command, compose_parts, compose_words, arg.
  by destruct (working_dir cr), (compose_file cr), (service cr).
Qed.

Lemma helper_command_text reg helper :
  validate_helper_name helper = true →
  tokens (helper_command reg helper) =
  Some [Word "printf"; Word "%s"; Word reg; Pipe; Word ("docker-credential-" +:+ helper); Word "get"].
Proof.
  intros [Hne Hh]%andb_prop. unfold tokens, helper_command.
  change (lex Between ("printf '%s' " +:+ shell_escape reg +:+ " | docker-credential-" +:+ helper +:+ " get"))
    with ((λ ts, Word "printf" :: ts) <$> ((λ ts, Word "%s" :: ts) <$> lex Between (shell_escape reg +:+ " | docker-credential-" +:+ helper +:+ " get"))).
  rewrite lex_escaped by (by left).
  change (lex (InWord (word_start Between +:+ reg)) (" | docker-credential-" +:+ helper +:+ " get"))
    with ((λ ts, Word reg :: ts) <$> ((λ ts, Pipe :: ts) <$> (flush_word Between <$> lex (InWord "docker-credential-") (helper +:+ " get")))).
  rewrite lex_plain; [|by right; eexists|by destruct helper|].
  2: { clear Hne. induction helper as [|c h IH]; [done|]. cbn [all_chars] in *. apply andb_prop in Hh as [Hc Hh].
       rewrite IH by done. rewrite andb_true_r. unfold plain. by rewrite Hc. }
  done.
Qed.

(** C30: the values in the commands are read as single words. Whatever the directory, the file
    and the service are, a shell reads the compose command as exactly [cd dir && docker compose
    -f file up -d service], with each value one literal word; and the credential helper's
    command as [printf %s registry | docker-credential-helper get], for every helper name the
    plugin accepts. *)
Theorem commands_quoted :
  (∀ cr any_running, tokens (compose_command cr any_running) = Some
     (match working_dir cr with Some d => [Word "cd"; Word d; And] | None => [] end
      ++ [Word "docker"; Word "compose"]
      ++ match compose_file cr with Some f => [Word "-f"; Word f] | None => [] end
      ++ [Word "up"; Word (if any_running then "-d" else "--no-start")]
      ++ match service cr with Some x => [Word x] | None => [] end)) ∧
  (∀ reg helper, validate_helper_name helper = true →
     tokens (helper_command reg helper) =
     Some [Word "printf"; Word "%s"; Word reg; Pipe; Word ("docker-credential-" +:+ helper); Word "get"]).
Proof.
  split; [|apply helper_command_text]. intros cr b. rewrite compose_command_text. unfold tokens. rewrite lex_join.
  - unfold compose_words, arg. by destruct (working_dir cr), (compose_file cr), (service cr).
  - unfold compose_words, arg. by destruct (working_dir cr), (compose_file cr), (service cr), b.
Qed.

Lemma commands_quoted_witness :
  tokens (helper_command "ghcr.io; rm -rf /" "ecr-login") =
  Some [Word "printf"; Word "%s"; Word "ghcr.io; rm -rf /"; Pipe; Word "docker-credential-ecr-login"; Word "get"].
Proof. apply (proj2 commands_quoted "ghcr.io; rm -rf /" "ecr-login"). vm_compute. reflexivity. Defined.

(** The placeholders are replaced one after the other, in what the earlier ones put in: a
    placeholder in the image's name opens the quotes again. *)
Example nested_placeholder :
  post_pull "restart {image}" "a{tag}" "$(id)" "" = "restart 'a'$(id)''" ∧
  tokens "restart 'a'$(id)''" = None.
Proof. by vm_compute. Qed.
End DockerFacts.

(** The Docker release plugin run against small servers and a small daemon. *)
Module DockerDemo.
Import Docker Registry DockerPlugin DockerFacts.

#[local] Existing Instance EgressFacts.Demo.plain_urls.

Definition q (s : string) : string := String dquote s +:+ String dquote "".
Definition answer (r : HttpRequest) : HttpResponse :=
  if contains_str "/blobs/" (target r) then mkResponse 307 None None None (Some "https://cdn.a/blob") (Ok "")
  else if starts_with "https://cdn.a" (target r) then mkResponse 200 None None None None (Ok "config")
  else if starts_with "https://auth.a/" (target r) then mkResponse 200 None None None None (Ok "token-a")
  else if starts_with "https://a.example/" (target r)
  then match credential r with
       | BearerCredential _ => mkResponse 200 None (Some "sha256:new") (Some "application/vnd.oci.image.manifest.v1+json") None (Ok "manifest")
       | _ => mkResponse 401 (Some ("Bearer realm=" +:+ q "https://auth.a/token" +:+ ",service=" +:+ q "a")) None None None (Ok "")
       end
  else mkResponse 200 None (Some "sha256:other") None None (Ok "").

#[local] Instance demo_net : Net unit := {
  send r o := (Ok (answer r), o);
  redirect_of r resp := match location resp with
                        | Some l => match Egress.url_parse l with Ok u => Some (u, NoCredential) | Err _ => None end
                        | None => None end;
  counting hops previous := (length previous <=? hops)%nat;
  parse_token_response b := Ok (mkTokenResponse (Some b) None (Some 300));
  parse_index _ := Err "no index";
  parse_manifest b := if decide (b = "manifest") then Some (mkManifest "sha256:c" ∅) else None;
  parse_image_config _ := None;
  parse_rfc3339 _ := None;
  status_text _ := "";
  report_text _ := "";
  CARGO_PKG_VERSION := "1" }.

#[local] Instance demo_host : Host unit := {
  Saved := unit; ConfigJson := unit; Body := unit;
  config_to_json _ := Ok tt;
  body_of_json _ := Ok tt;
  bollard_inspect_image _ _ := Ok (mkInspect (Some ["app@sha256:old"]) (Some "linux") (Some "amd64") None);
  bollard_list _ _ _ := Ok [mkSummary (Some "a.example/app:v1") (Some ["/web"]) None (Some "running");
                            mkSummary (Some "a.example/app:v1") (Some ["/db"]) None (Some "exited")];
  bollard_inspect _ _ := Ok (mkInspected None tt);
  bollard_create_image _ _ _ o := ([Ok (mkPull (Some "l1") (Some "Pull complete") None)], o);
  bollard_stop _ o := (Ok tt, o);
  bollard_remove _ o := (Ok tt, o);
  bollard_create _ _ _ o := (Ok tt, o);
  bollard_start _ o := (Ok tt, o);
  bollard_connect _ o := (Ok tt, o);
  execute _ o := (Ok (mkOutput "" 0), o);
  execute_quiet _ o := (Ok (mkOutput "" 0), o);
  supports_stdio_tunnel := false;
  read_local_config _ := Some "config";
  parse_config_file _ := Some (mkFile {["ghcr.io" := "dXNlcjpwdw=="]} ∅);
  parse_helper_output _ := None;
  base64_decode _ := Some "user:pw";
  valid_utf8 _ := true;
  format_display_version _ := "" }.

Definition w0 : World unit := mkWorld 0 None tt.
Definition s0 : State unit := mkState w0 Noop false ∅.
Definition creds : option DockerAuth := Some (Basic "user" "secret").


(** The token of one registry is sent to the next one the client asks. *)
Example token_of_another_registry :
  let w1 := (run (get_manifest_info creds "a.example" "app" "v1") w0).1.2 in
  map (λ e, (target e, credential e)) (run (get_manifest_info None "b.example" "app" "v1") w1).2 =
  [("https://b.example/v2/app/manifests/v1", BearerCredential "token-a")].
Proof. by vm_compute. Qed.

Definition with_platform : DockerConfig :=
  mkDockerConfig None None None None None None [] [] None RuntimeAuto false (Some "linux/amd64") false.

(** With a platform configured, the version reported as installed is the one the registry has,
    whatever image is on the host: here the host's is sha256:old. *)
Example platform_hides_update :
  (run (detect_installed_version with_platform true "a.example/app:v1") s0).1.1 = Ok (Some "sha256:new") ∧
  (run (detect_installed_version default_config true "a.example/app:v1") s0).1.1 = Ok (Some "sha256:old").
Proof. by vm_compute. Qed.

Definition system_credentials : DockerConfig :=
  mkDockerConfig None None None None None None [] [] None RuntimeAuto true None false.

(** An entry for ghcr.io is never found: it is looked up by the server's address. *)
Example credentials_looked_up_by_address :
  (run (effective_auth system_credentials true "ghcr.io/owner/app") s0).1.1 = None ∧
  (run (resolve_system_credentials "ghcr.io" false) s0).1.1 = Some (Basic "user" "pw").
Proof. by vm_compute. Qed.


(** A configuration that does not survive the conversion: the container is already gone. *)
Section BadConfig.
#[local] Instance bad_host : Host unit := {
  Saved := unit; ConfigJson := unit; Body := unit;
  config_to_json _ := Ok tt;
  body_of_json _ := Err "unknown field";
  bollard_inspect_image := @bollard_inspect_image _ demo_host; bollard_list := @bollard_list _ demo_host;
  bollard_inspect _ _ := Ok (mkInspected None tt); bollard_create_image := @bollard_create_image _ demo_host;
  bollard_stop _ o := (Ok tt, o); bollard_remove _ o := (Ok tt, o); bollard_create _ _ _ o := (Ok tt, o);
  bollard_start _ o := (Ok tt, o); bollard_connect _ o := (Ok tt, o);
  execute := @execute _ demo_host; execute_quiet := @execute_quiet _ demo_host; supports_stdio_tunnel := false;
  read_local_config _ := None; parse_config_file _ := None; parse_helper_output _ := None;
  base64_decode _ := None; valid_utf8 _ := true; format_display_version _ := "" }.
Example conversion_failure_removes :
  let '(r, _, es) := run (execute_update default_config true "a.example/app:v1#web") s0 in
  is_ok r = false ∧ container_events es = [Stopped "web"; Removed "web"].
Proof. by vm_compute. Qed.
End BadConfig.
End DockerDemo.
