(* ===== verification/SettingsSnapshot.v ===== *)
(** The settings a controller publishes ([crates/ui/controller-core/src/settings/mod.rs],
    [crates/ui/web-api-auth/src/auth/registration.rs], [authentication.rs]): how they are decoded
    from the raw settings, and the fields that are replaced one by one. The networks of
    [trusted_proxies] are parsed by a library, [parse_ipnet]. *)

From stdpp Require Import base list gmap strings numbers.
From S2P Require Import Prelude RustStr Json ConfigLoader Crypto OidcStore.
Local Open Scope Z_scope.

Module Snapshot.

Definition RawSettings := gmap string Value.

Definition as_str (v : Value) : option string := match v with JString s => Some s | _ => None end.
Definition as_bool (v : Value) : option bool := match v with JBool b => Some b | _ => None end.
Definition as_u64 (v : Value) : option Z := match v with JNumber (PosInt n) => Some n | _ => None end.
Definition as_array (v : Value) : option (list Value) := match v with JArray l => Some l | _ => None end.
(** [Result::ok] *)
Definition ok {E A} (r : Result E A) : option A := match r with Ok a => Some a | Err _ => None end.
(** [try_into().ok()] to an unsigned integer of [w] bits *)
Definition try_into (w n : Z) : option Z := if (0 <=? n) && (n <? 2 ^ w) then Some n else None.

(** ** Registration and authentication *)

Definition registration_from_raw (raw : RawSettings) : Oidc.RegistrationSettings :=
  Oidc.mkRegistration
    (default Oidc.Closed ((raw !! "registration.mode" ≫= as_str) ≫= Oidc.parse_mode))
    (raw !! "registration.token_hash" ≫= as_str)
    (default false (raw !! "registration.require_token_for_oidc" ≫= as_bool)).

Record AuthenticationSettings := mkAuthentication { password_auth_enabled : bool; two_factor_required : bool }.
Definition default_authentication : AuthenticationSettings := mkAuthentication true false.
Definition authentication_from_raw (raw : RawSettings) : AuthenticationSettings :=
  mkAuthentication
    (default true (raw !! "auth.password_enabled" ≫= as_bool))
    (default false (raw !! "auth.two_factor_required" ≫= as_bool)).

(** ** Certificates *)

Definition DEFAULT_AGENT_CERT_LIFETIME_HOURS : Z := 168.
Definition MAX_RENEWAL_WINDOW_DAYS : Z := 14.

Definition compute_effective_renewal_window_hours (lifetime_hours : Z) (override_hours : option Z) : Z :=
  match override_hours with
  | Some h => h
  | None => default 65535 (try_into 16 (Z.min (lifetime_hours / 5) (MAX_RENEWAL_WINDOW_DAYS * 24)))
  end.

Definition lifetime_from_raw (raw : RawSettings) : Z :=
  default DEFAULT_AGENT_CERT_LIFETIME_HOURS ((raw !! "agent_certificate.lifetime_hours" ≫= as_u64) ≫= try_into 32).
Definition window_from_raw (raw : RawSettings) : option Z :=
  (raw !! "agent_certificate.renewal_window_hours" ≫= as_u64) ≫= try_into 16.

(** ** Network *)

(** An address and the length of its prefix; an address and its port. *)
Definition IpNet : Type := list N * N.
Definition Addr : Type := list N * N.
Class IpNets := { parse_ipnet : string → option IpNet }.

Record NetworkSettings := mkNetwork {
  trusted_proxies : list IpNet; real_ip_header : string; sans : list string; https_addr : Addr;
  forwarded_client_cert_info_header : option string; forwarded_client_cert_pem_header : option string; pki_addr : option string }.

Definition DEFAULT_REAL_IP_HEADER : string := "X-Forwarded-For".
(** [[::]:8443] *)
Definition DEFAULT_HTTPS_ADDR : Addr := (replicate 8 0%N, 8443%N).
Definition default_network : NetworkSettings :=
  mkNetwork [] DEFAULT_REAL_IP_HEADER [] DEFAULT_HTTPS_ADDR None None None.

Definition nonempty (s : string) : option string := if decide (s = "") then None else Some s.
Definition text_setting (key : string) (raw : RawSettings) : option string := (raw !! key ≫= as_str) ≫= nonempty.

(** The elements of an array that are accepted; no elements where there is no array. *)
Definition array_setting {A} (key : string) (f : Value → option A) (raw : RawSettings) : list A :=
  match raw !! key ≫= as_array with Some l => omap f l | None => [] end.

Definition load_network_settings {I : IpNets} (raw : RawSettings) : NetworkSettings :=
  mkNetwork
    (array_setting "network.trusted_proxies" (λ v, as_str v ≫= parse_ipnet) raw)
    (default DEFAULT_REAL_IP_HEADER (raw !! "network.real_ip_header" ≫= as_str))
    (array_setting "network.sans" as_str raw)
    (default DEFAULT_HTTPS_ADDR ((raw !! "network.https_addr" ≫= as_str) ≫= λ s, ok (SocketAddr.parse s)))
    (text_setting "network.forwarded_client_cert_info_header" raw)
    (text_setting "network.forwarded_client_cert_pem_header" raw)
    (text_setting "network.pki_addr" raw).

(** ** Discovery and messages *)

Record ZeroconfSnapshot := mkZeroconf { enabled : bool; url : option string; zc_pki_addr : option string }.
Definition load_zeroconf_settings (raw : RawSettings) : ZeroconfSnapshot :=
  mkZeroconf (default false (raw !! "zeroconf.enabled" ≫= as_bool)) (text_setting "zeroconf.url" raw) (text_setting "zeroconf.pki_addr" raw).

Definition NATS_URL_AAD : string := "uptrakit:settings:nats_url".
Definition load_nats_url `{Aead} (st : Crypto) (raw : RawSettings) : option string :=
  stored ← text_setting "nats.url" raw;
  raw_url ← (if is_encrypted stored
             then ok (decrypt_str st stored NATS_URL_AAD)
             else Some stored);
  nonempty raw_url.

(** ** The snapshot *)

Record SettingsSnapshot := mkSnapshot {
  registration : Oidc.RegistrationSettings; authentication : AuthenticationSettings; agent_cert_lifetime_hours : Z;
  renewal_window_hours_override : option Z; network : NetworkSettings; nats_url : option string; zeroconf : ZeroconfSnapshot }.

(** [Settings::new], with the automatic renewal window, and [with_renewal_window] *)
Definition with_renewal_window (r : Oidc.RegistrationSettings) (lifetime : Z) (window : option Z) : SettingsSnapshot :=
  mkSnapshot r default_authentication lifetime window default_network None (mkZeroconf false None None).
Definition new (r : Oidc.RegistrationSettings) (lifetime : Z) : SettingsSnapshot := with_renewal_window r lifetime None.

(** What [reload_from_db] publishes: everything from the combined settings. *)
Definition decode `{Aead} {I : IpNets} (st : Crypto) (combined : RawSettings) : SettingsSnapshot :=
  mkSnapshot (registration_from_raw combined) (authentication_from_raw combined) (lifetime_from_raw combined)
    (window_from_raw combined) (load_network_settings combined) (load_nats_url st combined) (load_zeroconf_settings combined).
(** What [load] starts with: the URL of the broker and the discovery settings are the global ones. *)
Definition decode_at_start `{Aead} {I : IpNets} (st : Crypto) (r : Oidc.RegistrationSettings) (global_raw combined : RawSettings) : SettingsSnapshot :=
  mkSnapshot r (authentication_from_raw combined) (lifetime_from_raw combined)
    (window_from_raw combined) (load_network_settings combined) (load_nats_url st global_raw) (load_zeroconf_settings global_raw).

Definition renewal_window_hours (s : SettingsSnapshot) : Z :=
  compute_effective_renewal_window_hours (agent_cert_lifetime_hours s) (renewal_window_hours_override s).

(** The fields that are replaced one by one. *)
Definition set_registration (x : Oidc.RegistrationSettings) (s : SettingsSnapshot) : SettingsSnapshot :=
  mkSnapshot x (authentication s) (agent_cert_lifetime_hours s) (renewal_window_hours_override s) (network s) (nats_url s) (zeroconf s).
Definition set_authentication (x : AuthenticationSettings) (s : SettingsSnapshot) : SettingsSnapshot :=
  mkSnapshot (registration s) x (agent_cert_lifetime_hours s) (renewal_window_hours_override s) (network s) (nats_url s) (zeroconf s).
Definition set_agent_cert_lifetime_hours (x : Z) (s : SettingsSnapshot) : SettingsSnapshot :=
  mkSnapshot (registration s) (authentication s) x (renewal_window_hours_override s) (network s) (nats_url s) (zeroconf s).
Definition set_renewal_window_hours_override (x : option Z) (s : SettingsSnapshot) : SettingsSnapshot :=
  mkSnapshot (registration s) (authentication s) (agent_cert_lifetime_hours s) x (network s) (nats_url s) (zeroconf s).
Definition set_network (x : NetworkSettings) (s : SettingsSnapshot) : SettingsSnapshot :=
  mkSnapshot (registration s) (authentication s) (agent_cert_lifetime_hours s) (renewal_window_hours_override s) x (nats_url s) (zeroconf s).
Definition set_nats_url (x : option string) (s : SettingsSnapshot) : SettingsSnapshot :=
  mkSnapshot (registration s) (authentication s) (agent_cert_lifetime_hours s) (renewal_window_hours_override s) (network s) x (zeroconf s).
Definition set_zeroconf (x : ZeroconfSnapshot) (s : SettingsSnapshot) : SettingsSnapshot :=
  mkSnapshot (registration s) (authentication s) (agent_cert_lifetime_hours s) (renewal_window_hours_override s) (network s) (nats_url s) x.

(** ** Bounds *)

(** The automatic window is a fifth of the lifetime, at most 14 days, and fits its type. *)
Theorem renewal_window_bounds lifetime :
  0 ≤ lifetime < 2 ^ 32 →
  let w := compute_effective_renewal_window_hours lifetime None in
  w = Z.min (lifetime / 5) 336 ∧ 0 ≤ w ≤ 336 ∧ 5 * w ≤ lifetime.
Proof.
  intros Hl. simpl. unfold MAX_RENEWAL_WINDOW_DAYS, try_into.
  assert (0 ≤ lifetime / 5) by (apply Z.div_pos; lia). pose proof (Z.mul_div_le lifetime 5).
  rewrite (proj2 (Z.leb_le 0 _)), (proj2 (Z.ltb_lt _ (2 ^ 16))) by lia. simpl. lia.
Qed.

(** A published lifetime and window always fit their types, whatever the settings hold. *)
Lemma decoded_widths raw :
  (∀ w, window_from_raw raw = Some w → 0 ≤ w < 2 ^ 16) ∧ 0 ≤ lifetime_from_raw raw < 2 ^ 32.
Proof.
  assert (∀ b n x, try_into b n = Some x → 0 ≤ x < 2 ^ b) as Ht.
  { intros b n x. unfold try_into. destruct (0 <=? n) eqn:H0; [|done]. destruct (n <? 2 ^ b) eqn:H1; [|done].
    intros [= <-]. apply Z.leb_le in H0. apply Z.ltb_lt in H1. done. }
  split.
  - intros w. unfold window_from_raw. destruct (raw !! _ ≫= as_u64) as [n|]; [|done]. apply Ht.
  - unfold lifetime_from_raw. destruct (raw !! _ ≫= as_u64) as [n|]; simpl; [|unfold DEFAULT_AGENT_CERT_LIFETIME_HOURS; lia].
    destruct (try_into 32 n) eqn:E; [by eapply Ht|]. simpl. unfold DEFAULT_AGENT_CERT_LIFETIME_HOURS. lia.
Qed.
End Snapshot.
