(* ===== verification/SettingsVersions.v ===== *)
(** Settings shared by several controllers: the two tables and their version counters
    ([crates/ui/web-api-auth/src/settings_store.rs], [crates/shared/db/src/raw_settings.rs],
    [crates/ui/web-api-queries/src/settings_version.rs]), the published settings
    ([crates/ui/controller-core/src/settings/mod.rs]), the cache of versions
    ([crates/shared/config-reload/src/reconciler.rs]), the reconciler that polls them
    ([crates/core/controller-runtime/src/reload/reconciler.rs]) and the entity tags of the
    settings endpoints ([crates/ui/web-api/src/extractors/if_match.rs],
    [middleware/etag.rs]).

    Operations are handlers: their statements interleave with those of other requests and
    controllers. A statement fails while the database is [failing]. *)

From Stdlib Require Import Ascii.
From stdpp Require Import base list gmap relations strings numbers pretty.
From S2P Require Import Prelude RustStr Handlers Json Crypto OidcStore SettingsSnapshot.
Local Open Scope Z_scope.

Module Settings.

(** ** State *)

Record VersionRow := mkVersionRow { version : Z; global_version : Z; revocation_version : Z }.

(** [Scope]: the whole installation, or a tenant. *)
Definition Scope := option Uuid.

(** A controller: its cache of versions, the published settings with the versions they are taken
    to have, and whether its reload coordinator still receives requests. *)
Record Controller := mkController {
  cache : gmap Scope N; snapshot : Snapshot.SettingsSnapshot; cached_version : Z; cached_global_version : Z; coordinator : bool }.
Definition closed_registration : Oidc.RegistrationSettings := Oidc.mkRegistration Oidc.Closed None false.
Definition fresh_controller : Controller :=
  mkController ∅ (Snapshot.new closed_registration Snapshot.DEFAULT_AGENT_CERT_LIFETIME_HOURS) 0 0 true.

Record Db := mkDb {
  settings : gmap (Uuid * string) Value; global_settings : gmap string Value; versions : gmap Uuid VersionRow;
  controllers : gmap N Controller; failing : bool }.
Definition set_settings x (d : Db) := mkDb x (global_settings d) (versions d) (controllers d) (failing d).
Definition set_global_settings x (d : Db) := mkDb (settings d) x (versions d) (controllers d) (failing d).
Definition set_versions x (d : Db) := mkDb (settings d) (global_settings d) x (controllers d) (failing d).
Definition set_controllers x (d : Db) := mkDb (settings d) (global_settings d) (versions d) x (failing d).

Definition controller (i : N) (d : Db) : Controller := default fresh_controller (controllers d !! i).
Definition set_controller (i : N) (c : Controller) (d : Db) : Db := set_controllers (<[i := c]> (controllers d)) d.

(** A request to a controller's reload coordinator. *)
Inductive Ev := Reload (i : N) (scope : Scope) (sections : list string).
#[local] Notation Call := (Handler Db Ev).

(** One statement, which fails while the database does. *)
Definition statement {A} (f : Db → A * Db) : Call (Result string A) :=
  exec (λ d, if failing d then (Err "database error", d) else let '(a, d') := f d in (Ok a, d')).
Definition try {A B} (h : Call (Result string A)) (k : A → Call (Result string B)) : Call (Result string B) :=
  r ← h; match r with Ok a => k a | Err e => mret (Err e) end.

(** ** Version counters *)

(** What the ORM reports for an [INSERT ... ON CONFLICT DO NOTHING] ([try_insert]) that hit an
    existing row: some [Ok(_)] (the ORM documents [Ok(Conflicted)]), or the error
    [RecordNotInserted] that the callers match on. Nothing is assumed of which it is. *)
Inductive Conflict := ReportedOk | RecordNotInserted.
Class Orm := { conflict_report : Conflict }.

Section Store.
Context {O : Orm}.

(** [UPDATE ... WHERE tenant_id = t] and the rows it affected. *)
Definition update_row (t : Uuid) (f : VersionRow → VersionRow) (d : Db) : nat * Db :=
  match versions d !! t with
  | Some r => (1%nat, set_versions (<[t := f r]> (versions d)) d)
  | None => (0%nat, d)
  end.
(** [INSERT ... ON CONFLICT DO NOTHING], and whether there was no conflict *)
Definition insert_row (t : Uuid) (r : VersionRow) (d : Db) : bool * Db :=
  match versions d !! t with
  | Some _ => (false, d)
  | None => (true, set_versions (<[t := r]> (versions d)) d)
  end.
(** [try_insert]: the result of such an insert, [Ok], [Err(RecordNotInserted)] or another error. *)
Definition try_insert (f : Db → bool * Db) : Call (Result string bool) :=
  try (statement f) (λ inserted,
    mret (Ok (inserted || match conflict_report with ReportedOk => true | RecordNotInserted => false end))).
Definition insert_row_or_fail (t : Uuid) (r : VersionRow) : Call (Result string unit) :=
  try (try_insert (insert_row t r)) (λ ok, mret (if ok : bool then Ok tt else Err "record not inserted")).

Definition bump_settings_version (t : Uuid) : Call (Result string unit) :=
  try (statement (update_row t (λ r, mkVersionRow (version r + 1) (global_version r) (revocation_version r)))) (λ n,
    if decide (n = 0%nat) then insert_row_or_fail t (mkVersionRow 1 0 0) else mret (Ok tt)).
Definition bump_global_settings_version : Call (Result string unit) :=
  statement (λ d, (tt, set_versions ((λ r, mkVersionRow (version r) (global_version r + 1) (revocation_version r)) <$> versions d) d)).
Definition bump_revocation_version (t : Uuid) : Call (Result string unit) :=
  try (statement (update_row t (λ r, mkVersionRow (version r) (global_version r) (revocation_version r + 1)))) (λ n,
    if decide (n = 0%nat) then insert_row_or_fail t (mkVersionRow 0 0 1) else mret (Ok tt)).

Definition row_versions (t : Uuid) (d : Db) : Z * Z :=
  match versions d !! t with Some r => (version r, global_version r) | None => (0, 0) end.
Definition get_settings_versions (t : Uuid) : Call (Result string (Z * Z)) := statement (λ d, (row_versions t d, d)).

(** ** Settings *)

(** A write and then the counter, whose failure is only logged. *)
Definition and_bump {A} (w : Call (Result string A)) (bump : Call (Result string unit)) : Call (Result string A) :=
  try w (λ a, _ ← bump; mret (Ok a)).

Definition upsert_setting_raw (t : Uuid) (key : string) (v : Value) : Call (Result string unit) :=
  and_bump (statement (λ d, (tt, set_settings (<[(t, key) := v]> (settings d)) d))) (bump_settings_version t).
Definition upsert_setting (t : Uuid) (key : string) (v : Value) : Call (Result string unit) :=
  and_bump (statement (λ d, (tt, set_settings (<[(t, key) := v]> (settings d)) d))) (bump_settings_version t).
Definition delete_setting (t : Uuid) (key : string) : Call (Result string unit) :=
  and_bump (statement (λ d, (tt, set_settings (delete (t, key) (settings d)) d))) (bump_settings_version t).
Definition insert_setting_if_absent (t : Uuid) (key : string) (v : Value) : Call (Result string bool) :=
  try (try_insert (λ d, match settings d !! (t, key) with
                       | Some _ => (false, d)
                       | None => (true, set_settings (<[(t, key) := v]> (settings d)) d)
                       end)) (λ inserted,
    if inserted : bool then _ ← bump_settings_version t; mret (Ok true) else mret (Ok false)).
Definition load_setting (t : Uuid) (key : string) : Call (Result string (option Value)) :=
  statement (λ d, (settings d !! (t, key), d)).
Definition upsert_global_setting_raw (key : string) (v : Value) : Call (Result string unit) :=
  and_bump (statement (λ d, (tt, set_global_settings (<[key := v]> (global_settings d)) d))) bump_global_settings_version.
Definition upsert_global_setting (key : string) (v : Value) : Call (Result string unit) :=
  and_bump (statement (λ d, (tt, set_global_settings (<[key := v]> (global_settings d)) d))) bump_global_settings_version.
Definition delete_global_setting (key : string) : Call (Result string unit) :=
  and_bump (statement (λ d, (tt, set_global_settings (delete key (global_settings d)) d))) bump_global_settings_version.
Definition insert_global_setting_if_absent (key : string) (v : Value) : Call (Result string bool) :=
  try (try_insert (λ d, match global_settings d !! key with
                       | Some _ => (false, d)
                       | None => (true, set_global_settings (<[key := v]> (global_settings d)) d)
                       end)) (λ inserted,
    if inserted : bool then _ ← bump_global_settings_version; mret (Ok true) else mret (Ok false)).
Definition load_global_setting (key : string) : Call (Result string (option Value)) :=
  statement (λ d, (global_settings d !! key, d)).

Definition tenant_settings (t : Uuid) (d : Db) : gmap string Value :=
  list_to_map (omap (λ kv, if decide (kv.1.1 = t) then Some (kv.1.2, kv.2) else None) (map_to_list (settings d))).
Definition load_all_settings (t : Uuid) : Call (Result string (gmap string Value)) := statement (λ d, (tenant_settings t d, d)).
Definition load_all_global_settings : Call (Result string (gmap string Value)) := statement (λ d, (global_settings d, d)).
Definition is_multi_tenancy_enabled : Call (Result string bool) :=
  try (load_global_setting "multi_tenancy.enabled") (λ v, mret (Ok match v with Some (JBool b) => b | _ => false end)).
Definition load_settings_by_prefix (t : Uuid) (prefix : string) : Call (Result string (gmap string Value)) :=
  statement (λ d, (filter (λ kv, starts_with prefix kv.1 = true) (tenant_settings t d), d)).
Definition load_global_settings_by_prefix (prefix : string) : Call (Result string (gmap string Value)) :=
  statement (λ d, (filter (λ kv, starts_with prefix kv.1 = true) (global_settings d), d)).
End Store.

(** ** Published settings *)

Definition set_snapshot (x : Snapshot.SettingsSnapshot) (c : Controller) : Controller :=
  mkController (cache c) x (cached_version c) (cached_global_version c) (coordinator c).
Definition set_cached (v g : Z) (c : Controller) : Controller :=
  mkController (cache c) (snapshot c) v g (coordinator c).
Definition on_controller (i : N) (f : Controller → Controller) : Call unit :=
  exec (λ d, (tt, set_controller i (f (controller i d)) d)).

(** A setter of one field: readers see the old snapshot or the new one. *)
Definition send_modify (i : N) (f : Snapshot.SettingsSnapshot → Snapshot.SettingsSnapshot) : Call unit :=
  on_controller i (λ c, set_snapshot (f (snapshot c)) c).

Section Published.
Context `{Aead} {I : Snapshot.IpNets} (st : Crypto).

(** Tenant settings override global ones. *)
Definition reload_from_db (i : N) (t : Uuid) : Call (Result string unit) :=
  try load_all_global_settings (λ global_raw,
  try (load_all_settings t) (λ tenant_raw,
    _ ← on_controller i (set_snapshot (Snapshot.decode st (tenant_raw ∪ global_raw)));
    try (get_settings_versions t) (λ vs,
      _ ← on_controller i (set_cached vs.1 vs.2);
      mret (Ok tt)))).
Definition check_version_and_reload (i : N) (t : Uuid) : Call (Result string bool) :=
  try (get_settings_versions t) (λ vs,
    c ← query (controller i);
    if bool_decide (vs = (cached_version c, cached_global_version c)) then mret (Ok false)
    else try (reload_from_db i t) (λ _, mret (Ok true))).
End Published.

(** ** The cache of versions *)

Definition cache_get (i : N) (s : Scope) : Call (option N) := query (λ d, cache (controller i d) !! s).
(** The map is read, extended and stored: two steps. *)
Definition cache_update (i : N) (s : Scope) (v : N) : Call unit :=
  m ← query (λ d, cache (controller i d));
  on_controller i (λ c, mkController (<[s := v]> m) (snapshot c) (cached_version c) (cached_global_version c) (coordinator c)).

(** ** The reconciler *)

(** [u64::try_from(v).unwrap_or(0)] *)
Definition to_u64 (v : Z) : N := Z.to_N v.

Definition GLOBAL_SECTIONS : list string := ["audit"; "registration"].
Definition TENANT_SECTIONS : list string := ["audit_log"].

(** One counter: the cache is updated and the request sent if it is newer than the cached one.
    [false] if the coordinator is gone. *)
Definition report_bump (i : N) (s : Scope) (sections : list string) (new prior : N) : Call bool :=
  if (prior <? new)%N
  then _ ← cache_update i s new;
       up ← query (λ d, coordinator (controller i d));
       if (up : bool) then _ ← emit (Reload i s sections); mret true else mret false
  else mret true.
Fixpoint poll_rows (i : N) (rows : list (Uuid * VersionRow)) : Call unit :=
  match rows with
  | [] => mret tt
  | (t, r) :: rows' =>
      prior_global ← cache_get i None;
      prior_tenant ← cache_get i (Some t);
      g ← report_bump i None GLOBAL_SECTIONS (to_u64 (global_version r)) (default 0%N prior_global);
      if (g : bool)
      then v ← report_bump i (Some t) TENANT_SECTIONS (to_u64 (version r)) (default 0%N prior_tenant);
           if (v : bool) then poll_rows i rows' else mret tt
      else mret tt
  end.
Definition poll_once (i : N) : Call (Result string unit) :=
  try (statement (λ d, (map_to_list (versions d), d))) (λ rows, _ ← poll_rows i rows; mret (Ok tt)).
(** The loop, for a number of ticks before the cancellation. *)
Fixpoint config_reconciler (i : N) (ticks : nat) : Call unit :=
  match ticks with
  | O => mret tt
  | S n => _ ← poll_once i; config_reconciler i n
  end.

(** ** Entity tags *)

Definition dquote : ascii := ascii_of_N 34.
Fixpoint trim_start_char (c : ascii) (s : string) : string :=
  match s with String a s' => if Ascii.eqb a c then trim_start_char c s' else s | EmptyString => EmptyString end.
Fixpoint trim_end_char (c : ascii) (s : string) : string :=
  match s with
  | EmptyString => EmptyString
  | String a s' => match trim_end_char c s' with
                   | EmptyString => if Ascii.eqb a c then EmptyString else String a EmptyString
                   | r => String a r
                   end
  end.
Definition strip_etag (s : string) : string :=
  trim_end_char dquote (trim_start_char dquote (default s (strip_prefix "W/" s))).

Inductive EtagSource := SettingsVersion | GlobalSettingsVersion.
Definition etag_scope (src : EtagSource) (t : Uuid) : Scope := match src with SettingsVersion => Some t | GlobalSettingsVersion => None end.
Definition etag_name (src : EtagSource) : string := match src with SettingsVersion => "settings-v" | GlobalSettingsVersion => "global-settings-v" end.
Definition etag_text (src : EtagSource) (v : N) : string :=
  "W/" +:+ String dquote (etag_name src +:+ pretty v +:+ String dquote EmptyString).

Definition current_etag (src : EtagSource) (i : N) (t : Uuid) : Call string :=
  v ← cache_get i (etag_scope src t); mret (etag_text src (default 0%N v)).
Definition refresh_etag (src : EtagSource) (i : N) (t : Uuid) : Call (Result string string) :=
  try (get_settings_versions t) (λ vs,
    let v := to_u64 match src with SettingsVersion => vs.1 | GlobalSettingsVersion => vs.2 end in
    _ ← cache_update i (etag_scope src t) v;
    mret (Ok (etag_text src v))).

Inductive Method := GET | POST | PUT | PATCH | DELETE.
Definition is_conditional (m : Method) : bool := match m with PUT | PATCH => true | _ => false end.

(** A response: its status, the code of an error of the middleware, the tag it carries. *)
Record Response := mkResponse { status : N; code : option string; etag : option string }.
Definition refuse (s : N) (c : string) : Response := mkResponse s (Some c) None.

(** The check of [If-Match]; the header is absent, not a string, or a string. *)
Definition check_if_match (src : EtagSource) (i : N) (t : Uuid) (header : option (option string)) : Call (option Response) :=
  match header with
  | None => mret (Some (refuse 428 "if_match.required"))
  | Some None => mret (Some (refuse 400 "if_match.parse_error"))
  | Some (Some client) =>
      current ← current_etag src i t;
      mret (if bool_decide (strip_etag client = strip_etag current) then None else Some (refuse 409 "if_match.stale"))
  end.

(** The extractor [IfMatch]: the client's tag, or the response that rejects the request. *)
Definition if_match (src : EtagSource) (i : N) (t : Uuid) (header : option (option string)) : Call (Result Response string) :=
  match header with
  | Some (Some client) =>
      current ← current_etag src i t;
      mret (if bool_decide (strip_etag client = strip_etag current) then Ok client else Err (refuse 409 "if_match.stale"))
  | Some None => mret (Err (refuse 400 "if_match.parse_error"))
  | None => mret (Err (refuse 428 "if_match.required"))
  end.

Definition etag_middleware (src : EtagSource) (i : N) (t : Uuid) (m : Method) (header : option (option string)) (next : Call N)
    : Call Response :=
  refused ← (if is_conditional m then check_if_match src i t header else mret None);
  match refused with
  | Some r => mret r
  | None =>
      s ← next;
      if (200 <=? s)%N && (s <? 300)%N
      then match m with
           | GET => e ← current_etag src i t; mret (mkResponse s None (Some e))
           | _ => e ← refresh_etag src i t;
                  mret (mkResponse s None match e with Ok e => Some e | Err _ => None end)
           end
      else mret (mkResponse s None None)
  end.

End Settings.
