(* ===== verification/SettingsTheorems.v ===== *)
(** Settings versions: a completed write is seen in the counters, the reconciler reports every
    newer counter once, and a stale entity tag is refused. *)

From Stdlib Require Import Ascii.
From stdpp Require Import base list gmap relations strings numbers pretty.
From S2P Require Import Prelude RustStr Handlers Json SettingsVersions Crypto CryptoWitnesses SettingsSnapshot.
Local Open Scope Z_scope.

Module SettingsFacts.
Import Settings.
#[local] Notation Call := (Handler Db Ev).

Section Facts.
Context {O : Orm}.

(** ** Counters only grow *)

Definition newer (d d' : Db) : Prop :=
  ∀ t r, versions d !! t = Some r →
    ∃ r', versions d' !! t = Some r' ∧ version r ≤ version r' ∧ global_version r ≤ global_version r'.

#[export] Instance newer_preorder : PreOrder newer.
Proof.
  split.
  - intros d t r Hr. exists r. auto with lia.
  - intros d1 d2 d3 H1 H2 t r Hr. destruct (H1 t r Hr) as (r' & Hr' & ? & ?). destruct (H2 t r' Hr') as (r'' & ? & ? & ?).
    exists r''. split_and!; [done|lia..].
Qed.

Lemma newer_same d d' : versions d' = versions d → newer d d'.
Proof. intros Heq t r Hr. exists r. rewrite Heq. auto with lia. Qed.

Lemma newer_update t f d :
  (∀ r, version r ≤ version (f r) ∧ global_version r ≤ global_version (f r)) → newer d (update_row t f d).2.
Proof.
  intros Hf. unfold update_row. destruct (versions d !! t) as [r0|] eqn:Ht; [|by apply newer_same].
  intros t' r Hr. cbn [snd versions set_versions]. destruct (decide (t = t')) as [<-|Hne].
  - rewrite lookup_insert_eq. exists (f r0). split; [done|]. assert (r = r0) as -> by congruence. apply Hf.
  - rewrite lookup_insert_ne by done. exists r. auto with lia.
Qed.
Lemma newer_insert t r0 d : newer d (insert_row t r0 d).2.
Proof.
  unfold insert_row. destruct (versions d !! t) eqn:Ht; [by apply newer_same|].
  intros t' r Hr. cbn [snd versions set_versions]. rewrite lookup_insert_ne by congruence. exists r. auto with lia.
Qed.

(** Every operation is a sequence of such steps. *)
#[local] Notation grows := (obeys newer).

Lemma grows_statement {A} (f : Db → A * Db) : (∀ d, newer d (f d).2) → grows (statement f).
Proof.
  intros Hf. apply obeys_exec. intros d. destruct (failing d); [apply rtc_refl|]. specialize (Hf d).
  destruct (f d). by apply rtc_once.
Qed.
Lemma grows_try {A B} (h : Call (Result string A)) (k : A → Call (Result string B)) :
  grows h → (∀ a, grows (k a)) → grows (try h k).
Proof. intros Hh Hk. apply obeys_bind; [done|]. intros [a|e]; [apply Hk|done]. Qed.
Lemma grows_and_bump {A} (w : Call (Result string A)) b : grows w → grows b → grows (and_bump w b).
Proof. intros Hw Hb. apply grows_try; [done|]. intros a. by apply obeys_bind. Qed.

Lemma grows_try_insert f : (∀ d, newer d (f d).2) → grows (try_insert f).
Proof. intros Hf. apply grows_try; [by apply grows_statement|done]. Qed.
Lemma grows_insert t r : grows (insert_row_or_fail t r).
Proof. apply grows_try; [apply grows_try_insert; intros d; apply newer_insert|done]. Qed.
Lemma grows_bump t : grows (bump_settings_version t).
Proof.
  apply grows_try; [apply grows_statement; intros d; apply newer_update; intros r; cbn; lia|].
  intros n. case_decide; [apply grows_insert|done].
Qed.
Lemma grows_bump_revocation t : grows (bump_revocation_version t).
Proof.
  apply grows_try; [apply grows_statement; intros d; apply newer_update; intros r; cbn; lia|].
  intros n. case_decide; [apply grows_insert|done].
Qed.
Lemma grows_bump_global : grows bump_global_settings_version.
Proof.
  apply grows_statement. intros d t r Hr. cbn [snd versions set_versions]. rewrite lookup_fmap, Hr.
  eexists. split; [done|]. cbn. lia.
Qed.

(** The writes of the store, all of which count as steps. *)
Lemma grows_writes t key v :
  grows (upsert_setting t key v) ∧ grows (delete_setting t key) ∧ grows (insert_setting_if_absent t key v) ∧
  grows (upsert_global_setting key v) ∧ grows (delete_global_setting key) ∧ grows (insert_global_setting_if_absent key v).
Proof.
  assert (∀ A (f : Db → A * Db), (∀ d, versions (f d).2 = versions d) → grows (statement f)) as Hs.
  { intros A f Hf. apply grows_statement. intros d. by apply newer_same. }
  split_and!; try (apply grows_and_bump; [by apply Hs|apply grows_bump || apply grows_bump_global]).
  - apply grows_try; [apply grows_try_insert; intros d; apply newer_same; by destruct (settings d !! (t, key))|]. intros [|]; [|done].
    apply obeys_bind; [apply grows_bump|done].
  - apply grows_try; [apply grows_try_insert; intros d; apply newer_same; by destruct (global_settings d !! key)|]. intros [|]; [|done].
    apply obeys_bind; [apply grows_bump_global|done].
Qed.

(** ** A write is counted *)

Section Writes.
Context (env : relation Db).
Context (env_newer : ∀ d d', env d d' → newer d d') (env_up : ∀ d d', env d d' → failing d = false → failing d' = false).

Lemma env_newer_rtc d d' : rtc env d d' → newer d d'.
Proof. induction 1 as [|d d1 d' Hs _ IH]; [done|]. etrans; [by apply env_newer|done]. Qed.
Lemma env_up_rtc d d' : rtc env d d' → failing d = false → failing d' = false.
Proof. induction 1 as [|d d1 d' Hs _ IH]; [done|]. intros Hd. by eapply IH, env_up. Qed.

Lemma runs_newer {R} (h : Call R) d r d' es : grows h → runs env h d r d' es → newer d d'.
Proof.
  revert d es. induction h as [a|A f k IH|e h IH]; intros d es; simpl.
  - by intros _ (_ & -> & _).
  - intros [Hf Hk] (d1 & Henv & Hr). etrans; [by apply env_newer_rtc|]. etrans; [|by eapply IH].
    specialize (Hf d1). clear -Hf. induction Hf as [|x y z Hs _ IH]; [done|]. by etrans.
  - intros Hh (es' & _ & Hr). by eapply IH.
Qed.

Lemma runs_statement {A} (f : Db → A * Db) d r d' es :
  failing d = false → runs env (statement f) d r d' es →
  ∃ d1, rtc env d d1 ∧ failing d1 = false ∧ r = Ok (f d1).1 ∧ d' = (f d1).2 ∧ es = [].
Proof.
  intros Hd (d1 & Henv & Hst & ->)%runs_exec. pose proof (env_up_rtc _ _ Henv Hd) as Hd1. rewrite Hd1 in Hst.
  exists d1. destruct (f d1) as [a d2]. injection Hst as <- <-. done.
Qed.

Lemma bump_runs t r0 d r d' es :
  failing d = false → versions d !! t = Some r0 → runs env (bump_settings_version t) d r d' es →
  r = Ok tt ∧ failing d' = false ∧ es = [] ∧ ∃ r', versions d' !! t = Some r' ∧ version r0 < version r' ∧ global_version r0 ≤ global_version r'.
Proof.
  intros Hd Hr0. unfold bump_settings_version, try. intros (n & d1 & e1 & e2 & H1 & Hr & ->)%runs_bind.
  apply runs_statement in H1 as (d2 & Henv & Hd2 & -> & -> & ->); [|done].
  destruct (env_newer_rtc _ _ Henv t r0 Hr0) as (r1 & Hr1 & Hv & Hg).
  unfold update_row in *. rewrite Hr1 in *. cbn [fst snd] in *. rewrite decide_False in Hr by done.
  apply runs_ret in Hr as (-> & -> & ->). split_and!; [done|done|done|]. eexists. cbn [versions set_versions].
  rewrite lookup_insert_eq. split; [done|]. cbn. lia.
Qed.

(** A completed write of a setting moves its tenant's counter. Between the statements of the
    write any statements of other requests and controllers may run; as long as the database
    answers, the write completes, its value is the one that was stored at some point, and the
    tenant's counter ends strictly above any value it had before the write began; so
    a reader that compares counters notices. *)
Lemma write_counted t key v r0 d r d' es :
  failing d = false → versions d !! t = Some r0 → runs env (upsert_setting t key v) d r d' es →
  r = Ok tt ∧ failing d' = false ∧ (∃ d1, newer d d1 ∧ newer d1 d' ∧ settings d1 !! (t, key) = Some v) ∧
  ∃ r', versions d' !! t = Some r' ∧ version r0 < version r'.
Proof.
  intros Hd Hr0. unfold upsert_setting, and_bump, try. intros (w & d1 & e1 & e2 & H1 & Hr & ->)%runs_bind.
  apply runs_statement in H1 as (d2 & Henv & Hd2 & -> & -> & ->); [|done]. cbn [fst snd] in *.
  apply runs_bind in Hr as (b & d3 & e3 & e4 & H2 & Hr & ->). apply runs_ret in Hr as (-> & -> & ->).
  pose proof (env_newer_rtc _ _ Henv) as Hnew. destruct (Hnew t r0 Hr0) as (r1 & Hr1 & Hv & _).
  set (dw := set_settings (<[(t, key) := v]> (settings d2)) d2) in *.
  destruct (bump_runs t r1 dw _ _ _ Hd2 Hr1 H2) as (-> & Hd' & _ & r' & Hr' & Hlt & _).
  split; [done|]. split; [done|]. split; [|exists r'; split; [done|lia]].
  exists dw. split_and!; [etrans; [exact Hnew|by apply newer_same]| |apply lookup_insert_eq].
  by eapply runs_newer; [apply grows_bump|].
Qed.
End Writes.

(** ** What a poll does *)

Definition cached (i : N) (d : Db) (s : Scope) : N := default 0%N (cache (controller i d) !! s).

(** The poll on the cache alone: the new cache and the scopes that were reported. *)
Definition bump_cache (m : gmap Scope N) (s : Scope) (new : N) : gmap Scope N * list Scope :=
  if (default 0%N (m !! s) <? new)%N then (<[s := new]> m, [s]) else (m, []).
Fixpoint poll_cache (m : gmap Scope N) (rows : list (Uuid * VersionRow)) : gmap Scope N * list Scope :=
  match rows with
  | [] => (m, [])
  | (t, r) :: rows' =>
      let '(m1, s1) := bump_cache m None (to_u64 (global_version r)) in
      let '(m2, s2) := bump_cache m1 (Some t) (to_u64 (version r)) in
      let '(m3, s3) := poll_cache m2 rows' in
      (m3, s1 ++ s2 ++ s3)
  end.
Lemma bump_cache_ne m s s' new : s ≠ s' → (bump_cache m s new).1 !! s' = m !! s'.
Proof. intros Hne. unfold bump_cache. destruct (_ <? _)%N; [|done]. by apply lookup_insert_ne. Qed.
Definition sections_of (s : Scope) : list string := match s with None => GLOBAL_SECTIONS | Some _ => TENANT_SECTIONS end.
Definition request (i : N) (s : Scope) : Ev := Reload i s (sections_of s).

(** The same but for controller [i]'s cache. *)
Definition same_but_cache (i : N) (d d' : Db) : Prop :=
  versions d' = versions d ∧ settings d' = settings d ∧ global_settings d' = global_settings d ∧
  failing d' = failing d ∧ coordinator (controller i d') = coordinator (controller i d).

#[export] Instance same_but_cache_trans i : Transitive (same_but_cache i).
Proof. intros d1 d2 d3 (? & ? & ? & ? & ?) (? & ? & ? & ? & ?). unfold same_but_cache. split_and!; congruence. Qed.

Lemma report_bump_run i s new d :
  coordinator (controller i d) = true →
  ∃ d', run (report_bump i s (sections_of s) new (cached i d s)) d =
        (true, d', map (request i) (bump_cache (cache (controller i d)) s new).2) ∧
    cache (controller i d') = (bump_cache (cache (controller i d)) s new).1 ∧ same_but_cache i d d'.
Proof.
  intros Hup. unfold report_bump, bump_cache. change (default 0%N (cache (controller i d) !! s)) with (cached i d s).
  destruct (cached i d s <? new)%N eqn:Hlt.
  - cbn. unfold controller, set_controller. cbn [controllers set_controllers]. rewrite lookup_insert_eq. cbn [default].
    unfold controller in Hup. cbn. rewrite Hup. eexists. split; [done|]. cbn. unfold controller, same_but_cache. cbn.
    rewrite lookup_insert_eq. cbn. split; [done|]. split_and!; try done. unfold controller. cbn. by rewrite lookup_insert_eq.
  - exists d. by split.
Qed.

Lemma poll_rows_run i rows d :
  coordinator (controller i d) = true →
  ∃ d', run (poll_rows i rows) d = (tt, d', map (request i) (poll_cache (cache (controller i d)) rows).2) ∧
    cache (controller i d') = (poll_cache (cache (controller i d)) rows).1 ∧ same_but_cache i d d'.
Proof.
  revert d. induction rows as [|[t r] rows IH]; intros d Hup; [by exists d|].
  cbn [poll_rows poll_cache]. unfold cache_get.
  rewrite !run_bind. cbn [run query exec]. rewrite !run_bind. cbn [run query exec].
  destruct (report_bump_run i None (to_u64 (global_version r)) d Hup) as (d1 & E1 & C1 & S1).
  fold (cached i d None) (cached i d (Some t)). change GLOBAL_SECTIONS with (sections_of None). rewrite run_bind, E1. cbn [app].
  pose proof S1 as (_ & _ & _ & _ & Hup1). rewrite Hup in Hup1.
  destruct (report_bump_run i (Some t) (to_u64 (version r)) d1 Hup1) as (d2 & E2 & C2 & S2).
  assert (cached i d (Some t) = cached i d1 (Some t)) as ->.
  { unfold cached. rewrite C1. by rewrite bump_cache_ne. }
  change TENANT_SECTIONS with (sections_of (Some t)). rewrite run_bind, E2.
  pose proof S2 as (_ & _ & _ & _ & Hup2). rewrite Hup1 in Hup2.
  destruct (IH d2 Hup2) as (d3 & E3 & C3 & S3). rewrite E3. exists d3.
  rewrite C2, C1 in C3, E3 |- *. rewrite C1 in *. clear E1 E2 E3 IH.
  destruct (bump_cache _ None _) as [m1 s1]. cbn [fst snd] in *. destruct (bump_cache m1 _ _) as [m2 s2]. cbn [fst snd] in *.
  destruct (poll_cache m2 rows) as [m3 s3]. cbn [fst snd] in *. split_and!; [by rewrite !map_app|done|].
  by etrans; [|etrans].
Qed.

(** ** What a poll reports *)

Definition level (m : gmap Scope N) (s : Scope) : N := default 0%N (m !! s).

Lemma level_bump m s new s' :
  level (bump_cache m s new).1 s' = if decide (s = s') then N.max (level m s) new else level m s'.
Proof.
  case_decide as Hs; [subst|unfold level; by rewrite bump_cache_ne]. unfold bump_cache, level.
  destruct (N.ltb_spec (default 0%N (m !! s')) new); cbn [fst]; [rewrite lookup_insert_eq|]; simpl; lia.
Qed.
Lemma reported_bump m s new s' : s' ∈ (bump_cache m s new).2 ↔ s' = s ∧ (level m s < new)%N.
Proof.
  unfold bump_cache, level. destruct (N.ltb_spec (default 0%N (m !! s)) new); cbn [snd];
    rewrite ?list_elem_of_singleton, ?elem_of_nil; intuition lia.
Qed.

(** A counter of a row, by the scope it stands for. *)
Definition counts (row : Uuid * VersionRow) (s : Scope) (v : N) : Prop :=
  match s with None => v = to_u64 (global_version row.2) | Some t => t = row.1 ∧ v = to_u64 (version row.2) end.

Lemma level_bump_le m s new s' : (level m s' ≤ level (bump_cache m s new).1 s')%N.
Proof. rewrite level_bump. case_decide; subst; lia. Qed.
Lemma level_bump_rise m s new s' : (level m s' < level (bump_cache m s new).1 s')%N → s' ∈ (bump_cache m s new).2.
Proof. rewrite level_bump, reported_bump. case_decide; [subst; split; [done|]|]; lia. Qed.

Lemma poll_cache_level m rows s :
  (level m s ≤ level (poll_cache m rows).1 s)%N ∧
  ∀ row v, row ∈ rows → counts row s v → (v ≤ level (poll_cache m rows).1 s)%N.
Proof.
  revert m. induction rows as [|[t r] rows IH]; intros m; cbn [poll_cache]; [split; [done|by intros ? ? ?%elem_of_nil]|].
  pose proof (level_bump_le m None (to_u64 (global_version r)) s) as U1.
  pose proof (level_bump m None (to_u64 (global_version r)) s) as L1. destruct (bump_cache m _ _) as [m1 s1].
  pose proof (level_bump_le m1 (Some t) (to_u64 (version r)) s) as U2.
  pose proof (level_bump m1 (Some t) (to_u64 (version r)) s) as L2. destruct (bump_cache m1 _ _) as [m2 s2].
  destruct (IH m2) as [L3 Hrow]. destruct (poll_cache m2 rows) as [m3 s3]. cbn [fst snd] in *.
  split; [lia|]. intros row v [->|Hin]%elem_of_cons Hc; [|by eapply Hrow].
  destruct s as [t'|]; cbn in Hc; [destruct Hc as [-> ->]; rewrite decide_True in L2 by done
                                  |subst v; rewrite decide_True in L1 by done]; lia.
Qed.

Lemma poll_cache_reported m rows s :
  s ∈ (poll_cache m rows).2 ↔ ∃ row v, row ∈ rows ∧ counts row s v ∧ (level m s < v)%N.
Proof.
  revert m. induction rows as [|[t r] rows IH]; intros m; cbn [poll_cache].
  { split; [by intros ?%elem_of_nil|by intros (? & ? & ?%elem_of_nil & _)]. }
  pose proof (level_bump_le m None (to_u64 (global_version r)) s) as L1.
  pose proof (level_bump_rise m None (to_u64 (global_version r)) s) as U1.
  pose proof (reported_bump m None (to_u64 (global_version r)) s) as R1. destruct (bump_cache m _ _) as [m1 s1].
  pose proof (level_bump_le m1 (Some t) (to_u64 (version r)) s) as L2.
  pose proof (level_bump_rise m1 (Some t) (to_u64 (version r)) s) as U2.
  pose proof (reported_bump m1 (Some t) (to_u64 (version r)) s) as R2. destruct (bump_cache m1 _ _) as [m2 s2].
  specialize (IH m2). destruct (poll_cache m2 rows) as [m3 s3]. cbn [fst snd] in *.
  rewrite !elem_of_app, R1, R2, IH. rewrite R1 in U1. rewrite R2 in U2. split.
  - intros [[-> ?]|[[-> ?]|(row & v & ? & ? & ?)]].
    + exists (t, r), (to_u64 (global_version r)). split_and!; [left|done|done].
    + exists (t, r), (to_u64 (version r)). split_and!; [left|done|lia].
    + exists row, v. split_and!; [by right|done|lia].
  - intros (row & v & [->|Hin]%elem_of_cons & Hc & Hlt).
    + destruct s as [t'|]; cbn in Hc; [destruct Hc as [-> ->]|by subst; left].
      destruct (decide (level m (Some t) < level m1 (Some t))%N) as [Hr|]; [by left; apply U1|].
      right; left. split; [done|lia].
    + destruct (decide (level m s < level m1 s)%N) as [Hr|]; [by left; apply U1|].
      destruct (decide (level m1 s < level m2 s)%N) as [Hr|]; [by right; left; apply U2|].
      right; right. exists row, v. split_and!; [done|done|lia].
Qed.

(** A poll of counters that are all in the cache does nothing. *)
Lemma poll_cache_idle m rows :
  (∀ row s v, row ∈ rows → counts row s v → (v ≤ level m s)%N) → poll_cache m rows = (m, []).
Proof.
  induction rows as [|[t r] rows IH]; intros Hle; [done|]. cbn [poll_cache].
  assert (∀ s v, counts (t, r) s v → bump_cache m s v = (m, [])) as Hb.
  { intros s v Hc. specialize (Hle (t, r) s v (list_elem_of_here _ _) Hc). unfold bump_cache, level in *.
    by rewrite (proj2 (N.ltb_ge _ _)). }
  rewrite (Hb None) by done. rewrite (Hb (Some t)) by done. rewrite IH; [done|].
  intros row s v Hin. apply Hle. by right.
Qed.

Lemma poll_once_run i d :
  failing d = false → coordinator (controller i d) = true →
  let p := poll_cache (cache (controller i d)) (map_to_list (versions d)) in
  ∃ d', run (poll_once i) d = (Ok tt, d', map (request i) p.2) ∧ cache (controller i d') = p.1 ∧ same_but_cache i d d'.
Proof.
  intros Hd Hup p. destruct (poll_rows_run i (map_to_list (versions d)) d Hup) as (d' & E & C & S).
  exists d'. split; [|done]. unfold poll_once, try, statement. rewrite run_bind. cbn [run exec]. rewrite Hd.
  rewrite run_bind, E. cbn. by rewrite app_nil_r.
Qed.

Lemma request_inj i : Inj (=) (=) (request i).
Proof. intros s s'. unfold request. by injection 1. Qed.
Lemma poll_requests i d d' es s :
  failing d = false → coordinator (controller i d) = true → run (poll_once i) d = (Ok tt, d', es) →
  request i s ∈ es ↔ ∃ row v, row ∈ map_to_list (versions d) ∧ counts row s v ∧ (cached i d s < v)%N.
Proof.
  intros Hd Hup E. destruct (poll_once_run i d Hd Hup) as (d1 & E1 & _). rewrite E1 in E. injection E as _ <-.
  rewrite list_elem_of_fmap. rewrite <- (poll_cache_reported (cache (controller i d)) (map_to_list (versions d)) s). split.
  - by intros (s' & ->%request_inj & ?).
  - intros Hin. by exists s.
Qed.

(** a poll of the reconciler reports every counter that moved, and each once. If the database
    answers and the coordinator is up, it succeeds; it asks for a tenant's sections exactly when
    the tenant's counter is above the cached one, and for the global sections exactly when some
    row's global counter is; it changes nothing but the cache, which then holds every counter, so
    a second poll asks for nothing. *)
Theorem poll_reports_bumps i d :
  failing d = false → coordinator (controller i d) = true →
  ∃ d' es, run (poll_once i) d = (Ok tt, d', es) ∧
    (∀ t, request i (Some t) ∈ es ↔ ∃ r, versions d !! t = Some r ∧ (cached i d (Some t) < to_u64 (version r))%N) ∧
    (request i None ∈ es ↔ ∃ t r, versions d !! t = Some r ∧ (cached i d None < to_u64 (global_version r))%N) ∧
    (∀ e, e ∈ es → ∃ s, e = request i s) ∧
    same_but_cache i d d' ∧
    (∀ t r, versions d !! t = Some r →
      to_u64 (version r) ≤ cached i d' (Some t) ∧ to_u64 (global_version r) ≤ cached i d' None)%N ∧
    ∃ d'', run (poll_once i) d' = (Ok tt, d'', []) ∧ cache (controller i d'') = cache (controller i d').
Proof.
  intros Hd Hup. destruct (poll_once_run i d Hd Hup) as (d' & E & C & Hs). exists d'. eexists. split; [exact E|].
  pose proof Hs as (Hv & _ & _ & Hf & Hc). pose proof (λ s, poll_requests i d d' _ s Hd Hup E) as Hreq.
  pose proof (λ s, proj2 (poll_cache_level (cache (controller i d)) (map_to_list (versions d)) s)) as Hlev.
  rewrite <- C in Hlev. split_and!.
  - intros t. rewrite Hreq. split.
    + intros ([t' r] & v & Hin%elem_of_map_to_list & [-> ->] & Hlt). by exists r.
    + intros (r & Hr & Hlt). eexists (t, r), _. by split_and!; [apply elem_of_map_to_list|..].
  - rewrite Hreq. split.
    + intros ([t' r] & v & Hin%elem_of_map_to_list & -> & Hlt). by exists t', r.
    + intros (t & r & Hr & Hlt). eexists (t, r), _. by split_and!; [apply elem_of_map_to_list|..].
  - intros e (s & -> & _)%list_elem_of_fmap. by exists s.
  - done.
  - intros t r Hr%elem_of_map_to_list. split; by eapply (Hlev _ (t, r)).
  - rewrite Hd in Hf. rewrite Hup in Hc. destruct (poll_once_run i d' Hf Hc) as (d2 & E2 & C2 & _). exists d2.
    rewrite Hv, (poll_cache_idle (cache (controller i d'))) in E2, C2; [done|..]; intros row s v Hin Hcnt; by eapply Hlev.
Qed.

(** C16: a write reaches the other controllers. For a tenant that has a row of counters: whatever
    statements of other requests run between those of the write, if the database answers,
    controller [i] has not cached a counter above the one the tenant had before the write, and its
    coordinator still runs, then the controller's next poll asks its coordinator to reload the
    tenant's sections. *)
Theorem write_reaches_controllers env t key v r0 d r d' es i :
  (∀ d d', env d d' → newer d d') → (∀ d d', env d d' → failing d = false → failing d' = false) →
  failing d = false → versions d !! t = Some r0 → 0 ≤ version r0 →
  runs env (upsert_setting t key v) d r d' es →
  coordinator (controller i d') = true → (cached i d' (Some t) ≤ to_u64 (version r0))%N →
  r = Ok tt ∧ ∃ d'' es', run (poll_once i) d' = (Ok tt, d'', es') ∧ request i (Some t) ∈ es'.
Proof.
  intros Hn Hu Hd Hr0 Hpos Hr Hup Hc. destruct (write_counted env Hn Hu t key v r0 d r d' es Hd Hr0 Hr) as (-> & Hd' & _ & r' & Hr' & Hlt).
  split; [done|]. destruct (poll_once_run i d' Hd' Hup) as (d'' & E & _). exists d''. eexists. split; [exact E|].
  eapply poll_requests; [done|done|exact E|]. eexists (t, r'), _. split_and!; [by apply elem_of_map_to_list|done|].
  unfold to_u64 in *. cbn. lia.
Qed.

(** ** Entity tags *)

Fixpoint lacks (c : ascii) (s : string) : bool :=
  match s with EmptyString => true | String a s' => negb (Ascii.eqb a c) && lacks c s' end.

Lemma lacks_app c s s' : lacks c (s +:+ s') = lacks c s && lacks c s'.
Proof. induction s as [|a s IH]; [done|]. simpl. rewrite IH. by destruct (Ascii.eqb a c). Qed.
Lemma trim_end_one c s : lacks c s = true → trim_end_char c (s +:+ String c EmptyString) = s.
Proof.
  induction s as [|a s IH]; simpl; [by rewrite Ascii.eqb_refl|]. intros [Ha Hs]%andb_prop. rewrite IH by done.
  destruct s; [|done]. by destruct (Ascii.eqb a c).
Qed.
Lemma pretty_lacks_quote (v : N) : lacks dquote (pretty v) = true.
Proof.
  assert (∀ x s, lacks dquote s = true → lacks dquote (pretty_N_go x s) = true) as Hgo.
  { intros x. induction (N.lt_wf_0 x) as [x _ IH]. intros s Hs. destruct (decide (x = 0%N)) as [->|Hx].
    - by rewrite pretty_N_go_0.
    - rewrite pretty_N_go_step by lia. apply IH; [apply N.div_lt; lia|]. cbn [lacks]. rewrite Hs.
      unfold pretty_N_char. by repeat case_match. }
  unfold pretty, pretty_N. case_decide; [done|]. by apply Hgo.
Qed.

Lemma strip_etag_text src v : strip_etag (etag_text src v) = etag_name src +:+ pretty v.
Proof.
  transitivity (trim_end_char dquote ((etag_name src +:+ pretty v) +:+ String dquote EmptyString)).
  - by destruct src.
  - apply trim_end_one. rewrite lacks_app, pretty_lacks_quote. by destruct src.
Qed.
Lemma strip_etag_inj src v v' : strip_etag (etag_text src v) = strip_etag (etag_text src v') → v = v'.
Proof. rewrite !strip_etag_text. intros Heq. apply (inj pretty). destruct src; by injection Heq. Qed.

Definition counter (src : EtagSource) (t : Uuid) (d : Db) : N :=
  to_u64 match src with SettingsVersion => (row_versions t d).1 | GlobalSettingsVersion => (row_versions t d).2 end.

Lemma check_if_match_run src i t tag d :
  run (check_if_match src i t (Some (Some tag))) d =
  (if bool_decide (strip_etag tag = strip_etag (etag_text src (cached i d (etag_scope src t))))
   then None else Some (refuse 409 "if_match.stale"), d, []).
Proof. done. Qed.

Lemma refresh_etag_run src i t d :
  failing d = false →
  ∃ d', run (refresh_etag src i t) d = (Ok (etag_text src (counter src t d)), d', []) ∧
    cached i d' (etag_scope src t) = counter src t d ∧ same_but_cache i d d'.
Proof.
  intros Hd. unfold refresh_etag, try, get_settings_versions, statement. rewrite run_bind. cbn [run exec]. rewrite Hd.
  unfold cache_update, on_controller. rewrite !run_bind. cbn. eexists. split; [done|].
  unfold cached, same_but_cache, controller. cbn. rewrite !lookup_insert_eq. cbn. by rewrite lookup_insert_eq.
Qed.

(** A conditional request that passes: its handler runs, and the cache then holds the counter the
    handler left, which is the tag of the response. *)
Lemma etag_middleware_passes src i t m tag next d s d1 es :
  is_conditional m = true → strip_etag tag = strip_etag (etag_text src (cached i d (etag_scope src t))) →
  run next d = (s, d1, es) → (200 ≤ s < 300)%N → failing d1 = false →
  ∃ d2, run (etag_middleware src i t m (Some (Some tag)) next) d =
          (mkResponse s None (Some (etag_text src (counter src t d1))), d2, es) ∧
        cached i d2 (etag_scope src t) = counter src t d1 ∧ same_but_cache i d1 d2.
Proof.
  intros Hm Htag Hnext [? ?] Hd1. destruct (refresh_etag_run src i t d1 Hd1) as (d2 & E & C & Hs). exists d2. split; [|done].
  unfold etag_middleware. rewrite Hm, run_bind, check_if_match_run, bool_decide_true by done.
  rewrite run_bind, Hnext. rewrite (proj2 (N.leb_le 200 s)), (proj2 (N.ltb_lt s 300)) by done. cbn [andb].
  destruct m; try done; rewrite run_bind, E; cbn; by rewrite app_nil_r.
Qed.
Lemma etag_middleware_refuses src i t m tag next d :
  is_conditional m = true → strip_etag tag ≠ strip_etag (etag_text src (cached i d (etag_scope src t))) →
  run (etag_middleware src i t m (Some (Some tag)) next) d = (refuse 409 "if_match.stale", d, []).
Proof.
  intros Hm Htag. unfold etag_middleware. by rewrite Hm, run_bind, check_if_match_run, bool_decide_false by done.
Qed.

(** C39: a tag is good for one change of one controller, when its requests do not overlap. When a
    conditional request carries the tag of the counter the controller has cached, and its handler
    runs alone, succeeds and moves the counter in the database, the response carries exactly the tag
    of the counter the handler left, and that is what the controller has cached. From then on, as
    long as the controller's cache does not fall behind that counter, the old tag is refused with
    [409] before a handler runs; and of all tags of counters, the controller accepts exactly the one
    of the counter it has cached. Requests that overlap, and requests to another controller, are
    outside of this: [both_requests_accepted] and [both_controllers_accept]. *)
Theorem stale_etag_refused src i t m m' tag next next' d s d1 es :
  is_conditional m = true → is_conditional m' = true →
  strip_etag tag = strip_etag (etag_text src (cached i d (etag_scope src t))) →
  run next d = (s, d1, es) → (200 ≤ s < 300)%N → failing d1 = false →
  (cached i d (etag_scope src t) < counter src t d1)%N →
  ∃ d2, run (etag_middleware src i t m (Some (Some tag)) next) d =
          (mkResponse s None (Some (etag_text src (counter src t d1))), d2, es) ∧
    cached i d2 (etag_scope src t) = counter src t d1 ∧ same_but_cache i d1 d2 ∧
    (∀ d3, (counter src t d1 ≤ cached i d3 (etag_scope src t))%N →
       run (etag_middleware src i t m' (Some (Some tag)) next') d3 = (refuse 409 "if_match.stale", d3, [])) ∧
    (∀ d3 v, run (check_if_match src i t (Some (Some (etag_text src v)))) d3 = (None, d3, []) ↔
       v = cached i d3 (etag_scope src t)).
Proof.
  intros Hm Hm' Htag Hnext Hs Hd1 Hlt.
  destruct (etag_middleware_passes src i t m tag next d s d1 es) as (d2 & E & C & Hsame); [done..|].
  exists d2. split_and!; [exact E|done|done|..].
  - intros d3 Hle. apply etag_middleware_refuses; [done|]. rewrite Htag. intros Heq%strip_etag_inj. lia.
  - intros d3 v. rewrite check_if_match_run. case_bool_decide as Heq.
    + split; [|done]. intros _. by apply strip_etag_inj in Heq.
    + split; [done|]. by intros ->.
Qed.
End Facts.
End SettingsFacts.

(** Settings versions on concrete installations: the theorems at work, and the interleavings in
    which a write, a reload request or a change is lost. *)
Module SettingsDemo.
Import Settings SettingsFacts.
#[local] Notation Call := (Handler Db Ev).

(** An insert that meets a row is reported as [Ok(TryInsertResult::Conflicted)]. *)
#[local] Instance sea_orm : Orm := {| conflict_report := ReportedOk |}.

(** Tenant 7 at version 3, global counter 2; controllers 1 and 2 have seen both. *)
Definition seen : Controller := mkController {[ None := 2%N; Some 7%N := 3%N ]} (snapshot fresh_controller) 3 2 true.
Definition db : Db := mkDb ∅ ∅ {[ 7%N := mkVersionRow 3 2 0 ]} {[ 1%N := seen; 2%N := seen ]} false.
Definition put (v : Value) : Call N := r ← upsert_setting 7 "theme" v; mret match r with Ok _ => 200%N | Err _ => 500%N end.
Definition tag3 : string := etag_text SettingsVersion 3.

(** Another request writes some other setting, without its counter yet. *)
Definition other_writes (d d' : Db) : Prop := ∃ k v, d' = set_settings (<[k := v]> (settings d)) d.

Lemma write_reaches_controllers_witness :
  (run (upsert_setting 7 "theme" (JBool true)) db).1.1 = Ok tt ∧
  ∃ d'' es', run (poll_once 2) (run (upsert_setting 7 "theme" (JBool true)) db).1.2 = (Ok tt, d'', es') ∧ request 2 (Some 7%N) ∈ es'.
Proof.
  apply (write_reaches_controllers other_writes 7 "theme" (JBool true) (mkVersionRow 3 2 0) db _ _
           (run (upsert_setting 7 "theme" (JBool true)) db).2 2).
  - intros d d' (k & v & ->). by apply newer_same.
  - by intros d d' (k & v & ->).
  - reflexivity.
  - reflexivity.
  - simpl. lia.
  - apply run_runs.
  - vm_compute. reflexivity.
  - vm_compute. discriminate.
Defined.

Lemma poll_reports_bumps_witness :
  let d := (run (upsert_setting 7 "theme" (JBool true)) db).1.2 in
  request 1 (Some 7%N) ∈ (run (poll_once 1) d).2 ∧ request 1 None ∉ (run (poll_once 1) d).2.
Proof.
  intros d. destruct (poll_reports_bumps 1 d) as (d' & es & E & Ht & Hg & _); [vm_compute; reflexivity..|].
  rewrite E. split.
  - apply Ht. exists (mkVersionRow 4 2 0). by vm_compute.
  - rewrite Hg. intros (t & r & Hr & Hlt). assert (t = 7%N ∧ r = mkVersionRow 4 2 0) as [-> ->].
    { change (({[ 7%N := mkVersionRow 4 2 0 ]} : gmap Uuid VersionRow) !! t = Some r) in Hr.
      by apply lookup_singleton_Some in Hr as [-> ->]. }
    by vm_compute in Hlt.
Defined.

Lemma stale_etag_refused_witness :
  ∃ d2, run (etag_middleware SettingsVersion 1 7 PUT (Some (Some tag3)) (put (JBool true))) db =
      (mkResponse 200 None (Some (etag_text SettingsVersion 4)), d2, []) ∧
    run (etag_middleware SettingsVersion 1 7 PATCH (Some (Some tag3)) (put (JBool false))) d2 = (refuse 409 "if_match.stale", d2, []) ∧
    run (check_if_match SettingsVersion 1 7 (Some (Some (etag_text SettingsVersion 4)))) d2 = (None, d2, []).
Proof.
  destruct (stale_etag_refused SettingsVersion 1 7 PUT PATCH tag3 (put (JBool true)) (put (JBool false)) db 200
           (run (put (JBool true)) db).1.2 []) as (d2 & E & C & _ & Hold & Hnew);
    [reflexivity|reflexivity|reflexivity|reflexivity|lia|reflexivity|vm_compute; reflexivity|].
  exists d2. split; [exact E|]. split; [apply Hold; rewrite C; reflexivity|]. apply Hnew. rewrite C. vm_compute. reflexivity.
Defined.

(** ** What is lost *)

(** Two controllers hold the tag of version 3 and both accept it: the second change overwrites the
    first, which its author was told had been made on the current version. *)
Example both_controllers_accept :
  let '(r1, d1, _) := run (etag_middleware SettingsVersion 1 7 PUT (Some (Some tag3)) (put (JBool true))) db in
  let '(r2, d2, _) := run (etag_middleware SettingsVersion 2 7 PUT (Some (Some tag3)) (put (JBool false))) d1 in
  status r1 = 200%N ∧ status r2 = 200%N ∧ settings d2 !! (7%N, "theme") = Some (JBool false).
Proof. vm_compute. done. Qed.

(** On one controller: a second request passes the check while the first one's handler runs. *)
Definition other_put (d d' : Db) : Prop :=
  d' = (run (etag_middleware SettingsVersion 1 7 PUT (Some (Some tag3)) (put (JBool true))) d).1.2.
Example both_requests_accepted :
  status (run (etag_middleware SettingsVersion 1 7 PUT (Some (Some tag3)) (put (JBool true))) db).1.1 = 200%N ∧
  ∃ r d', runs other_put (etag_middleware SettingsVersion 1 7 PUT (Some (Some tag3)) (put (JBool false))) db r d' [] ∧
    status r = 200%N ∧ settings d' !! (7%N, "theme") = Some (JBool false).
Proof.
  split; [by vm_compute|]. do 2 eexists. split; [|split].
  - exists db. split; [apply rtc_refl|]. eexists. split; [apply rtc_once; reflexivity|].
    apply run_alone. vm_compute. reflexivity.
  - by vm_compute.
  - by vm_compute.
Qed.

(** The controller that served the change has the new counter in its cache, so its own reconciler
    asks for no reload; the other controller's does. *)
Example own_write_not_reloaded :
  let d1 := (run (etag_middleware SettingsVersion 1 7 PUT (Some (Some tag3)) (put (JBool true))) db).1.2 in
  (run (poll_once 1) d1).2 = [] ∧ (run (poll_once 2) d1).2 = [request 2 (Some 7%N)].
Proof. vm_compute. done. Qed.

(** [reload_from_db] reads the counters after the settings: a write in between is taken as seen,
    and the second factor it requires is not. *)
#[local] Instance no_ipnets : Snapshot.IpNets := {| Snapshot.parse_ipnet _ := None |}.
Definition no_keys : Crypto := mkCrypto None false None None.
Definition require_second_factor (d d' : Db) : Prop :=
  d' = (run (upsert_setting 7 "auth.two_factor_required" (JBool true)) d).1.2.
Example reload_misses_write :
  ∃ d', runs require_second_factor (reload_from_db no_keys 1 7) db (Ok tt) d' [] ∧
    settings d' !! (7%N, "auth.two_factor_required") = Some (JBool true) ∧
    Snapshot.two_factor_required (Snapshot.authentication (snapshot (controller 1 d'))) = false ∧
    (run (check_version_and_reload no_keys 1 7) d').1.1 = Ok false.
Proof.
  eexists. split_and!.
  - exists db. split; [apply rtc_refl|]. exists db. split; [apply rtc_refl|]. exists db. split; [apply rtc_refl|].
    eexists. split; [apply rtc_once; reflexivity|]. apply run_alone. vm_compute. reflexivity.
  - by vm_compute.
  - by vm_compute.
  - by vm_compute.
Qed.

(** A tenant's row under a global key: it is ignored at start and taken at the next reload. *)
Example tenant_row_overrides_broker :
  let raw_global : gmap string Value := {[ "nats.url" := JString "nats://a" ]} in
  let combined : gmap string Value := <["nats.url" := JString "nats://b"]> raw_global in
  Snapshot.nats_url (Snapshot.decode_at_start no_keys closed_registration raw_global combined) = Some "nats://a" ∧
  Snapshot.nats_url (Snapshot.decode no_keys combined) = Some "nats://b".
Proof. vm_compute. done. Qed.

(** Counters of a tenant that has no row yet: a revocation that inserts the row between the two
    statements of a write's bump leaves the settings counter at 0, as if nothing were written. *)
Definition no_rows : Db := set_versions ∅ db.
Definition revoke (d d' : Db) : Prop := d' = (run (bump_revocation_version 7) d).1.2.
Example first_bump_lost :
  ∃ d', runs revoke (upsert_setting 7 "theme" (JBool true)) no_rows (Ok tt) d' [] ∧
    settings d' !! (7%N, "theme") = Some (JBool true) ∧ versions d' !! 7%N = Some (mkVersionRow 0 0 1).
Proof.
  eexists. split_and!.
  - eexists. split; [apply rtc_refl|]. eexists. split; [apply rtc_refl|].
    eexists. split; [apply rtc_once; reflexivity|]. apply run_alone. vm_compute. reflexivity.
  - by vm_compute.
  - by vm_compute.
Qed.

(** An insert that found the setting says that it inserted it, and counts a change. *)
Example conflict_counts_as_insert :
  let d := set_global_settings {[ "oauth.dcr_enabled" := JBool true ]} db in
  let '(r, d', _) := run (insert_global_setting_if_absent "oauth.dcr_enabled" (JBool false)) d in
  r = Ok true ∧ global_settings d' = global_settings d ∧ versions d' !! 7%N = Some (mkVersionRow 3 3 0).
Proof. vm_compute. done. Qed.

(** With no rows at all, a global write is not counted. *)
Example global_write_not_counted :
  let d := (run (upsert_global_setting "nats_url" (JBool true)) no_rows).1.2 in
  global_settings d !! "nats_url" = Some (JBool true) ∧ run (poll_once 1) d = (Ok tt, d, []).
Proof. vm_compute. done. Qed.

(** A coordinator that is gone: the version is cached all the same, and the loop goes on polling. *)
Definition down (d : Db) : Db := set_controller 1 (mkController (cache seen) (snapshot seen) 3 2 false) d.
Example reconciler_outlives_coordinator :
  let d1 := (run (upsert_setting 7 "theme" (JBool true)) (down db)).1.2 in
  let '(r, d2, es) := run (poll_once 1) d1 in
  r = Ok tt ∧ es = [] ∧ cached 1 d2 (Some 7%N) = 4%N.
Proof. vm_compute. done. Qed.
End SettingsDemo.
