(* ===== verification/BootSecrets.v ===== *)
(** Secrets a controller reads or makes at start: the token that recognises the master key
    ([crates/core/controller-runtime/src/boot/init/encryption.rs]), the session key and the OAuth
    signing secret ([crates/ui/web-api-auth/src/settings_store.rs],
    [boot/init/jwt.rs]). They are settings, encrypted under the keys of [Crypto], and the
    controllers of an installation start at the same time. Random bytes and nonces are arguments,
    as is what the file system answers; base64 is the class of [Ecies]. *)

From Stdlib Require Import Ascii.
From stdpp Require Import base list gmap relations strings numbers pretty.
From S2P Require Import Prelude RustStr Hex ConfigLoader Json Handlers Crypto CryptoTheorems Ecies SettingsVersions CryptoWitnesses SettingsTheorems.

Module BootSecrets.
Import Settings.
#[local] Notation Call := (Handler Db Ev).

Definition MASTER_KEY_VERIFICATION : string := "crypto.master_key_verification".
Definition JWT_SIGNING_KEY : string := "auth.jwt_signing_key".
Definition OAUTH_JWT_SIGNING_SECRET : string := "oauth.jwt_signing_secret".
Definition JWT_KEY_AAD : string := "uptrakit:settings:jwt_signing_key".
Definition OAUTH_JWT_SECRET_AAD : string := "uptrakit:settings:oauth_jwt_signing_secret".
Definition JWT_KEY_LENGTH : nat := 64.
Definition OAUTH_JWT_SECRET_LENGTH : nat := 32.

Definition as_str (v : Value) : option string := match v with JString s => Some s | _ => None end.

Section Secrets.
Context `{Aead} {O : Orm} `{Ecies.Base64} (display : CryptoError → string).

(** ** The master key *)

Inductive BootError := SettingsError (e : string) | CryptoFailed (e : CryptoError) | MasterKeyMismatched (raced : bool).

Definition of_settings {A B} (h : Call (Result string A)) (k : A → Call (Result BootError B)) : Call (Result BootError B) :=
  r ← h; match r with Ok a => k a | Err e => mret (Err (SettingsError e)) end.

(** The stored value, if it is an encrypted string, must be the token under this key. *)
Definition check_token (st : Crypto) (raced : bool) (v : Value) : Result BootError unit :=
  match as_str v with
  | Some token =>
      if is_encrypted token then map_err (λ _, MasterKeyMismatched raced) (verify_key_verification_token st token) else Ok tt
  | None => Ok tt
  end.

Definition verify_master_key (nonce : string) (st : Crypto) : Call (Result BootError unit) :=
  match MASTER_KEY st with
  | None => mret (Ok tt)
  | Some _ =>
      of_settings (load_global_setting MASTER_KEY_VERIFICATION) (λ stored,
        match stored with
        | Some v => mret (check_token st false v)
        | None =>
            match create_key_verification_token nonce st with
            | Err e => mret (Err (CryptoFailed e))
            | Ok token =>
                of_settings (insert_global_setting_if_absent MASTER_KEY_VERIFICATION (JString token)) (λ inserted,
                  if inserted : bool then mret (Ok tt)
                  else of_settings (load_global_setting MASTER_KEY_VERIFICATION) (λ raced,
                         mret match raced with Some v => check_token st true v | None => Ok tt end))
            end
        end)
  end.

(** ** Signing keys *)

Definition decode_key (message b64 : string) : Result string string := map_err (λ e, message +:+ e) (Ecies.b64_decode b64).
Definition crypto_err {A} (message : string) (r : Result CryptoError A) : Result string A :=
  map_err (λ e, message +:+ display e) r.

(** What a stored string stands for: decrypted, or a legacy text that is encrypted in place. *)
Definition read_key (key aad what from nonce : string) (st : Crypto) (stored : string) : Call (Result string string) :=
  let decode := decode_key ("failed to decode " +:+ what +:+ from +:+ ": ") in
  if is_encrypted stored
  then mret (crypto_err ("failed to decrypt " +:+ what +:+ from +:+ ": ") (decrypt_str st stored aad) ≫= decode)
  else match crypto_err ("failed to encrypt legacy " +:+ what +:+ ": ") (encrypt_str nonce st stored aad) with
       | Err e => mret (Err e)
       | Ok encrypted => try (upsert_global_setting key (JString encrypted)) (λ _, mret (decode stored))
       end.

(** [bytes] were drawn for the case that there is no key yet. *)
Definition load_or_generate_oauth_signing_secret (nonce bytes : string) (st : Crypto) : Call (Result string string) :=
  try (load_global_setting OAUTH_JWT_SIGNING_SECRET) (λ value,
    let generate :=
      match crypto_err "failed to encrypt new OAuth JWT signing secret: " (encrypt_str nonce st (Ecies.b64_encode bytes) OAUTH_JWT_SECRET_AAD) with
      | Err e => mret (Err e)
      | Ok encrypted => try (upsert_global_setting OAUTH_JWT_SIGNING_SECRET (JString encrypted)) (λ _, mret (Ok bytes))
      end in
    match value ≫= as_str with
    | Some stored => if decide (stored = "") then generate else read_key OAUTH_JWT_SIGNING_SECRET OAUTH_JWT_SECRET_AAD "OAuth JWT signing secret" "" nonce st stored
    | None => generate
    end).

Definition load_or_generate_jwt_key (nonce bytes : string) (st : Crypto) : Call (Result string string) :=
  try (load_global_setting JWT_SIGNING_KEY) (λ value,
    match value ≫= as_str with
    | Some stored => read_key JWT_SIGNING_KEY JWT_KEY_AAD "JWT signing key" " from database" nonce st stored
    | None =>
        match crypto_err "failed to encrypt new JWT signing key: " (encrypt_str nonce st (Ecies.b64_encode bytes) JWT_KEY_AAD) with
        | Err e => mret (Err e)
        | Ok encrypted =>
            try (upsert_global_setting JWT_SIGNING_KEY (JString encrypted)) (λ _,
            try (load_global_setting JWT_SIGNING_KEY) (λ value,
              mret match value ≫= as_str with
                   | Some stored =>
                       b64 ← (if is_encrypted stored
                              then crypto_err "failed to decrypt JWT signing key after store: " (decrypt_str st stored JWT_KEY_AAD) else Ok stored);
                       decode_key "failed to decode JWT signing key after store: " b64
                   | None => Ok bytes
                   end))
        end
    end).

(** [jwt_signing.key]: absent, or what reading it gives. The result says whether the key was
    migrated, in which case the file is removed, if that works. *)
Definition migrate_file_jwt_key (nonce : string) (st : Crypto) (file : option (Result string string)) : Call (Result string bool) :=
  match file with
  | None => mret (Ok false)
  | Some read =>
      try (load_global_setting JWT_SIGNING_KEY) (λ value,
        match value with
        | Some _ => mret (Ok false)
        | None =>
            match (bytes ← map_err (λ e, "failed to read JWT signing key file: " +:+ e) read;
                   crypto_err "failed to encrypt JWT signing key during file migration: "
                     (encrypt_str nonce st (Ecies.b64_encode bytes) JWT_KEY_AAD)) with
            | Err e => mret (Err e)
            | Ok encrypted => try (upsert_global_setting JWT_SIGNING_KEY (JString encrypted)) (λ _, mret (Ok true))
            end
        end)
  end.

(** The secret the sessions are signed with. *)
Definition init_jwt (nonce nonce' bytes : string) (st : Crypto) (file : option (Result string string)) : Call (Result string string) :=
  try (migrate_file_jwt_key nonce st file) (λ _, load_or_generate_jwt_key nonce' bytes st).
End Secrets.
End BootSecrets.

(** Secrets at start: the check of the master key holds whatever the other controllers do, and
    controllers that start one after the other sign with the same key. *)
Module BootSecretFacts.
Import Settings SettingsFacts BootSecrets.
#[local] Notation Call := (Handler Db Ev).

Section Facts.
Context `{Aead} {O : Orm}.

(** ** The master key *)

Lemma token_verifies nonce st token :
  str_len nonce = 12 → create_key_verification_token nonce st = Ok token →
  is_encrypted token = true ∧ verify_key_verification_token st token = Ok tt.
Proof.
  intros Hn (k & Hk & He)%bind_ok. pose proof He as (h & Hs & [= Ht])%bind_ok. rewrite <- Ht.
  split; [done|]. unfold verify_key_verification_token. rewrite decrypt_str_v2, Hk. simpl. rewrite Ht.
  rewrite (v2_roundtrip nonce _ _ _ _ Hn) with (2 := He) by done. done.
Qed.

(** The statements of a store that answers or fails. *)
Lemma runs_of_settings {A B} env (h : Call (Result string A)) (k : A → Call (Result BootError B)) d b d' es :
  runs env (of_settings h k) d (Ok b) d' es →
  ∃ a d1 es1 es2, runs env h d (Ok a) d1 es1 ∧ runs env (k a) d1 (Ok b) d' es2.
Proof.
  intros (r & d1 & e1 & e2 & Hh & Hk & _)%runs_bind. destruct r as [a|e]; [by eexists a, d1, e1, e2|].
  by destruct Hk as [? _].
Qed.
Lemma runs_statement_ok {A} env (f : Db → A * Db) d a d' es :
  runs env (statement f) d (Ok a) d' es → ∃ d1, rtc env d d1 ∧ (a, d') = f d1.
Proof.
  intros (d1 & Henv & Hst & _)%runs_exec. exists d1. split; [done|]. destruct (failing d1); [done|].
  destruct (f d1). by injection Hst as <- <-.
Qed.
Lemma runs_load env key d v d' es :
  runs env (load_global_setting key) d (Ok v) d' es → rtc env d d' ∧ v = global_settings d' !! key.
Proof. intros (d1 & Henv & [= -> ->])%runs_statement_ok. done. Qed.

(** What no step of the others changes stays. *)
Lemma keeps_rtc {A} (env : relation Db) (f : Db → option A) d d' v :
  (∀ a b, env a b → ∀ v, f a = Some v → f b = Some v) → rtc env d d' → f d = Some v → f d' = Some v.
Proof. intros Hkeep Hs. induction Hs as [|x y z Hs _ IH]; [done|]. intros Hv. by eapply IH, Hkeep. Qed.

(** The only change the counters of a write make is to the counters. *)
Lemma bump_global_keeps env d r d' es :
  (∀ d d', env d d' → ∀ v, global_settings d !! MASTER_KEY_VERIFICATION = Some v → global_settings d' !! MASTER_KEY_VERIFICATION = Some v) →
  runs env bump_global_settings_version d r d' es →
  ∀ v, global_settings d !! MASTER_KEY_VERIFICATION = Some v → global_settings d' !! MASTER_KEY_VERIFICATION = Some v.
Proof.
  intros Hkeep (d1 & Henv & Hst & _)%runs_exec v Hv.
  apply (keeps_rtc env (λ d, global_settings d !! MASTER_KEY_VERIFICATION) d d1 v Hkeep Henv) in Hv.
  destruct (failing d1); by injection Hst as _ <-.
Qed.

(** The token of an installation whose master key is [k]: the sentinel sealed under [k], in the
    current format, bound to its purpose, or in the legacy one. *)
Definition sealed_sentinel (k token : string) : Prop :=
  ∃ prefix aad hex n ct tag,
    (prefix = "ENC:v2:" ∧ aad = "uptrakit:master-key-verification" ∨ prefix = "ENC:v1:" ∧ aad = "") ∧
    token = prefix +:+ hex ∧ Hex.decode hex = Ok (n +:+ ct +:+ tag) ∧ str_len n = 12 ∧
    seal k n aad "uptrakit-master-key-ok-v1" = Ok (ct, tag).

Lemma open_hex_iff k aad hex msg p :
  open_hex k aad hex msg = Ok p ↔
  ∃ n ct tag, Hex.decode hex = Ok (n +:+ ct +:+ tag) ∧ str_len n = 12 ∧ seal k n aad p = Ok (ct, tag).
Proof.
  unfold open_hex. split.
  - intros (raw & Hraw%map_err_ok & Ho)%bind_ok. destruct (str_len raw <? 12 + 16) eqn:Hlen; [done|].
    apply Nat.ltb_ge in Hlen. destruct (open k _ aad _) as [q|] eqn:Hq; [|done]. injection Ho as ->.
    apply open_iff in Hq as (ct & tag & Hs & Hdrop). exists (str_take 12 raw), ct, tag.
    rewrite <-Hdrop, str_take_drop. split_and!; [done|apply str_take_len; lia|done].
  - intros (n & ct & tag & -> & Hn & Hs). simpl. pose proof (seal_tag _ _ _ _ _ _ Hs) as Htag.
    rewrite !str_len_app, Hn, Htag.
    pose proof (str_take_app n (ct +:+ tag)) as Htake. pose proof (str_drop_app n (ct +:+ tag)) as Hdrop.
    rewrite Hn in Htake, Hdrop. rewrite Htake, Hdrop.
    assert (open k n aad (ct +:+ tag) = Some p) as Ho by (apply open_iff; eauto). rewrite Ho.
    by destruct (Nat.ltb_spec (12 + (str_len ct + 16)) 28); [lia|].
Qed.

(** Before the data keys are loaded, the verification accepts such tokens and no others. *)
Lemma verify_sealed st k token :
  MASTER_KEY st = Some k → DATA_KEY_RING st = None → is_encrypted token = true →
  verify_key_verification_token st token = Ok tt ↔ sealed_sentinel k token.
Proof.
  intros Hk Hr He.
  assert (∀ hex aad msg, (p ← open_hex k aad hex msg; utf8 p) = Ok KEY_VERIFICATION_SENTINEL ↔
    ∃ n ct tag, Hex.decode hex = Ok (n +:+ ct +:+ tag) ∧ str_len n = 12 ∧
      seal k n aad KEY_VERIFICATION_SENTINEL = Ok (ct, tag)) as Hopen.
  { intros hex aad msg. rewrite <-(open_hex_iff k aad hex msg). split.
    - intros (p & Hp & Hu)%bind_ok. unfold utf8 in Hu. by apply map_err_ok, from_utf8_ok in Hu as [_ ->].
    - by intros ->. }
  assert (verify_key_verification_token st token = Ok tt ↔
    decrypt_str st token KEY_VERIFICATION_AAD = Ok KEY_VERIFICATION_SENTINEL) as ->.
  { unfold verify_key_verification_token. destruct (decrypt_str _ _ _) as [q|]; [|done].
    destruct (decide (q = KEY_VERIFICATION_SENTINEL)); naive_solver. }
  unfold decrypt_str, require_master_key. rewrite Hk, Hr. unfold is_encrypted in He.
  destruct (starts_with ENC_V3_PREFIX token) eqn:H3.
  { split; [done|]. intros (prefix & aad & hex & n & ct & tag & [[-> _]|[-> _]] & -> & _); discriminate H3. }
  destruct (starts_with ENC_V2_PREFIX token) eqn:H2.
  { apply starts_with_spec in H2 as [hex ->]. simpl. unfold decrypt_value_v2. rewrite strip_prefix_app, Hopen. split.
    - intros (n & ct & tag & H1). exists ENC_V2_PREFIX, KEY_VERIFICATION_AAD, hex, n, ct, tag. split; [by left|done].
    - intros (prefix & aad & hex' & n & ct & tag & [[-> ->]|[-> ->]] & Ht & H1); [|discriminate Ht].
      assert (hex = hex') as -> by (by injection Ht). eauto. }
  rewrite orb_false_r, orb_false_r in He. rewrite He. apply starts_with_spec in He as [hex ->].
  simpl. unfold decrypt_value_v1_legacy. rewrite strip_prefix_app, Hopen. split.
  - intros (n & ct & tag & H1). exists ENC_V1_PREFIX, "", hex, n, ct, tag. split; [by right|done].
  - intros (prefix & aad & hex' & n & ct & tag & [[-> ->]|[-> ->]] & Ht & H1); [discriminate Ht|].
    assert (hex = hex') as -> by (by injection Ht). eauto.
Qed.

(** What the check says of a stored token. *)
Lemma check_token_sealed st k raced token :
  MASTER_KEY st = Some k → DATA_KEY_RING st = None → is_encrypted token = true →
  (check_token st raced (JString token) = Ok tt ∧ sealed_sentinel k token) ∨
  (check_token st raced (JString token) = Err (MasterKeyMismatched raced) ∧ ¬ sealed_sentinel k token).
Proof.
  intros Hk Hr He. pose proof (verify_sealed st k token Hk Hr He) as Hv. unfold check_token. simpl. rewrite He.
  destruct (verify_key_verification_token st token) as [[]|e]; simpl; naive_solver.
Qed.

(** The token [v] answers for the key [k]: if it is an encrypted text, it is the sentinel
    sealed under it. *)
Definition answers_for (k : string) (v : Value) : Prop :=
  ∀ token, v = JString token → is_encrypted token = true → sealed_sentinel k token.

Lemma check_token_answers st k raced v :
  MASTER_KEY st = Some k → DATA_KEY_RING st = None → check_token st raced v = Ok tt → answers_for k v.
Proof.
  intros Hk Hr Hc token -> He. destruct (check_token_sealed st k raced token Hk Hr He) as [[_ ?]|[? _]]; [done|congruence].
Qed.

(** A token that is there decides. *)
Lemma stored_token_decides env nonce st k d r d' es token :
  (∀ a b, env a b → ∀ v, global_settings a !! MASTER_KEY_VERIFICATION = Some v →
     global_settings b !! MASTER_KEY_VERIFICATION = Some v) →
  MASTER_KEY st = Some k → DATA_KEY_RING st = None → runs env (verify_master_key nonce st) d r d' es →
  global_settings d !! MASTER_KEY_VERIFICATION = Some (JString token) → is_encrypted token = true →
  (r = Ok tt → sealed_sentinel k token) ∧
  (∀ raced, r = Err (MasterKeyMismatched raced) → ¬ sealed_sentinel k token).
Proof.
  intros Hkeep Hm Hring Hr Ht He. unfold verify_master_key in Hr. rewrite Hm in Hr.
  apply runs_bind in Hr as (stored & d1 & ? & ? & Hl & Hr & _). destruct stored as [v|e].
  2:{ apply runs_ret in Hr as (-> & _ & _). done. }
  apply runs_load in Hl as (Hs & ->).
  rewrite (keeps_rtc env (λ d, global_settings d !! MASTER_KEY_VERIFICATION) d d1 _ Hkeep Hs Ht) in Hr.
  apply runs_ret in Hr as (-> & _ & _).
  destruct (check_token_sealed st k false token Hm Hring He) as [[-> ?]|[-> ?]]; naive_solver.
Qed.

(** A start that succeeds leaves a token, which is this controller's or won a race. *)
Lemma started_with_token env nonce st k d d' es :
  (∀ a b, env a b → ∀ v, global_settings a !! MASTER_KEY_VERIFICATION = Some v →
     global_settings b !! MASTER_KEY_VERIFICATION = Some v) →
  MASTER_KEY st = Some k → DATA_KEY_RING st = None → str_len nonce = 12 →
  runs env (verify_master_key nonce st) d (Ok tt) d' es →
  ∃ v, global_settings d' !! MASTER_KEY_VERIFICATION = Some v ∧
    (answers_for k v ∨
     conflict_report = ReportedOk ∧ ∃ d1 d2, rtc env d d1 ∧ global_settings d1 !! MASTER_KEY_VERIFICATION = None ∧
       rtc env d1 d2 ∧ global_settings d2 !! MASTER_KEY_VERIFICATION = Some v).
Proof.
  intros Hkeep Hm Hring Hn. unfold verify_master_key. rewrite Hm.
  intros (stored & d1 & e1 & e2 & (Hs1 & ->)%runs_load & Hr)%runs_of_settings.
  destruct (global_settings d1 !! MASTER_KEY_VERIFICATION) as [v|] eqn:Hv.
  { apply runs_ret in Hr as (Hc & -> & _). exists v. split; [done|left]. by eapply check_token_answers. }
  destruct (create_key_verification_token nonce st) as [token|e] eqn:Ht; [|by destruct Hr as [? _]].
  destruct (token_verifies _ _ _ Hn Ht) as [Henc Hver%(verify_sealed st k token Hm Hring)]; [|done].
  apply runs_of_settings in Hr as (inserted & d2 & e3 & e4 & Hins & Hr).
  unfold insert_global_setting_if_absent, try_insert, try in Hins.
  apply runs_bind in Hins as (r & d3 & e5 & e6 & (r' & d4 & e7 & e8 & Hst & Hk & _)%runs_bind & Hb & _).
  destruct r' as [b|]; [|destruct Hk as [-> _]; by destruct Hb as [? _]].
  apply runs_statement_ok in Hst as (d5 & Hs5 & Hf). apply runs_ret in Hk as (-> & -> & _).
  destruct (global_settings d5 !! MASTER_KEY_VERIFICATION) as [v|] eqn:Hv5; injection Hf as -> ->.
  - destruct conflict_report eqn:Hrep; cbn [orb] in Hb.
    + apply runs_bind in Hb as (r2 & d6 & e9 & e10 & Hbump & ([= ->] & -> & _)%runs_ret & _).
      apply runs_ret in Hr as (_ & -> & _). exists v. split; [by eapply bump_global_keeps|right].
      split; [done|]. by exists d1, d5.
    + apply runs_ret in Hb as ([= ->] & -> & _).
      apply runs_of_settings in Hr as (raced & d6 & e9 & e10 & (Henv & ->)%runs_load & (Hc & -> & _)%runs_ret).
      pose proof (keeps_rtc env (λ d, global_settings d !! MASTER_KEY_VERIFICATION) d5 d6 v Hkeep Henv Hv5) as Hv6.
      simpl in Hv6. rewrite Hv6 in Hc |- *. exists v. split; [done|left]. by eapply check_token_answers.
  - cbn [orb] in Hb. apply runs_bind in Hb as (r2 & d6 & e9 & e10 & Hbump & ([= ->] & -> & _)%runs_ret & _).
    apply runs_ret in Hr as (_ & -> & _). exists (JString token). split.
    + eapply bump_global_keeps; [done|exact Hbump|]. apply lookup_insert_eq.
    + left. by intros ? [= <-] _.
Qed.


End Facts.

(** ** Signing keys *)

Section Signing.
Context `{Aead} {O : Orm} `{Ecies.Base64} (display : CryptoError → string) (sha256 : string → string).

Lemma decrypt_str_keeps st st' stored aad p :
  keeps_keys st st' → is_encrypted stored = true → decrypt_str st stored aad = Ok p → decrypt_str st' stored aad = Ok p.
Proof.
  intros [Hm Hk] Henc. unfold decrypt_str, require_master_key. rewrite Hm. unfold is_encrypted in *.
  destruct (starts_with ENC_V3_PREFIX stored) eqn:H3.
  - destruct (DATA_KEY_RING st) as [r|]; [|done]. destruct (Hk r eq_refl) as (r' & -> & Hsub). unfold decrypt_value_v3.
    destruct (strip_prefix _ _) as [rest|]; [|done]. destruct (split_once _ _) as [[id hex]|]; [|done].
    destruct (keys r !! id) as [dek|] eqn:Hd; [|done]. by rewrite (lookup_weaken _ _ _ _ Hd Hsub).
  - destruct (starts_with ENC_V2_PREFIX stored); [done|]. destruct (starts_with ENC_V1_PREFIX stored); done.
Qed.

Lemma load_run key d : failing d = false → run (load_global_setting key) d = (Ok (global_settings d !! key), d, []).
Proof. intros Hd. unfold load_global_setting, statement. cbn [run exec]. by rewrite Hd. Qed.
Lemma upsert_global_run key v d :
  failing d = false →
  ∃ d', run (upsert_global_setting key v) d = (Ok tt, d', []) ∧ global_settings d' = <[key := v]> (global_settings d) ∧ failing d' = false.
Proof.
  intros Hd. unfold upsert_global_setting, and_bump, try, statement, bump_global_settings_version, statement.
  cbn. rewrite Hd. cbn. rewrite Hd. cbn. by eexists.
Qed.

(** A stored encrypted key is read back, and nothing changes. *)
Lemma stored_key_run nonce bytes st d stored b64 key :
  failing d = false → global_settings d !! JWT_SIGNING_KEY = Some (JString stored) → is_encrypted stored = true →
  decrypt_str st stored JWT_KEY_AAD = Ok b64 → Ecies.b64_decode b64 = Ok key →
  run (load_or_generate_jwt_key display nonce bytes st) d = (Ok key, d, []).
Proof.
  intros Hd Hs He Hdec Hk. unfold load_or_generate_jwt_key, try. rewrite run_bind, load_run, Hs by done. simpl.
  unfold read_key. rewrite He. simpl. by rewrite Hdec; simpl; unfold decode_key; rewrite Hk.
Qed.

(** What a start leaves: an encrypted text that stands for the key. *)
Lemma jwt_key_left nonce bytes st d key d' es :
  rings_ok sha256 st → PLAINTEXT_MODE st = false → str_len nonce = 12 → (∀ s, is_utf8 (Ecies.b64_encode s)) →
  (∀ s, global_settings d !! JWT_SIGNING_KEY = Some (JString s) → is_utf8 s) → failing d = false →
  run (load_or_generate_jwt_key display nonce bytes st) d = (Ok key, d', es) →
  failing d' = false ∧ ∃ stored b64, global_settings d' !! JWT_SIGNING_KEY = Some (JString stored) ∧ is_encrypted stored = true ∧
    decrypt_str st stored JWT_KEY_AAD = Ok b64 ∧ Ecies.b64_decode b64 = Ok key.
Proof.
  intros Hok Hp Hn Hb64 Hutf Hd. assert (keeps_keys st st) as Hself by (split; eauto).
  unfold load_or_generate_jwt_key, try. rewrite run_bind, load_run by done. cbv beta iota.
  destruct (global_settings d !! JWT_SIGNING_KEY ≫= as_str) as [stored|] eqn:Hs.
  - assert (global_settings d !! JWT_SIGNING_KEY = Some (JString stored)) as Hv.
    { destruct (_ !! _) as [[]|]; try done. by injection Hs as ->. }
    unfold read_key. destruct (is_encrypted stored) eqn:He.
    + simpl. destruct (decrypt_str st stored _) as [b64|] eqn:Hdec; [|done]. simpl. unfold decode_key.
      destruct (Ecies.b64_decode b64) eqn:Hk; [|done]. intros [= <- <- <-]. eauto 10.
    + destruct (encrypt_str nonce st stored JWT_KEY_AAD) as [enc|] eqn:Henc; [|done]. cbn [crypto_err map_err]. unfold try.
      rewrite run_bind. destruct (upsert_global_run JWT_SIGNING_KEY (JString enc) d Hd) as (d1 & -> & Hg & Hd1). simpl.
      unfold decode_key. destruct (Ecies.b64_decode stored) eqn:Hk; [|done]. intros [= <- <- <-].
      destruct (decrypt_encrypted sha256 nonce st st stored JWT_KEY_AAD enc) as [? ?]; [by auto..|].
      split; [done|]. exists enc, stored. rewrite Hg, lookup_insert_eq. done.
  - destruct (encrypt_str nonce st _ JWT_KEY_AAD) as [enc|] eqn:Henc; [|done]. cbn [crypto_err map_err]. unfold try.
    rewrite run_bind. destruct (upsert_global_run JWT_SIGNING_KEY (JString enc) d Hd) as (d1 & -> & Hg & Hd1).
    rewrite run_bind, load_run, Hg, lookup_insert_eq by done. simpl.
    destruct (decrypt_encrypted sha256 nonce st st (Ecies.b64_encode bytes) JWT_KEY_AAD enc) as [Hdec He]; [by auto..|].
    rewrite He, Hdec. simpl. unfold decode_key. rewrite Ecies.b64_roundtrip. simpl. intros [= <- <- <-].
    split; [done|]. exists enc, (Ecies.b64_encode bytes). rewrite Hg, lookup_insert_eq, Ecies.b64_roundtrip. done.
Qed.

(** controllers that start one after the other sign with the same key. After a start that
    got a key, found, migrated from a legacy plaintext or generated, the setting holds it
    encrypted, and every later start of a process that has the same keys, whatever it drew,
    gets the same key and changes nothing. *)
Theorem signing_key_stable nonce bytes nonce' bytes' st st' d key d' es :
  rings_ok sha256 st → keeps_keys st st' → PLAINTEXT_MODE st = false → str_len nonce = 12 →
  (∀ s, is_utf8 (Ecies.b64_encode s)) →
  (∀ s, global_settings d !! JWT_SIGNING_KEY = Some (JString s) → is_utf8 s) → failing d = false →
  run (load_or_generate_jwt_key display nonce bytes st) d = (Ok key, d', es) →
  run (load_or_generate_jwt_key display nonce' bytes' st') d' = (Ok key, d', []) ∧
  ∃ stored, global_settings d' !! JWT_SIGNING_KEY = Some (JString stored) ∧ is_encrypted stored = true.
Proof.
  intros Hok Hkeep Hp Hn Hb64 Hutf Hd Hr.
  destruct (jwt_key_left _ _ _ _ _ _ _ Hok Hp Hn Hb64 Hutf Hd Hr) as (Hd' & stored & b64 & Hs & He & Hdec & Hk).
  split; [|by exists stored]. eapply stored_key_run; [done..|by eapply decrypt_str_keeps|done].
Qed.
End Signing.
End BootSecretFacts.

(** Two controllers that start together, on toy ciphers; hexadecimal stands for base64. *)
Module BootSecretDemo.
Import Settings SettingsFacts BootSecrets BootSecretFacts CryptoDemo.

(** A tag that depends on the key. *)
Definition key_tag (k n a p : string) : string := str_take 16 (k +:+ "0000000000000000").
Lemma key_tag_len k n a p : str_len (key_tag k n a p) = 16.
Proof. apply str_take_len. rewrite str_len_app. change (str_len "0000000000000000") with 16. lia. Qed.
#[local] Instance keyed_aead : Aead := tagged_aead key_tag key_tag_len.

#[local] Instance hex_base64 : Ecies.Base64.
Proof.
  refine {| Ecies.b64_encode := Hex.encode; Ecies.b64_decode s := map_err (λ _, "invalid") (Hex.decode s) |}.
  intros s. by rewrite Hex.decode_encode.
Defined.
Lemma ascii_is_utf8 i s : all_chars Hex.is_ascii s = true → utf8_error i s = None.
Proof.
  revert i. induction s as [|c s IH]; intros i; [done|]. cbn [all_chars utf8_error]. intros [Hc Hs]%andb_prop.
  replace (byte_in 0 127 c) with true; [by apply IH|]. apply N.ltb_lt in Hc. unfold byte_in. symmetry. apply andb_true_intro. split; apply N.leb_le; lia.
Qed.

Definition msg (e : CryptoError) : string := "".
Definition empty_db : Db := mkDb ∅ ∅ ∅ ∅ false.
Definition with_key (k : string) : Crypto := mkCrypto (Some k) false None None.
Definition key_a : string := "aaaa".
Definition key_b : string := "bbbb".

Section NotInserted.
#[local] Instance not_inserted : Orm := {| conflict_report := RecordNotInserted |}.

Lemma signing_key_stable_witness :
  let d' := (run (load_or_generate_jwt_key msg nonce key_a (with_key kek)) empty_db).1.2 in
  run (load_or_generate_jwt_key msg nonce key_b (with_key kek)) d' = (Ok key_a, d', []) ∧
  ∃ stored, global_settings d' !! JWT_SIGNING_KEY = Some (JString stored) ∧ is_encrypted stored = true.
Proof.
  intros d'. apply (signing_key_stable msg sha nonce key_a nonce key_b (with_key kek) (with_key kek) empty_db key_a d' []).
  - intros r Hr. discriminate Hr.
  - split; [reflexivity|]. intros r Hr. discriminate Hr.
  - reflexivity.
  - reflexivity.
  - intros s. apply ascii_is_utf8, Hex.encode_ascii.
  - intros s Hs. discriminate Hs.
  - reflexivity.
  - vm_compute. reflexivity.
Defined.

(** With a report of the conflict, the controller with the other key does not start. *)
Definition other_starts (d d' : Db) : Prop := d' = (run (verify_master_key nonce (with_key kek)) d).1.2.
Example mismatch_refused :
  ∃ d', runs other_starts (verify_master_key nonce (with_key new_kek)) empty_db (Err (MasterKeyMismatched true)) d' [].
Proof.
  eexists. eexists. split; [apply rtc_refl|]. eexists. split; [apply rtc_once; reflexivity|].
  apply run_alone. vm_compute. reflexivity.
Qed.
End NotInserted.

Section Reported.
#[local] Instance sea_orm : Orm := {| conflict_report := ReportedOk |}.

(** The first start stores a token; later the same key starts and another does not, whatever
    the ORM reports of conflicts. *)
Definition started : Db := (run (verify_master_key nonce (with_key kek)) empty_db).1.2.

(** Where the conflict is reported as [Ok], it does, and the token is not its own. *)
Definition other_started (d d' : Db) : Prop := d' = (run (verify_master_key nonce (with_key kek)) d).1.2.
Example mismatch_accepted :
  ∃ d' token, runs other_started (verify_master_key nonce (with_key new_kek)) empty_db (Ok tt) d' [] ∧
    global_settings d' !! MASTER_KEY_VERIFICATION = Some (JString token) ∧
    verify_key_verification_token (with_key new_kek) token = Err MasterKeyMismatch.
Proof.
  do 2 eexists. split_and!.
  - eexists. split; [apply rtc_refl|]. eexists. split; [apply rtc_once; reflexivity|].
    apply run_alone. vm_compute. reflexivity.
  - vm_compute. reflexivity.
  - vm_compute. reflexivity.
Qed.

(** Two first starts: each stores its key and reads back its own, and the first one keeps signing
    with a key that the installation no longer has. *)
Definition first_start (d d' : Db) : Prop := d' = (run (load_or_generate_jwt_key msg nonce key_a (with_key kek)) d).1.2.
Example two_signing_keys :
  (run (load_or_generate_jwt_key msg nonce key_a (with_key kek)) empty_db).1.1 = Ok key_a ∧
  ∃ d', runs first_start (load_or_generate_jwt_key msg nonce key_b (with_key kek)) empty_db (Ok key_b) d' [].
Proof.
  split; [by vm_compute|]. eexists. eexists. split; [apply rtc_refl|]. eexists. split; [apply rtc_once; reflexivity|].
  apply run_alone. vm_compute. reflexivity.
Qed.
End Reported.
End BootSecretDemo.
