(* ===== verification/WirePayloads.v ===== *)
(** The payloads of the wire protocol ([crates/shared/wire/src/payloads.rs], [messages.rs]) and
    the types they share with the rest ([crates/shared/types/src]). The four reports that are
    paginated are those of [Paginate], with their items. *)

From stdpp Require Import base list gmap sets strings numbers.
From S2P Require Import Prelude Json WireEnums ReportTracker Paginate SurfaceTypes SurfaceProxy.
Local Open Scope Z_scope.

Module Wire.

Definition SecretString := string.
Definition PluginTypeId := string.
Definition Capabilities := gset Capability.Capability.

(** ** Shared types *)

Inductive UpdateFinalStatus := FinalCompleted | FinalFailed | FinalOther (s : string).
Inductive DisconnectReason := Shutdown | Restart | ReasonOther (s : string).
Inductive OutputStreamType := Stdout | Stderr | PreHook | PostHook | System.
Inductive ConfigTestKind := VersionDetection | UpdateCommandValidation | TestPreUpdateHook | TestPostUpdateHook | Connectivity.
Inductive PluginRole := DetectVersion | FetchReleases | ExecuteUpdate | PreUpdateHook | PostUpdateHook | RoleOther (s : string).
Inductive AttestationStatus := Verified | NotFound | Unverified | AttestationOther (s : string).

Record ReleaseAsset := mkAsset {
  as_name : string; download_url : string; size_ : option N; content_type : option string; sha256_digest : option string }.
Record ReleaseInfo := mkRelease {
  tag : string; release_url : string; assets : list ReleaseAsset; attestation_status : option AttestationStatus;
  require_attestation : bool }.

Record DiscoveryTarget := mkTarget {
  dt_plugin_type : PluginTypeId; dt_plugin_config : Value; dt_plugin_config_name : string; dt_roles : list PluginRole }.
Record DiscoveredSoftware := mkDiscovered {
  ds_package_identifier : string; ds_name : string; ds_installed_version : string; ds_targets : list DiscoveryTarget;
  ds_extra : option Value; ds_qualifier : option string; ds_plugin_package_identifier : option string; ds_featured : bool;
  ds_installed_display_version : option string }.

(** ** From a service *)

Record PingPayload := mkPing { ping_service_ts : Instant }.
Record HostInfo := mkHostInfo {
  hi_machine_id : string; hi_os_type : option string; hi_os_version : option string; hi_architecture : option string;
  hi_hostname : option string; hi_ip_address : option string; hi_agent_host_id : option Uuid; hi_features : option (list string) }.
Record EnrollPayload := mkEnroll {
  en_hostname : string; en_friendly_name : string; en_enrollment_token : option SecretString; en_capabilities : Capabilities;
  en_service_app_name : string }.
Record RequestCertificatePayload := mkRequestCertificate { rq_csr_pem : string }.
Record RenewCertificatePayload := mkRenewCertificate { rn_csr_pem : string }.
Record DisconnectingPayload := mkDisconnecting { dc_reason : DisconnectReason }.
Record VersionCheckResult := mkCheckResult {
  vr_software_item_id : Uuid; vr_installed_version : option string; vr_latest_version : option string; vr_error : option string;
  vr_update_category : UpdateCategory.UpdateCategory; vr_host_software_item_id : option Uuid;
  vr_installed_display_version : option string; vr_not_ready : option bool }.
Record UpdateStartedPayload := mkStarted { us_update_history_id : Uuid; us_from_version : option string; us_interactive : bool }.
Record UpdateOutputPayload := mkOutput { uo_update_history_id : Uuid; uo_output : string; uo_stream : OutputStreamType }.
Record UpdateResultPayload := mkResult {
  ur_update_history_id : Uuid; ur_status : UpdateFinalStatus; ur_from_version : option string; ur_to_version : option string;
  ur_output : string; ur_error : option string; ur_resumable : option bool }.
Record BatchUpdateItemResult := mkItemResult {
  br_host_software_item_id : Uuid; br_update_history_id : Uuid; br_status : UpdateFinalStatus; br_output : string;
  br_installed_version : option string; br_error : option string }.
Record StdinAttentionPayload := mkAttention { sa_update_history_id : Uuid; sa_hint : option string }.
Record ServiceUpdateTriggerPayload := mkTrigger {
  ut_tenant_id : Uuid; ut_software_item_id : Uuid; ut_host_id : Uuid; ut_to_version : string; ut_actor_service_id : Uuid }.
Record ServiceHostBatchUpdateTriggerPayload := mkBatchTrigger {
  bt_tenant_id : Uuid; bt_host_id : Uuid; bt_actor_service_id : Uuid; bt_security_only : bool }.
Record RegisterPayload := mkRegister { rg_capabilities : Capabilities; rg_runtime_instance_id : option Uuid }.
Record ReportPluginConfigPayload := mkReportConfig { pc_request_id : string; pc_plugin_type : string; pc_name : string; pc_config : Value }.
Record StoreServiceConfigPayload := mkStoreConfig {
  st_request_id : string; st_tenant_id : option Uuid; st_key : string; st_value : Value; st_sensitive : bool }.
Record DeleteServiceConfigPayload := mkDeleteConfig { dl_request_id : string; dl_tenant_id : option Uuid; dl_key : string }.
Record WorkloadClaimPayload := mkClaim { wc_claims : gmap string Uuid }.
Record WorkloadReleasePayload := mkRelease_ { wr_keys : gset string }.
Record TestPluginConfigResultPayload := mkTestResult {
  tr_request_id : string; tr_success : bool; tr_output : option string; tr_error : option string; tr_detected_version : option string;
  tr_duration_ms : N }.
Record AuditEventPayload := mkAudit {
  ae_action_type : string; ae_tenant_id : option string; ae_target_type : option string; ae_target_id : option string;
  ae_target_display : option string; ae_outcome : string; ae_details_json : option string; ae_request_id : option string;
  ae_correlation_id : option Uuid }.

(** The paginated reports, with their items. *)
Definition ReportHosts := ReportHostsPayload (HostInfo := HostInfo) (Capabilities := Capabilities).
Definition VersionCheckResults := VersionCheckResultsPayload (CheckResult := VersionCheckResult).
Definition BatchUpdateResult := BatchUpdateResultPayload (BatchItemResult := BatchUpdateItemResult).
Definition DiscoveryResult := DiscoveryPluginResult DiscoveredSoftware.
Definition DiscoveryResults := DiscoveryResultsPayload DiscoveredSoftware.

(** ** Surfaces *)

Record SurfaceActionRequest := mkActionRequest {
  ar_request_id : Uuid; ar_tenant_id : string; ar_surface_id : string; ar_interaction : string; ar_method : InteractionHttpMethod;
  ar_idempotency_key : string; ar_target_provider_id : option string; ar_caller_origin : CallerOrigin;
  ar_params : list (string * Value); ar_encrypted : option EncryptedSensitiveParams }.
Inductive SurfaceActionCancelReason := CancelTimeout | RequestCancelled | CancelProviderDisconnected.
Record SurfaceActionCancel := mkActionCancel { ac_request_id : Uuid; ac_target_provider_id : string; ac_reason : SurfaceActionCancelReason }.

(** ** From a controller *)

Record PongPayload := mkPong { pong_service_ts : Instant; pong_controller_ts : Instant }.
Record EnrolledPayload := mkEnrolled { ed_service_id : Uuid; ed_enrollment_secret : SecretString; ed_status : EnrollmentStatus.EnrollmentStatus }.
Record ApprovedPayload := mkApproved { ap_service_id : Uuid }.
Record RejectedPayload := mkRejected { rj_service_id : Uuid }.
Record CertificatePayload := mkCertificate { ce_cert_pem : string; ce_not_after : Instant }.
Record ErrorPayload := mkError { ep_code : ErrorCode.ErrorCode; ep_message : string }.
Record ServiceSettingsPayload := mkServiceSettings {
  se_renewal_window_hours : N; se_ca_bundle_hash : string; se_capabilities : Capabilities; se_report_page_limits : ReportPageLimits;
  se_shutdown_timeout : option Z; se_ping_interval : Z; se_tenant_id : option Uuid; se_trust_domain : string;
  se_instance_host : option string }.
Record CaBundleUpdatedPayload := mkCaBundle { cb_ca_bundle_pem : string }.
Record RequestCertRenewalPayload := mkCertRenewal { cr_reason : string }.
Record ServerRestartingPayload := mkRestarting { sr_reason : string }.
Record PluginAssignment := mkAssignment { pa_plugin_type : PluginTypeId; pa_package_identifier : string; pa_config : Value }.
Record VersionCheckAssignment := mkCheckAssignment {
  va_software_item_id : Uuid; va_name : string; va_detect_version : option PluginAssignment;
  va_fetch_releases : option PluginAssignment; va_host_software_item_id : option Uuid }.
Record CheckVersionsPayload := mkCheckVersions { cv_host_machine_id : string; cv_assignments : list VersionCheckAssignment }.
Record ExecuteUpdatePayload := mkExecuteUpdate {
  eu_host_machine_id : string; eu_update_history_id : Uuid; eu_software_item_id : Uuid; eu_software_item_name : string;
  eu_to_version : string; eu_detect_version_plugin : option PluginAssignment; eu_execute_update_plugin : PluginAssignment;
  eu_pre_update_hook_plugins : list PluginAssignment; eu_post_update_hook_plugins : list PluginAssignment;
  eu_release_info : option ReleaseInfo; eu_timeout : Z; eu_interactive : bool }.
Record BatchUpdateItem := mkBatchItem {
  bi_host_software_item_id : Uuid; bi_update_history_id : Uuid; bi_package_identifier : string; bi_to_version : string;
  bi_release_info : option ReleaseInfo }.
Record ExecuteBatchUpdatePayload := mkExecuteBatch {
  eb_host_machine_id : string; eb_batch_id : Uuid; eb_plugin_type : PluginTypeId; eb_plugin_config : Value;
  eb_updates : list BatchUpdateItem; eb_pre_update_hook_plugins : list PluginAssignment;
  eb_post_update_hook_plugins : list PluginAssignment; eb_timeout : Z; eb_interactive : bool }.
Record DiscoveryPluginAssignment := mkDiscoveryAssignment {
  da_plugin_config_id : option Uuid; da_plugin_type : PluginTypeId; da_config : Value }.
Record DiscoverSoftwarePayload := mkDiscover { di_host_machine_id : string; di_plugins : list DiscoveryPluginAssignment }.
Record SetUpdateFreezePayload := mkFreeze { uf_enabled : bool; uf_reason : option string }.
Record UpdateStdinDataPayload := mkStdin { sd_update_history_id : Uuid; sd_data : string; sd_signal : option Z }.
Record SoftwareStateHostEntry := mkHostEntry {
  sh_host_id : Uuid; sh_hostname : string; sh_friendly_name : string; sh_installed_version : option string;
  sh_latest_version : option string; sh_update_available : bool; sh_update_in_progress : bool; sh_release_url : option string;
  sh_release_notes : option string; sh_update_category : option string; sh_release_date : option string;
  sh_last_checked_at : option string }.
Record SoftwareStateItem := mkStateItem {
  si_software_item_id : Uuid; si_name : string; si_icon_url : option string; si_hosts : list SoftwareStateHostEntry }.
Record HostPackageSummary := mkSummary_ {
  hs_host_id : Uuid; hs_hostname : string; hs_friendly_name : string; hs_pending_count : N; hs_security_pending_count : N;
  hs_total_count : N; hs_update_in_progress : bool; hs_bugfix_count : N; hs_feature_count : N }.
Record HostStateMetadata := mkHostMetadata {
  hm_host_id : Uuid; hm_hostname : string; hm_friendly_name : string; hm_os_type : option string; hm_os_version : option string;
  hm_architecture : option string; hm_tags : list string; hm_agent_version : option string; hm_agent_last_seen_at : option string }.
Record SoftwareStatesPage := mkStatesPage { sp_page_index : N; sp_total_pages : N }.
Record SoftwareStatesPayload := mkStates {
  ss_tenant_id : Uuid; ss_items : list SoftwareStateItem; ss_host_summaries : list HostPackageSummary;
  ss_hosts : list HostStateMetadata; ss_page : SoftwareStatesPage }.
Record HostConnectivityUpdate := mkConnectivity {
  hc_host_id : Uuid; hc_online : bool; hc_last_seen_at : option string; hc_agent_version : option string }.
Record HostConnectivityUpdatedPayload := mkConnectivityUpdated { cu_tenant_id : Uuid; cu_updates : list HostConnectivityUpdate }.
Record ReportPluginConfigResponsePayload := mkReportConfigResponse {
  pr_request_id : string; pr_success : bool; pr_plugin_config_id : option Uuid; pr_error : option string }.
Record ServiceCredentialsPayload := mkCredentials {
  sc_db_url : option SecretString; sc_master_key_hex : option SecretString; sc_nats_url : option string }.
Record ServiceConfigEntry := mkConfigEntry { ce_tenant_id : option Uuid; ce_key : string; ce_value : Value }.
Record ServiceConfigKey := mkConfigKey { ck_tenant_id : option Uuid; ck_key : string }.
Record ServiceConfigDeliveryPayload := mkDelivery { cd_entries : list ServiceConfigEntry }.
Record ServiceConfigAckPayload := mkAck { ca_request_id : string; ca_success : bool; ca_error : option string }.
Record ServiceConfigUpdatedPayload := mkConfigUpdated { cg_changed : list ServiceConfigEntry; cg_deleted : list ServiceConfigKey }.
Record RequestCaRotationPayload := mkCaRotation { rc_reason : string }.
Record SoftwareStatesChangedPayload := mkStatesChanged { sg_tenant_id : Uuid }.
Record TokenRevokedPayload := mkTokenRevoked {
  tk_jti : option string; tk_exp : option Z; tk_user_id : option Uuid; tk_iat_cutoff : option Z; tk_purge_after : option Z }.
Record AccessInvalidatedPayload := mkAccessInvalidated { ai_user_ids : list Uuid; ai_role_ids : list Uuid }.
Record BroadcastAdminEventPayload := mkAdminEvent { be_tenant_id : option Uuid; be_event_json : string }.
Record WorkloadClaimResultPayload := mkClaimResult { cl_granted : gset string; cl_rejected : gset string }.
Record WorkloadClaimAnnouncementPayload := mkAnnouncement {
  wa_service_id : Uuid; wa_controller_id : Uuid; wa_claimed : gmap string Uuid; wa_released : gset string; wa_claimed_at : string }.
Record WorkloadClaimSyncRequestPayload := mkSyncRequest { wq_controller_id : Uuid }.
Record WorkloadClaimSyncEntry := mkSyncEntry { wy_service_id : Uuid; wy_tenant_id : Uuid; wy_claimed_at : string }.
Record WorkloadClaimSyncResponsePayload := mkSyncResponse { ws_controller_id : Uuid; ws_claims : gmap string WorkloadClaimSyncEntry }.
Record TestPluginConfigPayload := mkTestConfig {
  tc_request_id : string; tc_host_machine_id : string; tc_test_kind : ConfigTestKind; tc_plugin_type : string; tc_config : Value;
  tc_package_identifier : option string }.

(** ** Messages *)

Inductive ServiceMessage :=
| SPing (p : PingPayload)
| SEnroll (p : EnrollPayload)
| SRequestCertificate (p : RequestCertificatePayload)
| SRenewCertificate (p : RenewCertificatePayload)
| SDisconnecting (p : DisconnectingPayload)
| SReportHosts (p : ReportHosts)
| SVersionCheckResults (p : VersionCheckResults)
| SUpdateStarted (p : UpdateStartedPayload)
| SUpdateOutput (p : UpdateOutputPayload)
| SUpdateResult (p : UpdateResultPayload)
| SBatchUpdateResult (p : BatchUpdateResult)
| SDiscoveryResults (p : DiscoveryResults)
| SStdinAttention (p : StdinAttentionPayload)
| SServiceTriggerUpdate (p : ServiceUpdateTriggerPayload)
| SServiceTriggerHostBatchUpdate (p : ServiceHostBatchUpdateTriggerPayload)
| SRegister (p : RegisterPayload)
| SReportPluginConfig (p : ReportPluginConfigPayload)
| SSurfaceRegistration (p : SurfaceRegistration)
| SSurfaceActionResponse (p : SurfaceActionResponse)
| SSurfaceActionRequest (p : SurfaceActionRequest)
| SStoreServiceConfig (p : StoreServiceConfigPayload)
| SDeleteServiceConfig (p : DeleteServiceConfigPayload)
| SWorkloadClaim (p : WorkloadClaimPayload)
| SWorkloadRelease (p : WorkloadReleasePayload)
| STestPluginConfigResult (p : TestPluginConfigResultPayload)
| SAuditEvent (p : AuditEventPayload)
| SUnknown.

Inductive ControllerMessage :=
| CPong (p : PongPayload)
| CEnrolled (p : EnrolledPayload)
| CApproved (p : ApprovedPayload)
| CRejected (p : RejectedPayload)
| CCertificate (p : CertificatePayload)
| CError (p : ErrorPayload)
| CServiceSettings (p : ServiceSettingsPayload)
| CCaBundleUpdated (p : CaBundleUpdatedPayload)
| CRequestCertRenewal (p : RequestCertRenewalPayload)
| CServerRestarting (p : ServerRestartingPayload)
| CCheckVersions (p : CheckVersionsPayload)
| CExecuteUpdate (p : ExecuteUpdatePayload)
| CExecuteBatchUpdate (p : ExecuteBatchUpdatePayload)
| CDiscoverSoftware (p : DiscoverSoftwarePayload)
| CSetUpdateFreeze (p : SetUpdateFreezePayload)
| CUpdateStdinData (p : UpdateStdinDataPayload)
| CResetData
| CSoftwareStates (p : SoftwareStatesPayload)
| CHostConnectivityUpdated (p : HostConnectivityUpdatedPayload)
| CSurfaceActionRequest (p : SurfaceActionRequest)
| CSurfaceActionCancel (p : SurfaceActionCancel)
| CSurfaceActionResponse (p : SurfaceActionResponse)
| CReportPluginConfigResponse (p : ReportPluginConfigResponsePayload)
| CServiceCredentials (p : ServiceCredentialsPayload)
| CServiceConfigDelivery (p : ServiceConfigDeliveryPayload)
| CServiceConfigAck (p : ServiceConfigAckPayload)
| CServiceConfigUpdated (p : ServiceConfigUpdatedPayload)
| CRequestCaRotation (p : RequestCaRotationPayload)
| CRequestCrlRenewal
| CSoftwareStatesChanged (p : SoftwareStatesChangedPayload)
| CTokenRevoked (p : TokenRevokedPayload)
| CAccessInvalidated (p : AccessInvalidatedPayload)
| CBroadcastAdminEvent (p : BroadcastAdminEventPayload)
| CWorkloadClaimResult (p : WorkloadClaimResultPayload)
| CWorkloadClaimAnnouncement (p : WorkloadClaimAnnouncementPayload)
| CWorkloadClaimSyncRequest (p : WorkloadClaimSyncRequestPayload)
| CWorkloadClaimSyncResponse (p : WorkloadClaimSyncResponsePayload)
| CTestPluginConfig (p : TestPluginConfigPayload)
| CUnknown.

(** Messages that may leave the process over the broker. *)
Definition is_nats_publishable (m : ControllerMessage) : bool :=
  match m with
  | CServiceCredentials _ | CSurfaceActionRequest _ | CSurfaceActionCancel _ | CSurfaceActionResponse _
  | CUpdateStdinData _ | CResetData | CServiceConfigDelivery _ | CServiceConfigAck _ | CServiceConfigUpdated _
  | CWorkloadClaimResult _ | CTestPluginConfig _ | CUnknown => false
  | _ => true
  end.
End Wire.
