(* ===== verification/WireValidate.v ===== *)
(** Limits of the wire protocol ([crates/shared/wire/src/limits.rs]) and the validation of every
    payload ([wire_validate_impls.rs]). Serialization of JSON values and parsing of UUIDs are
    those of libraries, the class [WireLib]. Lengths are in [N]. *)

From Stdlib Require Import Ascii.
From stdpp Require Import base list gmap sets strings numbers pretty.
From S2P Require Import Prelude RustStr Json ReportTracker Paginate SurfaceTypes SurfaceProxy WirePayloads.
Local Open Scope N_scope.

Module WireCheck.
Import Wire.

(** ** Limits *)

Definition MAX_REPORT_HOSTS : N := 500.
Definition MAX_VERSION_CHECK_ASSIGNMENTS : N := 2000.
Definition MAX_VERSION_CHECK_RESULTS : N := 2000.
Definition MAX_UPDATE_HOOKS : N := 50.
Definition MAX_BATCH_UPDATES : N := 500.
Definition MAX_BATCH_UPDATE_RESULTS : N := 500.
Definition MAX_DISCOVERY_PLUGINS : N := 50.
Definition MAX_DISCOVERY_PLUGIN_RESULTS : N := 50.
Definition MAX_DISCOVERIES : N := 1000.
Definition MAX_ACCESS_INVALIDATION_IDS : N := 200.
Definition MAX_DISCOVERED_QUALIFIER_LEN : N := 256.
Definition MAX_SOFTWARE_STATE_ITEMS : N := 2000.
Definition MAX_SOFTWARE_STATE_HOSTS : N := 500.
Definition MAX_HOST_PACKAGE_HOST_STATES : N := 2000.
Definition MAX_MQTT_HOSTS : N := 2000.
Definition MAX_HOST_TAGS : N := 100.
Definition MAX_CONNECTIVITY_UPDATES : N := 500.
Definition MAX_SURFACE_MANIFESTS : N := 50.
Definition MAX_SURFACE_COLUMNS : N := 50.
Definition MAX_SURFACE_ACTION_REFS : N := 50.
Definition MAX_SURFACE_ACTIONS : N := 200.
Definition MAX_SURFACE_FIELDS : N := 100.
Definition MAX_SURFACE_WIZARD_STEPS : N := 20.
Definition MAX_SURFACE_PARAMS_LEN : N := 65536.
Definition MAX_SURFACE_RESPONSE_LEN : N := 1048576.
Definition MAX_SURFACE_JSON_DEPTH : N := 32.
Definition MAX_SURFACE_JSON_NODES : N := 20000.
Definition MAX_PLUGIN_CONFIG_JSON_LEN : N := 65536.
Definition MAX_STDIN_DATA_LEN : N := 65536.
Definition MAX_ICON_URL_LEN : N := 2048.
Definition MAX_SHORT_STRING_LEN : N := 1024.
Definition MAX_MEDIUM_STRING_LEN : N := 4096.
Definition MAX_LONG_STRING_LEN : N := 65536.
Definition MAX_OUTPUT_STRING_LEN : N := 1048576.
Definition MAX_CONFIG_TEST_OUTPUT_LEN : N := 65536.
Definition MAX_RELEASE_ASSETS : N := 500.
Definition MAX_SERVICE_CONFIG_ENTRIES : N := 1000000.
Definition MAX_SERVICE_CONFIG_VALUE_LEN : N := 65536.
Definition MAX_WORKLOAD_CLAIM_KEYS : N := 100000.
Definition SHA256_DIGEST_LEN : N := 64.

(** ** Checks *)

Record WireValidationError := mkWireError { field : string; message : string }.
#[global] Instance WireValidationError_eq_dec : EqDecision WireValidationError.
Proof. solve_decision. Defined.
Definition Checked := Result WireValidationError unit.

Definition slen (s : string) : N := N.of_nat (str_len s).
Definition llen {A} (l : list A) : N := N.of_nat (length l).

Definition check_len (what : string) (n max : N) (unit_ field : string) : Checked :=
  if max <? n then Err (mkWireError field (what +:+ pretty n +:+ unit_ +:+ pretty max)) else Ok tt.
Definition check_vec_len {A} (items : list A) (max : N) (field : string) : Checked :=
  check_len "collection has " (llen items) max " items, max " field.
Definition check_string_len (s : string) (max : N) (field : string) : Checked :=
  check_len "string is " (slen s) max " bytes, max " field.
Definition check_map_len {A} (m : gmap string A) (max : N) (field : string) : Checked :=
  check_len "map has " (N.of_nat (size m)) max " entries, max " field.
Definition check_set_len (s : gset string) (max : N) (field : string) : Checked :=
  check_len "set has " (N.of_nat (size s)) max " items, max " field.
Definition check_opt_string_len (s : option string) (max : N) (field : string) : Checked :=
  match s with Some s => check_string_len s max field | None => Ok tt end.

(** One check after the other, up to the first that fails; for the elements of a collection. *)
Fixpoint all_ok (l : list Checked) : Checked :=
  match l with
  | [] => Ok tt
  | Ok _ :: l' => all_ok l'
  | Err e :: _ => Err e
  end.
Definition each {A} (f : A → Checked) (l : list A) : Checked := all_ok (map f l).
Definition opt {A} (f : A → Checked) (o : option A) : Checked := match o with Some a => f a | None => Ok tt end.

Definition validate_report_page_limit (value : nat) (max : N) (field : string) : Checked :=
  let v := N.of_nat value in
  if (v =? 0) || (max <? v) then Err (mkWireError field ("value is " +:+ pretty v +:+ ", must be 1..=" +:+ pretty max)) else Ok tt.

(** What the libraries give: the length of a value's JSON ([to_vec], [Value::to_string]), and
    whether a text is a UUID. *)
Class WireLib := {
  to_vec : Value → Result string N;
  to_string : Value → N;
  parse_uuid : string → Result string Uuid }.

Section Validate.
Context {L : WireLib}.

(** ** JSON values *)

(** The walk over a value, with the count of the nodes seen so far. *)
Fixpoint walk (field : string) (depth : N) (v : Value) (node_count : N) : Result WireValidationError N :=
  if MAX_SURFACE_JSON_DEPTH <? depth
  then Err (mkWireError field ("JSON depth exceeds max " +:+ pretty MAX_SURFACE_JSON_DEPTH +:+ " (observed depth " +:+ pretty depth +:+ ")"))
  else
    let node_count := node_count + 1 in
    if MAX_SURFACE_JSON_NODES <? node_count
    then Err (mkWireError field ("JSON node count exceeds max " +:+ pretty MAX_SURFACE_JSON_NODES))
    else
      match v with
      | JArray items =>
          (fix go l n := match l with [] => Ok n | x :: l' => match walk field (depth + 1) x n with Ok n' => go l' n' | Err e => Err e end end)
            items node_count
      | JObject entries =>
          (fix go l n := match l with [] => Ok n | (_, x) :: l' => match walk field (depth + 1) x n with Ok n' => go l' n' | Err e => Err e end end)
            entries node_count
      | _ => Ok node_count
      end.
Definition validate_surface_json_bounds (v : Value) (field : string) : Checked :=
  match walk field 1 v 0 with Ok _ => Ok tt | Err e => Err e end.

(** A value that must serialize to at most [max] bytes. *)
Definition check_json_size (v : Value) (max : N) (field what is_ : string) : Checked :=
  match to_vec v with
  | Err e => Err (mkWireError field ("failed to serialize " +:+ what +:+ ": " +:+ e))
  | Ok n => if max <? n then Err (mkWireError field (is_ +:+ pretty n +:+ " bytes, max " +:+ pretty max)) else Ok tt
  end.
Definition check_json_text (v : Value) (max : N) (field : string) : Checked :=
  check_len "string is " (to_string v) max " bytes, max " field.

(** ** Surfaces *)

Definition check_method (m : option InteractionHttpMethod) (field : string) : Checked :=
  opt (λ m, check_string_len (method_str m) MAX_SHORT_STRING_LEN field) m.

Definition check_action_ref (a : ActionRef) : Checked :=
  all_ok [check_string_len (ar_interaction_id a) MAX_SHORT_STRING_LEN "surfaces[].descriptor.root_node.action_ids[]";
          check_method (ar_http_method a) "surfaces[].descriptor.root_node.action_ids[].http_method"].

Fixpoint validate_surface_node (node : SurfaceNode) (depth : N) : Checked :=
  if MAX_SURFACE_JSON_DEPTH <? depth
  then Err (mkWireError "surfaces[].descriptor.root_node"
              ("root node depth exceeds max " +:+ pretty MAX_SURFACE_JSON_DEPTH +:+ " (observed depth " +:+ pretty depth +:+ ")"))
  else
    let go := fix go (l : list SurfaceNode) : Checked :=
      match l with [] => Ok tt | x :: l' => match validate_surface_node x (depth + 1) with Ok _ => go l' | Err e => Err e end end in
    match node with
    | Section_ title header_action_ids children =>
        all_ok [check_opt_string_len title MAX_SHORT_STRING_LEN "surfaces[].descriptor.root_node.title";
                (if 3 <? llen header_action_ids
                 then Err (mkWireError "surfaces[].descriptor.root_node.header_action_ids"
                             ("section header_action_ids has " +:+ pretty (llen header_action_ids) +:+ " entries, max 3"))
                 else Ok tt);
                check_vec_len children MAX_SURFACE_FIELDS "surfaces[].descriptor.root_node.children";
                go children]
    | TextBlock text => check_string_len text MAX_MEDIUM_STRING_LEN "surfaces[].descriptor.root_node.text"
    | KeyValue _ | Table _ _ _ => Ok tt
    | Form _ method => check_method method "surfaces[].descriptor.root_node.http_method"
    | ActionBar action_ids =>
        all_ok [check_vec_len action_ids MAX_SURFACE_ACTION_REFS "surfaces[].descriptor.root_node.action_ids";
                each check_action_ref action_ids]
    | Tabs tabs =>
        all_ok [check_vec_len tabs MAX_SURFACE_COLUMNS "surfaces[].descriptor.root_node.tabs";
                (fix go_tabs (l : list (SurfaceTab SurfaceNode)) : Checked :=
                   match l with
                   | [] => Ok tt
                   | mkTab _ label root :: l' =>
                       match check_string_len label MAX_SHORT_STRING_LEN "surfaces[].descriptor.root_node.tabs[].label" with
                       | Ok _ => match validate_surface_node root (depth + 1) with Ok _ => go_tabs l' | Err e => Err e end
                       | Err e => Err e
                       end
                   end) tabs]
    | Callout _ text => check_string_len text MAX_MEDIUM_STRING_LEN "surfaces[].descriptor.root_node.callout"
    | EmptyState title description =>
        all_ok [check_string_len title MAX_SHORT_STRING_LEN "surfaces[].descriptor.root_node.empty_state.title";
                check_opt_string_len description MAX_MEDIUM_STRING_LEN "surfaces[].descriptor.root_node.empty_state.description"]
    | ModalTrigger _ method modal_nodes =>
        all_ok [check_method method "surfaces[].descriptor.root_node.http_method";
                check_vec_len modal_nodes MAX_SURFACE_FIELDS "surfaces[].descriptor.root_node.modal_nodes";
                go modal_nodes]
    | WorkflowTrigger _ step_nodes =>
        all_ok [check_vec_len step_nodes MAX_SURFACE_WIZARD_STEPS "surfaces[].descriptor.root_node.step_nodes";
                go step_nodes]
    end.

Definition check_icon (name field : string) : Checked :=
  match validate_icon_name name with Ok _ => Ok tt | Err e => Err (mkWireError field (display_icon_error e)) end.

Definition validate_surface_interaction (i : InteractionDescriptor) : Checked :=
  all_ok [check_opt_string_len (i_required_action i) MAX_SHORT_STRING_LEN "surfaces[].interactions[].required_action";
          check_vec_len (sensitive_fields i) MAX_SURFACE_FIELDS "surfaces[].interactions[].sensitive_fields";
          each (λ f, check_string_len f MAX_SHORT_STRING_LEN "surfaces[].interactions[].sensitive_fields[]") (sensitive_fields i);
          check_vec_len (params i) MAX_SURFACE_FIELDS "surfaces[].interactions[].params";
          each (λ f, check_string_len (param_key f) MAX_SHORT_STRING_LEN "surfaces[].interactions[].params[].key") (params i);
          check_string_len (method_str (http_method i)) MAX_SHORT_STRING_LEN "surfaces[].interactions[].http_method";
          opt (λ c, all_ok
            [check_string_len (conf_title c) MAX_SHORT_STRING_LEN "surfaces[].interactions[].confirmation.title";
             check_string_len (conf_message c) MAX_MEDIUM_STRING_LEN "surfaces[].interactions[].confirmation.message";
             check_opt_string_len (confirm_label c) MAX_SHORT_STRING_LEN "surfaces[].interactions[].confirmation.confirm_label";
             check_opt_string_len (cancel_label c) MAX_SHORT_STRING_LEN "surfaces[].interactions[].confirmation.cancel_label"]) (confirmation i);
          check_vec_len (workflow_steps i) MAX_SURFACE_WIZARD_STEPS "surfaces[].interactions[].workflow_steps";
          each (λ s, check_string_len (step_id s) MAX_SHORT_STRING_LEN "surfaces[].interactions[].workflow_steps[].step_id") (workflow_steps i);
          opt (λ n, check_icon n "surfaces[].interactions[].icon") (icon i)].

Definition validate_surface_data_source (d : DataSourceDescriptor) : Checked :=
  all_ok [match ds_kind d with
          | Static data =>
              all_ok [check_json_size data MAX_SURFACE_PARAMS_LEN "surfaces[].data_sources[].kind.static.data" "static data" "static data JSON is ";
                      validate_surface_json_bounds data "surfaces[].data_sources[].kind.static.data"]
          | ControllerQuery _ => Ok tt
          | ProviderQuery op => check_string_len op MAX_SHORT_STRING_LEN "surfaces[].data_sources[].kind.provider_query.operation_id"
          end;
          opt (λ p,
            if ((default_page_size p =? 0) || (max_page_size p =? 0))%Z
            then Err (mkWireError "surfaces[].data_sources[].pagination" "page size values must be greater than zero")
            else if (max_page_size p <? default_page_size p)%Z
            then Err (mkWireError "surfaces[].data_sources[].pagination" "default_page_size cannot exceed max_page_size")
            else Ok tt) (SurfaceTypes.pagination d);
          opt (λ s, all_ok
            [check_vec_len (sortable_fields s) MAX_SURFACE_COLUMNS "surfaces[].data_sources[].sorting.sortable_fields";
             each (λ f, check_string_len f MAX_SHORT_STRING_LEN "surfaces[].data_sources[].sorting.sortable_fields[]") (sortable_fields s);
             check_opt_string_len (default_sort_field s) MAX_SHORT_STRING_LEN "surfaces[].data_sources[].sorting.default_sort_field"]) (sorting d);
          opt (λ fs, all_ok
            [check_vec_len fs MAX_SURFACE_COLUMNS "surfaces[].data_sources[].filtering.filter_fields";
             each (λ f, check_string_len f MAX_SHORT_STRING_LEN "surfaces[].data_sources[].filtering.filter_fields[]") fs]) (filtering d);
          match refresh_policy d with
          | Interval seconds =>
              if (seconds =? 0)%Z
              then Err (mkWireError "surfaces[].data_sources[].refresh_policy.interval.seconds" "interval seconds must be greater than zero")
              else Ok tt
          | Manual | Sse _ => Ok tt
          end;
          opt (λ e, all_ok
            [check_string_len (es_title e) MAX_SHORT_STRING_LEN "surfaces[].data_sources[].empty_state.title";
             check_opt_string_len (es_description e) MAX_MEDIUM_STRING_LEN "surfaces[].data_sources[].empty_state.description"]) (empty_state d)].

Definition check_uuid (s field : string) : Checked :=
  match parse_uuid s with Ok _ => Ok tt | Err e => Err (mkWireError field ("invalid tenant UUID: " +:+ e)) end.

Definition check_tenant_binding (b : EffectiveTenantBinding) : Checked :=
  match b_scope b, b_tenant_id b with
  | TenantScope, None => Err (mkWireError "effective_tenant_binding.tenant_id" "tenant scope requires tenant_id")
  | _, Some t => check_uuid t "effective_tenant_binding.tenant_id"
  | Global, None => Ok tt
  end.

Definition validate_registered_surface (s : RegisteredSurface) : Checked :=
  let d := descriptor s in
  all_ok [check_string_len (d_label d) MAX_SHORT_STRING_LEN "surfaces[].descriptor.label";
          check_string_len (slot d) MAX_SHORT_STRING_LEN "surfaces[].descriptor.slot";
          check_opt_string_len (required_action d) MAX_SHORT_STRING_LEN "surfaces[].descriptor.required_action";
          opt (λ n, check_icon n "surfaces[].descriptor.nav_icon") (nav_icon d);
          check_vec_len (interactions s) MAX_SURFACE_ACTIONS "surfaces[].interactions";
          check_vec_len (data_sources s) MAX_SURFACE_FIELDS "surfaces[].data_sources";
          validate_surface_node (root_node d) 1;
          each validate_surface_interaction (interactions s);
          each validate_surface_data_source (data_sources s)].

Definition surface_registration (r : SurfaceRegistration) : Checked :=
  all_ok [check_string_len (provider_id (provider r)) MAX_SHORT_STRING_LEN "provider.provider_id";
          check_string_len (provider_namespace (provider r)) MAX_SHORT_STRING_LEN "provider.provider_namespace";
          check_opt_string_len (b_tenant_id (effective_tenant_binding r)) MAX_SHORT_STRING_LEN "effective_tenant_binding.tenant_id";
          check_tenant_binding (effective_tenant_binding r);
          check_vec_len (surfaces r) MAX_SURFACE_MANIFESTS "surfaces";
          opt (λ m, all_ok
            [check_string_len (key_id m) MAX_SHORT_STRING_LEN "encryption_metadata.key_id";
             check_string_len (public_key m) MAX_LONG_STRING_LEN "encryption_metadata.public_key"]) (encryption_metadata r);
          each validate_registered_surface (surfaces r)].

Definition check_caller (c : CallerOrigin) : Checked :=
  match c with
  | FromUser user session =>
      all_ok [check_string_len user MAX_SHORT_STRING_LEN "caller_origin.user_id";
              check_string_len session MAX_SHORT_STRING_LEN "caller_origin.session_id"]
  | FromSystem principal => check_string_len principal MAX_SHORT_STRING_LEN "caller_origin.principal"
  | FromProvider p => check_string_len p MAX_SHORT_STRING_LEN "caller_origin.provider_id"
  end.

Definition surface_action_request (r : SurfaceActionRequest) : Checked :=
  all_ok [check_string_len (ar_tenant_id r) MAX_SHORT_STRING_LEN "tenant_id";
          check_uuid (ar_tenant_id r) "tenant_id";
          check_string_len (ar_idempotency_key r) MAX_SHORT_STRING_LEN "idempotency_key";
          check_string_len (method_str (ar_method r)) MAX_SHORT_STRING_LEN "method";
          check_opt_string_len (ar_target_provider_id r) MAX_SHORT_STRING_LEN "target_provider_id";
          check_caller (ar_caller_origin r);
          check_json_size (JObject (ar_params r)) MAX_SURFACE_PARAMS_LEN "params" "params" "params JSON is ";
          validate_surface_json_bounds (JObject (ar_params r)) "params";
          opt (λ e, all_ok
            [check_string_len (enc_key_id e) MAX_SHORT_STRING_LEN "encrypted_sensitive_params.key_id";
             check_string_len (ciphertext_b64 e) MAX_LONG_STRING_LEN "encrypted_sensitive_params.ciphertext_b64"]) (ar_encrypted r)].

Definition surface_action_cancel (c : SurfaceActionCancel) : Checked :=
  check_string_len (ac_target_provider_id c) MAX_SHORT_STRING_LEN "target_provider_id".

Definition surface_action_error (e : SurfaceActionError) : Checked :=
  all_ok [check_string_len (err_message e) MAX_MEDIUM_STRING_LEN "error.message";
          opt (λ d, all_ok
            [check_json_size d MAX_SURFACE_RESPONSE_LEN "error.details" "details" "error details are ";
             validate_surface_json_bounds d "error.details"]) (details e)].
Definition surface_action_response (r : SurfaceActionResponse) : Checked :=
  all_ok [opt (λ v, all_ok
            [check_json_size v MAX_SURFACE_RESPONSE_LEN "result" "result" "response result is ";
             validate_surface_json_bounds v "result"]) (result r);
          opt surface_action_error (SurfaceProxy.error r)].

(** ** From a service *)

Definition enroll (p : EnrollPayload) : Checked :=
  all_ok [check_string_len (en_hostname p) MAX_SHORT_STRING_LEN "hostname";
          check_string_len (en_friendly_name p) MAX_SHORT_STRING_LEN "friendly_name";
          check_string_len (en_service_app_name p) MAX_SHORT_STRING_LEN "service_app_name"].
Definition request_certificate (p : RequestCertificatePayload) : Checked := check_string_len (rq_csr_pem p) MAX_LONG_STRING_LEN "csr_pem".
Definition renew_certificate (p : RenewCertificatePayload) : Checked := check_string_len (rn_csr_pem p) MAX_LONG_STRING_LEN "csr_pem".

Definition host_info (h : HostInfo) : Checked :=
  all_ok [check_string_len (hi_machine_id h) MAX_SHORT_STRING_LEN "machine_id";
          check_opt_string_len (hi_os_type h) MAX_SHORT_STRING_LEN "os_type";
          check_opt_string_len (hi_os_version h) MAX_SHORT_STRING_LEN "os_version";
          check_opt_string_len (hi_architecture h) MAX_SHORT_STRING_LEN "architecture";
          check_opt_string_len (hi_hostname h) MAX_SHORT_STRING_LEN "hostname";
          check_opt_string_len (hi_ip_address h) MAX_SHORT_STRING_LEN "ip_address"].
Definition report_hosts (p : ReportHosts) : Checked :=
  all_ok [check_vec_len (rh_hosts p) MAX_REPORT_HOSTS "hosts";
          check_string_len (agent_version p) MAX_SHORT_STRING_LEN "agent_version";
          each host_info (rh_hosts p)].

Definition version_check_result (r : VersionCheckResult) : Checked :=
  all_ok [check_opt_string_len (vr_installed_version r) MAX_SHORT_STRING_LEN "installed_version";
          check_opt_string_len (vr_latest_version r) MAX_SHORT_STRING_LEN "latest_version";
          check_opt_string_len (vr_error r) MAX_MEDIUM_STRING_LEN "error"].
Definition version_check_results (p : VersionCheckResults) : Checked :=
  all_ok [check_vec_len (vc_results p) MAX_VERSION_CHECK_RESULTS "results"; each version_check_result (vc_results p)].

Definition update_started (p : UpdateStartedPayload) : Checked := check_opt_string_len (us_from_version p) MAX_SHORT_STRING_LEN "from_version".
Definition update_output (p : UpdateOutputPayload) : Checked := check_string_len (uo_output p) MAX_OUTPUT_STRING_LEN "output".
Definition update_result (p : UpdateResultPayload) : Checked :=
  all_ok [check_string_len (ur_output p) MAX_OUTPUT_STRING_LEN "output";
          check_opt_string_len (ur_from_version p) MAX_SHORT_STRING_LEN "from_version";
          check_opt_string_len (ur_to_version p) MAX_SHORT_STRING_LEN "to_version";
          check_opt_string_len (ur_error p) MAX_MEDIUM_STRING_LEN "error"].

Definition batch_update_item_result (r : BatchUpdateItemResult) : Checked :=
  all_ok [check_string_len (br_output r) MAX_OUTPUT_STRING_LEN "output";
          check_opt_string_len (br_installed_version r) MAX_SHORT_STRING_LEN "installed_version";
          check_opt_string_len (br_error r) MAX_MEDIUM_STRING_LEN "error"].
Definition batch_update_result (p : BatchUpdateResult) : Checked :=
  all_ok [check_vec_len (bu_results p) MAX_BATCH_UPDATE_RESULTS "results"; each batch_update_item_result (bu_results p)].

Definition discovered_software (d : DiscoveredSoftware) : Checked :=
  all_ok [check_string_len (ds_package_identifier d) MAX_SHORT_STRING_LEN "package_identifier";
          check_string_len (ds_name d) MAX_SHORT_STRING_LEN "name";
          check_string_len (ds_installed_version d) MAX_SHORT_STRING_LEN "installed_version";
          check_opt_string_len (ds_qualifier d) MAX_DISCOVERED_QUALIFIER_LEN "qualifier";
          check_opt_string_len (ds_plugin_package_identifier d) MAX_SHORT_STRING_LEN "plugin_package_identifier"].
Definition discovery_plugin_result (r : DiscoveryResult) : Checked :=
  all_ok [check_vec_len (discoveries r) MAX_DISCOVERIES "discoveries";
          check_opt_string_len (Paginate.error r) MAX_MEDIUM_STRING_LEN "error";
          each discovered_software (discoveries r)].
Definition discovery_results (p : DiscoveryResults) : Checked :=
  all_ok [check_string_len (host_machine_id p) MAX_SHORT_STRING_LEN "host_machine_id";
          check_vec_len (dr_results p) MAX_DISCOVERY_PLUGIN_RESULTS "results";
          each discovery_plugin_result (dr_results p)].

Definition service_update_trigger (p : ServiceUpdateTriggerPayload) : Checked := check_string_len (ut_to_version p) MAX_SHORT_STRING_LEN "to_version".
Definition stdin_attention (p : StdinAttentionPayload) : Checked := check_opt_string_len (sa_hint p) MAX_MEDIUM_STRING_LEN "hint".
Definition disconnecting (p : DisconnectingPayload) : Checked := Ok tt.
Definition register (p : RegisterPayload) : Checked := Ok tt.
Definition report_plugin_config (p : ReportPluginConfigPayload) : Checked :=
  all_ok [check_string_len (pc_request_id p) MAX_SHORT_STRING_LEN "request_id";
          check_string_len (pc_plugin_type p) MAX_SHORT_STRING_LEN "plugin_type";
          check_string_len (pc_name p) MAX_SHORT_STRING_LEN "name";
          check_json_text (pc_config p) MAX_PLUGIN_CONFIG_JSON_LEN "config"].
Definition store_service_config (p : StoreServiceConfigPayload) : Checked :=
  all_ok [check_string_len (st_request_id p) MAX_SHORT_STRING_LEN "request_id";
          check_string_len (st_key p) MAX_SHORT_STRING_LEN "key";
          check_json_text (st_value p) MAX_SERVICE_CONFIG_VALUE_LEN "value"].
Definition delete_service_config (p : DeleteServiceConfigPayload) : Checked :=
  all_ok [check_string_len (dl_request_id p) MAX_SHORT_STRING_LEN "request_id";
          check_string_len (dl_key p) MAX_SHORT_STRING_LEN "key"].

(** The keys of a map and the elements of a set. All carry the same limit and field, so their
    order decides only whose length the message of an error gives. *)
Definition each_key {A} (m : gmap string A) (field : string) : Checked :=
  each (λ k, check_string_len k MAX_SHORT_STRING_LEN field) (map_to_list m).*1.
Definition each_element (s : gset string) (field : string) : Checked :=
  each (λ k, check_string_len k MAX_SHORT_STRING_LEN field) (elements s).

Definition workload_claim (p : WorkloadClaimPayload) : Checked :=
  all_ok [check_map_len (wc_claims p) MAX_WORKLOAD_CLAIM_KEYS "claims"; each_key (wc_claims p) "claims[key]"].
Definition workload_release (p : WorkloadReleasePayload) : Checked :=
  all_ok [check_set_len (wr_keys p) MAX_WORKLOAD_CLAIM_KEYS "keys"; each_element (wr_keys p) "keys[key]"].
Definition test_plugin_config_result (p : TestPluginConfigResultPayload) : Checked :=
  all_ok [check_string_len (tr_request_id p) MAX_SHORT_STRING_LEN "request_id";
          check_opt_string_len (tr_output p) MAX_CONFIG_TEST_OUTPUT_LEN "output";
          check_opt_string_len (tr_error p) MAX_MEDIUM_STRING_LEN "error";
          check_opt_string_len (tr_detected_version p) MAX_SHORT_STRING_LEN "detected_version"].

Definition service_message (m : ServiceMessage) : Checked :=
  match m with
  | SPing _ => Ok tt
  | SRegister _ => Ok tt
  | SEnroll p => enroll p
  | SRequestCertificate p => request_certificate p
  | SRenewCertificate p => renew_certificate p
  | SReportHosts p => report_hosts p
  | SVersionCheckResults p => version_check_results p
  | SUpdateStarted p => update_started p
  | SUpdateOutput p => update_output p
  | SUpdateResult p => update_result p
  | SBatchUpdateResult p => batch_update_result p
  | SDiscoveryResults p => discovery_results p
  | SStdinAttention p => stdin_attention p
  | SServiceTriggerUpdate p => service_update_trigger p
  | SServiceTriggerHostBatchUpdate _ => Ok tt
  | SDisconnecting p => disconnecting p
  | SReportPluginConfig p => report_plugin_config p
  | SSurfaceRegistration p => surface_registration p
  | SSurfaceActionResponse p => surface_action_response p
  | SSurfaceActionRequest p => surface_action_request p
  | SStoreServiceConfig p => store_service_config p
  | SDeleteServiceConfig p => delete_service_config p
  | SWorkloadClaim p => workload_claim p
  | SWorkloadRelease p => workload_release p
  | STestPluginConfigResult p => test_plugin_config_result p
  | SAuditEvent _ => Ok tt
  | SUnknown => Ok tt
  end.

(** ** From a controller *)

Definition certificate (p : CertificatePayload) : Checked := check_string_len (ce_cert_pem p) MAX_LONG_STRING_LEN "cert_pem".
Definition error_payload (p : ErrorPayload) : Checked := check_string_len (ep_message p) MAX_MEDIUM_STRING_LEN "message".
Definition report_page_limits (l : ReportPageLimits) : Checked :=
  all_ok [validate_report_page_limit (lim_report_hosts l) MAX_REPORT_HOSTS "report_page_limits.report_hosts";
          validate_report_page_limit (lim_version_check_results l) MAX_VERSION_CHECK_RESULTS "report_page_limits.version_check_results";
          validate_report_page_limit (lim_discovery_results l) MAX_DISCOVERY_PLUGIN_RESULTS "report_page_limits.discovery_results";
          validate_report_page_limit (lim_batch_update_results l) MAX_BATCH_UPDATE_RESULTS "report_page_limits.batch_update_results"].
Definition service_settings (p : ServiceSettingsPayload) : Checked :=
  all_ok [check_string_len (se_ca_bundle_hash p) MAX_SHORT_STRING_LEN "ca_bundle_hash";
          check_opt_string_len (se_instance_host p) MAX_SHORT_STRING_LEN "instance_host";
          report_page_limits (se_report_page_limits p)].
Definition ca_bundle_updated (p : CaBundleUpdatedPayload) : Checked := check_string_len (cb_ca_bundle_pem p) MAX_LONG_STRING_LEN "ca_bundle_pem".
Definition request_cert_renewal (p : RequestCertRenewalPayload) : Checked := check_string_len (cr_reason p) MAX_MEDIUM_STRING_LEN "reason".
Definition server_restarting (p : ServerRestartingPayload) : Checked := check_string_len (sr_reason p) MAX_MEDIUM_STRING_LEN "reason".

Definition plugin_assignment (p : PluginAssignment) : Checked :=
  check_string_len (pa_package_identifier p) MAX_SHORT_STRING_LEN "package_identifier".
Definition version_check_assignment (a : VersionCheckAssignment) : Checked :=
  all_ok [check_string_len (va_name a) MAX_SHORT_STRING_LEN "name";
          opt plugin_assignment (va_detect_version a);
          opt plugin_assignment (va_fetch_releases a)].
Definition check_versions (p : CheckVersionsPayload) : Checked :=
  all_ok [check_string_len (cv_host_machine_id p) MAX_SHORT_STRING_LEN "host_machine_id";
          check_vec_len (cv_assignments p) MAX_VERSION_CHECK_ASSIGNMENTS "assignments";
          each version_check_assignment (cv_assignments p)].

Definition is_hexdigit (c : ascii) : bool :=
  let n := N_of_ascii c in ((48 <=? n) && (n <=? 57)) || ((65 <=? n) && (n <=? 70)) || ((97 <=? n) && (n <=? 102)).
Definition release_asset (a : ReleaseAsset) : Checked :=
  all_ok [check_string_len (as_name a) MAX_SHORT_STRING_LEN "asset.name";
          check_string_len (download_url a) MAX_MEDIUM_STRING_LEN "asset.download_url";
          opt (λ d, if negb (slen d =? SHA256_DIGEST_LEN) || negb (all_chars is_hexdigit d)
                    then Err (mkWireError "asset.sha256_digest" ("expected " +:+ pretty SHA256_DIGEST_LEN +:+ " hex chars, got " +:+ pretty (slen d)))
                    else Ok tt) (sha256_digest a)].
Definition release_info (r : ReleaseInfo) : Checked :=
  all_ok [check_string_len (tag r) MAX_SHORT_STRING_LEN "release_info.tag";
          check_string_len (release_url r) MAX_MEDIUM_STRING_LEN "release_info.release_url";
          check_vec_len (assets r) MAX_RELEASE_ASSETS "release_info.assets";
          each release_asset (assets r)].

Definition execute_update (p : ExecuteUpdatePayload) : Checked :=
  all_ok [check_string_len (eu_host_machine_id p) MAX_SHORT_STRING_LEN "host_machine_id";
          check_string_len (eu_software_item_name p) MAX_SHORT_STRING_LEN "software_item_name";
          check_string_len (eu_to_version p) MAX_SHORT_STRING_LEN "to_version";
          check_vec_len (eu_pre_update_hook_plugins p) MAX_UPDATE_HOOKS "pre_update_hook_plugins";
          check_vec_len (eu_post_update_hook_plugins p) MAX_UPDATE_HOOKS "post_update_hook_plugins";
          plugin_assignment (eu_execute_update_plugin p);
          opt plugin_assignment (eu_detect_version_plugin p);
          opt release_info (eu_release_info p);
          each plugin_assignment (eu_pre_update_hook_plugins p);
          each plugin_assignment (eu_post_update_hook_plugins p)].
Definition batch_update_item (i : BatchUpdateItem) : Checked :=
  all_ok [check_string_len (bi_package_identifier i) MAX_SHORT_STRING_LEN "package_identifier";
          check_string_len (bi_to_version i) MAX_SHORT_STRING_LEN "to_version"].
Definition execute_batch_update (p : ExecuteBatchUpdatePayload) : Checked :=
  all_ok [check_string_len (eb_host_machine_id p) MAX_SHORT_STRING_LEN "host_machine_id";
          check_vec_len (eb_updates p) MAX_BATCH_UPDATES "updates";
          check_vec_len (eb_pre_update_hook_plugins p) MAX_UPDATE_HOOKS "pre_update_hook_plugins";
          check_vec_len (eb_post_update_hook_plugins p) MAX_UPDATE_HOOKS "post_update_hook_plugins";
          each batch_update_item (eb_updates p);
          each plugin_assignment (eb_pre_update_hook_plugins p);
          each plugin_assignment (eb_post_update_hook_plugins p)].
Definition discover_software (p : DiscoverSoftwarePayload) : Checked :=
  all_ok [check_string_len (di_host_machine_id p) MAX_SHORT_STRING_LEN "host_machine_id";
          check_vec_len (di_plugins p) MAX_DISCOVERY_PLUGINS "plugins"].
Definition set_update_freeze (p : SetUpdateFreezePayload) : Checked := check_opt_string_len (uf_reason p) MAX_MEDIUM_STRING_LEN "reason".
Definition update_stdin_data (p : UpdateStdinDataPayload) : Checked := check_string_len (sd_data p) MAX_STDIN_DATA_LEN "data".

Definition software_state_host_entry (e : SoftwareStateHostEntry) : Checked :=
  all_ok [check_string_len (sh_hostname e) MAX_SHORT_STRING_LEN "hostname";
          check_string_len (sh_friendly_name e) MAX_SHORT_STRING_LEN "friendly_name";
          check_opt_string_len (sh_installed_version e) MAX_SHORT_STRING_LEN "installed_version";
          check_opt_string_len (sh_latest_version e) MAX_SHORT_STRING_LEN "latest_version";
          check_opt_string_len (sh_release_url e) MAX_MEDIUM_STRING_LEN "release_url";
          check_opt_string_len (sh_release_notes e) MAX_LONG_STRING_LEN "release_notes";
          check_opt_string_len (sh_update_category e) MAX_SHORT_STRING_LEN "update_category";
          check_opt_string_len (sh_release_date e) MAX_SHORT_STRING_LEN "release_date";
          check_opt_string_len (sh_last_checked_at e) MAX_SHORT_STRING_LEN "last_checked_at"].
Definition software_state_item (i : SoftwareStateItem) : Checked :=
  all_ok [check_string_len (si_name i) MAX_SHORT_STRING_LEN "name";
          check_opt_string_len (si_icon_url i) MAX_ICON_URL_LEN "icon_url";
          check_vec_len (si_hosts i) MAX_SOFTWARE_STATE_HOSTS "hosts";
          each software_state_host_entry (si_hosts i)].
Definition host_package_summary (h : HostPackageSummary) : Checked :=
  all_ok [check_string_len (hs_hostname h) MAX_SHORT_STRING_LEN "hostname";
          check_string_len (hs_friendly_name h) MAX_SHORT_STRING_LEN "friendly_name"].
Definition host_state_metadata (h : HostStateMetadata) : Checked :=
  all_ok [check_string_len (hm_hostname h) MAX_SHORT_STRING_LEN "hostname";
          check_string_len (hm_friendly_name h) MAX_SHORT_STRING_LEN "friendly_name";
          check_opt_string_len (hm_os_type h) MAX_SHORT_STRING_LEN "os_type";
          check_opt_string_len (hm_os_version h) MAX_SHORT_STRING_LEN "os_version";
          check_opt_string_len (hm_architecture h) MAX_SHORT_STRING_LEN "architecture";
          check_vec_len (hm_tags h) MAX_HOST_TAGS "tags";
          each (λ t, check_string_len t MAX_SHORT_STRING_LEN "tags[]") (hm_tags h);
          check_opt_string_len (hm_agent_version h) MAX_SHORT_STRING_LEN "agent_version";
          check_opt_string_len (hm_agent_last_seen_at h) MAX_SHORT_STRING_LEN "agent_last_seen_at"].
Definition software_states (p : SoftwareStatesPayload) : Checked :=
  let pg := ss_page p in
  all_ok [(if sp_total_pages pg <? 1 then Err (mkWireError "page.total_pages" "total_pages must be at least 1") else Ok tt);
          (if sp_total_pages pg <=? sp_page_index pg
           then Err (mkWireError "page.page_index"
                       ("page_index " +:+ pretty (sp_page_index pg) +:+ " must be less than total_pages " +:+ pretty (sp_total_pages pg)))
           else Ok tt);
          check_vec_len (ss_items p) MAX_SOFTWARE_STATE_ITEMS "items";
          check_vec_len (ss_host_summaries p) MAX_HOST_PACKAGE_HOST_STATES "host_summaries";
          check_vec_len (ss_hosts p) MAX_MQTT_HOSTS "hosts";
          each software_state_item (ss_items p);
          each host_package_summary (ss_host_summaries p);
          each host_state_metadata (ss_hosts p)].
Definition host_connectivity_updated (p : HostConnectivityUpdatedPayload) : Checked :=
  all_ok [check_vec_len (cu_updates p) MAX_CONNECTIVITY_UPDATES "updates";
          each (λ u, all_ok [check_opt_string_len (hc_last_seen_at u) MAX_SHORT_STRING_LEN "last_seen_at";
                             check_opt_string_len (hc_agent_version u) MAX_SHORT_STRING_LEN "agent_version"]) (cu_updates p)].
Definition report_plugin_config_response (p : ReportPluginConfigResponsePayload) : Checked :=
  all_ok [check_string_len (pr_request_id p) MAX_SHORT_STRING_LEN "request_id";
          check_opt_string_len (pr_error p) MAX_MEDIUM_STRING_LEN "error"].
Definition request_ca_rotation (p : RequestCaRotationPayload) : Checked := check_string_len (rc_reason p) MAX_MEDIUM_STRING_LEN "reason".

Definition service_config_entry (e : ServiceConfigEntry) : Checked :=
  all_ok [check_string_len (ce_key e) MAX_SHORT_STRING_LEN "key"; check_json_text (ce_value e) MAX_SERVICE_CONFIG_VALUE_LEN "value"].
Definition service_config_key (k : ServiceConfigKey) : Checked := check_string_len (ck_key k) MAX_SHORT_STRING_LEN "key".
Definition service_config_delivery (p : ServiceConfigDeliveryPayload) : Checked :=
  all_ok [check_vec_len (cd_entries p) MAX_SERVICE_CONFIG_ENTRIES "entries";
          each (λ e, match service_config_entry e with Ok _ => Ok tt | Err x => Err (mkWireError "entries[i]" (message x)) end) (cd_entries p)].
Definition service_config_ack (p : ServiceConfigAckPayload) : Checked :=
  all_ok [check_string_len (ca_request_id p) MAX_SHORT_STRING_LEN "request_id";
          check_opt_string_len (ca_error p) MAX_MEDIUM_STRING_LEN "error"].
Definition service_config_updated (p : ServiceConfigUpdatedPayload) : Checked :=
  all_ok [check_vec_len (cg_changed p) MAX_SERVICE_CONFIG_ENTRIES "changed";
          check_vec_len (cg_deleted p) MAX_SERVICE_CONFIG_ENTRIES "deleted";
          each service_config_entry (cg_changed p);
          each service_config_key (cg_deleted p)].

Definition workload_claim_result (p : WorkloadClaimResultPayload) : Checked :=
  all_ok [check_set_len (cl_granted p) MAX_WORKLOAD_CLAIM_KEYS "granted";
          check_set_len (cl_rejected p) MAX_WORKLOAD_CLAIM_KEYS "rejected";
          each_element (cl_granted p) "granted[key]";
          each_element (cl_rejected p) "rejected[key]"].
Definition workload_claim_announcement (p : WorkloadClaimAnnouncementPayload) : Checked :=
  all_ok [check_map_len (wa_claimed p) MAX_WORKLOAD_CLAIM_KEYS "claimed";
          check_set_len (wa_released p) MAX_WORKLOAD_CLAIM_KEYS "released";
          check_string_len (wa_claimed_at p) MAX_SHORT_STRING_LEN "claimed_at";
          each_key (wa_claimed p) "claimed[key]";
          each_element (wa_released p) "released[key]"].
Definition workload_claim_sync_response (p : WorkloadClaimSyncResponsePayload) : Checked :=
  all_ok [check_map_len (ws_claims p) MAX_WORKLOAD_CLAIM_KEYS "claims";
          each (λ kv, all_ok [check_string_len kv.1 MAX_SHORT_STRING_LEN "claims[key]";
                              check_string_len (wy_claimed_at kv.2) MAX_SHORT_STRING_LEN "claims[].claimed_at"])
            (map_to_list (ws_claims p))].
Definition test_plugin_config (p : TestPluginConfigPayload) : Checked :=
  all_ok [check_string_len (tc_request_id p) MAX_SHORT_STRING_LEN "request_id";
          check_string_len (tc_host_machine_id p) MAX_SHORT_STRING_LEN "host_machine_id";
          check_string_len (tc_plugin_type p) MAX_SHORT_STRING_LEN "plugin_type";
          check_opt_string_len (tc_package_identifier p) MAX_SHORT_STRING_LEN "package_identifier";
          check_json_text (tc_config p) MAX_PLUGIN_CONFIG_JSON_LEN "config"].
Definition access_invalidated (p : AccessInvalidatedPayload) : Checked :=
  all_ok [check_vec_len (ai_user_ids p) MAX_ACCESS_INVALIDATION_IDS "user_ids";
          check_vec_len (ai_role_ids p) MAX_ACCESS_INVALIDATION_IDS "role_ids"].

Definition controller_message (m : ControllerMessage) : Checked :=
  match m with
  | CPong _ | CEnrolled _ | CApproved _ | CRejected _ => Ok tt
  | CCertificate p => certificate p
  | CError p => error_payload p
  | CServiceSettings p => service_settings p
  | CCaBundleUpdated p => ca_bundle_updated p
  | CRequestCertRenewal p => request_cert_renewal p
  | CServerRestarting p => server_restarting p
  | CCheckVersions p => check_versions p
  | CExecuteUpdate p => execute_update p
  | CExecuteBatchUpdate p => execute_batch_update p
  | CDiscoverSoftware p => discover_software p
  | CSetUpdateFreeze p => set_update_freeze p
  | CUpdateStdinData p => update_stdin_data p
  | CSoftwareStates p => software_states p
  | CHostConnectivityUpdated p => host_connectivity_updated p
  | CReportPluginConfigResponse p => report_plugin_config_response p
  | CSurfaceActionRequest p => surface_action_request p
  | CSurfaceActionCancel p => surface_action_cancel p
  | CSurfaceActionResponse p => surface_action_response p
  | CServiceCredentials _ => Ok tt
  | CServiceConfigDelivery p => service_config_delivery p
  | CServiceConfigAck p => service_config_ack p
  | CServiceConfigUpdated p => service_config_updated p
  | CRequestCaRotation p => request_ca_rotation p
  | CRequestCrlRenewal => Ok tt
  | CTokenRevoked _ => Ok tt
  | CAccessInvalidated p => access_invalidated p
  | CWorkloadClaimResult p => workload_claim_result p
  | CWorkloadClaimAnnouncement p => workload_claim_announcement p
  | CWorkloadClaimSyncRequest _ => Ok tt
  | CWorkloadClaimSyncResponse p => workload_claim_sync_response p
  | CTestPluginConfig p => test_plugin_config p
  | CResetData | CSoftwareStatesChanged _ | CBroadcastAdminEvent _ | CUnknown => Ok tt
  end.
End Validate.
End WireCheck.
