(* ===== verification/WireTheorems.v ===== *)
(** Validation of wire payloads: the bounds on JSON values are exactly those of the value's depth
    and number of nodes, the pages of a report pass the validation of their receiver, and what the
    validation does not look at. *)

From Stdlib Require Import Ascii.
From stdpp Require Import base list gmap sets strings numbers pretty.
From S2P Require Import Prelude RustStr Json ReportTracker Paginate SurfaceTypes SurfaceRegistry SurfaceProxy WirePayloads WireValidate.

Module WireFacts.
Import Wire WireCheck.

(** ** Checks *)

Lemma all_ok_ok l : all_ok l = Ok tt ↔ Forall (λ r, r = Ok tt) l.
Proof.
  induction l as [|[[]|e] l IH]; simpl; [done|rewrite IH; by rewrite List.Forall_cons_iff; intuition|].
  split; [done|]. by intros [? _]%List.Forall_cons_iff.
Qed.
Lemma each_ok {A} (f : A → Checked) l : each f l = Ok tt ↔ Forall (λ a, f a = Ok tt) l.
Proof. unfold each. rewrite all_ok_ok. apply Forall_fmap. Qed.
Lemma check_len_ok what n max u field : check_len what n max u field = Ok tt ↔ (n ≤ max)%N.
Proof. unfold check_len. destruct (N.ltb_spec max n); split; intros; [done|lia|done|done]. Qed.

(** ** JSON values *)

Section Values.
Local Open Scope N_scope.

Definition sum_with {A} (f : A → N) (l : list A) : N := foldr (λ a n, f a + n) 0 l.
Definition max_with {A} (f : A → N) (l : list A) : N := foldr (λ a n, N.max (f a) n) 0 l.

(** The nodes of a value, and its depth: a scalar or an empty collection has depth 1. *)
Fixpoint json_nodes (v : Value) : N :=
  match v with
  | JArray l => 1 + sum_with json_nodes l
  | JObject l => 1 + sum_with (λ kv, json_nodes kv.2) l
  | _ => 1
  end.
Fixpoint json_height (v : Value) : N :=
  match v with
  | JArray l => 1 + max_with json_height l
  | JObject l => 1 + max_with (λ kv, json_height kv.2) l
  | _ => 1
  end.

Section ValueInd.
Context (P : Value → Prop) (Hnull : P JNull) (Hbool : ∀ b, P (JBool b)) (Hnum : ∀ n, P (JNumber n)) (Hstr : ∀ s, P (JString s))
  (Harr : ∀ l, Forall P l → P (JArray l)) (Hobj : ∀ l, Forall (λ kv, P kv.2) l → P (JObject l)).
Fixpoint value_ind' (v : Value) : P v :=
  match v with
  | JNull => Hnull
  | JBool b => Hbool b
  | JNumber n => Hnum n
  | JString s => Hstr s
  | JArray l => Harr l ((fix go l : Forall P l := match l with [] => List.Forall_nil _ | x :: l' => List.Forall_cons _ _ _ (value_ind' x) (go l') end) l)
  | JObject l => Hobj l ((fix go l : Forall (λ kv, P kv.2) l :=
      match l with [] => List.Forall_nil _ | kv :: l' => List.Forall_cons _ _ _ (value_ind' kv.2) (go l') end) l)
  end.
End ValueInd.

(** What the walk over a value does: it adds the nodes of the value to the count, if neither
    bound is exceeded. *)
Definition walks (f : N → Result WireValidationError N) (depth height nodes : N) : Prop :=
  ∀ n m, f n = Ok m ↔ depth + height ≤ MAX_SURFACE_JSON_DEPTH + 1 ∧ n + nodes ≤ MAX_SURFACE_JSON_NODES ∧ m = n + nodes.

Fixpoint walk_list {A} (f : A → N → Result WireValidationError N) (l : list A) (n : N) : Result WireValidationError N :=
  match l with [] => Ok n | x :: l' => match f x n with Ok n' => walk_list f l' n' | Err e => Err e end end.

Lemma walk_list_ok {A} (f : A → N → Result WireValidationError N) depth (height nodes : A → N) l :
  Forall (λ a, walks (f a) depth (height a) (nodes a)) l → depth ≤ MAX_SURFACE_JSON_DEPTH + 1 →
  ∀ n m, n ≤ MAX_SURFACE_JSON_NODES →
    walk_list f l n = Ok m ↔ depth + max_with height l ≤ MAX_SURFACE_JSON_DEPTH + 1 ∧
                             n + sum_with nodes l ≤ MAX_SURFACE_JSON_NODES ∧ m = n + sum_with nodes l.
Proof.
  induction 1 as [|a l Ha Hl IH]; intros Hd n m Hn; simpl.
  - split; [intros [= <-]; lia|]. intros (_ & _ & ->). by rewrite N.add_0_r.
  - destruct (f a n) as [n'|e] eqn:E.
    + apply Ha in E as (Hh & Hc & ->). rewrite IH by lia. lia.
    + split; [done|]. intros (Hh & Hc & ->). exfalso.
      assert (f a n = Ok (n + nodes a)) as E' by (apply Ha; lia). congruence.
Qed.

Lemma walk_ok field v depth : walks (walk field depth v) depth (json_height v) (json_nodes v).
Proof.
  revert depth. induction v as [|b|num|str|l IH|l IH] using value_ind'; intros depth n m.
  1-4: cbn [walk json_height json_nodes];
    destruct (N.ltb_spec MAX_SURFACE_JSON_DEPTH depth); [split; [done|lia]|];
    destruct (N.ltb_spec MAX_SURFACE_JSON_NODES (n + 1)); [split; [done|lia]|];
    split; [intros [= <-]; lia|intros (_ & _ & ->); done].
  - assert (∀ l' k, (fix go (l : list Value) n := match l with [] => Ok n | x :: l' =>
        match walk field (depth + 1) x n with Ok n' => go l' n' | Err e => Err e end end) l' k =
      walk_list (walk field (depth + 1)) l' k) as Hgo.
    { induction l' as [|x l' IHl]; intros k; [done|]. simpl. destruct (walk field (depth + 1) x k); [apply IHl|done]. }
    cbn [walk json_height json_nodes]. rewrite Hgo.
    destruct (N.ltb_spec MAX_SURFACE_JSON_DEPTH depth); [split; [done|lia]|].
    destruct (N.ltb_spec MAX_SURFACE_JSON_NODES (n + 1)); [split; [done|lia]|].
    rewrite (walk_list_ok _ (depth + 1) json_height json_nodes); [lia| |lia|lia].
    eapply list.Forall_impl; [exact IH|]. intros x Hx. apply Hx.
  - assert (∀ l' k, (fix go (l : list (string * Value)) n := match l with [] => Ok n | (_, x) :: l' =>
        match walk field (depth + 1) x n with Ok n' => go l' n' | Err e => Err e end end) l' k =
      walk_list (λ kv, walk field (depth + 1) kv.2) l' k) as Hgo.
    { induction l' as [|[s x] l' IHl]; intros k; [done|]. simpl. destruct (walk field (depth + 1) x k); [apply IHl|done]. }
    cbn [walk json_height json_nodes]. rewrite Hgo.
    destruct (N.ltb_spec MAX_SURFACE_JSON_DEPTH depth); [split; [done|lia]|].
    destruct (N.ltb_spec MAX_SURFACE_JSON_NODES (n + 1)); [split; [done|lia]|].
    rewrite (walk_list_ok _ (depth + 1) (λ kv, json_height kv.2) (λ kv, json_nodes kv.2)); [lia| |lia|lia].
    eapply list.Forall_impl; [exact IH|]. intros x Hx. apply Hx.
Qed.

(** C28: the bounds on a JSON value are exact. The walk, which stops at the first node that is too
    deep or one too many, accepts a value exactly when it is at most 32 levels deep and has at
    most 20,000 nodes; so the order of the traversal, and where it stops, do not matter. *)
Theorem json_bounds_exact v field :
  validate_surface_json_bounds v field = Ok tt ↔
  json_height v ≤ MAX_SURFACE_JSON_DEPTH ∧ json_nodes v ≤ MAX_SURFACE_JSON_NODES.
Proof.
  unfold validate_surface_json_bounds. pose proof (walk_ok field v 1 0) as Hw.
  destruct (walk field 1 v 0) as [m|e].
  - destruct (proj1 (Hw m) eq_refl) as (? & ? & ?). split; [intros _; lia|done].
  - split; [done|]. intros [Hh Hn]. exfalso.
    assert (Err e = Ok (json_nodes v) :> Result WireValidationError N) as E by (apply Hw; lia). done.
Qed.
End Values.

(** ** Surface nodes *)

(** An accepted tree is at most 32 levels deep; the registry, which measures the depth of what it
    stores, agrees. *)
Lemma accepted_children node depth :
  validate_surface_node node depth = Ok tt →
  (depth ≤ MAX_SURFACE_JSON_DEPTH)%N ∧ Forall (λ c, validate_surface_node c (depth + 1) = Ok tt) (node_children node).
Proof.
  assert (∀ l, (fix go (l : list SurfaceNode) : Checked := match l with [] => Ok tt | x :: l' =>
      match validate_surface_node x (depth + 1) with Ok _ => go l' | Err e => Err e end end) l = Ok tt →
      Forall (λ c, validate_surface_node c (depth + 1) = Ok tt) l) as Hgo.
  { induction l as [|x l IH]; [done|]. destruct (validate_surface_node x (depth + 1)) as [[]|] eqn:Hx; [|done]. intros Hl.
    constructor; [done|by apply IH]. }
  destruct node as [ti ha ch|tx|ds|ds cs ra|f m|acts|tabs|lv tx|ti de|f m ch|f ch]; cbn [validate_surface_node node_children];
    destruct (N.ltb_spec MAX_SURFACE_JSON_DEPTH depth); try done; intros Hv; split; try done.
  - apply all_ok_ok in Hv. rewrite !List.Forall_cons_iff in Hv. destruct Hv as (_ & _ & _ & Hv & _). by apply Hgo.
  - apply all_ok_ok in Hv. rewrite !List.Forall_cons_iff in Hv. destruct Hv as (_ & Hv & _). rewrite Forall_fmap.
    induction tabs as [|[i la r] tabs IH]; [constructor|]. simpl in Hv.
    destruct (check_string_len la _ _); [|done]. destruct (validate_surface_node r (depth + 1)) as [[]|] eqn:Hr; [|done].
    constructor; [done|by apply IH].
  - apply all_ok_ok in Hv. rewrite !List.Forall_cons_iff in Hv. destruct Hv as (_ & _ & Hv & _). by apply Hgo.
  - apply all_ok_ok in Hv. rewrite !List.Forall_cons_iff in Hv. destruct Hv as (_ & Hv & _). by apply Hgo.
Qed.

Lemma node_depth_children node :
  surface_node_depth node = match node_children node with [] => 1 | l => 1 + max_depth (map surface_node_depth l) end.
Proof. destruct node as [ti ha ch|tx|ds|ds cs ra|f m|acts|tabs|lv tx|ti de|f m ch|f ch]; simpl; try done; try by destruct ch.
  destruct tabs as [|t tabs]; [done|]. simpl. do 3 f_equal. by rewrite map_map.
Qed.
Lemma accepted_depth node depth :
  validate_surface_node node depth = Ok tt → (depth + N.of_nat (surface_node_depth node) ≤ MAX_SURFACE_JSON_DEPTH + 1)%N.
Proof.
  revert depth. induction node as [node IH] using node_ind. intros depth Hv. apply accepted_children in Hv as [Hd Hc].
  rewrite node_depth_children. destruct (node_children node) as [|c l]; [lia|].
  assert (Forall (λ c, (depth + 1 + N.of_nat (surface_node_depth c) ≤ MAX_SURFACE_JSON_DEPTH + 1)%N) (c :: l)) as Hall.
  { rewrite list.Forall_forall in *. intros x Hx. by apply IH; [|apply Hc]. }
  clear IH Hc. induction Hall as [|x l' Hx Hl IHl]; simpl in *; [lia|]. lia.
Qed.

(** ** Reports *)

(** What the pages of a report need of its payload: the validation is a bound on the number of
    items, a check of the other fields and one of every item; the page limits that pass theirs
    are within the bound; and normalizing keeps the other fields and makes every item that
    fits pass. *)
Class PagedReport (P Item : Type) `{!Paginatable P Item} := {
  validate_page : P → Checked;
  header_ok : P → Prop;
  item_ok : Item → Prop;
  item_fits : Item → Prop;
  max_page : N;
  validate_page_ok p : validate_page p = Ok tt ↔ (llen (items p) ≤ max_page)%N ∧ header_ok p ∧ Forall item_ok (items p);
  header_with_items p l : header_ok (with_items p l) ↔ header_ok p;
  header_normalize p : header_ok p → header_ok (normalize p);
  items_normalize p : Forall item_fits (items p) → Forall item_ok (items (normalize p));
  limits_in_range l : report_page_limits l = Ok tt → 0 < max_items_per_page l ∧ (N.of_nat (max_items_per_page l) ≤ max_page)%N }.

Lemma page_limit_ok v max f : validate_report_page_limit v max f = Ok tt ↔ 0 < v ∧ (N.of_nat v ≤ max)%N.
Proof.
  unfold validate_report_page_limit. destruct (N.eqb_spec (N.of_nat v) 0), (N.ltb_spec max (N.of_nat v)); simpl;
    split; intros; try done; lia.
Qed.
Lemma page_limits_ok l :
  report_page_limits l = Ok tt ↔
  (0 < lim_report_hosts l ∧ (N.of_nat (lim_report_hosts l) ≤ MAX_REPORT_HOSTS)%N) ∧
  (0 < lim_version_check_results l ∧ (N.of_nat (lim_version_check_results l) ≤ MAX_VERSION_CHECK_RESULTS)%N) ∧
  (0 < lim_discovery_results l ∧ (N.of_nat (lim_discovery_results l) ≤ MAX_DISCOVERY_PLUGIN_RESULTS)%N) ∧
  (0 < lim_batch_update_results l ∧ (N.of_nat (lim_batch_update_results l) ≤ MAX_BATCH_UPDATE_RESULTS)%N).
Proof. unfold report_page_limits. rewrite all_ok_ok, !List.Forall_cons_iff, !page_limit_ok. intuition. Qed.

#[export] Instance report_hosts_paged : PagedReport ReportHosts HostInfo.
Proof.
  refine {| validate_page := report_hosts; header_ok p := (slen (agent_version p) ≤ MAX_SHORT_STRING_LEN)%N;
            item_ok h := host_info h = Ok tt; item_fits h := host_info h = Ok tt; max_page := MAX_REPORT_HOSTS |}; try done.
  - intros p. unfold report_hosts. rewrite all_ok_ok, !List.Forall_cons_iff, each_ok. unfold check_vec_len, check_string_len.
    rewrite !check_len_ok. intuition.
  - intros l Hl%page_limits_ok. simpl. tauto.
Defined.
#[export] Instance version_check_paged : PagedReport VersionCheckResults VersionCheckResult.
Proof.
  refine {| validate_page := version_check_results; header_ok p := True;
            item_ok r := version_check_result r = Ok tt; item_fits r := version_check_result r = Ok tt; max_page := MAX_VERSION_CHECK_RESULTS |}; try done.
  - intros p. unfold version_check_results. rewrite all_ok_ok, !List.Forall_cons_iff, each_ok. unfold check_vec_len.
    rewrite !check_len_ok. intuition.
  - intros l Hl%page_limits_ok. simpl. tauto.
Defined.
#[export] Instance batch_update_paged : PagedReport BatchUpdateResult BatchUpdateItemResult.
Proof.
  refine {| validate_page := batch_update_result; header_ok p := True;
            item_ok r := batch_update_item_result r = Ok tt; item_fits r := batch_update_item_result r = Ok tt; max_page := MAX_BATCH_UPDATE_RESULTS |}; try done.
  - intros p. unfold batch_update_result. rewrite all_ok_ok, !List.Forall_cons_iff, each_ok. unfold check_vec_len.
    rewrite !check_len_ok. intuition.
  - intros l Hl%page_limits_ok. simpl. tauto.
Defined.

(** A discovery result may hold any number of discoveries: it is split before it is sent. *)
Definition discoveries_fit (r : DiscoveryResult) : Prop :=
  check_opt_string_len (Paginate.error r) MAX_MEDIUM_STRING_LEN "error" = Ok tt ∧
  Forall (λ d, discovered_software d = Ok tt) (discoveries r).

Lemma normalized_result_ok r : discoveries_fit r → Forall (λ r', discovery_plugin_result r' = Ok tt) (normalize_result r).
Proof.
  intros [He Hd]. destruct (normalize_result_spec r) as [Hcat Hall].
  rewrite <- Hcat in Hd. apply Forall_concat in Hd. rewrite Forall_fmap in Hd.
  rewrite list.Forall_forall in *. intros r' Hr'. destruct (Hall r' Hr') as (_ & _ & Herr & Hlen).
  unfold discovery_plugin_result. rewrite all_ok_ok, !List.Forall_cons_iff, each_ok. unfold check_vec_len. rewrite check_len_ok.
  split_and!; [|by rewrite Herr|by apply Hd|done]. unfold llen, MAX_DISCOVERIES, MAX_DISCOVERIES_PER_PLUGIN in *. lia.
Qed.
#[export] Instance discovery_paged : PagedReport DiscoveryResults DiscoveryResult.
Proof.
  refine {| validate_page := discovery_results; header_ok p := (slen (host_machine_id p) ≤ MAX_SHORT_STRING_LEN)%N;
            item_ok r := discovery_plugin_result r = Ok tt; item_fits := discoveries_fit; max_page := MAX_DISCOVERY_PLUGIN_RESULTS |}; try done.
  - intros p. unfold discovery_results. rewrite all_ok_ok, !List.Forall_cons_iff, each_ok. unfold check_vec_len, check_string_len.
    rewrite !check_len_ok. simpl. intuition.
  - intros p Hp. simpl. apply Forall_bind. eapply list.Forall_impl; [exact Hp|]. apply normalized_result_ok.
  - intros l Hl%page_limits_ok. simpl. tauto.
Defined.

(** A report that is sent whole is within the page limit. *)
Lemma single_page_len {P Item} `{!Paginatable P Item} {E : Type} (json_len : P → Result E N) (item_json_len : Item → Result E N)
    p limits rid :
  paginate_payload json_len item_json_len p limits rid = Ok [mkPayloadPage (normalize p) None] →
  length (items (normalize p)) ≤ max_items_per_page limits.
Proof.
  unfold paginate_payload. intros Hp. inv_ok.
  destruct (_ && _) eqn:Hfit; [apply andb_prop in Hfit as [_ Hfit]; by apply Nat.leb_le|].
  destruct (bool_decide _) eqn:He; [apply bool_decide_eq_true in He; lia|].
  apply bind_ok in Hp as (n & _ & Hp). apply bind_ok in Hp as (ls & _ & [= Hp]). exfalso.
  destruct ls as [|l ls]; simpl in Hp; [done|]. by injection Hp.
Qed.

(** C29: what a well-behaved sender splits, its receiver accepts. When the page limits have passed
    their own validation, and the other fields and every item of a report are within bounds, with any
    number of items below 2^32 (for discoveries, also any number of one plugin), then every
    page of the report passes the validation of its message. The numbers of the pages pass
    theirs exactly when there are at most 50 pages: of a longer report every page is refused. *)
Theorem pages_accepted {P Item} `{PP : !Paginatable P Item} `{PR : !PagedReport P Item} {E : Type} (json_len : P → Result E N)
    (item_json_len : Item → Result E N) p limits rid pages :
  report_page_limits limits = Ok tt → header_ok p → Forall item_fits (items p) →
  (Z.of_nat (length (items (normalize p))) < 4294967296)%Z →
  paginate_payload json_len item_json_len p limits rid = Ok pages →
  (∀ pg, pg ∈ pages → validate_page (payload pg) = Ok tt) ∧
  (∀ pg n, pg ∈ pages → Paginate.pagination pg = Some n →
     Report.wire_validate n = if decide (length pages ≤ 50) then Ok tt else Err Report.ErrTotalPages).
Proof.
  intros Hlim Hh Hi Hlen Hp. destruct (limits_in_range limits Hlim) as [Hpos Hmax].
  destruct (paginate_complete json_len item_json_len p limits rid pages Hpos Hlen Hp) as (Hcat & Hwith & Hpages).
  pose proof (items_normalize p Hi) as Hok. pose proof (header_normalize p Hh) as Hhn.
  rewrite <- Hcat in Hok. apply Forall_concat in Hok. rewrite Forall_fmap, list.Forall_forall in Hok.
  split.
  - intros pg Hpg. apply validate_page_ok. split_and!; [|by rewrite <- (header_with_items _ (items (normalize p))), Hwith|by apply Hok].
    destruct Hpages as [->|(budget & Hnum)].
    + apply list_elem_of_singleton in Hpg as ->. apply single_page_len in Hp. unfold llen. simpl. lia.
    + apply list_elem_of_lookup in Hpg as (k & Hk). destruct (Hnum k pg Hk) as (_ & _ & Hl & _). unfold llen. lia.
  - intros pg n Hpg Hn. destruct Hpages as [->|(budget & Hnum)].
    + apply list_elem_of_singleton in Hpg as ->. done.
    + apply list_elem_of_lookup in Hpg as (k & Hk). destruct (Hnum k pg Hk) as [Hnumbered _]. unfold numbered in Hnumbered.
      rewrite Hn in Hnumbered. injection Hnumbered as ->. apply lookup_lt_Some in Hk. unfold Report.wire_validate. simpl.
      unfold Report.MAX_REPORT_PAGES. repeat case_decide; try done; lia.
Qed.

(** ** What is not validated *)

(** The size of these fields does not matter: the validation does not depend on them. *)
Lemma unchecked_item_fields :
  (∀ a b c d e f g fs fs', host_info (mkHostInfo a b c d e f g fs) = host_info (mkHostInfo a b c d e f g fs')) ∧
  (∀ a b c d e f x x' g, version_check_result (mkCheckResult a b c d e f x g) = version_check_result (mkCheckResult a b c d e f x' g)) ∧
  (∀ a b c ts ts' x x' q k ft v v',
     discovered_software (mkDiscovered a b c ts x q k ft v) = discovered_software (mkDiscovered a b c ts' x' q k ft v')) ∧
  (∀ t t' i c c', plugin_assignment (mkAssignment t i c) = plugin_assignment (mkAssignment t' i c')) ∧
  (∀ a b c d r r', batch_update_item (mkBatchItem a b c d r) = batch_update_item (mkBatchItem a b c d r')).
Proof. done. Qed.
Lemma unchecked_messages {L : WireLib} :
  (∀ p, service_message (SAuditEvent p) = Ok tt) ∧ (∀ p, service_message (SRegister p) = Ok tt) ∧
  (∀ p, controller_message (CBroadcastAdminEvent p) = Ok tt) ∧ (∀ p, controller_message (CServiceCredentials p) = Ok tt) ∧
  (∀ p, controller_message (CTokenRevoked p) = Ok tt).
Proof. done. Qed.
End WireFacts.

(** Reports on their way. *)
Module WireDemo.
Import Wire WireCheck WireFacts.

Definition check (v : string) : VersionCheckResult :=
  mkCheckResult 1 (Some v) None None WireEnums.UpdateCategory.Security None None None.
Definition checks : VersionCheckResults := mkVersionCheckResults [check "1"; check "2"; check "3"; check "4"; check "5"].
Definition limits : ReportPageLimits := mkPageLimits 2 2 2 2.
Definition sent : Result unit (list (PayloadPage VersionCheckResults)) :=
  paginate_payload (λ _, Ok 100%N) (λ _, Ok 20%N) checks limits 7.

Lemma pages_accepted_witness :
  match sent with
  | Ok pages => length pages = 3 ∧ ∀ pg, pg ∈ pages → version_check_results (payload pg) = Ok tt
  | Err _ => False
  end.
Proof.
  destruct sent as [pages|e] eqn:Hs; [|vm_compute in Hs; discriminate Hs].
  assert (∀ pg, pg ∈ pages → version_check_results (payload pg) = Ok tt) as Hok.
  { apply (pages_accepted (PR := version_check_paged) (E := unit) (λ _, Ok 100%N) (λ _, Ok 20%N) checks limits 7 pages).
    - vm_compute. reflexivity.
    - exact I.
    - repeat constructor.
    - vm_compute. reflexivity.
    - exact Hs. }
  split; [|exact Hok]. vm_compute in Hs. injection Hs as <-. reflexivity.
Defined.

(** Sixty results with outputs that fill a page each: every page is within its limits, and its
    receiver refuses all of them. *)
Definition outputs : BatchUpdateResult :=
  mkBatchUpdateResult 1 (replicate 60 (mkItemResult 1 2 FinalCompleted "" None None)).
Example sixty_pages_refused :
  match paginate_payload (SerdeError := unit) (λ _, Ok 42000000%N) (λ _, Ok 700000%N) outputs default_limits 7 with
  | Ok pages => length pages = 60 ∧
      forallb (λ pg, bool_decide (batch_update_result (payload pg) = Ok tt) : bool) pages = true ∧
      forallb (λ pg, match Paginate.pagination pg with Some n => match Report.wire_validate n with Err Report.ErrTotalPages => true | _ => false end | None => false end) pages = true
  | Err _ => False
  end.
Proof. vm_compute. done. Qed.
End WireDemo.
