(* ===== verification/AccessRoutes.v ===== *)
(** Management of access: the endpoints for grants, roles, role assignments and user activation
    ([crates/ui/web-api/src/routes/{access_grants,roles,users}.rs], with the extractors of
    [middleware/action.rs] and the queries of [web-api-queries/src/queries/{roles,users}]) as
    handlers over the grant storage of [AccessGrants], the lockout guard and the engine's cache.

    A transaction is one statement: it runs against one state of the database and commits as a
    whole or not at all. Whether a transaction begins, its audit entry is built and written, and
    its commit succeeds are inputs of the request ([Faults]); a failed audit write leaves the
    rest of the transaction in place, as in SQLite. Paths and bodies are given decoded. *)

From Stdlib Require Import Ascii.
From stdpp Require Import base list gmap sets strings numbers sorting.
From S2P Require Import Prelude RustStr Json AccessVocab AccessGrants AccessEngine Handlers AuthStore AuthRoutes.

Module AccessApi.
Import Grants Engine.
Import Auth(AuthMethod, Password, Oidc, ApiTokenMethod).
Import AuthApi(AuthenticatedUser, au_user_id, au_auth_method).

(** ** State *)

(** The columns of [roles] and [users] that [Grants.Db] leaves out. *)
Record RoleMeta := mkRoleMeta {
  rm_name : string; rm_description : option string; rm_is_built_in : bool; rm_created_at : Instant }.
Record UserMeta := mkUserMeta {
  um_email : string; um_first_name : string; um_last_name : string;
  um_deactivated_at : option Instant; um_updated_at : Instant }.

(** Rows: a role ([entity/role.rs]), and what responses and audit entries show of a user. *)
Record RoleModel := mkRoleModel {
  ro_id : Uuid; ro_name : string; ro_description : option string; ro_is_built_in : bool;
  ro_created_at : Instant; ro_tenant_id : option Uuid }.
Record UserModel := mkUserModel {
  us_id : Uuid; us_email : string; us_first_name : string; us_last_name : string;
  us_is_active : bool }.

(** The snapshots of the audit log; an absent one is [None]. *)
Record AccessGrantView := mkGrantView {
  gv_id : Uuid; gv_tenant_id : option Uuid; gv_subject_type : string; gv_subject_id : Uuid;
  gv_patterns : list string; gv_selector : Value; gv_description : option string }.
Record RoleView := mkRoleView {
  rv_id : Uuid; rv_name : string; rv_description : option string; rv_is_built_in : bool;
  rv_tenant_id : option Uuid }.
Record UserRolesView := mkUserRolesView { urv_user_id : Uuid; urv_role_ids : list Uuid }.
Inductive AuditView :=
| GrantSnapshot (v : AccessGrantView)
| RoleSnapshot (v : RoleView)
| UserRolesSnapshot (v : UserRolesView)
| UserSnapshot (v : UserModel).

Inductive AuditOutcome := Success | Denied | ValidationFailed | Failed | Partial.
Inductive AuditScope := TenantScope (t : Uuid) | SystemScope.
Inductive AuditActorType := UserActor | ApiTokenActor | OidcActor | ServiceActor | SystemActor.
Notation Actor := (AuditActorType * option Uuid)%type.

(** A stateful audit row: what was written, by whom, from what to what; further details of
    entries are left out, but for the reason code of events. *)
Record AuditRow := mkAuditRow {
  ar_action : string; ar_scope : AuditScope; ar_actor : Actor;
  ar_before : option AuditView; ar_after : option AuditView; ar_outcome : AuditOutcome }.

Record Store := mkStore {
  core : Db;
  role_meta : gmap Uuid RoleMeta;
  user_meta : gmap Uuid UserMeta;
  audit_rows : list AuditRow;
  engine : AccessEngine;       (* of this controller *)
}.

Definition with_core (c : Db) (st : Store) : Store :=
  mkStore c (role_meta st) (user_meta st) (audit_rows st) (engine st).
Definition with_role_meta (m : gmap Uuid RoleMeta) (st : Store) : Store :=
  mkStore (core st) m (user_meta st) (audit_rows st) (engine st).
Definition with_user_meta (m : gmap Uuid UserMeta) (st : Store) : Store :=
  mkStore (core st) (role_meta st) m (audit_rows st) (engine st).
Definition with_audit (l : list AuditRow) (st : Store) : Store :=
  mkStore (core st) (role_meta st) (user_meta st) l (engine st).
Definition with_engine (e : AccessEngine) (st : Store) : Store :=
  mkStore (core st) (role_meta st) (user_meta st) (audit_rows st) e.

Definition role_row (st : Store) (i : Uuid) : option RoleModel :=
  match role_meta st !! i, roles (core st) !! i with
  | Some m, Some t => Some (mkRoleModel i (rm_name m) (rm_description m) (rm_is_built_in m) (rm_created_at m) t)
  | _, _ => None
  end.
Definition role_rows (st : Store) : list RoleModel := omap (role_row st) (map_to_list (role_meta st)).*1.

Definition user_row (st : Store) (i : Uuid) : option UserModel :=
  match user_meta st !! i, users (core st) !! i with
  | Some m, Some a => Some (mkUserModel i (um_email m) (um_first_name m) (um_last_name m) a)
  | _, _ => None
  end.
Definition user_rows (st : Store) : list UserModel := omap (user_row st) (map_to_list (user_meta st)).*1.

(** ** Responses and events *)

Record AccessGrantResponse := mkGrantResponse {
  agr_id : Uuid; agr_tenant_id : option Uuid; agr_subject_type : GrantSubjectType;
  agr_subject_id : Uuid; agr_patterns : list string; agr_selector : Selector;
  agr_description : option string }.
Record UserWithRolesResponse := mkUserResponse {
  uwr_user : UserModel; uwr_roles : list (Uuid * string) }.

Inductive Response :=
| ErrorResponse (status : nat) (message : string)
| ErrorWithCode (status : nat) (message code : string)
| InvalidPattern (e : Pattern.ParsePatternError)
| GrantBody (status : nat) (g : AccessGrantResponse)
| GrantList (l : list AccessGrantResponse)
| RoleBody (status : nat) (r : RoleModel)
| RoleList (l : list RoleModel)
| UserBody (u : UserWithRolesResponse)
| UserList (l : list UserWithRolesResponse)
| NoContent.

Definition status (r : Response) : nat :=
  match r with
  | ErrorResponse s _ | ErrorWithCode s _ _ | GrantBody s _ | RoleBody s _ => s
  | InvalidPattern _ => 400
  | GrantList _ | RoleList _ | UserBody _ | UserList _ => 200
  | NoContent => 204
  end.

Definition internal_error : Response := ErrorResponse 500 "Internal server error".

Inductive AuditTarget := OnEntity (target_type : string) (id : Uuid) | OnAction (a : Action.Action).

Inductive Event :=
| DenyCounted (reason : DenyReason)
| AuditEvent (action : string) (scope : AuditScope) (actor : Actor) (target : AuditTarget)
             (outcome : AuditOutcome) (reason_code : string)
| Flushed (row : AuditRow)                            (* hook.flush_after_commit *)
| AccessInvalidated (user_ids role_ids : list Uuid).  (* published to every controller *)

Notation Server := (Handler Store Event).

(** [impl From<Report<AccessGrantError>> for ApiError] *)
Definition grant_api_error (e : AccessGrantError) : Response :=
  match e with
  | NotFound => ErrorWithCode 404 "Grant not found." "access_grant.not_found"
  | Patterns _ => ErrorWithCode 400 "One or more grant patterns are invalid." "access_grant.invalid_patterns"
  | PlaneMixing => ErrorWithCode 400 "A grant may not mix system-plane and tenant-plane patterns." "access_grant.plane_mixing"
  | TenantEncoding _ => ErrorWithCode 400 "Invalid tenant encoding for this grant." "access_grant.invalid_tenant_encoding"
  | SelectorPhaseGate => ErrorWithCode 400 "Selector validation passed; non-All selectors are not yet enabled." "access_grant.selector_phase_gate"
  | SelectorInvalid _ => ErrorWithCode 400 "The grant selector is invalid." "access_grant.invalid_selector"
  | SelectorNotSupported _ => ErrorWithCode 400 "The selector kind is not supported by every action in the grant's patterns." "access_grant.selector_not_supported"
  | SelectorReferentsMissing _ _ => ErrorWithCode 400 "The selector references ids that do not exist in this tenant." "access_grant.selector_referents_missing"
  | SelectorOnGlobalRole => ErrorWithCode 400 "Global-role grants cannot carry non-All selectors." "access_grant.selector_on_global_role"
  | DescriptionTooLong max => ErrorWithCode 400 ("Description exceeds " +:+ pretty.pretty max +:+ " characters.") "access_grant.description_too_long"
  | TooManyGrants _ _ => ErrorWithCode 409 "Per-subject grant limit reached." "too_many_grants"
  | UnclassifiablePattern => ErrorWithCode 400 "Grant pattern shape is not recognized." "access_grant.unclassifiable_pattern"
  | SelectorEncode _ => ErrorWithCode 500 "An internal error occurred." "access_grant.selector_encode_error"
  | SentinelMissing => ErrorWithCode 500 "An internal error occurred." "access_grant.sentinel_missing"
  | Corrupt _ => ErrorWithCode 500 "An internal error occurred." "access_grant.corrupt"
  | DbError _ => ErrorWithCode 500 "An internal error occurred." "access_grant.database_error"
  end.

(** [impl From<Report<RoleQueryError>> for ApiError] *)
Definition role_api_error (e : RoleQueryError) : Response :=
  match e with
  | RoleNotFound => ErrorWithCode 404 "Role not found." "role.not_found"
  | RoleDb _ => ErrorWithCode 500 "An internal error occurred." "role.database_error"
  end.

(** ** Validation of bodies ([shared/web-api-types/src/{access_grants,roles,users}.rs]) *)

Definition invalid (field message : string) : Response := ErrorResponse 400 (field +:+ ": " +:+ message).

Record CreateAccessGrantRequest := mkCreateGrant {
  cg_subject : GrantSubject; cg_patterns : list string; cg_selector : Selector;
  cg_description : option string }.
Record UpdateAccessGrantRequest := mkUpdateGrant {
  ug_patterns : list string; ug_selector : Selector; ug_description : option string }.
Record RoleRequest := mkRoleRequest { rr_name : string; rr_description : option string }.

Definition validate_patterns_field (ps : list string) : Result Response unit :=
  if (length ps =? 0) || (MAX_PATTERNS_PER_GRANT <? length ps)
  then Err (invalid "patterns" ("must contain between 1 and " +:+ pretty.pretty MAX_PATTERNS_PER_GRANT +:+ " patterns"))
  else if existsb (λ p, str_is_empty p || (MAX_PATTERN_LEN <? str_len p)) ps
  then Err (invalid "patterns" ("each pattern must be between 1 and " +:+ pretty.pretty MAX_PATTERN_LEN +:+ " bytes"))
  else Ok tt.

Definition validate_description_field (d : option string) : Result Response unit :=
  match d with
  | Some d => if MAX_GRANT_DESCRIPTION_LEN <? chars_count d
              then Err (invalid "description" ("must be at most " +:+ pretty.pretty MAX_GRANT_DESCRIPTION_LEN +:+ " characters"))
              else Ok tt
  | None => Ok tt
  end.

Definition validate_grant_body (ps : list string) (d : option string) : Result Response unit :=
  _ ← validate_patterns_field ps; validate_description_field d.

Definition role_name_char (c : ascii) : bool :=
  is_ascii_lowercase c || is_ascii_digit c || Ascii.eqb c "-" || Ascii.eqb c "_".

Definition validate_role_name (name : string) : Result Response unit :=
  let ok := match name with
            | EmptyString => false
            | String c rest => is_ascii_lowercase c && all_chars role_name_char rest
            end in
  if negb ok || (64 <? str_len name)
  then Err (invalid "name" "must be 1-64 chars: lowercase alphanumeric plus '-'/'_', letter-first")
  else Ok tt.

Definition validate_role (body : RoleRequest) : Result Response unit :=
  _ ← validate_role_name (rr_name body); validate_description_field (rr_description body).

Definition validate_role_ids (ids : list Uuid) : Result Response unit :=
  if length ids =? 0 then Err (invalid "role_ids" "at least one role must be assigned")
  else if 20 <? length ids then Err (invalid "role_ids" "cannot assign more than 20 roles")
  else Ok tt.

(** ** Who asks, and what a request draws *)

Inductive AccessAuthority := Ready (ctx : AccessContext) | Unavailable.

Definition ready (a : AccessAuthority) : option AccessContext :=
  match a with Ready ctx => Some ctx | Unavailable => None end.

(** The extensions the middleware puts into the request. *)
Record Caller := mkCaller {
  ca_user : option AuthenticatedUser;
  ca_authority : option AccessAuthority;
  ca_api_token : option Uuid }.

Definition audit_actor (user : AuthenticatedUser) (api_token : option Uuid) : Actor :=
  match au_auth_method user with
  | ApiTokenMethod => (ApiTokenActor, api_token)
  | Password | Oidc _ => (UserActor, Some (au_user_id user))
  end.

Record Faults := mkFaults {
  begin_ok : bool; commit_ok : bool;
  build_ok : bool; emit_ok : bool;      (* the stateful audit entry: built, written *)
  event_ok : bool;                      (* event entries are built *)
  new_id : Uuid; clock : Instant }.

(** What a refused request answers and emits. *)
Notation Refusal := (Response * list Event)%type.

Fixpoint emit_all (es : list Event) : Server unit :=
  match es with [] => mret tt | e :: es' => _ ← emit e; emit_all es' end.

Definition answer (r : Refusal) : Server Response := _ ← emit_all r.2; mret r.1.

(** ** Transactions *)

Definition Tx (A : Type) : Type := Store → Result Refusal (A * Store).
#[export] Instance Tx_ret : MRet Tx := λ A a st, Ok (a, st).
#[export] Instance Tx_bind : MBind Tx := λ A B k m st,
  match m st with Ok (a, st') => k a st' | Err r => Err r end.

Definition tx_read {A} (f : Store → Result Response A) : Tx A := λ st,
  match f st with Ok a => Ok (a, st) | Err r => Err (r, []) end.
Definition tx_write {A} (f : Store → Result Response (A * Store)) : Tx A := λ st,
  match f st with Ok r => Ok r | Err r => Err (r, []) end.

Definition transact {A} (x : Faults) (no_begin : Refusal) (body : Tx A) (k : A → Server Response)
    : Server Response :=
  if begin_ok x then
    r ← exec (λ st, match body st with
                    | Err d => (Err d, st)
                    | Ok (a, st') => if commit_ok x then (Ok a, st') else (Err (internal_error, []), st)
                    end);
    match r with Ok a => k a | Err d => answer d end
  else answer no_begin.

(** The audit row of a transaction: the routes of grants and roles give up without it, the
    routes of users go on. *)
Definition audit_or_abort (x : Faults) (row : AuditRow) : Tx unit := λ st,
  if build_ok x && emit_ok x then Ok (tt, with_audit (audit_rows st ++ [row]) st)
  else Err (internal_error, []).
Definition audit_if_possible (x : Faults) (row : AuditRow) : Tx unit := λ st,
  if build_ok x && emit_ok x then Ok (tt, with_audit (audit_rows st ++ [row]) st) else Ok (tt, st).

Definition flush (x : Faults) (row : AuditRow) : Server unit :=
  if build_ok x && emit_ok x then emit (Flushed row) else mret tt.

(** Invalidate this controller's cache and tell the others. *)
Definition announce (user_ids role_ids : list Uuid) : Server unit :=
  _ ← exec (λ st, (tt, with_engine (invalidate_subjects (engine st) user_ids role_ids) st));
  emit (AccessInvalidated user_ids role_ids).

(** ** Middleware ([middleware/action.rs]) *)

Definition record_access_denied (x : Faults) (ctx : AccessContext) (denied : list Action.Action)
    (reason : DenyReason) : list Event :=
  DenyCounted reason ::
  match denied with
  | [] => []
  | first :: _ =>
      if forallb deny_event_worthy denied && event_ok x
      then [AuditEvent "access.denied"
              (if Resource.is_system (Action.resource first) then SystemScope
               else TenantScope (Engine.tenant_id ctx))
              (UserActor, Some (Engine.user_id ctx)) (OnAction first) Denied (deny_reason_as_str reason)]
      else []
  end.

(** The OR-gate: the first reason other than [NoGrant] is the one reported. *)
Fixpoint authorize_any_loop (e : AccessEngine) (ctx : AccessContext) (deny : option DenyReason)
    (acts : list Action.Action) : option (option DenyReason) :=
  match acts with
  | [] => Some deny
  | a :: acts' =>
      match authorize e ctx a with
      | Allow => None
      | Deny reason =>
          authorize_any_loop e ctx
            (match deny with None | Some NoGrant => Some reason | _ => deny end) acts'
      end
  end.
Definition authorize_any (x : Faults) (e : AccessEngine) (ctx : AccessContext) (acts : list Action.Action)
    : Result DenyReason unit * list Event :=
  match authorize_any_loop e ctx None acts with
  | None => (Ok tt, [])
  | Some deny => let reason := default NoGrant deny in (Err reason, record_access_denied x ctx acts reason)
  end.

Definition require_system_access (x : Faults) (e : AccessEngine) (authority : AccessAuthority)
    : option Refusal :=
  match ready authority with
  | None => Some (ErrorResponse 500 "Authorization authority unavailable", [])
  | Some ctx =>
      match authorize e ctx SYSTEM_ACCESS_MANAGE with
      | Allow => None
      | Deny reason =>
          Some (ErrorWithCode 403 "This operation confers system-plane authority and requires system.access:manage" "forbidden",
                record_access_denied x ctx [SYSTEM_ACCESS_MANAGE] reason)
      end
  end.

(** An extractor made by [action_extractor!]. *)
Definition action_extractor (x : Faults) (a : Action.Action) (c : Caller) (e : AccessEngine)
    : Result Refusal (AuthenticatedUser * AccessAuthority) :=
  match ca_user c with
  | None => Err (ErrorResponse 401 "Authentication required", [])
  | Some user =>
      match ca_authority c with
      | Some (Ready ctx) =>
          match authorize e ctx a with
          | Allow => Ok (user, Ready ctx)
          | Deny reason => Err (ErrorResponse 403 "Insufficient permissions", record_access_denied x ctx [a] reason)
          end
      | _ => Err (internal_error, [])
      end
  end.

Definition USERS_MANAGE : Action.Action := Action.mkAction Resource.Users Verb.Manage.
Definition CanManageAccess (x : Faults) := action_extractor x ACCESS_MANAGE.
Definition CanManageUsers (x : Faults) := action_extractor x USERS_MANAGE.

(** A route behind an extractor. *)
Definition behind (ext : Caller → AccessEngine → Result Refusal (AuthenticatedUser * AccessAuthority))
    (c : Caller) (k : AuthenticatedUser → AccessAuthority → Server Response) : Server Response :=
  r ← Handlers.query (λ st, ext c (engine st));
  match r with Ok (user, authority) => k user authority | Err d => answer d end.

(** A body behind [Validated]. *)
Definition validated (v : Result Response unit) (k : Server Response) : Server Response :=
  match v with Ok _ => k | Err r => mret r end.

Section Routes.
Context `{SerdeSelector} (default_tenant_id : Uuid).

(** ** Grants ([routes/access_grants.rs]) *)

Definition lockout_denial_response (x : Faults) (action : string) (actor : Actor)
    (target_type : string) (target : Uuid) (verdict : LockoutVerdict) : Refusal :=
  let denial code scope :=
    (ErrorWithCode 409 "This change would remove the last remaining access administrator" code,
     if event_ok x then [AuditEvent action scope actor (OnEntity target_type target) Denied code] else []) in
  match verdict with
  | TenantLockout => denial "lockout_access_manage" (TenantScope default_tenant_id)
  | SystemLockout => denial "lockout_system_access" SystemScope
  | Permitted => (internal_error, [])
  end.

(** The guard as a route asks it: [err] answers a failed evaluation. *)
Definition guard (x : Faults) (err : AccessGrantError → Response) (m : GuardedMutation)
    (action : string) (actor : Actor) (target_type : string) (target : Uuid) : Tx unit := λ st,
  match check_lockout (core st) default_tenant_id m with
  | Err e => Err (err e, [])
  | Ok Permitted => Ok (tt, st)
  | Ok v => Err (lockout_denial_response x action actor target_type target v)
  end.

Definition system_access (x : Faults) (authority : AccessAuthority) : Tx unit := λ st,
  match require_system_access x (engine st) authority with Some d => Err d | None => Ok (tt, st) end.

Definition subject_invalidation_ids (s : GrantSubject) : list Uuid * list Uuid :=
  match s with User i => ([i], []) | Role i => ([], [i]) end.

Definition resolved_to_response (g : ResolvedGrant) : AccessGrantResponse :=
  let '(st, si) := split_subject (rg_subject g) in
  mkGrantResponse (rg_id g) (rg_tenant_id g) st si (Pattern.to_string <$> rg_patterns g)
    (rg_selector g) (rg_description g).

Definition grant_view (g : ResolvedGrant) : AccessGrantView :=
  let '(st, si) := match rg_subject g with User i => ("user", i) | Role i => ("role", i) end in
  mkGrantView (rg_id g) (rg_tenant_id g) st si (Pattern.to_string <$> rg_patterns g)
    (match selector_to_value (rg_selector g) with Ok v => v | Err _ => JNull end) (rg_description g).

Definition grant_scope (t : option Uuid) : AuditScope :=
  match t with Some t => TenantScope t | None => SystemScope end.

Definition parse_patterns (ps : list string) : Result Response (list Pattern.ActionPattern) :=
  map_err InvalidPattern (mapM Pattern.from_str ps).

Definition tx_load_grant (i : Uuid) : Tx ResolvedGrant :=
  tx_read (λ st, map_err grant_api_error (load_grant (core st) i)).
Definition tx_plane (ps : list Pattern.ActionPattern) : Tx bool :=
  tx_read (λ _, map_err grant_api_error (patterns_reach_system_plane ps)).

(** A row of another tenant is not shown. *)
Definition foreign (g : ResolvedGrant) : bool :=
  match rg_tenant_id g with Some t => bool_decide (t ≠ default_tenant_id) | None => false end.
Definition own (g : ResolvedGrant) : Tx unit :=
  tx_read (λ _, if foreign g then Err (ErrorResponse 404 "Grant not found") else Ok tt).

(** Commit done: flush the audit hook, invalidate the grant's subject, answer. *)
Definition grant_done (x : Faults) (subject : GrantSubject) (row : AuditRow) (r : Response) : Server Response :=
  _ ← flush x row;
  let '(user_ids, role_ids) := subject_invalidation_ids subject in
  _ ← announce user_ids role_ids;
  mret r.

Definition create_tx (x : Faults) (user : AuthenticatedUser) (actor : Actor) (body : CreateAccessGrantRequest)
    (ps : list Pattern.ActionPattern) (tenant : option Uuid) : Tx (ResolvedGrant * AuditRow) :=
  i ← tx_write (λ st, map_err grant_api_error
        (r ← insert_grant (core st)
               (mkNewGrant (cg_subject body) tenant ps (cg_selector body) (cg_description body)
                  (Some (au_user_id user))) (new_id x) (clock x);
         Ok (r.2, with_core r.1 st)));
  resolved ← tx_load_grant i;
  let row := mkAuditRow "access_grant.create" (grant_scope tenant) actor None
               (Some (GrantSnapshot (grant_view resolved))) Success in
  _ ← audit_or_abort x row;
  mret (resolved, row).

Definition create_access_grant (x : Faults) (c : Caller) (body : CreateAccessGrantRequest) : Server Response :=
  behind (CanManageAccess x) c (λ user authority,
  validated (validate_grant_body (cg_patterns body) (cg_description body)) (
  let actor := audit_actor user (ca_api_token c) in
  match parse_patterns (cg_patterns body) with
  | Err r => mret r
  | Ok ps =>
      match patterns_reach_system_plane ps with
      | Err e => mret (grant_api_error e)
      | Ok system_plane =>
          denied ← (if system_plane then Handlers.query (λ st, require_system_access x (engine st) authority)
                    else mret None);
          match denied with
          | Some d => answer d
          | None =>
              let tenant := match cg_subject body, system_plane with
                            | User _, false => Some default_tenant_id
                            | _, _ => None
                            end in
              transact x (internal_error, []) (create_tx x user actor body ps tenant) (λ '(resolved, row),
                grant_done x (cg_subject body) row (GrantBody 201 (resolved_to_response resolved)))
          end
      end
  end)).

(** [list_access_grants]: both parts of the subject filter, or neither. *)
Definition list_access_grants (x : Faults) (c : Caller) (subject_type : option GrantSubjectType)
    (subject : option Uuid) : Server Response :=
  behind (CanManageAccess x) c (λ _ _,
  let list s :=
    load ← Handlers.query (λ st, list_grants (core st) default_tenant_id s);
    mret match load with
         | Ok l => GrantList (resolved_to_response <$> grants l)
         | Err e => grant_api_error e
         end in
  match subject_type, subject with
  | None, None => list None
  | Some SubjectUser, Some i => list (Some (User i))
  | Some SubjectRole, Some i => list (Some (Role i))
  | _, _ => mret (ErrorResponse 400 "subject_type and subject_id must be supplied together")
  end).

Definition get_access_grant (x : Faults) (c : Caller) (i : Uuid) : Server Response :=
  behind (CanManageAccess x) c (λ _ _,
  r ← Handlers.query (λ st, load_grant (core st) i);
  mret match r with
       | Err e => grant_api_error e
       | Ok g => if foreign g then ErrorResponse 404 "Grant not found" else GrantBody 200 (resolved_to_response g)
       end).

Definition update_tx (x : Faults) (authority : AccessAuthority) (actor : Actor) (i : Uuid)
    (body : UpdateAccessGrantRequest) (ps : list Pattern.ActionPattern) : Tx (ResolvedGrant * ResolvedGrant * AuditRow) :=
  before ← tx_load_grant i;
  _ ← own before;
  stored_system_plane ← tx_plane (rg_patterns before);
  new_system_plane ← tx_plane ps;
  _ ← (if stored_system_plane || new_system_plane then system_access x authority else mret tt);
  _ ← guard x grant_api_error (UpdateGrant i ps (ug_selector body)) "access_grant.update" actor "access_grant" i;
  _ ← tx_write (λ st, map_err grant_api_error
        (d ← update_grant (core st) i (mkGrantUpdate ps (ug_selector body) (ug_description body)) (clock x);
         Ok (tt, with_core d st)));
  after ← tx_load_grant i;
  let row := mkAuditRow "access_grant.update" (grant_scope (rg_tenant_id before)) actor
               (Some (GrantSnapshot (grant_view before))) (Some (GrantSnapshot (grant_view after))) Success in
  _ ← audit_or_abort x row;
  mret (before, after, row).

Definition update_access_grant (x : Faults) (c : Caller) (i : Uuid) (body : UpdateAccessGrantRequest) : Server Response :=
  behind (CanManageAccess x) c (λ user authority,
  validated (validate_grant_body (ug_patterns body) (ug_description body)) (
  let actor := audit_actor user (ca_api_token c) in
  match parse_patterns (ug_patterns body) with
  | Err r => mret r
  | Ok ps =>
      transact x (internal_error, []) (update_tx x authority actor i body ps) (λ '(before, after, row),
        grant_done x (rg_subject before) row (GrantBody 200 (resolved_to_response after)))
  end)).

Definition delete_tx (x : Faults) (authority : AccessAuthority) (actor : Actor) (i : Uuid) : Tx (ResolvedGrant * AuditRow) :=
  stored ← tx_load_grant i;
  _ ← own stored;
  system_plane ← tx_plane (rg_patterns stored);
  _ ← (if (system_plane : bool) then system_access x authority else mret tt);
  _ ← guard x grant_api_error (DeleteGrant i) "access_grant.delete" actor "access_grant" i;
  _ ← tx_write (λ st, map_err grant_api_error (d ← delete_grant (core st) i; Ok (tt, with_core d st)));
  let row := mkAuditRow "access_grant.delete" (grant_scope (rg_tenant_id stored)) actor
               (Some (GrantSnapshot (grant_view stored))) None Success in
  _ ← audit_or_abort x row;
  mret (stored, row).

Definition delete_access_grant (x : Faults) (c : Caller) (i : Uuid) : Server Response :=
  behind (CanManageAccess x) c (λ user authority,
  transact x (internal_error, []) (delete_tx x authority (audit_actor user (ca_api_token c)) i) (λ '(stored, row),
    grant_done x (rg_subject stored) row NoContent)).

(** ** Role queries ([web-api-queries/src/queries/roles.rs]) *)

Definition role_query {A} (st : Store) (a : A) : Result RoleQueryError A :=
  match db_fail (core st) TRoles with Some e => Err (RoleDb e) | None => Ok a end.

Definition scope_condition (tenant : Uuid) (r : RoleModel) : bool :=
  bool_decide (ro_tenant_id r = None) || bool_decide (ro_tenant_id r = Some tenant).

Definition role_name_le (a b : RoleModel) : Prop := Is_true (str_leb (ro_name a) (ro_name b)).
#[local] Instance role_name_le_dec : RelDecision role_name_le.
Proof. unfold role_name_le. intros ??. apply _. Defined.

Definition query_list_roles (st : Store) (tenant : Uuid) : Result RoleQueryError (list RoleModel) :=
  role_query st (merge_sort role_name_le (filter (λ r, Is_true (scope_condition tenant r)) (role_rows st))).

Definition query_get_role (st : Store) (tenant i : Uuid) : Result RoleQueryError RoleModel :=
  row ← role_query st (role_row st i);
  match row with
  | Some r => if scope_condition tenant r then Ok r else Err RoleNotFound
  | None => Err RoleNotFound
  end.

Inductive RoleNameCollision := CollidesGlobal | CollidesTenant.

Definition find_role_name_collision (st : Store) (tenant : Uuid) (name : string) (exclude : option Uuid)
    : Result RoleQueryError (option RoleNameCollision) :=
  hits ← role_query st (filter (λ r, ro_name r = name ∧ Is_true (scope_condition tenant r)
                                     ∧ exclude ≠ Some (ro_id r)) (role_rows st));
  Ok (if existsb (λ r, bool_decide (ro_tenant_id r = None)) hits then Some CollidesGlobal
      else match hits with [] => None | _ => Some CollidesTenant end).

(** The index [uix_roles_tenant_name]. *)
Definition tenant_name_taken (st : Store) (tenant : Uuid) (name : string) (except : Uuid) : bool :=
  existsb (λ r, bool_decide (ro_name r = name ∧ ro_tenant_id r = Some tenant ∧ ro_id r ≠ except)) (role_rows st).

Definition query_create_role (x : Faults) (st : Store) (tenant : Uuid) (name : string) (description : option string)
    : Result RoleQueryError (RoleModel * Store) :=
  if bool_decide (is_Some (roles (core st) !! new_id x)) || bool_decide (is_Some (role_meta st !! new_id x))
     || tenant_name_taken st tenant name (new_id x)
  then Err (RoleDb "unique constraint violated: roles")
  else role_query st
    (mkRoleModel (new_id x) name description false (clock x) (Some tenant),
     with_role_meta (<[new_id x := mkRoleMeta name description false (clock x)]> (role_meta st))
       (with_core (with_roles (<[new_id x := Some tenant]> (roles (core st))) (user_roles (core st)) (core st)) st)).

Definition query_update_role (st : Store) (tenant i : Uuid) (name : string) (description : option string)
    : Result RoleQueryError (RoleModel * RoleModel * Store) :=
  _ ← get_own_role (core st) tenant i;
  match role_row st i with
  | None => Err RoleNotFound
  | Some before =>
      if tenant_name_taken st tenant name i then Err (RoleDb "unique constraint violated: roles")
      else Ok (before,
               mkRoleModel i name description (ro_is_built_in before) (ro_created_at before) (ro_tenant_id before),
               with_role_meta (<[i := mkRoleMeta name description (ro_is_built_in before) (ro_created_at before)]>
                                 (role_meta st)) st)
  end.

Definition query_delete_role_rows (st : Store) (tenant i : Uuid) : Result RoleQueryError Store :=
  d ← delete_role_rows (core st) tenant i;
  Ok (with_role_meta (delete i (role_meta st)) (with_core d st)).

(** ** Roles ([routes/roles.rs]) *)

Definition role_view (r : RoleModel) : RoleView :=
  mkRoleView (ro_id r) (ro_name r) (ro_description r) (ro_is_built_in r) (ro_tenant_id r).

Definition built_in_immutable_response (r : RoleModel) : option Response :=
  if ro_is_built_in r then Some (ErrorWithCode 409 "Built-in roles are immutable" "built_in_role_immutable") else None.

Definition collision_response (c : option RoleNameCollision) : option Response :=
  match c with
  | None => None
  | Some CollidesGlobal => Some (ErrorWithCode 409 "A global built-in role already uses this name" "role_name_shadows_global")
  | Some CollidesTenant => Some (ErrorWithCode 409 "Another role in this tenant already uses this name" "role_name_taken")
  end.

Definition list_roles (x : Faults) (c : Caller) : Server Response :=
  behind (CanManageAccess x) c (λ _ _,
  r ← Handlers.query (λ st, query_list_roles st default_tenant_id);
  mret match r with Ok l => RoleList l | Err e => role_api_error e end).

Definition get_role (x : Faults) (c : Caller) (i : Uuid) : Server Response :=
  behind (CanManageAccess x) c (λ _ _,
  r ← Handlers.query (λ st, query_get_role st default_tenant_id i);
  mret match r with Ok l => RoleBody 200 l | Err e => role_api_error e end).

(** The probe for a name in use; [k] runs when it is free. *)
Definition probe_name (name : string) (exclude : option Uuid) (k : Server Response) : Server Response :=
  r ← Handlers.query (λ st, find_role_name_collision st default_tenant_id name exclude);
  match r with
  | Err e => mret (role_api_error e)
  | Ok hit => match collision_response hit with Some r => mret r | None => k end
  end.

(** The role a mutation names: one of this tenant, not built in. *)
Definition own_role (i : Uuid) (k : RoleModel → Server Response) : Server Response :=
  r ← Handlers.query (λ st, query_get_role st default_tenant_id i);
  match r with
  | Err e => mret (role_api_error e)
  | Ok existing =>
      match built_in_immutable_response existing with
      | Some r => mret r
      | None => if bool_decide (ro_tenant_id existing ≠ Some default_tenant_id)
                then mret (ErrorResponse 404 "Role not found") else k existing
      end
  end.

Definition role_audit (action : string) (actor : Actor) (before after : option RoleModel) : AuditRow :=
  mkAuditRow action (TenantScope default_tenant_id) actor (RoleSnapshot ∘ role_view <$> before)
    (RoleSnapshot ∘ role_view <$> after) Success.

Definition create_role_tx (x : Faults) (actor : Actor) (body : RoleRequest) : Tx (RoleModel * AuditRow) :=
  created ← tx_write (λ st, map_err role_api_error
    (query_create_role x st default_tenant_id (rr_name body) (rr_description body)));
  let row := role_audit "role.create" actor None (Some created) in
  _ ← audit_or_abort x row;
  mret (created, row).

Definition create_role (x : Faults) (c : Caller) (body : RoleRequest) : Server Response :=
  behind (CanManageAccess x) c (λ user _,
  validated (validate_role body) (
  probe_name (rr_name body) None (
  transact x (internal_error, []) (create_role_tx x (audit_actor user (ca_api_token c)) body) (λ '(created, row),
    _ ← flush x row;
    mret (RoleBody 201 created))))).

Definition update_role_tx (x : Faults) (actor : Actor) (i : Uuid) (body : RoleRequest) : Tx (RoleModel * AuditRow) :=
  pair ← tx_write (λ st, map_err role_api_error
    (query_update_role st default_tenant_id i (rr_name body) (rr_description body)));
  let '(before, after) := (pair : RoleModel * RoleModel) in
  let row := role_audit "role.update" actor (Some before) (Some after) in
  _ ← audit_or_abort x row;
  mret (after, row).

Definition update_role (x : Faults) (c : Caller) (i : Uuid) (body : RoleRequest) : Server Response :=
  behind (CanManageAccess x) c (λ user _,
  validated (validate_role body) (
  own_role i (λ _,
  probe_name (rr_name body) (Some i) (
  transact x (internal_error, []) (update_role_tx x (audit_actor user (ca_api_token c)) i body) (λ '(after, row),
    _ ← flush x row;
    mret (RoleBody 200 after)))))).

(** Does some grant of the list reach the system plane? *)
Definition grants_reach_system_plane (gs : list ResolvedGrant) : Result AccessGrantError bool :=
  for_fold (λ acc g, v ← patterns_reach_system_plane (rg_patterns g); Ok (acc || v)) false gs.

Definition delete_role_tx (x : Faults) (authority : AccessAuthority) (actor : Actor) (i : Uuid) (existing : RoleModel)
    : Tx AuditRow :=
  load ← tx_read (λ st, map_err grant_api_error (list_grants (core st) default_tenant_id (Some (Role i))));
  _ ← tx_read (λ _, if 0 <? corrupt_skipped load then Err internal_error else Ok tt);
  system_plane ← tx_read (λ _, map_err grant_api_error (grants_reach_system_plane (grants load)));
  _ ← (if (system_plane : bool) then system_access x authority else mret tt);
  _ ← guard x grant_api_error (DeleteRole i) "role.delete" actor "role" i;
  _ ← tx_write (λ st, map_err role_api_error
        (st' ← query_delete_role_rows st default_tenant_id i; Ok (tt, st')));
  _ ← tx_write (λ st, map_err grant_api_error
        (r ← delete_grants_for_role (core st) i; Ok (tt, with_core r.1 st)));
  let row := role_audit "role.delete" actor (Some existing) None in
  _ ← audit_or_abort x row;
  mret row.

Definition delete_role (x : Faults) (c : Caller) (i : Uuid) : Server Response :=
  behind (CanManageAccess x) c (λ user authority,
  own_role i (λ existing,
  transact x (internal_error, []) (delete_role_tx x authority (audit_actor user (ca_api_token c)) i existing) (λ row,
    _ ← flush x row;
    _ ← announce [] [i];
    mret NoContent))).

(** ** Users ([routes/users.rs]) *)

Definition table_query {A} (t : Table) (f : Store → A) : Server (Result DbErr A) :=
  Handlers.query (λ st, match db_fail (core st) t with Some e => Err e | None => Ok (f st) end).

(** Roles of the user in the tenant, then their names. *)
Definition get_user_role_summaries (u : Uuid) : Server (Result DbErr (list (Uuid * string))) :=
  r ← table_query TUserRoles (λ st,
    as_role_id <$> filter (λ a, as_tenant_id a = default_tenant_id ∧ as_user_id a = u) (user_roles (core st)));
  match r with
  | Err e => mret (Err e)
  | Ok [] => mret (Ok [])
  | Ok ids => table_query TRoles (λ st,
      (λ m, (ro_id m, ro_name m)) <$> filter (λ m, ro_id m ∈ ids) (role_rows st))
  end.

Definition build_user_response (u : UserModel) : Server (Result DbErr UserWithRolesResponse) :=
  r ← get_user_role_summaries (us_id u);
  mret (result_map (mkUserResponse u) r).

Definition user_answer (u : UserModel) : Server Response :=
  r ← build_user_response u;
  mret match r with Ok b => UserBody b | Err _ => internal_error end.

(** The loop of [list_users]. *)
Fixpoint build_user_responses (us : list UserModel) (acc : list UserWithRolesResponse) : Server Response :=
  match us with
  | [] => mret (UserList acc)
  | u :: us' =>
      r ← build_user_response u;
      match r with Ok b => build_user_responses us' (acc ++ [b]) | Err _ => mret internal_error end
  end.

Definition list_users (x : Faults) (c : Caller) : Server Response :=
  behind (CanManageUsers x) c (λ _ _,
  r ← table_query TUsers user_rows;
  match r with Ok us => build_user_responses us [] | Err _ => mret internal_error end).

Definition get_user (x : Faults) (c : Caller) (u : Uuid) : Server Response :=
  behind (CanManageUsers x) c (λ _ _,
  r ← table_query TUsers (λ st, user_row st u);
  match r with
  | Ok (Some m) => user_answer m
  | Ok None => mret (ErrorResponse 404 "User not found")
  | Err _ => mret internal_error
  end).

Definition user_event (x : Faults) (actor : Actor) (u : Uuid) (o : AuditOutcome) (reason : string) : list Event :=
  if event_ok x
  then [AuditEvent "user.update" (TenantScope default_tenant_id) actor (OnEntity "user" u) o reason] else [].

(** The loop over the roles the request adds. *)
Definition role_plane_step (db : Db) (acc : bool) (role : Uuid) : Result Response bool :=
  load ← map_err (λ _, internal_error) (list_grants db default_tenant_id (Some (Role role)));
  if 0 <? corrupt_skipped load then Err internal_error
  else v ← map_err (λ _, internal_error) (grants_reach_system_plane (grants load)); Ok (acc || v).

Definition added_roles_reach_system_plane (db : Db) (u : Uuid) (requested : list Uuid) : Result Response bool :=
  match db_fail db TUserRoles with
  | Some _ => Err internal_error
  | None =>
      let current := as_role_id <$> filter (λ a, as_tenant_id a = default_tenant_id ∧ as_user_id a = u) (user_roles db) in
      for_fold (role_plane_step db) false (filter (λ r, r ∉ current) requested)
  end.

(** The foreign keys of [user_roles]. *)
Definition assignable (db : Db) (u : Uuid) (rs : list Uuid) : bool :=
  bool_decide (default_tenant_id ∈ tenants db) && bool_decide (is_Some (users db !! u))
  && forallb (λ r, bool_decide (is_Some (roles db !! r))) rs.

Definition user_roles_audit (actor : Actor) (u : Uuid) (current ids : list Uuid) : AuditRow :=
  mkAuditRow "user_role.update" (TenantScope default_tenant_id) actor
    (Some (UserRolesSnapshot (mkUserRolesView u current))) (Some (UserRolesSnapshot (mkUserRolesView u ids))) Success.

Definition user_roles_tx (x : Faults) (authority : AccessAuthority) (actor : Actor) (u : Uuid)
    (current ids : list Uuid) : Tx AuditRow :=
  reaches ← tx_read (λ st, added_roles_reach_system_plane (core st) u ids);
  _ ← (if (reaches : bool) then system_access x authority else mret tt);
  _ ← guard x (λ _, internal_error) (SetUserRoles default_tenant_id u ids) "user_role.update" actor "user" u;
  _ ← (λ st, match replace_user_roles (core st) default_tenant_id u ids with
             | Ok d => if assignable (core st) u ids then Ok (tt, with_core d st)
                       else Err (internal_error, user_event x actor u Failed "user_role_insert_failed")
             | Err _ => Err (internal_error, user_event x actor u Failed
                          (match db_fail (core st) TUserRoles with
                           | Some _ => "user_role_delete_failed" | None => "user_role_insert_failed" end))
             end);
  let row := user_roles_audit actor u current ids in
  _ ← audit_if_possible x row;
  mret row.

Definition update_user_roles (x : Faults) (c : Caller) (u : Uuid) (ids : list Uuid) : Server Response :=
  behind (CanManageAccess x) c (λ user authority,
  let actor := audit_actor user (ca_api_token c) in
  let refuse r o reason := answer (r, user_event x actor u o reason) in
  match validate_role_ids ids with
  | Err r => refuse r ValidationFailed "invalid_role_request"
  | Ok _ =>
      found ← table_query TUsers (λ st, user_row st u);
      match found with
      | Ok None => refuse (ErrorResponse 404 "User not found") Denied "user_not_found"
      | Err _ => refuse internal_error Failed "user_lookup_failed"
      | Ok (Some m) =>
          requested ← table_query TRoles (λ st, filter (λ r, ro_id r ∈ ids) (role_rows st));
          match requested with
          | Err _ => refuse internal_error Failed "role_lookup_failed"
          | Ok rs =>
              if negb (length rs =? length ids)
              then refuse (ErrorResponse 400 "One or more role IDs not found") ValidationFailed "role_not_found"
              else
                summaries ← get_user_role_summaries u;
                match summaries with
                | Err _ => refuse internal_error Failed "current_roles_lookup_failed"
                | Ok l =>
                    transact x (internal_error, user_event x actor u Failed "user_update_transaction_start_failed")
                      (user_roles_tx x authority actor u l.*1 ids) (λ row,
                      _ ← flush x row;
                      _ ← announce [u] [];
                      user_answer m)
                end
          end
      end
  end).

(** [update_user_active_in_tx]: the rows before and after. *)
Definition tx_user_active (x : Faults) (actor : Actor) (u : Uuid) (active : bool) : Tx (UserModel * UserModel) := λ st,
  match update_user_active_in_tx (core st) u active with
  | Err _ => Err (internal_error, user_event x actor u Failed "user_update_failed")
  | Ok d =>
      match d, user_row st u, user_meta st !! u with
      | Some d, Some before, Some m =>
          Ok ((before, mkUserModel u (us_email before) (us_first_name before) (us_last_name before) active),
              with_user_meta (<[u := mkUserMeta (um_email m) (um_first_name m) (um_last_name m)
                                       (if active then None else Some (clock x)) (clock x)]> (user_meta st))
                (with_core d st))
      | _, _, _ => Err (ErrorResponse 404 "User not found", user_event x actor u Denied "user_not_found")
      end
  end.

Definition user_active_tx (x : Faults) (actor : Actor) (u : Uuid) (active : bool) : Tx (UserModel * UserModel * AuditRow) :=
  _ ← (if active then mret tt
       else guard x (λ _, internal_error) (DeactivateUser u) "user.update" actor "user" u);
  pair ← tx_user_active x actor u active;
  let row := mkAuditRow "user.update" (TenantScope default_tenant_id) actor
               (Some (UserSnapshot pair.1)) (Some (UserSnapshot pair.2)) Success in
  _ ← audit_if_possible x row;
  mret (pair, row).

Definition update_user_active (x : Faults) (c : Caller) (u : Uuid) (active : bool) : Server Response :=
  behind (CanManageUsers x) c (λ user _,
  let actor := audit_actor user (ca_api_token c) in
  if negb active && bool_decide (au_user_id user = u)
  then answer (ErrorResponse 409 "Cannot deactivate your own account", user_event x actor u Denied "self_deactivation_blocked")
  else
    transact x (internal_error, []) (user_active_tx x actor u active) (λ '(before, after, row),
      _ ← flush x row;
      _ ← (if bool_decide (us_is_active before ≠ active) then announce [u] [] else mret tt);
      user_answer after)).

(** [update_profile]: one's own, or with [users:manage]; the names only. *)
Definition validate_profile (first last : string) : Result Response unit :=
  let invalid field message := ErrorResponse 422 (field +:+ ": " +:+ message) in
  if str_is_empty first then Err (invalid "first_name" "first_name must not be empty")
  else if 100 <? str_len first then Err (invalid "first_name" "first_name must not exceed 100 characters")
  else if 100 <? str_len last then Err (invalid "last_name" "last_name must not exceed 100 characters")
  else Ok tt.

Definition update_profile (x : Faults) (c : Caller) (u : Uuid) (first last : string) : Server Response :=
  match ca_user c, ca_authority c with
  | Some user, Some authority =>
      denied ← (if decide (au_user_id user = u) then mret None
                else match ready authority with
                     | None => mret (Some (ErrorResponse 500 "Authorization authority unavailable", []))
                     | Some ctx =>
                         Handlers.query (λ st, match authorize (engine st) ctx USERS_MANAGE with
                                               | Allow => None
                                               | Deny reason => Some (ErrorResponse 403 "Cannot update another user's profile",
                                                                      record_access_denied x ctx [USERS_MANAGE] reason)
                                               end)
                     end);
      match denied with
      | Some d => answer d
      | None =>
          validated (validate_profile first last) (
          found ← table_query TUsers (λ st, user_meta st !! u);
          match found with
          | Err _ => mret internal_error
          | Ok None => mret (ErrorResponse 404 "User not found")
          | Ok (Some _) =>
              ok ← exec (λ st,
                match db_fail (core st) TUsers, user_meta st !! u with
                | None, Some m =>
                    (true, with_user_meta (<[u := mkUserMeta (um_email m) first last (um_deactivated_at m) (clock x)]>
                                             (user_meta st)) st)
                | _, _ => (false, st)
                end);
              mret (if (ok : bool) then NoContent else internal_error)
          end)
      end
  | _, _ => mret (ErrorResponse 500 "Missing request extension")
  end.

(** ** The routes together *)

Inductive Route :=
| CreateGrant (body : CreateAccessGrantRequest)
| ListGrants (kind : option GrantSubjectType) (subject : option Uuid)
| GetGrant (i : Uuid)
| PutGrant (i : Uuid) (body : UpdateAccessGrantRequest)
| RemoveGrant (i : Uuid)
| ListRoles
| GetRole (i : Uuid)
| CreateRole (body : RoleRequest)
| PutRole (i : Uuid) (body : RoleRequest)
| RemoveRole (i : Uuid)
| ListUsers
| GetUser (u : Uuid)
| PutUserRoles (u : Uuid) (ids : list Uuid)
| PutUserActive (u : Uuid) (active : bool)
| PutProfile (u : Uuid) (first last : string).

Definition serve (x : Faults) (c : Caller) (route : Route) : Server Response :=
  match route with
  | CreateGrant body => create_access_grant x c body
  | ListGrants t s => list_access_grants x c t s
  | GetGrant i => get_access_grant x c i
  | PutGrant i body => update_access_grant x c i body
  | RemoveGrant i => delete_access_grant x c i
  | ListRoles => list_roles x c
  | GetRole i => get_role x c i
  | CreateRole body => create_role x c body
  | PutRole i body => update_role x c i body
  | RemoveRole i => delete_role x c i
  | ListUsers => list_users x c
  | GetUser u => get_user x c u
  | PutUserRoles u ids => update_user_roles x c u ids
  | PutUserActive u active => update_user_active x c u active
  | PutProfile u first last => update_profile x c u first last
  end.

End Routes.

End AccessApi.
