(* ===== verification/AccessRouteTheorems.v ===== *)
(** What the access management endpoints guarantee among other requests: no escalation to the
    system plane, an administrator left on every plane, and an invalidation for every principal
    whose authority changed; with runs on concrete data. *)

From stdpp Require Import base list gmap sets strings numbers sorting relations.
From S2P Require Import Prelude RustStr Json AccessVocab AccessTheorems AccessGrants AccessEngine GrantLemmas.
From S2P Require Import AccessDecisions Lockout Handlers AuthStore AuthRoutes AccessRoutes.

(** ** What a committed request wrote *)

Import Grants Engine AccessApi.

Section Commits.
Context `{SerdeSelector} (tenant : Uuid).

(** The authority passes the fine check for the system plane; so does that of the caller. *)
Definition may_of (a : AccessAuthority) : Prop :=
  ∃ ctx e, a = Ready ctx ∧ authorize e ctx SYSTEM_ACCESS_MANAGE = Allow.
Definition holds_system_access (c : Caller) : Prop := ∃ a, ca_authority c = Some a ∧ may_of a.

(** What the transactions do to the tables of authority, and whom they announce. [may] is the
    permission for writes that reach the system plane. *)
Inductive commit (may : Prop) : Db → list Uuid → list Uuid → Db → Prop :=
| c_none d : commit may d [] [] d
| c_create d s t ps sel desc by_ i now d' sys :
    Forall parsed ps → patterns_reach_system_plane ps = Ok sys → (sys = true → may) →
    insert_grant d (mkNewGrant s t ps sel desc by_) i now = Ok (d', i) →
    commit may d (subject_invalidation_ids s).1 (subject_invalidation_ids s).2 d'
| c_update d i before ps sel desc now d' sys1 sys2 :
    Forall parsed ps → load_grant d i = Ok before →
    patterns_reach_system_plane (rg_patterns before) = Ok sys1 →
    patterns_reach_system_plane ps = Ok sys2 → (sys1 || sys2 = true → may) →
    check_lockout d tenant (UpdateGrant i ps sel) = Ok Permitted →
    update_grant d i (mkGrantUpdate ps sel desc) now = Ok d' →
    commit may d (subject_invalidation_ids (rg_subject before)).1
                 (subject_invalidation_ids (rg_subject before)).2 d'
| c_delete d i stored d' :
    load_grant d i = Ok stored →
    check_lockout d tenant (DeleteGrant i) = Ok Permitted → delete_grant d i = Ok d' →
    commit may d (subject_invalidation_ids (rg_subject stored)).1
                 (subject_invalidation_ids (rg_subject stored)).2 d'
| c_role d i t : roles d !! i = None →
    commit may d [] [] (with_roles (<[i := t]> (roles d)) (user_roles d) d)
| c_delete_role d i d1 d' n :
    check_lockout d tenant (DeleteRole i) = Ok Permitted →
    delete_role_rows d tenant i = Ok d1 → delete_grants_for_role d1 i = Ok (d', n) →
    commit may d [] [i] d'
| c_user_roles d u ids d' sys :
    added_roles_reach_system_plane tenant d u ids = Ok sys → (sys = true → may) →
    check_lockout d tenant (SetUserRoles tenant u ids) = Ok Permitted →
    replace_user_roles d tenant u ids = Ok d' →
    commit may d [u] [] d'
| c_active d u active d' us :
    (active = false → check_lockout d tenant (DeactivateUser u) = Ok Permitted) →
    update_user_active_in_tx d u active = Ok (Some d') →
    commit may d us [] d'.

Lemma tx_bind_ok {A B} (m : Tx A) (k : A → Tx B) st r :
  (m ≫= k) st = Ok r ↔ ∃ a st1, m st = Ok (a, st1) ∧ k a st1 = Ok r.
Proof.
  unfold mbind, Tx_bind. destruct (m st) as [[a st1]|d]; [|naive_solver].
  split; [by exists a, st1|]. by intros (? & ? & [= <- <-] & ?).
Qed.

Lemma tx_ret_ok {A} (a : A) st r : (mret a : Tx A) st = Ok r ↔ r = (a, st).
Proof. unfold mret, Tx_ret. naive_solver. Qed.

Lemma tx_read_ok {A} (f : Store → Result Response A) st r :
  tx_read f st = Ok r ↔ ∃ a, f st = Ok a ∧ r = (a, st).
Proof. unfold tx_read. destruct (f st); naive_solver. Qed.

Lemma tx_write_ok {A} (f : Store → Result Response (A * Store)) st r :
  tx_write f st = Ok r ↔ f st = Ok r.
Proof. unfold tx_write. destruct (f st); naive_solver. Qed.

Lemma audit_or_abort_ok x row st r :
  audit_or_abort x row st = Ok r → r = (tt, with_audit (audit_rows st ++ [row]) st).
Proof. unfold audit_or_abort. destruct (build_ok x && emit_ok x); naive_solver. Qed.

Lemma audit_if_possible_ok x row st r :
  audit_if_possible x row st = Ok r → ∃ l, r = (tt, with_audit l st).
Proof.
  unfold audit_if_possible. destruct (build_ok x && emit_ok x); intros [= <-]; [by eexists|].
  exists (audit_rows st). by destruct st.
Qed.

Lemma lockout_asked x err m action actor tt_ i st r :
  guard tenant x err m action actor tt_ i st = Ok r →
  r = (tt, st) ∧ check_lockout (core st) tenant m = Ok Permitted.
Proof. unfold guard. destruct (check_lockout _ _ _) as [[]|]; naive_solver. Qed.

Lemma system_access_ok x authority st r :
  system_access x authority st = Ok r →
  r = (tt, st) ∧ ∃ ctx, authority = Ready ctx ∧ authorize (engine st) ctx SYSTEM_ACCESS_MANAGE = Allow.
Proof.
  unfold system_access, require_system_access. destruct authority as [ctx|]; simpl; [|done].
  destruct (authorize _ _ _) eqn:E; [|done]. intros [= <-]. eauto.
Qed.

Lemma fine_check_ok (b : bool) x authority st r :
  (if b then system_access x authority else mret tt : Tx unit) st = Ok r →
  r = (tt, st) ∧ (b = true → may_of authority).
Proof.
  destruct b.
  - intros [-> (ctx & ? & ?)]%system_access_ok. unfold may_of. eauto 6.
  - intros ->%tx_ret_ok. done.
Qed.

End Commits.

(** Open a transaction that was committed. *)
Ltac inv_tx :=
  repeat match goal with
  | H : (_, _) = (_, _) |- _ => injection H as H; subst
  | H : (_ ≫= _) _ = Ok _ |- _ =>
      let a := fresh "a" in let s := fresh "s" in let Ha := fresh "Ha" in
      apply tx_bind_ok in H as (a & s & Ha & H)
  | H : mret _ _ = Ok _ |- _ => apply tx_ret_ok in H; subst
  | H : tx_read _ _ = Ok _ |- _ =>
      let a := fresh "v" in let Ha := fresh "Hr" in
      apply tx_read_ok in H as (a & Ha & H)
  | H : tx_write _ _ = Ok _ |- _ => apply tx_write_ok in H
  | H : map_err _ _ = Ok _ |- _ => apply map_err_ok in H
  | H : audit_or_abort _ _ _ = Ok _ |- _ => apply audit_or_abort_ok in H
  | H : audit_if_possible _ _ _ = Ok _ |- _ =>
      let l := fresh "l" in apply audit_if_possible_ok in H as [l H]
  | H : guard _ _ _ _ _ _ _ _ _ = Ok _ |- _ =>
      let Hg := fresh "Hguard" in apply lockout_asked in H as [H Hg]
  | H : (if _ then system_access _ _ else _) _ = Ok _ |- _ =>
      let Hs := fresh "Hsys" in apply fine_check_ok in H as [H Hs]
  end; inv_ok.

Section Transactions.
Context `{SerdeSelector} (tenant : Uuid).

Lemma create_tx_ok x user actor body ps t (sys : bool) (may : Prop) st res row st' :
  Forall parsed ps → patterns_reach_system_plane ps = Ok sys → (sys = true → may) →
  create_tx x user actor body ps t st = Ok (res, row, st') →
  commit tenant may (core st) (subject_invalidation_ids (cg_subject body)).1
    (subject_invalidation_ids (cg_subject body)).2 (core st') ∧ engine st' = engine st.
Proof.
  intros Hps Hsys Hmay Htx. unfold create_tx, tx_load_grant in Htx. inv_tx. destruct a0 as [d i].
  match goal with Hi : insert_grant _ _ _ _ = _ |- _ =>
    pose proof (insert_grant_ok _ _ _ _ _ _ Hi Hps) as (-> & _) end.
  simpl. split; [|done]. by eapply c_create.
Qed.

Lemma update_tx_ok x authority actor i body ps st before after row st' :
  Forall parsed ps → update_tx tenant x authority actor i body ps st = Ok (before, after, row, st') →
  commit tenant (may_of authority) (core st) (subject_invalidation_ids (rg_subject before)).1
    (subject_invalidation_ids (rg_subject before)).2 (core st') ∧ engine st' = engine st.
Proof.
  intros Hps Htx. unfold update_tx, tx_load_grant, own, tx_plane in Htx. inv_tx.
  split; [|done]. eapply c_update; eauto.
Qed.

Lemma delete_tx_ok x authority actor i st stored row st' :
  delete_tx tenant x authority actor i st = Ok (stored, row, st') →
  commit tenant (may_of authority) (core st) (subject_invalidation_ids (rg_subject stored)).1
    (subject_invalidation_ids (rg_subject stored)).2 (core st') ∧ engine st' = engine st.
Proof.
  intros Htx. unfold delete_tx, tx_load_grant, own, tx_plane in Htx. inv_tx.
  split; [|done]. eapply c_delete; eauto.
Qed.

Lemma create_role_tx_ok x actor body may st created row st' :
  create_role_tx tenant x actor body st = Ok (created, row, st') →
  commit tenant may (core st) [] [] (core st') ∧ engine st' = engine st.
Proof.
  intros Htx. unfold create_role_tx, query_create_role, role_query in Htx. inv_tx.
  destruct (_ || _ || _) eqn:E; [done|]. apply orb_false_iff in E as [[E _]%orb_false_iff _].
  destruct (db_fail _ _); [done|]. inv_tx. split; [|done]. simpl. apply c_role.
  apply bool_decide_eq_false in E. by apply eq_None_not_Some.
Qed.

Lemma update_role_tx_ok x actor i body may st after row st' :
  update_role_tx tenant x actor i body st = Ok (after, row, st') →
  commit tenant may (core st) [] [] (core st') ∧ engine st' = engine st.
Proof.
  intros Htx. unfold update_role_tx, query_update_role in Htx. inv_tx. destruct a as [b a]. inv_tx.
  destruct (role_row st i); [|done]. destruct (tenant_name_taken _ _ _ _); [done|]. inv_tx.
  split; [apply c_none|done].
Qed.

Lemma delete_role_tx_ok x authority actor i existing st row st' :
  delete_role_tx tenant x authority actor i existing st = Ok (row, st') →
  commit tenant (may_of authority) (core st) [] [i] (core st') ∧ engine st' = engine st.
Proof.
  intros Htx. unfold delete_role_tx, query_delete_role_rows in Htx. inv_tx.
  repeat match goal with p : (_ * _)%type |- _ => destruct p end.
  split; [|done]. eapply c_delete_role; eauto.
Qed.

Lemma user_roles_tx_ok x authority actor u current ids st row st' :
  user_roles_tx tenant x authority actor u current ids st = Ok (row, st') →
  commit tenant (may_of authority) (core st) [u] [] (core st') ∧ engine st' = engine st.
Proof.
  intros Htx. unfold user_roles_tx in Htx. inv_tx.
  destruct (replace_user_roles _ _ _ _) as [d|] eqn:E; [|done].
  destruct (assignable _ _ _ _); [|done]. inv_tx. split; [|done]. eapply c_user_roles; eauto.
Qed.

Lemma user_active_tx_ok x actor u active may us st before after row st' :
  user_active_tx tenant x actor u active st = Ok (before, after, row, st') →
  commit tenant may (core st) us [] (core st') ∧ engine st' = engine st.
Proof.
  intros Htx. unfold user_active_tx in Htx. inv_tx.
  assert (s = st ∧ (active = false → check_lockout (core st) tenant (DeactivateUser u) = Ok Permitted)) as [-> Hl].
  { destruct active; inv_tx; done. }
  unfold tx_user_active in *. destruct (update_user_active_in_tx _ _ _) as [[d|]|] eqn:E; [|done..].
  destruct (user_row _ _); [|done]. destruct (user_meta _ !! _); [|done]. inv_tx.
  split; [|done]. by eapply c_active.
Qed.

End Transactions.

(** ** Every statement of a route *)

Section Statements.
Context `{SerdeSelector} (tenant : Uuid) (x : Faults) (c : Caller) (env : relation Store).
Context (env_core : ∀ st st', core st' = core st → env st st').
Context (env_commit : ∀ st st' us rs, table_ok (core st) →
  commit tenant (holds_system_access c) (core st) us rs (core st') → env st st').

Notation ok := (obeys_under (Ev := Event) env (λ st, table_ok (core st))).

Lemma mapM_parsed ss ps : mapM Pattern.from_str ss = Ok ps → Forall parsed ps.
Proof.
  revert ps. induction ss as [|s ss IH]; intros ps; simpl.
  - intros [= <-]. constructor.
  - intros Hm. inv_ok. injection Hm as <-. constructor; [by exists s|by apply IH].
Qed.

Lemma commit_mono may (may' : Prop) d us rs d' :
  (may → may') → commit tenant may d us rs d' → commit tenant may' d us rs d'.
Proof.
  intros Hm Hc. destruct Hc; [apply c_none|eapply c_create|eapply c_update|eapply c_delete|by apply c_role
    |eapply c_delete_role|eapply c_user_roles|eapply c_active]; eauto.
Qed.

Lemma ok_answer d : ok (answer d).
Proof. destruct d as [r es]. unfold answer. simpl. by induction es. Qed.

Lemma ok_announce us rs : ok (announce us rs).
Proof. intros st _. split; [by apply rtc_once, env_core|done]. Qed.

Lemma ok_flush row : ok (flush x row).
Proof. unfold flush. by destruct (_ && _). Qed.

Lemma ok_transact {A} nb (body : Tx A) (k : A → Handler Store Event Response) :
  (∀ st a st', table_ok (core st) → body st = Ok (a, st') →
     ∃ us rs, commit tenant (holds_system_access c) (core st) us rs (core st')) →
  (∀ a, ok (k a)) → ok (transact x nb body k).
Proof.
  intros Hb Hk. unfold transact. destruct (begin_ok x); [|apply ok_answer].
  apply under_exec. intros st Hst. destruct (body st) as [[a st']|d] eqn:E; cbn [fst snd].
  - destruct (commit_ok x); cbn [fst snd]; (split; [|first [apply Hk|apply ok_answer]]).
    + destruct (Hb _ _ _ Hst E) as (us & rs & Hc). by eapply env_commit.
    + by apply env_core.
  - split; [by apply env_core|apply ok_answer].
Qed.

Lemma ok_behind ext (k : AuthApi.AuthenticatedUser → AccessAuthority → Handler Store Event Response) :
  (∀ st user a, ext c (engine st) = Ok (user, a) → ca_authority c = Some a) →
  (∀ user a, ca_authority c = Some a → ok (k user a)) → ok (behind ext c k).
Proof.
  intros He Hk. apply under_query. intros st _. destruct (ext c (engine st)) as [[user a]|] eqn:E.
  - apply Hk. by eapply He.
  - apply ok_answer.
Qed.

Lemma extractor_authority a st user auth :
  action_extractor x a c (engine st) = Ok (user, auth) → ca_authority c = Some auth.
Proof.
  unfold action_extractor. destruct (ca_user c); [|done]. destruct (ca_authority c) as [[ctx|]|]; [|done..].
  destruct (authorize _ _ _); [|done]. by intros [= <- <-].
Qed.

Lemma ok_validated v k : ok k → ok (validated v k).
Proof. by destruct v. Qed.

Lemma ok_read {A B} (f : Store → A) (k : A → Handler Store Event B) : (∀ a, ok (k a)) → ok (Handlers.query f ≫= k).
Proof. intros Hk. apply under_query. intros st _. apply Hk. Qed.

Lemma ok_grant_done s row r : ok (grant_done x s row r).
Proof.
  unfold grant_done. apply under_bind; [apply ok_flush|intros _].
  destruct s; (apply under_bind; [apply ok_announce|done]).
Qed.

Lemma ok_summaries u : ok (get_user_role_summaries tenant u).
Proof. apply ok_read. intros [[|i l]|]; [done| |done]. by apply under_query. Qed.

Lemma ok_response u : ok (build_user_response tenant u).
Proof. apply under_bind; [apply ok_summaries|done]. Qed.

Lemma ok_user_answer u : ok (user_answer tenant u).
Proof. apply under_bind; [apply ok_response|done]. Qed.

Lemma ok_user_responses us acc : ok (build_user_responses tenant us acc).
Proof.
  revert acc. induction us as [|u us IH]; intros acc; [done|]. cbn [build_user_responses].
  apply under_bind; [apply ok_response|]. intros [b|]; [apply IH|done].
Qed.

Lemma commit_any d us rs d' a :
  ca_authority c = Some a → commit tenant (may_of a) d us rs d' →
  commit tenant (holds_system_access c) d us rs d'.
Proof. intros Ha. apply commit_mono. by exists a. Qed.

Lemma ok_create body : ok (create_access_grant tenant x c body).
Proof.
  apply ok_behind; [apply extractor_authority|]. intros user a Ha. apply ok_validated.
  unfold parse_patterns. destruct (mapM _ _) as [ps|] eqn:Ep; [|done]. cbn [map_err]. apply mapM_parsed in Ep.
  destruct (patterns_reach_system_plane ps) as [sys|] eqn:Es; [|done].
  assert (∀ den, (den = None → sys = true → holds_system_access c) →
    ok match den with
       | Some d => answer d
       | None => transact x (internal_error, []) (create_tx x user (audit_actor user (ca_api_token c)) body ps
           match cg_subject body, sys with User _, false => Some tenant | _, _ => None end)
           (λ '(resolved, row), grant_done x (cg_subject body) row (GrantBody 201 (resolved_to_response resolved)))
       end) as Hk.
  { intros [d|] Hd; [apply ok_answer|]. apply ok_transact; [|intros [res row]; apply ok_grant_done].
    intros st [res row] st' _ Htx. do 2 eexists. eapply create_tx_ok; eauto. }
  destruct sys; [|by refine (Hk None _)]. apply under_query. intros st _. apply Hk. intros Hn _. exists a. split; [done|].
  unfold require_system_access in Hn. destruct a as [ctx|]; simpl in Hn; [|done].
  destruct (authorize _ _ _) eqn:E; [|done]. by exists ctx, (engine st).
Qed.

Lemma ok_update i body : ok (update_access_grant tenant x c i body).
Proof.
  apply ok_behind; [apply extractor_authority|]. intros user a Ha. apply ok_validated.
  unfold parse_patterns. destruct (mapM _ _) as [ps|] eqn:Ep; [|done]. cbn [map_err]. apply mapM_parsed in Ep.
  apply ok_transact; [|intros [[before after] row]; apply ok_grant_done].
  intros st [[before after] row] st' _ Htx. do 2 eexists. eapply commit_any, update_tx_ok; eauto.
Qed.

Lemma ok_delete i : ok (delete_access_grant tenant x c i).
Proof.
  apply ok_behind; [apply extractor_authority|]. intros user a Ha.
  apply ok_transact; [|intros [stored row]; apply ok_grant_done].
  intros st [stored row] st' _ Htx. do 2 eexists. eapply commit_any, delete_tx_ok; eauto.
Qed.

Lemma ok_own_role i k : (∀ r, ok (k r)) → ok (own_role tenant i k).
Proof.
  intros Hk. apply ok_read. intros [r|]; [|done]. destruct (built_in_immutable_response r); [done|].
  by destruct (bool_decide _).
Qed.

Lemma ok_probe name ex k : ok k → ok (probe_name tenant name ex k).
Proof. intros Hk. apply ok_read. intros [hit|]; [|done]. by destruct (collision_response hit). Qed.

Lemma ok_create_role body : ok (create_role tenant x c body).
Proof.
  apply ok_behind; [apply extractor_authority|]. intros user a Ha. apply ok_validated, ok_probe, ok_transact.
  - intros st [r row] st' _ Htx. do 2 eexists. eapply create_role_tx_ok; eauto.
  - intros [r row]. apply under_bind; [apply ok_flush|done].
Qed.

Lemma ok_update_role i body : ok (update_role tenant x c i body).
Proof.
  apply ok_behind; [apply extractor_authority|]. intros user a Ha.
  apply ok_validated, ok_own_role. intros _. apply ok_probe, ok_transact.
  - intros st [r row] st' _ Htx. do 2 eexists. eapply update_role_tx_ok; eauto.
  - intros [r row]. apply under_bind; [apply ok_flush|done].
Qed.

Lemma ok_delete_role i : ok (delete_role tenant x c i).
Proof.
  apply ok_behind; [apply extractor_authority|]. intros user a Ha.
  apply ok_own_role. intros existing. apply ok_transact.
  - intros st row st' _ Htx. do 2 eexists. eapply commit_any, delete_role_tx_ok; eauto.
  - intros row. apply under_bind; [apply ok_flush|intros _]. apply under_bind; [apply ok_announce|done].
Qed.

Lemma ok_user_roles u ids : ok (update_user_roles tenant x c u ids).
Proof.
  apply ok_behind; [apply extractor_authority|]. intros user a Ha.
  destruct (validate_role_ids ids); [|apply ok_answer].
  apply ok_read. intros [[m|]|]; [|apply ok_answer..].
  apply ok_read. intros [rs|]; [|apply ok_answer]. destruct (negb _); [apply ok_answer|].
  apply under_bind; [apply ok_summaries|]. intros [l|]; [|apply ok_answer]. apply ok_transact.
  - intros st row st' _ Htx. do 2 eexists. eapply commit_any, user_roles_tx_ok; eauto.
  - intros row. apply under_bind; [apply ok_flush|intros _].
    apply under_bind; [apply ok_announce|intros _]. apply ok_user_answer.
Qed.

Lemma ok_user_active u active : ok (update_user_active tenant x c u active).
Proof.
  apply ok_behind; [apply extractor_authority|]. intros user a Ha.
  destruct (negb active && _); [apply ok_answer|]. apply ok_transact.
  - intros st [[before after] row] st' _ Htx. exists [], []. eapply user_active_tx_ok; eauto.
  - intros [[before after] row]. apply under_bind; [apply ok_flush|intros _].
    apply under_bind; [|intros _; apply ok_user_answer]. destruct (bool_decide _); [apply ok_announce|done].
Qed.

Lemma ok_profile u first last : ok (update_profile x c u first last).
Proof.
  unfold update_profile. destruct (ca_user c) as [user|]; [|done]. destruct (ca_authority c) as [auth|]; [|done].
  apply under_bind.
  { destruct (decide _); [done|]. destruct (ready auth); [|done]. by apply under_query. }
  intros [d|]; [apply ok_answer|]. apply ok_validated, ok_read. intros [[m|]|]; [|done..].
  apply under_exec. intros st _. split; [|done]. apply env_core.
  destruct (db_fail _ _); [done|]. by destruct (user_meta st !! u).
Qed.

(** Every statement of every route either leaves the tables of authority alone or commits one
    of the writes of [commit], with the permission the write needs. *)
Lemma serve_ok route : ok (serve tenant x c route).
Proof.
  destruct route; cbn [serve].
  1: apply ok_create. 3: apply ok_update. 3: apply ok_delete. 5: apply ok_create_role. 5: apply ok_update_role.
  5: apply ok_delete_role. 7: apply ok_user_roles. 7: apply ok_user_active. 7: apply ok_profile.
  all: apply ok_behind; [apply extractor_authority|]; intros ? ? _.
  - destruct kind as [[]|], subject; try done; by apply under_query.
  - by apply under_query.
  - by apply under_query.
  - by apply under_query.
  - apply ok_read. intros [us|]; [apply ok_user_responses|done].
  - apply ok_read. intros [[m|]|]; [apply ok_user_answer|done..].
Qed.

End Statements.

(** ** Authority before and after *)

Section Authority.
Context `{SerdeSelector} (tenant : Uuid).

(** The engine, resolving [u] in [t] from this database, finds a grant of [a]. *)
Definition confers (d : Db) (t u : Uuid) (a : Action.Action) : Prop :=
  ∃ auth, load_authority d 0 t u = Ok auth ∧ ∃ g, g ∈ auth_grants auth ∧ grant_matches a g = true.

(** Nobody has gained an action of the system plane. *)
Definition no_gain (d d' : Db) : Prop :=
  ∀ t u a, Resource.is_system (Action.resource a) = true → confers d' t u a → confers d t u a.

(** Other requests, between two statements of this one. *)
Definition others (R : relation Db) : relation Store := λ st st',
  table_ok (core st) → table_ok (core st') ∧ R (core st) (core st').

Lemma commit_table_ok may d us rs d' :
  table_ok d → commit tenant may d us rs d' → table_ok d' ∧ db_fail d' = db_fail d.
Proof.
  intros Hok Hc. destruct Hc as [d|d s t ps sel desc by_ i now d' sys Hps _ _ Hi
    |d i before ps sel desc now d' s1 s2 Hps _ _ _ _ _ Hu|d i stored d' _ _ Hd|d i t _|d i d1 d' n _ H1 H2
    |d u ids d' sys _ _ _ Hr|d u active d' us _ Hu].
  - done.
  - split; [eapply grant_write_table_ok; [eapply (w_insert d (mkNewGrant s t ps sel desc by_)); eauto|done]|].
    by destruct (insert_grant_ok _ _ _ _ _ _ Hi Hps) as (_ & _ & _ & row & -> & _).
  - eapply commits_table_ok; [done|]. by eapply commit_update.
  - eapply commits_table_ok; [done|]. by eapply commit_delete.
  - done.
  - eapply commits_table_ok; [done|]. by eapply commit_delete_role.
  - eapply commits_table_ok; [done|]. by eapply commit_set_roles.
  - unfold update_user_active_in_tx in Hu. destruct (db_fail d TUsers); [done|].
    destruct (users d !! u); [|done]. by injection Hu as <-.
Qed.

(** A run among requests that keep [R], when every commit keeps [R]. *)
Lemma serve_keeps (R : relation Db) `{!PreOrder R} x c route st r st' es :
  (∀ d us rs d', table_ok d → commit tenant (holds_system_access c) d us rs d' → R d d') →
  table_ok (core st) → runs (others R) (serve tenant x c route) st r st' es → R (core st) (core st').
Proof.
  intros HR Hok Hr.
  assert (rtc (others R) st st') as Hs.
  { eapply (runs_under (others R) (λ st, table_ok (core st))); [|exact Hr| |done].
    - intros ?? Ho ?. by apply Ho.
    - apply serve_ok.
      + intros s s' E ?. unfold others. by rewrite E.
      + intros s s' us rs ? Hc ?. split; [by eapply commit_table_ok|by eapply HR]. }
  clear Hr. induction Hs as [|s1 s2 s3 Ho _ IH]; [done|]. destruct (Ho Hok) as [H2 HR2].
  etrans; [exact HR2|by apply IH].
Qed.

(** *** The system plane *)

Lemma tenant_patterns ps a :
  patterns_reach_system_plane ps = Ok false → any_matches ps a = true →
  Resource.is_system (Action.resource a) = false.
Proof.
  unfold patterns_reach_system_plane. intros Hp (p & Hin & Hm)%any_matches_spec. inv_ok.
  erewrite (grant_plane_matches ps a0 p a) by eauto. done.
Qed.

Lemma grants_plane_false gs acc :
  for_fold (λ acc g, v ← patterns_reach_system_plane (rg_patterns g); Ok (acc || v)) acc gs = Ok false →
  acc = false ∧ ∀ g, g ∈ gs → patterns_reach_system_plane (rg_patterns g) = Ok false.
Proof.
  revert acc. induction gs as [|g gs IH]; intros acc; simpl.
  - intros [= ->]. split; [done|]. intros ? []%elem_of_nil.
  - intros Hf. inv_ok. apply IH in Hf as [[-> ->]%orb_false_iff Hgs]. split; [done|].
    intros g' [-> |?]%elem_of_cons; [done|by apply Hgs].
Qed.

Lemma roles_plane_false d l acc :
  for_fold (role_plane_step tenant d) acc l = Ok false →
  acc = false ∧ ∀ role, role ∈ l → role_plane_step tenant d false role = Ok false.
Proof.
  revert acc. induction l as [|r l IH]; intros acc; simpl.
  - intros [= ->]. split; [done|]. intros ? []%elem_of_nil.
  - intros Hf. inv_ok. apply IH in Hf as [-> Hl].
    assert (acc = false ∧ role_plane_step tenant d false r = Ok false) as [-> Hr].
    { unfold role_plane_step in *. inv_ok. rewrite Ha0. simpl. destruct (0 <? _); [done|]. inv_ok.
      rewrite Ha1. simpl. match goal with E : _ || _ = false |- _ => by apply orb_false_iff in E as [-> ->] end. }
    split; [done|]. intros role [-> |?]%elem_of_cons; [done|by apply Hl].
Qed.

(** What [confers] means on the rows. *)
Definition held (d : Db) (t u : Uuid) (a : Action.Action) : Prop :=
  ∃ r g, r ∈ access_grants d ∧ resolve_row r = Ok g ∧ grant_matches a g = true
    ∧ ((rg_subject g = User u ∧ (rg_tenant_id g = Some t ∨ rg_tenant_id g = None))
       ∨ ∃ role, rg_subject g = Role role ∧ assigned d t u role).

Lemma confers_held d d' :
  db_fail d' = db_fail d →
  (∀ t u a, Resource.is_system (Action.resource a) = true → held d' t u a → held d t u a) → no_gain d d'.
Proof.
  intros Hf Hh t u a Hs (auth & Hl & g & Hg & Hm).
  assert (held d' t u a) as Hd.
  { apply load_authority_spec in Hl as [_ Hl]. apply Hl in Hg as [(r & Hr & Hres) Hc]. by exists r, g. }
  apply Hh in Hd as (r & g' & Hr & Hres & Hm' & Hc); [|done].
  destruct (load_authority_total d 0 t u) as [auth' Ha].
  { rewrite <-Hf. unfold load_authority, load_role_ids in Hl. by destruct (db_fail d' TUserRoles). }
  { rewrite <-Hf. unfold load_authority, load_principal_grants, load_grants_for_principal, Grants.query in Hl. inv_ok.
    by destruct (db_fail d' TGrants). }
  exists auth'. split; [done|]. exists g'. split; [|done]. apply load_authority_spec in Ha as [_ Ha].
  apply Ha. split; [by exists r|done].
Qed.

(** Rows that are all rows of the database before, or of the tenant plane. *)
Lemma held_mono d d' t u a :
  Resource.is_system (Action.resource a) = true →
  (∀ r g, r ∈ access_grants d' → resolve_row r = Ok g →
     r ∈ access_grants d ∨ patterns_reach_system_plane (rg_patterns g) = Ok false) →
  (∀ role, assigned d' t u role → assigned d t u role) → held d' t u a → held d t u a.
Proof.
  intros Hs Hg Ha (r & g & Hr & Hres & Hm & Hc). destruct (Hg r g Hr Hres) as [Hin|Hp].
  - exists r, g. split_and!; [done..|]. destruct Hc as [?|(role & ? & ?)]; eauto.
  - by rewrite (tenant_patterns _ a Hp Hm) in Hs.
Qed.

Lemma added_roles_tenant d u ids role r g :
  table_ok d → added_roles_reach_system_plane tenant d u ids = Ok false →
  role ∈ ids → ¬ assigned d tenant u role → r ∈ access_grants d → resolve_row r = Ok g →
  rg_subject g = Role role → patterns_reach_system_plane (rg_patterns g) = Ok false.
Proof.
  intros [_ Hok] Ha Hrole Hna Hr Hres Hs. unfold added_roles_reach_system_plane in Ha.
  destruct (db_fail d TUserRoles); [done|]. apply roles_plane_false in Ha as [_ Ha].
  assert (role_plane_step tenant d false role = Ok false) as Hstep.
  { apply Ha, list_elem_of_filter. split; [|done].
    intros ([t' u' r'] & -> & [[Ht Hu] Hin]%list_elem_of_filter)%list_elem_of_fmap. simpl in *. by subst. }
  unfold role_plane_step in Hstep. inv_ok. apply map_err_ok in Ha0. destruct (0 <? _); [done|]. inv_ok.
  apply map_err_ok in Ha1. simpl in *. subst. apply grants_plane_false in Ha1 as [_ Hgs]. apply Hgs.
  unfold list_grants in Ha0. inv_ok. apply query_ok in Ha1 as [-> _]. apply elem_of_resolved.
  exists r. split; [|done]. rewrite merge_sort_Permutation. unfold subject_rows. rewrite !list_elem_of_filter.
  destruct (resolve_row_fields r g Hres) as (_ & Ht & Hsub & _). split; [|split; [|done]].
  - rewrite Hs in Hsub. unfold subject_from_row in Hsub. destruct (subject_type r); naive_solver.
  - right. rewrite <-Ht. destruct (Hok r g Hr Hres) as (_ & _ & (pl & _ & Hpl) & _). apply Hpl. right. eauto.
Qed.

Lemma sys_false (may : Prop) (b : bool) : ¬ may → (b = true → may) → b = false.
Proof. destruct b; naive_solver. Qed.

Lemma user_roles_held d u ids d' t v a :
  table_ok d → added_roles_reach_system_plane tenant d u ids = Ok false →
  replace_user_roles d tenant u ids = Ok d' → Resource.is_system (Action.resource a) = true →
  held d' t v a → held d t v a.
Proof.
  intros Hok Hadd Hr Hs (r & g & Hin & Hres & Hm & Hc). unfold replace_user_roles in Hr.
  destruct (db_fail d TUserRoles); [done|]. inv_ok. apply insert_user_roles_ok in Ha as ->. simpl in Hin.
  exists r, g. split_and!; [done..|]. destruct Hc as [?|(role & Hrole & Has)]; [by left|]. right.
  exists role. split; [done|]. unfold assigned in Has. simpl in Has.
  apply elem_of_app in Has as [[_ ?]%list_elem_of_filter|(role' & E & Hids)%list_elem_of_fmap]; [done|].
  injection E as -> -> ->. destruct (decide (mkAssignment tenant u role' ∈ user_roles d)); [done|].
  exfalso. pose proof (added_roles_tenant d u ids role' r g Hok Hadd Hids n Hin Hres Hrole) as Hp.
  by rewrite (tenant_patterns _ a Hp Hm) in Hs.
Qed.

Lemma commit_no_gain (may : Prop) d us rs d' :
  ¬ may → table_ok d → commit tenant may d us rs d' → no_gain d d'.
Proof.
  intros Hn Hok Hc. apply confers_held; [by eapply commit_table_ok|]. intros t v a Hs.
  destruct Hc as [d|d s t' ps sel desc by_ i now d' sys Hps Hp Hmay Hi
    |d i before ps sel desc now d' s1 s2 Hps _ _ Hp Hmay _ Hu|d i stored d' _ _ Hd|d i t' _|d i d1 d' n _ H1 H2
    |d u ids d' sys Hadd Hmay _ Hr|d u active d' us _ Hu].
  - done.
  - apply (sys_false _ _ Hn) in Hmay as ->. apply held_mono; [done| |].
    + destruct (insert_grant_ok _ _ _ _ _ _ Hi Hps) as (_ & _ & _ & row & -> & _ & _ & Hrow & _).
      intros r g [?|[-> |[]%elem_of_nil]%elem_of_cons]%elem_of_app Hres; [by left|right].
      rewrite Hrow in Hres. by injection Hres as <-.
    + by destruct (insert_grant_ok _ _ _ _ _ _ Hi Hps) as (_ & _ & _ & row & -> & _).
  - apply (sys_false _ _ Hn), orb_false_iff in Hmay as [_ ->].
    destruct (update_grant_ok _ _ _ _ _ Hu Hps) as (row & row' & _ & _ & -> & _ & _ & _ & _ & Hrow & _).
    apply held_mono; [done| |done].
    intros r g (r0 & -> & Hr0)%list_elem_of_fmap. destruct (decide (id r0 = i)); [|by left].
    rewrite Hrow. intros [= <-]. by right.
  - rewrite (delete_grant_ok _ _ _ Hd). apply held_mono; [done| |done].
    intros r g [_ ?]%list_elem_of_filter _. by left.
  - apply held_mono; [done| |done]. intros r g ? _. by left.
  - unfold delete_role_rows, get_own_role in H1. inv_ok. destruct (db_fail d TRoles); [done|].
    destruct (decide _); [|done]. inv_ok. destruct (db_fail d TUserRoles); [done|]. inv_ok.
    rewrite (delete_role_grants_ok _ _ _ _ H2). apply held_mono; [done| |].
    + intros r g [_ ?]%list_elem_of_filter _. by left.
    + intros role. unfold assigned. simpl. rewrite !list_elem_of_filter. tauto.
  - apply (sys_false _ _ Hn) in Hmay as ->. by eapply user_roles_held.
  - unfold update_user_active_in_tx in Hu. destruct (db_fail d TUsers); [done|].
    destruct (users d !! u); [|done]. injection Hu as <-. apply held_mono; [done| |done].
    intros r g ? _. by left.
Qed.

#[local] Instance no_gain_preorder : PreOrder no_gain.
Proof. split; [by intros ????|]. intros d1 d2 d3 H12 H23 t u a Hs Hc. by apply H12, H23. Qed.

(** *** Administrators *)

Lemma planes_kept_snapshot d d' :
  table_ok d → table_ok d' → db_fail d' = db_fail d → snapshot_le (snapshot d) (snapshot d') → planes_kept d d'.
Proof.
  intros Hok Hok' Hf [Ht Hs]%holders_mono.
  assert (∀ t u a, manages d t u a → no_faults d) as Hnf.
  { intros t u a (auth & Hl & _). unfold load_authority, load_role_ids, load_principal_grants,
      load_grants_for_principal, Grants.query in Hl. unfold no_faults. inv_ok.
    by destruct (db_fail d TUserRoles), (db_fail d TGrants). }
  assert (no_faults d → no_faults d') as Hnf' by (unfold no_faults; by rewrite Hf). split.
  - intros t (u & Hu & Hm). pose proof (Hnf _ _ _ Hm) as Hn. exists u.
    apply tenant_holders_manage; [auto..|]. apply Ht. by apply tenant_holders_manage.
  - intros (u & Hu & t & Hm). pose proof (Hnf _ _ _ Hm) as Hn. exists u.
    apply system_holders_manage; [auto..|]. apply Hs. apply system_holders_manage; eauto.
Qed.

Lemma commit_keeps_planes may d us rs d' :
  table_ok d → commit tenant may d us rs d' → planes_kept d d'.
Proof.
  intros Hok Hc. pose proof (commit_table_ok _ _ _ _ _ Hok Hc) as [Hok' Hf].
  destruct Hc as [d|d s t' ps sel desc by_ i now d' sys Hps _ _ Hi
    |d i before ps sel desc now d' s1 s2 Hps _ _ _ _ Hl Hu|d i stored d' _ Hl Hd|d i t' _|d i d1 d' n Hl H1 H2
    |d u ids d' sys _ _ Hl Hr|d u [|] d' us Hl Hu].
  - apply planes_kept_snapshot; [done..|]. by apply snapshot_le_self.
  - apply planes_kept_snapshot; [done..|].
    destruct (insert_grant_ok _ _ _ _ _ _ Hi Hps) as (_ & _ & _ & row & -> & _).
    apply snapshot_le_self; [|done..]. intros g (r & Hr & Hres)%elem_of_snapshot_grants.
    apply elem_of_snapshot_grants. exists r. split; [|done]. simpl. apply elem_of_app. by left.
  - eapply permitted_keeps; [..|eapply commits_snapshot; [|by eapply commit_update]]; eauto.
  - eapply permitted_keeps; [..|eapply commits_snapshot; [|by eapply commit_delete]]; eauto.
  - apply planes_kept_snapshot; [done..|]. by apply snapshot_le_self.
  - eapply permitted_keeps; [..|eapply commits_snapshot; [|by eapply commit_delete_role]]; eauto.
  - eapply permitted_keeps; [..|eapply commits_snapshot; [|by eapply commit_set_roles]]; eauto.
  - apply planes_kept_snapshot; [done..|]. unfold update_user_active_in_tx in Hu.
    destruct (db_fail d TUsers); [done|]. destruct (users d !! u); [|done]. injection Hu as <-.
    apply snapshot_le_self; [done..|]. simpl. intros v. rewrite !active_users_spec. simpl.
    destruct (decide (v = u)) as [-> |]; [by rewrite lookup_insert_eq|by rewrite lookup_insert_ne].
  - eapply permitted_keeps; [..|eapply commits_snapshot; [|by eapply commit_deactivate]]; eauto.
Qed.

#[local] Instance planes_kept_preorder : PreOrder planes_kept.
Proof. split; [done|]. intros d1 d2 d3 [T12 S12] [T23 S23]. split; auto. Qed.

(** C4: no escalation to the system plane. A request to any of the management endpoints by a caller
    whose authority does not include [system.access:manage] gives no user, in no tenant, an
    action of the system plane that the engine did not already grant: neither by a new grant, nor
    by changing one, nor by assigning a role that reaches it. This holds at every interleaving
    with other requests that do not either, so no number of such requests together does. *)
Theorem no_system_escalation (x : Faults) (c : Caller) (route : Route) (st : Store) (r : Response)
    (st' : Store) (es : list Event) :
  table_ok (core st) → ¬ holds_system_access c →
  runs (others no_gain) (serve tenant x c route) st r st' es →
  no_gain (core st) (core st').
Proof.
  intros Hok Hn. apply serve_keeps; [apply _| |done]. intros d us rs d' Hd. by apply commit_no_gain.
Qed.

(** C3: administrators are kept. Whatever management request runs, by whatever caller and among other
    requests that keep them, every tenant in which an active user could manage access still has
    such a user afterwards, and so does the system plane. *)
Theorem administrators_kept (x : Faults) (c : Caller) (route : Route) (st : Store) (r : Response)
    (st' : Store) (es : list Event) :
  table_ok (core st) →
  runs (others planes_kept) (serve tenant x c route) st r st' es →
  planes_kept (core st) (core st').
Proof. intros Hok. apply serve_keeps; [apply _| |done]. intros d us rs d' Hd. by apply commit_keeps_planes. Qed.

End Authority.

(** ** Invalidation *)

Section Invalidation.
Context `{SerdeSelector} (tenant : Uuid).

Notation Server := (Handler Store Event).

(** The handler only reads. *)
Definition readonly {R} (h : Server R) : Prop := ∀ st, (run h st).1.2 = st.

Lemma readonly_bind {A B} (h : Server A) (k : A → Server B) :
  readonly h → (∀ a, readonly (k a)) → readonly (h ≫= k).
Proof.
  intros Hh Hk st. rewrite run_bind. specialize (Hh st). destruct (run h st) as [[a st1] es1].
  simpl in Hh. subst. specialize (Hk a st). by destruct (run (k a) st) as [[b st2] es2].
Qed.

Lemma readonly_query {A B} (f : Store → A) (k : A → Server B) :
  (∀ a, readonly (k a)) → readonly (Handlers.query f ≫= k).
Proof. intros Hk. by apply readonly_bind. Qed.

Lemma readonly_answer d : readonly (answer d).
Proof.
  destruct d as [r es]. apply readonly_bind; [|done]. cbn [snd]. induction es as [|e es IH]; [done|].
  by apply readonly_bind.
Qed.

Lemma readonly_flush x row : readonly (flush x row).
Proof. unfold flush. by destruct (_ && _). Qed.

Lemma readonly_summaries u : readonly (get_user_role_summaries tenant u).
Proof. apply readonly_query. by intros [[|i l]|]. Qed.

Lemma readonly_response u : readonly (build_user_response tenant u).
Proof. apply readonly_bind; [apply readonly_summaries|done]. Qed.

Lemma readonly_user_answer u : readonly (user_answer tenant u).
Proof. apply readonly_bind; [apply readonly_response|done]. Qed.

Lemma readonly_user_responses us acc : readonly (build_user_responses tenant us acc).
Proof.
  revert acc. induction us as [|u us IH]; intros acc; [done|]. cbn [build_user_responses].
  apply readonly_bind; [apply readonly_response|]. intros [b|]; [apply IH|done].
Qed.

(** The handler announces these subjects, and leaves the tables of authority alone. *)
Definition announces (us rs : list Uuid) {R} (h : Server R) : Prop := ∀ st,
  core (run h st).1.2 = core st ∧ AccessInvalidated us rs ∈ (run h st).2 ∧ cache (engine (run h st).1.2) = ∅.

Lemma announces_then {A} us rs x row (k : unit → Server A) :
  (∀ a, readonly (k a)) → announces us rs (flush x row ≫= λ _, announce us rs ≫= k).
Proof.
  intros Hk st. rewrite run_bind. pose proof (readonly_flush x row st) as Hf.
  destruct (run (flush x row) st) as [[[] st1] es1]. simpl in Hf. subst. rewrite run_bind. simpl.
  match goal with |- context [run (k tt) ?s] => specialize (Hk tt s); destruct (run (k tt) s) as [[b st2] es2] end.
  simpl in Hk. subst. simpl. split_and!; [done|set_solver|done].
Qed.

(** What the request leaves: authority as it was, or one commit whose subjects it announced. *)
Definition told {R} (h : Server R) : Prop := ∀ st,
  core (run h st).1.2 = core st
  ∨ ∃ us rs, commit tenant True (core st) us rs (core (run h st).1.2)
      ∧ (us = [] ∧ rs = []
         ∨ AccessInvalidated us rs ∈ (run h st).2 ∧ cache (engine (run h st).1.2) = ∅).

Lemma told_readonly {R} (h : Server R) : readonly h → told h.
Proof. intros Hh st. left. by rewrite Hh. Qed.

Lemma told_bind {A B} (h : Server A) (k : A → Server B) :
  readonly h → (∀ a, told (k a)) → told (h ≫= k).
Proof.
  intros Hh Hk st. rewrite run_bind. specialize (Hh st). destruct (run h st) as [[a st1] es1].
  simpl in Hh. subst. specialize (Hk a st). destruct (run (k a) st) as [[b st2] es2]. simpl in *.
  destruct Hk as [?|(us & rs & Hc & Hk)]; [by left|]. right. exists us, rs. split; [done|].
  destruct Hk as [?|[? ?]]; [by left|right]. set_solver.
Qed.

Lemma told_query {A B} (f : Store → A) (k : A → Server B) : (∀ a, told (k a)) → told (Handlers.query f ≫= k).
Proof. intros Hk. by apply told_bind. Qed.

Lemma told_validated v k : told k → told (validated v k).
Proof. intros Hk. destruct v; [done|]. by apply told_readonly. Qed.

Lemma told_behind ext c (k : AuthApi.AuthenticatedUser → AccessAuthority → Server Response) :
  (∀ user a, told (k user a)) → told (behind ext c k).
Proof. intros Hk. apply told_query. intros [[user a]|]; [apply Hk|apply told_readonly, readonly_answer]. Qed.

Lemma told_transact {A} x nb (body : Tx A) (k : A → Server Response) :
  (∀ st a st', body st = Ok (a, st') →
     ∃ us rs, commit tenant True (core st) us rs (core st')
       ∧ (us = [] ∧ rs = [] ∧ readonly (k a) ∨ announces us rs (k a))) →
  told (transact x nb body k).
Proof.
  intros Hb. unfold transact. destruct (begin_ok x); [|apply told_readonly, readonly_answer].
  intros st. rewrite run_bind. simpl. destruct (body st) as [[a st']|d] eqn:E.
  - destruct (commit_ok x).
    + destruct (Hb _ _ _ E) as (us & rs & Hc & Hk). right. exists us, rs. destruct Hk as [(-> & -> & Hk)|Hk].
      * specialize (Hk st'). destruct (run (k a) st') as [[b st2] es2]. simpl in *. subst. auto.
      * specialize (Hk st'). destruct (run (k a) st') as [[b st2] es2]. simpl in *.
        destruct Hk as (-> & ? & ?). auto.
    + left. done.
  - left. pose proof (readonly_answer d st) as Ha. destruct (run (answer d) st) as [[b st2] es2].
    simpl in *. by subst.
Qed.

Lemma commit_true may d us rs d' : commit tenant may d us rs d' → commit tenant True d us rs d'.
Proof. by apply commit_mono. Qed.

Lemma announces_grant x s row r :
  announces (subject_invalidation_ids s).1 (subject_invalidation_ids s).2 (grant_done x s row r).
Proof. destruct s; by apply announces_then. Qed.

Lemma told_create x c body : told (create_access_grant tenant x c body).
Proof.
  apply told_behind. intros user a. apply told_validated.
  unfold parse_patterns. destruct (mapM _ _) as [ps|] eqn:Ep; [|by apply told_readonly].
  cbn [map_err]. apply mapM_parsed in Ep.
  destruct (patterns_reach_system_plane ps) as [sys|] eqn:Es; [|by apply told_readonly].
  apply told_bind; [by destruct sys|]. intros [d|]; [apply told_readonly, readonly_answer|].
  apply told_transact. intros st [res row] st' Htx. do 2 eexists. split.
  - eapply create_tx_ok; [exact Ep|exact Es|done|exact Htx].
  - right. apply announces_grant.
Qed.

Lemma told_update x c i body : told (update_access_grant tenant x c i body).
Proof.
  apply told_behind. intros user a. apply told_validated.
  unfold parse_patterns. destruct (mapM _ _) as [ps|] eqn:Ep; [|by apply told_readonly].
  cbn [map_err]. apply mapM_parsed in Ep.
  apply told_transact. intros st [[before after] row] st' Htx. do 2 eexists. split.
  - eapply commit_true, update_tx_ok; eauto.
  - right. apply announces_grant.
Qed.

Lemma told_delete x c i : told (delete_access_grant tenant x c i).
Proof.
  apply told_behind. intros user a. apply told_transact. intros st [stored row] st' Htx. do 2 eexists. split.
  - eapply commit_true, delete_tx_ok; eauto.
  - right. apply announces_grant.
Qed.

Lemma told_own_role i k : (∀ r, told (k r)) → told (own_role tenant i k).
Proof.
  intros Hk. apply told_query. intros [r|]; [|by apply told_readonly].
  destruct (built_in_immutable_response r); [by apply told_readonly|].
  destruct (bool_decide _); [by apply told_readonly|done].
Qed.

Lemma told_probe name ex k : told k → told (probe_name tenant name ex k).
Proof.
  intros Hk. apply told_query. intros [hit|]; [|by apply told_readonly].
  destruct (collision_response hit); [by apply told_readonly|done].
Qed.

Lemma told_create_role x c body : told (create_role tenant x c body).
Proof.
  apply told_behind. intros user a. apply told_validated, told_probe, told_transact.
  intros st [r row] st' Htx. exists [], []. split; [eapply create_role_tx_ok; eauto|left].
  split_and!; [done..|]. apply readonly_bind; [apply readonly_flush|done].
Qed.

Lemma told_update_role x c i body : told (update_role tenant x c i body).
Proof.
  apply told_behind. intros user a. apply told_validated, told_own_role. intros _. apply told_probe, told_transact.
  intros st [r row] st' Htx. exists [], []. split; [eapply update_role_tx_ok; eauto|left].
  split_and!; [done..|]. apply readonly_bind; [apply readonly_flush|done].
Qed.

Lemma told_delete_role x c i : told (delete_role tenant x c i).
Proof.
  apply told_behind. intros user a. apply told_own_role. intros existing. apply told_transact.
  intros st row st' Htx. do 2 eexists. split; [eapply commit_true, delete_role_tx_ok; eauto|right].
  by apply announces_then.
Qed.

Lemma told_user_roles x c u ids : told (update_user_roles tenant x c u ids).
Proof.
  apply told_behind. intros user a.
  destruct (validate_role_ids ids); [|apply told_readonly, readonly_answer].
  apply told_query. intros [[m|]|]; [|apply told_readonly, readonly_answer..].
  apply told_query. intros [rs|]; [|apply told_readonly, readonly_answer].
  destruct (negb _); [apply told_readonly, readonly_answer|].
  apply told_bind; [apply readonly_summaries|]. intros [l|]; [|apply told_readonly, readonly_answer].
  apply told_transact. intros st row st' Htx. do 2 eexists.
  split; [eapply commit_true, user_roles_tx_ok; eauto|right].
  apply announces_then. intros _. apply readonly_user_answer.
Qed.

Lemma told_user_active x c u active : told (update_user_active tenant x c u active).
Proof.
  apply told_behind. intros user a. destruct (negb active && _); [apply told_readonly, readonly_answer|].
  apply told_transact. intros st [[before after] row] st' Htx. destruct (bool_decide _) eqn:E.
  - exists [u], []. split; [eapply user_active_tx_ok; eauto|right].
    apply announces_then. intros _. apply readonly_user_answer.
  - exists [], []. split; [eapply user_active_tx_ok; eauto|left]. split_and!; [done..|].
    apply readonly_bind; [apply readonly_flush|intros _]. apply readonly_user_answer.
Qed.

Lemma told_profile x c u first last : told (update_profile x c u first last).
Proof.
  intros st. left. unfold update_profile. destruct (ca_user c) as [user|]; [|done].
  destruct (ca_authority c) as [auth|]; [|done]. rewrite run_bind.
  match goal with |- context [run ?h st] => assert (readonly h) as Hh end.
  { destruct (decide _); [done|]. by destruct (ready auth). }
  specialize (Hh st). destruct (run _ st) as [[[d|] st1] es1]; simpl in Hh; subst.
  - pose proof (readonly_answer d st) as Ha. destruct (run (answer d) st) as [[b st2] es2]. simpl in *. by subst.
  - unfold validated. destruct (validate_profile first last); [|done]. simpl.
    destruct (db_fail _ _) eqn:Ef; [done|]. destruct (user_meta st !! u) eqn:Em; [|done]. simpl.
    rewrite Ef, Em. done.
Qed.

Lemma serve_told x c route : told (serve tenant x c route).
Proof.
  destruct route; cbn [serve].
  1: apply told_create. 3: apply told_update. 3: apply told_delete. 5: apply told_create_role.
  5: apply told_update_role. 5: apply told_delete_role. 7: apply told_user_roles. 7: apply told_user_active.
  7: apply told_profile.
  all: apply told_behind; intros ? ?; apply told_readonly.
  - by destruct kind as [[]|], subject.
  - by apply readonly_query.
  - by apply readonly_query.
  - by apply readonly_query.
  - apply readonly_query. intros [us|]; [apply readonly_user_responses|done].
  - apply readonly_query. intros [[m|]|]; [apply readonly_user_answer|done..].
Qed.

(** *** Whose authority a commit changes *)

Lemma filter_eq {A} (P Q : A → Prop) `{!∀ x, Decision (P x), !∀ x, Decision (Q x)} (l : list A) :
  (∀ x, x ∈ l → P x → Q x) → filter P (filter Q l) = filter P l.
Proof.
  induction l as [|x l IH]; intros Hl; [done|].
  assert (filter P (filter Q l) = filter P l) as E by (apply IH; intros y Hy; apply Hl; set_solver).
  rewrite (filter_cons Q). destruct (decide (Q x)) as [|n].
  - rewrite !filter_cons, E. done.
  - rewrite (filter_cons P x), E. destruct (decide (P x)) as [p|]; [|done].
    exfalso. apply n, (Hl x); [left|done].
Qed.

Lemma filter_map_eq {A} (P : A → Prop) `{!∀ x, Decision (P x)} (f : A → A) (l : list A) :
  (∀ x, x ∈ l → f x = x ∨ ¬ P x ∧ ¬ P (f x)) → filter P (f <$> l) = filter P l.
Proof.
  induction l as [|x l IH]; intros Hl; [done|]. rewrite fmap_cons, !filter_cons, IH.
  - destruct (Hl x) as [-> |[? ?]]; [left|done|]. by rewrite !decide_False.
  - intros y Hy. apply Hl. by right.
Qed.

Notation mine := (λ t u a, as_tenant_id a = t ∧ as_user_id a = u).

Lemma load_authority_ext d d' now t u :
  db_fail d' = db_fail d →
  filter (mine t u) (user_roles d') = filter (mine t u) (user_roles d) →
  (∀ ids, load_role_ids d t u = Ok ids →
     filter (λ r, Is_true (principal_condition t u ids r)) (access_grants d')
     = filter (λ r, Is_true (principal_condition t u ids r)) (access_grants d)) →
  load_authority d' now t u = load_authority d now t u.
Proof.
  intros Hf Hr Hg. unfold load_authority, load_role_ids in *. rewrite Hf, Hr.
  destruct (db_fail d TUserRoles); [done|]. simpl.
  unfold load_principal_grants, load_grants_for_principal, Grants.query. rewrite Hf, (Hg _ eq_refl). done.
Qed.

(** A grant of a subject that is neither the user nor one of the user's roles. *)
Lemma not_principal d t u ids r :
  load_role_ids d t u = Ok ids → subject_from_row r ≠ User u →
  (∀ role, subject_from_row r = Role role → ¬ assigned d t u role) →
  ¬ Is_true (principal_condition t u ids r).
Proof.
  intros Hl Hu Hr. rewrite Is_true_true, principal_condition_spec.
  intros [[? _]|(role & ? & Hin)]; [done|]. apply (Hr role); [done|]. by eapply load_role_ids_ok.
Qed.

(** The principal is named: the user, or one of the user's roles before or after. *)
Definition named (us rs : list Uuid) (d d' : Db) (t u : Uuid) : Prop :=
  u ∈ us ∨ ∃ role, role ∈ rs ∧ (assigned d t u role ∨ assigned d' t u role).

Lemma subject_not_named s d d' t u :
  ¬ named (subject_invalidation_ids s).1 (subject_invalidation_ids s).2 d d' t u →
  s ≠ User u ∧ ∀ role, s = Role role → ¬ assigned d t u role.
Proof. unfold named. destruct s; simpl; set_solver. Qed.

Lemma load_grant_row d i g :
  load_grant d i = Ok g → ∃ r, r ∈ access_grants d ∧ id r = i ∧ subject_from_row r = rg_subject g.
Proof.
  unfold load_grant. intros Hl. inv_ok. apply query_ok in Ha as [-> _].
  destruct (find_by_id i (access_grants d)) as [r|] eqn:E; [|done]. apply map_err_ok in Hl.
  apply find_by_id_some in E as [? ?]. exists r. split_and!; [done..|].
  by destruct (resolve_row_fields _ _ Hl) as (_ & _ & -> & _).
Qed.

Lemma delete_role_rows_ok d i d1 :
  delete_role_rows d tenant i = Ok d1 →
  d1 = with_roles (delete i (roles d))
         (filter (λ a, as_role_id a ≠ i)
            (filter (λ a, ¬ (as_role_id a = i ∧ as_tenant_id a = tenant)) (user_roles d))) d.
Proof.
  unfold delete_role_rows, get_own_role. destruct (db_fail d TRoles); [done|].
  destruct (decide _); [|done]. simpl. destruct (db_fail d TUserRoles); [done|]. by intros [= <-].
Qed.

Lemma delete_role_unaffected d i d1 d' n now t u :
  delete_role_rows d tenant i = Ok d1 → delete_grants_for_role d1 i = Ok (d', n) →
  ¬ assigned d t u i → load_authority d' now t u = load_authority d now t u.
Proof.
  intros ->%delete_role_rows_ok H2 Hna. rewrite (delete_role_grants_ok _ _ _ _ H2). apply load_authority_ext; [done|simpl|simpl].
  - assert (∀ b, b ∈ user_roles d → mine t u b → as_role_id b ≠ i) as Hne.
    { intros [t' u' r'] Hb [Ht Hu] Hi. simpl in *. subst. done. }
    rewrite !filter_eq; [done|..].
    + intros b Hb Hm [Hi _]. by apply (Hne b).
    + intros b [_ Hb]%list_elem_of_filter Hm. by apply Hne.
  - intros ids Hids. apply filter_eq. intros r Hr Hp [Hst Hsi]. revert Hp.
    assert (subject_from_row r = Role i) as Hs by (unfold subject_from_row; by rewrite Hst, Hsi).
    apply (not_principal d); [done|by rewrite Hs|]. rewrite Hs. by intros role [= <-].
Qed.

Lemma commit_unaffected may d us rs d' now t u :
  table_ok d → commit tenant may d us rs d' → ¬ named us rs d d' t u →
  load_authority d' now t u = load_authority d now t u.
Proof.
  intros [Hnd _] Hc Hn.
  destruct Hc as [d|d s t' ps sel desc by_ i now' d' sys Hps _ _ Hi
    |d i before ps sel desc now' d' s1 s2 Hps Hb _ _ _ _ Hu|d i stored d' Hb _ Hd|d i t' _|d i d1 d' n _ H1 H2
    |d v ids d' sys _ _ _ Hr|d v active d' us _ Hu].
  - done.
  - apply subject_not_named in Hn as [Hu Hr].
    destruct (insert_grant_ok _ _ _ _ _ _ Hi Hps) as (_ & _ & _ & row & -> & _ & _ & Hrow & _).
    apply load_authority_ext; [done..|]. intros ids Hids. simpl. rewrite filter_app, filter_cons_False, app_nil_r; [done|].
    destruct (resolve_row_fields _ _ Hrow) as (_ & _ & Hs & _). simpl in Hs. subst. by apply (not_principal d).
  - apply subject_not_named in Hn as [Hnu Hr]. destruct (load_grant_row _ _ _ Hb) as (r0 & Hr0 & Hid & Hs).
    destruct (update_grant_ok _ _ _ _ _ Hu Hps) as (row & row' & Hin & Hi & -> & _ & Ht & Hsi & _).
    assert (row = r0) as -> by (eapply NoDup_id_unique; [exact Hnd|done..|congruence]).
    assert (subject_from_row row' = rg_subject before) as Hs' by (rewrite <-Hs; unfold subject_from_row; by rewrite Ht, Hsi).
    apply load_authority_ext; [done..|]. intros ids Hids. simpl. apply filter_map_eq. intros r Hrin.
    destruct (decide (id r = i)) as [E|]; [right|by left].
    assert (r = r0) as -> by (eapply NoDup_id_unique; [exact Hnd|done..|congruence]).
    split; apply (not_principal d); rewrite ?Hs, ?Hs'; done.
  - apply subject_not_named in Hn as [Hnu Hr]. destruct (load_grant_row _ _ _ Hb) as (r0 & Hr0 & Hid & Hs).
    rewrite (delete_grant_ok _ _ _ Hd). apply load_authority_ext; [done..|]. intros ids Hids. simpl.
    apply filter_eq. intros r Hrin Hp E. revert Hp.
    assert (r = r0) as -> by (eapply NoDup_id_unique; [exact Hnd|done..|congruence]).
    apply (not_principal d); rewrite ?Hs; done.
  - by apply load_authority_ext.
  - eapply delete_role_unaffected; eauto. intros ?. apply Hn. right. exists i. set_solver.
  - unfold replace_user_roles in Hr. destruct (db_fail d TUserRoles); [done|]. inv_ok.
    apply insert_user_roles_ok in Ha as ->. assert (u ≠ v) as Hne by (intros ->; apply Hn; left; set_solver).
    apply load_authority_ext; [done|simpl|done]. rewrite filter_app, filter_eq.
    + clear -Hne. induction ids as [|i ids IH]; [by rewrite app_nil_r|].
      rewrite fmap_cons, filter_cons_False; [done|]. simpl. naive_solver.
    + intros b _ [_ ?] [_ ?]. congruence.
  - unfold update_user_active_in_tx in Hu. destruct (db_fail d TUsers); [done|].
    destruct (users d !! v); [|done]. by injection Hu as <-.
Qed.

(** C5: invalidation is complete. When a management request has changed what the engine resolves for
    a user in a tenant, it has emptied this controller's cache and published an invalidation to
    the others that names the user or a role the user has in that tenant. *)
Theorem invalidation_complete (x : Faults) (c : Caller) (route : Route) (st : Store) (r : Response)
    (st' : Store) (es : list Event) (now : Instant) (t u : Uuid) :
  table_ok (core st) → run (serve tenant x c route) st = (r, st', es) →
  load_authority (core st') now t u ≠ load_authority (core st) now t u →
  cache (engine st') = ∅
  ∧ ∃ us rs, AccessInvalidated us rs ∈ es ∧ named us rs (core st) (core st') t u.
Proof.
  intros Hok Hr Hne. pose proof (serve_told x c route st) as Ht. rewrite Hr in Ht. simpl in Ht.
  destruct Ht as [E|(us & rs & Hc & Ht)]; [by rewrite E in Hne|].
  assert (¬ ¬ named us rs (core st) (core st') t u) as Hn.
  { intros Hn. by apply Hne; eapply commit_unaffected. }
  assert (Decision (named us rs (core st) (core st') t u)) as Hdec.
  { unfold named, assigned.
    destruct (decide (u ∈ us)); [by left; left|].
    destruct (decide (Exists (λ role, mkAssignment t u role ∈ user_roles (core st) ∨ mkAssignment t u role ∈ user_roles (core st')) rs))
      as [He|He]; rewrite Exists_exists in He; [left; right; naive_solver|right; naive_solver]. }
  destruct Hdec as [Hd|]; [|done]. destruct Ht as [[-> ->]|[? ?]]; [|eauto].
  exfalso. destruct Hd as [[]%elem_of_nil|(role & []%elem_of_nil & _)].
Qed.

End Invalidation.

(** ** The OR-gate *)

(** an OR-gate allows exactly when some action is allowed; when it refuses and some action was
    refused for another reason than a missing grant, the reason reported is the first of those. *)
Theorem authorize_any_exact `{SerdeSelector} (x : Faults) (e : AccessEngine) (ctx : AccessContext)
    (acts : list Action.Action) :
  ((authorize_any x e ctx acts).1 = Ok tt ↔ ∃ a, a ∈ acts ∧ authorize e ctx a = Allow)
  ∧ ∀ reason, (authorize_any x e ctx acts).1 = Err reason →
      reason = default NoGrant (head (omap (λ a, match authorize e ctx a with
                                                  | Deny NoGrant | Allow => None
                                                  | Deny r => Some r end) acts)).
Proof.
  set (f := λ a, match authorize e ctx a with Deny NoGrant | Allow => None | Deny r => Some r end).
  assert (∀ deny, (authorize_any_loop e ctx deny acts = None ↔ ∃ a, a ∈ acts ∧ authorize e ctx a = Allow)
    ∧ ∀ d, authorize_any_loop e ctx deny acts = Some d →
        default NoGrant d = match deny with
                            | None | Some NoGrant => default NoGrant (head (omap f acts))
                            | Some r => r end) as Hl.
  { induction acts as [|a acts IH]; intros deny; simpl.
    { split; [split; [done|by intros (? & []%elem_of_nil & _)]|]. intros d [= <-]. by destruct deny as [[]|]. }
    destruct (authorize e ctx a) eqn:E.
    { split; [split; [intros _; exists a; set_solver|done]|done]. }
    destruct (IH (match deny with None | Some NoGrant => Some reason | _ => deny end)) as [H1 H2]. split.
    - rewrite H1. split; [intros (b & ? & ?); exists b; set_solver|].
      intros (b & [-> |?]%elem_of_cons & Hb); [congruence|by exists b].
    - intros d Hd. rewrite (H2 d Hd).
      assert (f a = match reason with NoGrant => None | r => Some r end) as -> by (unfold f; rewrite E; by destruct reason).
      by destruct deny as [[]|], reason. }
  unfold authorize_any. destruct (Hl None) as [H1 H2]. destruct (authorize_any_loop e ctx None acts) as [d|]; simpl.
  - split; [split; [done|]; rewrite <-H1; done|]. intros r [= <-]. by rewrite (H2 d eq_refl).
  - split; [split; [intros _; by apply H1|done]|done].
Qed.

(** ** Examples *)

#[local] Existing Instance demo_serde.

(** Users 10 and 11 hold the built-in role 5 ([access:manage]) in tenant 1 and user 10 also the
    system plane; role 6 belongs to tenant 1, role 7 to tenant 2. *)
Definition demo_core : Db :=
  with_roles {[5%N := None; 6%N := Some 1%N; 7%N := Some 2%N]} (user_roles demo_db)
    (with_users {[10%N := true; 11%N := true; 12%N := true]} demo_db).
Definition demo_person : UserMeta := mkUserMeta "a@example.org" "A" "B" None 0.
Definition demo_store : Store :=
  mkStore demo_core
    {[5%N := mkRoleMeta "admin" None true 0; 6%N := mkRoleMeta "ops" None false 0;
      7%N := mkRoleMeta "theirs" None false 0]}
    {[10%N := demo_person; 11%N := demo_person; 12%N := demo_person]} [] Engine.new.

Definition demo_caller (u : Uuid) : Caller :=
  mkCaller (Some (AuthApi.mkAuthenticated u Auth.Password None))
    (match load_authority demo_core 0 1 u with Ok a => Some (Ready (mkContext u 1 a None)) | Err _ => None end) None.
Definition no_faults_drawn : Faults := mkFaults true true true true true 500 7.

Lemma demo_store_ok : table_ok (core demo_store).
Proof. exact demo_table_ok. Defined.

Lemma demo_caller_plain : ¬ holds_system_access (demo_caller 11).
Proof. intros (a & [= <-] & ctx & e & [= <-] & Ha). destruct e as [c [r|] t]; vm_compute in Ha; discriminate. Defined.

Definition demo_run (x : Faults) (u : Uuid) (route : Route) : Response * Store * list Event :=
  run (serve 1 x (demo_caller u) route) demo_store.

(** Giving user 12 the hosts of the tenant, without [system.access:manage]. *)
Definition demo_grant : Route := CreateGrant (mkCreateGrant (User 12) ["hosts:read"] All None).

Lemma no_system_escalation_witness :
  (demo_run no_faults_drawn 11 demo_grant).1.1
    = GrantBody 201 (mkGrantResponse 500 (Some 1%N) SubjectUser 12 ["hosts:read"] All None)
  ∧ no_gain demo_core (core (demo_run no_faults_drawn 11 demo_grant).1.2).
Proof.
  split; [vm_compute; reflexivity|].
  eapply (no_system_escalation 1 no_faults_drawn (demo_caller 11) demo_grant demo_store).
  - exact demo_store_ok.
  - exact demo_caller_plain.
  - apply run_runs.
Defined.

(** The same request for the system plane is refused, and counted. *)
Example system_grant_refused :
  demo_run no_faults_drawn 11 (CreateGrant (mkCreateGrant (User 11) ["system.*:*"] All None))
  = (ErrorWithCode 403 "This operation confers system-plane authority and requires system.access:manage" "forbidden",
     demo_store,
     [DenyCounted NoGrant;
      AuditEvent "access.denied" SystemScope (UserActor, Some 11%N) (OnAction SYSTEM_ACCESS_MANAGE) Denied "no_grant"]).
Proof. vm_compute. reflexivity. Qed.

(** Taking role 5 from user 11 leaves user 10 to manage access. *)
Lemma administrators_kept_witness :
  ∃ u, u ∈ active_users (core (demo_run no_faults_drawn 10 (PutUserRoles 11 [6%N])).1.2)
     ∧ manages (core (demo_run no_faults_drawn 10 (PutUserRoles 11 [6%N])).1.2) 1 u ACCESS_MANAGE.
Proof.
  eapply (administrators_kept 1 no_faults_drawn (demo_caller 10) (PutUserRoles 11 [6%N]) demo_store).
  - exact demo_store_ok.
  - apply run_runs.
  - exists 10%N. split; [vm_compute; reflexivity|]. eexists. split; vm_compute; reflexivity.
Defined.

Lemma invalidation_complete_witness :
  let out := demo_run no_faults_drawn 11 demo_grant in
  cache (engine out.1.2) = ∅
  ∧ ∃ us rs, AccessInvalidated us rs ∈ out.2 ∧ named us rs demo_core (core out.1.2) 1 12.
Proof.
  intros out.
  apply (invalidation_complete 1 no_faults_drawn (demo_caller 11) demo_grant demo_store out.1.1 out.1.2 out.2 0 1 12).
  - exact demo_store_ok.
  - vm_compute. reflexivity.
  - intros E. vm_compute in E. discriminate E.
Defined.

(** The audit row of a change of roles is not part of it: when the row cannot be written, the
    roles of user 12 are changed and announced all the same, and no row tells it. *)
Example unaudited_role_change :
  let out := demo_run (mkFaults true true true false true 500 7) 11 (PutUserRoles 12 [6%N]) in
  out.1.1 = UserBody (mkUserResponse (mkUserModel 12 "a@example.org" "A" "B" true) [(6%N, "ops")])
  ∧ user_roles (core out.1.2) = user_roles demo_core ++ [mkAssignment 1 12 6]
  ∧ audit_rows out.1.2 = [] ∧ out.2 = [AccessInvalidated [12%N] []].
Proof. vm_compute. auto. Qed.

(** A grant is not: without its row the transaction is given up. *)
Example unaudited_grant_refused :
  demo_run (mkFaults true true true false true 500 7) 11 demo_grant = (internal_error, demo_store, []).
Proof. vm_compute. reflexivity. Qed.

(** The role of another tenant is accepted in this one. *)
Example foreign_role_assigned :
  let out := demo_run no_faults_drawn 11 (PutUserRoles 12 [7%N]) in
  status out.1.1 = 200 ∧ roles (core out.1.2) !! 7%N = Some (Some 2%N)
  ∧ user_roles (core out.1.2) = user_roles demo_core ++ [mkAssignment 1 12 7].
Proof. vm_compute. auto. Qed.

(** Names of built-in roles are not given again, and built-in roles stay. *)
Example built_in_roles_kept :
  (demo_run no_faults_drawn 11 (PutRole 6 (mkRoleRequest "admin" None))).1.1
    = ErrorWithCode 409 "A global built-in role already uses this name" "role_name_shadows_global"
  ∧ (demo_run no_faults_drawn 11 (RemoveRole 5)).1.1
    = ErrorWithCode 409 "Built-in roles are immutable" "built_in_role_immutable".
Proof. vm_compute. auto. Qed.
